(* ===== verification/_CoqProject ===== *)
-Q . S2P
Prelude.v
Fifo.v
ByteRing.v
RingBuffer.v
BTree.v
Addr.v
PageStore.v
Mapper.v
Vma.v
VmaSet.v
VmaHoles.v
VmaSetInv.v
VmaSetOps.v
VmaSetSeq.v
VmaHistory.v
Tlb.v
FullSync.v
RangeSlot.v
PosixLock.v
PosixLockMgr.v
PageFlags.v
PageCache.v
PageCacheWrite.v
PageCacheFile.v
PageCacheRead.v
PageCacheSync.v
PageCacheDrop.v
BlockBackend.v
PageCacheHistory.v
PublishRace.v
SysvIpc.v
SysvSem.v
SemHistory.v
SemInvariant.v
SysvMsg.v
MsgHistory.v
PosixMq.v
SysvShm.v
IdAlloc.v
Sched.v
SchedInv.v
SchedSteps.v
SchedSafe.v
WaitQueue.v
WaitSafe.v
Slice.v
PipeRing.v
PipeRingInv.v
Pipe.v
PipeSafe.v
FifoReg.v
Creds.v
CredSafe.v
Assembler.v
AssemblerSpec.v
SockBuf.v
TcpSeq.v
TcpSocket.v
TcpProcess.v
TcpDispatch.v
TcpInv.v
TcpSafe.v
TcpOut.v
TcpStream.v
TcpFlow.v
TcpNet.v
Wire.v
TcpWire.v
TcpWireSpec.v
TcpWireTrip.v
TcpSendable.v
TcpIface.v
Jbd2.v
JournalDev.v
JournalRecovery.v
JournalTx.v
JournalLog.v
JournalWalk.v
JournalCrash.v
JournalHistory.v
