(* ===== verification/Prelude.v ===== *)
(** * MangoCore: a verification library

    MangoCore is a Unix-like multi-processor kernel in Rust ([os/]), with helper
    crates ([libs/]) and vendored crates ([dependency/]).  Paths below are relative to
    the source tree.  The library translates the parts of it that decide correctness
    of shared state into executable functions and proves what they promise.

    ** Conventions

    - A machine integer is a [Z] with its wrap-around written out: release kernels are
      built with [overflow-checks = false], so additions and subtractions of [usize]
      wrap.  A [nat] is used for indexes and lengths that cannot reach the word size.
    - A fallible operation returns [result A E] ([Ok] or [Err]).  [None] is a panic, a
      failed assertion, an access out of bounds, or, where the file says so, a call
      that goes to sleep.  Theorems that something does not happen are stated as
      [<> None].
    - Shared state with several actors is a transition system.  A step is one atomic
      access or one critical section of the source, and steps of different actors
      interleave freely.  Atomic accesses are sequentially consistent.
    - Reference-counted objects that are shared and mutated live in a heap and are named
      by an identity; values that have one owner are plain values.
    - What the code cannot control is an argument: whether an allocation succeeds, what
      a copy from user memory gives, the backend of a file, the order of deliveries of
      a network, the faults of a device.
    - Packages outside the tree are classes with the laws their documentation states
      ([ByteOrder], [BigEndian] in Wire.v); witnesses instantiate them.
    - Loops without a structural measure take fuel.  Fuel is always computed from the
      data (the number of pages of a range, of instructions of a filter, of records of a
      table, of blocks of a ring) and the theorems state that the loop returns, so that
      the fuel is enough.

    ** Parts and files

    Foundations.  Prelude.v (results, the monad notations, list and arithmetic lemmas,
    hint databases), BTree.v (ordered maps), Slice.v (copies in arrays), Fifo.v (the
    contract of bounded queues).

    Queues.  ByteRing.v is the UART receive ring ([uart_rx_ring.rs]), with the interrupt
    handler and the reader interleaved; RingBuffer.v the buffer of Unix sockets.  Both
    discharge the interface of Fifo.v, against which the results on histories are
    proved.

    Memory management ([os/src/mm/]).  Addr.v (addresses, ranges, layout), PageStore.v
    ([frame_store.rs]), Mapper.v ([page_table.rs] as a class with laws, [mmu_gather.rs],
    [user_mapper.rs]), Vma.v ([vma.rs]) and VmaSet.v ([vma_set.rs]).  VmaHoles.v,
    VmaSetInv.v, VmaSetOps.v and VmaSetSeq.v prove that every operation keeps the
    invariant described by [check_invariants] and changes the attributes of exactly the
    pages it should; VmaHistory.v lifts this to all histories of an address space, with
    the page table.  Tlb.v ([tlb.rs], [address_space.rs]) shows that no CPU uses a
    translation after the writer that removed it has returned; FullSync.v and
    RangeSlot.v are the two request protocols of [smp.rs] underneath.

    Page cache ([os/src/fs/page_cache.rs]).  PageFlags.v is the atomic word of a page
    and its competitors; PageCache.v, PageCacheRead.v, PageCacheSync.v and
    PageCacheDrop.v are the directory, the read and write paths, write-back, and the
    operations that drop pages; PageCacheWrite.v and PageCacheFile.v say what they do; BlockBackend.v is
    the backend on a block device; PageCacheHistory.v
    proves that the cache refines an array of bytes and that a successful sync is
    durable.  PublishRace.v shows a race of readers with truncation.

    File locks.  PosixLock.v and PosixLockMgr.v ([posix_lock.rs]): what a list of records
    means, exclusion, deadlock detection, and where blocked requests lose it.

    System V and POSIX IPC ([syscall/process/ipc.rs]).  SysvIpc.v, SysvSem.v,
    SemHistory.v, SemInvariant.v (semaphores: all or nothing, no lost wake-up), SysvMsg.v,
    MsgHistory.v (message queues: order per type), PosixMq.v (POSIX queues),
    SysvShm.v (life time of segments).

    Tasks ([os/src/task/]).  IdAlloc.v (identifiers are unique), Sched.v, SchedInv.v,
    SchedSteps.v, SchedSafe.v (every task has one owner; no ownership check fails, in any
    interleaving), WaitQueue.v, WaitSafe.v (no lost wake-up), Creds.v, CredSafe.v
    (credentials, capabilities, seccomp: privileges do not grow).

    Pipes ([os/src/fs/dev/pipe.rs]).  PipeRing.v, PipeRingInv.v (bounds and contents),
    Pipe.v, PipeSafe.v (a pipe is a byte stream), FifoReg.v (named pipes).

    TCP ([dependency/smoltcp/src/]).  Assembler.v, AssemblerSpec.v ([storage/assembler.rs]
    is a set of offsets), SockBuf.v ([storage/ring_buffer.rs]), TcpSeq.v,
    TcpSocket.v, TcpProcess.v, TcpDispatch.v ([socket/tcp.rs]: a socket with
    all its fields, [process] and [dispatch] in the order of the source).  TcpInv.v,
    TcpSafe.v, TcpOut.v: the invariant of a socket.  TcpStream.v,
    TcpFlow.v: what is received is what was sent.  TcpNet.v: two endpoints over a network
    that loses, repeats and reorders; also what lies outside the hypotheses.
    Wire.v, TcpWire.v ([wire/tcp.rs]) are the packets as bytes, with checksums;
    TcpWireSpec.v, TcpWireTrip.v their round trip; TcpSafe.v,
    TcpSendable.v, TcpIface.v ([iface/interface/mod.rs]) the way between packets and
    sockets: no bytes whatsoever make a host panic, and a network of bytes behaves like
    one of segments.

    How the parts meet: the operations of VmaSet.v run on the page table of Mapper.v and
    notify the page cache; Tlb.v starts where a change collector of Mapper.v is sealed.
    PageCache.v takes the backend as a class that BlockBackend.v implements.  WaitQueue.v
    relies on what Sched.v establishes of wakers, and SemHistory.v, PosixMq.v and
    Pipe.v on wait queues that wake everybody or one.  TcpIface.v composes the wire
    format with the sockets.

    ** Bounds

    Theorems carry the bounds they need as hypotheses: positions of a TCP stream stay
    within [2 ^ 30] of each other, page indexes below [2 ^ 52], file sizes below [2 ^ 63].
    They are those the code or the address layout enforces; where the code enforces none,
    the theorem says so and the component list records it.

    ** Not modelled

    - Device drivers, architecture code, boot, assembly, linker scripts, consoles: access
      to hardware registers, no state of their own that Rocq could decide.  Page tables of
      the two architectures are met through the [PageTable] class.
    - The rest of the system-call layer, the path walk and the file systems other than
      the parts named above (ext4 directories, extents and allocation, FAT, procfs, sysfs,
      devfs): mostly translation between user structures and the objects modelled here,
      or on-disk formats whose consistency depends on a device image.
    - Page faults, [mmap] with its flags, user-memory access, swapping policy, heap and
      frame allocators: their effect on areas and pages is in VmaSet.v and PageStore.v,
      their outcome is an argument.
    - Signals, process creation and exec, futexes, timers, tracing and performance
      counters.  Signals enter as events that may interrupt a wait at any time.
    - UDP, ICMP, IPv6, DHCP, ARP and fragmentation of the network stack, and the socket
      system calls above it.
    - Weak memory ordering, time (other than the timers of TCP), and the Rust borrow
      checker: exclusive borrows are taken as given.
    - Kernel tests, user programs, build tools. *)

From stdpp Require Import base numbers option list.
From Stdlib Require Import ZArith Lia.

#[global] Open Scope Z_scope.

(** * Machine integers

    The kernel is built with [overflow-checks = false], so the arithmetic
    operators of [usize], [u64], [u32] wrap.  A machine integer is a [Z]; each
    operator below writes out what the hardware operation does. *)

Definition usize_modulus : Z := 2 ^ 64.
Definition usize_max : Z := usize_modulus - 1.
Definition isize_max : Z := 2 ^ 63 - 1.
Definition u32_modulus : Z := 2 ^ 32.
Definition i64_max : Z := 2 ^ 63 - 1.

Definition is_usize (x : Z) : Prop := 0 <= x < usize_modulus.
Definition is_u32 (x : Z) : Prop := 0 <= x < u32_modulus.

Definition wrap64 (x : Z) : Z := x mod usize_modulus.
Definition wrap32 (x : Z) : Z := x mod u32_modulus.

(** [a + b], [a - b], [a * b] on [usize]/[u64] in the kernel profile. *)
Definition usize_add (a b : Z) : Z := wrap64 (a + b).
Definition usize_sub (a b : Z) : Z := wrap64 (a - b).
Definition usize_mul (a b : Z) : Z := wrap64 (a * b).

Definition checked_add (a b : Z) : option Z :=
  if a + b <=? usize_max then Some (a + b) else None.
Definition checked_sub (a b : Z) : option Z :=
  if b <=? a then Some (a - b) else None.
Definition checked_mul (a b : Z) : option Z :=
  if a * b <=? usize_max then Some (a * b) else None.

Definition saturating_add (a b : Z) : Z := Z.min (a + b) usize_max.
Definition saturating_sub (a b : Z) : Z := Z.max (a - b) 0.
Definition saturating_mul (a b : Z) : Z := Z.min (a * b) usize_max.

(** * Results

    [Result<T, E>]; a function that can also panic returns [option], [None]
    standing for the panic. *)

Inductive result (A E : Type) : Type :=
| Ok (a : A)
| Err (e : E).
Arguments Ok {A E} a.
Arguments Err {A E} e.

(** The error numbers used by the modelled code ([SyscallErr]). *)
Inductive SyscallErr :=
| EPERM | EINTR | EIO | E2BIG | EBADF | EAGAIN | ENOMEM | EACCES | EFAULT | EBUSY | EEXIST | EINVAL
| EFBIG | ENOSPC | ERANGE | EDEADLK | ENOMSG | EIDRM | EOVERFLOW | ENOBUFS | EADDRINUSE | ERESTART
| ENOENT | EMSGSIZE | ETIMEDOUT | ENAMETOOLONG | EPIPE | ENXIO | ESRCH | ENOSYS | EOPNOTSUPP.

#[export] Instance SyscallErr_eq_dec : EqDecision SyscallErr.
Proof. solve_decision. Defined.

(** * Notations for machine arithmetic *)

Declare Scope machine_scope.
Delimit Scope machine_scope with machine.
Notation "a +w b" := (usize_add a b) (at level 50, left associativity) : machine_scope.
Notation "a -w b" := (usize_sub a b) (at level 50, left associativity) : machine_scope.
Notation "a *w b" := (usize_mul a b) (at level 40, left associativity) : machine_scope.

(** * Proof automation *)

(** Lists of bytes; the lemmas are declared in Wire.v. *)
Create HintDb bytes.

(** Linear arithmetic with division and remainder by constants. *)
Ltac div_lia := Z.to_euclidean_division_equations; lia.

(** Unfold the machine-integer vocabulary and finish by arithmetic. *)
Ltac word_unfold :=
  unfold usize_add, usize_sub, usize_mul, checked_add, checked_sub, checked_mul,
    saturating_add, saturating_sub, saturating_mul, wrap64, wrap32, is_usize, is_u32,
    usize_max, isize_max, i64_max, usize_modulus, u32_modulus in *.
Ltac word_lia := word_unfold; div_lia.

(** Case analysis on the boolean integer comparisons of the goal and context. *)
Ltac case_cmp :=
  repeat match goal with
  | |- context [?a <? ?b] => destruct (Z.ltb_spec a b)
  | |- context [?a <=? ?b] => destruct (Z.leb_spec a b)
  | |- context [?a =? ?b] => destruct (Z.eqb_spec a b)
  | H : context [?a <? ?b] |- _ => destruct (Z.ltb_spec a b)
  | H : context [?a <=? ?b] |- _ => destruct (Z.leb_spec a b)
  | H : context [?a =? ?b] |- _ => destruct (Z.eqb_spec a b)
  end.

(** * Shared lemmas *)

Lemma wrap64_small x : is_usize x -> wrap64 x = x.
Proof. unfold is_usize, wrap64. intros H. by apply Z.mod_small. Qed.

Lemma usize_add_small a b : is_usize (a + b) -> usize_add a b = a + b.
Proof. apply wrap64_small. Qed.

Lemma usize_sub_small a b : is_usize (a - b) -> usize_sub a b = a - b.
Proof. apply wrap64_small. Qed.

Lemma checked_add_Some a b c : checked_add a b = Some c <-> c = a + b /\ a + b <= usize_max.
Proof. unfold checked_add. case_cmp; naive_solver lia. Qed.

Lemma checked_add_None a b : checked_add a b = None <-> usize_max < a + b.
Proof. unfold checked_add. case_cmp; naive_solver lia. Qed.

(** * Sums over lists *)

Definition zsum {A} (f : A -> Z) (l : list A) : Z := foldr (fun x n => f x + n) 0 l.

Section zsum.
Context {A : Type}.
Implicit Types (f : A -> Z) (l : list A).

Lemma zsum_app f l1 l2 : zsum f (l1 ++ l2) = zsum f l1 + zsum f l2.
Proof. induction l1 as [|x l1 IH]; simpl; [done|]. rewrite IH. lia. Qed.

Lemma zsum_split f l i x : l !! i = Some x -> zsum f l = zsum f (take i l) + f x + zsum f (drop (S i) l).
Proof.
  intros E. transitivity (zsum f (take i l ++ x :: drop (S i) l)); [by rewrite take_drop_middle|].
  rewrite zsum_app. simpl. lia.
Qed.

Lemma zsum_insert f l i x y : l !! i = Some x -> zsum f (<[i := y]> l) = zsum f l - f x + f y.
Proof.
  intros E. pose proof (lookup_lt_Some _ _ _ E) as Hi. rewrite (zsum_split f l i x E).
  rewrite (zsum_split f (<[i := y]> l) i y) by (by apply list_lookup_insert_eq).
  rewrite take_insert_ge, drop_insert_lt by lia. lia.
Qed.

Lemma zsum_delete f l i x : l !! i = Some x -> zsum f (delete i l) = zsum f l - f x.
Proof. intros E. rewrite delete_take_drop, zsum_app, (zsum_split f l i x E). lia. Qed.

Lemma zsum_bounds f l : (forall x, 0 <= f x <= 1) -> 0 <= zsum f l <= Z.of_nat (length l).
Proof. intros H. induction l as [|x l IH]; simpl; [lia|]. specialize (H x). lia. Qed.

Lemma zsum_ext f g l : (forall x, x ∈ l -> f x = g x) -> zsum f l = zsum g l.
Proof.
  induction l as [|x l IH]; intros H; simpl; [done|]. rewrite (H x) by (by left).
  rewrite IH; [done|]. intros y Hy. apply H. by right.
Qed.

Lemma zsum_zero f l : (forall x, x ∈ l -> f x = 0) -> zsum f l = 0.
Proof.
  intros H. rewrite (zsum_ext f (fun _ => 0) l H). clear H. induction l as [|x l IH]; simpl; [done|]. by rewrite IH.
Qed.

Lemma zsum_fmap {B} (g : A -> B) (f : B -> Z) l : zsum f (g <$> l) = zsum (fun x => f (g x)) l.
Proof. unfold zsum. induction l as [|x l IH]; csimpl; [done|]. by rewrite IH. Qed.

End zsum.

(** An update that keeps what a projection shows. *)
Lemma fmap_alter_same {A B} (g : A -> B) (f : A -> A) i (l : list A) : (forall x, g (f x) = g x) ->
  g <$> alter f i l = g <$> l.
Proof.
  intros H. apply list_eq. intros j. rewrite !list_lookup_fmap. destruct (decide (i = j)) as [->|E].
  - rewrite list_lookup_alter_eq. destruct (l !! j); [|done]. simpl. by rewrite H.
  - by rewrite list_lookup_alter_ne.
Qed.

Lemma filter_none {A} (P : A -> Prop) `{!forall x, Decision (P x)} (l : list A) :
  (forall x, x ∈ l -> ~ P x) -> filter P l = [].
Proof.
  induction l as [|x l IH]; intros Hn; [done|]. rewrite filter_cons, decide_False by (apply Hn; by left).
  apply IH. intros y Hy. apply Hn. by right.
Qed.
