(* ===== verification/Fifo.v ===== *)
(** Bounded FIFO interface.

    The kernel has two bounded queues with one contract: the UART receive ring
    ([libs/mango-kernel-core/src/uart_rx_ring.rs]) and the Unix-socket ring
    buffer ([os/src/net/socket/unix/ring_buffer.rs]).  [BoundedFifo] states that
    contract once; ByteRing.v and RingBuffer.v discharge it, and the results on
    operation sequences are proved here against the interface only. *)

From stdpp Require Import base option list.
From S2P Require Import Prelude.

(** ** The interface *)

(** Operations of a bounded queue.  [None] is a panic. *)
Class BoundedFifo (Q A : Type) := {
  fifo_push : Q -> A -> option (Q * bool);
  fifo_pop : Q -> option (Q * option A);
  fifo_contents : Q -> list A;
  fifo_capacity : Q -> nat;
  fifo_inv : Q -> Prop;
}.

Class BoundedFifoLaws (Q A : Type) `{BoundedFifo Q A} := {
  fifo_push_spec : forall q a, fifo_inv q ->
    exists q', fifo_inv q' /\ fifo_capacity q' = fifo_capacity q /\
      if bool_decide (length (fifo_contents q) < fifo_capacity q)%nat
      then fifo_push q a = Some (q', true) /\
           fifo_contents q' = fifo_contents q ++ [a]
      else fifo_push q a = Some (q', false) /\
           fifo_contents q' = fifo_contents q;
  fifo_pop_spec : forall q, fifo_inv q ->
    exists q', fifo_inv q' /\ fifo_capacity q' = fifo_capacity q /\
      fifo_pop q = Some (q', head (fifo_contents q)) /\
      fifo_contents q' = tail (fifo_contents q);
}.

(** ** Operation sequences *)

Inductive fifo_op (A : Type) := FPush (a : A) | FPop.
Arguments FPush {A} a.
Arguments FPop {A}.

Inductive fifo_out (A : Type) := OPushed (ok : bool) | OPopped (r : option A).
Arguments OPushed {A} ok.
Arguments OPopped {A} r.

(** The reference queue: a list with a length bound. *)
Definition spec_step {A} (cap : nat) (l : list A) (op : fifo_op A) : list A * fifo_out A :=
  match op with
  | FPush a =>
      if bool_decide (length l < cap)%nat then (l ++ [a], OPushed true) else (l, OPushed false)
  | FPop => (tail l, OPopped (head l))
  end.

Fixpoint spec_run {A} (cap : nat) (l : list A) (ops : list (fifo_op A))
    : list A * list (fifo_out A) :=
  match ops with
  | [] => (l, [])
  | op :: ops =>
      let '(l1, o) := spec_step cap l op in
      let '(l2, os) := spec_run cap l1 ops in (l2, o :: os)
  end.

Section runs.
Context {Q A : Type} `{BoundedFifoLaws Q A}.

Definition fifo_step (q : Q) (op : fifo_op A) : option (Q * fifo_out A) :=
  match op with
  | FPush a => '(q', ok) ← fifo_push q a; Some (q', OPushed ok)
  | FPop => '(q', r) ← fifo_pop q; Some (q', OPopped r)
  end.

Fixpoint fifo_run (q : Q) (ops : list (fifo_op A)) : option (Q * list (fifo_out A)) :=
  match ops with
  | [] => Some (q, [])
  | op :: ops =>
      '(q1, o) ← fifo_step q op;
      '(q2, os) ← fifo_run q1 ops; Some (q2, o :: os)
  end.

Lemma fifo_step_refines q op :
  fifo_inv q ->
  exists q', fifo_step q op = Some (q', snd (spec_step (fifo_capacity q) (fifo_contents q) op)) /\
    fifo_inv q' /\ fifo_capacity q' = fifo_capacity q /\
    fifo_contents q' = fst (spec_step (fifo_capacity q) (fifo_contents q) op).
Proof.
  intros Hinv. destruct op as [a|]; simpl.
  - destruct (fifo_push_spec q a Hinv) as (q' & Hi & Hc & Hif).
    case_bool_decide; destruct Hif as [Hp Hcont]; rewrite Hp; simpl; eauto.
  - destruct (fifo_pop_spec q Hinv) as (q' & Hi & Hc & Hp & Hcont).
    rewrite Hp; simpl; eauto.
Qed.

(** A queue that meets the interface answers every sequence of operations as
    the reference queue does, and never panics. *)
Lemma fifo_run_refines ops : forall q,
  fifo_inv q ->
  exists q', fifo_run q ops = Some (q', snd (spec_run (fifo_capacity q) (fifo_contents q) ops)) /\
    fifo_inv q' /\
    fifo_contents q' = fst (spec_run (fifo_capacity q) (fifo_contents q) ops).
Proof.
  induction ops as [|op ops IH]; intros q Hinv; simpl; [eauto|].
  destruct (fifo_step_refines q op Hinv) as (q1 & Hs & Hi1 & Hc1 & Hcont).
  destruct (IH q1 Hi1) as (q2 & Hr & Hi2 & Hc2).
  rewrite Hc1, Hcont in Hr, Hc2.
  rewrite Hs; simpl; rewrite Hr; simpl.
  destruct (spec_step _ _ op) as [l1 o]; simpl in *.
  destruct (spec_run _ l1 ops) as [l2 os]; simpl in *; eauto.
Qed.
End runs.

Lemma spec_run_bounded {A} cap (ops : list (fifo_op A)) : forall l,
  (length l <= cap)%nat -> (length (fst (spec_run cap l ops)) <= cap)%nat.
Proof.
  induction ops as [|op ops IH]; intros l Hl; simpl; [done|].
  destruct (spec_step cap l op) as [l1 o] eqn:E.
  specialize (IH l1). destruct (spec_run cap l1 ops) as [l2 os]; simpl in *.
  apply IH. destruct op; simpl in E.
  - case_bool_decide; simplify_eq; rewrite ?length_app; simpl; lia.
  - simplify_eq. destruct l; simpl in *; lia.
Qed.
