(* ===== verification/ByteRing.v ===== *)
(** UART receive ring: [libs/mango-kernel-core/src/uart_rx_ring.rs].

    A fixed array with one reserved slot, a producer index [head] and a consumer
    index [tail].  The ring is used from an interrupt handler (the only producer)
    and from task context (the only consumer), so beside the sequential
    operations this file models [push] and [pop] as the sequences of atomic
    accesses the code performs and lets the two sides interleave freely.
    Interleaving is sequentially consistent; the Release/Acquire pairs of the
    source are what makes that a sound view of the two indices. *)

From stdpp Require Import base numbers list option relations.
From S2P Require Import Prelude Fifo.

(** ** Data and sequential operations *)

(** [bytes], [head] and [tail] of [ByteRing<CAPACITY>]. *)
Record ByteRing (CAPACITY : nat) := mkByteRing {
  bytes : list Z;
  ring_head : nat;
  ring_tail : nat;
}.
Arguments mkByteRing {CAPACITY} bytes ring_head ring_tail.
Arguments bytes {CAPACITY} b.
Arguments ring_head {CAPACITY} b.
Arguments ring_tail {CAPACITY} b.

Section ring.
Context (CAPACITY : nat).

(** [None] is the failing [assert!(CAPACITY > 1)]. *)
Definition new : option (ByteRing CAPACITY) :=
  if (1 <? CAPACITY)%nat
  then Some (mkByteRing (replicate CAPACITY 0%Z) 0 0)
  else None.

Definition next (index : nat) : nat := ((index + 1) mod CAPACITY)%nat.

(** [None] is the out-of-bounds panic of [self.bytes[head]]. *)
Definition push (r : ByteRing CAPACITY) (byte : Z) : option (ByteRing CAPACITY * bool) :=
  let head := ring_head r in
  let nx := next head in
  if (nx =? ring_tail r)%nat then Some (r, false)
  else
    _ ← bytes r !! head;
    Some (mkByteRing (<[head := byte]> (bytes r)) nx (ring_tail r), true).

Definition pop (r : ByteRing CAPACITY) : option (ByteRing CAPACITY * option Z) :=
  let tail := ring_tail r in
  if (tail =? ring_head r)%nat then Some (r, None)
  else
    byte ← bytes r !! tail;
    Some (mkByteRing (bytes r) (ring_head r) (next tail), Some byte).

Definition has_space (r : ByteRing CAPACITY) : bool :=
  let head := ring_head r in
  negb (next head =? ring_tail r)%nat.

(** ** Abstraction: the unread bytes, oldest first *)

Definition slot (base k : nat) : nat := ((base + k) mod CAPACITY)%nat.

Definition count (r : ByteRing CAPACITY) : nat :=
  ((ring_head r + CAPACITY - ring_tail r) mod CAPACITY)%nat.

Definition contents (r : ByteRing CAPACITY) : list Z :=
  map (fun k => bytes r !!! slot (ring_tail r) k) (seq 0 (count r)).

Record ring_wf (r : ByteRing CAPACITY) : Prop := {
  wf_cap : (1 < CAPACITY)%nat;
  wf_len : length (bytes r) = CAPACITY;
  wf_head : (ring_head r < CAPACITY)%nat;
  wf_tail : (ring_tail r < CAPACITY)%nat;
}.

(** ** The two sides as sequences of atomic accesses *)

(** Where the producer is inside [push]: before the call, after loading [head],
    after the fullness check against [tail], after storing the byte. *)
Inductive producer_pc :=
| PIdle
| PLoaded (byte : Z) (h : nat)
| PChecked (byte : Z) (h nx : nat)
| PStored (byte : Z) (h nx : nat).

(** Where the consumer is inside [pop]: before the call, after loading [tail],
    after the emptiness check against [head], after loading the byte. *)
Inductive consumer_pc :=
| CIdle
| CLoaded (t : nat)
| CChecked (t : nat)
| CRead (t : nat) (byte : Z).

(** [produced] are the bytes whose [push] returned true, [consumed] the bytes
    [pop] returned, both in order. *)
Record conf := mkConf {
  ring : ByteRing CAPACITY;
  ppc : producer_pc;
  cpc : consumer_pc;
  produced : list Z;
  consumed : list Z;
}.

Inductive step : conf -> conf -> Prop :=
| step_push_load r c ps cs byte :
    step (mkConf r PIdle c ps cs) (mkConf r (PLoaded byte (ring_head r)) c ps cs)
| step_push_full r c ps cs byte h :
    next h = ring_tail r ->
    step (mkConf r (PLoaded byte h) c ps cs) (mkConf r PIdle c ps cs)
| step_push_check r c ps cs byte h :
    next h <> ring_tail r ->
    step (mkConf r (PLoaded byte h) c ps cs) (mkConf r (PChecked byte h (next h)) c ps cs)
| step_push_store r c ps cs byte h nx old :
    bytes r !! h = Some old ->
    step (mkConf r (PChecked byte h nx) c ps cs)
         (mkConf (mkByteRing (<[h := byte]> (bytes r)) (ring_head r) (ring_tail r))
                 (PStored byte h nx) c ps cs)
| step_push_publish r c ps cs byte h nx :
    step (mkConf r (PStored byte h nx) c ps cs)
         (mkConf (mkByteRing (bytes r) nx (ring_tail r)) PIdle c (ps ++ [byte]) cs)
| step_pop_load r p ps cs :
    step (mkConf r p CIdle ps cs) (mkConf r p (CLoaded (ring_tail r)) ps cs)
| step_pop_empty r p ps cs t :
    t = ring_head r ->
    step (mkConf r p (CLoaded t) ps cs) (mkConf r p CIdle ps cs)
| step_pop_check r p ps cs t :
    t <> ring_head r ->
    step (mkConf r p (CLoaded t) ps cs) (mkConf r p (CChecked t) ps cs)
| step_pop_read r p ps cs t byte :
    bytes r !! t = Some byte ->
    step (mkConf r p (CChecked t) ps cs) (mkConf r p (CRead t byte) ps cs)
| step_pop_publish r p ps cs t byte :
    step (mkConf r p (CRead t byte) ps cs)
         (mkConf (mkByteRing (bytes r) (ring_head r) (next t)) p CIdle ps (cs ++ [byte])).

Definition initial (c : conf) : Prop :=
  exists r, new = Some r /\ c = mkConf r PIdle CIdle [] [].

Definition producer_ok (r : ByteRing CAPACITY) (p : producer_pc) : Prop :=
  match p with
  | PIdle => True
  | PLoaded _ h => h = ring_head r
  | PChecked _ h nx => h = ring_head r /\ nx = next h /\ nx <> ring_tail r
  | PStored b h nx =>
      h = ring_head r /\ nx = next h /\ nx <> ring_tail r /\ bytes r !! h = Some b
  end.

Definition consumer_ok (r : ByteRing CAPACITY) (c : consumer_pc) : Prop :=
  match c with
  | CIdle => True
  | CLoaded t => t = ring_tail r
  | CChecked t => t = ring_tail r /\ t <> ring_head r
  | CRead t b => t = ring_tail r /\ t <> ring_head r /\ bytes r !! t = Some b
  end.

Record conf_inv (c : conf) : Prop := {
  ci_wf : ring_wf (ring c);
  ci_prod : producer_ok (ring c) (ppc c);
  ci_cons : consumer_ok (ring c) (cpc c);
  ci_hist : produced c = consumed c ++ contents (ring c);
}.

(** ** Arithmetic of slots *)

Lemma next_lt i : (1 < CAPACITY)%nat -> (next i < CAPACITY)%nat.
Proof. intros H. unfold next. apply Nat.mod_upper_bound. lia. Qed.

Lemma next_cases i : (1 < CAPACITY)%nat -> (i < CAPACITY)%nat ->
  (next i = i + 1 /\ i + 1 < CAPACITY)%nat \/ (next i = 0 /\ i + 1 = CAPACITY)%nat.
Proof.
  intros Hc Hi. unfold next. destruct (decide (i + 1 = CAPACITY)%nat) as [->|].
  - right. rewrite Nat.Div0.mod_same. lia.
  - left. rewrite Nat.mod_small; lia.
Qed.

Lemma count_cases (r : ByteRing CAPACITY) : ring_wf r ->
  (ring_tail r <= ring_head r /\ count r = ring_head r - ring_tail r)%nat \/
  (ring_head r < ring_tail r /\ count r = ring_head r + CAPACITY - ring_tail r)%nat.
Proof.
  intros [Hc _ Hh Ht]. unfold count.
  destruct (decide (ring_tail r <= ring_head r)%nat).
  - left. split; [done|].
    replace (ring_head r + CAPACITY - ring_tail r)%nat
      with (ring_head r - ring_tail r + 1 * CAPACITY)%nat by lia.
    rewrite Nat.Div0.mod_add, Nat.mod_small; lia.
  - right. split; [lia|]. rewrite Nat.mod_small; lia.
Qed.

Lemma slot_cases base k : (base < CAPACITY)%nat -> (k < CAPACITY)%nat ->
  (slot base k = base + k /\ base + k < CAPACITY)%nat \/
  (slot base k = base + k - CAPACITY /\ CAPACITY <= base + k)%nat.
Proof.
  intros Hb Hk. unfold slot. destruct (decide (base + k < CAPACITY)%nat).
  - left. rewrite Nat.mod_small; lia.
  - right. split; [|lia].
    replace (base + k)%nat with (base + k - CAPACITY + 1 * CAPACITY)%nat at 1 by lia.
    rewrite Nat.Div0.mod_add, Nat.mod_small; lia.
Qed.

Lemma slot_next base k :
  (1 < CAPACITY)%nat -> slot (next base) k = slot base (S k).
Proof.
  intros Hc. unfold slot, next.
  rewrite Nat.Div0.add_mod_idemp_l. f_equal. lia.
Qed.

(** Occupied slots never include the producer's slot. *)
Lemma slot_ne_head (r : ByteRing CAPACITY) k : ring_wf r -> (k < count r)%nat -> slot (ring_tail r) k <> ring_head r.
Proof.
  intros Hwf Hk. pose proof (count_cases r Hwf). destruct Hwf as [Hc _ Hh Ht].
  destruct (slot_cases (ring_tail r) k Ht) as [|]; lia.
Qed.

Lemma count_zero (r : ByteRing CAPACITY) : ring_wf r -> count r = 0%nat <-> ring_tail r = ring_head r.
Proof. intros Hwf. pose proof (count_cases r Hwf). destruct Hwf. lia. Qed.

Lemma count_full (r : ByteRing CAPACITY) : ring_wf r -> next (ring_head r) = ring_tail r <-> count r = (CAPACITY - 1)%nat.
Proof.
  intros Hwf. pose proof (count_cases r Hwf). destruct Hwf as [Hc _ Hh Ht].
  destruct (next_cases (ring_head r) Hc Hh); lia.
Qed.

Lemma count_bound (r : ByteRing CAPACITY) : ring_wf r -> (count r <= CAPACITY - 1)%nat.
Proof. intros Hwf. pose proof (count_cases r Hwf). destruct Hwf. lia. Qed.

Lemma count_tail_next (r : ByteRing CAPACITY) : ring_wf r -> ring_tail r <> ring_head r ->
  count r = S (count (mkByteRing (bytes r) (ring_head r) (next (ring_tail r)))).
Proof.
  intros Hwf Hne.
  pose proof (count_cases r Hwf) as H1. pose proof Hwf as [Hc Hl Hh Ht].
  assert (Hwf' : ring_wf (mkByteRing (bytes r) (ring_head r) (next (ring_tail r)))).
  { split; simpl; try done. by apply next_lt. }
  pose proof (count_cases _ Hwf') as H2. simpl in *.
  destruct (next_cases (ring_tail r) Hc Ht); lia.
Qed.

Lemma count_head_next (r : ByteRing CAPACITY) bs : ring_wf r -> next (ring_head r) <> ring_tail r ->
  length bs = CAPACITY ->
  count (mkByteRing bs (next (ring_head r)) (ring_tail r)) = S (count r).
Proof.
  intros Hwf Hne Hl.
  pose proof (count_cases r Hwf) as H1. pose proof Hwf as [Hc _ Hh Ht].
  assert (Hwf' : ring_wf (mkByteRing bs (next (ring_head r)) (ring_tail r))).
  { split; simpl; try done. by apply next_lt. }
  pose proof (count_cases _ Hwf') as H2. simpl in *.
  destruct (next_cases (ring_head r) Hc Hh); lia.
Qed.

(** ** Contents under each access *)

Lemma contents_store_head (r : ByteRing CAPACITY) b : ring_wf r ->
  contents (mkByteRing (<[ring_head r := b]> (bytes r)) (ring_head r) (ring_tail r)) = contents r.
Proof.
  intros Hwf. unfold contents, count; simpl. apply map_ext_in.
  intros k [_ Hk]%in_seq. rewrite list_lookup_total_insert_ne; [done|].
  apply not_eq_sym, slot_ne_head; done.
Qed.

Lemma contents_publish (r : ByteRing CAPACITY) b : ring_wf r -> next (ring_head r) <> ring_tail r ->
  bytes r !! ring_head r = Some b ->
  contents (mkByteRing (bytes r) (next (ring_head r)) (ring_tail r)) = contents r ++ [b].
Proof.
  intros Hwf Hne Hb. unfold contents.
  rewrite count_head_next by (done || apply Hwf).
  rewrite seq_S, map_app; simpl. f_equal. f_equal.
  apply list_lookup_total_correct. rewrite <- Hb. f_equal.
  pose proof (count_cases r Hwf). destruct Hwf as [Hc _ Hh Ht].
  destruct (slot_cases (ring_tail r) (count r) Ht) as [[-> ?]|[-> ?]]; lia.
Qed.

Lemma contents_consume (r : ByteRing CAPACITY) b : ring_wf r -> ring_tail r <> ring_head r ->
  bytes r !! ring_tail r = Some b ->
  contents r = b :: contents (mkByteRing (bytes r) (ring_head r) (next (ring_tail r))).
Proof.
  intros Hwf Hne Hb. unfold contents at 1.
  rewrite count_tail_next by done. simpl. f_equal.
  - apply list_lookup_total_correct. rewrite <- Hb. f_equal. unfold slot.
    destruct Hwf. rewrite Nat.add_0_r, Nat.mod_small; lia.
  - unfold contents; simpl. rewrite <- seq_shift, map_map. apply map_ext.
    intros k. rewrite slot_next; [done|apply Hwf].
Qed.

Lemma contents_length (r : ByteRing CAPACITY) : length (contents r) = count r.
Proof. unfold contents. by rewrite length_map, length_seq. Qed.

Lemma slot_lookup (r : ByteRing CAPACITY) i : ring_wf r -> (i < CAPACITY)%nat -> exists b, bytes r !! i = Some b.
Proof. intros [_ Hl _ _] Hi. apply lookup_lt_is_Some. lia. Qed.
(** ** Sequential behaviour: the ring is a bounded queue of [CAPACITY - 1] bytes *)

Lemma new_wf r : new = Some r -> ring_wf r /\ contents r = [].
Proof.
  unfold new. destruct (Nat.ltb_spec 1 CAPACITY); [|done]. intros [= <-].
  split; [|unfold contents, count; simpl; by rewrite Nat.sub_0_r, Nat.Div0.mod_same].
  split; simpl; rewrite ?length_replicate; lia.
Qed.

Lemma store_wf (r : ByteRing CAPACITY) i b :
  ring_wf r -> ring_wf (mkByteRing (<[i := b]> (bytes r)) (ring_head r) (ring_tail r)).
Proof. intros [? ? ? ?]. split; simpl; rewrite ?length_insert; done. Qed.

Lemma publish_wf (r : ByteRing CAPACITY) i :
  ring_wf r -> ring_wf (mkByteRing (bytes r) (next i) (ring_tail r)).
Proof. intros [? ? ? ?]. split; simpl; auto using next_lt. Qed.

Lemma consume_wf (r : ByteRing CAPACITY) i :
  ring_wf r -> ring_wf (mkByteRing (bytes r) (ring_head r) (next i)).
Proof. intros [? ? ? ?]. split; simpl; auto using next_lt. Qed.

Lemma push_spec (r : ByteRing CAPACITY) b : ring_wf r ->
  exists r', ring_wf r' /\
    if bool_decide (count r < CAPACITY - 1)%nat
    then push r b = Some (r', true) /\ contents r' = contents r ++ [b]
    else push r b = Some (r', false) /\ contents r' = contents r.
Proof.
  intros Hwf. pose proof (count_full r Hwf) as Hfull. pose proof (count_bound r Hwf).
  unfold push. destruct (Nat.eqb_spec (next (ring_head r)) (ring_tail r)) as [E|E].
  - exists r. rewrite bool_decide_eq_false_2 by lia. done.
  - destruct (slot_lookup r (ring_head r) Hwf (wf_head _ Hwf)) as [o Ho]. rewrite Ho; simpl.
    rewrite bool_decide_eq_true_2 by lia.
    pose proof (store_wf r (ring_head r) b Hwf) as Hst.
    eexists; split; [apply (publish_wf _ (ring_head r) Hst)|]. split; [done|].
    rewrite <- (contents_store_head r b Hwf).
    apply (contents_publish (mkByteRing (<[ring_head r := b]> (bytes r)) (ring_head r) (ring_tail r)));
      try done.
    simpl. apply list_lookup_insert_eq. rewrite (wf_len _ Hwf). apply Hwf.
Qed.

Lemma pop_spec (r : ByteRing CAPACITY) : ring_wf r ->
  exists r', ring_wf r' /\ pop r = Some (r', head (contents r)) /\
    contents r' = tail (contents r).
Proof.
  intros Hwf. unfold pop. destruct (Nat.eqb_spec (ring_tail r) (ring_head r)) as [E|E].
  - exists r. assert (contents r = []) as ->; [|done].
    apply length_zero_iff_nil. rewrite contents_length. by apply count_zero.
  - destruct (slot_lookup r (ring_tail r) Hwf (wf_tail _ Hwf)) as [b Hb]. rewrite Hb; simpl.
    rewrite (contents_consume r b) by done. eauto using consume_wf.
Qed.

(** ** Interleaved behaviour *)

Lemma conf_inv_initial c : initial c -> conf_inv c.
Proof.
  intros (r & Hn & ->). destruct (new_wf r Hn) as [? Hc]. split; simpl; done.
Qed.

(** The producer's store cannot disturb a byte the consumer has already read:
    the consumer only reads occupied slots. *)
Lemma conf_inv_store r c ps cs b h nx :
  conf_inv (mkConf r (PChecked b h nx) c ps cs) ->
  conf_inv (mkConf (mkByteRing (<[h := b]> (bytes r)) (ring_head r) (ring_tail r))
                   (PStored b h nx) c ps cs).
Proof.
  intros [Hwf [-> [-> Hne]] Hc Hh]; simpl in *. split; simpl.
  - by apply store_wf.
  - repeat split; try done. apply list_lookup_insert_eq. rewrite (wf_len _ Hwf). apply Hwf.
  - destruct c as [|t|t|t v]; simpl in *; try done.
    destruct Hc as (-> & Hne' & Hv). rewrite list_lookup_insert_ne; done.
  - by rewrite contents_store_head.
Qed.

Lemma conf_inv_publish r c ps cs b h nx :
  conf_inv (mkConf r (PStored b h nx) c ps cs) ->
  conf_inv (mkConf (mkByteRing (bytes r) nx (ring_tail r)) PIdle c (ps ++ [b]) cs).
Proof.
  intros [Hwf (-> & -> & Hne & Hb) Hc Hh]; simpl in *. split; simpl; try done.
  - by apply publish_wf.
  - destruct c as [|t|t|t v]; simpl in *; naive_solver.
  - rewrite (contents_publish r b) by done. rewrite Hh. by rewrite app_assoc.
Qed.

Lemma conf_inv_consume r p ps cs t b :
  conf_inv (mkConf r p (CRead t b) ps cs) ->
  conf_inv (mkConf (mkByteRing (bytes r) (ring_head r) (next t)) p CIdle ps (cs ++ [b])).
Proof.
  intros [Hwf Hp (-> & Hne & Hb) Hh]; simpl in *. split; simpl; try done.
  - by apply consume_wf.
  - pose proof Hwf as [Hc _ Hhd Htl]. pose proof (count_tail_next r Hwf Hne) as Hct.
    pose proof (count_full _ (consume_wf r (ring_tail r) Hwf)) as Hfull.
    pose proof (count_bound r Hwf). simpl in *.
    destruct p as [|? h|? h nx|? h nx]; simpl in *; destruct_and?; subst; repeat split; try done;
      intros E; apply Hfull in E; lia.
  - rewrite (contents_consume r b) in Hh by done. by rewrite <- app_assoc.
Qed.

Lemma conf_inv_step c c' : conf_inv c -> step c c' -> conf_inv c'.
Proof.
  intros Hi Hs. destruct Hs; eauto using conf_inv_store, conf_inv_publish, conf_inv_consume;
    destruct Hi as [Hwf Hp Hc Hh]; simpl in *; split; simpl; naive_solver.
Qed.

Lemma conf_inv_reachable c c' : conf_inv c -> rtc step c c' -> conf_inv c'.
Proof. intros Hi Hr. induction Hr; eauto using conf_inv_step. Qed.
End ring.

Arguments new_wf {CAPACITY} r.
Arguments push_spec {CAPACITY} r b.
Arguments pop_spec {CAPACITY} r.

#[export] Instance byte_ring_fifo {CAPACITY} : BoundedFifo (ByteRing CAPACITY) Z := {
  fifo_push := push CAPACITY;
  fifo_pop := pop CAPACITY;
  fifo_contents := contents CAPACITY;
  fifo_capacity := fun _ => (CAPACITY - 1)%nat;
  fifo_inv := ring_wf CAPACITY;
}.

#[export] Instance byte_ring_fifo_laws {CAPACITY} : BoundedFifoLaws (ByteRing CAPACITY) Z.
Proof.
  split; simpl.
  - intros r b Hwf. destruct (push_spec r b Hwf) as (r' & ? & H).
    exists r'. rewrite contents_length. done.
  - intros r Hwf. destruct (pop_spec r Hwf) as (r' & ? & ? & ?). eauto.
Qed.

(** ** Properties *)

(** Driven from a fresh ring by any sequence of pushes and pops, the ring
    never panics and gives the answers of a FIFO queue bounded by
    [CAPACITY - 1]: a push fails exactly when that many bytes are unread, a pop
    returns the oldest unread byte, nothing is overwritten or reordered. *)
Theorem byte_ring_refines_fifo CAPACITY (r : ByteRing CAPACITY) ops :
  new CAPACITY = Some r ->
  exists r', fifo_run r ops = Some (r', snd (spec_run (CAPACITY - 1) [] ops)) /\
    ring_wf CAPACITY r' /\
    contents CAPACITY r' = fst (spec_run (CAPACITY - 1) [] ops).
Proof.
  intros Hnew. destruct (new_wf r Hnew) as [Hwf Hc].
  pose proof (fifo_run_refines ops r) as Hrun.
  destruct (Hrun Hwf) as (r' & Hr & Hi & Hc').
  simpl in *. rewrite Hc in Hr, Hc'. eauto.
Qed.

Lemma byte_ring_refines_fifo_witness : exists r r' : ByteRing 4,
  new 4 = Some r /\
  fifo_run r [FPush 97; FPush 98; FPop; FPush 99; FPush 100; FPush 101; FPop]
    = Some (r', [OPushed true; OPushed true; OPopped (Some 97); OPushed true;
                 OPushed true; OPushed false; OPopped (Some 98)]) /\
  contents 4 r' = [99; 100].
Proof.
  eexists. destruct (byte_ring_refines_fifo 4 (mkByteRing [0; 0; 0; 0] 0 0)
    [FPush 97; FPush 98; FPop; FPush 99; FPush 100; FPush 101; FPop] eq_refl)
    as (r' & Hr & _ & Hc).
  exists r'. split; [reflexivity|]. split; [exact Hr|exact Hc].
Defined.

(** However the interrupt-side [push] and the task-side [pop] interleave
    between their individual atomic accesses, the bytes handed to the consumer
    so far followed by the bytes in the ring are exactly the bytes accepted from
    the producer, in order; and while the producer holds a slot it is about to
    write and the consumer a slot it is about to read, the slots differ. *)
Theorem byte_ring_spsc_safe CAPACITY c c' :
  initial CAPACITY c -> rtc (step CAPACITY) c c' ->
  produced CAPACITY c' = consumed CAPACITY c' ++ contents CAPACITY (ring CAPACITY c') /\
  (length (contents CAPACITY (ring CAPACITY c')) < CAPACITY)%nat /\
  (forall b h nx t, ppc CAPACITY c' = PChecked b h nx -> cpc CAPACITY c' = CChecked t -> h <> t).
Proof.
  intros Hi Hr.
  destruct (conf_inv_reachable _ _ _ (conf_inv_initial _ _ Hi) Hr) as [Hwf Hp Hc Hh].
  split; [done|]. split.
  - rewrite contents_length. pose proof (count_bound _ _ Hwf). destruct Hwf. lia.
  - intros b h nx t E1 E2. rewrite E1 in Hp. rewrite E2 in Hc. simpl in *. naive_solver.
Qed.

Lemma byte_ring_spsc_safe_witness : exists c' : conf 2,
  produced 2 c' = [7] /\ consumed 2 c' = [7] /\
  produced 2 c' = consumed 2 c' ++ contents 2 (ring 2 c').
Proof.
  set (c0 := mkConf 2 (mkByteRing [0; 0] 0 0) PIdle CIdle [] []).
  set (c' := mkConf 2 (mkByteRing [7; 0] 1 1) PIdle CIdle [7] [7]).
  assert (Hi : initial 2 c0) by (eexists; split; reflexivity).
  assert (Hr : rtc (step 2) c0 c').
  { eapply rtc_l; [apply (step_push_load _ _ _ _ _ 7)|].
    eapply rtc_l; [apply step_push_check; discriminate|].
    eapply rtc_l; [apply step_pop_load|].
    eapply rtc_l; [eapply step_push_store; reflexivity|].
    eapply rtc_l; [apply step_push_publish|].
    eapply rtc_l; [apply step_pop_check; discriminate|].
    eapply rtc_l; [apply step_pop_read; reflexivity|].
    eapply rtc_l; [apply step_pop_publish|]. apply rtc_refl. }
  exists c'. destruct (byte_ring_spsc_safe 2 c0 c' Hi Hr) as (H & _ & _).
  split; [reflexivity|]. split; [reflexivity|exact H].
Defined.
