(* ===== verification/RingBuffer.v ===== *)
(** Unix-socket ring buffer: [os/src/net/socket/unix/ring_buffer.rs].

    A [VecDeque] with a message/byte limit, two shutdown flags, and two global
    counters ([RB_COUNT], [RB_BYTES]) that the constructor and [Drop] maintain.
    The buffer is always used under its owner's mutex, so operations are state
    passing functions.  The buffer discharges the queue interface of Fifo.v. *)

From stdpp Require Import base numbers option list.
From S2P Require Import Prelude Fifo.

Section buffer.
Context {T : Type}.

Record RingBuffer := mkRingBuffer {
  deque : list T;
  capacity : Z;
  recv_shutdown : bool;
  send_shutdown : bool;
}.

Definition set_deque (rb : RingBuffer) (d : list T) : RingBuffer :=
  mkRingBuffer d (capacity rb) (recv_shutdown rb) (send_shutdown rb).

(** [RB_COUNT] and [RB_BYTES]. *)
Record counters := mkCounters { rb_alive : Z; rb_bytes : Z }.

(** [size_of_T] is [size_of::<T>()]; [None] is the "capacity overflow" panic of
    [VecDeque::with_capacity], after which the counters stay raised. *)
Definition rb_new (size_of_T : Z) (g : counters) (cap : Z) : counters * option RingBuffer :=
  (mkCounters (usize_add (rb_alive g) 1) (usize_add (rb_bytes g) cap),
   if cap * size_of_T <=? isize_max
   then Some (mkRingBuffer [] cap false false) else None).

Definition rb_drop (g : counters) (rb : RingBuffer) : counters :=
  mkCounters (usize_sub (rb_alive g) 1) (usize_sub (rb_bytes g) (capacity rb)).

Definition len (rb : RingBuffer) : Z := Z.of_nat (length (deque rb)).

(** [bool] is [is_some()] of the returned [Option<()>]. *)
Definition push (rb : RingBuffer) (item : T) : RingBuffer * bool :=
  if capacity rb <=? len rb then (rb, false)
  else (set_deque rb (deque rb ++ [item]), true).

Definition push_slice (rb : RingBuffer) (items : list T) : RingBuffer * bool :=
  if capacity rb <? usize_add (len rb) (Z.of_nat (length items)) then (rb, false)
  else (set_deque rb (fold_left (fun d item => d ++ [item]) items (deque rb)), true).

Definition pop (rb : RingBuffer) : RingBuffer * option T :=
  match deque rb with
  | [] => (rb, None)
  | x :: d => (set_deque rb d, Some x)
  end.

(** The [for i in 0..n] loop of [pop_slice]: [i] counts up, [n] slots remain. *)
Fixpoint pop_slice_loop `{Inhabited T} (rb : RingBuffer) (buf : list T) (i n : nat)
    : RingBuffer * list T :=
  match n with
  | O => (rb, buf)
  | S n =>
      let '(rb', x) := pop rb in
      pop_slice_loop rb' (<[i := default inhabitant x]> buf) (S i) n
  end.

Definition pop_slice `{Inhabited T} (rb : RingBuffer) (buf : list T) : RingBuffer * list T * nat :=
  let n := Nat.min (length buf) (length (deque rb)) in
  (pop_slice_loop rb buf 0 n, n).

Definition is_empty (rb : RingBuffer) : bool :=
  match deque rb with [] => true | _ => false end.

Definition is_full (rb : RingBuffer) : bool := capacity rb <=? len rb.

Definition free_len (rb : RingBuffer) : Z := usize_sub (capacity rb) (len rb).

Definition set_recv_shutdown (rb : RingBuffer) : RingBuffer :=
  mkRingBuffer (deque rb) (capacity rb) true (send_shutdown rb).

Definition set_send_shutdown (rb : RingBuffer) : RingBuffer :=
  mkRingBuffer (deque rb) (capacity rb) (recv_shutdown rb) true.

(** ** Invariant *)

Record rb_wf (rb : RingBuffer) : Prop := {
  rb_cap : 0 <= capacity rb <= isize_max;
  rb_len : len rb <= capacity rb;
}.

Lemma fold_push_back (items : list T) : forall d,
  fold_left (fun d item => d ++ [item]) items d = d ++ items.
Proof.
  induction items as [|x items IH]; intros d; simpl; [by rewrite app_nil_r|].
  rewrite IH. by rewrite <- app_assoc.
Qed.

Lemma rb_push_wf rb x : rb_wf rb -> rb_wf (fst (push rb x)).
Proof.
  intros [Hc Hl]. unfold push. destruct (Z.leb_spec (capacity rb) (len rb)); simpl; [done|].
  split; [done|]. unfold len in *; simpl. rewrite length_app; simpl. lia.
Qed.

(** Slices and the queue both have at most [isize::MAX] elements, so the length
    test of [push_slice] does not wrap. *)
Lemma push_slice_spec rb items :
  rb_wf rb -> Z.of_nat (length items) <= isize_max ->
  push_slice rb items =
    if bool_decide (len rb + Z.of_nat (length items) <= capacity rb)
    then (set_deque rb (deque rb ++ items), true) else (rb, false).
Proof.
  intros [Hc Hl] Hi. unfold push_slice, usize_add, wrap64.
  rewrite Z.mod_small, fold_push_back by (unfold usize_modulus, isize_max, len in *; lia).
  destruct (Z.ltb_spec (capacity rb) (len rb + Z.of_nat (length items)));
    case_bool_decide; done || lia.
Qed.

Lemma push_slice_wf rb items :
  rb_wf rb -> Z.of_nat (length items) <= isize_max -> rb_wf (fst (push_slice rb items)).
Proof.
  intros Hwf Hi. rewrite push_slice_spec by done. case_bool_decide; [|done].
  split; [apply Hwf|]. unfold len in *; simpl. rewrite length_app. lia.
Qed.

Lemma free_len_spec rb : rb_wf rb -> free_len rb = capacity rb - len rb.
Proof.
  intros [Hc Hl]. unfold free_len, usize_sub, wrap64.
  rewrite Z.mod_small; [done|]. unfold usize_modulus, isize_max, len in *. lia.
Qed.

(** The loop of [pop_slice] moves a prefix of the queue into the buffer. *)
Lemma pop_slice_loop_spec `{Inhabited T} n : forall rb pre buf,
  (n <= length (deque rb))%nat -> (n <= length buf)%nat ->
  pop_slice_loop rb (pre ++ buf) (length pre) n =
    (set_deque rb (drop n (deque rb)), pre ++ take n (deque rb) ++ drop n buf).
Proof.
  induction n as [|n IH]; intros rb pre buf Hd Hb; simpl.
  { unfold set_deque. by destruct rb. }
  unfold pop. destruct (deque rb) as [|x d] eqn:E; simpl in *; [lia|].
  destruct buf as [|y buf]; simpl in *; [lia|].
  rewrite insert_app_r_alt, Nat.sub_diag by done. simpl.
  replace (pre ++ x :: buf) with ((pre ++ [x]) ++ buf) by (by rewrite <- app_assoc).
  replace (S (length pre)) with (length (pre ++ [x])) by (rewrite length_app; simpl; lia).
  rewrite IH by (simpl; lia). simpl. by rewrite <- !app_assoc.
Qed.

Lemma pop_slice_spec `{Inhabited T} rb buf :
  let n := Nat.min (length buf) (length (deque rb)) in
  pop_slice rb buf = (set_deque rb (drop n (deque rb)), take n (deque rb) ++ drop n buf, n).
Proof.
  intros n. unfold pop_slice. fold n.
  rewrite (pop_slice_loop_spec n rb [] buf) by lia. done.
Qed.
End buffer.
Arguments RingBuffer : clear implicits.

#[export] Instance ring_buffer_fifo {T} : BoundedFifo (RingBuffer T) T := {
  fifo_push := fun rb x => Some (push rb x);
  fifo_pop := fun rb => Some (pop rb);
  fifo_contents := deque;
  fifo_capacity := fun rb => Z.to_nat (capacity rb);
  fifo_inv := rb_wf;
}.

#[export] Instance ring_buffer_fifo_laws {T} : BoundedFifoLaws (RingBuffer T) T.
Proof.
  split; simpl.
  - intros rb x Hwf. exists (fst (push rb x)). split; [by apply rb_push_wf|].
    destruct Hwf as [Hc Hl]. unfold push, len in *.
    destruct (Z.leb_spec (capacity rb) (Z.of_nat (length (deque rb)))); simpl;
      case_bool_decide; done || lia.
  - intros rb [Hc Hl]. exists (fst (pop rb)). unfold pop, len in *.
    destruct (deque rb) as [|x d] eqn:E; simpl.
    + repeat split; try done; try lia. unfold len. rewrite E. simpl. lia.
    + repeat split; simpl; try done; try lia. unfold len; simpl in *. lia.
Qed.

(** ** Properties *)

(** A slice written whole with [push_slice] into a buffer holding [d] and
    then read back with [pop_slice] after the earlier [d] has been consumed is
    the same slice: [push_slice] accepts exactly when the slice fits, appends
    all of it or nothing, and [pop_slice] hands bytes over in that order. *)
Theorem ring_buffer_roundtrip {T} `{Inhabited T} (rb rb1 rb2 rb3 : RingBuffer T) items buf0 buf1 old got n m :
  rb_wf rb -> Z.of_nat (length items) <= isize_max ->
  push_slice rb items = (rb1, true) ->
  length buf0 = length (deque rb) -> length buf1 = length items ->
  pop_slice rb1 buf0 = (rb2, old, n) -> pop_slice rb2 buf1 = (rb3, got, m) ->
  old = deque rb /\ got = items /\ is_empty rb3 = true /\ free_len rb3 = capacity rb.
Proof.
  intros Hwf Hi Hp Hb0 Hb1 Ho Hg. rewrite push_slice_spec in Hp by done.
  case_bool_decide; simplify_eq.
  rewrite pop_slice_spec in Ho; simplify_eq; simpl in Hg.
  rewrite pop_slice_spec in Hg; simplify_eq; simpl.
  rewrite length_app, Hb0, (Nat.min_l (length (deque rb))) by lia.
  rewrite drop_app_length, Hb1, Nat.min_id.
  rewrite take_app_length, !drop_ge, take_ge, !app_nil_r by lia.
  repeat split. rewrite free_len_spec.
  - unfold len; simpl. lia.
  - split; [apply Hwf|]. unfold len; simpl. destruct Hwf; lia.
Qed.

Lemma ring_buffer_roundtrip_witness : exists rb1 rb2 rb3 : RingBuffer Z,
  push_slice (mkRingBuffer [1] 4 false false) [2; 3] = (rb1, true) /\
  pop_slice rb1 [0] = (rb2, [1], 1%nat) /\ pop_slice rb2 [0; 0] = (rb3, [2; 3], 2%nat) /\
  is_empty rb3 = true.
Proof.
  do 3 eexists. split; [reflexivity|]. split; [reflexivity|]. split; [reflexivity|].
  eapply (ring_buffer_roundtrip (mkRingBuffer [1] 4 false false) _ _ _ [2; 3] [0] [0; 0]);
    try reflexivity; [split|]; vm_compute; intuition congruence.
Defined.
