(* ===== verification/BTree.v ===== *)
(** Ordered maps.

    The kernel's [BTreeMap<K, V>] with integer keys, as the list of its entries
    in key order.  Only what the sources use is modelled: point operations,
    the ordered range queries, [retain], [split_off] and iteration.  Every
    query is specified through [bt_get], so client proofs never look inside the
    list. *)

From stdpp Require Import base numbers list option sorting.
From S2P Require Import Prelude.

Abbreviation btree V := (list (Z * V)).

Create HintDb btree.

Section btree.
Context {V : Type}.
Implicit Types m : btree V.

(** ** Operations *)

Definition bt_empty : btree V := [].

Fixpoint bt_get (k : Z) m : option V :=
  match m with
  | [] => None
  | (k', v) :: m => if k =? k' then Some v else bt_get k m
  end.

Definition bt_contains (k : Z) m : bool :=
  match bt_get k m with Some _ => true | None => false end.

(** [insert]: replaces the value of an existing key. *)
Fixpoint bt_insert (k : Z) (v : V) m : btree V :=
  match m with
  | [] => [(k, v)]
  | (k', v') :: m' =>
      if k <? k' then (k, v) :: m
      else if k =? k' then (k, v) :: m'
      else (k', v') :: bt_insert k v m'
  end.

Definition bt_remove (k : Z) m : btree V := filter (fun e => bool_decide (e.1 <> k)) m.

Definition bt_retain (f : Z -> V -> bool) m : btree V := filter (fun e => f e.1 e.2 = true) m.

(** [range(lo..)] and [range(..hi)] as the iterated entries. *)
Definition bt_from (lo : Z) m : btree V := filter (fun e => lo <= e.1) m.
Definition bt_upto (hi : Z) m : btree V := filter (fun e => e.1 < hi) m.

(** [range(..=k).next_back()], [range(..k).next_back()], [range(k..).next()]. *)
Definition bt_last_le (k : Z) m : option (Z * V) := last (filter (fun e => e.1 <= k) m).
Definition bt_last_lt (k : Z) m : option (Z * V) := last (bt_upto k m).
Definition bt_first_ge (k : Z) m : option (Z * V) := head (bt_from k m).

(** [split_off(&k)]: what stays and what is returned. *)
Definition bt_split_off (k : Z) m : btree V * btree V := (bt_upto k m, bt_from k m).

Definition bt_values m : list V := m.*2.

(** Sum of a weight over the values. *)
Definition bt_sum (f : V -> Z) m : Z := foldr (fun e acc => f e.2 + acc) 0 m.

(** Keys strictly increase. *)
Definition bt_wf m : Prop := StronglySorted Z.lt m.*1.

(** ** Point lookups *)

Lemma bt_get_elem k v m : bt_get k m = Some v -> (k, v) ∈ m.
Proof.
  induction m as [|[k' v'] m IH]; simpl; [done|].
  destruct (Z.eqb_spec k k'); intros; simplify_eq; [left|right; auto].
Qed.

Lemma bt_wf_cons k v m :
  bt_wf ((k, v) :: m) <-> bt_wf m /\ forall k' v', (k', v') ∈ m -> k < k'.
Proof.
  unfold bt_wf; simpl. split.
  - intros H. inversion H as [|? ? Hs Hf]; subst. split; [done|].
    intros k' v' Hin. rewrite Forall_forall in Hf. apply Hf.
    apply list_elem_of_fmap. by exists (k', v').
  - intros [Hs Hf]. constructor; [done|]. apply Forall_forall. intros k' Hin.
    apply list_elem_of_fmap in Hin as ([k1 v1] & -> & Hin). eauto.
Qed.

Lemma bt_elem_get k v m : bt_wf m -> (k, v) ∈ m -> bt_get k m = Some v.
Proof.
  induction m as [|[k' v'] m IH]; intros Hwf Hin; [by apply not_elem_of_nil in Hin|].
  apply bt_wf_cons in Hwf as [Hwf Hlt]. simpl.
  apply elem_of_cons in Hin as [[= -> ->]|Hin]; [by rewrite Z.eqb_refl|].
  specialize (Hlt _ _ Hin). destruct (Z.eqb_spec k k'); [lia|auto].
Qed.

Lemma bt_get_iff k v m : bt_wf m -> bt_get k m = Some v <-> (k, v) ∈ m.
Proof. split; [apply bt_get_elem|by apply bt_elem_get]. Qed.

Lemma bt_wf_nil : bt_wf [].
Proof. constructor. Qed.

(** Sublists selected by a predicate stay sorted. *)
Lemma bt_wf_filter (P : Z * V -> Prop) `{!forall e, Decision (P e)} m :
  bt_wf m -> bt_wf (filter P m).
Proof.
  induction m as [|[k v] m IH]; [done|]. rewrite bt_wf_cons, filter_cons. intros [Hwf Hlt].
  case_decide; [|auto]. apply bt_wf_cons. split; [auto|].
  intros k' v' [_ Hin]%list_elem_of_filter. eauto.
Qed.

Lemma bt_get_filter (P : Z * V -> Prop) `{!forall e, Decision (P e)} k v m :
  bt_wf m -> bt_get k (filter P m) = Some v <-> bt_get k m = Some v /\ P (k, v).
Proof.
  intros Hwf. rewrite !bt_get_iff by auto using bt_wf_filter.
  rewrite list_elem_of_filter. tauto.
Qed.

Lemma bt_elem_insert k v m e :
  bt_wf m -> e ∈ bt_insert k v m <-> e = (k, v) \/ (e ∈ m /\ e.1 <> k).
Proof.
  induction m as [|[k' v'] m IH]; intros Hwf; simpl.
  - rewrite list_elem_of_singleton. split; [auto|]. intros [->|[[]%not_elem_of_nil _]]; done.
  - apply bt_wf_cons in Hwf as [Hwf Hlt]. specialize (IH Hwf).
    destruct (Z.ltb_spec k k').
    + rewrite (elem_of_cons _ e). split; [|tauto]. intros [->|Hin]; [by left|].
      right. split; [done|]. intros Hk. apply elem_of_cons in Hin as [->|Hin]; simpl in *; [lia|].
      destruct e as [ke ve]. specialize (Hlt _ _ Hin). simpl in *. lia.
    + destruct (Z.eqb_spec k k') as [->|].
      * rewrite !elem_of_cons. split.
        -- intros [->|Hin]; [by left|]. right. split; [by right|]. destruct e as [ke ve].
           specialize (Hlt _ _ Hin). simpl. lia.
        -- intros [->|[[->|Hin] ?]]; [by left|done|by right].
      * rewrite !elem_of_cons, IH. split.
        -- intros [->|[->|[? ?]]]; [right; split; [by left|done]|by left|right; split; [by right|done]].
        -- intros [->|[[->|?] ?]]; [by right; left|by left|by right; right].
Qed.

Lemma bt_wf_insert k v m : bt_wf m -> bt_wf (bt_insert k v m).
Proof.
  induction m as [|[k' v'] m IH]; intros Hwf; simpl.
  - apply bt_wf_cons. split; [done|]. intros ? ? []%not_elem_of_nil.
  - pose proof Hwf as Hwf0. apply bt_wf_cons in Hwf as [Hwf Hlt].
    destruct (Z.ltb_spec k k').
    + apply bt_wf_cons. split; [done|]. intros k1 v1 [[= -> ->]|Hin]%elem_of_cons; [done|].
      specialize (Hlt _ _ Hin). lia.
    + destruct (Z.eqb_spec k k') as [->|].
      * apply bt_wf_cons. eauto.
      * apply bt_wf_cons. split; [auto|]. intros k1 v1 Hin.
        apply bt_elem_insert in Hin as [[= -> ->]|[Hin _]]; [lia|eauto|done].
Qed.

Lemma bt_get_insert k v k' m :
  bt_wf m -> bt_get k' (bt_insert k v m) = if k' =? k then Some v else bt_get k' m.
Proof.
  intros Hwf. apply option_eq. intros v'.
  rewrite bt_get_iff by auto using bt_wf_insert. rewrite bt_elem_insert by done. simpl.
  destruct (Z.eqb_spec k' k) as [->|].
  - split; [intros [?|[_ ?]]; congruence|]. intros [= ->]. by left.
  - rewrite bt_get_iff by done. split; [intros [?|[? _]]; congruence|]. auto.
Qed.

Lemma bt_wf_remove k m : bt_wf m -> bt_wf (bt_remove k m).
Proof. apply bt_wf_filter. Qed.

Lemma bt_get_remove k k' m :
  bt_wf m -> bt_get k' (bt_remove k m) = if k' =? k then None else bt_get k' m.
Proof.
  intros Hwf. apply option_eq. intros v. unfold bt_remove.
  rewrite bt_get_filter by done. simpl. rewrite bool_decide_spec.
  destruct (Z.eqb_spec k' k); naive_solver.
Qed.

Lemma bt_wf_retain f m : bt_wf m -> bt_wf (bt_retain f m).
Proof. apply bt_wf_filter. Qed.

Lemma bt_get_retain f k m : bt_wf m ->
  bt_get k (bt_retain f m) =
    match bt_get k m with Some v => if f k v then Some v else None | None => None end.
Proof.
  intros Hwf. apply option_eq. intros v. unfold bt_retain. rewrite bt_get_filter by done. simpl.
  destruct (bt_get k m) as [v'|]; [|split; [intros [? _]|]; congruence].
  destruct (f k v') eqn:E; (split; [intros [[= ->] ?]|intros [= ->]]); auto; congruence.
Qed.

Lemma bt_wf_from k m : bt_wf m -> bt_wf (bt_from k m).
Proof. apply bt_wf_filter. Qed.
Lemma bt_wf_upto k m : bt_wf m -> bt_wf (bt_upto k m).
Proof. apply bt_wf_filter. Qed.

Lemma bt_get_from lo k m : bt_wf m ->
  bt_get k (bt_from lo m) = if lo <=? k then bt_get k m else None.
Proof.
  intros Hwf. apply option_eq. intros v. unfold bt_from. rewrite bt_get_filter by done. simpl.
  destruct (Z.leb_spec lo k); naive_solver lia.
Qed.

Lemma bt_get_upto hi k m : bt_wf m ->
  bt_get k (bt_upto hi m) = if k <? hi then bt_get k m else None.
Proof.
  intros Hwf. apply option_eq. intros v. unfold bt_upto. rewrite bt_get_filter by done. simpl.
  destruct (Z.ltb_spec k hi); naive_solver lia.
Qed.
(** ** Ordered queries *)

Lemma bt_last_spec m : bt_wf m ->
  match last m with
  | Some (k, v) => bt_get k m = Some v /\ forall k' v', bt_get k' m = Some v' -> k' <= k
  | None => m = []
  end.
Proof.
  intros Hwf. induction m as [|[k v] m IH]; [done|].
  pose proof Hwf as Hwf0. apply bt_wf_cons in Hwf as [Hwf Hlt]. specialize (IH Hwf).
  rewrite last_cons. destruct (last m) as [[k1 v1]|] eqn:E.
  - destruct IH as [Hg Hmax]. pose proof (bt_get_elem _ _ _ Hg) as Hin. split.
    + apply bt_elem_get; [done|]. by right.
    + intros k' v' Hk. apply bt_get_elem, elem_of_cons in Hk as [[= -> ->]|Hk].
      * specialize (Hlt _ _ Hin). lia.
      * eapply Hmax, bt_elem_get; eauto.
  - subst. simpl. rewrite Z.eqb_refl. split; [done|]. intros k' v'.
    destruct (Z.eqb_spec k' k); [lia|done].
Qed.

Lemma bt_head_spec m : bt_wf m ->
  match head m with
  | Some (k, v) => bt_get k m = Some v /\ forall k' v', bt_get k' m = Some v' -> k <= k'
  | None => m = []
  end.
Proof.
  intros Hwf. destruct m as [|[k v] m]; [done|]. apply bt_wf_cons in Hwf as [Hwf Hlt].
  simpl. rewrite Z.eqb_refl. split; [done|]. intros k' v'. destruct (Z.eqb_spec k' k); [lia|].
  intros Hk%bt_get_elem. specialize (Hlt _ _ Hk). lia.
Qed.

Lemma bt_last_le_spec k m : bt_wf m ->
  match bt_last_le k m with
  | Some (k', v) => bt_get k' m = Some v /\ k' <= k /\
      forall k'' v'', bt_get k'' m = Some v'' -> k'' <= k -> k'' <= k'
  | None => forall k'' v'', bt_get k'' m = Some v'' -> k < k''
  end.
Proof.
  intros Hwf. unfold bt_last_le. set (P := fun e : Z * V => e.1 <= k).
  pose proof (bt_last_spec (filter P m) (bt_wf_filter P m Hwf)) as Hl.
  destruct (last _) as [[k' v]|].
  - destruct Hl as [Hg Hmax]. apply bt_get_filter in Hg as [Hg HP]; [|done].
    repeat split; [done..|]. intros k'' v'' Hk Hle. apply (Hmax k'' v'').
    by apply bt_get_filter.
  - intros k'' v'' Hk. destruct (decide (k'' <= k)); [|lia].
    assert (Hx : bt_get k'' (filter P m) = Some v'') by (by apply bt_get_filter).
    by rewrite Hl in Hx.
Qed.

Lemma bt_last_lt_spec k m : bt_wf m ->
  match bt_last_lt k m with
  | Some (k', v) => bt_get k' m = Some v /\ k' < k /\
      forall k'' v'', bt_get k'' m = Some v'' -> k'' < k -> k'' <= k'
  | None => forall k'' v'', bt_get k'' m = Some v'' -> k <= k''
  end.
Proof.
  intros Hwf. unfold bt_last_lt. pose proof (bt_last_spec _ (bt_wf_upto k m Hwf)) as Hl.
  destruct (last _) as [[k' v]|].
  - destruct Hl as [Hg Hmax]. rewrite bt_get_upto in Hg by done.
    destruct (Z.ltb_spec k' k); [|done]. repeat split; [done..|]. intros k'' v'' Hk Hlt.
    apply (Hmax k'' v''). rewrite bt_get_upto by done. by rewrite (proj2 (Z.ltb_lt _ _) Hlt).
  - intros k'' v'' Hk. destruct (Z.ltb_spec k'' k); [|done].
    assert (Hx : bt_get k'' (bt_upto k m) = Some v'')
      by (rewrite bt_get_upto by done; by rewrite (proj2 (Z.ltb_lt _ _) H)).
    by rewrite Hl in Hx.
Qed.

Lemma bt_first_ge_spec k m : bt_wf m ->
  match bt_first_ge k m with
  | Some (k', v) => bt_get k' m = Some v /\ k <= k' /\
      forall k'' v'', bt_get k'' m = Some v'' -> k <= k'' -> k' <= k''
  | None => forall k'' v'', bt_get k'' m = Some v'' -> k'' < k
  end.
Proof.
  intros Hwf. unfold bt_first_ge. pose proof (bt_head_spec _ (bt_wf_from k m Hwf)) as Hl.
  destruct (head _) as [[k' v]|].
  - destruct Hl as [Hg Hmin]. rewrite bt_get_from in Hg by done.
    destruct (Z.leb_spec k k'); [|done]. repeat split; [done..|]. intros k'' v'' Hk Hle.
    apply (Hmin k'' v''). rewrite bt_get_from by done. by rewrite (proj2 (Z.leb_le _ _) Hle).
  - intros k'' v'' Hk. destruct (Z.leb_spec k k''); [|done].
    assert (Hx : bt_get k'' (bt_from k m) = Some v'')
      by (rewrite bt_get_from by done; by rewrite (proj2 (Z.leb_le _ _) H)).
    by rewrite Hl in Hx.
Qed.

(** ** Sums and extensionality *)

Lemma bt_sum_insert_new f k v m : bt_wf m -> bt_get k m = None ->
  bt_sum f (bt_insert k v m) = f v + bt_sum f m.
Proof.
  intros Hwf. induction m as [|[k' v'] m IH]; simpl; [lia|].
  apply bt_wf_cons in Hwf as [Hwf _]. destruct (Z.eqb_spec k k'); [done|].
  intros Hn. destruct (k <? k'); simpl; [lia|]. rewrite IH by done. lia.
Qed.

Lemma bt_sum_insert_old f k v v0 m : bt_wf m -> bt_get k m = Some v0 ->
  bt_sum f (bt_insert k v m) = bt_sum f m - f v0 + f v.
Proof.
  induction m as [|[k' v'] m IH]; intros Hwf; [done|]. apply bt_wf_cons in Hwf as [Hwf Hlt]. simpl.
  destruct (Z.eqb_spec k k') as [->|E].
  - intros [= ->]. rewrite Z.ltb_irrefl. simpl. lia.
  - intros Hg. destruct (Z.ltb_spec k k').
    { specialize (Hlt _ _ (bt_get_elem _ _ _ Hg)). lia. }
    simpl. rewrite IH by done. lia.
Qed.

Lemma bt_remove_absent k m : bt_get k m = None -> bt_remove k m = m.
Proof.
  induction m as [|[k' v'] m IH]; simpl; [done|].
  destruct (Z.eqb_spec k k'); [done|]. intros Hn. unfold bt_remove. rewrite filter_cons.
  rewrite decide_True by (simpl; rewrite bool_decide_spec; done).
  f_equal. by apply IH.
Qed.

Lemma bt_sum_remove f k v m : bt_wf m -> bt_get k m = Some v ->
  bt_sum f (bt_remove k m) = bt_sum f m - f v.
Proof.
  intros Hwf. induction m as [|[k' v'] m IH]; simpl; [done|].
  apply bt_wf_cons in Hwf as [Hwf Hlt]. unfold bt_remove. rewrite filter_cons.
  destruct (Z.eqb_spec k k') as [->|].
  - intros [= ->]. rewrite decide_False by (simpl; rewrite bool_decide_spec; auto).
    fold (bt_remove k' m). rewrite bt_remove_absent; [lia|].
    destruct (bt_get k' m) eqn:E; [|done]. apply bt_get_elem, Hlt in E. lia.
  - intros Hg. rewrite decide_True by (simpl; rewrite bool_decide_spec; done).
    simpl. fold (bt_remove k m). rewrite IH by done. lia.
Qed.

Lemma bt_sum_nonneg f m : (forall v, 0 <= f v) -> 0 <= bt_sum f m.
Proof. intros Hf. induction m as [|[k v] m IH]; simpl; [lia|]. specialize (Hf v). lia. Qed.

Lemma bt_ext m1 : forall m2, bt_wf m1 -> bt_wf m2 ->
  (forall k, bt_get k m1 = bt_get k m2) -> m1 = m2.
Proof.
  induction m1 as [|[k1 v1] m1 IH]; intros [|[k2 v2] m2] H1 H2 Heq; [done|..].
  - specialize (Heq k2). simpl in Heq. by rewrite Z.eqb_refl in Heq.
  - specialize (Heq k1). simpl in Heq. by rewrite Z.eqb_refl in Heq.
  - assert (k1 = k2) as ->.
    { pose proof (bt_head_spec _ H1) as [G1 M1]. pose proof (bt_head_spec _ H2) as [G2 M2].
      rewrite Heq in G1. rewrite <- Heq in G2. apply M1 in G2. apply M2 in G1. lia. }
    pose proof (Heq k2) as Hv. simpl in Hv. rewrite Z.eqb_refl in Hv. injection Hv as ->.
    apply bt_wf_cons in H1 as [H1 L1]. apply bt_wf_cons in H2 as [H2 L2]. f_equal.
    apply IH; [done..|]. intros k. specialize (Heq k). simpl in Heq.
    destruct (Z.eqb_spec k k2) as [Hk|]; [|done]. clear Heq. subst k.
    destruct (bt_get k2 m1) eqn:E1; [apply bt_get_elem, L1 in E1; lia|].
    destruct (bt_get k2 m2) eqn:E2; [apply bt_get_elem, L2 in E2; lia|done].
Qed.
End btree.

#[export] Hint Resolve bt_wf_nil bt_wf_insert bt_wf_remove bt_wf_retain bt_wf_from bt_wf_upto
  : btree.

Lemma bt_length_sum {V} (m : btree V) : Z.of_nat (length m) = bt_sum (fun _ => 1) m.
Proof.
  induction m as [|[k v] m IH]; [done|]. simpl length. rewrite Nat2Z.inj_succ, IH. simpl. lia.
Qed.

Lemma bt_length_remove {V} k v (m : btree V) : bt_wf m -> bt_get k m = Some v ->
  length m = S (length (bt_remove k m)).
Proof.
  intros Hwf Hg. apply Nat2Z.inj. rewrite Nat2Z.inj_succ, !bt_length_sum.
  rewrite (bt_sum_remove _ k v) by done. lia.
Qed.

(** Changing every value. *)
Lemma bt_get_fmap {V} (f : V -> V) k (m : btree V) : bt_get k ((fun e => (e.1, f e.2)) <$> m) = f <$> bt_get k m.
Proof. induction m as [|[k' v] m IH]; [done|]. rewrite fmap_cons. simpl. rewrite IH. by destruct (k =? k'). Qed.

Lemma bt_wf_fmap {V} (f : V -> V) (m : btree V) : bt_wf m -> bt_wf ((fun e => (e.1, f e.2)) <$> m).
Proof. unfold bt_wf. by rewrite <- list_fmap_compose. Qed.
