(* ===== verification/Addr.v ===== *)
(** Addresses, page numbers, permissions: [os/src/mm/address.rs], the flag types
    of [os/src/mm/vma.rs], [MemoryError] of [os/src/mm/address_space.rs] and the
    layout constants of [os/src/hal/arch/*/config.rs]. *)

From stdpp Require Import base numbers option list.
From S2P Require Import Prelude.

Definition PAGE_SIZE : Z := 4096.
Definition PAGE_SIZE_BITS : Z := 12.

(** ** [VirtAddr], [VirtPageNum] (and their physical twins) *)

Definition va_floor (va : Z) : Z := va / PAGE_SIZE.

Definition va_ceil (va : Z) : Z :=
  if va =? 0 then 0 else usize_add (usize_sub va 1 / PAGE_SIZE) 1.

Definition page_offset (va : Z) : Z := Z.land va (PAGE_SIZE - 1).

Definition aligned (va : Z) : bool := page_offset va =? 0.

(** [VirtPageNum::from(VirtAddr)]; [None] is the failing [assert_eq!]. *)
Definition vpn_from_va (va : Z) : option Z :=
  if page_offset va =? 0 then Some (va_floor va) else None.

(** [VirtAddr::from(VirtPageNum)]; the shift drops the bits above 64. *)
Definition va_from_vpn (vpn : Z) : Z := wrap64 (Z.shiftl vpn PAGE_SIZE_BITS).

Definition vpn_offset (vpn offset : Z) : Z := usize_add (va_from_vpn vpn) offset.

(** [indexes::<T>]: the loop fills the array from the last level down. *)
Fixpoint indexes_loop (n : nat) (vpn : Z) (idx : list Z) : list Z :=
  match n with
  | O => idx
  | S n => indexes_loop n (Z.shiftr vpn 9) (<[n := Z.land vpn 511]> idx)
  end.

Definition indexes (T : nat) (vpn : Z) : list Z := indexes_loop T vpn (replicate T 0).

(** ** [SimpleRange] *)

Record VPNRange := mkRange { range_l : Z; range_r : Z }.

#[export] Instance VPNRange_eq_dec : EqDecision VPNRange.
Proof. solve_decision. Defined.

(** [None] is the failing [assert!(start <= end)]. *)
Definition range_new (l r : Z) : option VPNRange :=
  if l <=? r then Some (mkRange l r) else None.

(** The values [SimpleRangeIterator] yields: [step] until [current == end]. *)
Fixpoint range_iter_from (fuel : nat) (current stop : Z) : list Z :=
  match fuel with
  | O => []
  | S fuel =>
      if current =? stop then []
      else current :: range_iter_from fuel (usize_add current 1) stop
  end.

Definition range_iter (r : VPNRange) : list Z :=
  range_iter_from (Z.to_nat (range_r r - range_l r)) (range_l r) (range_r r).

(** ** Permissions and flags *)

Definition perm_R : Z := 2.
Definition perm_W : Z := 4.
Definition perm_X : Z := 8.
Definition perm_U : Z := 16.
Definition perm_G : Z := 32.

Definition MAP_SHARED : Z := 0x01.
Definition MAP_PRIVATE : Z := 0x02.
Definition MAP_TYPE : Z := 0x0f.
Definition MAP_FIXED : Z := 0x10.
Definition MAP_ANONYMOUS : Z := 0x20.
Definition MAP_GROWSDOWN : Z := 0x0100.
Definition MAP_LOCKED : Z := 0x2000.
Definition MAP_FIXED_NOREPLACE : Z := 0x100000.

(** [contains], [difference] (and [-]) of the bitflags types. *)
Definition contains (flags other : Z) : bool := Z.land flags other =? other.
Definition difference (flags other : Z) : Z := Z.ldiff flags other.

(** ** Errors *)

Inductive MemoryError :=
| BadAddress | AreaNotFound | AlreadyMapped | NotMapped | NoPermission
| NotInMemory | NotCompressed | NotSwappedOut | AlreadyAllocated | SharedPage
| ZramIsFull | SwapIsFull | BeyondEOF | OutOfMemory | BackingStoreFailure.

Abbreviation errno := SyscallErr.

#[export] Instance MemoryError_eq_dec : EqDecision MemoryError.
Proof. solve_decision. Defined.

(** ** Layout constants per architecture *)

Record arch := mkArch {
  mmap_base : Z;
  mmap_end : Z;
  USER_VA_END : Z;
  USER_HEAP_SIZE : Z;
  (** [TRAP_CONTEXT_BASE] and [TRAMPOLINE] where fixed mappings must avoid that
      window (LoongArch). *)
  trap_window : option (Z * Z);
}.

Definition riscv_arch : arch := mkArch 0x20000000 0xb8000000 0xc0000000 (PAGE_SIZE * 0x100) None.

Definition la64_trampoline : Z := (2 ^ 39 / 4 - 1) - PAGE_SIZE + 1 - PAGE_SIZE.
Definition la64_trap_context_base : Z := la64_trampoline - 1024 * PAGE_SIZE.

Definition loongarch_arch : arch :=
  mkArch (la64_trap_context_base - 2 ^ 39 / 4 / 8 + 0x3000) la64_trap_context_base
         (0x120000000 + 2 ^ 39 / 4) (PAGE_SIZE * 0x100)
         (Some (la64_trap_context_base, la64_trampoline)).

Definition arena_lo (a : arch) : Z := va_floor (mmap_base a).
Definition arena_hi (a : arch) : Z := va_floor (mmap_end a).
Definition mmap_bounds (a : arch) : Z * Z := (arena_lo a, arena_hi a).

(** What the layouts guarantee: a non-empty page-aligned mmap arena inside the
    address range. *)
Record arch_ok (a : arch) : Prop := {
  arch_base : 0 <= mmap_base a;
  arch_nonempty : mmap_base a < mmap_end a;
  arch_end : mmap_end a < usize_modulus;
  arch_base_aligned : mmap_base a mod PAGE_SIZE = 0;
  arch_end_aligned : mmap_end a mod PAGE_SIZE = 0;
  arch_user_end : 0 < USER_VA_END a < 2 ^ 48;
}.

Lemma riscv_arch_ok : arch_ok riscv_arch.
Proof. split; vm_compute; intuition congruence. Qed.

Lemma loongarch_arch_ok : arch_ok loongarch_arch.
Proof. split; vm_compute; intuition congruence. Qed.

(** ** Rounding *)

Lemma va_ceil_spec va : is_usize va -> va_ceil va = (va + (PAGE_SIZE - 1)) / PAGE_SIZE.
Proof.
  unfold is_usize, va_ceil, usize_add, usize_sub, wrap64, PAGE_SIZE, usize_modulus. intros H.
  destruct (Z.eqb_spec va 0) as [->|]; [done|].
  rewrite (Z.mod_small (va - 1)) by lia.
  rewrite Z.mod_small by div_lia. div_lia.
Qed.

(** The pages of the byte range [start, stop) are [va_floor start, va_ceil stop). *)
Lemma pages_of_range start stop vpn : is_usize start -> is_usize stop -> start < stop ->
  va_floor start <= vpn < va_ceil stop <->
  exists a, start <= a < stop /\ va_floor a = vpn.
Proof.
  intros Hs He Hlt. rewrite va_ceil_spec by done. unfold va_floor, PAGE_SIZE. split.
  - intros Hv. exists (Z.max start (vpn * 4096)). split; div_lia.
  - intros (a & Ha & <-). div_lia.
Qed.

Lemma page_offset_spec va : page_offset va = va mod PAGE_SIZE.
Proof. apply (Z.land_ones va 12). lia. Qed.

(** [x & !(PAGE_SIZE - 1)] rounds down to a page boundary. *)
Lemma page_mask_spec x : Z.ldiff x (PAGE_SIZE - 1) = x / PAGE_SIZE * PAGE_SIZE.
Proof.
  change (PAGE_SIZE - 1) with (Z.ones 12). rewrite Z.ldiff_ones_r by lia.
  rewrite Z.shiftl_mul_pow2, Z.shiftr_div_pow2 by lia. done.
Qed.

Lemma va_from_vpn_small vpn : 0 <= vpn < 2 ^ 52 -> va_from_vpn vpn = vpn * PAGE_SIZE.
Proof.
  intros H. unfold va_from_vpn, wrap64, PAGE_SIZE_BITS, PAGE_SIZE.
  rewrite Z.shiftl_mul_pow2 by lia. rewrite Z.mod_small; [done|]. unfold usize_modulus. lia.
Qed.

Lemma range_iter_from_spec n : forall l, 0 <= l -> l + Z.of_nat n < usize_modulus ->
  range_iter_from n l (l + Z.of_nat n) = seqZ l (Z.of_nat n).
Proof.
  induction n as [|n IH]; intros l Hl Hn; [done|].
  simpl range_iter_from. destruct (Z.eqb_spec l (l + Z.of_nat (S n))); [lia|].
  rewrite seqZ_cons by lia. f_equal.
  unfold usize_add, wrap64. rewrite Z.mod_small by lia.
  replace (Z.pred (Z.of_nat (S n))) with (Z.of_nat n) by lia.
  replace (l + Z.of_nat (S n)) with (Z.succ l + Z.of_nat n) by lia. apply IH; lia.
Qed.

Lemma range_iter_spec r : 0 <= range_l r <= range_r r -> range_r r < usize_modulus ->
  range_iter r = seqZ (range_l r) (range_r r - range_l r).
Proof.
  intros H1 H2. unfold range_iter.
  replace (range_r r) with (range_l r + Z.of_nat (Z.to_nat (range_r r - range_l r))) at 2 by lia.
  rewrite range_iter_from_spec by lia. f_equal. lia.
Qed.

(** Removing flags that are disjoint from a contained set keeps the set. *)
Lemma contains_difference a b c : contains a b = true -> Z.land b c = 0 ->
  contains (difference a c) b = true.
Proof.
  unfold contains, difference. rewrite !Z.eqb_eq. intros Ha Hbc. apply Z.bits_inj'. intros n Hn.
  apply (f_equal (fun z => Z.testbit z n)) in Ha, Hbc.
  rewrite Z.land_spec in *. rewrite Z.ldiff_spec, Z.bits_0 in *.
  destruct (Z.testbit a n), (Z.testbit b n), (Z.testbit c n); done.
Qed.

(** ** Page-table indices *)

(** The [n] base-512 digits of [vpn], most significant first. *)
Fixpoint digits512 (n : nat) (vpn : Z) : list Z :=
  match n with
  | O => []
  | S n => digits512 n (vpn / 512) ++ [vpn mod 512]
  end.

Lemma indexes_loop_digits n : forall vpn idx, (n <= length idx)%nat ->
  indexes_loop n vpn idx = digits512 n vpn ++ drop n idx.
Proof.
  induction n as [|n IH]; intros vpn idx Hn; simpl; [done|].
  rewrite IH by (rewrite length_insert; lia).
  rewrite Z.shiftr_div_pow2 by lia. rewrite <- app_assoc. f_equal.
  rewrite (drop_S _ (Z.land vpn 511)); [|apply list_lookup_insert_eq; lia].
  rewrite drop_insert_lt by lia. simpl. f_equal. apply (Z.land_ones vpn 9). lia.
Qed.

Lemma digits512_value n : forall vpn,
  fold_left (fun acc i => acc * 512 + i) (digits512 n vpn) 0 = vpn mod 512 ^ Z.of_nat n.
Proof.
  induction n as [|n IH]; intros vpn; simpl digits512.
  - simpl. by rewrite Z.mod_1_r.
  - rewrite fold_left_app, IH. simpl fold_left.
    replace (Z.of_nat (S n)) with (1 + Z.of_nat n) by lia.
    rewrite Z.pow_add_r, Z.pow_1_r, Z.rem_mul_r by lia. lia.
Qed.

(** The page-table indices of a virtual page number are in range for a
    512-entry table, and walking them from the root reconstructs the page
    number modulo the translated width, so two pages share a leaf slot only if
    they agree on the low [9 * T] bits. *)
Theorem indexes_decompose T vpn :
  0 <= vpn ->
  length (indexes T vpn) = T /\
  Forall (fun i => 0 <= i < 512) (indexes T vpn) /\
  fold_left (fun acc i => acc * 512 + i) (indexes T vpn) 0 = vpn mod 512 ^ Z.of_nat T.
Proof.
  intros Hv. unfold indexes.
  rewrite indexes_loop_digits, drop_ge, app_nil_r by (rewrite length_replicate; lia).
  split; [|split; [|apply digits512_value]]; clear Hv; revert vpn.
  - induction T as [|T IH]; intros vpn; simpl; [done|]. rewrite length_app, IH. simpl. lia.
  - induction T as [|T IH]; intros vpn; simpl; [constructor|].
    apply Forall_app. split; [apply IH|]. repeat constructor; apply Z.mod_pos_bound; lia.
Qed.

Lemma indexes_decompose_witness :
  indexes 3 0x12345 = [0; 145; 325] /\
  fold_left (fun acc i => acc * 512 + i) (indexes 3 0x12345) 0 = 0x12345 mod 512 ^ 3.
Proof.
  split; [reflexivity|]. apply (indexes_decompose 3 0x12345). lia.
Defined.
