(* ===== verification/PageStore.v ===== *)
(** Page states of one VMA: [os/src/mm/frame_store.rs] ([Frame], [VmPageStore]),
    built with the [oom_handler] feature as the shipped kernels are.

    A resident frame is named by its physical page number, a compressed or
    swapped page by its zram or swap slot.  The outcome of an allocation
    ([try_reserve], [frame_alloc]) and of the zram and swap devices is an
    argument of the operation that asks for it. *)

From stdpp Require Import base numbers option list.
From S2P Require Import Prelude BTree Addr.

Inductive Frame :=
| InMemory (ppn : Z)
| Compressed (zram_id : Z)
| SwappedOut (swap_id : Z)
| Unallocated.

Inductive FrameState := FsInMemory | FsUnallocated | FsCompressed | FsSwappedOut.

#[export] Instance Frame_eq_dec : EqDecision Frame.
Proof. solve_decision. Defined.
#[export] Instance FrameState_eq_dec : EqDecision FrameState.
Proof. solve_decision. Defined.

Definition is_in_memory (f : Frame) : bool := match f with InMemory _ => true | _ => false end.
Definition is_compressed (f : Frame) : bool := match f with Compressed _ => true | _ => false end.
Definition is_swapped (f : Frame) : bool := match f with SwappedOut _ => true | _ => false end.

(** ** [Frame] *)

(** [strong] is [Arc::strong_count(frame_ref)], [dev] what the swap device
    answers; the result is the new state and the frame handed to the caller. *)
Definition swap_out (strong : Z) (dev : result Z MemoryError) (f : Frame)
    : Frame * result Z MemoryError :=
  match f with
  | InMemory ppn =>
      if strong =? 1 then
        match dev with
        | Ok slot => (SwappedOut slot, Ok ppn)
        | Err e => (f, Err e)
        end
      else (f, Err SharedPage)
  | _ => (f, Err NotInMemory)
  end.

(** [alloc] is what [frame_alloc] returns, [dev] the device read. *)
Definition swap_in (alloc : option Z) (dev : result unit MemoryError) (f : Frame)
    : Frame * result Z MemoryError :=
  match f with
  | SwappedOut _ =>
      match alloc with
      | None => (f, Err OutOfMemory)
      | Some ppn => match dev with Ok _ => (InMemory ppn, Ok ppn) | Err e => (f, Err e) end
      end
  | _ => (f, Err NotSwappedOut)
  end.

Definition zip (strong : Z) (dev : option Z) (f : Frame) : Frame * result Z MemoryError :=
  match f with
  | InMemory ppn =>
      if strong =? 1 then
        match dev with
        | Some id => (Compressed id, Ok ppn)
        | None => (f, Err ZramIsFull)
        end
      else (f, Err SharedPage)
  | _ => (f, Err NotInMemory)
  end.

Definition unzip (alloc : option Z) (dev_ok : bool) (f : Frame) : Frame * result Z MemoryError :=
  match f with
  | Compressed _ =>
      match alloc with
      | None => (f, Err OutOfMemory)
      | Some ppn => if dev_ok then (InMemory ppn, Ok ppn) else (f, Err BackingStoreFailure)
      end
  | _ => (f, Err NotCompressed)
  end.

(** ** [VmPageStore] *)

Record VmPageStore := mkStore {
  vpn_range : VPNRange;
  frames : btree Frame;
  active : list Z;
  compressed : Z;
  swapped : Z;
}.

Definition ps_start (s : VmPageStore) : Z := range_l (vpn_range s).
Definition ps_end (s : VmPageStore) : Z := range_r (vpn_range s).

Definition set_frames (s : VmPageStore) (m : btree Frame) : VmPageStore :=
  mkStore (vpn_range s) m (active s) (compressed s) (swapped s).
Definition set_active (s : VmPageStore) (l : list Z) : VmPageStore :=
  mkStore (vpn_range s) (frames s) l (compressed s) (swapped s).
Definition set_range (s : VmPageStore) (r : VPNRange) : VmPageStore :=
  mkStore r (frames s) (active s) (compressed s) (swapped s).
Definition set_counts (s : VmPageStore) (c w : Z) : VmPageStore :=
  mkStore (vpn_range s) (frames s) (active s) c w.

Definition ps_try_clone (s : VmPageStore) : VmPageStore :=
  mkStore (vpn_range s) (frames s) [] (compressed s) (swapped s).

Definition ps_try_new (r : VPNRange) : VmPageStore := mkStore r bt_empty [] 0 0.

Definition contains_vpn (s : VmPageStore) (key : Z) : bool :=
  (ps_start s <=? key) && (key <? ps_end s).

Definition frame_state (s : VmPageStore) (key : Z) : result FrameState MemoryError :=
  if negb (contains_vpn s key) then Err BadAddress
  else Ok match bt_get key (frames s) with
          | Some (InMemory _) => FsInMemory
          | Some (Compressed _) => FsCompressed
          | Some (SwappedOut _) => FsSwappedOut
          | Some Unallocated | None => FsUnallocated
          end.

Definition get_in_memory (s : VmPageStore) (key : Z) : option Z :=
  if negb (contains_vpn s key) then None
  else match bt_get key (frames s) with Some (InMemory t) => Some t | _ => None end.

Definition in_memory_len (s : VmPageStore) : Z :=
  Z.of_nat (length (filter (fun e => is_in_memory e.2 = true) (frames s))).

(** The VPNs [for_each_in_memory_vpn] passes to its closure, in order. *)
Definition in_memory_vpns (s : VmPageStore) : list Z :=
  (filter (fun e => is_in_memory e.2 = true) (frames s)).*1.

Definition for_each_in_memory_vpn_in_range (s : VmPageStore) (start stop : Z) : list Z :=
  let start := if ps_start s <? start then start else ps_start s in
  let stop := if stop <? ps_end s then stop else ps_end s in
  if stop <=? start then []
  else (filter (fun e => is_in_memory e.2 = true) (bt_upto stop (bt_from start (frames s)))).*1.

Definition in_memory_len_in_range (s : VmPageStore) (start stop : Z) : Z :=
  Z.of_nat (length (for_each_in_memory_vpn_in_range s start stop)).

Definition is_unallocated (s : VmPageStore) (key : Z) : bool :=
  match frame_state s key with Ok FsUnallocated => true | _ => false end.

(** [reserve] is whether [try_reserve(1)] succeeds. *)
Definition record_active (reserve : bool) (s : VmPageStore) (vpn : Z)
    : VmPageStore * result unit MemoryError :=
  if negb (contains_vpn s vpn) then (s, Err BadAddress)
  else if negb reserve then (s, Err OutOfMemory)
  else (set_active s (active s ++ [vpn]), Ok ()).

Definition alloc_in_memory (reserve : bool) (s : VmPageStore) (key value : Z)
    : VmPageStore * result unit MemoryError :=
  if negb (contains_vpn s key) then (s, Err BadAddress)
  else
    let s := match bt_get key (frames s) with
             | Some Unallocated => set_frames s (bt_remove key (frames s))
             | _ => s
             end in
    if bt_contains key (frames s) then (s, Err AlreadyAllocated)
    else match record_active reserve s key with
         | (s, Ok _) => (set_frames s (bt_insert key (InMemory value) (frames s)), Ok ())
         | (s, Err e) => (s, Err e)
         end.

Definition insert_existing_frame (s : VmPageStore) (key : Z) (frame : Frame) : VmPageStore :=
  if negb (contains_vpn s key) then s
  else match frame with
       | Unallocated => s
       | _ =>
           let s := match frame with
                    | Compressed _ => set_counts s (usize_add (compressed s) 1) (swapped s)
                    | SwappedOut _ => set_counts s (compressed s) (usize_add (swapped s) 1)
                    | _ => s
                    end in
           set_frames s (bt_insert key frame (frames s))
       end.

Definition remove_in_memory (s : VmPageStore) (key : Z) : VmPageStore * option Z :=
  if negb (contains_vpn s key) then (s, None)
  else
    let s := set_active s (filter (fun elem => elem <> key) (active s)) in
    let old := bt_get key (frames s) in
    let s := set_frames s (bt_remove key (frames s)) in
    match old with
    | Some (InMemory frame_ref) => (s, Some frame_ref)
    | Some frame => (insert_existing_frame s key frame, None)
    | None => (s, None)
    end.

(** [None] outside is the panic of [BTreeMap::range] on an inverted range. *)
Definition first_in_memory_vpn_in_range (s : VmPageStore) (start stop : Z) : option (option Z) :=
  if stop <? start then None
  else Some (head (filter (fun e => is_in_memory e.2 = true)
                     (bt_upto stop (bt_from start (frames s)))).*1).

(** [frame_mut_if_present] followed by a write through the reference. *)
Definition frame_mut_if_present (s : VmPageStore) (key : Z) : result Frame MemoryError :=
  if negb (contains_vpn s key) then Err BadAddress
  else match bt_get key (frames s) with Some f => Ok f | None => Err NotMapped end.
Definition write_frame (s : VmPageStore) (key : Z) (f : Frame) : VmPageStore :=
  set_frames s (bt_insert key f (frames s)).

Definition count_frames (p : Frame -> bool) (m : btree Frame) : Z :=
  bt_sum (fun f => if p f then 1 else 0) m.

(** The counting loop of [recount_oom_counters]. *)
Definition recount_oom_counters (s : VmPageStore) : VmPageStore :=
  let '(c, w) := fold_left (fun '(c, w) f =>
      match f with
      | Compressed _ => (usize_add c 1, w)
      | SwappedOut _ => (c, usize_add w 1)
      | _ => (c, w)
      end) (bt_values (frames s)) (0, 0) in
  set_counts s c w.

Definition prune_out_of_range (s : VmPageStore) : VmPageStore :=
  let start := ps_start s in
  let stop := ps_end s in
  let s := set_frames s (bt_retain (fun vpn _ => (start <=? vpn) && (vpn <? stop)) (frames s)) in
  let s := set_active s (filter (fun vpn => start <= vpn /\ vpn < stop) (active s)) in
  recount_oom_counters s.

Definition set_start (s : VmPageStore) (new_vpn_start : Z) : VmPageStore * result unit unit :=
  let vpn_end := ps_end s in
  if vpn_end <? new_vpn_start then (s, Err ())
  else (prune_out_of_range (set_range s (mkRange new_vpn_start vpn_end)), Ok ()).

Definition set_end (s : VmPageStore) (new_vpn_end : Z) : VmPageStore * result unit unit :=
  let vpn_start := ps_start s in
  if new_vpn_end <? vpn_start then (s, Err ())
  else (prune_out_of_range (set_range s (mkRange vpn_start new_vpn_end)), Ok ()).

Definition split_active_into_two (l : list Z) (cut : Z) : list Z * list Z :=
  fold_left (fun '(first, second) vpn =>
    if vpn <? cut then (first ++ [vpn], second) else (first, second ++ [vpn])) l ([], []).

Definition ps_into_two (s : VmPageStore) (cut : Z) : VmPageStore * result VmPageStore unit :=
  let vpn_start := ps_start s in
  let vpn_end := ps_end s in
  if (cut <=? vpn_start) || (vpn_end <=? cut) then (s, Err ())
  else
    let '(first_frames, second_frames) := bt_split_off cut (frames s) in
    let '(first_active, second_active) := split_active_into_two (active s) cut in
    let second := mkStore (mkRange cut vpn_end) second_frames second_active 0 0 in
    let s := mkStore (mkRange vpn_start cut) first_frames first_active (compressed s) (swapped s) in
    (recount_oom_counters s, Ok (recount_oom_counters second)).

Definition pop_active (s : VmPageStore) : VmPageStore * option Z :=
  match active s with
  | [] => (s, None)
  | v :: l => (set_active s l, Some v)
  end.

Definition requeue_active (s : VmPageStore) (vpn : Z) : VmPageStore :=
  set_active s (active s ++ [vpn]).

Definition inc_compressed (s : VmPageStore) : VmPageStore :=
  set_counts s (usize_add (compressed s) 1) (swapped s).
Definition inc_swapped (s : VmPageStore) : VmPageStore :=
  set_counts s (compressed s) (usize_add (swapped s) 1).
Definition dec_compressed (s : VmPageStore) : VmPageStore :=
  set_counts s (saturating_sub (compressed s) 1) (swapped s).
Definition dec_swapped (s : VmPageStore) : VmPageStore :=
  set_counts s (compressed s) (saturating_sub (swapped s) 1).

(** ** Invariant

    Entries lie inside the range, the reclaim queue names only pages of the
    range, and the two counters are exact.  Page numbers are below [2^52]. *)
Record ps_wf (s : VmPageStore) : Prop := {
  ps_range : 0 <= ps_start s <= ps_end s;
  ps_bound : ps_end s <= 2 ^ 52;
  ps_sorted : bt_wf (frames s);
  ps_keys : forall k f, bt_get k (frames s) = Some f -> ps_start s <= k < ps_end s;
  ps_active : Forall (fun v => ps_start s <= v < ps_end s) (active s);
  ps_comp : compressed s = count_frames is_compressed (frames s);
  ps_swap : swapped s = count_frames is_swapped (frames s);
}.

Lemma contains_vpn_spec s k : contains_vpn s k = true <-> ps_start s <= k < ps_end s.
Proof. unfold contains_vpn. rewrite andb_true_iff, Z.leb_le, Z.ltb_lt. done. Qed.

Lemma contains_vpn_false s k : contains_vpn s k = false <-> ~ (ps_start s <= k < ps_end s).
Proof. rewrite <- contains_vpn_spec. destruct (contains_vpn s k); intuition congruence. Qed.

(** ** Counters *)

Lemma bt_length_bound {V} (m : btree V) : forall lo hi, bt_wf m -> lo <= hi ->
  (forall k v, bt_get k m = Some v -> lo <= k < hi) -> Z.of_nat (length m) <= hi - lo.
Proof.
  induction m as [|[k v] m IH]; intros lo hi Hwf Hle Hk; simpl; [lia|].
  pose proof (Hk k v) as Hk0. simpl in Hk0. rewrite Z.eqb_refl in Hk0. specialize (Hk0 eq_refl).
  apply bt_wf_cons in Hwf as Hwf'. destruct Hwf' as [Hwf' Hlt].
  enough (Z.of_nat (length m) <= hi - (k + 1)) by lia.
  apply IH; [done|lia|]. intros k' v' Hg. pose proof (bt_get_elem _ _ _ Hg) as Hin.
  specialize (Hlt _ _ Hin). specialize (Hk k' v'). simpl in Hk.
  rewrite (proj2 (Z.eqb_neq k' k)) in Hk by lia. specialize (Hk Hg). lia.
Qed.

Lemma count_frames_bound p m : 0 <= count_frames p m <= Z.of_nat (length m).
Proof.
  unfold count_frames. induction m as [|[k f] m IH]; simpl; [lia|]. destruct (p f); lia.
Qed.

Lemma recount_loop m : forall c w, 0 <= c -> 0 <= w ->
  c + Z.of_nat (length m) < usize_modulus -> w + Z.of_nat (length m) < usize_modulus ->
  fold_left (fun '(c, w) f =>
      match f with
      | Compressed _ => (usize_add c 1, w)
      | SwappedOut _ => (c, usize_add w 1)
      | _ => (c, w)
      end) (bt_values m) (c, w)
  = (c + count_frames is_compressed m, w + count_frames is_swapped m).
Proof.
  unfold count_frames. induction m as [|[k f] m IH]; intros c w Hc Hw Hc' Hw'; simpl in *.
  { f_equal; lia. }
  destruct f; simpl; try rewrite usize_add_small by (unfold is_usize; lia);
    rewrite IH by lia; f_equal; lia.
Qed.

Lemma recount_spec s : Z.of_nat (length (frames s)) < usize_modulus ->
  recount_oom_counters s =
    set_counts s (count_frames is_compressed (frames s)) (count_frames is_swapped (frames s)).
Proof.
  intros H. unfold recount_oom_counters. rewrite recount_loop by lia. done.
Qed.

(** Recounting re-establishes the invariant of a store whose entries and queue
    are inside its range. *)
Lemma recount_wf s :
  0 <= ps_start s <= ps_end s -> ps_end s <= 2 ^ 52 -> bt_wf (frames s) ->
  (forall k f, bt_get k (frames s) = Some f -> ps_start s <= k < ps_end s) ->
  Forall (fun v => ps_start s <= v < ps_end s) (active s) ->
  ps_wf (recount_oom_counters s) /\
  frames (recount_oom_counters s) = frames s /\
  vpn_range (recount_oom_counters s) = vpn_range s.
Proof.
  intros Hr Hb Hwf Hk Ha.
  assert (Z.of_nat (length (frames s)) < usize_modulus).
  { pose proof (bt_length_bound (frames s) (ps_start s) (ps_end s) Hwf) as Hl.
    unfold usize_modulus. specialize (Hl ltac:(lia) Hk). lia. }
  rewrite recount_spec by done. split; [|done]. split; done.
Qed.

(** ** Specifications *)

Lemma ps_try_new_wf r : 0 <= range_l r <= range_r r -> range_r r <= 2 ^ 52 -> ps_wf (ps_try_new r).
Proof. intros. split; simpl; auto with btree; done. Qed.

Lemma prune_spec s r : ps_wf s -> 0 <= range_l r <= range_r r -> range_r r <= 2 ^ 52 ->
  let s' := prune_out_of_range (set_range s r) in
  ps_wf s' /\ vpn_range s' = r /\
  forall k, bt_get k (frames s') =
    if (range_l r <=? k) && (k <? range_r r) then bt_get k (frames s) else None.
Proof.
  intros [H1 H2 H3 H4 H5 H6 H7] Hr Hb. simpl. unfold prune_out_of_range; simpl.
  match goal with |- context [recount_oom_counters ?x] => destruct (recount_wf x) as (? & Hf & Hv) end;
    simpl; try done; auto with btree.
  - intros k f. rewrite bt_get_retain by done. unfold ps_start, ps_end; simpl.
    destruct (bt_get k (frames s)); [|done].
    destruct ((range_l r <=? k) && (k <? range_r r)) eqn:E; [|done].
    apply andb_true_iff in E. rewrite Z.leb_le, Z.ltb_lt in E. done.
  - apply list.Forall_forall. intros v [Hv _]%list_elem_of_filter. done.
  - split; [done|]. rewrite Hf, Hv. split; [done|]. intros k. simpl.
    rewrite bt_get_retain by done. unfold ps_start, ps_end; simpl.
    destruct (bt_get k (frames s)), ((range_l r <=? k) && (k <? range_r r)); done.
Qed.

Lemma set_start_spec s v : ps_wf s -> 0 <= v <= ps_end s ->
  exists s', set_start s v = (s', Ok ()) /\ ps_wf s' /\ vpn_range s' = mkRange v (ps_end s) /\
    forall k, bt_get k (frames s') =
      if (v <=? k) && (k <? ps_end s) then bt_get k (frames s) else None.
Proof.
  intros Hwf Hv. unfold set_start. destruct (Z.ltb_spec (ps_end s) v); [lia|].
  destruct (prune_spec s (mkRange v (ps_end s)) Hwf) as (? & ? & ?); simpl; [lia|apply Hwf|eauto].
Qed.

Lemma set_end_spec s v : ps_wf s -> ps_start s <= v <= 2 ^ 52 ->
  exists s', set_end s v = (s', Ok ()) /\ ps_wf s' /\ vpn_range s' = mkRange (ps_start s) v /\
    forall k, bt_get k (frames s') =
      if (ps_start s <=? k) && (k <? v) then bt_get k (frames s) else None.
Proof.
  intros Hwf Hv. unfold set_end. destruct (Z.ltb_spec v (ps_start s)); [lia|].
  destruct (prune_spec s (mkRange (ps_start s) v) Hwf) as (? & ? & ?); simpl;
    [destruct Hwf; lia|lia|eauto].
Qed.

Lemma split_active_spec l cut : split_active_into_two l cut =
  (filter (fun v => v < cut) l, filter (fun v => cut <= v) l).
Proof.
  unfold split_active_into_two.
  assert (H : forall a b, fold_left (fun '(first, second) vpn =>
      if vpn <? cut then (first ++ [vpn], second) else (first, second ++ [vpn])) l (a, b)
      = (a ++ filter (fun v => v < cut) l, b ++ filter (fun v => cut <= v) l)).
  { induction l as [|v l IH]; intros a b; simpl; [by rewrite !app_nil_r|].
    rewrite !filter_cons. destruct (Z.ltb_spec v cut); rewrite IH.
    - rewrite decide_True, decide_False by lia. by rewrite <- app_assoc.
    - rewrite decide_False, decide_True by lia. by rewrite <- app_assoc. }
  apply (H [] []).
Qed.

Lemma ps_into_two_err s cut : ~ (ps_start s < cut < ps_end s) -> ps_into_two s cut = (s, Err ()).
Proof.
  intros H. unfold ps_into_two. destruct (Z.leb_spec cut (ps_start s)); [done|].
  destruct (Z.leb_spec (ps_end s) cut); [done|lia].
Qed.

Lemma ps_into_two_spec s cut : ps_wf s -> ps_start s < cut < ps_end s ->
  exists s1 s2, ps_into_two s cut = (s1, Ok s2) /\ ps_wf s1 /\ ps_wf s2 /\
    vpn_range s1 = mkRange (ps_start s) cut /\ vpn_range s2 = mkRange cut (ps_end s) /\
    (forall k, bt_get k (frames s1) = if k <? cut then bt_get k (frames s) else None) /\
    (forall k, bt_get k (frames s2) = if cut <=? k then bt_get k (frames s) else None).
Proof.
  intros [H1 H2 H3 H4 H5 H6 H7] Hc. unfold ps_into_two.
  destruct (Z.leb_spec cut (ps_start s)); [lia|].
  destruct (Z.leb_spec (ps_end s) cut); [lia|]. simpl. rewrite split_active_spec.
  rewrite list.Forall_forall in H5.
  destruct (recount_wf (mkStore (mkRange cut (ps_end s)) (bt_from cut (frames s))
    (filter (fun v => cut <= v) (active s)) 0 0)) as (W2 & F2 & R2);
    [unfold ps_start, ps_end in *; simpl; lia|done|simpl; auto with btree|..].
  { simpl. intros k f. rewrite bt_get_from by done. destruct (Z.leb_spec cut k); [|done].
    intros Hg%H4. unfold ps_start, ps_end in *; simpl; lia. }
  { apply list.Forall_forall. intros v [? Hv%H5]%list_elem_of_filter.
    unfold ps_start, ps_end in *; simpl; lia. }
  destruct (recount_wf (mkStore (mkRange (ps_start s) cut) (bt_upto cut (frames s))
    (filter (fun v => v < cut) (active s)) (compressed s) (swapped s))) as (W1 & F1 & R1);
    [unfold ps_start, ps_end in *; simpl; lia|unfold ps_start, ps_end in *; simpl; lia
    |simpl; auto with btree|..].
  { simpl. intros k f. rewrite bt_get_upto by done. destruct (Z.ltb_spec k cut); [|done].
    intros Hg%H4. unfold ps_start, ps_end in *; simpl; lia. }
  { apply list.Forall_forall. intros v [? Hv%H5]%list_elem_of_filter.
    unfold ps_start, ps_end in *; simpl; lia. }
  do 2 eexists. split; [done|]. rewrite F1, F2, R1, R2. simpl.
  split_and!; try done; intros k; [by apply bt_get_upto|by apply bt_get_from].
Qed.

Lemma count_insert p k f m : bt_wf m ->
  count_frames p (bt_insert k f m) = count_frames p m
    + (if p f then 1 else 0)
    - match bt_get k m with Some g => if p g then 1 else 0 | None => 0 end.
Proof.
  intros Hwf. unfold count_frames. destruct (bt_get k m) as [g|] eqn:E.
  - replace (bt_insert k f m) with (bt_insert k f (bt_remove k m)).
    + rewrite bt_sum_insert_new; auto with btree.
      * rewrite (bt_sum_remove _ k g) by done. simpl. lia.
      * rewrite bt_get_remove by done. by rewrite Z.eqb_refl.
    + apply bt_ext; auto with btree. intros k'.
      rewrite !bt_get_insert, bt_get_remove by auto with btree. by destruct (k' =? k).
  - rewrite bt_sum_insert_new by done. lia.
Qed.

Lemma count_remove p k m : bt_wf m ->
  count_frames p (bt_remove k m) = count_frames p m
    - match bt_get k m with Some g => if p g then 1 else 0 | None => 0 end.
Proof.
  intros Hwf. unfold count_frames. destruct (bt_get k m) as [g|] eqn:E.
  - by rewrite (bt_sum_remove _ k g).
  - rewrite bt_remove_absent by done. lia.
Qed.

(** Replacing one entry inside the range and moving the counters by what the
    entry changes keeps the invariant. *)
Lemma write_frame_wf s k f c w : ps_wf s -> ps_start s <= k < ps_end s ->
  c = count_frames is_compressed (bt_insert k f (frames s)) ->
  w = count_frames is_swapped (bt_insert k f (frames s)) ->
  ps_wf (set_counts (write_frame s k f) c w).
Proof.
  intros [H1 H2 H3 H4 H5 H6 H7] Hk -> ->. split; simpl; auto with btree.
  intros k' f'. rewrite bt_get_insert by done. destruct (Z.eqb_spec k' k) as [->|]; [done|]. apply H4.
Qed.

Lemma remove_entry_wf s k : ps_wf s ->
  match bt_get k (frames s) with
  | Some (Compressed _) | Some (SwappedOut _) => False | _ => True end ->
  ps_wf (set_frames (set_active s (filter (fun e => e <> k) (active s))) (bt_remove k (frames s))).
Proof.
  intros [H1 H2 H3 H4 H5 H6 H7] Hg. split; simpl; auto with btree.
  - intros k' f'. rewrite bt_get_remove by done. destruct (k' =? k); [done|]. apply H4.
  - rewrite list.Forall_forall in *. intros v [_ Hv]%list_elem_of_filter. auto.
  - rewrite count_remove by done. rewrite H6. destruct (bt_get k (frames s)) as [[]|]; simpl; done || lia.
  - rewrite count_remove by done. rewrite H7. destruct (bt_get k (frames s)) as [[]|]; simpl; done || lia.
Qed.

Lemma alloc_in_memory_spec s k v : ps_wf s -> ps_start s <= k < ps_end s ->
  match bt_get k (frames s) with None | Some Unallocated => True | _ => False end ->
  exists s', alloc_in_memory true s k v = (s', Ok ()) /\ ps_wf s' /\ vpn_range s' = vpn_range s /\
    forall k', bt_get k' (frames s') = if k' =? k then Some (InMemory v) else bt_get k' (frames s).
Proof.
  intros Hwf Hk Hg. unfold alloc_in_memory.
  rewrite (proj2 (contains_vpn_spec s k) Hk). simpl.
  set (s0 := match bt_get k (frames s) with Some Unallocated => _ | _ => s end).
  assert (Hm : bt_wf (frames s0) /\ vpn_range s0 = vpn_range s /\ active s0 = active s /\
    compressed s0 = compressed s /\ swapped s0 = swapped s /\
    (forall p, p Unallocated = false -> count_frames p (frames s0) = count_frames p (frames s)) /\
    forall k', bt_get k' (frames s0) = if k' =? k then None else bt_get k' (frames s)).
  { destruct Hwf. subst s0. destruct (bt_get k (frames s)) as [[]|] eqn:E; try done; simpl;
      split_and!; auto with btree.
    - intros p Hp. rewrite count_remove, E, Hp by done. lia.
    - intros k'. by apply bt_get_remove.
    - intros k'. destruct (Z.eqb_spec k' k); by subst. }
  destruct Hm as (M1 & M2 & M3 & M4 & M5 & M6 & M7). unfold bt_contains.
  rewrite M7, Z.eqb_refl. unfold record_active, contains_vpn, ps_start, ps_end. rewrite M2.
  fold (ps_start s) (ps_end s) (contains_vpn s k). rewrite (proj2 (contains_vpn_spec s k) Hk). simpl.
  eexists. split; [done|]. split_and!; [|done|].
  - destruct Hwf as [H1 H2 H3 H4 H5 H6 H7].
    split; simpl; unfold ps_start, ps_end in *; simpl; rewrite ?M2; auto with btree.
    + intros k' f'. rewrite bt_get_insert, M7 by done. destruct (Z.eqb_spec k' k) as [->|]; [done|]. apply H4.
    + rewrite M3. apply Forall_app. split; [done|]. by apply Forall_singleton.
    + rewrite count_insert, M6, M7, Z.eqb_refl by done. simpl. lia.
    + rewrite count_insert, M6, M7, Z.eqb_refl by done. simpl. lia.
  - intros k'. simpl. rewrite bt_get_insert, M7 by done. by destruct (k' =? k).
Qed.

(** On a page that is not compressed or swapped, [remove_in_memory] hands out
    the resident frame and forgets the page. *)
Lemma remove_in_memory_spec s k : ps_wf s ->
  match bt_get k (frames s) with
  | Some (Compressed _) | Some (SwappedOut _) => False | _ => True end ->
  exists s', remove_in_memory s k = (s', get_in_memory s k) /\ ps_wf s' /\
    vpn_range s' = vpn_range s /\
    forall k', bt_get k' (frames s') = if k' =? k then None else bt_get k' (frames s).
Proof.
  intros Hwf Hg. unfold remove_in_memory, get_in_memory.
  destruct (contains_vpn s k) eqn:E; simpl.
  - pose proof (remove_entry_wf s k Hwf Hg) as Hw. pose proof (ps_sorted _ Hwf).
    assert (forall k', bt_get k' (bt_remove k (frames s)) = if k' =? k then None else bt_get k' (frames s))
      by (intros; by apply bt_get_remove).
    destruct (bt_get k (frames s)) as [[]|]; try done; unfold insert_existing_frame;
      try (destruct (negb _)); eexists; split_and!; try done; apply Hw.
  - exists s. split_and!; try done. intros k'. destruct (Z.eqb_spec k' k) as [->|]; [|done].
    apply contains_vpn_false in E. destruct (bt_get k (frames s)) eqn:Ef; [|done].
    apply (ps_keys _ Hwf) in Ef. lia.
Qed.

(** On a compressed page it re-inserts the entry and counts it a second time. *)
Lemma remove_in_memory_compressed s k id : ps_wf s ->
  bt_get k (frames s) = Some (Compressed id) ->
  compressed (fst (remove_in_memory s k)) = usize_add (compressed s) 1 /\
  count_frames is_compressed (frames (fst (remove_in_memory s k))) = compressed s.
Proof.
  intros Hwf Hg. pose proof (ps_keys _ Hwf _ _ Hg) as Hk. pose proof (ps_sorted _ Hwf).
  unfold remove_in_memory. rewrite (proj2 (contains_vpn_spec s k) Hk). simpl. rewrite Hg.
  unfold insert_existing_frame, contains_vpn, ps_start, ps_end; simpl.
  fold (ps_start s) (ps_end s) (contains_vpn s k).
  rewrite (proj2 (contains_vpn_spec s k) Hk). simpl. split; [done|].
  rewrite count_insert, count_remove, Hg, bt_get_remove, Z.eqb_refl by auto with btree.
  rewrite (ps_comp _ Hwf). simpl. lia.
Qed.

(** The first resident page of the range, if any. *)
Lemma first_in_memory_spec s start stop : bt_wf (frames s) -> start <= stop ->
  exists r, first_in_memory_vpn_in_range s start stop = Some r /\
  match r with
  | Some v => start <= v < stop /\ (exists p, bt_get v (frames s) = Some (InMemory p)) /\
      forall v' p, bt_get v' (frames s) = Some (InMemory p) -> start <= v' < stop -> v <= v'
  | None => forall v' p, bt_get v' (frames s) = Some (InMemory p) -> ~ (start <= v' < stop)
  end.
Proof.
  intros Hwf Hle. unfold first_in_memory_vpn_in_range. destruct (Z.ltb_spec stop start); [lia|].
  eexists; split; [done|].
  set (P := fun e : Z * Frame => is_in_memory e.2 = true).
  set (m := filter P (bt_upto stop (bt_from start (frames s)))).
  assert (Hm : bt_wf m) by (apply bt_wf_filter; auto with btree).
  assert (Hget : forall k f, bt_get k m = Some f <->
    (bt_get k (frames s) = Some f /\ start <= k < stop /\ is_in_memory f = true)).
  { intros k f. unfold m. rewrite bt_get_filter by auto with btree.
    rewrite bt_get_upto, bt_get_from by auto with btree. unfold P; simpl.
    destruct (Z.ltb_spec k stop), (Z.leb_spec start k); naive_solver lia. }
  pose proof (bt_head_spec m Hm) as Hh. destruct m as [|[v f] m'] eqn:Em; simpl.
  - intros v' p Hv' Hr. assert (Hx : bt_get v' ([] : btree Frame) = Some (InMemory p)); [|done].
    by apply Hget.
  - simpl in Hh. destruct Hh as [Hg Hmin]. apply Hget in Hg as (Hg & Hr & Hi).
    split_and!; [lia|lia| |].
    + destruct f; try done. eauto.
    + intros v' p Hv' Hr'. apply (Hmin v' (InMemory p)). by apply Hget.
Qed.
