(* ===== verification/Mapper.v ===== *)
(** User page-table access: the [PageTable] interface ([os/src/mm/page_table.rs]),
    the change collector ([os/src/mm/mmu_gather.rs]) and the adapter that keeps
    the two in step ([os/src/mm/user_mapper.rs]).

    The architecture page tables implement the [PageTable] trait; here the trait
    is a type class over an abstract table, with the behaviour its
    documentation promises as the laws of a second class.  A frame is named by
    its physical page number. *)

From stdpp Require Import base numbers option gmap list.
From S2P Require Import Prelude BTree Addr.

(** ** The page-table interface *)

(** [pte t vpn] is the leaf entry of [vpn]: its frame and permissions. *)
Class PageTable (PT : Type) := {
  pte : PT -> Z -> option (Z * Z);
  is_mapped : PT -> Z -> bool;
  translate : PT -> Z -> option Z;
  try_map_no_flush : PT -> Z -> Z -> Z -> PT * result unit MemoryError;
  unmap_no_flush : PT -> Z -> PT;
  set_pte_flags_no_flush : PT -> Z -> Z -> PT * bool;
  set_ppn_no_flush : PT -> Z -> Z -> PT * bool;
  block_and_ret_mut_no_flush : PT -> Z -> PT * option Z;
  set_dirty_bit_no_flush : PT -> Z -> PT * bool;
  clear_dirty_bit : PT -> Z -> PT * bool;
}.

(** The documented contract: an operation changes at most the entry it names. *)
Class PageTableLaws (PT : Type) `{PageTable PT} := {
  is_mapped_spec t vpn : is_mapped t vpn = match pte t vpn with Some _ => true | None => false end;
  translate_spec t vpn : translate t vpn = fst <$> pte t vpn;
  try_map_spec t vpn ppn flags :
    match try_map_no_flush t vpn ppn flags with
    | (t', Ok _) => pte t vpn = None /\
        forall v, pte t' v = if v =? vpn then Some (ppn, flags) else pte t v
    | (t', Err _) => forall v, pte t' v = pte t v
    end;
  try_map_already t vpn ppn flags : is_mapped t vpn = true ->
    snd (try_map_no_flush t vpn ppn flags) = Err AlreadyMapped;
  unmap_spec t vpn : is_mapped t vpn = true ->
    forall v, pte (unmap_no_flush t vpn) v = if v =? vpn then None else pte t v;
  set_flags_spec t vpn flags :
    snd (set_pte_flags_no_flush t vpn flags) = is_mapped t vpn /\
    forall v, pte (fst (set_pte_flags_no_flush t vpn flags)) v =
      if v =? vpn then (fun e => (fst e, flags)) <$> pte t v else pte t v;
  set_ppn_spec t vpn ppn :
    snd (set_ppn_no_flush t vpn ppn) = is_mapped t vpn /\
    forall v, pte (fst (set_ppn_no_flush t vpn ppn)) v =
      if v =? vpn then (fun e => (ppn, snd e)) <$> pte t v else pte t v;
  block_write_spec t vpn :
    snd (block_and_ret_mut_no_flush t vpn) = translate t vpn /\
    forall v, pte (fst (block_and_ret_mut_no_flush t vpn)) v =
      if v =? vpn then (fun e => (fst e, difference (snd e) perm_W)) <$> pte t v else pte t v;
  set_dirty_spec t vpn :
    snd (set_dirty_bit_no_flush t vpn) = is_mapped t vpn /\
    forall v, pte (fst (set_dirty_bit_no_flush t vpn)) v = pte t v;
  clear_dirty_spec t vpn :
    snd (clear_dirty_bit t vpn) = is_mapped t vpn /\
    forall v, pte (fst (clear_dirty_bit t vpn)) v = pte t v;
}.

(** ** [MmuGather] *)

Definition MAX_USER_TLB_RANGE_PAGES : Z := 64.

Inductive FlushRange := FlushNone | FlushPages (r : VPNRange) | FlushFull.

#[export] Instance FlushRange_eq_dec : EqDecision FlushRange.
Proof. solve_decision. Defined.

Record MmuGather := mkGather {
  g_range : FlushRange;
  active_cpus_at_begin : Z;
  retired_frames : list Z;
}.

Definition gather_new : MmuGather := mkGather FlushNone 0 [].

(** [None] is a failing assertion. *)
Definition gather_begin (g : MmuGather) (active_cpu_mask : Z) : option MmuGather :=
  if bool_decide (g_range g = FlushNone) && bool_decide (retired_frames g = [])
  then Some (mkGather (g_range g) active_cpu_mask (retired_frames g)) else None.

Definition set_g_range (g : MmuGather) (r : FlushRange) : MmuGather :=
  mkGather r (active_cpus_at_begin g) (retired_frames g).

(** The two ranges built here are ordered, so the assertion of
    [VPNRange::new] holds. *)
Definition record_change (g : MmuGather) (vpn : Z) : MmuGather :=
  match checked_add vpn 1 with
  | None => set_g_range g FlushFull
  | Some next_vpn =>
      set_g_range g
        match g_range g with
        | FlushNone => FlushPages (mkRange vpn next_vpn)
        | FlushPages r =>
            let start := Z.min (range_l r) vpn in
            let stop := Z.max (range_r r) next_vpn in
            if usize_sub stop start <=? MAX_USER_TLB_RANGE_PAGES
            then FlushPages (mkRange start stop) else FlushFull
        | FlushFull => FlushFull
        end
  end.

Definition record_full_flush (g : MmuGather) : MmuGather := set_g_range g FlushFull.

Definition leak_retired_frames (g : MmuGather) : MmuGather :=
  mkGather (g_range g) (active_cpus_at_begin g) [].

(** No CPU, or only CPU [cpu], can return to user mode with this address space. *)
Definition only_local (g : MmuGather) (cpu : Z) : bool :=
  (active_cpus_at_begin g =? 0) || (active_cpus_at_begin g =? Z.shiftl 1 cpu).

(** [retire_frame]: the new collector and the frames released at once.
    [reserve] is whether the queue could grow; [None] is a panic.  The
    emergency path ([handle_retire_oom]) flushes locally and releases the
    queue when no remote CPU can hold a translation. *)
Definition retire_frame (cpu : Z) (reserve : bool) (g : MmuGather) (frame : Z)
    : option (MmuGather * list Z) :=
  if bool_decide (g_range g = FlushNone) then None
  else if reserve then
    Some (mkGather (g_range g) (active_cpus_at_begin g) (retired_frames g ++ [frame]), [])
  else if only_local g cpu then
    Some (mkGather (g_range g) (active_cpus_at_begin g) [], retired_frames g ++ [frame])
  else None.

Definition discard_unpublished (g : MmuGather) : option (MmuGather * list Z) :=
  if active_cpus_at_begin g =? 0
  then Some (mkGather FlushNone 0 [], retired_frames g) else None.

(** [g] records that the translation of [vpn] must be invalidated. *)
Definition covers (r : FlushRange) (vpn : Z) : Prop :=
  match r with
  | FlushNone => False
  | FlushPages r => range_l r <= vpn < range_r r
  | FlushFull => True
  end.

Definition range_bounded (r : FlushRange) : Prop :=
  match r with
  | FlushPages r => 0 <= range_l r < range_r r /\ range_r r <= usize_max /\
      range_r r - range_l r <= MAX_USER_TLB_RANGE_PAGES
  | _ => True
  end.

(** ** [UserMapper] *)

Section mapper.
Context {PT : Type} `{PageTable PT}.

(** [fresh_no_flush] is [fresh_map_no_flush_enabled()], fixed at boot; [cpu] the
    executing CPU; [released] the frames given back by the emergency path. *)
Record UserMapper := mkMapper {
  page_table : PT;
  gather : MmuGather;
  released : list Z;
  fresh_no_flush : bool;
  cpu_id : Z;
}.

Definition set_pt (m : UserMapper) (t : PT) : UserMapper :=
  mkMapper t (gather m) (released m) (fresh_no_flush m) (cpu_id m).
Definition set_gather (m : UserMapper) (g : MmuGather) : UserMapper :=
  mkMapper (page_table m) g (released m) (fresh_no_flush m) (cpu_id m).

Definition check_user_flags (flags : Z) : result unit MemoryError :=
  if contains flags perm_U then Ok () else Err NoPermission.

Definition um_is_mapped (m : UserMapper) (vpn : Z) : bool := is_mapped (page_table m) vpn.

Definition map_page (m : UserMapper) (vpn ppn flags : Z) : UserMapper * result unit MemoryError :=
  match try_map_no_flush (page_table m) vpn ppn flags with
  | (t, Err e) => (set_pt m t, Err e)
  | (t, Ok _) =>
      let m := set_pt m t in
      if fresh_no_flush m then (m, Ok ())
      else (set_gather m (record_change (gather m) vpn), Ok ())
  end.

Definition map_user_page (m : UserMapper) (vpn ppn flags : Z)
    : UserMapper * result unit MemoryError :=
  match check_user_flags flags with
  | Err e => (m, Err e)
  | Ok _ => map_page m vpn ppn flags
  end.

Definition map_privileged_user_page (m : UserMapper) (vpn ppn flags : Z)
    : UserMapper * result unit MemoryError := map_page m vpn ppn flags.

Definition unmap_user_page (m : UserMapper) (vpn : Z) : UserMapper * result unit MemoryError :=
  if negb (is_mapped (page_table m) vpn) then (m, Err NotMapped)
  else (mkMapper (unmap_no_flush (page_table m) vpn) (record_change (gather m) vpn)
          (released m) (fresh_no_flush m) (cpu_id m), Ok ()).

Definition unmap_user_page_if_mapped (m : UserMapper) (vpn : Z)
    : UserMapper * result bool MemoryError :=
  if negb (is_mapped (page_table m) vpn) then (m, Ok false)
  else (mkMapper (unmap_no_flush (page_table m) vpn) (record_change (gather m) vpn)
          (released m) (fresh_no_flush m) (cpu_id m), Ok true).

(** A raw update that reports whether the entry existed. *)
Definition recorded (m : UserMapper) (vpn : Z) (r : PT * bool)
    : UserMapper * result unit MemoryError :=
  if snd r then (set_gather (set_pt m (fst r)) (record_change (gather m) vpn), Ok ())
  else (set_pt m (fst r), Err NotMapped).

Definition set_user_flags (m : UserMapper) (vpn flags : Z) : UserMapper * result unit MemoryError :=
  match check_user_flags flags with
  | Err e => (m, Err e)
  | Ok _ => recorded m vpn (set_pte_flags_no_flush (page_table m) vpn flags)
  end.

Definition set_ppn (m : UserMapper) (vpn ppn : Z) : UserMapper * result unit MemoryError :=
  recorded m vpn (set_ppn_no_flush (page_table m) vpn ppn).

Definition block_write (m : UserMapper) (vpn : Z) : UserMapper * option Z :=
  match block_and_ret_mut_no_flush (page_table m) vpn with
  | (t, Some ppn) => (set_gather (set_pt m t) (record_change (gather m) vpn), Some ppn)
  | (t, None) => (set_pt m t, None)
  end.

Definition set_dirty (m : UserMapper) (vpn : Z) : UserMapper * result unit MemoryError :=
  recorded m vpn (set_dirty_bit_no_flush (page_table m) vpn).

Definition clear_dirty (m : UserMapper) (vpn : Z) : UserMapper * result unit MemoryError :=
  recorded m vpn (clear_dirty_bit (page_table m) vpn).

Definition um_retire_frame (reserve : bool) (m : UserMapper) (frame : Z) : option UserMapper :=
  '(g, rel) ← retire_frame (cpu_id m) reserve (gather m) frame;
  Some (mkMapper (page_table m) g (released m ++ rel) (fresh_no_flush m) (cpu_id m)).
End mapper.
Arguments UserMapper : clear implicits.

(** ** Collector lemmas *)

Lemma record_change_covers g vpn : covers (g_range (record_change g vpn)) vpn.
Proof.
  unfold record_change. destruct (checked_add vpn 1) eqn:E; [|done].
  apply checked_add_Some in E as [-> _]. destruct (g_range g) as [|r|]; simpl; [lia| |done].
  destruct (_ <=? _); simpl; [lia|done].
Qed.

Lemma record_change_mono g vpn v :
  covers (g_range g) v -> covers (g_range (record_change g vpn)) v.
Proof.
  unfold record_change. destruct (checked_add vpn 1) eqn:E; [|done].
  apply checked_add_Some in E as [-> _]. destruct (g_range g) as [|r|]; simpl; [done| |done].
  intros Hr. destruct (_ <=? _); simpl; [lia|done].
Qed.

Lemma record_change_bounded g vpn : 0 <= vpn ->
  range_bounded (g_range g) -> range_bounded (g_range (record_change g vpn)).
Proof.
  intros Hv. unfold record_change. destruct (checked_add vpn 1) eqn:E; [|done].
  apply checked_add_Some in E as [-> ?]. destruct (g_range g) as [|r|]; simpl; [|intros Hr|done].
  - unfold MAX_USER_TLB_RANGE_PAGES. lia.
  - rewrite usize_sub_small by (unfold is_usize, usize_max in *; lia).
    destruct (Z.leb_spec (Z.max (range_r r) (vpn + 1) - Z.min (range_l r) vpn) MAX_USER_TLB_RANGE_PAGES);
      simpl; [lia|done].
Qed.

Lemma covers_not_none r v : covers r v -> r <> FlushNone.
Proof. by destruct r. Qed.

Lemma record_change_retired g vpn : retired_frames (record_change g vpn) = retired_frames g.
Proof. unfold record_change. by destruct (checked_add vpn 1). Qed.

Lemma record_change_cpus g vpn :
  active_cpus_at_begin (record_change g vpn) = active_cpus_at_begin g.
Proof. unfold record_change. by destruct (checked_add vpn 1). Qed.

(** ** A flat table

    The trait's contract is met by a finite map; it instantiates the interface
    on concrete inputs. *)

#[export] Instance flat_table : PageTable (gmap Z (Z * Z)) := {
  pte t vpn := t !! vpn;
  is_mapped t vpn := bool_decide (is_Some (t !! vpn));
  translate t vpn := fst <$> t !! vpn;
  try_map_no_flush t vpn ppn flags :=
    match t !! vpn with
    | Some _ => (t, Err AlreadyMapped)
    | None => (<[vpn := (ppn, flags)]> t, Ok ())
    end;
  unmap_no_flush t vpn := delete vpn t;
  set_pte_flags_no_flush t vpn flags :=
    match t !! vpn with Some (p, _) => (<[vpn := (p, flags)]> t, true) | None => (t, false) end;
  set_ppn_no_flush t vpn ppn :=
    match t !! vpn with Some (_, f) => (<[vpn := (ppn, f)]> t, true) | None => (t, false) end;
  block_and_ret_mut_no_flush t vpn :=
    match t !! vpn with
    | Some (p, f) => (<[vpn := (p, difference f perm_W)]> t, Some p)
    | None => (t, None)
    end;
  set_dirty_bit_no_flush t vpn := (t, bool_decide (is_Some (t !! vpn)));
  clear_dirty_bit t vpn := (t, bool_decide (is_Some (t !! vpn)));
}.

#[export] Instance flat_table_laws : PageTableLaws (gmap Z (Z * Z)).
Proof.
  assert (Hm : forall (o : option (Z * Z)),
    bool_decide (is_Some o) = match o with Some _ => true | None => false end).
  { intros [x|]; [by apply bool_decide_eq_true_2|].
    apply bool_decide_eq_false_2. by intros [? [=]]. }
  split; simpl; intros; rewrite ?Hm in *; try done.
  - destruct (t !! vpn) eqn:E; [done|]. split; [done|]. intros v.
    destruct (Z.eqb_spec v vpn) as [->|]; by simplify_map_eq.
  - destruct (t !! vpn); done.
  - destruct (Z.eqb_spec v vpn) as [->|]; by simplify_map_eq.
  - destruct (t !! vpn) as [[p f]|] eqn:E; (split; [done|]); intros v; simpl;
      destruct (Z.eqb_spec v vpn) as [->|]; simplify_map_eq; done.
  - destruct (t !! vpn) as [[p f]|] eqn:E; (split; [done|]); intros v; simpl;
      destruct (Z.eqb_spec v vpn) as [->|]; simplify_map_eq; done.
  - destruct (t !! vpn) as [[p f]|] eqn:E; (split; [done|]); intros v; simpl;
      destruct (Z.eqb_spec v vpn) as [->|]; simplify_map_eq; done.
Qed.
