(* ===== verification/Vma.v ===== *)
(** One virtual memory area: [os/src/mm/vma.rs].

    An inode, an ELF backing and an owning address space are named by integers
    (the identity of the [Arc]).  The area is threaded together with an [Env]:
    the user mapper, and the notifications sent to the page cache of the mapped
    file when a PTE of a file page is installed or removed. *)

From stdpp Require Import base numbers option list.
From S2P Require Import Prelude BTree Addr PageStore Mapper.

Record Vma := mkVma {
  inner : VmPageStore;
  map_perm : Z;
  map_file : option Z;
  elf_lazy : option Z;
  map_file_offset : Z;
  may_write : bool;
  write_sealed : bool;
  flags : Z;
  wipe_on_fork : bool;
  dont_fork : bool;
  fork_inherited : bool;
  user_address_space : option Z;
}.

Definition set_inner (a : Vma) (s : VmPageStore) : Vma :=
  mkVma s (map_perm a) (map_file a) (elf_lazy a) (map_file_offset a) (may_write a)
    (write_sealed a) (flags a) (wipe_on_fork a) (dont_fork a) (fork_inherited a)
    (user_address_space a).
Definition set_perm (a : Vma) (p : Z) : Vma :=
  mkVma (inner a) p (map_file a) (elf_lazy a) (map_file_offset a) (may_write a)
    (write_sealed a) (flags a) (wipe_on_fork a) (dont_fork a) (fork_inherited a)
    (user_address_space a).
Definition set_offset (a : Vma) (o : Z) : Vma :=
  mkVma (inner a) (map_perm a) (map_file a) (elf_lazy a) o (may_write a)
    (write_sealed a) (flags a) (wipe_on_fork a) (dont_fork a) (fork_inherited a)
    (user_address_space a).
Definition set_fork_marks (a : Vma) (wipe dont inherited : bool) : Vma :=
  mkVma (inner a) (map_perm a) (map_file a) (elf_lazy a) (map_file_offset a) (may_write a)
    (write_sealed a) (flags a) wipe dont inherited (user_address_space a).
Definition set_user_address_space (a : Vma) (o : option Z) : Vma :=
  mkVma (inner a) (map_perm a) (map_file a) (elf_lazy a) (map_file_offset a) (may_write a)
    (write_sealed a) (flags a) (wipe_on_fork a) (dont_fork a) (fork_inherited a) o.

(** ** Queries *)

Definition vm_start (a : Vma) : Z := ps_start (inner a).
Definition vm_end (a : Vma) : Z := ps_end (inner a).
Definition vm_contains (a : Vma) (vpn : Z) : bool := (vm_start a <=? vpn) && (vpn <? vm_end a).
Definition vm_overlaps (a : Vma) (start_vpn end_vpn : Z) : bool :=
  (start_vpn <? vm_end a) && (vm_start a <? end_vpn).
Definition vm_is_user (a : Vma) : bool := contains (map_perm a) perm_U.

Inductive VmAreaKind := Anonymous | FileBacked | ElfLazy.
Definition vm_kind (a : Vma) : VmAreaKind :=
  match elf_lazy a, map_file a with
  | Some _, _ => ElfLazy
  | None, Some _ => FileBacked
  | None, None => Anonymous
  end.

Inductive VmAreaMapping := Private | Shared.
Definition vm_mapping_type (a : Vma) : VmAreaMapping :=
  if contains (flags a) MAP_SHARED then Shared else Private.

Definition vm_can_merge_lazy_private (a : Vma) (prot fl : Z) : bool :=
  contains (flags a) (Z.lor MAP_PRIVATE MAP_ANONYMOUS)
  && contains fl (Z.lor MAP_PRIVATE MAP_ANONYMOUS)
  && (prot =? map_perm a)
  && (match map_file a with None => true | Some _ => false end)
  && negb (wipe_on_fork a) && negb (dont_fork a) && negb (fork_inherited a).

Inductive FaultAccess := FaultLoad | FaultStore | FaultExecute.
Definition vm_access_allows (a : Vma) (access : FaultAccess) : bool :=
  contains (map_perm a)
    match access with FaultLoad => perm_R | FaultStore => perm_W | FaultExecute => perm_X end.

Definition vm_is_stale_lazy (a : Vma) (vpn : Z) : bool :=
  match frame_state (inner a) vpn with Ok FsUnallocated => true | _ => false end.

Definition vm_file_offset (a : Vma) (vpn : Z) : result Z MemoryError :=
  if negb (vm_contains a vpn) then Err BadAddress
  else match checked_add (map_file_offset a)
               (usize_sub (va_from_vpn vpn) (va_from_vpn (vm_start a))) with
       | Some o => Ok o
       | None => Err BeyondEOF
       end.

(** ** Construction and range changes *)

(** [None] is the assertion of [VPNRange::new]. *)
Definition vma_try_new (start_va end_va perm : Z) (file : option Z) (offset : Z) : option Vma :=
  r ← range_new (va_floor start_va) (va_ceil end_va);
  Some (mkVma (ps_try_new r) perm file None offset true false 0 false false false None).

Definition vma_try_clone (a : Vma) : Vma := set_inner a (ps_try_clone (inner a)).

Definition from_another (a : Vma) : Vma := set_inner a (ps_try_new (vpn_range (inner a))).

Definition mark_fork_inherited (a : Vma) : Vma :=
  set_fork_marks a (wipe_on_fork a) (dont_fork a) true.

Definition expand_to (a : Vma) (new_end : Z) : Vma * result unit errno :=
  let new_end_vpn := va_ceil new_end in
  if new_end_vpn <? vm_end a then (a, Err EINVAL)
  else match set_end (inner a) new_end_vpn with
       | (s, Ok _) => (set_inner a s, Ok ())
       | (s, Err _) => (set_inner a s, Err ENOMEM)
       end.

Definition expand_down_to (a : Vma) (new_start : Z) : Vma * result unit errno :=
  let new_start_vpn := va_floor new_start in
  if vm_start a <? new_start_vpn then (a, Err EINVAL)
  else match map_file a with
       | Some _ => (a, Err EINVAL)
       | None =>
           match set_start (inner a) new_start_vpn with
           | (s, Ok _) => (set_inner a s, Ok ())
           | (s, Err _) => (set_inner a s, Err ENOMEM)
           end
       end.

Definition into_two (a : Vma) (cut : Z) : Vma * result Vma unit :=
  match (match map_file a with
         | Some _ =>
             checked_add (map_file_offset a)
               (usize_sub (va_from_vpn cut) (va_from_vpn (vm_start a)))
         | None => Some 0
         end) with
  | None => (a, Err ())
  | Some second_offset =>
      match ps_into_two (inner a) cut with
      | (s, Err _) => (set_inner a s, Err ())
      | (s1, Ok s2) => (set_inner a s1, Ok (set_offset (set_inner a s2) second_offset))
      end
  end.

Definition into_three (a : Vma) (first_cut second_cut : Z) : Vma * result (Vma * Vma) unit :=
  match into_two a first_cut with
  | (a, Err _) => (a, Err ())
  | (a, Ok second_area) =>
      match into_two second_area second_cut with
      | (_, Err _) => (a, Err ())
      | (second_area, Ok third_area) => (a, Ok (second_area, third_area))
      end
  end.

(** ** Operations on the page table *)

Inductive file_event :=
| PteUnmapped (inode page : Z)
| PteMapped (inode page : Z).

Section ops.
Context {PT : Type} `{PageTable PT}.
(** Whether the retirement queue of the collector can grow. *)
Context (reserve : MmuGather -> bool).

Record Env := mkEnv { um : UserMapper PT; file_events : list file_event }.

Definition set_um (e : Env) (m : UserMapper PT) : Env := mkEnv m (file_events e).

(** The page whose cache is told, if the area is file backed. *)
Definition file_page (a : Vma) (vpn : Z) : option (Z * Z) :=
  match map_file a, vm_file_offset a vpn with
  | Some inode, Ok off => Some (inode, Z.shiftr off PAGE_SIZE_BITS)
  | _, _ => None
  end.

Definition note_file_pte_unmapped (a : Vma) (vpn : Z) (e : Env) : Env :=
  match file_page a vpn with
  | Some (inode, page) => mkEnv (um e) (file_events e ++ [PteUnmapped inode page])
  | None => e
  end.

Definition note_file_pte_mapped (a : Vma) (vpn : Z) (e : Env) : Env :=
  match file_page a vpn with
  | Some (inode, page) => mkEnv (um e) (file_events e ++ [PteMapped inode page])
  | None => e
  end.

Definition env_retire (e : Env) (frame : Z) : option Env :=
  m ← um_retire_frame (reserve (gather (um e))) (um e) frame;
  Some (set_um e m).

(** [unmap_one]; the outer [option] is a panic. *)
Definition unmap_one (a : Vma) (e : Env) (vpn : Z) : option (Vma * Env * result unit MemoryError) :=
  if negb (um_is_mapped (um e) vpn) then Some (a, e, Err NotMapped)
  else match unmap_user_page (um e) vpn with
       | (m, Err err) => Some (a, set_um e m, Err err)
       | (m, Ok _) =>
           let e := note_file_pte_unmapped a vpn (set_um e m) in
           match remove_in_memory (inner a) vpn with
           | (s, Some frame) => e ← env_retire e frame; Some (set_inner a s, e, Ok ())
           | (s, None) => Some (set_inner a s, e, Ok ())
           end
       end.

(** The page loop shared by [unmap] (to the end of the area) and
    [discard_range] (to the end of the requested range).  It visits resident
    pages only; [fuel] bounds their number. *)
Fixpoint drop_resident_loop (fuel : nat) (a : Vma) (e : Env) (cursor stop : Z)
    : option (Vma * Env * result unit MemoryError) :=
  match fuel with
  | O => None
  | S fuel =>
      found ← first_in_memory_vpn_in_range (inner a) cursor stop;
      match found with
      | None => Some (a, e, Ok ())
      | Some vpn =>
          match unmap_user_page_if_mapped (um e) vpn with
          | (m, Err err) => Some (a, set_um e m, Err err)
          | (m, Ok unmapped) =>
              let e := set_um e m in
              let e := if unmapped : bool then note_file_pte_unmapped a vpn e else e in
              let '(s, frame) := remove_in_memory (inner a) vpn in
              e ← match frame with
                  | Some frame => if unmapped then env_retire e frame else Some e
                  | None => Some e
                  end;
              drop_resident_loop fuel (set_inner a s) e (saturating_add vpn 1) stop
          end
      end
  end.

Definition vma_unmap (a : Vma) (e : Env) : option (Vma * Env * result unit MemoryError) :=
  drop_resident_loop (S (length (frames (inner a)))) a e (vm_start a) (vm_end a).

Definition discard_range (a : Vma) (e : Env) (start_vpn end_vpn : Z)
    : option (Vma * Env * result unit MemoryError) :=
  if (start_vpn <? vm_start a) || (vm_end a <? end_vpn) then Some (a, e, Err BadAddress)
  else drop_resident_loop (S (length (frames (inner a)))) a e start_vpn end_vpn.

(** [for vpn in range { if unmap_one(..).is_err() { has_unmapped_page = true } }] *)
Fixpoint unmap_each (a : Vma) (e : Env) (vpns : list Z) (failed : bool)
    : option (Vma * Env * bool) :=
  match vpns with
  | [] => Some (a, e, failed)
  | vpn :: vpns =>
      '(a, e, r) ← unmap_one a e vpn;
      unmap_each a e vpns (match r with Ok _ => failed | Err _ => true end)
  end.

Definition shrink_to (a : Vma) (e : Env) (new_end : Z) : option (Vma * Env * result unit unit) :=
  let new_end_vpn := va_ceil new_end in
  let old_end_vpn := vm_end a in
  if old_end_vpn <? new_end_vpn then Some (a, e, Err ())
  else
    r ← range_new new_end_vpn old_end_vpn;
    '(a, e, failed) ← unmap_each a e (range_iter r) false;
    match set_end (inner a) new_end_vpn with
    | (s, Err _) => Some (set_inner a s, e, Err ())
    | (s, Ok _) => Some (set_inner a s, e, if failed : bool then Err () else Ok ())
    end.

Definition rshrink_to (a : Vma) (e : Env) (new_start : Z) : option (Vma * Env * result unit unit) :=
  let new_start_vpn := va_floor new_start in
  let old_start_vpn := vm_start a in
  if new_start_vpn <? old_start_vpn then Some (a, e, Err ())
  else
    r ← range_new old_start_vpn new_start_vpn;
    '(a, e, failed) ← unmap_each a e (range_iter r) false;
    match set_start (inner a) new_start_vpn with
    | (s, Err _) => Some (set_inner a s, e, Err ())
    | (s, Ok _) => Some (set_inner a s, e, if failed : bool then Err () else Ok ())
    end.

Definition map_page_with_perm (e : Env) (vpn ppn perm : Z) : Env * result unit MemoryError :=
  let '(m, r) := if contains perm perm_U then map_user_page (um e) vpn ppn perm
                 else map_privileged_user_page (um e) vpn ppn perm in
  (set_um e m, r).

(** [map_one_unchecked] (and its zeroed twin): [frame] is what the allocator
    returns, [grow] whether the reclaim queue can grow. *)
Definition map_one_unchecked (frame : option Z) (grow : bool) (a : Vma) (e : Env) (vpn : Z)
    : Vma * Env * result Z MemoryError :=
  match frame with
  | None => (a, e, Err OutOfMemory)
  | Some ppn =>
      match alloc_in_memory grow (inner a) vpn ppn with
      | (s, Err err) => (set_inner a s, e, Err err)
      | (s, Ok _) =>
          match map_page_with_perm e vpn ppn (map_perm a) with
          | (e, Ok _) => (set_inner a s, e, Ok ppn)
          | (e, Err err) => (set_inner a (fst (remove_in_memory s vpn)), e, Err err)
          end
      end
  end.

Definition map_one (frame : option Z) (grow : bool) (a : Vma) (e : Env) (vpn : Z)
    : Vma * Env * result Z (MemoryError * Z) :=
  if um_is_mapped (um e) vpn then (a, e, Err (AlreadyMapped, vpn))
  else match map_one_unchecked frame grow a e vpn with
       | (a, e, Ok ppn) => (a, e, Ok ppn)
       | (a, e, Err err) => (a, e, Err (err, vpn))
       end.

Definition map_existing_in_memory (a : Vma) (e : Env) (vpn : Z) : Env * result Z MemoryError :=
  if um_is_mapped (um e) vpn then (e, Err AlreadyMapped)
  else match get_in_memory (inner a) vpn with
       | None => (e, Err NotMapped)
       | Some ppn =>
           match map_page_with_perm e vpn ppn (map_perm a) with
           | (e, Ok _) => (e, Ok ppn)
           | (e, Err err) => (e, Err err)
           end
       end.
End ops.
Arguments Env : clear implicits.

(** ** Invariant and page view *)

Record vma_wf (a : Vma) : Prop := {
  vw_store : ps_wf (inner a);
  vw_nonempty : vm_start a < vm_end a;
  vw_offset : 0 <= map_file_offset a /\
    map_file_offset a + (vm_end a - vm_start a) * PAGE_SIZE <= usize_modulus;
  vw_anon : map_file a = None -> map_file_offset a = 0;
}.

(** What an area says about one page: protection, backing object and offset,
    sharing and fork attributes, and the state of the page. *)
Record page_info := mkPageInfo {
  pi_perm : Z;
  pi_file : option (Z * Z);
  pi_elf : option Z;
  pi_may_write : bool;
  pi_sealed : bool;
  pi_flags : Z;
  pi_wipe : bool;
  pi_dont_fork : bool;
  pi_inherited : bool;
  pi_owner : option Z;
  pi_frame : option Frame;
}.

Definition page_view (a : Vma) (vpn : Z) : page_info :=
  mkPageInfo (map_perm a)
    ((fun f => (f, map_file_offset a + (vpn - vm_start a) * PAGE_SIZE)) <$> map_file a)
    (elf_lazy a) (may_write a) (write_sealed a) (flags a) (wipe_on_fork a) (dont_fork a)
    (fork_inherited a) (user_address_space a) (bt_get vpn (frames (inner a))).

Lemma vm_contains_spec a v : vm_contains a v = true <-> vm_start a <= v < vm_end a.
Proof. unfold vm_contains. rewrite andb_true_iff, Z.leb_le, Z.ltb_lt. done. Qed.

Lemma vm_overlaps_spec a s t : vm_overlaps a s t = true <-> s < vm_end a /\ vm_start a < t.
Proof. unfold vm_overlaps. rewrite andb_true_iff, !Z.ltb_lt. done. Qed.

Lemma vma_offset_small a v : vma_wf a -> vm_start a <= v < vm_end a ->
  checked_add (map_file_offset a) (usize_sub (va_from_vpn v) (va_from_vpn (vm_start a)))
  = Some (map_file_offset a + (v - vm_start a) * PAGE_SIZE).
Proof.
  intros [[H1 H2 _ _ _ _ _] Hne [Ho1 Ho2] _] Hv. unfold vm_start, vm_end in *.
  rewrite !va_from_vpn_small by lia.
  rewrite usize_sub_small by (unfold is_usize, PAGE_SIZE, usize_modulus; lia).
  apply checked_add_Some. unfold PAGE_SIZE, usize_max in *. lia.
Qed.

(** The file offset the fault path uses is the one of the page view. *)
Lemma vm_file_offset_spec a v : vma_wf a -> vm_start a <= v < vm_end a ->
  vm_file_offset a v = Ok (map_file_offset a + (v - vm_start a) * PAGE_SIZE).
Proof.
  intros Hwf Hv. unfold vm_file_offset. rewrite (proj2 (vm_contains_spec a v) Hv). simpl.
  by rewrite vma_offset_small.
Qed.

Lemma into_two_err a cut : vma_wf a -> cut < 2 ^ 52 -> ~ (vm_start a < cut < vm_end a) ->
  exists e, into_two a cut = (a, Err e).
Proof.
  intros Hwf Hb Hc. unfold into_two.
  destruct (match map_file a with Some _ => _ | None => _ end); [|by exists ()].
  rewrite ps_into_two_err by done. exists (). by destruct a.
Qed.

Lemma into_two_spec a cut : vma_wf a -> vm_start a < cut < vm_end a ->
  exists a1 a2, into_two a cut = (a1, Ok a2) /\ vma_wf a1 /\ vma_wf a2 /\
    vm_start a1 = vm_start a /\ vm_end a1 = cut /\ vm_start a2 = cut /\ vm_end a2 = vm_end a /\
    (forall v, v < cut -> page_view a1 v = page_view a v) /\
    (forall v, cut <= v -> page_view a2 v = page_view a v).
Proof.
  intros Hwf Hc. pose proof Hwf as [Hs Hne [Ho1 Ho2] Han].
  destruct (ps_into_two_spec (inner a) cut Hs Hc) as (s1 & s2 & Hi & W1 & W2 & R1 & R2 & G1 & G2).
  unfold into_two. rewrite Hi.
  assert (Hoff : exists o, match map_file a with
     | Some _ => checked_add (map_file_offset a)
                   (usize_sub (va_from_vpn cut) (va_from_vpn (vm_start a)))
     | None => Some 0 end = Some o /\
     o = match map_file a with
         | Some _ => map_file_offset a + (cut - vm_start a) * PAGE_SIZE | None => 0 end).
  { destruct (map_file a); [|by exists 0]. eexists; split; [|done].
    apply vma_offset_small; [done|lia]. }
  destruct Hoff as (o & -> & ->). do 2 eexists. split; [done|].
  unfold vm_start, vm_end, ps_start, ps_end in *; simpl.
  split_and!; rewrite ?R1, ?R2; simpl; try done.
  - split; simpl; unfold vm_start, vm_end, ps_start, ps_end in *; simpl; rewrite ?R1; simpl;
      [done|lia|unfold PAGE_SIZE in *; lia|done].
  - split; simpl; unfold vm_start, vm_end, ps_start, ps_end in *; simpl; rewrite ?R2; simpl;
      [done|lia| |by intros ->].
    destruct Hs. unfold ps_start, ps_end in *. destruct (map_file a); unfold PAGE_SIZE, usize_modulus in *; lia.
  - intros v Hv. unfold page_view, vm_start, ps_start; simpl. rewrite R1, G1.
    by rewrite (proj2 (Z.ltb_lt _ _) Hv).
  - intros v Hv. unfold page_view, vm_start, ps_start; simpl. rewrite R2, G2.
    rewrite (proj2 (Z.leb_le _ _) Hv). f_equal. destruct (map_file a); [|done]. simpl.
    f_equal. f_equal. unfold PAGE_SIZE. lia.
Qed.

(** ** Effects on the page table *)

Abbreviation env_pte e v := (pte (page_table (um e)) v).
Abbreviation env_range e := (g_range (gather (um e))).
Abbreviation env_retired e := (retired_frames (gather (um e))).

Section effects.
Context {PT : Type} `{PageTableLaws PT}.
Context (reserve : MmuGather -> bool).
Context (Hreserve : forall g, reserve g = true).

(** [e'] is [e] after recorded page-table changes: every entry that differs is
    covered by the pending invalidation, which only grows; retired frames stay
    queued, and none is released before the invalidation. *)
Record env_le (e e' : Env PT) : Prop := {
  el_mono : forall v, covers (env_range e) v -> covers (env_range e') v;
  el_changed : forall v, env_pte e' v <> env_pte e v -> covers (env_range e') v;
  el_retired : exists l, env_retired e' = env_retired e ++ l;
  el_released : released (um e') = released (um e);
}.

#[export] Instance env_le_preorder : PreOrder env_le.
Proof.
  split.
  - intros e. split; [done|done|exists []; by rewrite app_nil_r|done].
  - intros e1 e2 e3 [M1 C1 [l1 R1] L1] [M2 C2 [l2 R2] L2]. split.
    + auto.
    + intros v Hne. destruct (decide (env_pte e2 v = env_pte e1 v)) as [Heq|]; auto.
      apply C2. congruence.
    + exists (l1 ++ l2). rewrite R2, R1. by rewrite <- app_assoc.
    + congruence.
Qed.

Lemma env_le_note a v (e : Env PT) : env_le e (note_file_pte_unmapped a v e).
Proof.
  unfold note_file_pte_unmapped. destruct (file_page a v) as [[]|]; [|reflexivity].
  split; simpl; [done|done|exists []; by rewrite app_nil_r|done].
Qed.

Lemma note_um a v (e : Env PT) : um (note_file_pte_unmapped a v e) = um e.
Proof. unfold note_file_pte_unmapped. by destruct (file_page a v) as [[]|]. Qed.

(** [unmap_user_page_if_mapped] never fails; it clears the entry and records it. *)
Lemma unmap_if_mapped_spec (e : Env PT) v :
  exists m, unmap_user_page_if_mapped (um e) v = (m, Ok (is_mapped (page_table (um e)) v)) /\
    env_le e (set_um e m) /\ env_retired (set_um e m) = env_retired e /\
    (forall v', env_pte (set_um e m) v' = if v' =? v then None else env_pte e v') /\
    (is_mapped (page_table (um e)) v = true -> covers (env_range (set_um e m)) v).
Proof.
  unfold unmap_user_page_if_mapped. pose proof (is_mapped_spec (page_table (um e)) v) as Hm.
  destruct (is_mapped (page_table (um e)) v) eqn:E; simpl; eexists; (split; [done|]); simpl.
  - split_and!; [split; simpl| | |].
    + intros v' Hc. by apply record_change_mono.
    + intros v' Hne. rewrite unmap_spec in Hne by done. destruct (Z.eqb_spec v' v) as [E'|]; [rewrite E'|done].
      apply record_change_covers.
    + exists []. by rewrite record_change_retired, app_nil_r.
    + done.
    + by rewrite record_change_retired.
    + intros v'. by rewrite unmap_spec.
    + intros _. apply record_change_covers.
  - assert (set_um e (um e) = e) as -> by (by destruct e). split_and!; [reflexivity|done| |done].
    intros v'. destruct (Z.eqb_spec v' v) as [->|]; [|done]. by destruct (pte _ v).
Qed.

Lemma env_retire_spec (e : Env PT) p v : covers (env_range e) v ->
  exists e', env_retire reserve e p = Some e' /\ env_le e e' /\
    (forall v, env_pte e' v = env_pte e v) /\ env_range e' = env_range e /\
    env_retired e' = env_retired e ++ [p].
Proof.
  intros Hc. unfold env_retire, um_retire_frame, retire_frame. rewrite Hreserve.
  rewrite bool_decide_eq_false_2 by (by eapply covers_not_none). simpl.
  eexists. split; [done|]. split_and!; try done. split; simpl; [done|done|eauto|].
  by rewrite app_nil_r.
Qed.

(** The resident pages of [cursor, stop) in the area. *)
Definition resident_in (a : Vma) (cursor stop v : Z) : bool :=
  (cursor <=? v) && (v <? stop) &&
  match bt_get v (frames (inner a)) with Some (InMemory _) => true | _ => false end.

(** Result of dropping the resident pages of [cursor, stop). *)
Record dropped (a a' : Vma) (e e' : Env PT) (cursor stop : Z) : Prop := {
  dr_area : a' = set_inner a (inner a');
  dr_wf : ps_wf (inner a');
  dr_range : vpn_range (inner a') = vpn_range (inner a);
  dr_frames : forall v, bt_get v (frames (inner a')) =
    if resident_in a cursor stop v then None else bt_get v (frames (inner a));
  dr_env : env_le e e';
  dr_pte : forall v, env_pte e' v = if resident_in a cursor stop v then None else env_pte e v;
  dr_retired : forall v p, resident_in a cursor stop v = true ->
    bt_get v (frames (inner a)) = Some (InMemory p) -> env_pte e v <> None -> p ∈ env_retired e';
}.

Lemma resident_in_spec a c t v : resident_in a c t v = true <->
  c <= v < t /\ exists p, bt_get v (frames (inner a)) = Some (InMemory p).
Proof.
  unfold resident_in. rewrite !andb_true_iff, Z.leb_le, Z.ltb_lt.
  destruct (bt_get v (frames (inner a))) as [[]|]; naive_solver.
Qed.

(** One round of the loop: the lowest resident page [v] of [cursor, stop) is
    unmapped, recorded and retired. *)
Lemma drop_round a (e : Env PT) v p : ps_wf (inner a) -> bt_get v (frames (inner a)) = Some (InMemory p) ->
  exists m s e1, unmap_user_page_if_mapped (um e) v = (m, Ok (is_mapped (page_table (um e)) v)) /\
    remove_in_memory (inner a) v = (s, Some p) /\
    (let e0 := if is_mapped (page_table (um e)) v
               then note_file_pte_unmapped a v (set_um e m) else set_um e m in
     (if is_mapped (page_table (um e)) v then env_retire reserve e0 p else Some e0) = Some e1) /\
    env_le e e1 /\ ps_wf s /\ vpn_range s = vpn_range (inner a) /\
    (forall k, bt_get k (frames s) = if k =? v then None else bt_get k (frames (inner a))) /\
    (forall v', env_pte e1 v' = if v' =? v then None else env_pte e v') /\
    (env_pte e v <> None -> p ∈ env_retired e1).
Proof.
  intros Hwf Hg. pose proof (ps_keys _ Hwf _ _ Hg) as Hk.
  destruct (unmap_if_mapped_spec e v) as (m & Hu & Hle & Hret & Hpte & Hcov).
  destruct (remove_in_memory_spec (inner a) v Hwf) as (s & Hr & Ws & Rs & Gs); [by rewrite Hg|].
  assert (get_in_memory (inner a) v = Some p) as Hget.
  { unfold get_in_memory. by rewrite (proj2 (contains_vpn_spec _ _) Hk), Hg. }
  rewrite Hget in Hr. pose proof (is_mapped_spec (page_table (um e)) v) as Hm.
  destruct (is_mapped (page_table (um e)) v) eqn:E.
  - destruct (env_retire_spec (note_file_pte_unmapped a v (set_um e m)) p v) as (e1 & He1 & L1 & P1 & G1 & T1).
    { rewrite note_um. by apply Hcov. }
    exists m, s, e1. split_and!; try done.
    + rewrite Hle. etransitivity; [apply env_le_note|done].
    + intros v'. by rewrite P1, note_um.
    + intros _. rewrite T1. apply elem_of_app. right. by apply list_elem_of_singleton.
  - exists m, s, (set_um e m). split_and!; try done. intros Hne. by destruct (pte _ v).
Qed.

Lemma drop_resident_loop_spec fuel : forall a (e : Env PT) cursor stop,
  ps_wf (inner a) -> 0 <= cursor -> cursor <= stop -> stop <= 2 ^ 52 ->
  (length (frames (inner a)) < fuel)%nat ->
  exists a' e', drop_resident_loop reserve fuel a e cursor stop = Some (a', e', Ok ()) /\
    dropped a a' e e' cursor stop.
Proof.
  induction fuel as [|fuel IH]; intros a e cursor stop Hwf Hc Hcs Hb Hf; [lia|].
  simpl. destruct (first_in_memory_spec (inner a) cursor stop (ps_sorted _ Hwf) Hcs) as (r & -> & Hr).
  simpl. destruct r as [v|].
  - destruct Hr as (Hv & [p Hg] & Hmin).
    destruct (drop_round a e v p Hwf Hg) as
      (m & s & e1 & -> & Hrem & Hret & Hle & Ws & Rs & Gs & Ps & Ts).
    rewrite Hrem. simpl in Hret |- *. rewrite Hret. simpl.
    replace (saturating_add v 1) with (v + 1) by (unfold saturating_add; word_unfold; lia).
    destruct (IH (set_inner a s) e1 (v + 1) stop) as (a' & e' & Hl & [D1 D2 D3 D4 D5 D6 D7]);
      simpl; try done; try lia.
    { assert (s.(frames) = bt_remove v (frames (inner a))) as ->.
      { apply bt_ext; [apply Ws|apply bt_wf_remove, Hwf|]. intros k. rewrite Gs.
        by rewrite bt_get_remove by apply Hwf. }
      pose proof (bt_length_remove v _ _ (ps_sorted _ Hwf) Hg). lia. }
    exists a', e'. split; [done|]. simpl in *.
    assert (Hres : forall k, resident_in a cursor stop k =
      if k =? v then true else resident_in (set_inner a s) (v + 1) stop k).
    { intros k. apply eq_bool_prop_intro. rewrite !Is_true_true.
      destruct (Z.eqb_spec k v) as [->|Hne]; [split; [done|]; intros _; apply resident_in_spec; eauto|].
      rewrite !resident_in_spec. simpl. rewrite Gs. rewrite (proj2 (Z.eqb_neq k v) Hne).
      split; intros [Hk [q Hq]]; (split; [|eauto]); [|lia].
      specialize (Hmin k q Hq Hk). lia. }
    split.
    + rewrite D1. by destruct a.
    + done.
    + by rewrite D3.
    + intros k. rewrite D4, Hres. simpl. rewrite Gs. by destruct (k =? v), (resident_in _ _ _ k).
    + by etransitivity.
    + intros k. rewrite D6, Hres, Ps. by destruct (k =? v), (resident_in _ _ _ k).
    + intros k q Hk Hq Hne. rewrite Hres in Hk. destruct (Z.eqb_spec k v) as [->|Hkv].
      * destruct (el_retired _ _ D5) as [l ->]. apply elem_of_app. left.
        assert (q = p) as -> by congruence. by apply Ts.
      * apply (D7 k); [done| |].
        -- rewrite Gs. by rewrite (proj2 (Z.eqb_neq k v) Hkv).
        -- rewrite Ps. by rewrite (proj2 (Z.eqb_neq k v) Hkv).
  - assert (Hno : forall v, resident_in a cursor stop v = false).
    { intros v. destruct (resident_in a cursor stop v) eqn:E; [|done].
      apply resident_in_spec in E as [Hv [p Hp]]. by apply Hr in Hp. }
    exists a, e. split; [done|]. split; try done; try reflexivity; try (intros v; by rewrite Hno).
    by destruct a.
Qed.
End effects.
