(* ===== verification/VmaSet.v ===== *)
(** The set of areas of one address space: [os/src/mm/vma_set.rs].

    [vmas] and [mmap_holes] are ordered maps keyed by first page.  An area is
    owned by the set alone ([Arc::try_unwrap] and [Arc::get_mut] on it succeed),
    so areas are values; reverse-map records have an identity of their own
    ([Arc::ptr_eq]), modelled by a fresh number.  [i_mmap] is the registry kept
    by the page caches of the mapped files; [has_cache] says which inodes have
    a page cache. *)

From stdpp Require Import base numbers option list.
From S2P Require Import Prelude BTree Addr PageStore Mapper Vma.

Definition STACK_GUARD_GAP_PAGES : Z := 256.
Definition GROWSDOWN_MAX_FAULT_GAP_PAGES : Z := PAGE_SIZE * 0x100 / PAGE_SIZE.

Record FileVmaRmap := mkRmap {
  rm_id : Z;
  rm_inode : Z;
  rm_start : Z;
  rm_end : Z;
  rm_file_offset : Z;
  rm_owner : Z;
}.

Record VmaSet := mkSet {
  vmas : btree Vma;
  file_rmaps : btree FileVmaRmap;
  owner : option Z;
  mmap_holes : btree Z;
  user_area_count : Z;
  user_page_count : Z;
  next_rmap_id : Z;
  i_mmap : list Z;
}.

Definition set_vmas (s : VmaSet) (m : btree Vma) : VmaSet :=
  mkSet m (file_rmaps s) (owner s) (mmap_holes s) (user_area_count s) (user_page_count s)
    (next_rmap_id s) (i_mmap s).
Definition set_rmaps (s : VmaSet) (m : btree FileVmaRmap) (reg : list Z) (next : Z) : VmaSet :=
  mkSet (vmas s) m (owner s) (mmap_holes s) (user_area_count s) (user_page_count s) next reg.
Definition set_holes (s : VmaSet) (h : btree Z) : VmaSet :=
  mkSet (vmas s) (file_rmaps s) (owner s) h (user_area_count s) (user_page_count s)
    (next_rmap_id s) (i_mmap s).
Definition set_user_counts (s : VmaSet) (areas pages : Z) : VmaSet :=
  mkSet (vmas s) (file_rmaps s) (owner s) (mmap_holes s) areas pages (next_rmap_id s) (i_mmap s).
Definition set_owner_field (s : VmaSet) (o : option Z) : VmaSet :=
  mkSet (vmas s) (file_rmaps s) o (mmap_holes s) (user_area_count s) (user_page_count s)
    (next_rmap_id s) (i_mmap s).

Definition align_up (value align : Z) : option Z :=
  if align <=? 1 then Some value
  else (fun v => Z.ldiff v (align - 1)) <$> checked_add value (align - 1).

Definition is_anonymous_private (a : Vma) : bool :=
  (match map_file a with None => true | Some _ => false end)
  && contains (flags a) (Z.lor MAP_PRIVATE MAP_ANONYMOUS)
  && negb (contains (flags a) MAP_SHARED).

Definition area_page_count (a : Vma) : Z := saturating_sub (vm_end a) (vm_start a).

Definition errno_to_memory_error (e : errno) : MemoryError :=
  match e with
  | ENOMEM => OutOfMemory
  | EACCES => NoPermission
  | _ => BadAddress
  end.

(** ** Reverse-map records *)

(** [FileVmaRmap::from_vma]; the record gets the identity [id]. *)
Definition rmap_from_vma (id : Z) (a : Vma) : option FileVmaRmap :=
  if negb (contains (flags a) MAP_SHARED) then None
  else
    inode ← map_file a;
    o ← user_address_space a;
    Some (mkRmap id inode (vm_start a) (vm_end a) (map_file_offset a) o).

Section set.
(** Layout, [max_map_count()], and which inodes have a page cache. *)
Context (cfg : arch) (max_map_count : Z) (has_cache : Z -> bool).

Definition insert_file_rmap (s : VmaSet) (start : Z) (r : FileVmaRmap) : VmaSet :=
  let reg := if has_cache (rm_inode r) then rm_id r :: i_mmap s else i_mmap s in
  set_rmaps s (bt_insert start r (file_rmaps s)) reg (next_rmap_id s).

Definition remove_file_rmap (s : VmaSet) (start : Z) : VmaSet :=
  match bt_get start (file_rmaps s) with
  | None => s
  | Some r =>
      let reg := if has_cache (rm_inode r)
                 then filter (fun id => id <> rm_id r) (i_mmap s) else i_mmap s in
      set_rmaps s (bt_remove start (file_rmaps s)) reg (next_rmap_id s)
  end.

(** [Arc::new] of a record, if the area has one: take the next identity. *)
Definition add_rmap_for (s : VmaSet) (start : Z) (a : Vma) : VmaSet :=
  match rmap_from_vma (next_rmap_id s) a with
  | None => s
  | Some r =>
      insert_file_rmap (set_rmaps s (file_rmaps s) (i_mmap s) (next_rmap_id s + 1)) start r
  end.

Definition take_vma (s : VmaSet) (start : Z) : VmaSet * result Vma errno :=
  match bt_get start (vmas s) with
  | None => (s, Err EINVAL)
  | Some a => (remove_file_rmap (set_vmas s (bt_remove start (vmas s))) start, Ok a)
  end.

Definition put_vma (s : VmaSet) (a : Vma) : VmaSet :=
  let a := match owner s with Some o => set_user_address_space a (Some o) | None => a end in
  let start := vm_start a in
  let s := set_vmas s (bt_insert start a (vmas s)) in
  add_rmap_for s start a.

Definition set_owner (s : VmaSet) (o : Z) : VmaSet :=
  let s := set_owner_field s (Some o) in
  let s := set_vmas s ((fun e => (e.1, set_user_address_space e.2 (Some o))) <$> vmas s) in
  fold_left (fun s e => add_rmap_for s e.1 e.2) (vmas s) s.

(** ** Construction and bookkeeping *)

Definition set_new : VmaSet :=
  let '(mmap_start, mmap_stop) := mmap_bounds cfg in
  mkSet bt_empty bt_empty None (bt_insert mmap_start mmap_stop bt_empty) 0 0 0 [].

Definition set_clear (s : VmaSet) : VmaSet :=
  let '(mmap_start, mmap_stop) := mmap_bounds cfg in
  let reg := fold_left (fun reg r => if has_cache (rm_inode r)
               then filter (fun id => id <> rm_id r) reg else reg)
               (bt_values (file_rmaps s)) (i_mmap s) in
  mkSet bt_empty bt_empty (owner s) (bt_insert mmap_start mmap_stop bt_empty) 0 0
    (next_rmap_id s) reg.

Definition ensure_can_add (s : VmaSet) (additional : Z) : result unit errno :=
  match checked_add (user_area_count s) additional with
  | None => Err ENOMEM
  | Some len => if saturating_add max_map_count 1 <? len then Err ENOMEM else Ok ()
  end.

Definition untrack_area (s : VmaSet) (a : Vma) : VmaSet :=
  if vm_is_user a
  then set_user_counts s (saturating_sub (user_area_count s) 1)
         (saturating_sub (user_page_count s) (area_page_count a))
  else s.

Definition user_mapped_bytes (s : VmaSet) : Z := saturating_mul (user_page_count s) PAGE_SIZE.

Definition has_shared_writable_mapping (s : VmaSet) (inode : Z) : bool :=
  existsb (fun a =>
    if negb (contains (flags a) MAP_SHARED) || negb (contains (map_perm a) perm_W) then false
    else match map_file a with Some i => i =? inode | None => false end) (bt_values (vmas s)).

Definition last_non_user (s : VmaSet) : option Vma :=
  list.last (filter (fun a => vm_is_user a = false) (bt_values (vmas s))).

(** ** Lookup *)

Definition find_vma_key (s : VmaSet) (vpn : Z) : option Z :=
  '(start, a) ← bt_last_le vpn (vmas s);
  if vm_contains a vpn then Some start else None.

Definition find_user_vma_key (s : VmaSet) (vpn : Z) : option Z :=
  start ← find_vma_key s vpn;
  a ← bt_get start (vmas s);
  if vm_is_user a then Some start else None.

Definition has_overlap (s : VmaSet) (start_vpn end_vpn : Z) : bool :=
  if end_vpn <=? start_vpn then false
  else if (match bt_last_le start_vpn (vmas s) with
           | Some (_, a) => start_vpn <? vm_end a | None => false end) then true
  else match bt_first_ge start_vpn (vmas s) with
       | Some (_, a) => vm_start a <? end_vpn
       | None => false
       end.

Definition first_overlap_key (s : VmaSet) (start_vpn end_vpn : Z) : option Z :=
  match (match bt_last_le start_vpn (vmas s) with
         | Some (key, a) => if vm_overlaps a start_vpn end_vpn then Some key else None
         | None => None end) with
  | Some key => Some key
  | None => fst <$> head (filter (fun e => vm_overlaps e.2 start_vpn end_vpn = true)
                            (bt_from start_vpn (vmas s)))
  end.

(** ** The mmap arena *)

Definition clip_mmap_range (start_vpn end_vpn : Z) : option (Z * Z) :=
  let '(mmap_start, mmap_stop) := mmap_bounds cfg in
  let start_vpn := if mmap_start <? start_vpn then start_vpn else mmap_start in
  let end_vpn := if end_vpn <? mmap_stop then end_vpn else mmap_stop in
  if start_vpn <? end_vpn then Some (start_vpn, end_vpn) else None.

(** The body of the [for] loop over the overlapping holes. *)
Definition cut_hole (start_vpn end_vpn : Z) (h : btree Z) (hole : Z * Z) : btree Z :=
  let '(hole_start, hole_end) := hole in
  let h := bt_remove hole_start h in
  let h := if hole_start <? start_vpn then bt_insert hole_start start_vpn h else h in
  if end_vpn <? hole_end then bt_insert end_vpn hole_end h else h.

(** Always [Ok]. *)
Definition reserve_mmap_range (s : VmaSet) (start_vpn end_vpn : Z) : VmaSet :=
  match clip_mmap_range start_vpn end_vpn with
  | None => s
  | Some (start_vpn, end_vpn) =>
      let overlapping := filter (fun e => start_vpn < e.2) (bt_upto end_vpn (mmap_holes s)) in
      set_holes s (fold_left (cut_hole start_vpn end_vpn) overlapping (mmap_holes s))
  end.

(** The [loop] absorbing the holes that touch [start_vpn, end_vpn) from above;
    each round removes a hole. *)
Fixpoint absorb_next (fuel : nat) (h : btree Z) (start_vpn end_vpn : Z) : option (btree Z * Z) :=
  match fuel with
  | O => None
  | S fuel =>
      match bt_first_ge start_vpn h with
      | None => Some (h, end_vpn)
      | Some (next_start, next_end) =>
          if end_vpn <? next_start then Some (h, end_vpn)
          else absorb_next fuel (bt_remove next_start h) start_vpn
                 (if end_vpn <? next_end then next_end else end_vpn)
      end
  end.

(** Always [Ok]; [None] is the loop running out of fuel. *)
Definition release_mmap_range (s : VmaSet) (start_vpn end_vpn : Z) : option VmaSet :=
  match clip_mmap_range start_vpn end_vpn with
  | None => Some s
  | Some (start_vpn, end_vpn) =>
      let '(h, start_vpn, end_vpn) :=
        match bt_last_le start_vpn (mmap_holes s) with
        | Some (prev_start, prev_end) =>
            if start_vpn <=? prev_end
            then (bt_remove prev_start (mmap_holes s), prev_start,
                  if end_vpn <? prev_end then prev_end else end_vpn)
            else (mmap_holes s, start_vpn, end_vpn)
        | None => (mmap_holes s, start_vpn, end_vpn)
        end in
      '(h, end_vpn) ← absorb_next (S (length h)) h start_vpn end_vpn;
      Some (set_holes s (bt_insert start_vpn end_vpn h))
  end.

(** [fuel] bounds the rounds; every round moves the cursor up. *)
Fixpoint range_free_loop (fuel : nat) (h : btree Z) (cursor end_vpn : Z) : bool :=
  match fuel with
  | O => negb (cursor <? end_vpn)
  | S fuel =>
      if cursor <? end_vpn then
        match bt_last_le cursor h with
        | None => false
        | Some (_, hole_end) =>
            if hole_end <=? cursor then false
            else range_free_loop fuel h (if hole_end <? end_vpn then hole_end else end_vpn) end_vpn
        end
      else true
  end.

Definition is_mmap_range_free (s : VmaSet) (start_vpn end_vpn : Z) : bool :=
  match clip_mmap_range start_vpn end_vpn with
  | None => false
  | Some (clipped_start, clipped_end) =>
      if negb (clipped_start =? start_vpn) || negb (clipped_end =? end_vpn) then false
      else range_free_loop (Z.to_nat (end_vpn - start_vpn)) (mmap_holes s) start_vpn end_vpn
  end.

(** First fit over the holes in address order. *)
Fixpoint first_fit (holes : btree Z) (len align : Z) : result Z errno :=
  match holes with
  | [] => Err ENOMEM
  | (hole_start, hole_end) :: holes =>
      match align_up (va_from_vpn hole_start) align with
      | None => Err EINVAL
      | Some start_addr =>
          match checked_add start_addr len with
          | None => Err EINVAL
          | Some end_addr =>
              if end_addr <=? va_from_vpn hole_end then Ok start_addr
              else first_fit holes len align
          end
      end
  end.

Definition find_free_mmap_range (s : VmaSet) (len align : Z) : result Z errno :=
  first_fit (mmap_holes s) len (Z.max align PAGE_SIZE).

(** ** Inserting and splitting *)

Definition insert_vma (s : VmaSet) (a : Vma) : VmaSet * result unit errno :=
  let start := vm_start a in
  let stop := vm_end a in
  if stop <=? start then (s, Err EINVAL)
  else if has_overlap s start stop then (s, Err EINVAL)
  else match ensure_can_add s 1 with
       | Err e => (s, Err e)
       | Ok _ =>
           let s := reserve_mmap_range s start stop in
           let is_user := vm_is_user a in
           let pages := area_page_count a in
           let s := put_vma s a in
           if is_user
           then (set_user_counts s (usize_add (user_area_count s) 1)
                   (usize_add (user_page_count s) pages), Ok ())
           else (s, Ok ())
       end.

(** [if split_is_user { self.user_area_count += n }] *)
Definition bump_area_count (s : VmaSet) (is_user : bool) (n : Z) : VmaSet :=
  if is_user then set_user_counts s (usize_add (user_area_count s) n) (user_page_count s) else s.

(** Isolate [start_vpn, end_vpn) of the area at [area_start] into an area of its
    own; the key of that area is returned. *)
Definition split_for_range (s : VmaSet) (area_start start_vpn end_vpn : Z)
    : VmaSet * result Z errno :=
  match bt_get area_start (vmas s) with
  | None => (s, Err EINVAL)
  | Some area =>
      let split_is_user := vm_is_user area in
      let area_start_vpn := vm_start area in
      let area_end_vpn := vm_end area in
      if (start_vpn <? area_start_vpn) || (area_end_vpn <? end_vpn) || (end_vpn <=? start_vpn)
      then (s, Err EINVAL)
      else
        let at_start := start_vpn =? area_start_vpn in
        let at_end := end_vpn =? area_end_vpn in
        let additional := if at_start && at_end then 0 else if at_start || at_end then 1 else 2 in
        match ensure_can_add s additional with
        | Err e => (s, Err e)
        | Ok _ =>
            match take_vma s area_start with
            | (s, Err e) => (s, Err e)
            | (s, Ok area) =>
                if at_start && at_end then (put_vma s area, Ok area_start_vpn)
                else if at_start then
                  match into_two area end_vpn with
                  | (area, Err _) => (put_vma s area, Err EINVAL)
                  | (area, Ok second) =>
                      let s := put_vma (put_vma s area) second in
                      (bump_area_count s split_is_user 1, Ok (vm_start area))
                  end
                else if at_end then
                  match into_two area start_vpn with
                  | (area, Err _) => (put_vma s area, Err EINVAL)
                  | (area, Ok second) =>
                      let s := put_vma (put_vma s area) second in
                      (bump_area_count s split_is_user 1, Ok (vm_start second))
                  end
                else
                  match into_three area start_vpn end_vpn with
                  | (area, Err _) => (put_vma s area, Err EINVAL)
                  | (area, Ok (second, third)) =>
                      let s := put_vma (put_vma (put_vma s area) second) third in
                      (bump_area_count s split_is_user 2, Ok (vm_start second))
                  end
            end
        end
  end.

(** Stack growth on a fault below a [MAP_GROWSDOWN] area. *)
Definition expand_growsdown_for_fault (s : VmaSet) (fault_vpn : Z)
    : option (VmaSet * result (option Z) MemoryError) :=
  match bt_first_ge fault_vpn (vmas s) with
  | None => Some (s, Ok None)
  | Some (old_start, area) =>
      if (old_start <=? fault_vpn) || negb (vm_is_user area)
         || negb (contains (flags area) MAP_GROWSDOWN)
      then Some (s, Ok None)
      else if GROWSDOWN_MAX_FAULT_GAP_PAGES <? usize_sub old_start fault_vpn
      then Some (s, Ok None)
      else if (match bt_last_lt old_start (vmas s) with
               | Some (_, prev) =>
                   (fault_vpn <? vm_end prev)
                   || (saturating_sub fault_vpn (vm_end prev) <? STACK_GUARD_GAP_PAGES)
               | None => false end)
      then Some (s, Ok None)
      else if has_overlap s fault_vpn old_start then Some (s, Ok None)
      else
        let s := reserve_mmap_range s fault_vpn old_start in
        match take_vma s old_start with
        | (s, Err _) => Some (s, Err BadAddress)
        | (s, Ok area) =>
            let old_pages := area_page_count area in
            let is_user := vm_is_user area in
            match expand_down_to area (va_from_vpn fault_vpn) with
            | (area, Err e) =>
                s ← release_mmap_range (put_vma s area) fault_vpn old_start;
                Some (s, Err (errno_to_memory_error e))
            | (area, Ok _) =>
                let s := if is_user
                  then set_user_counts s (user_area_count s)
                         (saturating_add (user_page_count s)
                            (saturating_sub (area_page_count area) old_pages))
                  else s in
                Some (put_vma s area, Ok (Some (vm_start area)))
            end
        end
  end.

(** Extend the area that ends where a lazy private anonymous mapping begins. *)
Definition try_merge_lazy_private_mmap (s : VmaSet) (start_va len prot fl : Z)
    : option (VmaSet * result (option Z) errno) :=
  let start_vpn := va_floor start_va in
  match checked_add start_va len with
  | None => Some (s, Err EINVAL)
  | Some new_end =>
      let end_vpn := va_ceil new_end in
      if negb (is_mmap_range_free s start_vpn end_vpn) then Some (s, Ok None)
      else match bt_last_le start_vpn (vmas s) with
           | None => Some (s, Ok None)
           | Some (key, area) =>
               if negb (vm_end area =? start_vpn) || negb (vm_can_merge_lazy_private area prot fl)
               then Some (s, Ok None)
               else
                 let old_pages := area_page_count area in
                 let is_user := vm_is_user area in
                 let s := reserve_mmap_range s start_vpn end_vpn in
                 match expand_to area new_end with
                 | (area, Err e) =>
                     s ← release_mmap_range (set_vmas s (bt_insert key area (vmas s)))
                           start_vpn end_vpn;
                     Some (s, Err e)
                 | (area, Ok _) =>
                     let s := set_vmas s (bt_insert key area (vmas s)) in
                     let s := if is_user
                       then set_user_counts s (user_area_count s)
                              (saturating_add (user_page_count s)
                                 (saturating_sub (area_page_count area) old_pages))
                       else s in
                     Some (s, Ok (Some start_va))
                 end
           end
  end.

Fixpoint covers_loop (fuel : nat) (s : VmaSet) (cursor end_vpn : Z) : bool :=
  match fuel with
  | O => negb (cursor <? end_vpn)
  | S fuel =>
      if cursor <? end_vpn then
        match find_user_vma_key s cursor with
        | None => false
        | Some area_start =>
            match bt_get area_start (vmas s) with
            | None => false
            | Some area =>
                if vm_end area <=? cursor then false
                else covers_loop fuel s (if vm_end area <? end_vpn then vm_end area else end_vpn) end_vpn
            end
        end
      else true
  end.

Definition covers_user_range (s : VmaSet) (start_vpn end_vpn : Z) : bool :=
  covers_loop (Z.to_nat (end_vpn - start_vpn)) s start_vpn end_vpn.
End set.

(** ** Operations that reach the page table *)

Section mapped_ops.
Context {PT : Type} `{PageTable PT}.
Context (reserve : MmuGather -> bool).
Context (cfg : arch) (max_map_count : Z) (has_cache : Z -> bool).

(** The outer [option] of these operations is a panic. *)

Definition remove_area_with_start (s : VmaSet) (e : Env PT) (start_vpn : Z)
    : option (VmaSet * Env PT * result unit MemoryError) :=
  if bt_contains start_vpn (vmas s) then
    match take_vma has_cache s start_vpn with
    | (s, Err _) => Some (s, e, Err AreaNotFound)
    | (s, Ok area) =>
        let start := vm_start area in
        let stop := vm_end area in
        let s := untrack_area s area in
        '(_, e, r) ← vma_unmap reserve area e;
        s ← release_mmap_range cfg s start stop;
        Some (s, e, r)
    end
  else Some (s, e, Err AreaNotFound).

(** Each round removes the lowest area that overlaps the range, so at least one
    page of the range becomes free. *)
Fixpoint unmap_range_loop (fuel : nat) (s : VmaSet) (e : Env PT) (start_vpn end_vpn : Z)
    (found_area : bool) : option (VmaSet * Env PT * result bool errno) :=
  match fuel with
  | O => None
  | S fuel =>
      match first_overlap_key s start_vpn end_vpn with
      | None => Some (s, e, Ok found_area)
      | Some area_start =>
          match bt_get area_start (vmas s) with
          | None => Some (s, e, Err EINVAL)
          | Some area =>
              if negb (vm_is_user area) then Some (s, e, Err EINVAL)
              else
                let overlap_start := if vm_start area <? start_vpn then start_vpn else vm_start area in
                let overlap_end := if end_vpn <? vm_end area then end_vpn else vm_end area in
                match split_for_range max_map_count has_cache s area_start overlap_start overlap_end with
                | (s, Err err) => Some (s, e, Err err)
                | (s, Ok target_start) =>
                    match take_vma has_cache s target_start with
                    | (s, Err err) => Some (s, e, Err err)
                    | (s, Ok target) =>
                        let released_start := vm_start target in
                        let released_end := vm_end target in
                        let s := untrack_area s target in
                        '(_, e, _) ← vma_unmap reserve target e;
                        s ← release_mmap_range cfg s released_start released_end;
                        unmap_range_loop fuel s e start_vpn end_vpn true
                    end
                end
          end
      end
  end.

Definition unmap_range (s : VmaSet) (e : Env PT) (start_vpn end_vpn : Z) (allow_empty : bool)
    : option (VmaSet * Env PT * result bool errno) :=
  '(s, e, r) ← unmap_range_loop (S (Z.to_nat (end_vpn - start_vpn))) s e start_vpn end_vpn false;
  Some (s, e,
    match r with
    | Err err => Err err
    | Ok found_area => if found_area || allow_empty then Ok found_area else Err EINVAL
    end).

(** [protect_area]: a failed PTE update is only reported by a warning. *)
Definition protect_area (s : VmaSet) (e : Env PT) (area_start prot : Z)
    : VmaSet * Env PT * result unit errno :=
  match bt_get area_start (vmas s) with
  | None => (s, e, Err EINVAL)
  | Some area =>
      let actual_prot := difference prot perm_W in
      let e := fold_left (fun e vpn => set_um e (fst (set_user_flags (um e) vpn actual_prot)))
                 (in_memory_vpns (inner area)) e in
      (set_vmas s (bt_insert area_start (set_perm area prot) (vmas s)), e, Ok ())
  end.

(** The first loop of [protect_range]: every page is in a user area that may
    become writable. *)
Fixpoint protect_check (fuel : nat) (s : VmaSet) (cursor end_vpn prot : Z) : result unit errno :=
  match fuel with
  | O => Ok ()
  | S fuel =>
      if cursor <? end_vpn then
        match find_user_vma_key s cursor with
        | None => Err ENOMEM
        | Some area_start =>
            match bt_get area_start (vmas s) with
            | None => Err ENOMEM
            | Some area =>
                let next := if vm_end area <? end_vpn then vm_end area else end_vpn in
                if contains prot perm_W && contains (flags area) MAP_SHARED then
                  if write_sealed area then Err EPERM
                  else if negb (may_write area) then Err EACCES
                  else protect_check fuel s next end_vpn prot
                else protect_check fuel s next end_vpn prot
            end
        end
      else Ok ()
  end.

Fixpoint protect_apply (fuel : nat) (s : VmaSet) (e : Env PT) (cursor end_vpn prot : Z)
    : VmaSet * Env PT * result unit errno :=
  match fuel with
  | O => (s, e, Ok ())
  | S fuel =>
      if cursor <? end_vpn then
        match find_user_vma_key s cursor with
        | None => (s, e, Err ENOMEM)
        | Some area_start =>
            match bt_get area_start (vmas s) with
            | None => (s, e, Err ENOMEM)
            | Some area =>
                let protect_end := if vm_end area <? end_vpn then vm_end area else end_vpn in
                match split_for_range max_map_count has_cache s area_start cursor protect_end with
                | (s, Err err) => (s, e, Err err)
                | (s, Ok target_start) =>
                    match protect_area s e target_start prot with
                    | (s, e, Err err) => (s, e, Err err)
                    | (s, e, Ok _) => protect_apply fuel s e protect_end end_vpn prot
                    end
                end
            end
        end
      else (s, e, Ok ())
  end.

(** Every round of the two loops advances the cursor by at least one page. *)
Definition protect_range (s : VmaSet) (e : Env PT) (start_vpn end_vpn prot : Z)
    : VmaSet * Env PT * result unit errno :=
  let fuel := Z.to_nat (end_vpn - start_vpn) in
  match protect_check fuel s start_vpn end_vpn prot with
  | Err err => (s, e, Err err)
  | Ok _ => protect_apply fuel s e start_vpn end_vpn prot
  end.

Definition unmap_all (s : VmaSet) (e : Env PT) : option (VmaSet * Env PT * result unit MemoryError) :=
  let old_vmas := vmas s in
  let s := set_clear cfg has_cache (set_vmas s bt_empty) in
  '(e, first_error) ← foldl (fun acc a =>
      '(e, first_error) ← acc;
      '(_, e, r) ← vma_unmap reserve a e;
      Some (e, match r, first_error with Err err, None => Some err | _, _ => first_error end))
    (Some (e, None)) (bt_values old_vmas);
  Some (s, e, match first_error with Some err => Err err | None => Ok () end).
End mapped_ops.
