(* ===== verification/VmaHoles.v ===== *)
(** The free-range table of the mmap arena ([mmap_holes] of
    [os/src/mm/vma_set.rs]): what [reserve_mmap_range], [release_mmap_range],
    [is_mmap_range_free] and [find_free_mmap_range] do to, and read from, the
    set of free pages. *)

From stdpp Require Import base numbers option list.
From S2P Require Import Prelude BTree Addr PageStore Mapper Vma VmaSet.

(** Holes are non-empty, inside [lo, hi), disjoint and merged (never adjacent). *)
Record holes_ok (lo hi : Z) (h : btree Z) : Prop := {
  ho_wf : bt_wf h;
  ho_range : forall k e, bt_get k h = Some e -> lo <= k /\ k < e /\ e <= hi;
  ho_merged : forall k1 e1 k2 e2, bt_get k1 h = Some e1 -> bt_get k2 h = Some e2 ->
    k1 < k2 -> e1 < k2;
}.

Definition in_hole (h : btree Z) (v : Z) : Prop := exists k e, bt_get k h = Some e /\ k <= v < e.

(** A page lies in at most one hole. *)
Lemma hole_unique lo hi h v k1 e1 k2 e2 : holes_ok lo hi h ->
  bt_get k1 h = Some e1 -> bt_get k2 h = Some e2 -> k1 <= v < e1 -> k2 <= v < e2 ->
  k1 = k2 /\ e1 = e2.
Proof.
  intros Hh H1 H2 R1 R2. assert (k1 = k2) as ->; [|naive_solver congruence].
  destruct (Z.lt_trichotomy k1 k2) as [Hlt|[|Hlt]]; [|done|].
  - pose proof (ho_merged _ _ _ Hh _ _ _ _ H1 H2 Hlt). lia.
  - pose proof (ho_merged _ _ _ Hh _ _ _ _ H2 H1 Hlt). lia.
Qed.

Lemma holes_ok_singleton lo hi : lo < hi -> holes_ok lo hi (bt_insert lo hi bt_empty).
Proof.
  intros Hlt. split; [auto with btree|..]; simpl; intros; case_cmp; simplify_eq; lia.
Qed.

(** ** Reserving *)

Section cut.
Context (lo hi s e : Z) (Hse : s < e).

Lemma get_cut_hole h hs he k : bt_wf h -> hs < he ->
  bt_get k (cut_hole s e h (hs, he)) =
    if (e <? he) && (k =? e) then Some he
    else if k =? hs then (if hs <? s then Some s else None)
    else bt_get k h.
Proof.
  intros Hwf Hh. unfold cut_hole. destruct (Z.ltb_spec hs s), (Z.ltb_spec e he); simpl;
    rewrite ?bt_get_insert, ?bt_get_remove by auto with btree;
    destruct (Z.eqb_spec k e), (Z.eqb_spec k hs); done || lia.
Qed.

Lemma cut_hole_wf h hole : bt_wf h -> bt_wf (cut_hole s e h hole).
Proof.
  intros Hwf. destruct hole as [hs he]. unfold cut_hole.
  destruct (hs <? s), (e <? he); auto with btree.
Qed.

Lemma cut_hole_spec h hs he : holes_ok lo hi h -> bt_get hs h = Some he -> hs < e -> s < he ->
  let h' := cut_hole s e h (hs, he) in
  holes_ok lo hi h' /\
  (forall v, in_hole h' v <-> in_hole h v /\ ~ (hs <= v < he /\ s <= v < e)) /\
  (forall k x, k <> hs -> bt_get k h = Some x -> bt_get k h' = Some x).
Proof.
  intros Hh Hg He Hs. pose proof Hh as [Hwf Hr Hm]. pose proof (Hr _ _ Hg) as (? & ? & ?).
  assert (Hget := fun k => get_cut_hole h hs he k Hwf ltac:(lia)). cbv zeta.
  assert (Hother : forall k x, k <> hs -> bt_get k h = Some x ->
    (x < hs \/ he < k) /\ lo <= k /\ k < x /\ x <= hi).
  { intros k x Hk Hx. pose proof (Hr _ _ Hx). split; [|lia].
    destruct (Z.lt_trichotomy k hs) as [Hlt|[|Hlt]]; [left|lia|right]; [|by eapply Hm].
    by eapply Hm. }
  assert (Hnew : forall k x, bt_get k (cut_hole s e h (hs, he)) = Some x ->
    (k = e /\ x = he /\ e < he) \/ (k = hs /\ x = s /\ hs < s) \/
    (k <> hs /\ bt_get k h = Some x)).
  { intros k x. rewrite Hget. destruct (Z.ltb_spec e he), (Z.eqb_spec k e), (Z.eqb_spec k hs),
      (Z.ltb_spec hs s); simpl; intros; simplify_eq; auto. }
  assert (Hkeep : forall k x, k <> hs -> bt_get k h = Some x ->
    bt_get k (cut_hole s e h (hs, he)) = Some x).
  { intros k x Hk Hx. destruct (Hother _ _ Hk Hx). rewrite Hget.
    destruct (Z.ltb_spec e he), (Z.eqb_spec k e), (Z.eqb_spec k hs); simpl; done || lia. }
  split_and!; [split; [by apply cut_hole_wf| |]| |done].
  - intros k x [(-> & -> & ?)|[(-> & -> & ?)|(_ & Hx)]]%Hnew; [lia|lia|by apply Hr].
  - intros k1 e1 k2 e2 [(-> & -> & ?)|[(-> & -> & ?)|(N1 & G1)]]%Hnew
      [(-> & -> & ?)|[(-> & -> & ?)|(N2 & G2)]]%Hnew Hlt; try lia;
      try (destruct (Hother _ _ N1 G1)); try (destruct (Hother _ _ N2 G2)); try lia.
    by eapply Hm.
  - intros v. split.
    + intros (k & x & [(-> & -> & ?)|[(-> & -> & ?)|(N & G)]]%Hnew & Hv).
      * split; [exists hs, he; split; [done|lia]|lia].
      * split; [exists hs, he; split; [done|lia]|lia].
      * destruct (Hother _ _ N G). split; [by exists k, x|lia].
    + intros [(k & x & Hx & Hv) Hn]. destruct (decide (k = hs)) as [->|Hk]; [|exists k, x; auto].
      assert (x = he) as -> by congruence. destruct (decide (v < s)).
      * exists hs, s. rewrite Hget, Z.eqb_refl. split; [|lia].
        destruct (Z.ltb_spec e he), (Z.eqb_spec hs e), (Z.ltb_spec hs s); simpl; done || lia.
      * exists e, he. rewrite Hget, Z.eqb_refl. destruct (Z.ltb_spec e he); simpl; [split; [done|lia]|lia].
Qed.

(** Cutting a set of distinct holes one after the other. *)
Lemma cut_holes_fold l : forall h, holes_ok lo hi h -> NoDup l.*1 ->
  Forall (fun x => bt_get x.1 h = Some x.2 /\ x.1 < e /\ s < x.2) l ->
  let h' := fold_left (cut_hole s e) l h in
  holes_ok lo hi h' /\
  (forall v, in_hole h' v <->
     in_hole h v /\ ~ (s <= v < e /\ Exists (fun x => x.1 <= v < x.2) l)).
Proof.
  induction l as [|[hs he] l IH]; intros h Hh Hnd Hl; simpl.
  - split; [done|]. intros v. rewrite Exists_nil. tauto.
  - apply Forall_cons in Hl as [(Hg & H1 & H2) Hl]. simpl in *.
    apply NoDup_cons in Hnd as [Hni Hnd].
    destruct (cut_hole_spec h hs he Hh Hg H1 H2) as (Hh1 & Hin1 & Hk1).
    destruct (IH (cut_hole s e h (hs, he)) Hh1 Hnd) as (Hh2 & Hin2).
    { rewrite list.Forall_forall in *. intros [k x] Hx. specialize (Hl _ Hx). simpl in *.
      destruct Hl as (? & ? & ?). split_and!; [|done|done]. apply Hk1; [|done].
      intros ->. apply Hni, list_elem_of_fmap. by exists (hs, x). }
    split; [done|]. intros v. rewrite Hin2, Hin1, Exists_cons. simpl. tauto.
Qed.
End cut.

Section arena.
Context (cfg : arch).
Abbreviation lo := (arena_lo cfg).
Abbreviation hi := (arena_hi cfg).

Lemma clip_spec a b : match clip_mmap_range cfg a b with
  | Some (a', b') => a' < b' /\ a' = Z.max a lo /\ b' = Z.min b hi
  | None => forall v, lo <= v < hi -> ~ (a <= v < b)
  end.
Proof.
  unfold clip_mmap_range; simpl. case_cmp; simpl; lia.
Qed.

Lemma reserve_holes s a b : holes_ok lo hi (mmap_holes s) ->
  let s' := reserve_mmap_range cfg s a b in
  s' = set_holes s (mmap_holes s') /\ holes_ok lo hi (mmap_holes s') /\
  (forall v, in_hole (mmap_holes s') v <-> in_hole (mmap_holes s) v /\ ~ (a <= v < b)).
Proof.
  intros Hh. unfold reserve_mmap_range. pose proof (clip_spec a b) as Hc.
  assert (Hin : forall v, in_hole (mmap_holes s) v -> lo <= v < hi).
  { intros v (k & x & Hx & Hv). pose proof (ho_range _ _ _ Hh _ _ Hx). lia. }
  destruct (clip_mmap_range cfg a b) as [[a' b']|].
  - destruct Hc as (Hlt & -> & ->). simpl.
    set (l := filter _ _).
    assert (Hwf : bt_wf (bt_upto (Z.min b hi) (mmap_holes s))) by (apply bt_wf_upto, Hh).
    assert (Hl : forall k x, (k, x) ∈ l <->
      bt_get k (mmap_holes s) = Some x /\ k < Z.min b hi /\ Z.max a lo < x).
    { intros k x. unfold l. rewrite list_elem_of_filter, <- bt_get_iff, bt_get_upto by
        (done || apply Hh). simpl. destruct (Z.ltb_spec k (Z.min b hi)); [tauto|].
      split; [by intros [_ ?]|]. intros (_ & ? & _). lia. }
    destruct (cut_holes_fold lo hi (Z.max a lo) (Z.min b hi) Hlt l (mmap_holes s) Hh) as (H1 & H2).
    { unfold l. apply (bt_wf_filter (fun e : Z * Z => Z.max a lo < e.2)) in Hwf.
      unfold bt_wf in Hwf. revert Hwf. generalize (filter (fun e : Z * Z => Z.max a lo < e.2)
        (bt_upto (Z.min b hi) (mmap_holes s))).*1. intros ks. clear.
      induction 1 as [|k ks Hs IH Hf]; constructor; [|done].
      intros Hin. rewrite list.Forall_forall in Hf. specialize (Hf _ Hin). lia. }
    { apply list.Forall_forall. intros [k x] Hx. simpl. by apply Hl. }
    split; [done|]. split; [done|]. intros v. rewrite H2. split.
    + intros [Hv Hn]. split; [done|]. intros Hab. apply Hn. pose proof (Hin v Hv). split; [lia|].
      destruct Hv as (k & x & Hx & Hv). apply Exists_exists. exists (k, x). split; [|done].
      apply Hl. split_and!; [done|lia|lia].
    + intros [Hv Hn]. split; [done|]. lia.
  - split; [by destruct s|]. split; [done|]. intros v. split; [|tauto].
    intros Hv. split; [done|]. apply Hc. auto.
Qed.

(** ** Releasing *)

Lemma absorb_next_spec fuel : forall h a b, (length h < fuel)%nat -> holes_ok lo hi h ->
  a < b -> b <= hi -> (forall k x, bt_get k h = Some x -> k < a -> x < a) ->
  exists h' b', absorb_next fuel h a b = Some (h', b') /\ holes_ok lo hi h' /\
    b <= b' <= hi /\
    (forall k x, bt_get k h' = Some x -> (k < a /\ x < a) \/ b' < k) /\
    (forall v, in_hole h' v \/ a <= v < b' <-> in_hole h v \/ a <= v < b).
Proof.
  induction fuel as [|fuel IH]; intros h a b Hf Hh Hab Hb Hlow; [lia|]. simpl.
  pose proof (bt_first_ge_spec a h (ho_wf _ _ _ Hh)) as Hg.
  destruct (bt_first_ge a h) as [[ns ne]|].
  - destruct Hg as (Hg & Hge & Hmin). pose proof (ho_range _ _ _ Hh _ _ Hg).
    destruct (Z.ltb_spec b ns).
    + exists h, b. split_and!; try done; try lia.
      intros k x Hx. destruct (decide (k < a)); [left; eauto|right].
      specialize (Hmin k x Hx). lia.
    + set (b1 := if b <? ne then ne else b).
      assert (Hb1 : b1 = Z.max b ne) by (unfold b1; case_cmp; lia).
      destruct (IH (bt_remove ns h) a b1) as (h' & b' & He & Hh' & Hb' & Hk' & Hv').
      * pose proof (bt_length_remove ns ne h (ho_wf _ _ _ Hh) Hg). lia.
      * destruct Hh as [W R M]. split; [auto with btree|..]; intros *;
          rewrite !bt_get_remove by done; destruct (_ =? ns); try done; [apply R|].
        destruct (_ =? ns); [done|apply M].
      * lia.
      * lia.
      * intros k x. rewrite bt_get_remove by apply Hh. destruct (k =? ns); [done|apply Hlow].
      * exists h', b'. split_and!; try done; try lia. intros v. rewrite Hv'. split.
        -- intros [(k & x & Hx & Hv)|Hv].
           ++ rewrite bt_get_remove in Hx by apply Hh. destruct (k =? ns); [done|]. left. by exists k, x.
           ++ destruct (decide (v < b)); [right; lia|]. left. exists ns, ne. split; [done|lia].
        -- intros [(k & x & Hx & Hv)|Hv]; [|right; lia].
           destruct (decide (k = ns)) as [->|Hne].
           ++ right. assert (x = ne) as -> by congruence. lia.
           ++ left. exists k, x. rewrite bt_get_remove by apply Hh.
              by rewrite (proj2 (Z.eqb_neq k ns) Hne).
  - exists h, b. split_and!; try done; try lia.
    intros k x Hx. left. pose proof (Hg _ _ Hx). eauto.
Qed.

Lemma insert_hole h a b : holes_ok lo hi h -> lo <= a -> a < b -> b <= hi ->
  (forall k x, bt_get k h = Some x -> (k < a /\ x < a) \/ b < k) ->
  holes_ok lo hi (bt_insert a b h) /\
  (forall v, in_hole (bt_insert a b h) v <-> in_hole h v \/ a <= v < b).
Proof.
  intros [W R M] Ha Hab Hb Hk. split.
  - split; [auto with btree|..].
    + intros k x. rewrite bt_get_insert by done. destruct (Z.eqb_spec k a); [|apply R].
      intros [= <-]. lia.
    + intros k1 e1 k2 e2. rewrite !bt_get_insert by done.
      destruct (Z.eqb_spec k1 a), (Z.eqb_spec k2 a); intros G1 G2 Hlt; simplify_eq; try lia.
      * specialize (Hk _ _ G2). lia.
      * specialize (Hk _ _ G1). lia.
      * by eapply M.
  - intros v. split.
    + intros (k & x & Hx & Hv). rewrite bt_get_insert in Hx by done.
      destruct (Z.eqb_spec k a); [right; simplify_eq; lia|left; by exists k, x].
    + intros [(k & x & Hx & Hv)|Hv].
      * exists k, x. rewrite bt_get_insert by done. specialize (Hk _ _ Hx).
        rewrite (proj2 (Z.eqb_neq k a)) by lia. done.
      * exists a, b. rewrite bt_get_insert, Z.eqb_refl by done. done.
Qed.
Lemma holes_ok_remove h k : holes_ok lo hi h -> holes_ok lo hi (bt_remove k h).
Proof.
  intros [W R M]. split; [auto with btree|..].
  - intros k1 x. rewrite bt_get_remove by done. destruct (k1 =? k); [done|apply R].
  - intros k1 e1 k2 e2. rewrite !bt_get_remove by done.
    destruct (k1 =? k); [done|]. destruct (k2 =? k); [done|apply M].
Qed.

Lemma in_hole_remove h k x v : holes_ok lo hi h -> bt_get k h = Some x ->
  in_hole h v <-> in_hole (bt_remove k h) v \/ k <= v < x.
Proof.
  intros Hh Hx. split.
  - intros (k1 & x1 & H1 & Hv). destruct (decide (k1 = k)) as [->|Hne]; [right; congruence|].
    left. exists k1, x1. rewrite bt_get_remove by apply Hh. by rewrite (proj2 (Z.eqb_neq k1 k) Hne).
  - intros [(k1 & x1 & H1 & Hv)|Hv]; [|by exists k, x].
    rewrite bt_get_remove in H1 by apply Hh. destruct (k1 =? k); [done|]. by exists k1, x1.
Qed.

(** Absorbing upwards and inserting the merged hole. *)
Lemma absorb_insert h a b : holes_ok lo hi h -> lo <= a -> a < b -> b <= hi ->
  (forall k x, bt_get k h = Some x -> k < a -> x < a) ->
  exists h' b', absorb_next (S (length h)) h a b = Some (h', b') /\
    holes_ok lo hi (bt_insert a b' h') /\
    (forall v, in_hole (bt_insert a b' h') v <-> in_hole h v \/ a <= v < b).
Proof.
  intros Hh Ha Hab Hb Hlow.
  destruct (absorb_next_spec (S (length h)) h a b) as (h' & b' & He & Hh' & Hb' & Hk' & Hv'); try done.
  { lia. }
  destruct (insert_hole h' a b') as [Hi1 Hi2]; try done; try lia.
  exists h', b'. split_and!; try done. intros v. by rewrite Hi2.
Qed.

Lemma release_holes s a b : holes_ok lo hi (mmap_holes s) ->
  exists s', release_mmap_range cfg s a b = Some s' /\ s' = set_holes s (mmap_holes s') /\
    holes_ok lo hi (mmap_holes s') /\
    (forall v, in_hole (mmap_holes s') v <->
       in_hole (mmap_holes s) v \/ (a <= v < b /\ lo <= v < hi)).
Proof.
  intros Hh. unfold release_mmap_range. pose proof (clip_spec a b) as Hc.
  destruct (clip_mmap_range cfg a b) as [[a' b']|].
  2: { exists s. split_and!; try done; [by destruct s|]. intros v. split; [tauto|].
       intros [?|[? ?]]; [done|]. exfalso. by eapply Hc. }
  destruct Hc as (Hlt & Ha & Hb).
  assert (Hfin : forall v, a' <= v < b' <-> a <= v < b /\ lo <= v < hi) by lia.
  pose proof (bt_last_le_spec a' (mmap_holes s) (ho_wf _ _ _ Hh)) as Hp.
  assert (Hsimple : (forall k x, bt_get k (mmap_holes s) = Some x -> k < a' -> x < a') ->
    exists s', ('(h, e) ← absorb_next (S (length (mmap_holes s))) (mmap_holes s) a' b';
      Some (set_holes s (bt_insert a' e h))) = Some s' /\ s' = set_holes s (mmap_holes s') /\
      holes_ok lo hi (mmap_holes s') /\
      (forall v, in_hole (mmap_holes s') v <-> in_hole (mmap_holes s) v \/ (a <= v < b /\ lo <= v < hi))).
  { intros Hlow. destruct (absorb_insert (mmap_holes s) a' b') as (h' & b1 & He & H1 & H2);
      try done; try lia. rewrite He. simpl. eexists. split_and!; try done.
    intros v. simpl. by rewrite H2, Hfin. }
  destruct (bt_last_le a' (mmap_holes s)) as [[ps pe]|].
  2: { apply Hsimple. intros k x Hx ?. specialize (Hp _ _ Hx). lia. }
  destruct Hp as (Hg & Hle & Hmax). pose proof (ho_range _ _ _ Hh _ _ Hg).
  destruct (Z.leb_spec a' pe).
  - destruct (absorb_insert (bt_remove ps (mmap_holes s)) ps (if b' <? pe then pe else b'))
      as (h' & b1 & He & H1 & H2); try lia.
    + by apply holes_ok_remove.
    + case_cmp; lia.
    + case_cmp; lia.
    + intros k x. rewrite bt_get_remove by apply Hh. destruct (k =? ps); [done|].
      intros Hx Hk. by eapply (ho_merged _ _ _ Hh k x ps pe).
    + rewrite He. simpl. eexists. split_and!; try done. intros v. simpl. rewrite H2, <- Hfin.
      rewrite (in_hole_remove (mmap_holes s) ps pe v Hh Hg).
      destruct (Z.ltb_spec b' pe); (split; [intros [?|?]|intros [[?|?]|?]]);
        try (right; lia); try tauto; destruct (decide (ps <= v < pe)); [tauto|right; lia].
  - apply Hsimple. intros k x Hx Hk. specialize (Hmax k x Hx ltac:(lia)).
    destruct (decide (k = ps)) as [->|]; [assert (x = pe) as -> by congruence; lia|].
    pose proof (ho_merged _ _ _ Hh k x ps pe Hx Hg ltac:(lia)). lia.
Qed.

(** ** Queries *)

Lemma range_free_loop_spec fuel : forall h c b, holes_ok lo hi h ->
  (Z.to_nat (b - c) <= fuel)%nat ->
  range_free_loop fuel h c b = true <-> (forall v, c <= v < b -> in_hole h v).
Proof.
  induction fuel as [|fuel IH]; intros h c b Hh Hf; simpl.
  { destruct (Z.ltb_spec c b); [lia|]. simpl. split; [lia|done]. }
  destruct (Z.ltb_spec c b); [|split; [lia|done]].
  pose proof (bt_last_le_spec c h (ho_wf _ _ _ Hh)) as Hp.
  destruct (bt_last_le c h) as [[k x]|].
  - destruct Hp as (Hg & Hle & Hmax). destruct (Z.leb_spec x c).
    + split; [done|]. intros Hall. destruct (Hall c) as (k' & x' & Hx' & Hv'); [lia|].
      specialize (Hmax _ _ Hx'). destruct (decide (k' = k)) as [->|]; [assert (x = x') by congruence; lia|].
      pose proof (ho_merged _ _ _ Hh k' x' k x Hx' Hg). lia.
    + rewrite IH by (done || case_cmp; lia). split.
      * intros Hall v Hv. destruct (decide (v < x)); [exists k, x; split; [done|lia]|].
        apply Hall. case_cmp; lia.
      * intros Hall v Hv. apply Hall. case_cmp; lia.
  - split; [done|]. intros Hall. destruct (Hall c) as (k' & x' & Hx' & Hv'); [lia|].
    specialize (Hp _ _ Hx'). lia.
Qed.

Lemma is_mmap_range_free_spec s a b : holes_ok lo hi (mmap_holes s) ->
  is_mmap_range_free cfg s a b = true <->
  a < b /\ (forall v, a <= v < b -> in_hole (mmap_holes s) v).
Proof.
  intros Hh. unfold is_mmap_range_free. pose proof (clip_spec a b) as Hc.
  assert (Hin : forall v, in_hole (mmap_holes s) v -> lo <= v < hi).
  { intros v (k & x & Hx & Hv). pose proof (ho_range _ _ _ Hh _ _ Hx). lia. }
  destruct (clip_mmap_range cfg a b) as [[a' b']|].
  - destruct Hc as (Hlt & Ha & Hb).
    destruct (Z.eqb_spec a' a); [destruct (Z.eqb_spec b' b)|]; simpl.
    + subst a' b'. rewrite range_free_loop_spec by (done || lia). naive_solver lia.
    + split; [done|]. intros [? Hall]. pose proof (Hin _ (Hall (b - 1) ltac:(lia))). lia.
    + split; [done|]. intros [? Hall]. pose proof (Hin _ (Hall a ltac:(lia))). lia.
  - split; [done|]. intros [? Hall]. exfalso. apply (Hc a); [|lia]. apply Hin, Hall. lia.
Qed.
Lemma align_up_page v : 0 <= v -> v * PAGE_SIZE + (PAGE_SIZE - 1) <= usize_max ->
  align_up (v * PAGE_SIZE) PAGE_SIZE = Some (v * PAGE_SIZE).
Proof.
  intros Hv Hb. unfold align_up.
  rewrite (proj2 (checked_add_Some _ _ _) (conj eq_refl Hb)). simpl. f_equal.
  rewrite page_mask_spec. unfold PAGE_SIZE. div_lia.
Qed.

(** First fit: the first hole, in address order, of at least [len] bytes. *)
Lemma first_fit_spec h len : bt_wf h -> 0 < len ->
  (forall k x, bt_get k h = Some x -> 0 <= k /\ k < x /\ x < 2 ^ 52 /\
     x * PAGE_SIZE + len <= usize_max) ->
  match first_fit h len PAGE_SIZE with
  | Ok addr => exists k x, bt_get k h = Some x /\ addr = k * PAGE_SIZE /\ addr + len <= x * PAGE_SIZE
  | Err err => err = ENOMEM /\
      forall k x, bt_get k h = Some x -> x * PAGE_SIZE < k * PAGE_SIZE + len
  end.
Proof.
  induction h as [|[k x] h IH]; intros Hwf Hlen Hr; simpl; [done|].
  pose proof (Hr k x) as Hkx. simpl in Hkx. rewrite Z.eqb_refl in Hkx. specialize (Hkx eq_refl).
  rewrite !va_from_vpn_small by lia.
  rewrite align_up_page by (unfold PAGE_SIZE in *; lia).
  assert (checked_add (k * PAGE_SIZE) len = Some (k * PAGE_SIZE + len)) as ->.
  { apply checked_add_Some. split; [done|]. unfold PAGE_SIZE in *. lia. }
  destruct (Z.leb_spec (k * PAGE_SIZE + len) (x * PAGE_SIZE)).
  { exists k, x. rewrite Z.eqb_refl. done. }
  pose proof Hwf as Hwf0. apply bt_wf_cons in Hwf as [Hwf Hlt].
  assert (Hsub : forall k' x', bt_get k' h = Some x' -> bt_get k' ((k, x) :: h) = Some x').
  { intros k' x' Hx'. apply bt_elem_get; [done|]. right. by apply bt_get_elem. }
  specialize (IH Hwf Hlen (fun k' x' Hx' => Hr k' x' (Hsub _ _ Hx'))).
  destruct (first_fit h len PAGE_SIZE) as [addr|err].
  - destruct IH as (k' & x' & Hx' & Ha & Hl). exists k', x'. split; [|done]. by apply Hsub.
  - destruct IH as [-> Hno]. split; [done|]. intros k' x'. destruct (Z.eqb_spec k' k) as [Hk|].
    + intros [= <-]. subst k'. done.
    + apply Hno.
Qed.

Lemma find_free_spec s len align : holes_ok lo hi (mmap_holes s) -> 0 <= lo <= hi -> hi < 2 ^ 52 ->
  0 < len -> hi * PAGE_SIZE + len <= usize_max -> align <= PAGE_SIZE ->
  match find_free_mmap_range s len align with
  | Ok addr => 0 <= addr /\ addr mod PAGE_SIZE = 0 /\ addr + len <= hi * PAGE_SIZE /\
      forall v, va_floor addr <= v < va_ceil (addr + len) -> in_hole (mmap_holes s) v
  | Err err => err = ENOMEM /\
      forall p, ~ (forall v, p <= v < p + va_ceil len -> in_hole (mmap_holes s) v)
  end.
Proof.
  intros Hh Hlo Hhi Hlen Hb Hal. unfold find_free_mmap_range. rewrite Z.max_r by done.
  pose proof (first_fit_spec (mmap_holes s) len (ho_wf _ _ _ Hh) Hlen) as Hf.
  assert (Hr : forall k x, bt_get k (mmap_holes s) = Some x -> 0 <= k /\ k < x /\ x < 2 ^ 52 /\
     x * PAGE_SIZE + len <= usize_max).
  { intros k x Hx. pose proof (ho_range _ _ _ Hh _ _ Hx). unfold PAGE_SIZE in *. lia. }
  specialize (Hf Hr). destruct (first_fit _ _ _) as [addr|err].
  - destruct Hf as (k & x & Hx & -> & Hl). pose proof (ho_range _ _ _ Hh _ _ Hx).
    pose proof (Hr _ _ Hx). split_and!.
    + unfold PAGE_SIZE. lia.
    + apply Z.mod_mul. done.
    + unfold PAGE_SIZE in *. lia.
    + intros v Hv. exists k, x. split; [done|].
      rewrite va_ceil_spec in Hv by (unfold PAGE_SIZE in *; word_unfold; lia).
      unfold va_floor, PAGE_SIZE in *. div_lia.
  - destruct Hf as [-> Hno]. split; [done|]. intros p Hall.
    assert (Hc : va_ceil len = (len + 4095) / 4096).
    { apply va_ceil_spec. unfold PAGE_SIZE in *. word_unfold. lia. }
    destruct (Hall p) as (k & x & Hx & Hv); [rewrite Hc; div_lia|].
    pose proof (Hno _ _ Hx) as Hsm. pose proof (ho_range _ _ _ Hh _ _ Hx).
    destruct (Hall x) as (k' & x' & Hx' & Hv'); [rewrite Hc; unfold PAGE_SIZE in *; div_lia|].
    destruct (decide (k' = k)) as [->|]; [assert (x = x') by congruence; lia|].
    destruct (decide (k < k')); [pose proof (ho_merged _ _ _ Hh k x k' x' Hx Hx'); lia|].
    pose proof (ho_merged _ _ _ Hh k' x' k x Hx' Hx). lia.
Qed.
End arena.
