(* ===== verification/VmaSetInv.v ===== *)
(** The invariant of [VmaSet] and its preservation by the primitive steps
    ([take_vma], [put_vma], [insert_vma], [split_for_range], ...).

    The invariant is the one [check_invariants] of [os/src/mm/vma_set.rs]
    describes, made exact: areas are non-empty, keyed by their first page and
    disjoint; inside the mmap arena a page is in a hole if and only if no area
    covers it; the cached counters equal what they cache; the reverse-map
    records are those of the shared file areas, each registered under an
    identity of its own. *)

From stdpp Require Import base numbers option list.
From S2P Require Import Prelude BTree Addr PageStore Mapper Vma VmaSet VmaHoles.

(** ** Areas *)

Record areas_ok (m : btree Vma) : Prop := {
  ao_wf : bt_wf m;
  ao_area : forall k a, bt_get k m = Some a -> vm_start a = k /\ vma_wf a;
  ao_disj : forall k1 a1 k2 a2, bt_get k1 m = Some a1 -> bt_get k2 m = Some a2 ->
    k1 < k2 -> vm_end a1 <= k2;
}.

Definition covered (m : btree Vma) (v : Z) : Prop :=
  exists k a, bt_get k m = Some a /\ vm_start a <= v < vm_end a.

(** The area of a page, and what it says about the page. *)
Definition area_at (m : btree Vma) (v : Z) : option Vma :=
  '(_, a) ← bt_last_le v m;
  if vm_contains a v then Some a else None.

Definition view (m : btree Vma) (v : Z) : option page_info :=
  (fun a => page_view a v) <$> area_at m v.

Lemma area_start k a m : areas_ok m -> bt_get k m = Some a -> vm_start a = k.
Proof. intros H Hg. by apply (ao_area _ H) in Hg as [? _]. Qed.

Lemma area_wf k a m : areas_ok m -> bt_get k m = Some a -> vma_wf a.
Proof. intros H Hg. by apply (ao_area _ H) in Hg as [_ ?]. Qed.

Lemma area_unique m v k1 a1 k2 a2 : areas_ok m ->
  bt_get k1 m = Some a1 -> bt_get k2 m = Some a2 ->
  vm_start a1 <= v < vm_end a1 -> vm_start a2 <= v < vm_end a2 -> k1 = k2 /\ a1 = a2.
Proof.
  intros Hm H1 H2 R1 R2.
  pose proof (area_start _ _ _ Hm H1). pose proof (area_start _ _ _ Hm H2).
  assert (k1 = k2) as ->; [|split; congruence].
  destruct (Z.lt_trichotomy k1 k2) as [Hlt|[|Hlt]]; [|done|].
  - pose proof (ao_disj _ Hm _ _ _ _ H1 H2 Hlt). lia.
  - pose proof (ao_disj _ Hm _ _ _ _ H2 H1 Hlt). lia.
Qed.

Lemma area_at_spec m v a : areas_ok m ->
  area_at m v = Some a <-> bt_get (vm_start a) m = Some a /\ vm_start a <= v < vm_end a.
Proof.
  intros Hm. unfold area_at. pose proof (bt_last_le_spec v m (ao_wf _ Hm)) as Hl.
  destruct (bt_last_le v m) as [[k b]|]; simpl.
  - destruct Hl as (Hg & Hle & Hmax). pose proof (area_start _ _ _ Hm Hg) as Hk.
    destruct (vm_contains b v) eqn:Hc.
    + apply vm_contains_spec in Hc. split; [intros [= <-]; split; [congruence|done]|].
      intros [Ha Hv]. f_equal. by eapply area_unique.
    + split; [done|]. intros [Ha Hv]. specialize (Hmax _ _ Ha ltac:(lia)).
      destruct (decide (vm_start a = k)) as [E|].
      * assert (a = b) as -> by congruence. by rewrite (proj2 (vm_contains_spec b v) Hv) in Hc.
      * pose proof (ao_disj _ Hm _ _ _ _ Ha Hg). lia.
  - split; [done|]. intros [Ha Hv]. specialize (Hl _ _ Ha). lia.
Qed.

Lemma area_at_None m v : areas_ok m -> area_at m v = None <-> ~ covered m v.
Proof.
  intros Hm. split.
  - intros Hn (k & a & Hg & Hv). pose proof (area_start _ _ _ Hm Hg) as Hk.
    assert (area_at m v = Some a); [|congruence]. apply area_at_spec; [done|]. split; [congruence|done].
  - intros Hn. destruct (area_at m v) as [a|] eqn:E; [|done].
    apply area_at_spec in E as [Hg Hv]; [|done]. exfalso. apply Hn. exists (vm_start a), a. done.
Qed.

(** Two sets with the same entries have the same areas; insertion and removal
    change the area of exactly the pages of the entry. *)
Lemma areas_ok_remove m k : areas_ok m -> areas_ok (bt_remove k m).
Proof.
  intros [W A D]. split; [auto with btree|..].
  - intros k' a. rewrite bt_get_remove by done. destruct (k' =? k); [done|apply A].
  - intros k1 a1 k2 a2. rewrite !bt_get_remove by done.
    destruct (k1 =? k); [done|]. destruct (k2 =? k); [done|apply D].
Qed.

Lemma area_at_remove m k a v : areas_ok m -> bt_get k m = Some a ->
  area_at (bt_remove k m) v = if vm_contains a v then None else area_at m v.
Proof.
  intros Hm Hg. pose proof (areas_ok_remove m k Hm) as Hm'. apply option_eq. intros b.
  rewrite area_at_spec, bt_get_remove by (done || apply Hm).
  destruct (vm_contains a v) eqn:Hc.
  - apply vm_contains_spec in Hc. split; [|done]. intros [Hb Hv].
    destruct (Z.eqb_spec (vm_start b) k); [done|]. exfalso.
    destruct (area_unique m v _ _ _ _ Hm Hb Hg Hv Hc). done.
  - rewrite area_at_spec by done. destruct (Z.eqb_spec (vm_start b) k) as [E|]; [|done].
    split; [by intros []|]. intros [Hb Hv]. assert (a = b) as -> by congruence.
    by rewrite (proj2 (vm_contains_spec b v) Hv) in Hc.
Qed.

Lemma areas_fresh m a : areas_ok m -> vma_wf a ->
  (forall v, vm_start a <= v < vm_end a -> ~ covered m v) -> bt_get (vm_start a) m = None.
Proof.
  intros Hm Hw Hn. destruct (bt_get (vm_start a) m) as [b|] eqn:E; [|done].
  exfalso. apply (Hn (vm_start a)); [pose proof (vw_nonempty _ Hw); lia|].
  exists (vm_start a), b. split; [done|]. pose proof (area_start _ _ _ Hm E).
  pose proof (vw_nonempty _ (area_wf _ _ _ Hm E)). lia.
Qed.

Lemma areas_ok_insert m a : areas_ok m -> vma_wf a ->
  (forall v, vm_start a <= v < vm_end a -> ~ covered m v) ->
  areas_ok (bt_insert (vm_start a) a m).
Proof.
  intros Hm Hw Hn. pose proof Hm as [W A D]. pose proof (vw_nonempty _ Hw) as Hne.
  split; [auto with btree|..].
  - intros k b. rewrite bt_get_insert by done. destruct (Z.eqb_spec k (vm_start a)); [|apply A].
    intros [= <-]. done.
  - intros k1 a1 k2 a2. rewrite !bt_get_insert by done.
    destruct (Z.eqb_spec k1 (vm_start a)) as [E1|], (Z.eqb_spec k2 (vm_start a)) as [E2|];
      intros G1 G2 Hlt; try lia; [..|by eapply D].
    + injection G1 as <-. destruct (A _ _ G2) as [S2 W2]. pose proof (vw_nonempty _ W2).
      destruct (decide (vm_end a <= k2)); [done|]. exfalso. apply (Hn k2); [lia|].
      exists k2, a2. split; [done|lia].
    + injection G2 as <-. destruct (A _ _ G1) as [S1 W1].
      destruct (decide (vm_end a1 <= k2)); [done|]. exfalso. apply (Hn (vm_start a)); [lia|].
      exists k1, a1. split; [done|lia].
Qed.

Lemma area_at_insert m a v : areas_ok m -> vma_wf a ->
  (forall v, vm_start a <= v < vm_end a -> ~ covered m v) ->
  area_at (bt_insert (vm_start a) a m) v = if vm_contains a v then Some a else area_at m v.
Proof.
  intros Hm Hw Hn. pose proof (areas_ok_insert m a Hm Hw Hn) as Hm'.
  destruct (vm_contains a v) eqn:Hc.
  - apply area_at_spec; [done|]. rewrite bt_get_insert, Z.eqb_refl by apply Hm.
    split; [done|]. by apply vm_contains_spec.
  - apply option_eq. intros b. rewrite !area_at_spec, bt_get_insert by (done || apply Hm).
    destruct (Z.eqb_spec (vm_start b) (vm_start a)) as [E|]; [|done]. split.
    + intros [[= ->] Hv]. by rewrite (proj2 (vm_contains_spec b v) Hv) in Hc.
    + intros [Hb Hv]. rewrite E in Hb. by rewrite (areas_fresh m a Hm Hw Hn) in Hb.
Qed.

Lemma covered_remove m k a v : areas_ok m -> bt_get k m = Some a ->
  covered (bt_remove k m) v <-> covered m v /\ ~ (vm_start a <= v < vm_end a).
Proof.
  intros Hm Hg. split.
  - intros (k1 & a1 & H1 & Hv). rewrite bt_get_remove in H1 by apply Hm.
    destruct (Z.eqb_spec k1 k) as [|Hne]; [done|]. split; [by exists k1, a1|].
    intros Ha. by destruct (area_unique m v _ _ _ _ Hm H1 Hg Hv Ha).
  - intros [(k1 & a1 & H1 & Hv) Hn]. exists k1, a1. split; [|done].
    rewrite bt_get_remove by apply Hm. destruct (Z.eqb_spec k1 k) as [E|]; [|done].
    assert (a1 = a) by congruence. congruence.
Qed.

Lemma covered_insert m a v : areas_ok m -> vma_wf a ->
  (forall v, vm_start a <= v < vm_end a -> ~ covered m v) ->
  covered (bt_insert (vm_start a) a m) v <-> covered m v \/ vm_start a <= v < vm_end a.
Proof.
  intros Hm Hw Hn. pose proof (areas_fresh m a Hm Hw Hn) as Hf. split.
  - intros (k1 & a1 & H1 & Hv). rewrite bt_get_insert in H1 by apply Hm.
    destruct (Z.eqb_spec k1 (vm_start a)); [right; congruence|left; by exists k1, a1].
  - intros [(k1 & a1 & H1 & Hv)|Hv].
    + exists k1, a1. rewrite bt_get_insert by apply Hm.
      destruct (Z.eqb_spec k1 (vm_start a)) as [E|]; [congruence|done].
    + exists (vm_start a), a. by rewrite bt_get_insert, Z.eqb_refl by apply Hm.
Qed.

(** ** Counters *)

Definition user_area (a : Vma) : Z := if vm_is_user a then 1 else 0.
Definition user_pages (a : Vma) : Z := if vm_is_user a then vm_end a - vm_start a else 0.

(** Disjoint areas below page [2^52] have at most [2^52] pages. *)
Lemma pages_bound m : forall lo, areas_ok m -> (forall k a, bt_get k m = Some a -> lo <= k) ->
  lo <= 2 ^ 52 ->
  0 <= bt_sum user_area m <= bt_sum user_pages m /\ bt_sum user_pages m <= 2 ^ 52 - lo.
Proof.
  induction m as [|[k a] m IH]; intros lo Hm Hlo Hb; simpl; [lia|].
  assert (Hg : bt_get k ((k, a) :: m) = Some a) by (simpl; by rewrite Z.eqb_refl).
  pose proof (Hlo _ _ Hg). pose proof (area_start _ _ _ Hm Hg) as Hk.
  pose proof (area_wf _ _ _ Hm Hg) as Hw.
  pose proof (ao_wf _ Hm) as Hwf. apply bt_wf_cons in Hwf as [Hwf Hlt].
  assert (Hget : forall k' a', bt_get k' m = Some a' -> bt_get k' ((k, a) :: m) = Some a').
  { intros k' a' H'. apply bt_elem_get; [apply Hm|]. right. by apply bt_get_elem. }
  assert (Hm' : areas_ok m).
  { destruct Hm as [W A D]. split; [done|..]; intros; eauto. }
  destruct Hw as [[_ Hbound _ _ _ _ _] Hne _ _].
  destruct (IH (vm_end a) Hm') as [IH1 IH2].
  - intros k' a' H'. pose proof (ao_disj _ Hm k a k' a' Hg (Hget _ _ H')).
    apply bt_get_elem, Hlt in H'. lia.
  - unfold vm_end. lia.
  - assert (0 <= user_area a <= user_pages a /\ user_pages a <= vm_end a - vm_start a)
      by (unfold user_area, user_pages; destruct (vm_is_user a); lia). lia.
Qed.

Lemma area_page_count_spec a : vma_wf a -> area_page_count a = vm_end a - vm_start a.
Proof. intros Hw. pose proof (vw_nonempty _ Hw). unfold area_page_count, saturating_sub. lia. Qed.

(** ** Reverse-map records *)

(** The records are those of the areas, up to identity; identities are fresh,
    unique, and registered with the caches that exist. *)
Record rmaps_ok (has_cache : Z -> bool) (m : btree Vma) (rm : btree FileVmaRmap)
    (next : Z) (reg : list Z) : Prop := {
  ro_wf : bt_wf rm;
  ro_of_area : forall k r, bt_get k rm = Some r ->
    exists a, bt_get k m = Some a /\ rmap_from_vma (rm_id r) a = Some r;
  ro_complete : forall k a, bt_get k m = Some a -> rmap_from_vma 0 a <> None ->
    bt_get k rm <> None;
  ro_fresh : forall k r, bt_get k rm = Some r -> rm_id r < next;
  ro_unique : forall k1 r1 k2 r2, bt_get k1 rm = Some r1 -> bt_get k2 rm = Some r2 ->
    rm_id r1 = rm_id r2 -> k1 = k2;
  ro_registered : forall id, id ∈ reg <->
    exists k r, bt_get k rm = Some r /\ rm_id r = id /\ has_cache (rm_inode r) = true;
}.

Lemma rmap_from_vma_id i j a : rmap_from_vma i a = None <-> rmap_from_vma j a = None.
Proof.
  unfold rmap_from_vma. destruct (negb _); [done|]. destruct (map_file a); [|done]. simpl.
  destruct (user_address_space a); [|done]. simpl. done.
Qed.

Lemma rmap_from_vma_rm_id i a r : rmap_from_vma i a = Some r -> rm_id r = i.
Proof.
  unfold rmap_from_vma. destruct (negb _); [done|]. destruct (map_file a); [|done]. simpl.
  destruct (user_address_space a); [|done]. simpl. by intros [= <-].
Qed.

(** ** Lookups *)

Lemma view_covered m v : areas_ok m -> covered m v <-> view m v <> None.
Proof.
  intros Hm. pose proof (area_at_None m v Hm) as Hn. unfold view.
  destruct (area_at m v) as [a|] eqn:E; simpl.
  - split; [done|]. intros _. apply area_at_spec in E as [? ?]; [|done]. by exists (vm_start a), a.
  - split; [|done]. intros Hc. by apply Hn in Hc.
Qed.

Lemma view_at m v k a : areas_ok m -> bt_get k m = Some a -> vm_start a <= v < vm_end a ->
  view m v = Some (page_view a v).
Proof.
  intros Hm Hg Hv. unfold view. pose proof (area_start _ _ _ Hm Hg).
  rewrite (proj2 (area_at_spec m v a Hm)); [done|]. split; [congruence|done].
Qed.

Lemma find_vma_key_spec s v k : areas_ok (vmas s) ->
  find_vma_key s v = Some k <->
  exists a, bt_get k (vmas s) = Some a /\ vm_start a <= v < vm_end a.
Proof.
  intros Hm. unfold find_vma_key. pose proof (bt_last_le_spec v _ (ao_wf _ Hm)) as Hl.
  destruct (bt_last_le v (vmas s)) as [[k1 a1]|]; simpl.
  - destruct Hl as (Hg & Hle & Hmax). pose proof (area_start _ _ _ Hm Hg) as Hk1.
    destruct (vm_contains a1 v) eqn:Hc.
    + apply vm_contains_spec in Hc. split; [intros [= <-]; by exists a1|].
      intros (a & Ha & Hv). f_equal. by eapply area_unique.
    + split; [done|]. intros (a & Ha & Hv). pose proof (area_start _ _ _ Hm Ha) as Hk.
      specialize (Hmax _ _ Ha ltac:(lia)). destruct (decide (k = k1)) as [->|].
      * assert (a = a1) as -> by congruence. by rewrite (proj2 (vm_contains_spec a1 v) Hv) in Hc.
      * pose proof (ao_disj _ Hm _ _ _ _ Ha Hg). lia.
  - split; [done|]. intros (a & Ha & Hv). pose proof (area_start _ _ _ Hm Ha).
    specialize (Hl _ _ Ha). lia.
Qed.

Lemma find_user_vma_key_spec s v k : areas_ok (vmas s) ->
  find_user_vma_key s v = Some k <->
  exists a, bt_get k (vmas s) = Some a /\ vm_start a <= v < vm_end a /\ vm_is_user a = true.
Proof.
  intros Hm. unfold find_user_vma_key. destruct (find_vma_key s v) as [k1|] eqn:E; simpl.
  - pose proof E as E1. apply find_vma_key_spec in E1 as (a & Ha & Hv); [|done]. rewrite Ha. simpl.
    destruct (vm_is_user a) eqn:Hu; split.
    + intros [= <-]. by exists a.
    + intros (b & Hb & Hbv & _). f_equal. by eapply area_unique.
    + done.
    + intros (b & Hb & Hbv & Hbu). destruct (area_unique _ v _ _ _ _ Hm Ha Hb Hv Hbv) as [_ ->]. congruence.
  - split; [done|]. intros (b & Hb & Hbv & _).
    assert (find_vma_key s v = Some k); [|congruence]. apply find_vma_key_spec; eauto.
Qed.

Lemma has_overlap_spec s a b : areas_ok (vmas s) ->
  has_overlap s a b = true <-> exists v, a <= v < b /\ covered (vmas s) v.
Proof.
  intros Hm. unfold has_overlap. destruct (Z.leb_spec b a).
  { split; [done|]. intros (v & Hv & _). lia. }
  pose proof (bt_last_le_spec a _ (ao_wf _ Hm)) as Hl.
  pose proof (bt_first_ge_spec a _ (ao_wf _ Hm)) as Hf.
  destruct (match bt_last_le a (vmas s) with Some (_, x) => a <? vm_end x | None => false end) eqn:E.
  - destruct (bt_last_le a (vmas s)) as [[k x]|]; [|done]. apply Z.ltb_lt in E.
    split; [intros _|done]. exists a. split; [lia|]. destruct Hl as (Hg & Hle & _).
    exists k, x. split; [done|]. pose proof (area_start _ _ _ Hm Hg). lia.
  - split.
    + destruct (bt_first_ge a (vmas s)) as [[k x]|]; [|done]. destruct Hf as (Hg & Hge & _).
      intros Hlt%Z.ltb_lt. pose proof (area_start _ _ _ Hm Hg).
      pose proof (vw_nonempty _ (area_wf _ _ _ Hm Hg)). exists k. split; [lia|]. exists k, x. split; [done|lia].
    + intros (v & Hv & k1 & x1 & Hg1 & Hv1). pose proof (area_start _ _ _ Hm Hg1) as Hs1.
      destruct (decide (a <= k1)).
      * destruct (bt_first_ge a (vmas s)) as [[k x]|].
        -- destruct Hf as (Hg & Hge & Hmin). specialize (Hmin _ _ Hg1 ltac:(lia)).
           pose proof (area_start _ _ _ Hm Hg). apply Z.ltb_lt. lia.
        -- specialize (Hf _ _ Hg1). lia.
      * destruct (bt_last_le a (vmas s)) as [[k x]|].
        -- destruct Hl as (Hg & Hle & Hmax). specialize (Hmax _ _ Hg1 ltac:(lia)).
           destruct (decide (k1 = k)) as [->|].
           ++ assert (x1 = x) as -> by congruence. apply Z.ltb_ge in E. lia.
           ++ pose proof (ao_disj _ Hm _ _ _ _ Hg1 Hg ltac:(lia)). lia.
        -- specialize (Hl _ _ Hg1). lia.
Qed.

(** The lowest area that overlaps a non-empty range. *)
Lemma first_overlap_key_spec s a b : areas_ok (vmas s) -> a < b ->
  match first_overlap_key s a b with
  | Some k => exists x, bt_get k (vmas s) = Some x /\ a < vm_end x /\ vm_start x < b /\
      forall v, a <= v < vm_start x -> ~ covered (vmas s) v
  | None => forall v, a <= v < b -> ~ covered (vmas s) v
  end.
Proof.
  intros Hm Hab. unfold first_overlap_key. pose proof (ao_wf _ Hm) as Hwf.
  pose proof (bt_last_le_spec a _ Hwf) as Hl.
  set (P := fun e : Z * Vma => vm_overlaps e.2 a b = true).
  pose proof (bt_head_spec (filter P (bt_from a (vmas s)))
    (bt_wf_filter P _ (bt_wf_from a _ Hwf))) as Hh.
  assert (Hget : forall k x, bt_get k (filter P (bt_from a (vmas s))) = Some x <->
    bt_get k (vmas s) = Some x /\ a <= k /\ a < vm_end x /\ vm_start x < b).
  { intros k x. rewrite bt_get_filter, bt_get_from by auto with btree. unfold P; simpl.
    rewrite vm_overlaps_spec. destruct (Z.leb_spec a k); naive_solver lia. }
  assert (Hrest : (forall k x, bt_get k (vmas s) = Some x -> k <= a -> vm_end x <= a) ->
    match fst <$> head (filter P (bt_from a (vmas s))) with
    | Some k => exists x, bt_get k (vmas s) = Some x /\ a < vm_end x /\ vm_start x < b /\
        forall v, a <= v < vm_start x -> ~ covered (vmas s) v
    | None => forall v, a <= v < b -> ~ covered (vmas s) v
    end).
  { intros Hlow. destruct (head _) as [[k x]|]; simpl.
    - destruct Hh as [Hg Hmin]. apply Hget in Hg as (Hg & ? & ? & ?). exists x. split_and!; try done.
      intros v Hv (k1 & x1 & Hg1 & Hv1). pose proof (area_start _ _ _ Hm Hg1).
      pose proof (area_start _ _ _ Hm Hg).
      destruct (decide (k1 <= a)); [specialize (Hlow _ _ Hg1); lia|].
      assert (bt_get k1 (filter P (bt_from a (vmas s))) = Some x1) as Hx by (apply Hget; split_and!; [done|lia..]).
      specialize (Hmin _ _ Hx). lia.
    - intros v Hv (k1 & x1 & Hg1 & Hv1). pose proof (area_start _ _ _ Hm Hg1).
      destruct (decide (k1 <= a)); [specialize (Hlow _ _ Hg1); lia|].
      assert (bt_get k1 (filter P (bt_from a (vmas s))) = Some x1) as Hx by (apply Hget; split_and!; [done|lia..]).
      by rewrite Hh in Hx. }
  destruct (bt_last_le a (vmas s)) as [[k x]|] eqn:El.
  - destruct Hl as (Hg & Hle & Hmax). pose proof (area_start _ _ _ Hm Hg) as Hk.
    destruct (vm_overlaps x a b) eqn:Eo.
    + apply vm_overlaps_spec in Eo. exists x. split_and!; try done; lia.
    + apply Hrest. intros k1 x1 Hg1 Hle1. specialize (Hmax _ _ Hg1 Hle1).
      destruct (decide (k1 = k)) as [->|].
      * assert (x1 = x) as -> by congruence. destruct (decide (vm_end x <= a)); [done|].
        rewrite (proj2 (vm_overlaps_spec x a b)) in Eo by lia. done.
      * pose proof (ao_disj _ Hm _ _ _ _ Hg1 Hg). lia.
  - apply Hrest. intros k1 x1 Hg1 Hle1. specialize (Hl _ _ Hg1). lia.
Qed.

(** ** The invariant *)

Section inv.
Context (cfg : arch) (max_map_count : Z) (has_cache : Z -> bool).
Abbreviation lo := (arena_lo cfg).
Abbreviation hi := (arena_hi cfg).

Record core_ok (s : VmaSet) : Prop := {
  co_areas : areas_ok (vmas s);
  co_rmaps : rmaps_ok has_cache (vmas s) (file_rmaps s) (next_rmap_id s) (i_mmap s);
  co_owner : forall k a o, bt_get k (vmas s) = Some a -> owner s = Some o ->
    user_address_space a = Some o;
}.

Record set_inv (s : VmaSet) : Prop := {
  si_core : core_ok s;
  si_holes : holes_ok lo hi (mmap_holes s);
  si_exact : forall v, lo <= v < hi -> in_hole (mmap_holes s) v <-> ~ covered (vmas s) v;
  si_areas : user_area_count s = bt_sum user_area (vmas s);
  si_pages : user_page_count s = bt_sum user_pages (vmas s);
}.

(** The parts of the state that [take_vma] and [put_vma] leave alone. *)
Definition same_rest (s s' : VmaSet) : Prop :=
  mmap_holes s' = mmap_holes s /\ owner s' = owner s /\
  user_area_count s' = user_area_count s /\ user_page_count s' = user_page_count s.

Lemma take_vma_spec s k a : core_ok s -> bt_get k (vmas s) = Some a ->
  exists s', take_vma has_cache s k = (s', Ok a) /\ core_ok s' /\ same_rest s s' /\
    vmas s' = bt_remove k (vmas s).
Proof.
  intros [Ha Hr Ho] Hg. unfold take_vma. rewrite Hg. eexists. split; [done|].
  pose proof (ao_wf _ Ha) as Hwf. pose proof (areas_ok_remove _ k Ha) as Ha'.
  assert (Ho' : forall k' a' o, bt_get k' (bt_remove k (vmas s)) = Some a' -> owner s = Some o ->
    user_address_space a' = Some o).
  { intros k' a' o. rewrite bt_get_remove by done. destruct (k' =? k); [done|apply Ho]. }
  unfold remove_file_rmap; simpl. destruct (bt_get k (file_rmaps s)) as [r|] eqn:Er; simpl.
  - split; [|done]. split; simpl; [done| |done]. destruct Hr as [R1 R2 R3 R4 R5 R6].
    split; [auto with btree|..].
    + intros k' r'. rewrite bt_get_remove by done. destruct (Z.eqb_spec k' k) as [|Hne]; [done|].
      intros H'. destruct (R2 _ _ H') as (a' & Hga' & Hfa'). exists a'. split; [|done].
      rewrite bt_get_remove by done. by rewrite (proj2 (Z.eqb_neq _ _) Hne).
    + intros k' a'. rewrite !bt_get_remove by done. destruct (k' =? k); [done|apply R3].
    + intros k' r'. rewrite bt_get_remove by done. destruct (k' =? k); [done|apply R4].
    + intros k1 r1 k2 r2. rewrite !bt_get_remove by done.
      destruct (k1 =? k); [done|]. destruct (k2 =? k); [done|apply R5].
    + intros id. transitivity (id ∈ i_mmap s /\ ~ (id = rm_id r /\ has_cache (rm_inode r) = true)).
      { destruct (has_cache (rm_inode r)); [rewrite list_elem_of_filter|]; naive_solver. }
      rewrite R6. split.
      * intros [(k' & r' & H' & Hid & Hc) Hn]. exists k', r'. split; [|done].
        rewrite bt_get_remove by done. destruct (Z.eqb_spec k' k) as [E|]; [|done].
        exfalso. apply Hn. rewrite E in H'. assert (r' = r) as -> by congruence. done.
      * intros (k' & r' & H' & Hid & Hc). rewrite bt_get_remove in H' by done.
        destruct (Z.eqb_spec k' k) as [|Hne]; [done|]. split; [by exists k', r'|].
        intros [Hid' _]. apply Hne. eapply R5; eauto. congruence.
  - split; [|done]. split; simpl; [done| |done]. destruct Hr as [R1 R2 R3 R4 R5 R6].
    split; [done|..]; try done.
    + intros k' r' H'. destruct (R2 _ _ H') as (a' & Hga' & Hfa'). exists a'. split; [|done].
      rewrite bt_get_remove by done. destruct (Z.eqb_spec k' k) as [E|]; [congruence|done].
    + intros k' a'. rewrite bt_get_remove by done. destruct (k' =? k); [done|apply R3].
Qed.

Lemma take_vma_absent s k : bt_get k (vmas s) = None -> take_vma has_cache s k = (s, Err EINVAL).
Proof. intros Hg. unfold take_vma. by rewrite Hg. Qed.

(** [put_vma] installs the owner of the set in the area. *)
Definition adopt (s : VmaSet) (a : Vma) : Vma :=
  match owner s with Some o => set_user_address_space a (Some o) | None => a end.

Lemma adopt_shape s a : inner (adopt s a) = inner a /\ map_perm (adopt s a) = map_perm a /\
  map_file_offset (adopt s a) = map_file_offset a.
Proof. unfold adopt. by destruct (owner s). Qed.

Lemma adopt_id s a : (forall o, owner s = Some o -> user_address_space a = Some o) -> adopt s a = a.
Proof.
  intros Ho. unfold adopt. destruct (owner s) as [o|] eqn:E; [|done].
  specialize (Ho o eq_refl). destruct a; simpl in *. unfold set_user_address_space. simpl. by rewrite Ho.
Qed.

Lemma adopt_wf s a : vma_wf a -> vma_wf (adopt s a).
Proof.
  destruct (adopt_shape s a) as (E1 & _ & E3). intros [H1 H2 H3 H4].
  split; unfold vm_start, vm_end in *; rewrite ?E1, ?E3; try done.
  unfold adopt. by destruct (owner s).
Qed.

Lemma rmaps_ok_add m rm next reg a r : areas_ok m -> bt_get (vm_start a) m = None ->
  rmaps_ok has_cache m rm next reg -> rmap_from_vma next a = Some r ->
  rmaps_ok has_cache (bt_insert (vm_start a) a m) (bt_insert (vm_start a) r rm) (next + 1)
    (if has_cache (rm_inode r) then rm_id r :: reg else reg).
Proof.
  intros Hm Hf [R1 R2 R3 R4 R5 R6] Hr. pose proof (ao_wf _ Hm) as Hwf.
  pose proof (rmap_from_vma_rm_id _ _ _ Hr) as Hid.
  assert (Hnone : bt_get (vm_start a) rm = None).
  { destruct (bt_get (vm_start a) rm) as [r'|] eqn:E; [|done].
    destruct (R2 _ _ E) as (a' & Ha' & _). congruence. }
  split; [auto with btree|..].
  - intros k r'. rewrite !bt_get_insert by done. destruct (Z.eqb_spec k (vm_start a)).
    + intros [= <-]. exists a. by rewrite Hid.
    + apply R2.
  - intros k a'. rewrite !bt_get_insert by done. destruct (k =? vm_start a); [done|apply R3].
  - intros k r'. rewrite bt_get_insert by done. destruct (k =? vm_start a).
    + intros [= <-]. lia.
    + intros Hk%R4. lia.
  - intros k1 r1 k2 r2. rewrite !bt_get_insert by done.
    destruct (Z.eqb_spec k1 (vm_start a)), (Z.eqb_spec k2 (vm_start a)); intros G1 G2 He;
      simplify_eq; try done; [apply R4 in G2; lia|apply R4 in G1; lia|by eapply R5].
  - intros id. transitivity (id ∈ reg \/ (id = rm_id r /\ has_cache (rm_inode r) = true)).
    { destruct (has_cache (rm_inode r)); [rewrite elem_of_cons|]; naive_solver. }
    rewrite R6. split.
    + intros [(k & r' & H' & ? & ?)|[-> ?]].
      * exists k, r'. rewrite bt_get_insert by done.
        destruct (Z.eqb_spec k (vm_start a)) as [->|]; [congruence|done].
      * exists (vm_start a), r. by rewrite bt_get_insert, Z.eqb_refl by done.
    + intros (k & r' & H' & ? & ?). rewrite bt_get_insert in H' by done.
      destruct (k =? vm_start a); [right; naive_solver|left; by exists k, r'].
Qed.

Lemma put_vma_spec s a : core_ok s -> vma_wf a ->
  (forall v, vm_start a <= v < vm_end a -> ~ covered (vmas s) v) ->
  core_ok (put_vma has_cache s a) /\ same_rest s (put_vma has_cache s a) /\
  vmas (put_vma has_cache s a) = bt_insert (vm_start a) (adopt s a) (vmas s).
Proof.
  intros [Ha Hr Ho] Hw Hn. unfold put_vma. fold (adopt s a).
  destruct (adopt_shape s a) as (E1 & _ & _).
  assert (Es : vm_start (adopt s a) = vm_start a) by (unfold vm_start; by rewrite E1).
  assert (Ee : vm_end (adopt s a) = vm_end a) by (unfold vm_end; by rewrite E1).
  pose proof (adopt_wf s a Hw) as Hw'.
  assert (Hn' : forall v, vm_start (adopt s a) <= v < vm_end (adopt s a) -> ~ covered (vmas s) v)
    by (by rewrite Es, Ee).
  pose proof (areas_ok_insert _ _ Ha Hw' Hn') as Ha'. pose proof (areas_fresh _ _ Ha Hw' Hn') as Hf.
  pose proof (ao_wf _ Ha) as Hwf. rewrite Es in *.
  assert (Ho' : forall k b o, bt_get k (bt_insert (vm_start a) (adopt s a) (vmas s)) = Some b ->
    owner s = Some o -> user_address_space b = Some o).
  { intros k b o. rewrite bt_get_insert by done. destruct (k =? vm_start a); [|apply Ho].
    intros [= <-] Hown. unfold adopt. by rewrite Hown. }
  unfold add_rmap_for; simpl. destruct (rmap_from_vma (next_rmap_id s) (adopt s a)) as [r|] eqn:Er.
  - split; [|done]. split; simpl; [done| |done].
    rewrite <- Es. apply rmaps_ok_add; try done. by rewrite Es.
  - split; [|done]. split; simpl; [done| |done]. destruct Hr as [R1 R2 R3 R4 R5 R6].
    split; try done.
    + intros k r' H'. destruct (R2 _ _ H') as (a' & Hga' & Hfa'). exists a'. split; [|done].
      rewrite bt_get_insert by done. destruct (Z.eqb_spec k (vm_start a)) as [->|]; [congruence|done].
    + intros k a'. rewrite bt_get_insert by done. destruct (Z.eqb_spec k (vm_start a)); [|apply R3].
      intros [= <-] Hne. exfalso. apply Hne. by eapply rmap_from_vma_id.
Qed.
(** ** Replacing an area by contiguous pieces *)

(** [ps] partitions [x, y) into areas that say about each page what [a] says. *)
Inductive pieces (a : Vma) : Z -> Z -> list Vma -> Prop :=
| pieces_nil x : pieces a x x []
| pieces_cons x y p ps : vma_wf p -> vm_start p = x ->
    (forall v, x <= v < vm_end p -> page_view p v = page_view a v) ->
    pieces a (vm_end p) y ps -> pieces a x y (p :: ps).

Lemma pieces_le a x y ps : pieces a x y ps -> x <= y.
Proof. induction 1 as [|? ? p ps Hw ? ? ? IH]; [lia|]. pose proof (vw_nonempty _ Hw). lia. Qed.

Lemma piece_attrs a p : vma_wf p ->
  (forall v, vm_start p <= v < vm_end p -> page_view p v = page_view a v) ->
  map_perm p = map_perm a /\ user_address_space p = user_address_space a.
Proof.
  intros Hw Hv. pose proof (vw_nonempty _ Hw). specialize (Hv (vm_start p) ltac:(lia)).
  split; [by apply (f_equal pi_perm) in Hv|by apply (f_equal pi_owner) in Hv].
Qed.

Lemma put_pieces a ps : forall s x y, pieces a x y ps -> core_ok s ->
  (forall o, owner s = Some o -> user_address_space a = Some o) ->
  (forall v, x <= v < y -> ~ covered (vmas s) v) ->
  let s' := fold_left (put_vma has_cache) ps s in
  core_ok s' /\ same_rest s s' /\
  (forall v, view (vmas s') v = if (x <=? v) && (v <? y) then Some (page_view a v) else view (vmas s) v) /\
  bt_sum user_area (vmas s') = bt_sum user_area (vmas s) + Z.of_nat (length ps) * user_area a /\
  bt_sum user_pages (vmas s') = bt_sum user_pages (vmas s) + (if vm_is_user a then y - x else 0) /\
  (forall p, p ∈ ps -> bt_get (vm_start p) (vmas s') = Some p) /\
  (forall k b, bt_get k (vmas s) = Some b -> bt_get k (vmas s') = Some b).
Proof.
  induction ps as [|p ps IH]; intros s x y Hp Hc Ho Hn; inversion Hp; subst; simpl.
  - split_and!; try done; try (by destruct s).
    + intros v. destruct (Z.leb_spec y v), (Z.ltb_spec v y); done || lia.
    + lia.
    + destruct (vm_is_user a); lia.
    + intros p Hp'. by apply not_elem_of_nil in Hp'.
  - rename select (vma_wf p) into Hw. rename select (pieces a (vm_end p) y ps) into Hps.
    rename select (forall v, _ -> page_view p v = page_view a v) into Hv.
    pose proof (pieces_le _ _ _ _ Hps) as Hle. pose proof (vw_nonempty _ Hw) as Hne.
    destruct (piece_attrs a p Hw Hv) as [Hperm Hown].
    assert (Had : adopt s p = p) by (apply adopt_id; intros o Hos; rewrite Hown; auto).
    destruct (put_vma_spec s p Hc Hw) as (Hc1 & Hr1 & Hv1); [intros v ?; apply Hn; lia|].
    rewrite Had in Hv1. pose proof Hc as [Ha _ _].
    assert (Hn1 : forall v, vm_start p <= v < vm_end p -> ~ covered (vmas s) v) by (intros v ?; apply Hn; lia).
    pose proof (areas_fresh _ _ Ha Hw Hn1) as Hf.
    destruct (IH (put_vma has_cache s p) (vm_end p) y) as (C & R & V & SA & SP & G & K); try done.
    { destruct Hr1 as (_ & -> & _). done. }
    { intros v Hvy. rewrite Hv1, covered_insert by done. intros [Hcov|Hcov]; [|lia].
      by apply (Hn v); [lia|]. }
    assert (Hview : forall v, view (vmas (put_vma has_cache s p)) v =
      if vm_contains p v then Some (page_view a v) else view (vmas s) v).
    { intros v. rewrite Hv1. unfold view. rewrite area_at_insert by done.
      destruct (vm_contains p v) eqn:E; simpl; [|done].
      apply vm_contains_spec in E. by rewrite Hv. }
    assert (Hua : user_area p = user_area a) by (unfold user_area, vm_is_user; by rewrite Hperm).
    assert (Hup : user_pages p = if vm_is_user a then vm_end p - vm_start p else 0)
      by (unfold user_pages, vm_is_user; by rewrite Hperm).
    split_and!; try done.
    + destruct Hr1 as (? & ? & ? & ?), R as (? & ? & ? & ?). split_and!; congruence.
    + intros v. rewrite V, Hview. unfold vm_contains.
      destruct (Z.leb_spec (vm_end p) v), (Z.ltb_spec v y), (Z.leb_spec (vm_start p) v),
        (Z.ltb_spec v (vm_end p)); simpl; done || lia.
    + rewrite SA, Hv1, bt_sum_insert_new by (done || apply Ha). lia.
    + rewrite SP, Hv1, bt_sum_insert_new by (done || apply Ha). destruct (vm_is_user a); lia.
    + intros q [->|Hq]%elem_of_cons; [|by apply G]. apply K. rewrite Hv1.
      by rewrite bt_get_insert, Z.eqb_refl by apply Ha.
    + intros k b Hk. apply K. rewrite Hv1, bt_get_insert by apply Ha.
      destruct (Z.eqb_spec k (vm_start p)) as [->|]; [congruence|done].
Qed.

(** Taking an area out and putting pieces of its full range back changes neither
    what is said about any page nor the free pages. *)
Lemma replace_area s k a ps n : set_inv s -> bt_get k (vmas s) = Some a ->
  pieces a (vm_start a) (vm_end a) ps -> Z.of_nat (length ps) = n + 1 ->
  let s' := bump_area_count (fold_left (put_vma has_cache) ps (fst (take_vma has_cache s k)))
              (vm_is_user a) n in
  set_inv s' /\ (forall v, view (vmas s') v = view (vmas s) v) /\ owner s' = owner s /\
  mmap_holes s' = mmap_holes s /\
  (forall p, p ∈ ps -> bt_get (vm_start p) (vmas s') = Some p).
Proof.
  intros [Hc Hh He Hsa Hsp] Hg Hps Hn. pose proof (co_areas _ Hc) as Ha.
  destruct (take_vma_spec s k a Hc Hg) as (s1 & -> & Hc1 & (R1 & R2 & R3 & R4) & Hv1). simpl.
  pose proof (area_start _ _ _ Ha Hg) as Hk. pose proof (area_wf _ _ _ Ha Hg) as Hw.
  destruct (put_pieces a ps s1 (vm_start a) (vm_end a)) as (C & (Q1 & Q2 & Q3 & Q4) & V & SA & SP & G & K); try done.
  { intros o Ho. eapply (co_owner _ Hc); eauto. congruence. }
  { intros v Hv. rewrite Hv1, covered_remove by done. tauto. }
  set (s2 := fold_left (put_vma has_cache) ps s1) in *.
  rewrite Hv1, (bt_sum_remove _ k a) in SA by (done || apply Ha).
  rewrite Hv1, (bt_sum_remove _ k a) in SP by (done || apply Ha).
  assert (Hview : forall v, view (vmas s2) v = view (vmas s) v).
  { intros v. rewrite V. fold (vm_contains a v). destruct (vm_contains a v) eqn:E.
    - apply vm_contains_spec in E. symmetry. by eapply view_at.
    - rewrite Hv1. unfold view. by rewrite (area_at_remove _ k a v), E by done. }
  assert (Hvm : vmas (bump_area_count s2 (vm_is_user a) n) = vmas s2) by (unfold bump_area_count; by destruct (vm_is_user a)).
  assert (Hhl : mmap_holes (bump_area_count s2 (vm_is_user a) n) = mmap_holes s)
    by (unfold bump_area_count; destruct (vm_is_user a); simpl; congruence).
  rewrite Hvm, Hhl. split_and!; try done.
  - split.
    + destruct C. unfold bump_area_count. destruct (vm_is_user a); split; done.
    + by rewrite Hhl.
    + intros v Hv. rewrite Hhl, Hvm, (He v Hv), !view_covered by (done || apply C). by rewrite Hview.
    + rewrite Hvm, SA. assert (Hua : user_area a = if vm_is_user a then 1 else 0) by done.
      unfold bump_area_count.
      destruct (pages_bound (vmas s2) 0 (co_areas _ C)) as [B1 B2].
      { intros k' a' H'. destruct (ao_area _ (co_areas _ C) _ _ H') as [<- [[? _ _ _ _ _ _] _ _ _]]. unfold vm_start. lia. }
      { lia. }
      destruct (vm_is_user a) eqn:Eu; simpl; rewrite Q3, R3, Hsa; [|nia].
      rewrite usize_add_small; [lia|]. unfold is_usize, usize_modulus. lia.
    + rewrite Hvm, SP.
      assert (Hup : user_pages a = if vm_is_user a then vm_end a - vm_start a else 0) by done.
      unfold bump_area_count. destruct (vm_is_user a); simpl; rewrite Q4, R4, Hsp; lia.
  - unfold bump_area_count. destruct (vm_is_user a); simpl; congruence.
Qed.
Lemma set_inv_counts s : set_inv s ->
  0 <= user_area_count s <= 2 ^ 52 /\ 0 <= user_page_count s <= 2 ^ 52.
Proof.
  intros [Hc _ _ -> ->]. pose proof (co_areas _ Hc) as Ha.
  destruct (pages_bound (vmas s) 0 Ha) as [B1 B2]; [|lia|lia].
  intros k a H. destruct (ao_area _ Ha _ _ H) as [<- [[? _ _ _ _ _ _] _ _ _]]. unfold vm_start. lia.
Qed.

Lemma pieces_whole a : vma_wf a -> pieces a (vm_start a) (vm_end a) [a].
Proof. intros Hw. econstructor; [done|done|done|constructor]. Qed.

Lemma pieces_two a cut : vma_wf a -> vm_start a < cut < vm_end a ->
  exists a1 a2, into_two a cut = (a1, Ok a2) /\ pieces a (vm_start a) (vm_end a) [a1; a2] /\
    vm_start a1 = vm_start a /\ vm_end a1 = cut /\ vm_start a2 = cut /\ vm_end a2 = vm_end a.
Proof.
  intros Hw Hc. destruct (into_two_spec a cut Hw Hc) as
    (a1 & a2 & Hi & W1 & W2 & S1 & E1 & S2 & E2 & V1 & V2).
  exists a1, a2. split_and!; try done.
  econstructor; [done|done|intros v ?; apply V1; lia|].
  econstructor; [done|congruence|intros v ?; apply V2; lia|]. rewrite E2. constructor.
Qed.

Lemma pieces_three a x y : vma_wf a -> vm_start a < x -> x < y -> y < vm_end a ->
  exists a1 a2 a3, into_three a x y = (a1, Ok (a2, a3)) /\
    pieces a (vm_start a) (vm_end a) [a1; a2; a3] /\ vm_start a2 = x /\ vm_end a2 = y.
Proof.
  intros Hw H1 H2 H3. destruct (into_two_spec a x Hw ltac:(lia)) as
    (a1 & b & Hi & W1 & W2 & S1 & E1 & S2 & E2 & V1 & V2).
  destruct (into_two_spec b y W2 ltac:(lia)) as
    (a2 & a3 & Hj & W3 & W4 & S3 & E3 & S4 & E4 & V3 & V4).
  exists a1, a2, a3. unfold into_three. rewrite Hi, Hj. split_and!; try done; [|congruence].
  econstructor; [done|done|intros v ?; apply V1; lia|].
  econstructor; [done|congruence|intros v ?; rewrite V3, V2 by lia; done|].
  econstructor; [done|congruence|intros v ?; rewrite V4, V2 by lia; done|].
  rewrite E4, E2. constructor.
Qed.

Lemma split_for_range_spec s k a x y : set_inv s -> bt_get k (vmas s) = Some a ->
  vm_start a <= x -> x < y -> y <= vm_end a ->
  match split_for_range max_map_count has_cache s k x y with
  | (s', Err err) => s' = s /\ err = ENOMEM
  | (s', Ok t) => t = x /\ set_inv s' /\ (forall v, view (vmas s') v = view (vmas s) v) /\
      owner s' = owner s /\ mmap_holes s' = mmap_holes s /\
      exists b, bt_get x (vmas s') = Some b /\ vm_start b = x /\ vm_end b = y
  end.
Proof.
  intros Hi Hg H1 H2 H3. pose proof (area_wf _ _ _ (co_areas _ (si_core _ Hi)) Hg) as Hw.
  unfold split_for_range. rewrite Hg.
  destruct (Z.ltb_spec x (vm_start a)); [lia|]. destruct (Z.ltb_spec (vm_end a) y); [lia|].
  destruct (Z.leb_spec y x); [lia|]. simpl.
  set (add := if (_ && _) then 0 else _).
  assert (He : ensure_can_add max_map_count s add = Ok () \/
               ensure_can_add max_map_count s add = Err ENOMEM).
  { unfold ensure_can_add. destruct (checked_add _ _); [case_cmp|]; auto. }
  destruct He as [-> | ->]; [|done].
  pose proof (fun ps n => replace_area s k a ps n Hi Hg) as Hrep.
  destruct (take_vma_spec s k a (si_core _ Hi) Hg) as (s1 & Ht & Hc1 & Hr1 & Hv1).
  rewrite Ht in Hrep |- *. simpl in Hrep.
  destruct (Z.eqb_spec x (vm_start a)) as [Ex|], (Z.eqb_spec y (vm_end a)) as [Ey|]; simpl.
  - destruct (Hrep [a] 0 (pieces_whole a Hw) eq_refl) as (I & V & O & M & G). simpl in *.
    assert (Hb : bump_area_count (put_vma has_cache s1 a) (vm_is_user a) 0 = put_vma has_cache s1 a).
    { pose proof (set_inv_counts s Hi). unfold bump_area_count. destruct (vm_is_user a); [|done].
      assert (user_area_count (put_vma has_cache s1 a) = user_area_count s) as Eu.
      { unfold put_vma, add_rmap_for; simpl. destruct (rmap_from_vma _ _); simpl;
          apply Hr1. }
      rewrite usize_add_small by (rewrite Eu; unfold is_usize, usize_modulus; lia).
      rewrite Z.add_0_r. by destruct (put_vma has_cache s1 a). }
    rewrite Hb in *. split_and!; try done. exists a. rewrite Ex, Ey.
    split_and!; try done. apply G. by left.
  - destruct (pieces_two a y Hw ltac:(lia)) as (a1 & a2 & -> & Hp & S1 & E1 & S2 & E2).
    destruct (Hrep [a1; a2] 1 Hp eq_refl) as (I & V & O & M & G).
    split_and!; try done; [congruence|]. exists a1. rewrite Ex, <- S1. split_and!; try done; try congruence.
    apply G. by left.
  - destruct (pieces_two a x Hw ltac:(lia)) as (a1 & a2 & -> & Hp & S1 & E1 & S2 & E2).
    destruct (Hrep [a1; a2] 1 Hp eq_refl) as (I & V & O & M & G).
    split_and!; try done. exists a2. rewrite <- S2. split_and!; try done; try congruence.
    apply G. right. by left.
  - destruct (pieces_three a x y Hw ltac:(lia) H2 ltac:(lia)) as (a1 & a2 & a3 & -> & Hp & S2 & E2).
    destruct (Hrep [a1; a2; a3] 2 Hp eq_refl) as (I & V & O & M & G).
    split_and!; try done. exists a2. rewrite <- S2 at 1. split_and!; try done.
    apply G. right. by left.
Qed.
End inv.
