(* ===== verification/VmaSetOps.v ===== *)
(** Properties of the [VmaSet] operations ([os/src/mm/vma_set.rs]).

    Every operation keeps the invariant of VmaSetInv.v; what it does is stated
    through [view], the attributes of each page, so that splitting and merging
    of areas is invisible and only the effect on pages remains. *)

From stdpp Require Import base numbers option list.
From S2P Require Import Prelude BTree Addr PageStore Mapper Vma VmaSet VmaHoles VmaSetInv.

Section ops.
Context (cfg : arch) (max_map_count : Z) (has_cache : Z -> bool).
Abbreviation lo := (arena_lo cfg).
Abbreviation hi := (arena_hi cfg).
Abbreviation inv := (set_inv cfg has_cache).

(** ** Insertion *)

Lemma view_insert m a v : areas_ok m -> vma_wf a ->
  (forall v, vm_start a <= v < vm_end a -> ~ covered m v) ->
  view (bt_insert (vm_start a) a m) v = if vm_contains a v then Some (page_view a v) else view m v.
Proof.
  intros Hm Hw Hn. unfold view. rewrite area_at_insert by done. by destruct (vm_contains a v).
Qed.

Lemma insert_vma_spec s a : inv s -> vma_wf a ->
  match insert_vma cfg max_map_count has_cache s a with
  | (s', Ok _) => inv s' /\ owner s' = owner s /\
      (forall v, vm_start a <= v < vm_end a -> ~ covered (vmas s) v) /\
      (forall v, view (vmas s') v =
         if vm_contains a v then Some (page_view (adopt s a) v) else view (vmas s) v)
  | (s', Err err) => s' = s /\
      (err = EINVAL <-> exists v, vm_start a <= v < vm_end a /\ covered (vmas s) v)
  end.
Proof.
  intros Hi Hw. pose proof Hi as [Hc Hh He Hsa Hsp]. pose proof (co_areas _ _ Hc) as Ha.
  pose proof (vw_nonempty _ Hw) as Hne. unfold insert_vma.
  destruct (Z.leb_spec (vm_end a) (vm_start a)); [lia|].
  pose proof (has_overlap_spec s (vm_start a) (vm_end a) Ha) as Ho.
  destruct (has_overlap s (vm_start a) (vm_end a)).
  { split; [done|]. split; [|done]. intros _. by apply Ho. }
  assert (Hn : forall v, vm_start a <= v < vm_end a -> ~ covered (vmas s) v).
  { intros v Hv Hcov. assert (false = true) by (apply Ho; eauto). done. }
  assert (Hen : ensure_can_add max_map_count s 1 = Ok () \/ ensure_can_add max_map_count s 1 = Err ENOMEM).
  { unfold ensure_can_add. destruct (checked_add _ _); [case_cmp|]; auto. }
  destruct Hen as [-> | ->]; [|split; [done|]; split; [done|]; intros (v & Hv & Hcov); by destruct (Hn v Hv)].
  destruct (reserve_holes cfg s (vm_start a) (vm_end a) Hh) as (Hs1 & Hh1 & Hin1).
  set (s1 := reserve_mmap_range cfg s (vm_start a) (vm_end a)) in *.
  assert (Hv1 : vmas s1 = vmas s) by (by rewrite Hs1).
  assert (Hc1 : core_ok has_cache s1) by (rewrite Hs1; destruct Hc; split; done).
  assert (Had : adopt s1 a = adopt s a) by (unfold adopt; by rewrite Hs1).
  destruct (put_vma_spec has_cache s1 a Hc1 Hw) as (Hc2 & (R1 & R2 & R3 & R4) & Hv2);
    [by rewrite Hv1|].
  rewrite Hv1, Had in Hv2. set (s2 := put_vma has_cache s1 a) in *.
  destruct (adopt_shape s a) as (E1 & E2 & _).
  assert (Es : vm_start (adopt s a) = vm_start a) by (unfold vm_start; by rewrite E1).
  assert (Ee : vm_end (adopt s a) = vm_end a) by (unfold vm_end; by rewrite E1).
  pose proof (adopt_wf s a Hw) as Hw'.
  assert (Hn' : forall v, vm_start (adopt s a) <= v < vm_end (adopt s a) -> ~ covered (vmas s) v)
    by (by rewrite Es, Ee).
  rewrite <- Es in Hv2.
  assert (Hua : user_area (adopt s a) = if vm_is_user a then 1 else 0)
    by (unfold user_area, vm_is_user; by rewrite E2).
  assert (Hup : user_pages (adopt s a) = if vm_is_user a then vm_end a - vm_start a else 0)
    by (unfold user_pages, vm_is_user; by rewrite E2, Es, Ee).
  assert (Hfr := areas_fresh _ _ Ha Hw' Hn').
  pose proof (bt_sum_insert_new user_area _ (adopt s a) _ (ao_wf _ Ha) Hfr) as SA.
  pose proof (bt_sum_insert_new user_pages _ (adopt s a) _ (ao_wf _ Ha) Hfr) as SP.
  rewrite <- Hv2 in SA, SP.
  assert (Hcnt : user_area_count s2 = user_area_count s /\ user_page_count s2 = user_page_count s)
    by (rewrite R3, R4, Hs1; done).
  pose proof (set_inv_counts _ _ _ Hi) as Hb.
  assert (Hpg : 0 <= vm_end a - vm_start a <= 2 ^ 52)
    by (destruct Hw as [[? ? _ _ _ _ _] _ _ _]; unfold vm_start, vm_end in *; lia).
  match goal with |- context [if vm_is_user a then (?x, Ok ()) else (?y, Ok ())] =>
    assert (Hres : exists s3, (if vm_is_user a then (x, Ok ()) else (y, Ok ())) = (s3, Ok () : result unit errno)
      /\ vmas s3 = vmas s2 /\ file_rmaps s3 = file_rmaps s2 /\ owner s3 = owner s2 /\
      mmap_holes s3 = mmap_holes s2 /\ next_rmap_id s3 = next_rmap_id s2 /\ i_mmap s3 = i_mmap s2 /\
      user_area_count s3 = bt_sum user_area (vmas s2) /\ user_page_count s3 = bt_sum user_pages (vmas s2))
  end.
  { rewrite SA, SP, Hua, Hup. destruct Hcnt as [Hca Hcp]. destruct (vm_is_user a); eexists; (split; [done|]); simpl.
    - split_and!; try done; rewrite ?Hca, ?Hcp, ?area_page_count_spec, usize_add_small by
        (done || unfold is_usize, usize_modulus; rewrite ?area_page_count_spec by done; lia); lia.
    - split_and!; try done; lia. }
  destruct Hres as (s3 & -> & V3 & F3 & O3 & M3 & N3 & I3 & A3 & P3).
  split_and!; try done.
  - split.
    + destruct Hc2 as [C1 C2 C3]. split; [by rewrite V3|by rewrite V3, F3, N3, I3|by rewrite V3, O3].
    + by rewrite M3, R1.
    + intros v Hv. rewrite M3, R1, Hin1, V3, Hv2, covered_insert, Es, Ee by done.
      rewrite (He v Hv). tauto.
    + by rewrite V3.
    + by rewrite V3.
  - rewrite O3, R2, Hs1. done.
  - intros v. rewrite V3, Hv2, view_insert by done. unfold vm_contains. by rewrite Es, Ee.
Qed.

(** ** Removing one area *)

Lemma drop_area_spec s k a : inv s -> bt_get k (vmas s) = Some a ->
  exists s1 s2, take_vma has_cache s k = (s1, Ok a) /\
    release_mmap_range cfg (untrack_area s1 a) (vm_start a) (vm_end a) = Some s2 /\
    inv s2 /\ owner s2 = owner s /\
    (forall v, view (vmas s2) v = if vm_contains a v then None else view (vmas s) v).
Proof.
  intros Hi Hg. pose proof Hi as [Hc Hh He Hsa Hsp]. pose proof (co_areas _ _ Hc) as Ha.
  pose proof (area_start _ _ _ Ha Hg) as Hk. pose proof (area_wf _ _ _ Ha Hg) as Hw.
  destruct (take_vma_spec has_cache s k a Hc Hg) as (s1 & Ht & Hc1 & (R1 & R2 & R3 & R4) & Hv1).
  exists s1.
  assert (Hu : exists c p, untrack_area s1 a = set_user_counts s1 c p /\
    c = bt_sum user_area (vmas s1) /\ p = bt_sum user_pages (vmas s1)).
  { rewrite Hv1, !(bt_sum_remove _ k a) by (done || apply Ha).
    pose proof (areas_ok_remove _ k Ha) as Ha'.
    destruct (pages_bound _ 0 Ha') as [B1 B2]; [|lia|].
    { intros k' a' H'. destruct (ao_area _ Ha' _ _ H') as [<- [[? _ _ _ _ _ _] _ _ _]]. unfold vm_start. lia. }
    rewrite !(bt_sum_remove _ k a) in B1 by (done || apply Ha).
    assert (Hua : user_area a = if vm_is_user a then 1 else 0) by done.
    assert (Hup : user_pages a = if vm_is_user a then vm_end a - vm_start a else 0) by done.
    unfold untrack_area. rewrite area_page_count_spec by done. unfold saturating_sub.
    destruct (vm_is_user a).
    - do 2 eexists. split; [done|]. rewrite R3, R4, Hsa, Hsp. lia.
    - exists (user_area_count s1), (user_page_count s1). split; [by destruct s1|].
      rewrite R3, R4, Hsa, Hsp. lia. }
  destruct Hu as (c & p & Hu & Hcc & Hpp). rewrite Hu.
  destruct (release_holes cfg (set_user_counts s1 c p) (vm_start a) (vm_end a)) as
    (s2 & Hrel & Hs2 & Hh2 & Hin2); [simpl; by rewrite R1|]. simpl in *.
  exists s2. split; [done|]. split; [done|].
  assert (Hv2 : vmas s2 = bt_remove k (vmas s)) by (by rewrite Hs2).
  assert (Hview : forall v, view (vmas s2) v = if vm_contains a v then None else view (vmas s) v).
  { intros v. rewrite Hv2. unfold view. rewrite (area_at_remove _ k a) by done. by destruct (vm_contains a v). }
  split_and!; [|by rewrite Hs2|done]. split.
  - destruct Hc1. rewrite Hs2. split; done.
  - done.
  - intros v Hv. rewrite Hin2, R1, Hv2, covered_remove, (He v Hv) by done.
    destruct (decide (vm_start a <= v < vm_end a)); tauto.
  - rewrite Hs2. simpl. done.
  - rewrite Hs2. simpl. done.
Qed.

End ops.

(** ** Unmapping a range *)

(** A present PTE inside an area names the resident frame of its page. *)
Definition consistent {PT} `{PageTable PT} (m : btree Vma) (e : Env PT) : Prop :=
  forall v i p f, view m v = Some i -> env_pte e v = Some (p, f) -> pi_frame i = Some (InMemory p).

Section unmap.
Context {PT : Type} `{PageTableLaws PT}.
Context (reserve : MmuGather -> bool) (Hreserve : forall g, reserve g = true).
Context (cfg : arch) (max_map_count : Z) (has_cache : Z -> bool).
Abbreviation inv := (set_inv cfg has_cache).

(** From [s, e] to [s', e']: pages outside [a, b) keep their attributes and
    entries; a page inside keeps both or loses both, its frame being queued
    until the recorded invalidation has run. *)
Record unmap_post (a b : Z) (s : VmaSet) (e : Env PT) (s' : VmaSet) (e' : Env PT) : Prop := {
  up_inv : inv s';
  up_owner : owner s' = owner s;
  up_env : env_le e e';
  up_cons : consistent (vmas s') e';
  up_out : forall v, ~ (a <= v < b) -> view (vmas s') v = view (vmas s) v /\ env_pte e' v = env_pte e v;
  up_in : forall v, a <= v < b ->
    (view (vmas s') v = view (vmas s) v /\ env_pte e' v = env_pte e v) \/
    (view (vmas s) v <> None /\ view (vmas s') v = None /\ env_pte e' v = None /\
     forall p f, env_pte e v = Some (p, f) -> p ∈ env_retired e');
}.

Lemma unmap_post_refl a b s e : inv s -> consistent (vmas s) e -> unmap_post a b s e s e.
Proof. intros Hi Hc. split; try done; by left. Qed.

Lemma unmap_post_trans a b s1 e1 s2 e2 s3 e3 :
  unmap_post a b s1 e1 s2 e2 -> unmap_post a b s2 e2 s3 e3 -> unmap_post a b s1 e1 s3 e3.
Proof.
  intros [I1 O1 E1 C1 U1 N1] [I2 O2 E2 C2 U2 N2]. split; try done; [congruence|by etransitivity|..].
  - intros v Hv. destruct (U1 v Hv), (U2 v Hv). split; congruence.
  - intros v Hv. destruct (N1 v Hv) as [[V1 P1]|(V1 & V1' & P1 & R1)], (N2 v Hv) as [[V2 P2]|(V2 & V2' & P2 & R2)].
    + left. rewrite V2, P2. done.
    + right. rewrite V1, P1 in *. done.
    + right. rewrite V2, P2. split_and!; try done. intros p f Hp.
      destruct (el_retired _ _ E2) as [l ->]. apply elem_of_app. left. eauto.
    + congruence.
Qed.

(** Unmapping the pages of an area that is no longer in the set. *)
Lemma unmap_area_spec s e k t s2 : inv s -> consistent (vmas s) e -> bt_get k (vmas s) = Some t ->
  inv s2 -> owner s2 = owner s ->
  (forall v, view (vmas s2) v = if vm_contains t v then None else view (vmas s) v) ->
  exists t' e', vma_unmap reserve t e = Some (t', e', Ok ()) /\
    unmap_post (vm_start t) (vm_end t) s e s2 e'.
Proof.
  intros Hi Hcons Hg Hi2 Ho Hview. pose proof (co_areas _ _ (si_core _ _ _ Hi)) as Ha.
  pose proof (area_wf _ _ _ Ha Hg) as Hw. pose proof Hw as [Hs Hne _ _].
  destruct (drop_resident_loop_spec reserve Hreserve (S (length (frames (inner t)))) t e
    (vm_start t) (vm_end t)) as (t' & e' & Hl & D); try done; try lia.
  { destruct Hs. unfold vm_start in *. lia. }
  { apply Hs. }
  exists t', e'. split; [done|]. destruct D as [D1 D2 D3 D4 D5 D6 D7].
  assert (Hin : forall v, vm_start t <= v < vm_end t -> env_pte e' v = None /\
    forall p f, env_pte e v = Some (p, f) -> resident_in t (vm_start t) (vm_end t) v = true /\
      bt_get v (frames (inner t)) = Some (InMemory p)).
  { intros v Hv. pose proof (view_at _ v k t Ha Hg Hv) as Hvw. rewrite D6.
    assert (Hres : forall p f, env_pte e v = Some (p, f) ->
      resident_in t (vm_start t) (vm_end t) v = true /\ bt_get v (frames (inner t)) = Some (InMemory p)).
    { intros p f Hp. specialize (Hcons v _ p f Hvw Hp). simpl in Hcons. split; [|done].
      apply resident_in_spec. eauto. }
    split; [|done]. destruct (resident_in t _ _ v) eqn:E; [done|].
    destruct (env_pte e v) as [[p f]|] eqn:Ep; [|done]. destruct (Hres _ _ eq_refl). congruence. }
  assert (Hout : forall v, ~ (vm_start t <= v < vm_end t) -> env_pte e' v = env_pte e v).
  { intros v Hv. rewrite D6. destruct (resident_in t _ _ v) eqn:E; [|done].
    apply resident_in_spec in E. lia. }
  split; try done.
  - intros v i p f. rewrite Hview. destruct (vm_contains t v) eqn:E; [done|].
    intros Hvw. rewrite Hout by (rewrite <- vm_contains_spec; congruence). by apply Hcons.
  - intros v Hv. rewrite Hview, Hout by done. split; [|done].
    destruct (vm_contains t v) eqn:E; [|done]. by apply vm_contains_spec in E.
  - intros v Hv. right. pose proof (view_at _ v k t Ha Hg Hv) as Hvw.
    rewrite Hview, (proj2 (vm_contains_spec t v) Hv). destruct (Hin v Hv) as [Hn Hr].
    split_and!; try done; [congruence|]. intros p f Hp. destruct (Hr _ _ Hp).
    apply (D7 v p); [done|done|congruence].
Qed.

Lemma unmap_post_widen a b x y s e s' e' : a <= x -> y <= b ->
  unmap_post x y s e s' e' -> unmap_post a b s e s' e'.
Proof.
  intros Hx Hy [I1 O1 E1 C1 U1 N1]. split; try done.
  - intros v Hv. apply U1. lia.
  - intros v Hv. destruct (decide (x <= v < y)); [by apply N1|]. left. by apply U1.
Qed.

Lemma unmap_post_same_view a b s1 s2 e s' e' :
  (forall v, view (vmas s2) v = view (vmas s1) v) -> owner s2 = owner s1 ->
  unmap_post a b s2 e s' e' -> unmap_post a b s1 e s' e'.
Proof.
  intros Hv Ho [I1 O1 E1 C1 U1 N1]. split; try done; [congruence|..].
  - intros v Hn. rewrite <- Hv. by apply U1.
  - intros v Hn. rewrite <- Hv. by apply N1.
Qed.

(** One round: the lowest overlapping area loses its part inside [a, b). *)
Lemma unmap_round s e a b k x :
  inv s -> consistent (vmas s) e -> a < b -> bt_get k (vmas s) = Some x ->
  a < vm_end x -> vm_start x < b ->
  let os := if vm_start x <? a then a else vm_start x in
  let oe := if b <? vm_end x then b else vm_end x in
  match split_for_range max_map_count has_cache s k os oe with
  | (s', Err err) => s' = s /\ err = ENOMEM
  | (s1, Ok t) => exists s2 t2 t3 e' s', take_vma has_cache s1 t = (s2, Ok t2) /\
      vma_unmap reserve t2 e = Some (t3, e', Ok ()) /\
      release_mmap_range cfg (untrack_area s2 t2) (vm_start t2) (vm_end t2) = Some s' /\
      unmap_post a b s e s' e' /\ (forall v, os <= v < oe -> view (vmas s') v = None)
  end.
Proof.
  intros Hi Hcons Hab Hg H1 H2 os oe.
  pose proof (co_areas _ _ (si_core _ _ _ Hi)) as Ha. pose proof (vw_nonempty _ (area_wf _ _ _ Ha Hg)).
  assert (Hos : vm_start x <= os /\ a <= os) by (unfold os; case_cmp; lia).
  assert (Hoe : oe <= vm_end x /\ oe <= b) by (unfold oe; case_cmp; lia).
  assert (Hlt : os < oe) by (unfold os, oe; case_cmp; lia).
  pose proof (split_for_range_spec cfg max_map_count has_cache s k x os oe Hi Hg ltac:(lia) Hlt ltac:(lia)) as Hsp.
  destruct (split_for_range _ _ _ _ _ _) as [s1 [t|err]]; [|done].
  destruct Hsp as (-> & Hi1 & Hv1 & Ho1 & _ & t2 & Hg2 & Hst & Hen).
  assert (Hc1 : consistent (vmas s1) e) by (intros v i p f; rewrite Hv1; apply Hcons).
  destruct (drop_area_spec cfg has_cache s1 os t2 Hi1 Hg2) as (s2 & s' & Ht & Hrel & Hi' & Ho' & Hv').
  destruct (unmap_area_spec s1 e os t2 s' Hi1 Hc1 Hg2 Hi' Ho' Hv') as (t3 & e' & Hu & Hpost).
  exists s2, t2, t3, e', s'. split_and!; try done.
  - apply (unmap_post_same_view _ _ _ s1); [done|done|].
    eapply unmap_post_widen; [| |done]; lia.
  - intros v Hv. rewrite Hv'. rewrite (proj2 (vm_contains_spec t2 v)); [done|lia].
Qed.
Definition user_page (i : page_info) : bool := contains (pi_perm i) perm_U.

Lemma unmap_loop_spec a b (Hab : a < b) fuel : forall s e c found,
  inv s -> consistent (vmas s) e -> a <= c -> (forall v, a <= v < c -> view (vmas s) v = None) ->
  (Z.to_nat (b - c) < fuel)%nat ->
  exists s' e' r,
    unmap_range_loop reserve cfg max_map_count has_cache fuel s e a b found = Some (s', e', r) /\
    unmap_post a b s e s' e' /\
    match r with
    | Ok f => (forall v, a <= v < b -> view (vmas s') v = None) /\
        (f = true <-> found = true \/ exists v, a <= v < b /\ view (vmas s) v <> None)
    | Err err => err = ENOMEM \/
        (err = EINVAL /\ exists v i, a <= v < b /\ view (vmas s) v = Some i /\ user_page i = false)
    end.
Proof.
  induction fuel as [|fuel IH]; intros s e c found Hi Hcons Hc Hnone Hf; [lia|]. simpl.
  pose proof (co_areas _ _ (si_core _ _ _ Hi)) as Ha.
  pose proof (first_overlap_key_spec s a b Ha Hab) as Hfo.
  destruct (first_overlap_key s a b) as [k|].
  2: { assert (Hall : forall v, a <= v < b -> view (vmas s) v = None).
       { intros v Hv. destruct (view (vmas s) v) eqn:E; [|done]. exfalso. apply (Hfo v Hv).
         apply view_covered; [done|congruence]. }
       exists s, e, (Ok found). split; [done|]. split; [by apply unmap_post_refl|]. split; [done|].
       split; [by left|]. intros [?|(v & Hv & Hne)]; [done|]. by rewrite Hall in Hne. }
  destruct Hfo as (x & Hg & H1 & H2 & Hlow). rewrite Hg.
  pose proof (vw_nonempty _ (area_wf _ _ _ Ha Hg)) as Hne.
  set (os := if vm_start x <? a then a else vm_start x).
  set (oe := if b <? vm_end x then b else vm_end x).
  assert (Hos : vm_start x <= os < vm_end x /\ a <= os < b) by (unfold os; case_cmp; lia).
  assert (Hoe : os < oe <= b) by (unfold os, oe; case_cmp; lia).
  pose proof (view_at _ os k x Ha Hg ltac:(lia)) as Hvos.
  destruct (vm_is_user x) eqn:Eu; simpl.
  2: { exists s, e, (Err EINVAL). split; [done|]. split; [by apply unmap_post_refl|]. right.
       split; [done|]. exists os, (page_view x os). split_and!; try done; lia. }
  pose proof (unmap_round s e a b k x Hi Hcons Hab Hg H1 H2) as Hround. fold os oe in Hround.
  simpl in Hround. destruct (split_for_range _ _ _ _ _ _) as [s1 [t|err]].
  2: { destruct Hround as [-> ->]. exists s, e, (Err ENOMEM).
       split; [done|]. split; [by apply unmap_post_refl|by left]. }
  destruct Hround as (s2 & t2 & t3 & e' & s' & Ht & Hu & Hrel & Hpost & Hgone).
  rewrite Ht, Hu. simpl. rewrite Hrel. simpl.
  destruct (IH s' e' oe true) as (s3 & e3 & r & Hl & Hp3 & Hr); [apply Hpost|apply Hpost|lia| | |].
  - intros v Hv. destruct (decide (os <= v)); [apply Hgone; lia|].
    assert (view (vmas s) v = None) as Hvn.
    { destruct (view (vmas s) v) eqn:E; [|done]. exfalso. apply (Hlow v).
      - unfold os in *. case_cmp; lia.
      - apply view_covered; [done|congruence]. }
    destruct (up_in _ _ _ _ _ _ Hpost v ltac:(lia)) as [[-> _]|(_ & -> & _)]; done.
  - assert (c <= os).
    { destruct (decide (c <= os)); [done|]. rewrite Hnone in Hvos by lia. done. }
    lia.
  - exists s3, e3, r. split; [done|]. split; [by eapply unmap_post_trans|].
    destruct r as [f|err].
    + destruct Hr as [Hr1 Hr2]. split; [done|]. split; [|intros _; apply Hr2; by left].
      intros _. right. exists os. split; [lia|congruence].
    + destruct Hr as [->|(-> & v & i & Hv & Hvi & Hpi)]; [by left|]. right. split; [done|].
      exists v, i. split_and!; try done; try lia.
      destruct (up_in _ _ _ _ _ _ Hpost v Hv) as [[E _]|(_ & E & _)]; congruence.
Qed.
End unmap.


(** ** Changing the attributes of one area in place *)

Lemma update_area_spec cfg has_cache s k t t' : set_inv cfg has_cache s ->
  bt_get k (vmas s) = Some t ->
  inner t' = inner t -> vm_is_user t' = vm_is_user t -> map_file_offset t' = map_file_offset t ->
  (forall i, rmap_from_vma i t' = rmap_from_vma i t) ->
  user_address_space t' = user_address_space t -> map_file t' = map_file t ->
  let s' := set_vmas s (bt_insert k t' (vmas s)) in
  set_inv cfg has_cache s' /\
  (forall v, view (vmas s') v = if vm_contains t v then Some (page_view t' v) else view (vmas s) v).
Proof.
  intros [Hc Hh He Hsa Hsp] Hg Hin Hu Hoff Hrm Hown Hfile s'.
  pose proof Hc as [Ha Hr Ho]. pose proof (area_start _ _ _ Ha Hg) as Hk.
  pose proof (area_wf _ _ _ Ha Hg) as Hw.
  assert (Es : vm_start t' = vm_start t) by (unfold vm_start; by rewrite Hin).
  assert (Ee : vm_end t' = vm_end t) by (unfold vm_end; by rewrite Hin).
  assert (Hw' : vma_wf t').
  { destruct Hw as [? ? ? ?].
    split; [by rewrite Hin|by rewrite Es, Ee|by rewrite Hoff, Es, Ee|by rewrite Hfile, Hoff]. }
  set (m0 := bt_remove k (vmas s)). pose proof (areas_ok_remove _ k Ha : areas_ok m0) as Ha0.
  assert (Hm : vmas s' = bt_insert (vm_start t') t' m0).
  { apply bt_ext; simpl; [apply bt_wf_insert, Ha|apply bt_wf_insert, Ha0|]. intros k'.
    rewrite Es, Hk, !bt_get_insert by (apply Ha || apply Ha0). unfold m0.
    rewrite bt_get_remove by apply Ha. by destruct (k' =? k). }
  assert (Hn : forall v, vm_start t' <= v < vm_end t' -> ~ covered m0 v).
  { intros v Hv. unfold m0. rewrite covered_remove, <- Es, <- Ee by done. tauto. }
  pose proof (areas_ok_insert _ _ Ha0 Hw' Hn) as Ha'. rewrite <- Hm in Ha'.
  pose proof (areas_fresh _ _ Ha0 Hw' Hn) as Hf.
  assert (Hview : forall v, view (vmas s') v = if vm_contains t v then Some (page_view t' v) else view (vmas s) v).
  { intros v. rewrite Hm, view_insert by done. unfold vm_contains at 1. rewrite Es, Ee.
    fold (vm_contains t v). destruct (vm_contains t v) eqn:E; [done|].
    unfold m0, view. by rewrite (area_at_remove _ k t v), E by done. }
  assert (Hget : forall k', bt_get k' (vmas s') = if k' =? k then Some t' else bt_get k' (vmas s))
    by (intros k'; simpl; apply bt_get_insert, Ha).
  split; [|done]. split; [split| | | |]; simpl.
  - done.
  - destruct Hr as [R1 R2 R3 R4 R5 R6]. split; try done.
    + intros k' r Hk'. destruct (R2 _ _ Hk') as (x & Hx & Hfx). rewrite Hget.
      destruct (Z.eqb_spec k' k) as [->|]; [|eauto]. exists t'. rewrite Hrm. split; [done|]. congruence.
    + intros k' x. rewrite Hget. destruct (Z.eqb_spec k' k) as [->|]; [|apply R3].
      intros [= <-]. rewrite Hrm. by apply R3.
  - intros k' x o. rewrite Hget. destruct (k' =? k); [|apply Ho].
    intros [= <-] Hos. rewrite Hown. eauto.
  - done.
  - intros v Hv. rewrite (He v Hv), !view_covered by done. rewrite Hview.
    destruct (vm_contains t v) eqn:E; [|done]. apply vm_contains_spec in E.
    rewrite (view_at _ v k t) by done. split; intros Hx; exfalso; by apply Hx.
  - change (bt_insert k t' (vmas s)) with (vmas s'). rewrite Hm, bt_sum_insert_new by (done || apply Ha0). unfold m0.
    rewrite (bt_sum_remove _ k t) by (done || apply Ha).
    assert (user_area t' = user_area t) as -> by (unfold user_area; by rewrite Hu). lia.
  - change (bt_insert k t' (vmas s)) with (vmas s'). rewrite Hm, bt_sum_insert_new by (done || apply Ha0). unfold m0.
    rewrite (bt_sum_remove _ k t) by (done || apply Ha).
    assert (user_pages t' = user_pages t) as -> by (unfold user_pages; by rewrite Hu, Es, Ee). lia.
Qed.

(** ** Changing protection *)

Definition with_perm (i : page_info) (p : Z) : page_info :=
  mkPageInfo p (pi_file i) (pi_elf i) (pi_may_write i) (pi_sealed i) (pi_flags i) (pi_wipe i)
    (pi_dont_fork i) (pi_inherited i) (pi_owner i) (pi_frame i).

Definition resident_page (i : page_info) : bool :=
  match pi_frame i with Some (InMemory _) => true | _ => false end.

Section protect.
Context {PT : Type} `{PageTableLaws PT}.
Context (cfg : arch) (max_map_count : Z) (has_cache : Z -> bool).
Abbreviation inv := (set_inv cfg has_cache).

Lemma set_user_flags_spec (e : Env PT) v fl : contains fl perm_U = true ->
  let e' := set_um e (fst (set_user_flags (um e) v fl)) in
  env_le e e' /\ forall v', env_pte e' v' =
    if v' =? v then (fun x => (fst x, fl)) <$> env_pte e v' else env_pte e v'.
Proof.
  intros Hu. unfold set_user_flags, check_user_flags. rewrite Hu. unfold recorded.
  destruct (set_flags_spec (page_table (um e)) v fl) as [Hs Hp].
  destruct (set_pte_flags_no_flush (page_table (um e)) v fl) as [t ok]; simpl in *.
  pose proof (is_mapped_spec (page_table (um e)) v) as Hm. destruct ok; simpl.
  - split; [|done]. split; simpl.
    + intros v' Hc. by apply record_change_mono.
    + intros v' Hne. rewrite Hp in Hne. destruct (Z.eqb_spec v' v) as [E|]; [rewrite E|done].
      apply record_change_covers.
    + exists []. by rewrite record_change_retired, app_nil_r.
    + done.
  - assert (Hsame : forall v', pte t v' = env_pte e v').
    { intros v'. rewrite Hp. destruct (Z.eqb_spec v' v) as [E|]; [rewrite E|done].
      rewrite <- Hs in Hm. by destruct (pte _ v). }
    split; [|done]. split; simpl; [done| |exists []; by rewrite app_nil_r|done].
    intros v' Hne. by rewrite Hsame in Hne.
Qed.

Lemma set_flags_each l fl : contains fl perm_U = true -> forall e : Env PT,
  let e' := fold_left (fun e vpn => set_um e (fst (set_user_flags (um e) vpn fl))) l e in
  env_le e e' /\ forall v, env_pte e' v =
    if bool_decide (v ∈ l) then (fun x => (fst x, fl)) <$> env_pte e v else env_pte e v.
Proof.
  intros Hu. induction l as [|w l IH]; intros e; simpl.
  - split; [reflexivity|done].
  - destruct (set_user_flags_spec e w fl Hu) as [L1 P1].
    destruct (IH (set_um e (fst (set_user_flags (um e) w fl)))) as [L2 P2].
    split; [by etransitivity|]. intros v. rewrite P2, P1.
    destruct (Z.eqb_spec v w) as [E|Hne].
    + rewrite E. rewrite (bool_decide_eq_true_2 (w ∈ w :: l)) by (by left).
      case_bool_decide; [|done]. by destruct (env_pte e w) as [[]|].
    + assert (bool_decide (v ∈ w :: l) = bool_decide (v ∈ l)) as ->; [|done].
      apply bool_decide_ext. rewrite elem_of_cons. naive_solver.
Qed.

(** The pages of [c, b) either keep everything or take the new protection. *)
Record protect_post (c b prot : Z) (s : VmaSet) (e : Env PT) (s' : VmaSet) (e' : Env PT) : Prop := {
  pp_inv : inv s';
  pp_env : env_le e e';
  pp_out : forall v, ~ (c <= v < b) -> view (vmas s') v = view (vmas s) v /\ env_pte e' v = env_pte e v;
  pp_in : forall v, c <= v < b ->
    (view (vmas s') v = view (vmas s) v /\ env_pte e' v = env_pte e v) \/
    exists i, view (vmas s) v = Some i /\ view (vmas s') v = Some (with_perm i prot) /\
      env_pte e' v = if resident_page i
        then (fun x => (fst x, difference prot perm_W)) <$> env_pte e v else env_pte e v;
}.

Lemma protect_area_spec s (e : Env PT) k t prot : inv s -> bt_get k (vmas s) = Some t ->
  vm_is_user t = true -> contains prot perm_U = true ->
  exists s' e', protect_area s e k prot = (s', e', Ok ()) /\ inv s' /\ env_le e e' /\
    (forall v, ~ (vm_start t <= v < vm_end t) ->
       view (vmas s') v = view (vmas s) v /\ env_pte e' v = env_pte e v) /\
    (forall v, vm_start t <= v < vm_end t ->
       exists i, view (vmas s) v = Some i /\ view (vmas s') v = Some (with_perm i prot) /\
         env_pte e' v = if resident_page i
           then (fun x => (fst x, difference prot perm_W)) <$> env_pte e v else env_pte e v).
Proof.
  intros Hi Hg Hu Hp. pose proof (co_areas _ _ (si_core _ _ _ Hi)) as Ha.
  pose proof (area_wf _ _ _ Ha Hg) as Hw. unfold protect_area. rewrite Hg.
  assert (Hpu : contains (difference prot perm_W) perm_U = true) by (by apply contains_difference).
  destruct (set_flags_each (in_memory_vpns (inner t)) _ Hpu e) as [L P].
  destruct (update_area_spec cfg has_cache s k t (set_perm t prot) Hi Hg) as [Hi' Hv']; try done.
  { by rewrite Hu. }
  do 2 eexists. split; [done|]. split; [done|]. split; [done|].
  assert (Hmem : forall v, v ∈ in_memory_vpns (inner t) <->
    exists p, bt_get v (frames (inner t)) = Some (InMemory p)).
  { intros v. unfold in_memory_vpns. rewrite list_elem_of_fmap. split.
    - intros ([v' f] & -> & [Hf Hin]%list_elem_of_filter). simpl in *.
      apply bt_get_iff in Hin; [|apply Hw]. destruct f; try done. eauto.
    - intros [p Hg']. exists (v, InMemory p). split; [done|]. apply list_elem_of_filter.
      split; [done|]. by apply bt_get_elem. }
  split.
  - intros v Hv. rewrite Hv', P. split.
    + destruct (vm_contains t v) eqn:E; [by apply vm_contains_spec in E|done].
    + rewrite bool_decide_eq_false_2; [done|]. rewrite Hmem. intros [p Hgp].
      apply (ps_keys _ (vw_store _ Hw)) in Hgp. done.
  - intros v Hv. exists (page_view t v). rewrite Hv', (proj2 (vm_contains_spec t v) Hv), P.
    split_and!; [by eapply view_at|done|].
    assert (bool_decide (v ∈ in_memory_vpns (inner t)) = resident_page (page_view t v)) as ->; [|done].
    unfold resident_page; simpl. case_bool_decide as Hin.
    + apply Hmem in Hin as [p ->]. done.
    + destruct (bt_get v (frames (inner t))) as [[]|] eqn:E; try done. exfalso. apply Hin, Hmem. eauto.
Qed.
(** [mprotect] may give [prot] to this page. *)
Definition may_protect (prot : Z) (o : option page_info) : Prop :=
  exists i, o = Some i /\ user_page i = true /\
    (contains prot perm_W = true -> contains (pi_flags i) MAP_SHARED = true ->
     pi_sealed i = false /\ pi_may_write i = true).

Lemma find_user_view s v : areas_ok (vmas s) ->
  match find_user_vma_key s v with
  | Some k => exists x, bt_get k (vmas s) = Some x /\ vm_start x <= v < vm_end x /\ vm_is_user x = true
  | None => forall i, view (vmas s) v = Some i -> user_page i = false
  end.
Proof.
  intros Ha. destruct (find_user_vma_key s v) as [k|] eqn:E.
  - by apply find_user_vma_key_spec in E.
  - intros i. unfold view. destruct (area_at (vmas s) v) as [x|] eqn:Ex; [|done]. simpl.
    intros [= <-]. apply area_at_spec in Ex as [Hg Hv]; [|done].
    unfold user_page; simpl. fold (vm_is_user x). destruct (vm_is_user x) eqn:Eu; [|done].
    assert (find_user_vma_key s v = Some (vm_start x)); [|congruence].
    apply find_user_vma_key_spec; eauto.
Qed.

Lemma protect_check_spec s prot b fuel : areas_ok (vmas s) -> forall c,
  (Z.to_nat (b - c) <= fuel)%nat ->
  protect_check fuel s c b prot = Ok () <->
  (forall v, c <= v < b -> may_protect prot (view (vmas s) v)).
Proof.
  intros Ha. induction fuel as [|fuel IH]; intros c Hf; simpl.
  { split; [intros _ v Hv; lia|done]. }
  destruct (Z.ltb_spec c b); [|split; [intros _ v Hv; lia|done]].
  pose proof (find_user_view s c Ha) as Hfu. destruct (find_user_vma_key s c) as [k|].
  2: { split; [done|]. intros Hall. destruct (Hall c ltac:(lia)) as (i & Hi & Hu & _).
       rewrite (Hfu _ Hi) in Hu. done. }
  destruct Hfu as (x & Hg & Hv & Hu). rewrite Hg.
  set (next := if vm_end x <? b then vm_end x else b).
  assert (Hnext : c < next <= b /\ next <= vm_end x) by (unfold next; case_cmp; lia).
  assert (Hvw : forall v, c <= v < next -> view (vmas s) v = Some (page_view x v)).
  { intros v ?. eapply view_at; [done|done|lia]. }
  specialize (IH next ltac:(lia)).
  assert (Hsplit : forall P : Z -> Prop, (forall v, c <= v < next -> P v) ->
    (forall v, next <= v < b -> P v) <-> (forall v, c <= v < b -> P v)).
  { intros P HP. split; [|intros HQ v ?; apply HQ; lia].
    intros HQ v Hv'. destruct (decide (v < next)); [apply HP|apply HQ]; lia. }
  destruct (contains prot perm_W && contains (flags x) MAP_SHARED) eqn:Ew.
  - apply andb_true_iff in Ew as [Ew1 Ew2]. destruct (write_sealed x) eqn:Es.
    { split; [done|]. intros Hall. destruct (Hall c ltac:(lia)) as (i & Hi & _ & Hok).
      rewrite Hvw in Hi by lia. injection Hi as <-. destruct (Hok Ew1 Ew2). simpl in *. congruence. }
    destruct (may_write x) eqn:Em; simpl.
    + rewrite IH. apply Hsplit. intros v Hv'. exists (page_view x v). split_and!; [by apply Hvw|done|done].
    + split; [done|]. intros Hall. destruct (Hall c ltac:(lia)) as (i & Hi & _ & Hok).
      rewrite Hvw in Hi by lia. injection Hi as <-. destruct (Hok Ew1 Ew2). simpl in *. congruence.
  - rewrite IH. apply Hsplit. intros v Hv'. exists (page_view x v). split_and!; [by apply Hvw|done|].
    simpl. intros E1 E2. rewrite E1, E2 in Ew. done.
Qed.

Lemma protect_apply_spec prot b (Hp : contains prot perm_U = true) fuel : forall s (e : Env PT) c,
  inv s -> (Z.to_nat (b - c) <= fuel)%nat ->
  (forall v, c <= v < b -> exists i, view (vmas s) v = Some i /\ user_page i = true) ->
  exists s' e' r, protect_apply max_map_count has_cache fuel s e c b prot = (s', e', r) /\
    protect_post c b prot s e s' e' /\
    match r with
    | Ok _ => forall v, c <= v < b -> exists i, view (vmas s) v = Some i /\
        view (vmas s') v = Some (with_perm i prot) /\
        env_pte e' v = if resident_page i
          then (fun x => (fst x, difference prot perm_W)) <$> env_pte e v else env_pte e v
    | Err err => err = ENOMEM
    end.
Proof.
  assert (Hrefl : forall s (e : Env PT) c, inv s -> protect_post c b prot s e s e).
  { intros s e c Hi. split; [done|reflexivity|done|by left]. }
  induction fuel as [|fuel IH]; intros s e c Hi Hf Hcov; simpl.
  { exists s, e, (Ok ()). split_and!; [done|by apply Hrefl|intros v Hv; lia]. }
  destruct (Z.ltb_spec c b).
  2: { exists s, e, (Ok ()). split_and!; [done|by apply Hrefl|intros v Hv; lia]. }
  pose proof (co_areas _ _ (si_core _ _ _ Hi)) as Ha.
  pose proof (find_user_view s c Ha) as Hfu. destruct (find_user_vma_key s c) as [k|].
  2: { destruct (Hcov c ltac:(lia)) as (i & Hvi & Hu). rewrite (Hfu _ Hvi) in Hu. done. }
  destruct Hfu as (x & Hg & Hv & Hu). rewrite Hg.
  set (pe := if vm_end x <? b then vm_end x else b).
  assert (Hpe : c < pe <= b /\ pe <= vm_end x) by (unfold pe; case_cmp; lia).
  pose proof (split_for_range_spec cfg max_map_count has_cache s k x c pe Hi Hg ltac:(lia) ltac:(lia) ltac:(lia)) as Hs.
  destruct (split_for_range _ _ _ _ _ _) as [s1 [t|err]].
  2: { destruct Hs as [-> ->]. exists s, e, (Err ENOMEM). split_and!; [done|by apply Hrefl|done]. }
  destruct Hs as (-> & Hi1 & Hv1 & _ & _ & y & Hgy & Hys & Hye).
  pose proof (co_areas _ _ (si_core _ _ _ Hi1)) as Ha1.
  assert (Hyu : vm_is_user y = true).
  { pose proof (view_at _ c c y Ha1 Hgy ltac:(lia)) as Hvc. rewrite Hv1 in Hvc.
    destruct (Hcov c ltac:(lia)) as (i & Hvi & Hui). assert (i = page_view y c) as -> by congruence. done. }
  destruct (protect_area_spec s1 e c y prot Hi1 Hgy Hyu Hp) as (s2 & e2 & -> & Hi2 & L2 & Out2 & In2).
  rewrite Hys, Hye in Out2, In2. setoid_rewrite Hv1 in Out2. setoid_rewrite Hv1 in In2.
  destruct (IH s2 e2 pe Hi2 ltac:(lia)) as (s3 & e3 & r & Hr & Hpost & Hres).
  { intros v Hv'. destruct (Out2 v ltac:(lia)) as [-> _]. apply Hcov. lia. }
  exists s3, e3, r. split; [done|]. destruct Hpost as [I3 L3 Out3 In3].
  assert (Hlow : forall v, c <= v < pe -> exists i, view (vmas s) v = Some i /\
    view (vmas s3) v = Some (with_perm i prot) /\ env_pte e3 v = if resident_page i
      then (fun x => (fst x, difference prot perm_W)) <$> env_pte e v else env_pte e v).
  { intros v Hv'. destruct (Out3 v ltac:(lia)) as [-> ->]. apply In2. lia. }
  split; [split|].
  - done.
  - by etransitivity.
  - intros v Hv'. destruct (Out3 v ltac:(lia)) as [-> ->]. apply Out2. lia.
  - intros v Hv'. destruct (decide (v < pe)); [right; apply Hlow; lia|].
    destruct (Out2 v ltac:(lia)) as [<- <-]. apply In3. lia.
  - destruct r as [u|err]; [|done]. intros v Hv'. destruct (decide (v < pe)); [apply Hlow; lia|].
    destruct (Out2 v ltac:(lia)) as [<- <-]. apply Hres. lia.
Qed.
End protect.

