(* ===== verification/VmaSetSeq.v ===== *)
(** Growing areas, and every sequence of [VmaSet] operations
    ([os/src/mm/vma_set.rs]): stack growth, merging of adjacent lazy mappings,
    finding a free range, and the invariant over whole histories. *)

From stdpp Require Import base numbers option gmap list.
From S2P Require Import Prelude BTree Addr PageStore Mapper Vma VmaSet VmaHoles VmaSetInv VmaSetOps.

Section grow.
Context (cfg : arch) (max_map_count : Z) (has_cache : Z -> bool).
Abbreviation inv := (set_inv cfg has_cache).

(** [t'] is [t] with a larger range. *)
Record extends (t t' : Vma) : Prop := {
  ex_wf : vma_wf t';
  ex_start : vm_start t' <= vm_start t;
  ex_end : vm_end t <= vm_end t';
  ex_user : vm_is_user t' = vm_is_user t;
  ex_owner : user_address_space t' = user_address_space t;
  ex_view : forall v, vm_start t <= v < vm_end t -> page_view t' v = page_view t v;
}.

(** Replacing the area [k] by a larger one over pages that were free, with the
    page counter raised by the growth. *)
Lemma extend_area_spec s s' k t t' : inv s -> bt_get k (vmas s) = Some t -> extends t t' ->
  (forall v, vm_start t' <= v < vm_end t' -> ~ (vm_start t <= v < vm_end t) -> ~ covered (vmas s) v) ->
  core_ok has_cache s' -> vmas s' = bt_insert (vm_start t') t' (bt_remove k (vmas s)) ->
  holes_ok (arena_lo cfg) (arena_hi cfg) (mmap_holes s') ->
  (forall v, in_hole (mmap_holes s') v <->
     in_hole (mmap_holes s) v /\ ~ (vm_start t' <= v < vm_end t' /\ ~ (vm_start t <= v < vm_end t))) ->
  user_area_count s' = user_area_count s ->
  user_page_count s' = user_page_count s
    + (if vm_is_user t then (vm_end t' - vm_start t') - (vm_end t - vm_start t) else 0) ->
  inv s' /\
  (forall v, view (vmas s') v = if vm_contains t' v then Some (page_view t' v) else view (vmas s) v).
Proof.
  intros [Hc Hh He Hsa Hsp] Hg [Ew Es Ee Eu Eo Ev] Hfree Hc' Hvm Hh' Hin Hca Hcp.
  pose proof (co_areas _ _ Hc) as Ha. pose proof (area_start _ _ _ Ha Hg) as Hk.
  pose proof (areas_ok_remove _ k Ha) as Ha0.
  assert (Hn : forall v, vm_start t' <= v < vm_end t' -> ~ covered (bt_remove k (vmas s)) v).
  { intros v Hv. rewrite (covered_remove _ k t) by done. intros [Hcov Hnt]. by eapply Hfree. }
  pose proof (areas_fresh _ _ Ha0 Ew Hn) as Hf.
  assert (Hview : forall v, view (vmas s') v = if vm_contains t' v then Some (page_view t' v) else view (vmas s) v).
  { intros v. rewrite Hvm, view_insert by done. destruct (vm_contains t' v) eqn:E; [done|].
    unfold view. rewrite (area_at_remove _ k t v) by done.
    destruct (vm_contains t v) eqn:E2; [|done]. apply vm_contains_spec in E2.
    rewrite (proj2 (vm_contains_spec t' v)) in E by lia. done. }
  split; [|done]. split; try done.
  - intros v Hv. rewrite Hin, (He v Hv). rewrite Hvm, covered_insert, (covered_remove _ k t) by done.
    destruct (decide (vm_start t <= v < vm_end t)); [|tauto].
    assert (covered (vmas s) v) by (by exists k, t).
    assert (vm_start t' <= v < vm_end t') by lia. tauto.
  - rewrite Hca, Hvm, bt_sum_insert_new, (bt_sum_remove _ k t) by (done || apply Ha0 || apply Ha).
    assert (user_area t' = user_area t) as -> by (unfold user_area; by rewrite Eu). lia.
  - rewrite Hcp, Hvm, bt_sum_insert_new, (bt_sum_remove _ k t) by (done || apply Ha0 || apply Ha).
    assert (user_pages t' = if vm_is_user t then vm_end t' - vm_start t' else 0) as ->
      by (unfold user_pages; by rewrite Eu).
    assert (user_pages t = if vm_is_user t then vm_end t - vm_start t else 0) as -> by done.
    destruct (vm_is_user t); lia.
Qed.

(** ** Stack growth *)

Lemma expand_down_extends a fv : vma_wf a -> 0 <= fv -> fv <= vm_start a ->
  map_file a = None ->
  exists a', expand_down_to a (va_from_vpn fv) = (a', Ok ()) /\ extends a a' /\
    vm_start a' = fv /\ vm_end a' = vm_end a /\
    (forall v, fv <= v < vm_start a -> pi_frame (page_view a' v) = None) /\
    map_perm a' = map_perm a /\ flags a' = flags a.
Proof.
  intros Hw Hfv Hle Hfile. pose proof Hw as [Hs Hne [Ho1 Ho2] Han]. unfold expand_down_to.
  assert (fv < 2 ^ 52) by (destruct Hs; unfold vm_start, vm_end in *; lia).
  rewrite va_from_vpn_small by lia. unfold va_floor. rewrite Z.div_mul by done.
  destruct (Z.ltb_spec (vm_start a) fv); [lia|]. rewrite Hfile.
  destruct (set_start_spec (inner a) fv Hs) as (s' & -> & Hs' & Hr & Hf).
  { unfold vm_end, vm_start in *. lia. }
  exists (set_inner a s'). unfold vm_start, vm_end, ps_start, ps_end in *.
  split_and!; simpl; try done; rewrite ?Hr; simpl; try done.
  - split; simpl; unfold vm_start, vm_end, ps_start, ps_end in *; simpl; rewrite ?Hr; simpl; try done.
    + split; simpl; unfold vm_start, vm_end, ps_start, ps_end; simpl; rewrite ?Hr; simpl; try done; [lia|].
      rewrite (Han Hfile). destruct Hs. unfold PAGE_SIZE, usize_modulus, ps_end, ps_start in *. lia.
    + intros v Hv. unfold page_view, vm_start, ps_start; simpl. rewrite Hr, Hf, Hfile; simpl.
      destruct (Z.leb_spec fv v), (Z.ltb_spec v (range_r (vpn_range (inner a)))); simpl; done || lia.
  - intros v Hv. rewrite Hf.
    destruct (Z.leb_spec fv v), (Z.ltb_spec v (range_r (vpn_range (inner a)))); simpl; try done.
    destruct (bt_get v (frames (inner a))) eqn:E; [|done].
    apply (ps_keys _ Hs) in E. unfold ps_start in E. lia.
Qed.

Lemma expand_down_file a fv : map_file a <> None -> vma_wf a -> 0 <= fv -> fv <= vm_start a ->
  expand_down_to a (va_from_vpn fv) = (a, Err EINVAL).
Proof.
  intros Hf Hw Hfv Hle. unfold expand_down_to. destruct (_ <? _); [done|]. by destruct (map_file a).
Qed.
(** The state in which the area is taken out and the new pages are reserved. *)
Lemma reserve_take s k t x y : inv s -> bt_get k (vmas s) = Some t ->
  exists s1, take_vma has_cache (reserve_mmap_range cfg s x y) k = (s1, Ok t) /\
    core_ok has_cache s1 /\ vmas s1 = bt_remove k (vmas s) /\ owner s1 = owner s /\
    user_area_count s1 = user_area_count s /\ user_page_count s1 = user_page_count s /\
    holes_ok (arena_lo cfg) (arena_hi cfg) (mmap_holes s1) /\
    (forall v, in_hole (mmap_holes s1) v <-> in_hole (mmap_holes s) v /\ ~ (x <= v < y)).
Proof.
  intros [Hc Hh He Hsa Hsp] Hg. destruct (reserve_holes cfg s x y Hh) as (Hs0 & Hh0 & Hin0).
  set (s0 := reserve_mmap_range cfg s x y) in *.
  assert (Hc0 : core_ok has_cache s0) by (rewrite Hs0; destruct Hc; split; done).
  destruct (take_vma_spec has_cache s0 k t Hc0) as (s1 & Ht & Hc1 & (R1 & R2 & R3 & R4) & Hv1);
    [by rewrite Hs0|].
  exists s1. split; [done|]. split; [done|]. rewrite R1, R2, R3, R4, Hv1.
  split_and!; try done; by rewrite Hs0.
Qed.

(** Putting the unchanged area back and releasing the reserved pages. *)
Lemma undo_reserve s s1 k t x y : inv s -> bt_get k (vmas s) = Some t ->
  (forall v, x <= v < y -> ~ covered (vmas s) v) ->
  core_ok has_cache s1 -> vmas s1 = bt_remove k (vmas s) -> owner s1 = owner s ->
  user_area_count s1 = user_area_count s -> user_page_count s1 = user_page_count s ->
  holes_ok (arena_lo cfg) (arena_hi cfg) (mmap_holes s1) ->
  (forall v, in_hole (mmap_holes s1) v <-> in_hole (mmap_holes s) v /\ ~ (x <= v < y)) ->
  exists s2, release_mmap_range cfg (put_vma has_cache s1 t) x y = Some s2 /\ inv s2 /\
    vmas s2 = vmas s.
Proof.
  intros [Hc Hh He Hsa Hsp] Hg Hfree Hc1 Hv1 Ho1 Ha1 Hp1 Hh1 Hin1.
  pose proof (co_areas _ _ Hc) as Ha. pose proof (area_start _ _ _ Ha Hg) as Hk.
  pose proof (area_wf _ _ _ Ha Hg) as Hw.
  destruct (put_vma_spec has_cache s1 t Hc1 Hw) as (Hc2 & (R1 & R2 & R3 & R4) & Hv2).
  { intros v Hv. rewrite Hv1, (covered_remove _ k t) by done. tauto. }
  rewrite adopt_id in Hv2 by (intros o Ho; eapply (co_owner _ _ Hc); [done|congruence]).
  assert (Hvm : vmas (put_vma has_cache s1 t) = vmas s).
  { rewrite Hv2, Hv1, Hk. apply bt_ext; [apply bt_wf_insert, bt_wf_remove, Ha|apply Ha|].
    intros k'. rewrite bt_get_insert, bt_get_remove by (try apply bt_wf_remove; apply Ha).
    destruct (Z.eqb_spec k' k); congruence. }
  destruct (release_holes cfg (put_vma has_cache s1 t) x y) as (s2 & Hr & Hs2 & Hh2 & Hin2);
    [by rewrite R1|].
  exists s2. split; [done|]. assert (vmas s2 = vmas s) as E by (rewrite Hs2; done).
  split; [|done]. split; rewrite ?E; try done.
  - rewrite Hs2. destruct Hc2. split; done.
  - intros v Hv. rewrite Hin2, R1, Hin1, (He v Hv).
    destruct (decide (x <= v < y)) as [Hxy|]; [specialize (Hfree v Hxy); tauto|tauto].
  - rewrite Hs2; simpl. congruence.
  - rewrite Hs2; simpl. congruence.
Qed.
(** The extended stack area goes back into the set. *)
Lemma grow_commit s s1 k t fv : inv s -> bt_get k (vmas s) = Some t -> 0 <= fv < k ->
  vm_is_user t = true -> map_file t = None -> (forall v, fv <= v < k -> ~ covered (vmas s) v) ->
  core_ok has_cache s1 -> vmas s1 = bt_remove k (vmas s) -> owner s1 = owner s ->
  user_area_count s1 = user_area_count s -> user_page_count s1 = user_page_count s ->
  holes_ok (arena_lo cfg) (arena_hi cfg) (mmap_holes s1) ->
  (forall v, in_hole (mmap_holes s1) v <-> in_hole (mmap_holes s) v /\ ~ (fv <= v < k)) ->
  exists t', expand_down_to t (va_from_vpn fv) = (t', Ok ()) /\ vm_start t' = fv /\
    vm_is_user t' = true /\
    let s' := put_vma has_cache (set_user_counts s1 (user_area_count s1)
      (saturating_add (user_page_count s1)
         (saturating_sub (area_page_count t') (area_page_count t)))) t' in
    inv s' /\
    (forall v, fv <= v < k -> exists i, view (vmas s') v = Some i /\
       pi_perm i = map_perm t /\ pi_flags i = flags t /\ pi_frame i = None) /\
    (forall v, ~ (fv <= v < k) -> view (vmas s') v = view (vmas s) v).
Proof.
  intros Hi Hg Hfv Eu Ef Hfree Hc1 Hv1 Ho1 Ha1 Hp1 Hh1 Hin1.
  pose proof (co_areas _ _ (si_core _ _ _ Hi)) as Ha.
  pose proof (area_start _ _ _ Ha Hg) as Hk. pose proof (area_wf _ _ _ Ha Hg) as Hw.
  pose proof (vw_nonempty _ Hw) as Hne.
  destruct (expand_down_extends t fv Hw ltac:(lia) ltac:(lia) Ef) as
    (t' & -> & Hex & Hs' & He' & Hfr & Hperm & Hfl).
  pose proof Hex as [Ew _ _ Eu' Eo' Ev'].
  exists t'. split; [done|]. split; [done|]. split; [congruence|]. set (s2 := set_user_counts s1 _ _).
  assert (Hcp : user_page_count s2 = user_page_count s + ((vm_end t' - vm_start t') - (vm_end t - vm_start t))).
  { pose proof (set_inv_counts _ _ _ Hi) as [_ Hb]. unfold s2; simpl.
    rewrite !area_page_count_spec, Hp1 by done. unfold saturating_add, saturating_sub, usize_max, usize_modulus.
    destruct Hw as [[? ? _ _ _ _ _] ? _ _]. unfold vm_start, vm_end in *. lia. }
  destruct (put_vma_spec has_cache s2 t') as (Hc3 & (R1 & R2 & R3 & R4) & Hv3);
    [by destruct Hc1|done| |].
  { intros v Hv. unfold s2; simpl. rewrite Hv1, (covered_remove _ k t) by done.
    intros [Hc Hn]. apply (Hfree v); [lia|done]. }
  rewrite adopt_id in Hv3.
  2: { intros o Ho. rewrite Eo'. eapply (co_owner _ _ (si_core _ _ _ Hi)); [done|].
       unfold s2 in Ho; simpl in Ho. congruence. }
  unfold s2 in Hv3 at 2; simpl in Hv3. rewrite Hv1 in Hv3.
  destruct (extend_area_spec s (put_vma has_cache s2 t') k t t') as [Hi3 Hview]; try done.
  { intros v Hv Hn. apply Hfree. lia. }
  { by rewrite R1. }
  { intros v. rewrite R1. unfold s2; simpl. rewrite Hin1. split; intros [Hih Hn]; (split; [done|lia]). }
  { by rewrite R3. }
  { rewrite R4, Hcp, Eu. done. }
  split_and!; [done|..]; intros v Hv; rewrite Hview.
  - exists (page_view t' v). rewrite (proj2 (vm_contains_spec t' v)) by lia.
    split_and!; try done. apply Hfr. lia.
  - destruct (vm_contains t' v) eqn:E; [|done]. apply vm_contains_spec in E.
    rewrite Ev' by lia. symmetry. eapply view_at; [done|done|lia].
Qed.

(** The area below keeps its distance: the guard tested on the nearest lower
    area holds of all of them. *)
Lemma guard_gap m k fv : areas_ok m ->
  match bt_last_lt k m with
  | Some (_, prev) => (fv <? vm_end prev) || (saturating_sub fv (vm_end prev) <? STACK_GUARD_GAP_PAGES)
  | None => false
  end = false ->
  forall k' a', bt_get k' m = Some a' -> k' < k -> vm_end a' + STACK_GUARD_GAP_PAGES <= fv.
Proof.
  intros Ha Hprev k' a' Hg' Hlt. pose proof (bt_last_lt_spec k _ (ao_wf _ Ha)) as Hll.
  destruct (bt_last_lt k m) as [[pk prev]|]; [|specialize (Hll _ _ Hg'); lia].
  destruct Hll as (Hpg & Hpk & Hmax). specialize (Hmax _ _ Hg' Hlt).
  apply orb_false_iff in Hprev as [E1 E2]. apply Z.ltb_ge in E1, E2. unfold saturating_sub in E2.
  assert (0 < STACK_GUARD_GAP_PAGES) by done.
  destruct (decide (k' = pk)) as [->|]; [assert (a' = prev) as -> by congruence; lia|].
  pose proof (ao_disj _ Ha _ _ _ _ Hg' Hpg ltac:(lia)).
  pose proof (area_start _ _ _ Ha Hpg). pose proof (vw_nonempty _ (area_wf _ _ _ Ha Hpg)). lia.
Qed.

(** What stack growth at [fv] may do. *)
Definition grow_post (s : VmaSet) (fv : Z) (s' : VmaSet) (r : result (option Z) MemoryError) : Prop :=
  match r with
  | Ok None => s' = s
  | Err err => err = BadAddress /\ vmas s' = vmas s
  | Ok (Some st) => st = fv /\ exists k t, bt_get k (vmas s) = Some t /\
      fv < k <= fv + GROWSDOWN_MAX_FAULT_GAP_PAGES /\ vm_is_user t = true /\
      contains (flags t) MAP_GROWSDOWN = true /\
      (forall k' a', bt_get k' (vmas s) = Some a' -> k' < k -> vm_end a' + STACK_GUARD_GAP_PAGES <= fv) /\
      (forall v, fv <= v < k -> view (vmas s) v = None /\ exists i, view (vmas s') v = Some i /\
         pi_perm i = map_perm t /\ pi_flags i = flags t /\ pi_frame i = None) /\
      (forall v, ~ (fv <= v < k) -> view (vmas s') v = view (vmas s) v)
  end.

Lemma growsdown_spec s fv : inv s -> 0 <= fv ->
  exists s' r, expand_growsdown_for_fault cfg has_cache s fv = Some (s', r) /\
    inv s' /\ grow_post s fv s' r.
Proof.
  intros Hi Hfv. pose proof (co_areas _ _ (si_core _ _ _ Hi)) as Ha.
  unfold expand_growsdown_for_fault. pose proof (bt_first_ge_spec fv _ (ao_wf _ Ha)) as Hfg.
  destruct (bt_first_ge fv (vmas s)) as [[k t]|]; [|by exists s, (Ok None)].
  destruct Hfg as (Hg & Hge & Hmin). pose proof (area_start _ _ _ Ha Hg) as Hk.
  pose proof (area_wf _ _ _ Ha Hg) as Hw.
  destruct (Z.leb_spec k fv); simpl; [by exists s, (Ok None)|].
  destruct (vm_is_user t) eqn:Eu; simpl; [|by exists s, (Ok None)].
  destruct (contains (flags t) MAP_GROWSDOWN) eqn:Egd; simpl; [|by exists s, (Ok None)].
  assert (Hkb : 0 <= k < 2 ^ 52).
  { destruct Hw as [[? ? _ _ _ _ _] ? _ _]. unfold vm_start, vm_end in *. lia. }
  rewrite usize_sub_small by (unfold is_usize, usize_modulus; lia).
  destruct (Z.ltb_spec GROWSDOWN_MAX_FAULT_GAP_PAGES (k - fv)); [by exists s, (Ok None)|].
  pose proof (guard_gap (vmas s) k fv Ha) as Hgap.
  destruct (match bt_last_lt k (vmas s) with Some _ => _ | None => false end);
    [by exists s, (Ok None)|].
  pose proof (has_overlap_spec s fv k Ha) as Hov.
  destruct (has_overlap s fv k); [by exists s, (Ok None)|].
  assert (Hfree : forall v, fv <= v < k -> ~ covered (vmas s) v).
  { intros v Hv Hc. assert (false = true) by (apply Hov; eauto). done. }
  destruct (reserve_take s k t fv k Hi Hg) as (s1 & -> & Hc1 & Hv1 & Ho1 & Ha1 & Hp1 & Hh1 & Hin1).
  destruct (map_file t) as [f|] eqn:Ef.
  - rewrite expand_down_file by (done || congruence || lia).
    destruct (undo_reserve s s1 k t fv k) as (s2 & -> & Hi2 & Hv2); try done.
    simpl. exists s2, (Err BadAddress). done.
  - destruct (grow_commit s s1 k t fv) as (t' & -> & Hs' & Hu' & Hi3 & Hnew & Hold); try done.
    rewrite Eu. do 2 eexists. split; [done|]. split; [done|].
    split; [done|]. exists k, t. split_and!; try done; try lia; [by apply Hgap|].
    intros v Hv. split; [|by apply Hnew]. destruct (view (vmas s) v) eqn:E; [|done].
    exfalso. apply (Hfree v Hv). apply view_covered; [done|congruence].
Qed.
End grow.


(** ** Merging a lazy private mapping into the area below it *)

Lemma expand_to_extends a ne : vma_wf a -> map_file a = None -> is_usize ne ->
  vm_end a <= va_ceil ne <= 2 ^ 52 ->
  exists a', expand_to a ne = (a', Ok ()) /\ extends a a' /\ vm_start a' = vm_start a /\
    vm_end a' = va_ceil ne /\ map_file a' = None /\ map_perm a' = map_perm a /\ flags a' = flags a /\
    (forall v, vm_end a <= v -> pi_frame (page_view a' v) = None).
Proof.
  intros Hw Hfile Hne' Hc. pose proof Hw as [Hs Hne [Ho1 Ho2] Han]. unfold expand_to.
  destruct (Z.ltb_spec (va_ceil ne) (vm_end a)); [lia|].
  destruct (set_end_spec (inner a) (va_ceil ne) Hs) as (s' & -> & Hs' & Hr & Hf).
  { unfold vm_end, vm_start in *. lia. }
  exists (set_inner a s'). unfold vm_start, vm_end, ps_start, ps_end in *.
  split_and!; simpl; try done; rewrite ?Hr; simpl; try done.
  - split; simpl; unfold vm_start, vm_end, ps_start, ps_end in *; simpl; rewrite ?Hr; simpl;
      [|lia|lia|done|done|].
    + split; simpl; unfold vm_start, vm_end, ps_start, ps_end; simpl; rewrite ?Hr; simpl; try done; [lia|].
      rewrite (Han Hfile). destruct Hs. unfold PAGE_SIZE, usize_modulus, ps_end, ps_start in *. lia.
    + intros v Hv. unfold page_view, vm_start, ps_start; simpl. rewrite Hr, Hf, Hfile; simpl.
      destruct (Z.leb_spec (range_l (vpn_range (inner a))) v), (Z.ltb_spec v (va_ceil ne)); simpl; done || lia.
  - intros v Hv. rewrite Hf.
    destruct (bt_get v (frames (inner a))) eqn:E; [|by destruct (_ && _)].
    apply (ps_keys _ Hs) in E. unfold ps_end in E. lia.
Qed.

(** Replacing an area that has no reverse-map record by another such area. *)
Lemma core_replace_anon has_cache s s' k t t' : core_ok has_cache s -> bt_get k (vmas s) = Some t ->
  map_file t = None -> map_file t' = None -> user_address_space t' = user_address_space t ->
  vmas s' = bt_insert k t' (vmas s) -> areas_ok (vmas s') ->
  file_rmaps s' = file_rmaps s -> owner s' = owner s -> next_rmap_id s' = next_rmap_id s ->
  i_mmap s' = i_mmap s -> core_ok has_cache s'.
Proof.
  intros [Ha Hr Ho] Hg Hf Hf' Hown Hv Ha' E1 E2 E3 E4.
  assert (Hget : forall k', bt_get k' (vmas s') = if k' =? k then Some t' else bt_get k' (vmas s))
    by (intros k'; rewrite Hv; apply bt_get_insert, Ha).
  assert (Hnone : forall i x, map_file x = None -> rmap_from_vma i x = None).
  { intros i x Hx. unfold rmap_from_vma. destruct (negb _); [done|]. by rewrite Hx. }
  split; [done| |].
  - rewrite E1, E3, E4. destruct Hr as [R1 R2 R3 R4 R5 R6]. split; try done.
    + intros k' r Hk'. destruct (R2 _ _ Hk') as (x & Hx & Hfx). rewrite Hget.
      destruct (Z.eqb_spec k' k) as [->|]; [|eauto]. assert (x = t) as -> by congruence.
      by rewrite Hnone in Hfx.
    + intros k' x. rewrite Hget. destruct (Z.eqb_spec k' k); [|apply R3].
      intros [= <-] Hx. exfalso. apply Hx. by apply Hnone.
  - intros k' x o. rewrite Hget, E2. destruct (k' =? k); [|apply Ho].
    intros [= <-] Hos. rewrite Hown. eauto.
Qed.

Lemma arena_bounds cfg : arch_ok cfg ->
  0 <= arena_lo cfg /\ arena_lo cfg < arena_hi cfg /\ arena_hi cfg < 2 ^ 52.
Proof.
  intros []. unfold arena_lo, arena_hi, va_floor, PAGE_SIZE, usize_modulus in *. div_lia.
Qed.

Section merge.
Context (cfg : arch) (has_cache : Z -> bool).
Context (Hcfg : arch_ok cfg).

Lemma merge_spec s start_va len prot fl :
  set_inv cfg has_cache s -> is_usize start_va -> is_usize len ->
  exists s' r, try_merge_lazy_private_mmap cfg s start_va len prot fl = Some (s', r) /\
    set_inv cfg has_cache s' /\
    match r with
    | Ok None => s' = s
    | Err err => err = EINVAL /\ s' = s /\ usize_max < start_va + len
    | Ok (Some r) => r = start_va /\
        exists t, vm_can_merge_lazy_private t prot fl = true /\ vm_end t = va_floor start_va /\
          bt_get (vm_start t) (vmas s) = Some t /\
          (forall v, va_floor start_va <= v < va_ceil (start_va + len) ->
             view (vmas s) v = None /\ exists i, view (vmas s') v = Some i /\
               pi_perm i = prot /\ pi_frame i = None /\ pi_file i = None) /\
          (forall v, ~ (va_floor start_va <= v < va_ceil (start_va + len)) ->
             view (vmas s') v = view (vmas s) v)
    end.
Proof.
  intros Hi Hsv Hlen. pose proof Hi as [Hc Hh He Hsa Hsp]. pose proof (co_areas _ _ Hc) as Ha.
  unfold try_merge_lazy_private_mmap.
  destruct (checked_add start_va len) as [ne|] eqn:Ene.
  2: { apply checked_add_None in Ene. exists s, (Err EINVAL). done. }
  apply checked_add_Some in Ene as [-> Hne].
  pose proof (is_mmap_range_free_spec cfg s (va_floor start_va) (va_ceil (start_va + len)) Hh) as Hfree.
  destruct (is_mmap_range_free cfg s _ _); [|by exists s, (Ok None)].
  destruct (proj1 Hfree eq_refl) as [Hlt Hholes]. simpl.
  pose proof (bt_last_le_spec (va_floor start_va) _ (ao_wf _ Ha)) as Hl.
  destruct (bt_last_le _ (vmas s)) as [[k t]|]; [|by exists s, (Ok None)].
  destruct Hl as (Hg & Hle & Hmax).
  destruct (Z.eqb_spec (vm_end t) (va_floor start_va)) as [Eend|]; [|by exists s, (Ok None)].
  destruct (vm_can_merge_lazy_private t prot fl) eqn:Em; simpl; [|by exists s, (Ok None)].
  assert (Hfile : map_file t = None /\ prot = map_perm t).
  { unfold vm_can_merge_lazy_private in Em. rewrite !andb_true_iff, Z.eqb_eq in Em.
    destruct Em as ((((((_ & _) & ->) & Hf) & _) & _) & _). by destruct (map_file t). }
  destruct Hfile as [Hfile Hprot]. pose proof (area_wf _ _ _ Ha Hg) as Hw.
  pose proof (area_start _ _ _ Ha Hg) as Hk.
  assert (Hhole_lo : forall v, in_hole (mmap_holes s) v -> arena_lo cfg <= v < arena_hi cfg).
  { intros v (k' & x & Hx & Hv). pose proof (ho_range _ _ _ Hh _ _ Hx). lia. }
  pose proof (arena_bounds cfg Hcfg) as Hab.
  assert (Hun : forall v, va_floor start_va <= v < va_ceil (start_va + len) -> ~ covered (vmas s) v).
  { intros v Hv. apply He; [apply Hhole_lo|]; by apply Hholes. }
  assert (Hcb : va_ceil (start_va + len) <= arena_hi cfg).
  { pose proof (Hhole_lo _ (Hholes (va_ceil (start_va + len) - 1) ltac:(lia))). lia. }
  destruct (expand_to_extends t (start_va + len) Hw Hfile) as
    (t' & -> & Hex & Hs' & He' & Hf' & Hperm & Hfl & Hfr); [word_unfold; lia|lia|].
  pose proof Hex as [Ew _ _ Eu' Eo' Ev'].
  destruct (reserve_holes cfg s (va_floor start_va) (va_ceil (start_va + len)) Hh) as (Hs1 & Hh1 & Hin1).
  set (s1 := reserve_mmap_range cfg s _ _) in *.
  assert (Hv1 : vmas s1 = vmas s) by (by rewrite Hs1).
  set (s3 := if vm_is_user t then _ else _).
  assert (H3 : vmas s3 = bt_insert k t' (vmas s) /\ file_rmaps s3 = file_rmaps s /\ owner s3 = owner s /\
    next_rmap_id s3 = next_rmap_id s /\ i_mmap s3 = i_mmap s /\ mmap_holes s3 = mmap_holes s1 /\
    user_area_count s3 = user_area_count s /\ user_page_count s3 = user_page_count s +
      (if vm_is_user t then (vm_end t' - vm_start t') - (vm_end t - vm_start t) else 0)).
  { pose proof (set_inv_counts _ _ _ Hi) as [_ Hb]. unfold s3. rewrite Hv1.
    assert (Hcnt : user_page_count s1 = user_page_count s) by (by rewrite Hs1).
    assert (Hrest : file_rmaps s1 = file_rmaps s /\ owner s1 = owner s /\ next_rmap_id s1 = next_rmap_id s /\
      i_mmap s1 = i_mmap s /\ user_area_count s1 = user_area_count s) by (by rewrite Hs1).
    destruct (vm_is_user t); simpl; split_and!; try done; try apply Hrest; [|rewrite Hcnt; lia].
    rewrite !area_page_count_spec, Hcnt by done. unfold saturating_add, saturating_sub, usize_max, usize_modulus.
    destruct Hw as [[? ? _ _ _ _ _] ? _ _]. unfold vm_start, vm_end in *. lia. }
  clearbody s3. destruct H3 as (V3 & F3 & O3 & N3 & I3 & M3 & A3 & P3).
  assert (Vm : vmas s3 = bt_insert (vm_start t') t' (bt_remove k (vmas s))).
  { rewrite V3, Hs', Hk. apply bt_ext; [apply bt_wf_insert, Ha|apply bt_wf_insert, bt_wf_remove, Ha|].
    intros k'. rewrite !bt_get_insert, bt_get_remove by (try apply bt_wf_remove; apply Ha).
    by destruct (k' =? k). }
  assert (Hnew : forall v, vm_start t' <= v < vm_end t' -> ~ (vm_start t <= v < vm_end t) -> ~ covered (vmas s) v)
    by (intros v Hv Hn; apply Hun; lia).
  assert (Ha3 : areas_ok (vmas s3)).
  { rewrite Vm. apply areas_ok_insert; [by apply areas_ok_remove|done|].
    intros v Hv. rewrite (covered_remove _ k t) by done. intros [Hcov Hnt]. by eapply Hnew. }
  destruct (extend_area_spec cfg has_cache s s3 k t t') as [Hi3 Hview]; try done.
  { by eapply core_replace_anon. }
  { by rewrite M3. }
  { intros v. rewrite M3, Hin1. pose proof (vw_nonempty _ Hw). split; intros [? ?]; (split; [done|lia]). }
  exists s3, (Ok (Some start_va)). split; [done|]. split; [done|]. split; [done|].
  exists t. rewrite Hk. split_and!; try done.
  - intros v Hv. split.
    + destruct (view (vmas s) v) eqn:E; [|done]. exfalso. apply (Hun v Hv).
      apply view_covered; [done|congruence].
    + exists (page_view t' v). rewrite Hview, (proj2 (vm_contains_spec t' v)) by
        (pose proof (vw_nonempty _ Hw); lia). split_and!; try done; simpl; [congruence|apply Hfr; lia|by rewrite Hf'].
  - intros v Hv. rewrite Hview. destruct (vm_contains t' v) eqn:E; [|done].
    apply vm_contains_spec in E. rewrite Ev' by lia. symmetry. eapply view_at; [done|done|lia].
Qed.
End merge.

(** ** The run-time check *)

(** [check_invariants], the assertion the debug build runs after every
    operation; [prev] is the end of the previous entry. *)
Fixpoint check_vmas (prev : option Z) (m : btree Vma) : bool :=
  match m with
  | [] => true
  | (key, area) :: m =>
      (key =? vm_start area) && (vm_start area <? vm_end area)
      && (match prev with Some prev_end => prev_end <=? vm_start area | None => true end)
      && check_vmas (Some (vm_end area)) m
  end.

Fixpoint check_holes (cfg : arch) (areas : list Vma) (prev : option Z) (h : btree Z) : bool :=
  match h with
  | [] => true
  | (hole_start, hole_end) :: h =>
      (hole_start <? hole_end)
      && (arena_lo cfg <=? hole_start) && (hole_end <=? arena_hi cfg)
      && (match prev with Some prev_end => prev_end <? hole_start | None => true end)
      && forallb (fun area => negb (vm_overlaps area hole_start hole_end)) areas
      && check_holes cfg areas (Some hole_end) h
  end.

Definition check_invariants (cfg : arch) (s : VmaSet) : bool :=
  let users := filter (fun a => vm_is_user a = true) (bt_values (vmas s)) in
  check_vmas None (vmas s)
  && check_holes cfg (bt_values (vmas s)) None (mmap_holes s)
  && (user_area_count s =? Z.of_nat (length users))
  && (user_page_count s =? fold_left (fun acc pages => saturating_add acc pages)
                             (area_page_count <$> users) 0).

Lemma areas_ok_tail k a m : areas_ok ((k, a) :: m) -> areas_ok m.
Proof.
  intros [W A D]. pose proof W as W'. apply bt_wf_cons in W' as [W' _].
  assert (Hget : forall k' a', bt_get k' m = Some a' -> bt_get k' ((k, a) :: m) = Some a').
  { intros k' a' H'. apply bt_elem_get; [done|]. right. by apply bt_get_elem. }
  split; [done|..]; intros; eauto.
Qed.

Lemma areas_ok_head k a m : areas_ok ((k, a) :: m) ->
  vm_start a = k /\ vma_wf a /\ forall k' a', bt_get k' m = Some a' -> vm_end a <= k'.
Proof.
  intros Hm. assert (Hg : bt_get k ((k, a) :: m) = Some a) by (simpl; by rewrite Z.eqb_refl).
  split_and!; [by eapply area_start|by eapply area_wf|]. intros k' a' H'.
  pose proof (ao_wf _ Hm) as W. apply bt_wf_cons in W as [W Hlt].
  pose proof (bt_get_elem _ _ _ H') as Hin. specialize (Hlt _ _ Hin).
  apply (ao_disj _ Hm k a k' a' Hg); [|done]. apply bt_elem_get; [apply Hm|by right].
Qed.

Lemma check_vmas_ok m : forall prev, areas_ok m ->
  (forall p k a, prev = Some p -> bt_get k m = Some a -> p <= k) -> check_vmas prev m = true.
Proof.
  induction m as [|[k a] m IH]; intros prev Hm Hp; simpl; [done|].
  destruct (areas_ok_head _ _ _ Hm) as (Hk & Hw & Hlt). pose proof (vw_nonempty _ Hw).
  assert (Hg : bt_get k ((k, a) :: m) = Some a) by (simpl; by rewrite Z.eqb_refl).
  rewrite !andb_true_iff, Z.eqb_eq, Z.ltb_lt. split_and!; [lia|lia| |].
  - destruct prev as [p|]; [|done]. apply Z.leb_le. rewrite Hk. eapply Hp; eauto.
  - apply IH; [by eapply areas_ok_tail|]. intros p k' a' [= <-] Hg'. eauto.
Qed.

Lemma check_holes_ok cfg areas h : forall prev, holes_ok (arena_lo cfg) (arena_hi cfg) h ->
  (forall a, a ∈ areas -> forall k x, bt_get k h = Some x -> vm_overlaps a k x = false) ->
  (forall p k x, prev = Some p -> bt_get k h = Some x -> p < k) -> check_holes cfg areas prev h = true.
Proof.
  induction h as [|[k x] h IH]; intros prev Hh Ho Hp; simpl; [done|].
  assert (Hg : bt_get k ((k, x) :: h) = Some x) by (simpl; by rewrite Z.eqb_refl).
  pose proof Hh as [W R M]. pose proof (R _ _ Hg). pose proof W as W0. apply bt_wf_cons in W as [W Hlt].
  assert (Hget : forall k' x', bt_get k' h = Some x' -> bt_get k' ((k, x) :: h) = Some x').
  { intros k' a' H'. apply bt_elem_get; [done|]. right. by apply bt_get_elem. }
  rewrite !andb_true_iff, Z.ltb_lt, !Z.leb_le, forallb_forall. split_and!; try lia.
  - destruct prev as [p|]; [|done]. apply Z.ltb_lt. by eapply Hp.
  - intros a Hin. apply negb_true_iff. apply Ho; [by apply list_elem_of_In|done].
  - apply IH.
    + split; [done|..]; intros; eauto.
    + intros a Ha k' x' H'. apply Ho; eauto.
    + intros p k' x' [= <-] H'. apply (M k x k' x'); eauto.
      apply bt_get_elem in H'. eauto.
Qed.

Lemma user_counts_ok m : areas_ok m ->
  bt_sum user_area m = Z.of_nat (length (filter (fun a => vm_is_user a = true) (bt_values m))) /\
  forall acc, 0 <= acc -> acc + bt_sum user_pages m <= usize_max ->
  fold_left (fun acc pages => saturating_add acc pages)
    (area_page_count <$> filter (fun a => vm_is_user a = true) (bt_values m)) acc
  = acc + bt_sum user_pages m.
Proof.
  induction m as [|[k a] m IH]; intros Hm; simpl; [split; [done|intros; lia]|].
  destruct (areas_ok_head _ _ _ Hm) as (Hk & Hw & _). pose proof (areas_ok_tail _ _ _ Hm) as Hm'.
  destruct (IH Hm') as [IH1 IH2]. pose proof (vw_nonempty _ Hw).
  assert (0 <= bt_sum user_pages m).
  { destruct (pages_bound m 0 Hm') as [? _]; [|lia|lia]. intros k' a' H'.
    destruct (ao_area _ Hm' _ _ H') as [<- [[? _ _ _ _ _ _] _ _ _]]. unfold vm_start. lia. }
  rewrite filter_cons. fold (bt_values m).
  assert (user_area a = if vm_is_user a then 1 else 0) as -> by done.
  assert (user_pages a = if vm_is_user a then vm_end a - vm_start a else 0) as -> by done.
  destruct (vm_is_user a) eqn:Eu.
  - rewrite decide_True by done. simpl. rewrite IH1. split; [lia|]. intros acc Ha Hb.
    rewrite area_page_count_spec by done. unfold saturating_add at 2. rewrite Z.min_l by lia.
    rewrite IH2 by lia. lia.
  - rewrite decide_False by done. rewrite IH1. split; [lia|]. intros acc Ha Hb. rewrite IH2 by lia. lia.
Qed.

Lemma check_invariants_ok cfg has_cache s : arch_ok cfg -> set_inv cfg has_cache s ->
  check_invariants cfg s = true.
Proof.
  intros Hcfg Hi. pose proof (set_inv_counts _ _ _ Hi) as Hb. destruct Hi as [Hc Hh He Hsa Hsp].
  pose proof (co_areas _ _ Hc) as Ha. destruct (user_counts_ok _ Ha) as [U1 U2].
  unfold check_invariants. rewrite !andb_true_iff, !Z.eqb_eq. split_and!.
  - by apply check_vmas_ok.
  - apply check_holes_ok; [done| |done]. intros a Hin k x Hx.
    unfold bt_values in Hin. apply list_elem_of_fmap in Hin as ([k' a'] & -> & Hin). simpl.
    apply bt_get_iff in Hin; [|apply Ha]. pose proof (ho_range _ _ _ Hh _ _ Hx).
    destruct (vm_overlaps a' k x) eqn:E; [|done]. apply vm_overlaps_spec in E.
    pose proof (vw_nonempty _ (area_wf _ _ _ Ha Hin)). exfalso.
    apply (proj1 (He (Z.max k (vm_start a')) ltac:(lia))).
    + exists k, x. split; [done|lia].
    + exists k', a'. split; [done|lia].
  - congruence.
  - rewrite U2; [lia|lia|]. rewrite <- Hsp. unfold usize_max, usize_modulus. lia.
Qed.
