(* ===== verification/VmaHistory.v ===== *)
(** Histories of one address space: every sequence of [VmaSet] operations
    starting from the empty set keeps the set, the mmap arena, the counters and
    the page table in agreement ([os/src/mm/vma_set.rs]).

    [page_tracked] is what the operations rely on between them: a present PTE
    belongs to an area, and names the frame the area's store holds. *)

From stdpp Require Import base numbers option gmap list.
From S2P Require Import Prelude BTree Addr PageStore Mapper Vma VmaSet VmaHoles VmaSetInv VmaSetOps VmaSetSeq.

Definition page_tracked {PT} `{PageTable PT} (m : btree Vma) (e : Env PT) : Prop :=
  forall v p f, env_pte e v = Some (p, f) ->
    exists i, view m v = Some i /\ pi_frame i = Some (InMemory p).

Lemma page_tracked_consistent {PT} `{PageTable PT} m (e : Env PT) :
  page_tracked m e -> consistent m e.
Proof. intros Ht v i p f Hi Hp. destruct (Ht v p f Hp) as (j & Hj & Hf). congruence. Qed.

Lemma set_new_inv cfg has_cache : arch_ok cfg -> set_inv cfg has_cache (set_new cfg).
Proof.
  intros Hcfg. pose proof (arena_bounds cfg Hcfg) as [? [? _]]. unfold set_new, mmap_bounds.
  split; simpl; try done.
  - split; simpl; try done.
    + split; [constructor|done..].
    + split; try done; [constructor|]. intros id. split; [by intros ?%elem_of_nil|].
      intros (k & r & ? & _). done.
  - by apply holes_ok_singleton.
  - intros v Hv. split; [|intros _; exists (arena_lo cfg), (arena_hi cfg); simpl; by rewrite Z.eqb_refl].
    intros _ (k & a & ? & _). done.
Qed.

Section history.
Context {PT : Type} `{PageTableLaws PT}.
Context (reserve : MmuGather -> bool) (Hreserve : forall g, reserve g = true).
Context (cfg : arch) (Hcfg : arch_ok cfg) (max_map_count : Z) (has_cache : Z -> bool).
Abbreviation inv := (set_inv cfg has_cache).

(** The operations the address space performs on its set under the VM lock. *)
Inductive vma_op :=
  | OInsert (a : Vma)
  | OUnmap (start stop : Z) (allow_empty : bool)
  | OProtect (start stop prot : Z)
  | OGrowDown (fault_vpn : Z)
  | OMerge (start_va len prot fl : Z)
  | ORemoveArea (start : Z).

(** What the callers guarantee: a well-formed new area, a non-empty page range,
    a user protection, machine-width addresses. *)
Definition op_ok (o : vma_op) : Prop :=
  match o with
  | OInsert a => vma_wf a
  | OUnmap x y _ => x < y
  | OProtect _ _ prot => contains prot perm_U = true
  | OGrowDown fv => 0 <= fv
  | OMerge start_va len _ _ => is_usize start_va /\ is_usize len
  | ORemoveArea _ => True
  end.

(** Errors are reported to the caller and leave the address space usable;
    [None] is a panic. *)
Definition run_op (s : VmaSet) (e : Env PT) (o : vma_op) : option (VmaSet * Env PT) :=
  match o with
  | OInsert a => Some (fst (insert_vma cfg max_map_count has_cache s a), e)
  | OUnmap x y allow =>
      '(s, e, _) ← unmap_range reserve cfg max_map_count has_cache s e x y allow; Some (s, e)
  | OProtect x y prot => Some (fst (protect_range max_map_count has_cache s e x y prot))
  | OGrowDown fv => '(s, _) ← expand_growsdown_for_fault cfg has_cache s fv; Some (s, e)
  | OMerge start_va len prot fl =>
      '(s, _) ← try_merge_lazy_private_mmap cfg s start_va len prot fl; Some (s, e)
  | ORemoveArea k =>
      '(s, e, _) ← remove_area_with_start reserve cfg has_cache s e k; Some (s, e)
  end.

Fixpoint run_ops (s : VmaSet) (e : Env PT) (l : list vma_op) : option (VmaSet * Env PT) :=
  match l with
  | [] => Some (s, e)
  | o :: l => '(s, e) ← run_op s e o; run_ops s e l
  end.

Lemma tracked_kept s s' (e : Env PT) : page_tracked (vmas s) e ->
  (forall v, view (vmas s) v <> None -> view (vmas s') v = view (vmas s) v) ->
  page_tracked (vmas s') e.
Proof.
  intros Ht Hk v p f Hp. destruct (Ht v p f Hp) as (i & Hi & Hf). exists i.
  rewrite Hk; [done|congruence].
Qed.

Lemma tracked_unmapped a b s e s' e' : unmap_post cfg has_cache a b s e s' e' ->
  page_tracked (vmas s) e -> page_tracked (vmas s') e'.
Proof.
  intros [_ _ _ _ Out In] Ht v p f Hp. destruct (decide (a <= v < b)) as [Hv|Hv].
  - destruct (In v Hv) as [[-> E]|(_ & _ & E & _)]; [|congruence]. rewrite E in Hp. eauto.
  - destruct (Out v Hv) as [-> E]. rewrite E in Hp. eauto.
Qed.

Lemma tracked_protected a b prot s e s' e' : protect_post cfg has_cache a b prot s e s' e' ->
  page_tracked (vmas s) e -> page_tracked (vmas s') e'.
Proof.
  intros [_ _ Out In] Ht v p f Hp. destruct (decide (a <= v < b)) as [Hv|Hv].
  - destruct (In v Hv) as [[-> E]|(i & Hi & -> & E)]; [rewrite E in Hp; eauto|].
    exists (with_perm i prot). split; [done|]. simpl.
    assert (exists f', env_pte e v = Some (p, f')) as [f' Hp'].
    { rewrite E in Hp. destruct (resident_page i); [|by eauto].
      destruct (env_pte e v) as [[q g]|]; [|done]. simpl in Hp. injection Hp as -> _. eauto. }
    destruct (Ht v p f' Hp') as (j & Hj & Hf). congruence.
  - destruct (Out v Hv) as [-> E]. rewrite E in Hp. eauto.
Qed.

Lemma remove_area_spec s (e : Env PT) k : inv s -> page_tracked (vmas s) e ->
  exists s' e' r, remove_area_with_start reserve cfg has_cache s e k = Some (s', e', r) /\
    inv s' /\ page_tracked (vmas s') e'.
Proof.
  intros Hi Ht. unfold remove_area_with_start, bt_contains.
  destruct (bt_get k (vmas s)) as [a|] eqn:Hg; simpl; [|by do 3 eexists].
  destruct (drop_area_spec cfg has_cache s k a Hi Hg) as (s1 & s2 & -> & Hrel & Hi2 & Ho & Hv).
  destruct (unmap_area_spec reserve Hreserve cfg has_cache s e k a s2 Hi
    (page_tracked_consistent _ _ Ht) Hg Hi2 Ho Hv) as (t & e' & -> & Hpost).
  simpl. rewrite Hrel. simpl. do 3 eexists. split; [done|]. split; [done|].
  by eapply tracked_unmapped.
Qed.

(** One operation. *)
Lemma run_op_spec s (e : Env PT) o : inv s -> page_tracked (vmas s) e -> op_ok o ->
  exists s' e', run_op s e o = Some (s', e') /\ inv s' /\ page_tracked (vmas s') e'.
Proof.
  intros Hi Ht Hok. destruct o as [a|x y allow|x y prot|fv|sv len prot fl|k]; simpl in *.
  - pose proof (insert_vma_spec cfg max_map_count has_cache s a Hi Hok) as Hs.
    destruct (insert_vma _ _ _ s a) as [s' [u|err]]; simpl; exists s', e; split; try done.
    + destruct Hs as (Hi' & _ & Hn & Hv). split; [done|]. eapply tracked_kept; [done|].
      intros v Hne. rewrite Hv. destruct (vm_contains a v) eqn:E; [|done]. exfalso.
      apply vm_contains_spec in E. apply (Hn v E), view_covered; [apply Hi|done].
    + destruct Hs as [-> _]. done.
  - unfold unmap_range. destruct (unmap_loop_spec reserve Hreserve cfg max_map_count has_cache x y Hok
      (S (Z.to_nat (y - x))) s e x false Hi (page_tracked_consistent _ _ Ht))
      as (s' & e' & r & -> & Hpost & _); [lia|intros; lia|lia|]. simpl.
    exists s', e'. split; [done|]. split; [apply Hpost|by eapply tracked_unmapped].
  - unfold protect_range. destruct (protect_check _ s x y prot) as [[]|] eqn:Hchk; simpl; [|by eauto].
    pose proof (proj1 (protect_check_spec s prot y (Z.to_nat (y - x))
      (co_areas _ _ (si_core _ _ _ Hi)) x ltac:(lia)) Hchk) as Hall.
    destruct (protect_apply_spec cfg max_map_count has_cache prot y Hok (Z.to_nat (y - x)) s e x Hi)
      as (s' & e' & r & -> & Hpost & _); [lia| |].
    { intros v Hv. destruct (Hall v Hv) as (i & ? & ? & _). eauto. }
    simpl. exists s', e'. split; [done|]. split; [apply Hpost|by eapply tracked_protected].
  - destruct (growsdown_spec cfg has_cache s fv Hi Hok) as (s' & r & -> & Hi' & Hr). simpl.
    exists s', e. split; [done|]. split; [done|]. eapply tracked_kept; [done|]. intros v Hne.
    destruct r as [[st|]|err]; simpl in Hr; [|by rewrite Hr|by destruct Hr as [_ ->]].
    destruct Hr as (-> & k & t & _ & _ & _ & _ & _ & Hnew & Hold).
    apply Hold. intros Hv. by destruct (Hnew v Hv).
  - destruct (merge_spec cfg has_cache Hcfg s sv len prot fl Hi) as (s' & r & -> & Hi' & Hr); [apply Hok..|].
    simpl. exists s', e. split; [done|]. split; [done|]. eapply tracked_kept; [done|]. intros v Hne.
    destruct r as [[st|]|err]; [|by rewrite Hr|by destruct Hr as (_ & -> & _)].
    destruct Hr as (_ & t & _ & _ & _ & Hnew & Hold). apply Hold. intros Hv. by destruct (Hnew v Hv).
  - destruct (remove_area_spec s e k Hi Ht) as (s' & e' & r & -> & ? & ?). simpl. eauto.
Qed.

Lemma run_ops_spec l : forall s (e : Env PT), inv s -> page_tracked (vmas s) e -> Forall op_ok l ->
  exists s' e', run_ops s e l = Some (s', e') /\ inv s' /\ page_tracked (vmas s') e'.
Proof.
  induction l as [|o l IH]; intros s e Hi Ht Hl; simpl; [by eauto|].
  inversion Hl as [|? ? Ho Hl']; subst.
  destruct (run_op_spec s e o Hi Ht Ho) as (s' & e' & -> & Hi' & Ht'). simpl. by apply IH.
Qed.
End history.


(** A run of pages each of which is [P] or [Q]. *)
Lemma all_or_exists (P Q : Z -> Prop) n : forall p,
  (forall v, p <= v < p + Z.of_nat n -> P v \/ Q v) ->
  (forall v, p <= v < p + Z.of_nat n -> P v) \/ exists v, p <= v < p + Z.of_nat n /\ Q v.
Proof.
  induction n as [|n IH]; intros p Hall; [left; intros; lia|].
  destruct (Hall p ltac:(lia)) as [Hh0|Hc0]; [|right; exists p; split; [lia|done]].
  destruct (IH (p + 1)) as [Hl|(v & Hv & Hcv)].
  - intros v Hv. apply Hall. lia.
  - left. intros v Hv. destruct (decide (v = p)) as [->|]; [done|]. apply Hl. lia.
  - right. exists v. split; [lia|done].
Qed.

(** C37: the address chosen for an [mmap] without a fixed address.  On success
    it is page aligned, lies in the mmap arena, and an area placed there is
    accepted unless the map-count limit is reached; an error means that the
    arena has no free run of that many pages. *)
Theorem free_range_insertable cfg max_map_count has_cache s len align :
  arch_ok cfg -> set_inv cfg has_cache s -> 0 < len -> mmap_end cfg + len <= usize_max ->
  align <= PAGE_SIZE ->
  match find_free_mmap_range s len align with
  | Ok addr => addr mod PAGE_SIZE = 0 /\ mmap_base cfg <= addr /\ addr + len <= mmap_end cfg /\
      forall a, vma_wf a -> vm_start a = va_floor addr -> vm_end a = va_ceil (addr + len) ->
      snd (insert_vma cfg max_map_count has_cache s a) = Ok () \/
      snd (insert_vma cfg max_map_count has_cache s a) = Err ENOMEM
  | Err err => err = ENOMEM /\
      forall p, arena_lo cfg <= p -> p + va_ceil len <= arena_hi cfg ->
      exists v, p <= v < p + va_ceil len /\ covered (vmas s) v
  end.
Proof.
  intros Hcfg Hi Hlen Hb Hal. pose proof (arena_bounds cfg Hcfg) as (B1 & B2 & B3).
  assert (Hlo : mmap_base cfg = arena_lo cfg * PAGE_SIZE /\ mmap_end cfg = arena_hi cfg * PAGE_SIZE).
  { destruct Hcfg. unfold arena_lo, arena_hi, va_floor, PAGE_SIZE in *. div_lia. }
  destruct Hlo as [Elo Ehi]. assert (0 <= mmap_end cfg) by (unfold PAGE_SIZE in *; lia).
  pose proof Hi as [Hc Hh He _ _].
  pose proof (find_free_spec cfg s len align Hh ltac:(lia) B3 Hlen ltac:(lia) Hal) as Hf.
  assert (Har : forall v, in_hole (mmap_holes s) v -> arena_lo cfg <= v < arena_hi cfg).
  { intros v (k & x & Hx & Hv). pose proof (ho_range _ _ _ Hh _ _ Hx). lia. }
  destruct (find_free_mmap_range s len align) as [addr|err].
  - destruct Hf as (F1 & F2 & F3 & F4).
    assert (Hin : forall v, va_floor addr <= v < va_ceil (addr + len) -> ~ covered (vmas s) v).
    { intros v Hv. specialize (F4 v Hv). apply He; [by apply Har|done]. }
    split_and!; [done| |lia|].
    + destruct (Har (va_floor addr)) as [Hlow _]; [|unfold va_floor, PAGE_SIZE in *; div_lia].
      apply F4. split; [lia|]. rewrite va_ceil_spec by (unfold is_usize, usize_max in *; lia).
      unfold va_floor, PAGE_SIZE. div_lia.
    + intros a Hw Hs Hst. pose proof (insert_vma_spec cfg max_map_count has_cache s a Hi Hw) as Hins.
      unfold insert_vma in *. destruct (Z.leb_spec (vm_end a) (vm_start a)).
      { pose proof (vw_nonempty _ Hw). lia. }
      pose proof (has_overlap_spec s (vm_start a) (vm_end a) (co_areas _ _ Hc)) as Ho.
      destruct (has_overlap s _ _).
      { destruct (proj1 Ho eq_refl) as (v & Hv & Hcov). exfalso. rewrite Hs, Hst in Hv. by apply (Hin v). }
      unfold ensure_can_add in *. destruct (checked_add _ _); [|by right].
      destruct (_ <? _); [by right|]. left. by destruct (vm_is_user a).
  - destruct Hf as [-> Hno]. split; [done|]. intros p Hp1 Hp2.
    assert (Hn : 0 <= va_ceil len).
    { rewrite va_ceil_spec by (unfold is_usize, usize_max in *; lia). unfold PAGE_SIZE. div_lia. }
    pose proof (all_or_exists (in_hole (mmap_holes s)) (covered (vmas s)) (Z.to_nat (va_ceil len)) p) as Hdec.
    rewrite Z2Nat.id in Hdec by done.
    destruct Hdec as [Hall|?]; [|by destruct (Hno p Hall)|done].
    intros v Hv. destruct (area_at (vmas s) v) as [a|] eqn:Ea.
    + right. apply view_covered; [apply Hc|]. unfold view. by rewrite Ea.
    + left. apply He; [lia|]. rewrite view_covered by apply Hc. unfold view. rewrite Ea. by intros [].
Qed.

(** Extending the preceding lazy private mapping instead of creating an
    area.  When it happens, the area below ends where the new range starts and
    has the same protection, the new pages were free and become empty anonymous
    pages with that protection, and no other page changes; otherwise the set is
    left alone.  It fails only when the end of the range overflows. *)
Theorem merge_correct cfg has_cache s start_va len prot fl :
  arch_ok cfg -> set_inv cfg has_cache s -> is_usize start_va -> is_usize len ->
  exists s' r, try_merge_lazy_private_mmap cfg s start_va len prot fl = Some (s', r) /\
    set_inv cfg has_cache s' /\
    match r with
    | Ok None => s' = s
    | Err err => err = EINVAL /\ s' = s /\ usize_max < start_va + len
    | Ok (Some r) => r = start_va /\
        exists t, vm_can_merge_lazy_private t prot fl = true /\ vm_end t = va_floor start_va /\
          bt_get (vm_start t) (vmas s) = Some t /\
          (forall v, va_floor start_va <= v < va_ceil (start_va + len) ->
             view (vmas s) v = None /\ exists i, view (vmas s') v = Some i /\
               pi_perm i = prot /\ pi_frame i = None /\ pi_file i = None) /\
          (forall v, ~ (va_floor start_va <= v < va_ceil (start_va + len)) ->
             view (vmas s') v = view (vmas s) v)
    end.
Proof. intros Hcfg. by apply merge_spec. Qed.

(** ** A concrete address space

    A grow-down private area of four pages at the bottom of the RISC-V mmap
    arena, with its second page resident in frame 7. *)

Definition demo_env : Env (gmap Z (Z * Z)) := mkEnv (mkMapper ∅ gather_new [] true 0) [].

Definition demo_flags : Z := Z.lor MAP_PRIVATE (Z.lor MAP_ANONYMOUS MAP_GROWSDOWN).
Definition demo_perm : Z := Z.lor perm_R (Z.lor perm_W perm_U).

Definition demo_area0 : Vma :=
  mkVma (ps_try_new (mkRange 0x20000 0x20004)) demo_perm None None 0 true false demo_flags
    false false false None.

Definition demo_faulted : Vma * Env (gmap Z (Z * Z)) :=
  fst (map_one (Some 7) true demo_area0 demo_env 0x20001).
Definition demo_area : Vma := Eval vm_compute in fst demo_faulted.
Definition demo_env1 : Env (gmap Z (Z * Z)) := snd demo_faulted.
Definition demo_set : VmaSet :=
  fst (insert_vma riscv_arch 65530 (fun _ => false) (set_new riscv_arch) demo_area).

Lemma demo_area_wf : vma_wf demo_area.
Proof.
  assert (Hs : ps_wf (inner demo_area)).
  { split; try done; try (repeat constructor; vm_compute; congruence).
    intros k f. simpl. destruct (Z.eqb_spec k 131073) as [->|]; [done|].
    by destruct (k <? 131073). }
  by split.
Qed.

Lemma demo_set_spec : set_inv riscv_arch (fun _ => false) demo_set /\
  forall v, view (vmas demo_set) v = if vm_contains demo_area v then Some (page_view demo_area v) else None.
Proof.
  pose proof (insert_vma_spec riscv_arch 65530 (fun _ => false) (set_new riscv_arch) demo_area
    (set_new_inv _ _ riscv_arch_ok) demo_area_wf) as Hs.
  unfold demo_set. destruct (insert_vma _ _ _ _ _) as [s' r] eqn:E.
  assert (r = Ok ()) as -> by (apply (f_equal snd) in E; vm_compute in E; congruence).
  destruct Hs as (Hi & _ & _ & Hv). split; [done|]. intros v. rewrite Hv. done.
Qed.

Lemma demo_consistent : consistent (vmas demo_set) demo_env1.
Proof.
  intros v i p f. rewrite (proj2 demo_set_spec). destruct (vm_contains demo_area v); [|done].
  intros [= <-]. change (env_pte demo_env1 v) with ((<[131073 := (7, demo_perm)]> ∅ : gmap Z (Z * Z)) !! v).
  rewrite lookup_insert. case_decide as E; [|done]. intros [= <- <-]. by rewrite <- E.
Qed.




Lemma merge_correct_witness : exists s' r,
    try_merge_lazy_private_mmap riscv_arch demo_set 0x20004000 0x2000 demo_perm
      (Z.lor MAP_PRIVATE MAP_ANONYMOUS) = Some (s', r) /\ set_inv riscv_arch (fun _ => false) s'.
Proof.
  destruct (merge_correct riscv_arch (fun _ => false) demo_set 0x20004000 0x2000 demo_perm
    (Z.lor MAP_PRIVATE MAP_ANONYMOUS) riscv_arch_ok (proj1 demo_set_spec) ltac:(done) ltac:(done))
    as (s' & r & Hr & Hi & _).
  by exists s', r.
Defined.

Lemma free_range_insertable_witness : find_free_mmap_range demo_set 0x3000 0 = Ok 0x20004000 /\
  snd (insert_vma riscv_arch 65530 (fun _ => false) demo_set
    (set_inner demo_area0 (ps_try_new (mkRange 0x20004 0x20007)))) <> Err EINVAL.
Proof.
  pose proof (free_range_insertable riscv_arch 65530 (fun _ => false) demo_set 0x3000 0
    riscv_arch_ok (proj1 demo_set_spec) ltac:(done) ltac:(done) ltac:(done)) as Hf.
  assert (find_free_mmap_range demo_set 0x3000 0 = Ok 0x20004000) as E by (vm_compute; reflexivity).
  rewrite E in Hf. split; [done|]. destruct Hf as (_ & _ & _ & Ha).
  destruct (Ha (set_inner demo_area0 (ps_try_new (mkRange 0x20004 0x20007)))) as [-> | ->]; try done.
  split; try done. apply ps_try_new_wf; done.
Defined.

(** A history with a failing insertion, a split, a merge and a stack growth. *)
Definition demo_ops : list vma_op :=
  [OInsert demo_area0; OInsert demo_area0; OProtect 0x20001 0x20002 (Z.lor perm_R perm_U);
   OMerge 0x20004000 0x2000 demo_perm (Z.lor MAP_PRIVATE MAP_ANONYMOUS);
   OGrowDown 0x1fff0; OUnmap 0x20000 0x20003 false; ORemoveArea 0x20003].

