(* ===== verification/Tlb.v ===== *)
(** Cross-CPU TLB synchronisation of one address space: [os/src/mm/tlb.rs], the
    sealing of a change collector ([os/src/mm/mmu_gather.rs]) and the write
    path that drives them ([AddressSpace::write], [os/src/mm/address_space.rs]).

    The code is run as a transition system.  A writer holds the VM lock between
    [begin] and [seal] and changes page-table entries; a CPU that is active on
    the address space may at any moment cache the current entry of a page, and
    keeps what it has cached when it leaves; sealed invalidations run outside
    the lock, concurrently with later writers, one target CPU at a time.  Cached
    translations are those of this address space: the ASID allocator, which
    gives it a tag of its own, is not modelled. *)

From stdpp Require Import base numbers option gmap list.
From S2P Require Import Prelude BTree Addr Mapper.

(** ** [TlbContext] *)

(** [observed] is indexed by CPU. *)
Record TlbContext := mkCtx {
  active_cpus : Z;
  generation : Z;
  observed : Z -> Z;
}.

Definition ctx_new : TlbContext := mkCtx 0 1 (fun _ => 0).

Definition cpu_bit (cpu : Z) : Z := Z.shiftl 1 cpu.

Definition active_cpu_mask (x : TlbContext) : Z := active_cpus x.

Definition cpu_is_current (x : TlbContext) (cpu : Z) : bool := generation x <=? observed x cpu.

Definition mark_cpu_observed (x : TlbContext) (gen cpu : Z) : TlbContext :=
  mkCtx (active_cpus x) (generation x)
    (fun c => if c =? cpu then Z.max (observed x c) gen else observed x c).

(** Register the CPU; the flag says whether it must drop all its cached
    translations first.  The caller holds the VM lock, so [generation] does not
    move between its two loads and the loop runs once. *)
Definition activate_cpu (x : TlbContext) (cpu : Z) : TlbContext * bool :=
  let x := if Z.land (active_cpus x) (cpu_bit cpu) =? 0
           then mkCtx (Z.lor (active_cpus x) (cpu_bit cpu)) (generation x) (observed x) else x in
  if observed x cpu <? generation x
  then (mark_cpu_observed x (generation x) cpu, true) else (x, false).

Definition deactivate_cpu (x : TlbContext) (cpu : Z) : TlbContext :=
  if Z.land (active_cpus x) (cpu_bit cpu) =? 0 then x
  else mkCtx (Z.ldiff (active_cpus x) (cpu_bit cpu)) (generation x) (observed x).

Definition advance_generation (x : TlbContext) : option (TlbContext * Z) :=
  gen ← checked_add (generation x) 1;
  Some (mkCtx (active_cpus x) gen (observed x), gen).

Definition mark_targets_observed (ncpu : nat) (x : TlbContext) (gen targets : Z) : TlbContext :=
  fold_left (fun x n => let cpu := Z.of_nat n in
      if Z.land targets (cpu_bit cpu) =? 0 then x else mark_cpu_observed x gen cpu)
    (seq 0 ncpu) x.

(** ** [TlbFlush] *)

Record TlbFlush := mkFlush {
  fl_generation : Z;
  fl_targets : Z;
  fl_gather : MmuGather;
}.

(** [MmuGather::seal].  [full_asid] is
    [targets_require_full_asid_flush(targets, epoch)].  [None] is a failing
    assertion or the exhausted generation counter. *)
Definition seal (full_asid : bool) (g : MmuGather) (x : TlbContext)
    : option (MmuGather * TlbContext * option TlbFlush) :=
  if bool_decide (g_range g = FlushNone) then
    if bool_decide (retired_frames g = [])
    then Some (mkGather (g_range g) 0 (retired_frames g), x, None) else None
  else
    let targets := active_cpu_mask x in
    if negb (targets =? active_cpus_at_begin g) then None
    else
      let g := if full_asid then set_g_range g FlushFull else g in
      '(x, gen) ← advance_generation x;
      Some (gather_new, x, Some (mkFlush gen targets g)).

(** ** The machine *)

Section machine.
Context {PT : Type} `{PageTable PT}.
Context (ncpu : nat).

Abbreviation entry := (option (Z * Z)).

(** A sealed invalidation and the CPUs that have carried it out. *)
Record flight := mkFlight { fl : TlbFlush; done_cpus : list Z }.

Record machine := mkMachine {
  m_um : UserMapper PT;
  m_open : bool;
  m_ctx : TlbContext;
  m_tlb : Z -> Z -> entry;
  m_flights : list flight;
}.

Definition is_active (m : machine) (cpu : Z) : bool := Z.testbit (active_cpus (m_ctx m)) cpu.

(** The TLB of [cpu] after invalidating the pages of [r]. *)
Definition tlb_flush (t : Z -> Z -> entry) (cpu : Z) (r : FlushRange) : Z -> Z -> entry :=
  fun c v =>
    if c =? cpu then
      match r with
      | FlushNone => t c v
      | FlushPages r => if (range_l r <=? v) && (v <? range_r r) then None else t c v
      | FlushFull => None
      end
    else t c v.

Definition tlb_set (t : Z -> Z -> entry) (cpu vpn : Z) (e : entry) : Z -> Z -> entry :=
  fun c v => if (c =? cpu) && (v =? vpn) then e else t c v.

(** Page-table changes made through the mapper, each followed by what the area
    code does with the frame it removes. *)
Inductive mm_op :=
  | MapPage (vpn ppn flags : Z)
  | UnmapRetire (vpn : Z) (reserve : bool)
  | SetFlags (vpn flags : Z)
  | ReplacePage (vpn ppn : Z) (reserve : bool)
  | BlockWrite (vpn : Z).

(** The emergency path of [retire_frame] invalidates on the executing CPU. *)
Definition local_flush (um : UserMapper PT) (reserve : bool) (t : Z -> Z -> entry) : Z -> Z -> entry :=
  if negb reserve && (active_cpus_at_begin (gather um) =? cpu_bit (cpu_id um))
  then tlb_flush t (cpu_id um) (g_range (gather um)) else t.

Definition retire_from (um : UserMapper PT) (t : Z -> Z -> entry) (reserve : bool) (frame : Z)
    : option (UserMapper PT * (Z -> Z -> entry)) :=
  um' ← um_retire_frame reserve um frame;
  Some (um', local_flush um reserve t).

Definition run_mm_op (um : UserMapper PT) (t : Z -> Z -> entry) (o : mm_op)
    : option (UserMapper PT * (Z -> Z -> entry)) :=
  match o with
  | MapPage vpn ppn flags => Some (fst (map_page um vpn ppn flags), t)
  | UnmapRetire vpn reserve =>
      match translate (page_table um) vpn, unmap_user_page_if_mapped um vpn with
      | Some frame, (um, Ok true) => retire_from um t reserve frame
      | _, (um, _) => Some (um, t)
      end
  | SetFlags vpn flags => Some (fst (set_user_flags um vpn flags), t)
  | ReplacePage vpn ppn reserve =>
      match translate (page_table um) vpn, set_ppn um vpn ppn with
      | Some frame, (um, Ok _) => retire_from um t reserve frame
      | _, (um, _) => Some (um, t)
      end
  | BlockWrite vpn => Some (fst (block_write um vpn), t)
  end.

(** A writer on [cpu] takes the lock. *)
Definition set_cpu (um : UserMapper PT) (g : MmuGather) (cpu : Z) : UserMapper PT :=
  mkMapper (page_table um) g (released um) (fresh_no_flush um) cpu.

(** The invalidation a target performs: the recorded range, or everything when
    the range is [Full] or the precise path is unavailable. *)
Definition target_flush (f : TlbFlush) (full : bool) : FlushRange :=
  if full then FlushFull else g_range (fl_gather f).

Inductive mstep : machine -> machine -> Prop :=
  | ms_begin m cpu g :
      m_open m = false ->
      gather_begin (gather (m_um m)) (active_cpu_mask (m_ctx m)) = Some g ->
      mstep m (mkMachine (set_cpu (m_um m) g cpu) true (m_ctx m) (m_tlb m) (m_flights m))
  | ms_op m o um t :
      m_open m = true -> run_mm_op (m_um m) (m_tlb m) o = Some (um, t) ->
      mstep m (mkMachine um true (m_ctx m) t (m_flights m))
  | ms_seal m full_asid g x f :
      m_open m = true -> seal full_asid (gather (m_um m)) (m_ctx m) = Some (g, x, f) ->
      mstep m (mkMachine (mkMapper (page_table (m_um m)) g (released (m_um m))
                            (fresh_no_flush (m_um m)) (cpu_id (m_um m))) false x (m_tlb m)
                (m_flights m ++ match f with Some f => [mkFlight f []] | None => [] end))
  | ms_activate m cpu x flush :
      m_open m = false -> 0 <= cpu < Z.of_nat ncpu -> activate_cpu (m_ctx m) cpu = (x, flush) ->
      mstep m (mkMachine (m_um m) false x
                (if flush : bool then tlb_flush (m_tlb m) cpu FlushFull else m_tlb m) (m_flights m))
  | ms_deactivate m cpu :
      m_open m = false -> 0 <= cpu < Z.of_nat ncpu ->
      mstep m (mkMachine (m_um m) false (deactivate_cpu (m_ctx m) cpu) (m_tlb m) (m_flights m))
  | ms_fill m cpu vpn e :
      is_active m cpu = true -> pte (page_table (m_um m)) vpn = Some e ->
      mstep m (mkMachine (m_um m) (m_open m) (m_ctx m) (tlb_set (m_tlb m) cpu vpn (Some e)) (m_flights m))
  | ms_evict m cpu vpn :
      mstep m (mkMachine (m_um m) (m_open m) (m_ctx m) (tlb_set (m_tlb m) cpu vpn None) (m_flights m))
  | ms_invalidate m l1 l2 f done cpu full mark :
      m_flights m = l1 ++ mkFlight f done :: l2 -> Z.testbit (fl_targets f) cpu = true ->
      mstep m (mkMachine (m_um m) (m_open m)
                (if mark : bool then mark_cpu_observed (m_ctx m) (fl_generation f) cpu else m_ctx m)
                (tlb_flush (m_tlb m) cpu (target_flush f full))
                (l1 ++ mkFlight f (cpu :: done) :: l2))
  | ms_finish m l1 l2 f done :
      m_flights m = l1 ++ mkFlight f done :: l2 ->
      (forall cpu, Z.testbit (fl_targets f) cpu = true -> cpu ∈ done) ->
      mstep m (mkMachine (m_um m) (m_open m)
                (mark_targets_observed ncpu (m_ctx m) (fl_generation f) (fl_targets f))
                (m_tlb m) (l1 ++ l2)).

(** A fresh address space: nothing cached, nothing recorded, no CPU active. *)
Definition machine_init (t : PT) (fresh : bool) : machine :=
  mkMachine (mkMapper t gather_new [] fresh 0) false ctx_new (fun _ _ => None) [].

(** A frame this address space still holds: mapped, or waiting for an
    invalidation. *)
Definition held (m : machine) (p : Z) : Prop :=
  (exists v f, pte (page_table (m_um m)) v = Some (p, f)) \/
  p ∈ retired_frames (gather (m_um m)) \/
  exists x, x ∈ m_flights m /\ p ∈ retired_frames (fl_gather (fl x)).

(** An invalidation of [v] is recorded or under way. *)
Definition pending (m : machine) (v : Z) : Prop :=
  (m_open m = true /\ covers (g_range (gather (m_um m))) v) \/
  exists x, x ∈ m_flights m /\ covers (g_range (fl_gather (fl x))) v.
End machine.
Arguments machine : clear implicits.

(** ** Masks *)

Lemma cpu_bit_spec c c' : 0 <= c -> Z.testbit (cpu_bit c) c' = (c' =? c).
Proof. intros Hc. unfold cpu_bit. rewrite Z.shiftl_1_l, Z.pow2_bits_eqb by done. apply Z.eqb_sym. Qed.

Lemma cpu_bit_only c c' : Z.testbit (cpu_bit c) c' = true -> c' = c.
Proof.
  destruct (decide (0 <= c)) as [Hc|Hc]; [rewrite cpu_bit_spec, Z.eqb_eq; done|].
  unfold cpu_bit. rewrite Z.shiftl_1_l, Z.pow_neg_r, Z.bits_0 by lia. done.
Qed.

Lemma land_cpu_bit a c : 0 <= c -> (Z.land a (cpu_bit c) =? 0) = negb (Z.testbit a c).
Proof.
  intros Hc. apply eq_bool_prop_intro. rewrite !Is_true_true, Z.eqb_eq, negb_true_iff. split.
  - intros E. apply (f_equal (fun z => Z.testbit z c)) in E.
    rewrite Z.land_spec, cpu_bit_spec, Z.eqb_refl, andb_true_r, Z.bits_0 in E by done. done.
  - intros E. apply Z.bits_inj'. intros n Hn. rewrite Z.land_spec, cpu_bit_spec, Z.bits_0 by done.
    destruct (Z.eqb_spec n c) as [->|]; [by rewrite E|by rewrite andb_false_r].
Qed.

Lemma mark_targets_spec ncpu x gen targets :
  active_cpus (mark_targets_observed ncpu x gen targets) = active_cpus x /\
  generation (mark_targets_observed ncpu x gen targets) = generation x /\
  forall c, observed x c <= observed (mark_targets_observed ncpu x gen targets) c /\
    (observed (mark_targets_observed ncpu x gen targets) c = observed x c \/
     Z.testbit targets c = true /\
     observed (mark_targets_observed ncpu x gen targets) c <= Z.max (observed x c) gen).
Proof.
  unfold mark_targets_observed. generalize (seq 0 ncpu). intros l. revert x.
  induction l as [|n l IH]; intros x; simpl; [split_and!; auto with lia|].
  rewrite land_cpu_bit by lia. destruct (Z.testbit targets (Z.of_nat n)) eqn:E; simpl; [|apply IH].
  destruct (IH (mark_cpu_observed x gen (Z.of_nat n))) as (I1 & I2 & I3). simpl in *.
  split_and!; [done|done|]. intros c. specialize (I3 c). simpl in I3.
  destruct (Z.eqb_spec c (Z.of_nat n)) as [Ec|]; [|done].
  split; [lia|]. right. split; [by rewrite Ec|]. lia.
Qed.

Lemma activate_cpu_spec x cpu x' b : 0 <= cpu -> activate_cpu x cpu = (x', b) ->
  generation x' = generation x /\ b = (observed x cpu <? generation x) /\
  observed x' cpu = Z.max (observed x cpu) (generation x) /\
  forall c, c <> cpu -> Z.testbit (active_cpus x') c = Z.testbit (active_cpus x) c /\
    observed x' c = observed x c.
Proof.
  intros Hcpu. unfold activate_cpu. cbv zeta.
  assert (Ha : exists a, (if Z.land (active_cpus x) (cpu_bit cpu) =? 0
      then mkCtx (Z.lor (active_cpus x) (cpu_bit cpu)) (generation x) (observed x) else x)
      = mkCtx a (generation x) (observed x) /\
    forall c, c <> cpu -> Z.testbit a c = Z.testbit (active_cpus x) c).
  { destruct (_ =? 0); [exists (Z.lor (active_cpus x) (cpu_bit cpu))|exists (active_cpus x)];
      (split; [by destruct x|]); intros c Hc; [|done].
    rewrite Z.lor_spec, cpu_bit_spec, (proj2 (Z.eqb_neq c cpu) Hc), orb_false_r by done. done. }
  destruct Ha as (a & -> & Ha). simpl.
  destruct (Z.ltb_spec (observed x cpu) (generation x)); intros [= <- <-]; simpl;
    rewrite ?Z.eqb_refl; split_and!; try done; try lia; intros c Hc; (split; [by apply Ha|]); [|done].
  by rewrite (proj2 (Z.eqb_neq c cpu) Hc).
Qed.

(** ** The invariant *)

Section proofs.
Context {PT : Type} `{PageTableLaws PT}.
Context (ncpu : nat).
Implicit Types m : machine PT.

Abbreviation m_pte m v := (pte (page_table (m_um m)) v).
Abbreviation m_range m := (g_range (gather (m_um m))).
Abbreviation m_retired m := (retired_frames (gather (m_um m))).

(** [c] is away and will drop everything before it comes back. *)
Definition stale m (c : Z) : Prop :=
  is_active m c = false /\ exists g, g <= generation (m_ctx m) /\ observed (m_ctx m) c < g /\
    forall x, x ∈ m_flights m -> Z.testbit (fl_targets (fl x)) c = true -> fl_generation (fl x) < g.

(** A sealed invalidation of [v] has yet to reach [c]. *)
Definition flying m (c v : Z) (P : flight -> Prop) : Prop :=
  exists x, x ∈ m_flights m /\ covers (g_range (fl_gather (fl x))) v /\
    Z.testbit (fl_targets (fl x)) c = true /\ (c ∉ done_cpus x) /\ P x.

Definition session m (v : Z) : Prop := m_open m = true /\ covers (m_range m) v.

(** Why a cached translation [(p, f)] of [v] on CPU [c] is harmless. *)
Definition entry_ok m (c v p f : Z) : Prop :=
  stale m c \/ (session m v /\ is_active m c = false) \/
  ((m_pte m v = Some (p, f) \/ session m v \/ flying m c v (fun _ => True)) /\
   ((exists f', m_pte m v = Some (p, f')) \/ (session m v /\ p ∈ m_retired m) \/
    flying m c v (fun x => p ∈ retired_frames (fl_gather (fl x))))).

Record minv m : Prop := {
  mi_closed : m_open m = false -> m_range m = FlushNone;
  mi_open : m_open m = true -> active_cpus_at_begin (gather (m_um m)) = active_cpus (m_ctx m);
  mi_none : m_range m = FlushNone -> m_retired m = [];
  mi_obs : forall c, observed (m_ctx m) c <= generation (m_ctx m);
  mi_gen : forall x, x ∈ m_flights m -> fl_generation (fl x) <= generation (m_ctx m);
  mi_entry : forall c v p f, m_tlb m c v = Some (p, f) -> entry_ok m c v p f;
}.

(** What one change under the lock may do. *)
Record op_effect (um um' : UserMapper PT) (t t' : Z -> Z -> option (Z * Z)) : Prop := {
  oe_cpus : active_cpus_at_begin (gather um') = active_cpus_at_begin (gather um);
  oe_mono : forall v, covers (g_range (gather um)) v -> covers (g_range (gather um')) v;
  oe_changed : forall v e, pte (page_table um) v = Some e -> pte (page_table um') v <> Some e ->
    covers (g_range (gather um')) v;
  oe_tlb : forall c v e, t' c v = Some e -> t c v = Some e;
  oe_none : (g_range (gather um) = FlushNone -> retired_frames (gather um) = []) ->
    g_range (gather um') = FlushNone -> retired_frames (gather um') = [];
  oe_retired :
    ((forall p, p ∈ retired_frames (gather um) -> p ∈ retired_frames (gather um')) /\
     (forall v p f, pte (page_table um) v = Some (p, f) ->
        (exists f', pte (page_table um') v = Some (p, f')) \/ p ∈ retired_frames (gather um'))) \/
    (forall c v, Z.testbit (active_cpus_at_begin (gather um)) c = true ->
        covers (g_range (gather um')) v -> t' c v = None);
}.

(** A recorded change of one entry that keeps its frame, or adds one. *)
Lemma effect_recorded um um' t v0 :
  gather um' = record_change (gather um) v0 \/
  (gather um' = gather um /\
   (pte (page_table um) v0 = None \/ pte (page_table um') v0 = pte (page_table um) v0)) ->
  (forall v, v <> v0 -> pte (page_table um') v = pte (page_table um) v) ->
  (forall p f, pte (page_table um) v0 = Some (p, f) -> exists f', pte (page_table um') v0 = Some (p, f')) ->
  op_effect um um' t t.
Proof.
  intros Hg Hother Hkeep. split.
  - destruct Hg as [-> | [-> _]]; [apply record_change_cpus|done].
  - intros v Hv. destruct Hg as [-> | [-> _]]; [by apply record_change_mono|done].
  - intros v e He Hne. destruct (decide (v = v0)) as [->|]; [|by rewrite Hother in Hne].
    destruct Hg as [-> | [_ [E|E]]]; [apply record_change_covers|congruence|]. by rewrite E in Hne.
  - done.
  - intros Hn. destruct Hg as [-> | [-> _]]; [|done]. intros E.
    pose proof (record_change_covers (gather um) v0) as Hc. by rewrite E in Hc.
  - left. split.
    + intros p. destruct Hg as [-> | [-> _]]; [by rewrite record_change_retired|done].
    + intros v p f Hp. left. destruct (decide (v = v0)) as [->|]; [by eapply Hkeep|].
      rewrite Hother by done. eauto.
Qed.

(** Retiring the frame of an entry that has just been replaced or removed. *)
Lemma effect_retire um um1 t reserve v0 p0 f0 um' t' :
  gather um1 = record_change (gather um) v0 ->
  (forall v, v <> v0 -> pte (page_table um1) v = pte (page_table um) v) ->
  pte (page_table um) v0 = Some (p0, f0) ->
  retire_from um1 t reserve p0 = Some (um', t') -> op_effect um um' t t'.
Proof.
  intros Hg Hother Hp0. unfold retire_from, um_retire_frame, retire_frame.
  pose proof (record_change_covers (gather um) v0) as Hcov. rewrite <- Hg in Hcov.
  rewrite bool_decide_eq_false_2 by (by eapply covers_not_none).
  assert (Hcpus : active_cpus_at_begin (gather um1) = active_cpus_at_begin (gather um))
    by (rewrite Hg; apply record_change_cpus).
  assert (Hmono : forall v, covers (g_range (gather um)) v -> covers (g_range (gather um1)) v)
    by (intros v; rewrite Hg; apply record_change_mono).
  assert (Hch : forall v e, pte (page_table um) v = Some e -> pte (page_table um1) v <> Some e ->
    covers (g_range (gather um1)) v).
  { intros v e He Hne. destruct (decide (v = v0)) as [->|]; [done|]. by rewrite Hother in Hne. }
  assert (Hret : retired_frames (gather um1) = retired_frames (gather um))
    by (rewrite Hg; apply record_change_retired).
  assert (Hn : g_range (gather um1) <> FlushNone) by (by eapply covers_not_none).
  destruct reserve; simpl.
  - intros [= <- <-]. split; simpl; try done. rewrite Hret. left. split.
    + intros p Hp. apply elem_of_app. by left.
    + intros v p f Hp. destruct (decide (v = v0)) as [->|].
      * right. apply elem_of_app. right. assert (p = p0) as -> by congruence. by left.
      * left. rewrite Hother by done. eauto.
  - destruct (only_local (gather um1) (cpu_id um1)) eqn:El; [|done]. simpl. intros [= <- <-].
    split; simpl; try done.
    + intros c v e. unfold local_flush; simpl. destruct (_ =? _); [|done]. unfold tlb_flush.
      destruct (c =? cpu_id um1); [|done]. destruct (g_range (gather um1)); [done| |done].
      destruct ((_ <=? _) && _); done.
    + right. intros c v Hc Hv. rewrite <- Hcpus in Hc. unfold only_local in El.
      apply orb_true_iff in El as [E|E]; apply Z.eqb_eq in E.
      { by rewrite E, Z.bits_0 in Hc. }
      unfold local_flush; simpl. unfold cpu_bit. rewrite E, Z.eqb_refl. simpl.
      rewrite E in Hc. apply cpu_bit_only in Hc as ->.
      unfold tlb_flush. rewrite Z.eqb_refl.
      destruct (g_range (gather um1)) as [|r|]; [done| |done]. simpl in Hv.
      destruct (Z.leb_spec (range_l r) v), (Z.ltb_spec v (range_r r)); simpl; done || lia.
Qed.

(** An update reported by [recorded] that keeps the frame of the entry. *)
Lemma effect_recorded_raw um t v0 (r : PT * bool) :
  snd r = is_mapped (page_table um) v0 ->
  (forall v, v <> v0 -> pte (fst r) v = pte (page_table um) v) ->
  (forall p f, pte (page_table um) v0 = Some (p, f) -> exists f', pte (fst r) v0 = Some (p, f')) ->
  op_effect um (fst (recorded um v0 r)) t t.
Proof.
  intros Hs Hother Hkeep. unfold recorded. rewrite Hs, is_mapped_spec.
  destruct (pte (page_table um) v0) as [[p f]|] eqn:E; simpl.
  - apply (effect_recorded _ _ _ v0); simpl; [by left|done|]. intros ? ? E'. rewrite E in E'. by eapply Hkeep.
  - apply (effect_recorded _ _ _ v0); simpl; [by right; split; [|left]|done|]. intros ? ? E'. congruence.
Qed.

Lemma run_mm_op_effect um t o um' t' : run_mm_op um t o = Some (um', t') -> op_effect um um' t t'.
Proof.
  assert (Heqb : forall v v0, v <> v0 -> (v =? v0) = false) by (intros; by apply Z.eqb_neq).
  destruct o as [v0 p0 f0|v0 rs|v0 f0|v0 p0 rs|v0]; simpl.
  - intros [= <- <-]. unfold map_page. pose proof (try_map_spec (page_table um) v0 p0 f0) as Hm.
    destruct (try_map_no_flush _ _ _ _) as [pt [u|err]]; simpl.
    + destruct Hm as [Hn Hm].
      assert (forall v, v <> v0 -> pte pt v = pte (page_table um) v)
        by (intros v Hv; by rewrite Hm, Heqb).
      destruct (fresh_no_flush um); apply (effect_recorded _ _ _ v0); simpl; try done; try (by left);
        try (intros; congruence). right. by split; [|left].
    + apply (effect_recorded _ _ _ v0); simpl; [right; split; [done|by right]|done|].
      intros p f Hp. rewrite Hm. eauto.
  - rewrite translate_spec. unfold unmap_user_page_if_mapped.
    pose proof (is_mapped_spec (page_table um) v0) as Hm.
    destruct (pte (page_table um) v0) as [[p f]|] eqn:Hp; rewrite Hm; simpl.
    + apply (effect_retire _ _ _ _ v0 p f); simpl; [done| |done].
      intros v Hv. by rewrite unmap_spec, Heqb.
    + intros [= <- <-]. apply (effect_recorded _ _ _ v0); [by right; split; [|right]|done|eauto].
  - intros [= <- <-]. unfold set_user_flags. destruct (check_user_flags f0); simpl.
    + destruct (set_flags_spec (page_table um) v0 f0) as [Hs Hm]. apply effect_recorded_raw; [done|..].
      * intros v Hv. by rewrite Hm, Heqb.
      * intros p f Hp. rewrite Hm, Z.eqb_refl, Hp. simpl. eauto.
    + apply (effect_recorded _ _ _ v0); [by right; split; [|right]|done|eauto].
  - rewrite translate_spec. unfold set_ppn, recorded.
    destruct (set_ppn_spec (page_table um) v0 p0) as [Hs Hm]. rewrite Hs, is_mapped_spec.
    destruct (pte (page_table um) v0) as [[p f]|] eqn:Hp; simpl.
    + apply (effect_retire _ _ _ _ v0 p f); simpl; [done| |done].
      intros v Hv. by rewrite Hm, Heqb.
    + intros [= <- <-]. apply (effect_recorded _ _ _ v0); simpl; [|intros v Hv; by rewrite Hm, Heqb|congruence].
      right. split; [done|by left].
  - intros [= <- <-]. unfold block_write. destruct (block_write_spec (page_table um) v0) as [Hs Hm].
    destruct (block_and_ret_mut_no_flush _ _) as [pt [p|]]; simpl in *.
    + apply (effect_recorded _ _ _ v0); simpl; [by left|intros v Hv; by rewrite Hm, Heqb|].
      intros q f Hp. rewrite Hm, Z.eqb_refl, Hp. simpl. eauto.
    + rewrite translate_spec in Hs. apply (effect_recorded _ _ _ v0); simpl.
      * right. split; [done|left]. by destruct (pte _ v0).
      * intros v Hv. by rewrite Hm, Heqb.
      * intros q f Hp. by rewrite Hp in Hs.
Qed.

Lemma inv_op m o um t : minv m -> m_open m = true -> run_mm_op (m_um m) (m_tlb m) o = Some (um, t) ->
  minv (mkMachine um true (m_ctx m) t (m_flights m)).
Proof.
  intros [_ Io In Ib Ig Ie] Hop Hr. apply run_mm_op_effect in Hr as [E1 E2 E3 E4 E5 E6].
  split; simpl; try done; [intros _; rewrite E1; by apply Io|by apply E5|]. intros c v p f Ht.
  destruct (Ie c v p f (E4 _ _ _ Ht)) as [St|[[[_ Ss] Si]|[Hco Hheld]]].
  { by left. }
  { right; left. split; [|done]. split; [done|]. by apply E2. }
  assert (Hses : session m v -> session (mkMachine um true (m_ctx m) t (m_flights m)) v).
  { intros [_ Hc]. split; [done|]. by apply E2. }
  assert (Hpte : forall f', pte (page_table (m_um m)) v = Some (p, f') ->
    pte (page_table um) v = Some (p, f') \/ session (mkMachine um true (m_ctx m) t (m_flights m)) v).
  { intros f' Hf. destruct (decide (pte (page_table um) v = Some (p, f'))); [by left|].
    right. split; [done|]. by eapply E3. }
  assert (Hco' : pte (page_table um) v = Some (p, f) \/
    session (mkMachine um true (m_ctx m) t (m_flights m)) v \/ flying m c v (fun _ => True)).
  { destruct Hco as [Hp|[Hs|Hf]]; [|by right; left; apply Hses|by right; right].
    destruct (Hpte _ Hp); tauto. }
  destruct E6 as [[R1 R2]|R].
  - right; right. split; [done|]. destruct Hheld as [[f' Hp]|[[Hs Hp]|Hf]]; [|right; left; eauto|by right; right].
    destruct (Hpte _ Hp) as [|Hs]; [left; eauto|].
    destruct (R2 _ _ _ Hp) as [|]; [by left|right; left; done].
  - destruct (is_active m c) eqn:Ea.
    2: { destruct Hheld as [[f' Hp]|[[Hs Hp]|Hf]].
         - destruct (Hpte _ Hp) as [|Hs]; [|by right; left]. right; right. split; [done|]. left. eauto.
         - right; left. split; [by apply Hses|done].
         - right; right. split; [done|]. by right; right. }
    assert (Hno : ~ session (mkMachine um true (m_ctx m) t (m_flights m)) v).
    { intros [_ Hc]. assert (t c v = None); [|congruence]. apply R; [|done]. by rewrite Io. }
    right; right. split; [done|]. destruct Hheld as [[f' Hp]|[[Hs Hp]|Hf]]; [|by destruct Hno; apply Hses|by right; right].
    destruct (Hpte _ Hp) as [|]; [left; eauto|done].
Qed.

Lemma inv_seal m b g x f : minv m -> m_open m = true ->
  seal b (gather (m_um m)) (m_ctx m) = Some (g, x, f) ->
  minv (mkMachine (mkMapper (page_table (m_um m)) g (released (m_um m)) (fresh_no_flush (m_um m))
    (cpu_id (m_um m))) false x (m_tlb m) (m_flights m ++ match f with Some f => [mkFlight f []] | None => [] end)).
Proof.
  intros [_ Io In Ib Ig Ie] Hop. unfold seal, advance_generation.
  case_bool_decide as En.
  { case_bool_decide as Er; [|done]. intros [= <- <- <-]. rewrite app_nil_r. split; simpl; try done.
    intros c v p q Ht. assert (Hns : ~ session m v) by (intros [_ Hc]; by rewrite En in Hc).
    destruct (Ie c v p q Ht) as [St|[[Ss _]|[Hco Hheld]]]; [by left|done|]. right; right.
    destruct Hco as [|[|]], Hheld as [|[[]|]]; done || (split; [tauto|]); tauto. }
  destruct (active_cpu_mask (m_ctx m) =? _) eqn:Et; simpl; [|done].
  destruct (checked_add (generation (m_ctx m)) 1) as [gen|] eqn:Eg; [|done]. simpl.
  apply checked_add_Some in Eg as [-> _]. intros [= <- <- <-].
  set (nf := mkFlight _ _). set (m' := mkMachine _ _ _ _ _).
  assert (Hin : forall y, y ∈ m_flights m' <-> y ∈ m_flights m \/ y = nf).
  { intros y. simpl. rewrite elem_of_app, list_elem_of_singleton. done. }
  assert (Hst : forall c, stale m c -> stale m' c).
  { intros c (Ha & g0 & G1 & G2 & G3). split; [done|]. exists g0. simpl. split_and!; [lia|done|].
    intros y [Hy | ->]%Hin; [by apply G3|]. simpl. unfold is_active in Ha. unfold active_cpu_mask. congruence. }
  assert (Hsi : forall c v, session m v -> is_active m c = false -> stale m' c).
  { intros c v _ Ha. split; [done|]. exists (generation (m_ctx m) + 1). simpl.
    split_and!; [lia|specialize (Ib c); lia|]. intros y [Hy | ->]%Hin.
    - specialize (Ig y Hy). lia.
    - simpl. unfold is_active in Ha. unfold active_cpu_mask. congruence. }
  assert (Hsa : forall c v (P : flight -> Prop), session m v -> is_active m c = true -> P nf -> flying m' c v P).
  { intros c v P [_ Hc] Ha HP. exists nf. split; [apply Hin; by right|]. simpl.
    split_and!; [by destruct b|done|by apply not_elem_of_nil|done]. }
  assert (Hfl : forall c v (P : flight -> Prop), flying m c v P -> flying m' c v P).
  { intros c v P (y & Hy & Hrest). exists y. split; [apply Hin; by left|done]. }
  split; simpl; try done.
  - intros c. specialize (Ib c). lia.
  - intros y [Hy | ->]%Hin; [specialize (Ig y Hy); lia|simpl; lia].
  - intros c v p q Ht. destruct (Ie c v p q Ht) as [St|[[Ss Si]|[Hco Hheld]]].
    + left. by apply Hst.
    + left. by eapply Hsi.
    + destruct (is_active m c) eqn:Ea.
      * right; right. split.
        -- destruct Hco as [|[|]]; [by left|right; right; by apply Hsa|right; right; by apply Hfl].
        -- destruct Hheld as [|[[]|]]; [by left| |right; right; by apply Hfl].
           right; right. apply Hsa; try done. simpl. by destruct b.
      * destruct Hco as [Hc|[Hs|Hc]], Hheld as [Hh|[[Hs' _]|Hh]]; try (left; by eapply Hsi);
          right; right; (split; [|]); eauto 6.
Qed.

(** With the lock free there is no session. *)
Lemma no_session m v : m_open m = false -> ~ session m v.
Proof. intros Ho [Ht _]. congruence. Qed.

Lemma inv_activate m cpu x flush : minv m -> m_open m = false -> 0 <= cpu ->
  activate_cpu (m_ctx m) cpu = (x, flush) ->
  minv (mkMachine (m_um m) false x (if flush : bool then tlb_flush (m_tlb m) cpu FlushFull else m_tlb m)
    (m_flights m)).
Proof.
  intros [Ic _ In Ib Ig Ie] Hop Hcpu Hact.
  destruct (activate_cpu_spec _ _ _ _ Hcpu Hact) as (Hg & Hfl & Ho & Hother).
  split; simpl; [intros _; by apply Ic|done|done|..].
  - intros c. rewrite Hg. specialize (Ib c). destruct (decide (c = cpu)) as [->|Hc]; [lia|].
    destruct (Hother c Hc) as [_ ->]. done.
  - intros y Hy. rewrite Hg. by apply Ig.
  - intros c v p f Hv.
    assert (Hc : c = cpu -> flush = false).
    { intros ->. destruct flush; [|done]. unfold tlb_flush in Hv. by rewrite Z.eqb_refl in Hv. }
    assert (Hold : m_tlb m c v = Some (p, f)).
    { destruct flush; [|done]. unfold tlb_flush in Hv. by destruct (c =? cpu). }
    destruct (Ie c v p f Hold) as [(Sa & g & S1 & S2 & S3)|[[Ss _]|[Hco Hheld]]].
    + assert (c <> cpu) as Hne.
      { intros E. rewrite (Hc E) in Hfl. symmetry in Hfl. apply Z.ltb_ge in Hfl. subst c. lia. }
      left. destruct (Hother c Hne) as [E1 E2]. split; [unfold is_active in *; simpl; congruence|].
      exists g. simpl. rewrite Hg, E2. done.
    + by destruct (no_session m v Hop).
    + right; right. pose proof (no_session m v Hop) as Hns. simpl.
      destruct Hco as [|[|]], Hheld as [|[[]|]]; done || (split; [|]); eauto.
Qed.

(** Steps that leave the page table, the session and the sealed invalidations
    alone, and at most deactivate CPUs. *)
Lemma inv_keep m m' : minv m -> m_um m' = m_um m -> m_open m' = m_open m -> m_flights m' = m_flights m ->
  generation (m_ctx m') = generation (m_ctx m) -> observed (m_ctx m') = observed (m_ctx m) ->
  (m_open m = true -> active_cpus (m_ctx m') = active_cpus (m_ctx m)) ->
  (forall c, is_active m c = false -> is_active m' c = false) ->
  (forall c v e, m_tlb m' c v = Some e -> m_tlb m c v = Some e \/ m_pte m v = Some e) ->
  minv m'.
Proof.
  intros [Ic Io In Ib Ig Ie] Eu Eo Ef Eg Eb Ea Hact Ht. split; rewrite ?Eu, ?Eo, ?Ef, ?Eg, ?Eb; try done.
  - intros Hop. rewrite Ea by done. by apply Io.
  - intros c v p f Hv.
    assert (Hok : m_pte m v = Some (p, f) -> entry_ok m' c v p f).
    { intros Hp. right; right. rewrite Eu. split; [by left|left; eauto]. }
    destruct (Ht _ _ _ Hv) as [Hold|?]; [|by apply Hok].
    assert (Hs : forall v, session m v -> session m' v) by (unfold session; by rewrite Eo, Eu).
    assert (Hf : forall P, flying m c v P -> flying m' c v P) by (unfold flying; by rewrite Ef).
    destruct (Ie c v p f Hold) as [(Sa & g & S1 & S2 & S3)|[[Ss Si]|[Hco Hheld]]].
    + left. split; [by apply Hact|]. exists g. rewrite Eg, Eb, Ef. done.
    + right; left. split; [by apply Hs|by apply Hact].
    + right; right. rewrite Eu. split.
      * destruct Hco as [|[|]]; auto.
      * destruct Hheld as [|[[]|]]; auto.
Qed.

(** Marking CPUs that a sealed invalidation targets does not spoil the entries
    of CPUs that are away. *)
Lemma stale_marked m m' c gen : stale m c -> is_active m' c = is_active m c ->
  generation (m_ctx m') = generation (m_ctx m) ->
  (forall x, x ∈ m_flights m' -> exists y, y ∈ m_flights m /\ fl y = fl x) ->
  (observed (m_ctx m') c = observed (m_ctx m) c \/
   (exists y, y ∈ m_flights m /\ Z.testbit (fl_targets (fl y)) c = true /\ gen = fl_generation (fl y)) /\
   observed (m_ctx m') c <= Z.max (observed (m_ctx m) c) gen) ->
  stale m' c.
Proof.
  intros (Sa & g & S1 & S2 & S3) Ea Eg Hfl Ho. split; [congruence|]. exists g. rewrite Eg.
  split_and!; [done| |].
  - destruct Ho as [-> | [(y & Hy & Ht & ->) Ho]]; [done|]. specialize (S3 y Hy Ht). lia.
  - intros x Hx. destruct (Hfl x Hx) as (y & Hy & <-). by apply S3.
Qed.

Lemma tlb_flush_old t cpu r c v e : tlb_flush t cpu r c v = Some e -> t c v = Some e /\ (c = cpu -> ~ covers r v).
Proof.
  unfold tlb_flush. destruct (Z.eqb_spec c cpu) as [->|]; [|done].
  destruct r as [|r|]; simpl; [intros ?; split; [done|tauto]| |done].
  destruct (Z.leb_spec (range_l r) v), (Z.ltb_spec v (range_r r)); simpl; try done;
    intros ?; (split; [done|intros _; lia]).
Qed.

(** A step of a sealed invalidation [f]: its entry in the list becomes [l'],
    the CPUs it targets may be marked, cached entries may go. *)
Lemma inv_flight m m' l1 l2 f done l' : minv m -> m_flights m = l1 ++ mkFlight f done :: l2 ->
  m_um m' = m_um m -> m_open m' = m_open m -> m_flights m' = l1 ++ l' ++ l2 ->
  (forall x, x ∈ l' -> fl x = f) ->
  active_cpus (m_ctx m') = active_cpus (m_ctx m) -> generation (m_ctx m') = generation (m_ctx m) ->
  (forall c, observed (m_ctx m') c = observed (m_ctx m) c \/
     Z.testbit (fl_targets f) c = true /\
     observed (m_ctx m') c <= Z.max (observed (m_ctx m) c) (fl_generation f)) ->
  (forall c v e, m_tlb m' c v = Some e -> m_tlb m c v = Some e /\
     (covers (g_range (fl_gather f)) v -> Z.testbit (fl_targets f) c = true -> c ∉ done ->
      exists done', mkFlight f done' ∈ l' /\ (c ∉ done'))) ->
  minv m'.
Proof.
  intros [Ic Io In Ib Ig Ie] Ef Eu Eo Ef' Hl' Ea Eg Hobs Ht.
  assert (Hin : mkFlight f done ∈ m_flights m) by (rewrite Ef; set_solver).
  assert (Hback : forall x, x ∈ m_flights m' -> exists y, y ∈ m_flights m /\ fl y = fl x).
  { intros x. rewrite Ef', !elem_of_app. intros [?|[Hx|?]].
    - exists x. rewrite Ef. set_solver.
    - exists (mkFlight f done). by rewrite (Hl' x Hx).
    - exists x. rewrite Ef. set_solver. }
  split; rewrite ?Eu, ?Eo, ?Eg, ?Ea; try done.
  - intros c. specialize (Ib c). destruct (Hobs c) as [-> | [_ Ho]]; [done|].
    specialize (Ig _ Hin). simpl in Ig. lia.
  - intros x Hx. destruct (Hback x Hx) as (y & Hy & <-). by apply Ig.
  - intros c v p q Hv. destruct (Ht _ _ _ Hv) as [Hold Hdone].
    assert (Hs : session m v -> session m' v) by (unfold session; by rewrite Eo, Eu).
    assert (Ha : is_active m' c = is_active m c) by (unfold is_active; by rewrite Ea).
    assert (Hf : forall P, (forall d d', P (mkFlight f d) -> P (mkFlight f d')) ->
      flying m c v P -> flying m' c v P).
    { intros P HP (y & Hy & Hc & Htg & Hnd & Py). rewrite Ef, elem_of_app, elem_of_cons in Hy.
      destruct Hy as [?|[-> | ?]].
      - exists y. rewrite Ef'. split; [set_solver|done].
      - destruct (Hdone Hc Htg Hnd) as (d' & Hd & Hnd'). exists (mkFlight f d').
        rewrite Ef'. split; [set_solver|]. split_and!; try done. by eapply HP.
      - exists y. rewrite Ef'. split; [set_solver|done]. }
    destruct (Ie c v p q Hold) as [St|[[Ss Si]|[Hco Hheld]]].
    + left. eapply (stale_marked m m' c (fl_generation f)); try done.
      destruct (Hobs c) as [?|[Htg Ho]]; [by left|]. right. split; [|done]. by exists (mkFlight f done).
    + right; left. split; [by apply Hs|congruence].
    + right; right. rewrite Eu. split.
      * destruct Hco as [|[|]]; auto 6.
      * destruct Hheld as [|[[]|]]; auto.
Qed.

Lemma mstep_inv m m' : minv m -> mstep ncpu m m' -> minv m'.
Proof.
  intros Hi Hs. destruct Hs as [m cpu g Ho Hg|m o um t Ho Hr|m b g x f Ho Hseal|m cpu x b Ho Hc Ha|
    m cpu Ho Hc|m cpu v e Ha He|m cpu v|m l1 l2 f d cpu full mark Hf Ht|m l1 l2 f d Hf Hall].
  - unfold gather_begin in Hg. destruct Hi as [Ic _ In Ib Ig Ie].
    destruct (_ && _); [|done]. injection Hg as <-. split; simpl; try done.
    intros c v p f Hv. pose proof (no_session m v Ho) as Hns.
    destruct (Ie c v p f Hv) as [St|[[Ss _]|[Hco Hheld]]]; [by left|done|]. right; right. simpl.
    destruct Hco as [|[|]], Hheld as [|[[]|]]; done || (split; eauto).
  - by eapply inv_op.
  - by eapply inv_seal.
  - eapply inv_activate; [done|done|lia|done].
  - eapply (inv_keep m); simpl; try done.
    + unfold deactivate_cpu. by destruct (_ =? 0).
    + unfold deactivate_cpu. by destruct (_ =? 0).
    + by rewrite Ho.
    + intros c. unfold is_active, deactivate_cpu; simpl. destruct (_ =? 0); [done|]. simpl.
      rewrite Z.ldiff_spec. by intros ->.
    + auto.
  - eapply (inv_keep m); simpl; try done. intros c w x. unfold tlb_set.
    destruct (Z.eqb_spec c cpu), (Z.eqb_spec w v) as [->|]; simpl; auto. intros [= <-]. by right.
  - eapply (inv_keep m); simpl; try done. intros c w x. unfold tlb_set.
    destruct ((c =? cpu) && (w =? v)); [done|auto].
  - eapply (inv_flight m _ l1 l2 f d [mkFlight f (cpu :: d)]); simpl; try done.
    + intros y ->%list_elem_of_singleton. done.
    + by destruct mark.
    + by destruct mark.
    + intros c. destruct mark; simpl; [|by left]. destruct (Z.eqb_spec c cpu) as [->|]; [|by left].
      right. split; [done|lia].
    + intros c v e Hv. apply tlb_flush_old in Hv as [Hv Hn]. split; [done|]. intros Hcov _ Hnd.
      exists (cpu :: d). split; [by left|]. apply not_elem_of_cons. split; [|done]. intros ->.
      apply (Hn eq_refl). unfold target_flush. by destruct full.
  - destruct (mark_targets_spec ncpu (m_ctx m) (fl_generation f) (fl_targets f)) as (E1 & E2 & E3).
    eapply (inv_flight m _ l1 l2 f d []); simpl; try done.
    + by intros x ?%elem_of_nil.
    + intros c. apply E3.
    + intros c v e Hv. split; [done|]. intros _ Htg Hnd. by specialize (Hall c Htg).
Qed.

Lemma reachable_inv t fresh m : rtc (mstep ncpu) (machine_init t fresh) m -> minv m.
Proof.
  intros Hr. assert (Hinit : minv (machine_init t fresh)).
  { split; simpl; try done; try lia. by intros x ?%elem_of_nil. }
  revert Hinit. induction Hr as [|x y z Hxy _ IH]; [done|]. intros Hx. apply IH. by eapply mstep_inv.
Qed.
End proofs.


(** The assertions of the protocol hold: in every reachable state a free
    lock means an empty collector, so [begin] does not panic, and a writer that
    is about to unlock can seal its collector (the set of active CPUs has not
    moved, nothing is retired without a recorded change) unless 2^64 - 1
    generations have been used up. *)
Theorem tlb_protocol_no_panic {PT} `{PageTableLaws PT} ncpu (t : PT) fresh m :
  rtc (mstep ncpu) (machine_init t fresh) m ->
  (m_open m = false -> exists g, gather_begin (gather (m_um m)) (active_cpu_mask (m_ctx m)) = Some g) /\
  (m_open m = true -> generation (m_ctx m) < usize_max ->
   forall b, exists r, seal b (gather (m_um m)) (m_ctx m) = Some r).
Proof.
  intros Hr. pose proof (reachable_inv _ _ _ _ Hr) as Hi.
  split.
  - intros Ho. unfold gather_begin. rewrite (mi_closed _ Hi Ho), (mi_none _ Hi (mi_closed _ Hi Ho)).
    simpl. eauto.
  - intros Ho Hg b. unfold seal, advance_generation. case_bool_decide as En.
    + rewrite (mi_none _ Hi En). simpl. eauto.
    + unfold active_cpu_mask. rewrite (mi_open _ Hi Ho), Z.eqb_refl. simpl.
      unfold checked_add. destruct (Z.leb_spec (generation (m_ctx m) + 1) usize_max); [|lia]. simpl. eauto.
Qed.

(** CPU 1 runs in the address space and has cached page 5; CPU 0 unmaps the page
    and seals; CPU 1 has not been reached yet. *)
Definition demo_table : gmap Z (Z * Z) := {[5 := (7, perm_U)]}.
Definition demo_m1 : machine (gmap Z (Z * Z)) :=
  let '(x, _) := activate_cpu ctx_new 1 in
  mkMachine (mkMapper demo_table gather_new [] true 0) false x
    (tlb_set (tlb_flush (fun _ _ => None) 1 FlushFull) 1 5 (Some (7, perm_U))) [].
Definition demo_m2 : machine (gmap Z (Z * Z)) :=
  match gather_begin gather_new 2 with
  | Some g =>
      match run_mm_op (set_cpu (m_um demo_m1) g 0) (m_tlb demo_m1) (UnmapRetire 5 true) with
      | Some (um, t) => mkMachine um true (m_ctx demo_m1) t []
      | None => demo_m1
      end
  | None => demo_m1
  end.
Definition demo_m3 : machine (gmap Z (Z * Z)) :=
  match seal false (gather (m_um demo_m2)) (m_ctx demo_m2) with
  | Some (g, x, Some f) =>
      mkMachine (mkMapper (page_table (m_um demo_m2)) g [] true 0) false x (m_tlb demo_m2) [mkFlight f []]
  | _ => demo_m2
  end.

Lemma demo_m2_reachable : rtc (mstep 2) (machine_init demo_table true) demo_m2.
Proof.
  eapply rtc_l; [eapply (ms_activate 2 _ 1); [done|lia|reflexivity]|].
  eapply rtc_l; [eapply (ms_fill 2 _ 1 5 (7, perm_U)); reflexivity|].
  eapply rtc_l; [eapply (ms_begin 2 _ 0); reflexivity|].
  eapply rtc_l; [eapply (ms_op 2 _ (UnmapRetire 5 true)); reflexivity|].
  apply rtc_refl.
Qed.


Lemma tlb_protocol_no_panic_witness : exists r, seal false (gather (m_um demo_m2)) (m_ctx demo_m2) = Some r.
Proof.
  apply (tlb_protocol_no_panic 2 demo_table true demo_m2 demo_m2_reachable); vm_compute; reflexivity.
Defined.
