(* ===== verification/FullSync.v ===== *)
(** Full user-TLB invalidation on other CPUs: the request and acknowledgement
    counters of [synchronize_user_tlb] and [handle_ipi] ([os/src/smp.rs]), as
    atomic accesses in any interleaving.

    The counters are per target CPU, so one target with any number of senders
    is all the state the protocol shares.  Interrupt handlers do not nest: the
    target runs one handler at a time. *)

From stdpp Require Import base numbers option relations list.
From S2P Require Import Prelude.

(** A sender, and the sequence number it waits for. *)
Inductive sender :=
  | SIdle
  | SRequested (expected : Z)
  | SWaiting (expected : Z)
  | SDone (expected : Z).

(** The target's handler between its atomic accesses. *)
Inductive handler :=
  | HIdle
  | HTaken
  | HRead (sequence : Z)
  | HInvalidated (sequence : Z).

(** [pending] is the reason bit in the target's mailbox; [inval_at] is the value
    [user_tlb_request] had when the latest invalidation ran. *)
Record state := mkState {
  user_tlb_request : Z;
  user_tlb_ack : Z;
  pending : bool;
  hd : handler;
  senders : list sender;
  inval_at : Z;
}.

Inductive fstep : state -> state -> Prop :=
  | f_request s l1 l2 :
      senders s = l1 ++ SIdle :: l2 -> user_tlb_request s < usize_max ->
      fstep s (mkState (user_tlb_request s + 1) (user_tlb_ack s) (pending s) (hd s)
                 (l1 ++ SRequested (user_tlb_request s + 1) :: l2) (inval_at s))
  | f_send s l1 l2 e :
      senders s = l1 ++ SRequested e :: l2 ->
      fstep s (mkState (user_tlb_request s) (user_tlb_ack s) true (hd s)
                 (l1 ++ SWaiting e :: l2) (inval_at s))
  | f_observe s l1 l2 e :
      senders s = l1 ++ SWaiting e :: l2 -> e <= user_tlb_ack s ->
      fstep s (mkState (user_tlb_request s) (user_tlb_ack s) (pending s) (hd s)
                 (l1 ++ SDone e :: l2) (inval_at s))
  | f_take s :
      hd s = HIdle -> pending s = true ->
      fstep s (mkState (user_tlb_request s) (user_tlb_ack s) false HTaken (senders s) (inval_at s))
  | f_read s :
      hd s = HTaken ->
      fstep s (mkState (user_tlb_request s) (user_tlb_ack s) (pending s)
                 (HRead (user_tlb_request s)) (senders s) (inval_at s))
  | f_invalidate s n :
      hd s = HRead n -> user_tlb_ack s < n ->
      fstep s (mkState (user_tlb_request s) (user_tlb_ack s) (pending s) (HInvalidated n)
                 (senders s) (user_tlb_request s))
  | f_skip s n :
      hd s = HRead n -> n <= user_tlb_ack s ->
      fstep s (mkState (user_tlb_request s) (user_tlb_ack s) (pending s) HIdle (senders s) (inval_at s))
  | f_ack s n :
      hd s = HInvalidated n ->
      fstep s (mkState (user_tlb_request s) n (pending s) HIdle (senders s) (inval_at s)).

Definition init (n : nat) : state := mkState 0 0 false HIdle (replicate n SIdle) 0.

(** The target will acknowledge [e] without any further doorbell. *)
Definition will_ack (s : state) (e : Z) : Prop :=
  pending s = true \/ hd s = HTaken \/
  exists n, e <= n /\ (hd s = HRead n \/ hd s = HInvalidated n).

Definition sender_ok (s : state) (x : sender) : Prop :=
  match x with
  | SIdle => True
  | SRequested e => e <= user_tlb_request s
  | SWaiting e => e <= user_tlb_request s /\ (e <= user_tlb_ack s \/ will_ack s e)
  | SDone e => e <= inval_at s
  end.

Record finv (s : state) : Prop := {
  fi_ack : user_tlb_ack s <= inval_at s;
  fi_inval : inval_at s <= user_tlb_request s;
  fi_hd : match hd s with
          | HRead n => n <= user_tlb_request s
          | HInvalidated n => user_tlb_ack s < n <= inval_at s
          | _ => True
          end;
  fi_senders : Forall (sender_ok s) (senders s);
}.

(** Replacing one sender. *)
Lemma senders_replace (P : sender -> Prop) l1 x y l2 : Forall P (l1 ++ x :: l2) -> P y -> Forall P (l1 ++ y :: l2).
Proof. rewrite !Forall_app, !Forall_cons. tauto. Qed.

Lemma finv_step s s' : finv s -> fstep s s' -> finv s'.
Proof.
  intros [I1 I2 I3 I4] Hs. destruct Hs as [s l1 l2 E Hb|s l1 l2 e E|s l1 l2 e E He|s Eh Ep|s Eh|s n Eh Hn|s n Eh Hn|s n Eh];
    rewrite ?E in I4.
  - split; simpl; try lia; [by destruct (hd s); try lia|].
    eapply (senders_replace _ l1 SIdle); [|simpl; lia]. eapply Forall_impl; [exact I4|].
    intros [|e|e|e]; simpl; try lia; try done. intros [? Hw]. split; [lia|].
    destruct Hw as [|Hw]; [by left|by right].
  - split; simpl; try done. eapply (senders_replace _ l1 (SRequested e)).
    + eapply Forall_impl; [exact I4|]. intros [|x|x|x]; simpl; try done. intros [? Hw].
      split; [done|]. right. by left.
    + apply Forall_app in I4 as [_ [Hx _]%Forall_cons]. simpl in *. split; [done|]. right. by left.
  - split; simpl; try done. eapply (senders_replace _ l1 (SWaiting e)); [|simpl; lia].
    eapply Forall_impl; [exact I4|]. by intros [|x|x|x].
  - split; simpl; try done. eapply Forall_impl; [exact I4|]. intros [|x|x|x]; simpl; try done.
    intros [? _]. split; [done|]. right. right. by left.
  - split; simpl; try done; try lia. eapply Forall_impl; [exact I4|]. intros [|x|x|x]; simpl; try done.
    intros [? _]. split; [done|]. right. right. right. exists (user_tlb_request s). auto.
  - rewrite Eh in I3. split; simpl; try lia. eapply Forall_impl; [exact I4|].
    intros [|x|x|x]; simpl; try done; [|lia]. intros [? [|Hw]]; (split; [done|]); [by left|]. right.
    destruct Hw as [|[Hw|(k & Hk & [Hw|Hw])]]; [by left|congruence| |congruence].
    right. right. exists n. split; [congruence|]. by right.
  - rewrite Eh in I3. split; simpl; try done. eapply Forall_impl; [exact I4|].
    intros [|x|x|x]; simpl; try done. intros [? [|Hw]]; (split; [done|]); [by left|].
    destruct Hw as [|[Hw|(k & Hk & [Hw|Hw])]]; [by right; left|congruence| |congruence].
    left. assert (k = n) by congruence. lia.
  - rewrite Eh in I3. split; simpl; try lia. eapply Forall_impl; [exact I4|].
    intros [|x|x|x]; simpl; try done. intros [? [|Hw]]; (split; [done|]); [left; lia|].
    destruct Hw as [|[Hw|(k & Hk & [Hw|Hw])]]; [by right; left|congruence|congruence|].
    left. assert (k = n) by congruence. lia.
Qed.

Lemma finv_reachable n s : rtc fstep (init n) s -> finv s.
Proof.
  intros Hr. assert (finv (init n)) as Hi.
  { split; simpl; try done. apply Forall_replicate. done. }
  revert Hi. induction Hr as [|x y z Hxy _ IH]; [done|]. intros Hx. apply IH. by eapply finv_step.
Qed.

(** C39: full user-TLB shootdown between any number of concurrent senders and
    one target.  When a sender has seen its acknowledgement, the target ran an
    invalidation after that sender's request was published; and a sender that
    still waits is always covered by a pending doorbell or a running handler,
    so no acknowledgement is lost even when doorbells coalesce. *)
Theorem full_sync_correct n s : rtc fstep (init n) s ->
  (forall e, SDone e ∈ senders s -> e <= inval_at s) /\
  (forall e, SWaiting e ∈ senders s ->
     e <= user_tlb_ack s \/ will_ack s e).
Proof.
  intros [_ _ _ Hs]%finv_reachable. rewrite Forall_forall in Hs. split; intros e He.
  - apply (Hs _ He).
  - apply (Hs _ He).
Qed.

Lemma full_sync_correct_witness :
  let s := mkState 1 1 false HIdle [SDone 1] 1 in
  SDone 1 ∈ senders s /\ 1 <= inval_at s.
Proof.
  intros s. assert (Hr : rtc fstep (init 1) s).
  { eapply rtc_l; [apply (f_request _ [] []); [done|vm_compute; reflexivity]|].
    eapply rtc_l; [eapply (f_send _ [] []); done|].
    eapply rtc_l; [apply f_take; done|].
    eapply rtc_l; [apply f_read; done|].
    eapply rtc_l; [eapply f_invalidate; [done|vm_compute; reflexivity]|].
    eapply rtc_l; [eapply f_ack; done|].
    eapply rtc_l; [eapply (f_observe _ [] []); [done|vm_compute; discriminate]|].
    apply rtc_refl. }
  split; [by left|]. apply (full_sync_correct 1 s Hr). by left.
Defined.
