(* ===== verification/RangeSlot.v ===== *)
(** Precise user-TLB invalidation on other CPUs: the slot through which one CPU
    passes a page range to its targets ([UserTlbRangeSlot] and
    [synchronize_user_tlb] in [os/src/smp.rs]), as atomic accesses in any
    interleaving.

    A slot belongs to its sending CPU and is read by each target on its own.
    Interrupt handlers do not nest: each target runs one handler at a time. *)

From stdpp Require Import base numbers option list.
From S2P Require Import Prelude.

(** [publish] and the wait of [synchronize_user_tlb], between atomic accesses;
    a round has a page range and a set of target CPUs. *)
Record round := mkRound { start_vpn : Z; page_count : Z; targets : list Z }.

Inductive sender :=
  | SIdle
  | SClaimed (r : round)
  | SCleared (r : round)
  | SStart (r : round)
  | SCount (r : round)
  | SPublished (r : round)
  | SWithdrawn (r : round)
  | SReturned (r : round).

(** [service] between its atomic accesses. *)
Inductive service :=
  | VIdle
  | VSawTarget
  | VUnacked
  | VStart (start : Z)
  | VRange (start count : Z)
  | VInvalidated.

(** The slot's fields, its owner, the handler of each CPU, and the
    invalidations carried out so far. *)
Record state := mkState {
  claimed : bool;
  slot_targets : list Z;
  acknowledged : list Z;
  slot_start : Z;
  slot_count : Z;
  snd_pc : sender;
  handlers : Z -> service;
  log : list (Z * (Z * Z));
}.

Definition set_snd (s : state) (x : sender) : state :=
  mkState (claimed s) (slot_targets s) (acknowledged s) (slot_start s) (slot_count s) x (handlers s) (log s).
Definition set_handler (s : state) (cpu : Z) (h : service) : state :=
  mkState (claimed s) (slot_targets s) (acknowledged s) (slot_start s) (slot_count s) (snd_pc s)
    (fun c => if c =? cpu then h else handlers s c) (log s).

Definition mem (c : Z) (l : list Z) : bool := bool_decide (c ∈ l).

(** The sender starts a round, or makes its next access. *)
Definition start_round (s : state) (r : round) : option state :=
  match snd_pc s with
  | SIdle | SReturned _ =>
      if claimed s then None
      else Some (mkState true (slot_targets s) (acknowledged s) (slot_start s) (slot_count s)
                   (SClaimed r) (handlers s) (log s))
  | _ => None
  end.

Definition sender_step (s : state) : option state :=
  match snd_pc s with
  | SClaimed r => Some (mkState (claimed s) (slot_targets s) [] (slot_start s) (slot_count s)
                          (SCleared r) (handlers s) (log s))
  | SCleared r => Some (mkState (claimed s) (slot_targets s) (acknowledged s) (start_vpn r) (slot_count s)
                          (SStart r) (handlers s) (log s))
  | SStart r => Some (mkState (claimed s) (slot_targets s) (acknowledged s) (slot_start s) (page_count r)
                        (SCount r) (handlers s) (log s))
  | SCount r => Some (mkState (claimed s) (targets r) (acknowledged s) (slot_start s) (slot_count s)
                        (SPublished r) (handlers s) (log s))
  | SPublished r =>
      if forallb (fun c => mem c (acknowledged s)) (targets r)
      then Some (mkState (claimed s) [] (acknowledged s) (slot_start s) (slot_count s)
                   (SWithdrawn r) (handlers s) (log s))
      else Some s
  | SWithdrawn r => Some (mkState false (slot_targets s) (acknowledged s) (slot_start s) (slot_count s)
                            (SReturned r) (handlers s) (log s))
  | SIdle | SReturned _ => None
  end.

(** The next access of [cpu]'s handler; from [VIdle] it starts to scan the slot,
    which any sender's doorbell can make it do. *)
Definition service_step (s : state) (cpu : Z) : state :=
  match handlers s cpu with
  | VIdle => if mem cpu (slot_targets s) then set_handler s cpu VSawTarget else s
  | VSawTarget => set_handler s cpu (if mem cpu (acknowledged s) then VIdle else VUnacked)
  | VUnacked => set_handler s cpu (VStart (slot_start s))
  | VStart start => set_handler s cpu (VRange start (slot_count s))
  | VRange start count =>
      let s := set_handler s cpu VInvalidated in
      mkState (claimed s) (slot_targets s) (acknowledged s) (slot_start s) (slot_count s) (snd_pc s)
        (handlers s) ((cpu, (start, count)) :: log s)
  | VInvalidated =>
      let s := set_handler s cpu VIdle in
      mkState (claimed s) (slot_targets s) (cpu :: acknowledged s) (slot_start s) (slot_count s)
        (snd_pc s) (handlers s) (log s)
  end.

Inductive event := Start (r : round) | Sender | Service (cpu : Z).

Definition step (s : state) (e : event) : option state :=
  match e with
  | Start r => start_round s r
  | Sender => sender_step s
  | Service cpu => Some (service_step s cpu)
  end.

Fixpoint run (s : state) (l : list event) : option state :=
  match l with
  | [] => Some s
  | e :: l => s ← step s e; run s l
  end.

Definition init : state := mkState false [] [] 0 0 SIdle (fun _ => VIdle) [].

(** A precise shootdown can return without the target having invalidated
    the range.  CPU 1 has acknowledged the first round and, woken by another
    sender's doorbell, re-reads the slot's target mask while the first round
    still waits for CPU 2; the round then ends and the sender publishes a
    second one, whose first store clears the acknowledgements.  CPU 1 finds
    itself unacknowledged, reads the old range, invalidates it again and
    acknowledges the second round, whose range it never invalidated. *)
Theorem range_slot_lost_invalidation : exists sched s r,
  run init sched = Some s /\
  snd_pc s = SReturned r /\ 1 ∈ targets r /\
  ~ (exists start count, (1, (start, count)) ∈ log s /\
       start <= start_vpn r < start + count).
Proof.
  set (r1 := mkRound 16 4 [1; 2]). set (r2 := mkRound 64 2 [1]).
  exists ([Start r1] ++ replicate 4 Sender
    ++ replicate 6 (Service 1) ++ [Service 1]
    ++ replicate 6 (Service 2) ++ replicate 2 Sender
    ++ [Start r2; Sender] ++ replicate 3 (Service 1)
    ++ replicate 3 Sender ++ replicate 2 (Service 1)
    ++ replicate 2 Sender).
  eexists _, r2. split; [vm_compute; reflexivity|]. split; [reflexivity|]. split; [by left|].
  intros (start & count & Hin & Hr). simpl in *.
  repeat (apply elem_of_cons in Hin as [Hin|Hin]; [simplify_eq; lia|]). by apply elem_of_nil in Hin.
Qed.
