(* ===== verification/PosixLock.v ===== *)
(** POSIX and open-file-description record locks: the range arithmetic, the
    per-file lock list and its operations ([os/src/fs/vfs/posix_lock.rs]).

    What a list of records means is [locked rs o t x]: owner [o] holds byte [x]
    with type [t].  Every operation is specified through it, so sorting,
    trimming and coalescing of records are invisible.  The manager with its
    blocking requests is in PosixLockMgr.v. *)

From stdpp Require Import base numbers option sets sorting list.
From S2P Require Import Prelude.

Definition SHARDS : Z := 53.
Definition SEEK_SET : Z := 0.
Definition SEEK_CUR : Z := 1.
Definition SEEK_END : Z := 2.
Definition F_RDLCK : Z := 0.
Definition F_WRLCK : Z := 1.
Definition F_UNLCK : Z := 2.

Definition i64_min : Z := - 2 ^ 63.
(** [x as i64], and saturating arithmetic on [i64]. *)
Definition as_i64 (x : Z) : Z := (x + 2 ^ 63) mod 2 ^ 64 - 2 ^ 63.
Definition i64_saturate (x : Z) : Z := Z.max i64_min (Z.min x i64_max).
Definition i128_checked (x : Z) : option Z :=
  if (- 2 ^ 127 <=? x) && (x <? 2 ^ 127) then Some x else None.

(** ** Keys, types, owners, records *)

Record LockKey := mkKey { dev_id : Z; inode_id : Z }.

#[export] Instance LockKey_eq_dec : EqDecision LockKey.
Proof. solve_decision. Defined.

(** The hash works on [u32]; [>>] and [^] stay in range. *)
Definition shard (k : LockKey) : Z :=
  let mix a h := let h := wrap32 (h + wrap32 a) in
                 let h := wrap32 (h + wrap32 (Z.shiftl h 10)) in Z.lxor h (Z.shiftr h 6) in
  let h := mix (inode_id k) (mix (dev_id k) 0) in
  let h := wrap32 (h + wrap32 (Z.shiftl h 3)) in
  let h := Z.lxor h (Z.shiftr h 11) in
  wrap32 (h + wrap32 (Z.shiftl h 15)) mod SHARDS.

Arguments shard k : simpl never.

Inductive LockType := Read | Write.
Inductive LockOwner := Posix (owner_id owner_pid : Z) | Ofd (open_file_id : Z).

#[export] Instance LockType_eq_dec : EqDecision LockType.
Proof. solve_decision. Defined.
#[export] Instance LockOwner_eq_dec : EqDecision LockOwner.
Proof. solve_decision. Defined.

(** [lr_end] is inclusive. *)
Record LockRecord := mkRecord {
  lr_owner : LockOwner;
  lr_pid : Z;
  lr_type : LockType;
  lr_start : Z;
  lr_end : Z;
}.

Definition with_range (r : LockRecord) (s e : Z) : LockRecord :=
  mkRecord (lr_owner r) (lr_pid r) (lr_type r) s e.

(** What the lock code uses of a [File]. *)
Record file := mkFile {
  f_key : LockKey;
  f_offset : Z;
  f_size : option Z;
  f_readable : result unit SyscallErr;
  f_writable : result unit SyscallErr;
  f_open_file_id : Z;
}.

Record PosixFlock := mkFlock {
  l_type : Z;
  l_whence : Z;
  l_start : Z;
  l_len : Z;
  l_pid : Z;
}.

(** ** Operations *)

Definition same_owner (a b : LockOwner) : bool :=
  match a, b with
  | Posix a_id _, Posix b_id _ => a_id =? b_id
  | Ofd a_id, Ofd b_id => a_id =? b_id
  | _, _ => false
  end.

Definition owner_graph_id (o : LockOwner) : Z :=
  match o with
  | Posix owner_id _ => owner_id
  | Ofd open_file_id => Z.lxor open_file_id (Z.shiftl 1 62)
  end.

Definition is_write (t : LockType) : bool := match t with Write => true | Read => false end.

Definition conflict (a : LockType) (a_s a_e : Z) (b : LockType) (b_s b_e : Z) : bool :=
  if (a_e <? b_s) || (b_e <? a_s) then false else is_write a || is_write b.

Definition resolve_range (f : file) (fl : PosixFlock) : result (Z * Z) SyscallErr :=
  let base :=
    if l_whence fl =? SEEK_SET then Some 0
    else if l_whence fl =? SEEK_CUR then Some (f_offset f)
    else if l_whence fl =? SEEK_END then f_size f
    else None in
  match base with
  | None => Err EINVAL
  | Some base =>
      match i128_checked (base + l_start fl) with
      | None => Err EOVERFLOW
      | Some start =>
          let len := l_len fl in
          match (if len <? 0 then (fun s => (s, - len)) <$> i128_checked (start + len)
                 else Some (start, len)) with
          | None => Err EOVERFLOW
          | Some (s, l) =>
              if (s <? 0) || (i64_max <? l) then Err EINVAL
              else if l =? 0 then Ok (as_i64 s, i64_max)
              else match i128_checked (s + l) with
                   | None => Err EOVERFLOW
                   | Some e => Ok (as_i64 s, if i64_max <? e then i64_max else as_i64 (e - 1))
                   end
          end
      end
  end.

(** What is left of one record when [owner] gives up [start, stop]. *)
Definition trim (owner : LockOwner) (start stop : Z) (r : LockRecord) : list LockRecord :=
  if negb (same_owner (lr_owner r) owner) then [r]
  else if (lr_end r <? start) || (stop <? lr_start r) then [r]
  else (if lr_start r <? start then [with_range r (lr_start r) (i64_saturate (start - 1))] else [])
    ++ (if stop <? lr_end r then [with_range r (i64_saturate (stop + 1)) (lr_end r)] else []).

(** [sort_by_key(|r| r.start)], which is stable. *)
Fixpoint insert_by_start (r : LockRecord) (l : list LockRecord) : list LockRecord :=
  match l with
  | [] => [r]
  | x :: l => if lr_start r <=? lr_start x then r :: x :: l else x :: insert_by_start r l
  end.

Definition sort_by_start (l : list LockRecord) : list LockRecord := foldr insert_by_start [] l.

(** The merging loop, from the record [a] at index [i]: the record after it is
    either absorbed or becomes the next [a]. *)
Fixpoint merge_from (a : LockRecord) (l : list LockRecord) : list LockRecord :=
  match l with
  | [] => [a]
  | b :: l =>
      if same_owner (lr_owner a) (lr_owner b) && bool_decide (lr_type a = lr_type b)
         && (lr_start b <=? i64_saturate (lr_end a + 1))
      then merge_from (with_range a (lr_start a) (Z.max (lr_end a) (lr_end b))) l
      else a :: merge_from b l
  end.

Definition coalesce (rs : list LockRecord) : list LockRecord :=
  match sort_by_start rs with
  | [] => []
  | a :: l => merge_from a l
  end.

Definition remove_range (rs : list LockRecord) (owner : LockOwner) (start stop : Z) : list LockRecord :=
  coalesce (rs ≫= trim owner start stop).

(** The records of other owners that stand in the way of a request. *)
Definition blocks (owner : LockOwner) (t : LockType) (start stop : Z) (r : LockRecord) : bool :=
  negb (same_owner (lr_owner r) owner) && conflict (lr_type r) (lr_start r) (lr_end r) t start stop.

Definition lock_type_of (ltype : Z) : option LockType :=
  if ltype =? F_RDLCK then Some Read else if ltype =? F_WRLCK then Some Write else None.

Definition apply_lock (rs : list LockRecord) (owner : LockOwner) (owner_pid ltype start stop : Z)
    : list LockRecord * bool :=
  match lock_type_of ltype with
  | None => (remove_range rs owner start stop, true)
  | Some lt =>
      if existsb (blocks owner lt start stop) rs then (rs, false)
      else (coalesce (remove_range rs owner start stop ++ [mkRecord owner owner_pid lt start stop]), true)
  end.

Definition validate_access (f : file) (ltype : Z) : result unit SyscallErr :=
  if ltype =? F_RDLCK then f_readable f
  else if ltype =? F_WRLCK then f_writable f
  else if ltype =? F_UNLCK then Ok ()
  else Err EINVAL.

(** [posix_lock_get] once the entry's records are known ([None]: no entry). *)
Definition posix_lock_get (f : file) (owner : LockOwner) (records : option (list LockRecord))
    (fl : PosixFlock) : result PosixFlock SyscallErr :=
  let unlck := mkFlock F_UNLCK (l_whence fl) (l_start fl) (l_len fl) (l_pid fl) in
  match lock_type_of (l_type fl) with
  | None => if l_type fl =? F_UNLCK then Ok unlck else Err EINVAL
  | Some t =>
      match records with
      | None => Ok unlck
      | Some rs =>
          match resolve_range f fl with
          | Err e => Err e
          | Ok (s, e) =>
              match List.find (blocks owner t s e) rs with
              | None => Ok unlck
              | Some r =>
                  Ok (mkFlock (if is_write (lr_type r) then F_WRLCK else F_RDLCK) SEEK_SET
                        (lr_start r)
                        (if lr_end r =? i64_max then 0 else as_i64 (lr_end r - lr_start r + 1))
                        (lr_pid r))
              end
          end
      end
  end.

(** ** Meaning of a record list *)

Definition locked (rs : list LockRecord) (o : LockOwner) (t : LockType) (x : Z) : Prop :=
  exists r, r ∈ rs /\ same_owner (lr_owner r) o = true /\ lr_type r = t /\ lr_start r <= x <= lr_end r.

Definition valid_range (s e : Z) : Prop := i64_min <= s <= e /\ e <= i64_max.
Definition valid_record (r : LockRecord) : Prop := valid_range (lr_start r) (lr_end r).

(** The entry invariant: records are valid and sorted, an owner holds a byte
    with one type only, and different owners share a byte only to read. *)
Record entry_ok (rs : list LockRecord) : Prop := {
  eo_valid : Forall valid_record rs;
  eo_sorted : StronglySorted Z.le (lr_start <$> rs);
  eo_one : forall o t t' x, locked rs o t x -> locked rs o t' x -> t = t';
  eo_excl : forall o o' t t' x, same_owner o o' = false -> locked rs o t x -> locked rs o' t' x ->
    t = Read /\ t' = Read;
}.

Lemma same_owner_refl o : same_owner o o = true.
Proof. destruct o; apply Z.eqb_refl. Qed.

Lemma same_owner_sym a b : same_owner a b = same_owner b a.
Proof. destruct a, b; simpl; try done; apply Z.eqb_sym. Qed.

Lemma same_owner_trans a b c : same_owner a b = true -> same_owner a c = same_owner b c.
Proof. destruct a, b; simpl; try done; intros ->%Z.eqb_eq; done. Qed.

Lemma i64_saturate_id x : i64_min <= x <= i64_max -> i64_saturate x = x.
Proof. unfold i64_saturate. lia. Qed.

Lemma locked_perm rs rs' o t x : (forall r, r ∈ rs <-> r ∈ rs') -> locked rs o t x <-> locked rs' o t x.
Proof. intros Hp. unfold locked. by setoid_rewrite Hp. Qed.

Lemma locked_app rs rs' o t x : locked (rs ++ rs') o t x <-> locked rs o t x \/ locked rs' o t x.
Proof. unfold locked. setoid_rewrite elem_of_app. naive_solver. Qed.

Lemma locked_cons r rs o t x : locked (r :: rs) o t x <->
  (same_owner (lr_owner r) o = true /\ lr_type r = t /\ lr_start r <= x <= lr_end r) \/ locked rs o t x.
Proof. unfold locked. setoid_rewrite elem_of_cons. naive_solver. Qed.

Lemma locked_nil o t x : ~ locked [] o t x.
Proof. intros (r & Hr & _). by apply elem_of_nil in Hr. Qed.

Lemma locked_owner rs o o' t x : same_owner o o' = true -> locked rs o t x -> locked rs o' t x.
Proof.
  intros Hs (r & Hr & Ho & Hrest). exists r. split_and!; try done; try apply Hrest.
  rewrite (same_owner_trans _ _ _ Ho). done.
Qed.

Lemma entry_ok_nil : entry_ok [].
Proof.
  split; [constructor|constructor|..].
  - by intros o t t' x ?%locked_nil.
  - by intros o o' t t' x _ ?%locked_nil.
Qed.

(** ** Sorting and merging *)

Lemma elem_insert_by_start x r l : x ∈ insert_by_start r l <-> x = r \/ x ∈ l.
Proof.
  induction l as [|y l IH]; simpl; [set_solver|]. destruct (_ <=? _); set_solver.
Qed.

Lemma elem_sort_by_start x l : x ∈ sort_by_start l <-> x ∈ l.
Proof.
  induction l as [|y l IH]; simpl; [done|]. rewrite elem_insert_by_start, IH. set_solver.
Qed.

Lemma insert_by_start_sorted r l : StronglySorted Z.le (lr_start <$> l) ->
  StronglySorted Z.le (lr_start <$> insert_by_start r l).
Proof.
  induction l as [|y l IH]; simpl; intros Hs; [repeat constructor|].
  inversion Hs as [|? ? Hs' Hall]; subst. destruct (Z.leb_spec (lr_start r) (lr_start y)); simpl.
  - constructor; [done|]. constructor; [done|]. eapply Forall_impl; [exact Hall|]. simpl. lia.
  - constructor; [by apply IH|]. apply Forall_fmap, Forall_forall. intros x.
    rewrite elem_insert_by_start. intros [->|Hx]; simpl; [lia|].
    rewrite Forall_fmap, Forall_forall in Hall. by apply Hall.
Qed.

Lemma sort_by_start_sorted l : StronglySorted Z.le (lr_start <$> sort_by_start l).
Proof. induction l as [|x l IH]; simpl; [constructor|by apply insert_by_start_sorted]. Qed.

(** Merging keeps validity, order and meaning; the first record keeps its start. *)
Lemma merge_from_spec l : forall a, valid_record a -> Forall valid_record l ->
  StronglySorted Z.le (lr_start a :: (lr_start <$> l)) ->
  Forall valid_record (merge_from a l) /\
  StronglySorted Z.le (lr_start <$> merge_from a l) /\
  Forall (fun r => lr_start a <= lr_start r) (merge_from a l) /\
  forall o t x, locked (merge_from a l) o t x <-> locked (a :: l) o t x.
Proof.
  induction l as [|b l IH]; intros a Ha Hl Hs; simpl.
  { split_and!; [by apply Forall_singleton|repeat constructor|apply Forall_singleton; lia|done]. }
  apply Forall_cons in Hl as [Hb Hl]. simpl in Hs. inversion Hs as [|? ? Hs' Hall]; subst.
  apply Forall_cons in Hall as [Hab Hal].
  destruct (_ && _) eqn:E.
  - apply andb_true_iff in E as [E Ec]. apply andb_true_iff in E as [Eo Et].
    apply bool_decide_eq_true in Et. apply Z.leb_le in Ec.
    assert (Hc : lr_start b <= lr_end a + 1) by (unfold i64_saturate in Ec; unfold valid_record, valid_range in *; lia).
    destruct (IH (with_range a (lr_start a) (Z.max (lr_end a) (lr_end b)))) as (I1 & I2 & I3 & I4).
    + unfold valid_record, valid_range in *; simpl. lia.
    + done.
    + simpl. inversion Hs'; subst. constructor; [done|]. done.
    + split_and!; try done. intros o t x. rewrite I4, !locked_cons. simpl.
      rewrite Et, <- (same_owner_trans _ _ o Eo).
      unfold valid_record, valid_range in *.
      destruct (same_owner (lr_owner a) o); [|naive_solver].
      split; [intros [(_ & Ht & Hx)|?]; [|by right; right]|intros [(_ & Ht & Hx)|[(_ & Ht & Hx)|?]]; [..|by right]].
      * destruct (decide (x <= lr_end a)); [left|right; left]; split_and!; try done; lia.
      * left. split_and!; try done; lia.
      * left. split_and!; try done; lia.
  - destruct (IH b Hb Hl Hs') as (I1 & I2 & I3 & I4). simpl. split_and!.
    + by constructor.
    + constructor; [done|]. apply Forall_fmap. eapply Forall_impl; [exact I3|]. simpl. lia.
    + constructor; [lia|]. eapply Forall_impl; [exact I3|]. simpl. lia.
    + intros o t x. rewrite !(locked_cons a), I4. done.
Qed.

Lemma coalesce_spec rs : Forall valid_record rs ->
  Forall valid_record (coalesce rs) /\ StronglySorted Z.le (lr_start <$> coalesce rs) /\
  forall o t x, locked (coalesce rs) o t x <-> locked rs o t x.
Proof.
  intros Hv. assert (Hp := locked_perm (sort_by_start rs) rs).
  assert (Hv' : Forall valid_record (sort_by_start rs)).
  { rewrite Forall_forall in *. intros x. rewrite elem_sort_by_start. apply Hv. }
  pose proof (sort_by_start_sorted rs) as Hs. unfold coalesce.
  assert (He : forall r, r ∈ sort_by_start rs <-> r ∈ rs) by (intros r; apply elem_sort_by_start).
  destruct (sort_by_start rs) as [|a l].
  - split_and!; [done|done|]. intros o t x. by apply Hp.
  - apply Forall_cons in Hv' as [Ha Hl]. destruct (merge_from_spec l a Ha Hl Hs) as (I1 & I2 & _ & I4).
    split_and!; [done|done|]. intros o t x. rewrite I4. by apply Hp.
Qed.

Lemma trim_spec owner s e r : valid_range s e -> valid_record r ->
  Forall valid_record (trim owner s e r) /\
  forall o t x, locked (trim owner s e r) o t x <->
    locked [r] o t x /\ ~ (same_owner owner o = true /\ s <= x <= e).
Proof.
  intros Hse Hr. unfold trim. destruct (same_owner (lr_owner r) owner) eqn:Eo; simpl.
  2: { split; [by apply Forall_singleton|]. intros o t x. split; [|tauto]. intros Hl. split; [done|].
       intros [Ho _]. apply locked_cons in Hl as [(Hl & _)|Hl]; [|by apply locked_nil in Hl].
       rewrite same_owner_sym in Ho. rewrite same_owner_sym, (same_owner_trans _ _ (lr_owner r) Ho) in Hl.
       rewrite same_owner_sym in Hl. congruence. }
  assert (Hown : forall o, same_owner (lr_owner r) o = same_owner owner o)
    by (intros o; by apply same_owner_trans).
  unfold valid_record, valid_range in *.
  destruct (Z.ltb_spec (lr_end r) s), (Z.ltb_spec e (lr_start r)); simpl;
    try (split; [by apply Forall_singleton|]; intros o t x; rewrite !locked_cons, Hown;
         split; [|tauto]; intros [(Ho & Ht & Hx)|Hl]; [|by apply locked_nil in Hl];
         split; [by left|]; intros [_ ?]; lia).
  destruct (Z.ltb_spec (lr_start r) s), (Z.ltb_spec e (lr_end r)); simpl;
    rewrite ?i64_saturate_id by lia;
    (split; [repeat constructor; unfold valid_record, valid_range; simpl; lia|]);
    intros o t x; rewrite ?locked_cons; simpl; rewrite ?Hown; pose proof (locked_nil o t x);
    destruct (decide (s <= x)), (decide (x <= e)); intuition lia.
Qed.

Lemma remove_range_spec rs owner s e : Forall valid_record rs -> valid_range s e ->
  Forall valid_record (remove_range rs owner s e) /\
  StronglySorted Z.le (lr_start <$> remove_range rs owner s e) /\
  forall o t x, locked (remove_range rs owner s e) o t x <->
    locked rs o t x /\ ~ (same_owner owner o = true /\ s <= x <= e).
Proof.
  intros Hv Hse. unfold remove_range.
  assert (H : Forall valid_record (rs ≫= trim owner s e) /\
    forall o t x, locked (rs ≫= trim owner s e) o t x <->
      locked rs o t x /\ ~ (same_owner owner o = true /\ s <= x <= e)).
  { induction Hv as [|r rs Hr _ [IH1 IH2]]; simpl.
    - split; [constructor|]. intros o t x. split; [by intros ?%locked_nil|by intros [?%locked_nil _]].
    - destruct (trim_spec owner s e r Hse Hr) as [T1 T2]. split; [by apply Forall_app|].
      intros o t x. rewrite locked_app, T2, IH2, !locked_cons.
      pose proof (locked_nil o t x). tauto. }
  destruct H as [H1 H2]. destruct (coalesce_spec _ H1) as (C1 & C2 & C3).
  split_and!; [done|done|]. intros o t x. by rewrite C3, H2.
Qed.

(** ** Conflicts *)

(** Another owner holds a byte of [s, e] in a way that excludes a lock of type
    [t]. *)
Definition contended (rs : list LockRecord) (owner : LockOwner) (t : LockType) (s e : Z) : Prop :=
  exists o t' x, same_owner o owner = false /\ locked rs o t' x /\ s <= x <= e /\
    (t = Write \/ t' = Write).

Lemma blocks_spec owner t s e r : valid_range s e -> valid_record r ->
  blocks owner t s e r = true <->
  same_owner (lr_owner r) owner = false /\ (t = Write \/ lr_type r = Write) /\
  exists x, lr_start r <= x <= lr_end r /\ s <= x <= e.
Proof.
  unfold blocks, conflict, valid_record, valid_range. intros Hse Hr.
  rewrite andb_true_iff, negb_true_iff.
  destruct (Z.ltb_spec (lr_end r) s), (Z.ltb_spec e (lr_start r)); simpl;
    try (split; [naive_solver|]; intros (_ & _ & x & ?); lia).
  rewrite orb_true_iff. split.
  - intros [? Hw]. split_and!; [done| |exists (Z.max (lr_start r) s); lia].
    destruct t, (lr_type r); naive_solver.
  - intros (? & Hw & _). split; [done|]. destruct t, (lr_type r); naive_solver.
Qed.

Lemma existsb_blocks rs owner t s e : valid_range s e -> Forall valid_record rs ->
  existsb (blocks owner t s e) rs = true <-> contended rs owner t s e.
Proof.
  intros Hse Hv. rewrite existsb_exists. rewrite Forall_forall in Hv. split.
  - intros (r & Hr%list_elem_of_In & Hb). apply blocks_spec in Hb as (Ho & Hw & x & Hx & Hs); [|done|by apply Hv].
    exists (lr_owner r), (lr_type r), x. split_and!; try done; try lia.
    exists r. by rewrite same_owner_refl.
  - intros (o & t' & x & Ho & (r & Hr & Hs & <- & Hx) & Hse' & Hw). exists r.
    split; [by apply list_elem_of_In|]. apply blocks_spec; [done|by apply Hv|].
    split_and!; [by rewrite (same_owner_trans _ _ _ Hs)|done|eauto].
Qed.

(** The lock list after [apply_lock] succeeded. *)
Definition relocked (rs rs' : list LockRecord) (owner : LockOwner) (t : option LockType) (s e : Z) : Prop :=
  forall o t' x, locked rs' o t' x <->
    if same_owner owner o && (s <=? x) && (x <=? e) then t = Some t' else locked rs o t' x.

Lemma in_range_spec owner o s e x : same_owner owner o && (s <=? x) && (x <=? e) = true <->
  same_owner owner o = true /\ s <= x <= e.
Proof. rewrite !andb_true_iff, !Z.leb_le. tauto. Qed.

Lemma relocked_ok rs rs' owner t s e : entry_ok rs -> Forall valid_record rs' ->
  StronglySorted Z.le (lr_start <$> rs') -> relocked rs rs' owner t s e ->
  (forall lt, t = Some lt -> ~ contended rs owner lt s e) -> entry_ok rs'.
Proof.
  intros [V S O X] V' S' Hr Hc. split; [done|done|..].
  - intros o t1 t2 x. rewrite !(Hr _ _ x). destruct (_ && _ && _); [congruence|apply O].
  - intros o o' t1 t2 x Ho. rewrite !(Hr _ _ x).
    assert (Hmix : forall a b t1 t2, same_owner a b = false -> same_owner owner a = true -> s <= x <= e ->
      t = Some t1 -> locked rs b t2 x -> t1 = Read /\ t2 = Read).
    { intros a b u1 u2 Hab Ha Hx Ht Hl. specialize (Hc _ Ht).
      assert (same_owner b owner = false).
      { rewrite same_owner_sym, (same_owner_trans _ _ b Ha). done. }
      destruct u1, u2; try done; exfalso; apply Hc; exists b; eauto 8. }
    destruct (same_owner owner o && _ && _) eqn:E1, (same_owner owner o' && _ && _) eqn:E2.
    + apply in_range_spec in E1 as [E1 _], E2 as [E2 _].
      rewrite (same_owner_trans _ _ o' E1) in E2. congruence.
    + apply in_range_spec in E1 as [E1 Hx]. intros Ht Hl. by eapply Hmix.
    + apply in_range_spec in E2 as [E2 Hx]. intros Hl Ht.
      destruct (Hmix o' o t2 t1); try done. by rewrite same_owner_sym.
    + intros H1 H2. by eapply X.
Qed.

Lemma apply_lock_spec rs owner pid ltype s e : entry_ok rs -> valid_range s e ->
  match apply_lock rs owner pid ltype s e with
  | (rs', true) => entry_ok rs' /\ relocked rs rs' owner (lock_type_of ltype) s e /\
      (forall t, lock_type_of ltype = Some t -> ~ contended rs owner t s e)
  | (rs', false) => rs' = rs /\ exists t, lock_type_of ltype = Some t /\ contended rs owner t s e
  end.
Proof.
  intros Hok Hse. unfold apply_lock. destruct (remove_range_spec rs owner s e (eo_valid _ Hok) Hse) as (R1 & R2 & R3).
  destruct (lock_type_of ltype) as [lt|].
  - pose proof (existsb_blocks rs owner lt s e Hse (eo_valid _ Hok)) as He.
    destruct (existsb _ rs); [split; [done|]; exists lt; split; [done|]; by apply He|].
    assert (Hnc : forall t, Some lt = Some t -> ~ contended rs owner t s e).
    { intros t [= <-] Hc. apply He in Hc. done. }
    destruct (coalesce_spec (remove_range rs owner s e ++ [mkRecord owner pid lt s e])) as (C1 & C2 & C3).
    { apply Forall_app. split; [done|]. by apply Forall_singleton. }
    assert (Hrel : relocked rs (coalesce (remove_range rs owner s e ++ [mkRecord owner pid lt s e]))
      owner (Some lt) s e).
    { intros o t x. rewrite C3, locked_app, R3, locked_cons. simpl.
      pose proof (locked_nil o t x). destruct (_ && _ && _) eqn:E.
      - apply in_range_spec in E. naive_solver.
      - assert (~ (same_owner owner o = true /\ s <= x <= e)) by (rewrite <- in_range_spec; congruence).
        naive_solver. }
    split_and!; [by eapply relocked_ok|done|done].
  - assert (Hrel : relocked rs (remove_range rs owner s e) owner None s e).
    { intros o t x. rewrite R3. destruct (_ && _ && _) eqn:E.
      - apply in_range_spec in E. naive_solver.
      - assert (~ (same_owner owner o = true /\ s <= x <= e)) by (rewrite <- in_range_spec; congruence).
        naive_solver. }
    split_and!; [by eapply relocked_ok|done|done].
Qed.

(** C20: setting or clearing a record lock on a well-formed entry.  A request
    is refused exactly when another owner holds one of its bytes and one of the
    two locks is a write lock, and then nothing changes.  Otherwise the owner
    holds exactly the requested type on every byte of the range (nothing, for
    an unlock), every other byte and every other owner keep what they had, and
    the entry stays sorted, single-typed per owner and free of conflicts. *)
Theorem apply_lock_correct rs owner pid ltype s e : entry_ok rs -> valid_range s e ->
  match apply_lock rs owner pid ltype s e with
  | (rs', true) => entry_ok rs' /\ relocked rs rs' owner (lock_type_of ltype) s e /\
      (forall t, lock_type_of ltype = Some t -> ~ contended rs owner t s e)
  | (rs', false) => rs' = rs /\ exists t, lock_type_of ltype = Some t /\ contended rs owner t s e
  end.
Proof. apply apply_lock_spec. Qed.

Lemma apply_lock_correct_witness :
  entry_ok [mkRecord (Posix 1 10) 10 Write 0 99] /\
  entry_ok (fst (apply_lock [mkRecord (Posix 1 10) 10 Write 0 99] (Posix 1 10) 10 F_RDLCK 20 29)).
Proof.
  assert (H : entry_ok [mkRecord (Posix 1 10) 10 Write 0 99]).
  { split; [apply Forall_singleton; vm_compute; intuition congruence|repeat constructor|..].
    - intros o t t' x (r & ->%list_elem_of_singleton & _ & <- & _) (r2 & ->%list_elem_of_singleton & _ & <- & _). done.
    - intros o o' t t' x Ho (r & ->%list_elem_of_singleton & H1 & <- & _) (r2 & ->%list_elem_of_singleton & H2 & <- & _).
      rewrite (same_owner_trans _ _ o' H1) in H2. congruence. }
  split; [done|].
  pose proof (apply_lock_correct [mkRecord (Posix 1 10) 10 Write 0 99] (Posix 1 10) 10 F_RDLCK 20 29 H
    ltac:(vm_compute; intuition congruence)) as Ha.
  destruct (apply_lock _ _ _ _ _ _) as [rs' b] eqn:E. simpl. destruct b; [apply Ha|].
  vm_compute in E. discriminate E.
Defined.

(** [F_GETLK].  It reports [F_UNLCK] exactly when the request could be
    granted now; otherwise the fields describe a lock of another owner that
    stands in the way, as an absolute range that resolves back to that lock. *)
Theorem posix_lock_get_correct f owner rs fl t s e :
  entry_ok rs -> Forall (fun r => 0 <= lr_start r) rs -> lock_type_of (l_type fl) = Some t ->
  resolve_range f fl = Ok (s, e) -> valid_range s e ->
  exists fl', posix_lock_get f owner (Some rs) fl = Ok fl' /\
    (l_type fl' = F_UNLCK <-> snd (apply_lock rs owner 0 (l_type fl) s e) = true) /\
    (l_type fl' <> F_UNLCK -> exists r, r ∈ rs /\ blocks owner t s e r = true /\
       lock_type_of (l_type fl') = Some (lr_type r) /\ l_pid fl' = lr_pid r /\
       resolve_range f fl' = Ok (lr_start r, lr_end r)).
Proof.
  intros Hok Hpos Ht Hr Hse. unfold posix_lock_get, apply_lock. rewrite Ht, Hr.
  destruct (List.find (blocks owner t s e) rs) as [r|] eqn:Ef.
  - apply find_some in Ef as [Hin%list_elem_of_In Hb]. eexists. split; [done|]. simpl. split.
    { assert (existsb (blocks owner t s e) rs = true) as ->; [|by destruct (lr_type r)].
      apply existsb_exists. exists r. split; [by apply list_elem_of_In|done]. }
    intros _. exists r. split_and!; try done; [by destruct (lr_type r)|].
    pose proof (proj1 (Forall_forall _ _) Hpos r Hin) as Hp.
    pose proof (proj1 (Forall_forall _ _) (eo_valid _ Hok) r Hin) as [Hv1 Hv2]. simpl in Hp.
    unfold resolve_range; simpl. unfold i128_checked, i64_min, i64_max, as_i64 in *.
    repeat (case_cmp; simpl; try lia); f_equal; f_equal; div_lia.
  - eexists. split; [done|]. simpl. split; [|done].
    assert (existsb (blocks owner t s e) rs = false) as ->; [|done].
    destruct (existsb _ rs) eqn:Ee; [|done]. apply existsb_exists in Ee as (r & Hin & Hb).
    eapply find_none in Ef; [|done]. congruence.
Qed.

Lemma posix_lock_get_correct_witness :
  let f := mkFile (mkKey 1 2) 0 (Some 100) (Ok ()) (Ok ()) 9 in
  let rs := fst (apply_lock [] (Posix 1 10) 10 F_WRLCK 5 9) in
  exists fl', posix_lock_get f (Ofd 9) (Some rs) (mkFlock F_RDLCK SEEK_END (-95) 3 0) = Ok fl' /\
    l_type fl' <> F_UNLCK.
Proof.
  intros f rs.
  assert (Hok : entry_ok rs).
  { pose proof (apply_lock_spec [] (Posix 1 10) 10 F_WRLCK 5 9 entry_ok_nil
      ltac:(vm_compute; intuition congruence)) as Ha.
    unfold rs. destruct (apply_lock _ _ _ _ _ _) as [rs' [|]]; [apply Ha|]. destruct Ha as [-> _]. apply entry_ok_nil. }
  destruct (posix_lock_get_correct f (Ofd 9) rs (mkFlock F_RDLCK SEEK_END (-95) 3 0) Read 5 7 Hok)
    as (fl' & Hg & Hu & _).
  - repeat constructor. vm_compute. congruence.
  - reflexivity.
  - vm_compute. reflexivity.
  - vm_compute. intuition congruence.
  - exists fl'. split; [exact Hg|]. intros E. apply Hu in E. vm_compute in E. discriminate E.
Defined.

(** ** Range resolution *)

(** The first byte a request names, before narrowing to [i64]. *)
Definition range_base (f : file) (fl : PosixFlock) : option Z :=
  if l_whence fl =? SEEK_SET then Some 0
  else if l_whence fl =? SEEK_CUR then Some (f_offset f)
  else if l_whence fl =? SEEK_END then f_size f else None.

Definition is_i64 (x : Z) : Prop := i64_min <= x <= i64_max.

Lemma i128_checked_small x : - 2 ^ 70 <= x <= 2 ^ 70 -> i128_checked x = Some x.
Proof. intros Hx. unfold i128_checked. case_cmp; simpl; done || lia. Qed.

Lemma as_i64_small x : is_i64 x -> as_i64 x = x.
Proof. unfold is_i64, as_i64, i64_min, i64_max. intros Hx. rewrite Z.mod_small; lia. Qed.

(** Turning [l_whence], [l_start] and [l_len] into an inclusive range.
    While the first byte fits in [i64], the result starts at the byte the
    request names (moved back by a negative length) and covers [|l_len|] bytes,
    or everything to the end when the length is zero or runs past it; a request
    that starts before byte 0, has an unknown [l_whence] or a length of
    [i64::MIN] gives EINVAL.  EOVERFLOW is never reported. *)
Theorem resolve_range_correct f fl :
  is_usize (f_offset f) -> (forall z, f_size f = Some z -> is_i64 z) -> is_i64 (l_start fl) -> is_i64 (l_len fl) ->
  match range_base f fl with
  | None => resolve_range f fl = Err EINVAL
  | Some base =>
      let lo := base + l_start fl + Z.min (l_len fl) 0 in
      if (lo <? 0) || (l_len fl =? i64_min) then resolve_range f fl = Err EINVAL
      else lo <= i64_max ->
        resolve_range f fl = Ok (lo, if l_len fl =? 0 then i64_max
                                     else Z.min i64_max (lo + Z.abs (l_len fl) - 1)) /\
        valid_range lo (if l_len fl =? 0 then i64_max else Z.min i64_max (lo + Z.abs (l_len fl) - 1))
  end.
Proof.
  intros Ho Hs Hst Hl. unfold resolve_range. fold (range_base f fl).
  assert (Hb : forall b, range_base f fl = Some b -> - 2 ^ 63 <= b < 2 ^ 64).
  { unfold range_base. intros b. repeat case_cmp; intros [= <-] || intros Hb; try lia;
      unfold is_usize, usize_modulus in *; try lia. specialize (Hs _ Hb). unfold is_i64, i64_min, i64_max in *. lia. }
  destruct (range_base f fl) as [b|]; [|done]. specialize (Hb b eq_refl).
  unfold is_i64 in *. assert (i64_min = - 2 ^ 63 /\ i64_max = 2 ^ 63 - 1) as [Emin Emax] by done.
  cbv zeta. rewrite (i128_checked_small (b + l_start fl)) by lia.
  assert (Hpair : (if l_len fl <? 0 then (fun s => (s, - l_len fl)) <$> i128_checked (b + l_start fl + l_len fl)
    else Some (b + l_start fl, l_len fl)) = Some (b + l_start fl + Z.min (l_len fl) 0, Z.abs (l_len fl))).
  { destruct (Z.ltb_spec (l_len fl) 0); [rewrite i128_checked_small by lia; simpl|]; f_equal; f_equal; lia. }
  rewrite Hpair. set (lo := b + l_start fl + Z.min (l_len fl) 0).
  destruct (Z.ltb_spec lo 0); simpl; [done|].
  assert ((i64_max <? Z.abs (l_len fl)) = (l_len fl =? i64_min)) as -> by (case_cmp; lia || done).
  destruct (Z.eqb_spec (l_len fl) i64_min); [done|]. intros Hlo. rewrite (as_i64_small lo) by (unfold is_i64; lia).
  assert ((Z.abs (l_len fl) =? 0) = (l_len fl =? 0)) as -> by (case_cmp; lia || done).
  destruct (Z.eqb_spec (l_len fl) 0); [split; [done|]; unfold valid_range; lia|].
  rewrite (i128_checked_small (lo + Z.abs (l_len fl))) by lia. unfold valid_range.
  split; [|lia]. do 2 f_equal. destruct (Z.ltb_spec i64_max (lo + Z.abs (l_len fl))); [lia|].
  rewrite as_i64_small by (unfold is_i64; lia). lia.
Qed.

Lemma resolve_range_correct_witness :
  let f := mkFile (mkKey 1 2) 50 (Some 100) (Ok ()) (Ok ()) 9 in
  resolve_range f (mkFlock F_RDLCK SEEK_CUR 10 (-20) 0) = Ok (40, 59).
Proof.
  intros f. pose proof (resolve_range_correct f (mkFlock F_RDLCK SEEK_CUR 10 (-20) 0)
    ltac:(vm_compute; intuition congruence) ltac:(intros z [= <-]; vm_compute; intuition congruence)
    ltac:(vm_compute; intuition congruence) ltac:(vm_compute; intuition congruence)) as Hr.
  apply Hr. vm_compute. congruence.
Defined.

(** A request whose first byte lies past [i64::MAX] is not rejected: the
    start wraps to a negative number and the lock covers the whole file. *)
Theorem resolve_range_wraps :
  resolve_range (mkFile (mkKey 1 2) i64_max (Some 0) (Ok ()) (Ok ()) 9) (mkFlock F_WRLCK SEEK_CUR 1 0 0)
  = Ok (i64_min, i64_max).
Proof. vm_compute. reflexivity. Qed.
