(* ===== verification/PosixLockMgr.v ===== *)
(** The record-lock manager: entries per file, blocking requests and deadlock
    detection ([os/src/fs/vfs/posix_lock.rs], public API).

    Entries are shared objects ([Arc<PosixLockEntry>]): a blocked request keeps
    its entry alive after the manager has dropped it, so entries live in a heap
    and the shard maps hold references to them. *)

From stdpp Require Import base numbers option gmap sets list.
From S2P Require Import Prelude BTree PosixLock.

#[export] Instance LockKey_countable : Countable LockKey.
Proof.
  refine (inj_countable' (fun k => (dev_id k, inode_id k)) (fun p => mkKey p.1 p.2) _). by intros [].
Defined.

(** Wait graph: waiter -> blocker -> count. *)
Abbreviation EdgeMap := (btree (btree Z)).

(** [heap] holds the lock lists of all live entries with the file each was made
    for; [shards] the entry of each file that has one. *)
Record PosixLockManager := mkMgr {
  shards : list (gmap LockKey nat);
  heap : list (LockKey * list LockRecord);
  wait_graph : EdgeMap;
}.

Definition mgr_init : PosixLockManager := mkMgr (replicate (Z.to_nat SHARDS) ∅) [] [].

Definition shard_map (m : PosixLockManager) (k : LockKey) : gmap LockKey nat :=
  default ∅ (shards m !! Z.to_nat (shard k)).
Definition find_entry (m : PosixLockManager) (k : LockKey) : option nat := shard_map m k !! k.
Definition set_shard (m : PosixLockManager) (k : LockKey) (s : gmap LockKey nat) : PosixLockManager :=
  mkMgr (<[Z.to_nat (shard k) := s]> (shards m)) (heap m) (wait_graph m).
Definition records (m : PosixLockManager) (e : nat) : list LockRecord :=
  match heap m !! e with Some (_, rs) => rs | None => [] end.
Definition set_records (m : PosixLockManager) (e : nat) (rs : list LockRecord) : PosixLockManager :=
  mkMgr (shards m) (alter (fun x => (x.1, rs)) e (heap m)) (wait_graph m).
Definition set_graph (m : PosixLockManager) (g : EdgeMap) : PosixLockManager :=
  mkMgr (shards m) (heap m) g.

(** [map.entry(key).or_insert_with(..).clone()] *)
Definition get_or_create (m : PosixLockManager) (k : LockKey) : PosixLockManager * nat :=
  match find_entry m k with
  | Some e => (m, e)
  | None =>
      let e := length (heap m) in
      let m := set_shard m k (<[k := e]> (shard_map m k)) in
      (mkMgr (shards m) (heap m ++ [(k, [])]) (wait_graph m), e)
  end.

(** ** Deadlock detection *)

(** The depth-first search; the head of [stack] is the top.  [fuel] bounds the
    number of pops. *)
Fixpoint dfs (fuel : nat) (g : EdgeMap) (waiter : Z) (visited : gset Z) (stack : list Z) : option bool :=
  match fuel with
  | O => None
  | S fuel =>
      match stack with
      | [] => Some false
      | n :: stack =>
          if n =? waiter then Some true
          else if bool_decide (n ∈ visited) then dfs fuel g waiter visited stack
          else
            let edges := match bt_get n g with Some e => e.*1 | None => [] end in
            dfs fuel g waiter ({[n]} ∪ visited) (rev edges ++ stack)
      end
  end.

(** Pops are bounded by the number of edges plus one. *)
Definition dfs_fuel (g : EdgeMap) : nat := S (S (Z.to_nat (bt_sum (fun e => Z.of_nat (length e)) g))).

Definition find_deadlock (g : EdgeMap) (waiter blocker : Z) : option bool :=
  dfs (dfs_fuel g) g waiter ∅ [blocker].

(** [wg.entry(waiter).or_default().entry(bid).and_modify(|c| *c += 1).or_insert(1)] *)
Definition add_edge (g : EdgeMap) (waiter bid : Z) : EdgeMap :=
  let edges := default [] (bt_get waiter g) in
  let count := match bt_get bid edges with Some c => usize_add c 1 | None => 1 end in
  bt_insert waiter (bt_insert bid count edges) g.

(** ** [F_SETLK] and [F_SETLKW] *)

(** A request after validation. *)
Record request := mkRequest {
  rq_owner : LockOwner;
  rq_pid : Z;
  rq_ltype : Z;
  rq_start : Z;
  rq_end : Z;
}.

Definition try_apply (m : PosixLockManager) (e : nat) (q : request) : PosixLockManager * bool :=
  let '(rs, ok) := apply_lock (records m e) (rq_owner q) (rq_pid q) (rq_ltype q) (rq_start q) (rq_end q) in
  (set_records m e rs, ok).

(** Validation and entry lookup common to both forms. *)
Definition prepare (m : PosixLockManager) (f : file) (owner : LockOwner) (fl : PosixFlock)
    : PosixLockManager * result (nat * request) SyscallErr :=
  match (if l_type fl =? F_UNLCK then Ok () else validate_access f (l_type fl)) with
  | Err e => (m, Err e)
  | Ok _ =>
      match resolve_range f fl with
      | Err e => (m, Err e)
      | Ok (s, e) =>
          let pid := match owner with Posix _ pid => pid | Ofd _ => -1 end in
          let '(m, en) := get_or_create m (f_key f) in
          (m, Ok (en, mkRequest owner pid (l_type fl) s e))
      end
  end.

(** The non-blocking form: the result and whether sleepers are woken. *)
Definition posix_lock_set (m : PosixLockManager) (f : file) (owner : LockOwner) (fl : PosixFlock)
    : PosixLockManager * result unit SyscallErr * bool :=
  match prepare m f owner fl with
  | (m, Err e) => (m, Err e, false)
  | (m, Ok (en, q)) =>
      match try_apply m en q with
      | (m, true) => (m, Ok (), l_type fl =? F_UNLCK)
      | (m, false) => (m, Err EAGAIN, false)
      end
  end.

(** The wait condition of the blocking form: [Some (Ok _)] granted, [Some (Err _)]
    deadlock, [None] keep sleeping. *)
Definition wait_cond (m : PosixLockManager) (en : nat) (q : request)
    : PosixLockManager * option (result unit SyscallErr) :=
  match try_apply m en q with
  | (m, true) => (m, Some (Ok ()))
  | (m, false) =>
      let t := default Read (lock_type_of (rq_ltype q)) in
      let waiter := owner_graph_id (rq_owner q) in
      match List.find (blocks (rq_owner q) t (rq_start q) (rq_end q)) (records m en) with
      | None => (m, None)
      | Some r =>
          let bid := owner_graph_id (lr_owner r) in
          let g := add_edge (wait_graph m) waiter bid in
          match find_deadlock g waiter bid with
          | Some true => (set_graph m (bt_remove waiter g), Some (Err EDEADLK))
          | _ => (set_graph m g, None)
          end
      end
  end.

(** Entering the blocking form: one attempt, then the first evaluation of the
    condition; [inr] is the sleeping request. *)
Definition posix_lock_setw (m : PosixLockManager) (f : file) (owner : LockOwner) (fl : PosixFlock)
    : PosixLockManager * (result unit SyscallErr + nat * request) :=
  match prepare m f owner fl with
  | (m, Err e) => (m, inl (Err e))
  | (m, Ok (en, q)) =>
      let m := set_graph m (bt_remove (owner_graph_id owner) (wait_graph m)) in
      match try_apply m en q with
      | (m, true) => (m, inl (Ok ()))
      | (m, false) =>
          match wait_cond m en q with
          | (m, Some r) => (m, inl r)
          | (m, None) => (m, inr (en, q))
          end
      end
  end.

(** A sleeper re-evaluates its condition; on success it leaves the wait graph. *)
Definition wake (m : PosixLockManager) (en : nat) (q : request)
    : PosixLockManager * option (result unit SyscallErr) :=
  match wait_cond m en q with
  | (m, Some (Ok _)) => (set_graph m (bt_remove (owner_graph_id (rq_owner q)) (wait_graph m)), Some (Ok ()))
  | r => r
  end.

(** ** Release on close *)

(** Drop the records that [keep] rejects; an emptied entry leaves the map. *)
Definition release (m : PosixLockManager) (k : LockKey) (keep : LockOwner -> bool) : PosixLockManager * bool :=
  match find_entry m k with
  | None => (m, false)
  | Some en =>
      let rs := records m en in
      let rs' := filter (fun r => keep (lr_owner r) = true) rs in
      let m := set_records m en rs' in
      let woken := (length rs' <? length rs)%nat in
      match rs' with
      | [] => (set_shard m k (delete k (shard_map m k)), woken)
      | _ => (m, woken)
      end
  end.

Definition release_posix_for_owner (m : PosixLockManager) (f : file) (owner_id : Z)
    : PosixLockManager * bool :=
  release m (f_key f) (fun o => match o with Posix id _ => negb (id =? owner_id) | Ofd _ => true end).

Definition release_ofd_for_file (m : PosixLockManager) (f : file) : PosixLockManager * bool :=
  release m (f_key f)
    (fun o => match o with Ofd id => negb (id =? f_open_file_id f) | Posix _ _ => true end).

(** Owner [o] holds byte [x] of the file [k] with type [t], in some entry. *)
Definition holds (m : PosixLockManager) (k : LockKey) (o : LockOwner) (t : LockType) (x : Z) : Prop :=
  exists e rs, heap m !! e = Some (k, rs) /\ locked rs o t x.

(** ** Deadlock detection is reachability *)

Definition edge (g : EdgeMap) (a b : Z) : Prop := exists es, bt_get a g = Some es /\ b ∈ es.*1.

(** Edges that leave unvisited nodes. *)
Definition open_edges (g : EdgeMap) (visited : gset Z) : Z :=
  foldr (fun e acc => (if bool_decide (e.1 ∈ visited) then 0 else Z.of_nat (length e.2)) + acc) 0 g.

Lemma open_edges_visit g visited n : bt_wf g -> n ∉ visited ->
  open_edges g visited = open_edges g ({[n]} ∪ visited) +
    match bt_get n g with Some es => Z.of_nat (length es) | None => 0 end.
Proof.
  intros Hwf Hn. induction g as [|[k es] g IH]; simpl; [done|].
  apply bt_wf_cons in Hwf as [Hwf Hlt]. specialize (IH Hwf).
  destruct (Z.eqb_spec n k) as [E|Hne].
  - rewrite <- E. rewrite (bool_decide_eq_false_2 (n ∈ visited)) by done.
    rewrite (bool_decide_eq_true_2 (n ∈ {[n]} ∪ visited)) by set_solver.
    assert (bt_get n g = None) as Hnone.
    { destruct (bt_get n g) as [es'|] eqn:Eg; [|done]. apply bt_get_elem in Eg.
      specialize (Hlt _ _ Eg). lia. }
    rewrite Hnone in IH. lia.
  - assert (bool_decide (k ∈ {[n]} ∪ visited) = bool_decide (k ∈ visited)) as ->
      by (apply bool_decide_ext; set_solver).
    lia.
Qed.

Lemma open_edges_nonneg g visited : 0 <= open_edges g visited.
Proof. induction g as [|[k es] g IH]; simpl; [done|]. case_bool_decide; lia. Qed.

Lemma open_edges_empty g : open_edges g ∅ = bt_sum (fun e => Z.of_nat (length e)) g.
Proof. induction g as [|[k es] g IH]; simpl; [done|]. rewrite bool_decide_eq_false_2 by set_solver. lia. Qed.

Lemma dfs_spec g waiter : bt_wf g -> forall fuel visited stack,
  (Z.to_nat (open_edges g visited) + length stack < fuel)%nat ->
  waiter ∉ visited -> (forall a b, a ∈ visited -> edge g a b -> b ∈ visited \/ b ∈ stack) ->
  exists r, dfs fuel g waiter visited stack = Some r /\
    (r = true <-> exists n, n ∈ stack /\ rtc (edge g) n waiter).
Proof.
  intros Hwf fuel. induction fuel as [|fuel IH]; intros visited stack Hf Hw Hcl; [lia|]. simpl.
  destruct stack as [|n stack].
  { exists false. split; [done|]. split; [done|]. by intros (n & ?%elem_of_nil & _). }
  destruct (Z.eqb_spec n waiter) as [E|Hne].
  { exists true. split; [done|]. split; [|done]. intros _. exists n. split; [by left|]. by rewrite E. }
  case_bool_decide as Hv.
  - destruct (IH visited stack) as (r & Hr & Hiff); [simpl in *; lia|done| |].
    { intros a b Ha Hab. destruct (Hcl a b Ha Hab) as [|[->|]%elem_of_cons]; auto. }
    exists r. split; [done|]. rewrite Hiff. split; [intros (k & Hk & ?); exists k; split; [by right|done]|].
    intros (k & [->|Hk]%elem_of_cons & Hreach); [|eauto].
    (* from a visited node the waiter is reached through the stack *)
    clear -Hcl Hv Hw Hreach. assert (Hmain : forall a, rtc (edge g) a waiter -> a ∈ visited ->
      exists b, b ∈ n :: stack /\ (b ∉ visited) /\ rtc (edge g) b waiter).
    { intros a Ha. induction Ha as [|a b c Hab Hbc IHa]; [done|]. intros Hav.
      destruct (decide (b ∈ visited)) as [|Hnb]; [by apply IHa|].
      destruct (Hcl a b Hav Hab) as [|Hb]; [done|]. eauto. }
    destruct (Hmain n Hreach Hv) as (b & [->|Hb]%elem_of_cons & Hnb & Hr); [done|eauto].
  - set (edges := match bt_get n g with Some e => e.*1 | None => [] end).
    assert (Hedge : forall b, b ∈ edges <-> edge g n b).
    { intros b. unfold edges, edge. destruct (bt_get n g) as [es|]; [naive_solver|]. set_solver. }
    destruct (IH ({[n]} ∪ visited) (rev edges ++ stack)) as (r & Hr & Hiff).
    + pose proof (open_edges_visit g visited n Hwf Hv). pose proof (open_edges_nonneg g ({[n]} ∪ visited)).
      rewrite length_app, length_rev. unfold edges. simpl in Hf.
      destruct (bt_get n g) as [es|]; simpl; rewrite ?length_fmap; lia.
    + set_solver.
    + intros a b. rewrite elem_of_union, elem_of_singleton, elem_of_app, elem_of_union, elem_of_singleton.
      assert (forall y, y ∈ rev edges <-> y ∈ edges) as Hrev by (intros y; by rewrite !list_elem_of_In, <- in_rev).
      rewrite Hrev. intros [->|Ha] Hab; [by right; left; apply Hedge|].
      destruct (Hcl a b Ha Hab) as [|[->|]%elem_of_cons]; auto.
    + exists r. split; [done|]. rewrite Hiff. split.
      * intros (k & [Hk|Hk]%elem_of_app & Hreach).
        -- exists n. split; [by left|]. apply list_elem_of_In, in_rev, list_elem_of_In in Hk.
           eapply rtc_l; [by apply Hedge|done].
        -- exists k. split; [by right|done].
      * intros (k & [->|Hk]%elem_of_cons & Hreach).
        -- inversion Hreach as [|? b ? Hb Hrest]; subst; [done|]. exists b. split; [|done].
           apply elem_of_app. left. apply list_elem_of_In. rewrite <- in_rev. apply list_elem_of_In. by apply Hedge.
        -- exists k. split; [by apply elem_of_app; right|done].
Qed.

(** C40: the depth-first search of [F_SETLKW] always terminates and reports a
    deadlock exactly when the wait graph leads from the blocker back to the
    waiting owner. *)
Theorem deadlock_detection_correct g waiter blocker : bt_wf g ->
  exists r, find_deadlock g waiter blocker = Some r /\ (r = true <-> rtc (edge g) blocker waiter).
Proof.
  intros Hwf. destruct (dfs_spec g waiter Hwf (dfs_fuel g) ∅ [blocker]) as (r & Hr & Hiff).
  - unfold dfs_fuel. rewrite open_edges_empty. simpl. lia.
  - set_solver.
  - set_solver.
  - exists r. split; [done|]. rewrite Hiff. split; [|eauto using list_elem_of_here].
    intros (n & ->%list_elem_of_singleton & ?). done.
Qed.

Lemma deadlock_detection_correct_witness :
  exists r, find_deadlock [(1, [(2, 1); (3, 1)]); (3, [(4, 2)]); (4, [(1, 1)])] 1 4 = Some r /\ r = true.
Proof.
  destruct (deadlock_detection_correct [(1, [(2, 1); (3, 1)]); (3, [(4, 2)]); (4, [(1, 1)])] 1 4)
    as (r & Hr & Hiff); [repeat constructor; lia|].
  exists r. split; [exact Hr|]. apply Hiff. eapply rtc_l; [|apply rtc_refl].
  exists [(1, 1)]. split; [reflexivity|]. by left.
Defined.

(** ** Histories without blocking requests *)

Lemma shard_bound k : 0 <= shard k < SHARDS.
Proof. unfold shard. apply Z.mod_pos_bound. done. Qed.

Lemma as_i64_range x : is_i64 (as_i64 x).
Proof.
  unfold is_i64, as_i64, i64_min, i64_max. pose proof (Z.mod_pos_bound (x + 2 ^ 63) (2 ^ 64)). lia.
Qed.

(** Whatever the request, a resolved range is a valid one. *)
Lemma resolve_range_valid f fl s e : resolve_range f fl = Ok (s, e) -> valid_range s e.
Proof.
  unfold resolve_range. fold (range_base f fl). destruct (range_base f fl) as [b|]; [|done].
  destruct (i128_checked _) as [st|]; [|done].
  destruct (if l_len fl <? 0 then _ else _) as [[lo l]|] eqn:Ep; [|done].
  destruct (Z.ltb_spec lo 0); simpl; [done|]. destruct (Z.ltb_spec i64_max l); simpl; [done|].
  assert (0 <= l).
  { destruct (Z.ltb_spec (l_len fl) 0); [|injection Ep as <- <-; lia].
    destruct (i128_checked _); [|done]. simpl in Ep. injection Ep as <- <-. lia. }
  pose proof (as_i64_range lo) as [A1 A2]. destruct (Z.eqb_spec l 0).
  { intros [= <- <-]. unfold valid_range. lia. }
  destruct (i128_checked (lo + l)) as [e'|] eqn:Ee; [|done].
  assert (e' = lo + l) as ->. { unfold i128_checked in Ee. by destruct (_ && _); simplify_eq. }
  destruct (Z.ltb_spec i64_max (lo + l)); intros [= <- <-]; unfold valid_range; [lia|].
  assert (i64_min = - 2 ^ 63) as Emin by done.
  rewrite !as_i64_small by (unfold is_i64; lia). lia.
Qed.

Record mgr_ok (m : PosixLockManager) : Prop := {
  mo_shards : length (shards m) = Z.to_nat SHARDS;
  mo_entry : forall k e, find_entry m k = Some e -> exists rs, heap m !! e = Some (k, rs);
  mo_heap : forall e k rs, heap m !! e = Some (k, rs) ->
    entry_ok rs /\ (find_entry m k <> Some e -> rs = []);
}.

Lemma shard_map_set m k s k' : length (shards m) = Z.to_nat SHARDS ->
  shard_map (set_shard m k s) k' = if shard k =? shard k' then s else shard_map m k'.
Proof.
  intros Hlen. unfold shard_map, set_shard. cbn [shards].
  pose proof (shard_bound k). pose proof (shard_bound k').
  destruct (Z.eqb_spec (shard k) (shard k')) as [<-|Hne].
  - rewrite list_lookup_insert_eq by lia. done.
  - rewrite list_lookup_insert_ne by lia. done.
Qed.

Lemma find_entry_set m k s k' : length (shards m) = Z.to_nat SHARDS ->
  find_entry (set_shard m k s) k' = if shard k =? shard k' then s !! k' else find_entry m k'.
Proof.
  intros Hlen. unfold find_entry. rewrite shard_map_set by done. by destruct (_ =? _).
Qed.

Lemma get_or_create_ok m k : mgr_ok m ->
  match get_or_create m k with
  | (m', e) => mgr_ok m' /\ find_entry m' k = Some e /\
      (forall k o t x, holds m' k o t x <-> holds m k o t x)
  end.
Proof.
  intros Hm. unfold get_or_create. destruct (find_entry m k) as [e|] eqn:E; [done|].
  set (m' := mkMgr _ _ _). destruct Hm as [M1 M2 M3].
  assert (Hfind : forall k', find_entry m' k' = if bool_decide (k' = k) then Some (length (heap m)) else find_entry m k').
  { intros k'. change (find_entry m' k') with (find_entry (set_shard m k (<[k:=length (heap m)]> (shard_map m k))) k').
    rewrite find_entry_set by done. case_bool_decide as Ek.
    - subst. rewrite Z.eqb_refl. apply lookup_insert_eq.
    - destruct (Z.eqb_spec (shard k) (shard k')) as [Es|]; [|done].
      rewrite lookup_insert_ne by done. unfold find_entry, shard_map. by rewrite Es. }
  split_and!; [split|..].
  - cbn [m' shards set_shard]. by rewrite length_insert.
  - intros k' e'. rewrite Hfind. simpl. case_bool_decide as Ek.
    + intros [= <-]. exists []. rewrite lookup_app_r, Nat.sub_diag by lia. by subst.
    + intros He'. destruct (M2 _ _ He') as [rs Hrs]. exists rs. by apply lookup_app_l_Some.
  - intros e' k' rs. simpl. rewrite Hfind. intros [He'|[? He']]%lookup_app_Some.
    + destruct (M3 _ _ _ He') as [H1 H2]. split; [done|]. case_bool_decide as Ek; [|done].
      intros _. apply H2. subst. congruence.
    + apply list_lookup_singleton_Some in He' as [? [= <- <-]]. split; [apply entry_ok_nil|done].
  - rewrite Hfind. by rewrite bool_decide_eq_true_2.
  - intros k' o t x. unfold holds. simpl. split.
    + intros (e' & rs & [He'|[? He']]%lookup_app_Some & Hl); [eauto|].
      apply list_lookup_singleton_Some in He' as [? [= <- <-]]. by apply locked_nil in Hl.
    + intros (e' & rs & He' & Hl). exists e', rs. split; [by apply lookup_app_l_Some|done].
Qed.

(** Replacing the records of the entry of [k]. *)
Lemma set_records_ok m k e rs : mgr_ok m -> find_entry m k = Some e -> entry_ok rs -> mgr_ok (set_records m e rs).
Proof.
  intros [M1 M2 M3] He Hrs. destruct (M2 _ _ He) as [rs0 H0]. split; simpl.
  - done.
  - intros k' e' He'. rewrite list_lookup_alter. case_decide as Ee; [|by apply M2]. subst.
    destruct (M2 _ _ He') as [rs' ->]. simpl. eauto.
  - intros e' k' rs'. change (find_entry (set_records m e rs) k') with (find_entry m k').
    rewrite list_lookup_alter. case_decide as Ee; [|apply M3]. subst. rewrite H0. simpl.
    intros [= <- <-]. done.
Qed.

Lemma records_of m k e : mgr_ok m -> find_entry m k = Some e ->
  heap m !! e = Some (k, records m e) /\ entry_ok (records m e).
Proof.
  intros [M1 M2 M3] He. destruct (M2 _ _ He) as [rs Hrs]. unfold records. rewrite Hrs.
  split; [done|]. by apply (M3 _ _ _ Hrs).
Qed.

Lemma release_ok m k keep : mgr_ok m -> mgr_ok (fst (release m k keep)).
Proof.
  intros Hm. unfold release. destruct (find_entry m k) as [e|] eqn:He; [|done].
  destruct (records_of _ _ _ Hm He) as [Hh Hok].
  set (rs' := filter _ _). assert (Hok' : entry_ok rs').
  { assert (Hsub : forall o t x, locked rs' o t x -> locked (records m e) o t x).
    { intros o t x (r & [_ Hr]%list_elem_of_filter & Hrest). by exists r. }
    destruct Hok as [V S O X]. split.
    - rewrite Forall_forall in *. intros y [_ Hy]%list_elem_of_filter. by apply V.
    - unfold rs'. clear -S. induction (records m e) as [|r l IH]; [constructor|].
      simpl in S. inversion S as [|? ? S' Hall]; subst. rewrite filter_cons. case_decide; [|by apply IH].
      simpl. constructor; [by apply IH|]. rewrite Forall_fmap, Forall_forall in *.
      intros y [_ Hy]%list_elem_of_filter. by apply Hall.
    - intros o t t' x H1%Hsub H2%Hsub. by eapply O.
    - intros o o' t t' x Ho H1%Hsub H2%Hsub. by eapply X. }
  pose proof (set_records_ok m k e rs' Hm He Hok') as Hm'.
  destruct rs' as [|r l]; [|done]. simpl.
  destruct Hm' as [M1 M2 M3]. set (m' := set_records m e []) in *.
  assert (Hfind : forall k', find_entry (set_shard m' k (delete k (shard_map m' k))) k' =
    if bool_decide (k' = k) then None else find_entry m' k').
  { intros k'. rewrite find_entry_set by done. case_bool_decide as Ek.
    - subst. rewrite Z.eqb_refl. apply lookup_delete_eq.
    - destruct (Z.eqb_spec (shard k) (shard k')) as [Es|]; [|done].
      rewrite lookup_delete_ne by done. unfold find_entry, shard_map. by rewrite Es. }
  split.
  - cbn [shards set_shard]. by rewrite length_insert.
  - intros k' e'. rewrite Hfind. case_bool_decide; [done|]. apply M2.
  - intros e' k' rs. rewrite Hfind. intros Hrs. destruct (M3 _ _ _ Hrs) as [H1 H2]. split; [done|].
    case_bool_decide as Ek; [|done]. subst k'. intros _.
    destruct (decide (find_entry m' k = Some e')) as [He'|]; [|by apply H2].
    change (find_entry m' k) with (find_entry m k) in He'. assert (e' = e) as -> by congruence.
    unfold m', set_records in Hrs. simpl in Hrs. rewrite list_lookup_alter, decide_True in Hrs by done.
    rewrite Hh in Hrs. simpl in Hrs. congruence.
Qed.

(** The operations that do not sleep. *)
Inductive lock_op :=
  | OSet (f : file) (owner : LockOwner) (fl : PosixFlock)
  | OReleasePosix (f : file) (owner_id : Z)
  | OReleaseOfd (f : file).

Definition run_lock_op (m : PosixLockManager) (o : lock_op) : PosixLockManager :=
  match o with
  | OSet f owner fl => fst (fst (posix_lock_set m f owner fl))
  | OReleasePosix f id => fst (release_posix_for_owner m f id)
  | OReleaseOfd f => fst (release_ofd_for_file m f)
  end.

Lemma run_lock_op_ok m o : mgr_ok m -> mgr_ok (run_lock_op m o).
Proof.
  intros Hm. destruct o as [f owner fl|f id|f]; simpl; [|by apply release_ok..].
  unfold posix_lock_set, prepare.
  destruct (if l_type fl =? F_UNLCK then Ok () else _) as [[]|]; [|done].
  destruct (resolve_range f fl) as [[s e]|] eqn:Er; [|done].
  pose proof (get_or_create_ok m (f_key f) Hm) as Hg.
  destruct (get_or_create m (f_key f)) as [m1 en]. destruct Hg as (Hm1 & Hf & _).
  unfold try_apply; simpl. destruct (records_of _ _ _ Hm1 Hf) as [_ Hok].
  pose proof (apply_lock_spec (records m1 en) owner (match owner with Posix _ pid => pid | Ofd _ => -1 end)
    (l_type fl) s e Hok (resolve_range_valid _ _ _ _ Er)) as Ha.
  destruct (apply_lock _ _ _ _ _ _) as [rs [|]]; simpl; eapply set_records_ok; try done; [apply Ha|].
  destruct Ha as [-> _]. done.
Qed.


(** ** What blocking requests break *)

Definition demo_file : file := mkFile (mkKey 1 2) 0 (Some 100) (Ok ()) (Ok ()) 9.
Definition other_file : file := mkFile (mkKey 1 3) 0 (Some 100) (Ok ()) (Ok ()) 10.
Definition wr : PosixFlock := mkFlock F_WRLCK SEEK_SET 0 10 0.
Definition rd : PosixFlock := mkFlock F_RDLCK SEEK_SET 0 10 0.
Definition un : PosixFlock := mkFlock F_UNLCK SEEK_SET 0 10 0.


(** With a sleeper, exclusion fails.  Owner 1 holds a write lock and owner
    2 sleeps for it; closing owner 1's descriptor empties the entry and removes
    it from the manager although the sleeper still refers to it.  Owner 2 is
    then granted its lock in the orphaned entry, and owner 3, which gets a
    fresh entry, is granted the same bytes: two write locks on one byte. *)
Theorem blocked_lock_loses_exclusion : exists m1 en q m2 m3 m4 w,
  posix_lock_setw (fst (fst (posix_lock_set mgr_init demo_file (Posix 1 10) wr))) demo_file (Posix 2 20) wr
    = (m1, inr (en, q)) /\
  release_posix_for_owner m1 demo_file 1 = (m2, true) /\
  wake m2 en q = (m3, Some (Ok ())) /\
  posix_lock_set m3 demo_file (Posix 3 30) wr = (m4, Ok (), w) /\
  holds m4 (mkKey 1 2) (Posix 2 20) Write 0 /\ holds m4 (mkKey 1 2) (Posix 3 30) Write 0.
Proof.
  do 7 eexists. split; [vm_compute; reflexivity|]. split; [vm_compute; reflexivity|].
  split; [vm_compute; reflexivity|]. split; [vm_compute; reflexivity|]. split.
  - eexists 0%nat, _. split; [reflexivity|]. eexists. split; [by left|]. done.
  - eexists 1%nat, _. split; [reflexivity|]. eexists. split; [by left|]. done.
Qed.

(** EDEADLK without a deadlock.  Owner 1 sleeps on a file first held by
    owner 2 and then by owner 3; its old edge to owner 2 stays in the wait
    graph.  When owner 2, which holds no lock at all any more, asks for a lock
    of owner 1, the search finds the stale edge and reports a deadlock. *)
Theorem stale_wait_edge_reports_deadlock : exists m1 en q m2 m3,
  (let m := fst (fst (posix_lock_set mgr_init other_file (Posix 1 10) wr)) in
   let m := fst (fst (posix_lock_set m demo_file (Posix 2 20) wr)) in
   posix_lock_setw m demo_file (Posix 1 10) wr) = (m1, inr (en, q)) /\
  (let m := fst (fst (posix_lock_set m1 demo_file (Posix 2 20) un)) in
   let m := fst (fst (posix_lock_set m demo_file (Posix 3 30) wr)) in
   wake m en q) = (m2, None) /\
  (forall k pid t x, ~ holds m2 k (Posix 2 pid) t x) /\
  posix_lock_setw m2 other_file (Posix 2 20) wr = (m3, inl (Err EDEADLK)).
Proof.
  do 5 eexists. split; [vm_compute; reflexivity|]. split; [vm_compute; reflexivity|].
  split; [|vm_compute; reflexivity].
  intros k pid t x (e & rs & He & r & Hr & Ho & _). simpl in He.
  destruct e as [|[|e]]; simpl in He; simplify_eq; apply list_elem_of_singleton in Hr as ->; done.
Qed.

(** A missed wake-up.  Owner 2 sleeps for a read lock on a range that owner
    1 holds for writing; when owner 1 downgrades to a read lock the request
    becomes grantable, but only unlocking wakes sleepers. *)
Theorem downgrade_misses_wakeup : exists m1 en q m2,
  posix_lock_setw (fst (fst (posix_lock_set mgr_init demo_file (Posix 1 10) wr))) demo_file (Posix 2 20) rd
    = (m1, inr (en, q)) /\
  posix_lock_set m1 demo_file (Posix 1 10) rd = (m2, Ok (), false) /\
  snd (wake m2 en q) = Some (Ok ()).
Proof.
  do 4 eexists. split; [vm_compute; reflexivity|]. split; [vm_compute; reflexivity|].
  vm_compute. reflexivity.
Qed.
