(* ===== verification/PageFlags.v ===== *)
(** The state word of a cached file page and the writers, write-back and mapped
    stores that compete for it ([PageEntry] in [os/src/fs/page_cache.rs]).

    [flags] is one atomic word; every operation below is one atomic access (a
    compare-and-swap loop counts as its successful exchange).  Page contents are
    represented by a version number that every store to the page advances. *)

From stdpp Require Import base numbers option list.
From S2P Require Import Prelude.

Definition PG_LOCKED : Z := 1.
Definition PG_UPTODATE : Z := 2.
Definition PG_DIRTY : Z := 4.
Definition PG_WRITEBACK : Z := 8.
Definition PG_ERROR : Z := 16.
Definition PG_REFERENCED : Z := 32.
Definition PG_REDIRTIED : Z := 64.
Definition PG_FILEMAP_READAHEAD : Z := 128.
Definition PG_ORTHOGONAL : Z := Z.lor PG_REFERENCED (Z.lor PG_REDIRTIED PG_FILEMAP_READAHEAD).

Inductive PageState := Loading | UpToDate | Dirty | Writeback | PError.

#[export] Instance PageState_eq_dec : EqDecision PageState.
Proof. solve_decision. Defined.

(** [flags & flag != 0] *)
Definition test_flag (flags flag : Z) : bool := negb (Z.land flags flag =? 0).

(** ** Operations on the word *)

Definition flags_for_state (s : PageState) : Z :=
  match s with
  | Loading => PG_LOCKED
  | UpToDate => PG_UPTODATE
  | Dirty => Z.lor PG_UPTODATE PG_DIRTY
  | Writeback => Z.lor PG_UPTODATE (Z.lor PG_WRITEBACK PG_LOCKED)
  | PError => PG_ERROR
  end.

Definition decode_state (flags : Z) : PageState :=
  if test_flag flags PG_ERROR then PError
  else if test_flag flags PG_LOCKED && negb (test_flag flags PG_UPTODATE) then Loading
  else if test_flag flags PG_WRITEBACK then Writeback
  else if test_flag flags PG_DIRTY then Dirty
  else UpToDate.

Definition set_state (flags : Z) (s : PageState) : Z :=
  Z.lor (flags_for_state s) (Z.land flags PG_ORTHOGONAL).

(** [None]: the decoded state is not [old]. *)
Definition compare_exchange_state (flags : Z) (old new : PageState) : option Z :=
  if bool_decide (decode_state flags = old)
  then Some (Z.lor (flags_for_state new) (Z.land flags PG_ORTHOGONAL)) else None.

Definition set_flag (flags flag : Z) : Z := Z.lor flags flag.
Definition clear_flag (flags flag : Z) : Z := Z.ldiff flags flag.
Definition test_and_clear_flag (flags flag : Z) : Z * bool := (Z.ldiff flags flag, test_flag flags flag).

(** [Err]: EIO; [Ok None]: busy; [Ok (Some (new, was_dirty))]: leased. *)
Definition try_lock_for_write (flags : Z) : result (option (Z * bool)) unit :=
  match decode_state flags with
  | UpToDate | Dirty =>
      if test_flag flags PG_LOCKED then Ok None
      else Ok (Some (Z.lor flags (Z.lor PG_LOCKED PG_REFERENCED), test_flag flags PG_DIRTY))
  | Loading | Writeback => Ok None
  | PError => Err ()
  end.

Definition write_lease_ready (flags : Z) : bool :=
  match decode_state flags with
  | UpToDate | Dirty | PError => negb (test_flag flags PG_LOCKED) || test_flag flags PG_ERROR
  | _ => false
  end.

(** The new word and whether the page became dirty. *)
Definition commit_write (flags : Z) : Z * bool :=
  (Z.ldiff (Z.lor flags (Z.lor PG_UPTODATE (Z.lor PG_DIRTY PG_REFERENCED))) PG_LOCKED,
   negb (test_flag flags PG_DIRTY)).

Definition abort_write (flags : Z) : Z := clear_flag flags PG_LOCKED.

Definition claim_writeback (flags : Z) : option Z :=
  if test_flag flags PG_DIRTY && negb (test_flag flags PG_LOCKED)
  then Some (Z.lor (Z.ldiff flags PG_DIRTY) (Z.lor PG_WRITEBACK PG_LOCKED)) else None.

(** [complete_writeback] makes two accesses: [test_and_clear_flag(PG_REDIRTIED)],
    then this update with the result of the test. *)
Definition finish_writeback (flags : Z) (redirtied : bool) : Z :=
  let add := if redirtied then PG_DIRTY else Z.lor PG_UPTODATE PG_REFERENCED in
  Z.ldiff (Z.lor flags add) (Z.lor PG_WRITEBACK (Z.lor PG_LOCKED PG_REDIRTIED)).

Definition restore_dirty_after_writeback (flags : Z) : Z :=
  Z.ldiff (Z.lor flags PG_DIRTY) (Z.lor PG_WRITEBACK (Z.lor PG_LOCKED PG_REDIRTIED)).

(** ** The machine: one page *)

(** A thread at work on the page: a writer holding the lease (before or after
    the copy), a write-back (claimed, with a snapshot taken, stored, or with the
    redirty test done), a mapping store (after loading the state). *)
Inductive actor :=
  | Idle
  | WLeased (was_dirty : bool)
  | WCopied (was_dirty : bool)
  | BClaimed
  | BSnapshot (version : Z)
  | BStored
  | BTested (redirtied : bool)
  | MSaw (s : PageState).

(** [mem] and [disk] are the versions in the page and on the backend; [mapped]
    says whether a writable shared mapping of the page exists; [dirty_count] and
    [wb_count] are the page's share of the global counters. *)
Record page := mkPage {
  flags : Z;
  mem : Z;
  disk : Z;
  mapped : bool;
  dirty_count : Z;
  wb_count : Z;
  actors : list actor;
}.

Inductive event :=
  | ELease (i : nat) | ECopy (i : nat) | ECommit (i : nat) | EAbort (i : nat)
  | EClaim (i : nat) | ESnapshot (i : nat) | EStore (i : nat) | EFail (i : nat)
  | ETest (i : nat) | EFinish (i : nat)
  | EFault (i : nat) | EMarkDirty (i : nat) | EUserStore.

Definition is_fault (a : actor) : bool := match a with MSaw _ => true | _ => false end.

Definition set_actor (p : page) (i : nat) (a : actor) : list actor := <[i := a]> (actors p).
Definition b2z (b : bool) : Z := if b then 1 else 0.

(** One atomic step; [None] when the event does not apply.  A fault holds its
    address-space lock from its first look at the state until the mapping is
    installed; [ESnapshot], which write-protects the mappings, takes the lock of
    every address space and so waits for such faults. *)
Definition page_step (p : page) (e : event) : option page :=
  match e with
  | ELease i =>
      match actors p !! i, try_lock_for_write (flags p) with
      | Some Idle, Ok (Some (f, d)) =>
          Some (mkPage f (mem p) (disk p) (mapped p) (dirty_count p) (wb_count p) (set_actor p i (WLeased d)))
      | _, _ => None
      end
  | ECopy i =>
      match actors p !! i with
      | Some (WLeased d) =>
          Some (mkPage (flags p) (mem p + 1) (disk p) (mapped p) (dirty_count p) (wb_count p)
                  (set_actor p i (WCopied d)))
      | _ => None
      end
  | ECommit i =>
      match actors p !! i with
      | Some (WCopied d) =>
          let '(f, became) := commit_write (flags p) in
          Some (mkPage f (mem p) (disk p) (mapped p) (dirty_count p + b2z (became && negb d)) (wb_count p)
                  (set_actor p i Idle))
      | _ => None
      end
  | EAbort i =>
      match actors p !! i with
      | Some (WLeased _) =>
          Some (mkPage (abort_write (flags p)) (mem p) (disk p) (mapped p) (dirty_count p) (wb_count p)
                  (set_actor p i Idle))
      | _ => None
      end
  | EClaim i =>
      match actors p !! i, claim_writeback (flags p) with
      | Some Idle, Some f =>
          Some (mkPage f (mem p) (disk p) (mapped p) (dirty_count p - 1) (wb_count p + 1)
                  (set_actor p i BClaimed))
      | _, _ => None
      end
  | ESnapshot i =>
      match actors p !! i with
      | Some BClaimed =>
          if forallb (fun a => negb (is_fault a)) (actors p)
          then Some (mkPage (flags p) (mem p) (disk p) false (dirty_count p) (wb_count p)
                       (set_actor p i (BSnapshot (mem p))))
          else None
      | _ => None
      end
  | EStore i =>
      match actors p !! i with
      | Some (BSnapshot v) =>
          Some (mkPage (flags p) (mem p) v (mapped p) (dirty_count p) (wb_count p) (set_actor p i BStored))
      | _ => None
      end
  | EFail i =>
      match actors p !! i with
      | Some (BClaimed | BSnapshot _) =>
          Some (mkPage (restore_dirty_after_writeback (flags p)) (mem p) (disk p) (mapped p)
                  (dirty_count p + 1) (wb_count p - 1) (set_actor p i Idle))
      | _ => None
      end
  | ETest i =>
      match actors p !! i with
      | Some BStored =>
          let '(f, r) := test_and_clear_flag (flags p) PG_REDIRTIED in
          Some (mkPage f (mem p) (disk p) (mapped p) (dirty_count p) (wb_count p) (set_actor p i (BTested r)))
      | _ => None
      end
  | EFinish i =>
      match actors p !! i with
      | Some (BTested r) =>
          Some (mkPage (finish_writeback (flags p) r) (mem p) (disk p) (mapped p)
                  (dirty_count p + b2z r) (wb_count p - 1) (set_actor p i Idle))
      | _ => None
      end
  | EFault i =>
      match actors p !! i, decode_state (flags p) with
      | Some Idle, (UpToDate | Dirty) =>
          Some (mkPage (flags p) (mem p) (disk p) (mapped p) (dirty_count p) (wb_count p)
                  (set_actor p i (MSaw (decode_state (flags p)))))
      | _, _ => None
      end
  | EMarkDirty i =>
      match actors p !! i with
      | Some (MSaw _) =>
          let mapped_page f n := Some (mkPage f (mem p) (disk p) true (dirty_count p + n) (wb_count p)
                                         (set_actor p i Idle)) in
          match decode_state (flags p) with
          | UpToDate =>
              match compare_exchange_state (flags p) UpToDate Dirty with
              | Some f => mapped_page f 1
              | None => None
              end
          | Writeback => mapped_page (set_flag (flags p) PG_REDIRTIED) 0
          | _ => mapped_page (flags p) 0
          end
      | _ => None
      end
  | EUserStore =>
      if mapped p
      then Some (mkPage (flags p) (mem p + 1) (disk p) true (dirty_count p) (wb_count p) (actors p))
      else None
  end.

Fixpoint page_run (p : page) (l : list event) : option page :=
  match l with
  | [] => Some p
  | e :: l => p ← page_step p e; page_run p l
  end.

(** A freshly read page and [n] idle threads. *)
Definition page_init (n : nat) : page := mkPage PG_UPTODATE 0 0 false 0 0 (replicate n Idle).

(** ** Facts about the word, by enumeration *)

Lemma byte_forall (P : Z -> Prop) `{forall f, Decision (P f)} :
  bool_decide (Forall P (seqZ 0 256)) = true -> forall f, 0 <= f < 256 -> P f.
Proof.
  intros Hb f Hf. apply bool_decide_eq_true in Hb. rewrite Forall_forall in Hb. apply Hb.
  apply elem_of_seqZ. lia.
Qed.

Abbreviation L f := (test_flag f PG_LOCKED).
Abbreviation D f := (test_flag f PG_DIRTY).
Abbreviation W f := (test_flag f PG_WRITEBACK).

(** The words of a loaded page. *)
Definition flags_ok (f : Z) : Prop :=
  0 <= f < 256 /\ test_flag f PG_ERROR = false /\ test_flag f PG_UPTODATE = true.

Ltac by_bytes f H :=
  let Hr := fresh in let He := fresh in let Hu := fresh in
  destruct H as (Hr & He & Hu); revert He Hu;
  match goal with |- ?G =>
    match eval pattern f in G with
    | ?P _ => apply (byte_forall P); [vm_compute; reflexivity|exact Hr]
    end
  end.

(** The state written into the flag word is the state read back from it,
    whatever the referenced, redirtied and read-ahead bits are, and those bits
    survive a change of state. *)
Theorem page_state_roundtrip f s : 0 <= f < 256 ->
  decode_state (set_state f s) = s /\ Z.land (set_state f s) PG_ORTHOGONAL = Z.land f PG_ORTHOGONAL.
Proof.
  revert f. apply (byte_forall (fun f => decode_state (set_state f s) = s /\
    Z.land (set_state f s) PG_ORTHOGONAL = Z.land f PG_ORTHOGONAL)).
  destruct s; vm_compute; reflexivity.
Qed.

Lemma page_state_roundtrip_witness : decode_state (set_state (set_flag PG_DIRTY PG_REDIRTIED) Writeback) = Writeback.
Proof. apply (page_state_roundtrip (set_flag PG_DIRTY PG_REDIRTIED) Writeback). vm_compute. intuition congruence. Defined.

Lemma lease_flags f f' d : flags_ok f -> try_lock_for_write f = Ok (Some (f', d)) ->
  flags_ok f' /\ L f = false /\ W f = false /\ L f' = true /\ W f' = false /\ D f' = D f /\ d = D f.
Proof.
  intros H E. unfold flags_ok in *.
  assert (Hc : match try_lock_for_write f with
    | Ok (Some (f', d)) => bool_decide ((0 <= f' < 256 /\ test_flag f' PG_ERROR = false /\
        test_flag f' PG_UPTODATE = true) /\ L f = false /\ W f = false /\ L f' = true /\ W f' = false /\
        D f' = D f /\ d = D f)
    | _ => true end = true) by by_bytes f H.
  rewrite E in Hc. by apply bool_decide_eq_true in Hc.
Qed.

Lemma commit_flags f : flags_ok f ->
  flags_ok (fst (commit_write f)) /\ L (fst (commit_write f)) = false /\ D (fst (commit_write f)) = true /\
  W (fst (commit_write f)) = W f /\ snd (commit_write f) = negb (D f).
Proof. intros H. unfold flags_ok in *. by_bytes f H. Qed.

Lemma abort_flags f : flags_ok f ->
  flags_ok (abort_write f) /\ L (abort_write f) = false /\ D (abort_write f) = D f /\ W (abort_write f) = W f.
Proof. intros H. unfold flags_ok in *. by_bytes f H. Qed.

Lemma claim_flags f f' : flags_ok f -> claim_writeback f = Some f' ->
  flags_ok f' /\ L f = false /\ D f = true /\ L f' = true /\ D f' = false /\ W f' = true.
Proof.
  intros H E. unfold flags_ok in *.
  assert (Hc : match claim_writeback f with
    | Some f' => bool_decide ((0 <= f' < 256 /\ test_flag f' PG_ERROR = false /\
        test_flag f' PG_UPTODATE = true) /\ L f = false /\ D f = true /\ L f' = true /\ D f' = false /\ W f' = true)
    | _ => true end = true) by by_bytes f H.
  rewrite E in Hc. by apply bool_decide_eq_true in Hc.
Qed.

Lemma restore_flags f : flags_ok f -> let f' := restore_dirty_after_writeback f in
  flags_ok f' /\ L f' = false /\ D f' = true /\ W f' = false.
Proof. intros H. unfold flags_ok in *. by_bytes f H. Qed.

Lemma clear_redirtied_flags f : flags_ok f -> let f' := fst (test_and_clear_flag f PG_REDIRTIED) in
  flags_ok f' /\ L f' = L f /\ D f' = D f /\ W f' = W f.
Proof. intros H. unfold flags_ok in *. by_bytes f H. Qed.

Lemma set_redirtied_flags f : flags_ok f -> let f' := set_flag f PG_REDIRTIED in
  flags_ok f' /\ L f' = L f /\ D f' = D f /\ W f' = W f.
Proof. intros H. unfold flags_ok in *. by_bytes f H. Qed.

Lemma finish_flags f r : flags_ok f -> let f' := finish_writeback f r in
  flags_ok f' /\ L f' = false /\ D f' = D f || r /\ W f' = false.
Proof. intros H. unfold flags_ok in *. destruct r; by_bytes f H. Qed.

Lemma decode_flags f : flags_ok f ->
  (decode_state f = UpToDate -> W f = false /\ D f = false) /\
  (decode_state f = Dirty -> W f = false /\ D f = true) /\
  (decode_state f = Writeback -> W f = true) /\ decode_state f <> Loading /\ decode_state f <> PError.
Proof. intros H. unfold flags_ok in *. by_bytes f H. Qed.

Lemma mark_dirty_flags f f' : flags_ok f -> compare_exchange_state f UpToDate Dirty = Some f' ->
  flags_ok f' /\ L f' = false /\ D f' = true /\ W f' = false.
Proof.
  intros H E. unfold flags_ok in *.
  assert (Hc : match compare_exchange_state f UpToDate Dirty with
    | Some f' => bool_decide ((0 <= f' < 256 /\ test_flag f' PG_ERROR = false /\
        test_flag f' PG_UPTODATE = true) /\ L f' = false /\ D f' = true /\ W f' = false)
    | _ => true end = true) by by_bytes f H.
  rewrite E in Hc. by apply bool_decide_eq_true in Hc.
Qed.

(** ** Counting threads *)

Definition cnt (P : actor -> bool) (l : list actor) : Z := foldr (fun a n => b2z (P a) + n) 0 l.

Lemma cnt_nonneg P l : 0 <= cnt P l.
Proof. induction l as [|a l IH]; simpl; [done|]. unfold b2z. destruct (P a); lia. Qed.

Lemma cnt_insert P l i a b : l !! i = Some a -> cnt P (<[i := b]> l) = cnt P l - b2z (P a) + b2z (P b).
Proof.
  revert i. induction l as [|x l IH]; intros [|i] Hi; simpl in *; try done.
  - injection Hi as ->. lia.
  - rewrite (IH i Hi). lia.
Qed.

Lemma cnt_pos P l i a : l !! i = Some a -> P a = true -> 1 <= cnt P l.
Proof.
  revert i. induction l as [|x l IH]; intros [|i] Hi Ha; simpl in *; try done.
  - injection Hi as ->. rewrite Ha. pose proof (cnt_nonneg P l). simpl. lia.
  - specialize (IH i Hi Ha). unfold b2z. destruct (P x); lia.
Qed.

Lemma cnt_two P l i j a b : i <> j -> l !! i = Some a -> l !! j = Some b -> P a = true -> P b = true ->
  2 <= cnt P l.
Proof.
  revert i j. induction l as [|x l IH]; intros [|i] [|j] Hij Hi Hj Ha Hb; simpl in *; try done.
  - injection Hi as ->. rewrite Ha. pose proof (cnt_pos P l j b Hj Hb). simpl. lia.
  - injection Hj as ->. rewrite Hb. pose proof (cnt_pos P l i a Hi Ha). simpl. lia.
  - assert (2 <= cnt P l) by (apply (IH i j); try done; congruence). unfold b2z. destruct (P x); lia.
Qed.

Lemma cnt_replicate P n : P Idle = false -> cnt P (replicate n Idle) = 0.
Proof. intros HP. induction n as [|n IH]; simpl; [done|]. rewrite HP. simpl. lia. Qed.

Definition is_w (a : actor) : bool := match a with WLeased _ | WCopied _ => true | _ => false end.
Definition is_b (a : actor) : bool :=
  match a with BClaimed | BSnapshot _ | BStored | BTested _ => true | _ => false end.
Definition is_holder (a : actor) : bool := is_w a || is_b a.
Definition is_copied (a : actor) : bool := match a with WCopied _ => true | _ => false end.
Definition is_claimed (a : actor) : bool := match a with BClaimed => true | _ => false end.
Definition is_unstored (a : actor) : bool := match a with BClaimed | BSnapshot _ => true | _ => false end.
Definition is_late (a : actor) : bool := match a with BSnapshot _ | BStored | BTested _ => true | _ => false end.

(** ** The invariant

    [writes] tells the two kinds of history apart: [write] calls, or stores
    through shared mappings. *)

Definition actor_ok (p : page) (a : actor) : Prop :=
  match a with
  | WLeased d | WCopied d => d = D (flags p)
  | BClaimed => D (flags p) = false
  | BSnapshot v => D (flags p) = false /\ v = mem p /\ mapped p = false
  | BStored | BTested _ => D (flags p) = false /\ disk p = mem p /\ mapped p = false
  | Idle | MSaw _ => True
  end.

Record page_inv (writes : bool) (p : page) : Prop := {
  pi_flags : flags_ok (flags p);
  pi_lock : cnt is_holder (actors p) = b2z (L (flags p));
  pi_wb : cnt is_b (actors p) = b2z (W (flags p));
  pi_wbc : wb_count p = cnt is_b (actors p);
  pi_dirty : dirty_count p = b2z (D (flags p));
  pi_actors : forall i a, actors p !! i = Some a -> actor_ok p a;
  pi_saved : mem p <> disk p -> D (flags p) = true \/ 1 <= cnt is_copied (actors p) \/
    1 <= cnt is_unstored (actors p);
  pi_mapped : mapped p = true -> D (flags p) = true \/ 1 <= cnt is_claimed (actors p);
  pi_fault : 1 <= cnt is_fault (actors p) -> cnt is_late (actors p) = 0;
  pi_mode : if writes then cnt is_fault (actors p) = 0 /\ mapped p = false else cnt is_w (actors p) = 0;
}.

Definition event_ok (writes : bool) (e : event) : Prop :=
  match e with
  | ELease _ | ECopy _ | ECommit _ | EAbort _ => writes = true
  | EFault _ | EMarkDirty _ | EUserStore => writes = false
  | _ => True
  end.

(** At most one thread holds the page. *)
Lemma others_not_holders writes p i a : page_inv writes p -> actors p !! i = Some a -> is_holder a = true ->
  L (flags p) = true /\ forall j b, j <> i -> actors p !! j = Some b -> is_holder b = false.
Proof.
  intros Hi Ha Hh. pose proof (pi_lock _ _ Hi) as Hl. pose proof (cnt_pos is_holder _ _ _ Ha Hh).
  split; [destruct (L (flags p)); simpl in Hl; [done|lia]|]. intros j b Hj Hb.
  destruct (is_holder b) eqn:E; [|done].
  pose proof (cnt_two is_holder _ i j a b ltac:(congruence) Ha Hb Hh E).
  destruct (L (flags p)); simpl in Hl; lia.
Qed.

(** The threads of a state in which thread [i] moved to [a']. *)
Lemma actors_update (P : actor -> Prop) (l : list actor) (i : nat) a' : P a' ->
  (forall j a, j <> i -> l !! j = Some a -> P a) -> forall j a, <[i := a']> l !! j = Some a -> P a.
Proof.
  intros Ha' Ho j a. rewrite list_lookup_insert. case_decide as Hj; [intros [= <-]; done|].
  intros Hl. destruct (decide (j = i)) as [->|]; [|by eapply Ho].
  exfalso. apply Hj. split; [done|]. by apply lookup_lt_Some in Hl.
Qed.

Lemma holder_b a : is_holder a = false -> is_w a = false /\ is_b a = false.
Proof. unfold is_holder. by rewrite orb_false_iff. Qed.

Lemma not_holder_ok p a : is_holder a = false -> actor_ok p a.
Proof. by destruct a. Qed.

Lemma no_holders writes p : page_inv writes p -> L (flags p) = false ->
  forall j b, actors p !! j = Some b -> is_holder b = false.
Proof.
  intros Hi Hl j b Hb. destruct (is_holder b) eqn:E; [|done]. pose proof (cnt_pos _ _ _ _ Hb E).
  pose proof (pi_lock _ _ Hi) as Hc. rewrite Hl in Hc. simpl in Hc. lia.
Qed.

Lemma cnt_split l : cnt is_b l = cnt is_claimed l + cnt is_late l /\
  cnt is_holder l = cnt is_w l + cnt is_b l /\ cnt is_claimed l <= cnt is_unstored l /\
  cnt is_copied l <= cnt is_w l /\ cnt is_unstored l <= cnt is_b l.
Proof.
  induction l as [|a l IH]; simpl; [lia|]. destruct a; simpl; lia.
Qed.

Lemma forallb_cnt P l : forallb (fun a => negb (P a)) l = true -> cnt P l = 0.
Proof.
  induction l as [|a l IH]; simpl; [done|]. rewrite andb_true_iff, negb_true_iff.
  intros [Ha Hl]. rewrite Ha, IH by done. done.
Qed.

Ltac counts i a Ha := rewrite ?(fun P b => cnt_insert P _ i a b Ha); simpl.

(** The clauses of the invariant about counts and flags, once the flags of the
    new state are known. *)
Ltac clauses := try done; try lia; try tauto;
  try (intros ?; repeat match goal with
    | H : ?A -> _ \/ _, H' : ?A |- _ => specialize (H H')
    end; intuition (done || lia)); try (split; [lia|done]);
  try match goal with |- if ?w then _ else _ => destruct w; [split; [lia|tauto]|lia] end.
Ltac others Hn := apply actors_update; [simpl; congruence || tauto || (split_and!; congruence)|];
  intros ? ? ? ?; apply not_holder_ok; by eapply Hn.

(** Steps of a [write] call. *)
Lemma inv_write p p' e : page_inv true p -> page_step p e = Some p' ->
  match e with ELease _ | ECopy _ | ECommit _ | EAbort _ => True | _ => False end -> page_inv true p'.
Proof.
  intros Hi Hs He. pose proof (cnt_split (actors p)) as Hsp. pose proof (cnt_nonneg is_late (actors p)).
  pose proof (cnt_nonneg is_claimed (actors p)). pose proof (cnt_nonneg is_w (actors p)).
  destruct e as [i|i|i|i| | | | | | | | |]; try done; simpl in Hs;
    destruct (actors p !! i) as [a|] eqn:Ha; try done.
  - destruct a; try done. destruct (try_lock_for_write (flags p)) as [[[f d]|]|] eqn:El; try done.
    injection Hs as <-. destruct (lease_flags _ _ _ (pi_flags _ _ Hi) El) as (F & L0 & W0 & L1 & W1 & D1 & ->).
    pose proof (no_holders _ _ Hi L0) as Hn. destruct Hi as [_ I1 I2 I3 I4 _ I6 I7 I8 [I9 I10]].
    rewrite L0 in I1. rewrite W0 in I2. simpl in *.
    split; simpl; unfold set_actor; counts i Idle Ha; rewrite ?L1, ?W1, ?D1; simpl; clauses.
    others Hn.
  - destruct a; try done. injection Hs as <-. destruct (others_not_holders _ _ _ _ Hi Ha eq_refl) as [L0 Hn].
    pose proof (pi_actors _ _ Hi _ _ Ha) as Hd. destruct Hi as [I0 I1 I2 I3 I4 _ I6 I7 I8 [I9 I10]]. simpl in *.
    split; simpl; unfold set_actor; counts i (WLeased was_dirty) Ha; clauses.
    + others Hn.
    + intros _. right. left. pose proof (cnt_nonneg is_copied (actors p)). lia.
  - destruct a; try done. injection Hs as <-. destruct (others_not_holders _ _ _ _ Hi Ha eq_refl) as [L0 Hn].
    pose proof (pi_actors _ _ Hi _ _ Ha) as Hd. destruct (commit_flags _ (pi_flags _ _ Hi)) as (F & F1 & F2 & F3 & F4).
    destruct Hi as [I0 I1 I2 I3 I4 _ I6 I7 I8 [I9 I10]]. simpl in *. rewrite L0 in I1.
    split; simpl in *; unfold set_actor; counts i (WCopied was_dirty) Ha; rewrite ?F1, ?F2, ?F3; simpl; clauses.
    + rewrite I4, Hd. by destruct (D (flags p)).
    + others Hn.
  - destruct a; try done. injection Hs as <-. destruct (others_not_holders _ _ _ _ Hi Ha eq_refl) as [L0 Hn].
    destruct (abort_flags _ (pi_flags _ _ Hi)) as (F & F1 & F2 & F3).
    destruct Hi as [I0 I1 I2 I3 I4 _ I6 I7 I8 [I9 I10]]. simpl in *. rewrite L0 in I1.
    split; simpl; unfold set_actor; counts i (WLeased was_dirty) Ha; rewrite ?F1, ?F2, ?F3; simpl in *; clauses.
    others Hn.
Qed.

(** Steps of a write-back, in both kinds of history. *)
Lemma inv_claim w p p' i : page_inv w p -> page_step p (EClaim i) = Some p' -> page_inv w p'.
Proof.
  intros Hi Hs. pose proof (cnt_split (actors p)) as Hsp. pose proof (cnt_nonneg is_late (actors p)).
  pose proof (cnt_nonneg is_claimed (actors p)). pose proof (cnt_nonneg is_w (actors p)). simpl in Hs.
  destruct (actors p !! i) as [a|] eqn:Ha; [|done]. destruct a; try done.
  destruct (claim_writeback (flags p)) as [f|] eqn:Ec; [|done]. injection Hs as <-.
  destruct (claim_flags _ _ (pi_flags _ _ Hi) Ec) as (F & L0 & D0 & L1 & D1 & W1).
  pose proof (no_holders _ _ Hi L0) as Hn. destruct Hi as [_ I1 I2 I3 I4 _ I6 I7 I8 I9].
  rewrite L0 in I1. rewrite D0 in I4. simpl in *.
  split; simpl; unfold set_actor; counts i Idle Ha; rewrite ?L1, ?W1, ?D1; simpl; clauses.
  others Hn.
Qed.

Lemma inv_writeback w p p' e : page_inv w p -> page_step p e = Some p' ->
  match e with ESnapshot _ | EStore _ | EFail _ | ETest _ | EFinish _ => True | _ => False end -> page_inv w p'.
Proof.
  intros Hi Hs He. pose proof (cnt_split (actors p)) as Hsp. pose proof (cnt_nonneg is_late (actors p)).
  pose proof (cnt_nonneg is_claimed (actors p)). pose proof (cnt_nonneg is_w (actors p)).
  pose proof (cnt_nonneg is_unstored (actors p)).
  destruct e as [ | | | | |i|i|i|i|i| | |]; try done; simpl in Hs;
    destruct (actors p !! i) as [a|] eqn:Ha; try done; destruct a; try done;
    pose proof (pi_actors _ _ Hi _ _ Ha) as Hd;
    pose proof (restore_flags _ (pi_flags _ _ Hi)) as FR;
    pose proof (clear_redirtied_flags _ (pi_flags _ _ Hi)) as FC;
    pose proof (cnt_pos is_b _ _ _ Ha eq_refl); try pose proof (cnt_pos is_late _ _ _ Ha eq_refl);
    destruct (others_not_holders _ _ _ _ Hi Ha eq_refl) as [L0 Hn].
  - destruct (forallb _ _) eqn:Ef; [|done]. injection Hs as <-. apply forallb_cnt in Ef.
    destruct Hi as [I0 I1 I2 I3 I4 _ I6 I7 I8 I9]. simpl in Hd.
    split; simpl; unfold set_actor; counts i BClaimed Ha; clauses.
    others Hn.
  - injection Hs as <-. destruct Hi as [I0 I1 I2 I3 I4 _ I6 I7 I8 I9]. destruct Hd as (D0 & -> & M0).
    split; simpl; unfold set_actor; counts i (BSnapshot (mem p)) Ha; clauses.
    others Hn.
  - injection Hs as <-. destruct Hi as [I0 I1 I2 I3 I4 _ I6 I7 I8 I9]. destruct FR as (F & F1 & F2 & F3).
    simpl in Hd. rewrite Hd in I4. rewrite L0 in I1. simpl in *.
    split; simpl; unfold set_actor; counts i BClaimed Ha; rewrite ?F1, ?F2, ?F3; simpl; clauses.
    others Hn.
  - injection Hs as <-. destruct Hi as [I0 I1 I2 I3 I4 _ I6 I7 I8 I9]. destruct FR as (F & F1 & F2 & F3).
    destruct Hd as (D0 & -> & M0). rewrite D0 in I4. rewrite L0 in I1. simpl in *.
    split; simpl; unfold set_actor; counts i (BSnapshot (mem p)) Ha; rewrite ?F1, ?F2, ?F3; simpl; clauses.
    others Hn.
  - injection Hs as <-. destruct Hi as [I0 I1 I2 I3 I4 _ I6 I7 I8 I9]. destruct FC as (F & F1 & F2 & F3).
    destruct Hd as (D0 & E0 & M0). simpl in *.
    split; simpl; unfold set_actor; counts i BStored Ha; rewrite ?F1, ?F2, ?F3; simpl; clauses.
    others Hn.
  - destruct (finish_flags _ redirtied (pi_flags _ _ Hi)) as (F & F1 & F2 & F3). injection Hs as <-.
    destruct Hi as [I0 I1 I2 I3 I4 _ I6 I7 I8 I9]. destruct Hd as (D0 & E0 & M0).
    rewrite D0 in *. rewrite L0 in I1. simpl in *.
    split; simpl; unfold set_actor; counts i (BTested redirtied) Ha; rewrite ?F1, ?F2, ?F3; simpl; clauses.
    others Hn.
Qed.

(** Steps of a store through a shared mapping.  No write-back is past its
    snapshot while a fault is under way. *)
Lemma inv_fault p p' i : page_inv false p -> page_step p (EFault i) = Some p' -> page_inv false p'.
Proof.
  intros Hi Hs. pose proof (cnt_split (actors p)) as Hsp. pose proof (cnt_nonneg is_late (actors p)).
  pose proof (cnt_nonneg is_claimed (actors p)).
  pose proof (decode_flags _ (pi_flags _ _ Hi)) as (DU & DD & DW & DL & DE). simpl in Hs.
  destruct (actors p !! i) as [a|] eqn:Ha; try done; destruct a; try done.
  destruct Hi as [I0 I1 I2 I3 I4 I5 I6 I7 I8 I9].
  assert (W (flags p) = false) as W0 by (destruct (decode_state (flags p)); tauto || done).
  assert (Hp : p' = mkPage (flags p) (mem p) (disk p) (mapped p) (dirty_count p) (wb_count p)
    (set_actor p i (MSaw (decode_state (flags p))))) by (destruct (decode_state (flags p)); congruence).
  subst p'. rewrite W0 in I2. simpl in *.
  split; simpl; unfold set_actor; counts i Idle Ha; rewrite ?W0; simpl; clauses.
  apply actors_update; [done|]. intros j b _ Hb. by apply (I5 j).
Qed.

Lemma inv_mark_dirty p p' i : page_inv false p -> page_step p (EMarkDirty i) = Some p' -> page_inv false p'.
Proof.
  intros Hi Hs. pose proof (cnt_split (actors p)) as Hsp. pose proof (cnt_nonneg is_late (actors p)).
  pose proof (decode_flags _ (pi_flags _ _ Hi)) as (DU & DD & DW & DL & DE).
  pose proof (no_holders false p Hi) as Hn. simpl in Hs.
  destruct (actors p !! i) as [a|] eqn:Ha; try done; destruct a; try done.
  pose proof (cnt_pos is_fault _ _ _ Ha eq_refl) as Hf. pose proof (pi_fault _ _ Hi Hf) as Hl.
  assert (Hlate : forall j b, actors p !! j = Some b -> is_late b = false).
  { intros j b Hb. destruct (is_late b) eqn:E; [|done]. pose proof (cnt_pos _ _ _ _ Hb E). lia. }
  destruct (decode_state (flags p)) eqn:Es; try done.
  - destruct (DU eq_refl) as [W0 D0]. destruct (compare_exchange_state _ _ _) as [f|] eqn:Ec; [|done].
    destruct (mark_dirty_flags _ _ (pi_flags _ _ Hi) Ec) as (F & F1 & F2 & F3). injection Hs as <-.
    destruct Hi as [I0 I1 I2 I3 I4 I5 I6 I7 I8 I9]. rewrite W0 in I2. rewrite D0 in I4. simpl in *.
    assert (L (flags p) = false) as L0 by (destruct (L (flags p)); simpl in I1; [lia|done]).
    split; simpl; unfold set_actor; counts i (MSaw s) Ha; rewrite ?F1, ?F2, ?F3; simpl; clauses.
    others (Hn L0).
  - destruct (DD eq_refl) as [W0 D0]. injection Hs as <-.
    destruct Hi as [I0 I1 I2 I3 I4 I5 I6 I7 I8 I9]. rewrite W0 in I2. simpl in *.
    split; simpl; unfold set_actor; counts i (MSaw s) Ha; rewrite ?W0; simpl; clauses.
    apply actors_update; [done|]. intros j b _ Hb. pose proof (I5 _ _ Hb). specialize (Hlate _ _ Hb). by destruct b.
  - specialize (DW eq_refl). injection Hs as <-.
    destruct (set_redirtied_flags _ (pi_flags _ _ Hi)) as (F & F1 & F2 & F3).
    destruct Hi as [I0 I1 I2 I3 I4 I5 I6 I7 I8 I9]. rewrite DW in *. simpl in *.
    split; simpl; unfold set_actor; counts i (MSaw s) Ha; rewrite ?F1, ?F2, ?F3; simpl; clauses.
    apply actors_update; [done|]. intros j b _ Hb. pose proof (I5 _ _ Hb). specialize (Hlate _ _ Hb).
    destruct b; simpl in *; congruence.
Qed.

Lemma inv_user_store p p' : page_inv false p -> page_step p EUserStore = Some p' -> page_inv false p'.
Proof.
  intros Hi Hs. pose proof (cnt_split (actors p)) as Hsp. simpl in Hs.
  destruct (mapped p) eqn:Em; [|done]. injection Hs as <-.
  destruct Hi as [I0 I1 I2 I3 I4 I5 I6 I7 I8 I9]. specialize (I7 Em).
  split; simpl; clauses.
  intros i a Ha. specialize (I5 i a Ha). destruct a; simpl in *; intuition congruence.
Qed.

Lemma page_inv_step w p e p' : page_inv w p -> event_ok w e -> page_step p e = Some p' -> page_inv w p'.
Proof.
  intros Hi Ho Hs. destruct e; simpl in Ho; try subst w;
    eauto using inv_claim, inv_fault, inv_mark_dirty, inv_user_store;
    (by eapply inv_write) || (by eapply inv_writeback).
Qed.

Lemma page_inv_init w n : page_inv w (page_init n).
Proof.
  split; simpl; rewrite ?cnt_replicate by done; try done; try lia.
  - intros i a Ha. apply lookup_replicate in Ha as [-> _]. done.
  - by destruct w.
Qed.

Lemma page_inv_run w l p p' : page_inv w p -> Forall (event_ok w) l -> page_run p l = Some p' -> page_inv w p'.
Proof.
  revert p. induction l as [|e l IH]; intros p Hi Ho; simpl; [by intros [= <-]|].
  inversion Ho as [|? ? He Hl]; subst. destruct (page_step p e) as [q|] eqn:Es; simpl; [|done].
  apply IH; [by eapply page_inv_step|done].
Qed.

Lemma all_idle P l : Forall (fun a => a = Idle) l -> P Idle = false -> cnt P l = 0.
Proof. intros Hl HP. induction Hl as [|a l -> Hl IH]; simpl; [done|]. rewrite HP, IH. done. Qed.


(** A write that arrives between the snapshot and the next write-back. *)
Definition demo_events : list event :=
  [ELease 0; ECopy 0; ECommit 0; EClaim 1; ESnapshot 1; EFail 1; EClaim 1; ESnapshot 1; EStore 1; ETest 1; EFinish 1].


(** The two kinds of access together break the lease: marking a page dirty
    for a mapped store rewrites the whole word and so releases the lock bit of
    a writer that is copying into the page; a write-back can then claim the page
    under the writer. *)
Theorem mapped_store_breaks_write_lease :
  exists p, page_run (page_init 3) [ELease 0; EFault 1; EMarkDirty 1; EClaim 2] = Some p /\
    actors p !! 0%nat = Some (WLeased false) /\ actors p !! 2%nat = Some BClaimed.
Proof. eexists. split; [vm_compute; reflexivity|]. split; reflexivity. Qed.
