(* ===== verification/PageCache.v ===== *)
(** The page cache of a file ([PageCache] in [os/src/fs/page_cache.rs]): its
    directory of page entries, lookup and creation of entries, and the write
    path.

    The competition of threads for one page is in PageFlags.v; here every
    operation runs alone on the cache, and a page whose lock bit is set is seen
    as busy.  The backend ([trait PageCacheBackend]) is a class; [None] is a
    cache without a backend.  Whether [frame_alloc] succeeds for a page is an
    argument.  Performance counters and notifications are left out.  Offsets
    wrap like the machine's. *)

From stdpp Require Import base numbers option gmap list.
From S2P Require Import Prelude Addr PageFlags.

Open Scope machine_scope.

(** ** Valid-segment masks *)

Definition VALID_SEG_SHIFT : Z := 9.
Definition VALID_SEG_COUNT : Z := Z.shiftr PAGE_SIZE VALID_SEG_SHIFT.
Definition VALID_ALL : Z := 0xFF.

(** The segments touched by [page_offset .. page_offset + len]. *)
Definition mask_for_range (page_offset len : Z) : Z :=
  if len =? 0 then 0
  else
    let seg_start := Z.shiftr page_offset VALID_SEG_SHIFT in
    let seg_end := Z.min (Z.shiftr (page_offset +w len +w Z.shiftl 1 VALID_SEG_SHIFT -w 1) VALID_SEG_SHIFT)
                     VALID_SEG_COUNT in
    if VALID_SEG_COUNT <=? seg_start then 0
    else Z.shiftl (Z.shiftl 1 (seg_end - seg_start) - 1) seg_start.

Definition initial_valid_mask (page_index old_file_size : Z) : Z :=
  let page_start := page_index *w PAGE_SIZE in
  if old_file_size <=? page_start then VALID_ALL
  else
    let page_end := page_start +w PAGE_SIZE in
    if old_file_size <? page_end
    then let zero_start := old_file_size -w page_start in mask_for_range zero_start (PAGE_SIZE - zero_start)
    else 0.

(** ** Backends *)

Definition page_bytes : nat := Z.to_nat PAGE_SIZE.
Definition zero_page : list Z := replicate page_bytes 0.

Lemma page_bytes_Z : Z.of_nat page_bytes = PAGE_SIZE.
Proof. reflexivity. Qed.

Lemma zero_page_length : length zero_page = page_bytes.
Proof. apply length_replicate. Qed.

Lemma zero_page_lookup k : (k < page_bytes)%nat -> zero_page !! k = Some 0.
Proof. apply lookup_replicate_2. Qed.

#[global] Opaque page_bytes zero_page.

(** [read_page] is given the buffer and yields its new contents. *)
Class Backend (B : Type) := {
  read_page : B -> Z -> list Z -> result (list Z) SyscallErr;
  write_page : B -> Z -> list Z -> B * result Z SyscallErr;
  npages : B -> Z;
}.

(** What the cache relies on: a page read is the page last written. *)
Class BackendLaws (B : Type) `{Backend B} := {
  contents : B -> Z -> list Z;
  contents_length : forall b i, length (contents b i) = page_bytes;
  contents_beyond : forall b i, npages b <= i -> contents b i = zero_page;
  read_page_ok : forall b i buf buf', length buf = page_bytes -> read_page b i buf = Ok buf' -> buf' = contents b i;
  write_page_ok : forall b i buf b' n, length buf = page_bytes -> write_page b i buf = (b', Ok n) ->
    forall j, contents b' j = if decide (j = i) then buf else contents b j;
  write_page_err : forall b i buf b' e, write_page b i buf = (b', Err e) ->
    forall j, j <> i -> contents b' j = contents b j;
}.

(** The default [write_pages]: page by page, stopping at the first error. *)
Fixpoint write_pages {B} `{Backend B} (b : B) (start_index : Z) (ps : list (list Z)) (written : Z)
    : B * result Z SyscallErr :=
  match ps with
  | [] => (b, Ok written)
  | p :: ps =>
      match write_page b start_index p with
      | (b, Ok n) => write_pages b (start_index + 1) ps (written + n)
      | (b, Err e) => (b, Err e)
      end
  end.

(** ** Entries and the cache *)

Record PageEntry := mkEntry {
  e_data : list Z;
  e_flags : Z;
  e_mask : Z;
  e_maps : Z;
}.

(** [n_dirty] and [n_wb]: the cache's share of the global page counters. *)
Record PageCache := mkPC {
  entries : list (option PageEntry);
  pages : gset Z;
  unevictable : bool;
  clock_hand : Z;
  mutation_generation : Z;
  n_dirty : Z;
  n_wb : Z;
}.

Definition pc_new : PageCache := mkPC [] ∅ false 0 0 0 0.

Definition with_entries (c : PageCache) (l : list (option PageEntry)) : PageCache :=
  mkPC l (pages c) (unevictable c) (clock_hand c) (mutation_generation c) (n_dirty c) (n_wb c).
Definition with_pages (c : PageCache) (ps : gset Z) : PageCache :=
  mkPC (entries c) ps (unevictable c) (clock_hand c) (mutation_generation c) (n_dirty c) (n_wb c).
Definition add_dirty (c : PageCache) (n : Z) : PageCache :=
  mkPC (entries c) (pages c) (unevictable c) (clock_hand c) (mutation_generation c) (n_dirty c + n) (n_wb c).
Definition add_wb (c : PageCache) (n : Z) : PageCache :=
  mkPC (entries c) (pages c) (unevictable c) (clock_hand c) (mutation_generation c) (n_dirty c) (n_wb c + n).
Definition bump_generation (c : PageCache) : PageCache :=
  mkPC (entries c) (pages c) (unevictable c) (clock_hand c) (mutation_generation c +w 1) (n_dirty c) (n_wb c).

Definition page_entry_new (data : list Z) (s : PageState) : PageEntry := mkEntry data (flags_for_state s) VALID_ALL 0.
Definition new_with_valid_mask (data : list Z) (valid_mask : Z) : PageEntry := mkEntry data PG_UPTODATE valid_mask 0.

Definition map_flags (g : Z -> Z) (e : PageEntry) : PageEntry := mkEntry (e_data e) (g (e_flags e)) (e_mask e) (e_maps e).
Definition e_dirty (e : PageEntry) : bool := test_flag (e_flags e) PG_DIRTY.
Definition mark_referenced : PageEntry -> PageEntry := map_flags (fun f => Z.lor f PG_REFERENCED).
Definition consume_filemap_readahead : PageEntry -> PageEntry :=
  map_flags (fun f => fst (test_and_clear_flag f PG_FILEMAP_READAHEAD)).

(** [entries.get(i).and_then(Option::as_ref)] *)
Definition get_entry (c : PageCache) (i : Z) : option PageEntry := mjoin (entries c !! Z.to_nat i).

(** An access through the [Arc] of entry [i]. *)
Definition upd_entry (c : PageCache) (i : Z) (g : PageEntry -> PageEntry) : PageCache :=
  with_entries c (alter (fmap g) (Z.to_nat i) (entries c)).

(** Insertion into the directory, which grows with holes. *)
Definition grow (l : list (option PageEntry)) (n : nat) : list (option PageEntry) :=
  l ++ replicate (S n - length l) None.
Definition put_entry (c : PageCache) (i : Z) (e : PageEntry) : PageCache :=
  with_pages (with_entries c (<[Z.to_nat i := Some e]> (grow (entries c) (Z.to_nat i)))) ({[i]} ∪ pages c).

(** ** Lookup and creation *)

Section ops.
Context {B : Type} `{Backend B}.

Definition new_entry (ob : option B) (i : Z) (populate beyond_eof : bool) (init_mask : Z)
    : result PageEntry SyscallErr :=
  if populate && negb beyond_eof then
    match (match ob with Some b => read_page b i zero_page | None => Ok zero_page end) with
    | Err e => Err e
    | Ok data =>
        let e := page_entry_new data UpToDate in
        Ok (if init_mask =? 0 then e else mkEntry (e_data e) (e_flags e) (Z.lor (e_mask e) init_mask) (e_maps e))
    end
  else if beyond_eof then Ok (new_with_valid_mask zero_page VALID_ALL)
  else Ok (page_entry_new zero_page UpToDate).

(** The cache with the entry, and the entry as the caller sees it. *)
Definition get_or_create_entry (c : PageCache) (ob : option B) (frame_available : bool) (page_index : Z)
    (populate : bool) (old_file_size : option Z) : PageCache * result PageEntry SyscallErr :=
  let init_mask := match old_file_size with Some s => initial_valid_mask page_index s | None => 0 end in
  let beyond_eof := init_mask =? VALID_ALL in
  match get_entry c page_index with
  | Some e => (upd_entry c page_index mark_referenced, Ok (mark_referenced e))
  | None =>
      if negb frame_available then (c, Err ENOMEM)
      else
        match new_entry ob page_index populate beyond_eof init_mask with
        | Err e => (c, Err e)
        | Ok e => (put_entry c page_index (mark_referenced e), Ok (mark_referenced e))
        end
  end.

Definition get_page_for_read (c : PageCache) (ob : option B) (frame_available : bool) (page_index : Z)
    : PageCache * result PageEntry SyscallErr :=
  match get_or_create_entry c ob frame_available page_index true None with
  | (c, Err e) => (c, Err e)
  | (c, Ok e) => (upd_entry c page_index consume_filemap_readahead, Ok (consume_filemap_readahead e))
  end.

Definition get_page_for_write_populate (c : PageCache) (ob : option B) (frame_available : bool) (page_index : Z)
    (old_file_size : option Z) (full_overwrite : bool) : PageCache * result PageEntry SyscallErr :=
  let beyond_eof := match old_file_size with Some s => s <=? page_index *w PAGE_SIZE | None => false end in
  let populate := negb full_overwrite && negb beyond_eof in
  match get_or_create_entry c ob frame_available page_index populate old_file_size with
  | (c, Err e) => (c, Err e)
  | (c, Ok e) => (upd_entry c page_index consume_filemap_readahead, Ok (consume_filemap_readahead e))
  end.

(** Segments the entry does not have are read from the backend. *)
Definition merge_segments (mask : Z) (dst src : list Z) : list Z :=
  foldl (fun d seg => if Z.testbit mask seg then d
                      else take (Z.to_nat (seg * 512)) d ++ take 512 (drop (Z.to_nat (seg * 512)) src)
                             ++ drop (Z.to_nat (seg * 512) + 512) d) dst (seqZ 0 VALID_SEG_COUNT).

Definition ensure_fully_valid (c : PageCache) (ob : option B) (page_index : Z) : PageCache * result unit SyscallErr :=
  match get_entry c page_index with
  | None => (c, Ok ())
  | Some e =>
      if e_mask e =? VALID_ALL then (c, Ok ())
      else
        match (match ob with
               | Some b => match read_page b page_index zero_page with
                           | Ok temp => Ok (merge_segments (e_mask e) (e_data e) temp)
                           | Err er => Err er
                           end
               | None => Ok (e_data e)
               end) with
        | Ok d => (upd_entry c page_index (fun e => mkEntry d (e_flags e) VALID_ALL (e_maps e)), Ok ())
        | Err er => (c, Err er)
        end
  end.

(** ** Writing *)

(** Part [i] of a write of [len] bytes at [offset]: offset in the page, length. *)
Definition page_span (offset len i : Z) : Z * Z :=
  let page_start := wrap64 (Z.shiftl i PAGE_SIZE_BITS) in
  let page_end := page_start +w PAGE_SIZE in
  let write_start := Z.max offset page_start in
  let write_end := Z.min (offset +w len) page_end in
  (write_start -w page_start, saturating_sub write_end write_start).

Inductive WriteAttemptError := WBusy (page_index : Z) | WError (e : SyscallErr).

(** [CopyItem]; the entry is known by its index. *)
Record CopyItem := mkItem {
  it_page : Z;
  it_offset : Z;
  it_len : Z;
  it_was_dirty : bool;
}.

Definition abort_items (c : PageCache) (items : list CopyItem) : PageCache :=
  foldl (fun c it => upd_entry c (it_page it) (map_flags abort_write)) c items.

(** First phase: find or create every page and take its write lease. *)
Fixpoint lease_pages (c : PageCache) (ob : option B) (avail : Z -> bool) (offset len : Z) (old_file_size : option Z)
    (idxs : list Z) (copies : list CopyItem) : PageCache * result (list CopyItem) WriteAttemptError :=
  match idxs with
  | [] => (c, Ok copies)
  | i :: idxs =>
      let '(page_offset, sub_len) := page_span offset len i in
      if sub_len =? 0 then lease_pages c ob avail offset len old_file_size idxs copies
      else
        let full_page_overwrite := (page_offset =? 0) && (sub_len =? PAGE_SIZE) in
        match get_page_for_write_populate c ob (avail i) i old_file_size full_page_overwrite with
        | (c, Err e) => (abort_items c copies, Err (WError e))
        | (c, Ok e) =>
            match try_lock_for_write (e_flags e) with
            | Ok (Some (f, was_dirty)) =>
                lease_pages (upd_entry c i (map_flags (fun _ => f))) ob avail offset len old_file_size idxs
                  (copies ++ [mkItem i page_offset sub_len was_dirty])
            | Ok None => (abort_items c copies, Err (WBusy i))
            | Err _ => (abort_items c copies, Err (WError EIO))
            end
        end
  end.

(** [dst[at..at + src.len()].copy_from_slice(src)] *)
Definition splice (dst : list Z) (at_ : nat) (src : list Z) : list Z :=
  take at_ dst ++ src ++ drop (at_ + length src) dst.

(** [mark_valid_and_check_full] without its answer, which is a statistic. *)
Definition mark_valid (page_offset len : Z) (mask : Z) : Z := Z.lor mask (mask_for_range page_offset len).

Definition write_item (it : CopyItem) (src : list Z) (e : PageEntry) : PageEntry :=
  mkEntry (splice (e_data e) (Z.to_nat (it_offset it)) src) (fst (commit_write (e_flags e)))
    (mark_valid (it_offset it) (it_len it) (e_mask e)) (e_maps e).

(** Second phase: copy, publish the valid segments, release the leases. *)
Fixpoint copy_items (c : PageCache) (buf : list Z) (items : list CopyItem) : PageCache :=
  match items with
  | [] => c
  | it :: items =>
      let became := match get_entry c (it_page it) with Some e => snd (commit_write (e_flags e)) | None => false end in
      let c := upd_entry c (it_page it) (write_item it (take (Z.to_nat (it_len it)) buf)) in
      let c := if became && negb (it_was_dirty it) then add_dirty c 1 else c in
      copy_items c (drop (Z.to_nat (it_len it)) buf) items
  end.

(** The path for a write of any number of pages. *)
Definition write_general (c : PageCache) (ob : option B) (avail : Z -> bool) (offset : Z) (buf : list Z)
    (old_file_size : option Z) (before_copy : Z -> result unit SyscallErr)
    : PageCache * result Z WriteAttemptError :=
  let len := Z.of_nat (length buf) in
  let start_page := Z.shiftr offset PAGE_SIZE_BITS in
  let end_page := Z.shiftr (offset +w len -w 1) PAGE_SIZE_BITS in
  match lease_pages c ob avail offset len old_file_size (seqZ start_page (end_page - start_page + 1)) [] with
  | (c, Err e) => (c, Err e)
  | (c, Ok items) =>
      let total_written := foldr (fun it n => it_len it + n) 0 items in
      match before_copy total_written with
      | Err er => (abort_items c items, Err (WError er))
      | Ok () => (copy_items c buf items, Ok total_written)
      end
  end.

(** [before_copy] is the caller's callback; it may refuse. *)
Definition write_kernel_body (c : PageCache) (ob : option B) (avail : Z -> bool) (offset : Z) (buf : list Z)
    (old_file_size : option Z) (before_copy : Z -> result unit SyscallErr)
    : PageCache * result Z WriteAttemptError :=
  let len := Z.of_nat (length buf) in
  if len =? 0 then (c, Ok 0)
  else
    let start_page := Z.shiftr offset PAGE_SIZE_BITS in
    let end_page := Z.shiftr (offset +w len -w 1) PAGE_SIZE_BITS in
    if start_page =? end_page then
      let page_start := wrap64 (Z.shiftl start_page PAGE_SIZE_BITS) in
      let page_offset := offset -w page_start in
      let sub_len := Z.min len (PAGE_SIZE -w page_offset) in
      let full_page_overwrite := (page_offset =? 0) && (sub_len =? PAGE_SIZE) in
      match get_page_for_write_populate c ob (avail start_page) start_page old_file_size full_page_overwrite with
      | (c, Err e) => (c, Err (WError e))
      | (c, Ok e) =>
          match try_lock_for_write (e_flags e) with
          | Err _ => (c, Err (WError EIO))
          | Ok None => (c, Err (WBusy start_page))
          | Ok (Some (f, was_dirty)) =>
              let c := upd_entry c start_page (map_flags (fun _ => f)) in
              let it := mkItem start_page page_offset sub_len was_dirty in
              match before_copy sub_len with
              | Err er => (abort_items c [it], Err (WError er))
              | Ok () => (copy_items c buf [it], Ok sub_len)
              end
          end
      end
    else
      write_general c ob avail offset buf old_file_size before_copy.

End ops.


(** What a page cache stores: the contents of the file as a reader sees it, the
    invariant of the directory, and how entry updates change both. *)

(** ** Directory access *)

Lemma get_upd c i g j : 0 <= i -> 0 <= j ->
  get_entry (upd_entry c i g) j = if decide (j = i) then g <$> get_entry c i else get_entry c j.
Proof.
  intros Hi Hj. unfold get_entry, upd_entry. simpl. case_decide as Hd.
  - subst j. rewrite list_lookup_alter_eq. by destruct (entries c !! Z.to_nat i) as [[]|].
  - rewrite list_lookup_alter_ne by lia. done.
Qed.

Lemma grow_lookup l n m : mjoin (grow l n !! m) = mjoin (l !! m).
Proof.
  unfold grow. destruct (decide (m < length l)%nat) as [Hm|Hm].
  - by rewrite lookup_app_l.
  - rewrite lookup_app_r, (lookup_ge_None_2 l) by lia. simpl.
    destruct (replicate _ _ !! _) as [x|] eqn:E; [|done]. apply lookup_replicate in E as [-> _]. done.
Qed.

Lemma grow_length l n : (n < length (grow l n))%nat.
Proof. unfold grow. rewrite length_app, length_replicate. lia. Qed.

Lemma get_put c i e j : 0 <= i -> 0 <= j ->
  get_entry (put_entry c i e) j = if decide (j = i) then Some e else get_entry c j.
Proof.
  intros Hi Hj. unfold get_entry, put_entry. simpl. case_decide as Hd.
  - subst j. rewrite list_lookup_insert_eq by apply grow_length. done.
  - rewrite list_lookup_insert_ne by lia. apply grow_lookup.
Qed.

(** ** Counting entries *)

Definition opt_count (P : PageEntry -> bool) (o : option PageEntry) : Z :=
  match o with Some e => b2z (P e) | None => 0 end.

(** [dirty_count] is [count e_dirty]. *)
Definition count (P : PageEntry -> bool) (c : PageCache) : Z := foldr (fun o n => opt_count P o + n) 0 (entries c).

Lemma sum_alter P l (n : nat) g : foldr (fun o m => opt_count P o + m) 0 (alter (fmap g) n l) =
  foldr (fun o m => opt_count P o + m) 0 l - opt_count P (mjoin (l !! n)) + opt_count P (g <$> mjoin (l !! n)).
Proof.
  revert n. induction l as [|o l IH]; intros [|n]; simpl; try lia.
  pose proof (IH n) as E. unfold alter in E. lia.
Qed.

Lemma sum_insert P l (n : nat) e : (n < length l)%nat -> foldr (fun o m => opt_count P o + m) 0 (<[n := Some e]> l) =
  foldr (fun o m => opt_count P o + m) 0 l - opt_count P (mjoin (l !! n)) + b2z (P e).
Proof.
  revert n. induction l as [|o l IH]; intros [|n] Hn; simpl in *; try lia.
  rewrite IH by lia. lia.
Qed.

Lemma sum_grow P l n : foldr (fun o m => opt_count P o + m) 0 (grow l n) = foldr (fun o m => opt_count P o + m) 0 l.
Proof.
  unfold grow. rewrite foldr_app. f_equal. induction (S n - length l)%nat as [|k IH]; simpl; [done|]. rewrite IH. done.
Qed.

Lemma count_upd P c i g e : get_entry c i = Some e -> count P (upd_entry c i g) = count P c - b2z (P e) + b2z (P (g e)).
Proof. unfold get_entry, count, upd_entry. simpl. intros E. rewrite sum_alter, E. done. Qed.

Lemma count_put P c i e : get_entry c i = None -> count P (put_entry c i e) = count P c + b2z (P e).
Proof.
  unfold get_entry, count, put_entry. simpl. intros E. rewrite sum_insert by apply grow_length.
  rewrite sum_grow, grow_lookup, E. simpl. lia.
Qed.

(** ** Contents *)

Lemma page_ext (l l' : list Z) : length l = page_bytes -> length l' = page_bytes ->
  (forall k, 0 <= k < PAGE_SIZE -> l !! Z.to_nat k = l' !! Z.to_nat k) -> l = l'.
Proof.
  intros H1 H2 H. apply list_eq. intros n. pose proof page_bytes_Z as Hp.
  destruct (decide (n < page_bytes)%nat) as [Hn|Hn]; [|rewrite !lookup_ge_None_2 by lia; done].
  rewrite <- (Nat2Z.id n). apply H. lia.
Qed.

Section view.
Context {B : Type} `{HB : Backend B} `{HL : !BackendLaws B}.

Definition contents_of (ob : option B) (i : Z) : list Z :=
  match ob with Some b => contents b i | None => zero_page end.

Lemma contents_of_length ob i : length (contents_of ob i) = page_bytes.
Proof. destruct ob; simpl; [apply contents_length|apply zero_page_length]. Qed.

(** Page [i] of the file as a reader of the cache sees it. *)
Definition page_view (c : PageCache) (ob : option B) (i : Z) : list Z :=
  match get_entry c i with Some e => e_data e | None => contents_of ob i end.

(** Byte [k] of the file. *)
Definition byte_at (c : PageCache) (ob : option B) (k : Z) : option Z :=
  page_view c ob (k / PAGE_SIZE) !! Z.to_nat (k mod PAGE_SIZE).

(** An entry nobody is using. *)
Definition quiet (e : PageEntry) : Prop :=
  length (e_data e) = page_bytes /\ e_mask e = VALID_ALL /\ flags_ok (e_flags e) /\
  test_flag (e_flags e) PG_LOCKED = false /\ test_flag (e_flags e) PG_WRITEBACK = false /\
  test_flag (e_flags e) PG_REDIRTIED = false.

(** Entries are complete and unused, clean ones agree with the backend, and the
    index and the counters agree with the entries. *)
Record cache_ok (c : PageCache) (ob : option B) : Prop := {
  ok_quiet : forall i e, 0 <= i -> get_entry c i = Some e -> quiet e;
  ok_clean : forall i e, 0 <= i -> get_entry c i = Some e -> e_dirty e = false -> e_data e = contents_of ob i;
  ok_pages : forall i, 0 <= i -> (i ∈ pages c <-> is_Some (get_entry c i));
  ok_dirty : n_dirty c = count e_dirty c;
  ok_wb : n_wb c = 0;
}.

Lemma pc_new_ok ob : cache_ok pc_new ob.
Proof.
  split; try done.
  intros i _. unfold get_entry. simpl. split; [by intros ?%elem_of_empty|by intros [? ?]].
Qed.

Lemma page_view_length c ob i : cache_ok c ob -> 0 <= i -> length (page_view c ob i) = page_bytes.
Proof.
  intros Hc Hi. unfold page_view. destruct (get_entry c i) as [e|] eqn:E; [|apply contents_of_length].
  by destruct (ok_quiet _ _ Hc i e Hi E).
Qed.

(** An update of the flags of an unused entry that keeps it unused and does not
    touch the dirty bit. *)
Lemma touch_ok c ob i e g : cache_ok c ob -> 0 <= i -> get_entry c i = Some e ->
  quiet (map_flags g e) -> e_dirty (map_flags g e) = e_dirty e ->
  cache_ok (upd_entry c i (map_flags g)) ob /\ (forall j, 0 <= j ->
    page_view (upd_entry c i (map_flags g)) ob j = page_view c ob j).
Proof.
  intros [H1 H2 H3 H4 H5] Hi He Hq Hd. split; [split|].
  - intros j e' Hj. rewrite get_upd by done. case_decide; [|by apply H1]. rewrite He. by intros [= <-].
  - intros j e' Hj. rewrite get_upd by done. case_decide; [|by apply H2]. subst j. rewrite He.
    intros [= <-] Hc. rewrite Hd in Hc. by apply (H2 i e).
  - intros j Hj. rewrite get_upd by done. rewrite (H3 j Hj). case_decide; [|done]. subst j. by rewrite He.
  - rewrite (count_upd _ _ _ _ _ He). simpl. rewrite Hd, H4. lia.
  - done.
  - intros j Hj. unfold page_view. rewrite get_upd by done. case_decide; [|done]. subst j. by rewrite He.
Qed.

(** A new clean entry with the backend's page. *)
Lemma put_ok c ob i e : cache_ok c ob -> 0 <= i -> get_entry c i = None ->
  quiet e -> e_dirty e = false -> e_data e = contents_of ob i ->
  cache_ok (put_entry c i e) ob /\ (forall j, 0 <= j -> page_view (put_entry c i e) ob j = page_view c ob j).
Proof.
  intros [H1 H2 H3 H4 H5] Hi He Hq Hd Hc. split; [split|].
  - intros j e' Hj. rewrite get_put by done. case_decide; [|by apply H1]. by intros [= <-].
  - intros j e' Hj. rewrite get_put by done. case_decide; [|by apply H2]. subst j. by intros [= <-].
  - intros j Hj. rewrite get_put by done. simpl. rewrite elem_of_union, elem_of_singleton, (H3 j Hj).
    case_decide; naive_solver.
  - rewrite (count_put _ _ _ _ He), Hd. simpl. rewrite H4. lia.
  - done.
  - intros j Hj. unfold page_view. rewrite get_put by done. case_decide; [|done]. subst j. by rewrite He.
Qed.

End view.
