(* ===== verification/PageCacheWrite.v ===== *)
(** The write path of the page cache: what a write changes and what it leaves
    alone, on success and on failure. *)

From stdpp Require Import base numbers option gmap sets list.
From S2P Require Import Prelude Addr PageFlags PageCache.

(** ** Masks *)

Lemma mask_for_range_value po len : 0 <= po -> 0 < len -> po + len <= PAGE_SIZE ->
  mask_for_range po len = Z.shiftl (Z.ones ((po + len + 511) / 512 - po / 512)) (po / 512).
Proof.
  unfold PAGE_SIZE. intros H1 H2 H3. unfold mask_for_range, VALID_SEG_COUNT, VALID_SEG_SHIFT, PAGE_SIZE.
  rewrite !(Z.shiftr_div_pow2 _ 9) by lia. change (Z.shiftl 1 9) with 512. change (2 ^ 9) with 512.
  change (4096 / 512) with 8. replace (po +w len +w 512 -w 1)%machine with (po + len + 511) by word_lia.
  case_cmp; try lia; try div_lia. rewrite Z.min_l by div_lia. rewrite Z.ones_equiv, Z.shiftl_1_l. done.
Qed.

(** Bit [i] is set exactly when the range has a byte in segment [i]. *)
Lemma mask_for_range_bits po len i : 0 <= po -> 0 < len -> po + len <= PAGE_SIZE -> 0 <= i ->
  Z.testbit (mask_for_range po len) i = (po / 512 <=? i) && (i <? (po + len + 511) / 512).
Proof.
  intros H1 H2 H3 Hi. rewrite mask_for_range_value by done. rewrite Z.shiftl_spec by done.
  rewrite Z.testbit_ones by div_lia. case_cmp; simpl; try done; lia.
Qed.

Lemma mask_for_range_byte po len : 0 <= po -> 0 < len -> po + len <= PAGE_SIZE -> 0 <= mask_for_range po len < 256.
Proof.
  intros H1 H2 H3. rewrite mask_for_range_value by done. unfold PAGE_SIZE in H3.
  rewrite Z.shiftl_mul_pow2 by div_lia. rewrite Z.ones_equiv.
  assert (Hs : 0 <= po / 512 < 8) by div_lia. assert (He : po / 512 < (po + len + 511) / 512 <= 8) by div_lia.
  set (a := po / 512) in *. set (b := (po + len + 511) / 512) in *.
  replace (Z.pred (2 ^ (b - a)) * 2 ^ a) with (2 ^ b - 2 ^ a)
    by (rewrite <- (Z.sub_add a b) at 1; rewrite Z.pow_add_r by lia; ring_simplify; lia).
  pose proof (Z.pow_le_mono_r 2 a b). pose proof (Z.pow_le_mono_r 2 b 8).
  pose proof (Z.pow_pos_nonneg 2 a). lia.
Qed.

Lemma lor_valid_all m : 0 <= m < 256 -> Z.lor VALID_ALL m = VALID_ALL.
Proof. apply (byte_forall (fun m => Z.lor VALID_ALL m = VALID_ALL)). vm_compute. reflexivity. Qed.

(** The mask of a page decides whether it is read from the backend: it is
    not as soon as the old end of file is less than one segment into it. *)
Lemma initial_valid_mask_all i s : 0 <= i -> i * PAGE_SIZE + PAGE_SIZE < usize_modulus -> is_usize s ->
  initial_valid_mask i s = VALID_ALL <-> s < i * PAGE_SIZE + 512.
Proof.
  unfold initial_valid_mask, PAGE_SIZE. intros Hi Hb Hs.
  replace (i *w 4096)%machine with (i * 4096) by word_lia.
  replace (i * 4096 +w 4096)%machine with (i * 4096 + 4096) by word_lia.
  destruct (Z.leb_spec s (i * 4096)) as [|H1]; [split; intros; [lia|done]|].
  destruct (Z.ltb_spec s (i * 4096 + 4096)) as [H2|H2].
  - replace (s -w i * 4096)%machine with (s - i * 4096) by word_lia.
    split.
    + intros E. destruct (decide (s < i * 4096 + 512)) as [|Hn]; [done|].
      pose proof (f_equal (fun m => Z.testbit m 0) E) as E0. cbv beta in E0.
      rewrite mask_for_range_bits in E0 by (unfold PAGE_SIZE; lia).
      destruct (Z.leb_spec ((s - i * 4096) / 512) 0); [div_lia|done].
    + intros Hlt. rewrite mask_for_range_value by (unfold PAGE_SIZE; lia).
      rewrite (Z.div_small (s - i * 4096)) by lia. replace (s - i * 4096 + (4096 - (s - i * 4096)) + 511) with 4607 by lia. done.
  - split; [intros E; vm_compute in E; done|lia].
Qed.

Lemma initial_valid_mask_byte i s : 0 <= i -> i * PAGE_SIZE + PAGE_SIZE < usize_modulus -> is_usize s ->
  0 <= initial_valid_mask i s < 256.
Proof.
  unfold initial_valid_mask, PAGE_SIZE. intros Hi Hb Hs.
  replace (i *w 4096)%machine with (i * 4096) by word_lia.
  replace (i * 4096 +w 4096)%machine with (i * 4096 + 4096) by word_lia.
  destruct (Z.leb_spec s (i * 4096)); [unfold VALID_ALL; lia|].
  destruct (Z.ltb_spec s (i * 4096 + 4096)); [|lia].
  replace (s -w i * 4096)%machine with (s - i * 4096) by word_lia.
  apply mask_for_range_byte; unfold PAGE_SIZE; lia.
Qed.

(** ** Flags of unused entries *)

Definition unused (f : Z) : Prop :=
  flags_ok f /\ test_flag f PG_LOCKED = false /\ test_flag f PG_WRITEBACK = false /\ test_flag f PG_REDIRTIED = false.

Ltac unused_bytes f H :=
  let Hr := fresh in let He := fresh in let Hu := fresh in let Hl := fresh in let Hw := fresh in
  let Hd := fresh in
  unfold unused, flags_ok in *; destruct H as ((Hr & He & Hu) & Hl & Hw & Hd); revert He Hu Hl Hw Hd;
  match goal with |- ?G =>
    match eval pattern f in G with
    | ?P _ => apply (byte_forall P); [vm_compute; reflexivity|exact Hr]
    end
  end.

Lemma referenced_flags f : unused f ->
  unused (Z.lor f PG_REFERENCED) /\ test_flag (Z.lor f PG_REFERENCED) PG_DIRTY = test_flag f PG_DIRTY.
Proof. intros H. unused_bytes f H. Qed.

Lemma consumed_flags f : unused f -> let f' := fst (test_and_clear_flag f PG_FILEMAP_READAHEAD) in
  unused f' /\ test_flag f' PG_DIRTY = test_flag f PG_DIRTY.
Proof. intros H. unused_bytes f H. Qed.

Lemma lease_unused f : unused f ->
  try_lock_for_write f = Ok (Some (Z.lor f (Z.lor PG_LOCKED PG_REFERENCED), test_flag f PG_DIRTY)).
Proof. 
  intros H. unfold try_lock_for_write. destruct H as (Hf & Hl & Hw & _). rewrite Hl.
  pose proof (decode_flags f Hf) as (_ & _ & H3 & H4 & H5). destruct (decode_state f); try done.
  rewrite H3 in Hw by done. done.
Qed.

Lemma redirtied_kept f : flags_ok f ->
  test_flag (Z.lor f (Z.lor PG_LOCKED PG_REFERENCED)) PG_REDIRTIED = test_flag f PG_REDIRTIED /\
  test_flag (fst (commit_write f)) PG_REDIRTIED = test_flag f PG_REDIRTIED /\
  test_flag (abort_write f) PG_REDIRTIED = test_flag f PG_REDIRTIED.
Proof. intros H. unfold flags_ok in *. by_bytes f H. Qed.

Lemma quiet_unused e : quiet e <-> length (e_data e) = page_bytes /\ e_mask e = VALID_ALL /\ unused (e_flags e).
Proof. unfold quiet, unused. tauto. Qed.

Section write.
Context {B : Type} `{HB : Backend B} `{HL : !BackendLaws B}.
Implicit Types (c : PageCache) (ob : option B).

(** ** Finding or creating the page of a write *)

Definition index_ok c : Prop := forall j, 0 <= j -> (j ∈ pages c <-> is_Some (get_entry c j)).

(** Changes of a cache at page [i] that keep the dirty bits. *)
Record touched c c' (i : Z) : Prop := {
  t_others : forall j, 0 <= j -> j <> i -> get_entry c' j = get_entry c j;
  t_index : index_ok c -> index_ok c';
  t_count : count e_dirty c' = count e_dirty c;
  t_dirty : n_dirty c' = n_dirty c;
  t_wb : n_wb c' = n_wb c;
}.

Lemma touched_trans c1 c2 c3 i : touched c1 c2 i -> touched c2 c3 i -> touched c1 c3 i.
Proof.
  intros [A1 A2 A3 A4 A5] [B1 B2 B3 B4 B5]. split; try congruence; [|tauto].
  intros j Hj Hne. rewrite B1, A1; done.
Qed.

Lemma touched_upd c i e g : 0 <= i -> get_entry c i = Some e -> e_dirty (g e) = e_dirty e -> touched c (upd_entry c i g) i.
Proof.
  intros Hi He Hd. split; try done.
  - intros j Hj Hne. rewrite get_upd, decide_False; done.
  - intros Hx j Hj. rewrite get_upd by done. simpl. rewrite (Hx j Hj). case_decide; [|done]. subst j. by rewrite He.
  - rewrite (count_upd _ _ _ _ _ He), Hd. lia.
Qed.

Lemma touched_put c i e : 0 <= i -> get_entry c i = None -> e_dirty e = false -> touched c (put_entry c i e) i.
Proof.
  intros Hi He Hd. split; try done.
  - intros j Hj Hne. rewrite get_put, decide_False; done.
  - intros Hx j Hj. rewrite get_put by done. simpl. rewrite elem_of_union, elem_of_singleton, (Hx j Hj).
    case_decide; naive_solver.
  - rewrite (count_put _ _ _ _ He), Hd. simpl. lia.
Qed.

Lemma quiet_referenced e : quiet e -> quiet (mark_referenced e) /\ e_dirty (mark_referenced e) = e_dirty e.
Proof.
  rewrite !quiet_unused. intros (H1 & H2 & H3). destruct (referenced_flags _ H3) as [H4 H5]. done.
Qed.

Lemma quiet_consumed e : quiet e ->
  quiet (consume_filemap_readahead e) /\ e_dirty (consume_filemap_readahead e) = e_dirty e.
Proof.
  rewrite !quiet_unused. intros (H1 & H2 & H3). destruct (consumed_flags _ H3) as [H4 H5]. done.
Qed.

Lemma new_entry_spec ob i populate m e : 0 <= m < 256 -> new_entry ob i populate (m =? VALID_ALL) m = Ok e ->
  quiet e /\ e_dirty e = false /\
  e_data e = if populate && negb (m =? VALID_ALL) then contents_of ob i else zero_page.
Proof.
  intros Hm. unfold new_entry. destruct (populate && negb (m =? VALID_ALL)).
  - destruct (match ob with Some b => read_page b i zero_page | None => Ok zero_page end) as [d|] eqn:Er; [|done].
    assert (d = contents_of ob i) as ->.
    { destruct ob as [b|]; simpl; [|congruence]. eapply read_page_ok; [apply zero_page_length|done]. }
    intros [= <-]. assert (Hq : quiet (page_entry_new (contents_of ob i) UpToDate))
      by (split_and!; try done; apply contents_of_length).
    destruct (m =? 0); [done|]. split; [|done]. destruct Hq as (H1 & _ & H3). split; [done|]. split; [|done].
    simpl. by apply lor_valid_all.
  - assert (Hq : forall f, f = PG_UPTODATE -> quiet (mkEntry zero_page f VALID_ALL 0))
      by (intros f ->; split_and!; try done; apply zero_page_length).
    destruct (m =? VALID_ALL); intros [= <-]; (split; [by apply Hq|done]).
Qed.

(** The byte offsets of page [i] are machine integers. *)
Definition page_bound (i : Z) : Prop := 0 <= i /\ i * PAGE_SIZE + PAGE_SIZE < usize_modulus.

(** A page that is not cached and starts (almost) past the old end of file is
    all zeros on the backend. *)
Definition populate_ok c ob (old : option Z) (i : Z) : Prop :=
  get_entry c i = None -> forall s, old = Some s -> s < i * PAGE_SIZE + 512 -> contents_of ob i = zero_page.

Definition size_ok (old : option Z) : Prop := forall s, old = Some s -> is_usize s.

Definition readable ob (i : Z) : Prop :=
  match ob with Some b => exists d, read_page b i zero_page = Ok d | None => True end.

Definition dirty_before c (i : Z) : bool := match get_entry c i with Some e => e_dirty e | None => false end.

Definition obtained c ob (i : Z) (full : bool) c1 (e : PageEntry) : Prop :=
  touched c c1 i /\ get_entry c1 i = Some e /\ quiet e /\ e_dirty e = dirty_before c i /\
  (e_data e = page_view c ob i \/ get_entry c i = None /\ full = true).

Lemma get_or_create_spec c ob av i populate old c1 e full : page_bound i -> size_ok old ->
  (forall e, get_entry c i = Some e -> quiet e) ->
  (full = false -> populate_ok c ob old i /\
     (get_entry c i = None -> populate = false -> contents_of ob i = zero_page)) ->
  get_or_create_entry c ob av i populate old = (c1, Ok e) -> obtained c ob i full c1 e.
Proof.
  intros [Hi Hb] Hs Hq Hp. unfold get_or_create_entry.
  set (m := match old with Some s => initial_valid_mask i s | None => 0 end).
  assert (Hm : 0 <= m < 256).
  { unfold m. destruct old as [s|]; [|lia]. apply initial_valid_mask_byte; [done|done|by apply Hs]. }
  destruct (get_entry c i) as [e0|] eqn:E0.
  - intros [= <- <-]. destruct (quiet_referenced e0 (Hq _ eq_refl)) as [H1 H2].
    split; [by eapply touched_upd|]. split; [rewrite get_upd, decide_True, E0; done|].
    unfold dirty_before, page_view. rewrite E0. auto.
  - destruct av; [|done]. simpl. destruct (new_entry _ _ _ _ _) as [e'|] eqn:En; [|done]. intros [= <- <-].
    destruct (new_entry_spec _ _ _ _ _ Hm En) as (H1 & H2 & H3).
    destruct (quiet_referenced e' H1) as [H4 H5].
    split; [apply touched_put; [done|done|congruence]|].
    split; [rewrite get_put, decide_True; done|]. split; [done|].
    unfold dirty_before, page_view. rewrite E0. split; [congruence|].
    destruct full; [by right|]. left. destruct (Hp eq_refl) as [Hp1 Hp2]. simpl. rewrite H3.
    destruct (Z.eqb_spec m VALID_ALL) as [Em|_]; [|destruct populate; simpl; [done|by rewrite Hp2]].
    rewrite andb_false_r. unfold m in Em. destruct old as [s|]; [|done].
    symmetry. apply (Hp1 E0 s eq_refl). apply initial_valid_mask_all; [done|done|by apply Hs|done].
Qed.

Lemma obtain_spec c ob av i old c1 e full : page_bound i -> size_ok old ->
  (forall e, get_entry c i = Some e -> quiet e) -> (full = false -> populate_ok c ob old i) ->
  get_page_for_write_populate c ob av i old full = (c1, Ok e) -> obtained c ob i full c1 e.
Proof.
  intros Hb Hs Hq Hp. unfold get_page_for_write_populate.
  destruct (get_or_create_entry _ _ _ _ _ _) as [c2 [e2|]] eqn:Eg; [|done]. intros [= <- <-].
  assert (O : obtained c ob i full c2 e2).
  { eapply get_or_create_spec; [done|done|done| |exact Eg]. intros Hf. specialize (Hp Hf). split; [done|]. rewrite Hf. simpl. intros Hn Hpop.
    destruct old as [s|]; [|done]. apply (Hp Hn s eq_refl).
    apply negb_false_iff, Z.leb_le in Hpop. destruct Hb as [Hi Hb]. revert Hpop Hb. unfold PAGE_SIZE.
    pose proof (Hs _ eq_refl). word_lia. }
  destruct O as (T & G & Q & D & V). destruct (quiet_consumed e2 Q) as [Q' D']. destruct Hb as [Hi _].
  split; [eapply touched_trans; [done|by eapply touched_upd]|].
  split; [rewrite get_upd, decide_True, G; done|]. split; [done|]. split; [congruence|done].
Qed.

(** Nothing changes when the page cannot be obtained, and it can be when there
    is a frame and the backend can be read. *)
Lemma obtain_err c ob av i old c1 er full :
  get_page_for_write_populate c ob av i old full = (c1, Err er) -> c1 = c.
Proof.
  unfold get_page_for_write_populate, get_or_create_entry. destruct (get_entry c i); [done|].
  destruct av; simpl; [|congruence]. destruct (new_entry _ _ _ _ _); congruence.
Qed.

Lemma obtain_total c ob i old full : readable ob i ->
  exists c1 e, get_page_for_write_populate c ob true i old full = (c1, Ok e).
Proof.
  intros Hr. unfold get_page_for_write_populate, get_or_create_entry. destruct (get_entry c i); [by eauto|].
  simpl. unfold new_entry. destruct ob as [b|]; simpl in Hr; [destruct Hr as [d ->]|]; repeat case_match; eauto; done.
Qed.

(** ** The lease phase *)

Definition is_full (it : CopyItem) : bool := (it_offset it =? 0) && (it_len it =? PAGE_SIZE).

(** Entry of a leased page; the contents are those of before the call, except
    for a page that was not cached and will be overwritten entirely. *)
Definition leased_entry c0 ob (it : CopyItem) (e : PageEntry) : Prop :=
  length (e_data e) = page_bytes /\ e_mask e = VALID_ALL /\ flags_ok (e_flags e) /\
  test_flag (e_flags e) PG_LOCKED = true /\ test_flag (e_flags e) PG_WRITEBACK = false /\
  test_flag (e_flags e) PG_REDIRTIED = false /\
  e_dirty e = it_was_dirty it /\ it_was_dirty it = dirty_before c0 (it_page it) /\
  (e_data e = page_view c0 ob (it_page it) \/ get_entry c0 (it_page it) = None /\ is_full it = true).

Record lease_inv c0 ob c (items : list CopyItem) : Prop := {
  li_items : Forall (fun it => 0 <= it_page it /\
    exists e, get_entry c (it_page it) = Some e /\ leased_entry c0 ob it e) items;
  li_nodup : NoDup (it_page <$> items);
  li_others : forall j, 0 <= j -> j ∉ it_page <$> items -> get_entry c j = get_entry c0 j;
  li_index : index_ok c;
  li_count : count e_dirty c = count e_dirty c0;
  li_dirty : n_dirty c = n_dirty c0;
  li_wb : n_wb c = n_wb c0;
}.

Lemma lease_inv_init c ob : cache_ok c ob -> lease_inv c ob c [].
Proof. intros Hc. split; try done; [apply NoDup_nil_2|exact (ok_pages _ _ Hc)]. Qed.

Lemma lease_step c0 ob c items i po sl c1 e : lease_inv c0 ob c items -> 0 <= i -> i ∉ it_page <$> items ->
  obtained c ob i ((po =? 0) && (sl =? PAGE_SIZE)) c1 e ->
  let f := Z.lor (e_flags e) (Z.lor PG_LOCKED PG_REFERENCED) in
  lease_inv c0 ob (upd_entry c1 i (map_flags (fun _ => f)))
    (items ++ [mkItem i po sl (test_flag (e_flags e) PG_DIRTY)]).
Proof.
  intros [I1 I2 I3 I4 I5 I6 I7] Hi Hn (T & G & Q & D & V) f. pose proof (I3 i Hi Hn) as E0.
  apply quiet_unused in Q as (Q1 & Q2 & Q3). pose proof (lease_flags _ _ _ (proj1 Q3) (lease_unused _ Q3)) as F.
  destruct F as (F1 & _ & _ & F2 & F3 & F4 & _). destruct (redirtied_kept _ (proj1 Q3)) as [F5 _].
  rewrite (proj2 (proj2 (proj2 Q3))) in F5. fold f in F1, F2, F3, F4, F5.
  assert (T' : touched c1 (upd_entry c1 i (map_flags (fun _ => f))) i) by (by eapply touched_upd).
  destruct (touched_trans _ _ _ _ T T') as [A1 A2 A3 A4 A5].
  assert (Gi : get_entry (upd_entry c1 i (map_flags (fun _ => f))) i = Some (map_flags (fun _ => f) e))
    by (rewrite get_upd, decide_True, G; done).
  split; try congruence; [| | |by apply A2].
  - apply Forall_app. split; [|apply Forall_singleton; simpl; split; [done|]].
    + rewrite Forall_forall in I1 |- *. intros it Hit. destruct (I1 it Hit) as (H1 & e' & H2 & H3).
      split; [done|]. exists e'. split; [|done]. rewrite A1; [done|done|]. intros Ei. apply Hn. rewrite <- Ei.
      by apply list_elem_of_fmap_2.
    + eexists. split; [exact Gi|]. unfold leased_entry, is_full, e_dirty. simpl.
      unfold dirty_before, page_view in *. rewrite E0 in *. by split_and!.
  - rewrite fmap_app. apply NoDup_app. split_and!; [done| |apply NoDup_singleton].
    intros x Hx ->%list_elem_of_singleton. done.
  - intros j Hj. rewrite fmap_app. simpl. rewrite not_elem_of_app, not_elem_of_cons. intros (Hj1 & Hj2 & _).
    rewrite A1 by done. by apply I3.
Qed.

Definition item_key (it : CopyItem) : Z * (Z * Z) := (it_page it, (it_offset it, it_len it)).

Definition span_full (sp : Z * Z) : bool := (fst sp =? 0) && (snd sp =? PAGE_SIZE).

(** What the lease phase needs to know of page [i]. *)
Definition target_ok c0 ob (old : option Z) (offset len i : Z) : Prop :=
  page_bound i /\ snd (page_span offset len i) <> 0 /\
  (span_full (page_span offset len i) = false -> populate_ok c0 ob old i).

Lemma lease_pages_spec c0 ob avail offset len old idxs c items c' r :
  cache_ok c0 ob -> size_ok old -> lease_inv c0 ob c items -> NoDup ((it_page <$> items) ++ idxs) ->
  Forall (target_ok c0 ob old offset len) idxs ->
  lease_pages c ob avail offset len old idxs items = (c', r) ->
  match r with
  | Ok items' => lease_inv c0 ob c' items' /\
      item_key <$> items' = (item_key <$> items) ++ ((fun i => (i, page_span offset len i)) <$> idxs)
  | Err er => (exists e, er = WError e) /\ exists c2 items', lease_inv c0 ob c2 items' /\ c' = abort_items c2 items' /\
      forall it, it ∈ items' -> it ∈ items \/ exists i, i ∈ idxs /\ item_key it = (i, page_span offset len i)
  end.
Proof.
  intros Hc0 Hs. revert c items. induction idxs as [|i idxs IH]; intros c items Hl Hnd Ht; cbn [lease_pages].
  { intros [= <- <-]. rewrite app_nil_r. done. }
  inversion Ht as [|? ? (Hb & Hsl & Hp) Ht']; subst. destruct (page_span offset len i) as [po sl] eqn:Esp.
  simpl in Hsl. apply Z.eqb_neq in Hsl. rewrite Hsl.
  apply NoDup_app in Hnd as (Hn1 & Hn2 & Hn3). apply NoDup_cons in Hn3 as [Hn3 Hn4].
  assert (Hi : i ∉ it_page <$> items) by (intros Hx; apply (Hn2 i Hx); left).
  destruct Hb as [Hi0 Hb]. pose proof (li_others _ _ _ _ Hl i Hi0 Hi) as E0.
  destruct (get_page_for_write_populate _ _ _ _ _ _) as [c1 [e|er]] eqn:Eg.
  - assert (O : obtained c ob i ((po =? 0) && (sl =? PAGE_SIZE)) c1 e).
    { eapply obtain_spec; [done|done| | |exact Eg]; [rewrite E0; intros e'; by apply (ok_quiet _ _ Hc0)|].
      unfold span_full, populate_ok in *. rewrite E0. exact Hp. }
    pose proof (lease_step c0 ob c items i po sl c1 e Hl Hi0 Hi O) as Hl'. cbv zeta in Hl'.
    destruct O as (_ & _ & Q & _). apply quiet_unused in Q as (_ & _ & Q). rewrite (lease_unused _ Q).
    intros Hr. specialize (IH _ _ Hl'). apply IH in Hr; [|rewrite fmap_app, <- app_assoc; apply NoDup_app; simpl|done].
    + destruct r as [items'|er].
      * destruct Hr as [Hr1 Hr2]. split; [done|]. rewrite Hr2, fmap_app, <- app_assoc. simpl. by rewrite Esp.
      * destruct Hr as (Re & c2 & items' & R1 & R2 & R3). split; [done|]. exists c2, items'. do 2 (split; [done|]).
        intros it Hit. destruct (R3 it Hit) as [[Hx|Hx]%elem_of_app|(k & Hk & Ek)]; [by left| |].
        -- apply list_elem_of_singleton in Hx as ->. right. exists i. split; [left|]. simpl. by rewrite Esp.
        -- right. exists k. split; [by right|done].
    + split_and!; [done| |by apply NoDup_cons]. intros x Hx Hx'. apply (Hn2 x Hx). done.
  - apply obtain_err in Eg as ->. intros [= <- <-]. split; [by eauto|]. exists c, items. eauto.
Qed.

(** ** The copy phase *)

(** The item of page [j] and the bytes copied there. *)
Fixpoint item_src (items : list CopyItem) (buf : list Z) (j : Z) : option (CopyItem * list Z) :=
  match items with
  | [] => None
  | it :: items =>
      if it_page it =? j then Some (it, take (Z.to_nat (it_len it)) buf)
      else item_src items (drop (Z.to_nat (it_len it)) buf) j
  end.

Lemma item_src_None items buf j : j ∉ it_page <$> items -> item_src items buf j = None.
Proof.
  revert buf. induction items as [|it items IH]; intros buf; simpl; [done|]. rewrite not_elem_of_cons. intros [H1 H2].
  destruct (Z.eqb_spec (it_page it) j); [congruence|]. by apply IH.
Qed.

Definition all_leased c0 ob c (items : list CopyItem) : Prop :=
  Forall (fun it => 0 <= it_page it /\ exists e, get_entry c (it_page it) = Some e /\ leased_entry c0 ob it e) items.

Lemma all_leased_frame c0 ob c c' items i : all_leased c0 ob c items -> i ∉ it_page <$> items ->
  (forall j, 0 <= j -> j <> i -> get_entry c' j = get_entry c j) -> all_leased c0 ob c' items.
Proof.
  intros Ha Hi Hf. unfold all_leased in *. rewrite Forall_forall in *. intros it Hit.
  destruct (Ha it Hit) as (H1 & e & H2 & H3). split; [done|]. exists e. split; [|done]. rewrite Hf; [done|done|].
  intros E. apply Hi. rewrite <- E. by apply list_elem_of_fmap_2.
Qed.

(** One item: the page is rewritten, its dirty bit set and counted. *)
Lemma copy_one c0 ob c it src e : 0 <= it_page it -> get_entry c (it_page it) = Some e -> leased_entry c0 ob it e ->
  let c' := upd_entry c (it_page it) (write_item it src) in
  let c'' := if snd (commit_write (e_flags e)) && negb (it_was_dirty it) then add_dirty c' 1 else c' in
  (forall j, 0 <= j -> get_entry c'' j =
     if decide (j = it_page it) then Some (write_item it src e) else get_entry c j) /\
  (index_ok c -> index_ok c'') /\ n_wb c'' = n_wb c /\
  n_dirty c'' - count e_dirty c'' = n_dirty c - count e_dirty c.
Proof.
  intros Hi He (_ & _ & F & _ & _ & _ & D & _) c' c''. destruct (commit_flags _ F) as (_ & _ & C1 & _ & C2).
  assert (Hg : forall j, get_entry c'' j = get_entry c' j) by (unfold c''; by destruct (_ && _)).
  assert (Hg' : forall j, 0 <= j -> get_entry c' j = if decide (j = it_page it) then Some (write_item it src e) else get_entry c j)
    by (intros j Hj; unfold c'; rewrite get_upd, He by done; done).
  assert (Hc : count e_dirty c'' = count e_dirty c - b2z (e_dirty e) + 1).
  { transitivity (count e_dirty c'); [unfold c''; by destruct (_ && _)|]. unfold c'. rewrite (count_upd _ _ _ _ _ He).
    unfold e_dirty at 3. simpl. simpl in C1. rewrite C1. done. }
  split_and!.
  - intros j Hj. rewrite Hg. by apply Hg'.
  - intros Hx j Hj. rewrite Hg, (Hg' j Hj). replace (pages c'') with (pages c) by (unfold c''; by destruct (_ && _)).
    rewrite (Hx j Hj). case_decide; [|done]. subst j. by rewrite He.
  - unfold c''. by destruct (_ && _).
  - rewrite Hc. unfold c''. rewrite C2. fold (e_dirty e). rewrite D. destruct (it_was_dirty it); simpl; lia.
Qed.

Lemma copy_items_spec c0 ob c buf items : all_leased c0 ob c items -> NoDup (it_page <$> items) ->
  let c' := copy_items c buf items in
  (forall j, 0 <= j -> get_entry c' j =
     match item_src items buf j with Some (it, src) => write_item it src <$> get_entry c j | None => get_entry c j end) /\
  (index_ok c -> index_ok c') /\ n_wb c' = n_wb c /\ n_dirty c' - count e_dirty c' = n_dirty c - count e_dirty c.
Proof.
  revert c buf. induction items as [|it items IH]; intros c buf Ha Hn; [by simpl|]. cbn [copy_items].
  apply Forall_cons in Ha as [(Hi & e & He & Hl) Ha]. simpl in Hn. apply NoDup_cons in Hn as [Hn1 Hn2]. rewrite He.
  destruct (copy_one c0 ob c it (take (Z.to_nat (it_len it)) buf) e Hi He Hl) as (G & X & Wb & Dc). cbv zeta in *.
  match goal with |- context [copy_items ?x _ items] => set (c1 := x) in * end.
  destruct (IH c1 (drop (Z.to_nat (it_len it)) buf)) as (G' & X' & Wb' & Dc'); [|done|].
  { eapply all_leased_frame; [done|exact Hn1|]. intros j Hj Hne. rewrite G by done. by rewrite decide_False. }
  split_and!; [|tauto|congruence|lia].
  intros j Hj. rewrite G' by done. simpl. destruct (Z.eqb_spec (it_page it) j) as [<-|Hne].
  - rewrite item_src_None by done. rewrite G, decide_True, He by done. done.
  - rewrite G by done. rewrite decide_False by congruence. done.
Qed.

(** Releasing the leases: contents and dirty bits stay. *)
Lemma abort_items_spec c0 ob c items : all_leased c0 ob c items -> NoDup (it_page <$> items) ->
  let c' := abort_items c items in
  (forall j, 0 <= j -> get_entry c' j =
     if decide (j ∈ it_page <$> items) then map_flags abort_write <$> get_entry c j else get_entry c j) /\
  (index_ok c -> index_ok c') /\ n_wb c' = n_wb c /\ n_dirty c' = n_dirty c /\ count e_dirty c' = count e_dirty c.
Proof.
  unfold abort_items. revert c. induction items as [|it items IH]; intros c Ha Hn; [by simpl|]. cbn [foldl].
  apply Forall_cons in Ha as [(Hi & e & He & Hl) Ha]. simpl in Hn. apply NoDup_cons in Hn as [Hn1 Hn2].
  destruct Hl as (_ & _ & F & _). destruct (abort_flags _ F) as (_ & _ & D & _).
  pose proof (touched_upd c _ e (map_flags abort_write) Hi He D) as [T1 T2 T3 T4 T5].
  destruct (IH (upd_entry c (it_page it) (map_flags abort_write))) as (G & X & Wb & Nd & Ct);
    [by eapply all_leased_frame|done|].
  split_and!; [|tauto|congruence|congruence|congruence].
  intros j Hj. rewrite G by done. simpl. rewrite get_upd by done.
  destruct (decide (j = it_page it)) as [->|Hne].
  - rewrite decide_False by done. rewrite decide_True by (left; done). done.
  - destruct (decide (j ∈ it_page <$> items)) as [Hin|Hin].
    + rewrite decide_True by (by right). done.
    + rewrite decide_False; [done|]. rewrite not_elem_of_cons. done.
Qed.

End write.

(** ** Arithmetic of a write that spans pages *)

Definition span_at (offset i : Z) : Z := Z.max offset (i * PAGE_SIZE) - i * PAGE_SIZE.
Definition span_len (offset len i : Z) : Z :=
  Z.min (offset + len) (i * PAGE_SIZE + PAGE_SIZE) - Z.max offset (i * PAGE_SIZE).
Definition src_at (offset i : Z) : Z := Z.max offset (i * PAGE_SIZE) - offset.

Definition in_write (offset len i : Z) : Prop := offset / PAGE_SIZE <= i <= (offset + len - 1) / PAGE_SIZE.

Lemma span_bounds offset len i : 0 <= offset -> 0 < len -> in_write offset len i ->
  0 <= span_at offset i /\ 0 < span_len offset len i /\ span_at offset i + span_len offset len i <= PAGE_SIZE /\
  0 <= src_at offset i /\ src_at offset i + span_len offset len i <= len.
Proof. unfold span_at, span_len, src_at, in_write, PAGE_SIZE. intros. div_lia. Qed.

Lemma page_span_value offset len i : 0 <= offset -> 0 < len -> offset + len <= i64_max -> in_write offset len i ->
  page_span offset len i = (span_at offset i, span_len offset len i).
Proof.
  intros H1 H2 H3 H4. pose proof (span_bounds _ _ _ H1 H2 H4) as Hb. unfold page_span.
  assert (Hi : 0 <= i /\ i * PAGE_SIZE + PAGE_SIZE < usize_modulus).
  { unfold in_write, PAGE_SIZE, i64_max, usize_modulus in *. div_lia. }
  rewrite Z.shiftl_mul_pow2 by done. change (2 ^ PAGE_SIZE_BITS) with PAGE_SIZE.
  unfold span_at, span_len, src_at, PAGE_SIZE in *.
  rewrite (wrap64_small (i * 4096)) by word_lia.
  replace (i * 4096 +w 4096)%machine with (i * 4096 + 4096) by word_lia.
  replace (offset +w len)%machine with (offset + len) by word_lia.
  f_equal; word_lia.
Qed.

Lemma in_write_bound offset len i : 0 <= offset -> 0 < len -> offset + len <= i64_max -> in_write offset len i -> page_bound i.
Proof. unfold in_write, page_bound, PAGE_SIZE, i64_max, usize_modulus. intros. div_lia. Qed.

Lemma in_write_nonneg offset len i : 0 <= offset -> in_write offset len i -> 0 <= i.
Proof. unfold in_write, PAGE_SIZE. intros. div_lia. Qed.

Lemma src_at_next offset len i : 0 <= offset -> 0 < len -> in_write offset len i -> in_write offset len (i + 1) ->
  src_at offset (i + 1) = src_at offset i + span_len offset len i.
Proof. unfold span_len, src_at, in_write, PAGE_SIZE. intros. div_lia. Qed.
