(* ===== verification/PageCacheFile.v ===== *)
(** The write path of the page cache against the bytes of the file. *)

From stdpp Require Import base numbers option gmap sets list.
From S2P Require Import Prelude Addr PageFlags PageCache PageCacheWrite.

Lemma splice_length d n src : (n + length src <= length d)%nat -> length (splice d n src) = length d.
Proof. intros H. unfold splice. rewrite !length_app, length_take, length_drop. lia. Qed.

Lemma splice_lookup d n src k : (n + length src <= length d)%nat ->
  splice d n src !! k = if decide (n <= k < n + length src)%nat then src !! (k - n)%nat else d !! k.
Proof.
  intros H. unfold splice. assert (Hn : length (take n d) = n) by (rewrite length_take; lia).
  case_decide as Hk.
  - rewrite lookup_app_r, Hn by lia. rewrite lookup_app_l by lia. done.
  - destruct (decide (k < n)%nat) as [Hl|Hl].
    + rewrite lookup_app_l by lia. by rewrite lookup_take_lt.
    + rewrite lookup_app_r, Hn by lia. rewrite lookup_app_r by lia. rewrite lookup_drop. f_equal. lia.
Qed.

Lemma splice_all d src : length src = length d -> splice d 0 src = src.
Proof. intros H. unfold splice. simpl. rewrite H, drop_all, app_nil_r. done. Qed.

(** Part of the buffer that goes to page [i]. *)
Definition src_part (offset : Z) (buf : list Z) (i : Z) : list Z :=
  take (Z.to_nat (span_len offset (Z.of_nat (length buf)) i)) (drop (Z.to_nat (src_at offset i)) buf).

Definition total_len (items : list CopyItem) : Z := foldr (fun it n => it_len it + n) 0 items.

Section span.
Variables (offset : Z) (buf : list Z).
Local Abbreviation len := (Z.of_nat (length buf)).
Hypotheses (Ho : 0 <= offset) (Hl : 0 < len) (Hm : offset + len <= i64_max).

Lemma src_part_length i : in_write offset len i -> Z.of_nat (length (src_part offset buf i)) = span_len offset len i.
Proof.
  intros Hi. destruct (span_bounds _ _ _ Ho Hl Hi) as (H1 & H2 & H3 & H4 & H5).
  unfold src_part. rewrite length_take, length_drop. lia.
Qed.

(** The items made by the lease phase copy the right part to each page. *)
Lemma item_src_span items s n j : in_write offset len s -> in_write offset len (s + Z.of_nat n - 1) ->
  item_key <$> items = (fun i => (i, page_span offset len i)) <$> seqZ s (Z.of_nat n) ->
  s <= j < s + Z.of_nat n ->
  exists it, item_src items (drop (Z.to_nat (src_at offset s)) buf) j = Some (it, src_part offset buf j) /\
    item_key it = (j, (span_at offset j, span_len offset len j)).
Proof.
  revert items s. induction n as [|n IH]; intros items s Hs He Hk Hj; [lia|].
  rewrite seqZ_cons in Hk by lia. destruct items as [|it items]; [done|]. rewrite !fmap_cons in Hk.
  rewrite page_span_value in Hk by done. injection Hk as Hk1 Hk2 Hk3 Hk.
  destruct (span_bounds _ _ _ Ho Hl Hs) as (B1 & B2 & B3 & B4 & B5).
  simpl. destruct (Z.eqb_spec (it_page it) j) as [Ej|Ej].
  - exists it. subst j. rewrite Hk1, Hk3. unfold item_key. split; [done|]. congruence.
  - assert (Hs' : in_write offset len (s + 1)) by (unfold in_write in *; lia).
    rewrite drop_drop, Hk3.
    replace (Z.to_nat (src_at offset s) + Z.to_nat (span_len offset len s))%nat with (Z.to_nat (src_at offset (s + 1)))
      by (rewrite (src_at_next offset len s) by done; lia).
    apply IH; [done| | |lia].
    + replace (s + 1 + Z.of_nat n - 1) with (s + Z.of_nat (S n) - 1) by lia. done.
    + rewrite Hk. repeat f_equal; lia.
Qed.

Lemma total_len_span n s items : in_write offset len s -> in_write offset len (s + Z.of_nat n - 1) ->
  item_key <$> items = (fun i => (i, page_span offset len i)) <$> seqZ s (Z.of_nat n) -> (0 < n)%nat ->
  total_len items = span_len offset len (s + Z.of_nat n - 1) + src_at offset (s + Z.of_nat n - 1) - src_at offset s.
Proof.
  revert s items. induction n as [|n IH]; intros s its Hs He Hks Hn; [lia|].
  rewrite seqZ_cons in Hks by lia. destruct its as [|it its]; [done|]. rewrite !fmap_cons in Hks.
  rewrite page_span_value in Hks by done. injection Hks as K1 K2 K3 Hks.
  replace (s + Z.of_nat (S n) - 1) with (s + Z.of_nat n) in * by lia. cbn [total_len foldr]. rewrite K3.
  destruct n as [|n].
  - destruct its; [|done]. simpl. rewrite !Z.add_0_r. lia.
  - assert (Hs' : in_write offset len (s + 1)) by (unfold in_write in *; lia).
    fold (total_len its). rewrite (IH (s + 1) its); [|done| | |lia].
    + rewrite (src_at_next offset len s) by done. replace (s + 1 + Z.of_nat (S n) - 1) with (s + Z.of_nat (S n)) by lia. lia.
    + replace (s + 1 + Z.of_nat (S n) - 1) with (s + Z.of_nat (S n)) by lia. done.
    + rewrite Hks. repeat f_equal; lia.
Qed.

End span.

Section file.
Context {B : Type} `{HB : Backend B} `{HL : !BackendLaws B}.
Implicit Types (c : PageCache) (ob : option B).

Lemma write_general_eq c ob avail offset buf old before : 0 <= offset -> buf <> [] ->
  offset + Z.of_nat (length buf) <= i64_max ->
  let len := Z.of_nat (length buf) in
  write_general c ob avail offset buf old before =
    match lease_pages c ob avail offset len old
            (seqZ (offset / PAGE_SIZE) ((offset + len - 1) / PAGE_SIZE - offset / PAGE_SIZE + 1)) [] with
    | (c, Err e) => (c, Err e)
    | (c, Ok items) =>
        match before (total_len items) with
        | Err er => (abort_items c items, Err (WError er))
        | Ok () => (copy_items c buf items, Ok (total_len items))
        end
    end.
Proof.
  intros Ho Hb Hm len. assert (Hl : 0 < len) by (destruct buf; [done|unfold len; simpl; lia]).
  unfold write_general. fold len.
  rewrite !Z.shiftr_div_pow2 by done. change (2 ^ PAGE_SIZE_BITS) with PAGE_SIZE.
  by replace (offset +w len -w 1)%machine with (offset + len - 1)
    by (unfold i64_max in Hm; fold len in Hm; word_lia).
Qed.

(** The one-page path is the general path on one page. *)
Lemma write_kernel_body_eq c ob avail offset buf old before : 0 <= offset -> buf <> [] ->
  offset + Z.of_nat (length buf) <= i64_max ->
  write_kernel_body c ob avail offset buf old before = write_general c ob avail offset buf old before.
Proof.
  intros Ho Hb Hm. set (len := Z.of_nat (length buf)).
  assert (Hl : 0 < len) by (destruct buf; [done|unfold len; simpl; lia]).
  unfold write_kernel_body. fold len. destruct (Z.eqb_spec len 0); [lia|].
  destruct (Z.eqb_spec (Z.shiftr offset PAGE_SIZE_BITS)
    (Z.shiftr (offset +w len -w 1)%machine PAGE_SIZE_BITS)) as [E|E]; [|done].
  rewrite write_general_eq by done. fold len.
  revert E. rewrite !Z.shiftr_div_pow2 by done. change (2 ^ PAGE_SIZE_BITS) with PAGE_SIZE.
  replace (offset +w len -w 1)%machine with (offset + len - 1)
    by (unfold i64_max in Hm; fold len in Hm; word_lia).
  intros E. assert (Hw : in_write offset len (offset / PAGE_SIZE)) by (unfold in_write; lia).
  replace ((offset + len - 1) / PAGE_SIZE - offset / PAGE_SIZE + 1) with 1 by lia.
  change (seqZ (offset / PAGE_SIZE) 1) with [0 + offset / PAGE_SIZE]. rewrite Z.add_0_l. cbn [lease_pages].
  pose proof (page_span_value offset len _ Ho Hl Hm Hw) as Esp. rewrite Esp.
  destruct (span_bounds _ _ _ Ho Hl Hw) as (B1 & B2 & B3 & _).
  rewrite Z.shiftl_mul_pow2 by done. change (2 ^ PAGE_SIZE_BITS) with PAGE_SIZE.
  replace (offset -w wrap64 (offset / PAGE_SIZE * PAGE_SIZE))%machine with (span_at offset (offset / PAGE_SIZE)).
  2: { unfold span_at, PAGE_SIZE, i64_max in *. word_lia. }
  replace (Z.min len (PAGE_SIZE -w span_at offset (offset / PAGE_SIZE))%machine) with (span_len offset len (offset / PAGE_SIZE)).
  2: { unfold in_write, span_len, span_at, PAGE_SIZE, i64_max in *. word_lia. }
  destruct (Z.eqb_spec (span_len offset len (offset / PAGE_SIZE)) 0); [lia|].
  destruct (get_page_for_write_populate _ _ _ _ _ _) as [c1 [e|er]]; [|done].
  destruct (try_lock_for_write (e_flags e)) as [[[f d]|]|]; try done. simpl. rewrite Z.add_0_r. done.
Qed.

Section commit.
Variables (c0 : PageCache) (ob : option B) (offset : Z) (buf : list Z) (c : PageCache) (items : list CopyItem).
Local Abbreviation len := (Z.of_nat (length buf)).
Hypotheses (Ho : 0 <= offset) (Hl : 0 < len) (Hm : offset + len <= i64_max).
Hypothesis Hc0 : cache_ok c0 ob.
Hypothesis Hli : lease_inv c0 ob c items.
Hypothesis Hk : item_key <$> items = (fun i => (i, page_span offset len i)) <$>
  seqZ (offset / PAGE_SIZE) ((offset + len - 1) / PAGE_SIZE - offset / PAGE_SIZE + 1).

Lemma first_in_write : in_write offset len (offset / PAGE_SIZE).
Proof. unfold in_write, PAGE_SIZE in *. split; [done|]. apply Z.div_le_mono; lia. Qed.

Lemma items_pages j : j ∈ it_page <$> items <-> in_write offset len j.
Proof.
  assert (E : it_page <$> items = seqZ (offset / PAGE_SIZE) ((offset + len - 1) / PAGE_SIZE - offset / PAGE_SIZE + 1)).
  { transitivity (fst <$> (item_key <$> items)); [by rewrite <- list_fmap_compose|]. rewrite Hk, <- list_fmap_compose.
    apply list_fmap_id. }
  rewrite E, elem_of_seqZ. pose proof first_in_write. unfold in_write in *. lia.
Qed.

(** The leased entry of page [j] and the item that will write it. *)
Lemma leased_page j : in_write offset len j -> exists e it,
  get_entry c j = Some e /\ leased_entry c0 ob it e /\ item_key it = (j, (span_at offset j, span_len offset len j)).
Proof.
  intros Hj. pose proof (proj2 (items_pages j) Hj) as Hin. apply list_elem_of_fmap in Hin as (it & -> & Hit).
  pose proof (li_items _ _ _ _ Hli) as Ha. rewrite Forall_forall in Ha. destruct (Ha it Hit) as (_ & e & He & Hle).
  exists e, it. split; [done|]. split; [done|].
  assert (Hkey : item_key it ∈ (fun i => (i, page_span offset len i)) <$>
    seqZ (offset / PAGE_SIZE) ((offset + len - 1) / PAGE_SIZE - offset / PAGE_SIZE + 1))
    by (rewrite <- Hk; by apply list_elem_of_fmap_2).
  apply list_elem_of_fmap in Hkey as (i & Ei & _). assert (i = it_page it) as -> by (unfold item_key in Ei; congruence).
  rewrite Ei, page_span_value; done.
Qed.

Lemma commit_entry j : 0 <= j -> get_entry (copy_items c buf items) j = get_entry c0 j /\ ~ in_write offset len j \/
  in_write offset len j /\ exists e, get_entry (copy_items c buf items) j = Some e /\ quiet e /\ e_dirty e = true /\
    e_data e = splice (page_view c0 ob j) (Z.to_nat (span_at offset j)) (src_part offset buf j).
Proof.
  intros Hj0. destruct (copy_items_spec c0 ob c buf items (li_items _ _ _ _ Hli) (li_nodup _ _ _ _ Hli)) as (G & _).
  rewrite G by done. destruct (decide (j ∈ it_page <$> items)) as [Hin|Hin].
  2: { left. rewrite item_src_None by done. rewrite (li_others _ _ _ _ Hli) by done. rewrite <- items_pages. done. }
  right. apply items_pages in Hin as Hj. split; [done|]. pose proof first_in_write as Hf.
  destruct (item_src_span offset buf Ho Hl Hm items (offset / PAGE_SIZE)
    (Z.to_nat ((offset + len - 1) / PAGE_SIZE - offset / PAGE_SIZE + 1)) j) as (it & Es & Ek).
  { done. } { unfold in_write in *. lia. } { rewrite Z2Nat.id by (unfold in_write in *; lia). done. }
  { unfold in_write in *. lia. }
  replace (Z.to_nat (src_at offset (offset / PAGE_SIZE))) with 0%nat in Es by (unfold src_at, PAGE_SIZE; div_lia).
  rewrite drop_0 in Es. rewrite Es. destruct (leased_page j Hj) as (e & it' & He & Hle & Ek'). rewrite He.
  exists (write_item it (src_part offset buf j) e). split; [done|]. injection Ek as K1 K2 K3. injection Ek' as K1' K2' K3'.
  destruct (span_bounds _ _ _ Ho Hl Hj) as (B1 & B2 & B3 & B4 & B5).
  pose proof (src_part_length offset buf Ho Hl j Hj) as Hsl. pose proof page_bytes_Z as Hpb.
  destruct Hle as (L1 & L2 & L3 & L4 & L5 & LR & L6 & L7 & L8). destruct (commit_flags _ L3) as (C1 & C2 & C3 & C4 & _).
  destruct (redirtied_kept _ L3) as (_ & C5 & _).
  unfold write_item, e_dirty. rewrite K2. split_and!; [|done|].
  - unfold quiet. cbn [e_data e_flags e_mask]. split_and!; try done; try congruence.
    + rewrite splice_length; lia.
    + unfold mark_valid. rewrite L2. apply lor_valid_all. rewrite K3. apply mask_for_range_byte; done.
  - cbn [e_data]. destruct L8 as [L8|[L8 L9]]; [by rewrite L8, K1'|].
    unfold is_full in L9. rewrite K2', K3' in L9. apply andb_true_iff in L9 as [E1%Z.eqb_eq E2%Z.eqb_eq].
    rewrite E1. simpl. rewrite !splice_all; [done| |lia]. rewrite (page_view_length _ _ _ Hc0 Hj0). lia.
Qed.

Lemma commit_ok : cache_ok (copy_items c buf items) ob.
Proof.
  destruct (copy_items_spec c0 ob c buf items (li_items _ _ _ _ Hli) (li_nodup _ _ _ _ Hli)) as (_ & X & Wb & Dc).
  split.
  - intros j e Hj He. destruct (commit_entry j Hj) as [[E _]|(_ & e' & E & Q & _)]; rewrite E in He.
    + by eapply (ok_quiet _ _ Hc0).
    + congruence.
  - intros j e Hj He Hd. destruct (commit_entry j Hj) as [[E _]|(_ & e' & E & _ & D & _)]; rewrite E in He.
    + by eapply (ok_clean _ _ Hc0).
    + congruence.
  - apply X. apply Hli.
  - pose proof (ok_dirty _ _ Hc0). pose proof (li_count _ _ _ _ Hli). pose proof (li_dirty _ _ _ _ Hli). lia.
  - rewrite Wb, (li_wb _ _ _ _ Hli). apply Hc0.
Qed.

Lemma commit_bytes k : 0 <= k -> byte_at (copy_items c buf items) ob k =
  if decide (offset <= k < offset + len) then buf !! Z.to_nat (k - offset) else byte_at c0 ob k.
Proof.
  intros Hk0. unfold byte_at. set (j := k / PAGE_SIZE). assert (Hj : 0 <= j) by (unfold j, PAGE_SIZE; div_lia).
  unfold page_view at 1. destruct (commit_entry j Hj) as [[E Hn]|(Hw & e & E & _ & _ & D)]; rewrite E.
  - rewrite decide_False; [done|]. intros Hin. apply Hn. unfold in_write, j, PAGE_SIZE in *.
    split; apply Z.div_le_mono; lia.
  - rewrite D. pose proof (src_part_length offset buf Ho Hl j Hw) as Hsl. pose proof page_bytes_Z as Hpb.
    destruct (span_bounds _ _ _ Ho Hl Hw) as (B1 & B2 & B3 & B4 & B5).
    rewrite splice_lookup by (rewrite (page_view_length _ _ _ Hc0 Hj); lia).
    assert (Hmod : k = j * PAGE_SIZE + k mod PAGE_SIZE) by (unfold j, PAGE_SIZE; div_lia).
    assert (Hmb : 0 <= k mod PAGE_SIZE < PAGE_SIZE) by (apply Z.mod_pos_bound; done).
    unfold span_at, span_len, src_at in *. case_decide as H1; case_decide as H2; try done; try lia.
    unfold src_part. rewrite lookup_take_lt by (unfold span_len; lia). rewrite lookup_drop. f_equal. unfold src_at. lia.
Qed.

Lemma commit_total : total_len items = len.
Proof.
  pose proof first_in_write as Hf. set (n := (offset + len - 1) / PAGE_SIZE - offset / PAGE_SIZE + 1) in *.
  assert (Hn : 0 < n) by (unfold in_write in Hf; lia).
  rewrite (total_len_span offset buf Ho Hl Hm (Z.to_nat n) (offset / PAGE_SIZE) items); [|done| | |lia].
  - rewrite Z2Nat.id by lia. unfold n, span_len, src_at, PAGE_SIZE. div_lia.
  - rewrite Z2Nat.id by lia. unfold in_write in *. lia.
  - by rewrite Z2Nat.id by lia.
Qed.

End commit.

(** Giving the leases back leaves the file alone, unless a page that was not
    cached was going to be overwritten entirely. *)
Lemma abort_ok c0 ob c items : cache_ok c0 ob -> lease_inv c0 ob c items ->
  (forall it, it ∈ items -> is_full it = true -> is_Some (get_entry c0 (it_page it))) ->
  cache_ok (abort_items c items) ob /\ forall j, 0 <= j -> page_view (abort_items c items) ob j = page_view c0 ob j.
Proof.
  intros Hc0 Hli Hf.
  destruct (abort_items_spec c0 ob c items (li_items _ _ _ _ Hli) (li_nodup _ _ _ _ Hli)) as (G & X & Wb & Nd & Ct).
  assert (E : forall j, 0 <= j -> get_entry (abort_items c items) j = get_entry c0 j \/
    exists e, get_entry (abort_items c items) j = Some e /\ quiet e /\ e_dirty e = dirty_before c0 j /\ e_data e = page_view c0 ob j).
  { intros j Hj. rewrite G by done. case_decide as Hin; [|left; by apply Hli]. right.
    apply list_elem_of_fmap in Hin as (it & -> & Hit). pose proof (li_items _ _ _ _ Hli) as Ha.
    rewrite Forall_forall in Ha. destruct (Ha it Hit) as (_ & e & He & L1 & L2 & L3 & L4 & L5 & LR & L6 & L7 & L8).
    destruct (redirtied_kept _ L3) as (_ & _ & A5).
    rewrite He. eexists. split; [done|]. destruct (abort_flags _ L3) as (A1 & A2 & A3 & A4).
    split; [unfold quiet; simpl; split_and!; done || congruence|]. split; [unfold e_dirty in *; simpl; congruence|].
    simpl. destruct L8 as [L8|[L8 L9]]; [done|]. destruct (Hf it Hit L9) as [? ?]. congruence. }
  split; [split|].
  - intros j e Hj He. destruct (E j Hj) as [E'|(e' & E' & Q & _)]; [|congruence].
    rewrite E' in He. by apply (ok_quiet _ _ Hc0 j).
  - intros j e Hj He Hd. destruct (E j Hj) as [E'|(e' & E' & _ & D & V)].
    + rewrite E' in He. by apply (ok_clean _ _ Hc0 j).
    + assert (e' = e) as -> by congruence. rewrite V. unfold page_view, dirty_before in *.
      destruct (get_entry c0 j) as [e0|] eqn:E0; [|done]. apply (ok_clean _ _ Hc0 j); [done|done|congruence].
  - apply X. apply Hli.
  - rewrite Nd, Ct, (li_dirty _ _ _ _ Hli), (li_count _ _ _ _ Hli). apply Hc0.
  - rewrite Wb, (li_wb _ _ _ _ Hli). apply Hc0.
  - intros j Hj. unfold page_view at 1. destruct (E j Hj) as [->|(e' & -> & _ & _ & V)]; [|done]. done.
Qed.

Lemma lease_pages_total c0 ob avail offset len old idxs c items : cache_ok c0 ob -> size_ok old ->
  lease_inv c0 ob c items -> NoDup ((it_page <$> items) ++ idxs) ->
  Forall (target_ok c0 ob old offset len) idxs ->
  (forall i, i ∈ idxs -> avail i = true /\ readable ob i) ->
  exists c' items', lease_pages c ob avail offset len old idxs items = (c', Ok items').
Proof.
  intros Hc0 Hs. revert c items. induction idxs as [|i idxs IH]; intros c items Hl Hnd Ht Ha; cbn [lease_pages]; [by eauto|].
  inversion Ht as [|? ? (Hb & Hsl & Hp) Ht']; subst. destruct (page_span offset len i) as [po sl] eqn:Esp.
  simpl in Hsl. apply Z.eqb_neq in Hsl. rewrite Hsl.
  apply NoDup_app in Hnd as (Hn1 & Hn2 & Hn3). apply NoDup_cons in Hn3 as [Hn3 Hn4].
  assert (Hi : i ∉ it_page <$> items) by (intros Hx; apply (Hn2 i Hx); left).
  destruct (Ha i ltac:(left)) as [-> Hr]. pose proof (li_others _ _ _ _ Hl i (proj1 Hb) Hi) as E0.
  destruct (obtain_total c ob i old ((po =? 0) && (sl =? PAGE_SIZE)) Hr) as (c1 & e & Eg). rewrite Eg.
  assert (O : obtained c ob i ((po =? 0) && (sl =? PAGE_SIZE)) c1 e).
  { eapply obtain_spec; [done|done| | |exact Eg]; [rewrite E0; intros e'; by apply (ok_quiet _ _ Hc0), Hb|].
    unfold span_full, populate_ok in *. rewrite E0. exact Hp. }
  pose proof (lease_step c0 ob c items i po sl c1 e Hl (proj1 Hb) Hi O) as Hl'. cbv zeta in Hl'.
  destruct O as (_ & _ & Q & _). apply quiet_unused in Q as (_ & _ & Q). rewrite (lease_unused _ Q).
  apply IH; [done| |done|intros k Hk; apply Ha; by right].
  rewrite fmap_app, <- app_assoc. apply NoDup_app. split_and!; [done| |by apply NoDup_cons].
  intros x Hx Hx'. by apply (Hn2 x Hx).
Qed.

(** [whole offset len i]: the write covers all of page [i]. *)
Definition whole (offset len i : Z) : Prop := offset <= i * PAGE_SIZE /\ i * PAGE_SIZE + PAGE_SIZE <= offset + len.

(** The pages of the write that are neither cached nor overwritten entirely are
    read from the backend, or are zero there. *)
Definition write_sound c ob (old : option Z) (offset len : Z) : Prop :=
  size_ok old /\ forall i, in_write offset len i -> ~ whole offset len i -> populate_ok c ob old i.

Lemma write_targets c ob old offset len : 0 <= offset -> 0 < len -> offset + len <= i64_max ->
  write_sound c ob old offset len ->
  Forall (target_ok c ob old offset len)
    (seqZ (offset / PAGE_SIZE) ((offset + len - 1) / PAGE_SIZE - offset / PAGE_SIZE + 1)).
Proof.
  intros Ho Hl Hm [_ Hp]. apply Forall_forall. intros i Hi%elem_of_seqZ.
  assert (Hw : in_write offset len i) by (unfold in_write; lia).
  destruct (span_bounds _ _ _ Ho Hl Hw) as (B1 & B2 & B3 & _).
  split; [by apply (in_write_bound offset len)|]. rewrite page_span_value by done. split; [simpl; lia|].
  intros Hf. apply Hp; [done|]. intros [W1 W2]. unfold span_full, span_at, span_len in Hf. simpl in Hf.
  apply andb_false_iff in Hf as [E%Z.eqb_neq|E%Z.eqb_neq]; lia.
Qed.

Lemma page_views_bytes c c' ob ob' : (forall j, 0 <= j -> page_view c' ob' j = page_view c ob j) ->
  forall k, 0 <= k -> byte_at c' ob' k = byte_at c ob k.
Proof. intros H k Hk. unfold byte_at. rewrite H; [done|]. apply Z.div_pos; [done|]. done. Qed.

Lemma abort_write_ok c ob offset len c1 items : 0 <= offset -> 0 < len -> offset + len <= i64_max ->
  cache_ok c ob -> lease_inv c ob c1 items ->
  (forall it, it ∈ items -> exists i, in_write offset len i /\ item_key it = (i, page_span offset len i)) ->
  (forall i, whole offset len i -> is_Some (get_entry c i)) ->
  cache_ok (abort_items c1 items) ob /\ forall k, 0 <= k -> byte_at (abort_items c1 items) ob k = byte_at c ob k.
Proof.
  intros Ho Hl Hm Hc Hli Hk Hw. destruct (abort_ok c ob c1 items Hc Hli) as [H1 H2].
  - intros it Hit Hf. destruct (Hk it Hit) as (i & Hi & Ek). rewrite page_span_value in Ek by done.
    injection Ek as -> E1 E2. apply Hw. unfold is_full in Hf. rewrite E1, E2 in Hf.
    unfold whole, span_at, span_len in *. apply andb_true_iff in Hf as [F1%Z.eqb_eq F2%Z.eqb_eq]. lia.
  - split; [done|]. by apply page_views_bytes.
Qed.

(** A write on a cache nobody else is using.  When it succeeds it reports
    the length of the buffer and changes exactly the bytes of the range, and
    cache, index and dirty count stay consistent.  It is never told that a page
    is busy; it fails only for want of a frame, on a backend error or at the
    caller's wish, and then leaves every byte of the file as it was, provided
    the pages it would have overwritten entirely were cached. *)
Lemma write_kernel_body_spec c ob avail offset buf old before c' r :
  cache_ok c ob -> 0 <= offset -> offset + Z.of_nat (length buf) <= i64_max ->
  write_sound c ob old offset (Z.of_nat (length buf)) ->
  write_kernel_body c ob avail offset buf old before = (c', r) ->
  match r with
  | Ok n => n = Z.of_nat (length buf) /\ cache_ok c' ob /\ forall k, 0 <= k -> byte_at c' ob k =
      if decide (offset <= k < offset + n) then buf !! Z.to_nat (k - offset) else byte_at c ob k
  | Err (WBusy _) => False
  | Err (WError e) =>
      (forall i, whole offset (Z.of_nat (length buf)) i -> is_Some (get_entry c i)) ->
      cache_ok c' ob /\ forall k, 0 <= k -> byte_at c' ob k = byte_at c ob k
  end /\
  ((forall i, in_write offset (Z.of_nat (length buf)) i -> avail i = true /\ readable ob i) ->
   (forall n, before n = Ok ()) -> exists n, r = Ok n).
Proof.
  intros Hc Ho Hm Hs. destruct (decide (buf = [])) as [->|Hb].
  { unfold write_kernel_body. simpl. intros [= <- <-]. split; [|by eauto]. split_and!; [done|done|].
    intros k Hk. rewrite decide_False by lia. done. }
  rewrite write_kernel_body_eq, write_general_eq by done. cbv zeta. set (len := Z.of_nat (length buf)) in *.
  assert (Hl : 0 < len) by (destruct buf; [done|unfold len; simpl; lia]).
  pose proof (write_targets c ob old offset len Ho Hl Hm Hs) as Ht. destruct Hs as [Hs _].
  pose proof (lease_inv_init c ob Hc) as Hi. assert (Hn : NoDup ((it_page <$> []) ++
    seqZ (offset / PAGE_SIZE) ((offset + len - 1) / PAGE_SIZE - offset / PAGE_SIZE + 1))) by apply NoDup_seqZ.
  destruct (lease_pages _ _ _ _ _ _ _ _) as [c1 r1] eqn:El.
  pose proof (lease_pages_spec c ob avail offset len old _ c [] c1 r1 Hc Hs Hi Hn Ht El) as Hr.
  destruct r1 as [items|er].
  - destruct Hr as [Hli Hk]. rewrite (commit_total offset buf items Ho Hl Hm Hk). fold len.
    destruct (before len) as [[]|eb] eqn:Eb; intros [= <- <-].
    + split; [|by eauto]. split; [done|]. split; [by eapply commit_ok|]. by apply commit_bytes.
    + split; [|intros _ Hbf; by rewrite Hbf in Eb]. intros Hw. eapply abort_write_ok; try done. intros it Hit.
      assert (Hx : item_key it ∈ item_key <$> items) by (by apply list_elem_of_fmap_2).
      rewrite Hk in Hx. apply list_elem_of_fmap in Hx as (i & Ei & Hi'%elem_of_seqZ). exists i. split; [|done].
      unfold in_write. lia.
  - destruct Hr as ((er' & ->) & c2 & items & Hli & -> & Hk). intros [= <- <-]. split.
    + intros Hw. eapply abort_write_ok; try done. intros it Hit.
      destruct (Hk it Hit) as [Hx|(i & Hi'%elem_of_seqZ & Ei)]; [by apply elem_of_nil in Hx|].
      exists i. split; [|done]. unfold in_write. lia.
    + intros Ha _. destruct (lease_pages_total c ob avail offset len old _ c [] Hc Hs Hi Hn Ht) as (? & ? & E);
        [|congruence]. intros i Hx%elem_of_seqZ. apply Ha. unfold in_write. lia.
Qed.

End file.
