(* ===== verification/PageCacheRead.v ===== *)
(** The read path of the page cache ([read_kernel], [lookup_read_range_fast] and
    [fill_miss_runs] of [os/src/fs/page_cache.rs]).

    [staging i] says whether the staging buffer of the chunk that starts at page
    [i] can be allocated.  A read alone on the cache needs at most two rounds:
    one to fill the misses, one to copy. *)

From stdpp Require Import base numbers option gmap sets list.
From S2P Require Import Prelude Addr PageFlags PageCache PageCacheWrite PageCacheFile.

Open Scope machine_scope.

Definition MAX_DEMAND_READ_PAGES : nat := 32.

Record ReadCopy := mkCopy {
  rc_page : Z;
  rc_dst : Z;
  rc_offset : Z;
  rc_len : Z;
}.

Record MissRun := mkMiss { start_page : Z; miss_count : Z }.

Record ReadPlan := mkPlan {
  copies : list ReadCopy;
  miss_runs : list MissRun;
  needs_valid_fill : list Z;
}.

(** A miss joins the last run when it continues it. *)
Fixpoint push_miss (runs : list MissRun) (i : Z) : list MissRun :=
  match runs with
  | [] => [mkMiss i 1]
  | [r] => if start_page r + miss_count r =? i then [mkMiss (start_page r) (miss_count r + 1)] else [r; mkMiss i 1]
  | r :: runs => r :: push_miss runs i
  end.

Definition scan_page (offset buf_len : Z) (st : PageCache * ReadPlan) (i : Z) : PageCache * ReadPlan :=
  let '(c, plan) := st in
  let page_start := i *w PAGE_SIZE in
  let read_start := Z.max offset page_start in
  let read_end := Z.min (offset +w buf_len) (page_start +w PAGE_SIZE) in
  if read_end <=? read_start then (c, plan)
  else
    match get_entry c i with
    | Some e =>
        (upd_entry c i mark_referenced,
         if e_mask e =? VALID_ALL
         then mkPlan (copies plan ++ [mkCopy i (read_start -w offset) (read_start -w page_start) (read_end -w read_start)])
                (miss_runs plan) (needs_valid_fill plan)
         else mkPlan (copies plan) (miss_runs plan) (needs_valid_fill plan ++ [i]))
    | None => (c, mkPlan (copies plan) (push_miss (miss_runs plan) i) (needs_valid_fill plan))
    end.

Definition lookup_read_range_fast (c : PageCache) (offset buf_len start_page end_page : Z) : PageCache * ReadPlan :=
  foldl (scan_page offset buf_len) (c, mkPlan [] [] []) (seqZ start_page (end_page - start_page + 1)).

(** [buf[dst..dst + len].copy_from_slice(&src[offset..offset + len])] per item *)
Definition run_copies (c : PageCache) (l : list ReadCopy) (buf : list Z) : list Z :=
  foldl (fun buf it => match get_entry c (rc_page it) with
                       | Some e => splice buf (Z.to_nat (rc_dst it))
                                     (take (Z.to_nat (rc_len it)) (drop (Z.to_nat (rc_offset it)) (e_data e)))
                       | None => buf
                       end) buf l.

Section ops.
Context {B : Type} `{Backend B}.

(** The default [read_contiguous] over the readable pages of a chunk; the rest
    of the staging buffer stays zero. *)
Fixpoint read_chunk (b : B) (idxs : list Z) : result (list (list Z)) SyscallErr :=
  match idxs with
  | [] => Ok []
  | i :: idxs =>
      match (if i <? npages b then read_page b i zero_page else Ok zero_page) with
      | Err e => Err e
      | Ok d => match read_chunk b idxs with Ok ds => Ok (d :: ds) | Err e => Err e end
      end
  end.

(** Chunks of at most [MAX_DEMAND_READ_PAGES]; each consumes a page, so the
    number of pages is enough fuel. *)
Fixpoint read_chunks (fuel : nat) (b : B) (staging : Z -> bool) (idxs : list Z) : result (list (list Z)) SyscallErr :=
  match fuel, idxs with
  | S fuel, i :: _ =>
      if negb (staging i) then Err ENOMEM
      else
        match read_chunk b (take MAX_DEMAND_READ_PAGES idxs) with
        | Err e => Err e
        | Ok ds => match read_chunks fuel b staging (drop MAX_DEMAND_READ_PAGES idxs) with
                   | Ok ds' => Ok (ds ++ ds')
                   | Err e => Err e
                   end
        end
  | _, _ => Ok []
  end.

(** Slots filled meanwhile are left alone. *)
Definition publish (c : PageCache) (p : Z * list Z) : PageCache :=
  match get_entry c (fst p) with
  | None => put_entry c (fst p) (page_entry_new (snd p) UpToDate)
  | Some _ => c
  end.

Fixpoint fill_runs (c : PageCache) (b : B) (avail staging : Z -> bool) (generation : Z) (runs : list MissRun)
    : PageCache * result unit SyscallErr :=
  match runs with
  | [] => (c, Ok ())
  | r :: runs =>
      let idxs := seqZ (start_page r) (miss_count r) in
      if negb (forallb avail idxs) then (c, Err ENOMEM)
      else
        match read_chunks (length idxs) b staging idxs with
        | Err e => (c, Err e)
        | Ok ds =>
            if negb (generation =? mutation_generation c) then (c, Err EAGAIN)
            else fill_runs (foldl publish c (zip idxs ds)) b avail staging generation runs
        end
  end.

Definition fill_miss_runs (c : PageCache) (ob : option B) (avail staging : Z -> bool) (runs : list MissRun)
    : PageCache * result unit SyscallErr :=
  match ob with
  | None => (c, Err EIO)
  | Some b => fill_runs c b avail staging (mutation_generation c) runs
  end.

Fixpoint ensure_pages (c : PageCache) (ob : option B) (l : list Z) : PageCache * result unit SyscallErr :=
  match l with
  | [] => (c, Ok ())
  | i :: l => match ensure_fully_valid c ob i with
              | (c, Ok ()) => ensure_pages c ob l
              | (c, Err e) => (c, Err e)
              end
  end.

(** The page-by-page path taken when a second lookup still misses. *)
Fixpoint read_slow (c : PageCache) (ob : option B) (avail : Z -> bool) (offset len : Z) (idxs : list Z) (dst : Z)
    (items : list ReadCopy) : PageCache * result (list ReadCopy) SyscallErr :=
  match idxs with
  | [] => (c, Ok items)
  | i :: idxs =>
      let '(page_offset, sub_len) := page_span offset len i in
      if sub_len =? 0 then read_slow c ob avail offset len idxs dst items
      else
        match get_page_for_read c ob (avail i) i with
        | (c, Err e) => (c, Err e)
        | (c, Ok _) =>
            match ensure_fully_valid c ob i with
            | (c, Err e) => (c, Err e)
            | (c, Ok ()) => read_slow c ob avail offset len idxs (dst + sub_len) (items ++ [mkCopy i dst page_offset sub_len])
            end
        end
  end.

Definition fill_plan (c : PageCache) (ob : option B) (avail staging : Z -> bool) (plan : ReadPlan)
    : PageCache * result unit SyscallErr :=
  match ensure_pages c ob (needs_valid_fill plan) with
  | (c, Err e) => (c, Err e)
  | (c, Ok ()) => match miss_runs plan with [] => (c, Ok ()) | runs => fill_miss_runs c ob avail staging runs end
  end.

Definition plan_complete (plan : ReadPlan) : bool :=
  match miss_runs plan, needs_valid_fill plan with [], [] => true | _, _ => false end.

(** The number of bytes read and the new buffer. *)
Definition read_kernel (c : PageCache) (ob : option B) (avail staging : Z -> bool) (offset : Z) (buf : list Z)
    : PageCache * result (Z * list Z) SyscallErr :=
  let len := Z.of_nat (length buf) in
  if len =? 0 then (c, Ok (0, buf))
  else
    let start_page := Z.shiftr offset PAGE_SIZE_BITS in
    let end_page := Z.shiftr (offset +w len -w 1) PAGE_SIZE_BITS in
    if start_page =? end_page then
      let page_offset := offset -w wrap64 (Z.shiftl start_page PAGE_SIZE_BITS) in
      let sub_len := Z.min len (PAGE_SIZE -w page_offset) in
      match get_page_for_read c ob (avail start_page) start_page with
      | (c, Err e) => (c, Err e)
      | (c, Ok _) =>
          match ensure_fully_valid c ob start_page with
          | (c, Err e) => (c, Err e)
          | (c, Ok ()) => (c, Ok (sub_len, run_copies c [mkCopy start_page 0 page_offset sub_len] buf))
          end
      end
    else
      let '(c, plan) := lookup_read_range_fast c offset len start_page end_page in
      if plan_complete plan then (c, Ok (len, run_copies c (copies plan) buf))
      else
        match fill_plan c ob avail staging plan with
        | (c, Err e) => (c, Err e)
        | (c, Ok ()) =>
            let '(c, plan) := lookup_read_range_fast c offset len start_page end_page in
            if plan_complete plan then (c, Ok (len, run_copies c (copies plan) buf))
            else
              match read_slow c ob avail offset len (seqZ start_page (end_page - start_page + 1)) 0 [] with
              | (c, Err e) => (c, Err e)
              | (c, Ok items) => (c, Ok (foldr (fun it n => rc_len it + n) 0 items, run_copies c items buf))
              end
        end.

End ops.

Section read.
Context {B : Type} `{HB : Backend B} `{HL : !BackendLaws B}.
Implicit Types (c : PageCache) (ob : option B).

(** A step readers do not notice; pages are only added. *)
Record grown c c' ob : Prop := {
  g_ok : cache_ok c' ob;
  g_view : forall j, 0 <= j -> page_view c' ob j = page_view c ob j;
  g_live : forall j, 0 <= j -> is_Some (get_entry c j) -> is_Some (get_entry c' j);
  g_gen : mutation_generation c' = mutation_generation c;
}.

Lemma grown_refl c ob : cache_ok c ob -> grown c c ob.
Proof. by split. Qed.

Lemma grown_trans c1 c2 c3 ob : grown c1 c2 ob -> grown c2 c3 ob -> grown c1 c3 ob.
Proof.
  intros [A1 A2 A3 A4] [B1 B2 B3 B4]. split; [done| |by eauto|congruence]. intros j Hj. rewrite B2 by done. by apply A2.
Qed.

Lemma grown_referenced c ob i e : cache_ok c ob -> 0 <= i -> get_entry c i = Some e ->
  grown c (upd_entry c i mark_referenced) ob.
Proof.
  intros Hc Hi He. destruct (quiet_referenced e (ok_quiet _ _ Hc i e Hi He)) as [Q D].
  destruct (touch_ok c ob i e (fun f => Z.lor f PG_REFERENCED) Hc Hi He Q D) as [T1 T2]. split; [done|done| |done].
  intros j Hj. unfold mark_referenced. rewrite get_upd by done. case_decide; [|done]. subst j. by rewrite He.
Qed.

Lemma grown_put c (b : B) i : cache_ok c (Some b) -> 0 <= i -> get_entry c i = None ->
  grown c (put_entry c i (page_entry_new (contents b i) UpToDate)) (Some b) /\
  is_Some (get_entry (put_entry c i (page_entry_new (contents b i) UpToDate)) i).
Proof.
  intros Hc Hi He. destruct (put_ok c (Some b) i (page_entry_new (contents b i) UpToDate) Hc Hi He) as [T1 T2]; try done.
  { split_and!; try done. apply contents_length. }
  split; [split; [done|done| |done]|rewrite get_put, decide_True; done].
  intros j Hj. rewrite get_put by done. case_decide; [by eexists|done].
Qed.

(** Getting a page for reading. *)
Lemma get_page_for_read_gen c ob av i c1 r : get_page_for_read c ob av i = (c1, r) ->
  mutation_generation c1 = mutation_generation c.
Proof.
  unfold get_page_for_read, get_or_create_entry. destruct (get_entry c i); [by intros [= <- <-]|].
  destruct av; simpl; [|by intros [= <- <-]]. destruct (new_entry _ _ _ _ _); by intros [= <- <-].
Qed.

Lemma get_page_for_read_err c ob av i c1 e : get_page_for_read c ob av i = (c1, Err e) -> c1 = c.
Proof.
  unfold get_page_for_read, get_or_create_entry. destruct (get_entry c i); [done|].
  destruct av; simpl; [|by intros [= <- _]]. destruct (new_entry _ _ _ _ _); congruence.
Qed.

Lemma get_page_for_read_ok c ob av i c1 e : cache_ok c ob -> page_bound i ->
  get_page_for_read c ob av i = (c1, Ok e) -> grown c c1 ob /\ is_Some (get_entry c1 i).
Proof.
  intros Hc Hb Hg. pose proof (get_page_for_read_gen _ _ _ _ _ _ Hg) as Hgen. unfold get_page_for_read in Hg.
  destruct (get_or_create_entry c ob av i true None) as [c2 [e2|]] eqn:Eg; [|done]. injection Hg as <- <-.
  apply (get_or_create_spec _ _ _ _ _ _ _ _ false) in Eg as (T & G & Q & D & V); [|done|done| |]; cycle 1.
  { intros e0. apply (ok_quiet _ _ Hc i e0), Hb. } { intros _. by split. }
  destruct V as [V|[_ V]]; [|done]. destruct (quiet_consumed e2 Q) as [Q' D']. destruct Hb as [Hi _].
  pose proof (touched_upd c2 i e2 consume_filemap_readahead Hi G D') as T'.
  destruct (touched_trans _ _ _ _ T T') as [A1 A2 A3 A4 A5].
  assert (Gi : get_entry (upd_entry c2 i consume_filemap_readahead) i = Some (consume_filemap_readahead e2))
    by (rewrite get_upd, decide_True, G; done).
  split; [|by rewrite Gi]. split; [split| | |done].
  - intros j e' Hj He. destruct (decide (j = i)) as [->|Hne]; [congruence|]. rewrite A1 in He by done. by apply (ok_quiet _ _ Hc j).
  - intros j e' Hj He Hd. destruct (decide (j = i)) as [->|Hne].
    + rewrite Gi in He. injection He as <-. simpl. rewrite V. rewrite D', D in Hd. unfold page_view, dirty_before in *.
      destruct (get_entry c i) as [e0|] eqn:E0; [|done]. by apply (ok_clean _ _ Hc i).
    + rewrite A1 in He by done. by apply (ok_clean _ _ Hc j).
  - apply A2. exact (ok_pages _ _ Hc).
  - rewrite A4, A3. apply Hc.
  - rewrite A5. apply Hc.
  - intros j Hj. unfold page_view at 1. destruct (decide (j = i)) as [->|Hne]; [by rewrite Gi|]. rewrite A1; done.
  - intros j Hj Hs. destruct (decide (j = i)) as [->|Hne]; [by rewrite Gi|]. by rewrite A1.
Qed.

Lemma get_page_for_read_total c ob i : readable ob i -> exists c1 e, get_page_for_read c ob true i = (c1, Ok e).
Proof.
  intros Hr. unfold get_page_for_read, get_or_create_entry. destruct (get_entry c i); [by eauto|].
  simpl. unfold new_entry. destruct ob as [b|]; simpl in *; [destruct Hr as [d ->]|]; eauto.
Qed.

Lemma ensure_valid_noop c ob i : cache_ok c ob -> 0 <= i -> ensure_fully_valid c ob i = (c, Ok ()).
Proof.
  intros Hc Hi. unfold ensure_fully_valid. destruct (get_entry c i) as [e|] eqn:E; [|done].
  destruct (ok_quiet _ _ Hc i e Hi E) as (_ & -> & _). by rewrite Z.eqb_refl.
Qed.

(** ** The plan *)

Definition run_pages (runs : list MissRun) : list Z := concat ((fun r => seqZ (start_page r) (miss_count r)) <$> runs).

Lemma push_miss_pages runs i : Forall (fun r => 0 < miss_count r) runs ->
  run_pages (push_miss runs i) = run_pages runs ++ [i] /\ Forall (fun r => 0 < miss_count r) (push_miss runs i).
Proof.
  unfold run_pages. induction runs as [|r runs IH]; intros Hf.
  { split; [simpl; f_equal; lia|by repeat constructor]. }
  apply Forall_cons in Hf as [Hr Hf]. destruct runs as [|r' runs'].
  - cbn [push_miss]. destruct (Z.eqb_spec (start_page r + miss_count r) i) as [<-|].
    + split; [|repeat constructor; simpl; lia]. simpl. rewrite !app_nil_r, seqZ_app by lia. done.
    + split; [|by repeat constructor]. simpl. rewrite !app_nil_r. done.
  - destruct (IH Hf) as [I1 I2]. change (push_miss (r :: r' :: runs') i) with (r :: push_miss (r' :: runs') i).
    split; [|by constructor]. rewrite !fmap_cons. cbn [concat]. rewrite <- app_assoc. f_equal. exact I1.
Qed.

Section plan.
Variables (offset len : Z).
Hypotheses (Ho : 0 <= offset) (Hl : 0 < len) (Hm : offset + len <= i64_max).

Definition copy_of (i : Z) : ReadCopy := mkCopy i (src_at offset i) (span_at offset i) (span_len offset len i).

Lemma scan_page_value c plan i : in_write offset len i -> scan_page offset len (c, plan) i =
  match get_entry c i with
  | Some e =>
      (upd_entry c i mark_referenced,
       if e_mask e =? VALID_ALL then mkPlan (copies plan ++ [copy_of i]) (miss_runs plan) (needs_valid_fill plan)
       else mkPlan (copies plan) (miss_runs plan) (needs_valid_fill plan ++ [i]))
  | None => (c, mkPlan (copies plan) (push_miss (miss_runs plan) i) (needs_valid_fill plan))
  end.
Proof.
  intros Hi. destruct (span_bounds _ _ _ Ho Hl Hi) as (B1 & B2 & B3 & B4 & B5).
  destruct (in_write_bound _ _ _ Ho Hl Hm Hi) as [Hi0 Hib]. unfold scan_page, copy_of, span_at, span_len, src_at in *.
  unfold PAGE_SIZE, i64_max in *.
  replace (i *w 4096)%machine with (i * 4096) by word_lia.
  replace (i * 4096 +w 4096)%machine with (i * 4096 + 4096) by word_lia.
  replace (offset +w len)%machine with (offset + len) by word_lia.
  destruct (Z.leb_spec (Z.min (offset + len) (i * 4096 + 4096)) (Z.max offset (i * 4096))); [lia|].
  replace (Z.max offset (i * 4096) -w offset)%machine with (Z.max offset (i * 4096) - offset) by word_lia.
  replace (Z.max offset (i * 4096) -w i * 4096)%machine with (Z.max offset (i * 4096) - i * 4096) by word_lia.
  replace (Z.min (offset + len) (i * 4096 + 4096) -w Z.max offset (i * 4096))%machine
    with (Z.min (offset + len) (i * 4096 + 4096) - Z.max offset (i * 4096)) by word_lia.
  done.
Qed.

(** Scanning a range: nothing to readers, the misses in order, and, when there
    are none, a copy per page. *)
Lemma scan_spec ob idxs : forall c plan c' plan', cache_ok c ob -> Forall (in_write offset len) idxs ->
  Forall (fun r => 0 < miss_count r) (miss_runs plan) ->
  foldl (scan_page offset len) (c, plan) idxs = (c', plan') ->
  grown c c' ob /\ needs_valid_fill plan' = needs_valid_fill plan /\
  (exists ms, run_pages (miss_runs plan') = run_pages (miss_runs plan) ++ ms /\
     (forall i, i ∈ idxs -> i ∈ ms \/ is_Some (get_entry c i)) /\ (forall i, i ∈ ms -> i ∈ idxs) /\
     ((forall i, i ∈ idxs -> is_Some (get_entry c i)) ->
        miss_runs plan' = miss_runs plan /\ copies plan' = copies plan ++ (copy_of <$> idxs))) /\
  Forall (fun r => 0 < miss_count r) (miss_runs plan').
Proof.
  induction idxs as [|i idxs IH]; intros c plan c' plan' Hc Hw Hr; cbn [foldl].
  { intros [= <- <-]. split; [by apply grown_refl|]. split; [done|]. split; [|done]. exists []. rewrite !app_nil_r.
    split_and!; try done; intros i Hi; by apply elem_of_nil in Hi. }
  apply Forall_cons in Hw as [Hi Hw]. rewrite scan_page_value by done.
  assert (Hi0 : 0 <= i) by (by apply (in_write_bound offset len)).
  destruct (get_entry c i) as [e|] eqn:E.
  - destruct (ok_quiet _ _ Hc i e Hi0 E) as (_ & -> & _). rewrite Z.eqb_refl. intros Hf.
    pose proof (grown_referenced c ob i e Hc Hi0 E) as G.
    apply IH in Hf as (R1 & R2 & (ms & R3 & R4 & R5 & R6) & R7); [|apply G|done|done]. simpl in *.
    split; [by eapply grown_trans|]. split; [done|]. split; [|done]. exists ms. split; [done|].
    assert (Back : forall j, j ∈ idxs -> is_Some (get_entry (upd_entry c i mark_referenced) j) -> is_Some (get_entry c j)).
    { intros j Hj. rewrite Forall_forall in Hw. rewrite get_upd by (done || by apply (in_write_bound offset len), Hw).
      case_decide; [subst j; by rewrite E|done]. }
    split_and!.
    + intros j [->|Hj]%elem_of_cons; [right; by eexists|]. destruct (R4 j Hj) as [|Hs]; [by left|right; by apply Back].
    + intros j Hj. right. by apply R5.
    + intros Hall. destruct R6 as [R6 R6'].
      * intros j Hj. rewrite Forall_forall in Hw. apply (g_live _ _ _ G); [by apply (in_write_bound offset len), Hw|].
        apply Hall. by right.
      * split; [done|]. rewrite R6', <- app_assoc. done.
  - intros Hf. destruct (push_miss_pages (miss_runs plan) i Hr) as [P1 P2].
    apply IH in Hf as (R1 & R2 & (ms & R3 & R4 & R5 & R6) & R7); [|done|done|done]. simpl in *.
    split; [done|]. split; [done|]. split; [|done]. exists (i :: ms). split; [rewrite R3, P1, <- app_assoc; done|].
    split_and!.
    + intros j [->|Hj]%elem_of_cons; [left; left|]. destruct (R4 j Hj); [left; by right|by right].
    + intros j [->|Hj]%elem_of_cons; [left|right; by apply R5].
    + intros Hall. destruct (Hall i ltac:(left)) as [? ?]. congruence.
Qed.

End plan.

(** ** Filling the misses *)

Lemma read_chunk_ok b idxs ds : read_chunk b idxs = Ok ds -> ds = contents b <$> idxs.
Proof.
  revert ds. induction idxs as [|i idxs IH]; intros ds; cbn [read_chunk]; [by intros [= <-]|].
  destruct (if i <? npages b then read_page b i zero_page else Ok zero_page) as [d|] eqn:Ed; [|done].
  destruct (read_chunk b idxs) as [ds'|]; [|done]. intros [= <-]. rewrite fmap_cons, <- (IH ds') by done. f_equal.
  destruct (Z.ltb_spec i (npages b)); [by eapply read_page_ok; [apply zero_page_length|]|].
  injection Ed as <-. symmetry. by apply contents_beyond.
Qed.

Lemma read_chunks_ok fuel : forall b staging idxs ds, (length idxs <= fuel)%nat ->
  read_chunks fuel b staging idxs = Ok ds -> ds = contents b <$> idxs.
Proof.
  induction fuel as [|fuel IH]; intros b staging idxs ds Hf.
  { destruct idxs; [|simpl in Hf; lia]. by intros [= <-]. }
  destruct idxs as [|i idxs]; [by intros [= <-]|]. cbn [read_chunks]. destruct (staging i); simpl negb; [|done].
  destruct (read_chunk b _) as [d1|] eqn:E1; [|done]. destruct (read_chunks fuel b staging _) as [d2|] eqn:E2; [|done].
  intros [= <-]. rewrite (read_chunk_ok _ _ _ E1). apply IH in E2 as ->; [by rewrite <- fmap_app, take_drop|].
  rewrite length_drop. unfold MAX_DEMAND_READ_PAGES. simpl in *. lia.
Qed.

Lemma publish_all b idxs : forall c, cache_ok c (Some b) -> Forall (fun i => 0 <= i) idxs ->
  let c' := foldl publish c (zip idxs (contents b <$> idxs)) in
  grown c c' (Some b) /\ forall i, i ∈ idxs -> is_Some (get_entry c' i).
Proof.
  induction idxs as [|i idxs IH]; intros c Hc Hp; simpl.
  { split; [by apply grown_refl|]. intros i Hi. by apply elem_of_nil in Hi. }
  apply Forall_cons in Hp as [Hi Hp].
  assert (G : grown c (publish c (i, contents b i)) (Some b) /\ is_Some (get_entry (publish c (i, contents b i)) i)).
  { unfold publish. simpl. destruct (get_entry c i) eqn:E; [split; [by apply grown_refl|by eexists]|]. by apply grown_put. }
  destruct G as [G1 G2]. destruct (IH (publish c (i, contents b i))) as [R1 R2]; [apply G1|done|].
  split; [by eapply grown_trans|]. intros j [->|Hj]%elem_of_cons; [by apply (g_live _ _ _ R1)|by apply R2].
Qed.

Lemma fill_runs_spec b avail staging gen runs : forall c c' r, cache_ok c (Some b) ->
  Forall (fun i => 0 <= i) (run_pages runs) -> fill_runs c b avail staging gen runs = (c', r) ->
  grown c c' (Some b) /\ (r = Ok () -> forall i, i ∈ run_pages runs -> is_Some (get_entry c' i)).
Proof.
  induction runs as [|r runs IH]; intros c c' res Hc Hp; cbn [fill_runs].
  { intros [= <- <-]. split; [by apply grown_refl|]. intros _ i Hi. by apply elem_of_nil in Hi. }
  unfold run_pages in *. rewrite fmap_cons in *. cbn [concat] in *. apply Forall_app in Hp as [Hp1 Hp2].
  destruct (forallb avail _); simpl negb; cbn match; [|intros [= <- <-]; split; [by apply grown_refl|done]].
  destruct (read_chunks _ b staging _) as [ds|] eqn:Er; [|intros [= <- <-]; split; [by apply grown_refl|done]].
  apply read_chunks_ok in Er as ->; [|done].
  destruct (gen =? mutation_generation c); simpl negb; cbn match; [|intros [= <- <-]; split; [by apply grown_refl|done]].
  destruct (publish_all b (seqZ (start_page r) (miss_count r)) c Hc Hp1) as [G1 G2].
  intros Hf. apply IH in Hf as [R1 R2]; [|apply G1|done]. split; [by eapply grown_trans|].
  intros Ho i [Hi|Hi]%elem_of_app; [|by apply R2]. apply (g_live _ _ _ R1); [|by apply G2].
  by rewrite Forall_forall in Hp1; apply Hp1.
Qed.

Lemma read_chunk_total b idxs : (forall i, i ∈ idxs -> readable (Some b) i) -> exists ds, read_chunk b idxs = Ok ds.
Proof.
  induction idxs as [|i idxs IH]; intros Hr; cbn [read_chunk]; [by eexists|].
  destruct (Hr i ltac:(left)) as [d Hd]. destruct IH as [ds Hds]; [intros j Hj; apply Hr; by right|].
  destruct (i <? npages b); [rewrite Hd|]; rewrite Hds; by eexists.
Qed.

Lemma read_chunks_total fuel : forall b staging idxs, (forall i, i ∈ idxs -> readable (Some b) i) ->
  (forall i, staging i = true) -> exists ds, read_chunks fuel b staging idxs = Ok ds.
Proof.
  induction fuel as [|fuel IH]; intros b staging idxs Hr Hs; [by eexists|].
  destruct idxs as [|i idxs]; [by eexists|]. cbn [read_chunks]. rewrite Hs. simpl negb. cbn match.
  destruct (read_chunk_total b (take MAX_DEMAND_READ_PAGES (i :: idxs))) as [d1 ->].
  { intros j Hj. apply Hr. rewrite <- (take_drop MAX_DEMAND_READ_PAGES (i :: idxs)). apply elem_of_app. by left. }
  destruct (IH b staging (drop MAX_DEMAND_READ_PAGES (i :: idxs))) as [d2 ->]; [|done|by eexists].
  intros j Hj. apply Hr. rewrite <- (take_drop MAX_DEMAND_READ_PAGES (i :: idxs)). apply elem_of_app. by right.
Qed.

Lemma fill_runs_total b avail staging runs : forall c, cache_ok c (Some b) ->
  Forall (fun i => 0 <= i) (run_pages runs) ->
  (forall i, i ∈ run_pages runs -> avail i = true /\ readable (Some b) i) -> (forall i, staging i = true) ->
  exists c', fill_runs c b avail staging (mutation_generation c) runs = (c', Ok ()).
Proof.
  induction runs as [|r runs IH]; intros c Hc Hp Ha Hs; cbn [fill_runs]; [by eexists|].
  unfold run_pages in *. rewrite fmap_cons in *. cbn [concat] in *. apply Forall_app in Hp as [Hp1 Hp2].
  rewrite (proj2 (forallb_forall avail _)).
  2: { intros i Hi%list_elem_of_In. apply Ha, elem_of_app. by left. }
  simpl negb. cbn match. destruct (read_chunks_total (length (seqZ (start_page r) (miss_count r))) b staging
    (seqZ (start_page r) (miss_count r))) as [ds Hds]; [intros i Hi; apply Ha, elem_of_app; by left|done|].
  rewrite Hds. apply read_chunks_ok in Hds as ->; [|done]. rewrite Z.eqb_refl. simpl negb. cbn match.
  destruct (publish_all b (seqZ (start_page r) (miss_count r)) c Hc Hp1) as [G1 _].
  rewrite <- (g_gen _ _ _ G1). apply IH; [apply G1|done| |done]. intros i Hi. apply Ha, elem_of_app. by right.
Qed.

(** ** The copy *)

Lemma run_copies_spec c ob offset len idxs : 0 <= offset -> 0 < len -> cache_ok c ob ->
  Forall (in_write offset len) idxs -> (forall i, i ∈ idxs -> is_Some (get_entry c i)) ->
  forall buf, Z.of_nat (length buf) = len ->
  let buf' := run_copies c (copy_of offset len <$> idxs) buf in
  length buf' = length buf /\ forall k, 0 <= k < len -> buf' !! Z.to_nat k =
    if decide ((offset + k) / PAGE_SIZE ∈ idxs) then byte_at c ob (offset + k) else buf !! Z.to_nat k.
Proof.
  intros Ho Hl Hc. induction idxs as [|i idxs IH]; intros Hw Hp buf Hb.
  { split; [done|]. intros k Hk. rewrite decide_False by apply not_elem_of_nil. done. }
  apply Forall_cons in Hw as [Hi Hw]. destruct (Hp i ltac:(left)) as [e He].
  destruct (span_bounds _ _ _ Ho Hl Hi) as (B1 & B2 & B3 & B4 & B5). pose proof page_bytes_Z as Hpb.
  assert (Hi0 : 0 <= i) by (unfold in_write, PAGE_SIZE in Hi; div_lia).
  destruct (ok_quiet _ _ Hc i e Hi0 He) as (Hlen & _).
  set (src := take (Z.to_nat (span_len offset len i)) (drop (Z.to_nat (span_at offset i)) (e_data e))).
  assert (Hs : Z.of_nat (length src) = span_len offset len i) by (unfold src; rewrite length_take, length_drop; lia).
  set (buf1 := splice buf (Z.to_nat (src_at offset i)) src).
  assert (Hb1 : length buf1 = length buf) by (apply splice_length; lia).
  assert (E : run_copies c (copy_of offset len <$> (i :: idxs)) buf = run_copies c (copy_of offset len <$> idxs) buf1).
  { rewrite fmap_cons. unfold run_copies. cbn [foldl]. change (rc_page (copy_of offset len i)) with i.
    by rewrite He. }
  cbv zeta. rewrite E. destruct (IH Hw) with (buf := buf1) as [R1 R2]; [intros j Hj; apply Hp; by right|lia|].
  split; [lia|]. intros k Hk. rewrite R2 by done.
  destruct (decide ((offset + k) / PAGE_SIZE ∈ idxs)) as [Hin|Hin]; [by rewrite decide_True by (by right)|].
  unfold buf1. rewrite splice_lookup by lia. destruct (decide ((offset + k) / PAGE_SIZE = i)) as [Ei|Ei].
  - rewrite (decide_True (P := _ ∈ i :: idxs)) by (rewrite Ei; left).
    assert (Hpos : offset + k = i * PAGE_SIZE + (offset + k) mod PAGE_SIZE) by (rewrite <- Ei; unfold PAGE_SIZE; div_lia).
    assert (Hmod : 0 <= (offset + k) mod PAGE_SIZE < PAGE_SIZE) by (apply Z.mod_pos_bound; done).
    rewrite decide_True by (unfold span_at, span_len, src_at in *; lia). unfold byte_at, page_view. rewrite Ei, He.
    unfold src. rewrite lookup_take_lt by (unfold span_at, span_len, src_at in *; lia). rewrite lookup_drop. f_equal.
    unfold span_at, src_at in *. lia.
  - rewrite (decide_False (P := _ ∈ i :: idxs)) by (by rewrite not_elem_of_cons).
    rewrite decide_False; [done|]. unfold span_at, span_len, src_at, in_write, PAGE_SIZE in *. div_lia.
Qed.

(** When every page is there, the plan of a lookup copies the file. *)
Lemma run_plan c ob offset buf : 0 <= offset -> buf <> [] -> cache_ok c ob ->
  let len := Z.of_nat (length buf) in
  let idxs := seqZ (offset / PAGE_SIZE) ((offset + len - 1) / PAGE_SIZE - offset / PAGE_SIZE + 1) in
  (forall i, i ∈ idxs -> is_Some (get_entry c i)) ->
  let buf' := run_copies c (copy_of offset len <$> idxs) buf in
  length buf' = length buf /\ forall k, 0 <= k < len -> buf' !! Z.to_nat k = byte_at c ob (offset + k).
Proof.
  intros Ho Hb Hc len idxs Hp. assert (Hl : 0 < len) by (destruct buf; [done|unfold len; simpl; lia]).
  destruct (run_copies_spec c ob offset len idxs Ho Hl Hc) with (buf := buf) as [R1 R2]; [|done|done|].
  { apply Forall_forall. intros i Hi%elem_of_seqZ. unfold in_write. lia. }
  split; [done|]. intros k Hk. rewrite R2 by done. rewrite decide_True; [done|]. apply elem_of_seqZ.
  unfold PAGE_SIZE. div_lia.
Qed.

Lemma buf_len (buf : list Z) : buf <> [] -> 0 < Z.of_nat (length buf).
Proof. destruct buf; [done|simpl; lia]. Qed.

Section kernel.
Variables (ob : option B) (avail staging : Z -> bool) (offset : Z) (buf : list Z).
Local Abbreviation len := (Z.of_nat (length buf)).
Local Abbreviation first := (offset / PAGE_SIZE).
Local Abbreviation last := ((offset + len - 1) / PAGE_SIZE).
Hypotheses (Ho : 0 <= offset) (Hb : buf <> []) (Hm : offset + len <= i64_max).

Lemma pages_in_write i : i ∈ seqZ first (last - first + 1) <-> in_write offset len i.
Proof. pose proof (buf_len buf Hb). rewrite elem_of_seqZ. unfold in_write, PAGE_SIZE. div_lia. Qed.

Lemma lookup_spec c c' plan : cache_ok c ob -> lookup_read_range_fast c offset len first last = (c', plan) ->
  grown c c' ob /\ needs_valid_fill plan = [] /\ Forall (fun i => 0 <= i) (run_pages (miss_runs plan)) /\
  (forall i, i ∈ run_pages (miss_runs plan) -> in_write offset len i) /\
  (forall i, in_write offset len i -> i ∈ run_pages (miss_runs plan) \/ is_Some (get_entry c i)) /\
  ((forall i, in_write offset len i -> is_Some (get_entry c i)) ->
     miss_runs plan = [] /\ copies plan = copy_of offset len <$> seqZ first (last - first + 1)).
Proof.
  intros Hc Hl. unfold lookup_read_range_fast in Hl.
  apply (scan_spec offset len Ho (buf_len buf Hb) Hm ob) in Hl as (R1 & R2 & (ms & R3 & R4 & R5 & R6) & R7); [|done| |done].
  2: { apply Forall_forall. intros i. apply pages_in_write. }
  simpl in *. rewrite R3. split; [done|]. split; [done|]. split_and!.
  - apply Forall_forall. intros i Hi%R5%pages_in_write. by apply (in_write_nonneg offset len).
  - intros i Hi. by apply pages_in_write, R5.
  - intros i Hi. by apply R4, pages_in_write.
  - intros Hall. apply R6. intros i Hi. by apply Hall, pages_in_write.
Qed.

(** The outcome of a read: the bytes of the file. *)
Definition read_result c (x : Z * list Z) : Prop :=
  fst x = len /\ length (snd x) = length buf /\
  forall k, 0 <= k < len -> snd x !! Z.to_nat k = byte_at c ob (offset + k).

Lemma read_complete c c1 plan : cache_ok c ob -> grown c c1 ob ->
  (forall i, in_write offset len i -> is_Some (get_entry c1 i)) ->
  copies plan = copy_of offset len <$> seqZ first (last - first + 1) ->
  read_result c (len, run_copies c1 (copies plan) buf).
Proof.
  intros Hc Hg Hp ->. destruct (run_plan c1 ob offset buf Ho Hb (g_ok _ _ _ Hg)) as [R1 R2].
  { intros i Hi. by apply Hp, pages_in_write. }
  split; [done|]. split; [done|]. intros k Hk. simpl. rewrite R2 by done.
  apply page_views_bytes; [apply Hg|lia].
Qed.

(** A read inside one page. *)
Lemma read_one c c' r : cache_ok c ob -> first = last ->
  match get_page_for_read c ob (avail first) first with
  | (c, Err e) => (c, Err e)
  | (c, Ok _) =>
      match ensure_fully_valid c ob first with
      | (c, Err e) => (c, Err e)
      | (c, Ok ()) => (c, Ok (len, run_copies c [mkCopy first 0 (span_at offset first) len] buf))
      end
  end = (c', r) ->
  grown c c' ob /\ (forall x, r = Ok x -> read_result c x) /\
  ((forall i, in_write offset len i -> avail i = true /\ readable ob i) -> exists x, r = Ok x).
Proof.
  intros Hc E. pose proof (buf_len buf Hb) as Hl. assert (Hw : in_write offset len first) by (unfold in_write; lia).
  pose proof (in_write_bound offset len _ Ho Hl Hm Hw) as Hpb.
  destruct (get_page_for_read c ob (avail first) first) as [c1 [e|er]] eqn:Eg.
  - destruct (get_page_for_read_ok c ob _ _ c1 e Hc Hpb Eg) as [G P].
    rewrite (ensure_valid_noop c1 ob _ (g_ok _ _ _ G) (proj1 Hpb)). intros [= <- <-].
    split; [done|]. split; [|by eauto]. intros x [= <-].
    apply (read_complete c c1 (mkPlan [mkCopy first 0 (span_at offset first) len] [] []) Hc G); simpl copies.
    + intros i Hi. assert (i = first) as -> by (unfold in_write in Hi; lia). done.
    + rewrite <- E, Z.sub_diag. change (seqZ first (0 + 1)) with [0 + first]. rewrite Z.add_0_l. simpl.
      unfold copy_of. do 2 f_equal; unfold src_at, span_len, PAGE_SIZE in *; div_lia.
  - pose proof (get_page_for_read_err _ _ _ _ _ _ Eg) as ->. intros [= <- <-]. split; [by apply grown_refl|].
    split; [done|]. intros Ha. destruct (Ha _ Hw) as [Hav Hrd]. rewrite Hav in Eg.
    destruct (get_page_for_read_total c ob _ Hrd) as (c2 & e2 & E2). congruence.
Qed.

(** A read of several pages. *)
Lemma read_many c c' r : cache_ok c ob ->
  (let '(c, plan) := lookup_read_range_fast c offset len first last in
   if plan_complete plan then (c, Ok (len, run_copies c (copies plan) buf))
   else match fill_plan c ob avail staging plan with
        | (c, Err e) => (c, Err e)
        | (c, Ok ()) =>
            let '(c, plan) := lookup_read_range_fast c offset len first last in
            if plan_complete plan then (c, Ok (len, run_copies c (copies plan) buf))
            else match read_slow c ob avail offset len (seqZ first (last - first + 1)) 0 [] with
                 | (c, Err e) => (c, Err e)
                 | (c, Ok items) => (c, Ok (foldr (fun it n => rc_len it + n) 0 items, run_copies c items buf))
                 end
        end) = (c', r) ->
  grown c c' ob /\ (forall x, r = Ok x -> read_result c x) /\
  (ob <> None -> (forall i, in_write offset len i -> avail i = true /\ readable ob i) ->
   (forall i, staging i = true) -> exists x, r = Ok x).
Proof.
  intros Hc. destruct (lookup_read_range_fast c offset len first last) as [c1 p1] eqn:E1.
  destruct (lookup_spec c c1 p1 Hc E1) as (G1 & F1 & N1 & W1 & M1 & C1). unfold plan_complete, fill_plan. rewrite F1.
  cbn [ensure_pages]. destruct (miss_runs p1) as [|r1 rs] eqn:Em.
  { intros [= <- <-]. assert (Hall : forall i, in_write offset len i -> is_Some (get_entry c i)).
    { intros i Hi. destruct (M1 i Hi) as [Hx|]; [by apply elem_of_nil in Hx|done]. }
    destruct (C1 Hall) as [_ Hcp]. split; [done|]. split; [|by eauto]. intros x [= <-].
    apply read_complete; [done|done| |done]. intros i Hi. apply (g_live _ _ _ G1); [|by apply Hall].
    by apply (in_write_nonneg offset len). }
  destruct ob as [b|] eqn:Eob; cbn [fill_miss_runs]; [|intros [= <- <-]; split; [done|]; split; [done|by intros []]].
  destruct (fill_runs c1 b avail staging (mutation_generation c1) (r1 :: rs)) as [c2 r2] eqn:E2.
  pose proof E2 as E2'. apply fill_runs_spec in E2' as [G2 P2]; [|apply G1|done]. destruct r2 as [[]|e].
  2: { intros [= <- <-]. split; [by eapply grown_trans|]. split; [done|]. intros _ Ha Hs.
       destruct (fill_runs_total b avail staging (r1 :: rs) c1) as [c3 Hc3]; [apply G1|done| |done|congruence].
       intros i Hi. by apply Ha, W1. }
  assert (Hall : forall i, in_write offset len i -> is_Some (get_entry c2 i)).
  { intros i Hi. pose proof (proj1 (in_write_bound offset len i Ho (buf_len buf Hb) Hm Hi)) as Hi0.
    destruct (M1 i Hi) as [Hx|Hx]; [by apply P2|]. by apply (g_live _ _ _ G2), (g_live _ _ _ G1). }
  destruct (lookup_read_range_fast c2 offset len first last) as [c3 p3] eqn:E3.
  rewrite <- Eob in *. destruct (lookup_spec c2 c3 p3 (g_ok _ _ _ G2) E3) as (G3 & F3 & _ & _ & _ & C3).
  destruct (C3 Hall) as [-> Hcp]. rewrite F3. intros [= <- <-].
  assert (G : grown c c3 ob) by (eapply grown_trans; [done|]; by eapply grown_trans).
  split; [done|]. split; [|by eauto]. intros x [= <-]. apply read_complete; [done|done| |done].
  intros i Hi. apply (g_live _ _ _ G3); [by apply (in_write_nonneg offset len)|by apply Hall].
Qed.

End kernel.

(** A read returns the bytes of the file, all of them, and changes nothing
    readers could see, whatever fails; it succeeds as soon as frames, staging
    buffers and the backend are available. *)
Lemma read_kernel_spec c ob avail staging offset buf c' r :
  cache_ok c ob -> 0 <= offset -> offset + Z.of_nat (length buf) <= i64_max ->
  read_kernel c ob avail staging offset buf = (c', r) ->
  cache_ok c' ob /\ (forall k, 0 <= k -> byte_at c' ob k = byte_at c ob k) /\
  (forall n buf', r = Ok (n, buf') -> n = Z.of_nat (length buf) /\ length buf' = length buf /\
     forall k, 0 <= k < n -> buf' !! Z.to_nat k = byte_at c ob (offset + k)) /\
  (ob <> None -> (forall i, in_write offset (Z.of_nat (length buf)) i -> avail i = true /\ readable ob i) ->
   (forall i, staging i = true) -> exists x, r = Ok x).
Proof.
  intros Hc Ho Hm. destruct (decide (buf = [])) as [->|Hb].
  { unfold read_kernel. simpl. intros [= <- <-]. split_and!; [done|done| |by eauto]. intros n buf' [= <- <-].
    split_and!; [done|done|]. intros k Hk. lia. }
  set (len := Z.of_nat (length buf)) in *. assert (Hl : 0 < len) by exact (buf_len buf Hb).
  assert (Done : forall c' (r : result (Z * list Z) SyscallErr), grown c c' ob -> (forall x, r = Ok x -> read_result ob offset buf c x) ->
    cache_ok c' ob /\ (forall k, 0 <= k -> byte_at c' ob k = byte_at c ob k) /\
    (forall n buf', r = Ok (n, buf') -> n = len /\ length buf' = length buf /\
      forall k, 0 <= k < n -> buf' !! Z.to_nat k = byte_at c ob (offset + k))).
  { intros c1 r1 G R. split; [apply G|]. split; [apply page_views_bytes, G|]. intros n buf' E.
    destruct (R _ E) as (R1 & R2 & R3). simpl in *. subst n. done. }
  unfold read_kernel. fold len. destruct (Z.eqb_spec len 0); [lia|].
  rewrite !Z.shiftr_div_pow2 by done. change (2 ^ PAGE_SIZE_BITS) with PAGE_SIZE.
  replace (offset +w len -w 1)%machine with (offset + len - 1) by (unfold i64_max in Hm; word_lia).
  destruct (Z.eqb_spec (offset / PAGE_SIZE) ((offset + len - 1) / PAGE_SIZE)) as [E|E].
  2: { intros Hr. destruct (read_many ob avail staging offset buf Ho Hb Hm c c' r Hc Hr) as (G & R & T).
       destruct (Done c' r G R) as (D1 & D2 & D3). done. }
  rewrite Z.shiftl_mul_pow2 by done. change (2 ^ PAGE_SIZE_BITS) with PAGE_SIZE.
  replace (offset -w wrap64 (offset / PAGE_SIZE * PAGE_SIZE))%machine with (span_at offset (offset / PAGE_SIZE)).
  2: { unfold span_at, PAGE_SIZE, i64_max in *. word_lia. }
  replace (Z.min len (PAGE_SIZE -w span_at offset (offset / PAGE_SIZE))%machine) with len.
  2: { unfold span_at, PAGE_SIZE, i64_max in *. word_lia. }
  intros Hr. destruct (read_one ob avail staging offset buf Ho Hb Hm c c' r Hc E Hr) as (G & R & T).
  destruct (Done c' r G R) as (D1 & D2 & D3). split_and!; [done|done|done|]. intros _ Ha _. by apply T.
Qed.

End read.
