(* ===== verification/PageCacheSync.v ===== *)
(** Write-back of the page cache: [writeback_pages_run_impl], [writeback_all] and
    [writeback_range] of [os/src/fs/page_cache.rs], and what they guarantee for
    the backend.

    Write-protecting the mappings of the pages ([mkclean_page]) does not touch
    the cache; the loop of [writeback_all] waits while pages are in transit,
    which is the answer [None]. *)

From stdpp Require Import base numbers option gmap sets list.
From S2P Require Import Prelude Addr PageFlags PageCache PageCacheWrite.

Definition MAX_WRITEBACK_PAGES : nat := 256.

Section ops.
Context {B : Type} `{Backend B}.

(** [entry.complete_writeback()] with the counters. *)
Definition complete_page (c : PageCache) (i : Z) : PageCache :=
  match get_entry c i with
  | None => c
  | Some e =>
      let '(f, redirtied) := test_and_clear_flag (e_flags e) PG_REDIRTIED in
      let c := upd_entry c i (map_flags (fun _ => finish_writeback f redirtied)) in
      add_wb (if redirtied then add_dirty c 1 else c) (-1)
  end.

Definition restore_page (c : PageCache) (i : Z) : PageCache :=
  add_wb (add_dirty (upd_entry c i (map_flags restore_dirty_after_writeback)) 1) (-1).

(** First phase: the dirty pages nobody holds are claimed. *)
Fixpoint claim_pages (c : PageCache) (idxs : list Z) : PageCache * list Z :=
  match idxs with
  | [] => (c, [])
  | i :: idxs =>
      match get_entry c i with
      | Some e =>
          match claim_writeback (e_flags e) with
          | Some f =>
              let '(c, l) := claim_pages (add_wb (add_dirty (upd_entry c i (map_flags (fun _ => f))) (-1)) 1) idxs in
              (c, i :: l)
          | None => claim_pages c idxs
          end
      | None => claim_pages c idxs
      end
  end.

Fixpoint ensure_all (c : PageCache) (ob : option B) (l : list Z) : PageCache * result unit SyscallErr :=
  match l with
  | [] => (c, Ok ())
  | i :: l =>
      match ensure_fully_valid c ob i with
      | (c, Err e) => (c, Err e)
      | (c, Ok ()) => ensure_all c ob l
      end
  end.

(** The claimed pages as maximal runs of consecutive indexes. *)
Fixpoint group_runs (l : list Z) : list (list Z) :=
  match l with
  | [] => []
  | i :: l =>
      match group_runs l with
      | (j :: r) :: rs => if j =? i + 1 then (i :: j :: r) :: rs else [i] :: (j :: r) :: rs
      | rs => [i] :: rs
      end
  end.

Definition page_data (c : PageCache) (i : Z) : list Z := match get_entry c i with Some e => e_data e | None => [] end.

(** One backend call per run; a failure gives back this run and the later ones. *)
Fixpoint write_runs (c : PageCache) (b : B) (runs : list (list Z)) : PageCache * B * result unit SyscallErr :=
  match runs with
  | [] => (c, b, Ok ())
  | run :: runs =>
      match write_pages b (default 0 (head run)) (page_data c <$> run) 0 with
      | (b, Ok _) => write_runs (foldl complete_page c run) b runs
      | (b, Err e) => (foldl restore_page c (run ++ concat runs), b, Err e)
      end
  end.

Definition writeback_pages_run (c : PageCache) (ob : option B) (start count : Z)
    : PageCache * option B * result unit SyscallErr :=
  let end_ := Z.min (start + count) (Z.of_nat (length (entries c))) in
  let '(c, l) := claim_pages c (seqZ start (end_ - start)) in
  match l with
  | [] => (c, ob, Ok ())
  | _ =>
      match ensure_all c ob l with
      | (c, Err e) => (foldl restore_page c l, ob, Err e)
      | (c, Ok ()) =>
          match ob with
          | Some b => let '(c, b, r) := write_runs c b (group_runs l) in (c, Some b, r)
          | None => (foldl complete_page c l, None, Ok ())
          end
      end
  end.

Definition find_dirty_pages (c : PageCache) : list Z :=
  filter (fun i => match get_entry c i with Some e => e_dirty e | None => false end = true)
    (seqZ 0 (Z.of_nat (length (entries c)))).

Definition has_transient_pages (c : PageCache) : bool :=
  existsb (fun o => match o with
                    | Some e => match decode_state (e_flags e) with Loading | Writeback => true | _ => false end
                    | None => false
                    end) (entries c).

(** How many of the next indexes continue the run that ends in [i]. *)
Fixpoint take_run (n : nat) (i : Z) (l : list Z) : nat :=
  match n, l with
  | S n, j :: l => if j =? i + 1 then S (take_run n j l) else 0
  | _, _ => 0
  end.

(** One pass over the dirty pages, in runs of at most [MAX_WRITEBACK_PAGES]; each
    step consumes an index, so the number of indexes is enough fuel. *)
Fixpoint writeback_pass (fuel : nat) (c : PageCache) (ob : option B) (dirty : list Z)
    : PageCache * option B * result unit SyscallErr :=
  match fuel, dirty with
  | S fuel, i :: l =>
      let n := take_run (MAX_WRITEBACK_PAGES - 1) i l in
      match writeback_pages_run c ob i (Z.of_nat n + 1) with
      | (c, ob, Err e) => (c, ob, Err e)
      | (c, ob, Ok ()) => writeback_pass fuel c ob (drop n l)
      end
  | _, _ => (c, ob, Ok ())
  end.

Fixpoint writeback_all (fuel : nat) (c : PageCache) (ob : option B)
    : option (PageCache * option B * result unit SyscallErr) :=
  match fuel with
  | O => None
  | S fuel =>
      match find_dirty_pages c with
      | [] => if has_transient_pages c then None else Some (c, ob, Ok ())
      | dirty =>
          match writeback_pass (length dirty) c ob dirty with
          | (c, ob, Err e) => Some (c, ob, Err e)
          | (c, ob, Ok ()) => writeback_all fuel c ob
          end
      end
  end.

End ops.

(** ** Flags of a write-back *)

Abbreviation R f := (test_flag f PG_REDIRTIED).

Lemma claim_unused f : unused f -> claim_writeback f =
  if test_flag f PG_DIRTY then Some (Z.lor (Z.ldiff f PG_DIRTY) (Z.lor PG_WRITEBACK PG_LOCKED)) else None.
Proof. intros (_ & Hl & _). unfold claim_writeback. rewrite Hl. by destruct (test_flag f PG_DIRTY). Qed.

Definition claimed (f : Z) : Prop :=
  flags_ok f /\ test_flag f PG_LOCKED = true /\ test_flag f PG_WRITEBACK = true /\
  test_flag f PG_DIRTY = false /\ R f = false.

Lemma claim_claimed f : unused f -> claimed (Z.lor (Z.ldiff f PG_DIRTY) (Z.lor PG_WRITEBACK PG_LOCKED)).
Proof. unfold claimed. intros H. unused_bytes f H. Qed.

Ltac claimed_bytes f H :=
  let Hr := fresh in let He := fresh in let Hu := fresh in let Hl := fresh in let Hw := fresh in
  let Hd := fresh in let Hx := fresh in
  unfold unused, claimed, flags_ok in *; destruct H as ((Hr & He & Hu) & Hl & Hw & Hd & Hx);
  revert He Hu Hl Hw Hd Hx;
  match goal with |- ?G =>
    match eval pattern f in G with
    | ?P _ => apply (byte_forall P); [vm_compute; reflexivity|exact Hr]
    end
  end.

Lemma complete_claimed f : claimed f ->
  unused (finish_writeback (Z.ldiff f PG_REDIRTIED) false) /\
  test_flag (finish_writeback (Z.ldiff f PG_REDIRTIED) false) PG_DIRTY = false.
Proof. intros H. claimed_bytes f H. Qed.

Lemma restore_claimed f : claimed f ->
  unused (restore_dirty_after_writeback f) /\ test_flag (restore_dirty_after_writeback f) PG_DIRTY = true.
Proof. intros H. claimed_bytes f H. Qed.

(** ** The invariant of a write-back under way *)

Section sync.
Context {B : Type} `{HB : Backend B} `{HL : !BackendLaws B}.
Implicit Types (c : PageCache) (b : B).

Record wb_inv (view : Z -> list Z) (was_dirty : Z -> bool) c b (todo : list Z) : Prop := {
  w_todo : forall i, i ∈ todo -> 0 <= i /\ exists e, get_entry c i = Some e /\ length (e_data e) = page_bytes /\
    e_mask e = VALID_ALL /\ claimed (e_flags e) /\ e_data e = view i /\ was_dirty i = true;
  w_rest : forall i e, 0 <= i -> i ∉ todo -> get_entry c i = Some e -> quiet e /\ e_data e = view i /\
    (e_dirty e = false -> e_data e = contents b i) /\ (e_dirty e = true -> was_dirty i = true);
  w_none : forall i, 0 <= i -> get_entry c i = None -> contents b i = view i;
  w_index : index_ok c;
  w_dirty : n_dirty c = count e_dirty c;
  w_wb : n_wb c = Z.of_nat (length todo);
}.

Lemma wb_inv_start c b : cache_ok c (Some b) -> wb_inv (page_view c (Some b)) (dirty_before c) c b [].
Proof.
  intros Hc. split.
  - intros i Hi. by apply elem_of_nil in Hi.
  - intros i e Hi _ He. split; [by apply (ok_quiet _ _ Hc i)|]. unfold page_view, dirty_before. rewrite He.
    split; [done|]. split; [|done]. by apply (ok_clean _ _ Hc i).
  - intros i Hi He. unfold page_view. by rewrite He.
  - exact (ok_pages _ _ Hc).
  - apply Hc.
  - apply Hc.
Qed.

Lemma wb_inv_end view was c b : wb_inv view was c b [] ->
  cache_ok c (Some b) /\ (forall i, 0 <= i -> page_view c (Some b) i = view i) /\
  (forall i, 0 <= i -> dirty_before c i = true -> was i = true).
Proof.
  intros [_ I2 I3 I4 I5 I6].
  assert (Hr : forall i e, 0 <= i -> get_entry c i = Some e -> quiet e /\ e_data e = view i /\
    (e_dirty e = false -> e_data e = contents b i) /\ (e_dirty e = true -> was i = true))
    by (intros i e Hi; apply I2; [done|apply not_elem_of_nil]).
  split; [split|split].
  - intros i e Hi He. by apply (Hr i).
  - intros i e Hi He. by apply (Hr i).
  - exact I4.
  - done.
  - done.
  - intros i Hi. unfold page_view. destruct (get_entry c i) as [e|] eqn:E; [by apply Hr|by apply I3].
  - intros i Hi. unfold dirty_before. destruct (get_entry c i) as [e|] eqn:E; [|done]. by apply (Hr i e).
Qed.

(** A change of the flags of page [i] that moves it between the claimed pages
    and the others. *)
Lemma wb_inv_flags view was c b todo todo' i e g nd nw :
  wb_inv view was c b todo -> 0 <= i -> get_entry c i = Some e ->
  (forall j, j <> i -> j ∈ todo' <-> j ∈ todo) ->
  let e' := map_flags g e in
  (i ∈ todo' -> length (e_data e) = page_bytes /\ e_mask e = VALID_ALL /\ claimed (e_flags e') /\
     e_data e = view i /\ was i = true) ->
  (i ∉ todo' -> quiet e' /\ e_data e = view i /\ (e_dirty e' = false -> e_data e = contents b i) /\
     (e_dirty e' = true -> was i = true)) ->
  nd = b2z (e_dirty e') - b2z (e_dirty e) -> Z.of_nat (length todo') = Z.of_nat (length todo) + nw ->
  wb_inv view was (add_wb (add_dirty (upd_entry c i (map_flags g)) nd) nw) b todo'.
Proof.
  intros [I1 I2 I3 I4 I5 I6] Hi He Ht e' H1 H2 -> Hn.
  assert (G : forall j, 0 <= j -> get_entry (add_wb (add_dirty (upd_entry c i (map_flags g))
    (b2z (e_dirty e') - b2z (e_dirty e))) nw) j = if decide (j = i) then Some e' else get_entry c j).
  { intros j Hj. transitivity (get_entry (upd_entry c i (map_flags g)) j); [done|]. by rewrite get_upd, He. }
  split.
  - intros j Hj. destruct (decide (j = i)) as [->|Hne].
    + split; [done|]. exists e'. rewrite G, decide_True by done. destruct (H1 Hj) as (? & ? & ? & ? & ?). done.
    + apply (Ht j Hne) in Hj. destruct (I1 j Hj) as (Hj0 & ej & Ej). split; [done|]. exists ej.
      rewrite G, decide_False by done. done.
  - intros j ej Hj Hnt. rewrite G by done. case_decide as Hd.
    + subst j. intros [= <-]. by apply H2.
    + rewrite (Ht j Hd) in Hnt. by apply I2.
  - intros j Hj. rewrite G by done. case_decide; [done|]. by apply I3.
  - intros j Hj. rewrite G by done. simpl. rewrite (I4 j Hj). case_decide; [|done]. subst j. by rewrite He.
  - change (n_dirty (add_wb (add_dirty (upd_entry c i (map_flags g)) (b2z (e_dirty e') - b2z (e_dirty e))) nw))
      with (n_dirty c + (b2z (e_dirty e') - b2z (e_dirty e))).
    transitivity (count e_dirty (upd_entry c i (map_flags g))); [|done].
    rewrite (count_upd _ _ _ _ _ He). fold e'. lia.
  - simpl. lia.
Qed.

Lemma wb_claim view was c b todo i e : wb_inv view was c b todo -> 0 <= i -> i ∉ todo ->
  get_entry c i = Some e -> e_dirty e = true ->
  wb_inv view was (add_wb (add_dirty (upd_entry c i
    (map_flags (fun _ => Z.lor (Z.ldiff (e_flags e) PG_DIRTY) (Z.lor PG_WRITEBACK PG_LOCKED)))) (-1)) 1) b (i :: todo).
Proof.
  intros Hw Hi Hn He Hd. destruct (w_rest _ _ _ _ _ Hw i e Hi Hn He) as (Q & V & _ & D).
  apply quiet_unused in Q as (Q1 & Q2 & Q3). pose proof (claim_claimed _ Q3) as C.
  eapply wb_inv_flags; [done|done|done| | | | |].
  - intros j Hj. rewrite elem_of_cons. naive_solver.
  - intros _. split_and!; [done|done|done|done|by apply D].
  - intros Hx. exfalso. apply Hx. left.
  - rewrite Hd. unfold e_dirty. simpl. destruct C as (_ & _ & _ & -> & _). done.
  - simpl. lia.
Qed.

Lemma wb_complete view was c b todo i : wb_inv view was c b (i :: todo) -> i ∉ todo -> contents b i = view i ->
  wb_inv view was (complete_page c i) b todo.
Proof.
  intros Hw Hn Hv. destruct (w_todo _ _ _ _ _ Hw i ltac:(left)) as (Hi & e & He & E1 & E2 & E3 & E4 & E5).
  unfold complete_page. rewrite He. simpl. pose proof E3 as (_ & _ & _ & ED & ER). rewrite ER.
  destruct (complete_claimed _ E3) as [F1 F2].
  match goal with |- wb_inv _ _ (add_wb ?x _) _ _ => replace x with (add_dirty x 0)
    by (unfold add_dirty; rewrite Z.add_0_r; by destruct c) end.
  eapply wb_inv_flags; [done|done|done| | | | |].
  - intros j Hj. rewrite elem_of_cons. naive_solver.
  - intros Hx. done.
  - intros _. split; [apply quiet_unused; done|]. split; [done|]. split; [intros _; congruence|done].
  - unfold e_dirty. simpl. rewrite F2, ED. done.
  - simpl. lia.
Qed.

Lemma wb_restore view was c b todo i : wb_inv view was c b (i :: todo) -> i ∉ todo ->
  wb_inv view was (restore_page c i) b todo.
Proof.
  intros Hw Hn. destruct (w_todo _ _ _ _ _ Hw i ltac:(left)) as (Hi & e & He & E1 & E2 & E3 & E4 & E5).
  unfold restore_page. pose proof E3 as (_ & _ & _ & ED & ER). destruct (restore_claimed _ E3) as [F1 F2].
  eapply wb_inv_flags; [done|done|done| | | | |].
  - intros j Hj. rewrite elem_of_cons. naive_solver.
  - intros Hx. done.
  - intros _. split; [apply quiet_unused; done|]. split; [done|]. split; [|done]. unfold e_dirty. simpl. congruence.
  - unfold e_dirty. simpl. rewrite F2, ED. done.
  - simpl. lia.
Qed.

Lemma wb_backend view was c b b' todo : wb_inv view was c b todo ->
  (forall j, 0 <= j -> j ∉ todo -> contents b' j = contents b j) -> wb_inv view was c b' todo.
Proof.
  intros [I1 I2 I3 I4 I5 I6] Hb. split; try done.
  - intros i e Hi Hn He. rewrite (Hb i Hi Hn). by apply I2.
  - intros i Hi He. rewrite Hb; [by apply I3|done|]. intros Hin. destruct (I1 i Hin) as (_ & e & He' & _). congruence.
Qed.

Lemma wb_perm view was c b l l' : l ≡ₚ l' -> wb_inv view was c b l -> wb_inv view was c b l'.
Proof.
  intros Hp [I1 I2 I3 I4 I5 I6]. split; try done.
  - intros i Hi. apply I1. by rewrite Hp.
  - intros i e Hi Hn. apply I2; [done|]. by rewrite Hp.
  - by rewrite I6, Hp.
Qed.

Lemma decide_in_cons (j i : Z) (l : list Z) (x : bool) : (if decide (j ∈ i :: l) then false else x) =
  if decide (j = i) then false else if decide (j ∈ l) then false else x.
Proof.
  destruct (decide (j = i)) as [->|Hne]; [by rewrite decide_True by left|].
  destruct (decide (j ∈ l)); [by rewrite decide_True by (by right)|]. rewrite decide_False; [done|].
  by rewrite not_elem_of_cons.
Qed.

Lemma dirty_other c i j g nd nw : 0 <= i -> 0 <= j -> j <> i ->
  dirty_before (add_wb (add_dirty (upd_entry c i g) nd) nw) j = dirty_before c j.
Proof.
  intros Hi Hj Hne. unfold dirty_before. transitivity (match get_entry (upd_entry c i g) j with
    Some e => e_dirty e | None => false end); [done|]. by rewrite get_upd, decide_False.
Qed.

Lemma claim_pages_spec view was idxs : forall c b todo c' l, wb_inv view was c b todo ->
  Forall (fun i => 0 <= i) idxs -> NoDup idxs -> (forall i, i ∈ idxs -> i ∉ todo) -> claim_pages c idxs = (c', l) ->
  wb_inv view was c' b (l ++ todo) /\ NoDup l /\ (forall i, i ∈ l -> i ∈ idxs) /\
  forall j, 0 <= j -> dirty_before c' j = if decide (j ∈ idxs) then false else dirty_before c j.
Proof.
  induction idxs as [|i idxs IH]; intros c b todo c' l Hw Hp Hnd Ht; cbn [claim_pages].
  { intros [= <- <-]. split_and!; [done|apply NoDup_nil_2|done|done]. }
  apply Forall_cons in Hp as [Hi Hp]. apply NoDup_cons in Hnd as [Hn1 Hn2].
  assert (Hit : i ∉ todo) by (apply Ht; left). assert (Ht' : forall k, k ∈ idxs -> k ∉ todo) by (intros; apply Ht; by right).
  assert (Hskip : dirty_before c i = false -> claim_pages c idxs = (c', l) ->
    wb_inv view was c' b (l ++ todo) /\ NoDup l /\ (forall k, k ∈ l -> k ∈ i :: idxs) /\
    forall j, 0 <= j -> dirty_before c' j = if decide (j ∈ i :: idxs) then false else dirty_before c j).
  { intros Hd Hr. destruct (IH _ _ _ _ _ Hw Hp Hn2 Ht' Hr) as (R1 & R2 & R3 & R4).
    split_and!; [done|done|by right; apply R3|]. intros j Hj. rewrite R4, decide_in_cons by done.
    destruct (decide (j = i)) as [->|]; [|done]. by rewrite Hd, decide_False. }
  destruct (get_entry c i) as [e|] eqn:He; [|apply Hskip; unfold dirty_before; by rewrite He].
  destruct (w_rest _ _ _ _ _ Hw i e Hi Hit He) as (Q & _). apply quiet_unused in Q as (_ & _ & Q).
  rewrite (claim_unused _ Q). fold (e_dirty e).
  destruct (e_dirty e) eqn:Hd; [|apply Hskip; unfold dirty_before; by rewrite He].
  pose proof (wb_claim view was c b todo i e Hw Hi Hit He Hd) as Hw1.
  match goal with |- context [claim_pages ?x idxs] => set (c1 := x) in * end.
  destruct (claim_pages c1 idxs) as [c2 l2] eqn:Er. intros [= <- <-].
  destruct (IH c1 b (i :: todo) c2 l2 Hw1 Hp Hn2) as (R1 & R2 & R3 & R4); [|done|].
  { intros k Hk. rewrite not_elem_of_cons. split; [by intros ->|by apply Ht']. }
  split_and!.
  - eapply wb_perm; [|exact R1]. simpl. symmetry. apply Permutation_middle.
  - apply NoDup_cons. split; [|done]. intros Hx. by apply Hn1, R3.
  - intros k [->|Hk]%elem_of_cons; [left|right; by apply R3].
  - intros j Hj. rewrite R4, decide_in_cons by done. destruct (decide (j = i)) as [->|Hne].
    + rewrite decide_False by done. unfold dirty_before.
      destruct (w_todo _ _ _ _ _ Hw1 i ltac:(left)) as (_ & e' & -> & _ & _ & (_ & _ & _ & E & _) & _). done.
    + unfold c1. by rewrite dirty_other.
Qed.

(** A run of pages on the backend: nothing outside the run changes. *)
Lemma write_pages_spec ps : forall b start w b' r, Forall (fun p => length p = page_bytes) ps ->
  write_pages b start ps w = (b', r) ->
  (forall j, j < start \/ start + Z.of_nat (length ps) <= j -> contents b' j = contents b j) /\
  (forall n, r = Ok n -> forall k p, ps !! k = Some p -> contents b' (start + Z.of_nat k) = p).
Proof.
  induction ps as [|p ps IH]; intros b start w b' r Hf; cbn [write_pages]; [by intros [= <- <-]|].
  apply Forall_cons in Hf as [Hp Hf]. destruct (write_page b start p) as [b1 [n|e]] eqn:Ew.
  - intros Hr. pose proof (write_page_ok _ _ _ _ _ Hp Ew) as Hc. apply IH in Hr as [R1 R2]; [|done]. simpl in *. split.
    + intros j Hj. rewrite R1, Hc, decide_False by lia. done.
    + intros m Hm [|k] q Hq; simpl in Hq.
      * injection Hq as <-. rewrite R1 by lia. by rewrite Hc, decide_True by lia.
      * rewrite <- (R2 m Hm k q Hq). f_equal. lia.
  - intros [= <- <-]. split; [|done]. intros j Hj. apply (write_page_err _ _ _ _ _ Ew). simpl in Hj. lia.
Qed.

Lemma fold_restore view was b l : forall c todo, wb_inv view was c b (l ++ todo) -> NoDup (l ++ todo) ->
  wb_inv view was (foldl restore_page c l) b todo.
Proof.
  induction l as [|i l IH]; intros c todo Hw Hn; simpl in *; [done|]. apply NoDup_cons in Hn as [Hn1 Hn2].
  apply IH; [|done]. by apply wb_restore.
Qed.

Lemma complete_dirty view was c b i todo j : wb_inv view was c b (i :: todo) -> 0 <= j ->
  dirty_before (complete_page c i) j = dirty_before c j.
Proof.
  intros Hw Hj. destruct (w_todo _ _ _ _ _ Hw i ltac:(left)) as (Hi & e & He & _ & _ & E3 & _).
  unfold complete_page. rewrite He. simpl. pose proof E3 as (_ & _ & _ & ED & ER). rewrite ER.
  destruct (complete_claimed _ E3) as [_ F2]. unfold dirty_before.
  match goal with |- context [get_entry (add_wb ?x _) j] => change (get_entry (add_wb x _) j) with (get_entry x j) end.
  rewrite get_upd by done. case_decide as Hd; [|done]. subst j. rewrite He. unfold e_dirty. simpl. by rewrite F2, ED.
Qed.

Lemma fold_complete view was b l : forall c todo, wb_inv view was c b (l ++ todo) -> NoDup (l ++ todo) ->
  (forall i, i ∈ l -> contents b i = view i) ->
  wb_inv view was (foldl complete_page c l) b todo /\
  forall j, 0 <= j -> dirty_before (foldl complete_page c l) j = dirty_before c j.
Proof.
  induction l as [|i l IH]; intros c todo Hw Hn Hv; simpl in *; [done|]. apply NoDup_cons in Hn as [Hn1 Hn2].
  destruct (IH (complete_page c i) todo) as [R1 R2]; [|done| |].
  - apply wb_complete; [done|done|]. apply Hv. left.
  - intros k Hk. apply Hv. by right.
  - split; [done|]. intros j Hj. rewrite R2 by done. by eapply complete_dirty.
Qed.

(** The runs partition the claimed pages; each is consecutive. *)
Definition is_run (r : list Z) : Prop := r <> [] /\ r = seqZ (default 0 (head r)) (Z.of_nat (length r)).

Lemma group_runs_spec l : concat (group_runs l) = l /\ Forall is_run (group_runs l).
Proof.
  induction l as [|i l [IH1 IH2]]; cbn [group_runs]; [done|].
  assert (H1 : is_run [i]) by (split; [done|]; simpl; f_equal; lia).
  destruct (group_runs l) as [|[|j r] rs]; [simpl in *; subst; by repeat constructor| |].
  { inversion IH2 as [|? ? [Hx _] _]. done. }
  destruct (Z.eqb_spec j (i + 1)) as [->|Hj]; simpl in *; rewrite IH1; (split; [done|]); [|by constructor].
  inversion IH2 as [|? ? [_ Hr] Hrs]; subst. constructor; [|done]. split; [done|]. simpl in *.
  rewrite seqZ_cons by lia. f_equal. rewrite Hr. f_equal; lia.
Qed.

Lemma write_runs_spec view was runs : forall c b c' b' r, wb_inv view was c b (concat runs) ->
  NoDup (concat runs) -> Forall is_run runs -> write_runs c b runs = (c', b', r) ->
  wb_inv view was c' b' [] /\ (r = Ok () -> forall j, 0 <= j -> dirty_before c' j = dirty_before c j).
Proof.
  induction runs as [|run runs IH]; intros c b c' b' r Hw Hn Hr; cbn [write_runs concat] in *; [by intros [= <- <- <-]|].
  apply Forall_cons in Hr as [[_ Hrun] Hr]. pose proof Hn as Hn'. apply NoDup_app in Hn as (Hn1 & Hn2 & Hn3).
  assert (Hd : forall i, i ∈ run -> page_data c i = view i /\ length (page_data c i) = page_bytes).
  { intros i Hi. destruct (w_todo _ _ _ _ _ Hw i) as (_ & e & He & E1 & _ & _ & E4 & _); [apply elem_of_app; by left|].
    unfold page_data. rewrite He. by rewrite E4 in *. }
  destruct (write_pages b _ _ 0) as [b1 [n|e]] eqn:Ew;
    apply write_pages_spec in Ew as [W1 W2];
    try (apply Forall_forall; intros p (i & -> & Hi)%list_elem_of_fmap; by apply Hd).
  all: rewrite length_fmap in W1.
  all: assert (Hw1 : wb_inv view was c b1 (run ++ concat runs)) by
    (eapply wb_backend; [done|]; intros j Hj Hnot; apply W1; rewrite not_elem_of_app in Hnot; destruct Hnot as [Hnot _];
     rewrite Hrun, elem_of_seqZ in Hnot; lia).
  - destruct (fold_complete view was b1 run c (concat runs) Hw1 Hn') as [F1 F2].
    { intros i Hi. rewrite <- (proj1 (Hd i Hi)). apply list_elem_of_lookup in Hi as [k Hk].
      pose proof Hk as Hk'. rewrite Hrun in Hk'. apply lookup_seqZ in Hk' as [-> Hlt].
      apply (W2 n eq_refl). by rewrite list_lookup_fmap, Hk. }
    intros Hx. apply IH in Hx as [R1 R2]; [|done|done|done]. split; [done|].
    intros Ho j Hj. rewrite (R2 Ho j Hj). by apply F2.
  - intros [= <- <- <-]. split; [|done]. apply fold_restore; by rewrite app_nil_r.
Qed.

Lemma ensure_all_noop c (ob : option B) l : (forall i, i ∈ l -> exists e, get_entry c i = Some e /\ e_mask e = VALID_ALL) ->
  ensure_all c ob l = (c, Ok ()).
Proof.
  induction l as [|i l IH]; intros Hl; cbn [ensure_all]; [done|]. destruct (Hl i ltac:(left)) as (e & He & Hm).
  unfold ensure_fully_valid. rewrite He, Hm, Z.eqb_refl. apply IH. intros k Hk. apply Hl. by right.
Qed.

(** The effect of a run on the cache and the backend. *)
Definition synced c b c' b' : Prop :=
  cache_ok c' (Some b') /\ (forall i, 0 <= i -> page_view c' (Some b') i = page_view c (Some b) i) /\
  (forall i, 0 <= i -> dirty_before c' i = true -> dirty_before c i = true).

Lemma writeback_pages_run_spec c b start count c' ob' r : cache_ok c (Some b) -> 0 <= start ->
  writeback_pages_run c (Some b) start count = (c', ob', r) ->
  exists b', ob' = Some b' /\ synced c b c' b' /\
    (r = Ok () -> forall i, start <= i < start + count -> dirty_before c' i = false).
Proof.
  intros Hc Hs. unfold writeback_pages_run.
  set (idxs := seqZ start (Z.min (start + count) (Z.of_nat (length (entries c))) - start)).
  destruct (claim_pages c idxs) as [c1 l] eqn:Ec. pose proof (wb_inv_start c b Hc) as Hw.
  destruct (claim_pages_spec _ _ idxs c b [] c1 l Hw) as (W & Nl & Sub & Dc); [| | |done|].
  { apply Forall_forall. intros i Hi%elem_of_seqZ. lia. } { apply NoDup_seqZ. } { intros i _. apply not_elem_of_nil. }
  assert (Clean : (forall j, 0 <= j -> dirty_before c' j = dirty_before c1 j) ->
    forall i, start <= i < start + count -> dirty_before c' i = false).
  { intros Hd i Hi. rewrite Hd, Dc by lia. case_decide as Hin; [done|]. unfold idxs in Hin. rewrite elem_of_seqZ in Hin.
    unfold dirty_before, get_entry. rewrite lookup_ge_None_2 by lia. done. }
  assert (Done : forall c2 b2, wb_inv (page_view c (Some b)) (dirty_before c) c2 b2 [] -> synced c b c2 b2)
    by (intros c2 b2 H2; by apply wb_inv_end).
  rewrite app_nil_r in W. destruct l as [|i0 l0] eqn:El.
  { intros [= <- <- <-]. exists b. split; [done|]. split; [by apply Done|]. intros _. by apply Clean. }
  rewrite <- El in *. rewrite ensure_all_noop.
  2: { intros i Hi. destruct (w_todo _ _ _ _ _ W i Hi) as (_ & e & He & _ & Hm & _). eauto. }
  destruct (write_runs c1 b (group_runs l)) as [[c2 b2] r2] eqn:Ew. intros [= <- <- <-].
  destruct (group_runs_spec l) as [Gc Gr]. apply write_runs_spec with (1 := eq_ind_r (wb_inv _ _ c1 b) W Gc) in Ew as [R1 R2];
    [|by rewrite Gc|done].
  exists b2. split; [done|]. split; [by apply Done|]. intros Ho. by apply Clean, R2.
Qed.

Lemma synced_refl c b : cache_ok c (Some b) -> synced c b c b.
Proof. by split. Qed.

Lemma synced_trans c1 b1 c2 b2 c3 b3 : synced c1 b1 c2 b2 -> synced c2 b2 c3 b3 -> synced c1 b1 c3 b3.
Proof. intros (A1 & A2 & A3) (B1 & B2 & B3). split_and!; [done| |by eauto]. intros i Hi. rewrite B2 by done. by apply A2. Qed.

Lemma take_run_spec n i l : let k := take_run n i l in
  (k <= length l)%nat /\ forall j, j ∈ take k l -> i < j <= i + Z.of_nat k.
Proof.
  revert i l. induction n as [|n IH]; intros i l; [split; [simpl; lia|intros j Hj; by apply elem_of_nil in Hj]|].
  destruct l as [|j l]; [split; [simpl; lia|intros x Hx; by apply elem_of_nil in Hx]|]. cbn [take_run].
  destruct (Z.eqb_spec j (i + 1)) as [->|]; [|split; [lia|intros x Hx; by apply elem_of_nil in Hx]].
  destruct (IH (i + 1) l) as [H1 H2]. split; [simpl; lia|]. intros x [->|Hx]%elem_of_cons; [lia|].
  specialize (H2 x Hx). lia.
Qed.

Lemma writeback_pass_spec fuel : forall c b dirty c' ob' r, cache_ok c (Some b) -> Forall (fun i => 0 <= i) dirty ->
  (length dirty <= fuel)%nat -> writeback_pass fuel c (Some b) dirty = (c', ob', r) ->
  exists b', ob' = Some b' /\ synced c b c' b' /\ (r = Ok () -> forall i, i ∈ dirty -> dirty_before c' i = false).
Proof.
  induction fuel as [|fuel IH]; intros c b dirty c' ob' r Hc Hp Hf.
  { destruct dirty; [|simpl in Hf; lia]. intros [= <- <- <-]. exists b. split; [done|]. split; [by apply synced_refl|].
    intros _ i Hi. by apply elem_of_nil in Hi. }
  destruct dirty as [|i l]; cbn [writeback_pass].
  { intros [= <- <- <-]. exists b. split; [done|]. split; [by apply synced_refl|]. intros _ i Hi. by apply elem_of_nil in Hi. }
  apply Forall_cons in Hp as [Hi Hp]. set (n := take_run _ i l).
  destruct (take_run_spec (MAX_WRITEBACK_PAGES - 1) i l) as [Hn Hr]. fold n in Hn, Hr.
  destruct (writeback_pages_run c (Some b) i (Z.of_nat n + 1)) as [[c1 ob1] r1] eqn:E1.
  apply writeback_pages_run_spec in E1 as (b1 & -> & S1 & C1); [|done|done]. destruct r1 as [[]|e].
  2: { intros [= <- <- <-]. exists b1. done. }
  intros E2. apply IH in E2 as (b2 & -> & S2 & C2).
  - exists b2. split; [done|]. split; [by eapply synced_trans|]. intros Ho k Hk.
    destruct (decide (k ∈ drop n l)) as [Hd|Hd]; [by apply C2|].
    assert (Hk' : i <= k < i + (Z.of_nat n + 1)).
    { apply elem_of_cons in Hk as [->|Hk]; [lia|]. rewrite <- (take_drop n l), elem_of_app in Hk.
      destruct Hk as [Hk|Hk]; [|done]. specialize (Hr k Hk). lia. }
    destruct (dirty_before c' k) eqn:Ek; [|done]. apply S2 in Ek; [|lia]. by rewrite (C1 eq_refl k Hk') in Ek.
  - apply S1.
  - by apply Forall_drop.
  - rewrite length_drop. simpl in Hf. lia.
Qed.

Lemma find_dirty_spec c i : 0 <= i -> i ∈ find_dirty_pages c <-> dirty_before c i = true.
Proof.
  intros Hi. unfold find_dirty_pages. rewrite list_elem_of_filter, elem_of_seqZ. unfold dirty_before. split; [tauto|].
  intros Hd. split; [done|]. split; [done|]. unfold get_entry in Hd.
  destruct (entries c !! Z.to_nat i) eqn:E; [|done]. apply lookup_lt_Some in E. lia.
Qed.

Lemma quiet_no_transient c (ob : option B) : cache_ok c ob -> has_transient_pages c = false.
Proof.
  intros Hc. unfold has_transient_pages. apply not_true_is_false. rewrite existsb_exists. intros (o & Ho & Hs).
  apply list_elem_of_In, list_elem_of_lookup in Ho as [n Hn]. destruct o as [e|]; [|done].
  destruct (ok_quiet _ _ Hc (Z.of_nat n) e) as (_ & _ & F & L & W & _); [lia|unfold get_entry; by rewrite Nat2Z.id, Hn|].
  destruct (decode_flags _ F) as (_ & _ & D3 & D4 & _). destruct (decode_state (e_flags e)); try done.
  rewrite D3 in W; done.
Qed.

Lemma count_clean c : (forall i, 0 <= i -> dirty_before c i = false) -> count e_dirty c = 0.
Proof.
  intros Hd. unfold count. assert (Hf : Forall (fun o => opt_count e_dirty o = 0) (entries c)).
  { apply Forall_forall. intros o [n Hn]%list_elem_of_lookup. specialize (Hd (Z.of_nat n) ltac:(lia)).
    unfold dirty_before, get_entry in Hd. rewrite Nat2Z.id, Hn in Hd. destruct o as [e|]; simpl in *; [by rewrite Hd|done]. }
  induction Hf as [|o l Ho Hf IH]; simpl; [done|]. lia.
Qed.

Lemma all_clean c b c' b' : synced c b c' b' -> find_dirty_pages c' = [] ->
  n_dirty c' = 0 /\ find_dirty_pages c' = [] /\ forall i, 0 <= i -> contents b' i = page_view c (Some b) i.
Proof.
  intros (K & V & _) Hd. assert (Hcl : forall i, 0 <= i -> dirty_before c' i = false).
  { intros i Hi. destruct (dirty_before c' i) eqn:E; [|done]. apply find_dirty_spec in E; [|done].
    rewrite Hd in E. by apply elem_of_nil in E. }
  split; [rewrite (ok_dirty _ _ K); by apply count_clean|]. split; [done|]. intros i Hi. rewrite <- V by done.
  specialize (Hcl i Hi). unfold page_view, dirty_before in *. destruct (get_entry c' i) as [e|] eqn:E; [|done].
  symmetry. by apply (ok_clean _ _ K i).
Qed.

(** Writing back a cache nobody else is using comes to an end in two
    rounds.  Readers of the cache see the same file throughout, whatever fails;
    when it succeeds no page is dirty and every page of the file is on the
    backend as readers see it. *)
Lemma writeback_all_spec c b fuel : cache_ok c (Some b) -> (2 <= fuel)%nat ->
  exists c' b' r, writeback_all fuel c (Some b) = Some (c', Some b', r) /\ cache_ok c' (Some b') /\
    (forall i, 0 <= i -> page_view c' (Some b') i = page_view c (Some b) i) /\
    (r = Ok () -> n_dirty c' = 0 /\ find_dirty_pages c' = [] /\
       forall i, 0 <= i -> contents b' i = page_view c (Some b) i).
Proof.
  intros Hc Hf. destruct fuel as [|[|fuel]]; try lia. cbn [writeback_all].
  destruct (find_dirty_pages c) as [|i0 l0] eqn:Ed.
  { rewrite (quiet_no_transient c _ Hc). exists c, b, (Ok ()). split_and!; [done|done|done|].
    intros _. exact (all_clean c b c b (synced_refl c b Hc) Ed). }
  rewrite <- Ed. destruct (writeback_pass _ c (Some b) (find_dirty_pages c)) as [[c1 ob1] r1] eqn:Ep.
  apply writeback_pass_spec in Ep as (b1 & -> & S1 & C1); [|done| |done].
  2: { apply Forall_forall. intros i. unfold find_dirty_pages. rewrite list_elem_of_filter, elem_of_seqZ. lia. }
  destruct r1 as [[]|e]; [|exists c1, b1, (Err e); by split_and!; apply S1 || done].
  assert (Hd1 : find_dirty_pages c1 = []).
  { destruct (find_dirty_pages c1) as [|i l] eqn:E; [done|]. exfalso. assert (Hin : i ∈ find_dirty_pages c1) by (rewrite E; left).
    assert (Hi : 0 <= i) by (unfold find_dirty_pages in Hin; rewrite list_elem_of_filter, elem_of_seqZ in Hin; lia).
    apply find_dirty_spec in Hin; [|done]. pose proof (proj2 (proj2 S1) i Hi Hin) as H0.
    apply find_dirty_spec in H0; [|done]. rewrite (C1 eq_refl i H0) in Hin. done. }
  rewrite Hd1, (quiet_no_transient c1 _ (proj1 S1)). exists c1, b1, (Ok ()). split_and!; [done|apply S1|apply S1|].
  intros _. by apply all_clean.
Qed.

End sync.
