(* ===== verification/PageCacheDrop.v ===== *)
(** Operations of the page cache that drop pages: truncation, the rollback of a
    failed extension, invalidation and the clock eviction
    ([os/src/fs/page_cache.rs]).

    Zapping the mappings of truncated pages does not touch the cache.  Whether
    somebody else holds a page ([Arc::strong_count]) is an argument. *)

From stdpp Require Import base numbers option gmap sets list.
From S2P Require Import Prelude Addr PageFlags PageCache PageCacheWrite PageCacheFile PageCacheSync.

(** [entries[i].take()] and the removal from the index *)
Definition take_entry (c : PageCache) (i : Z) : PageCache :=
  match get_entry c i with
  | None => c
  | Some _ => with_pages (with_entries c (<[Z.to_nat i := None]> (entries c))) (pages c ∖ {[i]})
  end.

(** Dropping a page the caller counts as dirty. *)
Definition discard_entry (c : PageCache) (i : Z) : PageCache :=
  match get_entry c i with
  | None => c
  | Some e => let c := take_entry c i in
              if bool_decide (decode_state (e_flags e) = Dirty) then add_dirty c (-1) else c
  end.

Section ops.
Context {B : Type}.

(** [persistent] changes the backend. *)
Definition truncate_with_backend_locked (c : PageCache) (b : B) (new_size : Z)
    (persistent : B -> B * result unit SyscallErr) : PageCache * B * result unit SyscallErr :=
  let c := bump_generation c in
  let hole_start_page := (new_size + (PAGE_SIZE - 1)) / PAGE_SIZE in
  match persistent b with
  | (b, Err e) => (c, b, Err e)
  | (b, Ok ()) =>
      let c := foldl discard_entry c (seqZ hole_start_page (Z.of_nat (length (entries c)) - hole_start_page)) in
      let offset_in_page := Z.land new_size (PAGE_SIZE - 1) in
      let c := if offset_in_page =? 0 then c
               else upd_entry c (new_size / PAGE_SIZE) (fun e =>
                      mkEntry (take (Z.to_nat offset_in_page) (e_data e)
                                 ++ replicate (length (e_data e) - Z.to_nat offset_in_page) 0)
                        (e_flags e) (e_mask e) (e_maps e)) in
      (c, b, Ok ())
  end.

Definition rollback_failed_extension (c : PageCache) (restored_size : Z) : PageCache :=
  let first_discard := (restored_size + (PAGE_SIZE - 1)) / PAGE_SIZE in
  foldl (fun c i => match get_entry c i with
                    | Some e => if bool_decide (decode_state (e_flags e) = Writeback) then c else discard_entry c i
                    | None => c
                    end) c (seqZ first_discard (Z.of_nat (length (entries c)) - first_discard)).

Definition invalidate_range (c : PageCache) (start_index end_index : Z) : PageCache * result Z SyscallErr :=
  let c := bump_generation c in
  if existsb (fun i => match get_entry c i with Some e => e_dirty e | None => false end)
       (seqZ start_index (end_index - start_index))
  then (c, Err EBUSY)
  else
    let end_ := Z.min end_index (Z.of_nat (length (entries c))) in
    let idxs := seqZ start_index (end_ - start_index) in
    (foldl take_entry c idxs, Ok (Z.of_nat (length (filter (fun i => is_Some (get_entry c i)) idxs)))).

(** ** Eviction *)

Definition clear_referenced : PageEntry -> PageEntry := map_flags (fun f => Z.ldiff f PG_REFERENCED).

(** The clock: cache, hand and pages evicted so far. *)
Fixpoint clock_sweep (scan : nat) (c : PageCache) (held : Z -> bool) (hand target evicted : Z) : PageCache * Z * Z :=
  match scan with
  | O => (c, hand, evicted)
  | S scan =>
      if target <=? evicted then (c, hand, evicted)
      else
        let idx := hand in
        let hand := (hand + 1) mod Z.of_nat (length (entries c)) in
        match get_entry c idx with
        | None => clock_sweep scan c held hand target evicted
        | Some e =>
            if negb (bool_decide (decode_state (e_flags e) = UpToDate)) || held idx
            then clock_sweep scan c held hand target evicted
            else if test_flag (e_flags e) PG_REFERENCED
            then clock_sweep scan (upd_entry c idx clear_referenced) held hand target evicted
            else clock_sweep scan (take_entry c idx) held hand target (evicted + 1)
        end
  end.

(** [while entries.last() is a hole { pop }] *)
Fixpoint drop_holes (l : list (option PageEntry)) : list (option PageEntry) :=
  match l with
  | [] => []
  | o :: l => match o, drop_holes l with None, [] => [] | o, l => o :: l end
  end.

Definition evict_clean_pages_clock (c : PageCache) (held : Z -> bool) (target : Z) : PageCache * Z :=
  if unevictable c then (c, 0)
  else
    let len := Z.of_nat (length (entries c)) in
    if len =? 0 then (c, 0)
    else
      let max_scan := Z.min (len * 2) (saturating_add (saturating_mul target 16) 64) in
      let '(c, hand, evicted) := clock_sweep (Z.to_nat max_scan) c held (clock_hand c mod len) target 0 in
      let c := mkPC (drop_holes (entries c)) (pages c) (unevictable c) hand (mutation_generation c) (n_dirty c) (n_wb c) in
      (c, evicted).

End ops.

(** ** Dropping entries *)

Lemma take_length c i : length (entries (take_entry c i)) = length (entries c).
Proof. unfold take_entry. destruct (get_entry c i); [|done]. simpl. apply length_insert. Qed.

Lemma get_take c i j : 0 <= i -> 0 <= j -> get_entry (take_entry c i) j = if decide (j = i) then None else get_entry c j.
Proof.
  intros Hi Hj. unfold take_entry. destruct (get_entry c i) as [e|] eqn:E; [|case_decide; [by subst|done]].
  unfold get_entry. simpl. case_decide as Hd.
  - subst j. unfold get_entry in E. destruct (entries c !! Z.to_nat i) eqn:El; [|done].
    rewrite list_lookup_insert_eq by (by eapply lookup_lt_Some). done.
  - rewrite list_lookup_insert_ne by lia. done.
Qed.

Lemma take_index c i : 0 <= i -> index_ok c -> index_ok (take_entry c i).
Proof.
  intros Hi Hx j Hj. rewrite get_take by done. unfold take_entry.
  destruct (get_entry c i) as [e|] eqn:E; simpl.
  - rewrite elem_of_difference, elem_of_singleton, (Hx j Hj). case_decide; [|naive_solver].
    split; [naive_solver|by intros [? ?]].
  - rewrite (Hx j Hj). case_decide; [|done]. subst j. rewrite E. done.
Qed.

Lemma sum_delete P l (n : nat) : (n < length l)%nat -> foldr (fun o m => opt_count P o + m) 0 (<[n := None]> l) =
  foldr (fun o m => opt_count P o + m) 0 l - opt_count P (mjoin (l !! n)).
Proof.
  revert n. induction l as [|o l IH]; intros [|n] Hn; simpl in *; try lia. rewrite IH by lia. lia.
Qed.

Lemma take_count P c i : count P (take_entry c i) = count P c - opt_count P (get_entry c i).
Proof.
  unfold take_entry. destruct (get_entry c i) as [e|] eqn:E; [|simpl; lia]. unfold count. simpl. unfold get_entry in E.
  destruct (entries c !! Z.to_nat i) eqn:El; [|done]. rewrite sum_delete by (by eapply lookup_lt_Some). rewrite El. simpl in *.
  by rewrite E.
Qed.

Lemma take_frame c i : n_dirty (take_entry c i) = n_dirty c /\ n_wb (take_entry c i) = n_wb c.
Proof. unfold take_entry. by destruct (get_entry c i). Qed.

Lemma quiet_decode e : quiet e -> decode_state (e_flags e) = if e_dirty e then Dirty else UpToDate.
Proof.
  intros (_ & _ & F & L & W & _). destruct (decode_flags _ F) as (D1 & D2 & D3 & D4 & D5). unfold e_dirty.
  destruct (decode_state (e_flags e)); try done.
  - destruct (D1 eq_refl) as [_ ->]. done.
  - destruct (D2 eq_refl) as [_ ->]. done.
  - rewrite D3 in W; done.
Qed.

Section drop.
Context {B : Type} `{HB : Backend B} `{HL : !BackendLaws B}.
Implicit Types (c : PageCache) (ob : option B).

(** Dropping a clean page is invisible. *)
Lemma take_ok c ob i : cache_ok c ob -> 0 <= i -> dirty_before c i = false ->
  cache_ok (take_entry c i) ob /\ (forall j, 0 <= j -> page_view (take_entry c i) ob j = page_view c ob j) /\
  (forall j, 0 <= j -> dirty_before c j = false -> dirty_before (take_entry c i) j = false).
Proof.
  intros Hc Hi Hd. destruct (take_frame c i) as [F1 F2]. split; [split|split].
  - intros j e Hj. rewrite get_take by done. case_decide; [done|]. by apply (ok_quiet _ _ Hc).
  - intros j e Hj. rewrite get_take by done. case_decide; [done|]. by apply (ok_clean _ _ Hc).
  - apply take_index; [done|]. exact (ok_pages _ _ Hc).
  - rewrite F1, take_count, (ok_dirty _ _ Hc). unfold dirty_before in Hd.
    destruct (get_entry c i); simpl; [rewrite Hd|]; simpl; lia.
  - rewrite F2. apply Hc.
  - intros j Hj. unfold page_view. rewrite get_take by done. case_decide as Hd'; [|done]. subst j.
    unfold dirty_before in Hd. destruct (get_entry c i) as [e|] eqn:E; [|done]. symmetry. by apply (ok_clean _ _ Hc i).
  - intros j Hj. unfold dirty_before. rewrite get_take by done. case_decide; done.
Qed.

Lemma bump_ok c ob : cache_ok c ob -> cache_ok (bump_generation c) ob.
Proof. intros [H1 H2 H3 H4 H5]. by split. Qed.

Lemma fold_take_ok ob idxs : forall c, cache_ok c ob -> Forall (fun i => 0 <= i) idxs ->
  (forall i, i ∈ idxs -> dirty_before c i = false) ->
  cache_ok (foldl take_entry c idxs) ob /\ (forall j, 0 <= j -> page_view (foldl take_entry c idxs) ob j = page_view c ob j) /\
  (forall j, 0 <= j -> get_entry (foldl take_entry c idxs) j = if decide (j ∈ idxs) then None else get_entry c j).
Proof.
  induction idxs as [|i idxs IH]; intros c Hc Hp Hd; cbn [foldl].
  { split_and!; try done. }
  apply Forall_cons in Hp as [Hi Hp]. destruct (take_ok c ob i Hc Hi (Hd i ltac:(left))) as (T1 & T2 & T3).
  destruct (IH (take_entry c i) T1 Hp) as (R1 & R2 & R3).
  { intros k Hk. apply T3; [by rewrite Forall_forall in Hp; apply Hp|]. apply Hd. by right. }
  split_and!; [done|intros j Hj; rewrite R2 by done; by apply T2|].
  intros j Hj. rewrite R3, get_take by done. destruct (decide (j ∈ idxs)); [by rewrite decide_True by (by right)|].
  destruct (decide (j = i)) as [->|]; [by rewrite decide_True by left|]. rewrite decide_False; [done|].
  by rewrite not_elem_of_cons.
Qed.

(** Invalidating a range of pages never loses data: it is refused with
    [EBUSY] when one of the pages is dirty, and otherwise drops exactly the
    pages of the range, which readers do not notice. *)
Lemma invalidate_range_spec c ob s e : cache_ok c ob -> 0 <= s ->
  let '(c', r) := invalidate_range c s e in
  cache_ok c' ob /\ (forall k, 0 <= k -> byte_at c' ob k = byte_at c ob k) /\
  match r with
  | Err er => er = EBUSY /\ (exists i, s <= i < e /\ dirty_before c i = true)
  | Ok _ => forall j, 0 <= j -> get_entry c' j = if decide (s <= j < e) then None else get_entry c j
  end.
Proof.
  intros Hc Hs. unfold invalidate_range. pose proof (bump_ok c ob Hc) as Hb.
  destruct (existsb _ _) eqn:Ex.
  - split; [done|]. split; [done|]. split; [done|]. apply existsb_exists in Ex as (i & Hi & Hd).
    apply list_elem_of_In, elem_of_seqZ in Hi. exists i. split; [lia|done].
  - set (idxs := seqZ s _). destruct (fold_take_ok ob idxs (bump_generation c) Hb) as (R1 & R2 & R3).
    { apply Forall_forall. intros i Hi%elem_of_seqZ. lia. }
    { intros i Hi%elem_of_seqZ. destruct (dirty_before (bump_generation c) i) eqn:Ed; [|done].
      rewrite <- Ex. symmetry. apply existsb_exists. exists i. split; [|exact Ed]. apply list_elem_of_In, elem_of_seqZ. lia. }
    split; [done|]. split; [by apply page_views_bytes|]. intros j Hj. rewrite R3 by done.
    change (get_entry (bump_generation c) j) with (get_entry c j).
    destruct (decide (s <= j < e)) as [Hin|Hin].
    + destruct (decide (j ∈ idxs)) as [|Hn]; [done|]. unfold idxs in Hn. rewrite elem_of_seqZ in Hn. unfold get_entry.
      simpl in Hn. rewrite lookup_ge_None_2 by lia. done.
    + rewrite decide_False; [done|]. unfold idxs. rewrite elem_of_seqZ. lia.
Qed.

(** ** Eviction *)

Lemma unreferenced_flags f : unused f ->
  unused (Z.ldiff f PG_REFERENCED) /\ test_flag (Z.ldiff f PG_REFERENCED) PG_DIRTY = test_flag f PG_DIRTY.
Proof. intros H. unused_bytes f H. Qed.

Lemma clear_referenced_ok c ob i e : cache_ok c ob -> 0 <= i -> get_entry c i = Some e ->
  cache_ok (upd_entry c i clear_referenced) ob /\
  (forall j, 0 <= j -> page_view (upd_entry c i clear_referenced) ob j = page_view c ob j).
Proof.
  intros Hc Hi He. pose proof (ok_quiet _ _ Hc i e Hi He) as Q. apply quiet_unused in Q as (Q1 & Q2 & Q3).
  destruct (unreferenced_flags _ Q3) as [U1 U2]. eapply touch_ok; [done|done|exact He| |exact U2].
  by apply quiet_unused.
Qed.

Definition live (c : PageCache) : Z := count (fun _ => true) c.

Lemma live_upd c i e g : get_entry c i = Some e -> live (upd_entry c i g) = live c.
Proof. intros He. unfold live. rewrite (count_upd _ _ _ _ _ He). simpl. lia. Qed.

Lemma upd_length c i g : length (entries (upd_entry c i g)) = length (entries c).
Proof. unfold upd_entry. simpl. apply length_alter. Qed.

Lemma clock_sweep_ok held target scan : forall c ob hand evicted c' hand' evicted', cache_ok c ob ->
  0 <= hand < Z.of_nat (length (entries c)) -> evicted <= target ->
  clock_sweep scan c held hand target evicted = (c', hand', evicted') ->
  cache_ok c' ob /\ (forall j, 0 <= j -> page_view c' ob j = page_view c ob j) /\
  evicted <= evicted' <= target /\ live c' = live c - (evicted' - evicted) /\
  0 <= hand' < Z.of_nat (length (entries c')).
Proof.
  induction scan as [|scan IH]; intros c ob hand evicted c' hand' evicted' Hc Hh He; cbn [clock_sweep].
  { intros [= <- <- <-]. split_and!; try done; lia. }
  destruct (Z.leb_spec target evicted) as [Ht|Ht]; [intros [= <- <- <-]; split_and!; try done; lia|].
  assert (Hh' : 0 <= (hand + 1) mod Z.of_nat (length (entries c)) < Z.of_nat (length (entries c)))
    by (apply Z.mod_pos_bound; lia).
  destruct (get_entry c hand) as [e|] eqn:Eh; [|intros Hr; by apply (IH _ ob) in Hr].
  pose proof (ok_quiet _ _ Hc hand e (proj1 Hh) Eh) as Q. rewrite (quiet_decode e Q).
  destruct (negb _ || held hand) eqn:Eb; [intros Hr; by apply (IH _ ob) in Hr|].
  apply orb_false_iff in Eb as [Eb%negb_false_iff%bool_decide_eq_true _].
  destruct (test_flag (e_flags e) PG_REFERENCED).
  - destruct (clear_referenced_ok c ob hand e Hc (proj1 Hh) Eh) as [U1 U2]. intros Hr.
    apply (IH _ ob) in Hr as (R1 & R2 & R3 & R4 & R5); [|done|by rewrite upd_length|done].
    split_and!; try done; try lia; [|by rewrite (live_upd c hand e) in R4].
    intros j Hj. rewrite R2 by done. by apply U2.
  - assert (Hd : dirty_before c hand = false).
    { unfold dirty_before. rewrite Eh. by destruct (e_dirty e). }
    destruct (take_ok c ob hand Hc (proj1 Hh) Hd) as (T1 & T2 & _). intros Hr.
    apply (IH _ ob) in Hr as (R1 & R2 & R3 & R4 & R5); [|done|by rewrite take_length|lia].
    split_and!; try done; try lia.
    + intros j Hj. rewrite R2 by done. by apply T2.
    + unfold live in *. rewrite take_count, Eh in R4. simpl in R4. lia.
Qed.

Lemma drop_holes_lookup l (n : nat) : mjoin (drop_holes l !! n) = mjoin (l !! n).
Proof.
  revert n. induction l as [|o l IH]; intros n; [done|]. cbn [drop_holes].
  destruct o as [e|]; [destruct n; [done|apply IH]|]. destruct (drop_holes l) as [|o' l'] eqn:E.
  - destruct n as [|n]; [done|]. simpl. by rewrite <- IH.
  - destruct n as [|n]; [done|]. apply IH.
Qed.

Lemma drop_holes_count P l :
  foldr (fun o m => opt_count P o + m) 0 (drop_holes l) = foldr (fun o m => opt_count P o + m) 0 l.
Proof.
  induction l as [|o l IH]; [done|]. cbn [drop_holes]. destruct o as [e|]; simpl; [by rewrite IH|].
  rewrite <- IH. by destruct (drop_holes l).
Qed.

(** Eviction is invisible to readers: at most [target] pages go, exactly the
    number reported, none of them dirty, and the cache stays consistent.  A cache
    marked unevictable loses nothing. *)
Lemma evict_spec c ob held target : cache_ok c ob -> 0 <= target ->
  let '(c', n) := evict_clean_pages_clock c held target in
  cache_ok c' ob /\ (forall k, 0 <= k -> byte_at c' ob k = byte_at c ob k) /\
  0 <= n <= target /\ live c' = live c - n /\ (unevictable c = true -> c' = c /\ n = 0).
Proof.
  intros Hc Ht. unfold evict_clean_pages_clock. destruct (unevictable c) eqn:Eu; [split_and!; try done; lia|].
  destruct (Z.eqb_spec (Z.of_nat (length (entries c))) 0) as [|Hl]; [split_and!; try done; lia|].
  destruct (clock_sweep _ c held _ target 0) as [[c1 hand] n] eqn:Es.
  apply (clock_sweep_ok _ _ _ _ ob) in Es as (R1 & R2 & R3 & R4 & R5); [|done|apply Z.mod_pos_bound; lia|done].
  set (c2 := mkPC _ _ _ _ _ _ _).
  assert (G : forall j, get_entry c2 j = get_entry c1 j) by (intros j; unfold get_entry, c2; simpl; apply drop_holes_lookup).
  assert (Ct : forall P, count P c2 = count P c1) by (intros P; unfold count, c2; simpl; apply drop_holes_count).
  split; [|split; [|split_and!; try done; try lia]].
  - destruct R1 as [K1 K2 K3 K4 K5]. split; try done; try (intros j; rewrite G; apply K1 || apply K2 || apply K3).
    by rewrite Ct.
  - apply page_views_bytes. intros j Hj. unfold page_view. rewrite G. by apply R2.
  - unfold live in *. rewrite Ct. lia.
Qed.

(** ** Truncation *)

(** Dropping pages, dirty or not: exactly these go, and the dirty count follows. *)
Lemma fold_discard idxs : forall c, Forall (fun i => 0 <= i) idxs ->
  (forall i e, 0 <= i -> get_entry c i = Some e -> quiet e) ->
  let c' := foldl discard_entry c idxs in
  (forall j, 0 <= j -> get_entry c' j = if decide (j ∈ idxs) then None else get_entry c j) /\
  (index_ok c -> index_ok c') /\ n_wb c' = n_wb c /\ n_dirty c' - count e_dirty c' = n_dirty c - count e_dirty c.
Proof.
  induction idxs as [|i idxs IH]; intros c Hp Hq; cbn [foldl]; [by split_and!|].
  apply Forall_cons in Hp as [Hi Hp].
  assert (D : (forall j, 0 <= j -> get_entry (discard_entry c i) j = get_entry (take_entry c i) j) /\
    pages (discard_entry c i) = pages (take_entry c i) /\ n_wb (discard_entry c i) = n_wb c /\
    n_dirty (discard_entry c i) - count e_dirty (discard_entry c i) = n_dirty c - count e_dirty c).
  { destruct (take_frame c i) as [F1 F2]. pose proof (take_count e_dirty c i) as F3. unfold discard_entry.
    destruct (get_entry c i) as [e|] eqn:E; [|unfold take_entry; rewrite E; by split_and!].
    rewrite (quiet_decode e (Hq i e Hi E)). simpl in F3.
    destruct (e_dirty e); case_bool_decide; try done; simpl in *; split_and!; try done; try lia.
    change (count e_dirty (add_dirty (take_entry c i) (-1))) with (count e_dirty (take_entry c i)). lia. }
  destruct D as (D1 & D2 & D3 & D4). destruct (IH (discard_entry c i) Hp) as (R1 & R2 & R3 & R4).
  { intros j e Hj. rewrite D1, get_take by done. case_decide; [done|]. by apply Hq. }
  split_and!; [| |congruence|lia].
  - intros j Hj. rewrite R1, D1, get_take by done. destruct (decide (j ∈ idxs)); [by rewrite decide_True by (by right)|].
    destruct (decide (j = i)) as [->|]; [by rewrite decide_True by left|]. rewrite decide_False; [done|].
    by rewrite not_elem_of_cons.
  - intros Hx. apply R2. intros j Hj. rewrite D1, D2 by done. by apply (take_index c i Hi Hx).
Qed.

(** What truncating the file to [size] does to the backend. *)
Definition truncated (b b' : B) (size : Z) : Prop :=
  forall i k, 0 <= i -> 0 <= k < PAGE_SIZE ->
    contents b' i !! Z.to_nat k = if decide (i * PAGE_SIZE + k < size) then contents b i !! Z.to_nat k else Some 0.

Definition zero_tail (n : nat) (d : list Z) : list Z := take n d ++ replicate (length d - n) 0.

Lemma zero_tail_lookup n d (k : nat) : (n <= length d)%nat -> (k < length d)%nat ->
  zero_tail n d !! k = if decide (k < n)%nat then d !! k else Some 0.
Proof.
  intros Hn Hk. unfold zero_tail. assert (Ht : length (take n d) = n) by (rewrite length_take; lia). case_decide.
  - rewrite lookup_app_l by lia. by rewrite lookup_take_lt.
  - rewrite lookup_app_r, Ht by lia. apply lookup_replicate_2. lia.
Qed.

Lemma zero_tail_length n d : (n <= length d)%nat -> length (zero_tail n d) = length d.
Proof. intros H. unfold zero_tail. rewrite length_app, length_take, length_replicate. lia. Qed.

Section truncate.
Variables (c : PageCache) (b b' : B) (size : Z).
Hypothesis Hc : cache_ok c (Some b).
Hypothesis Hs : 0 <= size.
Hypothesis Ht : truncated b b' size.

Local Abbreviation hole := ((size + (PAGE_SIZE - 1)) / PAGE_SIZE).
Local Abbreviation off := (Z.land size (PAGE_SIZE - 1)).

Lemma off_mod : off = size mod PAGE_SIZE.
Proof. change (PAGE_SIZE - 1) with (Z.ones 12). by rewrite Z.land_ones. Qed.

(** The cache after the discarded pages are gone and the last page is cleared. *)
Definition cut : PageCache :=
  let c1 := foldl discard_entry (bump_generation c) (seqZ hole (Z.of_nat (length (entries (bump_generation c))) - hole)) in
  if off =? 0 then c1
  else upd_entry c1 (size / PAGE_SIZE)
         (fun e => mkEntry (zero_tail (Z.to_nat off) (e_data e)) (e_flags e) (e_mask e) (e_maps e)).

Lemma cut_entry j : 0 <= j -> get_entry cut j =
  if decide (hole <= j) then None
  else match get_entry c j with
       | None => None
       | Some e => if decide (j = size / PAGE_SIZE) then
           Some (mkEntry (zero_tail (Z.to_nat off) (e_data e)) (e_flags e) (e_mask e) (e_maps e))
         else Some e
       end.
Proof.
  intros Hj. unfold cut. set (c1 := foldl _ _ _).
  destruct (fold_discard (seqZ hole (Z.of_nat (length (entries (bump_generation c))) - hole)) (bump_generation c)) as (G & _).
  { apply Forall_forall. intros i Hi%elem_of_seqZ. assert (0 <= hole) by (apply Z.div_pos; unfold PAGE_SIZE; lia). lia. }
  { intros i e Hi. apply (ok_quiet _ _ (bump_ok c _ Hc) i e Hi). }
  fold c1 in G. assert (G' : forall j, 0 <= j -> get_entry c1 j = if decide (hole <= j) then None else get_entry c j).
  { intros i Hi. rewrite G by done. change (get_entry (bump_generation c) i) with (get_entry c i).
    destruct (decide (hole <= i)) as [Hh|Hh]; case_decide as Hin; try done; rewrite elem_of_seqZ in Hin.
    - unfold get_entry. rewrite lookup_ge_None_2; [done|]. simpl in Hin. lia.
    - lia. }
  assert (Hz : 0 <= size / PAGE_SIZE) by (apply Z.div_pos; done).
  pose proof off_mod as Ho. destruct (Z.eqb_spec off 0) as [E|E].
  - rewrite G' by done. case_decide; [done|]. destruct (get_entry c j); [|done].
    rewrite decide_False; [done|]. rewrite E in Ho. unfold PAGE_SIZE in *. div_lia.
  - rewrite get_upd by done. destruct (decide (j = size / PAGE_SIZE)) as [->|]; rewrite G' by done; case_decide; try done;
      by destruct (get_entry c _).
Qed.

(** A page below the new end of file is unchanged on the backend, and the last
    one has its tail cleared. *)
Lemma truncated_whole j : 0 <= j -> j < hole -> j <> size / PAGE_SIZE -> contents b' j = contents b j.
Proof.
  intros Hj Hh Hn. apply page_ext; [apply contents_length|apply contents_length|]. intros k Hk.
  rewrite Ht by done. rewrite decide_True; [done|]. unfold PAGE_SIZE in *. div_lia.
Qed.

Lemma truncated_last j : 0 <= j -> j < hole -> j = size / PAGE_SIZE ->
  contents b' j = zero_tail (Z.to_nat off) (contents b j).
Proof.
  intros Hj Hh ->. pose proof page_bytes_Z as Hpb. pose proof (contents_length b (size / PAGE_SIZE)) as Hl.
  pose proof off_mod as Ho. assert (Hm : 0 <= size mod PAGE_SIZE < PAGE_SIZE) by (apply Z.mod_pos_bound; done).
  apply page_ext; [apply contents_length|rewrite zero_tail_length by lia; done|]. intros k Hk.
  rewrite Ht, zero_tail_lookup by (done || lia). unfold PAGE_SIZE in *.
  destruct (decide (size `div` 4096 * 4096 + k < size)); [rewrite decide_True by div_lia; done|].
  rewrite decide_False by div_lia. done.
Qed.

Lemma cut_counts : index_ok cut /\ n_wb cut = n_wb c /\ n_dirty cut = count e_dirty cut.
Proof.
  destruct (fold_discard (seqZ hole (Z.of_nat (length (entries (bump_generation c))) - hole)) (bump_generation c))
    as (_ & X & W & D).
  { apply Forall_forall. intros i Hi%elem_of_seqZ. assert (0 <= hole) by (apply Z.div_pos; unfold PAGE_SIZE; lia). lia. }
  { intros i e Hi. apply (ok_quiet _ _ (bump_ok c _ Hc) i e Hi). }
  pose proof (ok_pages _ _ (bump_ok c _ Hc)) as Hx. pose proof (ok_dirty _ _ (bump_ok c _ Hc)) as Hd.
  unfold cut. set (c1 := foldl _ _ _) in *. destruct (off =? 0).
  { split; [by apply X|]. split; [done|]. lia. }
  assert (Hz : 0 <= size / PAGE_SIZE) by (apply Z.div_pos; done).
  destruct (get_entry c1 (size / PAGE_SIZE)) as [e|] eqn:E.
  - destruct (touched_upd c1 (size / PAGE_SIZE) e
      (fun e => mkEntry (zero_tail (Z.to_nat off) (e_data e)) (e_flags e) (e_mask e) (e_maps e)) Hz E eq_refl)
      as [T1 T2 T3 T4 T5]. split; [by apply T2, X|]. split; [by rewrite T5|]. rewrite T4, T3. lia.
  - assert (Eq : forall g, upd_entry c1 (size / PAGE_SIZE) g = c1).
    { intros g. unfold upd_entry, with_entries. destruct c1 as [l ? ? ? ? ? ?]. unfold get_entry in E. simpl in *. f_equal.
      apply list_eq. intros n. destruct (decide (n = Z.to_nat (size / PAGE_SIZE))) as [->|Hne].
      - rewrite list_lookup_alter_eq. by destruct (l !! Z.to_nat (size / PAGE_SIZE)) as [[]|].
      - by rewrite list_lookup_alter_ne. }
    rewrite Eq. split; [by apply X|]. split; [done|]. lia.
Qed.

Lemma cut_ok : cache_ok cut (Some b').
Proof.
  destruct cut_counts as (X & W & D). pose proof page_bytes_Z as Hpb. pose proof off_mod as Ho.
  assert (Hm : 0 <= size mod PAGE_SIZE < PAGE_SIZE) by (apply Z.mod_pos_bound; done).
  split; [| |exact X|exact D|rewrite W; apply Hc].
  - intros j e Hj. rewrite cut_entry by done. case_decide; [done|]. destruct (get_entry c j) as [e0|] eqn:E; [|done].
    pose proof (ok_quiet _ _ Hc j e0 Hj E) as Q. case_decide; intros [= <-]; [|done].
    destruct Q as (Q1 & Q2). split; [simpl; rewrite zero_tail_length by lia; done|done].
  - intros j e Hj. rewrite cut_entry by done. case_decide as Hh; [done|].
    destruct (get_entry c j) as [e0|] eqn:E; [|done]. case_decide as Hd; intros [= <-] Hcl; simpl.
    + rewrite (truncated_last j) by (done || lia). f_equal. by apply (ok_clean _ _ Hc j).
    + rewrite (truncated_whole j) by (done || lia). by apply (ok_clean _ _ Hc j).
Qed.

Lemma cut_bytes k : 0 <= k -> byte_at cut (Some b') k = if decide (k < size) then byte_at c (Some b) k else Some 0.
Proof.
  intros Hk. unfold byte_at, page_view. set (j := k / PAGE_SIZE). assert (Hj : 0 <= j) by (apply Z.div_pos; done).
  assert (Hm : 0 <= k mod PAGE_SIZE < PAGE_SIZE) by (apply Z.mod_pos_bound; done).
  assert (Hkj : k = j * PAGE_SIZE + k mod PAGE_SIZE) by (unfold j, PAGE_SIZE; div_lia).
  rewrite cut_entry by done. pose proof page_bytes_Z as Hpb. pose proof off_mod as Ho.
  assert (Hms : 0 <= size mod PAGE_SIZE < PAGE_SIZE) by (apply Z.mod_pos_bound; done).
  assert (Hc' : forall d, contents b' j !! Z.to_nat (k mod PAGE_SIZE) = d ->
    d = if decide (k < size) then contents b j !! Z.to_nat (k mod PAGE_SIZE) else Some 0).
  { intros d <-. rewrite Ht by done. rewrite <- Hkj. done. }
  destruct (decide (hole <= j)) as [Hh|Hh]; simpl.
  - rewrite (Hc' _ eq_refl). rewrite !decide_False; [done| |]; unfold j, PAGE_SIZE in *; div_lia.
  - destruct (get_entry c j) as [e|] eqn:E; [|by rewrite (Hc' _ eq_refl)].
    destruct (ok_quiet _ _ Hc j e Hj E) as (Q1 & _). destruct (decide (j = size / PAGE_SIZE)) as [Ej|Ej]; simpl.
    + rewrite zero_tail_lookup by lia. unfold j, PAGE_SIZE in *.
      destruct (decide (k < size)); [rewrite decide_True by div_lia; done|]. rewrite decide_False by div_lia. done.
    + rewrite decide_True; [done|]. unfold j, PAGE_SIZE in *. div_lia.
Qed.

End truncate.

(** Truncation.  The file as readers see it is cut (or padded with zeros)
    at the new size, in the cache and on the backend at once; when the backend
    refuses, nothing changes. *)
Lemma truncate_backend_spec c b size persistent c' b' r : cache_ok c (Some b) -> 0 <= size ->
  truncate_with_backend_locked c b size persistent = (c', b', r) ->
  (forall b1, persistent b = (b1, Ok ()) -> truncated b b1 size) ->
  (forall b1 e, persistent b = (b1, Err e) -> b1 = b) ->
  cache_ok c' (Some b') /\ forall k, 0 <= k -> byte_at c' (Some b') k =
    match r with
    | Ok () => if decide (k < size) then byte_at c (Some b) k else Some 0
    | Err _ => byte_at c (Some b) k
    end.
Proof.
  intros Hc Hs. unfold truncate_with_backend_locked. destruct (persistent b) as [b1 [[]|e]] eqn:Ep; intros [= <- <- <-] H1 H2.
  - specialize (H1 b1 eq_refl). split; [by apply (cut_ok c b b1 size)|by apply (cut_bytes c b b1 size)].
  - rewrite (H2 b1 e eq_refl) in *. split; [by apply bump_ok|done].
Qed.

End drop.
