(* ===== verification/BlockBackend.v ===== *)
(** The block-device backend of the page cache ([BlockPageCacheBackend] in
    [os/src/fs/page_cache.rs]) with its default block mapping, as an instance of
    the backend interface.

    A block device is its blocks' bytes; [read_block] and [write_block] of the
    device driver move whole blocks.  Page indexes are below [2 ^ 52], so the
    block numbers do not wrap. *)

From stdpp Require Import base numbers option list.
From S2P Require Import Prelude Addr PageCache PageCacheWrite PageCacheFile.

Section block.
Context (block_size : Z).

Definition blocks_per_page : Z := PAGE_SIZE / block_size.

Record BlockPageCacheBackend := mkBlock {
  block_device : Z -> Z -> Z;
  total_blocks : Z;
}.

Definition page_to_block (b : BlockPageCacheBackend) (page_index block_offset : Z) : option Z :=
  let block_id := page_index * blocks_per_page + block_offset in
  if block_id <? total_blocks b then Some block_id else None.

Definition block_read_loop (b : BlockPageCacheBackend) (index : Z) : list Z -> list Z -> result (list Z) SyscallErr :=
  fix go offs buf :=
    match offs with
    | [] => Ok buf
    | block_off :: offs =>
        match page_to_block b index block_off with
        | None => Err EINVAL
        | Some block_id =>
            go offs (splice buf (Z.to_nat (block_off * block_size)) (block_device b block_id <$> seqZ 0 block_size))
        end
    end.

Definition block_read_page (b : BlockPageCacheBackend) (index : Z) (buf : list Z) : result (list Z) SyscallErr :=
  if Z.of_nat (length buf) <? PAGE_SIZE then Err ENOBUFS
  else block_read_loop b index (seqZ 0 blocks_per_page) buf.

(** [write_block(block_id, &buf[start..start + block_size])] *)
Definition write_block (dev : Z -> Z -> Z) (block_id start : Z) (buf : list Z) : Z -> Z -> Z :=
  fun id k => if id =? block_id then default 0 (buf !! Z.to_nat (start + k)) else dev id k.

Fixpoint block_write_loop (b : BlockPageCacheBackend) (index : Z) (offs buf : list Z)
    : BlockPageCacheBackend * result Z SyscallErr :=
  match offs with
  | [] => (b, Ok PAGE_SIZE)
  | block_off :: offs =>
      match page_to_block b index block_off with
      | None => (b, Err EINVAL)
      | Some block_id =>
          block_write_loop (mkBlock (write_block (block_device b) block_id (block_off * block_size) buf) (total_blocks b))
            index offs buf
      end
  end.

Definition block_write_page (b : BlockPageCacheBackend) (index : Z) (buf : list Z)
    : BlockPageCacheBackend * result Z SyscallErr :=
  if Z.of_nat (length buf) <? PAGE_SIZE then (b, Err ENOBUFS)
  else block_write_loop b index (seqZ 0 blocks_per_page) buf.

Definition block_npages (b : BlockPageCacheBackend) : Z := (total_blocks b + blocks_per_page - 1) / blocks_per_page.

#[local] Instance block_backend : Backend BlockPageCacheBackend := {
  read_page := block_read_page;
  write_page := block_write_page;
  npages := block_npages;
}.

(** ** The laws *)

Definition block_byte (b : BlockPageCacheBackend) (i k : Z) : Z :=
  block_device b (i * blocks_per_page + k / block_size) (k mod block_size).

(** A page that has not all of its blocks can be neither read nor written. *)
Definition block_contents (b : BlockPageCacheBackend) (i : Z) : list Z :=
  if i * blocks_per_page + blocks_per_page <=? total_blocks b then block_byte b i <$> seqZ 0 PAGE_SIZE else zero_page.

Hypothesis block_size_ok : 0 < block_size /\ (block_size | PAGE_SIZE).

Lemma blocks_cover : 0 < blocks_per_page /\ blocks_per_page * block_size = PAGE_SIZE.
Proof.
  destruct block_size_ok as [H0 [q Hq]]. unfold blocks_per_page. rewrite Hq, Z.div_mul by lia.
  assert (0 < PAGE_SIZE) by done. nia.
Qed.

Lemma block_contents_length b i : length (block_contents b i) = page_bytes.
Proof.
  unfold block_contents. case_match; [|apply zero_page_length]. rewrite length_fmap, length_seqZ.
  pose proof page_bytes_Z. lia.
Qed.

Lemma block_contents_lookup b i k : i * blocks_per_page + blocks_per_page <= total_blocks b -> 0 <= k < PAGE_SIZE ->
  block_contents b i !! Z.to_nat k = Some (block_byte b i k).
Proof.
  intros Ht Hk. unfold block_contents. rewrite (proj2 (Z.leb_le _ _) Ht), list_lookup_fmap, lookup_seqZ_lt by lia.
  simpl. do 2 f_equal. lia.
Qed.

Lemma block_contents_beyond b i : block_npages b <= i -> block_contents b i = zero_page.
Proof.
  destruct blocks_cover as [H0 H1]. unfold block_npages, block_contents. intros H.
  destruct (Z.leb_spec (i * blocks_per_page + blocks_per_page) (total_blocks b)) as [Hl|]; [|done].
  exfalso. assert (i + 1 <= (total_blocks b + blocks_per_page - 1) / blocks_per_page); [|lia].
  apply Z.div_le_lower_bound; lia.
Qed.

(** The state of the buffer after [n] blocks. *)
Lemma block_read_loop_spec b i n j buf buf' : 0 <= j -> j + Z.of_nat n = blocks_per_page -> length buf = page_bytes ->
  block_read_loop b i (seqZ j (Z.of_nat n)) buf = Ok buf' ->
  (n = 0%nat \/ i * blocks_per_page + blocks_per_page <= total_blocks b) /\ length buf' = page_bytes /\
  forall k, 0 <= k < PAGE_SIZE ->
    buf' !! Z.to_nat k = if decide (j * block_size <= k) then Some (block_byte b i k) else buf !! Z.to_nat k.
Proof.
  destruct blocks_cover as [C0 C1]. destruct block_size_ok as [S0 _]. pose proof page_bytes_Z as Hpb.
  revert j buf. induction n as [|n IH]; intros j buf Hj Hn Hl.
  { simpl. intros [= <-]. split_and!; [by left|done|]. intros k Hk. rewrite decide_False; [done|]. nia. }
  rewrite seqZ_cons by lia. cbn [block_read_loop]. unfold page_to_block.
  destruct (Z.ltb_spec (i * blocks_per_page + j) (total_blocks b)) as [Ht|]; [|done].
  replace (Z.pred (Z.of_nat (S n))) with (Z.of_nat n) by lia. replace (Z.succ j) with (j + 1) by lia.
  set (src := block_device b (i * blocks_per_page + j) <$> seqZ 0 block_size).
  assert (Hs : Z.of_nat (length src) = block_size) by (unfold src; rewrite length_fmap, length_seqZ; lia).
  assert (Hsp : (Z.to_nat (j * block_size) + length src <= length buf)%nat) by nia.
  intros Hr. apply IH in Hr; [|lia|lia|by rewrite splice_length]. destruct Hr as (R1 & R2 & R3). split_and!; [right|done|].
  { destruct R1 as [->|]; [lia|done]. }
  intros k Hk. rewrite R3 by done. rewrite splice_lookup by done.
  destruct (decide ((j + 1) * block_size <= k)); [rewrite decide_True by nia; done|].
  destruct (decide (j * block_size <= k)) as [Hjk|Hjk].
  - rewrite decide_True by nia. unfold src, block_byte. rewrite list_lookup_fmap, lookup_seqZ_lt by nia. simpl. f_equal.
    assert (Ek : k / block_size = j) by (symmetry; apply (Z.div_unique_pos _ _ _ (k - j * block_size)); nia).
    rewrite Z.mod_eq, Ek by lia. f_equal. lia.
  - rewrite decide_False by nia. done.
Qed.

Lemma block_write_loop_spec b i n j buf b' r : 0 <= j -> j + Z.of_nat n = blocks_per_page ->
  block_write_loop b i (seqZ j (Z.of_nat n)) buf = (b', r) ->
  total_blocks b' = total_blocks b /\
  (forall id k, id < i * blocks_per_page + j \/ i * blocks_per_page + blocks_per_page <= id ->
     block_device b' id k = block_device b id k) /\
  (forall m, r = Ok m -> (n = 0%nat \/ i * blocks_per_page + blocks_per_page <= total_blocks b) /\
     forall k, j * block_size <= k < PAGE_SIZE -> block_byte b' i k = default 0 (buf !! Z.to_nat k)).
Proof.
  destruct blocks_cover as [C0 C1]. destruct block_size_ok as [S0 _].
  revert b j. induction n as [|n IH]; intros b j Hj Hn.
  { simpl. intros [= <- <-]. split_and!; [done|done|]. intros m _. split; [by left|]. intros k Hk. nia. }
  rewrite seqZ_cons by lia. cbn [block_write_loop]. unfold page_to_block.
  destruct (Z.ltb_spec (i * blocks_per_page + j) (total_blocks b)) as [Ht|]; [|by intros [= <- <-]].
  replace (Z.pred (Z.of_nat (S n))) with (Z.of_nat n) by lia. replace (Z.succ j) with (j + 1) by lia.
  intros Hr. apply IH in Hr as (R1 & R2 & R3); [|lia|lia]. simpl in *. split_and!; [done| |].
  - intros id k Hid. rewrite R2 by lia. unfold write_block. destruct (Z.eqb_spec id (i * blocks_per_page + j)); [lia|done].
  - intros m Hm. destruct (R3 m Hm) as [R4 R5]. split; [right; destruct R4 as [->|]; [lia|done]|].
    intros k Hk. destruct (decide ((j + 1) * block_size <= k)); [apply R5; lia|].
    assert (Ek : k / block_size = j) by (symmetry; apply (Z.div_unique_pos _ _ _ (k - j * block_size)); nia).
    unfold block_byte. rewrite Ek, R2 by lia. unfold write_block. rewrite Z.eqb_refl.
    rewrite Z.mod_eq, Ek by lia. do 3 f_equal. lia.
Qed.

Lemma block_other_page b b' i j : total_blocks b' = total_blocks b -> j <> i ->
  (forall id k, id < i * blocks_per_page \/ i * blocks_per_page + blocks_per_page <= id ->
     block_device b' id k = block_device b id k) -> block_contents b' j = block_contents b j.
Proof.
  destruct blocks_cover as [C0 C1]. destruct block_size_ok as [S0 _]. intros Ht Hj Hd. unfold block_contents.
  rewrite Ht. case_match; [|done]. apply list_fmap_ext. intros n k Hk. apply list_elem_of_lookup_2, elem_of_seqZ in Hk.
  unfold block_byte. apply Hd.
  assert (0 <= k / block_size < blocks_per_page) by (split; [apply Z.div_pos; lia|apply Z.div_lt_upper_bound; lia]). nia.
Qed.

(** The backend keeps the interface's promises for every block size that
    divides the page size. *)
#[local] Instance block_backend_laws : BackendLaws BlockPageCacheBackend.
Proof.
  refine {| contents := block_contents |}.
  - exact block_contents_length.
  - exact block_contents_beyond.
  - destruct blocks_cover as [C0 C1]. intros b i buf buf' Hl. cbn [read_page block_backend]. unfold block_read_page. case_match; [done|]. intros Hr.
    rewrite <- (Z2Nat.id blocks_per_page) in Hr by lia.
    apply block_read_loop_spec in Hr as (R1 & R2 & R3); [|done|lia|done].
    apply page_ext; [done|apply block_contents_length|]. intros k Hk. rewrite R3, decide_True by lia.
    rewrite block_contents_lookup; [done| |done]. destruct R1; lia.
  - destruct blocks_cover as [C0 C1]. intros b i buf b' n Hl. cbn [write_page block_backend]. unfold block_write_page. case_match; [done|]. intros Hw j.
    rewrite <- (Z2Nat.id blocks_per_page) in Hw by lia.
    apply block_write_loop_spec in Hw as (R1 & R2 & R3); [|done|lia]. case_decide as Hj.
    + subst j. destruct (R3 n eq_refl) as [R4 R5]. apply page_ext; [apply block_contents_length|done|].
      intros k Hk. pose proof page_bytes_Z. rewrite block_contents_lookup, R5 by (destruct R4; lia).
      destruct (lookup_lt_is_Some_2 buf (Z.to_nat k)) as [x Hx]; [lia|]. by rewrite Hx.
    + apply (block_other_page b b' i); [done|done|]. intros. apply R2. lia.
  - destruct blocks_cover as [C0 C1]. intros b i buf b' e. cbn [write_page block_backend]. unfold block_write_page. case_match; [by intros [= <- _]|].
    intros Hw j Hj. rewrite <- (Z2Nat.id blocks_per_page) in Hw by lia.
    apply block_write_loop_spec in Hw as (R1 & R2 & R3); [|done|lia].
    apply (block_other_page b b' i); [done|done|]. intros. apply R2. lia.
Defined.

Lemma block_read_total b i offs buf : Forall (fun o => i * blocks_per_page + o < total_blocks b) offs ->
  exists buf', block_read_loop b i offs buf = Ok buf'.
Proof.
  intros Hf. revert buf. induction Hf as [|o offs Ho Hf IH]; intros buf; [by eexists|].
  cbn [block_read_loop]. unfold page_to_block. rewrite (proj2 (Z.ltb_lt _ _) Ho). apply IH.
Qed.

(** A page written to the device is read back as it was written, for every
    block size that divides the page size. *)
Theorem block_backend_roundtrip b i buf b' n buf0 : length buf = page_bytes -> length buf0 = page_bytes ->
  block_write_page b i buf = (b', Ok n) -> block_read_page b' i buf0 = Ok buf.
Proof.
  intros Hl Hl0 Hw. destruct blocks_cover as [C0 C1]. pose proof page_bytes_Z as Hpb.
  pose proof (write_page_ok (BackendLaws := block_backend_laws) b i buf b' n Hl Hw i) as Hc.
  rewrite decide_True in Hc by done.
  assert (Hr : exists buf', block_read_page b' i buf0 = Ok buf').
  { unfold block_read_page, block_write_page in *. destruct (Z.ltb_spec (Z.of_nat (length buf0)) PAGE_SIZE); [lia|].
    destruct (Z.ltb_spec (Z.of_nat (length buf)) PAGE_SIZE); [done|].
    rewrite <- (Z2Nat.id blocks_per_page) in Hw by lia.
    apply block_write_loop_spec in Hw as (R1 & _ & R3); [|done|lia]. destruct (R3 n eq_refl) as [R4 _].
    apply block_read_total, Forall_forall. intros o Ho%elem_of_seqZ. rewrite R1. destruct R4; lia. }
  destruct Hr as [buf' Hr]. rewrite Hr. f_equal. rewrite <- Hc.
  exact (read_page_ok (BackendLaws := block_backend_laws) b' i buf0 buf' Hl0 Hr).
Qed.

End block.

(** A device of 16 sectors of 512 bytes, two pages. *)
Definition demo_device : BlockPageCacheBackend := mkBlock (fun id k => id) 16.

Lemma block_backend_roundtrip_witness :
  block_read_page 512 (fst (block_write_page 512 demo_device 1 (replicate 4096 7))) 1 zero_page = Ok (replicate 4096 7).
Proof.
  apply (block_backend_roundtrip 512 ltac:(split; [done|by exists 8]) demo_device 1 _ _ PAGE_SIZE).
  - vm_compute. reflexivity.
  - apply zero_page_length.
  - rewrite (surjective_pairing (block_write_page 512 demo_device 1 _)) at 1. by f_equal.
Defined.
