(* ===== verification/PageCacheHistory.v ===== *)
(** The page cache as an implementation of a file: whatever sequence of reads,
    writes, write-backs, truncations, evictions and invalidations is run, the
    answers are those of a plain array of bytes.

    The backend of the examples is a device of 512-byte blocks. *)

From stdpp Require Import base numbers option gmap sets list.
From S2P Require Import Prelude Addr PageFlags PageCache PageCacheWrite PageCacheFile.
From S2P Require Import PageCacheRead PageCacheSync PageCacheDrop BlockBackend.

Section history.
Context {B : Type} `{HB : Backend B} `{HL : !BackendLaws B}.

Inductive file_op :=
| FRead (avail staging : Z -> bool) (offset : Z) (buf : list Z)
| FWrite (avail : Z -> bool) (offset : Z) (buf : list Z) (old_size : option Z) (before_copy : Z -> result unit SyscallErr)
| FSync
| FTruncate (size : Z) (persistent : B -> B * result unit SyscallErr)
| FEvict (held : Z -> bool) (target : Z)
| FInvalidate (s e : Z).

Inductive response :=
| RRead (r : result (Z * list Z) SyscallErr)
| RWrite (r : result Z WriteAttemptError)
| RUnit (r : result unit SyscallErr)
| RCount (r : result Z SyscallErr).

(** [None] when write-back waits. *)
Definition run_file_op (c : PageCache) (b : B) (op : file_op) : option (PageCache * B * response) :=
  match op with
  | FRead avail staging offset buf =>
      let '(c, r) := read_kernel c (Some b) avail staging offset buf in Some (c, b, RRead r)
  | FWrite avail offset buf old before =>
      let '(c, r) := write_kernel_body c (Some b) avail offset buf old before in Some (c, b, RWrite r)
  | FSync =>
      match writeback_all 2 c (Some b) with
      | Some (c, Some b, r) => Some (c, b, RUnit r)
      | _ => None
      end
  | FTruncate size persistent =>
      let '(c, b, r) := truncate_with_backend_locked c b size persistent in Some (c, b, RUnit r)
  | FEvict held target => let '(c, n) := evict_clean_pages_clock c held target in Some (c, b, RCount (Ok n))
  | FInvalidate s e => let '(c, r) := invalidate_range c s e in Some (c, b, RCount r)
  end.

Fixpoint run_file_ops (c : PageCache) (b : B) (ops : list file_op) : option (PageCache * B * list response) :=
  match ops with
  | [] => Some (c, b, [])
  | op :: ops =>
      match run_file_op c b op with
      | None => None
      | Some (c, b, x) =>
          match run_file_ops c b ops with
          | None => None
          | Some (c, b, xs) => Some (c, b, x :: xs)
          end
      end
  end.

(** ** The specification: a file is a function from offsets to bytes *)

Definition file := Z -> option Z.

Definition write_file (f : file) (offset : Z) (buf : list Z) : file :=
  fun k => if decide (offset <= k < offset + Z.of_nat (length buf)) then buf !! Z.to_nat (k - offset) else f k.

Definition cut_file (f : file) (size : Z) : file := fun k => if decide (k < size) then f k else Some 0.

(** [file_spec f op x f']: [x] is a correct answer to [op] on [f], and [f'] is the
    file afterwards. *)
Definition file_spec (f : file) (op : file_op) (x : response) (f' : file) : Prop :=
  match op, x with
  | FRead _ _ offset buf, RRead r => f' = f /\ forall n buf', r = Ok (n, buf') ->
      n = Z.of_nat (length buf) /\ length buf' = length buf /\
      forall k, 0 <= k < n -> buf' !! Z.to_nat k = f (offset + k)
  | FWrite _ offset buf _ _, RWrite (Ok n) => n = Z.of_nat (length buf) /\ f' = write_file f offset buf
  | FWrite _ _ _ _ _, RWrite (Err er) => f' = f /\ exists e, er = WError e
  | FSync, RUnit _ => f' = f
  | FTruncate size _, RUnit (Ok ()) => f' = cut_file f size
  | FTruncate _ _, RUnit (Err _) => f' = f
  | FEvict _ target, RCount (Ok n) => f' = f /\ 0 <= n <= target
  | FInvalidate _ _, RCount r => f' = f
  | _, _ => False
  end.

(** Requirements on a call: sane offsets, and for a write that the pages it does
    not read are zero on the backend and that a failure meets no page that is
    both uncached and overwritten entirely. *)
Definition op_ok (c : PageCache) (b : B) (op : file_op) : Prop :=
  match op with
  | FRead _ _ offset buf => 0 <= offset /\ offset + Z.of_nat (length buf) <= i64_max
  | FWrite avail offset buf old before =>
      0 <= offset /\ offset + Z.of_nat (length buf) <= i64_max /\
      write_sound c (Some b) old offset (Z.of_nat (length buf)) /\
      match snd (write_kernel_body c (Some b) avail offset buf old before) with
      | Ok _ => True
      | Err _ => forall i, whole offset (Z.of_nat (length buf)) i -> is_Some (get_entry c i)
      end
  | FSync => True
  | FTruncate size persistent => 0 <= size /\
      (forall b1, persistent b = (b1, Ok ()) -> truncated b b1 size) /\
      (forall b1 e, persistent b = (b1, Err e) -> b1 = b)
  | FEvict _ target => 0 <= target
  | FInvalidate s _ => 0 <= s
  end.

Fixpoint ops_ok (c : PageCache) (b : B) (ops : list file_op) : Prop :=
  match ops with
  | [] => True
  | op :: ops => op_ok c b op /\ match run_file_op c b op with Some (c, b, _) => ops_ok c b ops | None => True end
  end.

Lemma ops_ok_cons c b op ops : op_ok c b op -> (forall c b, ops_ok c b ops) -> ops_ok c b (op :: ops).
Proof. intros Ho Hos. cbn [ops_ok]. split; [done|]. destruct (run_file_op c b op) as [[[c' b'] x]|]; [apply Hos|done]. Qed.

Definition represents (c : PageCache) (b : B) (f : file) : Prop :=
  cache_ok c (Some b) /\ forall k, 0 <= k -> byte_at c (Some b) k = f k.

Lemma file_op_refines c b f op : represents c b f -> op_ok c b op ->
  exists c' b' x f', run_file_op c b op = Some (c', b', x) /\ file_spec f op x f' /\ represents c' b' f'.
Proof.
  intros [Hc Hf]. destruct op as [avail staging offset buf|avail offset buf old before| |size persistent|held target|s e];
    cbn [op_ok run_file_op].
  - intros [Ho Hm]. destruct (read_kernel _ _ _ _ _ _) as [c' r] eqn:Er.
    apply read_kernel_spec in Er as (R1 & R2 & R3 & _); [|done|done|done].
    eexists c', b, _, f. split; [done|]. split; [|split; [done|intros k Hk; rewrite R2; by auto]].
    split; [done|]. intros n buf' E. destruct (R3 n buf' E) as (E1 & E2 & E3). split_and!; [done|done|].
    intros k Hk. rewrite E3 by done. apply Hf. lia.
  - intros (Ho & Hm & Hs & Hr). destruct (write_kernel_body _ _ _ _ _ _ _) as [c' r] eqn:Ew. simpl in Hr.
    apply write_kernel_body_spec in Ew as [W _]; [|done..]. destruct r as [n|[i|er]]; [|done|].
    + destruct W as (-> & W1 & W2). eexists c', b, _, _. split; [done|]. split; [done|]. split; [done|].
      intros k Hk. rewrite W2 by done. unfold write_file. case_decide; [done|by apply Hf].
    + destruct (W Hr) as [W1 W2]. eexists c', b, _, f. split; [done|]. split; [simpl; by eauto|]. split; [done|].
      intros k Hk. rewrite W2 by done. by apply Hf.
  - intros _. destruct (writeback_all_spec c b 2 Hc) as (c' & b' & r & E & W1 & W2 & _); [lia|]. rewrite E.
    eexists c', b', _, f. split; [done|]. split; [done|]. split; [done|]. intros k Hk. rewrite <- Hf by done.
    unfold byte_at. rewrite W2; [done|]. by apply Z.div_pos.
  - intros (Hs & H1 & H2). destruct (truncate_with_backend_locked _ _ _ _) as [[c' b'] r] eqn:Et.
    apply truncate_backend_spec in Et as [T1 T2]; [|done..]. destruct r as [[]|e].
    + eexists c', b', _, _. split; [done|]. split; [done|]. split; [done|]. intros k Hk. rewrite T2 by done.
      unfold cut_file. case_decide; [by apply Hf|done].
    + eexists c', b', _, f. split; [done|]. split; [done|]. split; [done|]. intros k Hk. rewrite T2 by done. by apply Hf.
  - intros Ht. pose proof (evict_spec c (Some b) held target Hc Ht) as E.
    destruct (evict_clean_pages_clock c held target) as [c' n]. destruct E as (E1 & E2 & E3 & _).
    eexists c', b, _, f. split; [done|]. split; [done|]. split; [done|]. intros k Hk. rewrite E2 by done. by apply Hf.
  - intros Hs. pose proof (invalidate_range_spec c (Some b) s e Hc Hs) as E.
    destruct (invalidate_range c s e) as [c' r]. destruct E as (E1 & E2 & _).
    eexists c', b, _, f. split; [done|]. split; [done|]. split; [done|]. intros k Hk. rewrite E2 by done. by apply Hf.
Qed.

Fixpoint file_trace (f : file) (ops : list file_op) (xs : list response) (f' : file) : Prop :=
  match ops, xs with
  | [], [] => f' = f
  | op :: ops, x :: xs => exists f1, file_spec f op x f1 /\ file_trace f1 ops xs f'
  | _, _ => False
  end.

Lemma file_ops_refine ops : forall c b f, represents c b f -> ops_ok c b ops ->
  exists c' b' xs f', run_file_ops c b ops = Some (c', b', xs) /\ file_trace f ops xs f' /\ represents c' b' f'.
Proof.
  induction ops as [|op ops IH]; intros c b f Hr; cbn [ops_ok run_file_ops]; [intros _; by exists c, b, [], f|].
  intros [Ho Hos]. destruct (file_op_refines c b f op Hr Ho) as (c1 & b1 & x & f1 & E & S & R). rewrite E in *.
  destruct (IH c1 b1 f1 R Hos) as (c2 & b2 & xs & f2 & E2 & T & R2). rewrite E2.
  exists c2, b2, (x :: xs), f2. split; [done|]. split; [by exists f1|done].
Qed.

(** The file stored on a backend. *)
Definition backend_file (b : B) : file := fun k => contents b (k / PAGE_SIZE) !! Z.to_nat (k mod PAGE_SIZE).



(** C38: the path for a write inside one page, which avoids the list of page
    leases, has the effect and the answer of the general path, errors of the
    backend, busy pages and refusals by the caller included. *)
Theorem single_page_path_equiv c (ob : option B) avail offset buf old before : 0 <= offset -> buf <> [] ->
  offset + Z.of_nat (length buf) <= i64_max ->
  write_kernel_body c ob avail offset buf old before = write_general c ob avail offset buf old before.
Proof. apply write_kernel_body_eq. Qed.

(** C7: durability.  Write-back of a cache nobody else uses ends; when it reports
    success, the backend alone holds the whole file as readers saw it, so that a
    cache started afresh over it shows the same bytes; when it fails, readers of
    the running cache still see the file. *)
Theorem sync_makes_durable c b : cache_ok c (Some b) ->
  exists c' b' r, writeback_all 2 c (Some b) = Some (c', Some b', r) /\
    (forall k, 0 <= k -> byte_at c' (Some b') k = byte_at c (Some b) k) /\
    (r = Ok () -> find_dirty_pages c' = [] /\ n_dirty c' = 0 /\
       forall k, 0 <= k -> byte_at pc_new (Some b') k = byte_at c (Some b) k).
Proof.
  intros Hc. destruct (writeback_all_spec c b 2 Hc) as (c' & b' & r & E & _ & V & D); [lia|].
  exists c', b', r. split; [done|]. split; [by apply page_views_bytes|]. intros Hr. destruct (D Hr) as (D1 & D2 & D3).
  split_and!; [done|done|]. intros k Hk. unfold byte_at. rewrite <- D3 by (by apply Z.div_pos). done.
Qed.

End history.

(** ** Examples on a device of 512-byte blocks *)

Definition sector_size_ok : 0 < 512 /\ (512 | PAGE_SIZE) := conj eq_refl (ex_intro _ 8 eq_refl).
#[local] Instance sector_backend : Backend BlockPageCacheBackend := block_backend 512.
#[local] Instance sector_laws : BackendLaws BlockPageCacheBackend := block_backend_laws 512 sector_size_ok.

(** Two pages; every byte is 7. *)
Definition sevens : BlockPageCacheBackend := mkBlock (fun _ _ => 7) 16.

Definition always (i : Z) : bool := true.
Definition accept (n : Z) : result unit SyscallErr := Ok ().

Definition demo_ops : list (file_op (B := BlockPageCacheBackend)) :=
  [FWrite always 4094 [1; 2; 3; 4] (Some 8192) accept; FRead always always 4092 (replicate 8 0); FSync;
   FEvict (fun _ => false) 10; FTruncate 5000 (fun b => (b, Err EIO)); FInvalidate 0 2;
   FRead always always 4092 (replicate 8 0)].

Lemma demo_write_sound : write_sound pc_new (Some sevens) (Some 8192) 4094 4.
Proof.
  split; [intros s [= <-]; done|]. intros i Hi _ _ s [= <-] Hlt. unfold in_write, PAGE_SIZE in *. div_lia.
Qed.


(** The cache after a write across the two pages. *)
Definition demo_cache : PageCache :=
  fst (write_kernel_body pc_new (Some sevens) always 4094 [1; 2; 3; 4] (Some 8192) accept).

Lemma demo_write : write_kernel_body pc_new (Some sevens) always 4094 [1; 2; 3; 4] (Some 8192) accept = (demo_cache, Ok 4).
Proof. rewrite (surjective_pairing (write_kernel_body _ _ _ _ _ _ _)). unfold demo_cache. by f_equal. Qed.

Lemma demo_cache_ok : cache_ok demo_cache (Some sevens).
Proof.
  pose proof demo_write as H. apply write_kernel_body_spec in H as [(_ & H & _) _];
    [done|apply pc_new_ok|done|done|apply demo_write_sound].
Qed.


Lemma sync_makes_durable_witness : exists c' b' r,
  writeback_all 2 demo_cache (Some sevens) = Some (c', Some b', r) /\
  (forall k, 0 <= k -> byte_at c' (Some b') k = byte_at demo_cache (Some sevens) k).
Proof.
  destruct (sync_makes_durable demo_cache sevens demo_cache_ok) as (c' & b' & r & H1 & H2 & _).
  exists c', b', r. exact (conj H1 H2).
Defined.

Lemma single_page_path_equiv_witness :
  write_kernel_body pc_new (Some sevens) always 4000 [1; 2; 3] (Some 8192) accept =
    write_general pc_new (Some sevens) always 4000 [1; 2; 3] (Some 8192) accept.
Proof. apply single_page_path_equiv; [lia|done|unfold i64_max; simpl; lia]. Defined.

(** ** Two ways to lose data *)

(** Appending to a file whose last page is not cached and holds fewer than
    512 bytes destroys them: the whole segment counts as valid zeros, so the page
    is not read from the backend.  Here a file of 100 bytes, all 7, is extended
    by one byte, and its first byte reads as 0. *)
Theorem append_loses_short_tail :
  let r := write_kernel_body pc_new (Some sevens) always 100 [1] (Some 100) accept in
  snd r = Ok 1 /\ byte_at pc_new (Some sevens) 0 = Some 7 /\ byte_at (fst r) (Some sevens) 0 = Some 0.
Proof. vm_compute. auto. Qed.

(** A write of two whole pages that fails to get a frame for the second page
    leaves the first one cached as clean zeros, although nothing was written and
    an error is reported. *)
Theorem failed_write_leaves_zero_page :
  let r := write_kernel_body pc_new (Some sevens) (fun i => i =? 0) 0 (replicate (2 * 4096) 1) (Some 8192) accept in
  snd r = Err (WError ENOMEM) /\ byte_at pc_new (Some sevens) 0 = Some 7 /\
  byte_at (fst r) (Some sevens) 0 = Some 0 /\ find_dirty_pages (fst r) = [].
Proof. vm_compute. auto. Qed.
