(* ===== verification/PublishRace.v ===== *)
(** Readers that fill the page cache outside its operation gate, against a
    truncation ([fill_miss_runs], [sync_batch_read_pages_inner] and
    [truncate_with_backend_locked] of [os/src/fs/page_cache.rs]).

    One page past the new end of file.  The reader loads the mutation generation,
    reads the page from the backend, compares the generation and publishes the
    page; the truncation advances the generation, truncates the backend and drops
    the cached page.  Each step is atomic.  [fill_miss_runs] compares once, before
    it takes the lock of the entries ([locked = false]);
    [sync_batch_read_pages_inner] compares again under that lock
    ([locked = true]). *)

From stdpp Require Import base numbers option list.
From S2P Require Import Prelude.

Inductive reader := RStart | RLoaded (generation : Z) | RFetched (generation data : Z) | RChecked (generation data : Z)
  | RPublished | RRefused.

Inductive truncater := TStart | TAdvanced | TPersisted | TDropped.

(** [stored] is the page on the backend, 0 once truncated. *)
Record race := mkRace {
  mutation : Z;
  stored : Z;
  cached : option Z;
  rd : reader;
  tr : truncater;
}.

Definition reader_step (locked : bool) (s : race) : option race :=
  match rd s with
  | RStart => Some (mkRace (mutation s) (stored s) (cached s) (RLoaded (mutation s)) (tr s))
  | RLoaded g => Some (mkRace (mutation s) (stored s) (cached s) (RFetched g (stored s)) (tr s))
  | RFetched g d =>
      Some (mkRace (mutation s) (stored s) (cached s) (if g =? mutation s then RChecked g d else RRefused) (tr s))
  | RChecked g d =>
      if locked && negb (g =? mutation s) then Some (mkRace (mutation s) (stored s) (cached s) RRefused (tr s))
      else Some (mkRace (mutation s) (stored s) (match cached s with None => Some d | o => o end) RPublished (tr s))
  | RPublished | RRefused => None
  end.

Definition truncate_step (s : race) : option race :=
  match tr s with
  | TStart => Some (mkRace (mutation s + 1) (stored s) (cached s) (rd s) TAdvanced)
  | TAdvanced => Some (mkRace (mutation s) 0 (cached s) (rd s) TPersisted)
  | TPersisted => Some (mkRace (mutation s) (stored s) None (rd s) TDropped)
  | TDropped => None
  end.

Definition race_step (locked : bool) (s : race) (reader_moves : bool) : option race :=
  if reader_moves then reader_step locked s else truncate_step s.

Fixpoint race_run (locked : bool) (s : race) (l : list bool) : option race :=
  match l with
  | [] => Some s
  | m :: l => s ← race_step locked s m; race_run locked s l
  end.

Definition race_init (v : Z) : race := mkRace 0 v None RStart TStart.

(** A reader that has loaded the generation before the truncation began. *)
Definition race_loaded (v : Z) : race := mkRace 0 v None (RLoaded 0) TStart.

Record race_inv (v : Z) (s : race) : Prop := {
  ri_gen : mutation s = match tr s with TStart => 0 | _ => 1 end;
  ri_stored : stored s = match tr s with TStart | TAdvanced => v | _ => 0 end;
  ri_reader : match rd s with RStart => False | RLoaded g | RFetched g _ | RChecked g _ => g = 0 | _ => True end;
  ri_cached : tr s = TDropped -> cached s = None;
}.

Lemma race_inv_step v s m s' : race_inv v s -> race_step true s m = Some s' -> race_inv v s'.
Proof.
  intros [I1 I2 I3 I4]. destruct s as [mu st ca r t]. simpl in *. destruct m; simpl.
  - unfold reader_step. simpl. destruct r as [|g|g d|g d| |]; try done.
    + intros [= <-]. by split.
    + intros [= <-]. split; simpl; try done. by destruct (g =? mu).
    + subst g. destruct (Z.eqb_spec 0 mu) as [E|E]; simpl; intros [= <-]; split; simpl; try done.
      intros ->. subst mu. done.
  - unfold truncate_step. simpl. destruct t; try done; intros [= <-]; split; simpl; try done. lia.
Qed.

(** A batch read that compares the generation again under the lock of the
    entries, and had loaded it before the truncation began, leaves no page of the
    discarded part of the file in the cache, in any interleaving. *)
Theorem batch_publish_not_stale v l s : race_run true (race_loaded v) l = Some s -> tr s = TDropped -> cached s = None.
Proof.
  intros Hr. apply (ri_cached v s). revert Hr.
  assert (Hi : race_inv v (race_loaded v)) by (by split). revert Hi. generalize (race_loaded v).
  induction l as [|m l IH]; intros s0 Hi; simpl; [by intros [= <-]|].
  destruct (race_step true s0 m) as [s1|] eqn:E; simpl; [|done]. apply IH. by eapply race_inv_step.
Qed.

Lemma batch_publish_not_stale_witness :
  exists s, race_run true (race_loaded 7) [true; true; false; false; true; false] = Some s /\ cached s = None.
Proof.
  eexists. split; [vm_compute; reflexivity|].
  apply (batch_publish_not_stale 7 [true; true; false; false; true; false]); vm_compute; reflexivity.
Defined.

(** The generation does not stop stale pages in two cases.  A reader that
    compares it only before taking the lock publishes the old page after the
    truncation is complete; and so does a reader that compares under the lock but
    started between the advance of the generation and the truncation of the
    backend. *)
Theorem truncated_page_resurrected :
  (exists s, race_run false (race_init 7) [true; true; true; false; false; false; true] = Some s /\
     tr s = TDropped /\ stored s = 0 /\ cached s = Some 7) /\
  (exists s, race_run true (race_init 7) [false; true; true; true; false; false; true] = Some s /\
     tr s = TDropped /\ stored s = 0 /\ cached s = Some 7).
Proof. split; (eexists; split; [vm_compute; reflexivity|auto]). Qed.
