(* ===== verification/SysvIpc.v ===== *)
(** What the three System V mechanisms of [os/src/syscall/process/ipc.rs] share:
    the calling task, the ownership fields of an object, the permission test and
    the identifier cursor. *)

From stdpp Require Import base numbers option list.
From S2P Require Import Prelude BTree.

Definition i32_max : Z := 2 ^ 31 - 1.

Definition IPC_PRIVATE : Z := 0.
Definition IPC_CREAT : Z := 512.
Definition IPC_EXCL : Z := 1024.
Definition IPC_NOWAIT : Z := 2048.
(** [SEM_R], [MSG_R], [SHM_R] and [SEM_A], [MSG_W], [SHM_W]. *)
Definition IPC_R : Z := 256.
Definition IPC_W : Z := 128.

(** The credentials and the identity of the calling task, its IPC namespace and
    the time of the call. *)
Record Caller := mkCaller {
  euid : Z;
  egid : Z;
  pid : Z;
  ns_of : Z;
  now : Z;
}.

(** The ownership fields of [SemSet], [MsgQueue] and [ShmSegment]. *)
Record Perm := mkPerm {
  p_key : Z;
  p_uid : Z;
  p_gid : Z;
  p_cuid : Z;
  p_cgid : Z;
  p_mode : Z;
}.

Definition perm_new (w : Caller) (key mode : Z) : Perm :=
  mkPerm key (euid w) (egid w) (euid w) (egid w) (Z.land mode 511).

(** [IPC_SET]: the creator stays, owner and mode change. *)
Definition perm_set (p : Perm) (uid gid mode : Z) : Perm :=
  mkPerm (p_key p) uid gid (p_cuid p) (p_cgid p) (Z.land mode 511).

Definition has_permission (w : Caller) (p : Perm) (requested : Z) : bool :=
  if requested =? 0 then true
  else if euid w =? 0 then true
  else
    let shift := if (euid w =? p_uid p) || (euid w =? p_cuid p) then 6
                 else if (egid w =? p_gid p) || (egid w =? p_cgid p) then 3 else 0 in
    let available := Z.land (Z.shiftr (p_mode p) shift) 7 in
    let need := Z.lor (if Z.land requested IPC_R =? 0 then 0 else 4) (if Z.land requested IPC_W =? 0 then 0 else 2) in
    Z.land available need =? need.

Definition can_modify (w : Caller) (p : Perm) : bool :=
  (euid w =? 0) || (euid w =? p_uid p) || (euid w =? p_cuid p).

(** [alloc_id] of the semaphore and the shared-memory registry: a cursor that
    only moves forward; [None] once the identifiers are exhausted. *)
Definition alloc_id (cursor : option Z) : option Z * option Z :=
  match cursor with
  | None => (None, None)
  | Some id => (if id <? i32_max then Some (id + 1) else None, Some id)
  end.

(** The identifiers already given out. *)
Definition issued (cursor : option Z) (id : Z) : Prop :=
  1 <= id <= i32_max /\ match cursor with Some next => id < next | None => True end.

Definition cursor_ok (cursor : option Z) : Prop :=
  match cursor with Some next => 1 <= next <= i32_max | None => True end.

Lemma alloc_id_fresh cursor cursor' id : cursor_ok cursor -> alloc_id cursor = (cursor', Some id) ->
  cursor_ok cursor' /\ issued cursor' id /\ ~ issued cursor id /\ forall i, issued cursor i -> issued cursor' i.
Proof.
  unfold alloc_id, cursor_ok, issued. destruct cursor as [next|]; [|done]. intros H [= <- <-].
  destruct (Z.ltb_spec next i32_max); split_and!; try lia; intros; try lia.
Qed.

(** Whoever is not the superuser needs the bits of its class. *)
Lemma has_permission_root w p r : euid w = 0 -> has_permission w p r = true.
Proof. intros E. unfold has_permission. rewrite E. by destruct (r =? 0). Qed.
