(* ===== verification/SysvSem.v ===== *)
(** System V semaphore sets ([os/src/syscall/process/ipc.rs], semaphore part):
    the sets and their registry, [semget], the control commands and the atomic
    application of a list of operations.

    What a call reads from user memory is an argument ([result], an [Err] being
    the fault); whether an allocation succeeds is a [bool] argument. *)

From stdpp Require Import base numbers option list.
From S2P Require Import Prelude BTree SysvIpc.

Definition SEM_UNDO : Z := 4096.
Definition SEMMNI : Z := 1024.
Definition SEMMSL : Z := 32000.
Definition SEMOPM : Z := 500.
Definition SEMVMX : Z := 32767.

Record SemLimits := mkSemLimits {
  semmsl : Z;
  semmns : Z;
  semopm : Z;
  semmni : Z;
}.

Definition sem_limits_default : SemLimits := mkSemLimits SEMMSL (SEMMNI * SEMMSL) SEMOPM SEMMNI.

Record LinuxSembuf := mkSembuf {
  sem_num : Z;
  sem_op : Z;
  sem_flg : Z;
}.

Record Semaphore := mkSemaphore {
  value : Z;
  last_pid : Z;
  ncnt : Z;
  zcnt : Z;
}.

Definition semaphore_new : Semaphore := mkSemaphore 0 0 0 0.

Record SemSet := mkSemSet {
  s_perm : Perm;
  semaphores : list Semaphore;
  otime : Z;
  ctime : Z;
}.

Definition sem_set_new (w : Caller) (alloc : bool) (key nsems mode : Z) : result SemSet SyscallErr :=
  if alloc then Ok (mkSemSet (perm_new w key mode) (replicate (Z.to_nat nsems) semaphore_new) 0 (now w))
  else Err ENOMEM.

Record SemRegistry := mkSemRegistry {
  next_id : option Z;
  sets : btree SemSet;
}.

Definition sem_registry_new : SemRegistry := mkSemRegistry (Some 1) bt_empty.

Definition with_sems (s : SemSet) (l : list Semaphore) : SemSet := mkSemSet (s_perm s) l (otime s) (ctime s).
Definition sem_count (s : SemSet) : Z := Z.of_nat (length (semaphores s)).
Definition put_set (r : SemRegistry) (id : Z) (s : SemSet) : SemRegistry :=
  mkSemRegistry (next_id r) (bt_insert id s (sets r)).

Definition sem_find_by_key (r : SemRegistry) (key : Z) : option (Z * SemSet) :=
  head (filter (fun e => p_key (s_perm e.2) = key) (sets r)).

Definition total_semaphores (r : SemRegistry) : Z := bt_sum sem_count (sets r).

(** ** [semget] *)

Definition sys_semget (r : SemRegistry) (l : SemLimits) (w : Caller) (alloc : bool) (key nsems semflg : Z)
    : SemRegistry * result Z SyscallErr :=
  let create :=
    if (nsems =? 0) || (semmsl l <? nsems) then (r, Err EINVAL)
    else if semmni l <=? Z.of_nat (length (sets r)) then (r, Err ENOSPC)
    else if semmns l <? saturating_add (total_semaphores r) nsems then (r, Err ENOSPC)
    else
      let '(cursor, fresh) := alloc_id (next_id r) in
      let r := mkSemRegistry cursor (sets r) in
      match fresh with
      | None => (r, Err ENOSPC)
      | Some id =>
          match sem_set_new w alloc key nsems (Z.land semflg 511) with
          | Err e => (r, Err e)
          | Ok s => (put_set r id s, Ok id)
          end
      end in
  if key =? IPC_PRIVATE then create
  else
    match sem_find_by_key r key with
    | Some (id, s) =>
        if negb (Z.land semflg IPC_CREAT =? 0) && negb (Z.land semflg IPC_EXCL =? 0) then (r, Err EEXIST)
        else if sem_count s <? nsems then (r, Err EINVAL)
        else if negb (has_permission w (s_perm s) (Z.land semflg (Z.lor IPC_R IPC_W))) then (r, Err EACCES)
        else (r, Ok id)
    | None => if Z.land semflg IPC_CREAT =? 0 then (r, Err ENOENT) else create
    end.

(** ** Applying a list of operations *)

Inductive SemApplyResult := Applied | Blocked (sem_num : Z) (wait_zero : bool).

(** One round of the checking loop on the running value [v] of the semaphore:
    its next value, or the reason to wait. *)
Definition check_op (w : Caller) (s : SemSet) (v : Z) (op : LinuxSembuf) : result (Z + bool) SyscallErr :=
  let nowait := negb (Z.land (sem_flg op) IPC_NOWAIT =? 0) in
  if sem_count s <=? sem_num op then Err EFBIG
  else if negb (Z.land (sem_flg op) (Z.lnot (Z.lor IPC_NOWAIT SEM_UNDO)) =? 0) then Err EINVAL
  else if negb (has_permission w (s_perm s) (if sem_op op =? 0 then IPC_R else IPC_W)) then Err EACCES
  else if 0 <? sem_op op then
    let next := Z.min (v + sem_op op) i32_max in
    if SEMVMX <? next then Err ERANGE else Ok (inl next)
  else if sem_op op <? 0 then
    let decrement := - sem_op op in
    if v <? decrement then if nowait then Err EAGAIN else Ok (inr false)
    else Ok (inl (v - decrement))
  else if negb (v =? 0) then if nowait then Err EAGAIN else Ok (inr true)
  else Ok (inl v).

Fixpoint check_ops (w : Caller) (s : SemSet) (values : list Z) (ops : list LinuxSembuf)
    : result (list Z + (Z * bool)) SyscallErr :=
  match ops with
  | [] => Ok (inl values)
  | op :: ops =>
      match check_op w s (values !!! Z.to_nat (sem_num op)) op with
      | Err e => Err e
      | Ok (inr wait_zero) => Ok (inr (sem_num op, wait_zero))
      | Ok (inl next) => check_ops w s (<[Z.to_nat (sem_num op) := next]> values) ops
      end
  end.

Definition store_value (p v : Z) (m : Semaphore) : Semaphore := mkSemaphore v p (ncnt m) (zcnt m).

(** Second loop: publish the new values of the semaphores that were changed. *)
Definition commit_ops (p : Z) (values : list Z) (ops : list LinuxSembuf) (l : list Semaphore) : list Semaphore :=
  foldl (fun l op => if sem_op op =? 0 then l
                     else alter (store_value p (values !!! Z.to_nat (sem_num op))) (Z.to_nat (sem_num op)) l) l ops.

Definition try_apply_sem_ops (w : Caller) (alloc : bool) (s : SemSet) (ops : list LinuxSembuf)
    : SemSet * result SemApplyResult SyscallErr :=
  if negb alloc then (s, Err ENOMEM)
  else
    match check_ops w s (value <$> semaphores s) ops with
    | Err e => (s, Err e)
    | Ok (inr (n, wait_zero)) => (s, Ok (Blocked n wait_zero))
    | Ok (inl values) =>
        let changed := existsb (fun op => negb (sem_op op =? 0)) ops in
        (mkSemSet (s_perm s) (commit_ops (pid w) values ops (semaphores s))
           (if changed then now w else otime s) (ctime s), Ok Applied)
    end.

Definition read_sem_ops (l : SemLimits) (alloc : bool) (nsops : Z) (user : result (list LinuxSembuf) SyscallErr)
    : result (list LinuxSembuf) SyscallErr :=
  if nsops =? 0 then Err EINVAL
  else if semopm l <? nsops then Err E2BIG
  else if negb alloc then Err ENOMEM
  else user.

(** ** Control commands *)

Definition GETPID : Z := 11.
Definition GETVAL : Z := 12.
Definition GETNCNT : Z := 14.
Definition GETZCNT : Z := 15.

Definition as_i32 (x : Z) : Z := let y := x mod 2 ^ 32 in if y <? 2 ^ 31 then y else y - 2 ^ 32.

(** LoongArch callers may pass a pointer; [user] is what it points to. *)
Definition decode_semctl_setval_arg (loongarch : bool) (user : result Z SyscallErr) (arg : Z) : result Z SyscallErr :=
  let valid v := (0 <=? v) && (v <=? SEMVMX) in
  if arg <=? SEMVMX then Ok arg
  else if negb loongarch then Err ERANGE
  else if valid (as_i32 arg) then Ok (as_i32 arg)
  else if negb (i32_max <? arg) then Err ERANGE
  else match user with
       | Ok v => if valid v then Ok v else Err ERANGE
       | Err _ => Err ERANGE
       end.

(** Commands that touch user memory release the registry in between: they check
    the registry [seen] first and [r] again when they commit.  The [bool] says
    that the sleepers are woken. *)
Definition setval_check (r : SemRegistry) (w : Caller) (semid semnum : Z) : result SemSet SyscallErr :=
  match bt_get semid (sets r) with
  | None => Err EINVAL
  | Some s =>
      if sem_count s <=? semnum then Err EINVAL
      else if negb (can_modify w (s_perm s)) then Err EPERM
      else Ok s
  end.

Definition semctl_setval (seen r : SemRegistry) (w : Caller) (loongarch : bool) (user : result Z SyscallErr)
    (semid semnum arg : Z) : SemRegistry * result Z SyscallErr * bool :=
  match setval_check seen w semid semnum with
  | Err e => (r, Err e, false)
  | Ok _ =>
      match decode_semctl_setval_arg loongarch user arg with
      | Err e => (r, Err e, false)
      | Ok v =>
          match setval_check r w semid semnum with
          | Err e => (r, Err e, false)
          | Ok s =>
              let l := alter (store_value (pid w) v) (Z.to_nat semnum) (semaphores s) in
              (put_set r semid (mkSemSet (s_perm s) l (otime s) (now w)), Ok 0, true)
          end
      end
  end.

(** [user] is the array of [u16] in user memory. *)
Definition semctl_setall (seen r : SemRegistry) (w : Caller) (alloc : bool) (user : result (nat -> Z) SyscallErr)
    (semid : Z) : SemRegistry * result Z SyscallErr * bool :=
  match bt_get semid (sets seen) with
  | None => (r, Err EINVAL, false)
  | Some s0 =>
      if negb (can_modify w (s_perm s0)) then (r, Err EPERM, false)
      else if negb alloc then (r, Err ENOMEM, false)
      else
        match user with
        | Err e => (r, Err e, false)
        | Ok array =>
            let values := (fun k => array k mod 2 ^ 16) <$> seq 0 (length (semaphores s0)) in
            if existsb (fun v => SEMVMX <? v) values then (r, Err ERANGE, false)
            else
              match bt_get semid (sets r) with
              | None => (r, Err EINVAL, false)
              | Some s =>
                  if negb (sem_count s =? sem_count s0) then (r, Err EINVAL, false)
                  else if negb (can_modify w (s_perm s)) then (r, Err EPERM, false)
                  else
                    let l := zip_with (fun m v => store_value (pid w) v m) (semaphores s) values in
                    (put_set r semid (mkSemSet (s_perm s) l (otime s) (now w)), Ok 0, true)
              end
        end
  end.

Definition semctl_getall (seen r : SemRegistry) (w : Caller) (alloc : bool) (semid : Z) : result (list Z) SyscallErr :=
  match bt_get semid (sets seen) with
  | None => Err EINVAL
  | Some s0 =>
      if negb (has_permission w (s_perm s0) IPC_R) then Err EACCES
      else if negb alloc then Err ENOMEM
      else
        match bt_get semid (sets r) with
        | None => Err EINVAL
        | Some s =>
            if negb (sem_count s =? sem_count s0) then Err EINVAL
            else if negb (has_permission w (s_perm s) IPC_R) then Err EACCES
            else Ok (value <$> semaphores s)
        end
  end.

Definition semctl_rmid (r : SemRegistry) (w : Caller) (semid : Z) : SemRegistry * result Z SyscallErr * bool :=
  match bt_get semid (sets r) with
  | None => (r, Err EINVAL, false)
  | Some s =>
      if negb (can_modify w (s_perm s)) then (r, Err EPERM, false)
      else (mkSemRegistry (next_id r) (bt_remove semid (sets r)), Ok 0, true)
  end.

(** [IPC_SET]; [user] is the owner, group and mode of the caller's structure. *)
Definition semctl_set (r : SemRegistry) (w : Caller) (user : result (Z * Z * Z) SyscallErr) (semid : Z)
    : SemRegistry * result Z SyscallErr :=
  match user with
  | Err e => (r, Err e)
  | Ok (uid, gid, mode) =>
      match bt_get semid (sets r) with
      | None => (r, Err EINVAL)
      | Some s =>
          if negb (can_modify w (s_perm s)) then (r, Err EPERM)
          else (put_set r semid (mkSemSet (perm_set (s_perm s) uid gid mode) (semaphores s) (otime s) (now w)), Ok 0)
      end
  end.

(** The commands on one semaphore. *)
Definition semctl_get (r : SemRegistry) (w : Caller) (semid semnum cmd : Z) : result Z SyscallErr :=
  match bt_get semid (sets r) with
  | None => Err EINVAL
  | Some s =>
      match semaphores s !! Z.to_nat semnum with
      | None => Err EINVAL
      | Some m =>
          if cmd =? GETPID then Ok (last_pid m)
          else if cmd =? GETVAL then if has_permission w (s_perm s) IPC_R then Ok (value m) else Err EACCES
          else if cmd =? GETNCNT then Ok (ncnt m)
          else if cmd =? GETZCNT then Ok (zcnt m)
          else Err EINVAL
      end
  end.

Definition set_sysv_sem_limits (l : SemLimits) (a b c d : Z) : SemLimits * bool :=
  if (a =? 0) || (b =? 0) || (c =? 0) || (d =? 0) then (l, false)
  else if (SEMMSL <? a) || (SEMMNI * SEMMSL <? b) || (SEMOPM <? c) || (SEMMNI <? d) then (l, false)
  else (mkSemLimits a b c d, true).

(** ** Waiting *)

Definition u16_max : Z := 65535.

Definition count_waiter (wait_zero : bool) (up : bool) (m : Semaphore) : Semaphore :=
  let step x := if up then Z.min (x + 1) u16_max else Z.max (x - 1) 0 in
  if wait_zero then mkSemaphore (value m) (last_pid m) (ncnt m) (step (zcnt m))
  else mkSemaphore (value m) (last_pid m) (step (ncnt m)) (zcnt m).

Definition cleanup_sem_wait (s : SemSet) (registered : option (Z * bool)) : SemSet :=
  match registered with
  | None => s
  | Some (n, wait_zero) => with_sems s (alter (count_waiter wait_zero false) (Z.to_nat n) (semaphores s))
  end.

Definition update_sem_wait (s : SemSet) (registered : option (Z * bool)) (next : Z * bool)
    : SemSet * option (Z * bool) :=
  if bool_decide (registered = Some next) then (s, registered)
  else
    let s := cleanup_sem_wait s registered in
    match semaphores s !! Z.to_nat next.1 with
    | None => (s, None)
    | Some _ => (with_sems s (alter (count_waiter next.2 true) (Z.to_nat next.1) (semaphores s)), Some next)
    end.

(** The registry, what the sleeper is registered for, the answer if the wait is
    over, and whether the other sleepers are woken. *)
Definition sem_wait_condition (r : SemRegistry) (w : Caller) (alloc : bool) (semid : Z) (ops : list LinuxSembuf)
    (registered : option (Z * bool))
    : SemRegistry * option (Z * bool) * option (result Z SyscallErr) * bool :=
  match bt_get semid (sets r) with
  | None => (r, registered, Some (Err EIDRM), false)
  | Some s =>
      match try_apply_sem_ops w alloc s ops with
      | (s, Ok Applied) => (put_set r semid (cleanup_sem_wait s registered), None, Some (Ok 0), true)
      | (s, Ok (Blocked n wait_zero)) =>
          let '(s, registered) := update_sem_wait s registered (n, wait_zero) in
          (put_set r semid s, registered, None, false)
      | (s, Err e) => (put_set r semid (cleanup_sem_wait s registered), None, Some (Err e), false)
      end
  end.


(** A list of semaphore operations is applied as a whole or not at all.

    The loops of [try_apply_sem_ops] are specified by the running value a
    semaphore has before each operation: its value in the set plus the sum of
    the operations on it that come earlier in the list. *)

(** Sum of the operations on semaphore [i]. *)
Definition effect (ops : list LinuxSembuf) (i : Z) : Z :=
  foldr (fun op n => (if sem_num op =? i then sem_op op else 0) + n) 0 ops.

Definition touched (ops : list LinuxSembuf) (i : Z) : bool :=
  existsb (fun op => (sem_num op =? i) && negb (sem_op op =? 0)) ops.

Definition value_ok (v : Z) : Prop := 0 <= v <= SEMVMX.

(** The ranges of the fields of [struct sembuf]. *)
Definition sembuf_ok (op : LinuxSembuf) : Prop := 0 <= sem_num op /\ -32768 <= sem_op op <= 32767.

Definition set_ok (s : SemSet) : Prop := Forall (fun m => value_ok (value m)) (semaphores s).

Section spec.
Context (w : Caller) (s : SemSet).

Definition flags_ok (op : LinuxSembuf) : Prop := Z.land (sem_flg op) (Z.lnot (Z.lor IPC_NOWAIT SEM_UNDO)) = 0.
Definition nowait (op : LinuxSembuf) : Prop := Z.land (sem_flg op) IPC_NOWAIT <> 0.
Definition permitted (op : LinuxSembuf) : Prop :=
  has_permission w (s_perm s) (if sem_op op =? 0 then IPC_R else IPC_W) = true.

(** On a semaphore with value [v] the operation can be done, has to wait (for
    zero or for an increase), or fails. *)
Definition op_runs (v : Z) (op : LinuxSembuf) : Prop :=
  sem_num op < sem_count s /\ flags_ok op /\ permitted op /\ value_ok (v + sem_op op) /\ (sem_op op = 0 -> v = 0).

Definition op_starves (v : Z) (op : LinuxSembuf) (wait_zero : bool) : Prop :=
  if wait_zero then sem_op op = 0 /\ v <> 0 else v + sem_op op < 0.

Definition op_waits (v : Z) (op : LinuxSembuf) (wait_zero : bool) : Prop :=
  sem_num op < sem_count s /\ flags_ok op /\ permitted op /\ ~ nowait op /\ op_starves v op wait_zero.

Definition op_fails (v : Z) (op : LinuxSembuf) (e : SyscallErr) : Prop :=
  match e with
  | EFBIG => sem_count s <= sem_num op
  | EINVAL => ~ flags_ok op
  | EACCES => ~ permitted op
  | ERANGE => SEMVMX < v + sem_op op
  | EAGAIN => nowait op /\ exists z, op_starves v op z
  | _ => False
  end.

(** All operations of [l], starting from [values], can be done. *)
Definition runs (values : list Z) (l : list LinuxSembuf) : Prop := forall l1 op l2, l = l1 ++ op :: l2 ->
  op_runs (values !!! Z.to_nat (sem_num op) + effect l1 (sem_num op)) op.

(** The first operation that cannot be done satisfies [P]. *)
Definition stops (values : list Z) (ops : list LinuxSembuf) (P : Z -> LinuxSembuf -> Prop) : Prop :=
  exists l1 op l2, ops = l1 ++ op :: l2 /\ runs values l1 /\
    P (values !!! Z.to_nat (sem_num op) + effect l1 (sem_num op)) op.

Lemma check_op_spec v op : value_ok v -> sembuf_ok op ->
  match check_op w s v op with
  | Ok (inl v') => v' = v + sem_op op /\ op_runs v op
  | Ok (inr z) => op_waits v op z
  | Err e => op_fails v op e
  end.
Proof.
  unfold value_ok, sembuf_ok. intros Hv [Hn Ho]. unfold check_op.
  destruct (Z.leb_spec (sem_count s) (sem_num op)); [done|].
  destruct (Z.eqb_spec (Z.land (sem_flg op) (Z.lnot (Z.lor IPC_NOWAIT SEM_UNDO))) 0) as [Hf|Hf]; [simpl|done].
  destruct (has_permission _ _ _) eqn:Hp; simpl; [|by unfold permitted; rewrite Hp].
  unfold op_runs, op_waits, op_starves, nowait, value_ok, flags_ok, permitted, SEMVMX, i32_max in *.
  assert (Hand : forall A B : Prop, A -> B -> A /\ B) by (intros A B; apply conj).
  destruct (Z.ltb_spec 0 (sem_op op)); [|destruct (Z.ltb_spec (sem_op op) 0)].
  - destruct (Z.ltb_spec 32767 (Z.min (v + sem_op op) (2 ^ 31 - 1))); simpl; repeat apply Hand; unfold SEMVMX; lia || done.
  - destruct (Z.ltb_spec v (- sem_op op)); [|repeat apply Hand; lia || done].
    destruct (Z.eqb_spec (Z.land (sem_flg op) IPC_NOWAIT) 0); simpl; [repeat apply Hand; lia || naive_solver|].
    split; [done|]. exists false. unfold op_starves. lia.
  - destruct (Z.eqb_spec v 0); simpl; [repeat apply Hand; lia || done|].
    destruct (Z.eqb_spec (Z.land (sem_flg op) IPC_NOWAIT) 0); simpl; [repeat apply Hand; lia || naive_solver|].
    split; [done|]. exists true. unfold op_starves. lia.
Qed.

Lemma effect_cons op l i : effect (op :: l) i = (if sem_num op =? i then sem_op op else 0) + effect l i.
Proof. done. Qed.

(** The value list after one operation gives the running values of the rest. *)
Lemma running_step values op l i : 0 <= sem_num op -> 0 <= i -> (Z.to_nat (sem_num op) < length values)%nat ->
  <[Z.to_nat (sem_num op) := values !!! Z.to_nat (sem_num op) + sem_op op]> values !!! Z.to_nat i + effect l i =
  values !!! Z.to_nat i + effect (op :: l) i.
Proof.
  intros Hn Hi Hlt. rewrite effect_cons. destruct (Z.eqb_spec (sem_num op) i) as [<-|E].
  - rewrite list_lookup_total_insert_eq by done. lia.
  - rewrite list_lookup_total_insert_ne by lia. lia.
Qed.

Lemma runs_cons values op l : sembuf_ok op -> Forall sembuf_ok l -> length values = length (semaphores s) ->
  op_runs (values !!! Z.to_nat (sem_num op)) op ->
  runs (<[Z.to_nat (sem_num op) := values !!! Z.to_nat (sem_num op) + sem_op op]> values) l -> runs values (op :: l).
Proof.
  intros Ho Hl Hlen H1 H2 l1 op' l2 E. destruct l1 as [|x l1]; injection E as <- E.
  - by rewrite Z.add_0_r.
  - specialize (H2 l1 op' l2 E). subst l. apply Forall_app in Hl as [_ Hl]. apply Forall_cons in Hl as [[Hn _] _].
    destruct H1 as [H1 _], Ho as [Ho _]. unfold sem_count in H1. rewrite running_step in H2 by (done || lia). done.
Qed.

Lemma stops_cons values op l P : sembuf_ok op -> Forall sembuf_ok l -> length values = length (semaphores s) ->
  op_runs (values !!! Z.to_nat (sem_num op)) op ->
  stops (<[Z.to_nat (sem_num op) := values !!! Z.to_nat (sem_num op) + sem_op op]> values) l P ->
  stops values (op :: l) P.
Proof.
  intros Ho Hl Hlen H1 (l1 & op' & l2 & -> & Hr & Hp). exists (op :: l1), op', l2.
  pose proof Hl as Hl'. apply Forall_app in Hl' as [Hl1 Hl']. apply Forall_cons in Hl' as [[Hn _] _].
  split; [done|]. split; [by apply runs_cons|].
  destruct H1 as [H1 _], Ho as [Ho _]. unfold sem_count in H1. rewrite running_step in Hp by (done || lia). done.
Qed.

Lemma runs_value values op : Forall value_ok values -> op_runs (values !!! Z.to_nat (sem_num op)) op ->
  Forall value_ok (<[Z.to_nat (sem_num op) := values !!! Z.to_nat (sem_num op) + sem_op op]> values).
Proof. intros Hv (_ & _ & _ & H & _). by apply Forall_insert. Qed.

Lemma value_at values op : Forall value_ok values -> value_ok (values !!! Z.to_nat (sem_num op)).
Proof.
  intros Hv. rewrite list_lookup_total_alt. destruct (values !! Z.to_nat (sem_num op)) as [v|] eqn:E; simpl.
  - by eapply Forall_lookup.
  - unfold value_ok, SEMVMX. lia.
Qed.

Lemma check_ops_spec ops : forall values, Forall sembuf_ok ops -> Forall value_ok values ->
  length values = length (semaphores s) ->
  match check_ops w s values ops with
  | Ok (inl values') => length values' = length values /\ Forall value_ok values' /\ runs values ops /\
      forall i, 0 <= i < sem_count s -> values' !!! Z.to_nat i = values !!! Z.to_nat i + effect ops i
  | Ok (inr (n, z)) => stops values ops (fun v op => sem_num op = n /\ op_waits v op z)
  | Err e => stops values ops (fun v op => op_fails v op e)
  end.
Proof.
  induction ops as [|op ops IH]; intros values Ho Hv Hlen.
  { cbn [check_ops]. split_and!; [done|done| |].
    - intros l1 op l2 E. by destruct l1.
    - intros i Hi. unfold effect. simpl. lia. }
  apply Forall_cons in Ho as [Ho Hos]. cbn [check_ops].
  pose proof (check_op_spec _ op (value_at values op Hv) Ho) as Hc. destruct (check_op _ _ _ _) as [[v'|z]|e].
  - destruct Hc as [-> Hr]. specialize (IH (<[Z.to_nat (sem_num op) := values !!! Z.to_nat (sem_num op) + sem_op op]> values)
      Hos (runs_value _ _ Hv Hr)). rewrite length_insert in IH. specialize (IH Hlen).
    destruct (check_ops _ _ _ _) as [[values'|[n z]]|e]; [|by apply stops_cons..].
    destruct IH as (I1 & I2 & I3 & I4). split_and!; [done|done|by apply runs_cons|].
    intros i Hi. rewrite I4 by done. destruct Hr as [Hr _], Ho as [Ho _]. unfold sem_count in *.
    apply running_step; lia.
  - exists [], op, ops. split; [done|]. split; [intros l1 op' l2 E; by destruct l1|]. by rewrite Z.add_0_r.
  - exists [], op, ops. split; [done|]. split; [intros l1 op' l2 E; by destruct l1|]. by rewrite Z.add_0_r.
Qed.
End spec.

Lemma effect_untouched ops i : touched ops i = false -> effect ops i = 0.
Proof.
  induction ops as [|op ops IH]; [done|]. rewrite effect_cons. unfold touched. cbn [existsb].
  intros [H1 H2]%orb_false_iff. rewrite IH by done.
  destruct (Z.eqb_spec (sem_num op) i); [|done]. simpl in H1. apply negb_false_iff, Z.eqb_eq in H1. lia.
Qed.

Lemma commit_ops_lookup p values ops l i : Forall sembuf_ok ops -> 0 <= i ->
  commit_ops p values ops l !! Z.to_nat i =
    (fun m => if touched ops i then store_value p (values !!! Z.to_nat i) m else m) <$> l !! Z.to_nat i.
Proof.
  intros Ho Hi. unfold commit_ops, touched. revert l Ho. induction ops as [|op ops IH]; intros l Ho; simpl.
  { by destruct (l !! _). }
  apply Forall_cons in Ho as [[Ho _] Hos]. rewrite IH by done. destruct (Z.eqb_spec (sem_op op) 0) as [E|E]; simpl.
  { by rewrite andb_false_r. }
  rewrite andb_true_r. destruct (Z.eqb_spec (sem_num op) i) as [<-|En]; simpl.
  - rewrite list_lookup_alter_eq. destruct (l !! _) as [m|]; [|done]. simpl. by destruct (existsb _ ops).
  - by rewrite list_lookup_alter_ne by lia.
Qed.

(** The set with every operation of [ops] done. *)
Definition applied (w : Caller) (ops : list LinuxSembuf) (s s' : SemSet) : Prop :=
  s_perm s' = s_perm s /\ ctime s' = ctime s /\ sem_count s' = sem_count s /\
  otime s' = (if existsb (fun op => negb (sem_op op =? 0)) ops then now w else otime s) /\
  forall i, 0 <= i -> semaphores s' !! Z.to_nat i =
    (fun m => mkSemaphore (value m + effect ops i) (if touched ops i then pid w else last_pid m) (ncnt m) (zcnt m))
      <$> semaphores s !! Z.to_nat i.

Lemma commit_ops_length p values ops : forall l, length (commit_ops p values ops l) = length l.
Proof.
  unfold commit_ops. induction ops as [|op ops IH]; intros l; simpl; [done|]. rewrite IH.
  destruct (sem_op op =? 0); [done|]. by rewrite length_alter.
Qed.

Lemma try_apply_spec w s ops s' r : set_ok s -> Forall sembuf_ok ops -> try_apply_sem_ops w true s ops = (s', r) ->
  let values := value <$> semaphores s in
  match r with
  | Ok Applied => runs w s values ops /\ applied w ops s s' /\ set_ok s'
  | Ok (Blocked n z) => s' = s /\ stops w s values ops (fun v op => sem_num op = n /\ op_waits w s v op z)
  | Err e => s' = s /\ stops w s values ops (fun v op => op_fails w s v op e)
  end.
Proof.
  intros Hs Ho. unfold try_apply_sem_ops. simpl.
  assert (Hv : Forall value_ok (value <$> semaphores s)) by (by apply Forall_fmap).
  pose proof (check_ops_spec w s ops _ Ho Hv (length_fmap _ _)) as H.
  destruct (check_ops _ _ _ _) as [[values|[n z]]|e]; intros [= <- <-]; [|by split..].
  destruct H as (H1 & H2 & H3 & H4). rewrite length_fmap in H1.
  assert (Hl : forall i, 0 <= i -> commit_ops (pid w) values ops (semaphores s) !! Z.to_nat i =
    (fun m => mkSemaphore (value m + effect ops i) (if touched ops i then pid w else last_pid m) (ncnt m) (zcnt m))
      <$> semaphores s !! Z.to_nat i).
  { intros i Hi. rewrite commit_ops_lookup by done. destruct (semaphores s !! Z.to_nat i) as [m|] eqn:Em; [|done]. simpl.
    destruct (touched ops i) eqn:Et.
    - unfold store_value. do 2 f_equal. pose proof (lookup_lt_Some _ _ _ Em) as Hlt.
      rewrite H4 by (unfold sem_count; lia). rewrite list_lookup_total_alt, list_lookup_fmap, Em. done.
    - rewrite effect_untouched by done. rewrite Z.add_0_r. by destruct m. }
  split_and!; [done| |].
  - unfold applied, sem_count. simpl. by rewrite commit_ops_length.
  - apply Forall_lookup. simpl. intros i m Hm. specialize (Hl (Z.of_nat i) ltac:(lia)).
    rewrite Nat2Z.id, Hm in Hl. destruct (semaphores s !! i) as [m0|] eqn:Em; [|done]. injection Hl as ->. simpl.
    pose proof (lookup_lt_Some _ _ _ Em) as Hlt. specialize (H4 (Z.of_nat i) ltac:(unfold sem_count; lia)).
    rewrite Nat2Z.id in H4. rewrite !list_lookup_total_alt, list_lookup_fmap, Em in H4. simpl in H4. rewrite <- H4.
    rewrite Forall_lookup in H2. destruct (values !! i) as [v|] eqn:Ev; simpl; [by eapply H2|].
    apply lookup_ge_None in Ev. lia.
Qed.

(** C22: [semop] is atomic.  Either every operation could be done in turn and the
    set holds the sum of their effects; or the first operation that cannot be
    done says why the call waits or fails, and the set is untouched.  Values stay
    between 0 and [SEMVMX]. *)
Theorem semop_atomic w s ops s' r : set_ok s -> Forall sembuf_ok ops -> try_apply_sem_ops w true s ops = (s', r) ->
  let values := value <$> semaphores s in
  match r with
  | Ok Applied => runs w s values ops /\ applied w ops s s' /\ set_ok s'
  | Ok (Blocked n z) => s' = s /\ stops w s values ops (fun v op => sem_num op = n /\ op_waits w s v op z)
  | Err e => s' = s /\ stops w s values ops (fun v op => op_fails w s v op e)
  end.
Proof. apply try_apply_spec. Qed.

(** Two units are moved from the first semaphore to the second. *)
Lemma semop_atomic_witness :
  let w := mkCaller 0 0 7 0 100 in
  let s := mkSemSet (mkPerm 1 0 0 0 0 511) [mkSemaphore 3 0 0 0; semaphore_new] 0 0 in
  let ops := [mkSembuf 0 (-2) 0; mkSembuf 1 2 0] in
  exists s', try_apply_sem_ops w true s ops = (s', Ok Applied) /\ applied w ops s s'.
Proof.
  intros w s ops. destruct (try_apply_sem_ops w true s ops) as [s' r] eqn:E. exists s'.
  assert (Hr : r = Ok Applied) by (apply (f_equal snd) in E; by vm_compute in E). subst r. split; [done|].
  apply (semop_atomic w s ops s' (Ok Applied)); [|by repeat constructor|done].
  repeat constructor; unfold value_ok, SEMVMX; simpl; lia.
Defined.
