(* ===== verification/SemHistory.v ===== *)
(** Histories of semaphore calls.

    A call that has to wait becomes a sleeper; it evaluates its condition when it
    starts to wait and whenever it is woken, and may leave on a signal or a
    timeout.  Waking is [wake_all] on the one wait queue of the registry.  The
    invariant makes three things precise: the registry stays well formed, the
    counts of waiters reported by [GETNCNT] and [GETZCNT] are exact, and nobody
    sleeps on operations that could be done. *)

From stdpp Require Import base numbers option list.
From S2P Require Import Prelude BTree SysvIpc SysvSem.

Record Sleeper := mkSleeper {
  sl_who : Caller;
  sl_id : Z;
  sl_ops : list LinuxSembuf;
  sl_reg : option (Z * bool);
  sl_awake : bool;
}.

Record SemSys := mkSemSys {
  registry : SemRegistry;
  limits : SemLimits;
  sleepers : list Sleeper;
}.

Definition sem_sys_init : SemSys := mkSemSys sem_registry_new sem_limits_default [].

Definition wake (x : Sleeper) : Sleeper := mkSleeper (sl_who x) (sl_id x) (sl_ops x) (sl_reg x) true.
Definition wake_if (b : bool) (l : list Sleeper) : list Sleeper := if b then wake <$> l else l.
Definition at_time (w : Caller) (t : Z) : Caller := mkCaller (euid w) (egid w) (pid w) (ns_of w) t.

Inductive sem_event :=
| SemGet (w : Caller) (alloc : bool) (key nsems semflg : Z)
| SemOp (w : Caller) (alloc1 alloc2 : bool) (semid nsops : Z) (user : result (list LinuxSembuf) SyscallErr)
    (deadline : result unit SyscallErr)
| SemEval (i : nat) (time : Z) (alloc : bool)
| SemLeave (i : nat) (timed_out : bool)
| SemSetVal (seen : SemRegistry) (w : Caller) (loongarch : bool) (user : result Z SyscallErr) (semid semnum arg : Z)
| SemSetAll (seen : SemRegistry) (w : Caller) (alloc : bool) (user : result (nat -> Z) SyscallErr) (semid : Z)
| SemRmid (w : Caller) (semid : Z)
| SemSetPerm (w : Caller) (user : result (Z * Z * Z) SyscallErr) (semid : Z)
| SemSetLimits (a b c d : Z).

(** [sys_semtimedop] up to the point where it answers or starts to wait. *)
Definition sys_semtimedop (y : SemSys) (w : Caller) (alloc1 alloc2 : bool) (semid nsops : Z)
    (user : result (list LinuxSembuf) SyscallErr) (deadline : result unit SyscallErr)
    : SemSys * option (result Z SyscallErr) :=
  let r := registry y in
  match read_sem_ops (limits y) alloc1 nsops user with
  | Err e => (y, Some (Err e))
  | Ok ops =>
      match bt_get semid (sets r) with
      | None => (y, Some (Err EINVAL))
      | Some s =>
          match try_apply_sem_ops w alloc2 s ops with
          | (s, Ok Applied) =>
              (mkSemSys (put_set r semid s) (limits y) (wake_if true (sleepers y)), Some (Ok 0))
          | (_, Err e) => (y, Some (Err e))
          | (_, Ok (Blocked _ _)) =>
              match deadline with
              | Err e => (y, Some (Err e))
              | Ok _ => (mkSemSys r (limits y) (sleepers y ++ [mkSleeper w semid ops None true]), None)
              end
          end
      end
  end.

(** A sleeper evaluates its condition under the lock of the registry. *)
Definition sem_eval (y : SemSys) (i : nat) (x : Sleeper) (time : Z) (alloc : bool)
    : SemSys * option (result Z SyscallErr) :=
  let '(r, registered, answer, woken) :=
    sem_wait_condition (registry y) (at_time (sl_who x) time) alloc (sl_id x) (sl_ops x) (sl_reg x) in
  match answer with
  | Some a => (mkSemSys r (limits y) (wake_if woken (delete i (sleepers y))), Some a)
  | None => (mkSemSys r (limits y)
               (<[i := mkSleeper (sl_who x) (sl_id x) (sl_ops x) registered false]> (sleepers y)), None)
  end.

Definition sem_leave (y : SemSys) (i : nat) (x : Sleeper) : SemSys :=
  let r := registry y in
  let r := match bt_get (sl_id x) (sets r) with
           | Some s => put_set r (sl_id x) (cleanup_sem_wait s (sl_reg x))
           | None => r
           end in
  mkSemSys r (limits y) (delete i (sleepers y)).

Definition commit (y : SemSys) (c : SemRegistry * result Z SyscallErr * bool) : SemSys * option (result Z SyscallErr) :=
  let '(r, a, woken) := c in (mkSemSys r (limits y) (wake_if woken (sleepers y)), Some a).

Definition run_sem_event (y : SemSys) (ev : sem_event) : SemSys * option (result Z SyscallErr) :=
  match ev with
  | SemGet w alloc key nsems semflg =>
      let '(r, a) := sys_semget (registry y) (limits y) w alloc key nsems semflg in
      (mkSemSys r (limits y) (sleepers y), Some a)
  | SemOp w a1 a2 semid nsops user deadline => sys_semtimedop y w a1 a2 semid nsops user deadline
  | SemEval i time alloc =>
      match sleepers y !! i with Some x => sem_eval y i x time alloc | None => (y, None) end
  | SemLeave i timed_out =>
      match sleepers y !! i with
      | Some x => (sem_leave y i x, Some (Err (if timed_out then EAGAIN else EINTR)))
      | None => (y, None)
      end
  | SemSetVal seen w la user semid semnum arg => commit y (semctl_setval seen (registry y) w la user semid semnum arg)
  | SemSetAll seen w alloc user semid => commit y (semctl_setall seen (registry y) w alloc user semid)
  | SemRmid w semid => commit y (semctl_rmid (registry y) w semid)
  | SemSetPerm w user semid =>
      let '(r, a) := semctl_set (registry y) w user semid in (mkSemSys r (limits y) (sleepers y), Some a)
  | SemSetLimits a b c d =>
      let '(l, ok) := set_sysv_sem_limits (limits y) a b c d in
      (mkSemSys (registry y) l (sleepers y), Some (Ok (Z.b2z ok)))
  end.

Fixpoint run_sem_events (y : SemSys) (evs : list sem_event) : SemSys :=
  match evs with [] => y | ev :: evs => run_sem_events (fst (run_sem_event y ev)) evs end.

(** The arguments have the types of the system call interface. *)
Definition event_ok (ev : sem_event) : Prop :=
  match ev with
  | SemGet _ _ _ nsems _ => 0 <= nsems
  | SemOp _ _ _ _ _ (Ok ops) _ => Forall sembuf_ok ops
  | SemSetVal _ _ _ _ _ semnum arg => 0 <= semnum /\ 0 <= arg
  | SemSetLimits a b c d => 0 <= a /\ 0 <= b /\ 0 <= c /\ 0 <= d
  | _ => True
  end.

Definition semops (evs : list sem_event) : Z :=
  zsum (fun ev => match ev with SemOp _ _ _ _ _ _ _ => 1 | _ => 0 end) evs.

(** ** The invariant *)

Definition hits (id n : Z) (z : bool) (x : Sleeper) : Z :=
  if bool_decide (sl_id x = id /\ sl_reg x = Some (n, z)) then 1 else 0.
Definition waiters (l : list Sleeper) (id n : Z) (z : bool) : Z := zsum (hits id n z) l.

Definition counts (s : SemSet) (n : Z) (z : bool) : option Z :=
  (fun m => if z then zcnt m else ncnt m) <$> semaphores s !! Z.to_nat n.

Definition wait_ok (l : list Sleeper) (id : Z) (s : SemSet) : Prop :=
  forall n z c, 0 <= n -> counts s n z = Some c -> c = waiters l id n z.

(** Some operation of the list has to wait whatever the caller may do. *)
Definition starved (values : list Z) (ops : list LinuxSembuf) : Prop := exists l1 op l2 z,
  ops = l1 ++ op :: l2 /\ op_starves (values !!! Z.to_nat (sem_num op) + effect l1 (sem_num op)) op z.

Definition sem_values (s : SemSet) : list Z := value <$> semaphores s.

Record reg_ok (r : SemRegistry) : Prop := {
  ro_wf : bt_wf (sets r);
  ro_cursor : cursor_ok (next_id r);
  ro_ids id s : bt_get id (sets r) = Some s -> issued (next_id r) id;
  ro_sets id s : bt_get id (sets r) = Some s -> set_ok s /\ 1 <= sem_count s <= SEMMSL;
  ro_keys id1 id2 s1 s2 : bt_get id1 (sets r) = Some s1 -> bt_get id2 (sets r) = Some s2 ->
    p_key (s_perm s1) = p_key (s_perm s2) -> p_key (s_perm s1) <> IPC_PRIVATE -> id1 = id2;
  ro_count : Z.of_nat (length (sets r)) <= SEMMNI;
  ro_total : total_semaphores r <= SEMMNI * SEMMSL;
}.

Definition limits_ok (l : SemLimits) : Prop :=
  semmsl l <= SEMMSL /\ semmns l <= SEMMNI * SEMMSL /\ semmni l <= SEMMNI.

Definition sleeper_ok (r : SemRegistry) (x : Sleeper) : Prop :=
  issued (next_id r) (sl_id x) /\ Forall sembuf_ok (sl_ops x) /\ forall n z, sl_reg x = Some (n, z) -> 0 <= n.

Definition blocked (r : SemRegistry) (x : Sleeper) : Prop :=
  exists s, bt_get (sl_id x) (sets r) = Some s /\ starved (sem_values s) (sl_ops x).

Record sleep_ok (r : SemRegistry) (l : list Sleeper) : Prop := {
  so_each x : x ∈ l -> sleeper_ok r x;
  so_wait id s : bt_get id (sets r) = Some s -> wait_ok l id s;
  so_sleep x : x ∈ l -> sl_awake x = false -> blocked r x;
}.

Definition sem_inv (y : SemSys) : Prop :=
  reg_ok (registry y) /\ limits_ok (limits y) /\ sleep_ok (registry y) (sleepers y).

(** ** Starvation *)

Lemma starved_not_applied w a s ops : set_ok s -> Forall sembuf_ok ops -> starved (sem_values s) ops ->
  snd (try_apply_sem_ops w a s ops) <> Ok Applied.
Proof.
  intros Hs Ho (l1 & op & l2 & z & E & Hz) Ha. destruct a; [|done].
  destruct (try_apply_sem_ops w true s ops) as [s' r] eqn:Et. simpl in Ha. subst r.
  apply try_apply_spec in Et as [Hr _]; [|done..]. destruct (Hr l1 op l2 E) as (_ & _ & _ & Hv & H0).
  unfold sem_values in Hz. unfold op_starves, value_ok in *. destruct z; [|lia]. destruct Hz as [Hz Hn]. by apply Hn, H0.
Qed.

Lemma blocked_starved w s ops s' n z : set_ok s -> Forall sembuf_ok ops ->
  try_apply_sem_ops w true s ops = (s', Ok (Blocked n z)) -> s' = s /\ 0 <= n < sem_count s /\ starved (sem_values s) ops.
Proof.
  intros Hs Ho Et. apply try_apply_spec in Et as (-> & l1 & op & l2 & E & _ & <- & Hc & _ & _ & _ & Hz); [|done..].
  split; [done|]. split; [|by exists l1, op, l2, z]. subst ops. apply Forall_app in Ho as [_ Ho].
  apply Forall_cons in Ho as [[H0 _] _]. lia.
Qed.

(** ** Registered waiters *)

Lemma waiters_wake l id n z : waiters (wake <$> l) id n z = waiters l id n z.
Proof. unfold waiters. by rewrite zsum_fmap. Qed.

Lemma hits_bool id n z x : 0 <= hits id n z x <= 1.
Proof. unfold hits. case_bool_decide; lia. Qed.

Lemma waiters_other l id n z x i y : l !! i = Some x -> sl_id x <> id -> sl_id y <> id ->
  waiters (<[i := y]> l) id n z = waiters l id n z /\ waiters (delete i l) id n z = waiters l id n z.
Proof.
  intros E Hx Hy. unfold waiters. rewrite (zsum_insert _ _ _ _ _ E), (zsum_delete _ _ _ _ E). unfold hits.
  rewrite !bool_decide_false by (by intros [? _]). lia.
Qed.

Lemma alter_count (m : bool) (n n' : Z) (z z' : bool) (l : list Semaphore) : 0 <= n -> 0 <= n' ->
  (fun x => if z' then zcnt x else ncnt x) <$> alter (count_waiter z m) (Z.to_nat n) l !! Z.to_nat n' =
  let step c := if m then Z.min (c + 1) u16_max else Z.max (c - 1) 0 in
  (fun x => let c := if z' : bool then zcnt x else ncnt x in if bool_decide (n = n' /\ z = z') then step c else c)
    <$> l !! Z.to_nat n'.
Proof.
  intros Hn Hn'. cbv zeta. destruct (decide (n = n')) as [->|E].
  - rewrite list_lookup_alter_eq. destruct (l !! Z.to_nat n') as [x|]; [|done]. simpl. f_equal.
    destruct z, z'; simpl; by repeat case_bool_decide; naive_solver.
  - rewrite list_lookup_alter_ne by lia. rewrite bool_decide_false by naive_solver. done.
Qed.

Lemma cleanup_counts s reg n z : 0 <= n -> (forall n z, reg = Some (n, z) -> 0 <= n) ->
  counts (cleanup_sem_wait s reg) n z =
    (fun c => if bool_decide (reg = Some (n, z)) then Z.max (c - 1) 0 else c) <$> counts s n z.
Proof.
  intros Hn Hr. unfold counts, cleanup_sem_wait. destruct reg as [[n0 z0]|]; simpl.
  - rewrite alter_count by eauto. cbv zeta. destruct (semaphores s !! Z.to_nat n) as [m|]; [|done]. simpl. f_equal.
    repeat case_bool_decide; naive_solver.
  - destruct (semaphores s !! Z.to_nat n) as [m|]; [|done]. done.
Qed.

Lemma cleanup_values s reg : sem_values (cleanup_sem_wait s reg) = sem_values s /\
  s_perm (cleanup_sem_wait s reg) = s_perm s /\ sem_count (cleanup_sem_wait s reg) = sem_count s.
Proof.
  unfold cleanup_sem_wait, sem_values, sem_count. destruct reg as [[n z]|]; [|done]. simpl. rewrite length_alter.
  split; [|done]. apply fmap_alter_same. intros m. by destruct z.
Qed.

Lemma set_ok_values s s' : sem_values s' = sem_values s -> set_ok s -> set_ok s'.
Proof. unfold set_ok, sem_values. intros E H. apply (Forall_fmap value value_ok). rewrite E. by apply Forall_fmap. Qed.

(** A sleeper that leaves takes its registration with it. *)
Lemma leave_wait_ok l i x s s1 : l !! i = Some x -> wait_ok l (sl_id x) s ->
  (forall n z, sl_reg x = Some (n, z) -> 0 <= n) -> (forall n z, counts s1 n z = counts s n z) ->
  wait_ok (delete i l) (sl_id x) (cleanup_sem_wait s1 (sl_reg x)).
Proof.
  intros E Hw Hr Hc n z c Hn. rewrite cleanup_counts, Hc by done. destruct (counts s n z) as [c0|] eqn:Ec; [|done].
  specialize (Hw n z c0 Hn Ec). simpl. intros [= <-]. unfold waiters in *. rewrite (zsum_delete _ _ _ _ E).
  pose proof (zsum_split (hits (sl_id x) n z) l i x E) as Hs.
  pose proof (zsum_bounds (hits (sl_id x) n z) (take i l) (hits_bool _ _ _)).
  pose proof (zsum_bounds (hits (sl_id x) n z) (drop (S i) l) (hits_bool _ _ _)).
  subst c0. assert (Hh : hits (sl_id x) n z x = if bool_decide (sl_reg x = Some (n, z)) then 1 else 0)
    by (unfold hits; repeat case_bool_decide; naive_solver).
  rewrite Hh in *. destruct (bool_decide _); lia.
Qed.

(** A sleeper that stays is registered for what it waits for now. *)
Lemma update_wait_ok l i x s n z s' reg' a : l !! i = Some x -> wait_ok l (sl_id x) s -> 0 <= n < sem_count s ->
  (forall n z, sl_reg x = Some (n, z) -> 0 <= n) -> Z.of_nat (length l) <= u16_max ->
  update_sem_wait s (sl_reg x) (n, z) = (s', reg') ->
  reg' = Some (n, z) /\ sem_values s' = sem_values s /\ s_perm s' = s_perm s /\ sem_count s' = sem_count s /\
  wait_ok (<[i := mkSleeper (sl_who x) (sl_id x) (sl_ops x) reg' a]> l) (sl_id x) s'.
Proof.
  intros E Hw Hn Hr Hl. unfold update_sem_wait. case_bool_decide as Hreg.
  { intros [= <- <-]. split_and!; try done. intros n1 z1 c H0 Hc. rewrite (Hw n1 z1 c H0 Hc).
    unfold waiters. rewrite (zsum_insert _ _ _ _ _ E). unfold hits. simpl. lia. }
  destruct (cleanup_values s (sl_reg x)) as (V1 & V2 & V3). cbn [fst snd].
  destruct (semaphores (cleanup_sem_wait s (sl_reg x)) !! Z.to_nat n) as [m|] eqn:Em.
  2: { apply lookup_ge_None in Em. unfold sem_count in *. lia. }
  intros [= <- <-]. unfold sem_values, sem_count. simpl. rewrite length_alter.
  split_and!; [done| |done|unfold sem_count in V3; lia|].
  { rewrite fmap_alter_same by (intros m0; by destruct z). exact V1. }
  pose proof (leave_wait_ok l i x s s E Hw Hr ltac:(done)) as Hd.
  intros n1 z1 c H0. unfold counts. simpl. rewrite alter_count by lia. cbv zeta.
  destruct (semaphores (cleanup_sem_wait s (sl_reg x)) !! Z.to_nat n1) as [m1|] eqn:Em1; [|done]. simpl. intros [= <-].
  assert (Hc1 : (if z1 then zcnt m1 else ncnt m1) = waiters (delete i l) (sl_id x) n1 z1).
  { apply Hd; [done|]. unfold counts. by rewrite Em1. }
  rewrite Hc1. unfold waiters. rewrite (zsum_insert _ _ _ _ _ E), (zsum_delete _ _ _ _ E).
  pose proof (zsum_bounds (hits (sl_id x) n1 z1) (delete i l) (hits_bool _ _ _)) as Hb.
  rewrite (zsum_delete _ _ _ _ E), length_delete in Hb by eauto. pose proof (lookup_lt_Some _ _ _ E).
  assert (Hh : hits (sl_id x) n1 z1 (mkSleeper (sl_who x) (sl_id x) (sl_ops x) (Some (n, z)) a) =
               if bool_decide (n = n1 /\ z = z1) then 1 else 0)
    by (unfold hits; simpl; repeat case_bool_decide; naive_solver).
  rewrite Hh. destruct (bool_decide _); lia.
Qed.
