(* ===== verification/SemInvariant.v ===== *)
(** Every event keeps the invariant of the semaphore registry. *)

From stdpp Require Import base numbers option list.
From S2P Require Import Prelude BTree SysvIpc SysvSem SemHistory.

(** ** Changes of one set *)

Definition same_shape (s s' : SemSet) : Prop :=
  p_key (s_perm s') = p_key (s_perm s) /\ sem_count s' = sem_count s.

Lemma put_reg_ok r id s s' : reg_ok r -> bt_get id (sets r) = Some s -> same_shape s s' -> set_ok s' ->
  reg_ok (put_set r id s').
Proof.
  intros [W C I S K L T] Hg [Hk Hc] Hs. split; simpl; [by apply bt_wf_insert|done| | | | |].
  - intros id1 s1. rewrite bt_get_insert by done. destruct (Z.eqb_spec id1 id) as [->|]; eauto.
  - intros id1 s1. rewrite bt_get_insert by done. destruct (Z.eqb_spec id1 id) as [->|]; [|eauto].
    intros [= <-]. rewrite Hc. split; [done|]. by eapply S.
  - intros id1 id2 s1 s2. rewrite !bt_get_insert by done.
    destruct (Z.eqb_spec id1 id) as [->|], (Z.eqb_spec id2 id) as [->|]; try done; intros; simplify_eq.
    + apply (K id id2 s s2); [done|done|congruence|congruence].
    + apply (K id1 id s1 s); [done|done|congruence|congruence].
    + by apply (K id1 id2 s1 s2).
  - rewrite bt_length_sum, (bt_sum_insert_old _ _ _ s) by done. rewrite bt_length_sum in L. lia.
  - unfold total_semaphores in *. simpl. rewrite (bt_sum_insert_old _ _ _ s) by done. lia.
Qed.

Lemma sleep_put r l id s s' l' : sleep_ok r l -> bt_wf (sets r) -> bt_get id (sets r) = Some s ->
  (forall x, x ∈ l' -> sleeper_ok r x) -> wait_ok l' id s' ->
  (forall id' n z, id' <> id -> waiters l' id' n z = waiters l id' n z) ->
  (forall x, x ∈ l' -> sl_awake x = false -> blocked (put_set r id s') x) ->
  sleep_ok (put_set r id s') l'.
Proof.
  intros [_ Hw _] W Hg He Hw' Ho Hs. split; [done| |done].
  intros id1 s1. simpl. rewrite bt_get_insert by done. destruct (Z.eqb_spec id1 id) as [->|Hne].
  - intros [= <-]. done.
  - intros Hg1 n z c Hn Hc. rewrite Ho by done. by apply (Hw id1 s1 Hg1).
Qed.

Lemma sleeper_wake r (l : list Sleeper) x : (forall x, x ∈ l -> sleeper_ok r x) -> x ∈ wake <$> l -> sleeper_ok r x /\ sl_awake x = true.
Proof. intros H [x0 [-> Hx]]%list_elem_of_fmap. split; [exact (H x0 Hx)|done]. Qed.

Lemma elem_of_delete {A} (l : list A) i x : x ∈ delete i l -> x ∈ l.
Proof.
  rewrite delete_take_drop, elem_of_app. intros H. rewrite <- (take_drop i l), elem_of_app.
  destruct H as [H|H]; [by left|right]. rewrite <- (take_drop 1 (drop i l)), elem_of_app, drop_drop. right.
  by replace (i + 1)%nat with (S i) by lia.
Qed.

(** Values changed: everybody is woken. *)
Lemma put_and_wake r l id s s' : reg_ok r -> sleep_ok r l -> bt_get id (sets r) = Some s -> same_shape s s' ->
  set_ok s' -> (forall n z, counts s' n z = counts s n z) ->
  reg_ok (put_set r id s') /\ sleep_ok (put_set r id s') (wake <$> l).
Proof.
  intros Hr Hl Hg Hsh Hs Hc. split; [by eapply put_reg_ok|]. eapply sleep_put; try done; [apply Hr| | | |].
  - intros x Hx. by eapply sleeper_wake in Hx as [? _]; [|apply Hl].
  - intros n z c Hn. rewrite Hc, waiters_wake. by apply (so_wait _ _ Hl id s).
  - intros. apply waiters_wake.
  - intros x Hx Ha. eapply sleeper_wake in Hx as [_ Hx]; [congruence|apply Hl].
Qed.

(** Values kept: whoever sleeps has reason to. *)
Lemma still_blocked r id s s' x : bt_wf (sets r) -> bt_get id (sets r) = Some s -> sem_values s' = sem_values s ->
  blocked r x -> blocked (put_set r id s') x.
Proof.
  intros W Hg Hv (s0 & H0 & H1). unfold blocked. simpl. rewrite bt_get_insert by done.
  destruct (Z.eqb_spec (sl_id x) id) as [E|]; [|eauto]. exists s'. split; [done|]. rewrite Hv. congruence.
Qed.

Lemma put_quiet r l id s s' : reg_ok r -> sleep_ok r l -> bt_get id (sets r) = Some s -> same_shape s s' ->
  sem_values s' = sem_values s -> (forall n z, counts s' n z = counts s n z) ->
  reg_ok (put_set r id s') /\ sleep_ok (put_set r id s') l.
Proof.
  intros Hr Hl Hg Hsh Hv Hc. assert (Hs : set_ok s') by (eapply set_ok_values; [done|by eapply (ro_sets _ Hr)]).
  split; [by eapply put_reg_ok|]. eapply sleep_put; try done; [apply Hr|apply Hl| |].
  - intros n z c Hn. rewrite Hc. by apply (so_wait _ _ Hl id s).
  - intros x Hx Ha. eapply still_blocked; [apply Hr|done..|]. by apply Hl.
Qed.

(** One sleeper leaves. *)
Lemma put_leave r l i x s s1 : reg_ok r -> sleep_ok r l -> l !! i = Some x -> bt_get (sl_id x) (sets r) = Some s ->
  same_shape s s1 -> set_ok s1 -> (forall n z, counts s1 n z = counts s n z) ->
  reg_ok (put_set r (sl_id x) (cleanup_sem_wait s1 (sl_reg x))) /\
  sleep_ok (put_set r (sl_id x) (cleanup_sem_wait s1 (sl_reg x))) (wake <$> delete i l) /\
  (sem_values s1 = sem_values s -> sleep_ok (put_set r (sl_id x) (cleanup_sem_wait s1 (sl_reg x))) (delete i l)).
Proof.
  intros Hr Hl E Hg [Hk Hn] Hs Hc. destruct (cleanup_values s1 (sl_reg x)) as (V1 & V2 & V3).
  assert (Hxl : x ∈ l) by (by eapply list_elem_of_lookup_2). pose proof (so_each _ _ Hl x Hxl) as (_ & _ & Hreg).
  pose proof (leave_wait_ok l i x s s1 E (so_wait _ _ Hl _ s Hg) Hreg Hc) as Hw.
  assert (He : forall x0, x0 ∈ delete i l -> sleeper_ok r x0) by (intros; by eapply Hl, elem_of_delete).
  assert (Ho : forall id' n z, id' <> sl_id x -> waiters (delete i l) id' n z = waiters l id' n z).
  { intros id' n z Hne. by eapply (waiters_other l id' n z x i x). }
  split; [|split].
  - eapply put_reg_ok; [done|done| |by eapply set_ok_values]. split; congruence.
  - eapply sleep_put; try done; [apply Hr| | | |].
    + intros x0 Hx0. by eapply sleeper_wake in Hx0 as [? _].
    + intros n z c H0 Hc0. rewrite waiters_wake. by apply Hw.
    + intros. rewrite waiters_wake. by apply Ho.
    + intros x0 Hx0 Ha. eapply sleeper_wake in Hx0 as [_ Hx0]; [congruence|done].
  - intros Hv. eapply sleep_put; try done; [apply Hr|].
    intros x0 Hx0 Ha. eapply still_blocked; [apply Hr|done|congruence|]. by eapply Hl; [eapply elem_of_delete|].
Qed.

(** A sleeper whose set is gone leaves. *)
Lemma gone_leave r l i x : sleep_ok r l -> l !! i = Some x -> bt_get (sl_id x) (sets r) = None ->
  sleep_ok r (delete i l).
Proof.
  intros Hl E Hg. split.
  - intros x0 Hx0. by eapply Hl, elem_of_delete.
  - intros id s Hs n z c Hn Hc. rewrite (so_wait _ _ Hl id s Hs n z c Hn Hc). symmetry.
    eapply (waiters_other l id n z x i x); [done|congruence|congruence].
  - intros x0 Hx0. by eapply Hl, elem_of_delete.
Qed.

(** ** Events *)

Lemma try_apply_any w a s ops s' r : set_ok s -> Forall sembuf_ok ops -> try_apply_sem_ops w a s ops = (s', r) ->
  match r with
  | Ok Applied => same_shape s s' /\ set_ok s' /\ forall n z, counts s' n z = counts s n z
  | Ok (Blocked n z) => s' = s /\ 0 <= n < sem_count s /\ starved (sem_values s) ops
  | Err _ => s' = s
  end.
Proof.
  intros Hs Ho. destruct a; [|by intros [= <- <-]]. intros Et.
  destruct r as [[|n z]|e]; [|by eapply blocked_starved|by apply try_apply_spec in Et as [-> _]].
  apply try_apply_spec in Et as (_ & (H1 & _ & H2 & _ & H3) & H4); [|done..].
  split; [split; [by rewrite H1|done]|]. split; [done|]. intros n z. unfold counts.
  replace (Z.to_nat n) with (Z.to_nat (Z.max n 0)) by lia. rewrite H3 by lia.
  destruct (semaphores s !! _); [|done]. done.
Qed.

Lemma fresh_waiters r l id n z : (forall x, x ∈ l -> sleeper_ok r x) -> ~ issued (next_id r) id -> waiters l id n z = 0.
Proof.
  intros Hl Hi. apply zsum_zero. intros x Hx. unfold hits. rewrite bool_decide_false; [done|].
  intros [<- _]. apply Hi, (Hl x Hx).
Qed.

Lemma sem_find_by_key_None r key : sem_find_by_key r key = None ->
  forall id s, bt_get id (sets r) = Some s -> p_key (s_perm s) <> key.
Proof.
  unfold sem_find_by_key. intros H id s Hg Hk. apply bt_get_elem in Hg.
  assert (Hin : (id, s) ∈ filter (fun e => p_key (s_perm e.2) = key) (sets r)) by (by apply list_elem_of_filter).
  destruct (filter _ (sets r)); [by apply not_elem_of_nil in Hin|done].
Qed.

Lemma new_set_ok w key nsems mode s : sem_set_new w true key nsems mode = Ok s -> 0 <= nsems ->
  set_ok s /\ sem_count s = nsems /\ p_key (s_perm s) = key /\ forall n z c, counts s n z = Some c -> c = 0.
Proof.
  intros [= <-] Hn. unfold set_ok, sem_count. simpl. rewrite length_replicate. split_and!; [|lia|done|].
  - apply Forall_replicate. unfold value_ok, SEMVMX. simpl. lia.
  - intros n z c. unfold counts. simpl. destruct (replicate _ _ !! _) as [m|] eqn:E; [|done].
    apply lookup_replicate in E as [-> _]. simpl. destruct z; congruence.
Qed.

(** A set is created under an identifier and a key nobody uses. *)
Lemma create_set_ok r l cursor id s : reg_ok r -> sleep_ok r l -> alloc_id (next_id r) = (cursor, Some id) ->
  set_ok s -> 1 <= sem_count s <= SEMMSL -> (forall n z c, counts s n z = Some c -> c = 0) ->
  (p_key (s_perm s) <> IPC_PRIVATE -> forall id1 s1, bt_get id1 (sets r) = Some s1 -> p_key (s_perm s1) <> p_key (s_perm s)) ->
  Z.of_nat (length (sets r)) < SEMMNI -> total_semaphores r + sem_count s <= SEMMNI * SEMMSL ->
  let r' := put_set (mkSemRegistry cursor (sets r)) id s in reg_ok r' /\ sleep_ok r' l.
Proof.
  intros Hr [L1 L2 L3] Ha Hs Hc H0 Hk Hlen Htot. pose proof Hr as [W C I S K L T].
  destruct (alloc_id_fresh _ _ _ C Ha) as (C' & Hi & Hni & Hm). cbv zeta.
  assert (Hg : bt_get id (sets r) = None).
  { destruct (bt_get id (sets r)) eqn:E; [|done]. by destruct Hni; eapply I. }
  split; split; simpl; [by apply bt_wf_insert|done| | | | | | | |].
  - intros id1 s1. rewrite bt_get_insert by done. destruct (Z.eqb_spec id1 id) as [->|]; eauto.
  - intros id1 s1. rewrite bt_get_insert by done. destruct (Z.eqb_spec id1 id); [intros [= <-]|]; eauto.
  - intros id1 id2 s1 s2. rewrite !bt_get_insert by done.
    destruct (Z.eqb_spec id1 id) as [->|], (Z.eqb_spec id2 id) as [->|]; try done; intros; simplify_eq.
    + by edestruct Hk.
    + edestruct Hk; [congruence|done|done].
    + by eapply K.
  - rewrite bt_length_sum, bt_sum_insert_new, <- bt_length_sum by done. lia.
  - unfold total_semaphores in *. simpl. rewrite bt_sum_insert_new by done. lia.
  - intros x Hx. destruct (L1 x Hx) as (X1 & X2 & X3). split; [by apply Hm|done].
  - intros id1 s1. rewrite bt_get_insert by done. destruct (Z.eqb_spec id1 id) as [->|]; [|by apply L2].
    intros [= <-] n z c Hn Hct. rewrite (H0 n z c Hct). symmetry. by eapply fresh_waiters.
  - intros x Hx Hw. destruct (L3 x Hx Hw) as (s0 & G & St). exists s0. simpl. rewrite bt_get_insert by done.
    destruct (Z.eqb_spec (sl_id x) id) as [E|]; [congruence|done].
Qed.

Lemma skip_id_ok r l cursor id : reg_ok r -> sleep_ok r l -> alloc_id (next_id r) = (cursor, id) ->
  let r' := mkSemRegistry cursor (sets r) in reg_ok r' /\ sleep_ok r' l.
Proof.
  intros [W C I S K L T] [L1 L2 L3] Ha. cbv zeta.
  assert (Hm : cursor_ok cursor /\ forall i, issued (next_id r) i -> issued cursor i).
  { destruct id as [id|]; [destruct (alloc_id_fresh _ _ _ C Ha) as (? & _ & _ & ?); done|].
    unfold alloc_id in Ha. destruct (next_id r); simplify_eq; done. }
  destruct Hm as [C' Hm]. split; split; simpl; try done; [eauto|].
  intros x Hx. destruct (L1 x Hx) as (X1 & X2 & X3). split; [by apply Hm|done].
Qed.

Lemma semget_ok r l w alloc key nsems semflg lim r' a : reg_ok r -> sleep_ok r l -> limits_ok lim -> 0 <= nsems ->
  sys_semget r lim w alloc key nsems semflg = (r', a) -> reg_ok r' /\ sleep_ok r' l.
Proof.
  intros Hr Hl (M1 & M2 & M3) Hn. unfold sys_semget. cbv zeta.
  set (create := if (nsems =? 0) || _ then _ else _).
  assert (Hcreate : (key <> IPC_PRIVATE -> sem_find_by_key r key = None) -> create = (r', a) -> reg_ok r' /\ sleep_ok r' l).
  { intros Hk. unfold create. destruct (Z.eqb_spec nsems 0), (Z.ltb_spec (semmsl lim) nsems); simpl; try (by intros [= <- _]).
    destruct (Z.leb_spec (semmni lim) (Z.of_nat (length (sets r)))); [by intros [= <- _]|].
    destruct (Z.ltb_spec (semmns lim) (saturating_add (total_semaphores r) nsems)) as [|Hsat]; [by intros [= <- _]|].
    assert (Htot : total_semaphores r + nsems <= SEMMNI * SEMMSL)
      by (unfold saturating_add, usize_max, usize_modulus, SEMMNI, SEMMSL in *; lia).
    destruct (alloc_id (next_id r)) as [cursor [id|]] eqn:Ea; [|intros [= <- _]; by eapply skip_id_ok].
    destruct alloc; [|intros [= <- _]; by eapply skip_id_ok]. intros [= <- _].
    destruct (new_set_ok w key nsems (Z.land semflg 511) _ eq_refl Hn) as (N1 & N2 & N3 & N4).
    eapply create_set_ok; try done; [rewrite N2; lia| |lia|rewrite N2; lia].
    rewrite N3. intros Hp id1 s1. by apply sem_find_by_key_None, Hk. }
  destruct (Z.eqb_spec key IPC_PRIVATE); [by apply Hcreate|].
  destruct (sem_find_by_key r key) as [[id s]|].
  - intros H. repeat case_match; by simplify_eq.
  - destruct (Z.land semflg IPC_CREAT =? 0); [by intros [= <- _]|]. by apply Hcreate.
Qed.

Lemma store_shape s p v i (s' := mkSemSet (s_perm s) (alter (store_value p v) i (semaphores s)) (otime s) (ctime s)) :
  sem_count s' = sem_count s /\ forall n z, counts s' n z = counts s n z.
Proof.
  unfold sem_count, counts. simpl. rewrite length_alter. split; [done|]. intros n z.
  destruct (decide (i = Z.to_nat n)) as [->|]; [|by rewrite list_lookup_alter_ne].
  rewrite list_lookup_alter_eq. by destruct (semaphores s !! Z.to_nat n).
Qed.

Lemma decode_value la user arg v : 0 <= arg -> decode_semctl_setval_arg la user arg = Ok v -> value_ok v.
Proof.
  intros Ha. unfold decode_semctl_setval_arg, value_ok. destruct (Z.leb_spec arg SEMVMX); [intros [= <-]; lia|].
  intros H1. repeat case_match; simplify_eq;
    match goal with H : _ && _ = true |- _ => apply andb_true_iff in H as [?%Z.leb_le ?%Z.leb_le] end; lia.
Qed.

Lemma setval_ok seen r l w la user semid semnum arg r' a b : reg_ok r -> sleep_ok r l -> 0 <= arg ->
  semctl_setval seen r w la user semid semnum arg = (r', a, b) -> reg_ok r' /\ sleep_ok r' (wake_if b l).
Proof.
  intros Hr Hl Ha. unfold semctl_setval. destruct (setval_check seen _ _ _) as [s0|e]; [|by intros [= <- _ <-]].
  destruct (decode_semctl_setval_arg la user arg) as [v|e] eqn:Ed; [|by intros [= <- _ <-]].
  unfold setval_check. destruct (bt_get semid (sets r)) as [s|] eqn:Hg; [|by intros [= <- _ <-]].
  destruct (sem_count s <=? semnum); [by intros [= <- _ <-]|].
  destruct (can_modify w (s_perm s)); simpl; [|by intros [= <- _ <-]]. intros [= <- _ <-].
  pose proof (ro_sets _ Hr _ _ Hg) as [Hs _]. destruct (store_shape s (pid w) v (Z.to_nat semnum)) as [S1 S2].
  eapply put_and_wake; [done..|by split| |done].
  apply Forall_alter; [done|]. intros m _ _. by eapply decode_value.
Qed.

Lemma setall_ok seen r l w alloc user semid r' a b : reg_ok r -> sleep_ok r l ->
  semctl_setall seen r w alloc user semid = (r', a, b) -> reg_ok r' /\ sleep_ok r' (wake_if b l).
Proof.
  intros Hr Hl. unfold semctl_setall. destruct (bt_get semid (sets seen)) as [s0|]; [|by intros [= <- _ <-]].
  destruct (can_modify w (s_perm s0)); simpl; [|by intros [= <- _ <-]]. destruct alloc; simpl; [|by intros [= <- _ <-]].
  destruct user as [array|e]; [|by intros [= <- _ <-]]. set (values := fmap _ _).
  destruct (existsb _ values) eqn:Ev; [by intros [= <- _ <-]|].
  destruct (bt_get semid (sets r)) as [s|] eqn:Hg; [|by intros [= <- _ <-]].
  destruct (Z.eqb_spec (sem_count s) (sem_count s0)) as [Hc|]; simpl; [|by intros [= <- _ <-]].
  destruct (can_modify w (s_perm s)); simpl; [|by intros [= <- _ <-]]. intros [= <- _ <-].
  assert (Hlen : length values = length (semaphores s)).
  { unfold values, sem_count in *. rewrite length_fmap, length_seq. lia. }
  eapply put_and_wake; [done..| | |].
  - split; [done|]. unfold sem_count. simpl. rewrite length_zip_with. lia.
  - unfold set_ok. simpl. apply Forall_lookup. intros i m Hm.
    apply lookup_zip_with_Some in Hm as (m0 & v & -> & _ & Hv). simpl.
    assert (Hin : v ∈ values) by (by eapply list_elem_of_lookup_2).
    destruct (Z.ltb_spec SEMVMX v) as [Hlt|Hge].
    + assert (existsb (fun v => SEMVMX <? v) values = true) as Ht; [|congruence].
      apply existsb_exists. exists v. split; [by apply list_elem_of_In|by apply Z.ltb_lt].
    + apply list_elem_of_fmap in Hin as (k & -> & _). split; [|done]. by apply Z.mod_pos_bound.
  - intros n z. unfold counts. simpl. rewrite lookup_zip_with. destruct (semaphores s !! Z.to_nat n) as [m|] eqn:E; [|done].
    simpl. destruct (lookup_lt_is_Some_2 values (Z.to_nat n)) as [v ->]; [|done].
    rewrite Hlen. by eapply lookup_lt_Some.
Qed.

Lemma rmid_ok r l w semid r' a b : reg_ok r -> sleep_ok r l -> semctl_rmid r w semid = (r', a, b) ->
  reg_ok r' /\ sleep_ok r' (wake_if b l).
Proof.
  intros Hr Hl. unfold semctl_rmid. destruct (bt_get semid (sets r)) as [s|] eqn:Hg; [|by intros [= <- _ <-]].
  destruct (can_modify w (s_perm s)); simpl; [|by intros [= <- _ <-]]. intros [= <- _ <-].
  destruct Hr as [W C I S K L T]. assert (Hget : forall id s0, bt_get id (bt_remove semid (sets r)) = Some s0 ->
    bt_get id (sets r) = Some s0).
  { intros id s0. rewrite bt_get_remove by done. by destruct (id =? semid). }
  split; split; simpl; [by apply bt_wf_remove|done|eauto|eauto|eauto| | | | |].
  - pose proof (bt_length_remove semid s _ W Hg). lia.
  - unfold total_semaphores in *. simpl. rewrite (bt_sum_remove _ _ s) by done. unfold sem_count at 2. lia.
  - intros x Hx. by eapply sleeper_wake in Hx as [? _]; [|apply Hl].
  - intros id s0 Hs0 n z c Hn Hc. rewrite waiters_wake. by apply (so_wait _ _ Hl id s0); [apply Hget|..].
  - intros x Hx Ha. eapply sleeper_wake in Hx as [_ Hx]; [congruence|apply Hl].
Qed.

Lemma setperm_ok r l w user semid r' a : reg_ok r -> sleep_ok r l -> semctl_set r w user semid = (r', a) ->
  reg_ok r' /\ sleep_ok r' l.
Proof.
  intros Hr Hl. unfold semctl_set. destruct user as [[[uid gid] mode]|e]; [|by intros [= <- _]].
  destruct (bt_get semid (sets r)) as [s|] eqn:Hg; [|by intros [= <- _]].
  destruct (can_modify w (s_perm s)); simpl; [|by intros [= <- _]]. intros [= <- _]. by eapply put_quiet.
Qed.

Lemma semtimedop_ok y w a1 a2 semid nsops user deadline : sem_inv y -> event_ok (SemOp w a1 a2 semid nsops user deadline) ->
  let y' := fst (sys_semtimedop y w a1 a2 semid nsops user deadline) in
  sem_inv y' /\ (length (sleepers y') <= S (length (sleepers y)))%nat.
Proof.
  intros (Hr & Hm & Hl) Hev. unfold sys_semtimedop, read_sem_ops. cbv zeta.
  destruct (nsops =? 0); [split; [done|simpl; lia]|]. destruct (semopm _ <? nsops); [split; [done|simpl; lia]|].
  destruct a1; [simpl|split; [done|simpl; lia]]. destruct user as [ops|e]; [simpl in Hev|split; [done|simpl; lia]].
  destruct (bt_get semid _) as [s|] eqn:Hg; [|split; [done|simpl; lia]].
  pose proof (ro_sets _ Hr _ _ Hg) as [Hs _]. destruct (try_apply_sem_ops w a2 s ops) as [s' res] eqn:Et.
  pose proof (try_apply_any _ _ _ _ _ _ Hs Hev Et) as Ht. destruct res as [[|n z]|e]; simpl; [| |split; [done|lia]].
  - destruct Ht as (T1 & T2 & T3). rewrite length_fmap. split; [|lia].
    destruct (put_and_wake _ _ _ _ _ Hr Hl Hg T1 T2 T3) as [P1 P2]. split; [exact P1|]. by split.
  - destruct deadline; simpl; [|split; [done|lia]]. rewrite length_app. simpl. split; [|lia].
    split; [done|]. split; [done|]. destruct Hl as [L1 L2 L3]. split.
    + intros x [Hx| ->%list_elem_of_singleton]%elem_of_app; [by apply L1|].
      split; [by eapply (ro_ids _ Hr)|]. by split.
    + intros id s0 Hs0 k z0 c Hk Hc. cbn [sleepers]. unfold waiters. rewrite zsum_app.
      replace (zsum _ [_]) with 0 by (simpl; unfold hits; simpl; by rewrite bool_decide_false by naive_solver).
      rewrite Z.add_0_r. by apply (L2 id s0).
    + intros x [Hx| ->%list_elem_of_singleton]%elem_of_app; [by apply L3|done].
Qed.

Lemma elem_of_insert_list {A} (l : list A) i y x : x ∈ <[i := y]> l -> x = y \/ x ∈ l.
Proof.
  intros [j Hj]%list_elem_of_lookup. destruct (decide (i = j)) as [->|E].
  - apply list_lookup_insert_Some in Hj as [(_ & <- & _)|[? _]]; [by left|done].
  - rewrite list_lookup_insert_ne in Hj by done. right. by eapply list_elem_of_lookup_2.
Qed.

Lemma eval_ok y i x time alloc : sem_inv y -> sleepers y !! i = Some x -> Z.of_nat (length (sleepers y)) <= u16_max ->
  let y' := fst (sem_eval y i x time alloc) in sem_inv y' /\ (length (sleepers y') <= length (sleepers y))%nat.
Proof.
  intros (Hr & Hm & Hl) E Hlen. unfold sem_eval, sem_wait_condition. cbv zeta.
  assert (Hxl : x ∈ sleepers y) by (by eapply list_elem_of_lookup_2).
  pose proof (so_each _ _ Hl x Hxl) as (X1 & X2 & X3).
  assert (Hd : length (delete i (sleepers y)) = (length (sleepers y) - 1)%nat).
  { apply length_delete. by eexists. }
  destruct (bt_get (sl_id x) _) as [s|] eqn:Hg.
  2: { simpl. split; [|lia]. split; [done|]. split; [done|]. by eapply gone_leave. }
  pose proof (ro_sets _ Hr _ _ Hg) as [Hs _].
  destruct (try_apply_sem_ops _ alloc s (sl_ops x)) as [s' res] eqn:Et.
  pose proof (try_apply_any _ _ _ _ _ _ Hs X2 Et) as Ht. destruct res as [[|n z]|e]; simpl.
  - destruct Ht as (T1 & T2 & T3). rewrite length_fmap. split; [|lia].
    destruct (put_leave _ _ i x s s' Hr Hl E Hg T1 T2 T3) as (P1 & P2 & _). split; [exact P1|]. by split.
  - destruct Ht as (-> & Hn & Hst). destruct (update_sem_wait s (sl_reg x) (n, z)) as [s1 reg'] eqn:Eu.
    destruct (update_wait_ok _ _ _ _ _ _ _ _ false E (so_wait _ _ Hl _ _ Hg) Hn X3 Hlen Eu) as (-> & V1 & V2 & V3 & V4).
    simpl. rewrite length_insert. split; [|done]. split; [|split; [done|]].
    + eapply put_reg_ok; [done..| |by eapply set_ok_values]. split; [by rewrite V2|done].
    + eapply sleep_put; try done; [apply Hr| | |].
      * intros x0 [->|Hx0]%elem_of_insert_list; [|by apply Hl]. split; [done|]. split; [done|]. simpl. intros ? ? [= <- _]. lia.
      * intros id' n1 z1 Hne. eapply waiters_other; done.
      * intros x0 [->|Hx0]%elem_of_insert_list Ha.
        -- exists s1. simpl. rewrite bt_get_insert, Z.eqb_refl, V1 by apply Hr. done.
        -- eapply still_blocked; [apply Hr|done..|]. by apply Hl.
  - subst s'. split; [|lia].
    destruct (put_leave _ _ i x s s Hr Hl E Hg (conj eq_refl eq_refl) Hs ltac:(done)) as (P1 & _ & P3).
    split; [exact P1|]. split; [done|by apply P3].
Qed.

Lemma leave_ok y i x : sem_inv y -> sleepers y !! i = Some x -> sem_inv (sem_leave y i x).
Proof.
  intros (Hr & Hm & Hl) E. unfold sem_leave. destruct (bt_get (sl_id x) _) as [s|] eqn:Hg.
  - pose proof (ro_sets _ Hr _ _ Hg) as [Hs _].
    destruct (put_leave _ _ i x s s Hr Hl E Hg (conj eq_refl eq_refl) Hs ltac:(done)) as (P1 & _ & P3).
    split; [exact P1|]. split; [done|by apply P3].
  - split; [done|]. split; [done|]. by eapply gone_leave.
Qed.

Lemma limits_change l a b c d : limits_ok l -> limits_ok (fst (set_sysv_sem_limits l a b c d)).
Proof.
  intros H. unfold set_sysv_sem_limits. destruct (_ || _); [done|].
  destruct (Z.ltb_spec SEMMSL a), (Z.ltb_spec (SEMMNI * SEMMSL) b), (Z.ltb_spec SEMOPM c), (Z.ltb_spec SEMMNI d); done.
Qed.

Lemma sem_commit_ok y c : sem_inv y -> (forall r a b, c = (r, a, b) -> reg_ok r /\ sleep_ok r (wake_if b (sleepers y))) ->
  sem_inv (fst (commit y c)) /\ length (sleepers (fst (commit y c))) = length (sleepers y).
Proof.
  intros (_ & Hm & _) H. destruct c as [[r a] b]. destruct (H r a b eq_refl) as [H1 H2]. simpl.
  split; [done|]. destruct b; [apply length_fmap|done].
Qed.

Lemma sem_event_ok y ev : sem_inv y -> event_ok ev -> Z.of_nat (length (sleepers y)) <= u16_max ->
  let y' := fst (run_sem_event y ev) in
  sem_inv y' /\ Z.of_nat (length (sleepers y')) <= Z.of_nat (length (sleepers y)) + semops [ev].
Proof.
  intros Hy Hev Hlen. pose proof Hy as (Hr & Hm & Hl).
  destruct ev as [w al k ns fl|w a1 a2 id nops user dl|i t al|i to|seen w la user id nm arg|seen w al user id|w id|w user id|a b c d];
    cbn [run_sem_event]; unfold semops; cbn [zsum foldr].
  - destruct (sys_semget _ _ _ _ _ _ _) as [r a] eqn:E. simpl. split; [|lia].
    destruct (semget_ok _ _ _ _ _ _ _ _ _ _ Hr Hl Hm Hev E). by split.
  - destruct (semtimedop_ok y w a1 a2 id nops user dl Hy Hev) as [H1 H2]. split; [done|lia].
  - destruct (sleepers y !! i) as [x|] eqn:E; [|simpl; split; [done|lia]].
    destruct (eval_ok y i x t al Hy E Hlen) as [H1 H2]. split; [done|lia].
  - destruct (sleepers y !! i) as [x|] eqn:E; [|simpl; split; [done|lia]]. simpl. split; [by apply leave_ok|].
    rewrite length_delete by eauto. lia.
  - destruct (sem_commit_ok y (semctl_setval seen (registry y) w la user id nm arg) Hy) as [H1 H2]; [|split; [done|lia]].
    intros r a b Hc. eapply setval_ok; [done..|apply Hev|done].
  - destruct (sem_commit_ok y (semctl_setall seen (registry y) w al user id) Hy) as [H1 H2]; [|split; [done|lia]].
    intros r a b Hc. by eapply setall_ok.
  - destruct (sem_commit_ok y (semctl_rmid (registry y) w id) Hy) as [H1 H2]; [|split; [done|lia]].
    intros r a b Hc. by eapply rmid_ok.
  - destruct (semctl_set _ _ _ _) as [r a] eqn:E. simpl. split; [|lia].
    destruct (setperm_ok _ _ _ _ _ _ _ Hr Hl E). by split.
  - destruct (set_sysv_sem_limits _ _ _ _ _) as [l ok] eqn:E. simpl. split; [|lia]. split; [done|]. split; [|done].
    pose proof (limits_change (limits y) a b c d Hm) as H. by rewrite E in H.
Qed.

Lemma sem_events_ok evs : forall y, sem_inv y -> Forall event_ok evs ->
  Z.of_nat (length (sleepers y)) + semops evs <= u16_max -> sem_inv (run_sem_events y evs).
Proof.
  induction evs as [|ev evs IH]; intros y Hy Hev Hlen; [done|]. apply Forall_cons in Hev as [Hev Hevs].
  assert (Hcons : semops (ev :: evs) = semops [ev] + semops evs) by (unfold semops; simpl; lia).
  assert (H0 : 0 <= semops [ev] /\ 0 <= semops evs).
  { split; apply (zsum_bounds (fun e => match e with SemOp _ _ _ _ _ _ _ => 1 | _ => 0 end)); intros []; lia. }
  destruct (sem_event_ok y ev Hy Hev ltac:(lia)) as [H1 H2]. cbn [run_sem_events]. apply IH; [done|done|lia].
Qed.

Lemma sem_init_inv : sem_inv sem_sys_init.
Proof.
  split; [split; simpl; try done; apply bt_wf_nil|]. split; [done|].
  split; simpl; [intros x []%not_elem_of_nil|done|intros x []%not_elem_of_nil].
Qed.



(** A set of one semaphore; one process waits for two units, another gives one. *)
Definition demo_sem_events : list sem_event :=
  let w := mkCaller 0 0 7 0 100 in
  [SemGet w true 5 1 (IPC_CREAT + 438);
   SemOp w true true 1 1 (Ok [mkSembuf 0 (-2) 0]) (Ok ());
   SemEval 0 101 true;
   SemOp (mkCaller 0 0 8 0 102) true true 1 1 (Ok [mkSembuf 0 1 0]) (Ok ());
   SemEval 0 103 true].

Lemma demo_sem_events_ok : Forall event_ok demo_sem_events.
Proof. repeat constructor; simpl; lia. Qed.


