(* ===== verification/SysvMsg.v ===== *)
(** System V message queues ([os/src/syscall/process/ipc.rs], message part): the
    registry and its identifiers, sending, the selection of a message, receiving
    and the control commands.

    What a call reads from user memory is an argument; whether an allocation
    succeeds is a [bool] argument.  A call that has to sleep gives no answer
    ([None]); it repeats the attempt when it is woken. *)

From stdpp Require Import base numbers option list.
From S2P Require Import Prelude BTree SysvIpc.

Definition MSG_NOERROR : Z := 4096.
Definition MSG_EXCEPT : Z := 8192.
Definition MSG_COPY : Z := 16384.
Definition MSGMNI : Z := 1024.
Definition MSGMAX : Z := 8192.
Definition MSGMNB : Z := 16384.
Definition MSGTQL : Z := 4096.

Record MsgLimits := mkMsgLimits {
  msgmax : Z;
  msgmnb : Z;
  msgmni : Z;
}.

Record Message := mkMessage {
  mtype : Z;
  mdata : list Z;
}.

Record MsgQueue := mkMsgQueue {
  q_perm : Perm;
  qbytes : Z;
  messages : list Message;
  cbytes : Z;
  lspid : Z;
  lrpid : Z;
  stime : Z;
  rtime : Z;
  q_ctime : Z;
}.

Definition msg_queue_new (w : Caller) (l : MsgLimits) (key mode : Z) : MsgQueue :=
  mkMsgQueue (perm_new w key mode) (msgmnb l) [] 0 0 0 0 0 (now w).

(** [wanted] is [next_id], the identifier asked for through
    [/proc/sys/kernel/msg_next_id]. *)
Record MsgRegistry := mkMsgRegistry {
  wanted : Z;
  next_auto_id : option Z;
  queues : btree MsgQueue;
  published_ids : list Z;
}.

Definition msg_registry_new : MsgRegistry := mkMsgRegistry (-1) (Some 1) bt_empty [].

Definition with_queues (r : MsgRegistry) (q : btree MsgQueue) : MsgRegistry :=
  mkMsgRegistry (wanted r) (next_auto_id r) q (published_ids r).

(** ** Identifiers *)

Definition id_used (r : MsgRegistry) (id : Z) : bool :=
  bool_decide (id ∈ published_ids r) || bt_contains id (queues r).

(** The [while] loop over candidates; [None] is running out of fuel. *)
Fixpoint next_candidate (fuel : nat) (r : MsgRegistry) (candidate : Z) : option (result Z SyscallErr) :=
  match fuel with
  | O => None
  | S fuel =>
      if id_used r candidate then
        if candidate <? i32_max then next_candidate fuel r (candidate + 1) else Some (Err ENOSPC)
      else Some (Ok candidate)
  end.

Definition candidate_fuel (r : MsgRegistry) : nat := S (length (published_ids r) + length (queues r)).

Definition msg_alloc_id (r : MsgRegistry) (alloc : bool) : option (MsgRegistry * result Z SyscallErr) :=
  let requested := wanted r in
  let r := mkMsgRegistry (-1) (next_auto_id r) (queues r) (published_ids r) in
  let publish id from_auto :=
    if negb alloc then (r, Err ENOMEM)
    else
      let auto := if from_auto : bool then if id <? i32_max then Some (id + 1) else None else next_auto_id r in
      (mkMsgRegistry (-1) auto (queues r) (published_ids r ++ [id]), Ok id) in
  if (0 <=? requested) && negb (id_used r requested) then Some (publish requested false)
  else
    match next_auto_id r with
    | None => Some (r, Err ENOSPC)
    | Some start =>
        c ← next_candidate (candidate_fuel r) r start;
        match c with
        | Err e => Some (r, Err e)
        | Ok id => Some (publish id true)
        end
    end.

Definition set_next_id (r : MsgRegistry) (id : Z) : MsgRegistry * bool :=
  if id <? -1 then (r, false) else (mkMsgRegistry id (next_auto_id r) (queues r) (published_ids r), true).

Definition was_removed (r : MsgRegistry) (id : Z) : bool :=
  bool_decide (id ∈ published_ids r) && negb (bt_contains id (queues r)).

Definition msg_find_by_key (r : MsgRegistry) (key : Z) : option Z :=
  fst <$> head (filter (fun e => p_key (q_perm e.2) = key) (queues r)).

Definition sys_msgget (r : MsgRegistry) (l : MsgLimits) (w : Caller) (alloc : bool) (key msgflg : Z)
    : option (MsgRegistry * result Z SyscallErr) :=
  let create :=
    if msgmni l <=? Z.of_nat (length (queues r)) then Some (r, Err ENOSPC)
    else
      '(r, a) ← msg_alloc_id r alloc;
      match a with
      | Err e => Some (r, Err e)
      | Ok id => Some (with_queues r (bt_insert id (msg_queue_new w l key (Z.land msgflg 511)) (queues r)), Ok id)
      end in
  if key =? IPC_PRIVATE then create
  else
    match msg_find_by_key r key with
    | Some id =>
        if negb (Z.land msgflg IPC_CREAT =? 0) && negb (Z.land msgflg IPC_EXCL =? 0) then Some (r, Err EEXIST)
        else
          match bt_get id (queues r) with
          | None => Some (r, Err EINVAL)
          | Some q =>
              if negb (has_permission w (q_perm q) (Z.land msgflg (Z.lor IPC_R IPC_W))) then Some (r, Err EACCES)
              else Some (r, Ok id)
          end
    | None => if Z.land msgflg IPC_CREAT =? 0 then Some (r, Err ENOENT) else create
    end.

(** ** Sending *)

Definition missing (r : MsgRegistry) (id : Z) : SyscallErr := if was_removed r id then EIDRM else EINVAL.

Definition try_msgsnd_locked (r : MsgRegistry) (w : Caller) (alloc : bool) (msqid : Z) (m : Message)
    : MsgRegistry * option (result Z SyscallErr) :=
  match bt_get msqid (queues r) with
  | None => (r, Some (Err (missing r msqid)))
  | Some q =>
      let len := Z.of_nat (length (mdata m)) in
      if negb (has_permission w (q_perm q) IPC_W) then (r, Some (Err EACCES))
      else if (qbytes q <? saturating_add (cbytes q) len) || (MSGTQL <=? Z.of_nat (length (messages q))) then (r, None)
      else if negb alloc then (r, Some (Err ENOMEM))
      else
        let q := mkMsgQueue (q_perm q) (qbytes q) (messages q ++ [m]) (saturating_add (cbytes q) len) (pid w) (lrpid q)
                   (now w) (rtime q) (q_ctime q) in
        (with_queues r (bt_insert msqid q (queues r)), Some (Ok 0))
  end.

(** [msgp] is the user pointer; [utype] and [udata] what can be read there. *)
Definition read_msg_payload (alloc : bool) (msgp msgsz : Z) (utype : result Z SyscallErr)
    (udata : result (nat -> Z) SyscallErr) : result Message SyscallErr :=
  if msgp =? 0 then Err EFAULT
  else
    match utype with
    | Err e => Err e
    | Ok t =>
        if t <=? 0 then Err EINVAL
        else
          match checked_add msgp 8 with
          | None => Err EFAULT
          | Some payload =>
              match checked_add payload msgsz with
              | None => Err EFAULT
              | Some _ =>
                  if negb alloc then Err ENOMEM
                  else if msgsz =? 0 then Ok (mkMessage t [])
                  else match udata with
                       | Err e => Err e
                       | Ok bytes => Ok (mkMessage t ((fun k => bytes k mod 256) <$> seq 0 (Z.to_nat msgsz)))
                       end
              end
          end
    end.

Definition sys_msgsnd (r : MsgRegistry) (l : MsgLimits) (w : Caller) (alloc : bool) (msqid msgp msgsz msgflg : Z)
    (utype : result Z SyscallErr) (udata : result (nat -> Z) SyscallErr) : MsgRegistry * option (result Z SyscallErr) :=
  if (msgmax l <? msgsz) || negb (Z.land msgflg (Z.lnot IPC_NOWAIT) =? 0) then (r, Some (Err EINVAL))
  else
    match read_msg_payload alloc msgp msgsz utype udata with
    | Err e => (r, Some (Err e))
    | Ok m =>
        match try_msgsnd_locked r w alloc msqid m with
        | (r, None) => (r, if Z.land msgflg IPC_NOWAIT =? 0 then None else Some (Err EAGAIN))
        | x => x
        end
    end.

(** ** Receiving *)

Fixpoint scan_lowest (limit : Z) (idx : nat) (best : option (nat * Z)) (l : list Message) : option (nat * Z) :=
  match l with
  | [] => best
  | m :: l =>
      let better := (mtype m <=? limit) && match best with Some (_, t) => mtype m <? t | None => true end in
      scan_lowest limit (S idx) (if better then Some (idx, mtype m) else best) l
  end.

Definition saturating_abs (x : Z) : Z := Z.min (Z.abs x) isize_max.

Definition select_msg_index (q : MsgQueue) (msgtyp msgflg : Z) : option nat :=
  if negb (Z.land msgflg MSG_COPY =? 0) then
    if (0 <=? msgtyp) && (msgtyp <? Z.of_nat (length (messages q))) then Some (Z.to_nat msgtyp) else None
  else if msgtyp =? 0 then match messages q with [] => None | _ => Some 0%nat end
  else if 0 <? msgtyp then
    if negb (Z.land msgflg MSG_EXCEPT =? 0) then fst <$> list_find (fun m => mtype m <> msgtyp) (messages q)
    else fst <$> list_find (fun m => mtype m = msgtyp) (messages q)
  else fst <$> scan_lowest (saturating_abs msgtyp) 0 None (messages q).

Definition msg_recv_wait_condition (r : MsgRegistry) (w : Caller) (msqid msgtyp msgflg : Z)
    : option (result Z SyscallErr) :=
  match bt_get msqid (queues r) with
  | None => Some (Err (missing r msqid))
  | Some q =>
      if negb (has_permission w (q_perm q) IPC_R) then Some (Err EACCES)
      else match select_msg_index q msgtyp msgflg with Some _ => Some (Ok 0) | None => None end
  end.

(** The message and the number of bytes to copy.  [EAGAIN] means that there is no
    message to receive. *)
Definition receive_message (r : MsgRegistry) (w : Caller) (alloc : bool) (msqid msgsz msgtyp msgflg : Z)
    : MsgRegistry * result (Message * Z) SyscallErr :=
  match bt_get msqid (queues r) with
  | None => (r, Err (missing r msqid))
  | Some q =>
      if negb (has_permission w (q_perm q) IPC_R) then (r, Err EACCES)
      else
        match select_msg_index q msgtyp msgflg with
        | None => (r, Err EAGAIN)
        | Some idx =>
            match messages q !! idx with
            | None => (r, Err EAGAIN)
            | Some m =>
                let len := Z.of_nat (length (mdata m)) in
                if (msgsz <? len) && (Z.land msgflg MSG_NOERROR =? 0) then (r, Err E2BIG)
                else
                  let copy_len := Z.min len msgsz in
                  if negb (Z.land msgflg MSG_COPY =? 0) then
                    if negb alloc then (r, Err ENOMEM)
                    else (r, Ok (mkMessage (mtype m) (take (Z.to_nat copy_len) (mdata m)), copy_len))
                  else
                    let q := mkMsgQueue (q_perm q) (qbytes q) (delete idx (messages q)) (saturating_sub (cbytes q) len)
                               (lspid q) (pid w) (stime q) (now w) (q_ctime q) in
                    (with_queues r (bt_insert msqid q (queues r)), Ok (m, copy_len))
            end
        end
  end.

(** One round of the loop of [sys_msgrcv]: [None] when it goes on waiting. *)
Definition sys_msgrcv (r : MsgRegistry) (l : MsgLimits) (w : Caller) (alloc : bool) (msqid msgsz msgtyp msgflg : Z)
    : MsgRegistry * option (result (Message * Z) SyscallErr) :=
  let allowed_flags := Z.lor IPC_NOWAIT (Z.lor MSG_NOERROR (Z.lor MSG_EXCEPT MSG_COPY)) in
  if (msgmax l <? msgsz) || negb (Z.land msgflg (Z.lnot allowed_flags) =? 0) then (r, Some (Err EINVAL))
  else if negb (Z.land msgflg MSG_COPY =? 0)
          && ((Z.land msgflg IPC_NOWAIT =? 0) || negb (Z.land msgflg MSG_EXCEPT =? 0) || (msgtyp <? 0))
  then (r, Some (Err EINVAL))
  else
    match receive_message r w alloc msqid msgsz msgtyp msgflg with
    | (r, Err EAGAIN) => (r, if Z.land msgflg IPC_NOWAIT =? 0 then None else Some (Err ENOMSG))
    | (r, x) => (r, Some x)
    end.

(** ** Control *)

Definition msgctl_rmid (r : MsgRegistry) (w : Caller) (msqid : Z) : MsgRegistry * result Z SyscallErr :=
  match bt_get msqid (queues r) with
  | None => (r, Err EINVAL)
  | Some q => if negb (can_modify w (q_perm q)) then (r, Err EPERM)
              else (with_queues r (bt_remove msqid (queues r)), Ok 0)
  end.

(** [user] is the owner, group, mode and size of the caller's structure. *)
Definition msgctl_set (r : MsgRegistry) (l : MsgLimits) (w : Caller) (user : result (Z * Z * Z * Z) SyscallErr)
    (msqid : Z) : MsgRegistry * result Z SyscallErr :=
  match user with
  | Err e => (r, Err e)
  | Ok (uid, gid, mode, size) =>
      match bt_get msqid (queues r) with
      | None => (r, Err EINVAL)
      | Some q =>
          if negb (can_modify w (q_perm q)) then (r, Err EPERM)
          else
            let q := mkMsgQueue (perm_set (q_perm q) uid gid mode) (Z.min size (usize_mul (msgmnb l) 64)) (messages q)
                       (cbytes q) (lspid q) (lrpid q) (stime q) (rtime q) (now w) in
            (with_queues r (bt_insert msqid q (queues r)), Ok 0)
      end
  end.

Definition set_sysv_limits (l : MsgLimits) (which value : Z) : MsgLimits * bool :=
  if value =? 0 then (l, false)
  else if which =? 0 then (mkMsgLimits value (msgmnb l) (msgmni l), true)
  else if which =? 1 then (mkMsgLimits (msgmax l) value (msgmni l), true)
  else (mkMsgLimits (msgmax l) (msgmnb l) value, true).
