(* ===== verification/MsgHistory.v ===== *)
(** Histories of message-queue calls: the identifiers, the accounting of each
    queue, and what happens to the messages. *)

From stdpp Require Import base numbers option list.
From S2P Require Import Prelude BTree SysvIpc SysvMsg.

(** ** Identifiers *)

Lemma id_used_spec r id : id_used r id = true -> id ∈ published_ids r ++ (queues r).*1.
Proof.
  unfold id_used, bt_contains. rewrite elem_of_app. case_bool_decide; [by left|]. simpl.
  destruct (bt_get id (queues r)) as [q|] eqn:E; [|done]. intros _. right.
  apply bt_get_elem in E. apply (list_elem_of_fmap_2 fst _ (id, q) E).
Qed.

(** Without an answer the loop has met as many used identifiers as it had fuel. *)
Lemma next_candidate_None fuel r c : next_candidate fuel r c = None ->
  forall i, i ∈ seqZ c (Z.of_nat fuel) -> i ∈ published_ids r ++ (queues r).*1.
Proof.
  revert c. induction fuel as [|fuel IH]; intros c; [intros _ i []%not_elem_of_nil|]. cbn [next_candidate].
  destruct (id_used r c) eqn:Eu; [|done]. destruct (c <? i32_max); [|done]. intros H i Hi.
  apply elem_of_seqZ in Hi. destruct (decide (i = c)) as [->|]; [by apply id_used_spec|].
  apply (IH _ H), elem_of_seqZ. lia.
Qed.

Lemma next_candidate_total r c : exists x, next_candidate (candidate_fuel r) r c = Some x.
Proof.
  destruct (next_candidate (candidate_fuel r) r c) as [x|] eqn:E; [by eexists|]. exfalso.
  pose proof (next_candidate_None _ _ _ E) as H.
  pose proof (submseteq_length _ _ (NoDup_submseteq _ _ (NoDup_seqZ c (Z.of_nat (candidate_fuel r))) H)) as Hl.
  rewrite length_seqZ, length_app, length_fmap, Nat2Z.id in Hl. unfold candidate_fuel in Hl. lia.
Qed.

Lemma next_candidate_fresh fuel r c id : next_candidate fuel r c = Some (Ok id) -> id_used r id = false.
Proof.
  revert c. induction fuel as [|fuel IH]; intros c; [done|]. cbn [next_candidate].
  destruct (id_used r c) eqn:Eu; [destruct (c <? i32_max); [apply IH|done]|]. by intros [= <-].
Qed.

(** An identifier is new, or nothing but the request is consumed. *)
Lemma msg_alloc_id_spec r alloc : exists r' a, msg_alloc_id r alloc = Some (r', a) /\ queues r' = queues r /\
  match a with
  | Ok id => id_used r id = false /\ published_ids r' = published_ids r ++ [id]
  | Err _ => published_ids r' = published_ids r
  end.
Proof.
  unfold msg_alloc_id. set (r0 := mkMsgRegistry (-1) _ _ _).
  assert (Hu : forall id, id_used r0 id = id_used r id) by done.
  destruct ((0 <=? wanted r) && negb (id_used r0 (wanted r))) eqn:Ew.
  { apply andb_true_iff in Ew as [_ Ew%negb_true_iff]. destruct alloc; simpl; eauto 10. }
  destruct (next_auto_id r0) as [start|] eqn:En; [|simpl; eauto 10].
  destruct (next_candidate_total r0 start) as [x Ex]. rewrite Ex. simpl.
  destruct x as [id|e]; [|simpl; eauto 10]. pose proof (next_candidate_fresh _ _ _ _ Ex).
  destruct alloc; simpl; eauto 10.
Qed.

(** ** Selection *)

Definition eligible (msgtyp msgflg : Z) (m : Message) : Prop :=
  if msgtyp =? 0 then True
  else if 0 <? msgtyp then if Z.land msgflg MSG_EXCEPT =? 0 then mtype m = msgtyp else mtype m <> msgtyp
  else mtype m <= saturating_abs msgtyp.

(** Message [i] is the one to receive: the first that is eligible or, when an
    upper bound of the type is given, the first of the lowest type. *)
Definition selected (l : list Message) (msgtyp msgflg : Z) (i : nat) : Prop :=
  exists m, l !! i = Some m /\ eligible msgtyp msgflg m /\
  forall j m', l !! j = Some m' -> eligible msgtyp msgflg m' ->
    (msgtyp < 0 -> mtype m <= mtype m') /\ ((j < i)%nat -> msgtyp < 0 /\ mtype m < mtype m').

Lemma scan_lowest_spec limit l : forall pre best,
  match best with
  | Some (i, t) => exists m, pre !! i = Some m /\ mtype m = t /\ t <= limit /\
      forall j m', pre !! j = Some m' -> mtype m' <= limit -> t <= mtype m' /\ ((j < i)%nat -> t < mtype m')
  | None => forall j m', pre !! j = Some m' -> limit < mtype m'
  end ->
  match scan_lowest limit (length pre) best l with
  | Some (i, t) => exists m, (pre ++ l) !! i = Some m /\ mtype m = t /\ t <= limit /\
      forall j m', (pre ++ l) !! j = Some m' -> mtype m' <= limit -> t <= mtype m' /\ ((j < i)%nat -> t < mtype m')
  | None => forall j m', (pre ++ l) !! j = Some m' -> limit < mtype m'
  end.
Proof.
  induction l as [|m l IH]; intros pre best Hb; [by rewrite app_nil_r|]. cbn [scan_lowest].
  assert (Hl : length (pre ++ [m]) = S (length pre)) by (rewrite length_app; simpl; lia).
  rewrite <- Hl. replace (pre ++ m :: l) with ((pre ++ [m]) ++ l) by (by rewrite <- app_assoc). apply IH.
  assert (Hsnoc : forall j m', (pre ++ [m]) !! j = Some m' -> pre !! j = Some m' \/ (j = length pre /\ m' = m)).
  { intros j m' [H|[H1 H2]]%lookup_app_Some; [by left|]. apply list_lookup_singleton_Some in H2 as [H2 <-].
    right. split; [lia|done]. }
  assert (Hold : forall i m', pre !! i = Some m' -> (pre ++ [m]) !! i = Some m') by (intros; by apply lookup_app_l_Some).
  assert (Hnew : (pre ++ [m]) !! length pre = Some m) by (by rewrite lookup_app_r, Nat.sub_diag).
  destruct best as [[i t]|].
  - destruct Hb as (mi & B1 & B2 & B3 & B4). pose proof (lookup_lt_Some _ _ _ B1) as Hi.
    destruct (Z.leb_spec (mtype m) limit), (Z.ltb_spec (mtype m) t); simpl.
    + exists m. split_and!; try done. intros j m' [Hj|[-> ->]]%Hsnoc Hm'; [|split; lia].
      destruct (B4 j m' Hj Hm'). split; intros; lia.
    + exists mi. split_and!; eauto. intros j m' [Hj|[-> ->]]%Hsnoc Hm'; [by apply B4|split; lia].
    + exists mi. split_and!; eauto. intros j m' [Hj|[-> ->]]%Hsnoc Hm'; [by apply B4|lia].
    + exists mi. split_and!; eauto. intros j m' [Hj|[-> ->]]%Hsnoc Hm'; [by apply B4|lia].
  - destruct (Z.leb_spec (mtype m) limit); simpl.
    + exists m. split_and!; try done. intros j m' [Hj|[-> ->]]%Hsnoc Hm'; [|split; lia]. specialize (Hb j m' Hj). lia.
    + intros j m' [Hj|[-> ->]]%Hsnoc; [by eapply Hb|done].
Qed.

(** Without [MSG_COPY]. *)
Lemma select_spec q msgtyp msgflg : Z.land msgflg MSG_COPY = 0 ->
  match select_msg_index q msgtyp msgflg with
  | Some i => selected (messages q) msgtyp msgflg i
  | None => Forall (fun m => ~ eligible msgtyp msgflg m) (messages q)
  end.
Proof.
  intros Hc. unfold select_msg_index, selected, eligible. rewrite Hc. simpl.
  destruct (Z.eqb_spec msgtyp 0) as [->|H0].
  { destruct (messages q) as [|m l]; [constructor|]. exists m. split_and!; try done. intros j m' _ _. split; lia. }
  destruct (Z.ltb_spec 0 msgtyp) as [Hp|Hn].
  - assert (Hfind : forall (P : Message -> Prop) `{!forall m, Decision (P m)},
      match fst <$> list_find P (messages q) with
      | Some i => exists m, messages q !! i = Some m /\ P m /\ forall j m', messages q !! j = Some m' -> P m' ->
          (msgtyp < 0 -> mtype m <= mtype m') /\ ((j < i)%nat -> msgtyp < 0 /\ mtype m < mtype m')
      | None => Forall (fun m => ~ P m) (messages q)
      end).
    { intros P ?. destruct (list_find P (messages q)) as [[i m]|] eqn:E; simpl.
      - apply list_find_Some in E as (E1 & E2 & E3). exists m. split_and!; try done.
        intros j m' Hj Hm'. split; [lia|]. intros Hji. by destruct (E3 j m' Hj Hji).
      - by apply list_find_None in E. }
    destruct (Z.land msgflg MSG_EXCEPT =? 0); simpl; apply Hfind.
  - pose proof (scan_lowest_spec (saturating_abs msgtyp) (messages q) [] None ltac:(done)) as H. simpl in H.
    destruct (scan_lowest _ _ _ _) as [[i t]|]; simpl.
    + destruct H as (m & H1 & <- & H2 & H3). exists m. split_and!; try done. intros j m' Hj Hm'.
      destruct (H3 j m' Hj Hm'). split; [lia|]. intros. split; [lia|auto].
    + apply Forall_lookup. intros j m Hj. specialize (H j m Hj). lia.
Qed.

(** ** Messages of one type *)

Definition of_type (t : Z) (l : list Message) : list Message := filter (fun m => mtype m = t) l.

(** Whatever is selected is the oldest message of its type. *)
Lemma selected_oldest l msgtyp msgflg i : selected l msgtyp msgflg i ->
  exists m, l !! i = Some m /\ forall t, of_type t l = (if t =? mtype m then [m] else []) ++ of_type t (delete i l).
Proof.
  intros (m & Hi & He & Hmin). exists m. split; [done|]. intros t.
  assert (Hf : forall m', m' ∈ take i l -> mtype m' <> mtype m).
  { intros m' [j Hj]%list_elem_of_lookup Heq. apply lookup_take_Some in Hj as [Hj Hji].
    destruct (Hmin j m' Hj) as [_ H]; [|destruct (H Hji); lia].
    unfold eligible in *. repeat case_match; congruence. }
  rewrite <- (take_drop_middle l i m Hi) at 1. rewrite delete_take_drop. unfold of_type.
  rewrite !filter_app, filter_cons. destruct (Z.eqb_spec t (mtype m)) as [->|Hne].
  - rewrite decide_True by done. by rewrite (filter_none _ (take i l) Hf).
  - by rewrite decide_False by congruence.
Qed.

(** ** Histories *)

Record MsgSys := mkMsgSys {
  reg : MsgRegistry;
  lims : MsgLimits;
  sent : list (Z * Message);
  received : list (Z * Message);
}.

Definition msg_sys_init : MsgSys := mkMsgSys msg_registry_new (mkMsgLimits MSGMAX MSGMNB MSGMNI) [] [].

Inductive msg_event :=
| MGet (w : Caller) (alloc : bool) (key msgflg : Z)
| MSend (w : Caller) (alloc : bool) (msqid msgp msgsz msgflg : Z) (utype : result Z SyscallErr)
    (udata : result (nat -> Z) SyscallErr)
| MRetry (w : Caller) (alloc : bool) (msqid : Z) (m : Message)
| MReceive (w : Caller) (alloc : bool) (msqid msgsz msgtyp msgflg : Z)
| MRemove (w : Caller) (msqid : Z)
| MSet (w : Caller) (user : result (Z * Z * Z * Z) SyscallErr) (msqid : Z)
| MNextId (id : Z)
| MLimit (which value : Z).

(** The logs record what a call put into a queue or took out of it. *)
Definition log_send (y : MsgSys) (msqid : Z) (m : Message) (x : MsgRegistry * option (result Z SyscallErr)) : MsgSys :=
  mkMsgSys (fst x) (lims y)
    (match snd x with Some (Ok _) => sent y ++ [(msqid, m)] | _ => sent y end) (received y).

Definition log_receive (y : MsgSys) (msqid msgflg : Z) (x : MsgRegistry * option (result (Message * Z) SyscallErr))
    : MsgSys :=
  mkMsgSys (fst x) (lims y) (sent y)
    (match snd x with
     | Some (Ok (m, _)) => if Z.land msgflg MSG_COPY =? 0 then received y ++ [(msqid, m)] else received y
     | _ => received y
     end).

Definition run_msg_event (y : MsgSys) (ev : msg_event) : option MsgSys :=
  match ev with
  | MGet w alloc key msgflg =>
      '(r, _) ← sys_msgget (reg y) (lims y) w alloc key msgflg; Some (mkMsgSys r (lims y) (sent y) (received y))
  | MSend w alloc msqid msgp msgsz msgflg utype udata =>
      let m := match read_msg_payload alloc msgp msgsz utype udata with Ok m => m | Err _ => mkMessage 0 [] end in
      Some (log_send y msqid m (sys_msgsnd (reg y) (lims y) w alloc msqid msgp msgsz msgflg utype udata))
  | MRetry w alloc msqid m => Some (log_send y msqid m (try_msgsnd_locked (reg y) w alloc msqid m))
  | MReceive w alloc msqid msgsz msgtyp msgflg =>
      Some (log_receive y msqid msgflg (sys_msgrcv (reg y) (lims y) w alloc msqid msgsz msgtyp msgflg))
  | MRemove w msqid => Some (mkMsgSys (fst (msgctl_rmid (reg y) w msqid)) (lims y) (sent y) (received y))
  | MSet w user msqid => Some (mkMsgSys (fst (msgctl_set (reg y) (lims y) w user msqid)) (lims y) (sent y) (received y))
  | MNextId id => Some (mkMsgSys (fst (set_next_id (reg y) id)) (lims y) (sent y) (received y))
  | MLimit which value => Some (mkMsgSys (reg y) (fst (set_sysv_limits (lims y) which value)) (sent y) (received y))
  end.

Fixpoint run_msg_events (y : MsgSys) (evs : list msg_event) : option MsgSys :=
  match evs with [] => Some y | ev :: evs => y ← run_msg_event y ev; run_msg_events y evs end.

(** A message fits into 4 GiB, and one that is sent again has a positive type. *)
Definition msg_event_ok (ev : msg_event) : Prop :=
  match ev with
  | MSend _ _ _ _ msgsz _ _ _ => 0 <= msgsz <= 2 ^ 32
  | MRetry _ _ _ m => 0 < mtype m /\ Z.of_nat (length (mdata m)) <= 2 ^ 32
  | _ => True
  end.

(** ** The invariant *)

Definition bytes_of (l : list Message) : Z := zsum (fun m => Z.of_nat (length (mdata m))) l.
Definition message_ok (m : Message) : Prop := 0 < mtype m /\ Z.of_nat (length (mdata m)) <= 2 ^ 32.

Record queue_ok (q : MsgQueue) : Prop := {
  qo_bytes : cbytes q = bytes_of (messages q);
  qo_count : Z.of_nat (length (messages q)) <= MSGTQL;
  qo_each : Forall message_ok (messages q);
}.

Definition log_of (id t : Z) (log : list (Z * Message)) : list Message :=
  snd <$> filter (fun e => e.1 = id /\ mtype e.2 = t) log.

Definition fifo (y : MsgSys) (id t : Z) : Prop := exists rest,
  log_of id t (sent y) = log_of id t (received y) ++ rest /\
  forall q, bt_get id (queues (reg y)) = Some q -> rest = of_type t (messages q).

Record msg_inv (y : MsgSys) : Prop := {
  mi_wf : bt_wf (queues (reg y));
  mi_ids : NoDup (published_ids (reg y));
  mi_pub id q : bt_get id (queues (reg y)) = Some q -> id ∈ published_ids (reg y);
  mi_queues id q : bt_get id (queues (reg y)) = Some q -> queue_ok q;
  mi_sent e : e ∈ sent y -> e.1 ∈ published_ids (reg y);
  mi_received e : e ∈ received y -> e.1 ∈ published_ids (reg y);
  mi_fifo id t : fifo y id t;
}.

Lemma log_of_app id t l1 l2 : log_of id t (l1 ++ l2) = log_of id t l1 ++ log_of id t l2.
Proof. unfold log_of. by rewrite filter_app, fmap_app. Qed.

Lemma log_of_one id t id' m : log_of id t [(id', m)] = if decide (id' = id) then of_type t [m] else [].
Proof.
  unfold log_of, of_type. rewrite !filter_cons. simpl. repeat case_decide; naive_solver.
Qed.

Lemma bytes_of_bound l : Forall message_ok l -> 0 <= bytes_of l <= Z.of_nat (length l) * 2 ^ 32.
Proof.
  induction l as [|m l IH]; intros H; [done|]. apply Forall_cons in H as [[_ H] Hl]. specialize (IH Hl).
  unfold bytes_of in *. simpl zsum. simpl length. lia.
Qed.

(** One queue changes together with the logs of its own messages. *)
Lemma inv_put y id q q' out inp : msg_inv y -> bt_get id (queues (reg y)) = Some q -> queue_ok q' ->
  Forall (fun e => e.1 = id) out -> Forall (fun e => e.1 = id) inp ->
  (forall t, of_type t (messages q) ++ log_of id t out = log_of id t inp ++ of_type t (messages q')) ->
  msg_inv (mkMsgSys (with_queues (reg y) (bt_insert id q' (queues (reg y)))) (lims y) (sent y ++ out) (received y ++ inp)).
Proof.
  intros [W N P Q S R F] Hg Hq Ho Hi Ht. pose proof (P id q Hg) as Hid.
  assert (Hother : forall l id' t, Forall (fun e : Z * Message => e.1 = id) l -> id' <> id -> log_of id' t l = []).
  { intros l id' t Hl Hne. unfold log_of. rewrite filter_none; [done|]. intros e He [E _].
    rewrite Forall_forall in Hl. specialize (Hl e He). congruence. }
  split; simpl; [by apply bt_wf_insert|done| | | | |].
  - intros id1 q1. rewrite bt_get_insert by done. destruct (Z.eqb_spec id1 id) as [->|]; eauto.
  - intros id1 q1. rewrite bt_get_insert by done. destruct (Z.eqb_spec id1 id); [intros [= <-]|]; eauto.
  - intros e [He|He]%elem_of_app; [by apply S|]. rewrite Forall_forall in Ho. by rewrite (Ho e He).
  - intros e [He|He]%elem_of_app; [by apply R|]. rewrite Forall_forall in Hi. by rewrite (Hi e He).
  - intros id1 t. destruct (F id1 t) as (rest & F1 & F2). unfold fifo. simpl. rewrite !log_of_app.
    destruct (decide (id1 = id)) as [->|Hne].
    + exists (of_type t (messages q')). rewrite bt_get_insert, Z.eqb_refl by done. split; [|by intros ? [= <-]].
      rewrite F1, (F2 q Hg), <- !app_assoc, Ht. done.
    + exists rest. rewrite (Hother out), (Hother inp), !app_nil_r by done. split; [done|]. intros q1.
      rewrite bt_get_insert by done. destruct (Z.eqb_spec id1 id); [done|]. apply F2.
Qed.

Lemma send_ok y w alloc msqid m : msg_inv y -> message_ok m ->
  msg_inv (log_send y msqid m (try_msgsnd_locked (reg y) w alloc msqid m)).
Proof.
  intros Hy Hm. assert (Hsame : msg_inv (mkMsgSys (reg y) (lims y) (sent y) (received y))) by (by destruct y).
  unfold try_msgsnd_locked, log_send. destruct (bt_get msqid _) as [q|] eqn:Hg; [|done].
  destruct (has_permission _ _ _); simpl; [|done].
  destruct (Z.ltb_spec (qbytes q) (saturating_add (cbytes q) (Z.of_nat (length (mdata m))))); simpl; [done|].
  destruct (Z.leb_spec MSGTQL (Z.of_nat (length (messages q)))); simpl; [done|]. destruct alloc; [|done]. simpl.
  rewrite <- (app_nil_r (received y)). pose proof (mi_queues _ Hy _ _ Hg) as [Q1 Q2 Q3].
  eapply inv_put; [done..| |by repeat constructor|done|].
  - split; simpl.
    + unfold bytes_of. rewrite zsum_app. fold (bytes_of (messages q)). rewrite Q1. simpl.
      pose proof (bytes_of_bound _ Q3). destruct Hm as [_ Hm]. unfold saturating_add, usize_max, usize_modulus, MSGTQL in *. lia.
    + rewrite length_app. simpl. lia.
    + apply Forall_app. split; [done|]. by constructor.
  - intros t. simpl. unfold of_type. rewrite filter_app. rewrite log_of_one, decide_True by done. done.
Qed.

Lemma queue_delete_ok q idx m : queue_ok q -> messages q !! idx = Some m ->
  forall p b l1 l2 t1 t2 t3, queue_ok (mkMsgQueue p b (delete idx (messages q))
    (saturating_sub (cbytes q) (Z.of_nat (length (mdata m)))) l1 l2 t1 t2 t3).
Proof.
  intros [Q1 Q2 Q3] Hm p b l1 l2 t1 t2 t3. pose proof (bytes_of_bound _ Q3) as Hb.
  assert (Hd : Forall message_ok (delete idx (messages q))) by (by apply Forall_delete).
  pose proof (bytes_of_bound _ Hd) as Hb'. split; simpl; [| |done].
  - unfold bytes_of in *. rewrite (zsum_delete _ _ _ _ Hm) in *. unfold saturating_sub. rewrite Q1. lia.
  - rewrite length_delete by eauto. lia.
Qed.

Lemma receive_ok y w alloc msqid msgsz msgtyp msgflg : msg_inv y ->
  msg_inv (log_receive y msqid msgflg (sys_msgrcv (reg y) (lims y) w alloc msqid msgsz msgtyp msgflg)).
Proof.
  intros Hy. assert (Hsame : msg_inv (mkMsgSys (reg y) (lims y) (sent y) (received y))) by (by destruct y).
  unfold sys_msgrcv, log_receive. destruct (_ || _); [done|]. destruct (_ && _); [done|].
  unfold receive_message. destruct (bt_get msqid _) as [q|] eqn:Hg.
  2: { unfold missing. by destruct (was_removed _ _). }
  destruct (has_permission _ _ _); simpl; [|done].
  destruct (select_msg_index q msgtyp msgflg) as [idx|] eqn:Es; [|by destruct (Z.land msgflg IPC_NOWAIT =? 0)].
  destruct (messages q !! idx) as [m|] eqn:Em; [|by destruct (Z.land msgflg IPC_NOWAIT =? 0)].
  destruct (_ && _); [done|]. destruct (Z.eqb_spec (Z.land msgflg MSG_COPY) 0) as [Hc|Hc]; simpl.
  2: { by destruct alloc. }
  rewrite <- (app_nil_r (sent y)).
  pose proof (select_spec q msgtyp msgflg Hc) as Hs. rewrite Es in Hs.
  destruct (selected_oldest _ _ _ _ Hs) as (m' & Em' & Ht). rewrite Em in Em'. injection Em' as <-.
  eapply inv_put; [done..| |done|by repeat constructor|].
  - apply queue_delete_ok; [by eapply mi_queues|done].
  - intros t. simpl. rewrite log_of_one, decide_True by done. change (log_of msqid t []) with (@nil Message).
    rewrite app_nil_r, (Ht t). f_equal. unfold of_type. rewrite filter_cons. simpl.
    destruct (Z.eqb_spec t (mtype m)); case_decide; try congruence; by subst.
Qed.

Lemma set_perm_ok y w user msqid : msg_inv y ->
  msg_inv (mkMsgSys (fst (msgctl_set (reg y) (lims y) w user msqid)) (lims y) (sent y) (received y)).
Proof.
  intros Hy. assert (Hsame : msg_inv (mkMsgSys (reg y) (lims y) (sent y) (received y))) by (by destruct y).
  unfold msgctl_set. destruct user as [[[[uid gid] mode] size]|e]; [|done].
  destruct (bt_get msqid _) as [q|] eqn:Hg; [|done]. destruct (can_modify _ _); simpl; [|done].
  rewrite <- (app_nil_r (sent y)), <- (app_nil_r (received y)).
  eapply inv_put; [done..| |done|done|]; [|intros t; by rewrite app_nil_r].
  destruct (mi_queues _ Hy _ _ Hg). by split.
Qed.

(** Only the identifiers and the limits change. *)
Lemma inv_reg y r l : msg_inv y -> queues r = queues (reg y) -> published_ids r = published_ids (reg y) ->
  msg_inv (mkMsgSys r l (sent y) (received y)).
Proof.
  intros [W N P Q S R F] Hq Hp. split; simpl; rewrite ?Hq, ?Hp; try done.
  intros id t. destruct (F id t) as (rest & F1 & F2). exists rest. simpl. by rewrite Hq.
Qed.

(** A new queue, under an identifier no log mentions. *)
Lemma create_ok y r id q l : msg_inv y -> queues r = queues (reg y) -> id_used (reg y) id = false ->
  published_ids r = published_ids (reg y) ++ [id] -> queue_ok q -> messages q = [] ->
  msg_inv (mkMsgSys (with_queues r (bt_insert id q (queues r))) l (sent y) (received y)).
Proof.
  intros [W N P Q S R F] Hq Hu Hp Hok Hm. unfold id_used in Hu. apply orb_false_iff in Hu as [Hu _].
  apply bool_decide_eq_false in Hu.
  assert (Hnil : forall log t, (forall e : Z * Message, e ∈ log -> e.1 ∈ published_ids (reg y)) -> log_of id t log = []).
  { intros log t H. unfold log_of. rewrite filter_none; [done|]. intros e He [<- _]. by apply Hu, H. }
  split; simpl; rewrite ?Hq, ?Hp.
  - by apply bt_wf_insert.
  - apply NoDup_app. split; [done|]. split; [|apply NoDup_singleton]. intros x Hx ->%list_elem_of_singleton. done.
  - intros id1 q1. rewrite bt_get_insert by done. rewrite elem_of_app, list_elem_of_singleton.
    destruct (Z.eqb_spec id1 id) as [->|]; [by right|left; eauto].
  - intros id1 q1. rewrite bt_get_insert by done. destruct (Z.eqb_spec id1 id); [by intros [= <-]|apply Q].
  - intros e He. apply elem_of_app. left. by apply S.
  - intros e He. apply elem_of_app. left. by apply R.
  - intros id1 t. unfold fifo. simpl. destruct (decide (id1 = id)) as [->|Hne].
    + exists []. rewrite !Hnil by done. split; [done|]. rewrite bt_get_insert, Z.eqb_refl by done.
      intros ? [= <-]. by rewrite Hm.
    + destruct (F id1 t) as (rest & F1 & F2). exists rest. split; [done|]. intros q1. rewrite bt_get_insert by done.
      destruct (Z.eqb_spec id1 id); [done|apply F2].
Qed.

Lemma msgget_ok y w alloc key msgflg : msg_inv y -> exists r a,
  sys_msgget (reg y) (lims y) w alloc key msgflg = Some (r, a) /\ msg_inv (mkMsgSys r (lims y) (sent y) (received y)).
Proof.
  intros Hy. assert (Hsame : msg_inv (mkMsgSys (reg y) (lims y) (sent y) (received y))) by (by destruct y).
  unfold sys_msgget. cbv zeta. set (create := if _ <=? _ then _ else _).
  assert (Hc : exists r a, create = Some (r, a) /\ msg_inv (mkMsgSys r (lims y) (sent y) (received y))).
  { unfold create. destruct (_ <=? _); [eauto|].
    destruct (msg_alloc_id_spec (reg y) alloc) as (r' & a & -> & Hq & Ha). simpl. destruct a as [id|e].
    - destruct Ha as [Hu Hp]. eexists _, _. split; [done|]. by eapply create_ok.
    - eexists _, _. split; [done|]. by apply inv_reg. }
  destruct (key =? IPC_PRIVATE); [done|]. destruct (msg_find_by_key _ _) as [id|].
  - destruct (_ && _); [eauto|]. destruct (bt_get id _) as [q|]; [|eauto]. destruct (has_permission _ _ _); simpl; eauto.
  - destruct (Z.land msgflg IPC_CREAT =? 0); [eauto|done].
Qed.

Lemma remove_ok y w msqid : msg_inv y ->
  msg_inv (mkMsgSys (fst (msgctl_rmid (reg y) w msqid)) (lims y) (sent y) (received y)).
Proof.
  intros Hy. assert (Hsame : msg_inv (mkMsgSys (reg y) (lims y) (sent y) (received y))) by (by destruct y).
  unfold msgctl_rmid. destruct (bt_get msqid _) as [q|] eqn:Hg; [|done]. destruct (can_modify _ _); simpl; [|done].
  destruct Hy as [W N P Q S R F].
  assert (Hget : forall id q0, bt_get id (bt_remove msqid (queues (reg y))) = Some q0 -> bt_get id (queues (reg y)) = Some q0).
  { intros id q0. rewrite bt_get_remove by done. by destruct (id =? msqid). }
  split; simpl; try done; [by apply bt_wf_remove|eauto|eauto|].
  intros id t. destruct (F id t) as (rest & F1 & F2). exists rest. split; [done|]. eauto.
Qed.

Lemma payload_ok alloc msgp msgsz utype udata m : 0 <= msgsz <= 2 ^ 32 ->
  read_msg_payload alloc msgp msgsz utype udata = Ok m -> message_ok m.
Proof.
  intros Hs H. unfold read_msg_payload in H. repeat case_match; simplify_eq; split; simpl; try lia.
  rewrite length_fmap, length_seq. lia.
Qed.

Lemma msg_event_step y ev : msg_inv y -> msg_event_ok ev -> exists y', run_msg_event y ev = Some y' /\ msg_inv y'.
Proof.
  intros Hy Hev. destruct ev as [w al k fl|w al id p sz fl ut ud|w al id m|w al id sz typ fl|w id|w user id|id|wh v];
    cbn [run_msg_event].
  - destruct (msgget_ok y w al k fl Hy) as (r & a & -> & H). simpl. eauto.
  - eexists. split; [done|]. unfold sys_msgsnd, log_send.
    assert (Hsame : msg_inv (mkMsgSys (reg y) (lims y) (sent y) (received y))) by (by destruct y).
    destruct (_ || _); [done|]. destruct (read_msg_payload _ _ _ _ _) as [m|e] eqn:Ep; [|done].
    pose proof (send_ok y w al id m Hy (payload_ok _ _ _ _ _ _ Hev Ep)) as H. unfold log_send in H.
    destruct (try_msgsnd_locked _ _ _ _ _) as [r [a|]]; [done|]. simpl in *. by destruct (_ =? 0).
  - eexists. split; [done|]. by apply send_ok.
  - eexists. split; [done|]. by apply receive_ok.
  - eexists. split; [done|]. by apply remove_ok.
  - eexists. split; [done|]. by apply set_perm_ok.
  - eexists. split; [done|]. unfold set_next_id. destruct (id <? -1); by apply inv_reg.
  - eexists. split; [done|]. by apply inv_reg.
Qed.

Lemma msg_events_ok evs : forall y, msg_inv y -> Forall msg_event_ok evs ->
  exists y', run_msg_events y evs = Some y' /\ msg_inv y'.
Proof.
  induction evs as [|ev evs IH]; intros y Hy Hev; [by exists y|]. apply Forall_cons in Hev as [Hev Hevs].
  destruct (msg_event_step y ev Hy Hev) as (y1 & E & Hy1). cbn [run_msg_events]. rewrite E. simpl. by apply IH.
Qed.

Lemma msg_init_inv : msg_inv msg_sys_init.
Proof.
  split; simpl; try done; [apply bt_wf_nil|apply NoDup_nil_2|..]; try (by intros e []%not_elem_of_nil).
  intros id t. exists []. done.
Qed.

(** C25: messages of one type are received in the order they were sent, each once
    and none lost: in any history of calls, what was sent to a queue under a type
    is what was received from it under that type followed by what the queue still
    holds.  The calls of the history all terminate. *)
Theorem msg_fifo_per_type evs : Forall msg_event_ok evs -> exists y, run_msg_events msg_sys_init evs = Some y /\
  forall id t, exists rest, log_of id t (sent y) = log_of id t (received y) ++ rest /\
    forall q, bt_get id (queues (reg y)) = Some q -> rest = of_type t (messages q).
Proof.
  intros H. destruct (msg_events_ok evs _ msg_init_inv H) as (y & E & Hy). exists y. split; [done|].
  intros id t. apply (mi_fifo _ Hy).
Qed.

(** Identifiers are never used twice, every queue was published under its
    identifier, its byte count is exact and it holds at most [MSGTQL] messages, all
    of positive type. *)
Theorem msg_registry_invariant evs : Forall msg_event_ok evs -> exists y, run_msg_events msg_sys_init evs = Some y /\
  NoDup (published_ids (reg y)) /\
  forall id q, bt_get id (queues (reg y)) = Some q -> id ∈ published_ids (reg y) /\
    cbytes q = bytes_of (messages q) /\ Z.of_nat (length (messages q)) <= MSGTQL /\
    Forall (fun m => 0 < mtype m) (messages q).
Proof.
  intros H. destruct (msg_events_ok evs _ msg_init_inv H) as (y & E & [W N P Q _ _ _]). exists y.
  split; [done|]. split; [done|]. intros id q Hg. destruct (Q id q Hg) as [Q1 Q2 Q3]. split_and!; eauto.
  eapply Forall_impl; [done|]. by intros m [? _].
Qed.

(** Selection.  Without [MSG_COPY] the message received is the first eligible
    one, or for a negative type the first of the lowest type not above its
    absolute value; nothing is selected only if nothing is eligible.  A sleeping
    receiver is woken up to receive exactly when there is a message for it. *)
Theorem msg_select_correct r w alloc q msqid msgsz msgtyp msgflg :
  Z.land msgflg MSG_COPY = 0 -> bt_get msqid (queues r) = Some q ->
  match select_msg_index q msgtyp msgflg with
  | Some i => selected (messages q) msgtyp msgflg i
  | None => Forall (fun m => ~ eligible msgtyp msgflg m) (messages q)
  end /\
  (msg_recv_wait_condition r w msqid msgtyp msgflg = None <->
   snd (receive_message r w alloc msqid msgsz msgtyp msgflg) = Err EAGAIN).
Proof.
  intros Hc Hg. split; [by apply select_spec|]. unfold msg_recv_wait_condition, receive_message. rewrite Hg.
  destruct (has_permission _ _ _); simpl; [|done]. pose proof (select_spec q msgtyp msgflg Hc) as Hs.
  destruct (select_msg_index q msgtyp msgflg) as [i|]; simpl; [|done].
  destruct Hs as (m & Hm & _). rewrite Hm, Hc. simpl. by destruct (_ && _).
Qed.

(** Two messages of type 2 with one of type 1 between them; the receiver takes the
    lowest type, then type 2. *)
Definition demo_msg_events : list msg_event :=
  let w := mkCaller 0 0 7 0 100 in
  [MGet w true 5 (IPC_CREAT + 438);
   MRetry w true 1 (mkMessage 2 [10]); MRetry w true 1 (mkMessage 1 [11]); MRetry w true 1 (mkMessage 2 [12]);
   MReceive w true 1 100 (-3) 0; MReceive w true 1 100 2 0].

Lemma demo_msg_events_ok : Forall msg_event_ok demo_msg_events.
Proof. repeat constructor; simpl; lia. Qed.

Lemma msg_fifo_per_type_witness : exists y, run_msg_events msg_sys_init demo_msg_events = Some y /\
  forall id t, exists rest, log_of id t (sent y) = log_of id t (received y) ++ rest /\
    forall q, bt_get id (queues (reg y)) = Some q -> rest = of_type t (messages q).
Proof. apply (msg_fifo_per_type demo_msg_events), demo_msg_events_ok. Defined.

Lemma msg_registry_invariant_witness : exists y, run_msg_events msg_sys_init demo_msg_events = Some y /\
  published_ids (reg y) = [1] /\ NoDup (published_ids (reg y)).
Proof.
  destruct (msg_registry_invariant demo_msg_events demo_msg_events_ok) as (y & E & N & _). exists y.
  split; [exact E|]. split; [|exact N]. vm_compute in E. injection E as <-. reflexivity.
Defined.

Lemma msg_select_correct_witness :
  let q := mkMsgQueue (mkPerm 1 0 0 0 0 438) 100 [mkMessage 2 []; mkMessage 1 []] 0 0 0 0 0 0 in
  selected (messages q) (-3) 0 1.
Proof.
  intros q. destruct (msg_select_correct (mkMsgRegistry (-1) None [(1, q)] [1]) (mkCaller 0 0 7 0 0) true q 1 10 (-3) 0)
    as [H _]; [reflexivity|reflexivity|]. exact H.
Defined.
