(* ===== verification/PosixMq.v ===== *)
(** POSIX message queues ([os/src/syscall/process/ipc.rs], mq part).

    One queue with the calls in progress on it.  A call takes the lock of the
    queue several times, so it is an actor with a state: trying, waiting, or about
    to notify the other side.  [EventWaitQueue] notifications wake every waiter of
    that side; a waiter that finds its condition false goes to sleep until then. *)

From stdpp Require Import base numbers option list sorting.
From S2P Require Import Prelude SysvIpc.

Definition MQ_HARD_QUEUES_MAX : Z := 4096.
Definition MQ_MAX_MAXMSG : Z := 1024.
Definition MQ_MAX_MSGSIZE : Z := 65536.

Record MqLimits := mkMqLimits {
  queues_max : Z;
  msg_max : Z;
  msgsize_max : Z;
  msg_default : Z;
  msgsize_default : Z;
}.

Definition mq_limits_default : MqLimits := mkMqLimits 256 MQ_MAX_MAXMSG MQ_MAX_MSGSIZE 10 8192.

Definition set_posix_mq_queues_max (l : MqLimits) (v : Z) : MqLimits * bool :=
  if (v =? 0) || (MQ_HARD_QUEUES_MAX <? v) then (l, false)
  else (mkMqLimits v (msg_max l) (msgsize_max l) (msg_default l) (msgsize_default l), true).
Definition set_posix_mq_msg_max (l : MqLimits) (v : Z) : MqLimits * bool :=
  if (v =? 0) || (MQ_MAX_MAXMSG <? v) then (l, false)
  else if v <? msg_default l then (l, false)
  else (mkMqLimits (queues_max l) v (msgsize_max l) (msg_default l) (msgsize_default l), true).
Definition set_posix_mq_msgsize_max (l : MqLimits) (v : Z) : MqLimits * bool :=
  if (v =? 0) || (MQ_MAX_MSGSIZE <? v) then (l, false)
  else if v <? msgsize_default l then (l, false)
  else (mkMqLimits (queues_max l) (msg_max l) v (msg_default l) (msgsize_default l), true).
Definition set_posix_mq_msg_default (l : MqLimits) (v : Z) : MqLimits * bool :=
  if (v =? 0) || (msg_max l <? v) then (l, false)
  else (mkMqLimits (queues_max l) (msg_max l) (msgsize_max l) v (msgsize_default l), true).
Definition set_posix_mq_msgsize_default (l : MqLimits) (v : Z) : MqLimits * bool :=
  if (v =? 0) || (msgsize_max l <? v) then (l, false)
  else (mkMqLimits (queues_max l) (msg_max l) (msgsize_max l) (msg_default l) v, true).

Record LinuxMqAttr := mkMqAttr {
  mq_flags : Z;
  mq_maxmsg : Z;
  mq_msgsize : Z;
  mq_curmsgs : Z;
}.

(** [user] is [None] for a null pointer, else what the pointer points to. *)
Definition mq_attr_from_user (l : MqLimits) (user : option (result LinuxMqAttr SyscallErr)) : result LinuxMqAttr SyscallErr :=
  match user with
  | None => Ok (mkMqAttr 0 (msg_default l) (msgsize_default l) 0)
  | Some (Err e) => Err e
  | Some (Ok a) =>
      if (mq_maxmsg a <=? 0) || (msg_max l <? mq_maxmsg a) || (mq_msgsize a <=? 0) || (msgsize_max l <? mq_msgsize a)
      then Err EINVAL
      else Ok (mkMqAttr 0 (mq_maxmsg a) (mq_msgsize a) 0)
  end.

Record MqMessage := mkMqMessage {
  prio : Z;
  payload : list Z;
}.

Inductive MqNotification :=
| NotifyNone
| NotifySignal (owner_pid signo value : Z)
| NotifyThread (netlink_fd : Z) (cookie : list Z).

Record MqQueueInner := mkMq {
  attr : LinuxMqAttr;
  mq_messages : list MqMessage;
  notification : option MqNotification;
}.

Definition mq_queue_new (a : LinuxMqAttr) : MqQueueInner := mkMq a [] None.

(** ** One attempt to send or to receive, under the lock *)

Definition mq_full (q : MqQueueInner) : bool := mq_maxmsg (attr q) <=? Z.of_nat (length (mq_messages q)).

(** Behind every message of the same or a higher priority. *)
Definition mq_position (p : Z) (l : list MqMessage) : nat :=
  match list_find (fun m => prio m < p) l with Some (i, _) => i | None => length l end.

Definition mq_insert (q : MqQueueInner) (m : MqMessage) : MqQueueInner * option MqNotification :=
  let pos := mq_position (prio m) (mq_messages q) in
  let was_empty := match mq_messages q with [] => true | _ => false end in
  (mkMq (attr q) (take pos (mq_messages q) ++ m :: drop pos (mq_messages q))
     (if was_empty then None else notification q), if was_empty then notification q else None).

(** [mq_notify]: [None] removes the registration. *)
Definition sys_mq_notify (q : MqQueueInner) (n : option MqNotification) : MqQueueInner * result Z SyscallErr :=
  match n with
  | None => (mkMq (attr q) (mq_messages q) None, Ok 0)
  | Some n =>
      match notification q with
      | Some _ => (q, Err EBUSY)
      | None => (mkMq (attr q) (mq_messages q) (Some n), Ok 0)
      end
  end.

(** ** Calls in progress *)

Inductive actor :=
| SendTry (nonblock : bool) (m : MqMessage)
| SendWait (m : MqMessage) (awake : bool)
| SendNotify (n : option MqNotification)
| RecvTry (nonblock : bool)
| RecvWait (awake : bool)
| RecvCopy (m : MqMessage).

Record MqSys := mkMqSys {
  queue : MqQueueInner;
  actors : list actor;
  mq_sent : list MqMessage;
  mq_received : list MqMessage;
  delivered : list MqNotification;
  mq_answers : list (result Z SyscallErr);
}.

Definition wake_senders (a : actor) : actor := match a with SendWait m _ => SendWait m true | a => a end.
Definition wake_receivers (a : actor) : actor := match a with RecvWait _ => RecvWait true | a => a end.

(** The next step of actor [i]; [copy] is the result of the copies to user memory.
    A woken or new waiter evaluates its condition. *)
Definition mq_step (y : MqSys) (i : nat) (a : actor) (copy : result unit SyscallErr) : MqSys :=
  let set q l := mkMqSys q l (mq_sent y) (mq_received y) (delivered y) (mq_answers y) in
  let return_ r := mkMqSys (queue y) (delete i (actors y)) (mq_sent y) (mq_received y) (delivered y) (mq_answers y ++ [r]) in
  match a with
  | SendTry nonblock m =>
      if mq_full (queue y) then
        if nonblock then return_ (Err EAGAIN)
        else set (queue y) (<[i := SendWait m true]> (actors y))
      else
        let '(q, n) := mq_insert (queue y) m in
        mkMqSys q (<[i := SendNotify n]> (actors y)) (mq_sent y ++ [m]) (mq_received y) (delivered y) (mq_answers y)
  | SendWait m _ =>
      if mq_full (queue y) then set (queue y) (<[i := SendWait m false]> (actors y))
      else set (queue y) (<[i := SendTry false m]> (actors y))
  | SendNotify n =>
      mkMqSys (queue y) (wake_receivers <$> delete i (actors y)) (mq_sent y) (mq_received y)
        (match n with Some n => delivered y ++ [n] | None => delivered y end) (mq_answers y ++ [Ok 0])
  | RecvTry nonblock =>
      match mq_messages (queue y) with
      | m :: l =>
          mkMqSys (mkMq (attr (queue y)) l (notification (queue y))) (<[i := RecvCopy m]> (actors y)) (mq_sent y)
            (mq_received y ++ [m]) (delivered y) (mq_answers y)
      | [] => if nonblock then return_ (Err EAGAIN) else set (queue y) (<[i := RecvWait true]> (actors y))
      end
  | RecvWait _ =>
      match mq_messages (queue y) with
      | [] => set (queue y) (<[i := RecvWait false]> (actors y))
      | _ => set (queue y) (<[i := RecvTry false]> (actors y))
      end
  | RecvCopy m =>
      match copy with
      | Ok _ => mkMqSys (queue y) (wake_senders <$> delete i (actors y)) (mq_sent y) (mq_received y) (delivered y)
                  (mq_answers y ++ [Ok (Z.of_nat (length (payload m)))])
      | Err e => return_ (Err e)
      end
  end.

(** [user] is the outcome of allocating and copying in the message; [QLeave] ends a
    wait with the error of a bad deadline, a timeout or a signal. *)
Inductive mq_event :=
| QSend (writable nonblock : bool) (user : result (list Z) SyscallErr) (msg_len p : Z)
| QReceive (readable nonblock : bool) (msg_len : Z)
| QStep (i : nat) (copy : result unit SyscallErr)
| QLeave (i : nat) (e : SyscallErr)
| QNotify (n : option MqNotification).

Definition waiting (a : actor) : bool := match a with SendWait _ _ | RecvWait _ => true | _ => false end.

Definition run_mq_event (y : MqSys) (ev : mq_event) : MqSys :=
  let set q l := mkMqSys q l (mq_sent y) (mq_received y) (delivered y) (mq_answers y) in
  let answer r q l := mkMqSys q l (mq_sent y) (mq_received y) (delivered y) (mq_answers y ++ [r]) in
  match ev with
  | QSend writable nonblock user msg_len p =>
      if negb writable then answer (Err EBADF) (queue y) (actors y)
      else if mq_msgsize (attr (queue y)) <? msg_len then answer (Err EMSGSIZE) (queue y) (actors y)
      else match user with
           | Err e => answer (Err e) (queue y) (actors y)
           | Ok d => set (queue y) (actors y ++ [SendTry nonblock (mkMqMessage p d)])
           end
  | QReceive readable nonblock msg_len =>
      if negb readable then answer (Err EBADF) (queue y) (actors y)
      else if msg_len <? mq_msgsize (attr (queue y)) then answer (Err EMSGSIZE) (queue y) (actors y)
      else set (queue y) (actors y ++ [RecvTry nonblock])
  | QStep i copy => match actors y !! i with Some a => mq_step y i a copy | None => y end
  | QLeave i e => match actors y !! i with
                  | Some a => if waiting a then answer (Err e) (queue y) (delete i (actors y)) else y
                  | None => y
                  end
  | QNotify n => let '(q, r) := sys_mq_notify (queue y) n in answer r q (actors y)
  end.

Fixpoint run_mq_events (y : MqSys) (evs : list mq_event) : MqSys :=
  match evs with [] => y | ev :: evs => run_mq_events (run_mq_event y ev) evs end.

Definition mq_init (a : LinuxMqAttr) : MqSys := mkMqSys (mq_queue_new a) [] [] [] [] [].


(** What a POSIX message queue guarantees: order of delivery, and wake-ups. *)

Definition before (m1 m2 : MqMessage) : Prop := prio m2 <= prio m1.
Definition of_prio (p : Z) (l : list MqMessage) : list MqMessage := filter (fun m => prio m = p) l.

(** ** Insertion *)

Lemma mq_position_spec p l : StronglySorted before l ->
  Forall (fun m => p <= prio m) (take (mq_position p l) l) /\ Forall (fun m => prio m < p) (drop (mq_position p l) l).
Proof.
  intros Hs. unfold mq_position. destruct (list_find (fun m => prio m < p) l) as [[i m]|] eqn:E.
  - apply list_find_Some in E as (E1 & E2 & E3). split.
    + apply Forall_lookup. intros j mj Hj. apply lookup_take_Some in Hj as [Hj Hlt]. specialize (E3 j mj Hj Hlt). lia.
    + rewrite <- (take_drop_middle l i m E1) in Hs at 1. apply StronglySorted_app in Hs as (_ & _ & Hs).
      apply StronglySorted_cons in Hs as [Hm _]. rewrite (drop_S l m i E1). constructor; [done|].
      eapply Forall_impl; [done|]. unfold before. intros x Hx. lia.
  - apply list_find_None in E. rewrite firstn_all, drop_all. split; [|constructor].
    eapply Forall_impl; [done|]. simpl. intros. lia.
Qed.

Lemma mq_insert_sorted m l : StronglySorted before l ->
  let pos := mq_position (prio m) l in StronglySorted before (take pos l ++ m :: drop pos l).
Proof.
  intros Hs pos. destruct (mq_position_spec (prio m) l Hs) as [H1 H2]. fold pos in H1, H2.
  rewrite <- (take_drop pos l) in Hs. apply StronglySorted_app in Hs as (S1 & S2 & S3).
  rewrite Forall_forall in H1, H2. apply StronglySorted_app. split_and!; [|done|].
  - intros x1 x2 Hx1 [->|Hx2]%elem_of_cons; [|by apply S1]. by apply H1.
  - apply StronglySorted_cons. split; [|done]. apply Forall_forall. intros x Hx. specialize (H2 x Hx). unfold before. lia.
Qed.

Lemma mq_insert_prio m l p : StronglySorted before l ->
  let pos := mq_position (prio m) l in
  of_prio p (take pos l ++ m :: drop pos l) = of_prio p l ++ of_prio p [m].
Proof.
  intros Hs pos. destruct (mq_position_spec (prio m) l Hs) as [_ H2]. fold pos in H2.
  unfold of_prio. rewrite <- (take_drop pos l) at 3. rewrite !filter_app, !filter_cons. simpl.
  destruct (decide (prio m = p)) as [<-|]; [|by rewrite filter_nil, app_nil_r].
  rewrite (filter_none _ (drop pos l)); [by rewrite app_nil_r|].
  intros x Hx. rewrite Forall_forall in H2. specialize (H2 x Hx). lia.
Qed.

(** ** Order of delivery *)

Record order_ok (y : MqSys) : Prop := {
  oo_sorted : StronglySorted before (mq_messages (queue y));
  oo_count : Z.of_nat (length (mq_messages (queue y))) <= Z.max 0 (mq_maxmsg (attr (queue y)));
  oo_fifo p : of_prio p (mq_sent y) = of_prio p (mq_received y) ++ of_prio p (mq_messages (queue y));
}.

Lemma mq_event_order y ev : order_ok y -> order_ok (run_mq_event y ev) /\ attr (queue (run_mq_event y ev)) = attr (queue y).
Proof.
  intros [S C F]. assert (Hsame : forall n l d r, order_ok (mkMqSys (mkMq (attr (queue y)) (mq_messages (queue y)) n) l
    (mq_sent y) (mq_received y) d r)) by (by split).
  assert (Hq : forall l d r, order_ok (mkMqSys (queue y) l (mq_sent y) (mq_received y) d r)) by (by split).
  destruct ev as [wr nb user len p|rd nb len|i cp|i e|n]; simpl.
  - destruct (negb wr); [done|]. destruct (_ <? _); [done|]. by destruct user.
  - destruct (negb rd); [done|]. by destruct (_ <? _).
  - destruct (actors y !! i) as [a|]; [|by destruct y]. unfold mq_step. destruct a as [nb m|m aw|n|nb|aw|m].
    + destruct (mq_full (queue y)) eqn:Ef; [by destruct nb|]. unfold mq_full in Ef. apply Z.leb_gt in Ef.
      split; [|done]. split; simpl.
      * by apply mq_insert_sorted.
      * rewrite length_app. cbn [length]. rewrite Nat.add_succ_r, <- length_app, take_drop. lia.
      * intros p. rewrite mq_insert_prio by done. unfold of_prio. rewrite filter_app, app_assoc. f_equal. apply F.
    + by destruct (mq_full (queue y)).
    + done.
    + destruct (mq_messages (queue y)) as [|m l] eqn:Em; [by destruct nb|]. split; [|done].
      split; simpl.
      * by apply StronglySorted_cons in S as [_ S].
      * simpl in C. lia.
      * intros p. rewrite F. unfold of_prio. rewrite filter_app, <- app_assoc. f_equal. apply (filter_app _ [m] l).
    + by destruct (mq_messages (queue y)).
    + by destruct cp.
  - destruct (actors y !! i) as [a|]; [|by destruct y]. by destruct (waiting a); [|destruct y].
  - unfold sys_mq_notify. destruct n; [destruct (notification (queue y))|]; simpl; done.
Qed.

Lemma mq_events_order evs : forall y, order_ok y ->
  order_ok (run_mq_events y evs) /\ attr (queue (run_mq_events y evs)) = attr (queue y).
Proof.
  induction evs as [|ev evs IH]; intros y Hy; [done|]. destruct (mq_event_order y ev Hy) as [H1 H2].
  destruct (IH _ H1) as [H3 H4]. cbn [run_mq_events]. split; [done|congruence].
Qed.

(** C26: in any history of calls on a queue created with the attributes of
    [mq_open], the queue never holds more than its maximum number of messages, they
    are ordered by descending priority, and for each priority the messages sent
    are those received followed by those still queued, in order. *)
Theorem mq_delivery_order l user a evs : 0 < msg_default l -> mq_attr_from_user l user = Ok a ->
  let y := run_mq_events (mq_init a) evs in
  StronglySorted before (mq_messages (queue y)) /\ Z.of_nat (length (mq_messages (queue y))) <= mq_maxmsg a /\
  forall p, of_prio p (mq_sent y) = of_prio p (mq_received y) ++ of_prio p (mq_messages (queue y)).
Proof.
  intros Hd Ha y. assert (Hm : 0 <= mq_maxmsg a).
  { unfold mq_attr_from_user in Ha. destruct user as [[u|e]|]; [|done|injection Ha as <-; simpl; lia].
    destruct (Z.leb_spec (mq_maxmsg u) 0); [done|]. destruct (_ || _); [done|]. injection Ha as <-. simpl. lia. }
  assert (H0 : order_ok (mq_init a)) by (split; simpl; [constructor|lia|done]).
  destruct (mq_events_order evs _ H0) as [[S C F] He]. fold y in S, C, F, He. rewrite He in C. simpl in C.
  split_and!; [done|lia|done].
Qed.

(** ** Wake-ups *)

Definition sleeps_to_send (a : actor) : Prop := exists m, a = SendWait m false.
Definition sleeps_to_receive (a : actor) : Prop := a = RecvWait false.
Definition will_wake_senders (a : actor) : Prop := exists m, a = RecvCopy m.
Definition will_wake_receivers (a : actor) : Prop := exists n, a = SendNotify n.

(** Whoever sleeps has reason to, or a wake-up is under way. *)
Record wake_ok (y : MqSys) : Prop := {
  wo_send : Exists sleeps_to_send (actors y) -> mq_full (queue y) = true \/ Exists will_wake_senders (actors y);
  wo_recv : Exists sleeps_to_receive (actors y) -> mq_messages (queue y) = [] \/ Exists will_wake_receivers (actors y);
}.

Definition copies_succeed (ev : mq_event) : Prop := match ev with QStep _ cp => cp = Ok () | _ => True end.

Lemma Exists_insert {A} (P : A -> Prop) l i x y : l !! i = Some x ->
  Exists P (<[i := y]> l) <-> P y \/ Exists P (delete i l).
Proof.
  intros E. pose proof (lookup_lt_Some _ _ _ E). rewrite insert_take_drop by done. rewrite delete_take_drop.
  rewrite !Exists_app, Exists_cons. tauto.
Qed.

Lemma Exists_delete {A} (P : A -> Prop) l i x : l !! i = Some x -> Exists P l <-> P x \/ Exists P (delete i l).
Proof. intros E. rewrite <- (Exists_insert P l i x x E), list_insert_id by done. done. Qed.

Lemma no_sleeping_senders l : ~ Exists sleeps_to_send (wake_senders <$> l).
Proof.
  rewrite Exists_exists. intros (a & Ha & m & ->). apply list_elem_of_fmap in Ha as (b & Hb & _). by destruct b.
Qed.

Lemma no_sleeping_receivers l : ~ Exists sleeps_to_receive (wake_receivers <$> l).
Proof. rewrite Exists_exists. intros (a & Ha & ->). apply list_elem_of_fmap in Ha as (b & Hb & _). by destruct b. Qed.

Lemma Exists_fmap_same {A} (P : A -> Prop) (f : A -> A) l : (forall a, P (f a) <-> P a) -> Exists P (f <$> l) <-> Exists P l.
Proof.
  intros H. induction l as [|x l IH]; [done|]. rewrite fmap_cons, !Exists_cons, IH, H. done.
Qed.

(** What the four roles are for each kind of actor. *)
Ltac roles :=
  unfold sleeps_to_send, sleeps_to_receive, will_wake_senders, will_wake_receivers in *; naive_solver.

(** Actor [i] becomes [b], on a queue that differs at most in its messages. *)
Lemma wake_insert y i a b q s r d x : wake_ok y -> actors y !! i = Some a ->
  (sleeps_to_send b -> mq_full q = true) -> (sleeps_to_receive b -> mq_messages q = []) ->
  (mq_full (queue y) = true -> mq_full q = true \/ will_wake_senders b) ->
  (mq_messages (queue y) = [] -> mq_messages q = [] \/ will_wake_receivers b) ->
  ~ will_wake_senders a -> ~ will_wake_receivers a ->
  wake_ok (mkMqSys q (<[i := b]> (actors y)) s r d x).
Proof.
  intros [W1 W2] E H1 H2 H3 H4 H5 H6.
  rewrite (Exists_delete sleeps_to_send _ _ _ E), (Exists_delete will_wake_senders _ _ _ E) in W1.
  rewrite (Exists_delete sleeps_to_receive _ _ _ E), (Exists_delete will_wake_receivers _ _ _ E) in W2.
  split; simpl; rewrite !(Exists_insert _ _ _ a) by done; tauto.
Qed.

(** Actor [i] that owes no wake-up leaves. *)
Lemma wake_delete y i a s r d x : wake_ok y -> actors y !! i = Some a ->
  ~ will_wake_senders a -> ~ will_wake_receivers a -> wake_ok (mkMqSys (queue y) (delete i (actors y)) s r d x).
Proof.
  intros [W1 W2] E H5 H6.
  rewrite (Exists_delete sleeps_to_send _ _ _ E), (Exists_delete will_wake_senders _ _ _ E) in W1.
  rewrite (Exists_delete sleeps_to_receive _ _ _ E), (Exists_delete will_wake_receivers _ _ _ E) in W2.
  split; simpl; tauto.
Qed.

Lemma mq_step_wake y i a : wake_ok y -> actors y !! i = Some a -> wake_ok (mq_step y i a (Ok ())).
Proof.
  intros Hy E. pose proof Hy as [W1 W2]. unfold mq_step. destruct a as [nb m|m aw|n|nb|aw|m].
  - destruct (mq_full (queue y)) eqn:Ef; [destruct nb; [by eapply wake_delete; [done|done|roles|roles]|]|].
    + eapply wake_insert; [done|done|roles..].
    + eapply wake_insert; [done|done|roles|roles|congruence|by right; eexists|roles|roles].
  - destruct (mq_full (queue y)) eqn:Ef; (eapply wake_insert; [done|done|roles..]).
  - rewrite (Exists_delete sleeps_to_send _ _ _ E), (Exists_delete will_wake_senders _ _ _ E) in W1.
    split; simpl; [|by intros ?%no_sleeping_receivers].
    rewrite !Exists_fmap_same by (intros []; roles). roles.
  - destruct (mq_messages (queue y)) as [|m l] eqn:Em; [destruct nb; [by eapply wake_delete; [done|done|roles|roles]|]|].
    + eapply wake_insert; [done|done|roles..].
    + eapply wake_insert; [done|done|roles|roles|by right; eexists|congruence|roles|roles].
  - destruct (mq_messages (queue y)) as [|m l] eqn:Em; (eapply wake_insert; [done|done|roles..]).
  - rewrite (Exists_delete sleeps_to_receive _ _ _ E), (Exists_delete will_wake_receivers _ _ _ E) in W2.
    split; simpl; [by intros ?%no_sleeping_senders|].
    rewrite !Exists_fmap_same by (intros []; roles). roles.
Qed.

Lemma mq_answer_wake y x : wake_ok y ->
  wake_ok (mkMqSys (queue y) (actors y) (mq_sent y) (mq_received y) (delivered y) x).
Proof. by intros [W1 W2]. Qed.

Lemma mq_spawn_wake y a : wake_ok y -> ~ sleeps_to_send a -> ~ sleeps_to_receive a ->
  wake_ok (mkMqSys (queue y) (actors y ++ [a]) (mq_sent y) (mq_received y) (delivered y) (mq_answers y)).
Proof.
  intros [W1 W2] H1 H2. split; simpl; rewrite !Exists_app, !Exists_cons, !Exists_nil; tauto.
Qed.

Lemma mq_event_wake y ev : wake_ok y -> copies_succeed ev -> wake_ok (run_mq_event y ev).
Proof.
  intros Hy Hev. destruct ev as [wr nb user len p|rd nb len|i cp|i e|n]; simpl in *.
  - destruct (negb wr); [by apply mq_answer_wake|]. destruct (_ <? _); [by apply mq_answer_wake|].
    destruct user; [|by apply mq_answer_wake]. by apply mq_spawn_wake; [done|roles..].
  - destruct (negb rd); [by apply mq_answer_wake|]. destruct (_ <? _); [by apply mq_answer_wake|]. by apply mq_spawn_wake; [done|roles..].
  - subst cp. destruct (actors y !! i) as [a|] eqn:E; [by apply mq_step_wake|done].
  - destruct (actors y !! i) as [a|] eqn:E; [|done]. destruct (waiting a) eqn:Ew; [|done].
    eapply wake_delete; [done|done|..]; destruct a; roles.
  - destruct Hy as [W1 W2]. unfold sys_mq_notify. destruct n; [destruct (notification (queue y))|]; by split.
Qed.

(** C27: no caller of a message queue oversleeps.  In any history in which the
    copies to user memory succeed, a sender sleeps only while the queue is full or
    a receiver is about to wake it, and a receiver sleeps only while the queue is
    empty or a sender is about to wake it. *)
Theorem mq_no_lost_wakeup a evs : Forall copies_succeed evs ->
  let y := run_mq_events (mq_init a) evs in
  (Exists sleeps_to_send (actors y) -> mq_full (queue y) = true \/ Exists will_wake_senders (actors y)) /\
  (Exists sleeps_to_receive (actors y) -> mq_messages (queue y) = [] \/ Exists will_wake_receivers (actors y)).
Proof.
  intros Hev y. assert (H0 : wake_ok (mq_init a)) by (split; by rewrite Exists_nil).
  assert (Hy : wake_ok y); [|by destruct Hy]. unfold y. revert H0. generalize (mq_init a).
  induction Hev as [|ev evs H1 H2 IH]; intros y0 H0; [done|]. apply IH. by apply mq_event_wake.
Qed.

Definition demo_attr : LinuxMqAttr := mkMqAttr 0 1 8 0.

(** A queue for one message: it is filled, and a second sender goes to sleep. *)
Definition demo_fill : list mq_event :=
  [QSend true false (Ok [1]) 1 0; QStep 0 (Ok ()); QStep 0 (Ok ());
   QSend true false (Ok [2]) 1 0; QStep 0 (Ok ()); QStep 0 (Ok ())].

Lemma mq_delivery_order_witness :
  let y := run_mq_events (mq_init demo_attr) demo_fill in
  StronglySorted before (mq_messages (queue y)) /\ Z.of_nat (length (mq_messages (queue y))) <= 1.
Proof.
  destruct (mq_delivery_order mq_limits_default (Some (Ok demo_attr)) demo_attr demo_fill) as (H1 & H2 & _);
    [done|reflexivity|]. split; [exact H1|exact H2].
Defined.

Lemma mq_no_lost_wakeup_witness :
  let y := run_mq_events (mq_init demo_attr) demo_fill in
  Exists sleeps_to_send (actors y) /\ (mq_full (queue y) = true \/ Exists will_wake_senders (actors y)).
Proof.
  assert (H : Exists sleeps_to_send (actors (run_mq_events (mq_init demo_attr) demo_fill))).
  { left. exists (mkMqMessage 0 [2]). reflexivity. }
  split; [exact H|]. apply (mq_no_lost_wakeup demo_attr demo_fill); [repeat constructor|exact H].
Defined.

(** When the copy of a received message to user memory fails, the senders are
    not woken: the queue is empty, nobody is about to do anything, and the sender
    sleeps on. *)
Theorem mq_fault_misses_wakeup :
  let y := run_mq_events (mq_init demo_attr) (demo_fill ++ [QReceive true false 8; QStep 1 (Ok ()); QStep 1 (Err EFAULT)]) in
  mq_messages (queue y) = [] /\ actors y = [SendWait (mkMqMessage 0 [2]) false].
Proof. vm_compute. auto. Qed.
