(* ===== verification/SysvShm.v ===== *)
(** System V shared memory ([os/src/syscall/process/ipc.rs], shm part): segments,
    their attachments, and the life time of a segment.

    The address space is an argument: [shm_mmap] answers with the address of the
    mapping.  [shmat] releases the registry while it maps, so it is split at that
    point into [shmat_lookup] and [shmat_commit]. *)

From stdpp Require Import base numbers option list.
From S2P Require Import Prelude BTree Addr SysvIpc.

Definition SHM_RDONLY : Z := 4096.
Definition SHM_RND : Z := 8192.
Definition SHM_REMAP : Z := 16384.
Definition SHM_EXEC : Z := 32768.
Definition SHMLBA : Z := PAGE_SIZE.
Definition SHMMNI : Z := 4096.
Definition MAX_SHM_SIZE : Z := 16 * 1024 * 1024.

Record ShmAttachment := mkAttachment {
  at_pid : Z;
  at_addr : Z;
}.

#[export] Instance ShmAttachment_eq_dec : EqDecision ShmAttachment.
Proof. solve_decision. Defined.

Record ShmSegment := mkSegment {
  g_ns : Z;
  g_perm : Perm;
  g_size : Z;
  g_cpid : Z;
  g_lpid : Z;
  g_atime : Z;
  g_dtime : Z;
  g_ctime : Z;
  g_removed : bool;
  g_locked : bool;
  g_frames : list Z;
  g_attachments : list ShmAttachment;
}.

Definition segment_new (w : Caller) (key size mode : Z) : ShmSegment :=
  mkSegment (ns_of w) (perm_new w key mode) size (pid w) 0 0 0 (now w) false false [] [].

Record ShmRegistry := mkShmRegistry {
  shm_next_id : option Z;
  segments : btree ShmSegment;
}.

Definition shm_registry_new : ShmRegistry := mkShmRegistry (Some 1) bt_empty.

Definition put_segment (r : ShmRegistry) (id : Z) (g : ShmSegment) : ShmRegistry :=
  mkShmRegistry (shm_next_id r) (bt_insert id g (segments r)).

Definition shm_find_by_key (r : ShmRegistry) (ns key : Z) : option (Z * ShmSegment) :=
  head (filter (fun e => g_ns e.2 = ns /\ g_removed e.2 = false /\ p_key (g_perm e.2) = key) (segments r)).

Definition remove_if_detached (r : ShmRegistry) (id : Z) : ShmRegistry :=
  match bt_get id (segments r) with
  | Some g => if g_removed g && match g_attachments g with [] => true | _ => false end
              then mkShmRegistry (shm_next_id r) (bt_remove id (segments r)) else r
  | None => r
  end.

Definition ns_segment_count (r : ShmRegistry) (ns : Z) : Z :=
  Z.of_nat (length (filter (fun e => g_ns e.2 = ns) (segments r))).

Definition pages_of (size : Z) : Z := (size + PAGE_SIZE - 1) / PAGE_SIZE.

(** ** [shmget] *)

Definition sys_shmget (r : ShmRegistry) (w : Caller) (key size shmflg : Z) : ShmRegistry * result Z SyscallErr :=
  let create :=
    if (size =? 0) || (MAX_SHM_SIZE <? size) then (r, Err EINVAL)
    else if SHMMNI <=? ns_segment_count r (ns_of w) then (r, Err ENOSPC)
    else
      let '(cursor, fresh) := alloc_id (shm_next_id r) in
      let r := mkShmRegistry cursor (segments r) in
      match fresh with
      | None => (r, Err ENOSPC)
      | Some id => (put_segment r id (segment_new w key size (Z.land shmflg 511)), Ok id)
      end in
  if key =? IPC_PRIVATE then create
  else
    match shm_find_by_key r (ns_of w) key with
    | Some (id, g) =>
        if negb (Z.land shmflg IPC_CREAT =? 0) && negb (Z.land shmflg IPC_EXCL =? 0) then (r, Err EEXIST)
        else if g_size g <? size then (r, Err EINVAL)
        else if negb (has_permission w (g_perm g) (Z.land shmflg (Z.lor IPC_R IPC_W))) then (r, Err EACCES)
        else (r, Ok id)
    | None => if Z.land shmflg IPC_CREAT =? 0 then (r, Err ENOENT) else create
    end.

(** ** [shmat] *)

Definition with_frames (g : ShmSegment) (f : list Z) : ShmSegment :=
  mkSegment (g_ns g) (g_perm g) (g_size g) (g_cpid g) (g_lpid g) (g_atime g) (g_dtime g) (g_ctime g) (g_removed g)
    (g_locked g) f (g_attachments g).

(** First critical section: permission and frames.  [frames_alloc_any] gives that
    many frames or nothing. *)
Definition shmat_lookup (frames_alloc_any : Z -> option (list Z)) (r : ShmRegistry) (w : Caller) (alloc : bool)
    (shmid shmflg : Z) : ShmRegistry * result (Z * list Z) SyscallErr :=
  match bt_get shmid (segments r) with
  | None => (r, Err EINVAL)
  | Some g =>
      let requested := if Z.land shmflg SHM_RDONLY =? 0 then Z.lor IPC_R IPC_W else IPC_R in
      if negb (g_ns g =? ns_of w) then (r, Err EINVAL)
      else if negb (has_permission w (g_perm g) requested) then (r, Err EACCES)
      else
        let finish r g :=
          if negb alloc then (r, Err ENOMEM)
          else if g_removed g then (r, Err EIDRM) else (r, Ok (g_size g, g_frames g)) in
        match g_frames g with
        | [] => match frames_alloc_any (pages_of (g_size g)) with
                | None => (r, Err ENOMEM)
                | Some f => let g := with_frames g f in finish (put_segment r shmid g) g
                end
        | _ => finish r g
        end
  end.

(** LoongArch: [ARCH_SHMLBA] is 64 KiB. *)
Definition round_shmat_addr (arch_shmlba addr : Z) : Z :=
  if (SHMLBA <? arch_shmlba) && (Z.land addr (arch_shmlba - 1) =? arch_shmlba - 1)
  then Z.land addr (Z.lnot (arch_shmlba - 1)) else Z.land addr (Z.lnot (SHMLBA - 1)).

(** The fixed address asked for, [None] when the kernel may choose. *)
Definition shmat_address (arch_shmlba shmaddr shmflg : Z) : result (option Z) SyscallErr :=
  if shmaddr =? 0 then Ok None
  else
    let checked a := if a <? 65536 then Err EINVAL else Ok (Some a) in
    if negb (Z.land shmflg SHM_RND =? 0) then checked (round_shmat_addr arch_shmlba shmaddr)
    else if negb (Z.land shmaddr (SHMLBA - 1) =? 0) then Err EINVAL
    else checked shmaddr.

(** Second critical section: record the attachment. *)
Definition shmat_commit (r : ShmRegistry) (w : Caller) (alloc : bool) (shmid mapped : Z) : ShmRegistry * result Z SyscallErr :=
  match bt_get shmid (segments r) with
  | None => (r, Err EIDRM)
  | Some g =>
      if negb (g_ns g =? ns_of w) || g_removed g then (r, Err EIDRM)
      else if negb alloc then (r, Err ENOMEM)
      else
        let g := mkSegment (g_ns g) (g_perm g) (g_size g) (g_cpid g) (pid w) (now w) (g_dtime g) (g_ctime g) (g_removed g)
                   (g_locked g) (g_frames g) (g_attachments g ++ [mkAttachment (pid w) mapped]) in
        (put_segment r shmid g, Ok mapped)
  end.

Definition shmat_flags_ok (shmaddr shmflg : Z) : bool :=
  (Z.land shmflg (Z.lnot (Z.lor SHM_RDONLY (Z.lor SHM_RND (Z.lor SHM_REMAP SHM_EXEC)))) =? 0)
  && negb ((shmaddr =? 0) && negb (Z.land shmflg SHM_REMAP =? 0)).

(** The whole call when nobody intervenes; [true] in the answer means that the new
    mapping is undone. *)
Definition sys_shmat (frames_alloc_any : Z -> option (list Z)) (shm_mmap : option Z -> Z -> list Z -> result Z SyscallErr)
    (arch_shmlba : Z) (r : ShmRegistry) (w : Caller) (alloc1 alloc2 : bool) (shmid shmaddr shmflg : Z)
    : ShmRegistry * result Z SyscallErr * bool :=
  if negb (shmat_flags_ok shmaddr shmflg) then (r, Err EINVAL, false)
  else
    match shmat_lookup frames_alloc_any r w alloc1 shmid shmflg with
    | (r, Err e) => (r, Err e, false)
    | (r, Ok (size, frames)) =>
        match shmat_address arch_shmlba shmaddr shmflg with
        | Err e => (r, Err e, false)
        | Ok fixed =>
            match shm_mmap fixed size frames with
            | Err e => (r, Err e, false)
            | Ok mapped =>
                match shmat_commit r w alloc2 shmid mapped with
                | (r, Err e) => (r, Err e, true)
                | (r, Ok a) => (r, Ok a, false)
                end
            end
        end
    end.

(** ** [shmdt] *)

(** [swap_remove] *)
Definition swap_remove {A} (l : list A) (pos : nat) : list A :=
  match last l with
  | None => l
  | Some x => take (length l - 1) (<[pos := x]> l)
  end.

Definition is_attached (p addr : Z) (a : ShmAttachment) : Prop := at_pid a = p /\ at_addr a = addr.
#[export] Instance is_attached_dec p addr a : Decision (is_attached p addr a).
Proof. unfold is_attached. apply _. Defined.

Definition detached (w : Caller) (pos : nat) (g : ShmSegment) : ShmSegment :=
  mkSegment (g_ns g) (g_perm g) (g_size g) (g_cpid g) (pid w) (g_atime g) (now w) (g_ctime g) (g_removed g) (g_locked g)
    (g_frames g) (swap_remove (g_attachments g) pos).

(** The first segment, in order of identifiers, with such an attachment. *)
Fixpoint find_attachment (p addr : Z) (l : btree ShmSegment) : option (Z * ShmSegment * nat) :=
  match l with
  | [] => None
  | (id, g) :: l =>
      match list_find (is_attached p addr) (g_attachments g) with
      | Some (pos, _) => Some (id, g, pos)
      | None => find_attachment p addr l
      end
  end.

(** The size of the range that is unmapped. *)
Definition sys_shmdt (r : ShmRegistry) (w : Caller) (shmaddr : Z) : ShmRegistry * result Z SyscallErr :=
  match find_attachment (pid w) shmaddr (segments r) with
  | None => (r, Err EINVAL)
  | Some (id, g, pos) => (remove_if_detached (put_segment r id (detached w pos g)) id, Ok (g_size g))
  end.

(** ** Control *)

Definition with_status (g : ShmSegment) (removed locked : bool) : ShmSegment :=
  mkSegment (g_ns g) (g_perm g) (g_size g) (g_cpid g) (g_lpid g) (g_atime g) (g_dtime g) (g_ctime g) removed locked
    (g_frames g) (g_attachments g).

(** The owner's access to a segment of its namespace. *)
Definition shm_owned (r : ShmRegistry) (w : Caller) (shmid : Z) : result ShmSegment SyscallErr :=
  match bt_get shmid (segments r) with
  | None => Err EINVAL
  | Some g => if negb (g_ns g =? ns_of w) then Err EINVAL
              else if negb (can_modify w (g_perm g)) then Err EPERM else Ok g
  end.

Definition shmctl_rmid (r : ShmRegistry) (w : Caller) (shmid : Z) : ShmRegistry * result Z SyscallErr :=
  match shm_owned r w shmid with
  | Err e => (r, Err e)
  | Ok g => (remove_if_detached (put_segment r shmid (with_status g true (g_locked g))) shmid, Ok 0)
  end.

Definition shmctl_lock (r : ShmRegistry) (w : Caller) (shmid : Z) (locked : bool) : ShmRegistry * result Z SyscallErr :=
  match shm_owned r w shmid with
  | Err e => (r, Err e)
  | Ok g => (put_segment r shmid (with_status g (g_removed g) locked), Ok 0)
  end.

Definition shmctl_set (r : ShmRegistry) (w : Caller) (user : result (Z * Z * Z) SyscallErr) (shmid : Z)
    : ShmRegistry * result Z SyscallErr :=
  match user with
  | Err e => (r, Err e)
  | Ok (uid, gid, mode) =>
      match shm_owned r w shmid with
      | Err e => (r, Err e)
      | Ok g => (put_segment r shmid
                   (mkSegment (g_ns g) (perm_set (g_perm g) uid gid mode) (g_size g) (g_cpid g) (g_lpid g) (g_atime g)
                      (g_dtime g) (now w) (g_removed g) (g_locked g) (g_frames g) (g_attachments g)), Ok 0)
      end
  end.

(** ** Exit and fork *)

Definition drop_process (p t : Z) (g : ShmSegment) : ShmSegment :=
  let rest := filter (fun a => at_pid a <> p) (g_attachments g) in
  if (length rest =? length (g_attachments g))%nat
  then g
  else mkSegment (g_ns g) (g_perm g) (g_size g) (g_cpid g) p (g_atime g) t (g_ctime g) (g_removed g) (g_locked g)
         (g_frames g) rest.

(** A segment that is marked and no longer attached goes, if its identifier could
    be noted. *)
Definition unneeded (alloc : bool) (g : ShmSegment) : bool :=
  alloc && g_removed g && match g_attachments g with [] => true | _ => false end.

Definition shm_detach_process (r : ShmRegistry) (p t : Z) (alloc : bool) : ShmRegistry :=
  let l := (fun e => (e.1, drop_process p t e.2)) <$> segments r in
  mkShmRegistry (shm_next_id r) (bt_retain (fun _ g => negb (unneeded alloc g)) l).

Definition inherit (parent child : Z) (g : ShmSegment) : ShmSegment :=
  mkSegment (g_ns g) (g_perm g) (g_size g) (g_cpid g) (g_lpid g) (g_atime g) (g_dtime g) (g_ctime g) (g_removed g)
    (g_locked g) (g_frames g)
    (g_attachments g ++ ((fun a => mkAttachment child (at_addr a)) <$> filter (fun a => at_pid a = parent) (g_attachments g))).

Definition shm_clone_attachments (r : ShmRegistry) (parent child : Z) (alloc : bool) : ShmRegistry * result Z SyscallErr :=
  if forallb (fun e => forallb (fun a => negb (at_pid a =? parent)) (g_attachments e.2)) (segments r) then (r, Ok 0)
  else if negb alloc then (r, Err ENOMEM)
  else (mkShmRegistry (shm_next_id r) ((fun e => (e.1, inherit parent child e.2)) <$> segments r), Ok 0).


(** Life time of shared-memory segments: a segment exists as long as it is not
    marked for removal or is attached, and its attachments are exactly those that
    the calls have established. *)

Inductive shm_event :=
| ShGet (w : Caller) (key size shmflg : Z)
| ShLookup (frames : option (list Z)) (w : Caller) (alloc : bool) (shmid shmflg : Z)
| ShCommit (w : Caller) (alloc : bool) (shmid mapped : Z)
| ShDetach (w : Caller) (shmaddr : Z)
| ShRemove (w : Caller) (shmid : Z)
| ShLock (w : Caller) (shmid : Z) (locked : bool)
| ShSet (w : Caller) (user : result (Z * Z * Z) SyscallErr) (shmid : Z)
| ShExit (p t : Z)
| ShFork (parent child : Z) (alloc : bool).

Abbreviation live := (list (Z * ShmAttachment)).

Record ShmSys := mkShmSys {
  sh_reg : ShmRegistry;
  sh_live : live;
}.

Definition shm_sys_init : ShmSys := mkShmSys shm_registry_new [].

Definition live_of (id : Z) (l : live) : list ShmAttachment := snd <$> filter (fun e => e.1 = id) l.

(** The attachment that [shmdt] ends. *)
Definition end_one (r : ShmRegistry) (w : Caller) (shmaddr : Z) (l : live) : live :=
  match find_attachment (pid w) shmaddr (segments r) with
  | None => l
  | Some (id, _, _) =>
      match list_find (fun e => e = (id, mkAttachment (pid w) shmaddr)) l with
      | Some (i, _) => delete i l
      | None => l
      end
  end.

Definition run_shm_event (y : ShmSys) (ev : shm_event) : ShmSys :=
  let r := sh_reg y in
  match ev with
  | ShGet w key size shmflg => mkShmSys (fst (sys_shmget r w key size shmflg)) (sh_live y)
  | ShLookup frames w alloc shmid shmflg =>
      mkShmSys (fst (shmat_lookup (fun n => if bool_decide (length <$> frames = Some (Z.to_nat n)) then frames else None)
                       r w alloc shmid shmflg)) (sh_live y)
  | ShCommit w alloc shmid mapped =>
      match shmat_commit r w alloc shmid mapped with
      | (r, Ok a) => mkShmSys r (sh_live y ++ [(shmid, mkAttachment (pid w) a)])
      | (r, Err _) => mkShmSys r (sh_live y)
      end
  | ShDetach w shmaddr => mkShmSys (fst (sys_shmdt r w shmaddr)) (end_one r w shmaddr (sh_live y))
  | ShRemove w shmid => mkShmSys (fst (shmctl_rmid r w shmid)) (sh_live y)
  | ShLock w shmid locked => mkShmSys (fst (shmctl_lock r w shmid locked)) (sh_live y)
  | ShSet w user shmid => mkShmSys (fst (shmctl_set r w user shmid)) (sh_live y)
  | ShExit p t => mkShmSys (shm_detach_process r p t true) (filter (fun e => at_pid e.2 <> p) (sh_live y))
  | ShFork parent child alloc =>
      match shm_clone_attachments r parent child alloc with
      | (r, Ok _) => mkShmSys r (sh_live y ++ ((fun e => (e.1, mkAttachment child (at_addr e.2)))
                                                 <$> filter (fun e => at_pid e.2 = parent) (sh_live y)))
      | (r, Err _) => mkShmSys r (sh_live y)
      end
  end.

Fixpoint run_shm_events (y : ShmSys) (evs : list shm_event) : ShmSys :=
  match evs with [] => y | ev :: evs => run_shm_events (run_shm_event y ev) evs end.

Definition shm_event_ok (ev : shm_event) : Prop := match ev with ShGet _ _ size _ => 0 <= size | _ => True end.

(** ** The invariant *)

Record segment_ok (g : ShmSegment) : Prop := {
  go_size : 1 <= g_size g <= MAX_SHM_SIZE;
  go_frames : g_frames g = [] \/ Z.of_nat (length (g_frames g)) = pages_of (g_size g);
  go_alive : g_removed g = true -> g_attachments g <> [];
}.

Record shm_inv (y : ShmSys) : Prop := {
  sh_wf : bt_wf (segments (sh_reg y));
  sh_cursor : cursor_ok (shm_next_id (sh_reg y));
  sh_ids id g : bt_get id (segments (sh_reg y)) = Some g -> issued (shm_next_id (sh_reg y)) id;
  sh_each id g : bt_get id (segments (sh_reg y)) = Some g -> segment_ok g;
  sh_keys id1 id2 g1 g2 : bt_get id1 (segments (sh_reg y)) = Some g1 -> bt_get id2 (segments (sh_reg y)) = Some g2 ->
    g_ns g1 = g_ns g2 -> p_key (g_perm g1) = p_key (g_perm g2) -> p_key (g_perm g1) <> IPC_PRIVATE ->
    g_removed g1 = false -> g_removed g2 = false -> id1 = id2;
  sh_attached id : match bt_get id (segments (sh_reg y)) with
                   | Some g => g_attachments g ≡ₚ live_of id (sh_live y)
                   | None => live_of id (sh_live y) = []
                   end;
}.

(** ** Lists *)

Lemma swap_remove_perm {A} (l : list A) pos x : l !! pos = Some x -> l ≡ₚ x :: swap_remove l pos.
Proof.
  intros Hx. pose proof (lookup_lt_Some _ _ _ Hx) as Hlt. unfold swap_remove.
  destruct l as [|z l'] using rev_ind; [done|]. clear IHl'. rewrite last_snoc, length_app in *. simpl in *.
  replace (length l' + 1 - 1)%nat with (length l') by lia.
  destruct (decide (pos = length l')) as [->|Hne].
  - rewrite lookup_app_r, Nat.sub_diag in Hx by lia. injection Hx as <-.
    rewrite take_insert_ge by lia. rewrite take_app_length. apply Permutation_app_comm.
  - rewrite lookup_app_l in Hx by lia. rewrite insert_app_l by lia. rewrite take_app_le by (rewrite length_insert; lia).
    rewrite take_ge by (rewrite length_insert; lia). rewrite Permutation_app_comm. simpl.
    rewrite <- (take_drop_middle l' pos x Hx) at 1. rewrite insert_take_drop by lia.
    rewrite <- !Permutation_middle. apply perm_swap.
Qed.

Lemma live_of_app id l1 l2 : live_of id (l1 ++ l2) = live_of id l1 ++ live_of id l2.
Proof. unfold live_of. by rewrite filter_app, fmap_app. Qed.

Lemma live_of_one id id' a : live_of id [(id', a)] = if id =? id' then [a] else [].
Proof. unfold live_of. rewrite filter_cons. simpl. destruct (Z.eqb_spec id id'); case_decide; congruence || done. Qed.

Lemma live_of_filter id (P : ShmAttachment -> Prop) `{!forall a, Decision (P a)} l :
  live_of id (filter (fun e => P e.2) l) = filter P (live_of id l).
Proof.
  unfold live_of. induction l as [|[i a] l IH]; [done|]. rewrite !filter_cons. simpl.
  destruct (decide (P a)) as [Hp|Hp], (decide (i = id)) as [Hi|Hi]; rewrite ?filter_cons; simpl;
    rewrite ?(decide_True _ _ Hi), ?(decide_False _ _ Hi); rewrite ?fmap_cons, ?filter_cons; simpl;
    rewrite ?(decide_True _ _ Hp), ?(decide_False _ _ Hp), ?IH; done.
Qed.

Lemma live_of_inherit id child l :
  live_of id ((fun e => (e.1, mkAttachment child (at_addr e.2))) <$> l) = (fun a => mkAttachment child (at_addr a)) <$> live_of id l.
Proof.
  unfold live_of. induction l as [|[i a] l IH]; [done|]. rewrite fmap_cons, !filter_cons. simpl.
  case_decide; [|done]. by rewrite !fmap_cons, IH.
Qed.

Lemma live_of_delete id l i id' a : l !! i = Some (id', a) ->
  live_of id l ≡ₚ (if id =? id' then [a] else []) ++ live_of id (delete i l).
Proof.
  intros E. rewrite <- (live_of_one id id' a), <- live_of_app. simpl. unfold live_of.
  apply fmap_Permutation, filter_Permutation. rewrite delete_take_drop.
  rewrite <- (take_drop_middle l i _ E) at 1. by rewrite Permutation_middle.
Qed.

(** ** Steps *)

Lemma shm_inv_same y : shm_inv y -> shm_inv (mkShmSys (sh_reg y) (sh_live y)).
Proof. by destruct y. Qed.

(** One segment changes, keeping its namespace and key. *)
Lemma shm_put y id g g' l : shm_inv y -> bt_get id (segments (sh_reg y)) = Some g -> g_ns g' = g_ns g ->
  p_key (g_perm g') = p_key (g_perm g) -> (g_removed g' = false -> g_removed g = false) -> segment_ok g' ->
  g_attachments g' ≡ₚ live_of id l -> (forall id', id' <> id -> live_of id' l ≡ₚ live_of id' (sh_live y)) ->
  shm_inv (mkShmSys (put_segment (sh_reg y) id g') l).
Proof.
  intros [W C I E K A] Hg Hns Hk Hr Hok Ha Ho. split; simpl; [by apply bt_wf_insert|done| | | |].
  - intros id1 g1. rewrite bt_get_insert by done. destruct (Z.eqb_spec id1 id) as [->|]; eauto.
  - intros id1 g1. rewrite bt_get_insert by done. destruct (Z.eqb_spec id1 id); [by intros [= <-]|apply E].
  - intros id1 id2 g1 g2. rewrite !bt_get_insert by done.
    destruct (Z.eqb_spec id1 id) as [->|], (Z.eqb_spec id2 id) as [->|]; try done; intros; simplify_eq.
    + apply (K id id2 g g2); auto; congruence.
    + apply (K id1 id g1 g); auto; congruence.
    + by apply (K id1 id2 g1 g2).
  - intros id1. rewrite bt_get_insert by done. destruct (Z.eqb_spec id1 id) as [->|Hne]; [done|].
    specialize (A id1). specialize (Ho id1 Hne). destruct (bt_get id1 _); [by rewrite Ho|].
    rewrite A in Ho. by apply Permutation_nil_r in Ho.
Qed.

(** ... and goes if it was marked and is no longer attached. *)
Lemma shm_put_removable y id g g' l : shm_inv y -> bt_get id (segments (sh_reg y)) = Some g -> g_ns g' = g_ns g ->
  p_key (g_perm g') = p_key (g_perm g) -> (g_removed g' = false -> g_removed g = false) ->
  g_size g' = g_size g -> g_frames g' = g_frames g ->
  g_attachments g' ≡ₚ live_of id l -> (forall id', id' <> id -> live_of id' l ≡ₚ live_of id' (sh_live y)) ->
  shm_inv (mkShmSys (remove_if_detached (put_segment (sh_reg y) id g') id) l).
Proof.
  intros Hy Hg Hns Hk Hr Hs Hf Ha Ho. pose proof Hy as [W C I E K A]. unfold remove_if_detached. simpl.
  rewrite bt_get_insert, Z.eqb_refl by done. destruct (E id g Hg) as [E1 E2 _].
  destruct (g_removed g' && _) eqn:Ed.
  - apply andb_true_iff in Ed as [Er Ed]. destruct (g_attachments g') eqn:Eat; [|done]. apply Permutation_nil_l in Ha.
    assert (Hget : forall i x, bt_get i (bt_remove id (bt_insert id g' (segments (sh_reg y)))) = Some x ->
      i <> id /\ bt_get i (segments (sh_reg y)) = Some x).
    { intros i x. rewrite bt_get_remove, bt_get_insert by (done || by apply bt_wf_insert). by destruct (Z.eqb_spec i id). }
    split; simpl; [by apply bt_wf_remove, bt_wf_insert|done| | | |].
    + intros id1 g1 [_ H]%Hget. eauto.
    + intros id1 g1 [_ H]%Hget. eauto.
    + intros id1 id2 g1 g2 [_ H1]%Hget [_ H2]%Hget. by apply (K id1 id2 g1 g2).
    + intros id1. rewrite bt_get_remove, bt_get_insert by (done || by apply bt_wf_insert).
      destruct (Z.eqb_spec id1 id) as [->|Hne]; [done|]. specialize (A id1). specialize (Ho id1 Hne).
      destruct (bt_get id1 _); [by rewrite Ho|]. rewrite A in Ho. by apply Permutation_nil_r in Ho.
  - eapply shm_put; try done. split; [by rewrite Hs|by rewrite Hf, Hs|].
    intros Hrm Hnil. by rewrite Hrm, Hnil in Ed.
Qed.

Lemma shm_find_None r ns key : shm_find_by_key r ns key = None -> forall id g, bt_get id (segments r) = Some g ->
  g_ns g = ns -> p_key (g_perm g) = key -> g_removed g = false -> False.
Proof.
  unfold shm_find_by_key. intros H id g Hg H1 H2 H3. apply bt_get_elem in Hg.
  assert (Hin : (id, g) ∈ filter (fun e => g_ns e.2 = ns /\ g_removed e.2 = false /\ p_key (g_perm e.2) = key) (segments r))
    by (by apply list_elem_of_filter).
  destruct (filter _ _); [by apply not_elem_of_nil in Hin|done].
Qed.

Lemma shm_create_ok y w key size mode cursor id : shm_inv y -> 1 <= size <= MAX_SHM_SIZE ->
  (key <> IPC_PRIVATE -> shm_find_by_key (sh_reg y) (ns_of w) key = None) ->
  alloc_id (shm_next_id (sh_reg y)) = (cursor, Some id) ->
  shm_inv (mkShmSys (put_segment (mkShmRegistry cursor (segments (sh_reg y))) id (segment_new w key size mode)) (sh_live y)).
Proof.
  intros [W C I E K A] Hs Hk Ea. destruct (alloc_id_fresh _ _ _ C Ea) as (C' & Hi & Hni & Hm).
  assert (Hg : bt_get id (segments (sh_reg y)) = None).
  { destruct (bt_get id _) eqn:Eg; [|done]. by destruct Hni; eapply I. }
  split; simpl; [by apply bt_wf_insert|done| | | |].
  - intros id1 g1. rewrite bt_get_insert by done. destruct (Z.eqb_spec id1 id) as [->|]; eauto.
  - intros id1 g1. rewrite bt_get_insert by done. destruct (Z.eqb_spec id1 id); [|apply E].
    intros [= <-]. split; simpl; [lia|by left|done].
  - intros id1 id2 g1 g2. rewrite !bt_get_insert by done.
    destruct (Z.eqb_spec id1 id) as [->|], (Z.eqb_spec id2 id) as [->|]; try done; intros; simplify_eq; simpl in *.
    + edestruct (shm_find_None _ _ _ (Hk ltac:(done))); done.
    + edestruct (shm_find_None _ _ _ (Hk ltac:(congruence))); done.
    + by apply (K id1 id2 g1 g2).
  - intros id1. rewrite bt_get_insert by done. destruct (Z.eqb_spec id1 id) as [->|]; [|apply A].
    simpl. specialize (A id). rewrite Hg in A. by rewrite A.
Qed.

Lemma shm_get_ok y w key size shmflg : shm_inv y -> 0 <= size ->
  shm_inv (mkShmSys (fst (sys_shmget (sh_reg y) w key size shmflg)) (sh_live y)).
Proof.
  intros Hy Hs. unfold sys_shmget. cbv zeta. set (create := if (size =? 0) || _ then _ else _).
  assert (Hc : (key <> IPC_PRIVATE -> shm_find_by_key (sh_reg y) (ns_of w) key = None) ->
    shm_inv (mkShmSys (fst create) (sh_live y))).
  { intros Hk. unfold create. destruct (Z.eqb_spec size 0); simpl; [by apply shm_inv_same|].
    destruct (Z.ltb_spec MAX_SHM_SIZE size); [by apply shm_inv_same|]. destruct (_ <=? _); [by apply shm_inv_same|].
    destruct (alloc_id _) as [cursor [id|]] eqn:Ea; [apply shm_create_ok; done || lia|].
    destruct Hy as [W C I E K A]. unfold alloc_id in Ea.
    destruct (shm_next_id (sh_reg y)) eqn:En; [by destruct (_ <? _)|]. injection Ea as <-. by split; simpl. }
  destruct (Z.eqb_spec key IPC_PRIVATE); [by apply Hc|]. destruct (shm_find_by_key _ _ _) as [[id g]|].
  - repeat case_match; by apply shm_inv_same.
  - destruct (Z.land shmflg IPC_CREAT =? 0); [by apply shm_inv_same|by apply Hc].
Qed.

(** A change that keeps the attachments, the size and the removal mark. *)
Lemma shm_touch y id g g' : shm_inv y -> bt_get id (segments (sh_reg y)) = Some g -> g_ns g' = g_ns g ->
  p_key (g_perm g') = p_key (g_perm g) -> g_removed g' = g_removed g -> g_size g' = g_size g ->
  g_attachments g' = g_attachments g ->
  (g_frames g' = g_frames g \/ Z.of_nat (length (g_frames g')) = pages_of (g_size g)) ->
  shm_inv (mkShmSys (put_segment (sh_reg y) id g') (sh_live y)).
Proof.
  intros Hy Hg Hns Hk Hr Hs Ha Hf. pose proof (sh_attached _ Hy id) as Hat. rewrite Hg in Hat.
  destruct (sh_each _ Hy _ _ Hg) as [E1 E2 E3]. eapply shm_put; try done; [congruence| |by rewrite Ha].
  split; [by rewrite Hs| |by rewrite Hr, Ha]. rewrite Hs. destruct Hf as [-> | ?]; [done|by right].
Qed.

Lemma shm_lookup_ok y frames w alloc shmid shmflg : shm_inv y ->
  shm_inv (mkShmSys (fst (shmat_lookup (fun n => if bool_decide (length <$> frames = Some (Z.to_nat n)) then frames else None)
    (sh_reg y) w alloc shmid shmflg)) (sh_live y)).
Proof.
  intros Hy. unfold shmat_lookup. destruct (bt_get shmid _) as [g|] eqn:Hg; [|by apply shm_inv_same].
  destruct (g_ns g =? ns_of w); simpl; [|by apply shm_inv_same].
  destruct (has_permission _ _ _); simpl; [|by apply shm_inv_same].
  destruct (g_frames g) eqn:Ef; [|destruct alloc; [destruct (g_removed g)|]; by apply shm_inv_same].
  case_bool_decide as Hb; [|by apply shm_inv_same]. destruct frames as [f|]; [|done]. injection Hb as Hb.
  assert (shm_inv (mkShmSys (put_segment (sh_reg y) shmid (with_frames g f)) (sh_live y))) as Hput.
  { eapply shm_touch; try done. right. simpl. rewrite Hb. destruct (sh_each _ Hy _ _ Hg) as [E1 _ _].
    unfold pages_of, PAGE_SIZE in *. rewrite Z2Nat.id; [done|]. apply Z.div_pos; lia. }
  destruct alloc; simpl; [|done]. by destruct (g_removed g).
Qed.

Lemma shm_commit_ok y w alloc shmid mapped : shm_inv y -> shm_inv (run_shm_event y (ShCommit w alloc shmid mapped)).
Proof.
  intros Hy. simpl. unfold shmat_commit. destruct (bt_get shmid _) as [g|] eqn:Hg; [|by apply shm_inv_same].
  destruct (_ || g_removed g) eqn:Er; [by apply shm_inv_same|]. destruct alloc; [|by apply shm_inv_same]. simpl.
  pose proof (sh_attached _ Hy shmid) as Hat. rewrite Hg in Hat. destruct (sh_each _ Hy _ _ Hg) as [E1 E2 E3].
  eapply shm_put; try done; simpl.
  - split; simpl; [done|done|]. intros _ H. by apply app_nil in H as [_ H].
  - rewrite live_of_app, live_of_one, Z.eqb_refl. by rewrite Hat.
  - intros id' Hne. rewrite live_of_app, live_of_one. destruct (Z.eqb_spec id' shmid); [done|]. by rewrite app_nil_r.
Qed.

Lemma find_attachment_spec p addr l id g pos : find_attachment p addr l = Some (id, g, pos) ->
  (id, g) ∈ l /\ g_attachments g !! pos = Some (mkAttachment p addr).
Proof.
  induction l as [|[i x] l IH]; [done|]. simpl. destruct (list_find _ _) as [[k a]|] eqn:E.
  - intros [= <- <- <-]. apply list_find_Some in E as (E1 & [E2 E3] & _). split; [by left|]. destruct a. simpl in *. congruence.
  - intros H. destruct (IH H). split; [by right|done].
Qed.

Lemma shm_detach_ok y w shmaddr : shm_inv y -> shm_inv (run_shm_event y (ShDetach w shmaddr)).
Proof.
  intros Hy. simpl. unfold sys_shmdt, end_one.
  destruct (find_attachment _ _ _) as [[[id g] pos]|] eqn:Ef; [|by apply shm_inv_same]. simpl.
  apply find_attachment_spec in Ef as [Hg Hpos]. apply (bt_elem_get _ _ _ (sh_wf _ Hy)) in Hg.
  pose proof (sh_attached _ Hy id) as Hat. rewrite Hg in Hat. set (a := mkAttachment (pid w) shmaddr) in *.
  assert (Hin : (id, a) ∈ sh_live y).
  { assert (H : a ∈ live_of id (sh_live y)) by (rewrite <- Hat; by eapply list_elem_of_lookup_2).
    unfold live_of in H. apply list_elem_of_fmap in H as ([i x] & E & Hi).
    apply list_elem_of_filter in Hi as [E' Hi]. simpl in *. congruence. }
  destruct (list_find _ (sh_live y)) as [[k e]|] eqn:Ek.
  2: { apply list_find_None in Ek. rewrite Forall_forall in Ek. by destruct (Ek _ Hin). }
  apply list_find_Some in Ek as (Ek & -> & _). eapply shm_put_removable; try done; simpl.
  - apply (Permutation_cons_inv (a := a)). rewrite <- (swap_remove_perm _ _ _ Hpos), Hat.
    rewrite (live_of_delete id _ _ _ _ Ek), Z.eqb_refl. done.
  - intros id' Hne. rewrite (live_of_delete id' _ _ _ _ Ek). by destruct (Z.eqb_spec id' id).
Qed.

Lemma shm_owned_get r w shmid g : shm_owned r w shmid = Ok g -> bt_get shmid (segments r) = Some g.
Proof. unfold shm_owned. destruct (bt_get shmid _); [|done]. repeat case_match; congruence. Qed.

Lemma shm_control_ok y w shmid : shm_inv y ->
  shm_inv (mkShmSys (fst (shmctl_rmid (sh_reg y) w shmid)) (sh_live y)) /\
  (forall locked, shm_inv (mkShmSys (fst (shmctl_lock (sh_reg y) w shmid locked)) (sh_live y))) /\
  (forall user, shm_inv (mkShmSys (fst (shmctl_set (sh_reg y) w user shmid)) (sh_live y))).
Proof.
  intros Hy. unfold shmctl_rmid, shmctl_lock, shmctl_set.
  destruct (shm_owned (sh_reg y) w shmid) as [g|e] eqn:Eo; simpl.
  - apply shm_owned_get in Eo as Hg. pose proof (sh_attached _ Hy shmid) as Hat. rewrite Hg in Hat. split_and!.
    + by eapply shm_put_removable.
    + intros locked. eapply shm_touch; try done. by left.
    + intros [[[uid gid] mode]|e]; [|by apply shm_inv_same]. eapply shm_touch; try done. by left.
  - split_and!; [by apply shm_inv_same|by intros; apply shm_inv_same|].
    intros [[[uid gid] mode]|e']; by apply shm_inv_same.
Qed.

Lemma filter_full {A} (P : A -> Prop) `{!forall x, Decision (P x)} (l : list A) :
  length (filter P l) = length l -> filter P l = l.
Proof.
  induction l as [|x l IH]; [done|]. rewrite filter_cons. case_decide; simpl.
  - intros [= Hl]. by rewrite IH.
  - pose proof (length_filter P l). lia.
Qed.

Lemma drop_process_spec p t g : g_attachments (drop_process p t g) = filter (fun a => at_pid a <> p) (g_attachments g) /\
  g_ns (drop_process p t g) = g_ns g /\ g_perm (drop_process p t g) = g_perm g /\
  g_removed (drop_process p t g) = g_removed g /\ g_size (drop_process p t g) = g_size g /\
  g_frames (drop_process p t g) = g_frames g.
Proof.
  unfold drop_process. destruct (Nat.eqb_spec (length (filter (fun a => at_pid a <> p) (g_attachments g)))
    (length (g_attachments g))) as [E|E]; [|done]. by rewrite (filter_full _ _ E).
Qed.

Lemma shm_exit_ok y p t : shm_inv y -> shm_inv (run_shm_event y (ShExit p t)).
Proof.
  intros [W C I E K A]. simpl. set (l := (fun e => (e.1, drop_process p t e.2)) <$> segments (sh_reg y)).
  assert (Hwf : bt_wf l) by (by apply bt_wf_fmap). set (keep := fun (_ : Z) g => negb (unneeded true g)).
  assert (Hget : forall id g, bt_get id (bt_retain keep l) = Some g ->
    exists g0, bt_get id (segments (sh_reg y)) = Some g0 /\ g = drop_process p t g0 /\ keep id g = true).
  { intros id g. rewrite bt_get_retain by done. unfold l. rewrite bt_get_fmap.
    destruct (bt_get id (segments (sh_reg y))) as [g0|]; [|done]. simpl.
    destruct (keep id (drop_process p t g0)) eqn:Ek; [|done]. intros [= <-]. by exists g0. }
  split; simpl; [by apply bt_wf_retain|done| | | |].
  - intros id g (g0 & H & _)%Hget. eauto.
  - intros id g (g0 & H & -> & Hk)%Hget. destruct (E id g0 H) as [E1 E2 E3].
    destruct (drop_process_spec p t g0) as (D1 & D2 & D3 & D4 & D5 & D6). split; [by rewrite D5|by rewrite D5, D6|].
    intros Hr Hn. unfold keep, unneeded in Hk. by rewrite Hr, Hn in Hk.
  - intros id1 id2 g1 g2 (a1 & H1 & -> & _)%Hget (a2 & H2 & -> & _)%Hget.
    destruct (drop_process_spec p t a1) as (_ & -> & -> & -> & _), (drop_process_spec p t a2) as (_ & -> & -> & -> & _).
    by apply (K id1 id2 a1 a2).
  - intros id. specialize (A id). rewrite bt_get_retain by done. unfold l. rewrite bt_get_fmap.
    assert (Hlf : live_of id (filter (fun e => at_pid e.2 <> p) (sh_live y)) =
      filter (fun a => at_pid a <> p) (live_of id (sh_live y))) by exact (live_of_filter id (fun a => at_pid a <> p) (sh_live y)).
    rewrite Hlf. destruct (bt_get id (segments (sh_reg y))) as [g|]; simpl; [|by rewrite A].
    destruct (drop_process_spec p t g) as (D1 & _).
    assert (Hf : g_attachments (drop_process p t g) ≡ₚ filter (fun a => at_pid a <> p) (live_of id (sh_live y))) by (by rewrite D1, A).
    unfold keep, unneeded. destruct (g_removed _); simpl; [|done].
    destruct (g_attachments (drop_process p t g)) eqn:En; simpl; [by apply Permutation_nil_l in Hf|by rewrite En].
Qed.

Lemma shm_fork_ok y parent child alloc : shm_inv y -> shm_inv (run_shm_event y (ShFork parent child alloc)).
Proof.
  intros Hy. simpl. unfold shm_clone_attachments.
  assert (Hlf : forall id, live_of id ((fun e => (e.1, mkAttachment child (at_addr e.2)))
      <$> filter (fun e => at_pid e.2 = parent) (sh_live y)) =
    (fun a => mkAttachment child (at_addr a)) <$> filter (fun a => at_pid a = parent) (live_of id (sh_live y))).
  { intros id. rewrite live_of_inherit. f_equal. exact (live_of_filter id (fun a => at_pid a = parent) (sh_live y)). }
  destruct (forallb _ (segments (sh_reg y))) eqn:En; [|destruct alloc; [simpl|by apply shm_inv_same]].
  - replace (fmap _ _) with (@nil (Z * ShmAttachment)); [rewrite app_nil_r; by apply shm_inv_same|]. symmetry.
    rewrite filter_none; [done|]. intros [id a] Hin Ha. simpl in Ha. pose proof (sh_attached _ Hy id) as A.
    assert (Hl : a ∈ live_of id (sh_live y)).
    { unfold live_of. apply (list_elem_of_fmap_2 snd _ (id, a)). by apply list_elem_of_filter. }
    destruct (bt_get id _) as [g|] eqn:Hg; [|rewrite A in Hl; by apply not_elem_of_nil in Hl]. rewrite <- A in Hl.
    rewrite forallb_forall in En. specialize (En (id, g)). rewrite <- list_elem_of_In in En.
    specialize (En (bt_get_elem _ _ _ Hg)). rewrite forallb_forall in En. specialize (En a). rewrite <- list_elem_of_In in En.
    specialize (En Hl). simpl in En. rewrite Ha, Z.eqb_refl in En. done.
  - destruct Hy as [W C I E K A].
    assert (Hget : forall id g, bt_get id ((fun e => (e.1, inherit parent child e.2)) <$> segments (sh_reg y)) = Some g ->
      exists g0, bt_get id (segments (sh_reg y)) = Some g0 /\ g = inherit parent child g0).
    { intros id g. rewrite bt_get_fmap. destruct (bt_get id _) as [g0|]; [|done]. intros [= <-]. by exists g0. }
    split; simpl; [by apply bt_wf_fmap|done| | | |].
    + intros id g (g0 & H & _)%Hget. eauto.
    + intros id g (g0 & H & ->)%Hget. destruct (E id g0 H) as [E1 E2 E3]. split; simpl; [done|done|].
      intros Hr [Hn _]%app_nil. by apply E3.
    + intros id1 id2 g1 g2 (a1 & H1 & ->)%Hget (a2 & H2 & ->)%Hget. by apply (K id1 id2 a1 a2).
    + intros id. rewrite bt_get_fmap, live_of_app, Hlf. specialize (A id).
      destruct (bt_get id _) as [g|]; simpl; [|by rewrite A]. by rewrite A.
Qed.

Lemma shm_events_ok evs : forall y, shm_inv y -> Forall shm_event_ok evs -> shm_inv (run_shm_events y evs).
Proof.
  induction evs as [|ev evs IH]; intros y Hy Hev; [done|]. apply Forall_cons in Hev as [Hev Hevs].
  cbn [run_shm_events]. apply IH; [|done].
  destruct ev as [w k sz fl|fr w al id fl|w al id m|w a|w id|w id lk|w user id|p t|pa ch al].
  - by apply shm_get_ok.
  - by apply shm_lookup_ok.
  - by apply shm_commit_ok.
  - by apply shm_detach_ok.
  - by apply shm_control_ok.
  - by apply shm_control_ok.
  - by apply shm_control_ok.
  - by apply shm_exit_ok.
  - by apply shm_fork_ok.
Qed.

Lemma shm_init_inv : shm_inv shm_sys_init.
Proof. split; simpl; try done; apply bt_wf_nil. Qed.


(** A segment is attached, inherited by a child and marked; the parent detaches. *)
Definition demo_shm_events : list shm_event :=
  let w := mkCaller 0 0 7 0 100 in
  [ShGet w 5 5000 (IPC_CREAT + 438); ShLookup (Some [40; 41]) w true 1 0; ShCommit w true 1 65536;
   ShFork 7 8 true; ShRemove w 1; ShDetach w 65536].


(** [shmat] with [SHM_REMAP] over an attached segment leaves the old
    attachment on record, and [shmdt] of that address ends it, for the segment with
    the lower identifier, instead of the one that is mapped: segment 2, of two
    pages, is mapped at the address, but one page is unmapped and segment 2 stays
    attached. *)
Theorem shm_remap_detaches_wrong_segment :
  let w := mkCaller 0 0 7 0 100 in
  let y := run_shm_events shm_sys_init
    [ShGet w 0 4096 438; ShGet w 0 8192 438; ShLookup (Some [40]) w true 1 0; ShCommit w true 1 65536;
     ShLookup (Some [41; 42]) w true 2 SHM_REMAP; ShCommit w true 2 65536] in
  snd (sys_shmdt (sh_reg y) w 65536) = Ok 4096 /\
  live_of 2 (sh_live (run_shm_event y (ShDetach w 65536))) = [mkAttachment 7 65536].
Proof. vm_compute. auto. Qed.
