(* ===== verification/IdAlloc.v ===== *)
(** The allocator of thread and process identifiers ([os/src/task/pid.rs],
    [RecycleAllocator]; [libs/mango-kernel-core/src/recycle_alloc.rs] is the same
    code without the kernel around it).

    [recycled] is the stack of released identifiers, its top first.  An identifier
    reused through the hint stays on the stack; only the flag says that it is
    free. *)

From stdpp Require Import base numbers option list gmap sets.
From S2P Require Import Prelude.

Definition DEFAULT_PID_MAX : Z := 32768.
Definition RESERVED_PID_REUSE_FLOOR : Z := 300.
Definition FRESH_REUSE_WATERMARK : Z := DEFAULT_PID_MAX - 1024.

Record RecycleAllocator := mkAllocator {
  current : Z;
  recycled : list Z;
  recycled_flags : list bool;
  fresh_reuse_hint : option Z;
}.

Definition allocator_new : RecycleAllocator := mkAllocator 1 [] [] None.

Definition ensure_flag_capacity (flags : list bool) (id : Z) : list bool :=
  if Z.of_nat (length flags) <=? id then resize (Z.to_nat (usize_add id 1)) false flags else flags.

Definition is_recycled (flags : list bool) (id : Z) : bool := default false (flags !! Z.to_nat id).

Definition mark_recycled (flags : list bool) (id : Z) (v : bool) : list bool :=
  <[Z.to_nat id := v]> (ensure_flag_capacity flags id).

(** [alloc_recycled]: pop until a free identifier turns up. *)
Fixpoint alloc_recycled (flags : list bool) (stack : list Z) : list Z * option Z :=
  match stack with
  | [] => ([], None)
  | id :: stack => if is_recycled flags id then (stack, Some id) else alloc_recycled flags stack
  end.

Definition next_linear (a : RecycleAllocator) (stack : list Z) (hint : option Z) : RecycleAllocator * Z :=
  let id := current a in
  (mkAllocator (usize_add (current a) 1) stack (ensure_flag_capacity (recycled_flags a) id) hint, id).

Definition alloc (a : RecycleAllocator) : RecycleAllocator * Z :=
  match alloc_recycled (recycled_flags a) (recycled a) with
  | (stack, Some id) =>
      (mkAllocator (current a) stack (mark_recycled (recycled_flags a) id false) (fresh_reuse_hint a), id)
  | (stack, None) => next_linear a stack (fresh_reuse_hint a)
  end.

(** [alloc_recycled_for_fresh]: low identifiers are put back in their order. *)
Fixpoint alloc_recycled_for_fresh (flags : list bool) (stack : list Z) : list Z * option Z :=
  match stack with
  | [] => ([], None)
  | id :: stack =>
      if negb (is_recycled flags id) then alloc_recycled_for_fresh flags stack
      else if RESERVED_PID_REUSE_FLOOR <=? id then (stack, Some id)
      else let '(stack, r) := alloc_recycled_for_fresh flags stack in (id :: stack, r)
  end.

Definition alloc_fresh (a : RecycleAllocator) : RecycleAllocator * Z :=
  let linear a :=
    if FRESH_REUSE_WATERMARK <=? current a then
      match alloc_recycled_for_fresh (recycled_flags a) (recycled a) with
      | (stack, Some id) => (mkAllocator (current a) stack (mark_recycled (recycled_flags a) id false) None, id)
      | (stack, None) => next_linear a stack None
      end
    else next_linear a (recycled a) None in
  match fresh_reuse_hint a with
  | Some id =>
      if (id <? current a) && is_recycled (recycled_flags a) id
      then (mkAllocator (current a) (recycled a) (mark_recycled (recycled_flags a) id false) None, id)
      else linear a
  | None => linear a
  end.

Definition last_allocated (a : RecycleAllocator) : Z := saturating_sub (current a) 1.

Definition set_next_alloc_hint (a : RecycleAllocator) (next : Z) : RecycleAllocator :=
  let next := Z.max next 1 in
  if current a <=? next then mkAllocator next (recycled a) (ensure_flag_capacity (recycled_flags a) next) None
  else if is_recycled (recycled_flags a) next
  then mkAllocator (current a) (recycled a) (recycled_flags a) (Some next)
  else a.

(** [None] is a failed assertion. *)
Definition dealloc (a : RecycleAllocator) (id : Z) : option RecycleAllocator :=
  if (id <? current a) && negb (is_recycled (recycled_flags a) id)
  then Some (mkAllocator (current a) (id :: recycled a) (mark_recycled (recycled_flags a) id true) (fresh_reuse_hint a))
  else None.

Definition release_fresh_id (a : RecycleAllocator) (id : Z) : option RecycleAllocator :=
  if id <? current a then
    if is_recycled (recycled_flags a) id then Some a
    else Some (mkAllocator (current a) (id :: recycled a) (mark_recycled (recycled_flags a) id true) (fresh_reuse_hint a))
  else None.

Definition get_allocated (a : RecycleAllocator) : Z :=
  saturating_sub (saturating_sub (current a) 1) (Z.of_nat (length (filter (fun f => f = true) (recycled_flags a)))).

(** ** Histories *)

Inductive id_event :=
| IAlloc
| IFresh
| IHint (last_pid : Z)
| IFree (id : Z)
| IRelease (id : Z).

(** [None] if an identifier in use is given out or an assertion fails; only
    identifiers in use are given back. *)
Definition run_id_event (a : RecycleAllocator) (live : gset Z) (ev : id_event) : option (RecycleAllocator * gset Z) :=
  let take x := if bool_decide (x.2 ∈ live) then None else Some (x.1, {[x.2]} ∪ live) in
  match ev with
  | IAlloc => take (alloc a)
  | IFresh => take (alloc_fresh a)
  | IHint last_pid => Some (set_next_alloc_hint a (saturating_add last_pid 1), live)
  | IFree id => if bool_decide (id ∈ live) then (fun a => (a, live ∖ {[id]})) <$> dealloc a id else Some (a, live)
  | IRelease id => if bool_decide (id ∈ live) then (fun a => (a, live ∖ {[id]})) <$> release_fresh_id a id else Some (a, live)
  end.

Fixpoint run_id_events (a : RecycleAllocator) (live : gset Z) (evs : list id_event) : option (RecycleAllocator * gset Z) :=
  match evs with
  | [] => Some (a, live)
  | ev :: evs => '(a, live) ← run_id_event a live ev; run_id_events a live evs
  end.

(** ** The invariant *)

Record ids_ok (bound : Z) (a : RecycleAllocator) (live : gset Z) : Prop := {
  io_current : 1 <= current a <= bound;
  io_free id : 0 <= id -> is_recycled (recycled_flags a) id = true -> 1 <= id < current a /\ id ∉ live;
  io_stack id : id ∈ recycled a -> 1 <= id < current a;
  io_hint id : fresh_reuse_hint a = Some id -> 0 <= id;
  io_live id : id ∈ live -> 1 <= id < current a;
}.

Lemma ensure_lookup flags id i : 0 <= id < usize_max ->
  is_recycled (ensure_flag_capacity flags id) i = is_recycled flags i.
Proof.
  intros Hid. unfold is_recycled, ensure_flag_capacity. destruct (Z.leb_spec (Z.of_nat (length flags)) id); [|done].
  rewrite usize_add_small by word_lia. destruct (decide (Z.to_nat i < length flags)%nat) as [Hi|Hi].
  - by rewrite lookup_resize by lia.
  - rewrite (lookup_ge_None_2 flags) by lia. destruct (decide (Z.to_nat i < Z.to_nat (id + 1))%nat).
    + by rewrite lookup_resize_new by lia.
    + by rewrite lookup_resize_old by lia.
Qed.

Lemma mark_lookup flags id v i : 0 <= id < usize_max -> 0 <= i ->
  is_recycled (mark_recycled flags id v) i = if i =? id then v else is_recycled flags i.
Proof.
  intros Hid Hi. unfold mark_recycled. destruct (Z.eqb_spec i id) as [->|Hne].
  - unfold is_recycled. rewrite list_lookup_insert_eq; [done|]. unfold ensure_flag_capacity.
    destruct (Z.leb_spec (Z.of_nat (length flags)) id); [|lia].
    rewrite length_resize, usize_add_small by word_lia. lia.
  - rewrite <- (ensure_lookup flags id i) by done. unfold is_recycled. by rewrite list_lookup_insert_ne by lia.
Qed.

Lemma alloc_recycled_spec flags stack stack' r : alloc_recycled flags stack = (stack', r) ->
  (forall i, i ∈ stack' -> i ∈ stack) /\ forall id, r = Some id -> id ∈ stack /\ is_recycled flags id = true.
Proof.
  induction stack as [|x stack IH]; simpl; [by intros [= <- <-]|]. destruct (is_recycled flags x) eqn:E.
  - intros [= <- <-]. split; [by right|]. intros id [= <-]. split; [by left|done].
  - intros H. destruct (IH H) as [H1 H2]. split; [right; auto|]. intros id Hr. destruct (H2 id Hr). split; [by right|done].
Qed.

Lemma alloc_for_fresh_spec flags stack : forall stack' r, alloc_recycled_for_fresh flags stack = (stack', r) ->
  (forall i, i ∈ stack' -> i ∈ stack) /\ forall id, r = Some id -> id ∈ stack /\ is_recycled flags id = true.
Proof.
  induction stack as [|x stack IH]; simpl; intros stack' r; [by intros [= <- <-]|].
  destruct (is_recycled flags x) eqn:E; simpl.
  - destruct (RESERVED_PID_REUSE_FLOOR <=? x).
    + intros [= <- <-]. split; [by right|]. intros id [= <-]. split; [by left|done].
    + destruct (alloc_recycled_for_fresh flags stack) as [s r0]. intros [= <- <-].
      destruct (IH _ _ eq_refl) as [H1 H2]. split.
      * intros i [->|Hi]%elem_of_cons; [by left|right; auto].
      * intros id Hr. destruct (H2 id Hr). split; [by right|done].
  - intros H. destruct (IH _ _ H) as [H1 H2]. split; [right; auto|]. intros id Hr. destruct (H2 id Hr). split; [by right|done].
Qed.

(** An identifier marked free is given out. *)
Lemma take_free bound a live stack id hint : ids_ok bound a live -> bound < usize_max -> (forall i, i ∈ stack -> i ∈ recycled a) -> 0 <= id ->
  is_recycled (recycled_flags a) id = true -> (forall i, hint = Some i -> 0 <= i) ->
  (id ∉ live) /\ ids_ok bound (mkAllocator (current a) stack (mark_recycled (recycled_flags a) id false) hint) ({[id]} ∪ live).
Proof.
  intros [C F S H L] Hb Hs Hid Hf Hh. destruct (F id Hid Hf) as [F1 F2]. split; [done|]. split; simpl; [done| | |done|].
  - intros i Hi. rewrite mark_lookup by lia. destruct (Z.eqb_spec i id); [done|]. intros Hr.
    destruct (F i Hi Hr). split; [done|]. set_solver.
  - intros i Hi. by apply S, Hs.
  - intros i [->%elem_of_singleton|Hi]%elem_of_union; [done|by apply L].
Qed.

Lemma take_linear bound a live stack hint : ids_ok bound a live -> (forall i, i ∈ stack -> i ∈ recycled a) ->
  (forall i, hint = Some i -> 0 <= i) -> bound < usize_max ->
  ((next_linear a stack hint).2 ∉ live) /\
  ids_ok (bound + 1) (next_linear a stack hint).1 ({[(next_linear a stack hint).2]} ∪ live).
Proof.
  intros [C F S H L] Hs Hh Hb. simpl.
  assert (Hw : usize_add (current a) 1 = current a + 1) by (unfold usize_max in Hb; apply usize_add_small; word_lia).
  split; [intros Hl; specialize (L _ Hl); lia|]. split; simpl; rewrite ?Hw; [lia| | |done|].
  - intros i Hi. rewrite ensure_lookup by lia. intros Hr. destruct (F i Hi Hr). split; [lia|]. set_solver by lia.
  - intros i Hi. specialize (S i (Hs i Hi)). lia.
  - intros i [->%elem_of_singleton|Hi]%elem_of_union; [lia|]. specialize (L i Hi). lia.
Qed.

Lemma ids_weaken bound a live : ids_ok bound a live -> ids_ok (bound + 1) a live.
Proof. intros [C F S H L]. by split; try done; lia. Qed.

Lemma alloc_ok bound a live : ids_ok bound a live -> bound < usize_max ->
  ((alloc a).2 ∉ live) /\ ids_ok (bound + 1) (alloc a).1 ({[(alloc a).2]} ∪ live).
Proof.
  intros Ha Hb. unfold alloc. destruct (alloc_recycled _ _) as [stack [id|]] eqn:E;
    apply alloc_recycled_spec in E as [E1 E2].
  - destruct (E2 id eq_refl) as [E3 E4]. pose proof (io_stack _ _ _ Ha id E3).
    destruct (take_free bound a live stack id (fresh_reuse_hint a)) as [H1 H2]; [done|done|done|lia|done|apply Ha|].
    split; [done|by apply ids_weaken].
  - apply take_linear; [done|done|apply Ha|done].
Qed.

Lemma alloc_fresh_ok bound a live : ids_ok bound a live -> bound < usize_max ->
  ((alloc_fresh a).2 ∉ live) /\ ids_ok (bound + 1) (alloc_fresh a).1 ({[(alloc_fresh a).2]} ∪ live).
Proof.
  intros Ha Hb. unfold alloc_fresh. cbv zeta. set (linear := if FRESH_REUSE_WATERMARK <=? current a then _ else _).
  assert (Hl : (linear.2 ∉ live) /\ ids_ok (bound + 1) linear.1 ({[linear.2]} ∪ live)).
  { unfold linear. destruct (_ <=? _); [|by apply take_linear].
    destruct (alloc_recycled_for_fresh _ _) as [stack [id|]] eqn:E; apply alloc_for_fresh_spec in E as [E1 E2].
    - destruct (E2 id eq_refl) as [E3 E4]. pose proof (io_stack _ _ _ Ha id E3).
      destruct (take_free bound a live stack id None) as [H1 H2]; [done|done|done|lia|done|done|].
      split; [done|by apply ids_weaken].
    - by apply take_linear. }
  destruct (fresh_reuse_hint a) as [id|] eqn:Eh; [|done]. destruct (_ && _) eqn:Ec; [|done].
  apply andb_true_iff in Ec as [_ Ec]. pose proof (io_hint _ _ _ Ha id Eh).
  destruct (take_free bound a live (recycled a) id None) as [H1 H2]; [done|done|done|done|done|done|].
  split; [done|by apply ids_weaken].
Qed.

Lemma hint_ok bound a live n : ids_ok bound a live -> n <= bound < usize_max -> ids_ok bound (set_next_alloc_hint a n) live.
Proof.
  intros [C F S H L] Hn. unfold set_next_alloc_hint. destruct (Z.leb_spec (current a) (Z.max n 1)).
  - split; simpl; [lia| | |done|].
    + intros i Hi. rewrite ensure_lookup by lia. intros Hr. destruct (F i Hi Hr). split; [lia|done].
    + intros i Hi. specialize (S i Hi). lia.
    + intros i Hi. specialize (L i Hi). lia.
  - destruct (is_recycled _ _); [|by split]. split; simpl; try done. intros i [= <-]. lia.
Qed.

Lemma give_back bound a live id : ids_ok bound a live -> bound < usize_max -> id ∈ live -> is_recycled (recycled_flags a) id = false /\
  id < current a /\ ids_ok bound (mkAllocator (current a) (id :: recycled a) (mark_recycled (recycled_flags a) id true)
    (fresh_reuse_hint a)) (live ∖ {[id]}).
Proof.
  intros [C F S H L] Hb Hl. pose proof (L id Hl) as Hid. split_and!; [|lia|].
  - destruct (is_recycled _ id) eqn:E; [|done]. by destruct (F id ltac:(lia) E).
  - split; simpl; [done| | |done|].
    + intros i Hi. rewrite mark_lookup by lia. destruct (Z.eqb_spec i id) as [->|]; [set_solver|].
      intros Hr. destruct (F i Hi Hr). set_solver.
    + intros i [->|Hi]%elem_of_cons; [done|by apply S].
    + intros i [Hi _]%elem_of_difference. by apply L.
Qed.

(** Hints stay below [limit]. *)
Definition id_event_ok (limit : Z) (ev : id_event) : Prop :=
  match ev with IHint last_pid => 0 <= last_pid < limit | _ => True end.

Lemma id_event_step limit bound a live ev : ids_ok bound a live -> limit <= bound < usize_max -> id_event_ok limit ev ->
  exists a' live', run_id_event a live ev = Some (a', live') /\ ids_ok (bound + 1) a' live'.
Proof.
  intros Ha Hb Hev. destruct ev as [| |n|id|id]; simpl.
  - destruct (alloc_ok _ _ _ Ha ltac:(lia)) as [H1 H2]. rewrite bool_decide_false by done. eauto.
  - destruct (alloc_fresh_ok _ _ _ Ha ltac:(lia)) as [H1 H2]. rewrite bool_decide_false by done. eauto.
  - eexists _, _. split; [done|]. apply ids_weaken, hint_ok; [done|]. simpl in Hev. unfold saturating_add. lia.
  - case_bool_decide as Hl; [|eauto using ids_weaken]. destruct (give_back _ _ _ _ Ha ltac:(lia) Hl) as (G1 & G2 & G3).
    unfold dealloc. rewrite G1. destruct (Z.ltb_spec id (current a)); [|lia]. simpl. eauto using ids_weaken.
  - case_bool_decide as Hl; [|eauto using ids_weaken]. destruct (give_back _ _ _ _ Ha ltac:(lia) Hl) as (G1 & G2 & G3).
    unfold release_fresh_id. rewrite G1. destruct (Z.ltb_spec id (current a)); [|lia]. simpl. eauto using ids_weaken.
Qed.

Lemma id_events_ok limit evs : forall bound a live, ids_ok bound a live -> limit <= bound ->
  bound + Z.of_nat (length evs) <= usize_max -> Forall (id_event_ok limit) evs ->
  exists a' live', run_id_events a live evs = Some (a', live').
Proof.
  induction evs as [|ev evs IH]; intros bound a live Ha Hlim Hb Hev; [by eauto|].
  apply Forall_cons in Hev as [Hev Hevs]. simpl in Hb.
  destruct (id_event_step limit bound a live ev Ha ltac:(lia) Hev) as (a1 & l1 & E & H1). cbn [run_id_events]. rewrite E.
  simpl. apply (IH (bound + 1)); [done|lia|lia|done].
Qed.



(** With the largest hint the allocator gives out identifiers in use: the
    capacity of the marks wraps to 0, and the counter wraps on the next allocation. *)
Theorem hint_wraps_to_used_id :
  run_id_events allocator_new ∅ [IFresh; IHint usize_max; IFresh; IFresh] <> None /\
  run_id_events allocator_new ∅ [IFresh; IHint usize_max; IFresh; IFresh; IFresh] = None.
Proof. split; [by vm_compute|]. vm_compute. reflexivity. Qed.

(** The count of identifiers in use includes those a hint has skipped. *)
Lemma hint_counts_skipped : get_allocated (set_next_alloc_hint allocator_new 10) = 9.
Proof. reflexivity. Qed.
