(* ===== verification/Sched.v ===== *)
(** Ownership of tasks in the scheduler ([os/src/task/run_queue.rs], the registry of
    sleepers in [os/src/task/manager.rs], the status word, the affinity and the
    exit of a task in [os/src/task/task.rs], the idle loop in
    [os/src/task/processor.rs]).

    Every event below is one critical section or one atomic exchange of the source;
    events of different processors interleave freely.  [TASK_MANAGER] is held
    across two events by a waker ([mgr]).  A failed [require_sched_transition],
    [assert] or [expect] is [None].  A task is named by its index, which also stands
    for its thread id.  The lock-free load figures that choose a processor are
    arguments ([load]); the mask of processors that run a scheduler is [runnable].
    Counts of tasks are not bounded by the word size. *)

From stdpp Require Import base numbers option list.
From S2P Require Import Prelude.

(** ** The status word *)

Inductive TaskStatus :=
| New
| Queued (cpu : nat)
| Running (cpu : nat)
| Blocking (cpu : nat)
| Blocked
| Migrating
| Zombie.

#[export] Instance TaskStatus_eq_dec : EqDecision TaskStatus.
Proof. solve_decision. Defined.

Definition TAG_BITS : Z := 3.
Definition TAG_MASK : Z := 7.

Definition tagged (cpu : nat) (tag : Z) : Z := Z.lor (Z.shiftl (Z.of_nat cpu) TAG_BITS mod usize_modulus) tag.

Definition encode (s : TaskStatus) : Z :=
  match s with
  | New => 0
  | Blocked => 1
  | Queued cpu => tagged cpu 2
  | Running cpu => tagged cpu 3
  | Blocking cpu => tagged cpu 4
  | Zombie => 5
  | Migrating => 6
  end.

Definition decode (raw : Z) : option TaskStatus :=
  let cpu := Z.to_nat (Z.shiftr raw TAG_BITS) in
  match Z.land raw TAG_MASK with
  | 0 => Some New
  | 1 => Some Blocked
  | 2 => Some (Queued cpu)
  | 3 => Some (Running cpu)
  | 4 => Some (Blocking cpu)
  | 5 => Some Zombie
  | 6 => Some Migrating
  | _ => None
  end.

(** ** State *)

Inductive RemoteAffinityState := Pending | Applied | Retry.

(** [rq_task] is the task in whose slot the request was put. *)
Record RemoteAffinityRequest := mkRequest {
  rq_task : nat;
  rq_mask : Z;
  rq_target : nat;
  rq_state : RemoteAffinityState;
}.

Record Task := mkTask {
  t_status : TaskStatus;
  t_allowed : Z;
  t_last : option nat;
  t_mig : option nat;
  t_slot : option nat;
  t_nice : Z;
  t_vruntime : Z;
}.

(** What a processor is doing with a task: [Stolen], claimed from another queue;
    [Claimed], about to be dispatched; [Current], executing; [Parking], executing
    but committed to call [schedule]; [Leaving], off its stack. *)
Inductive Phase :=
| Idle
| Stolen (t : nat)
| Claimed (t : nat)
| Current (t : nat)
| Parking (t : nat)
| Leaving (t : nat).

Record Cpu := mkCpu {
  c_tasks : list nat;
  c_nice_count : Z;
  c_running : Z;
  c_phase : Phase;
  c_zombies : list nat;
  c_nzombies : Z;
}.

(** The holder of [TASK_MANAGER]: a waker that has to take the task off the registry,
    or has chosen the queue of a blocked one. *)
Inductive Mgr :=
| Free
| Removing (t : nat)
| Enqueuing (t : nat) (cpu : nat).

(** A queued task on its way to another queue. *)
Record Move := mkMove {
  mv_task : nat;
  mv_mask : Z;
  mv_target : nat;
}.

Record Sys := mkSys {
  tasks : list Task;
  cpus : list Cpu;
  registry : list nat;
  registry_count : Z;
  mgr : Mgr;
  moves : list Move;
  requests : list RemoteAffinityRequest;
  nicing : list nat;
}.

Definition cpu_new : Cpu := mkCpu [] 0 0 Idle [] 0.
Definition sched_init (ncpu : nat) : Sys := mkSys [] (replicate ncpu cpu_new) [] 0 Free [] [] [].

(** ** Updates *)

Definition with_status (s : TaskStatus) (T : Task) : Task :=
  mkTask s (t_allowed T) (t_last T) (t_mig T) (t_slot T) (t_nice T) (t_vruntime T).
Definition with_allowed (m : Z) (T : Task) : Task :=
  mkTask (t_status T) m (t_last T) (t_mig T) (t_slot T) (t_nice T) (t_vruntime T).
Definition with_last (c : nat) (T : Task) : Task :=
  mkTask (t_status T) (t_allowed T) (Some c) (t_mig T) (t_slot T) (t_nice T) (t_vruntime T).
Definition with_mig (m : option nat) (T : Task) : Task :=
  mkTask (t_status T) (t_allowed T) (t_last T) m (t_slot T) (t_nice T) (t_vruntime T).
Definition with_slot (r : option nat) (T : Task) : Task :=
  mkTask (t_status T) (t_allowed T) (t_last T) (t_mig T) r (t_nice T) (t_vruntime T).
Definition with_nice (n : Z) (T : Task) : Task :=
  mkTask (t_status T) (t_allowed T) (t_last T) (t_mig T) (t_slot T) n (t_vruntime T).

Definition with_phase (p : Phase) (k : Cpu) : Cpu :=
  mkCpu (c_tasks k) (c_nice_count k) (c_running k) p (c_zombies k) (c_nzombies k).

Definition put (y : Sys) (t : nat) (T : Task) (c : nat) (k : Cpu) : Sys :=
  mkSys (<[t := T]> (tasks y)) (<[c := k]> (cpus y)) (registry y) (registry_count y) (mgr y) (moves y) (requests y)
    (nicing y).
Definition put_task (y : Sys) (t : nat) (T : Task) : Sys :=
  mkSys (<[t := T]> (tasks y)) (cpus y) (registry y) (registry_count y) (mgr y) (moves y) (requests y) (nicing y).
Definition put_cpu (y : Sys) (c : nat) (k : Cpu) : Sys :=
  mkSys (tasks y) (<[c := k]> (cpus y)) (registry y) (registry_count y) (mgr y) (moves y) (requests y) (nicing y).
Definition with_registry (y : Sys) (l : list nat) (n : Z) (m : Mgr) : Sys :=
  mkSys (tasks y) (cpus y) l n m (moves y) (requests y) (nicing y).
Definition with_mgr (y : Sys) (m : Mgr) : Sys := with_registry y (registry y) (registry_count y) m.
Definition with_moves (y : Sys) (l : list Move) : Sys :=
  mkSys (tasks y) (cpus y) (registry y) (registry_count y) (mgr y) l (requests y) (nicing y).
Definition with_requests (y : Sys) (l : list RemoteAffinityRequest) : Sys :=
  mkSys (tasks y) (cpus y) (registry y) (registry_count y) (mgr y) (moves y) l (nicing y).
Definition with_nicing (y : Sys) (l : list nat) : Sys :=
  mkSys (tasks y) (cpus y) (registry y) (registry_count y) (mgr y) (moves y) (requests y) l.

(** [try_sched_transition]; [require_sched_transition] turns a failure into a panic. *)
Definition transition (T : Task) (current next : TaskStatus) : option Task :=
  if decide (t_status T = current) then Some (with_status next T) else None.

(** [RemoteAffinityRequest::complete] of the request taken from a slot. *)
Definition complete (l : list RemoteAffinityRequest) (slot : option nat) (s : RemoteAffinityState)
    : option (list RemoteAffinityRequest) :=
  match slot with
  | None => Some l
  | Some id =>
      r ← l !! id;
      match rq_state r with
      | Pending => Some (<[id := mkRequest (rq_task r) (rq_mask r) (rq_target r) s]> l)
      | _ => None
      end
  end.

(** ** Run queues *)

Definition nice_of (l : list Task) (t : nat) : Z := match l !! t with Some T => t_nice T | None => 0 end.
Definition nonzero (l : list Task) (t : nat) : Z := if nice_of l t =? 0 then 0 else 1.

(** [note_inserted] and [add_running]; [front] tells [push_front] from [push_back]. *)
Definition enqueue (l : list Task) (front : bool) (t : nat) (k : Cpu) : Cpu :=
  mkCpu (if front then t :: c_tasks k else c_tasks k ++ [t]) (c_nice_count k + nonzero l t) (c_running k + 1)
    (c_phase k) (c_zombies k) (c_nzombies k).

(** [sched_pick_key] *)
Definition pick_key (l : list Task) (t : nat) : Z * Z * nat :=
  match l !! t with Some T => (t_vruntime T, t_nice T, t) | None => (0, 0, t) end.

Definition key_lt (a b : Z * Z * nat) : bool :=
  let '(a1, a2, a3) := a in
  let '(b1, b2, b3) := b in
  (a1 <? b1) || ((a1 =? b1) && ((a2 <? b2) || ((a2 =? b2) && (a3 <? b3)%nat))).

Fixpoint scan_best (l : list Task) (index best : nat) (best_key : Z * Z * nat) (q : list nat) : nat :=
  match q with
  | [] => best
  | t :: q => if key_lt (pick_key l t) best_key then scan_best l (S index) index (pick_key l t) q
              else scan_best l (S index) best best_key q
  end.

(** The index [pop_next] takes. *)
Definition pick (l : list Task) (k : Cpu) : option nat :=
  match c_tasks k with
  | [] => None
  | t :: q => if c_nice_count k =? 0 then Some O else Some (scan_best l 1 0 (pick_key l t) q)
  end.

(** [remove_at] and [sub_running] *)
Definition dequeue (l : list Task) (index t : nat) (k : Cpu) : option Cpu :=
  if c_running k <? 1 then None
  else Some (mkCpu (delete index (c_tasks k)) (saturating_sub (c_nice_count k) (nonzero l t)) (c_running k - 1)
               (c_phase k) (c_zombies k) (c_nzombies k)).

(** [recompute_nice_count] *)
Definition recompute (l : list Task) (k : Cpu) : Cpu :=
  mkCpu (c_tasks k) (zsum (nonzero l) (c_tasks k)) (c_running k) (c_phase k) (c_zombies k) (c_nzombies k).

(** ** Choice of a processor *)

Section select.
Context (runnable : Z) (ncpu : nat) (load : nat -> Z).

Definition cpu_bit (mask : Z) (c : nat) : bool := Z.testbit mask (Z.of_nat c).

(** [is_cpu_allowed] *)
Definition cpu_allowed (mask : Z) (c : nat) : bool := (c <? ncpu)%nat && cpu_bit mask c.

Definition candidates (mask : Z) : list nat := filter (fun c => cpu_bit (Z.land mask runnable) c = true) (seq 0 ncpu).

(** [runnable_affinity]: the asserts on a new mask. *)
Definition valid_mask (mask : Z) : bool :=
  (Z.land mask (Z.lnot (Z.shiftl 1 (Z.of_nat ncpu) - 1)) =? 0) && negb (bool_decide (candidates mask = [])).

Definition min_load (l : list nat) : option nat :=
  match l with
  | [] => None
  | c :: l => Some (foldl (fun best c => if load c <? load best then c else best) c l)
  end.

Definition select_runnable_cpu (allowed : Z) (preferred : option nat) : option nat :=
  minimum ← min_load (candidates allowed);
  match preferred with
  | Some c => if cpu_allowed (Z.land allowed runnable) c && (load c <=? load minimum + 1) then Some c else Some minimum
  | None => Some minimum
  end.

Definition select_new_task_cpu (allowed : Z) (preferred : option nat) : option nat :=
  match filter (fun c => load c = 0) (candidates allowed) with
  | c :: _ => Some c
  | [] => select_runnable_cpu allowed preferred
  end.

End select.

(** ** Registry of sleepers *)

(** [remove_interruptible] with its shortcuts for the two ends; [None] if absent. *)
Definition remove_interruptible (t : nat) (l : list nat) (n : Z) : option (list nat * Z) :=
  if bool_decide (head l = Some t) then Some (tail l, saturating_sub n 1)
  else if bool_decide (last l = Some t) then Some (take (length l - 1) l, saturating_sub n 1)
  else
    let rest := filter (fun u => u <> t) l in
    if (length rest =? length l)%nat then None
    else Some (rest, saturating_sub n (Z.of_nat (length l - length rest))).

(** ** Events *)

Inductive sched_event :=
| ECreate (mask nice vruntime : Z)
| EPublish (t : nat) (load : nat -> Z) (preferred : option nat)
| EFetch (c : nat)
| ESteal (c victim : nat)
| EStolen (c : nat)
| EDispatch (c : nat)
| ESleep (c : nat)
| EExit (c : nat)
| EAffinity (c : nat) (mask : Z) (load : nat -> Z)
| ESchedule (c : nat)
| ESwitchOut (c : nat)
| EWake (t : nat) (load : nat -> Z)
| EWoken
| EBlockedAffinity (t : nat) (mask : Z)
| EQueuedAffinity (t source : nat) (mask : Z) (load : nat -> Z)
| EMoved (i : nat)
| ERunningAffinity (t owner : nat) (mask : Z) (load : nat -> Z)
| EDrain (c limit : nat)
| ESetNice (t : nat) (nice : Z)
| ENiceRead (i : nat)
| ENiceQueue (i c : nat).

(** ** Operations

    An operation whose precondition of control does not hold (the processor is not
    in that phase, the lock is taken) is no step of the program and leaves the
    state alone. *)

Section ops.
Context (runnable : Z).
Implicit Types (y : Sys).

Definition ncpu (y : Sys) : nat := length (cpus y).

(** A task is built as [New] with its first mask ([set_initial_cpus_allowed]). *)
Definition create (y : Sys) (mask nice vruntime : Z) : Sys :=
  if valid_mask runnable (ncpu y) mask
  then mkSys (tasks y ++ [mkTask New mask None None None nice vruntime]) (cpus y) (registry y) (registry_count y)
         (mgr y) (moves y) (requests y) (nicing y)
  else y.

(** [require_cpu_allowed], the status exchange and the insertion under the lock of
    the target queue: [publish], [requeue_after_switch], [enqueue_woken]. *)
Definition enqueue_task (y : Sys) (t : nat) (T : Task) (from : TaskStatus) (cpu : nat) (front : bool) : option Sys :=
  if negb (cpu_allowed (ncpu y) (t_allowed T) cpu) then None
  else
    k ← cpus y !! cpu;
    T ← transition T from (Queued cpu);
    Some (put y t T cpu (enqueue (tasks y) front t k)).

(** [try_publish_task]; the creator of a task publishes it once. *)
Definition publish (y : Sys) (t : nat) (load : nat -> Z) (preferred : option nat) : option Sys :=
  match tasks y !! t with
  | Some T =>
      if decide (t_status T = New) then
        cpu ← select_new_task_cpu runnable (ncpu y) load (t_allowed T) preferred;
        enqueue_task y t T New cpu false
      else Some y
  | None => Some y
  end.

(** [fetch]: the next task of the own queue becomes [Running] under its lock. *)
Definition fetch (y : Sys) (c : nat) (k : Cpu) : option Sys :=
  match pick (tasks y) k with
  | None => Some y
  | Some index =>
      t ← c_tasks k !! index;
      T ← tasks y !! t;
      k ← dequeue (tasks y) index t k;
      T ← transition T (Queued c) (Running c);
      Some (put y t (with_last c T) c (with_phase (Claimed t) k))
  end.

(** [steal], one victim: the last task of its queue that may move. *)
Definition stealable (y : Sys) (c t : nat) : bool :=
  match tasks y !! t with
  | Some T => cpu_allowed (ncpu y) (t_allowed T) c && bool_decide (t_mig T = None)
  | None => false
  end.

Fixpoint last_index (p : nat -> bool) (i : nat) (l : list nat) : option nat :=
  match l with
  | [] => None
  | t :: l => match last_index p (S i) l with
              | Some j => Some j
              | None => if p t then Some i else None
              end
  end.

Definition steal (y : Sys) (c victim : nat) (k kv : Cpu) : option Sys :=
  match last_index (stealable y c) 0 (c_tasks kv) with
  | None => Some y
  | Some index =>
      t ← c_tasks kv !! index;
      T ← tasks y !! t;
      T ← transition T (Queued victim) Migrating;
      kv ← dequeue (tasks y) index t kv;
      Some (put_cpu (put y t T victim kv) c (with_phase (Stolen t) k))
  end.

Definition stolen (y : Sys) (c t : nat) (k : Cpu) : option Sys :=
  T ← tasks y !! t;
  T ← transition T Migrating (Running c);
  Some (put y t (with_last c T) c (with_phase (Claimed t) k)).

(** [begin_interruptible_sleep] *)
Definition begin_sleep (y : Sys) (c t : nat) (k : Cpu) : option Sys :=
  T ← tasks y !! t;
  T' ← transition T (Running c) (Blocking c);
  rs ← complete (requests y) (t_slot T) Retry;
  let y := put y t (with_slot None T') c (with_phase (Parking t) k) in
  Some (with_requests (with_registry y (registry y ++ [t]) (registry_count y + 1) (mgr y)) rs).

(** [mark_zombie]; the task then only releases its resources and calls [schedule]. *)
Definition exit (y : Sys) (c t : nat) (k : Cpu) : option Sys :=
  T ← tasks y !! t;
  T' ← transition T (Running c) Zombie;
  rs ← complete (requests y) (t_slot T) Retry;
  Some (with_requests (put y t (with_slot None T') c (with_phase (Parking t) k)) rs).

(** [set_current_affinity]; when the own processor is excluded the caller yields. *)
Definition set_current_affinity (y : Sys) (c t : nat) (k : Cpu) (mask : Z) (load : nat -> Z) : option Sys :=
  T ← tasks y !! t;
  if negb (bool_decide (t_status T = Running c)) || negb (bool_decide (t_mig T = None)) then None
  else
    rs ← complete (requests y) (t_slot T) Retry;
    let T := with_slot None (with_allowed mask T) in
    if cpu_bit mask c then Some (with_requests (put_task y t T) rs)
    else
      target ← select_runnable_cpu runnable (ncpu y) load mask None;
      Some (with_requests (put y t (with_mig (Some target) T) c (with_phase (Parking t) k)) rs).

(** [finish_switch_out] *)
Definition finish_switch_out (y : Sys) (c t : nat) (k : Cpu) : option Sys :=
  T ← tasks y !! t;
  let idle := with_phase Idle k in
  match t_status T with
  | Running owner =>
      if negb (owner =? c)%nat then None
      else
        match t_slot T with
        | Some id =>
            r ← requests y !! id;
            if negb (bool_decide (t_mig T = None)) || negb (valid_mask runnable (ncpu y) (rq_mask r)) then None
            else
              rs ← complete (requests y) (Some id) Applied;
              let T := with_slot None (with_allowed (rq_mask r) T) in
              y ← enqueue_task (put_cpu y c idle) t T (Running c) (rq_target r) false;
              Some (with_requests y rs)
        | None =>
            let target := default c (t_mig T) in
            enqueue_task (put_cpu y c idle) t (with_mig None T) (Running c) target false
        end
  | Blocking owner =>
      if negb (owner =? c)%nat then None
      else Some (put y t (with_mig None (with_status Blocked T)) c idle)
  | Zombie =>
      Some (put y t (with_mig None T) c
              (mkCpu (c_tasks k) (c_nice_count k) (c_running k) Idle (c_zombies k ++ [t]) (c_nzombies k + 1)))
  | _ => None
  end.

(** [try_wake_interruptible]: the decision, then what follows under [TASK_MANAGER]. *)
Definition wake (y : Sys) (t : nat) (load : nat -> Z) : option Sys :=
  match tasks y !! t with
  | None => Some y
  | Some T =>
      match t_status T with
      | Blocking cpu => Some (with_mgr (put_task y t (with_status (Running cpu) T)) (Removing t))
      | Blocked =>
          cpu ← select_runnable_cpu runnable (ncpu y) load (t_allowed T) (t_last T);
          Some (with_mgr y (Enqueuing t cpu))
      | _ => Some y
      end
  end.

Definition woken (y : Sys) : option Sys :=
  match mgr y with
  | Free => Some y
  | Removing t =>
      '(l, n) ← remove_interruptible t (registry y) (registry_count y);
      Some (with_registry y l n Free)
  | Enqueuing t cpu =>
      '(l, n) ← remove_interruptible t (registry y) (registry_count y);
      T ← tasks y !! t;
      y ← enqueue_task y t T Blocked cpu true;
      Some (with_registry y l n Free)
  end.

End ops.

Section remote.
Context (runnable : Z).
Implicit Types (y : Sys).

(** [store_cpus_allowed] *)
Definition store_allowed (y : Sys) (T : Task) (mask : Z) (expected : TaskStatus) : option Task :=
  if valid_mask runnable (ncpu y) mask && bool_decide (t_status T = expected)
  then Some (with_allowed mask T) else None.

(** [update_blocked_affinity] *)
Definition update_blocked_affinity (y : Sys) (t : nat) (mask : Z) : option Sys :=
  match tasks y !! t with
  | Some T =>
      if bool_decide (t_status T = Blocked) && bool_decide (t ∈ registry y)
      then T ← store_allowed y T mask Blocked; Some (put_task y t T)
      else Some y
  | None => Some y
  end.

(** [set_queued_affinity] after the status was read as [Queued source]; the new mask
    is stored in place or the task is taken off its queue. *)
Definition set_queued_affinity (y : Sys) (t source : nat) (k : Cpu) (mask : Z) (load : nat -> Z) : option Sys :=
  match list_find (fun u => u = t) (c_tasks k) with
  | None => Some y
  | Some (index, _) =>
      T ← tasks y !! t;
      if cpu_bit mask source then T ← store_allowed y T mask (Queued source); Some (put_task y t T)
      else
        target ← select_runnable_cpu runnable (ncpu y) load mask None;
        T ← transition T (Queued source) Migrating;
        k ← dequeue (tasks y) index t k;
        Some (with_moves (put y t T source k) (moves y ++ [mkMove t mask target]))
  end.

(** The second half: the mask is stored while nobody owns the task. *)
Definition moved (y : Sys) (i : nat) (m : Move) : option Sys :=
  T ← tasks y !! mv_task m;
  T ← store_allowed y T (mv_mask m) Migrating;
  y ← enqueue_task y (mv_task m) T Migrating (mv_target m) false;
  Some (with_moves y (delete i (moves y))).

(** [set_remote_affinity] of a task seen as [Running owner], under the lock of its
    request slot; a pending request or migration is waited for. *)
Definition set_running_affinity (y : Sys) (t owner : nat) (mask : Z) (load : nat -> Z) : option Sys :=
  match tasks y !! t with
  | None => Some y
  | Some T =>
      if negb (bool_decide (t_slot T = None)) || negb (bool_decide (t_mig T = None))
         || negb (bool_decide (t_status T = Running owner))
      then Some y
      else if cpu_bit mask owner then T ← store_allowed y T mask (Running owner); Some (put_task y t T)
      else
        target ← select_runnable_cpu runnable (ncpu y) load mask None;
        Some (with_requests (put_task y t (with_slot (Some (length (requests y))) T))
                (requests y ++ [mkRequest t mask target Pending]))
  end.

(** [drain_local_zombies]: [take_local_zombies] reads the count, then takes. *)
Definition drain (y : Sys) (c : nat) (k : Cpu) (limit : nat) : option Sys :=
  let capacity := Nat.min limit (Z.to_nat (c_nzombies k)) in
  let count := Nat.min capacity (length (c_zombies k)) in
  if c_nzombies k <? Z.of_nat count then None
  else Some (put_cpu y c (mkCpu (c_tasks k) (c_nice_count k) (c_running k) (c_phase k) (drop count (c_zombies k))
                            (c_nzombies k - Z.of_nat count))).

(** The hint is stored first; [update_nice] follows when the class changes. *)
Definition set_nice (y : Sys) (t : nat) (nice : Z) : Sys :=
  match tasks y !! t with
  | None => y
  | Some T =>
      let y' := put_task y t (with_nice nice T) in
      if Bool.eqb (t_nice T =? 0) (nice =? 0) then y' else with_nicing y' (nicing y ++ [t])
  end.

(** [update_nice], the read of the status. *)
Definition nice_read (y : Sys) (i t : nat) : Sys :=
  match t_status <$> tasks y !! t with
  | Some (Queued _) | Some Migrating => y
  | _ => with_nicing y (delete i (nicing y))
  end.

(** [update_nice] under the lock of the queue of [c], read before. *)
Definition nice_queue (y : Sys) (i t c : nat) (k : Cpu) : option Sys :=
  let y' := put_cpu y c (recompute (tasks y) k) in
  if bool_decide (t ∈ c_tasks k) then Some (with_nicing y' (delete i (nicing y)))
  else match t_status <$> tasks y !! t with
       | Some Migrating => Some y'
       | Some (Queued owner) => if (owner =? c)%nat then None else Some y'
       | _ => Some (with_nicing y' (delete i (nicing y)))
       end.

Definition free (y : Sys) : bool := match mgr y with Free => true | _ => false end.

Definition sched_step (y : Sys) (ev : sched_event) : option Sys :=
  let on c (f : Cpu -> option Sys) := match cpus y !! c with Some k => f k | None => Some y end in
  let current c (f : nat -> Cpu -> option Sys) :=
    on c (fun k => match c_phase k with Current t => f t k | _ => Some y end) in
  let masked mask (r : option Sys) := if valid_mask runnable (ncpu y) mask then r else Some y in
  match ev with
  | ECreate mask nice vruntime => Some (create runnable y mask nice vruntime)
  | EPublish t load preferred => publish runnable y t load preferred
  | EFetch c => on c (fun k => match c_phase k with Idle => fetch y c k | _ => Some y end)
  | ESteal c victim =>
      if (c =? victim)%nat then Some y
      else on c (fun k => match c_phase k with Idle => on victim (steal y c victim k) | _ => Some y end)
  | EStolen c => on c (fun k => match c_phase k with Stolen t => stolen y c t k | _ => Some y end)
  | EDispatch c =>
      on c (fun k => match c_phase k with Claimed t => Some (put_cpu y c (with_phase (Current t) k)) | _ => Some y end)
  | ESleep c => if free y then current c (begin_sleep y c) else Some y
  | EExit c => current c (exit y c)
  | EAffinity c mask load =>
      masked mask (current c (fun t k => set_current_affinity runnable y c t k mask load))
  | ESchedule c =>
      on c (fun k => match c_phase k with
                     | Current t | Parking t => Some (put_cpu y c (with_phase (Leaving t) k))
                     | _ => Some y
                     end)
  | ESwitchOut c => on c (fun k => match c_phase k with Leaving t => finish_switch_out runnable y c t k | _ => Some y end)
  | EWake t load => if free y then wake runnable y t load else Some y
  | EWoken => woken y
  | EBlockedAffinity t mask => masked mask (if free y then update_blocked_affinity y t mask else Some y)
  | EQueuedAffinity t source mask load => masked mask (on source (fun k => set_queued_affinity y t source k mask load))
  | EMoved i => match moves y !! i with Some m => moved y i m | None => Some y end
  | ERunningAffinity t owner mask load => masked mask (set_running_affinity y t owner mask load)
  | EDrain c limit => on c (fun k => drain y c k limit)
  | ESetNice t nice => Some (set_nice y t nice)
  | ENiceRead i => match nicing y !! i with Some t => Some (nice_read y i t) | None => Some y end
  | ENiceQueue i c => match nicing y !! i with Some t => on c (nice_queue y i t c) | None => Some y end
  end.

Fixpoint sched_run (y : Sys) (evs : list sched_event) : option Sys :=
  match evs with [] => Some y | ev :: evs => y ← sched_step y ev; sched_run y evs end.

End remote.
