(* ===== verification/SchedInv.v ===== *)
(** The invariant of the scheduler: every task is owned by exactly one queue,
    processor or call in progress, and that owner is the one its status names.

    [own] speaks about the statuses and the containers only, so that changes of
    masks, hints and requests do not touch it.  Occurrences are counted: a task is
    held once, or not at all. *)

From stdpp Require Import base numbers option list.
From S2P Require Import Prelude Sched.

(** ** Counting *)

Definition is_it (u x : nat) : Z := if decide (x = u) then 1 else 0.
Definition occ (u : nat) (l : list nat) : Z := zsum (is_it u) l.

Lemma is_it_bounds u x : 0 <= is_it u x <= 1.
Proof. unfold is_it. case_decide; lia. Qed.

Lemma occ_bounds u l : 0 <= occ u l <= Z.of_nat (length l).
Proof. apply zsum_bounds. intros x. apply is_it_bounds. Qed.

Lemma occ_elem u l : 0 < occ u l <-> u ∈ l.
Proof.
  unfold occ. induction l as [|x l IH]; simpl; [split; [lia|by intros ?%not_elem_of_nil]|].
  rewrite elem_of_cons, <- IH. pose proof (occ_bounds u l) as Hb. unfold occ in Hb. unfold is_it in *. case_decide; naive_solver lia.
Qed.

Lemma occ_app u l1 l2 : occ u (l1 ++ l2) = occ u l1 + occ u l2.
Proof. apply zsum_app. Qed.

Lemma occ_delete u i x l : l !! i = Some x -> occ u (delete i l) = occ u l - is_it u x.
Proof. apply zsum_delete. Qed.

Lemma occ_filter u t l : occ u (filter (fun x => x <> t) l) = if decide (u = t) then 0 else occ u l.
Proof.
  unfold occ. induction l as [|x l IH]; [by case_decide|]. rewrite filter_cons. unfold is_it in *.
  destruct (decide (u = t)), (decide (x <> t)); simpl; repeat case_decide; subst; naive_solver lia.
Qed.

(** ** Ownership *)

Definition in_hand (p : Phase) : option nat :=
  match p with
  | Idle => None
  | Stolen t | Claimed t | Current t | Parking t | Leaving t => Some t
  end.

Definition cpu_holds (u : nat) (k : Cpu) : Z :=
  occ u (c_tasks k) + occ u (option_list (in_hand (c_phase k))) + occ u (c_zombies k).

Definition held (cs : list Cpu) (mv : list nat) (u : nat) : Z := zsum (cpu_holds u) cs + occ u mv.

(** How often a task of that status is held. *)
Definition owned (s : TaskStatus) (n : Z) : Prop :=
  match s with
  | New | Blocked => n = 0
  | Zombie => 0 <= n <= 1
  | _ => n = 1
  end.

Definition hand_ok (c : nat) (p : Phase) (s : TaskStatus) : Prop :=
  match p with
  | Idle => True
  | Stolen _ => s = Migrating
  | Claimed _ | Current _ => s = Running c
  | Parking _ | Leaving _ => s = Running c \/ s = Blocking c \/ s = Zombie
  end.

Record cpu_ok (sts : list TaskStatus) (c : nat) (k : Cpu) : Prop := {
  co_tasks u : 0 < occ u (c_tasks k) -> sts !! u = Some (Queued c);
  co_hand u : in_hand (c_phase k) = Some u -> exists s, sts !! u = Some s /\ hand_ok c (c_phase k) s;
  co_zombies u : 0 < occ u (c_zombies k) -> sts !! u = Some Zombie;
  co_running : c_running k = Z.of_nat (length (c_tasks k));
  co_nzombies : c_nzombies k = Z.of_nat (length (c_zombies k));
}.

Record own (sts : list TaskStatus) (cs : list Cpu) (mv : list nat) : Prop := {
  ow_held u s : sts !! u = Some s -> owned s (held cs mv u);
  ow_cpu c k : cs !! c = Some k -> cpu_ok sts c k;
  ow_moves u : 0 < occ u mv -> sts !! u = Some Migrating;
}.

Lemma cpu_holds_nonneg u k : 0 <= cpu_holds u k.
Proof.
  unfold cpu_holds. pose proof (occ_bounds u (c_tasks k)). pose proof (occ_bounds u (option_list (in_hand (c_phase k)))).
  pose proof (occ_bounds u (c_zombies k)). lia.
Qed.

Lemma zsum_nonneg {A} (f : A -> Z) l : (forall x, 0 <= f x) -> 0 <= zsum f l.
Proof. intros H. induction l as [|x l IH]; simpl; [lia|]. specialize (H x). lia. Qed.

Lemma zsum_pick {A} (f : A -> Z) l i x : (forall x, 0 <= f x) -> l !! i = Some x -> f x <= zsum f l.
Proof.
  intros H E. rewrite (zsum_split f l i x E). pose proof (zsum_nonneg f (take i l) H).
  pose proof (zsum_nonneg f (drop (S i) l) H). lia.
Qed.

(** What another processor holds. *)
Lemma held_other cs mv u c k c' k' : cs !! c = Some k -> cs !! c' = Some k' -> c <> c' ->
  cpu_holds u k + cpu_holds u k' + occ u mv <= held cs mv u.
Proof.
  intros E E' Hne. unfold held. pose proof (zsum_delete (cpu_holds u) cs c k E) as Hd.
  assert (Hk : exists j, delete c cs !! j = Some k').
  { destruct (decide (c' < c)%nat); [exists c'; by rewrite list_lookup_delete_lt|].
    exists (c' - 1)%nat. rewrite list_lookup_delete_ge by lia. by replace (S (c' - 1)) with c' by lia. }
  destruct Hk as [j Hj]. pose proof (zsum_pick (cpu_holds u) _ _ _ (cpu_holds_nonneg u) Hj). lia.
Qed.

Lemma held_pick cs mv u c k : cs !! c = Some k -> cpu_holds u k + occ u mv <= held cs mv u.
Proof. intros E. unfold held. pose proof (zsum_pick (cpu_holds u) _ _ _ (cpu_holds_nonneg u) E). lia. Qed.

Lemma owned_le s n : owned s n -> n <= 1.
Proof. destruct s; simpl; lia. Qed.

Lemma held_only sts cs mv u s c k : own sts cs mv -> sts !! u = Some s -> cs !! c = Some k ->
  0 < cpu_holds u k + occ u mv \/ owned s 0 /\ s <> Zombie -> held cs mv u = cpu_holds u k + occ u mv.
Proof.
  intros Ho Hs Hk Hor. pose proof (ow_held _ _ _ Ho u s Hs) as Hh. pose proof (held_pick cs mv u c k Hk).
  pose proof (cpu_holds_nonneg u k). pose proof (occ_bounds u mv). pose proof (owned_le _ _ Hh).
  destruct Hor as [Hor|[Hor Hz]]; [lia|]. destruct s; simpl in *; lia || done.
Qed.

(** ** One task changes its status and its place on one processor *)

Definition phase_moves (t : nat) (p p' : Phase) : Prop :=
  p' = p \/ (in_hand p = None \/ in_hand p = Some t) /\ (in_hand p' = None \/ in_hand p' = Some t).

Definition place_ok (c : nat) (k : Cpu) (mv : list nat) (t : nat) (s : TaskStatus) : Prop :=
  owned s (cpu_holds t k + occ t mv) /\ (0 < occ t (c_tasks k) -> s = Queued c) /\
  (in_hand (c_phase k) = Some t -> hand_ok c (c_phase k) s) /\ (0 < occ t (c_zombies k) -> s = Zombie) /\
  (0 < occ t mv -> s = Migrating).

Definition counts_ok (k : Cpu) : Prop :=
  c_running k = Z.of_nat (length (c_tasks k)) /\ c_nzombies k = Z.of_nat (length (c_zombies k)).

Lemma hand_occ u p : occ u (option_list (in_hand p)) = if decide (in_hand p = Some u) then 1 else 0.
Proof. destruct p; simpl; unfold occ, is_it; simpl; repeat case_decide; naive_solver lia. Qed.

Lemma phase_other t u p p' : phase_moves t p p' -> u <> t -> in_hand p' = Some u <-> in_hand p = Some u.
Proof. intros [->|[[H1|H1] [H2|H2]]] Hu; rewrite ?H1, ?H2; naive_solver. Qed.

Lemma own_step sts cs mv c k k' t s s' mv' : own sts cs mv -> cs !! c = Some k -> sts !! t = Some s ->
  (forall u, u <> t -> occ u (c_tasks k') = occ u (c_tasks k) /\ occ u (c_zombies k') = occ u (c_zombies k) /\
     occ u mv' = occ u mv) ->
  phase_moves t (c_phase k) (c_phase k') -> held cs mv t = cpu_holds t k + occ t mv ->
  place_ok c k' mv' t s' -> counts_ok k' -> own (<[t := s']> sts) (<[c := k']> cs) mv'.
Proof.
  intros Ho Hk Hs Hsame Hph Honly (P1 & P2 & P3 & P4 & P5) [N1 N2].
  assert (Hold : forall u, u <> t -> <[t := s']> sts !! u = sts !! u) by (intros; by rewrite list_lookup_insert_ne).
  assert (Hnew : <[t := s']> sts !! t = Some s') by (apply list_lookup_insert_eq; by apply lookup_lt_Some in Hs).
  assert (Hhold : forall u, u <> t -> cpu_holds u k' = cpu_holds u k).
  { intros u Hu. destruct (Hsame u Hu) as (S1 & S2 & S3). unfold cpu_holds. rewrite S1, S2, !hand_occ.
    pose proof (phase_other _ _ _ _ Hph Hu). repeat case_decide; tauto || lia. }
  assert (Hheld : forall u, held (<[c := k']> cs) mv' u = held cs mv u - cpu_holds u k - occ u mv + cpu_holds u k' + occ u mv').
  { intros u. unfold held. rewrite (zsum_insert _ _ _ k) by done. lia. }
  split.
  - intros u x Hu. rewrite Hheld. destruct (decide (u = t)) as [->|Hne].
    + rewrite Hnew in Hu. injection Hu as <-. rewrite Honly. by replace (_ - _ - _ + _ + _) with (cpu_holds t k' + occ t mv') by lia.
    + rewrite Hold in Hu by done. destruct (Hsame u Hne) as (_ & _ & S3). rewrite Hhold, S3 by done.
      replace (_ - _ - _ + _ + _) with (held cs mv u) by lia. by apply (ow_held _ _ _ Ho).
  - intros c1 k1 E1. destruct (decide (c1 = c)) as [->|Hc].
    + rewrite list_lookup_insert_eq in E1 by (by apply lookup_lt_Some in Hk). injection E1 as <-.
      pose proof (ow_cpu _ _ _ Ho c k Hk) as [C1 C2 C3 _ _]. split; [| | |done|done].
      * intros u Hu. destruct (decide (u = t)) as [->|Hne]; [rewrite Hnew; f_equal; by apply P2|].
        rewrite Hold by done. apply C1. by destruct (Hsame u Hne) as [<- _].
      * intros u Hu. destruct (decide (u = t)) as [->|Hne]; [exists s'; split; [done|by apply P3]|].
        rewrite Hold by done. pose proof (proj1 (phase_other _ _ _ _ Hph Hne) Hu) as Hu'. destruct (C2 u Hu') as (x & X1 & X2).
        exists x. split; [done|]. destruct Hph as [->|[[H1|H1] _]]; [done|congruence|congruence].
      * intros u Hu. destruct (decide (u = t)) as [->|Hne]; [rewrite Hnew; f_equal; by apply P4|].
        rewrite Hold by done. apply C3. by destruct (Hsame u Hne) as (_ & <- & _).
    + rewrite list_lookup_insert_ne in E1 by done. pose proof (ow_cpu _ _ _ Ho c1 k1 E1) as [C1 C2 C3 C4 C5].
      pose proof (held_other cs mv t c k c1 k1 Hk E1 ltac:(done)) as Hoth. pose proof (cpu_holds_nonneg t k1) as Hnn.
      assert (Hz : cpu_holds t k1 = 0) by lia. unfold cpu_holds in Hz.
      pose proof (occ_bounds t (c_tasks k1)). pose proof (occ_bounds t (c_zombies k1)).
      rewrite hand_occ in Hz. split; [| | |done|done].
      * intros u Hu. rewrite Hold; [by apply C1|]. intros ->. case_decide; lia.
      * intros u Hu. rewrite Hold; [by apply C2|]. intros ->. rewrite decide_True in Hz by done. lia.
      * intros u Hu. rewrite Hold; [by apply C3|]. intros ->. case_decide; lia.
  - intros u Hu. destruct (decide (u = t)) as [->|Hne]; [rewrite Hnew; f_equal; by apply P5|].
    rewrite Hold by done. apply (ow_moves _ _ _ Ho). by destruct (Hsame u Hne) as (_ & _ & <-).
Qed.

(** ** The whole invariant *)

#[export] Instance Mgr_eq_dec : EqDecision Mgr.
Proof. solve_decision. Defined.

Definition sleeps (s : TaskStatus) : bool := match s with Blocking _ | Blocked => true | _ => false end.

Definition asleep (sts : list TaskStatus) (m : Mgr) (u : nat) : bool :=
  match sts !! u with Some s => sleeps s || bool_decide (m = Removing u) | None => false end.

(** The registry holds the tasks that sleep, and the one a waker is about to remove. *)
Definition reg_ok (sts : list TaskStatus) (m : Mgr) (l : list nat) : Prop :=
  forall u, occ u l = if asleep sts m u then 1 else 0.

Section inv.
Context (runnable : Z) (n : nat).

Definition allowed_on (mask : Z) (c : nat) : Prop := cpu_allowed n mask c = true.
Definition valid (mask : Z) : Prop := valid_mask runnable n mask = true.

Definition mgr_ok (ts : list Task) (m : Mgr) : Prop :=
  match m with
  | Free => True
  | Removing t => exists T, ts !! t = Some T /\ sleeps (t_status T) = false
  | Enqueuing t c => exists T, ts !! t = Some T /\ t_status T = Blocked /\ allowed_on (t_allowed T) c
  end.

(** Placement: a task is queued and runs where its mask allows, or is about to leave
    for a processor that its mask allows. *)
Definition task_ok (T : Task) : Prop :=
  valid (t_allowed T) /\
  match t_status T with
  | Queued c | Blocking c => allowed_on (t_allowed T) c /\ t_mig T = None /\ t_slot T = None
  | Running c => allowed_on (t_allowed T) (default c (t_mig T)) /\ (t_slot T = None \/ t_mig T = None)
  | _ => t_mig T = None /\ t_slot T = None
  end.

(** A task with a migration target is on its way off the processor; a stolen one may
    run on the thief. *)
Record parked (cs : list Cpu) (t : nat) (T : Task) : Prop := {
  pk_mig : t_mig T <> None -> exists c k, t_status T = Running c /\ cs !! c = Some k /\
    (c_phase k = Parking t \/ c_phase k = Leaving t);
  pk_stolen c k : cs !! c = Some k -> c_phase k = Stolen t -> allowed_on (t_allowed T) c;
}.

Definition target_ok (mask : Z) (target : nat) : Prop := valid mask /\ allowed_on mask target.

(** A request is pending exactly while it is in the slot of its task. *)
Record slots_ok (slots : list (option nat)) (rs : list RemoteAffinityRequest) : Prop := {
  so_slot t id : slots !! t = Some (Some id) -> exists r, rs !! id = Some r /\ rq_task r = t /\ rq_state r = Pending;
  so_pending id r : rs !! id = Some r -> rq_state r = Pending ->
    slots !! rq_task r = Some (Some id) /\ target_ok (rq_mask r) (rq_target r);
}.

Definition statuses (y : Sys) : list TaskStatus := t_status <$> tasks y.
Definition slots (y : Sys) : list (option nat) := t_slot <$> tasks y.

Record sched_inv (y : Sys) : Prop := {
  si_ncpu : length (cpus y) = n;
  si_own : own (statuses y) (cpus y) (mv_task <$> moves y);
  si_reg : reg_ok (statuses y) (mgr y) (registry y);
  si_count : registry_count y = Z.of_nat (length (registry y));
  si_mgr : mgr_ok (tasks y) (mgr y);
  si_task t T : tasks y !! t = Some T -> task_ok T /\ parked (cpus y) t T;
  si_moves : Forall (fun m => target_ok (mv_mask m) (mv_target m)) (moves y);
  si_slots : slots_ok (slots y) (requests y);
}.

Lemma inv_step_gen y t T T' cs reg cnt m mvs rs nc : sched_inv y -> tasks y !! t = Some T -> length cs = n ->
  own (<[t := t_status T']> (statuses y)) cs (mv_task <$> mvs) ->
  (forall u U, u <> t -> parked (cpus y) u U -> parked cs u U) ->
  reg_ok (<[t := t_status T']> (statuses y)) m reg -> cnt = Z.of_nat (length reg) ->
  mgr_ok (<[t := T']> (tasks y)) m -> task_ok T' -> parked cs t T' ->
  Forall (fun m => target_ok (mv_mask m) (mv_target m)) mvs -> slots_ok (<[t := t_slot T']> (slots y)) rs ->
  sched_inv (mkSys (<[t := T']> (tasks y)) cs reg cnt m mvs rs nc).
Proof.
  intros [I0 I1 I2 I3 I4 I5 I6 I7] Ht Hn Ho Hph Hr Hc Hm HT Hp Hmv Hs. pose proof (lookup_lt_Some _ _ _ Ht) as Hlt.
  split; simpl; unfold statuses, slots; simpl; rewrite ?list_fmap_insert; try done.
  intros u U Hu. destruct (decide (u = t)) as [->|Hne].
  - rewrite list_lookup_insert_eq in Hu by done. by injection Hu as <-.
  - rewrite list_lookup_insert_ne in Hu by done. destruct (I5 u U Hu) as [J1 J2]. split; [done|by apply Hph].
Qed.

Lemma parked_keep cs c k k' t : cs !! c = Some k -> phase_moves t (c_phase k) (c_phase k') ->
  forall u U, u <> t -> parked cs u U -> parked (<[c := k']> cs) u U.
Proof.
  intros Hk Hph u U Hne [J1 J2]. pose proof (lookup_lt_Some _ _ _ Hk) as Hlk. split.
  - intros Hmig. destruct (J1 Hmig) as (c1 & k1 & K1 & K2 & K3). exists c1.
    destruct (decide (c1 = c)) as [->|Hc1]; [|exists k1; by rewrite list_lookup_insert_ne].
    simplify_eq. exists k'. rewrite list_lookup_insert_eq by done. split_and!; [done..|].
    destruct Hph as [->|[Hph _]]; [done|]. destruct K3 as [K3|K3]; rewrite K3 in Hph; simpl in Hph; naive_solver.
  - intros c1 k1 K1 K2. destruct (decide (c1 = c)) as [->|Hc1].
    + rewrite list_lookup_insert_eq in K1 by done. injection K1 as <-. apply (J2 c k); [done|].
      destruct Hph as [<-|[_ Hph]]; [done|]. rewrite K2 in Hph. simpl in Hph. naive_solver.
    + rewrite list_lookup_insert_ne in K1 by done. by apply (J2 c1 k1).
Qed.

Lemma not_stolen sts cs mv t s c k : own sts cs mv -> sts !! t = Some s -> s <> Migrating -> cs !! c = Some k ->
  c_phase k <> Stolen t.
Proof.
  intros Ho Hs Hne Hk Hp. destruct (co_hand _ _ _ (ow_cpu _ _ _ Ho c k Hk) t) as (s1 & H1 & H2); [by rewrite Hp|].
  rewrite Hp in H2. simpl in H2. congruence.
Qed.

Lemma inv_step y t T T' c k k' reg cnt m mvs rs nc : sched_inv y -> tasks y !! t = Some T -> cpus y !! c = Some k ->
  own (<[t := t_status T']> (statuses y)) (<[c := k']> (cpus y)) (mv_task <$> mvs) ->
  phase_moves t (c_phase k) (c_phase k') ->
  reg_ok (<[t := t_status T']> (statuses y)) m reg -> cnt = Z.of_nat (length reg) ->
  mgr_ok (<[t := T']> (tasks y)) m -> task_ok T' -> t_status T' <> Migrating ->
  (t_mig T' <> None -> t_status T' = Running c /\ (c_phase k' = Parking t \/ c_phase k' = Leaving t)) ->
  Forall (fun m => target_ok (mv_mask m) (mv_target m)) mvs -> slots_ok (<[t := t_slot T']> (slots y)) rs ->
  sched_inv (mkSys (<[t := T']> (tasks y)) (<[c := k']> (cpus y)) reg cnt m mvs rs nc).
Proof.
  intros I Ht Hk Ho Hph Hr Hc Hm HT Hst Hp Hmv Hs.
  eapply inv_step_gen; try done; [rewrite length_insert; apply I|by apply (parked_keep _ _ k)|]. split.
  - intros Hmig. destruct (Hp Hmig) as [P1 P2]. exists c, k'.
    rewrite list_lookup_insert_eq by (by apply lookup_lt_Some in Hk). done.
  - intros c1 k1 K1 K2. exfalso. eapply not_stolen; [apply Ho| |exact Hst|exact K1|exact K2].
    apply list_lookup_insert_eq. apply lookup_lt_Some in Ht. unfold statuses. by rewrite length_fmap.
Qed.

(** A change of a task that is invisible to the containers. *)
Lemma inv_task y t T T' m rs nc : sched_inv y -> tasks y !! t = Some T -> t_status T' = t_status T ->
  t_mig T' = t_mig T -> task_ok T' -> t_status T <> Migrating \/ t_allowed T' = t_allowed T -> reg_ok (statuses y) m (registry y) -> mgr_ok (<[t := T']> (tasks y)) m ->
  slots_ok (<[t := t_slot T']> (slots y)) rs ->
  sched_inv (mkSys (<[t := T']> (tasks y)) (cpus y) (registry y) (registry_count y) m (moves y) rs nc).
Proof.
  intros [I0 I1 I2 I3 I4 I5 I6 I7] Ht Hst Hmig HT Hal Hr Hm Hs. pose proof (lookup_lt_Some _ _ _ Ht) as Hlt.
  assert (Hsts : t_status <$> <[t := T']> (tasks y) = statuses y).
  { rewrite list_fmap_insert, Hst. apply list_insert_id. unfold statuses. by rewrite list_lookup_fmap, Ht. }
  split; simpl; unfold statuses, slots; simpl; rewrite ?Hsts, ?list_fmap_insert; try done.
  intros u U Hu. destruct (decide (u = t)) as [->|Hne].
  - rewrite list_lookup_insert_eq in Hu by done. injection Hu as <-. split; [done|].
    destruct (I5 t T Ht) as [_ [J1 J2]]. split; rewrite ?Hmig, ?Hst; [done|]. intros c k K1 K2.
    destruct Hal as [Hal| ->]; [|by apply (J2 c k)]. exfalso.
    eapply not_stolen; [apply I1| |exact Hal|exact K1|exact K2]. unfold statuses. by rewrite list_lookup_fmap, Ht.
  - rewrite list_lookup_insert_ne in Hu by done. by apply I5.
Qed.

(** ** Frames *)

Lemma status_lookup y t T : tasks y !! t = Some T -> statuses y !! t = Some (t_status T).
Proof. intros E. unfold statuses. by rewrite list_lookup_fmap, E. Qed.

Lemma slots_keep y t T : sched_inv y -> tasks y !! t = Some T -> slots_ok (<[t := t_slot T]> (slots y)) (requests y).
Proof.
  intros I Ht. rewrite list_insert_id; [apply I|]. unfold slots. by rewrite list_lookup_fmap, Ht.
Qed.

Lemma reg_keep sts m l t s s' : reg_ok sts m l -> sts !! t = Some s -> sleeps s' = sleeps s -> reg_ok (<[t := s']> sts) m l.
Proof.
  intros H Hs E u. rewrite (H u). unfold asleep. destruct (decide (u = t)) as [->|Hne].
  - rewrite list_lookup_insert_eq by (by apply lookup_lt_Some in Hs). by rewrite Hs, E.
  - by rewrite list_lookup_insert_ne.
Qed.

Lemma mgr_keep ts m t T T' : mgr_ok ts m -> ts !! t = Some T -> t_status T <> Blocked ->
  (m = Removing t -> sleeps (t_status T) = false -> sleeps (t_status T') = false) -> mgr_ok (<[t := T']> ts) m.
Proof.
  intros H Ht Hb Hr. pose proof (lookup_lt_Some _ _ _ Ht) as Hlt. destruct m as [|u|u c]; [done| |].
  - destruct H as (U & HU & HS). destruct (decide (u = t)) as [->|Hne].
    + exists T'. simplify_eq. rewrite list_lookup_insert_eq; auto.
    + exists U. by rewrite list_lookup_insert_ne.
  - destruct H as (U & HU & HS & HA). exists U. rewrite list_lookup_insert_ne; [done|]. intros ->. congruence.
Qed.

(** A step of a task that is no sleeper, before and after, or stays one. *)
Lemma inv_quiet y t T T' c k k' mvs : sched_inv y -> tasks y !! t = Some T -> cpus y !! c = Some k ->
  own (<[t := t_status T']> (statuses y)) (<[c := k']> (cpus y)) (mv_task <$> mvs) ->
  phase_moves t (c_phase k) (c_phase k') -> sleeps (t_status T') = sleeps (t_status T) -> t_status T <> Blocked ->
  t_slot T' = t_slot T -> task_ok T' -> t_status T' <> Migrating ->
  (t_mig T' <> None -> t_status T' = Running c /\ (c_phase k' = Parking t \/ c_phase k' = Leaving t)) ->
  Forall (fun m => target_ok (mv_mask m) (mv_target m)) mvs ->
  sched_inv (mkSys (<[t := T']> (tasks y)) (<[c := k']> (cpus y)) (registry y) (registry_count y) (mgr y) mvs
               (requests y) (nicing y)).
Proof.
  intros I Ht Hk Ho Hph Hsl Hb Hslot HT Hst' Hp Hmv. pose proof (status_lookup _ _ _ Ht) as Hst.
  apply (inv_step y t T _ c k); try done; [by eapply reg_keep; [apply I|done|]|apply I| |].
  - eapply mgr_keep; [apply I|done|done|]. by rewrite Hsl.
  - rewrite Hslot. by apply slots_keep.
Qed.

End inv.
