(* ===== verification/SchedSteps.v ===== *)
(** Every operation of the scheduler keeps the invariant and never panics. *)

From stdpp Require Import base numbers option list.
From S2P Require Import Prelude Sched SchedInv.

(** ** Choice of a processor *)

Section select_spec.
Context (runnable : Z) (n : nat).

Lemma candidates_spec mask c : c ∈ candidates runnable n mask -> allowed_on n mask c.
Proof.
  intros [Hb Hc]%list_elem_of_filter. apply elem_of_seq in Hc. unfold cpu_bit in Hb. rewrite Z.land_spec in Hb.
  apply andb_true_iff in Hb as [Hb _]. unfold allowed_on, cpu_allowed, cpu_bit. rewrite Hb.
  destruct (Nat.ltb_spec c n); [done|lia].
Qed.

Lemma min_load_spec load l : l <> [] -> exists c, min_load load l = Some c /\ c ∈ l.
Proof.
  destruct l as [|c l]; [done|]. intros _. simpl. eexists. split; [done|].
  assert (H : forall l b, foldl (fun best c => if load c <? load best then c else best) b l ∈ b :: l).
  { clear. induction l as [|x l IH]; intros b; simpl; [by left|].
    specialize (IH (if load x <? load b then x else b)). apply elem_of_cons in IH as [->|IH]; [|by do 2 right].
    destruct (_ <? _); [right; by left|by left]. }
  apply H.
Qed.

Lemma select_ok load mask pref : valid runnable n mask ->
  exists c, select_runnable_cpu runnable n load mask pref = Some c /\ allowed_on n mask c.
Proof.
  intros [_ Hv]%andb_true_iff. apply negb_true_iff, bool_decide_eq_false in Hv.
  destruct (min_load_spec load _ Hv) as (m & Hm & Hc). unfold select_runnable_cpu. rewrite Hm. simpl.
  apply candidates_spec in Hc. destruct pref as [p|]; [|eauto]. destruct (_ && _) eqn:E; [|eauto].
  exists p. split; [done|]. apply andb_true_iff in E as [E _]. unfold cpu_allowed, cpu_bit in E. rewrite Z.land_spec in E.
  unfold allowed_on, cpu_allowed, cpu_bit. destruct (p <? n)%nat; [|done]. simpl in *. by destruct (Z.testbit mask _).
Qed.

Lemma select_new_ok load mask pref : valid runnable n mask ->
  exists c, select_new_task_cpu runnable n load mask pref = Some c /\ allowed_on n mask c.
Proof.
  intros Hv. unfold select_new_task_cpu. destruct (filter _ _) as [|c l] eqn:E; [by apply select_ok|].
  exists c. split; [done|]. apply candidates_spec.
  assert (Hc : c ∈ filter (fun c => load c = 0) (candidates runnable n mask)) by (rewrite E; by left).
  by apply list_elem_of_filter in Hc as [_ Hc].
Qed.

End select_spec.

(** ** The registry *)

Lemma remove_spec t l k : occ t l = 1 -> k = Z.of_nat (length l) -> exists l',
  remove_interruptible t l k = Some (l', Z.of_nat (length l')) /\ forall u, occ u l' = if decide (u = t) then 0 else occ u l.
Proof.
  intros Ho ->. unfold remove_interruptible. case_bool_decide as Hh; [|case_bool_decide as Hl].
  - destruct l as [|x l]; [done|]. injection Hh as ->. exists l. simpl. split; [do 2 f_equal; unfold saturating_sub; lia|].
    intros u. unfold occ in *. simpl in *. unfold is_it in *. repeat case_decide; subst; lia || done.
  - apply last_Some in Hl as [l' ->]. rewrite length_app, take_app_length' by (simpl; lia). exists l'.
    split; [do 2 f_equal; unfold saturating_sub; simpl; lia|]. intros u. rewrite !occ_app in *. unfold occ in *. simpl in *.
    unfold is_it in *. repeat case_decide; subst; lia || done.
  - exists (filter (fun u => u <> t) l).
    assert (Hlen : (length (filter (fun u => u <> t) l) < length l)%nat).
    { assert (Ht : t ∈ l) by (apply occ_elem; lia). clear -Ht. induction Ht as [t l|t x l Ht IH]; rewrite filter_cons.
      - rewrite decide_False by auto. pose proof (length_filter (fun u => u <> t) l). simpl. lia.
      - case_decide; simpl; lia. }
    destruct (Nat.eqb_spec (length (filter (fun u => u <> t) l)) (length l)); [lia|]. split.
    + do 2 f_equal. unfold saturating_sub. lia.
    + intros u. apply occ_filter.
Qed.

(** ** Requests *)

Section requests.
Context (runnable : Z) (n : nat).

Lemma complete_ok y t T s : sched_inv runnable n y -> tasks y !! t = Some T -> s <> Pending ->
  exists rs, complete (requests y) (t_slot T) s = Some rs /\ slots_ok runnable n (<[t := None]> (slots y)) rs.
Proof.
  intros I Ht Hs. pose proof (si_slots _ _ _ I) as [S1 S2]. pose proof (lookup_lt_Some _ _ _ Ht) as Hlt.
  assert (Hsl : slots y !! t = Some (t_slot T)) by (unfold slots; by rewrite list_lookup_fmap, Ht).
  destruct (t_slot T) as [id|] eqn:E; simpl; [|eexists; split; [done|by rewrite list_insert_id]].
  destruct (S1 t id Hsl) as (r & R1 & R2 & R3). rewrite R1. simpl. rewrite R3. eexists. split; [done|].
  pose proof (lookup_lt_Some _ _ _ Hsl). pose proof (lookup_lt_Some _ _ _ R1). split.
  - intros u i Hu. destruct (decide (u = t)) as [->|Hne]; [by rewrite list_lookup_insert_eq in Hu|].
    rewrite list_lookup_insert_ne in Hu by done. destruct (S1 u i Hu) as (r' & Q1 & Q2 & Q3). exists r'.
    rewrite list_lookup_insert_ne; [done|]. intros ->. simplify_eq.
  - intros i r' Hr Hp. destruct (decide (i = id)) as [->|Hne].
    + rewrite list_lookup_insert_eq in Hr by done. injection Hr as <-. done.
    + rewrite list_lookup_insert_ne in Hr by done. destruct (S2 i r' Hr Hp) as [Q1 Q2]. split; [|done].
      rewrite list_lookup_insert_ne; [done|]. intros ->. simplify_eq.
Qed.

Lemma install_ok y t T mask target : sched_inv runnable n y -> tasks y !! t = Some T -> t_slot T = None ->
  target_ok runnable n mask target ->
  slots_ok runnable n (<[t := Some (length (requests y))]> (slots y)) (requests y ++ [mkRequest t mask target Pending]).
Proof.
  intros I Ht Hn Hok. pose proof (si_slots _ _ _ I) as [S1 S2]. pose proof (lookup_lt_Some _ _ _ Ht) as Hlt.
  assert (Hsl : slots y !! t = Some None) by (unfold slots; by rewrite list_lookup_fmap, Ht, <- Hn).
  pose proof (lookup_lt_Some _ _ _ Hsl). split.
  - intros u i Hu. destruct (decide (u = t)) as [->|Hne].
    + rewrite list_lookup_insert_eq in Hu by done. injection Hu as <-. eexists.
      by rewrite lookup_app_r, Nat.sub_diag by lia.
    + rewrite list_lookup_insert_ne in Hu by done. destruct (S1 u i Hu) as (r' & Q1 & Q2 & Q3). exists r'.
      by rewrite (lookup_app_l_Some _ _ _ _ Q1).
  - intros i r Hr Hp. apply lookup_app_Some in Hr as [Hr|[Hi Hr]].
    + destruct (S2 i r Hr Hp) as [Q1 Q2]. split; [|done]. rewrite list_lookup_insert_ne; [done|]. intros ->. congruence.
    + apply list_lookup_singleton_Some in Hr as [Hi' <-]. simpl. rewrite list_lookup_insert_eq by done.
      split; [do 2 f_equal; lia|done].
Qed.

End requests.

(** ** Changes of ownership *)

Lemma occ_one u t : occ u [t] = if decide (t = u) then 1 else 0.
Proof. unfold occ, is_it. simpl. lia. Qed.

Lemma enqueue_occ l front t k u : occ u (c_tasks (enqueue l front t k)) = occ u (c_tasks k) + is_it u t.
Proof. destruct front; simpl; [unfold occ; simpl; lia|]. rewrite occ_app. unfold occ. simpl. lia. Qed.

Section own_moves.
Context (sts : list TaskStatus) (cs : list Cpu) (mv : list nat) (Ho : own sts cs mv).

Lemma in_hand_alone c k t : cs !! c = Some k -> in_hand (c_phase k) = Some t -> exists s, sts !! t = Some s /\
  hand_ok c (c_phase k) s /\ held cs mv t = cpu_holds t k + occ t mv /\
  occ t (c_tasks k) = 0 /\ occ t (c_zombies k) = 0 /\ occ t mv = 0.
Proof.
  intros Hk Hh. pose proof (ow_cpu _ _ _ Ho c k Hk) as [C1 C2 C3 C4 C5]. destruct (C2 t Hh) as (s & Hs & Hok).
  assert (Hc : cpu_holds t k = occ t (c_tasks k) + 1 + occ t (c_zombies k)).
  { unfold cpu_holds. rewrite hand_occ, decide_True by done. lia. }
  pose proof (occ_bounds t (c_tasks k)). pose proof (occ_bounds t (c_zombies k)). pose proof (occ_bounds t mv).
  pose proof (held_only _ _ _ _ _ _ _ Ho Hs Hk ltac:(left; lia)) as Honly.
  pose proof (owned_le _ _ (ow_held _ _ _ Ho t s Hs)). exists s. split_and!; try done; lia.
Qed.

Lemma in_queue_alone c k i t : cs !! c = Some k -> c_tasks k !! i = Some t -> sts !! t = Some (Queued c) /\
  held cs mv t = cpu_holds t k + occ t mv /\ occ t (c_tasks k) = 1 /\
  in_hand (c_phase k) <> Some t /\ occ t (c_zombies k) = 0 /\ occ t mv = 0.
Proof.
  intros Hk Hi. pose proof (ow_cpu _ _ _ Ho c k Hk) as [C1 C2 C3 C4 C5].
  assert (Hocc : 0 < occ t (c_tasks k)) by (apply occ_elem; by eapply list_elem_of_lookup_2).
  pose proof (C1 t Hocc) as Hs. pose proof (occ_bounds t (c_zombies k)). pose proof (occ_bounds t mv).
  assert (Hc : cpu_holds t k = occ t (c_tasks k) + (if decide (in_hand (c_phase k) = Some t) then 1 else 0) + occ t (c_zombies k)).
  { unfold cpu_holds. by rewrite hand_occ. }
  assert (Hpos : 0 < cpu_holds t k) by (case_decide; lia).
  pose proof (held_only _ _ _ _ _ _ _ Ho Hs Hk ltac:(left; lia)) as Honly.
  pose proof (owned_le _ _ (ow_held _ _ _ Ho t _ Hs)).
  split_and!; [done|done|case_decide; lia| |case_decide; lia|case_decide; lia]. intros E. rewrite decide_True in Hc by done. lia.
Qed.

Lemma not_moving t s : sts !! t = Some s -> s <> Migrating -> occ t mv = 0.
Proof.
  intros Hs Hne. pose proof (occ_bounds t mv). destruct (decide (0 < occ t mv)) as [Hp|]; [|lia].
  apply (ow_moves _ _ _ Ho) in Hp. congruence.
Qed.

Lemma unknown_held t : sts !! t = None -> held cs mv t = 0.
Proof.
  intros Hn. unfold held. pose proof (occ_bounds t mv) as Hb.
  destruct (decide (0 < occ t mv)) as [Hp|]; [apply (ow_moves _ _ _ Ho) in Hp; congruence|].
  rewrite zsum_zero; [lia|]. intros k [c Hk]%list_elem_of_lookup.
  pose proof (ow_cpu _ _ _ Ho c k Hk) as [C1 C2 C3 _ _]. unfold cpu_holds. rewrite hand_occ.
  pose proof (occ_bounds t (c_tasks k)). pose proof (occ_bounds t (c_zombies k)).
  destruct (decide (0 < occ t (c_tasks k))) as [Hp|]; [apply C1 in Hp; congruence|].
  destruct (decide (0 < occ t (c_zombies k))) as [Hp|]; [apply C3 in Hp; congruence|].
  case_decide as Hh; [destruct (C2 _ Hh) as (s & Hs & _); congruence|lia].
Qed.

(** Into a queue, from nowhere or from the hands of a mover. *)
Lemma own_enqueue mv' t s c k l front : cs !! c = Some k -> sts !! t = Some s ->
  owned s 0 /\ s <> Zombie \/ 0 < occ t mv -> (forall u, u <> t -> occ u mv' = occ u mv) -> occ t mv' = 0 ->
  own (<[t := Queued c]> sts) (<[c := enqueue l front t k]> cs) mv'.
Proof.
  intros Hk Hs Hfrom Hmv Hmt. pose proof (ow_held _ _ _ Ho t s Hs) as Hh. pose proof (owned_le _ _ Hh) as Hle.
  pose proof (held_pick cs mv t c k Hk) as Hp. pose proof (cpu_holds_nonneg t k) as Hnn. pose proof (occ_bounds t mv) as Hmb.
  assert (H0 : cpu_holds t k = 0).
  { destruct Hfrom as [[H1 H2]|H1]; [|lia]. assert (held cs mv t = 0) by (destruct s; simpl in *; lia || done). lia. }
  pose proof (ow_cpu _ _ _ Ho c k Hk) as [_ _ _ C4 C5]. unfold cpu_holds in H0. rewrite hand_occ in H0.
  pose proof (occ_bounds t (c_tasks k)). pose proof (occ_bounds t (c_zombies k)).
  apply (own_step sts cs mv c k _ t s); [done|done|done| |by left| | |].
  - intros u Hu. rewrite enqueue_occ. unfold is_it. rewrite decide_False by done. rewrite (Hmv u Hu). split_and!; [lia|done|done].
  - apply (held_only sts cs mv t s c k); [done..|]. destruct Hfrom as [Hf|Hf]; [by right|left; lia].
  - assert (E : cpu_holds t (enqueue l front t k) = 1).
    { unfold cpu_holds. rewrite enqueue_occ, hand_occ. unfold is_it. rewrite (decide_True (P := t = t)) by done.
      cbn [enqueue c_phase c_zombies]. lia. }
    split_and!; simpl; [rewrite E; lia|done|intros E'; rewrite decide_True in H0 by done; lia|case_decide; lia|lia].
  - split; simpl; [|done]. destruct front; simpl; rewrite ?length_app; simpl; lia.
Qed.

Lemma dequeue_some l c k i t : cs !! c = Some k -> c_tasks k !! i = Some t ->
  exists k', dequeue l i t k = Some k' /\ c_tasks k' = delete i (c_tasks k) /\ c_phase k' = c_phase k /\
    c_zombies k' = c_zombies k /\ counts_ok k'.
Proof.
  intros Hk Hi. pose proof (ow_cpu _ _ _ Ho c k Hk) as [_ _ _ C4 C5]. pose proof (lookup_lt_Some _ _ _ Hi).
  unfold dequeue. destruct (Z.ltb_spec (c_running k) 1); [lia|]. eexists. split_and!; [done..|].
  split; simpl; [|done]. rewrite length_delete by eauto. lia.
Qed.

(** Out of a queue. *)
Lemma own_dequeue c k k' i t s' mv' p : cs !! c = Some k -> c_tasks k !! i = Some t ->
  c_tasks k' = delete i (c_tasks k) -> c_phase k' = p -> c_zombies k' = c_zombies k -> counts_ok k' ->
  (p = c_phase k /\ s' = Migrating /\ (forall u, occ u mv' = occ u mv + is_it u t) \/
   in_hand (c_phase k) = None /\ in_hand p = Some t /\ hand_ok c p s' /\ owned s' 1 /\ (forall u, occ u mv' = occ u mv)) ->
  own (<[t := s']> sts) (<[c := k']> cs) mv'.
Proof.
  intros Hk Hi E1 E2 E3 Hc Hto. destruct (in_queue_alone c k i t Hk Hi) as (Hs & Honly & Q1 & Q2 & Q3 & Q4).
  assert (Hd : occ t (c_tasks k') = 0).
  { rewrite E1, (occ_delete _ _ t) by done. unfold is_it. rewrite decide_True by done. lia. }
  assert (Hh : cpu_holds t k' = if decide (in_hand p = Some t) then 1 else 0).
  { unfold cpu_holds. rewrite hand_occ, Hd, E3, E2. lia. }
  apply (own_step sts cs mv c k _ t (Queued c)); [done..| | |done| |done].
  - intros u Hu. rewrite E1, E3, (occ_delete _ _ t) by done.
    assert (Hit : is_it u t = 0) by (unfold is_it; by rewrite decide_False). rewrite Hit.
    split_and!; [lia|done|]. destruct Hto as [(_ & _ & Hmv)|(_ & _ & _ & _ & Hmv)]; rewrite Hmv; lia.
  - rewrite E2. destruct Hto as [(-> & _)|(H1 & H2 & _)]; [by left|right; by split; [left|right]].
  - unfold place_ok. rewrite Hh, Hd, E2, E3, Q3.
    destruct Hto as [(-> & -> & Hmv)|(H1 & H2 & H3 & H4 & Hmv)]; rewrite Hmv, Q4.
    + rewrite decide_False by done. unfold is_it. rewrite decide_True by done. split_and!; simpl; lia || done.
    + rewrite decide_True by done. split_and!; [done|lia|done|lia|lia].
Qed.

(** Out of the hand of a processor. *)
Lemma own_release c k k' t s' mv' : cs !! c = Some k -> in_hand (c_phase k) = Some t -> c_tasks k' = c_tasks k ->
  in_hand (c_phase k') = None -> counts_ok k' ->
  (s' = Migrating /\ c_zombies k' = c_zombies k /\ (forall u, occ u mv' = occ u mv + is_it u t) \/
   s' = Blocked /\ c_zombies k' = c_zombies k /\ mv' = mv \/
   s' = Zombie /\ c_zombies k' = c_zombies k ++ [t] /\ mv' = mv) ->
  own (<[t := s']> sts) (<[c := k']> cs) mv'.
Proof.
  intros Hk Hh E1 E2 Hc Hto. destruct (in_hand_alone c k t Hk Hh) as (s & Hs & Hok & Honly & Q1 & Q2 & Q3).
  assert (Hh' : cpu_holds t k' = occ t (c_zombies k')).
  { unfold cpu_holds. rewrite hand_occ, E1, E2, Q1. case_decide; [done|lia]. }
  apply (own_step sts cs mv c k _ t s); [done..| | |done| |done].
  - intros u Hu. rewrite E1. assert (Hit : is_it u t = 0) by (unfold is_it; by rewrite decide_False by done).
    destruct Hto as [(-> & -> & Hmv)|[(-> & -> & ->)|(-> & -> & ->)]]; [rewrite Hmv, Hit; split_and!; lia|done|].
    rewrite occ_app, occ_one, decide_False by done. split_and!; lia.
  - right. split; [by right|by left].
  - unfold place_ok. rewrite Hh', E1, E2, Q1.
    destruct Hto as [(-> & -> & Hmv)|[(-> & -> & ->)|(-> & -> & ->)]]; rewrite ?Hmv, ?occ_app, ?occ_one, ?Q2, ?Q3.
    + unfold is_it. rewrite decide_True by done. split_and!; simpl; lia || done.
    + split_and!; simpl; lia || done.
    + rewrite decide_True by done. split_and!; simpl; lia || done.
Qed.

(** Into the hand of an idle processor. *)
Lemma own_grab c k t mv' : cs !! c = Some k -> in_hand (c_phase k) = None -> sts !! t = Some Migrating -> 0 < occ t mv ->
  (forall u, u <> t -> occ u mv' = occ u mv) -> occ t mv' = 0 ->
  own sts (<[c := with_phase (Stolen t) k]> cs) mv'.
Proof.
  intros Hk Hi Hs Hm Hmv Hmt. rewrite <- (list_insert_id sts t Migrating Hs).
  pose proof (held_only _ _ _ _ _ _ _ Ho Hs Hk) as Honly. pose proof (owned_le _ _ (ow_held _ _ _ Ho t _ Hs)) as Hle.
  pose proof (cpu_holds_nonneg t k) as Hnn. rewrite Honly in Hle by (left; lia).
  assert (H0 : cpu_holds t k = 0) by lia. unfold cpu_holds in H0. rewrite hand_occ, Hi in H0.
  pose proof (occ_bounds t (c_tasks k)). pose proof (occ_bounds t (c_zombies k)).
  rewrite decide_False in H0 by done. pose proof (ow_cpu _ _ _ Ho c k Hk) as [_ _ _ C4 C5].
  apply (own_step sts cs mv c k _ t Migrating); [done..| | | | |done].
  - intros u Hu. split_and!; [done..|by apply Hmv].
  - right. split; [by left|by right].
  - apply Honly. left. lia.
  - unfold place_ok, cpu_holds. rewrite hand_occ, Hmt, decide_True by done. simpl. split_and!; lia || done.
Qed.

(** The task stays in the hand of its processor. *)
Lemma own_phase c k p t s s' : cs !! c = Some k -> in_hand (c_phase k) = Some t -> in_hand p = Some t ->
  sts !! t = Some s -> hand_ok c p s' -> owned s' 1 -> own (<[t := s']> sts) (<[c := with_phase p k]> cs) mv.
Proof.
  intros Hk Hh Hp Hs Hok How. destruct (in_hand_alone c k t Hk Hh) as (s1 & Hs1 & _ & Honly & Q1 & Q2 & Q3). simplify_eq.
  pose proof (ow_cpu _ _ _ Ho c k Hk) as [_ _ _ C4 C5].
  apply (own_step sts cs mv c k _ t s); [done..| |done| |done].
  - right. split; by right.
  - unfold place_ok, cpu_holds. simpl. rewrite hand_occ, Hp, decide_True, Q1, Q2, Q3 by done. split_and!; lia || done.
Qed.

End own_moves.

(** ** The operations *)

Section ops.
Context (runnable : Z) (n : nat).
Abbreviation inv := (sched_inv runnable n).
Implicit Types (y : Sys) (T : Task) (k : Cpu).

(** A task without a migration target need not be parked. *)
Ltac no_mig H := simpl; rewrite ?H; intros []; done.

Lemma enqueue_some y t T from cpu front : length (cpus y) = n -> allowed_on n (t_allowed T) cpu -> t_status T = from ->
  exists k, cpus y !! cpu = Some k /\ enqueue_task y t T from cpu front =
    Some (put y t (with_status (Queued cpu) T) cpu (enqueue (tasks y) front t k)).
Proof.
  intros Hn Ha Hs. unfold enqueue_task, ncpu. rewrite Hn. unfold allowed_on in Ha. rewrite Ha. simpl.
  assert (Hlt : (cpu < length (cpus y))%nat).
  { unfold cpu_allowed in Ha. apply andb_true_iff in Ha as [Ha _]. apply Nat.ltb_lt in Ha. lia. }
  destruct (lookup_lt_is_Some_2 _ _ Hlt) as [k Hk]. rewrite Hk. simpl. unfold transition. rewrite decide_True by done. eauto.
Qed.

Lemma transition_ok T s s' : t_status T = s -> transition T s s' = Some (with_status s' T).
Proof. intros H. unfold transition. by rewrite decide_True. Qed.

Lemma sched_create_ok y mask nice vr : inv y -> inv (create runnable y mask nice vr).
Proof.
  intros I. pose proof I as [I0 I1 I2 I3 I4 I5 I6 I7]. unfold create, ncpu. rewrite I0.
  destruct (valid_mask _ _ _) eqn:Hv; [|done]. set (T := mkTask New mask None None None nice vr).
  assert (Hold : forall u U, tasks y !! u = Some U -> (tasks y ++ [T]) !! u = Some U) by (intros; by apply lookup_app_l_Some).
  assert (Hst : forall u s, statuses y !! u = Some s -> (t_status <$> tasks y ++ [T]) !! u = Some s).
  { intros u s Hs. rewrite fmap_app. by apply lookup_app_l_Some. }
  assert (Hfresh : held (cpus y) (mv_task <$> moves y) (length (tasks y)) = 0).
  { apply (unknown_held _ _ _ I1). apply lookup_ge_None_2. unfold statuses. by rewrite length_fmap. }
  assert (Hnew : forall u s, (t_status <$> tasks y ++ [T]) !! u = Some s -> statuses y !! u = Some s \/ u = length (tasks y) /\ s = New).
  { intros u s Hs. rewrite fmap_app in Hs. apply lookup_app_Some in Hs as [Hs|[Hu Hs]]; [by left|right].
    apply list_lookup_singleton_Some in Hs as [Hu' <-]. rewrite length_fmap in *. split; [lia|done]. }
  split; simpl; unfold statuses, slots; simpl; try done.
  - destruct I1 as [O1 O2 O3]. split.
    + intros u s [Hs|[-> ->]]%Hnew; [by apply O1|done].
    + intros c k Hk. destruct (O2 c k Hk) as [C1 C2 C3 C4 C5]. split; [auto| |auto|done|done].
      intros u Hu. destruct (C2 u Hu) as (s & Hs & Hok). eauto.
    + intros u Hu. by apply Hst, O3.
  - intros u. rewrite (I2 u). unfold asleep. destruct (statuses y !! u) as [s|] eqn:E; [by rewrite (Hst u s E)|].
    destruct ((t_status <$> tasks y ++ [T]) !! u) as [s|] eqn:E'; [|done].
    apply Hnew in E' as [E'|[-> ->]]; [congruence|]. simpl. rewrite bool_decide_false; [done|]. intros Hm.
    rewrite Hm in I4. destruct I4 as (U & HU & _). apply lookup_lt_Some in HU. lia.
  - destruct (mgr y) as [|u|u c]; [done| |]; naive_solver.
  - intros u U [HU|[Hu HU]]%lookup_app_Some; [by apply I5|]. apply list_lookup_singleton_Some in HU as [_ <-].
    split; [by repeat split|]. split; [by intros []|]. intros c k Hk Hp.
    destruct (co_hand _ _ _ (ow_cpu _ _ _ I1 c k Hk) u) as (s & Hs & _); [by rewrite Hp|].
    apply lookup_lt_Some in Hs. unfold statuses in Hs. rewrite length_fmap in Hs. lia.
  - destruct I7 as [S1 S2]. rewrite fmap_app. split.
    + intros u id [Hs|[Hu Hs]]%lookup_app_Some; [by apply S1|]. apply list_lookup_singleton_Some in Hs as [_ Hs]. done.
    + intros id r Hr Hp. destruct (S2 id r Hr Hp) as [Q1 Q2]. split; [by apply lookup_app_l_Some|done].
Qed.

Lemma publish_ok y t load pref : inv y -> exists y', publish runnable y t load pref = Some y' /\ inv y'.
Proof.
  intros I. unfold publish, ncpu. rewrite (si_ncpu _ _ _ I). destruct (tasks y !! t) as [T|] eqn:Ht; [|eauto].
  case_decide as Hs; [|eauto]. destruct (si_task _ _ _ I t T Ht) as [Hok _]. unfold task_ok in Hok. rewrite Hs in Hok.
  destruct Hok as (Hv & Hmig & Hsl). destruct (select_new_ok runnable n load (t_allowed T) pref Hv) as (cpu & -> & Ha). simpl.
  destruct (enqueue_some y t T New cpu false (si_ncpu _ _ _ I) Ha Hs) as (k & Hk & ->). eexists. split; [done|].
  pose proof (status_lookup _ _ _ Ht) as Hst. rewrite Hs in Hst. unfold put.
  apply (inv_quiet runnable n y t T _ cpu k);
    [done..| |by left|by rewrite Hs|by rewrite Hs|done|by repeat split|done|no_mig Hmig|apply I].
  eapply own_enqueue; [apply I|done..| |done|]; [by left|]. by eapply not_moving; [apply I|done|].
Qed.

Lemma scan_best_lt l q : forall index best key, (best < index)%nat -> (scan_best l index best key q < index + length q)%nat.
Proof.
  induction q as [|t q IH]; intros index best key Hb; simpl; [lia|]. destruct (key_lt _ _).
  - specialize (IH (S index) index (pick_key l t) ltac:(lia)). lia.
  - specialize (IH (S index) best key ltac:(lia)). lia.
Qed.

Lemma pick_some l k i : pick l k = Some i -> exists t, c_tasks k !! i = Some t.
Proof.
  unfold pick. destruct (c_tasks k) as [|t q] eqn:E; [done|]. intros H. apply lookup_lt_is_Some_2. simpl.
  destruct (_ =? 0); injection H as <-; [lia|]. pose proof (scan_best_lt l q 1 0 (pick_key l t)). lia.
Qed.

Lemma queued_task y c k i t : inv y -> cpus y !! c = Some k -> c_tasks k !! i = Some t ->
  exists T, tasks y !! t = Some T /\ t_status T = Queued c /\ task_ok runnable n T.
Proof.
  intros I Hk Hi. destruct (in_queue_alone _ _ _ (si_own _ _ _ I) c k i t Hk Hi) as (Hs & _).
  unfold statuses in Hs. rewrite list_lookup_fmap in Hs. destruct (tasks y !! t) as [T|] eqn:Ht; [|done].
  injection Hs as Hs. exists T. split_and!; [done|done|by apply (si_task _ _ _ I t)].
Qed.

Lemma fetch_ok y c k : inv y -> cpus y !! c = Some k -> c_phase k = Idle -> exists y', fetch y c k = Some y' /\ inv y'.
Proof.
  intros I Hk Hph. unfold fetch. destruct (pick (tasks y) k) as [i|] eqn:Ep; [|eauto].
  apply pick_some in Ep as [t Hi]. rewrite Hi. simpl. destruct (queued_task y c k i t I Hk Hi) as (T & Ht & Hs & Hok).
  rewrite Ht. simpl. destruct (dequeue_some _ _ _ (si_own _ _ _ I) (tasks y) c k i t Hk Hi) as (k' & -> & D1 & D2 & D3 & D4).
  simpl. rewrite (transition_ok T (Queued c)) by done. simpl. eexists. split; [done|]. unfold put.
  unfold task_ok in Hok. rewrite Hs in Hok. destruct Hok as (Hv & Ha & Hmig & Hsl).
  pose proof (status_lookup _ _ _ Ht) as Hst. rewrite Hs in Hst.
  apply (inv_quiet runnable n y t T _ c k); [done..| | |by rewrite Hs|by rewrite Hs|done| |done|no_mig Hmig|apply I].
  - apply (own_dequeue _ _ _ (si_own _ _ _ I) c k _ i t _ _ (Claimed t)); try done. right. by rewrite Hph.
  - rewrite Hph. right. split; [by left|by right].
  - split; [done|]. simpl. rewrite Hmig. by split; [|left].
Qed.

Lemma hand_task y c k t : inv y -> cpus y !! c = Some k -> in_hand (c_phase k) = Some t ->
  exists T, tasks y !! t = Some T /\ hand_ok c (c_phase k) (t_status T) /\ task_ok runnable n T /\ parked n (cpus y) t T.
Proof.
  intros I Hk Hh. destruct (in_hand_alone _ _ _ (si_own _ _ _ I) c k t Hk Hh) as (s & Hs & Hok & _).
  unfold statuses in Hs. rewrite list_lookup_fmap in Hs. destruct (tasks y !! t) as [T|] eqn:Ht; [|done].
  injection Hs as <-. exists T. split_and!; [done|done|by apply (si_task _ _ _ I t)..].
Qed.

(** A task that executes has no migration target. *)
Lemma current_task y c k t : inv y -> cpus y !! c = Some k -> c_phase k = Current t \/ c_phase k = Claimed t ->
  exists T, tasks y !! t = Some T /\ t_status T = Running c /\ t_mig T = None /\ task_ok runnable n T.
Proof.
  intros I Hk Hp. assert (Hh : in_hand (c_phase k) = Some t) by (by destruct Hp as [->| ->]).
  destruct (hand_task y c k t I Hk Hh) as (T & Ht & Hok & HT & Hpk). exists T.
  assert (Hs : t_status T = Running c) by (destruct Hp as [Hp|Hp]; by rewrite Hp in Hok). split_and!; try done.
  destruct (t_mig T) eqn:Em; [|done]. destruct (pk_mig _ _ _ _ Hpk) as (c1 & k1 & K1 & K2 & K3); [by rewrite Em|].
  assert (c1 = c) as -> by congruence. rewrite Hk in K2. injection K2 as <-. destruct Hp, K3; congruence.
Qed.

Lemma last_index_some p l : forall i j, last_index p i l = Some j ->
  exists t, (i <= j)%nat /\ l !! (j - i)%nat = Some t /\ p t = true.
Proof.
  induction l as [|x l IH]; intros i j; simpl; [done|]. destruct (last_index p (S i) l) as [m|] eqn:E.
  - intros [= ->]. destruct (IH (S i) j E) as (t & H1 & H2 & H3). exists t. split; [lia|].
    by replace (j - i)%nat with (S (j - S i)) by lia.
  - destruct (p x) eqn:Ex; [|done]. intros [= ->]. exists x. by rewrite Nat.sub_diag.
Qed.

Lemma steal_ok y c victim k kv : inv y -> c <> victim -> cpus y !! c = Some k -> cpus y !! victim = Some kv ->
  c_phase k = Idle -> exists y', steal y c victim k kv = Some y' /\ inv y'.
Proof.
  intros I Hne Hk Hkv Hph. unfold steal. destruct (last_index _ _ _) as [i|] eqn:Ei; [|eauto].
  apply last_index_some in Ei as (t & _ & Hi & Hcan). rewrite Nat.sub_0_r in Hi. rewrite Hi. simpl.
  destruct (queued_task y victim kv i t I Hkv Hi) as (T & Ht & Hs & Hok). rewrite Ht. simpl.
  unfold stealable, ncpu in Hcan. rewrite Ht, (si_ncpu _ _ _ I) in Hcan. apply andb_true_iff in Hcan as [Hcan _].
  rewrite (transition_ok T (Queued victim)) by done. simpl.
  destruct (dequeue_some _ _ _ (si_own _ _ _ I) (tasks y) victim kv i t Hkv Hi) as (k' & -> & D1 & D2 & D3 & D4). simpl.
  eexists. split; [done|]. unfold put_cpu, put. simpl. unfold task_ok in Hok. rewrite Hs in Hok.
  destruct Hok as (Hv & Ha & Hmig & Hsl). pose proof (status_lookup _ _ _ Ht) as Hst. rewrite Hs in Hst.
  assert (Hk' : <[victim := k']> (cpus y) !! c = Some k) by (by rewrite list_lookup_insert_ne).
  assert (Hm0 : occ t (mv_task <$> moves y) = 0) by (by eapply not_moving; [apply I|done|]).
  assert (Hin : <[t := Migrating]> (statuses y) !! t = Some Migrating)
    by (apply list_lookup_insert_eq; by apply lookup_lt_Some in Hst).
  eapply (inv_step_gen runnable n y t T); [done|done| | | | |apply I| | | |apply I|exact (slots_keep _ _ y t T I Ht)].
  - rewrite !length_insert. apply I.
  - eapply (own_grab _ _ ((mv_task <$> moves y) ++ [t])); [|done|by rewrite Hph|done| | |done].
    + apply (own_dequeue _ _ _ (si_own _ _ _ I) victim kv _ i t _ _ (c_phase kv)); try done. left. split_and!; try done.
      intros u. rewrite occ_app. unfold occ. simpl. lia.
    + rewrite occ_app, occ_one, decide_True by done. lia.
    + intros u Hu. rewrite occ_app, occ_one, decide_False by done. lia.
  - intros u U Hu Hpk. eapply (parked_keep _ _ c k _ t); [done| |done|].
    + rewrite Hph. right. split; [by left|by right].
    + eapply (parked_keep _ _ victim kv _ t); [done|by left|done|done].
  - by eapply reg_keep; [apply I|done|].
  - eapply mgr_keep; [apply I|done|by rewrite Hs|done].
  - by split.
  - split; [no_mig Hmig|]. intros c1 k1 K1 K2. destruct (decide (c1 = c)) as [->|Hc]; [exact Hcan|].
    exfalso. rewrite list_lookup_insert_ne in K1 by done. destruct (decide (c1 = victim)) as [->|Hc'].
    + rewrite list_lookup_insert_eq in K1 by (by apply lookup_lt_Some in Hkv). injection K1 as <-. rewrite D2 in K2.
      by eapply (not_stolen _ _ _ t); [apply I|done| |exact Hkv|exact K2].
    + rewrite list_lookup_insert_ne in K1 by done. by eapply (not_stolen _ _ _ t); [apply I|done| |exact K1|exact K2].
Qed.

End ops.
