(* ===== verification/SchedSafe.v ===== *)
(** The scheduler never fails an ownership check, and every task has one owner. *)

From stdpp Require Import base numbers option list.
From S2P Require Import Prelude Sched SchedInv SchedSteps.

Section ops.
Context (runnable : Z) (n : nat).
Abbreviation inv := (sched_inv runnable n).
Implicit Types (y : Sys) (T : Task) (k : Cpu).

Ltac no_mig H := simpl; rewrite ?H; intros []; done.

Lemma stolen_step y c k t : inv y -> cpus y !! c = Some k -> c_phase k = Stolen t ->
  exists y', stolen y c t k = Some y' /\ inv y'.
Proof.
  intros I Hk Hph. destruct (hand_task runnable n y c k t I Hk) as (T & Ht & Hok & HT & Hpk); [by rewrite Hph|].
  rewrite Hph in Hok. simpl in Hok. unfold stolen. rewrite Ht. simpl. rewrite (transition_ok T Migrating) by done. simpl.
  eexists. split; [done|]. unfold put. pose proof (pk_stolen _ _ _ _ Hpk c k Hk Hph) as Ha.
  unfold task_ok in HT. rewrite Hok in HT. destruct HT as (Hv & Hmig & Hsl). pose proof (status_lookup _ _ _ Ht) as Hst.
  apply (inv_quiet runnable n y t T _ c k); [done..| | |by rewrite Hok|by rewrite Hok|done| |done|no_mig Hmig|apply I].
  - by eapply (own_phase _ _ _ (si_own _ _ _ I) c k (Claimed t) t); [done|by rewrite Hph|..].
  - rewrite Hph. right. split; by right.
  - split; [done|]. simpl. rewrite Hmig. by split; [|left].
Qed.

(** A phase that only moves the task along on its processor. *)
Lemma phase_step y c k t p : inv y -> cpus y !! c = Some k -> in_hand (c_phase k) = Some t -> in_hand p = Some t ->
  (forall T, tasks y !! t = Some T -> hand_ok c p (t_status T)) -> p <> Stolen t ->
  (c_phase k = Parking t -> p = Leaving t) -> (c_phase k = Leaving t -> p = Leaving t) ->
  inv (put_cpu y c (with_phase p k)).
Proof.
  intros I Hk Hh Hp Hok Hns Hp1 Hp2. destruct (hand_task runnable n y c k t I Hk Hh) as (T & Ht & Hok0 & HT & Hpk).
  pose proof (status_lookup _ _ _ Ht) as Hst. unfold put_cpu. rewrite <- (list_insert_id (tasks y) t T Ht) at 1.
  eapply (inv_step_gen runnable n y t T); [done|done| | | | |apply I| | | |apply I|exact (slots_keep _ _ y t T I Ht)].
  - rewrite length_insert. apply I.
  - eapply own_phase; [apply I|done|done|done|done|by apply Hok|]. specialize (Hok T Ht).
    pose proof (ow_held _ _ _ (si_own _ _ _ I) t _ Hst) as How. destruct (t_status T); try done; destruct p; simpl in *; naive_solver.
  - apply (parked_keep _ _ _ k); [done|]. right. split; by right.
  - rewrite list_insert_id by done. apply I.
  - rewrite list_insert_id by done. apply I.
  - done.
  - destruct Hpk as [K1 K2]. split.
    + intros Hmig. destruct (K1 Hmig) as (c1 & k1 & J1 & J2 & J3).
      destruct (in_hand_alone _ _ _ (si_own _ _ _ I) c1 k1 t J2) as (s1 & S1 & S2 & _); [by destruct J3 as [-> | ->]|].
      assert (c1 = c) as ->. { specialize (Hok T Ht). rewrite J1 in Hok. destruct p; simpl in Hok; naive_solver. }
      simplify_eq. exists c, (with_phase p k). rewrite list_lookup_insert_eq by (by apply lookup_lt_Some in Hk).
      split_and!; [done..|]. simpl. right. destruct J3; auto.
    + intros c1 k1 J1 J2. destruct (decide (c1 = c)) as [->|Hc].
      * rewrite list_lookup_insert_eq in J1 by (by apply lookup_lt_Some in Hk). injection J1 as <-. done.
      * rewrite list_lookup_insert_ne in J1 by done. by apply (K2 c1 k1).
Qed.

Lemma begin_sleep_ok y c k t : inv y -> mgr y = Free -> cpus y !! c = Some k -> c_phase k = Current t ->
  exists y', begin_sleep y c t k = Some y' /\ inv y'.
Proof.
  intros I Hf Hk Hph. destruct (current_task runnable n y c k t I Hk ltac:(by left)) as (T & Ht & Hs & Hmig & HT).
  unfold begin_sleep. rewrite Ht. simpl. rewrite (transition_ok T (Running c)) by done. simpl.
  destruct (complete_ok runnable n y t T Retry I Ht ltac:(done)) as (rs & -> & Hrs). simpl. eexists. split; [done|].
  unfold task_ok in HT. rewrite Hs, Hmig in HT. destruct HT as (Hv & Ha & _). pose proof (status_lookup _ _ _ Ht) as Hst.
  unfold with_requests, with_registry, put. simpl.
  apply (inv_step runnable n y t T _ c k); [done..| | | | | | |done|no_mig Hmig|apply I|done].
  - eapply own_phase; [apply I|done|by rewrite Hph|done|done|by right; left|done].
  - rewrite Hph. right. split; by right.
  - intros u. rewrite occ_app, occ_one, (si_reg _ _ _ I u), Hf. unfold asleep. destruct (decide (u = t)) as [->|Hne].
    + rewrite list_lookup_insert_eq by (by apply lookup_lt_Some in Hst). rewrite Hst, Hs. simpl.
      rewrite decide_True by done. lia.
    + rewrite list_lookup_insert_ne by done. rewrite decide_False by done. lia.
  - rewrite length_app, (si_count _ _ _ I). simpl. lia.
  - by rewrite Hf.
  - by repeat split.
Qed.

Lemma exit_ok y c k t : inv y -> cpus y !! c = Some k -> c_phase k = Current t -> exists y', exit y c t k = Some y' /\ inv y'.
Proof.
  intros I Hk Hph. destruct (current_task runnable n y c k t I Hk ltac:(by left)) as (T & Ht & Hs & Hmig & HT).
  unfold exit. rewrite Ht. simpl. rewrite (transition_ok T (Running c)) by done. simpl.
  destruct (complete_ok runnable n y t T Retry I Ht ltac:(done)) as (rs & -> & Hrs). simpl. eexists. split; [done|].
  destruct HT as [Hv _]. pose proof (status_lookup _ _ _ Ht) as Hst. unfold with_requests, put. simpl.
  apply (inv_step runnable n y t T _ c k); [done..| | | |apply I| | |done|no_mig Hmig|apply I|done].
  - eapply own_phase; [apply I|done|by rewrite Hph|done|done|by do 2 right|simpl; lia].
  - rewrite Hph. right. split; by right.
  - eapply reg_keep; [apply I|done|]. by rewrite Hs.
  - eapply mgr_keep; [apply I|done|by rewrite Hs|done].
  - by repeat split.
Qed.

Lemma cpu_in_range y c k : inv y -> cpus y !! c = Some k -> (c < n)%nat.
Proof. intros I Hk. apply lookup_lt_Some in Hk. pose proof (si_ncpu _ _ _ I). lia. Qed.

Lemma allowed_bit mask c : (c < n)%nat -> cpu_bit mask c = true -> allowed_on n mask c.
Proof. intros Hc Hb. unfold allowed_on, cpu_allowed. rewrite Hb. by destruct (Nat.ltb_spec c n); [|lia]. Qed.

Lemma affinity_ok y c k t mask load : inv y -> valid runnable n mask -> cpus y !! c = Some k -> c_phase k = Current t ->
  exists y', set_current_affinity runnable y c t k mask load = Some y' /\ inv y'.
Proof.
  intros I Hv Hk Hph. destruct (current_task runnable n y c k t I Hk ltac:(by left)) as (T & Ht & Hs & Hmig & HT).
  unfold set_current_affinity, ncpu. rewrite Ht, (si_ncpu _ _ _ I). simpl. rewrite !bool_decide_true by done. simpl.
  destruct (complete_ok runnable n y t T Retry I Ht ltac:(done)) as (rs & -> & Hrs). simpl.
  pose proof (status_lookup _ _ _ Ht) as Hst. pose proof (cpu_in_range y c k I Hk) as Hc.
  destruct (cpu_bit mask c) eqn:Hb.
  - eexists. split; [done|]. unfold with_requests, put_task. simpl.
    apply (inv_task runnable n y t T); [done|done|done|done| |left; by rewrite Hs|apply I| |done].
    + split; [done|]. simpl. rewrite Hs, Hmig. split; [by apply allowed_bit|by left].
    + eapply mgr_keep; [apply I|done|by rewrite Hs|done].
  - destruct (select_ok runnable n load mask None Hv) as (target & -> & Ha). simpl. eexists. split; [done|].
    unfold with_requests, put. simpl.
    apply (inv_step runnable n y t T _ c k); [done..| | | |apply I| | |simpl; by rewrite Hs| |apply I|done].
    + simpl. rewrite Hs. eapply own_phase; [apply I|done|by rewrite Hph|done|done|by left|done].
    + rewrite Hph. right. split; by right.
    + by eapply reg_keep; [apply I|done|].
    + eapply mgr_keep; [apply I|done|by rewrite Hs|done].
    + split; [done|]. simpl. rewrite Hs. split; [done|by left].
    + intros _. simpl. split; [done|by left].
Qed.

Lemma requeue_ok y c k t T T' target rs : inv y -> cpus y !! c = Some k -> c_phase k = Leaving t -> tasks y !! t = Some T ->
  t_status T = Running c -> t_status T' = Running c -> t_mig T' = None -> t_slot T' = None ->
  target_ok runnable n (t_allowed T') target -> slots_ok runnable n (<[t := None]> (slots y)) rs ->
  exists k', let y1 := put (put_cpu y c (with_phase Idle k)) t (with_status (Queued target) T') target
                         (enqueue (tasks y) false t k') in
    enqueue_task (put_cpu y c (with_phase Idle k)) t T' (Running c) target false = Some y1 /\ inv (with_requests y1 rs).
Proof.
  intros I Hk Hph Ht Hs Hs' Hmig Hsl [Hv Ha] Hrs. pose proof (status_lookup _ _ _ Ht) as Hst.
  destruct (enqueue_some n (put_cpu y c (with_phase Idle k)) t T' (Running c) target false) as (k' & Hk' & ->);
    [simpl; rewrite length_insert; apply I|done|done|]. exists k'. split; [done|]. unfold with_requests, put. simpl in *.
  set (mv := mv_task <$> moves y) in *. pose proof (ow_cpu _ _ _ (si_own _ _ _ I) c k Hk) as [_ _ _ C4 C5].
  assert (O1 : own (<[t := Migrating]> (statuses y)) (<[c := with_phase Idle k]> (cpus y)) (mv ++ [t])).
  { eapply own_release; [apply I|done|by rewrite Hph|done|done|done|]. left. split_and!; try done.
    intros u. rewrite occ_app. unfold occ at 2. simpl. subst mv. lia. }
  assert (Hmv0 : occ t mv = 0) by (eapply not_moving; [apply I|done|by rewrite Hs]).
  assert (O2 : own (<[t := Queued target]> (statuses y))
    (<[target := enqueue (tasks y) false t k']> (<[c := with_phase Idle k]> (cpus y))) mv).
  { rewrite <- (list_insert_insert_eq (statuses y) t (Queued target) Migrating).
    eapply own_enqueue; [apply O1|done|apply list_lookup_insert_eq; by apply lookup_lt_Some in Hst| | |done].
    - right. rewrite occ_app, occ_one, decide_True by done. lia.
    - intros u Hu. rewrite occ_app, occ_one, decide_False by done. lia. }
  eapply (inv_step_gen runnable n y t T); [done|done| |exact O2| | |apply I| | | |apply I|simpl; by rewrite Hsl].
  - rewrite !length_insert. apply I.
  - intros u U Hu Hpk. eapply (parked_keep _ _ target k' _ t); [done|by left|done|].
    eapply (parked_keep _ _ c k _ t); [done| |done|done]. rewrite Hph. right. split; [by right|by left].
  - eapply reg_keep; [apply I|done|]. by rewrite Hs.
  - eapply mgr_keep; [apply I|done|by rewrite Hs|done].
  - by repeat split.
  - split; [no_mig Hmig|]. intros c1 k1 K1 K2. exfalso. eapply (not_stolen _ _ _ t (Queued target)); [exact O2| |done|exact K1|exact K2].
    apply list_lookup_insert_eq. by apply lookup_lt_Some in Hst.
Qed.

Lemma switch_out_ok y c k t : inv y -> cpus y !! c = Some k -> c_phase k = Leaving t ->
  exists y', finish_switch_out runnable y c t k = Some y' /\ inv y'.
Proof.
  intros I Hk Hph. destruct (hand_task runnable n y c k t I Hk) as (T & Ht & Hok & HT & Hpk); [by rewrite Hph|].
  rewrite Hph in Hok. simpl in Hok. unfold finish_switch_out, ncpu. rewrite Ht, (si_ncpu _ _ _ I). simpl.
  pose proof (status_lookup _ _ _ Ht) as Hst. pose proof (ow_cpu _ _ _ (si_own _ _ _ I) c k Hk) as [_ _ _ C4 C5].
  assert (Hphm : forall k', in_hand (c_phase k') = None -> phase_moves t (c_phase k) (c_phase k')).
  { intros k' Hn. rewrite Hph. right. split; [by right|by left]. }
  destruct Hok as [Hs|[Hs|Hs]]; rewrite Hs; rewrite ?Nat.eqb_refl; simpl.
  - unfold task_ok in HT. rewrite Hs in HT. destruct HT as (Hv & Ha & Hor). destruct (t_slot T) as [id|] eqn:Hsl.
    + assert (Hmig : t_mig T = None) by naive_solver. rewrite Hmig. simpl.
      assert (Hslot : slots y !! t = Some (Some id)) by (unfold slots; by rewrite list_lookup_fmap, Ht, <- Hsl).
      destruct (so_slot _ _ _ _ (si_slots _ _ _ I) t id Hslot) as (r & R1 & R2 & R3). rewrite R1. simpl.
      destruct (so_pending _ _ _ _ (si_slots _ _ _ I) id r R1 R3) as [_ [V1 V2]]. unfold valid in V1. rewrite V1. simpl.
      destruct (complete_ok runnable n y t T Applied I Ht ltac:(done)) as (rs & Ec & Hrs).
      rewrite Hsl in Ec. simpl in Ec. rewrite R1 in Ec. simpl in Ec. rewrite R3 in *. injection Ec as <-. simpl.
      destruct (requeue_ok y c k t T (with_slot None (with_allowed (rq_mask r) T)) (rq_target r)
        (<[id := mkRequest (rq_task r) (rq_mask r) (rq_target r) Applied]> (requests y))) as (k' & -> & I1); try done.
      simpl. eauto.
    + destruct (requeue_ok y c k t T (with_mig None T) (default c (t_mig T)) (requests y)) as (k' & -> & I1); try done.
      { rewrite <- Hsl. by apply (slots_keep runnable n). }
      eexists. split; [done|]. exact I1.
  - unfold task_ok in HT. rewrite Hs in HT. destruct HT as (Hv & Ha & Hmig & Hsl). eexists. split; [done|]. unfold put.
    apply (inv_quiet runnable n y t T _ c k);
      [done..| |by apply Hphm|by rewrite Hs|by rewrite Hs|done|by repeat split|done|no_mig Hmig|apply I].
    eapply own_release; [apply I|done|by rewrite Hph|done|done|done|]. right. by left.
  - unfold task_ok in HT. rewrite Hs in HT. destruct HT as (Hv & Hmig & Hsl). eexists. split; [done|]. unfold put.
    apply (inv_quiet runnable n y t T _ c k);
      [done..| |by apply Hphm|done|by rewrite Hs|done| |simpl; by rewrite Hs|no_mig Hmig|apply I].
    + simpl. rewrite Hs. eapply own_release; [apply I|done|by rewrite Hph|done|done| |by do 2 right].
      split; simpl; [done|]. rewrite length_app. simpl. lia.
    + split; [done|]. simpl. by rewrite Hs.
Qed.

Lemma zsum_pos {A} (f : A -> Z) l : 0 < zsum f l -> exists i x, l !! i = Some x /\ 0 < f x.
Proof.
  induction l as [|x l IH]; simpl; [lia|]. intros H. destruct (decide (0 < f x)); [by exists O, x|].
  destruct IH as (i & z & H1 & H2); [lia|]. by exists (S i), z.
Qed.

(** Who holds a task that is held. *)
Lemma holder sts cs mv t s : own sts cs mv -> sts !! t = Some s -> ~ owned s 0 ->
  (exists c k, cs !! c = Some k /\ 0 < cpu_holds t k) \/ 0 < occ t mv.
Proof.
  intros Ho Hs H0. pose proof (ow_held _ _ _ Ho t s Hs) as Hh. unfold held in Hh. pose proof (occ_bounds t mv).
  pose proof (zsum_nonneg (cpu_holds t) cs (cpu_holds_nonneg t)).
  destruct (decide (0 < occ t mv)) as [Hm|Hm]; [by right|left].
  destruct (decide (0 < zsum (cpu_holds t) cs)) as [Hz|Hz]; [by apply zsum_pos|]. exfalso. apply H0.
  by replace 0 with (zsum (cpu_holds t) cs + occ t mv) by lia.
Qed.

(** The processor of a task with such a status has it in its hand. *)
Lemma in_hand_of sts cs mv t s c : own sts cs mv -> sts !! t = Some s -> s = Running c \/ s = Blocking c ->
  exists k, cs !! c = Some k /\ in_hand (c_phase k) = Some t.
Proof.
  intros Ho Hs Hst. destruct (holder sts cs mv t s Ho Hs) as [(c1 & k & Hk & Hp)|Hm].
  - destruct Hst as [-> | ->]; simpl; lia.
  - pose proof (ow_cpu _ _ _ Ho c1 k Hk) as [C1 C2 C3 _ _]. unfold cpu_holds in Hp. rewrite hand_occ in Hp.
    case_decide as Hh.
    + exists k. split; [|done]. destruct (C2 t Hh) as (s1 & S1 & S2). destruct (c_phase k); simpl in S2; destruct Hst; naive_solver.
    + exfalso. destruct (decide (0 < occ t (c_tasks k))) as [H1|H1]; [apply C1 in H1; destruct Hst; congruence|].
      destruct (decide (0 < occ t (c_zombies k))) as [H2|H2]; [apply C3 in H2; destruct Hst; congruence|lia].
  - apply (ow_moves _ _ _ Ho) in Hm. destruct Hst; congruence.
Qed.

Lemma wake_ok y t load : inv y -> mgr y = Free -> exists y', wake runnable y t load = Some y' /\ inv y'.
Proof.
  intros I Hf. unfold wake, ncpu. rewrite (si_ncpu _ _ _ I). destruct (tasks y !! t) as [T|] eqn:Ht; [|eauto].
  pose proof (status_lookup _ _ _ Ht) as Hst. destruct (si_task _ _ _ I t T Ht) as [HT _]. unfold task_ok in HT.
  destruct (t_status T) as [|c|c|c| | |] eqn:Hs; try by eauto.
  - destruct HT as (Hv & Ha & Hmig & Hsl). eexists. split; [done|].
    destruct (in_hand_of _ _ _ _ _ c (si_own _ _ _ I) Hst ltac:(by right)) as (k & Hk & Hh).
    unfold with_mgr, with_registry, put_task. simpl. rewrite <- (list_insert_id (cpus y) c k Hk) at 1.
    apply (inv_step runnable n y t T _ c k); [done..| |by left| |apply I| | |done|no_mig Hmig|apply I|exact (slots_keep _ _ y t T I Ht)].
    + replace k with (with_phase (c_phase k) k) at 1 by (by destruct k).
      eapply own_phase; [apply I|done|done|done|done| |done].
      destruct (in_hand_alone _ _ _ (si_own _ _ _ I) c k t Hk Hh) as (s & S1 & S2 & _). simplify_eq.
      destruct (c_phase k); simpl in *; naive_solver.
    + intros u. rewrite (si_reg _ _ _ I u), Hf. unfold asleep. destruct (decide (u = t)) as [->|Hne].
      * rewrite list_lookup_insert_eq by (by apply lookup_lt_Some in Hst). rewrite Hst. simpl. by rewrite bool_decide_true.
      * rewrite list_lookup_insert_ne by done. destruct (statuses y !! u); [|done].
        rewrite (bool_decide_false (Removing t = Removing u)) by naive_solver. done.
    + eexists. by rewrite list_lookup_insert_eq by (by apply lookup_lt_Some in Ht).
    + split; [done|]. simpl. rewrite Hmig. by split; [|left].
  - destruct HT as (Hv & Hmig & Hsl).
    destruct (select_ok runnable n load (t_allowed T) (t_last T) Hv) as (cpu & -> & Ha). simpl. eexists. split; [done|].
    unfold with_mgr, with_registry. pose proof I as [I0 I1 I2 I3 I4 I5 I6 I7]. split; simpl; try done.
    + intros u. rewrite (I2 u), Hf. unfold asleep, statuses. simpl. destruct ((t_status <$> tasks y) !! u); [|done].
      done.
    + exists T. by rewrite Hs.
Qed.

Lemma woken_ok y : inv y -> exists y', woken y = Some y' /\ inv y'.
Proof.
  intros I. pose proof (si_mgr _ _ _ I) as Hm. unfold woken. destruct (mgr y) as [|t|t cpu] eqn:Em; [by eauto| |].
  - destruct Hm as (T & Ht & Hs). pose proof (status_lookup _ _ _ Ht) as Hst.
    destruct (remove_spec t (registry y) (registry_count y)) as (l & -> & Hl); [|apply I|].
    { rewrite (si_reg _ _ _ I t). unfold asleep. by rewrite Hst, Hs, bool_decide_true. }
    simpl. eexists. split; [done|]. unfold with_registry. pose proof I as [I0 I1 I2 I3 I4 I5 I6 I7]. split; simpl; try done.
    intros u. rewrite Hl. rewrite (I2 u), Em. unfold asleep, statuses in *. simpl in *.
    destruct (decide (u = t)) as [->|Hne]; [by rewrite Hst, Hs|]. destruct ((t_status <$> tasks y) !! u); [|done].
    by rewrite !bool_decide_false by naive_solver.
  - destruct Hm as (T & Ht & Hs & Ha). pose proof (status_lookup _ _ _ Ht) as Hst. rewrite Hs in Hst.
    destruct (remove_spec t (registry y) (registry_count y)) as (l & -> & Hl); [|apply I|].
    { rewrite (si_reg _ _ _ I t). unfold asleep. by rewrite Hst. }
    simpl. rewrite Ht. simpl. destruct (enqueue_some n y t T Blocked cpu true (si_ncpu _ _ _ I) Ha Hs) as (k & Hk & ->). simpl.
    eexists. split; [done|]. unfold with_registry, put. simpl. destruct (si_task _ _ _ I t T Ht) as [HT _].
    unfold task_ok in HT. rewrite Hs in HT. destruct HT as (Hv & Hmig & Hsl).
    apply (inv_step runnable n y t T _ cpu k); [done..| |by left| |done|done|by repeat split|done|no_mig Hmig|apply I|exact (slots_keep _ _ y t T I Ht)].
    + eapply own_enqueue; [apply I|done..| |done|]; [by left|]. by eapply not_moving; [apply I|done|].
    + intros u. rewrite Hl, (si_reg _ _ _ I u), Em. unfold asleep. destruct (decide (u = t)) as [->|Hne].
      * by rewrite list_lookup_insert_eq by (by apply lookup_lt_Some in Hst).
      * rewrite list_lookup_insert_ne by done. destruct (statuses y !! u); [|done]. by rewrite !bool_decide_false.
Qed.

Lemma store_ok y T mask s : inv y -> valid runnable n mask -> t_status T = s ->
  store_allowed runnable y T mask s = Some (with_allowed mask T).
Proof.
  intros I Hv Hs. unfold store_allowed, ncpu. rewrite (si_ncpu _ _ _ I). unfold valid in Hv. by rewrite Hv, bool_decide_true.
Qed.

(** A new mask for a task that is not in the hands of a mover. *)
Lemma mask_ok y t T mask : inv y -> tasks y !! t = Some T -> t_status T <> Migrating ->
  (t_status T = Blocked -> mgr y = Free) -> task_ok runnable n (with_allowed mask T) -> inv (put_task y t (with_allowed mask T)).
Proof.
  intros I Ht Hm Hb HT. unfold put_task.
  apply (inv_task runnable n y t T); [done..|by left|apply I| |exact (slots_keep _ _ y t T I Ht)].
  destruct (decide (t_status T = Blocked)) as [Hs|Hs]; [by rewrite (Hb Hs)|]. by eapply mgr_keep; [apply I|done..].
Qed.

Lemma blocked_affinity_ok y t mask : inv y -> valid runnable n mask -> mgr y = Free ->
  exists y', update_blocked_affinity runnable y t mask = Some y' /\ inv y'.
Proof.
  intros I Hv Hf. unfold update_blocked_affinity. destruct (tasks y !! t) as [T|] eqn:Ht; [|eauto].
  case_bool_decide as Hs; [|eauto]. case_bool_decide; [|eauto]. simpl. rewrite store_ok by done. simpl. eexists. split; [done|].
  destruct (si_task _ _ _ I t T Ht) as [HT _]. unfold task_ok in HT. rewrite Hs in HT. destruct HT as (_ & Hmig & Hsl).
  apply mask_ok; [done|done|by rewrite Hs|done|]. split; [done|]. simpl. by rewrite Hs.
Qed.

Lemma queued_affinity_ok y t source k mask load : inv y -> valid runnable n mask -> cpus y !! source = Some k ->
  exists y', set_queued_affinity runnable y t source k mask load = Some y' /\ inv y'.
Proof.
  intros I Hv Hk. unfold set_queued_affinity, ncpu. rewrite (si_ncpu _ _ _ I).
  destruct (list_find _ _) as [[i t']|] eqn:Ef; [|eauto]. apply list_find_Some in Ef as (Hi & -> & _).
  destruct (queued_task runnable n y source k i t I Hk Hi) as (T & Ht & Hs & HT). rewrite Ht. simpl.
  unfold task_ok in HT. rewrite Hs in HT. destruct HT as (_ & Ha & Hmig & Hsl). destruct (cpu_bit mask source) eqn:Hb.
  - rewrite store_ok by done. simpl. eexists. split; [done|]. apply mask_ok; [done|done|by rewrite Hs|by rewrite Hs|].
    split; [done|]. simpl. rewrite Hs. split; [|done]. apply allowed_bit; [|done]. by eapply cpu_in_range.
  - destruct (select_ok runnable n load mask None Hv) as (target & -> & Hta). simpl.
    rewrite (transition_ok T (Queued source)) by done. simpl. pose proof (status_lookup _ _ _ Ht) as Hst. rewrite Hs in Hst.
    destruct (dequeue_some _ _ _ (si_own _ _ _ I) (tasks y) source k i t Hk Hi) as (k' & -> & D1 & D2 & D3 & D4). simpl.
    eexists. split; [done|]. unfold with_moves, put. simpl.
    eapply (inv_step_gen runnable n y t T); [done|done| | | | |apply I| | | | |exact (slots_keep _ _ y t T I Ht)].
    + rewrite length_insert. apply I.
    + rewrite fmap_app. eapply (own_dequeue _ _ _ (si_own _ _ _ I) source k _ i t _ _ (c_phase k)); try done.
      left. split_and!; try done. intros u. rewrite occ_app. unfold occ at 2. simpl. lia.
    + apply (parked_keep _ _ _ k); [done|by left].
    + by eapply reg_keep; [apply I|done|].
    + eapply mgr_keep; [apply I|done|by rewrite Hs|done].
    + destruct (si_task _ _ _ I t T Ht) as [[Hvo _] _]. by repeat split.
    + split; [no_mig Hmig|]. intros c1 k1 K1 K2. exfalso. destruct (decide (c1 = source)) as [->|Hc].
      * rewrite list_lookup_insert_eq in K1 by (by apply lookup_lt_Some in Hk). injection K1 as <-. rewrite D2 in K2.
        by eapply (not_stolen _ _ _ t); [apply I|done| |exact Hk|exact K2].
      * rewrite list_lookup_insert_ne in K1 by done. by eapply (not_stolen _ _ _ t); [apply I|done| |exact K1|exact K2].
    + apply Forall_app. split; [apply I|]. by repeat constructor.
Qed.

Lemma moved_ok y i m : inv y -> moves y !! i = Some m -> exists y', moved runnable y i m = Some y' /\ inv y'.
Proof.
  intros I Hm. pose proof (si_own _ _ _ I) as Ho.
  assert (Hocc : 0 < occ (mv_task m) (mv_task <$> moves y)).
  { apply occ_elem. apply list_elem_of_fmap. exists m. split; [done|]. by eapply list_elem_of_lookup_2. }
  pose proof (ow_moves _ _ _ Ho _ Hocc) as Hst. pose proof Hst as Hst'. unfold statuses in Hst'. rewrite list_lookup_fmap in Hst'.
  destruct (tasks y !! mv_task m) as [T|] eqn:Ht; [|done]. injection Hst' as Hs.
  pose proof (proj1 (Forall_lookup _ _) (si_moves _ _ _ I) i m Hm) as [Hv Ha]. unfold moved. rewrite Ht. simpl.
  rewrite store_ok by done. simpl.
  destruct (enqueue_some n y (mv_task m) (with_allowed (mv_mask m) T) Migrating (mv_target m) false) as (k & Hk & ->);
    [apply I|done|done|]. simpl. eexists. split; [done|]. unfold with_moves, put. simpl.
  destruct (si_task _ _ _ I _ T Ht) as [HT _]. unfold task_ok in HT. rewrite Hs in HT. destruct HT as (_ & Hmig & Hsl).
  pose proof (owned_le _ _ (ow_held _ _ _ Ho _ _ Hst)). pose proof (held_pick _ (mv_task <$> moves y) (mv_task m) _ _ Hk).
  pose proof (cpu_holds_nonneg (mv_task m) k). set (t := mv_task m) in *.
  assert (Hdel : forall u, occ u (mv_task <$> delete i (moves y)) = occ u (mv_task <$> moves y) - is_it u t).
  { intros u. unfold occ. rewrite !zsum_fmap. by rewrite (zsum_delete _ _ i m). }
  apply (inv_quiet runnable n y t T _ (mv_target m) k);
    [done..| |by left|by rewrite Hs|by rewrite Hs|done|by repeat split|done|no_mig Hmig|].
  - eapply own_enqueue; [exact Ho|done|exact Hst|by right| |].
    + intros u Hu. rewrite Hdel. unfold is_it. rewrite decide_False by done. lia.
    + rewrite Hdel. unfold is_it. rewrite decide_True by done. lia.
  - rewrite delete_take_drop. apply Forall_app. split; [apply Forall_take|apply Forall_drop]; apply I.
Qed.

Lemma running_affinity_ok y t owner mask load : inv y -> valid runnable n mask ->
  exists y', set_running_affinity runnable y t owner mask load = Some y' /\ inv y'.
Proof.
  intros I Hv. unfold set_running_affinity, ncpu. rewrite (si_ncpu _ _ _ I). destruct (tasks y !! t) as [T|] eqn:Ht; [|eauto].
  case_bool_decide as Hsl; [|eauto]. case_bool_decide as Hmig; [|eauto]. case_bool_decide as Hs; [|eauto]. simpl.
  pose proof (status_lookup _ _ _ Ht) as Hst. rewrite Hs in Hst. destruct (cpu_bit mask owner) eqn:Hb.
  - rewrite store_ok by done. simpl. eexists. split; [done|]. apply mask_ok; [done|done|by rewrite Hs|by rewrite Hs|].
    split; [done|]. simpl. rewrite Hs, Hmig. split; [|by left]. apply allowed_bit; [|done].
    destruct (in_hand_of _ _ _ _ _ owner (si_own _ _ _ I) Hst ltac:(by left)) as (k & Hk & _). by eapply cpu_in_range.
  - destruct (select_ok runnable n load mask None Hv) as (target & -> & Hta). simpl. eexists. split; [done|].
    unfold with_requests, put_task. simpl. destruct (si_task _ _ _ I t T Ht) as [HT _]. unfold task_ok in HT. rewrite Hs in HT.
    destruct HT as (Hvo & Ha & _).
    apply (inv_task runnable n y t T); [done..| |by right|apply I| |by eapply install_ok].
    + split; [done|]. simpl. rewrite Hs. split; [done|by right].
    + eapply mgr_keep; [apply I|done|by rewrite Hs|done].
Qed.

(** Zombies leave, or only the figures of a processor change. *)
Lemma own_cpu sts cs mv c k k' m : own sts cs mv -> cs !! c = Some k -> c_tasks k' = c_tasks k -> c_phase k' = c_phase k ->
  c_zombies k' = drop m (c_zombies k) -> counts_ok k' -> own sts (<[c := k']> cs) mv.
Proof.
  intros Ho Hk E1 E2 E3 [N1 N2]. pose proof (ow_cpu _ _ _ Ho c k Hk) as [C1 C2 C3 _ _].
  assert (Hz : forall u, occ u (c_zombies k) = occ u (take m (c_zombies k)) + occ u (c_zombies k')).
  { intros u. rewrite E3, <- occ_app, take_drop. done. }
  assert (Hh : forall u, held (<[c := k']> cs) mv u = held cs mv u - occ u (take m (c_zombies k))).
  { intros u. unfold held. rewrite (zsum_insert _ _ _ k) by done. unfold cpu_holds at 2 3. rewrite E1, E2, (Hz u). lia. }
  split.
  - intros u s Hs. rewrite Hh. pose proof (ow_held _ _ _ Ho u s Hs) as How. pose proof (occ_bounds u (take m (c_zombies k))).
    pose proof (occ_bounds u (c_zombies k')). pose proof (held_pick cs mv u c k Hk) as Hp.
    pose proof (occ_bounds u (c_tasks k)). pose proof (occ_bounds u (option_list (in_hand (c_phase k)))). pose proof (occ_bounds u mv).
    unfold cpu_holds in Hp. rewrite (Hz u) in Hp.
    destruct (decide (0 < occ u (take m (c_zombies k)))) as [Ht|Ht]; [|by replace (_ - _) with (held cs mv u) by lia].
    assert (Hzs : sts !! u = Some Zombie) by (apply C3; rewrite Hz; lia). simplify_eq. simpl in *. lia.
  - intros c1 k1 K1. destruct (decide (c1 = c)) as [->|Hc]; [|rewrite list_lookup_insert_ne in K1 by done; by apply Ho].
    rewrite list_lookup_insert_eq in K1 by (by apply lookup_lt_Some in Hk). injection K1 as <-.
    split; rewrite ?E1, ?E2; [done|done| |by rewrite <- E1|done].
    intros u Hu. apply C3. rewrite Hz. pose proof (occ_bounds u (take m (c_zombies k))). lia.
  - apply Ho.
Qed.

Lemma inv_cpu y c k k' m : inv y -> cpus y !! c = Some k -> c_tasks k' = c_tasks k -> c_phase k' = c_phase k ->
  c_zombies k' = drop m (c_zombies k) -> counts_ok k' -> inv (put_cpu y c k').
Proof.
  intros I Hk E1 E2 E3 Hc. pose proof (own_cpu _ _ _ c k k' m (si_own _ _ _ I) Hk E1 E2 E3 Hc) as Ho.
  pose proof I as [I0 I1 I2 I3 I4 I5 I6 I7]. unfold put_cpu. split; simpl; try done; [by rewrite length_insert|].
  intros t T Ht. destruct (I5 t T Ht) as [H1 H2]. split; [done|].
  destruct (decide (length (tasks y) = t)) as [<-|Hne]; [apply lookup_lt_Some in Ht; lia|].
  by apply (parked_keep _ _ c k _ (length (tasks y))); [done|rewrite E2; by left|congruence|].
Qed.

Lemma drain_ok y c k limit : inv y -> cpus y !! c = Some k -> exists y', drain y c k limit = Some y' /\ inv y'.
Proof.
  intros I Hk. pose proof (ow_cpu _ _ _ (si_own _ _ _ I) c k Hk) as [_ _ _ C4 C5]. unfold drain. cbv zeta.
  destruct (Z.ltb_spec (c_nzombies k) (Z.of_nat (Nat.min (Nat.min limit (Z.to_nat (c_nzombies k))) (length (c_zombies k)))));
    [lia|]. eexists. split; [done|]. eapply inv_cpu; [done|done|done|done|done|]. split; simpl; [done|].
  rewrite length_drop. lia.
Qed.

Lemma inv_nicing y l : inv y -> inv (with_nicing y l).
Proof. intros [I0 I1 I2 I3 I4 I5 I6 I7]. by split. Qed.

Lemma set_nice_ok y t nice : inv y -> inv (set_nice y t nice).
Proof.
  intros I. unfold set_nice. destruct (tasks y !! t) as [T|] eqn:Ht; [|done].
  assert (H : inv (put_task y t (with_nice nice T))); [|by case_match; [|apply inv_nicing]].
  apply (inv_task runnable n y t T); [done..| |by right|apply I| |exact (slots_keep _ _ y t T I Ht)].
  - exact (proj1 (si_task _ _ _ I t T Ht)).
  - pose proof (si_mgr _ _ _ I) as Hm. pose proof (lookup_lt_Some _ _ _ Ht). destruct (mgr y) as [|u|u c]; [done| |];
      (destruct (decide (u = t)) as [->|Hne]; [exists (with_nice nice T); rewrite list_lookup_insert_eq by done|]).
    + destruct Hm as (U & HU & HS). by simplify_eq.
    + destruct Hm as (U & HU & HS). exists U. by rewrite list_lookup_insert_ne.
    + destruct Hm as (U & HU & HS). by simplify_eq.
    + destruct Hm as (U & HU & HS). exists U. by rewrite list_lookup_insert_ne.
Qed.

Lemma queued_in sts cs mv t c : own sts cs mv -> sts !! t = Some (Queued c) -> exists k, cs !! c = Some k /\ t ∈ c_tasks k.
Proof.
  intros Ho Hs. destruct (holder sts cs mv t _ Ho Hs) as [(c1 & k & Hk & Hp)|Hm]; [simpl; lia| |].
  - pose proof (ow_cpu _ _ _ Ho c1 k Hk) as [C1 C2 C3 _ _]. unfold cpu_holds in Hp. rewrite hand_occ in Hp.
    destruct (decide (0 < occ t (c_tasks k))) as [H1|H1].
    { pose proof (C1 t H1). simplify_eq. exists k. split; [done|]. by apply occ_elem. }
    exfalso. destruct (decide (0 < occ t (c_zombies k))) as [H2|H2]; [apply C3 in H2; congruence|].
    case_decide as Hh; [|lia]. destruct (C2 t Hh) as (s1 & S1 & S2). destruct (c_phase k); simpl in S2; naive_solver.
  - apply (ow_moves _ _ _ Ho) in Hm. congruence.
Qed.

Lemma nice_queue_ok y i t c k : inv y -> cpus y !! c = Some k -> exists y', nice_queue y i t c k = Some y' /\ inv y'.
Proof.
  intros I Hk. pose proof (ow_cpu _ _ _ (si_own _ _ _ I) c k Hk) as [_ _ _ C4 C5].
  assert (H : inv (put_cpu y c (recompute (tasks y) k))) by (by apply (inv_cpu y c k _ 0)).
  unfold nice_queue. case_bool_decide as Hin; [eauto using inv_nicing|].
  destruct (t_status <$> tasks y !! t) as [[|o|o|o| | |]|] eqn:Es; eauto using inv_nicing.
  destruct (Nat.eqb_spec o c) as [->|]; [|eauto]. exfalso.
  destruct (queued_in _ _ _ t c (si_own _ _ _ I)) as (k1 & K1 & K2); [unfold statuses; by rewrite list_lookup_fmap|].
  by simplify_eq.
Qed.

(** The cases in which an event is no step. *)
Ltac guards :=
  repeat match goal with
  | |- context [valid_mask runnable n ?m] => destruct (valid_mask runnable n m) eqn:?; [|by eauto]
  | H : free ?y = true -> _ |- context [free ?y] => destruct (free y); [specialize (H eq_refl)|by eauto]
  | |- context [cpus ?y !! ?c] => destruct (cpus y !! c) eqn:?; [|by eauto]
  | |- context [match c_phase ?k with _ => _ end] => destruct (c_phase k) eqn:?; try by eauto
  | |- context [nicing ?y !! ?i] => destruct (nicing y !! i) eqn:?; [|by eauto]
  | |- context [moves ?y !! ?i] => destruct (moves y !! i) eqn:?; [|by eauto]
  end.

Lemma sched_step_ok y ev : inv y -> exists y', sched_step runnable y ev = Some y' /\ inv y'.
Proof.
  intros I. assert (Hfree : free y = true -> mgr y = Free) by (unfold free; by destruct (mgr y)).
  destruct ev as [mask nice vr|t load pref|c|c victim|c|c|c|c|c mask load|c|c|t load| |t mask|t src mask load|i
                 |t owner mask load|c limit|t nice|i|i c]; cbn [sched_step]; unfold ncpu; rewrite ?(si_ncpu _ _ _ I).
  - eauto using sched_create_ok.
  - by apply publish_ok.
  - guards. by apply fetch_ok.
  - destruct (Nat.eqb_spec c victim); [eauto|]. guards. by apply steal_ok.
  - guards. by apply stolen_step.
  - guards. eexists. split; [done|]. eapply (phase_step y c _ t); [done|done|..]; rewrite ?Heqp; try done.
    intros T Ht. destruct (current_task runnable n y c c0 t I Heqo ltac:(by right)) as (T' & ? & ? & _). by simplify_eq.
  - guards. by apply begin_sleep_ok.
  - guards. by apply exit_ok.
  - guards. by apply affinity_ok.
  - guards; (eexists; split; [done|]; eapply (phase_step y c _ t); [done|done|..]; rewrite ?Heqp; try done); intros T Ht.
    + destruct (current_task runnable n y c c0 t I Heqo ltac:(by left)) as (T' & ? & ? & _). simplify_eq. by left.
    + destruct (hand_task runnable n y c c0 t I Heqo) as (T' & ? & Hok & _); [by rewrite Heqp|]. rewrite Heqp in Hok. by simplify_eq.
  - guards. by apply switch_out_ok.
  - guards. by apply wake_ok.
  - by apply woken_ok.
  - guards. by apply blocked_affinity_ok.
  - guards. by apply queued_affinity_ok.
  - guards. by apply moved_ok.
  - guards. by apply running_affinity_ok.
  - guards. by apply drain_ok.
  - eauto using set_nice_ok.
  - guards. eexists. split; [done|]. unfold nice_read.
    destruct (t_status <$> tasks y !! n0) as [[]|]; by try apply inv_nicing.
  - guards. by apply nice_queue_ok.
Qed.

Lemma sched_run_ok evs : forall y, inv y -> exists y', sched_run runnable y evs = Some y' /\ inv y'.
Proof.
  induction evs as [|ev evs IH]; intros y I; [by eauto|]. destruct (sched_step_ok y ev I) as (y1 & E & I1).
  cbn [sched_run]. rewrite E. simpl. by apply IH.
Qed.

Lemma sched_init_ok : inv (sched_init n).
Proof.
  assert (Hcpu : forall c k, replicate n cpu_new !! c = Some k -> k = cpu_new) by (by intros c k [-> _]%lookup_replicate).
  split; simpl; try done; [by rewrite length_replicate|].
  split; [done| |by intros u H; unfold occ in H; simpl in H; lia]. intros c k Hk%Hcpu. subst k.
  split; simpl; try done; unfold occ; simpl; lia.
Qed.

End ops.

(** ** What the invariant says *)

Record well_owned (n : nat) (y : Sys) : Prop := {
  wo_queue c k t : cpus y !! c = Some k -> t ∈ c_tasks k ->
    exists T, tasks y !! t = Some T /\ t_status T = Queued c /\ cpu_allowed n (t_allowed T) c = true;
  wo_queued t T c : tasks y !! t = Some T -> t_status T = Queued c -> exists k, cpus y !! c = Some k /\ occ t (c_tasks k) = 1;
  wo_running t T c : tasks y !! t = Some T -> t_status T = Running c \/ t_status T = Blocking c ->
    exists k, cpus y !! c = Some k /\ in_hand (c_phase k) = Some t;
  wo_hand c1 c2 k1 k2 t : cpus y !! c1 = Some k1 -> cpus y !! c2 = Some k2 ->
    in_hand (c_phase k1) = Some t -> in_hand (c_phase k2) = Some t -> c1 = c2;
  wo_registry t T : mgr y = Free -> tasks y !! t = Some T -> occ t (registry y) = if sleeps (t_status T) then 1 else 0;
  wo_migrating t T : tasks y !! t = Some T -> t_status T = Migrating ->
    (exists c k, cpus y !! c = Some k /\ c_phase k = Stolen t) \/ exists m, m ∈ moves y /\ mv_task m = t;
  wo_pending id r : requests y !! id = Some r -> rq_state r = Pending ->
    exists T c, tasks y !! rq_task r = Some T /\ t_slot T = Some id /\ t_status T = Running c;
  wo_counts c k : cpus y !! c = Some k -> c_running k = Z.of_nat (length (c_tasks k));
}.

Lemma stolen_or_moving sts cs mv t : own sts cs mv -> sts !! t = Some Migrating ->
  (exists c k, cs !! c = Some k /\ c_phase k = Stolen t) \/ 0 < occ t mv.
Proof.
  intros Ho Hs. destruct (holder sts cs mv t _ Ho Hs) as [(c & k & Hk & Hp)|Hm]; [simpl; lia| |by right]. left. exists c, k.
  split; [done|]. pose proof (ow_cpu _ _ _ Ho c k Hk) as [C1 C2 C3 _ _]. unfold cpu_holds in Hp. rewrite hand_occ in Hp.
  destruct (decide (0 < occ t (c_tasks k))) as [H1|H1]; [apply C1 in H1; congruence|].
  destruct (decide (0 < occ t (c_zombies k))) as [H2|H2]; [apply C3 in H2; congruence|].
  case_decide as Hh; [|lia]. destruct (C2 t Hh) as (s & S1 & S2). rewrite Hs in S1. injection S1 as <-.
  destruct (c_phase k); simpl in *; destruct_or?; congruence.
Qed.

Lemma inv_well_owned runnable n y : sched_inv runnable n y -> well_owned n y.
Proof.
  intros I. pose proof (si_own _ _ _ I) as Ho. pose proof (si_task _ _ _ I) as Htask. split.
  - intros c k t Hk [i Hi]%list_elem_of_lookup. destruct (queued_task _ _ y c k i t I Hk Hi) as (T & Ht & Hs & HT).
    exists T. unfold task_ok in HT. rewrite Hs in HT. by destruct HT as (_ & HT & _).
  - intros t T c Ht Hs. apply status_lookup in Ht. rewrite Hs in Ht. destruct (queued_in _ _ _ t c Ho Ht) as (k & Hk & Hi).
    exists k. split; [done|]. apply list_elem_of_lookup in Hi as [i Hi]. by apply (in_queue_alone _ _ _ Ho c k i t Hk Hi).
  - intros t T c Ht Hs. apply status_lookup in Ht. by eapply in_hand_of.
  - intros c1 c2 k1 k2 t H1 H2 P1 P2. destruct (decide (c1 = c2)) as [|Hne]; [done|]. exfalso.
    destruct (in_hand_alone _ _ _ Ho c1 k1 t H1 P1) as (s & Hs & _). pose proof (owned_le _ _ (ow_held _ _ _ Ho t s Hs)).
    pose proof (held_other _ (mv_task <$> moves y) t _ _ _ _ H1 H2 Hne) as Hh. unfold cpu_holds in Hh.
    rewrite !hand_occ, P1, P2 in Hh. rewrite !decide_True in Hh by done.
    pose proof (occ_bounds t (c_tasks k1)). pose proof (occ_bounds t (c_zombies k1)). pose proof (occ_bounds t (c_tasks k2)).
    pose proof (occ_bounds t (c_zombies k2)). pose proof (occ_bounds t (mv_task <$> moves y)). lia.
  - intros t T Hf Ht. rewrite (si_reg _ _ _ I t), Hf. unfold asleep. rewrite (status_lookup _ _ _ Ht).
    by rewrite bool_decide_false, orb_false_r.
  - intros t T Ht Hs. apply status_lookup in Ht. rewrite Hs in Ht. destruct (stolen_or_moving _ _ _ t Ho Ht) as [H|H]; [by left|].
    right. apply occ_elem, list_elem_of_fmap in H as (m & -> & Hm). eauto.
  - intros id r Hr Hp. destruct (so_pending _ _ _ _ (si_slots _ _ _ I) id r Hr Hp) as [Q _]. unfold slots in Q.
    rewrite list_lookup_fmap in Q. destruct (tasks y !! rq_task r) as [T|] eqn:Ht; [|done]. injection Q as Q. exists T.
    destruct (Htask _ T Ht) as [[_ HT] _]. rewrite Q in HT. destruct (t_status T) as [|c|c|c| | |]; destruct_and?; try done. by exists c.
  - intros c k Hk. exact (co_running _ _ _ (ow_cpu _ _ _ Ho c k Hk)).
Qed.



Definition no_load (c : nat) : Z := 0.

(** Two processors.  A task is published, stolen, run and blocked while it is being
    woken; another gets its mask changed while it runs. *)
Definition demo_sched : list sched_event :=
  [ECreate 3 0 0; ECreate 3 0 0; EPublish 0 no_load (Some 0%nat); EPublish 1 no_load (Some 0%nat);
   ESteal 1 0; EFetch 0; EStolen 1; EDispatch 0; EDispatch 1; ESleep 1; EWake 1 no_load; ESchedule 1; ESwitchOut 1;
   EWoken; ERunningAffinity 0 0 2 no_load; ESchedule 0; ESwitchOut 0; EFetch 1].


(** One processor and two tasks with a nice value, one set just now.  That one is
    fetched before [update_nice] reads its status: the count of the queue is 0
    although the other task waits in it with its nice value, and no update is left to
    correct it. *)
Theorem nice_count_drifts : exists y k,
  sched_run 1 (sched_init 1)
    [ECreate 1 5 9; ECreate 1 0 0; EPublish 0 no_load None; EPublish 1 no_load None; ESetNice 1 7; EFetch 0; ENiceRead 0] = Some y /\
  cpus y = [k] /\ c_tasks k = [0%nat] /\ nice_of (tasks y) 0 = 5 /\ c_nice_count k = 0 /\ nicing y = [].
Proof. eexists _, _. split; [vm_compute; reflexivity|]. by vm_compute. Qed.

(** ** The status word *)

Lemma tagged_split cpu tag :
  Z.of_nat cpu < 2 ^ 61 -> 0 <= tag < 8 ->
  Z.land (tagged cpu tag) TAG_MASK = tag /\ Z.to_nat (Z.shiftr (tagged cpu tag) TAG_BITS) = cpu.
Proof.
  intros Hc Ht. unfold tagged, TAG_BITS, TAG_MASK, usize_modulus. rewrite Z.shiftl_mul_pow2, Z.mod_small by lia.
  assert (Z.lor (Z.of_nat cpu * 2 ^ 3) tag = Z.of_nat cpu * 2 ^ 3 + tag) as ->.
  { rewrite <- Z.add_lor_land. replace (Z.land (Z.of_nat cpu * 2 ^ 3) tag) with 0; [lia|].
    symmetry. apply Z.bits_inj'. intros i Hi. rewrite Z.land_spec, Z.bits_0.
    destruct (Z.lt_ge_cases i 3); [rewrite Z.mul_pow2_bits_low by lia; done|].
    rewrite <- (Z.mod_small tag (2 ^ 3)), Z.mod_pow2_bits_high by lia.
    by rewrite andb_false_r. }
  change 7 with (Z.ones 3). rewrite Z.land_ones, Z.shiftr_div_pow2 by lia.
  split; [rewrite Z.add_comm, Z.mod_add by lia; apply Z.mod_small; lia|].
  rewrite Z.div_add_l by lia. rewrite (Z.div_small tag) by lia. lia.
Qed.

Definition cpu_of (s : TaskStatus) : nat :=
  match s with Queued cpu | Running cpu | Blocking cpu => cpu | _ => 0%nat end.

(** The status survives the word it is stored in, so that the exchange of words in
    [try_sched_transition] is the exchange of statuses in [transition]. *)
Theorem status_roundtrip s : Z.of_nat (cpu_of s) < 2 ^ 61 -> decode (encode s) = Some s.
Proof.
  intros H. destruct s as [|c|c|c| | |]; [done|..|done|done|done]; unfold decode, encode; simpl in H;
    match goal with |- context [tagged c ?tag] => destruct (tagged_split c tag H ltac:(lia)) as [-> ->] end; done.
Qed.

Theorem transition_exchanges_words T current next :
  Z.of_nat (cpu_of (t_status T)) < 2 ^ 61 -> Z.of_nat (cpu_of current) < 2 ^ 61 ->
  transition T current next = if encode (t_status T) =? encode current then Some (with_status next T) else None.
Proof.
  intros H H'. unfold transition. case_decide as D; [by rewrite D, Z.eqb_refl|].
  case_cmp; [|done]. exfalso. apply D. apply status_roundtrip in H, H'. congruence.
Qed.
