(* ===== verification/WaitQueue.v ===== *)
(** Wait queues ([WaitEntry], [WaitQueue] and [wait_event_impl] of
    [os/src/task/manager.rs]).

    Any number of tasks wait on one queue, each for its own condition on a shared
    state; others change that state and wake.  Every step is one critical section of
    the queue, one evaluation of a condition, one atomic access of a token or one
    transition of the scheduler.  Of the scheduler only what Sched.v establishes is
    used: a waker turns [Blocking] and [Blocked] tasks runnable and leaves others
    alone ([Dozing] and [Asleep] here), and only the switch away from its stack makes
    a task [Asleep].

    Deadlines, signals and exit requests may occur at any time. *)

From stdpp Require Import base numbers option list.
From S2P Require Import Prelude.

(** ** Entries *)

Inductive Token := Waiting | Notified | Closed.

#[export] Instance Token_eq_dec : EqDecision Token.
Proof. solve_decision. Defined.

Record WaitEntry := mkEntry {
  we_task : nat;
  we_state : Token;
}.

Definition is_waiting (es : list WaitEntry) (e : nat) : bool :=
  match es !! e with Some x => bool_decide (we_state x = Waiting) | None => false end.

(** [close]: a compare-and-exchange from [Waiting]. *)
Definition close (es : list WaitEntry) (e : nat) : list WaitEntry :=
  match es !! e with
  | Some x => match we_state x with
              | Waiting => <[e := mkEntry (we_task x) Closed]> es
              | _ => es
              end
  | None => es
  end.

(** What the weak reference of an entry leads to: nothing, a [New] or [Zombie] task,
    or a task that can be woken. *)
Inductive Life := Gone | Stale | Alive.

#[export] Instance Life_eq_dec : EqDecision Life.
Proof. solve_decision. Defined.

Definition notify_entry (life : nat -> Life) (es : list WaitEntry) (e : nat) : list WaitEntry * option nat :=
  match es !! e with
  | None => (es, None)
  | Some x =>
      match life (we_task x), we_state x with
      | Gone, _ => (es, None)
      | Stale, _ => (close es e, None)
      | Alive, Waiting => (<[e := mkEntry (we_task x) Notified]> es, Some (we_task x))
      | Alive, _ => (es, None)
      end
  end.

Definition is_gone (life : nat -> Life) (es : list WaitEntry) (e : nat) : bool :=
  match es !! e with Some x => bool_decide (life (we_task x) = Gone) | None => true end.

(** ** Waking *)

(** The full scan of [wake_at_most]: what stays queued, and the tasks to wake. *)
Fixpoint wake_scan (life : nat -> Life) (limit count : Z) (q : list nat) (es : list WaitEntry)
    : list nat * list nat * list WaitEntry :=
  match q with
  | [] => ([], [], es)
  | e :: q =>
      if limit <=? count then
        let '(rest, woken, es') := wake_scan life limit count q es in
        (if is_gone life es e then rest else e :: rest, woken, es')
      else
        match notify_entry life es e with
        | (es, Some t) => let '(rest, woken, es) := wake_scan life limit (count + 1) q es in (rest, t :: woken, es)
        | (es, None) => wake_scan life limit count q es
        end
  end.

(** [wake_one] stops at the first entry it can notify. *)
Fixpoint wake_one (life : nat -> Life) (q : list nat) (es : list WaitEntry) : list nat * list nat * list WaitEntry :=
  match q with
  | [] => ([], [], es)
  | e :: q => match notify_entry life es e with
              | (es, Some t) => (q, [t], es)
              | (es, None) => wake_one life q es
              end
  end.

Definition wake_at_most (life : nat -> Life) (limit : Z) (q : list nat) (es : list WaitEntry)
    : list nat * list nat * list WaitEntry :=
  if limit =? 0 then (q, [], es)
  else if limit =? 1 then wake_one life q es
  else wake_scan life limit 0 q es.

Definition wake_all (life : nat -> Life) (q : list nat) (es : list WaitEntry) := wake_at_most life usize_max q es.

(** [finish_entry] *)
Definition finish_entry (q : list nat) (es : list WaitEntry) (e : nat) : list nat * list WaitEntry :=
  (filter (fun x => x <> e) q, close es e).

(** ** Waiting *)

Inductive WaitResult := Ready | Interrupted | TimedOut.

(** Where a task is in [wait_event_impl]: [First], about to evaluate its condition for
    the first time; [Top], at the head of the loop; [Cond], registered, about to
    evaluate again; [Checks], about to look at the deadline, at signals and at its
    token; [Sleep], about to call [sleep_interruptible]; [Recheck], registered as a
    sleeper, about to evaluate [should_block]; [Off], in [schedule]; [Again] and
    [Leave], about to finish the entry and loop or return. *)
Inductive Pc :=
| First
| Top
| Cond (e : nat)
| Checks (e : nat)
| Sleep (e : nat)
| Recheck (e : nat)
| Off (e : nat)
| Again (e : nat)
| Leave (e : nat) (r : WaitResult)
| Done (r : WaitResult).

Inductive Run := Awake | Dozing | Asleep.

Section wait.
Context {S : Type} (ready : nat -> S -> bool) (take_ : nat -> S -> S).

(** [waiters]: place and scheduling state of each task; [pending]: tasks that a waker
    has notified and is about to make runnable; [owed]: calls of [wake_all] that
    somebody who made a condition true has yet to make. *)
Record WaitSys := mkWait {
  shared : S;
  entries : list WaitEntry;
  queue : list nat;
  waiters : list (Pc * Run);
  pending : list nat;
  owed : nat;
}.

Definition wait_init (s : S) (n : nat) : WaitSys := mkWait s [] [] (replicate n (First, Awake)) [] 0.

(** Does the change make the condition of some task true? *)
Definition enables (n : nat) (s s' : S) : bool := existsb (fun u => negb (ready u s) && ready u s') (seq 0 n).

Definition change (y : WaitSys) (s : S) : WaitSys :=
  mkWait s (entries y) (queue y) (waiters y) (pending y)
    (if enables (length (waiters y)) (shared y) s then Datatypes.S (owed y) else owed y).

Definition goto (y : WaitSys) (w : nat) (pc : Pc) (r : Run) : WaitSys :=
  mkWait (shared y) (entries y) (queue y) (<[w := (pc, r)]> (waiters y)) (pending y) (owed y).

Definition finish (y : WaitSys) (e : nat) : WaitSys :=
  let '(q, es) := finish_entry (queue y) (entries y) e in mkWait (shared y) es q (waiters y) (pending y) (owed y).

(** One step of task [w]; [stop] is what the deadline, the signals and the exit
    request say, [quiet] whether they let the task sleep in [should_block]. *)
Definition wait_step (y : WaitSys) (w : nat) (stop : option WaitResult) (quiet : bool) : WaitSys :=
  match waiters y !! w with
  | None => y
  | Some (pc, r) =>
      match pc with
      | First => if ready w (shared y) then goto (change y (take_ w (shared y))) w (Done Ready) r else goto y w Top r
      | Top =>
          match stop with
          | Some TimedOut => goto y w (Done TimedOut) r
          | _ =>
              let e := length (entries y) in
              goto (mkWait (shared y) (entries y ++ [mkEntry w Waiting]) (queue y ++ [e]) (waiters y) (pending y) (owed y))
                w (Cond e) r
          end
      | Cond e =>
          if ready w (shared y) then goto (change y (take_ w (shared y))) w (Leave e Ready) r else goto y w (Checks e) r
      | Checks e =>
          match stop with
          | Some res => goto y w (Leave e res) r
          | None => if is_waiting (entries y) e then goto y w (Sleep e) r else goto y w (Again e) r
          end
      | Sleep e => goto y w (Recheck e) Dozing
      | Recheck e => if is_waiting (entries y) e && quiet then goto y w (Off e) r else goto y w (Off e) Awake
      | Off e => match r with
                 | Awake => goto y w (Again e) Awake
                 | _ => goto y w (Off e) Asleep
                 end
      | Again e => goto (finish y e) w Top r
      | Leave e res => goto (finish y e) w (Done res) r
      | Done _ => y
      end
  end.

Definition make_runnable (l : list (Pc * Run)) (w : nat) : list (Pc * Run) := alter (fun x => (fst x, Awake)) w l.

(** A waker runs [wake_all] or [wake_at_most] on the queue, then makes the tasks it has
    notified runnable one by one; anybody may wake a task for another reason.  Tasks
    in [wait_event_impl] exist and have not exited. *)
Inductive wait_event :=
| VStep (w : nat) (stop : option WaitResult) (quiet : bool)
| VChange (s : S)
| VWakeAll
| VWakeAtMost (limit : Z)
| VRunnable (i : nat)
| VExternal (w : nat).

Definition run_wait_event (y : WaitSys) (ev : wait_event) : WaitSys :=
  let notify o r :=
    let '(q, ws, es) := r in mkWait (shared y) es q (waiters y) (pending y ++ ws) (o : nat) in
  match ev with
  | VStep w stop quiet => wait_step y w stop quiet
  | VChange s => change y s
  | VWakeAll => notify (pred (owed y)) (wake_all (fun _ => Alive) (queue y) (entries y))
  | VWakeAtMost limit => notify (owed y) (wake_at_most (fun _ => Alive) limit (queue y) (entries y))
  | VRunnable i =>
      match pending y !! i with
      | Some w => mkWait (shared y) (entries y) (queue y) (make_runnable (waiters y) w) (delete i (pending y)) (owed y)
      | None => y
      end
  | VExternal w => mkWait (shared y) (entries y) (queue y) (make_runnable (waiters y) w) (pending y) (owed y)
  end.

Fixpoint run_wait_events (y : WaitSys) (evs : list wait_event) : WaitSys :=
  match evs with [] => y | ev :: evs => run_wait_events (run_wait_event y ev) evs end.

End wait.

(** ** Waking: first come, first served *)

Definition wakeable (life : nat -> Life) (es : list WaitEntry) (e : nat) : option nat :=
  match es !! e with
  | Some x => if bool_decide (life (we_task x) = Alive /\ we_state x = Waiting) then Some (we_task x) else None
  | None => None
  end.

Lemma close_other es e e' : e' <> e -> close es e !! e' = es !! e'.
Proof.
  intros N. unfold close. destruct (es !! e) as [[t []]|]; simpl; [|done..].
  by rewrite list_lookup_insert_ne.
Qed.

Lemma close_length es e : length (close es e) = length es.
Proof. unfold close. destruct (es !! e) as [[t []]|]; simpl; rewrite ?length_insert; done. Qed.

Lemma notify_spec life es e :
  snd (notify_entry life es e) = wakeable life es e /\
  forall e', e' <> e -> fst (notify_entry life es e) !! e' = es !! e'.
Proof.
  unfold notify_entry, wakeable. destruct (es !! e) as [[t s]|] eqn:E; [|done]. simpl.
  destruct (life t) eqn:L, s; simpl; rewrite ?L; repeat case_bool_decide; try naive_solver;
    split; try naive_solver; intros e' N; first [done|by apply close_other|by rewrite list_lookup_insert_ne].
Qed.

Lemma wakeable_after life es e (q : list nat) :
  e ∉ q -> omap (wakeable life (fst (notify_entry life es e))) q = omap (wakeable life es) q.
Proof.
  intros N. apply list_omap_ext, Forall_Forall2_diag, Forall_forall. intros e' He.
  unfold wakeable. by rewrite (proj2 (notify_spec life es e)) by (intros ->; done).
Qed.

Lemma wake_scan_fifo life limit count q es :
  NoDup q -> 0 <= count <= limit ->
  snd (fst (wake_scan life limit count q es)) = take (Z.to_nat (limit - count)) (omap (wakeable life es) q).
Proof.
  revert count es. induction q as [|e q IH]; intros count es N Hc; [simpl; by rewrite take_nil|].
  apply NoDup_cons in N as [Ne N]. simpl wake_scan.
  destruct (limit <=? count) eqn:E.
  - specialize (IH count es N Hc). destruct (wake_scan life limit count q es) as [[rest w] es']. simpl in *.
    rewrite IH. replace (Z.to_nat (limit - count)) with 0%nat by lia. done.
  - pose proof (notify_spec life es e) as [Hs _]. pose proof (wakeable_after life es e q Ne) as Ha. simpl omap.
    destruct (notify_entry life es e) as [es1 [t|]]; simpl in Hs, Ha; rewrite <- Hs.
    + specialize (IH (count + 1) es1 N ltac:(lia)). rewrite Ha in IH.
      destruct (wake_scan life limit (count + 1) q es1) as [[rest w] es']. simpl in *. rewrite IH.
      replace (Z.to_nat (limit - count)) with (S (Z.to_nat (limit - (count + 1)))) by lia. done.
    + change (list_omap _ _ _ q) with (omap (wakeable life es) q). rewrite <- Ha. by apply IH.
Qed.

Lemma wake_one_fifo life q es :
  NoDup q -> snd (fst (wake_one life q es)) = take 1 (omap (wakeable life es) q).
Proof.
  revert es. induction q as [|e q IH]; intros es N; [done|]. apply NoDup_cons in N as [Ne N]. simpl.
  pose proof (notify_spec life es e) as [Hs _]. pose proof (wakeable_after life es e q Ne) as Ha.
  destruct (notify_entry life es e) as [es1 [t|]]; simpl in Hs, Ha; rewrite <- Hs; [done|].
  change (list_omap _ _ _ q) with (omap (wakeable life es) q). rewrite <- Ha. by apply IH.
Qed.

(** [WaitQueue::wake_at_most] wakes exactly the first [limit] entries, in the order
    they were registered, whose task is alive and which have not been notified or
    closed yet; its three paths (nothing, [wake_one], full scan) agree on this. *)
Theorem wake_at_most_fifo life limit q es :
  NoDup q -> 0 <= limit ->
  snd (fst (wake_at_most life limit q es)) = take (Z.to_nat limit) (omap (wakeable life es) q).
Proof.
  intros N L. unfold wake_at_most. destruct (limit =? 0) eqn:E0.
  { apply Z.eqb_eq in E0 as ->. done. }
  destruct (limit =? 1) eqn:E1.
  { apply Z.eqb_eq in E1 as ->. by apply wake_one_fifo. }
  rewrite wake_scan_fifo by (done || lia). by rewrite Z.sub_0_r.
Qed.

Lemma wake_at_most_fifo_witness :
  snd (fst (wake_at_most (fun t => if (t =? 7)%nat then Stale else Alive) 2 [0; 1; 2; 3; 4]%nat
    [mkEntry 5 Notified; mkEntry 6 Waiting; mkEntry 7 Waiting; mkEntry 8 Waiting; mkEntry 9 Waiting])) = [6; 8]%nat.
Proof.
  rewrite wake_at_most_fifo; [reflexivity| |lia].
  apply (bool_decide_unpack _). reflexivity.
Defined.
