(* ===== verification/WaitSafe.v ===== *)
(** Wait queues lose no wakeup: whoever makes a condition true and then calls
    [wake_all] reaches every task that waits for it, whatever the interleaving, and
    such a task then returns.  [wake_at_most] with a limit gives no such guarantee. *)

From stdpp Require Import base numbers option list.
From S2P Require Import Prelude WaitQueue.

(** ** What a wake does to the entries *)

Record woke (es es' : list WaitEntry) (q rest woken : list nat) : Prop := {
  wk_length : length es' = length es;
  wk_entry : forall e x, es !! e = Some x ->
    es' !! e = Some x \/
    we_state x = Waiting /\ es' !! e = Some (mkEntry (we_task x) Notified) /\ we_task x ∈ woken;
  wk_queue : forall e, e ∈ q -> is_waiting es' e = true -> e ∈ rest;
  wk_rest : sublist rest q;
}.

Lemma woke_refl es q : woke es es q q [].
Proof. split; [done|by left|done|done]. Qed.

Lemma woke_cons es es1 es2 e q rest woken o :
  notify_entry (fun _ => Alive) es e = (es1, o) -> woke es1 es2 q rest woken ->
  woke es es2 (e :: q) rest (match o with Some t => t :: woken | None => woken end).
Proof.
  unfold notify_entry. intros E [L Ent Q R].
  assert (is_waiting es1 e = false /\ length es1 = length es /\ forall e' x, es !! e' = Some x ->
    es1 !! e' = Some x \/ we_state x = Waiting /\ es1 !! e' = Some (mkEntry (we_task x) Notified) /\ o = Some (we_task x))
    as (W & L1 & Ent1).
  { unfold is_waiting. destruct (es !! e) as [[t s]|] eqn:Ee; simpl in E; [|simplify_eq; rewrite Ee; naive_solver].
    pose proof (lookup_lt_Some _ _ _ Ee). destruct s; simplify_eq; try (rewrite Ee; naive_solver).
    rewrite list_lookup_insert_eq, length_insert by done. split_and!; [done..|]. intros e' x Hx.
    destruct (decide (e' = e)) as [->|]; [|rewrite list_lookup_insert_ne by done; naive_solver].
    simplify_eq. right. by rewrite list_lookup_insert_eq. }
  assert (is_waiting es2 e = false) as W2.
  { revert W. unfold is_waiting. destruct (es1 !! e) as [x|] eqn:E1.
    - destruct (Ent _ _ E1) as [->|(-> & _)]; naive_solver.
    - intros _. by rewrite (proj2 (lookup_ge_None es2 e)) by (rewrite L; by apply lookup_ge_None). }
  split; [congruence| | |by constructor].
  - intros e' x Hx. destruct (Ent1 _ _ Hx) as [H|(Hs & H & ->)].
    + destruct (Ent _ _ H) as [?|(?&?&?)]; [by left|right]. split_and!; [done..|]. destruct o; [by right|done].
    + right. split_and!; [done| |by left]. by destruct (Ent _ _ H) as [?|(?&?&?)].
  - intros e' [->|He]%elem_of_cons Hw; [congruence|by apply Q].
Qed.

Lemma woke_skip es es' e q rest woken : woke es es' q rest woken -> woke es es' (e :: q) (e :: rest) woken.
Proof.
  intros [L Ent Q R]. split; [done|done| |by constructor].
  intros e' [->|He]%elem_of_cons Hw; [by left|right; by apply Q].
Qed.

Lemma woke_scan limit count q es rest woken es' :
  Forall (fun e => (e < length es)%nat) q ->
  wake_scan (fun _ => Alive) limit count q es = (rest, woken, es') -> woke es es' q rest woken.
Proof.
  revert count es rest woken es'. induction q as [|e q IH]; intros count es rest woken es' F E; simpl in E.
  { simplify_eq. apply woke_refl. }
  apply Forall_cons in F as [Fe F]. destruct (limit <=? count).
  - destruct (wake_scan _ limit count q es) as [[r w] es1] eqn:E1.
    unfold is_gone in E. destruct (es !! e) as [x|] eqn:Ee; [|apply lookup_ge_None in Ee; lia].
    rewrite bool_decide_eq_false_2 in E by done. simplify_eq. apply woke_skip. by eapply IH.
  - destruct (notify_entry _ es e) as [es1 o] eqn:En.
    assert (Forall (fun e => (e < length es1)%nat) q) as F1.
    { replace (length es1) with (length es); [done|]. unfold notify_entry in En.
      destruct (es !! e) as [[t []]|]; simpl in En; simplify_eq; rewrite ?length_insert; done. }
    destruct o as [t|].
    + destruct (wake_scan _ limit (count + 1) q es1) as [[r w] es2] eqn:E1. simplify_eq.
      eapply (woke_cons _ _ _ _ _ _ _ (Some t)); [done|]. by eapply IH.
    + eapply (woke_cons _ _ _ _ _ _ _ None); [done|]. by eapply IH.
Qed.

Lemma woke_one q es rest woken es' :
  wake_one (fun _ => Alive) q es = (rest, woken, es') -> woke es es' q rest woken.
Proof.
  revert es rest woken es'. induction q as [|e q IH]; intros es rest woken es' E; simpl in E.
  { simplify_eq. apply woke_refl. }
  destruct (notify_entry _ es e) as [es1 [t|]] eqn:En.
  - simplify_eq. eapply (woke_cons _ _ _ _ _ _ [] (Some t)); [done|apply woke_refl].
  - eapply (woke_cons _ _ _ _ _ _ _ None); [done|]. by eapply IH.
Qed.

Lemma woke_at_most limit q es rest woken es' :
  Forall (fun e => (e < length es)%nat) q ->
  wake_at_most (fun _ => Alive) limit q es = (rest, woken, es') -> woke es es' q rest woken.
Proof.
  unfold wake_at_most. intros F E. destruct (limit =? 0); [simplify_eq; apply woke_refl|].
  destruct (limit =? 1); [by apply woke_one|by eapply woke_scan].
Qed.

Lemma scan_empties life limit count q es :
  count + Z.of_nat (length q) <= limit -> fst (fst (wake_scan life limit count q es)) = [].
Proof.
  revert count es. induction q as [|e q IH]; intros count es L; [done|]. simpl in *.
  destruct (limit <=? count) eqn:E; [lia|]. destruct (notify_entry life es e) as [es1 [t|]].
  - specialize (IH (count + 1) es1 ltac:(lia)). by destruct (wake_scan life limit (count + 1) q es1) as [[? ?] ?].
  - apply IH. lia.
Qed.

Lemma all_empties life q es :
  Z.of_nat (length q) <= usize_max -> fst (fst (wake_all life q es)) = [].
Proof. intros L. unfold wake_all, wake_at_most. simpl. apply scan_empties. lia. Qed.

(** ** The invariant *)

Section safe.
Context {S : Type} (ready : nat -> S -> bool) (take_ : nat -> S -> S).
Implicit Types y : WaitSys (S := S).

(** The entry of this round, and the entry of a task that may go to sleep on it. *)
Definition reg (pc : Pc) : option nat :=
  match pc with
  | Cond e | Checks e | Sleep e | Recheck e | Off e | Again e | Leave e _ => Some e
  | _ => None
  end.

Definition counting (pc : Pc) : option nat :=
  match pc with Cond e | Checks e | Sleep e | Recheck e | Off e => Some e | _ => None end.

Definition asleep_at (pc : Pc) : bool := match pc with Recheck _ | Off _ => true | _ => false end.

Record waiter_ok (y : WaitSys (S := S)) (w : nat) (pc : Pc) (r : Run) : Prop := {
  ok_awake : asleep_at pc = false -> r = Awake;
  ok_task : forall e, reg pc = Some e -> exists x, entries y !! e = Some x /\ we_task x = w;
  ok_queued : forall e, counting pc = Some e -> is_waiting (entries y) e = true ->
    e ∈ queue y /\ (pc <> Cond e -> ready w (shared y) = true -> (0 < owed y)%nat);
  ok_off : forall e, pc = Off e -> r <> Awake -> is_waiting (entries y) e = false -> w ∈ pending y;
}.

Record wait_inv (n : nat) (y : WaitSys (S := S)) : Prop := {
  wi_length : length (waiters y) = n;
  wi_waiter : forall w pc r, waiters y !! w = Some (pc, r) -> waiter_ok y w pc r;
  wi_nodup : NoDup (queue y);
  wi_owner : forall e, e ∈ queue y -> exists w pc r, waiters y !! w = Some (pc, r) /\ reg pc = Some e;
}.

Lemma wait_init_ok s n : wait_inv n (wait_init s n).
Proof.
  split; simpl; [by rewrite length_replicate| |constructor|by intros e ?%elem_of_nil].
  intros w pc r [[= -> ->] _]%lookup_replicate. by split.
Qed.

(** The entry belongs to its waiter alone. *)
Lemma reg_inj n y w w' pc pc' r r' e :
  wait_inv n y -> waiters y !! w = Some (pc, r) -> waiters y !! w' = Some (pc', r') ->
  reg pc = Some e -> reg pc' = Some e -> w = w'.
Proof.
  intros I H H' R R'. destruct (ok_task _ _ _ _ (wi_waiter _ _ I _ _ _ H) _ R) as (x & Hx & <-).
  destruct (ok_task _ _ _ _ (wi_waiter _ _ I _ _ _ H') _ R') as (x' & Hx' & <-). congruence.
Qed.

Lemma counting_reg pc e : counting pc = Some e -> reg pc = Some e.
Proof. by destruct pc. Qed.

Lemma goto_ok n y w pc r pc' r' :
  wait_inv n y -> waiters y !! w = Some (pc, r) -> waiter_ok y w pc' r' ->
  (forall e, e ∈ queue y -> reg pc = Some e -> reg pc' = Some e) ->
  wait_inv n (goto y w pc' r').
Proof.
  intros I H K Q. pose proof (lookup_lt_Some _ _ _ H). split; simpl.
  - rewrite length_insert. apply I.
  - intros w' pc1 r1. destruct (decide (w' = w)) as [->|N].
    + rewrite list_lookup_insert_eq by done. intros [= <- <-]. by destruct K.
    + rewrite list_lookup_insert_ne by done. intros H1. by destruct (wi_waiter _ _ I _ _ _ H1).
  - apply I.
  - intros e He. destruct (wi_owner _ _ I e He) as (w' & pc1 & r1 & H1 & R1).
    destruct (decide (w' = w)) as [->|N].
    + exists w, pc', r'. rewrite list_lookup_insert_eq by done. naive_solver.
    + exists w', pc1, r1. by rewrite list_lookup_insert_ne.
Qed.

Lemma change_ok n y s : wait_inv n y -> wait_inv n (change ready y s).
Proof.
  intros I. split; try apply I. simpl. intros w pc r H. destruct (wi_waiter _ _ I _ _ _ H) as [A T Q O].
  split; [done|done| |done]. simpl. intros e C W. destruct (Q e C W) as [Qe Qr]. split; [done|].
  intros Nc R. destruct (enables ready (length (waiters y)) (shared y) s) eqn:E; [lia|].
  destruct (ready w (shared y)) eqn:Rw; [by apply Qr|]. exfalso.
  assert (enables ready (length (waiters y)) (shared y) s = true); [|congruence].
  apply existsb_exists. exists w. rewrite Rw, R. split; [|done].
  apply in_seq. apply lookup_lt_Some in H. lia.
Qed.

Lemma close_task es e e' x : es !! e' = Some x -> exists x', close es e !! e' = Some x' /\ we_task x' = we_task x.
Proof.
  intros H. destruct (decide (e' = e)) as [->|]; [|rewrite close_other by done; eauto].
  unfold close. rewrite H. pose proof (lookup_lt_Some _ _ _ H).
  destruct (we_state x); rewrite ?list_lookup_insert_eq by done; eauto.
Qed.

Lemma is_waiting_ext es es' e : es !! e = es' !! e -> is_waiting es e = is_waiting es' e.
Proof. unfold is_waiting. by intros ->. Qed.

Lemma finish_ok n y w pc r e :
  wait_inv n y -> waiters y !! w = Some (pc, r) -> reg pc = Some e -> counting pc = None ->
  wait_inv n (finish y e) /\ (e ∉ queue (finish y e)).
Proof.
  intros I H R C. split; [|simpl; rewrite list_elem_of_filter; naive_solver]. split; simpl.
  - apply I.
  - intros w' pc' r' H'. destruct (wi_waiter _ _ I _ _ _ H') as [A T Q O]. split; simpl; [done| | |].
    + intros e' R'. destruct (T e' R') as (x & Hx & <-). destruct (close_task _ e _ _ Hx) as (x' & ? & ?). eauto.
    + intros e' C' W. assert (e' <> e) as N.
      { intros ->. assert (w = w') as <-; [|naive_solver]. eapply reg_inj; eauto using counting_reg. }
      rewrite (is_waiting_ext _ (entries y)) in W by by apply close_other.
      destruct (Q e' C' W). rewrite list_elem_of_filter. naive_solver.
    + intros e' -> Nr W. assert (e' <> e) as N.
      { intros ->. assert (w = w') as <-; [|naive_solver]. by eapply reg_inj. }
      rewrite (is_waiting_ext _ (entries y)) in W by by apply close_other. by eapply O.
  - apply NoDup_filter, I.
  - intros e' [_ He]%list_elem_of_filter. by apply I.
Qed.

Lemma is_waiting_lt es e : is_waiting es e = true -> (e < length es)%nat.
Proof. unfold is_waiting. destruct (es !! e) eqn:E; [|done]. by apply lookup_lt_Some in E. Qed.

(** Registration appends a fresh entry. *)
Definition register (y : WaitSys (S := S)) (w : nat) : WaitSys :=
  mkWait (shared y) (entries y ++ [mkEntry w Waiting]) (queue y ++ [length (entries y)]) (waiters y) (pending y) (owed y).

Lemma queue_lt n y e : wait_inv n y -> e ∈ queue y -> (e < length (entries y))%nat.
Proof.
  intros I He. destruct (wi_owner _ _ I e He) as (w & pc & r & H & R).
  destruct (ok_task _ _ _ _ (wi_waiter _ _ I _ _ _ H) _ R) as (x & Hx & _). by apply lookup_lt_Some in Hx.
Qed.

Lemma register_keeps n y w w' pc r :
  wait_inv n y -> waiters y !! w' = Some (pc, r) -> waiter_ok (register y w) w' pc r.
Proof.
  intros I H. destruct (wi_waiter _ _ I _ _ _ H) as [A T Q O].
  assert (forall e, reg pc = Some e -> (entries y ++ [mkEntry w Waiting]) !! e = entries y !! e) as Le.
  { intros e R. destruct (T e R) as (x & Hx & _). apply lookup_app_l. by apply lookup_lt_Some in Hx. }
  split; simpl.
  - done.
  - intros e R. rewrite (Le e R). by apply T.
  - intros e C W. rewrite (is_waiting_ext _ (entries y)) in W by by apply Le, counting_reg.
    destruct (Q e C W). rewrite elem_of_app. naive_solver.
  - intros e -> Nr W. rewrite (is_waiting_ext _ (entries y)) in W by by apply Le. by eapply O.
Qed.

Lemma register_ok n y w :
  wait_inv n y -> waiters y !! w = Some (Top, Awake) ->
  wait_inv n (goto (register y w) w (Cond (length (entries y))) Awake).
Proof.
  intros I H. pose proof (lookup_lt_Some _ _ _ H). split; simpl.
  - rewrite length_insert. apply I.
  - intros w' pc r. destruct (decide (w' = w)) as [->|N].
    + rewrite list_lookup_insert_eq by done. intros [= <- <-]. split; simpl; try done.
      * intros e [= <-]. rewrite lookup_app_r, Nat.sub_diag by lia. simpl. eauto.
      * intros e [= <-] _. split; [|done]. apply elem_of_app. right. by left.
    + rewrite list_lookup_insert_ne by done. intros H'. by destruct (register_keeps n y w w' pc r I H').
  - apply NoDup_app. split_and!; [apply I| |apply NoDup_singleton].
    intros e He ->%list_elem_of_singleton. apply (queue_lt n y) in He; [lia|done].
  - intros e [He| ->%list_elem_of_singleton]%elem_of_app.
    + destruct (wi_owner _ _ I e He) as (w' & pc & r & H' & R). exists w', pc, r.
      rewrite list_lookup_insert_ne; [done|]. naive_solver.
    + exists w, (Cond (length (entries y))), Awake. by rewrite list_lookup_insert_eq.
Qed.

(** ** Wakers *)

Definition notified (y : WaitSys (S := S)) (q ws : list nat) (es : list WaitEntry) (o : nat) : WaitSys :=
  mkWait (shared y) es q (waiters y) (pending y ++ ws) o.

Lemma notified_ok n y q ws es o :
  wait_inv n y -> woke (entries y) es (queue y) q ws -> (o = owed y \/ q = []) ->
  wait_inv n (notified y q ws es o).
Proof.
  intros I K Ho. pose proof (queue_lt n y) as Lt. destruct K as [L Ent Q R]. split; simpl.
  - apply I.
  - intros w pc r H. destruct (wi_waiter _ _ I _ _ _ H) as [A T Qu O]. split; simpl; [done| | |].
    + intros e Re. destruct (T e Re) as (x & Hx & <-). destruct (Ent e x Hx) as [?|(_ & ? & _)]; eauto.
    + intros e C W. destruct (T e (counting_reg _ _ C)) as (x & Hx & _).
      assert (is_waiting (entries y) e = true) as W0.
      { revert W. unfold is_waiting. rewrite Hx. by destruct (Ent e x Hx) as [-> |(_ & -> & _)]. }
      destruct (Qu e C W0) as [Qe Qr]. specialize (Q e Qe W). split; [done|].
      destruct Ho as [-> | ->]; [done|by apply elem_of_nil in Q].
    + intros e -> Nr W. apply elem_of_app. destruct (T e eq_refl) as (x & Hx & Hw).
      destruct (Ent e x Hx) as [Hx'|(Wx & Hx' & Hin)]; [|right; by rewrite <- Hw].
      left. eapply O; [done..|]. revert W. unfold is_waiting. by rewrite Hx, Hx'.
  - eapply sublist_NoDup; [apply I|done].
  - intros e He. apply I. by eapply elem_of_sublist.
Qed.

Lemma queue_length n y : wait_inv n y -> (length (queue y) <= n)%nat.
Proof.
  intros I. etrans; [apply submseteq_length, (NoDup_submseteq _ (omap (fun x => reg (fst x)) (waiters y)))|].
  - apply I.
  - intros e He. destruct (wi_owner _ _ I e He) as (w & pc & r & H & R).
    apply list_elem_of_omap. exists (pc, r). split; [by eapply list_elem_of_lookup_2|done].
  - rewrite <- (wi_length _ _ I). generalize (waiters y).
    induction l as [|x l IH]; cbn; [lia|]. change (list_omap _ _ _ l) with (omap (fun x => reg (fst x)) l).
    destruct (reg (fst x)); simpl; lia.
Qed.

Lemma make_runnable_lookup l w w' pc r :
  make_runnable l w !! w' = Some (pc, r) ->
  if decide (w' = w) then r = Awake /\ exists r0, l !! w' = Some (pc, r0) else l !! w' = Some (pc, r).
Proof.
  unfold make_runnable. case_decide as D; [subst w'|by rewrite list_lookup_alter_ne].
  rewrite list_lookup_alter_eq. destruct (l !! w) as [[pc0 r0]|]; simpl; naive_solver.
Qed.

Lemma runnable_ok n y w p :
  wait_inv n y -> (forall w', w' <> w -> w' ∈ pending y -> w' ∈ p) ->
  wait_inv n (mkWait (shared y) (entries y) (queue y) (make_runnable (waiters y) w) p (owed y)).
Proof.
  intros I P. split; simpl.
  - unfold make_runnable. rewrite length_alter. apply I.
  - intros w' pc r H%make_runnable_lookup. case_decide as D.
    + subst w'. destruct H as (-> & r0 & H). by destruct (wi_waiter _ _ I _ _ _ H) as [A T Q O].
    + destruct (wi_waiter _ _ I _ _ _ H) as [A T Q O]. split; simpl; [done..|]. naive_solver.
  - apply I.
  - intros e He. destruct (wi_owner _ _ I e He) as (w' & pc & r & H & R).
    exists w', pc. unfold make_runnable. destruct (decide (w = w')) as [->|].
    + exists Awake. by rewrite list_lookup_alter_eq, H.
    + exists r. by rewrite list_lookup_alter_ne.
Qed.

(** ** Every step keeps it *)

Lemma step_ok n y w stop quiet : wait_inv n y -> wait_inv n (wait_step ready take_ y w stop quiet).
Proof.
  intros I. unfold wait_step. destruct (waiters y !! w) as [[pc r]|] eqn:H; [|done].
  pose proof (wi_waiter _ _ I _ _ _ H) as K. pose proof K as [A T Q O].
  assert (forall pc' r', waiter_ok y w pc' r' -> reg pc' = reg pc -> wait_inv n (goto y w pc' r')) as Move.
  { intros pc' r' K' E. apply (goto_ok n y w pc r); [done..|]. intros e _. by rewrite E. }
  assert (forall pc' s, waiter_ok (change ready y s) w pc' r -> reg pc' = reg pc ->
    wait_inv n (goto (change ready y s) w pc' r)) as MoveC.
  { intros pc' s K' E. apply (goto_ok n _ w pc r); [by apply change_ok|done..|]. intros e _. by rewrite E. }
  assert (forall e pc' r', reg pc = Some e -> counting pc = None -> reg pc' = None -> r' = Awake ->
    wait_inv n (goto (finish y e) w pc' r')) as Fin.
  { intros e pc' r' R C R' ->. destruct (finish_ok n y w pc r e I H R C) as [I' N].
    apply (goto_ok n _ w pc r); [done|done| |naive_solver]. split; [done| | |]; destruct pc'; naive_solver. }
  destruct pc as [| |e|e|e|e|e|e|e res|res]; simpl in *; try (rewrite (A eq_refl) in * ); try done.
  - destruct (ready w (shared y)); [apply MoveC|apply Move]; done.
  - destruct stop as [[]|]; try (apply Move; done); by apply register_ok.
  - destruct (ready w (shared y)) eqn:Rw; [apply MoveC|apply Move]; try done.
    split; try done. intros e' [= <-] W. split; [by apply Q|congruence].
  - destruct stop; [by apply Move|]. destruct (is_waiting (entries y) e) eqn:W; apply Move; try done.
    split; try done. intros e' [= <-] _. destruct (Q e eq_refl W) as [Qe Qr]. split; [done|]. intros _. by apply Qr.
  - apply Move; [|done]. split; try done. intros e' [= <-] W. destruct (Q e eq_refl W) as [Qe Qr]. split; [done|]. intros _. by apply Qr.
  - assert (forall r', (r' = Awake \/ is_waiting (entries y) e = true) -> waiter_ok y w (Off e) r') as Ko.
    { intros r' Hr. split; try done; [|intros e' [= <-]; destruct Hr; congruence]. intros e' [= <-] W.
      destruct (Q e eq_refl W) as [Qe Qr]. split; [done|]. intros _. by apply Qr. }
    destruct (is_waiting (entries y) e) eqn:W, quiet; apply Move; auto.
  - destruct r; apply Move; try done; split; try done; intros e' [= <-] _ W; by apply (O e).
  - by apply Fin.
  - by apply Fin.
Qed.

Lemma wait_event_ok n y ev :
  Z.of_nat n <= usize_max -> wait_inv n y -> wait_inv n (run_wait_event ready take_ y ev).
Proof.
  intros Ln I. assert (Forall (fun e => (e < length (entries y))%nat) (queue y)) as F.
  { apply Forall_forall. intros e. by apply (queue_lt n y). }
  destruct ev as [w stop quiet|s| |limit|i|w]; simpl.
  - by apply step_ok.
  - by apply change_ok.
  - pose proof (all_empties (fun _ => Alive) (queue y) (entries y)) as Em.
    destruct (wake_all _ (queue y) (entries y)) as [[q ws] es] eqn:E. apply notified_ok; [done| |right].
    + by eapply woke_at_most.
    + apply Em. apply queue_length in I. lia.
  - destruct (wake_at_most _ limit (queue y) (entries y)) as [[q ws] es] eqn:E.
    apply notified_ok; [done|by eapply woke_at_most|by left].
  - destruct (pending y !! i) as [w|] eqn:Hi; [|done]. apply runnable_ok; [done|].
    intros w' N [j Hj]%list_elem_of_lookup. apply list_elem_of_lookup.
    destruct (decide (j < i)%nat).
    + exists j. by rewrite list_lookup_delete_lt.
    + exists (pred j). assert (j <> i) by congruence. rewrite list_lookup_delete_ge by lia.
      by replace (Datatypes.S (pred j)) with j by lia.
  - by apply runnable_ok.
Qed.

Lemma wait_run_ok n evs y :
  Z.of_nat n <= usize_max -> wait_inv n y -> wait_inv n (run_wait_events ready take_ y evs).
Proof.
  intros Ln. revert y. induction evs as [|ev evs IH]; intros y I; [done|].
  simpl. apply IH. by apply wait_event_ok.
Qed.

Lemma off_served n y w e r :
  wait_inv n y -> waiters y !! w = Some (Off e, r) -> r <> Awake -> ready w (shared y) = true ->
  (0 < owed y)%nat \/ w ∈ pending y.
Proof.
  intros I H Nr R. destruct (wi_waiter _ _ I _ _ _ H) as [_ _ Q O].
  destruct (is_waiting (entries y) e) eqn:W; [left|right].
  - by apply (Q e).
  - by apply (O e).
Qed.

(** Steps of [w] alone, undisturbed by deadlines and signals. *)
Fixpoint own_steps (k : nat) (y : WaitSys (S := S)) (w : nat) : WaitSys :=
  match k with 0%nat => y | Datatypes.S k => own_steps k (wait_step ready take_ y w None true) w end.

Definition returned (y : WaitSys (S := S)) (w : nat) : bool :=
  match waiters y !! w with Some (Done _, _) => true | _ => false end.

#[local] Arguments own_steps : simpl never.

(** What one more step of [w] leads to. *)
Lemma near_step k y w pc r :
  waiters (wait_step ready take_ y w None true) !! w = Some (pc, r) ->
  (forall y', waiters y' !! w = Some (pc, r) -> shared y' = shared (wait_step ready take_ y w None true) ->
    entries y' = entries (wait_step ready take_ y w None true) -> returned (own_steps k y' w) w = true) ->
  returned (own_steps (Datatypes.S k) y w) w = true.
Proof. intros H N. by apply (N (wait_step ready take_ y w None true)). Qed.

Lemma goto_lookup (y : WaitSys (S := S)) w x pc r :
  waiters y !! w = Some x -> waiters (goto y w pc r) !! w = Some (pc, r).
Proof. intros H. simpl. apply list_lookup_insert_eq. by apply lookup_lt_Some in H. Qed.

Ltac own H := unfold wait_step; rewrite H; simpl.

Lemma near_done k y w res r : waiters y !! w = Some (Done res, r) -> returned (own_steps k y w) w = true.
Proof.
  revert y. induction k as [|k IH]; intros y H; [unfold returned, own_steps; by rewrite H|].
  apply (near_step k y w (Done res) r); own H; [done|]. intros y' H' _ _. by apply IH.
Qed.

Lemma near_leave k y w e res r :
  waiters y !! w = Some (Leave e res, r) -> returned (own_steps (1 + k) y w) w = true.
Proof.
  intros H. apply (near_step k y w (Done res) r); [|intros y' H' _ _; by eapply near_done].
  own H. rewrite list_lookup_insert_eq; [done|]. by apply lookup_lt_Some in H.
Qed.

Lemma near_cond k y w e r :
  waiters y !! w = Some (Cond e, r) -> ready w (shared y) = true ->
  returned (own_steps (2 + k) y w) w = true.
Proof.
  intros H R. apply (near_step (1 + k) y w (Leave e Ready) r); [|intros y' H' _ _; by eapply near_leave].
  own H. rewrite R. simpl. rewrite list_lookup_insert_eq; [done|]. by apply lookup_lt_Some in H.
Qed.

Lemma near_top k y w r :
  waiters y !! w = Some (Top, r) -> ready w (shared y) = true -> returned (own_steps (3 + k) y w) w = true.
Proof.
  intros H R. pose proof (lookup_lt_Some _ _ _ H).
  apply (near_step (2 + k) y w (Cond (length (entries y))) r); own H.
  - by rewrite list_lookup_insert_eq.
  - intros y' H' E _. eapply near_cond; [done|]. by rewrite E.
Qed.

Lemma near_again k y w e r :
  waiters y !! w = Some (Again e, r) -> ready w (shared y) = true -> returned (own_steps (4 + k) y w) w = true.
Proof.
  intros H R. pose proof (lookup_lt_Some _ _ _ H). apply (near_step (3 + k) y w Top r); own H.
  - by rewrite list_lookup_insert_eq.
  - intros y' H' E _. eapply near_top; [done|]. by rewrite E.
Qed.

Lemma near_off k y w e :
  waiters y !! w = Some (Off e, Awake) -> ready w (shared y) = true -> returned (own_steps (5 + k) y w) w = true.
Proof.
  intros H R. pose proof (lookup_lt_Some _ _ _ H). apply (near_step (4 + k) y w (Again e) Awake); own H.
  - by rewrite list_lookup_insert_eq.
  - intros y' H' E _. eapply near_again; [done|]. by rewrite E.
Qed.

Lemma near_recheck k y w e r :
  waiters y !! w = Some (Recheck e, r) -> ready w (shared y) = true -> is_waiting (entries y) e = false ->
  returned (own_steps (6 + k) y w) w = true.
Proof.
  intros H R W. pose proof (lookup_lt_Some _ _ _ H). apply (near_step (5 + k) y w (Off e) Awake); own H; rewrite W; simpl.
  - by rewrite list_lookup_insert_eq.
  - intros y' H' E _. eapply near_off; [done|]. by rewrite E.
Qed.

Lemma near_sleep k y w e r :
  waiters y !! w = Some (Sleep e, r) -> ready w (shared y) = true -> is_waiting (entries y) e = false ->
  returned (own_steps (7 + k) y w) w = true.
Proof.
  intros H R W. pose proof (lookup_lt_Some _ _ _ H). apply (near_step (6 + k) y w (Recheck e) Dozing); own H.
  - by rewrite list_lookup_insert_eq.
  - intros y' H' E Ee. eapply near_recheck; [done|by rewrite E|by rewrite Ee].
Qed.

Lemma near_checks k y w e r :
  waiters y !! w = Some (Checks e, r) -> ready w (shared y) = true -> is_waiting (entries y) e = false ->
  returned (own_steps (5 + k) y w) w = true.
Proof.
  intros H R W. pose proof (lookup_lt_Some _ _ _ H). apply (near_step (4 + k) y w (Again e) r); own H; rewrite W; simpl.
  - by rewrite list_lookup_insert_eq.
  - intros y' H' E _. eapply near_again; [done|]. by rewrite E.
Qed.

Lemma near_return n y w :
  wait_inv n y -> (w < n)%nat -> owed y = 0%nat -> pending y = [] -> ready w (shared y) = true ->
  returned (own_steps 7 y w) w = true.
Proof.
  intros I Lw Ow Pe R. destruct (waiters y !! w) as [[pc r]|] eqn:H.
  2: { apply lookup_ge_None in H. rewrite (wi_length _ _ I) in H. lia. }
  pose proof (wi_waiter _ _ I _ _ _ H) as [A T Q O].
  assert (forall e, counting pc = Some e -> pc <> Cond e -> is_waiting (entries y) e = false) as Nw.
  { intros e C Nc. apply not_true_is_false. intros W. destruct (Q e C W) as [_ Qr]. specialize (Qr Nc R). lia. }
  destruct pc as [| |e|e|e|e|e|e|e res|res].
  - pose proof (lookup_lt_Some _ _ _ H). apply (near_step 6 y w (Done Ready) r).
    + own H. rewrite R. simpl. by rewrite list_lookup_insert_eq.
    + intros y' H' _ _. by eapply near_done.
  - by eapply (near_top 4).
  - by eapply (near_cond 5).
  - eapply (near_checks 2); [done..|]. by apply Nw.
  - eapply (near_sleep 0); [done..|]. by apply Nw.
  - eapply (near_recheck 1); [done..|]. by apply Nw.
  - assert (r = Awake \/ r <> Awake) as [->|Nr] by (destruct r; auto; by right); [by eapply (near_off 2)|].
    destruct (off_served n y w e r I H Nr R) as [?|Hp]; [lia|]. rewrite Pe in Hp. by apply elem_of_nil in Hp.
  - by eapply (near_again 3).
  - by eapply (near_leave 6).
  - by eapply (near_done 7).
Qed.

(** C14: No wakeup is lost.  Let any number of tasks wait on a queue with
    [wait_event_impl], each for its own condition, and let state changes, wakeups
    (also limited ones), deadlines and signals interleave with every single step of
    theirs.  A task that has committed to sleeping although its condition holds is
    then about to be woken: somebody who made a condition true has still to call
    [wake_all], or a waker has notified it and is about to make it runnable. *)
Theorem wait_no_lost_wakeup n s evs w e r :
  let y := run_wait_events ready take_ (wait_init s n) evs in
  Z.of_nat n <= usize_max ->
  waiters y !! w = Some (Off e, r) -> r <> Awake -> ready w (shared y) = true ->
  (0 < owed y)%nat \/ w ∈ pending y.
Proof.
  intros y Ln H Nr R. eapply off_served; [|done..]. apply wait_run_ok; [done|]. apply wait_init_ok.
Qed.

(** Once every change has been followed by its [wake_all] and the wakers are
    done, a task whose condition holds returns from [wait_event_impl] after at most
    seven steps of its own, wherever in the function it stood. *)
Theorem wait_returns n s evs w :
  let y := run_wait_events ready take_ (wait_init s n) evs in
  Z.of_nat n <= usize_max -> (w < n)%nat ->
  owed y = 0%nat -> pending y = [] -> ready w (shared y) = true ->
  returned (own_steps 7 y w) w = true.
Proof.
  intros y Ln Lw Ow Pe R. eapply near_return; [|done..]. apply wait_run_ok; [done|]. apply wait_init_ok.
Qed.
End safe.

(** Two tasks wait for items in a counter; each takes one. *)
Definition items_ready (w : nat) (items : nat) : bool := (0 <? items)%nat.
Definition items_take (w : nat) (items : nat) : nat := pred items.

Definition own_events (w k : nat) : list (wait_event (S := nat)) := replicate k (VStep w None true).

Lemma wait_no_lost_wakeup_witness :
  let y := run_wait_events items_ready items_take (wait_init 0%nat 1) (own_events 0 7 ++ [VChange 1%nat; VWakeAll]) in
  waiters y !! 0%nat = Some (Off 0, Asleep) /\ ((0 < owed y)%nat \/ 0%nat ∈ pending y).
Proof.
  split; [reflexivity|]. apply (wait_no_lost_wakeup _ _ 1 0%nat _ 0%nat 0%nat Asleep); [vm_compute; congruence|done..].
Defined.

Lemma wait_returns_witness :
  let y := run_wait_events items_ready items_take (wait_init 0%nat 1) (own_events 0 7 ++ [VChange 1%nat; VWakeAll; VRunnable 0]) in
  returned (own_steps items_ready items_take 7 y 0) 0 = true.
Proof.
  apply (wait_returns _ _ 1); [vm_compute; congruence|lia|reflexivity..].
Defined.

(** A limited wake can be swallowed: a task that was notified looks at its deadline
    before its condition, returns [TimedOut], and the other waiter sleeps on beside
    an item that nobody takes. *)
Theorem limited_wake_swallowed :
  let y := run_wait_events items_ready items_take (wait_init 0%nat 2)
    (own_events 0 7 ++ own_events 1 7 ++ [VChange 1%nat; VWakeAtMost 1; VRunnable 0] ++
     own_events 0 2 ++ [VStep 0 (Some TimedOut) true]) in
  waiters y = [(Done TimedOut, Awake); (Off 1, Asleep)] /\ pending y = [] /\
  shared y = 1%nat /\ items_ready 1 (shared y) = true.
Proof. by vm_compute. Qed.
