(* ===== verification/Slice.v ===== *)
(** Slices of arrays of bytes: copies with their bounds kept, and what a copy leaves.

    An array is a list, an index a [nat]; a copy that would leave the array and a
    subtraction that would underflow are [None]. *)

From stdpp Require Import base numbers option list.
From S2P Require Import Prelude.
#[local] Open Scope nat_scope.

Definition copy_out (l : list Z) (at_ n : nat) : option (list Z) :=
  if (at_ + n <=? length l)%nat then Some (take n (drop at_ l)) else None.

Definition copy_in (l : list Z) (at_ : nat) (bs : list Z) : option (list Z) :=
  if (at_ + length bs <=? length l)%nat then Some (take at_ l ++ bs ++ drop (at_ + length bs) l) else None.

Definition sub_checked (a b : nat) : option nat := if (b <=? a)%nat then Some (a - b)%nat else None.

(** Case analysis on comparisons of indexes. *)
Ltac case_nat :=
  repeat match goal with
  | |- context [?a <? ?b] => destruct (Nat.ltb_spec a b)
  | |- context [?a <=? ?b] => destruct (Nat.leb_spec a b)
  | |- context [?a =? ?b] => destruct (Nat.eqb_spec a b)
  | H : context [?a <? ?b] |- _ => destruct (Nat.ltb_spec a b)
  | H : context [?a <=? ?b] |- _ => destruct (Nat.leb_spec a b)
  | H : context [?a =? ?b] |- _ => destruct (Nat.eqb_spec a b)
  end.

Lemma sub_checked_Some a b : b <= a -> sub_checked a b = Some (a - b).
Proof. intros H. unfold sub_checked. by rewrite (proj2 (Nat.leb_le _ _) H). Qed.

Definition sl (l : list Z) (i j : nat) : list Z := take (j - i) (drop i l).

Lemma sl_length l i j : j <= length l -> length (sl l i j) = j - i.
Proof. intros H. unfold sl. rewrite length_take, length_drop. lia. Qed.

Lemma sl_empty l i : sl l i i = [].
Proof. unfold sl. by rewrite Nat.sub_diag. Qed.

Lemma sl_split l i j k : i <= j <= k -> sl l i k = sl l i j ++ sl l j k.
Proof.
  intros H. unfold sl. rewrite <- (take_drop (j - i) (take (k - i) (drop i l))).
  rewrite take_take, skipn_firstn_comm, drop_drop. f_equal; f_equal; [lia|lia|f_equal; lia].
Qed.

Lemma sl_take l i j k : k <= j - i -> take k (sl l i j) = sl l i (i + k).
Proof. intros H. unfold sl. rewrite take_take. f_equal. lia. Qed.

Definition spliced (l : list Z) (t : nat) (bs : list Z) : list Z := take t l ++ bs ++ drop (t + length bs) l.

Section spliced.
Context (l bs : list Z) (t : nat) (Hfit : t + length bs <= length l).

Lemma spliced_length : length (spliced l t bs) = length l.
Proof. unfold spliced. rewrite !length_app, length_take, length_drop. lia. Qed.

Lemma spliced_before i j : j <= t -> sl (spliced l t bs) i j = sl l i j.
Proof.
  intros H. unfold sl, spliced. destruct (decide (i <= j)) as [Hij|]; [|by replace (j - i) with 0 by lia].
  rewrite drop_app_le, take_app_le by (rewrite ?length_drop, length_take; lia).
  rewrite skipn_firstn_comm, take_take. f_equal. lia.
Qed.

Lemma spliced_at : sl (spliced l t bs) t (t + length bs) = bs.
Proof.
  unfold sl, spliced. rewrite drop_app_length' by (rewrite length_take; lia).
  replace (t + length bs - t) with (length bs) by lia. by rewrite take_app_length.
Qed.

Lemma spliced_after i j : t + length bs <= i -> sl (spliced l t bs) i j = sl l i j.
Proof.
  intros H. unfold sl, spliced. rewrite app_assoc.
  rewrite drop_app_ge by (rewrite length_app, length_take; lia). rewrite drop_drop. f_equal. f_equal.
  rewrite length_app, length_take. lia.
Qed.
End spliced.

Lemma copy_out_sl l i n : i + n <= length l -> copy_out l i n = Some (sl l i (i + n)).
Proof.
  intros H. unfold copy_out, sl. rewrite (proj2 (Nat.leb_le _ _) H). do 2 f_equal. lia.
Qed.

Lemma copy_in_spliced l i bs : i + length bs <= length l -> copy_in l i bs = Some (spliced l i bs).
Proof. intros H. unfold copy_in. by rewrite (proj2 (Nat.leb_le _ _) H). Qed.
