(* ===== verification/PipeRing.v ===== *)
(** The byte ring of a pipe ([PipeRingBuffer] of [os/src/fs/dev/pipe.rs]).

    [head] and [tail] are indexes into the first [capacity] bytes of a fixed array;
    equal indexes mean empty or full, which [status] tells apart.  The source copies
    with [copy_nonoverlapping], unchecked: here a copy out of bounds is [None], like
    a failing assertion, and the theorems show that neither happens.  Indexes and
    lengths are [nat]; a subtraction that would wrap in the source is [None] too. *)

From stdpp Require Import base numbers option list.
From S2P Require Import Prelude Slice.

Definition PIPE_PAGE : nat := Z.to_nat 4096.
Definition RING_DEFAULT_BUFFER_SIZE : nat := Z.to_nat 65536.
Definition PIPE_SET_SIZE_MAX : Z := 2 ^ 31.

Inductive RingBufferStatus := FULL | EMPTY | NORMAL.

#[export] Instance RingBufferStatus_eq_dec : EqDecision RingBufferStatus.
Proof. solve_decision. Defined.

Record PipeRingBuffer := mkRing {
  arr : list Z;
  capacity : nat;
  head : nat;
  tail : nat;
  status : RingBufferStatus;
}.

Definition is_status (s : RingBufferStatus) (r : PipeRingBuffer) : bool := bool_decide (status r = s).

(** ** Sizes *)

Definition get_used_size (r : PipeRingBuffer) : option nat :=
  match status r with
  | FULL => Some (capacity r)
  | EMPTY => Some 0%nat
  | NORMAL =>
      if (head r =? tail r)%nat then None
      else if (head r <? tail r)%nat then Some (tail r - head r)%nat
      else sub_checked (tail r + capacity r) (head r)
  end.

Definition get_free_size (r : PipeRingBuffer) : option nat :=
  used ← get_used_size r; sub_checked (capacity r) used.

(** [initial_pipe_capacity] and [new]; [root] and [max_size] are what the caller and
    the limit [PIPE_MAX_SIZE] say. *)
Definition initial_pipe_capacity (root : bool) (max_size : nat) : nat :=
  if root then RING_DEFAULT_BUFFER_SIZE
  else Nat.max (Nat.min max_size RING_DEFAULT_BUFFER_SIZE) PIPE_PAGE.

Definition ring_new (root : bool) (max_size : nat) : PipeRingBuffer :=
  mkRing (replicate RING_DEFAULT_BUFFER_SIZE 0) (initial_pipe_capacity root max_size) 0 0 EMPTY.

Definition set_pipe_max_size (size : Z) : option nat :=
  if (size <? 4096) || (65536 <? size) then None else Some (Z.to_nat size).

(** [set_capacity_compat]; [None] is a panic. *)
Definition set_capacity_compat (r : PipeRingBuffer) (privileged : bool) (max_size : nat) (requested : Z)
    : option (PipeRingBuffer * result nat SyscallErr) :=
  if PIPE_SET_SIZE_MAX <? requested then Some (r, Err EINVAL)
  else
    let requested := Z.max requested 4096 in
    if negb privileged && (Z.of_nat max_size <? requested) then Some (r, Err EPERM)
    else if 65536 <? requested then Some (r, Err EINVAL)
    else
      let new_capacity := Z.to_nat (Z.land (requested + 4096 - 1) (Z.lnot (4096 - 1))) in
      if (RING_DEFAULT_BUFFER_SIZE <? new_capacity)%nat then Some (r, Err EINVAL)
      else
        used ← get_used_size r;
        if (new_capacity <? used)%nat then Some (r, Err EBUSY)
        else
          let r1 := if (used =? 0)%nat then mkRing (arr r) (capacity r) 0 0 EMPTY else r in
          if negb (used =? 0)%nat && ((new_capacity <=? head r)%nat || (new_capacity <? tail r)%nat)
          then Some (r1, Err EBUSY)
          else
            let r2 :=
              if is_status FULL r1 && (used <? new_capacity)%nat
              then let old := take (capacity r1) (arr r1) in
                   mkRing (drop (head r1) old ++ take (head r1) old ++ drop (capacity r1) (arr r1))
                     (capacity r1) 0 used NORMAL
              else r1 in
            Some (mkRing (arr r2) new_capacity (head r2) (tail r2) (status r2), Ok new_capacity).

(** ** Reading *)

(** End of the readable and of the writable stretch before the wrap. *)
Definition read_stop (r : PipeRingBuffer) : nat := if (tail r <=? head r)%nat then capacity r else tail r.
Definition write_stop (r : PipeRingBuffer) : nat := if (tail r <? head r)%nat then head r else capacity r.

Definition next_index (r : PipeRingBuffer) (i : nat) : nat := if (i =? capacity r)%nat then 0%nat else i.

Definition set_head (r : PipeRingBuffer) (i : nat) : PipeRingBuffer :=
  mkRing (arr r) (capacity r) (next_index r i) (tail r)
    (if (next_index r i =? tail r)%nat then EMPTY else NORMAL).

Definition set_tail (r : PipeRingBuffer) (a : list Z) (i : nat) : PipeRingBuffer :=
  mkRing a (capacity r) (head r) (next_index r i)
    (if (head r =? next_index r i)%nat then FULL else NORMAL).

(** The loop of [buffer_read] with [want] bytes of the buffer left to fill. *)
Fixpoint read_loop (fuel : nat) (r : PipeRingBuffer) (want : nat) : option (PipeRingBuffer * list Z) :=
  match fuel with
  | 0%nat => None
  | S fuel =>
      if (want =? 0)%nat || is_status EMPTY r then Some (r, [])
      else
        len ← sub_checked (read_stop r) (head r);
        let n := Nat.min want len in
        if (n =? 0)%nat then Some (r, [])
        else
          bs ← copy_out (arr r) (head r) n;
          '(r, rest) ← read_loop fuel (set_head r (head r + n)) (want - n);
          Some (r, bs ++ rest)
  end.

Definition buffer_read (r : PipeRingBuffer) (want : nat) : option (PipeRingBuffer * list Z) :=
  read_loop (S want) r want.

(** The loop of [read_at_user]: [copy total n] is the number of bytes that reach the
    user buffer at offset [total], or the fault. *)
Fixpoint read_user_loop (copy : nat -> nat -> option nat) (fuel : nat) (r : PipeRingBuffer) (total want : nat)
    : option (PipeRingBuffer * list Z * bool) :=
  match fuel with
  | 0%nat => None
  | S fuel =>
      if (want =? 0)%nat || is_status EMPTY r then Some (r, [], false)
      else
        len ← sub_checked (read_stop r) (head r);
        let n := Nat.min want len in
        if (n =? 0)%nat then Some (r, [], false)
        else
          bs ← copy_out (arr r) (head r) n;
          match copy total n with
          | None => Some (r, [], true)
          | Some k =>
              let r := set_head r (head r + k) in
              if (k <? n)%nat then Some (r, take k bs, false)
              else
                '(r, rest, failed) ← read_user_loop copy fuel r (total + k) (want - k);
                Some (r, take k bs ++ rest, failed)
          end
  end.

(** ** Writing *)

Fixpoint write_loop (fuel : nat) (r : PipeRingBuffer) (buf : list Z) : option (PipeRingBuffer * nat) :=
  match fuel with
  | 0%nat => None
  | S fuel =>
      if (length buf =? 0)%nat || is_status FULL r then Some (r, 0%nat)
      else
        free ← get_free_size r;
        if (free =? 0)%nat then Some (r, 0%nat)
        else
          len ← sub_checked (write_stop r) (tail r);
          let n := Nat.min (Nat.min (length buf) free) len in
          if (n =? 0)%nat then Some (r, 0%nat)
          else
            a ← copy_in (arr r) (tail r) (take n buf);
            '(r, k) ← write_loop fuel (set_tail r a (tail r + n)) (drop n buf);
            Some (r, (n + k)%nat)
  end.

Definition buffer_write (r : PipeRingBuffer) (buf : list Z) : option (PipeRingBuffer * nat) :=
  write_loop (S (length buf)) r buf.

(** The loop of [write_at_user], page by page; [buf] is what the user buffer holds from
    offset [total] on.  A fault may leave bytes behind the tail, where nothing reads
    before they are written again. *)
Fixpoint write_user_loop (copy : nat -> nat -> option nat) (fuel : nat) (r : PipeRingBuffer) (total : nat) (buf : list Z)
    : option (PipeRingBuffer * nat * bool) :=
  match fuel with
  | 0%nat => None
  | S fuel =>
      if (length buf =? 0)%nat || is_status FULL r then Some (r, 0%nat, false)
      else
        free ← get_free_size r;
        len ← sub_checked (write_stop r) (tail r);
        let n := Nat.min (Nat.min (Nat.min (length buf) free) len) PIPE_PAGE in
        if (n =? 0)%nat then Some (r, 0%nat, false)
        else
          _ ← copy_out (arr r) (tail r) n;
          match copy total n with
          | None => Some (r, 0%nat, true)
          | Some k =>
              if (k =? 0)%nat then Some (r, 0%nat, false)
              else
                a ← copy_in (arr r) (tail r) (take k buf);
                let r := set_tail r a (tail r + k) in
                if (k <? n)%nat then Some (r, k, false)
                else
                  '(r, m, failed) ← write_user_loop copy fuel r (total + k) (drop k buf);
                  Some (r, (k + m)%nat, failed)
          end
  end.

(** ** Peeking and moving *)

Fixpoint peek_loop (fuel : nat) (r : PipeRingBuffer) (pos want : nat) : option (list Z) :=
  match fuel with
  | 0%nat => None
  | S fuel =>
      if (want =? 0)%nat then Some []
      else
        len ← sub_checked (if (tail r <=? pos)%nat then capacity r else tail r) pos;
        let n := Nat.min want len in
        if (n =? 0)%nat then Some []
        else
          bs ← copy_out (arr r) pos n;
          rest ← peek_loop fuel r (next_index r (pos + n)) (want - n);
          Some (bs ++ rest)
  end.

Definition peek_data (r : PipeRingBuffer) (want : nat) : option (list Z) :=
  if is_status EMPTY r then Some []
  else
    available ← get_used_size r;
    let n := Nat.min want available in
    peek_loop (S n) r (head r) n.

(** The statuses are set after the loop of [splice_move]; inside it only the indexes
    move. *)
Fixpoint splice_loop (fuel : nat) (src dst : PipeRingBuffer) (remaining : nat)
    : option (PipeRingBuffer * PipeRingBuffer * nat) :=
  match fuel with
  | 0%nat => None
  | S fuel =>
      if (remaining =? 0)%nat then Some (src, dst, 0%nat)
      else
        len ← sub_checked (read_stop src) (head src);
        let n := Nat.min len remaining in
        if (n =? 0)%nat then Some (src, dst, remaining)
        else
          room ← sub_checked (write_stop dst) (tail dst);
          let chunk := Nat.min room n in
          if (chunk =? 0)%nat then Some (src, dst, remaining)
          else
            bs ← copy_out (arr src) (head src) chunk;
            a ← copy_in (arr dst) (tail dst) bs;
            splice_loop fuel
              (mkRing (arr src) (capacity src) (next_index src (head src + chunk)) (tail src) (status src))
              (mkRing a (capacity dst) (head dst) (next_index dst (tail dst + chunk)) (status dst))
              (remaining - chunk)
  end.

Definition splice_move (src dst : PipeRingBuffer) (max_bytes : nat) : option (PipeRingBuffer * PipeRingBuffer * nat) :=
  avail ← get_used_size src;
  space ← get_free_size dst;
  let want := Nat.min (Nat.min max_bytes avail) space in
  if (want =? 0)%nat then Some (src, dst, 0%nat)
  else
    '(src, dst, remaining) ← splice_loop (S want) src dst want;
    let moved := (want - remaining)%nat in
    if (0 <? moved)%nat
    then Some (mkRing (arr src) (capacity src) (head src) (tail src)
                 (if (head src =? tail src)%nat then EMPTY else NORMAL),
               mkRing (arr dst) (capacity dst) (head dst) (tail dst)
                 (if (head dst =? tail dst)%nat then FULL else NORMAL), moved)
    else Some (src, dst, moved).
