(* ===== verification/PipeRingInv.v ===== *)
(** What the operations of PipeRing.v do.

    [ring_safe] holds in every history: no copy leaves the array and no assertion
    fails.  [ring_good] adds that [tail] lies below [capacity]; under it the ring is
    the queue [content]. *)

From stdpp Require Import base numbers option list.
From S2P Require Import Prelude Slice PipeRing.
#[local] Open Scope nat_scope.

(** ** Invariants *)

Record ring_safe (r : PipeRingBuffer) : Prop := {
  rs_arr : length (arr r) = RING_DEFAULT_BUFFER_SIZE;
  rs_cap : capacity r <= RING_DEFAULT_BUFFER_SIZE;
  rs_head : head r < capacity r;
  rs_tail : tail r <= capacity r;
  rs_status : match status r with NORMAL => head r <> tail r | _ => head r = tail r end;
}.

Record ring_good (r : PipeRingBuffer) : Prop := {
  rg_safe : ring_safe r;
  rg_tail : tail r < capacity r;
}.

(** The bytes in the ring, oldest first. *)
Definition content (r : PipeRingBuffer) : list Z :=
  if is_status EMPTY r then []
  else if head r <? tail r then sl (arr r) (head r) (tail r)
  else sl (arr r) (head r) (capacity r) ++ sl (arr r) 0 (tail r).

Lemma used_bounded r : ring_safe r -> exists u, get_used_size r = Some u /\ u <= capacity r.
Proof.
  intros [A C H T St]. unfold get_used_size, sub_checked. destruct (status r); [by eexists|eexists; split; [done|lia]|].
  case_nat; try lia; eexists; (split; [done|lia]).
Qed.

Lemma free_bounded r : ring_safe r -> exists f, get_free_size r = Some f /\ f <= capacity r.
Proof.
  intros S. destruct (used_bounded r S) as (u & E & L). unfold get_free_size, sub_checked. rewrite E. simpl.
  case_nat; [|lia]. eexists. split; [done|lia].
Qed.

Lemma content_length r : ring_safe r -> get_used_size r = Some (length (content r)).
Proof.
  intros [A C H T St]. unfold get_used_size, content, is_status, sub_checked.
  destruct (status r); simpl; case_nat; try lia; rewrite ?length_app, ?sl_length by lia; f_equal; lia.
Qed.

Lemma content_free r : ring_safe r ->
  get_free_size r = Some (capacity r - length (content r)) /\ length (content r) <= capacity r.
Proof.
  intros G. destruct (used_bounded r G) as (u & E & L). rewrite content_length in E by done.
  unfold get_free_size, sub_checked. rewrite content_length by done. simpl. simplify_eq. case_nat; [done|lia].
Qed.

Lemma content_empty r : ring_safe r -> is_status EMPTY r = bool_decide (content r = []).
Proof.
  intros G. pose proof (content_length r G) as L. destruct G as [A C H T St]. unfold is_status.
  unfold get_used_size, sub_checked in L. destruct (status r) eqn:E; simpl.
  - symmetry. apply bool_decide_eq_false. intros E0. rewrite E0 in L. simpl in L. simplify_eq. lia.
  - rewrite bool_decide_eq_true_2; [done|]. unfold content, is_status. by rewrite E.
  - symmetry. apply bool_decide_eq_false. intros E0. rewrite E0 in L. case_nat; simplify_eq/=; lia.
Qed.

Lemma content_full r : ring_good r -> is_status FULL r = (length (content r) =? capacity r).
Proof.
  intros [S Tl]. pose proof (content_length r S) as L. destruct S as [A C H T St]. unfold is_status.
  unfold get_used_size, sub_checked in L. destruct (status r); simpl; case_nat; simplify_eq/=; (done || lia).
Qed.

(** The status an operation sets. *)
Definition with_status (r : PipeRingBuffer) (s : RingBufferStatus) : PipeRingBuffer :=
  mkRing (arr r) (capacity r) (head r) (tail r) s.

Definition after_read (r : PipeRingBuffer) : PipeRingBuffer :=
  with_status r (if head r =? tail r then EMPTY else NORMAL).
Definition after_write (r : PipeRingBuffer) : PipeRingBuffer :=
  with_status r (if head r =? tail r then FULL else NORMAL).

(** ** One chunk *)

Lemma read_chunk r :
  ring_safe r -> is_status EMPTY r = false ->
  exists len, sub_checked (read_stop r) (head r) = Some len /\ 0 < len /\ head r + len <= capacity r.
Proof.
  intros [A C H T St] E. unfold read_stop, sub_checked, is_status in *.
  case_nat; try lia; eexists; (split; [done|]); destruct (status r); try done; lia.
Qed.

Lemma set_head_safe r n : ring_safe r -> head r + n <= capacity r -> ring_safe (set_head r (head r + n)).
Proof. intros [A C H T St] L. unfold set_head, next_index. split; simpl; [done|done|..]; case_nat; simpl; lia. Qed.

Lemma set_head_content r n len :
  ring_good r -> is_status EMPTY r = false ->
  sub_checked (read_stop r) (head r) = Some len -> 0 < n <= len ->
  ring_good (set_head r (head r + n)) /\
  content r = sl (arr r) (head r) (head r + n) ++ content (set_head r (head r + n)).
Proof.
  intros [S Tl] E L Hn. assert (head r + n <= capacity r) as Hc.
  { destruct (read_chunk r S E) as (len' & L' & ? & ?). simplify_eq. lia. }
  split; [split; [by apply set_head_safe|done]|]. destruct S as [A C H T St].
  unfold content. rewrite E. unfold is_status, set_head, next_index, read_stop, sub_checked in *. simpl.
  case_nat; simplify_eq; simpl; try lia; rewrite ?app_nil_r.
  - by rewrite <- sl_split by lia.
  - f_equal. lia.
  - do 2 f_equal. lia.
  - replace (tail r) with 0 by lia. rewrite sl_empty, app_nil_r. f_equal. lia.
  - rewrite app_assoc. by rewrite <- sl_split by lia.
Qed.

Lemma write_chunk r :
  ring_safe r -> exists len, sub_checked (write_stop r) (tail r) = Some len /\ tail r + len <= capacity r.
Proof. intros [A C H T St]. unfold write_stop, sub_checked. case_nat; try lia; eexists; (split; [done|]); lia. Qed.

Lemma set_tail_safe r bs :
  ring_safe r -> tail r + length bs <= capacity r ->
  ring_safe (set_tail r (spliced (arr r) (tail r) bs) (tail r + length bs)).
Proof.
  intros [A C H T St] L. unfold set_tail, next_index. split; simpl; [rewrite spliced_length; lia|done|done|..];
    case_nat; simpl; lia.
Qed.

Lemma set_tail_content r bs len :
  ring_good r -> is_status FULL r = false ->
  sub_checked (write_stop r) (tail r) = Some len -> 0 < length bs <= len ->
  let r' := set_tail r (spliced (arr r) (tail r) bs) (tail r + length bs) in
  ring_good r' /\ content r' = content r ++ bs.
Proof.
  intros [S Tl] E L Hn r'. destruct (write_chunk r S) as (len' & L' & Hc). simplify_eq.
  assert (tail r + length bs <= length (arr r)) as Hfit by (destruct S; lia).
  split; [split; [apply set_tail_safe; [done|lia]|]|].
  { unfold r', set_tail, next_index. simpl. case_nat; lia. }
  assert (forall i, i <= tail r -> sl (arr r) i (tail r) ++ bs = sl (spliced (arr r) (tail r) bs) i (tail r + length bs)) as Hs.
  { intros i Hi. rewrite (sl_split (spliced _ _ _) i (tail r)), spliced_at, spliced_before by lia. done. }
  destruct S as [A C H T St]. unfold content, r'.
  unfold is_status, set_tail, next_index, write_stop, sub_checked in *. simpl.
  destruct (status r); [done|..]; simpl; case_nat; simplify_eq; simpl; try lia;
    rewrite ?sl_empty, ?app_nil_r, <- ?app_assoc, ?Hs, ?spliced_after by lia; try done.
  all: try (f_equal; lia); try (replace (capacity r) with (tail r + length bs) by lia); by rewrite St, spliced_at.
Qed.

(** ** Reading *)

(** [bs] was taken off the ring. *)
Record took (r : PipeRingBuffer) (bs : list Z) (r' : PipeRingBuffer) : Prop := {
  tk_safe : ring_safe r';
  tk_cap : capacity r' = capacity r;
  tk_content : ring_good r -> ring_good r' /\ content r = bs ++ content r';
}.

Lemma took_nil r : ring_safe r -> took r [] r.
Proof. by split. Qed.

Lemma took_app r1 r2 r3 bs bs' : took r1 bs r2 -> took r2 bs' r3 -> took r1 (bs ++ bs') r3.
Proof.
  intros [S C G] [S' C' G']. split; [done|congruence|]. intros Gd. destruct (G Gd) as [G2 E]. destruct (G' G2) as [G3 E'].
  split; [done|]. by rewrite E, E', app_assoc.
Qed.

Lemma took_chunk r n len :
  ring_safe r -> is_status EMPTY r = false -> sub_checked (read_stop r) (head r) = Some len -> 0 < n <= len ->
  copy_out (arr r) (head r) n = Some (sl (arr r) (head r) (head r + n)) /\
  length (sl (arr r) (head r) (head r + n)) = n /\
  took r (sl (arr r) (head r) (head r + n)) (set_head r (head r + n)).
Proof.
  intros S E L Hn. destruct (read_chunk r S E) as (len' & L' & _ & Hc). simplify_eq.
  assert (head r + n <= length (arr r)) by (destruct S; lia).
  rewrite copy_out_sl, sl_length by lia. split; [done|]. split; [lia|]. split; [apply set_head_safe; [done|lia]|done|].
  intros G. by eapply set_head_content.
Qed.

(** A loop that stops at once. *)
Ltac stops := split_and!; simpl; first [done | by apply took_nil | lia | tauto | naive_solver].

Lemma read_loop_took fuel r want :
  ring_safe r -> want < fuel ->
  exists r' bs, read_loop fuel r want = Some (r', bs) /\ took r bs r' /\ length bs <= want /\
    (length bs = want \/ is_status EMPTY r' = true) /\ (bs = [] /\ r' = r \/ bs <> [] /\ after_read r' = r').
Proof.
  revert r want. induction fuel as [|fuel IH]; intros r want S L; [lia|]. simpl.
  destruct (Nat.eqb_spec want 0) as [->|Hz]; [exists r, []; stops|].
  destruct (is_status EMPTY r) eqn:E; simpl; [exists r, []; stops|].
  destruct (read_chunk r S E) as (len & El & Hl & Hc). rewrite El. simpl. set (n := Nat.min want len).
  destruct (Nat.eqb_spec n 0) as [?|_]; [lia|].
  destruct (took_chunk r n len S E El ltac:(lia)) as (-> & Ln & K). simpl.
  destruct (IH (set_head r (head r + n)) (want - n) (tk_safe _ _ _ K) ltac:(lia)) as (r' & bs & -> & K' & Lb & Lx & Ar).
  simpl. eexists _, _. split; [done|]. rewrite length_app, Ln. split; [by eapply took_app|]. split; [lia|].
  split; [destruct Lx; [left; lia|by right]|]. right.
  split; [intros E0; apply app_eq_nil in E0 as [E0 _]; rewrite E0 in Ln; simpl in Ln; lia|].
  by destruct Ar as [[_ ->]|[_ Ar]].
Qed.

(** A user buffer takes at least one byte of a chunk, or faults. *)
Definition user_copy (copy : nat -> nat -> option nat) : Prop :=
  forall total n k, copy total n = Some k -> 0 < n -> 0 < k <= n.

Lemma read_user_loop_took copy fuel r total want :
  user_copy copy -> ring_safe r -> want < fuel ->
  exists r' bs failed, read_user_loop copy fuel r total want = Some (r', bs, failed) /\ took r bs r' /\
    length bs <= want /\ (bs = [] -> failed = true \/ want = 0 \/ is_status EMPTY r = true).
Proof.
  intros U. revert r total want. induction fuel as [|fuel IH]; intros r total want S L; [lia|]. simpl.
  destruct (Nat.eqb_spec want 0) as [->|Hz]; [exists r, [], false; stops|].
  destruct (is_status EMPTY r) eqn:E; simpl; [exists r, [], false; stops|].
  destruct (read_chunk r S E) as (len & El & Hl & Hc). rewrite El. simpl. set (n := Nat.min want len).
  destruct (Nat.eqb_spec n 0) as [?|_]; [lia|].
  destruct (took_chunk r n len S E El ltac:(lia)) as (-> & Ln & _). simpl.
  destruct (copy total n) as [k|] eqn:Ek; [|exists r, [], true; stops].
  pose proof (U _ _ _ Ek ltac:(lia)) as Hk. rewrite sl_take by lia.
  destruct (took_chunk r k len S E El ltac:(lia)) as (_ & Lk & K).
  assert (sl (arr r) (head r) (head r + k) <> []) as Ne by (intros E0; rewrite E0 in Lk; simpl in Lk; lia).
  destruct (k <? n); [eexists _, _, _; split; [done|]; split; [done|]; split; [lia|done]|].
  destruct (IH (set_head r (head r + k)) (total + k) (want - k) (tk_safe _ _ _ K) ltac:(lia)) as (r' & bs & fd & -> & K' & Lb & _).
  simpl. eexists _, _, _. split; [done|]. rewrite length_app, Lk. split; [by eapply took_app|]. split; [lia|].
  by intros [E0 _]%app_eq_nil.
Qed.

(** ** Writing *)

(** [bs] was put on the ring. *)
Record put_on (r : PipeRingBuffer) (bs : list Z) (r' : PipeRingBuffer) : Prop := {
  po_safe : ring_safe r';
  po_cap : capacity r' = capacity r;
  po_content : ring_good r -> ring_good r' /\ content r' = content r ++ bs;
}.

Lemma put_nil r : ring_safe r -> put_on r [] r.
Proof. split; [done|done|]. by rewrite app_nil_r. Qed.

Lemma put_app r1 r2 r3 bs bs' : put_on r1 bs r2 -> put_on r2 bs' r3 -> put_on r1 (bs ++ bs') r3.
Proof.
  intros [S C G] [S' C' G']. split; [done|congruence|]. intros Gd. destruct (G Gd) as [G2 E]. destruct (G' G2) as [G3 E'].
  split; [done|]. by rewrite E', E, app_assoc.
Qed.

Lemma put_chunk r bs len :
  ring_safe r -> is_status FULL r = false -> sub_checked (write_stop r) (tail r) = Some len -> 0 < length bs <= len ->
  copy_in (arr r) (tail r) bs = Some (spliced (arr r) (tail r) bs) /\
  put_on r bs (set_tail r (spliced (arr r) (tail r) bs) (tail r + length bs)).
Proof.
  intros S E L Hn. destruct (write_chunk r S) as (len' & L' & Hc). simplify_eq.
  split; [apply copy_in_spliced; destruct S; lia|]. split; [apply set_tail_safe; [done|lia]|done|].
  intros G. by eapply set_tail_content.
Qed.

Lemma write_room r free len :
  ring_good r -> is_status FULL r = false -> get_free_size r = Some free ->
  sub_checked (write_stop r) (tail r) = Some len -> free <> 0 /\ len <> 0.
Proof.
  intros G E Ef El. destruct (content_free r (rg_safe r G)) as [Ef' Lc]. rewrite content_full in E by done. apply Nat.eqb_neq in E.
  simplify_eq. split; [lia|]. destruct G as [[_ _ ? ? ?] ?]. unfold write_stop, sub_checked in El. case_nat; simplify_eq; lia.
Qed.

Lemma write_room_empty r free len :
  ring_safe r -> is_status EMPTY r = true -> get_free_size r = Some free ->
  sub_checked (write_stop r) (tail r) = Some len -> free <> 0 /\ len <> 0.
Proof.
  intros [A C H T St] E Ef El. apply bool_decide_eq_true in E. rewrite E in St.
  unfold get_free_size, get_used_size, sub_checked, write_stop in *. rewrite E in Ef. simpl in Ef.
  case_nat; simplify_eq; lia.
Qed.

Lemma write_loop_put fuel r buf :
  ring_safe r -> length buf < fuel ->
  exists r' k, write_loop fuel r buf = Some (r', k) /\ k <= length buf /\ put_on r (take k buf) r' /\
    (ring_good r -> k = length buf \/ is_status FULL r' = true) /\ (k = 0 /\ r' = r /\ (length buf = 0 \/ is_status EMPTY r = false) \/ 0 < k /\ after_write r' = r').
Proof.
  revert r buf. induction fuel as [|fuel IH]; intros r buf S L; [lia|]. simpl.
  destruct (Nat.eqb_spec (length buf) 0) as [Hz|Hz]; [exists r, 0; split_and!; simpl; [done|lia|by apply put_nil|intros _; first [by right|left; lia]|left; split; [done|]; split; [done|]; by left]|].
  destruct (is_status FULL r) eqn:E; simpl; [exists r, 0; split_and!; simpl; [done|lia|by apply put_nil|intros _; first [by right|left; lia]|left; split; [done|]; split; [done|]; right; unfold is_status in *; apply bool_decide_eq_true in E; by rewrite E]|].
  destruct (free_bounded r S) as (free & Ef & _). rewrite Ef. simpl.
  destruct (write_chunk r S) as (len & El & Hc). rewrite El. simpl.
  assert (ring_good r -> free <> 0 /\ len <> 0) as Pos by eauto using write_room.
  assert (free = 0 \/ len = 0 -> is_status EMPTY r = false) as Ne.
  { intros Hfl. apply not_true_is_false. intros E'. destruct (write_room_empty r free len S E' Ef El). lia. }
  destruct (Nat.eqb_spec free 0) as [Hf|Hf]; [exists r, 0; split; [done|]; split; [lia|]; split; [by apply put_nil|]; split; [tauto|left; do 2 (split; [done|]); right; apply Ne; by left]|].
  set (n := Nat.min (Nat.min (length buf) free) len).
  destruct (Nat.eqb_spec n 0) as [Hn|Hn]; [exists r, 0; split; [done|]; split; [lia|]; split; [by apply put_nil|]; split; [intros G; specialize (Pos G); lia|left; do 2 (split; [done|]); right; apply Ne; lia]|].
  assert (length (take n buf) = n) as Ln by (rewrite length_take; lia).
  destruct (put_chunk r (take n buf) len S E El ltac:(lia)) as (-> & K). rewrite Ln in K. simpl.
  destruct (IH (set_tail r (spliced (arr r) (tail r) (take n buf)) (tail r + n)) (drop n buf)) as (r' & k & -> & Lk & K' & Full & Aw);
    [apply K|rewrite length_drop; lia|]. simpl. rewrite length_drop in Lk, Full.
  exists r', (n + k). split; [done|]. split; [lia|]. rewrite <- (take_drop n buf) at 1.
  replace (take (n + k) (take n buf ++ drop n buf)) with (take n buf ++ take k (drop n buf)).
  - split; [by eapply put_app|]. split; [|right; split; [lia|]; by destruct Aw as [(_ & -> & _)|[_ Aw]]].
    intros G. destruct (Full (proj1 (po_content _ _ _ K G))); [left; lia|by right].
  - rewrite take_app_ge by lia. do 2 f_equal. lia.
Qed.

Lemma write_user_loop_put copy fuel r total buf :
  user_copy copy -> ring_safe r -> length buf < fuel ->
  exists r' k failed, write_user_loop copy fuel r total buf = Some (r', k, failed) /\ k <= length buf /\
    put_on r (take k buf) r' /\
    (ring_good r -> k = 0 -> failed = true \/ length buf = 0 \/ is_status FULL r = true).
Proof.
  intros U. revert r total buf. induction fuel as [|fuel IH]; intros r total buf S L; [lia|]. simpl.
  assert (forall b : bool, (ring_good r -> b = true \/ length buf = 0 \/ is_status FULL r = true) ->
    exists r' k failed, Some (r, 0, b) = Some (r', k, failed) /\ k <= length buf /\ put_on r (take k buf) r' /\
      (ring_good r -> k = 0 -> failed = true \/ length buf = 0 \/ is_status FULL r = true)) as Stop.
  { intros b Hb. exists r, 0, b. split_and!; [done|lia|by apply put_nil|auto]. }
  destruct (Nat.eqb_spec (length buf) 0) as [Hz|Hz]; simpl; [by apply Stop; auto|].
  destruct (is_status FULL r) eqn:E; simpl; [by apply Stop; auto|].
  destruct (free_bounded r S) as (free & Ef & _). rewrite Ef. simpl.
  destruct (write_chunk r S) as (len & El & Hc). rewrite El. simpl.
  set (n := Nat.min (Nat.min (Nat.min (length buf) free) len) PIPE_PAGE).
  destruct (Nat.eqb_spec n 0) as [Hn|Hn].
  { apply Stop. intros G. destruct (write_room r free len G E Ef El). exfalso. unfold PIPE_PAGE in n. lia. }
  rewrite copy_out_sl by (destruct S; lia). simpl.
  destruct (copy total n) as [k|] eqn:Ek; [|by apply Stop; auto].
  pose proof (U _ _ _ Ek ltac:(lia)) as Hk. destruct (Nat.eqb_spec k 0) as [?|_]; [lia|].
  assert (length (take k buf) = k) as Lk by (rewrite length_take; lia).
  destruct (put_chunk r (take k buf) len S E El ltac:(lia)) as (-> & K). rewrite Lk in K. simpl.
  destruct (k <? n); [eexists _, _, _; split; [done|]; split; [lia|]; split; [done|lia]|].
  destruct (IH (set_tail r (spliced (arr r) (tail r) (take k buf)) (tail r + k)) (total + k) (drop k buf))
    as (r' & m & fd & -> & Lm & K' & _); [apply K|rewrite length_drop; lia|]. simpl. rewrite length_drop in Lm.
  exists r', (k + m), fd. split; [done|]. split; [lia|]. split; [|lia].
  rewrite <- (take_drop k buf) at 1. rewrite take_app_ge by lia.
  replace (k + m - length (take k buf)) with m by lia. by eapply put_app.
Qed.

(** ** Peeking *)

Lemma peek_loop_spec fuel r pos want rest :
  ring_safe r -> want < fuel -> pos < capacity r -> want <= length rest ->
  (if tail r <=? pos then sl (arr r) pos (capacity r) ++ sl (arr r) 0 (tail r) else sl (arr r) pos (tail r)) = rest ->
  peek_loop fuel r pos want = Some (take want rest).
Proof.
  revert pos want rest. induction fuel as [|fuel IH]; intros pos want rest S L Hp Hw Er; [lia|]. simpl.
  destruct (Nat.eqb_spec want 0) as [->|Hz]; [done|].
  set (stop := if tail r <=? pos then capacity r else tail r).
  assert (pos < stop <= capacity r) as Hs by (unfold stop; destruct S; case_nat; lia).
  unfold sub_checked. destruct (Nat.leb_spec pos stop); [|lia]. simpl. set (n := Nat.min want (stop - pos)).
  destruct (Nat.eqb_spec n 0); [lia|]. rewrite copy_out_sl by (destruct S; lia). simpl.
  assert (exists rest', rest = sl (arr r) pos (pos + n) ++ rest' /\ (want - n = 0 \/
    (if tail r <=? next_index r (pos + n) then sl (arr r) (next_index r (pos + n)) (capacity r) ++ sl (arr r) 0 (tail r)
     else sl (arr r) (next_index r (pos + n)) (tail r)) = rest')) as (rest' & -> & Hr).
  { destruct S as [A C Hh T St]. unfold stop, next_index in *. destruct (Nat.leb_spec (tail r) pos).
    - exists (sl (arr r) (pos + n) (capacity r) ++ sl (arr r) 0 (tail r)).
      rewrite app_assoc, <- sl_split by lia. split; [done|]. destruct (Nat.eqb_spec (pos + n) (capacity r)) as [E|E].
      + rewrite E, sl_empty. simpl. destruct (Nat.leb_spec (tail r) 0); [left|by right].
        rewrite <- Er, length_app, !sl_length in Hw by lia. lia.
      + right. destruct (Nat.leb_spec (tail r) (pos + n)); [done|lia].
    - exists (sl (arr r) (pos + n) (tail r)). rewrite <- sl_split by lia. split; [done|].
      destruct (Nat.eq_dec (want - n) 0); [by left|]. rewrite <- Er, sl_length in Hw by lia. lia. }
  assert (length (sl (arr r) pos (pos + n)) = n) as Ln by (rewrite sl_length by (destruct S; lia); lia).
  rewrite length_app, Ln in Hw. rewrite take_app_ge, Ln by lia.
  destruct Hr as [Hr|Hr].
  - rewrite Hr. destruct fuel; [lia|]. done.
  - rewrite (IH _ _ rest'); [done|done|lia|unfold next_index; case_nat; destruct S; lia|lia|done].
Qed.

#[local] Arguments peek_loop : simpl never.

Lemma peek_content r want : ring_safe r -> peek_data r want = Some (take want (content r)).
Proof.
  intros G. unfold peek_data. destruct (is_status EMPTY r) eqn:E.
  { rewrite content_empty in E by done. apply bool_decide_eq_true in E. by rewrite E, take_nil. }
  rewrite content_length by done. simpl. pose proof G as [A C H T St].
  rewrite (peek_loop_spec _ _ _ _ (content r)); [f_equal; rewrite <- take_take; by rewrite (firstn_all (content r))|done|lia|done|lia|].
  unfold content. rewrite E. case_nat; try lia; done.
Qed.

(** ** Moving between rings *)


Lemma with_status_same r : with_status r (status r) = r.
Proof. by destruct r. Qed.

(** Indexes in range, whatever the status says. *)
Record idx_ok (r : PipeRingBuffer) : Prop := {
  io_arr : length (arr r) = RING_DEFAULT_BUFFER_SIZE;
  io_cap : capacity r <= RING_DEFAULT_BUFFER_SIZE;
  io_head : head r < capacity r;
  io_tail : tail r <= capacity r;
}.

Lemma safe_idx r : ring_safe r -> idx_ok r.
Proof. by intros []. Qed.

Lemma after_read_safe r : idx_ok r -> ring_safe (after_read r).
Proof. intros []. split; simpl; [done..|]. case_nat; done. Qed.

Lemma after_write_safe r : idx_ok r -> ring_safe (after_write r).
Proof. intros []. split; simpl; [done..|]. case_nat; done. Qed.

(** One turn of the loop in terms of the chunk operations. *)
Definition moved_src (r : PipeRingBuffer) (n : nat) : PipeRingBuffer :=
  mkRing (arr r) (capacity r) (next_index r (head r + n)) (tail r) (status r).
Definition moved_dst (r : PipeRingBuffer) (bs : list Z) : PipeRingBuffer :=
  mkRing (spliced (arr r) (tail r) bs) (capacity r) (head r) (next_index r (tail r + length bs)) (status r).

Lemma moved_src_eq r s n : after_read (moved_src r n) = set_head (with_status r s) (head r + n).
Proof. done. Qed.

Lemma moved_dst_eq r s bs :
  after_write (moved_dst r bs) = set_tail (with_status r s) (spliced (arr r) (tail r) bs) (tail r + length bs).
Proof. done. Qed.

Lemma moved_idx src dst n bs :
  idx_ok src -> idx_ok dst -> head src + n <= capacity src -> tail dst + length bs <= capacity dst ->
  idx_ok (moved_src src n) /\ idx_ok (moved_dst dst bs).
Proof.
  intros [A C H T] [A' C' H' T'] Ls Ld. unfold moved_src, moved_dst, next_index.
  split; split; simpl; rewrite ?spliced_length by lia; case_nat; lia.
Qed.

Lemma splice_room dst s rem :
  ring_good (with_status dst s) -> 0 < rem -> rem + length (content (with_status dst s)) <= capacity dst ->
  is_status FULL (with_status dst s) = false /\ tail dst < write_stop dst.
Proof.
  intros G Hr Hd. assert (is_status FULL (with_status dst s) = false) as Nf.
  { rewrite content_full by done. apply Nat.eqb_neq. simpl. lia. }
  split; [done|]. destruct (content_free _ (rg_safe _ G)) as [Ef _].
  destruct (write_chunk _ (rg_safe _ G)) as (len & El & _). destruct (write_room _ _ len G Nf Ef El) as [_ Hl].
  unfold sub_checked in El. change (write_stop (with_status dst s)) with (write_stop dst) in El. simpl in El.
  case_nat; simplify_eq; lia.
Qed.

Lemma splice_turn src dst s1 s2 chunk :
  ring_good (with_status src s1) -> ring_good (with_status dst s2) ->
  0 < chunk -> chunk <= length (content (with_status src s1)) -> chunk + length (content (with_status dst s2)) <= capacity dst ->
  chunk <= read_stop src - head src -> chunk <= write_stop dst - tail dst ->
  let bs := sl (arr src) (head src) (head src + chunk) in
  took (with_status src s1) bs (after_read (moved_src src chunk)) /\
  put_on (with_status dst s2) bs (after_write (moved_dst dst bs)).
Proof.
  intros G1 G2 Hc Hs Hd Hr Hw bs. destruct (splice_room dst s2 chunk G2 Hc Hd) as [Nf _].
  assert (is_status EMPTY (with_status src s1) = false) as Ne.
  { rewrite content_empty by apply G1. apply bool_decide_eq_false. intros E. rewrite E in Hs. simpl in Hs. lia. }
  assert (sub_checked (read_stop (with_status src s1)) (head (with_status src s1)) = Some (read_stop src - head src)) as El.
  { change (read_stop (with_status src s1)) with (read_stop src). simpl. unfold sub_checked. case_nat; [done|lia]. }
  destruct (took_chunk _ chunk _ (rg_safe _ G1) Ne El ltac:(lia)) as (_ & Lb & K). split; [done|].
  rewrite (moved_dst_eq dst s2). eapply (put_chunk (with_status dst s2) bs (write_stop dst - tail dst)); [apply G2|done| |].
  - change (write_stop (with_status dst s2)) with (write_stop dst). simpl. unfold sub_checked. case_nat; [done|lia].
  - simpl in Lb. fold bs in Lb. lia.
Qed.

(** The loop, on rings whose indexes are in range; and when the statuses [s1], [s2] make
    them queues that hold and take [rem] bytes, these bytes move. *)
Lemma splice_loop_moves fuel src dst rem :
  idx_ok src -> idx_ok dst -> rem < fuel ->
  exists src' dst' rem', splice_loop fuel src dst rem = Some (src', dst', rem') /\ rem' <= rem /\
    idx_ok src' /\ idx_ok dst' /\ (rem' = rem -> src' = src /\ dst' = dst) /\
    forall s1 s2, ring_good (with_status src s1) -> ring_good (with_status dst s2) ->
      0 < rem <= length (content (with_status src s1)) ->
      rem + length (content (with_status dst s2)) <= capacity dst ->
      rem' = 0 /\ exists bs, length bs = rem /\ took (with_status src s1) bs (after_read src') /\
        put_on (with_status dst s2) bs (after_write dst').
Proof.
  revert src dst rem. induction fuel as [|fuel IH]; intros src dst rem Is Id L; [lia|]. simpl.
  destruct (Nat.eqb_spec rem 0) as [->|Hz]; [exists src, dst, 0; split_and!; (done || lia)|].
  unfold sub_checked. assert (head src < read_stop src <= capacity src) as Hr
    by (destruct Is; unfold read_stop; case_nat; lia).
  destruct (Nat.leb_spec (head src) (read_stop src)) as [_|]; [|lia]. simpl.
  set (n := Nat.min (read_stop src - head src) rem). destruct (Nat.eqb_spec n 0) as [?|_]; [lia|].
  assert (tail dst <= write_stop dst <= capacity dst) as Hw by (destruct Id; unfold write_stop; case_nat; lia).
  destruct (Nat.leb_spec (tail dst) (write_stop dst)) as [_|]; [|lia]. simpl.
  set (chunk := Nat.min (write_stop dst - tail dst) n). destruct (Nat.eqb_spec chunk 0) as [Hc|Hc].
  { exists src, dst, rem. split; [done|]; split; [lia|]; do 2 (split; [done|]); split; [auto|]. intros s1 s2 G1 G2 Hs Hd.
    destruct (splice_room dst s2 rem G2); [lia|done|lia]. }
  set (bs := sl (arr src) (head src) (head src + chunk)).
  assert (length bs = chunk) as Lb by (unfold bs; rewrite sl_length by (destruct Is; lia); lia).
  rewrite copy_out_sl by (destruct Is; lia). simpl. fold bs.
  rewrite copy_in_spliced by (destruct Id; lia). simpl.
  destruct (moved_idx src dst chunk bs Is Id ltac:(lia) ltac:(lia)) as [Is' Id'].
  destruct (IH (moved_src src chunk) (moved_dst dst bs) (rem - chunk) Is' Id' ltac:(lia))
    as (src' & dst' & rem' & E & Lr & Is2 & Id2 & Same & Good).
  unfold moved_src, moved_dst in E. rewrite Lb in E. rewrite E.
  exists src', dst', rem'. split; [done|]. split; [lia|]. split; [done|]. split; [done|]. split; [lia|].
  intros s1 s2 G1 G2 Hs Hd.
  destruct (splice_turn src dst s1 s2 chunk G1 G2 ltac:(lia) ltac:(lia) ltac:(lia) ltac:(lia) ltac:(lia)) as [K1 K2].
  fold bs in K1, K2. destruct (tk_content _ _ _ K1 G1) as [G1' C1]. destruct (po_content _ _ _ K2 G2) as [G2' C2].
  rewrite C1, length_app, Lb in Hs. destruct (Nat.eq_dec (rem - chunk) 0) as [Hz'|Hz'].
  - assert (rem' = rem - chunk) as Er by lia. destruct (Same Er) as [-> ->]. split; [lia|]. exists bs. split; [lia|done].
  - unfold after_read in Hs, G1'; unfold after_write in C2, G2'. destruct (Good _ _ G1' G2') as (-> & bs' & Lb' & K1' & K2'); [lia|rewrite C2, length_app; simpl; lia|].
    split; [done|]. exists (bs ++ bs'). rewrite length_app. split; [lia|].
    split; [by eapply took_app|by eapply put_app].
Qed.

#[local] Arguments splice_loop : simpl never.

Lemma splice_move_moves src dst max_bytes :
  ring_safe src -> ring_safe dst ->
  exists src' dst' moved, splice_move src dst max_bytes = Some (src', dst', moved) /\ ring_safe src' /\ ring_safe dst' /\
    (ring_good src -> ring_good dst ->
      moved = Nat.min (Nat.min max_bytes (length (content src))) (capacity dst - length (content dst)) /\
      exists bs, length bs = moved /\ took src bs src' /\ put_on dst bs dst').
Proof.
  intros S1 S2. unfold splice_move. destruct (content_free dst S2) as [Ef Lf]. rewrite content_length, Ef by done. simpl.
  set (want := Nat.min (Nat.min max_bytes (length (content src))) (capacity dst - length (content dst))).
  destruct (Nat.eqb_spec want 0) as [Hz|Hz].
  { exists src, dst, 0. split; [done|]. split; [done|]. split; [done|]. intros _ _. split; [lia|].
    exists []. split; [done|]. split; [by apply took_nil|by apply put_nil]. }
  destruct (splice_loop_moves (S want) src dst want (safe_idx _ S1) (safe_idx _ S2) ltac:(lia))
    as (src' & dst' & rem & -> & Lr & Is & Id & Same & Good). simpl.
  assert (ring_good src -> ring_good dst -> rem = 0 /\ exists bs, length bs = want /\ took src bs (after_read src') /\
    put_on dst bs (after_write dst')) as Good'.
  { intros G1 G2. specialize (Good (status src) (status dst)). rewrite !with_status_same in Good. apply Good; (done || lia). }
  destruct (Nat.ltb_spec 0 (want - rem)) as [Hm|Hm].
  - eexists _, _, _. split; [done|]. split; [by apply (after_read_safe src')|]. split; [by apply (after_write_safe dst')|].
    intros G1 G2. destruct (Good' G1 G2) as (-> & bs & ? & ? & ?). split; [lia|]. exists bs. split; [lia|done].
  - destruct (Same ltac:(lia)) as [-> ->]. eexists _, _, _. split; [done|]. split; [done|]. split; [done|].
    intros G1 G2. destruct (Good' G1 G2) as [-> _]. lia.
Qed.

(** ** Changing the capacity *)

Lemma round_up_pages x : (4096 <= x -> x <= Z.land (x + 4096 - 1) (Z.lnot (4096 - 1)))%Z.
Proof.
  intros H. change (4096 - 1)%Z with (Z.ones 12). rewrite <- Z.ldiff_land, Z.ldiff_ones_r by lia.
  rewrite Z.shiftl_mul_pow2, Z.shiftr_div_pow2 by lia. change (2 ^ 12)%Z with 4096%Z. div_lia.
Qed.

(** The new capacity leaves the bytes where they are, or the ring is rotated. *)
Definition resize_fits (r : PipeRingBuffer) (n : nat) : bool :=
  negb (is_status NORMAL r) || (n =? capacity r) || (head r <? tail r) && (tail r <? n).

Lemma rotate_content (l : list Z) (c h : nat) :
  h < c -> c <= length l ->
  let l' := drop h (take c l) ++ take h (take c l) ++ drop c l in
  length l' = length l /\ sl l' 0 c = sl l h c ++ sl l 0 h.
Proof.
  intros Hh Hc l'. unfold l'. split.
  - rewrite !length_app, !length_drop, !length_take. lia.
  - unfold sl. rewrite drop_0, Nat.sub_0_r, app_assoc, take_app_length'.
    + rewrite take_take, skipn_firstn_comm, drop_0, Nat.sub_0_r. do 2 f_equal. lia.
    + rewrite length_app, length_drop, !length_take. lia.
Qed.

Lemma used_zero r : ring_safe r -> get_used_size r = Some 0 -> status r = EMPTY.
Proof.
  intros [A C H T St]. unfold get_used_size, sub_checked. destruct (status r); [|done|]; intros E; case_nat; simplify_eq; lia.
Qed.

Lemma rotated_safe r n :
  ring_safe r -> status r = FULL -> capacity r < n -> n <= RING_DEFAULT_BUFFER_SIZE ->
  let old := take (capacity r) (arr r) in
  let r' := mkRing (drop (head r) old ++ take (head r) old ++ drop (capacity r) (arr r)) n 0 (capacity r) NORMAL in
  ring_good r' /\ content r' = content r.
Proof.
  intros [A C H T St] Ef Hn Hm old r'. rewrite Ef in St.
  destruct (rotate_content (arr r) (capacity r) (head r) H ltac:(lia)) as [Lr Cr]. split.
  - split; [split|]; simpl; fold old in Lr; (lia || congruence).
  - unfold content, is_status. rewrite Ef. simpl. case_nat; try lia. fold old in Cr; by rewrite Cr, <- St.
Qed.

Lemma resize_spec r priv max req :
  ring_safe r ->
  exists r' res, set_capacity_compat r priv max req = Some (r', res) /\ ring_safe r' /\
    match res with
    | Ok n => capacity r' = n /\ (ring_good r -> resize_fits r n = true -> ring_good r' /\ content r' = content r)
    | Err _ => r' = r
    end.
Proof.
  intros S. unfold set_capacity_compat. destruct (PIPE_SET_SIZE_MAX <? req)%Z; [by eexists _, _|].
  destruct (negb priv && _); [by eexists _, _|]. destruct (65536 <? _)%Z; [by eexists _, _|].
  pose proof (round_up_pages (Z.max req 4096) ltac:(lia)) as Hn.
  set (n := Z.to_nat _). assert (0 < n) as Hn0 by lia. clearbody n. clear Hn.
  destruct (Nat.ltb_spec RING_DEFAULT_BUFFER_SIZE n) as [|Hmax]; [by eexists _, _|].
  destruct (used_bounded r S) as (used & Eu & Lu). rewrite Eu. simpl.
  destruct (Nat.ltb_spec n used) as [|Hu]; [by eexists _, _|].
  destruct (Nat.eqb_spec used 0) as [->|Hz]; simpl.
  - apply used_zero in Eu; [|done]. destruct S as [A C H T St]. eexists _, _. split; [done|].
    split; [by split|]. split; [done|]. intros G _. split; [by split; [split|]|].
    unfold content, is_status. by rewrite Eu.
  - destruct (Nat.leb_spec n (head r)) as [|Hh]; [by eexists _, _|].
    destruct (Nat.ltb_spec n (tail r)) as [|Ht]; [by eexists _, _|]. simpl.
    destruct (is_status FULL r) eqn:Ef; [apply bool_decide_eq_true in Ef|apply bool_decide_eq_false in Ef]; simpl.
    + assert (used = capacity r) as -> by (unfold get_used_size in Eu; rewrite Ef in Eu; by simplify_eq).
      destruct (Nat.ltb_spec (capacity r) n) as [Hlt|Hge].
      * destruct (rotated_safe r n S Ef Hlt Hmax) as [G' C']. eexists _, _. split; [done|]. split; [apply G'|done].
      * assert (n = capacity r) as -> by lia. destruct r. simpl in *. by eexists _, _.
    + eexists _, _. split; [done|]. destruct S as [A C H T St]. split; [by split|]. split; [done|].
      intros [S Tl] Fit. unfold resize_fits, content, is_status in *. simpl.
      destruct (status r) eqn:Es; simpl in *; [done|split; [split; [split|]|]; simpl; rewrite ?Es; (done || lia)|].
      split; [split; [split|]|]; simpl; rewrite ?Es; try done; case_nat; subst; try done; try lia.
Qed.
