(* ===== verification/Pipe.v ===== *)
(** Pipes ([Pipe] of [os/src/fs/dev/pipe.rs], [splice_atomic_single] of
    [os/src/syscall/fs/sys_splice.rs]).

    The two ends of a pipe share a ring; an end is open while somebody holds it.  An
    operation runs under the lock of the ring and says whom to wake.  A ghost log
    keeps what was sent and what was taken, so that the theorems can say that a pipe
    is a byte stream. *)

From stdpp Require Import base numbers option list.
From S2P Require Import Prelude Slice PipeRing PipeRingInv.

(** [None], one or all tasks waiting at the other end. *)
Inductive Wake := NoWake | WakeOne | WakeAll.

Record PipeState := mkPipe {
  ring : PipeRingBuffer;
  read_open : bool;
  write_open : bool;
  sent : list Z;
  taken : list Z;
}.

Definition make_pipe (root : bool) (max_size : nat) : PipeState := mkPipe (ring_new root max_size) true true [] [].

Definition took_bytes (p : PipeState) (r : PipeRingBuffer) (bs : list Z) : PipeState :=
  mkPipe r (read_open p) (write_open p) (sent p) (taken p ++ bs).
Definition put_bytes (p : PipeState) (r : PipeRingBuffer) (bs : list Z) : PipeState :=
  mkPipe r (read_open p) (write_open p) (sent p ++ bs) (taken p).

(** Whom a reader that took [n] bytes wakes, if a writer is there. *)
Definition wake_writers (p : PipeState) (n : nat) : option Wake :=
  free ← get_free_size (ring p);
  Some (if negb (write_open p) then NoWake
        else if (0 <? n)%nat && (free <? PIPE_PAGE)%nat then WakeAll else WakeOne).

(** ** Reading *)

Definition read_at (readable : bool) (p : PipeState) (want : nat) : option (PipeState * result (list Z) SyscallErr * Wake) :=
  if negb readable then Some (p, Err EBADF, NoWake)
  else if (want =? 0)%nat then Some (p, Ok [], NoWake)
  else if is_status EMPTY (ring p) then
    _ ← get_free_size (ring p);
    Some (p, if negb (write_open p) then Ok [] else Err EAGAIN, NoWake)
  else
    '(r, bs) ← buffer_read (ring p) want;
    let r := mkRing (arr r) (capacity r) (head r) (tail r) (if (head r =? tail r)%nat then EMPTY else NORMAL) in
    let p := took_bytes p r bs in
    w ← wake_writers p (length bs);
    Some (p, Ok bs, w).

Definition read_at_user (copy : nat -> nat -> option nat) (readable : bool) (p : PipeState) (want : nat)
    : option (PipeState * result (list Z) SyscallErr * Wake) :=
  if negb readable then Some (p, Err EBADF, NoWake)
  else if (want =? 0)%nat then Some (p, Ok [], NoWake)
  else if is_status EMPTY (ring p) then
    _ ← get_free_size (ring p);
    Some (p, if negb (write_open p) then Ok [] else Err EAGAIN, NoWake)
  else
    '(r, bs, failed) ← read_user_loop copy (S want) (ring p) 0 want;
    let p := took_bytes p r bs in
    w ← wake_writers p (length bs);
    if failed && (length bs =? 0)%nat then Some (p, Err EFAULT, NoWake) else Some (p, Ok bs, w).

(** ** Writing *)

(** The decision before anything is copied: an answer, or room to write. *)
Definition write_check (writable : bool) (p : PipeState) (n : nat) : option (option (result nat SyscallErr)) :=
  if negb writable then Some (Some (Err EBADF))
  else if (n =? 0)%nat then Some (Some (Ok 0%nat))
  else
    free ← get_free_size (ring p);
    Some (if negb (read_open p) then Some (Err EPIPE)
          else if is_status FULL (ring p) then Some (Err EAGAIN)
          else if (n <=? PIPE_PAGE)%nat && (free <? n)%nat then Some (Err EAGAIN)
          else None).

Definition write_at (writable : bool) (p : PipeState) (buf : list Z) : option (PipeState * result nat SyscallErr * Wake) :=
  c ← write_check writable p (length buf);
  match c with
  | Some res => Some (p, res, NoWake)
  | None =>
      '(r, n) ← buffer_write (ring p) buf;
      let r := mkRing (arr r) (capacity r) (head r) (tail r) (if (head r =? tail r)%nat then FULL else NORMAL) in
      Some (put_bytes p r (take n buf), Ok n, WakeOne)
  end.

Definition write_at_user (copy : nat -> nat -> option nat) (writable : bool) (p : PipeState) (buf : list Z)
    : option (PipeState * result nat SyscallErr * Wake) :=
  c ← write_check writable p (length buf);
  match c with
  | Some res => Some (p, res, NoWake)
  | None =>
      '(r, n, failed) ← write_user_loop copy (S (length buf)) (ring p) 0 buf;
      let p := put_bytes p r (take n buf) in
      if failed && (n =? 0)%nat then Some (p, Err EFAULT, NoWake) else Some (p, Ok n, WakeOne)
  end.

(** ** The rest *)

(** Readable, writable and hang-up as [poll] reports them. *)
Definition poll (readable writable : bool) (p : PipeState) : option (bool * bool * bool) :=
  free ← get_free_size (ring p);
  Some (readable && (negb (is_status EMPTY (ring p)) || negb (write_open p)),
        writable && ((PIPE_PAGE <=? free)%nat || negb (read_open p)),
        negb (write_open p) && negb (read_open p)).

Definition set_pipe_capacity_compat (p : PipeState) (privileged : bool) (max_size : nat) (requested : Z)
    : option (PipeState * result nat SyscallErr * Wake) :=
  '(r, res) ← set_capacity_compat (ring p) privileged max_size requested;
  free ← get_free_size r;
  let wake := match res with
              | Ok _ => is_status FULL (ring p) && (capacity (ring p) <? capacity r)%nat && (0 <? free)%nat && write_open p
              | Err _ => false
              end in
  Some (mkPipe r (read_open p) (write_open p) (sent p) (taken p), res, if wake then WakeAll else NoWake).

(** [Drop] of an end; the other end is woken if it is there. *)
Definition close_reader (p : PipeState) : PipeState * Wake :=
  (mkPipe (ring p) false (write_open p) (sent p) (taken p), if write_open p then WakeAll else NoWake).
Definition close_writer (p : PipeState) : PipeState * Wake :=
  (mkPipe (ring p) (read_open p) false (sent p) (taken p), if read_open p then WakeAll else NoWake).

(** [splice_atomic_single]: both rings locked.  What the source loses the destination
    gains; the log takes it from the ring. *)
Definition splice_atomic_single (p1 p2 : PipeState) (max_bytes : nat)
    : option (PipeState * PipeState * result nat SyscallErr) :=
  used ← get_used_size (ring p1);
  if (used =? 0)%nat && negb (write_open p1) then Some (p1, p2, Ok 0%nat)
  else if negb (read_open p2) then Some (p1, p2, Err EPIPE)
  else
    bs ← peek_data (ring p1) max_bytes;
    '(r1, r2, n) ← splice_move (ring p1) (ring p2) max_bytes;
    if (0 <? n)%nat then Some (took_bytes p1 r1 (take n bs), put_bytes p2 r2 (take n bs), Ok n)
    else Some (mkPipe r1 (read_open p1) (write_open p1) (sent p1) (taken p1),
               mkPipe r2 (read_open p2) (write_open p2) (sent p2) (taken p2), Err EAGAIN).

(** ** Histories over any number of pipes *)

Inductive pipe_event :=
| PRead (i want : nat)
| PReadUser (i : nat) (copy : nat -> nat -> option nat) (want : nat)
| PWrite (i : nat) (buf : list Z)
| PWriteUser (i : nat) (copy : nat -> nat -> option nat) (buf : list Z)
| PPeek (i want : nat)
| PPoll (i : nat)
| PResize (i : nat) (privileged : bool) (max_size : nat) (requested : Z)
| PCloseReader (i : nat)
| PCloseWriter (i : nat)
| PSplice (i j max_bytes : nat).

Definition with_pipe (ps : list PipeState) (i : nat) (f : PipeState -> option PipeState) : option (list PipeState) :=
  match ps !! i with
  | None => Some ps
  | Some p => p' ← f p; Some (<[i := p']> ps)
  end.

Definition first_of {A B} (x : option (PipeState * A * B)) : option PipeState := fst ∘ fst <$> x.

Definition run_pipe_event (ps : list PipeState) (ev : pipe_event) : option (list PipeState) :=
  match ev with
  | PRead i want => with_pipe ps i (fun p => first_of (read_at true p want))
  | PReadUser i copy want => with_pipe ps i (fun p => first_of (read_at_user copy true p want))
  | PWrite i buf => with_pipe ps i (fun p => first_of (write_at true p buf))
  | PWriteUser i copy buf => with_pipe ps i (fun p => first_of (write_at_user copy true p buf))
  | PPeek i want => with_pipe ps i (fun p => _ ← peek_data (ring p) want; Some p)
  | PPoll i => with_pipe ps i (fun p => _ ← poll true true p; Some p)
  | PResize i privileged max_size requested =>
      with_pipe ps i (fun p => first_of (set_pipe_capacity_compat p privileged max_size requested))
  | PCloseReader i => with_pipe ps i (fun p => Some (fst (close_reader p)))
  | PCloseWriter i => with_pipe ps i (fun p => Some (fst (close_writer p)))
  | PSplice i j n =>
      match ps !! i, ps !! j with
      | Some p1, Some p2 =>
          if (i =? j)%nat then Some ps
          else '(p1, p2, _) ← splice_atomic_single p1 p2 n; Some (<[j := p2]> (<[i := p1]> ps))
      | _, _ => Some ps
      end
  end.

Fixpoint run_pipes (ps : list PipeState) (evs : list pipe_event) : option (list PipeState) :=
  match evs with
  | [] => Some ps
  | ev :: evs => ps ← run_pipe_event ps ev; run_pipes ps evs
  end.

(** User buffers behave, and every change of capacity keeps the bytes in place. *)
Definition event_ok (ev : pipe_event) : Prop :=
  match ev with PReadUser _ copy _ | PWriteUser _ copy _ => user_copy copy | _ => True end.

Definition fitting (ps : list PipeState) (ev : pipe_event) : bool :=
  match ev with
  | PResize i privileged max_size requested =>
      match ps !! i with
      | Some p => match set_capacity_compat (ring p) privileged max_size requested with
                  | Some (_, Ok n) => resize_fits (ring p) n
                  | _ => true
                  end
      | None => true
      end
  | _ => true
  end.

Fixpoint all_fitting (ps : list PipeState) (evs : list pipe_event) : bool :=
  match evs with
  | [] => true
  | ev :: evs => fitting ps ev && match run_pipe_event ps ev with Some ps => all_fitting ps evs | None => true end
  end.

From S2P Require Import WaitQueue WaitSafe.

(** Blocking reads of a pipe: [read_at] as the condition of [wait_event_impl].

    A writer wakes at most one reader however much it has written, and a reader that
    leaves bytes behind wakes nobody on its own side. *)

(** A reader with a buffer of [want] bytes waits until [read_at] says something other
    than [EAGAIN]; the answer takes the bytes. *)
Definition reader_ready (want : nat) (w : nat) (p : PipeState) : bool :=
  match read_at true p want with Some (_, Err EAGAIN, _) => false | _ => true end.

Definition reader_take (want : nat) (w : nat) (p : PipeState) : PipeState :=
  match read_at true p want with Some (p, _, _) => p | None => p end.

Definition after_write_of (p : PipeState) (buf : list Z) : PipeState :=
  match write_at true p buf with Some (p, _, _) => p | None => p end.

Definition reader_steps (w k : nat) : list (wait_event (S := PipeState)) := replicate k (VStep w None true).

(** Two readers of one byte each sleep on an empty pipe.  A writer writes two bytes and
    wakes one; it takes a byte and returns.  Nobody is left to wake the other, which
    sleeps on beside a readable byte ([pass_reader_baton_if_data], made for this, has
    no caller). *)
Theorem pipe_reader_stranded :
  let p := make_pipe true PIPE_PAGE in
  let y := run_wait_events (reader_ready 1) (reader_take 1) (wait_init p 2)
    (reader_steps 0 7 ++ reader_steps 1 7 ++ [VChange (after_write_of p [1; 2]); VWakeAtMost 1; VRunnable 0] ++
     reader_steps 0 5) in
  waiters y = [(Done Ready, Awake); (Off 1, Asleep)] /\ pending y = [] /\ content (ring (shared y)) = [2] /\
  snd (default (p, Err EAGAIN, NoWake) (write_at true p [1; 2])) = WakeOne /\ reader_ready 1 1 (shared y) = true.
Proof. vm_compute. split_and!; reflexivity. Qed.
