(* ===== verification/PipeSafe.v ===== *)
(** Pipes are byte streams: operations of Pipe.v refine a queue, no history leaves the
    array, and what was sent is what was taken followed by what is in the ring, as long
    as changes of the capacity leave the bytes in place.  They need not: two theorems
    show what [F_SETPIPE_SZ] can do to the contents. *)

From stdpp Require Import base numbers option list.
From S2P Require Import Prelude Slice PipeRing PipeRingInv Pipe.
#[local] Open Scope nat_scope.

#[local] Arguments read_loop : simpl never.
#[local] Arguments write_loop : simpl never.
#[local] Arguments read_user_loop : simpl never.
#[local] Arguments write_user_loop : simpl never.

(** ** The ring under the operations *)

Lemma buffer_read_took r want :
  ring_safe r -> is_status EMPTY r = false -> 0 < want ->
  exists r' bs, buffer_read r want = Some (r', bs) /\ after_read r' = r' /\ took r bs r' /\ bs <> [] /\
    (ring_good r -> bs = take want (content r) /\ content r' = drop want (content r)).
Proof.
  intros S E Hw. destruct (read_loop_took (Datatypes.S want) r want S ltac:(lia)) as (r' & bs & Er & K & Lb & Lx & Ar).
  unfold buffer_read. rewrite Er. exists r', bs. split; [done|].
  destruct Ar as [[-> ->]|[Ne Ar]]; [exfalso; destruct Lx as [Lx|Lx]; [simpl in Lx; lia|congruence]|].
  do 3 (split; [done|]). intros G. destruct (tk_content _ _ _ K G) as [G' C]. rewrite C. destruct Lx as [<-|Lx].
  - by rewrite take_app_length, drop_app_length.
  - rewrite content_empty in Lx by apply G'. apply bool_decide_eq_true in Lx. rewrite Lx, app_nil_r.
    by rewrite take_ge, drop_ge by lia.
Qed.

Lemma buffer_write_put r buf :
  ring_safe r -> is_status FULL r = false -> buf <> [] ->
  exists r' k, buffer_write r buf = Some (r', k) /\ after_write r' = r' /\ put_on r (take k buf) r' /\ k <= length buf /\
    (ring_good r -> k = Nat.min (length buf) (capacity r - length (content r))).
Proof.
  intros S E Hb. destruct (write_loop_put (Datatypes.S (length buf)) r buf S ltac:(lia)) as (r' & k & Er & Lk & K & Full & Aw).
  unfold buffer_write. rewrite Er. exists r', k. split; [done|]. split.
  - destruct Aw as [(-> & -> & Ne)|[_ Aw]]; [|done]. destruct Ne as [Ne|Ne]; [by apply nil_length_inv in Ne|].
    destruct S as [A C H T St]. destruct r as [a c h t s]. unfold after_write, with_status, is_status in *. simpl in *.
    destruct s; [done|done|]. by destruct (Nat.eqb_spec h t).
  - split; [done|]. split; [done|]. intros G. destruct (po_content _ _ _ K G) as [G' C].
    destruct (content_free _ (rg_safe _ G')) as [_ Lc]. rewrite C, length_app, length_take, (po_cap _ _ _ K) in Lc.
    destruct (Full G) as [->|Fu]; [lia|]. rewrite content_full, C, length_app, length_take, (po_cap _ _ _ K) in Fu by done.
    apply Nat.eqb_eq in Fu. lia.
Qed.

(** ** The reference: a bounded queue *)

Definition wake_after_read (p : PipeState) (n free : nat) : Wake :=
  if negb (write_open p) then NoWake else if (0 <? n) && (free <? PIPE_PAGE) then WakeAll else WakeOne.

(** Answer, new contents and wake of a read of [want] bytes. *)
Definition queue_read (readable : bool) (p : PipeState) (q : list Z) (want : nat)
    : result (list Z) SyscallErr * list Z * Wake :=
  if negb readable then (Err EBADF, q, NoWake)
  else if want =? 0 then (Ok [], q, NoWake)
  else if bool_decide (q = []) then (if write_open p then Err EAGAIN else Ok [], q, NoWake)
  else (Ok (take want q), drop want q, wake_after_read p (Nat.min want (length q)) (capacity (ring p) - length (drop want q))).

Definition queue_write (writable : bool) (p : PipeState) (q buf : list Z) : result nat SyscallErr * list Z * Wake :=
  let n := length buf in
  let free := capacity (ring p) - length q in
  if negb writable then (Err EBADF, q, NoWake)
  else if n =? 0 then (Ok 0, q, NoWake)
  else if negb (read_open p) then (Err EPIPE, q, NoWake)
  else if free =? 0 then (Err EAGAIN, q, NoWake)
  else if (n <=? PIPE_PAGE) && (free <? n) then (Err EAGAIN, q, NoWake)
  else (Ok (Nat.min n free), q ++ take (Nat.min n free) buf, WakeOne).

Definition stream_ok (p : PipeState) : Prop := ring_good (ring p) /\ sent p = taken p ++ content (ring p).

(** What an operation on one pipe keeps. *)
Record keeps (p p' : PipeState) : Prop := {
  kp_safe : ring_safe (ring p');
  kp_good : ring_good (ring p) -> ring_good (ring p');
  kp_stream : stream_ok p -> stream_ok p';
}.

Lemma keeps_refl p : ring_safe (ring p) -> keeps p p.
Proof. by split. Qed.

Lemma keeps_took p r bs : took (ring p) bs r -> keeps p (took_bytes p r bs).
Proof.
  intros [S C K]. split; [done|apply K|]. intros [G E]. destruct (K G) as [G' C']. split; [done|]. simpl.
  by rewrite E, C', app_assoc.
Qed.

Lemma keeps_put p r bs : put_on (ring p) bs r -> keeps p (put_bytes p r bs).
Proof.
  intros [S C K]. split; [done|apply K|]. intros [G E]. destruct (K G) as [G' C']. split; [done|]. simpl.
  by rewrite E, C', app_assoc.
Qed.

Lemma wake_writers_safe p n : ring_safe (ring p) -> exists free,
  get_free_size (ring p) = Some free /\ wake_writers p n = Some (wake_after_read p n free).
Proof. intros S. unfold wake_writers. destruct (free_bounded _ S) as (f & -> & _). by exists f. Qed.

Lemma read_at_keeps readable p want :
  ring_safe (ring p) ->
  exists p' res w, read_at readable p want = Some (p', res, w) /\ keeps p p' /\
    (ring_good (ring p) -> queue_read readable p (content (ring p)) want = (res, content (ring p'), w)).
Proof.
  intros S. unfold read_at, queue_read. destruct readable; simpl; [|eauto 10 using keeps_refl].
  destruct (Nat.eqb_spec want 0) as [Hw|Hw]; [eauto 10 using keeps_refl|].
  destruct (free_bounded _ S) as (free & Ef & _). rewrite Ef. simpl.
  destruct (is_status EMPTY (ring p)) eqn:E.
  { eexists _, _, _. split; [done|]. split; [by apply keeps_refl|]. intros G. rewrite content_empty in E by done.
    rewrite E. by destruct (write_open p). }
  destruct (buffer_read_took (ring p) want S E ltac:(lia)) as (r & bs & -> & Ar & K & Ne & Good). simpl.
  change (mkRing _ _ _ _ _) with (after_read r). rewrite Ar.
  pose proof (keeps_took p r bs K) as Kp. destruct (wake_writers_safe _ (length bs) (kp_safe _ _ Kp)) as (f & Ef' & ->). simpl.
  eexists _, _, _. split; [done|]. split; [done|]. intros G. destruct (Good G) as [-> C'].
  rewrite content_empty in E by done. rewrite E, <- C'. simpl.
  destruct (content_free _ (tk_safe _ _ _ K)) as [Ef2 _]. simpl in Ef'. rewrite Ef2, (tk_cap _ _ _ K) in Ef'. simplify_eq.
  by rewrite length_take.
Qed.

Lemma write_at_keeps writable p buf :
  ring_safe (ring p) ->
  exists p' res w, write_at writable p buf = Some (p', res, w) /\ keeps p p' /\
    (ring_good (ring p) -> queue_write writable p (content (ring p)) buf = (res, content (ring p'), w)).
Proof.
  intros S. unfold write_at, write_check, queue_write. destruct writable; simpl; [|eauto 10 using keeps_refl].
  destruct (Nat.eqb_spec (length buf) 0) as [Hw|Hw]; simpl; [eauto 10 using keeps_refl|].
  destruct (content_free _ S) as [Ef Lc]. rewrite Ef. simpl. destruct (read_open p); simpl; [|eauto 10 using keeps_refl].
  destruct (is_status FULL (ring p)) eqn:E; simpl.
  { eexists _, _, _. split; [done|]. split; [by apply keeps_refl|]. intros G. rewrite content_full in E by done.
    apply Nat.eqb_eq in E. destruct (Nat.eqb_spec (capacity (ring p) - length (content (ring p))) 0); [done|lia]. }
  assert (ring_good (ring p) -> (capacity (ring p) - length (content (ring p)) =? 0) = false) as Nz.
  { intros G. rewrite content_full in E by done. apply Nat.eqb_neq in E. apply Nat.eqb_neq. lia. }
  destruct (_ && _) eqn:Ea; simpl.
  { eexists _, _, _. split; [done|]. split; [by apply keeps_refl|]. intros G. by rewrite Nz. }
  destruct (buffer_write_put (ring p) buf S E) as (r & k & -> & Aw & K & Lk & Good); [by intros ->|]. simpl.
  change (mkRing _ _ _ _ _) with (after_write r). rewrite Aw.
  eexists _, _, _. split; [done|]. split; [by apply keeps_put|]. intros G. rewrite Nz by done. simpl.
  destruct (po_content _ _ _ K G) as [_ ->]. by rewrite <- (Good G).
Qed.

Lemma read_at_user_keeps copy p want :
  user_copy copy -> ring_safe (ring p) ->
  exists p' res w, read_at_user copy true p want = Some (p', res, w) /\ keeps p p'.
Proof.
  intros U S. unfold read_at_user. simpl. destruct (Nat.eqb_spec want 0); [eauto 10 using keeps_refl|].
  destruct (free_bounded _ S) as (free & -> & _). simpl. destruct (is_status EMPTY (ring p)); [eauto 10 using keeps_refl|].
  destruct (read_user_loop_took copy (Datatypes.S want) (ring p) 0 want U S ltac:(lia)) as (r & bs & fd & -> & K & _). simpl.
  pose proof (keeps_took p r bs K) as Kp. destruct (wake_writers_safe _ (length bs) (kp_safe _ _ Kp)) as (f & _ & ->). simpl.
  destruct (_ && _); eauto 10.
Qed.

Lemma write_at_user_keeps copy p buf :
  user_copy copy -> ring_safe (ring p) ->
  exists p' res w, write_at_user copy true p buf = Some (p', res, w) /\ keeps p p'.
Proof.
  intros U S. unfold write_at_user, write_check. simpl. destruct (free_bounded _ S) as (free & -> & _). simpl.
  destruct (Nat.eqb_spec (length buf) 0); simpl; [eauto 10 using keeps_refl|].
  destruct (if negb _ then _ else _) as [res|]; simpl; [eauto 10 using keeps_refl|].
  destruct (write_user_loop_put copy (Datatypes.S (length buf)) (ring p) 0 buf U S ltac:(lia)) as (r & k & fd & -> & _ & K & _).
  simpl. pose proof (keeps_put p r _ K). destruct (_ && _); eauto 10.
Qed.

Lemma resize_keeps p privileged max_size requested :
  ring_safe (ring p) ->
  exists p' res w, set_pipe_capacity_compat p privileged max_size requested = Some (p', res, w) /\ ring_safe (ring p') /\
    (match set_capacity_compat (ring p) privileged max_size requested with
     | Some (_, Ok n) => resize_fits (ring p) n | _ => true end = true -> stream_ok p -> stream_ok p').
Proof.
  intros S. unfold set_pipe_capacity_compat. destruct (resize_spec (ring p) privileged max_size requested S) as (r & res & -> & S' & K).
  simpl. destruct (free_bounded r S') as (f & -> & _). simpl. eexists _, _, _. split; [done|]. split; [done|].
  intros Fit [G E]. destruct res as [n|e]; [|subst r; by split].
  destruct K as [_ K]. destruct (K G Fit) as [G' C']. split; [done|]. simpl. by rewrite C'.
Qed.

Lemma splice_keeps p1 p2 n :
  ring_safe (ring p1) -> ring_safe (ring p2) ->
  exists p1' p2' res, splice_atomic_single p1 p2 n = Some (p1', p2', res) /\
    ring_safe (ring p1') /\ ring_safe (ring p2') /\ (stream_ok p1 -> stream_ok p2 -> stream_ok p1' /\ stream_ok p2').
Proof.
  intros S1 S2. unfold splice_atomic_single. rewrite content_length by done. simpl.
  destruct (_ && _); [eexists _, _, _; eauto|]. destruct (negb (read_open p2)); [eexists _, _, _; eauto|].
  rewrite peek_content by done. simpl.
  destruct (splice_move_moves (ring p1) (ring p2) n S1 S2) as (r1 & r2 & m & -> & S1' & S2' & K). simpl.
  assert (forall p1' p2', ring p1' = r1 -> ring p2' = r2 ->
    (forall bs, length bs = m -> bs = take m (take n (content (ring p1))) ->
      sent p1' = sent p1 /\ taken p1' = taken p1 ++ bs /\ sent p2' = sent p2 ++ bs /\ taken p2' = taken p2) ->
    stream_ok p1 -> stream_ok p2 -> stream_ok p1' /\ stream_ok p2') as Go.
  { intros p1' p2' E1 E2 Log [G1 Q1] [G2 Q2]. destruct (K G1 G2) as (Em & bs & Lb & K1 & K2).
    destruct (tk_content _ _ _ K1 G1) as [G1' C1]. destruct (po_content _ _ _ K2 G2) as [G2' C2].
    destruct (Log bs Lb) as (Es1 & Et1 & Es & Et).
    { rewrite take_take, C1, take_app_le, take_ge by lia. done. }
    unfold stream_ok. rewrite E1, E2, Es1, Et1, Es, Et, C2, Q1, Q2, C1, <- !app_assoc. done. }
  destruct (Nat.ltb_spec 0 m) as [Hm|Hm].
  - eexists _, _, _. split; [done|]. do 2 (split; [done|]). apply Go; [done..|]. by intros bs _ ->.
  - eexists _, _, _. split; [done|]. do 2 (split; [done|]). apply Go; [done..|]. intros bs Lb _.
    assert (bs = []) as -> by (apply nil_length_inv; lia). by rewrite !app_nil_r.
Qed.

(** ** Histories *)

Definition all_safe (ps : list PipeState) : Prop := Forall (fun p => ring_safe (ring p)) ps.

Lemma all_safe_lookup ps i p : all_safe ps -> ps !! i = Some p -> ring_safe (ring p).
Proof. intros A E. exact (Forall_lookup_1 _ _ _ _ A E). Qed.

Lemma with_pipe_keeps ps i f (fit : Prop) :
  all_safe ps ->
  (forall p, ps !! i = Some p -> ring_safe (ring p) ->
    exists p', f p = Some p' /\ ring_safe (ring p') /\ (fit -> stream_ok p -> stream_ok p')) ->
  exists ps', with_pipe ps i f = Some ps' /\ all_safe ps' /\ (fit -> Forall stream_ok ps -> Forall stream_ok ps').
Proof.
  intros A K. unfold with_pipe. destruct (ps !! i) as [p|] eqn:E; [|by eexists].
  destruct (K p eq_refl) as (p' & -> & S & St); [by eapply all_safe_lookup|].
  simpl. eexists. split; [done|]. split; [by apply Forall_insert|].
  intros F Al. apply Forall_insert; [done|]. apply St; [done|]. by eapply (Forall_lookup_1 _ ps).
Qed.

Lemma pipe_event_keeps ps ev :
  event_ok ev -> all_safe ps ->
  exists ps', run_pipe_event ps ev = Some ps' /\ all_safe ps' /\
    (fitting ps ev = true -> Forall stream_ok ps -> Forall stream_ok ps').
Proof.
  intros Ok A. destruct ev as [i n|i c n|i b|i c b|i n|i|i pr mx rq|i|i|i j n]; simpl in *;
    try (apply with_pipe_keeps; [done|]; intros p Hp S).
  - destruct (read_at_keeps true p n S) as (p' & ? & ? & -> & [] & _). simpl. eauto.
  - destruct (read_at_user_keeps c p n Ok S) as (p' & ? & ? & -> & []). simpl. eauto.
  - destruct (write_at_keeps true p b S) as (p' & ? & ? & -> & [] & _). simpl. eauto.
  - destruct (write_at_user_keeps c p b Ok S) as (p' & ? & ? & -> & []). simpl. eauto.
  - rewrite peek_content by done. simpl. eauto.
  - unfold poll. destruct (free_bounded _ S) as (? & -> & _). simpl. eauto.
  - rewrite Hp. destruct (resize_keeps p pr mx rq S) as (p' & ? & ? & -> & ? & ?). simpl. eauto.
  - eauto.
  - eauto.
  - destruct (ps !! i) as [p1|] eqn:E1; [|eauto]. destruct (ps !! j) as [p2|] eqn:E2; [|eauto].
    destruct (Nat.eqb_spec i j); [eauto|].
    destruct (splice_keeps p1 p2 n) as (p1' & p2' & res & -> & S1 & S2 & St); [by eapply all_safe_lookup..|].
    simpl. eexists. split; [done|]. split; [by repeat apply Forall_insert|]. intros _ Al.
    destruct St; [by eapply (Forall_lookup_1 _ ps)..|]. by repeat apply Forall_insert.
Qed.

Lemma run_pipes_keeps evs ps :
  Forall event_ok evs -> all_safe ps ->
  exists ps', run_pipes ps evs = Some ps' /\ all_safe ps' /\
    (all_fitting ps evs = true -> Forall stream_ok ps -> Forall stream_ok ps').
Proof.
  intros F. revert ps. induction F as [|ev evs Hev F IH]; intros ps A; simpl; [eauto|].
  destruct (pipe_event_keeps ps ev Hev A) as (ps1 & -> & A1 & K1). simpl.
  destruct (IH ps1 A1) as (ps2 & -> & A2 & K2). eexists. split; [done|]. split; [done|].
  intros [Ft Fa]%andb_true_iff Al. auto.
Qed.

Lemma make_pipe_ok root max_size :
  ring_good (ring (make_pipe root max_size)) /\ content (ring (make_pipe root max_size)) = [].
Proof.
  split; [|done].
  assert (0 < initial_pipe_capacity root max_size <= RING_DEFAULT_BUFFER_SIZE) as [H1 H2].
  { unfold initial_pipe_capacity, RING_DEFAULT_BUFFER_SIZE, PIPE_PAGE. destruct root; lia. }
  split; [split; cbn -[RING_DEFAULT_BUFFER_SIZE]; [by rewrite length_replicate|done|done|lia|done]|done].
Qed.

Lemma make_pipes_ok l :
  let ps := (fun '(root, max_size) => make_pipe root max_size) <$> l in all_safe ps /\ Forall stream_ok ps.
Proof.
  simpl. split; apply Forall_fmap, Forall_true; intros [root m]; simpl; destruct (make_pipe_ok root m) as [G C];
    [apply G|]. by split; [|rewrite C].
Qed.

(** ** Theorems *)

(** C17: Reading and writing a pipe refine a bounded queue of bytes, on every branch: a
    wrong end, an empty request, end of file, a closed reader, [EAGAIN], partial
    transfers and whom to wake.  A request of up to [PAGE_SIZE] bytes is written whole
    or not at all; a larger one writes what fits. *)
Theorem pipe_refines_queue p :
  ring_good (ring p) ->
  (forall readable want, exists p' res w, read_at readable p want = Some (p', res, w) /\ ring_good (ring p') /\
     queue_read readable p (content (ring p)) want = (res, content (ring p'), w)) /\
  (forall writable buf, exists p' res w, write_at writable p buf = Some (p', res, w) /\ ring_good (ring p') /\
     queue_write writable p (content (ring p)) buf = (res, content (ring p'), w)).
Proof.
  intros G. split; intros b x.
  - destruct (read_at_keeps b p x (rg_safe _ G)) as (p' & res & w & E & [_ K _] & Q). eauto 10.
  - destruct (write_at_keeps b p x (rg_safe _ G)) as (p' & res & w & E & [_ K _] & Q). eauto 10.
Qed.

Lemma pipe_refines_queue_witness :
  exists p' res w, write_at true (make_pipe true PIPE_PAGE) [1; 2; 3]%Z = Some (p', res, w) /\ ring_good (ring p') /\
    (res, content (ring p'), w) = (Ok 3, [1; 2; 3]%Z, WakeOne).
Proof.
  destruct (proj2 (pipe_refines_queue (make_pipe true PIPE_PAGE) (proj1 (make_pipe_ok true PIPE_PAGE))) true [1; 2; 3]%Z)
    as (p' & res & w & E & G & Q).
  exists p', res, w. split; [exact E|]. split; [exact G|]. rewrite <- Q. vm_compute. reflexivity.
Defined.

(** C30: No history of reads, writes, peeks, polls, splices, changes of the capacity and
    closes, on any number of pipes and with faulting user buffers, makes an unchecked
    copy leave the ring's array, an index subtraction wrap or the assertion of
    [get_used_size] fail. *)
Theorem pipe_in_bounds l evs :
  Forall event_ok evs -> is_Some (run_pipes ((fun '(root, max_size) => make_pipe root max_size) <$> l) evs).
Proof.
  intros F. destruct (run_pipes_keeps evs _ F (proj1 (make_pipes_ok l))) as (ps & -> & _). done.
Qed.

(** A user buffer whose second page is not mapped. *)
Definition one_page (total n : nat) : option nat :=
  if total <? PIPE_PAGE then Some (Nat.min n (PIPE_PAGE - total)) else None.

Lemma one_page_copy : user_copy one_page.
Proof. intros total n k. unfold one_page, PIPE_PAGE. case_nat; intros; simplify_eq; lia. Qed.

Ltac events_ok := repeat (apply Forall_cons_2; [first [exact one_page_copy | exact I]|]); apply Forall_nil_2.

Definition bytes (n : nat) (b : Z) : list Z := replicate n b.

Lemma pipe_in_bounds_witness :
  is_Some (run_pipes ((fun '(root, max_size) => make_pipe root max_size) <$> [(true, RING_DEFAULT_BUFFER_SIZE); (false, PIPE_PAGE)])
    [PWriteUser 0 one_page (bytes 4500 7); PSplice 0 1 3000; PResize 1 true PIPE_PAGE 8192; PRead 1 100]).
Proof. apply pipe_in_bounds. events_ok. Defined.

(** C16: A pipe is a byte stream: whatever is read, written, spliced, resized and closed,
    with partial copies and faults, the bytes sent into a pipe are the bytes taken out
    of it followed by its contents, in order.  Changes of the capacity must leave the
    bytes where they are ([resize_fits]); see below for those that do not. *)
Theorem pipe_stream l evs ps :
  let start := (fun '(root, max_size) => make_pipe root max_size) <$> l in
  Forall event_ok evs -> all_fitting start evs = true -> run_pipes start evs = Some ps ->
  forall i p, ps !! i = Some p ->
    sent p = taken p ++ content (ring p) /\ length (content (ring p)) <= capacity (ring p).
Proof.
  intros start F Fit E i p Hp. destruct (run_pipes_keeps evs start F (proj1 (make_pipes_ok l))) as (ps' & E' & _ & K).
  assert (ps' = ps) as -> by congruence.
  pose proof (Forall_lookup_1 _ _ _ _ (K Fit (proj2 (make_pipes_ok l))) Hp) as [G Q].
  split; [done|]. apply content_free, G.
Qed.

Definition stream_example : list pipe_event := [PWriteUser 0 one_page (bytes 4500 7); PSplice 0 1 3000; PRead 1 100].

Lemma pipe_stream_witness :
  exists ps p, run_pipes [make_pipe true RING_DEFAULT_BUFFER_SIZE; make_pipe false PIPE_PAGE] stream_example = Some ps /\
    ps !! 1 = Some p /\ sent p = taken p ++ content (ring p) /\ length (content (ring p)) <= capacity (ring p).
Proof.
  destruct (run_pipes [make_pipe true RING_DEFAULT_BUFFER_SIZE; make_pipe false PIPE_PAGE] stream_example) as [ps|] eqn:E.
  2: { exfalso. assert (is_Some (run_pipes [make_pipe true RING_DEFAULT_BUFFER_SIZE; make_pipe false PIPE_PAGE] stream_example)) as [? ?]
         by (apply (bool_decide_unpack _); vm_compute; reflexivity). congruence. }
  destruct (ps !! 1) as [p|] eqn:Hp.
  2: { exfalso. assert (match run_pipes [make_pipe true RING_DEFAULT_BUFFER_SIZE; make_pipe false PIPE_PAGE] stream_example
         with Some ps => bool_decide (is_Some (ps !! 1)) | None => false end = true) as H by (vm_compute; reflexivity).
       rewrite E, Hp in H. discriminate. }
  exists ps, p. split; [reflexivity|]. split; [exact Hp|].
  apply (pipe_stream [(true, RING_DEFAULT_BUFFER_SIZE); (false, PIPE_PAGE)] stream_example ps) with (i := 1);
    [events_ok|vm_compute; reflexivity|exact E|exact Hp].
Defined.

(** ** Changes of the capacity that lose or invent bytes *)

(** Growing a pipe whose contents wrap around: bytes that were never written appear
    between the two parts. *)
Theorem pipe_grow_invents_bytes :
  match run_pipes [make_pipe false PIPE_PAGE]
    [PWrite 0 (bytes 3000 1); PRead 0 2000; PWrite 0 (bytes 2000 2); PResize 0 true PIPE_PAGE 8192; PRead 0 (2 * PIPE_PAGE)]
  with Some [p] => (length (sent p), length (taken p), Z.of_nat (length (filter (fun b => b = 0%Z) (taken p))))
     | _ => (0, 0, 0%Z)
  end = (3000 + 2000, 2000 + PIPE_PAGE + 3000, 4096%Z).
Proof. vm_compute. reflexivity. Qed.

(** Shrinking a pipe to exactly what it holds leaves [tail] at [capacity], an index
    that [head] never meets: 4096 bytes are written, the capacity is set to 4096, and
    a read of 8192 returns the same 4096 bytes twice, the next read again, and so on. *)
Theorem pipe_shrink_repeats :
  match run_pipes [make_pipe true PIPE_PAGE]
    [PWrite 0 (bytes 4096 7); PResize 0 true PIPE_PAGE 4096; PRead 0 (2 * PIPE_PAGE); PRead 0 PIPE_PAGE]
  with Some [p] => (length (sent p), length (taken p), is_status EMPTY (ring p)) | _ => (0, 0, true)
  end = (PIPE_PAGE, 3 * PIPE_PAGE, false).
Proof. vm_compute. reflexivity. Qed.
