(* ===== verification/FifoReg.v ===== *)
(** Named pipes ([fifo_open], [compact_fifo_registry] of [os/src/fs/dev/pipe.rs]).

    A registry maps the inode of a named pipe to its ring and to weak references to its
    ends; the ring holds weak references of its own, from which readers tell end of
    file and writers [EPIPE].  Every open file holds a strong reference to its end. *)

From stdpp Require Import base numbers option list gmap.
From S2P Require Import Prelude.

Record End := mkEnd {
  readable : bool;
  writable : bool;
  buffer : nat;
  strong : nat;
}.

(** The references a ring holds. *)
Record Links := mkLinks {
  read_end : option nat;
  write_end : option nat;
}.

Record FifoEntry := mkEntry {
  fe_read : option nat;
  fe_write : option nat;
  fe_buffer : nat;
}.

Record Fifos := mkFifos {
  ends : list End;
  rings : list Links;
  registry : gmap (Z * Z) FifoEntry;
}.

Definition fifos_new : Fifos := mkFifos [] [] ∅.

(** [Weak::strong_count] and [Weak::upgrade]. *)
Definition strong_count (y : Fifos) (w : option nat) : nat :=
  match w with
  | Some e => match ends y !! e with Some x => strong x | None => 0 end
  | None => 0
  end.

Definition upgrade (y : Fifos) (w : option nat) : option nat :=
  if (0 <? strong_count y w)%nat then w else None.

Definition all_read_ends_closed (y : Fifos) (b : nat) : bool :=
  match rings y !! b with Some l => (strong_count y (read_end l) =? 0)%nat | None => true end.
Definition all_write_ends_closed (y : Fifos) (b : nat) : bool :=
  match rings y !! b with Some l => (strong_count y (write_end l) =? 0)%nat | None => true end.

(** Another open file on the same end. *)
Definition share (y : Fifos) (e : nat) : Fifos :=
  mkFifos (alter (fun x => mkEnd (readable x) (writable x) (buffer x) (S (strong x))) e (ends y)) (rings y) (registry y).

(** A new end, linked from the ring and the registry. *)
Definition link (y : Fifos) (key : Z * Z) (f : FifoEntry) (for_read for_write : bool) : Fifos :=
  let e := length (ends y) in
  mkFifos (ends y ++ [mkEnd for_read for_write (fe_buffer f) 1])
    (alter (fun l => mkLinks (if for_read then Some e else read_end l) (if for_write then Some e else write_end l))
       (fe_buffer f) (rings y))
    (<[key := mkEntry (if for_read then Some e else fe_read f) (if for_write then Some e else fe_write f) (fe_buffer f)]>
       (registry y)).

(** The entry of [key], replaced when both of its ends are gone. *)
Definition fifo_entry (y : Fifos) (key : Z * Z) : Fifos * FifoEntry :=
  let fresh :=
    let f := mkEntry None None (length (rings y)) in
    (mkFifos (ends y) (rings y ++ [mkLinks None None]) (<[key := f]> (registry y)), f) in
  match registry y !! key with
  | Some f => if (strong_count y (fe_read f) =? 0)%nat && (strong_count y (fe_write f) =? 0)%nat then fresh else (y, f)
  | None => fresh
  end.

Definition is_writable (y : Fifos) (e : nat) : bool := match ends y !! e with Some x => writable x | None => false end.

Definition fifo_open (y : Fifos) (key : Z * Z) (for_read for_write nonblock : bool) : Fifos * result nat SyscallErr :=
  let '(y, f) := fifo_entry y key in
  let fresh r w := (link y key f r w, Ok (length (ends y))) in
  if for_read && for_write then
    match upgrade y (fe_read f) with
    | Some e => if is_writable y e then (share y e, Ok e) else fresh true true
    | None => fresh true true
    end
  else if for_read then
    match upgrade y (fe_read f) with Some e => (share y e, Ok e) | None => fresh true false end
  else if for_write then
    if nonblock && (strong_count y (fe_read f) =? 0)%nat then (y, Err ENXIO)
    else match upgrade y (fe_write f) with Some e => (share y e, Ok e) | None => fresh false true end
  else match upgrade y (fe_write f) with Some e => (share y e, Ok e) | None => fresh false true end.

(** An open file goes away. *)
Definition fifo_close (y : Fifos) (e : nat) : Fifos :=
  mkFifos (alter (fun x => mkEnd (readable x) (writable x) (buffer x) (pred (strong x))) e (ends y)) (rings y) (registry y).

Definition compact_fifo_registry (y : Fifos) : Fifos * nat :=
  let keep := filter (fun kf => ((0 <? strong_count y (fe_read (snd kf)))%nat || (0 <? strong_count y (fe_write (snd kf)))%nat) = true)
                (registry y) in
  (mkFifos (ends y) (rings y) keep, (size (registry y) - size keep)%nat).

Inductive fifo_event :=
| FOpen (key : Z * Z) (for_read for_write nonblock : bool)
| FClose (e : nat)
| FCompact.

Definition run_fifo_event (y : Fifos) (ev : fifo_event) : Fifos :=
  match ev with
  | FOpen key r w n => fst (fifo_open y key r w n)
  | FClose e => fifo_close y e
  | FCompact => fst (compact_fifo_registry y)
  end.

Definition run_fifos (y : Fifos) (evs : list fifo_event) : Fifos := foldl run_fifo_event y evs.

Definition one_way (ev : fifo_event) : Prop :=
  match ev with FOpen _ true true _ => False | _ => True end.

(** ** What the rings know *)

Record links_ok (y : Fifos) (b : nat) (l : Links) : Prop := {
  lo_read : forall e, read_end l = Some e -> exists x, ends y !! e = Some x /\ readable x = true /\ buffer x = b;
  lo_write : forall e, write_end l = Some e -> exists x, ends y !! e = Some x /\ writable x = true /\ buffer x = b;
}.

Record fifos_inv (y : Fifos) : Prop := {
  fi_ring : forall b l, rings y !! b = Some l -> links_ok y b l;
  fi_end : forall e x, ends y !! e = Some x -> (0 < strong x)%nat -> exists l, rings y !! buffer x = Some l /\
    (readable x = true -> read_end l = Some e) /\ (writable x = true -> write_end l = Some e);
  fi_entry : forall k f, registry y !! k = Some f -> rings y !! fe_buffer f = Some (mkLinks (fe_read f) (fe_write f));
  fi_inj : forall k k' f f', registry y !! k = Some f -> registry y !! k' = Some f' -> fe_buffer f = fe_buffer f' -> k = k';
}.

Lemma fifos_new_ok : fifos_inv fifos_new.
Proof. split; simpl; intros; by simplify_map_eq. Qed.

Lemma links_ok_ends y y' b l :
  (forall e x, ends y !! e = Some x ->
    exists x', ends y' !! e = Some x' /\ readable x' = readable x /\ writable x' = writable x /\ buffer x' = buffer x) ->
  links_ok y b l -> links_ok y' b l.
Proof.
  intros K [R W]. split; intros e He.
  - destruct (R e He) as (x & Hx & <- & <-). destruct (K e x Hx) as (x' & ? & ? & ? & ?). eauto.
  - destruct (W e He) as (x & Hx & <- & <-). destruct (K e x Hx) as (x' & ? & ? & ? & ?). eauto.
Qed.

(** Counting references leaves the links alone. *)
Lemma recount_ok y e f :
  fifos_inv y -> (forall n, ends y !! e = Some n -> (0 < f (strong n))%nat -> (0 < strong n)%nat) ->
  fifos_inv (mkFifos (alter (fun x => mkEnd (readable x) (writable x) (buffer x) (f (strong x))) e (ends y)) (rings y) (registry y)).
Proof.
  intros [R E N J] K. split; simpl; [|intros e' x' H St|done|done].
  - intros b l Hl. apply (links_ok_ends y); [|by apply R]. intros e' x Hx. simpl. destruct (decide (e = e')) as [->|].
    + rewrite list_lookup_alter_eq, Hx. simpl. eauto.
    + rewrite list_lookup_alter_ne by done. eauto.
  - destruct (decide (e = e')) as [->|]; [|rewrite list_lookup_alter_ne in H by done; eauto].
    rewrite list_lookup_alter_eq in H. destruct (ends y !! e') as [x|] eqn:Hx; simplify_eq/=.
    apply (E e' x Hx). by apply K.
Qed.

Lemma share_ok y e w : fifos_inv y -> upgrade y w = Some e -> fifos_inv (share y e).
Proof.
  intros I U. apply (recount_ok y e S); [done|]. intros x Hx _. unfold upgrade in U.
  destruct (Nat.ltb_spec 0 (strong_count y w)) as [Hs|]; simplify_eq. simpl in Hs. by rewrite Hx in Hs.
Qed.

Lemma close_ok y e : fifos_inv y -> fifos_inv (fifo_close y e).
Proof. intros I. apply (recount_ok y e pred); [done|]. intros x _. lia. Qed.

Lemma fresh_ok y key :
  fifos_inv y ->
  fifos_inv (mkFifos (ends y) (rings y ++ [mkLinks None None]) (<[key := mkEntry None None (length (rings y))]> (registry y))).
Proof.
  intros [R E N J]. split; simpl.
  - intros b l [Hl|[_ Hl]]%lookup_app_Some; [by apply (links_ok_ends y); [eauto|apply R]|].
    apply list_lookup_singleton_Some in Hl as [_ <-]. by split.
  - intros e x Hx Hs. destruct (E e x Hx Hs) as (l & Hl & ?). exists l. split; [|done]. by apply lookup_app_l_Some.
  - intros k f [[_ <-]|[_ Hf]]%lookup_insert_Some; simpl; [by rewrite list_lookup_middle|].
    apply lookup_app_l_Some. exact (N k f Hf).
  - assert (forall k f, registry y !! k = Some f -> fe_buffer f <> length (rings y)) as Lt.
    { intros k f Hf. apply N, lookup_lt_Some in Hf. lia. }
    intros k k' f f' [[-> <-]|[_ Hf]]%lookup_insert_Some [[-> <-]|[_ Hf']]%lookup_insert_Some Eb; simpl in *; [done|..].
    + by destruct (Lt k' f' Hf').
    + by destruct (Lt k f Hf).
    + by eapply J.
Qed.

Lemma fifo_entry_ok y key y' f :
  fifos_inv y -> fifo_entry y key = (y', f) ->
  fifos_inv y' /\ registry y' !! key = Some f /\ ends y' = ends y.
Proof.
  intros I. unfold fifo_entry. destruct (registry y !! key) as [g|] eqn:Eg.
  - destruct (_ && _); intros [= <- <-]; [|done]. split; [by apply fresh_ok|]. by simplify_map_eq.
  - intros [= <- <-]. split; [by apply fresh_ok|]. by simplify_map_eq.
Qed.

Lemma link_ok y key f r w :
  fifos_inv y -> registry y !! key = Some f ->
  (r = true -> strong_count y (fe_read f) = 0%nat) -> (w = true -> strong_count y (fe_write f) = 0%nat) ->
  fifos_inv (link y key f r w).
Proof.
  intros [R E N J] Hf Hr Hw. pose proof (N key f Hf) as Hl.
  assert (forall e x, ends y !! e = Some x -> exists x', ends (link y key f r w) !! e = Some x' /\
    readable x' = readable x /\ writable x' = writable x /\ buffer x' = buffer x) as Old.
  { intros e x Hx. exists x. split; [|done]. by apply lookup_app_l_Some. }
  assert ((ends y ++ [mkEnd r w (fe_buffer f) 1]) !! length (ends y) = Some (mkEnd r w (fe_buffer f) 1)) as New
    by by rewrite list_lookup_middle.
  split; simpl.
  - intros b l Hb. destruct (decide (fe_buffer f = b)) as [<-|Nb].
    + rewrite list_lookup_alter_eq, Hl in Hb. simpl in Hb. simplify_eq.
      destruct (links_ok_ends y (link y key f r w) _ _ Old (R _ _ Hl)) as [Lr Lw].
      split; simpl; intros e He; [destruct r|destruct w]; simplify_eq; eauto.
    + rewrite list_lookup_alter_ne in Hb by done. apply (links_ok_ends y); [exact Old|by apply R].
  - intros e x [Hx|[Ge Hx]]%lookup_app_Some Hs.
    + destruct (E e x Hx Hs) as (l & Hxl & Kr & Kw). destruct (decide (fe_buffer f = buffer x)) as [Eb|Nb].
      * rewrite Eb in Hl. simplify_eq. simpl in *. eexists. rewrite Eb, list_lookup_alter_eq, Hl. split; [done|]. simpl.
        split; intros Hb; [destruct r|destruct w]; auto; exfalso.
        -- specialize (Hr eq_refl). rewrite (Kr Hb) in Hr. simpl in Hr. rewrite Hx in Hr. lia.
        -- specialize (Hw eq_refl). rewrite (Kw Hb) in Hw. simpl in Hw. rewrite Hx in Hw. lia.
      * exists l. by rewrite list_lookup_alter_ne.
    + apply list_lookup_singleton_Some in Hx as [He <-]. simpl. rewrite list_lookup_alter_eq, Hl. simpl.
      assert (e = length (ends y)) as -> by lia.
      eexists. split; [done|]. simpl. split; intros ->; done.
  - intros k g [[-> <-]|[Nk Hg]]%lookup_insert_Some; simpl; [by rewrite list_lookup_alter_eq, Hl|].
    rewrite list_lookup_alter_ne by (intros Eb; by apply Nk, (J _ _ _ _ Hf Hg)). exact (N k g Hg).
  - intros k k' g g' [[-> <-]|[_ Hg]]%lookup_insert_Some [[-> <-]|[_ Hg']]%lookup_insert_Some Eb; simpl in *; by eauto.
Qed.

Lemma dead_weak y w : upgrade y w = None -> strong_count y w = 0%nat.
Proof.
  unfold upgrade. destruct (Nat.ltb_spec 0 (strong_count y w)) as [H|]; [|lia]. intros ->. simpl in H. lia.
Qed.

Lemma open_ok y key r w n : fifos_inv y -> r && w = false -> fifos_inv (fst (fifo_open y key r w n)).
Proof.
  intros I Rw. unfold fifo_open. destruct (fifo_entry y key) as [y' f] eqn:E.
  destruct (fifo_entry_ok y key y' f I E) as (I' & Hf & _). rewrite Rw.
  assert (forall wk b1 b2, (wk = fe_read f /\ b2 = false \/ wk = fe_write f /\ b1 = false) ->
    fifos_inv (fst (match upgrade y' wk with Some e => (share y' e, Ok (E := SyscallErr) e)
                    | None => (link y' key f b1 b2, Ok (length (ends y'))) end))) as Go.
  { intros wk b1 b2 Hk. destruct (upgrade y' wk) as [e|] eqn:U; [by eapply share_ok|]. apply dead_weak in U.
    apply link_ok; [done|done|..]; intros ->; destruct Hk as [[-> ?]|[-> ?]]; done. }
  destruct r; [by apply Go; auto|]. destruct w; [|by apply Go; auto].
  destruct (n && _); [done|]. by apply Go; auto.
Qed.

Lemma fifo_run_ok evs y : Forall one_way evs -> fifos_inv y -> fifos_inv (run_fifos y evs).
Proof.
  intros F. revert y. induction F as [|ev evs Hev F IH]; intros y I; simpl; [done|]. apply IH.
  destruct ev as [key r w n|e|]; simpl.
  - apply open_ok; [done|]. by destruct r, w.
  - by apply close_ok.
  - destruct I as [R E N J]. split; simpl; [intros b l Hl; by apply (links_ok_ends y); [eauto|apply R]|done|..].
    + intros k f [Hf _]%map_lookup_filter_Some. by apply (N k).
    + intros k k' f f' [Hf _]%map_lookup_filter_Some [Hf' _]%map_lookup_filter_Some. by apply J.
Qed.

(** C34: While named pipes are opened for reading or for writing, however often they are
    opened, closed and compacted, the ring of a pipe counts its readers and writers
    rightly: [all_read_ends_closed], from which writers take [EPIPE], holds exactly
    when no open file can read the ring, and the same for writers and end of file. *)
Theorem fifo_ends_tracked evs b :
  let y := run_fifos fifos_new evs in
  Forall one_way evs ->
  (all_read_ends_closed y b = false <->
     exists e x, ends y !! e = Some x /\ (0 < strong x)%nat /\ readable x = true /\ buffer x = b) /\
  (all_write_ends_closed y b = false <->
     exists e x, ends y !! e = Some x /\ (0 < strong x)%nat /\ writable x = true /\ buffer x = b).
Proof.
  intros y F. destruct (fifo_run_ok evs fifos_new F fifos_new_ok) as [R E N J]. fold y in R, E, N, J.
  unfold all_read_ends_closed, all_write_ends_closed. split; split.
  - destruct (rings y !! b) as [l|] eqn:Hl; [|done]. intros Hc%Nat.eqb_neq. destruct (read_end l) as [e|] eqn:He; [|done].
    destruct (lo_read _ _ _ (R b l Hl) e He) as (x & Hx & ? & ?). simpl in Hc. rewrite Hx in Hc. exists e, x. auto with lia.
  - intros (e & x & Hx & Hs & Hr & <-). destruct (E e x Hx Hs) as (l & -> & Kr & _). rewrite (Kr Hr). simpl. rewrite Hx.
    apply Nat.eqb_neq. lia.
  - destruct (rings y !! b) as [l|] eqn:Hl; [|done]. intros Hc%Nat.eqb_neq. destruct (write_end l) as [e|] eqn:He; [|done].
    destruct (lo_write _ _ _ (R b l Hl) e He) as (x & Hx & ? & ?). simpl in Hc. rewrite Hx in Hc. exists e, x. auto with lia.
  - intros (e & x & Hx & Hs & Hr & <-). destruct (E e x Hx Hs) as (l & -> & _ & Kw). rewrite (Kw Hr). simpl. rewrite Hx.
    apply Nat.eqb_neq. lia.
Qed.

Lemma fifo_ends_tracked_witness :
  let y := run_fifos fifos_new [FOpen (1, 2) true false false; FOpen (1, 2) false true true; FClose 1; FCompact] in
  all_read_ends_closed y 0 = false <->
    exists e x, ends y !! e = Some x /\ (0 < strong x)%nat /\ readable x = true /\ buffer x = 0%nat.
Proof.
  apply (fifo_ends_tracked [FOpen (1, 2) true false false; FOpen (1, 2) false true true; FClose 1; FCompact] 0).
  repeat constructor.
Defined.

(** Opening a named pipe for both while a reader has it open replaces the reader in the
    ring; when the second file is closed, writers get [EPIPE] although the first is
    still open for reading. *)
Theorem fifo_rdwr_hides_reader :
  let y := run_fifos fifos_new [FOpen (1, 2) true false false; FOpen (1, 2) true true false; FClose 1] in
  all_read_ends_closed y 0 = true /\ ends y !! 0%nat = Some (mkEnd true false 0 1).
Proof. by vm_compute. Qed.
