(* ===== verification/Creds.v ===== *)
(** Credentials, capabilities and seccomp ([os/src/syscall/process/ids.rs], and the
    inheritance of both in [os/src/task/task.rs]).

    A task's credentials change only through the calls modelled here: [execve] ignores
    the set-user-ID bits, and a new task copies those of its parent.  A call takes the
    credentials and its arguments, user memory as what a copy from it gives, and
    returns the new credentials and the answer.  Words are [Z]. *)

From stdpp Require Import base numbers option list.
From S2P Require Import Prelude.

Definition CAP_LAST_CAP : Z := 40.
Definition CAP_SETPCAP : Z := 8.
Definition CAP_SYS_ADMIN : Z := 21.
Definition CAP_SYS_PTRACE : Z := 19.
Definition CAP_FULL_SET : Z := Z.shiftl 1 (CAP_LAST_CAP + 1) - 1.
Definition NGROUPS_MAX : Z := 65536.
Definition LEGACY_NGROUPS_MAX : Z := 32.

(** Real, effective, saved and file-system identifier. *)
Record Ids := mkIds { rid : Z; eid : Z; sid : Z; fsid : Z }.

Record Caps := mkCaps {
  effective : Z;
  permitted : Z;
  inheritable : Z;
  bounding : Z;
  ambient : Z;
}.

Record SeccompFilterInsn := mkInsn { code : Z; jt : nat; jf : nat; k : Z }.

Record Cred := mkCred {
  users : Ids;
  groups_of : Ids;
  groups : list Z;
  caps : Caps;
  no_new_privs : bool;
  securebits : Z;
  dumpable : Z;
  seccomp_mode : Z;
  seccomp_filter : list SeccompFilterInsn;
}.

(** The credentials of the first task. *)
Definition cred_init : Cred :=
  mkCred (mkIds 0 0 0 0) (mkIds 0 0 0 0) [] (mkCaps CAP_FULL_SET CAP_FULL_SET 0 CAP_FULL_SET 0) false 0 1 0 [].

Definition with_users (c : Cred) (u : Ids) : Cred :=
  mkCred u (groups_of c) (groups c) (caps c) (no_new_privs c) (securebits c) (dumpable c) (seccomp_mode c) (seccomp_filter c).
Definition with_gids (c : Cred) (g : Ids) : Cred :=
  mkCred (users c) g (groups c) (caps c) (no_new_privs c) (securebits c) (dumpable c) (seccomp_mode c) (seccomp_filter c).
Definition with_groups (c : Cred) (l : list Z) : Cred :=
  mkCred (users c) (groups_of c) l (caps c) (no_new_privs c) (securebits c) (dumpable c) (seccomp_mode c) (seccomp_filter c).
Definition with_caps (c : Cred) (p : Caps) : Cred :=
  mkCred (users c) (groups_of c) (groups c) p (no_new_privs c) (securebits c) (dumpable c) (seccomp_mode c) (seccomp_filter c).
Definition with_flags (c : Cred) (nnp : bool) (bits dump : Z) : Cred :=
  mkCred (users c) (groups_of c) (groups c) (caps c) nnp bits dump (seccomp_mode c) (seccomp_filter c).
Definition with_seccomp (c : Cred) (mode : Z) (f : list SeccompFilterInsn) : Cred :=
  mkCred (users c) (groups_of c) (groups c) (caps c) (no_new_privs c) (securebits c) (dumpable c) mode f.

(** ** Identifiers *)

Definition u32_max : Z := u32_modulus - 1.

Definition parse_id (arg : Z) : result Z SyscallErr := if u32_max <? arg then Err EINVAL else Ok arg.

Definition parse_optional_id (arg : Z) : result (option Z) SyscallErr :=
  if (arg =? usize_max) || (arg =? u32_max) then Ok None
  else match parse_id arg with Ok id => Ok (Some id) | Err e => Err e end.

Definition refresh_effective_caps (c : Cred) : Cred :=
  let p := caps c in
  with_caps c (mkCaps (if eid (users c) =? 0 then permitted p else 0) (permitted p) (inheritable p) (bounding p) (ambient p)).

Definition is_one_of (i : Ids) (id : Z) : bool := (id =? rid i) || (id =? eid i) || (id =? sid i).

(** The change [setuid] and [setgid] make, [setreuid] and [setregid], [setresuid] and
    [setresgid]; [None] is [EPERM].  [privileged] is an effective user 0 in all six. *)
Definition set_id (privileged : bool) (i : Ids) (id : Z) : option Ids :=
  if negb privileged && negb (is_one_of i id) then None
  else Some (if privileged then mkIds id id id id else mkIds (rid i) id (sid i) id).

Definition set_reid (privileged : bool) (i : Ids) (r e : option Z) : option Ids :=
  let refuse_r := match r with Some id => negb ((id =? rid i) || (id =? eid i)) | None => false end in
  let refuse_e := match e with Some id => negb (is_one_of i id) | None => false end in
  if negb privileged && (refuse_r || refuse_e) then None
  else
    let new_e := default (eid i) e in
    let saved := match r, e with
                 | Some _, _ => true
                 | None, Some id => negb (id =? rid i)
                 | None, None => false
                 end in
    Some (mkIds (default (rid i) r) new_e (if saved then new_e else sid i) (default (fsid i) e)).

Definition set_resid (privileged : bool) (i : Ids) (r e s : option Z) : option Ids :=
  let refuse o := match o with Some id => negb (is_one_of i id) | None => false end in
  if negb privileged && (refuse r || refuse e || refuse s) then None
  else Some (mkIds (default (rid i) r) (default (eid i) e) (default (sid i) s) (default (fsid i) e)).

Definition root (c : Cred) : bool := eid (users c) =? 0.

Definition answer_users (c : Cred) (o : option Ids) : Cred * result Z SyscallErr :=
  match o with Some u => (refresh_effective_caps (with_users c u), Ok 0) | None => (c, Err EPERM) end.
Definition answer_gids (c : Cred) (o : option Ids) : Cred * result Z SyscallErr :=
  match o with Some g => (with_gids c g, Ok 0) | None => (c, Err EPERM) end.

Definition sys_setuid (c : Cred) (uid : Z) : Cred * result Z SyscallErr :=
  match parse_id uid with
  | Err e => (c, Err e)
  | Ok uid => answer_users c (set_id (root c) (users c) uid)
  end.

Definition sys_setreuid (c : Cred) (ruid euid : Z) : Cred * result Z SyscallErr :=
  match parse_optional_id ruid, parse_optional_id euid with
  | Ok r, Ok e => answer_users c (set_reid (root c) (users c) r e)
  | Err e, _ => (c, Err e)
  | _, Err e => (c, Err e)
  end.

Definition sys_setresuid (c : Cred) (ruid euid suid : Z) : Cred * result Z SyscallErr :=
  match parse_optional_id ruid, parse_optional_id euid, parse_optional_id suid with
  | Ok r, Ok e, Ok s => answer_users c (set_resid (root c) (users c) r e s)
  | Err e, _, _ => (c, Err e)
  | _, Err e, _ => (c, Err e)
  | _, _, Err e => (c, Err e)
  end.

Definition sys_setgid (c : Cred) (gid : Z) : Cred * result Z SyscallErr :=
  match parse_id gid with
  | Err e => (c, Err e)
  | Ok gid => answer_gids c (set_id (root c) (groups_of c) gid)
  end.

Definition sys_setregid (c : Cred) (rgid egid : Z) : Cred * result Z SyscallErr :=
  match parse_optional_id rgid, parse_optional_id egid with
  | Ok r, Ok e => answer_gids c (set_reid (root c) (groups_of c) r e)
  | Err e, _ => (c, Err e)
  | _, Err e => (c, Err e)
  end.

Definition sys_setresgid (c : Cred) (rgid egid sgid : Z) : Cred * result Z SyscallErr :=
  match parse_optional_id rgid, parse_optional_id egid, parse_optional_id sgid with
  | Ok r, Ok e, Ok s => answer_gids c (set_resid (root c) (groups_of c) r e s)
  | Err e, _, _ => (c, Err e)
  | _, Err e, _ => (c, Err e)
  | _, _, Err e => (c, Err e)
  end.

Definition set_fsid (privileged : bool) (i : Ids) (id : Z) : Ids :=
  if privileged || is_one_of i id then mkIds (rid i) (eid i) (sid i) id else i.

Definition sys_setfsuid (c : Cred) (fsuid : Z) : Cred * result Z SyscallErr :=
  match parse_optional_id fsuid with
  | Ok (Some id) => (with_users c (set_fsid (root c) (users c) id), Ok (fsid (users c)))
  | _ => (c, Ok (fsid (users c)))
  end.

Definition sys_setfsgid (c : Cred) (fsgid : Z) : Cred * result Z SyscallErr :=
  match parse_optional_id fsgid with
  | Ok (Some id) => (with_gids c (set_fsid (root c) (groups_of c) id), Ok (fsid (groups_of c)))
  | _ => (c, Ok (fsid (groups_of c)))
  end.

(** [null], [mapped], [reserved]: the pointer is null, the buffer is readable, memory
    for the copy is there; [user]: the identifiers read, or the fault on the way. *)
Definition sys_setgroups (c : Cred) (size : Z) (null mapped reserved : bool) (user : result (list Z) SyscallErr)
    : Cred * result Z SyscallErr :=
  if negb (root c) then (c, Err EPERM)
  else if NGROUPS_MAX <? size then (c, Err EINVAL)
  else if (0 <? size) && null then (c, Err EFAULT)
  else if (0 <? size) && match checked_mul size 4 with None => true | Some _ => negb mapped end then (c, Err EFAULT)
  else if (0 <? size) && (LEGACY_NGROUPS_MAX <? size) then (c, Err EINVAL)
  else if negb reserved then (c, Err ENOMEM)
  else if 0 <? size
  then match user with Ok l => (with_groups c (take (Z.to_nat size) l), Ok 0) | Err e => (c, Err e) end
  else (with_groups c [], Ok 0).

(** The count it returns and what it writes. *)
Definition sys_getgroups (c : Cred) (size : Z) (null : bool) : result (nat * list Z) SyscallErr :=
  if size =? 0 then Ok (length (groups c), [])
  else if (NGROUPS_MAX <? size) || (size <? Z.of_nat (length (groups c))) then Err EINVAL
  else if null then Err EFAULT
  else Ok (length (groups c), groups c).

(** ** Capabilities *)

Definition cap_bit (set cap : Z) : bool := negb (Z.land set (Z.shiftl 1 cap) =? 0).
Definition without (set other : Z) : Z := Z.land set (Z.lnot other).
Definition full (set : Z) : Z := Z.land set CAP_FULL_SET.

Definition cap_words (version : Z) : option nat :=
  if version =? 0x19980330 then Some 1%nat
  else if (version =? 0x20071026) || (version =? 0x20080522) then Some 2%nat
  else None.

(** One or two triples of 32-bit words. *)
Definition CapUserData : Type := Z * Z * Z.

Definition low (x : Z) : Z := x mod u32_modulus.
Definition high (x : Z) : Z := Z.shiftr x 32 mod u32_modulus.

Definition write_cap_data (words : nat) (e p i : Z) : list CapUserData :=
  (low e, low p, low i) :: (if (words =? 2)%nat then [(high e, high p, high i)] else []).

Definition read_cap_data (words : nat) (data : list CapUserData) : option (Z * Z * Z) :=
  match data with
  | (e1, p1, i1) :: rest =>
      if (words =? 2)%nat then
        match rest with
        | (e2, p2, i2) :: _ =>
            Some (full (Z.lor e1 (Z.shiftl e2 32)), full (Z.lor p1 (Z.shiftl p2 32)), full (Z.lor i1 (Z.shiftl i2 32)))
        | [] => None
        end
      else Some (full e1, full p1, full i1)
  | [] => None
  end.

(** Whom the header names: this task, another one, nobody, or a negative number. *)
Inductive Target := Self | Other (c : Cred) | Missing | Negative.

Definition sys_capget (c : Cred) (version : Z) (target : Target) : result (list CapUserData) SyscallErr :=
  match cap_words version with
  | None => Err EINVAL
  | Some words =>
      match target with
      | Negative => Err EINVAL
      | Missing => Err ESRCH
      | Self => let p := caps c in Ok (write_cap_data words (effective p) (permitted p) (inheritable p))
      | Other c => let p := caps c in Ok (write_cap_data words (effective p) (permitted p) (inheritable p))
      end
  end.

(** The checks and the change of [sys_capset]; [None] is [EPERM]. *)
Definition capset (p : Caps) (e pm i : Z) : option Caps :=
  let limit := if cap_bit (effective p) CAP_SETPCAP
               then Z.lor (Z.lor (inheritable p) (permitted p)) (bounding p)
               else Z.lor (inheritable p) (permitted p) in
  if negb (without e pm =? 0) then None
  else if negb (without pm (permitted p) =? 0) then None
  else if negb (without i limit =? 0) then None
  else Some (mkCaps (full e) (full pm) (full i) (bounding p) (Z.land (ambient p) (Z.land (full pm) (full i)))).

Definition sys_capset (c : Cred) (version : Z) (target : Target) (data : result (list CapUserData) SyscallErr)
    : Cred * result Z SyscallErr :=
  match cap_words version with
  | None => (c, Err EINVAL)
  | Some words =>
      match target with
      | Negative => (c, Err EINVAL)
      | Missing => (c, Err ESRCH)
      | Other _ => (c, Err EPERM)
      | Self =>
          match data with
          | Err e => (c, Err e)
          | Ok l =>
              match read_cap_data words l with
              | None => (c, Err EFAULT)
              | Some (e, p, i) => match capset (caps c) e p i with
                                  | Some p => (with_caps c p, Ok 0)
                                  | None => (c, Err EPERM)
                                  end
              end
          end
      end
  end.

Definition SECBIT_NO_CAP_AMBIENT_RAISE : Z := Z.shiftl 1 6.

(** [sys_prctl_cap_ambient], operations 1 to 4. *)
Definition sys_prctl_cap_ambient (c : Cred) (op cap arg4 arg5 : Z) : Cred * result Z SyscallErr :=
  let p := caps c in
  let set a := with_caps c (mkCaps (effective p) (permitted p) (inheritable p) (bounding p) a) in
  if negb (arg4 =? 0) || negb (arg5 =? 0) then (c, Err EINVAL)
  else if op =? 1 then
    if CAP_LAST_CAP <? cap then (c, Err EINVAL) else (c, Ok (Z.b2z (cap_bit (ambient p) cap)))
  else if op =? 2 then
    if CAP_LAST_CAP <? cap then (c, Err EINVAL)
    else if negb (Z.land (securebits c) SECBIT_NO_CAP_AMBIENT_RAISE =? 0)
            || negb (cap_bit (permitted p) cap) || negb (cap_bit (inheritable p) cap)
    then (c, Err EPERM)
    else (set (Z.lor (ambient p) (Z.shiftl 1 cap)), Ok 0)
  else if op =? 3 then
    if CAP_LAST_CAP <? cap then (c, Err EINVAL) else (set (without (ambient p) (Z.shiftl 1 cap)), Ok 0)
  else if op =? 4 then
    if negb (cap =? 0) then (c, Err EINVAL) else (set 0, Ok 0)
  else (c, Err EINVAL).

Definition capbset_drop (c : Cred) (cap : Z) : Cred * result Z SyscallErr :=
  let p := caps c in
  if CAP_LAST_CAP <? cap then (c, Err EINVAL)
  else if negb (cap_bit (effective p) CAP_SETPCAP) then (c, Err EPERM)
  else
    let b := without (bounding p) (Z.shiftl 1 cap) in
    (with_caps c (mkCaps (effective p) (permitted p) (inheritable p) b (Z.land (ambient p) b)), Ok 0).

(** ** Seccomp *)

Definition SECCOMP_MODE_DISABLED : Z := 0.
Definition SECCOMP_MODE_STRICT : Z := 1.
Definition SECCOMP_MODE_FILTER : Z := 2.
Definition SECCOMP_FILTER_MAX_LEN : nat := 4096.
Definition SECCOMP_RET_KILL_THREAD : Z := 0.
Definition SECCOMP_RET_KILL_PROCESS : Z := 0x80000000.
Definition SECCOMP_RET_ALLOW : Z := 0x7fff0000.

Inductive SeccompSyscallAction := Allow | KillThread | KillProcess.

#[export] Instance SeccompSyscallAction_eq_dec : EqDecision SeccompSyscallAction.
Proof. solve_decision. Defined.

Definition seccomp_filter_allows_return (ret : Z) : bool := Z.land ret 0xffff0000 =? SECCOMP_RET_ALLOW.
Definition seccomp_filter_kills_return (ret : Z) : bool :=
  (ret =? SECCOMP_RET_KILL_THREAD) || (ret =? SECCOMP_RET_KILL_PROCESS).
Definition seccomp_filter_kill_action (ret : Z) : SeccompSyscallAction :=
  if ret =? SECCOMP_RET_KILL_PROCESS then KillProcess else KillThread.

Inductive Class := LD | JMP | RET | OtherClass.

Definition class_of (i : SeccompFilterInsn) : Class :=
  let c := Z.land (code i) 0x07 in
  if c =? 0x00 then LD else if c =? 0x05 then JMP else if c =? 0x06 then RET else OtherClass.

(** The checks of [verify_seccomp_filter] on the instruction at [pc]. *)
Definition insn_ok (len pc : nat) (i : SeccompFilterInsn) : bool :=
  match class_of i with
  | LD => (Z.land (code i) 0x18 =? 0) && (Z.land (code i) 0xe0 =? 0x20) && (k i =? 0)
  | JMP => (Z.land (code i) 0xf0 =? 0x10) && (Z.land (code i) 0x08 =? 0)
           && (pc + 1 + jt i <? len)%nat && (pc + 1 + jf i <? len)%nat
  | RET => (Z.land (code i) 0x08 =? 0) && (seccomp_filter_allows_return (k i) || seccomp_filter_kills_return (k i))
  | OtherClass => false
  end.

Fixpoint insns_ok (len pc : nat) (l : list SeccompFilterInsn) : bool :=
  match l with [] => true | i :: l => insn_ok len pc i && insns_ok len (S pc) l end.

Definition is_ret (i : SeccompFilterInsn) : bool := match class_of i with RET => true | _ => false end.

Definition verify_seccomp_filter (l : list SeccompFilterInsn) : bool :=
  negb ((length l =? 0)%nat || (SECCOMP_FILTER_MAX_LEN <? length l)%nat)
  && insns_ok (length l) 0 l && existsb is_ret l.

(** The loop of [eval_seccomp_filter]; [None] is a loop that has not ended. *)
Fixpoint eval_loop (fuel : nat) (l : list SeccompFilterInsn) (nr : Z) (pc : nat) (accumulator : Z)
    : option SeccompSyscallAction :=
  match fuel with
  | 0%nat => None
  | S fuel =>
      match l !! pc with
      | None => Some KillThread
      | Some i =>
          match class_of i with
          | LD => eval_loop fuel l nr (pc + 1) (nr mod u32_modulus)
          | JMP => eval_loop fuel l nr (pc + 1 + (if accumulator =? k i then jt i else jf i)) accumulator
          | RET => Some (if seccomp_filter_allows_return (k i) then Allow else seccomp_filter_kill_action (k i))
          | OtherClass => Some KillThread
          end
      end
  end.

Definition eval_seccomp_filter (l : list SeccompFilterInsn) (nr : Z) : option SeccompSyscallAction :=
  eval_loop (S (length l)) l nr 0 0.

(** [seccomp_action_for_syscall]; [active] is the number of tasks under seccomp. *)
Definition seccomp_action_for_syscall (active : Z) (c : Cred) (nr : Z) : option SeccompSyscallAction :=
  if active =? 0 then Some Allow
  else if seccomp_mode c =? SECCOMP_MODE_DISABLED then Some Allow
  else if seccomp_mode c =? SECCOMP_MODE_STRICT then
    Some (if (nr =? 63) || (nr =? 64) || (nr =? 93) || (nr =? 139) then Allow else KillProcess)
  else if seccomp_mode c =? SECCOMP_MODE_FILTER then eval_seccomp_filter (seccomp_filter c) nr
  else Some KillProcess.

(** [read_seccomp_filter]: what the user memory holds, checked. *)
Definition read_seccomp_filter (user : result (list SeccompFilterInsn) SyscallErr)
    : result (list SeccompFilterInsn) SyscallErr :=
  match user with
  | Err e => Err e
  | Ok l => if verify_seccomp_filter l then Ok l else Err EINVAL
  end.

Definition sys_prctl_set_seccomp (c : Cred) (mode : Z) (user : result (list SeccompFilterInsn) SyscallErr)
    : Cred * result Z SyscallErr :=
  if mode =? SECCOMP_MODE_STRICT then
    if negb (seccomp_mode c =? SECCOMP_MODE_DISABLED) then (c, Err EINVAL)
    else (with_seccomp c SECCOMP_MODE_STRICT [], Ok 0)
  else if negb (mode =? SECCOMP_MODE_FILTER) then (c, Err EINVAL)
  else match read_seccomp_filter user with
       | Err e => (c, Err e)
       | Ok l =>
           if negb (seccomp_mode c =? SECCOMP_MODE_DISABLED) then (c, Err EINVAL)
           else if negb (no_new_privs c) && negb (cap_bit (effective (caps c)) CAP_SYS_ADMIN) then (c, Err EACCES)
           else (with_seccomp c SECCOMP_MODE_FILTER l, Ok 0)
       end.

(** ** [prctl] *)

(** The rest of a task's state that [prctl] reads and writes.  The mark of a subreaper
    belongs to the process and is not kept here. *)
Record Misc := mkMisc {
  pdeath_signal : Z;
  task_comm : list Z;
  thp_disabled : bool;
  timer_slack_ns : Z;
  timer_slack_default_ns : Z;
}.

Definition misc_init : Misc := mkMisc 0 (replicate 16 0) false 50000 50000.

(** What user memory answers: a copy out, a name read, a filter read. *)
Record UserArgs := mkUser {
  copy_out : result unit SyscallErr;
  name_in : result (list Z) SyscallErr;
  filter_in : result (list SeccompFilterInsn) SyscallErr;
}.

(** [read_prctl_comm_from_user]: zero from the first NUL on, or in the last byte. *)
Fixpoint cut_at_nul (l : list Z) : list Z * bool :=
  match l with
  | [] => ([], false)
  | x :: l => if x =? 0 then (0 :: ((fun _ => 0) <$> l), true) else let '(l, found) := cut_at_nul l in (x :: l, found)
  end.

Definition read_prctl_comm (l : list Z) : list Z :=
  let '(l', found) := cut_at_nul (take 16 l) in if found then l' else <[15%nat := 0]> l'.

Definition fault_only (r : result unit SyscallErr) : result Z SyscallErr :=
  match r with Ok _ => Ok 0 | Err _ => Err EFAULT end.

Definition sys_prctl (c : Cred) (m : Misc) (option arg2 arg3 arg4 arg5 : Z) (u : UserArgs)
    : Cred * Misc * result Z SyscallErr :=
  let ok_m m := (c, m, Ok 0) in
  let ret r := (c, m, r) in
  let of_cred '(c, r) := (c, m, r) in
  let rest_zero := (arg3 =? 0) && (arg4 =? 0) && (arg5 =? 0) in
  match option with
  | 1 => if 64 <? arg2 then ret (Err EINVAL)
         else ok_m (mkMisc arg2 (task_comm m) (thp_disabled m) (timer_slack_ns m) (timer_slack_default_ns m))
  | 2 => ret (fault_only (copy_out u))
  | 3 => ret (Ok (dumpable c))
  | 4 => if 1 <? arg2 then ret (Err EINVAL) else (with_flags c (no_new_privs c) (securebits c) arg2, m, Ok 0)
  | 7 => ret (Ok 0)
  | 8 => ret (Ok 0)
  | 15 => match name_in u with
          | Err e => ret (Err e)
          | Ok l => ok_m (mkMisc (pdeath_signal m) (read_prctl_comm l) (thp_disabled m) (timer_slack_ns m)
                            (timer_slack_default_ns m))
          end
  | 16 => ret (match copy_out u with Ok _ => Ok 0 | Err e => Err e end)
  | 21 => ret (Ok (seccomp_mode c))
  | 22 => of_cred (sys_prctl_set_seccomp c arg2 (filter_in u))
  | 23 => if CAP_LAST_CAP <? arg2 then ret (Err EINVAL) else ret (Ok (Z.b2z (cap_bit (bounding (caps c)) arg2)))
  | 24 => of_cred (capbset_drop c arg2)
  | 27 => ret (Ok (securebits c))
  | 28 => if negb (cap_bit (effective (caps c)) CAP_SETPCAP) then ret (Err EPERM)
          else (with_flags c (no_new_privs c) arg2 (dumpable c), m, Ok 0)
  | 29 => ok_m (mkMisc (pdeath_signal m) (task_comm m) (thp_disabled m)
                  (if arg2 =? 0 then timer_slack_default_ns m else arg2) (timer_slack_default_ns m))
  | 30 => ret (Ok (timer_slack_ns m))
  | 36 => ret (Ok 0)
  | 37 => ret (fault_only (copy_out u))
  | 38 => if negb (arg2 =? 1) || negb rest_zero then ret (Err EINVAL)
          else (with_flags c true (securebits c) (dumpable c), m, Ok 0)
  | 39 => if negb (arg2 =? 0) || negb rest_zero then ret (Err EINVAL) else ret (Ok (Z.b2z (no_new_privs c)))
  | 41 => if (1 <? arg2) || negb rest_zero then ret (Err EINVAL)
          else ok_m (mkMisc (pdeath_signal m) (task_comm m) (negb (arg2 =? 0)) (timer_slack_ns m)
                       (timer_slack_default_ns m))
  | 42 => if negb (arg2 =? 0) || negb rest_zero then ret (Err EINVAL) else ret (Ok (Z.b2z (thp_disabled m)))
  | 47 => of_cred (sys_prctl_cap_ambient c arg2 arg3 arg4 arg5)
  | 52 => if negb rest_zero || negb (arg2 =? 0) then ret (Err EINVAL) else ret (Ok 0)
  | _ => ret (Err EINVAL)
  end.

(** ** Calls, tasks and their descendants *)

Inductive call :=
| SetUid (uid : Z)
| SetReUid (r e : Z)
| SetResUid (r e s : Z)
| SetGid (gid : Z)
| SetReGid (r e : Z)
| SetResGid (r e s : Z)
| SetFsUid (id : Z)
| SetFsGid (id : Z)
| SetGroups (size : Z) (null mapped reserved : bool) (user : result (list Z) SyscallErr)
| CapSet (version : Z) (target : Target) (data : result (list CapUserData) SyscallErr)
| Prctl (option arg2 arg3 arg4 arg5 : Z) (u : UserArgs).

(** Its number ([os/src/syscall/syscall_id.rs]). *)
Definition number (x : call) : Z :=
  match x with
  | SetReGid _ _ => 143 | SetGid _ => 144 | SetReUid _ _ => 145 | SetUid _ => 146 | SetResUid _ _ _ => 147
  | SetResGid _ _ _ => 149 | SetFsUid _ => 151 | SetFsGid _ => 152 | SetGroups _ _ _ _ _ => 159 | Prctl _ _ _ _ _ _ => 167
  | CapSet _ _ _ => 91
  end.

Definition run_call (c : Cred) (m : Misc) (x : call) : Cred * Misc * result Z SyscallErr :=
  let of_cred '(c, r) := (c, m, r) in
  match x with
  | SetUid uid => of_cred (sys_setuid c uid)
  | SetReUid r e => of_cred (sys_setreuid c r e)
  | SetResUid r e s => of_cred (sys_setresuid c r e s)
  | SetGid gid => of_cred (sys_setgid c gid)
  | SetReGid r e => of_cred (sys_setregid c r e)
  | SetResGid r e s => of_cred (sys_setresgid c r e s)
  | SetFsUid id => of_cred (sys_setfsuid c id)
  | SetFsGid id => of_cred (sys_setfsgid c id)
  | SetGroups size null mapped reserved user => of_cred (sys_setgroups c size null mapped reserved user)
  | CapSet version target data => of_cred (sys_capset c version target data)
  | Prctl o a2 a3 a4 a5 u => sys_prctl c m o a2 a3 a4 a5 u
  end.

(** [counted] is [seccomp_counted]; [origin] is the parent. *)
Record CTask := mkCTask {
  cred : Cred;
  misc : Misc;
  counted : bool;
  live : bool;
  origin : option nat;
}.

(** [active] is [ACTIVE_SECCOMP_TASKS]. *)
Record CSys := mkCSys {
  ctasks : list CTask;
  active : Z;
}.

Definition csys_init : CSys := mkCSys [mkCTask cred_init misc_init false true None] 0.

(** [account_seccomp_enabled] and [unaccount_seccomp_enabled]. *)
Definition account (t : CTask) (n : Z) : CTask * Z :=
  (mkCTask (cred t) (misc t) true (live t) (origin t), if counted t then n else n + 1).
Definition unaccount (t : CTask) (n : Z) : CTask * Z :=
  (mkCTask (cred t) (misc t) false (live t) (origin t), if counted t then n - 1 else n).

Inductive cred_event :=
| ECall (t : nat) (x : call)
| EClone (t : nat)
| EDrop (t : nat).

Definition SYSCALL_CLONE : Z := 220.

Definition killed (y : CSys) (i : nat) (t : CTask) : CSys :=
  mkCSys (<[i := mkCTask (cred t) (misc t) (counted t) false (origin t)]> (ctasks y)) (active y).

(** The dispatcher asks seccomp first; a task it kills makes no more calls (the other
    threads of a killed process are not stopped here, which only allows more histories).  [clone]
    copies; the last reference to a task that has ended takes it out of the count. *)
Definition cred_step (y : CSys) (ev : cred_event) : option CSys :=
  match ev with
  | ECall i x =>
      match ctasks y !! i with
      | Some t =>
          if negb (live t) then Some y
          else
            a ← seccomp_action_for_syscall (active y) (cred t) (number x);
            match a with
            | Allow =>
                let '(c, m, r) := run_call (cred t) (misc t) x in
                let t' := mkCTask c m (counted t) true (origin t) in
                let '(t', n) := if (seccomp_mode (cred t) =? 0) && negb (seccomp_mode c =? 0)
                                then account t' (active y) else (t', active y) in
                Some (mkCSys (<[i := t']> (ctasks y)) n)
            | _ => Some (killed y i t)
            end
      | None => Some y
      end
  | EClone i =>
      match ctasks y !! i with
      | Some t =>
          if negb (live t) then Some y
          else
            a ← seccomp_action_for_syscall (active y) (cred t) SYSCALL_CLONE;
            match a with
            | Allow =>
                let m := misc t in
                let child := mkCTask (cred t) (mkMisc 0 (task_comm m) (thp_disabled m) (timer_slack_ns m) (timer_slack_ns m))
                               false true (Some i) in
                let '(child, n) := if seccomp_mode (cred t) =? 0 then (child, active y) else account child (active y) in
                Some (mkCSys (ctasks y ++ [child]) n)
            | _ => Some (killed y i t)
            end
      | None => Some y
      end
  | EDrop i =>
      match ctasks y !! i with
      | Some t => let '(t, n) := unaccount (mkCTask (cred t) (misc t) (counted t) false (origin t)) (active y) in
                  Some (mkCSys (<[i := t]> (ctasks y)) n)
      | None => Some y
      end
  end.

Fixpoint cred_run (y : CSys) (evs : list cred_event) : option CSys :=
  match evs with
  | [] => Some y
  | ev :: evs => y ← cred_step y ev; cred_run y evs
  end.
