(* ===== verification/CredSafe.v ===== *)
(** Privileges do not grow: capability sets stay well-formed, a task without user 0 gains
    no identifier, group or capability, neither for itself nor for its descendants,
    and a seccomp filter, once installed, is applied to every later call.  What the
    code misses is at the end: giving up user 0 does not give up its capabilities. *)

From stdpp Require Import base numbers option list.
From S2P Require Import Prelude Creds.

(** ** Bit sets *)

Definition sub (a b : Z) : Prop := forall i, Z.testbit a i = true -> Z.testbit b i = true.

#[export] Instance sub_preorder : PreOrder sub.
Proof. split; [by intros a i|]. intros a b c H1 H2 i Hi. auto. Qed.

Lemma without_sub a b : without a b = 0 <-> sub a b.
Proof.
  unfold without. split.
  - intros E i Hi. destruct (Z.testbit b i) eqn:Hb; [done|]. assert (0 <= i) by (destruct i; [done|lia|by rewrite Z.testbit_neg_r in Hi]).
    assert (Z.testbit (Z.land a (Z.lnot b)) i = true); [|by rewrite E, Z.bits_0 in *].
    by rewrite Z.land_spec, Z.lnot_spec, Hi, Hb.
  - intros H. apply Z.bits_inj'. intros i Hi. rewrite Z.land_spec, Z.lnot_spec, Z.bits_0 by done.
    destruct (Z.testbit a i) eqn:Ha; [|done]. by rewrite (H i Ha).
Qed.

Lemma sub_land_l a b : sub (Z.land a b) a.
Proof. intros i. rewrite Z.land_spec. by intros [? _]%andb_true_iff. Qed.

Lemma sub_land_r a b : sub (Z.land a b) b.
Proof. intros i. rewrite Z.land_spec. by intros [_ ?]%andb_true_iff. Qed.

Lemma sub_land a b c : sub a b -> sub a c -> sub a (Z.land b c).
Proof. intros H1 H2 i Hi. rewrite Z.land_spec. by rewrite H1, H2. Qed.

Lemma sub_lor a b c : sub a c -> sub b c -> sub (Z.lor a b) c.
Proof. intros H1 H2 i. rewrite Z.lor_spec. intros [?|?]%orb_true_iff; auto. Qed.

Lemma sub_lor_l a b : sub a (Z.lor a b).
Proof. intros i Hi. by rewrite Z.lor_spec, Hi. Qed.

Lemma sub_lor_r a b : sub b (Z.lor a b).
Proof. intros i Hi. rewrite Z.lor_spec, Hi. apply orb_true_r. Qed.

Lemma sub_zero a : sub 0 a.
Proof. intros i. by rewrite Z.bits_0. Qed.

Lemma cap_bit_sub set cap : cap_bit set cap = true -> sub (Z.shiftl 1 cap) set.
Proof.
  unfold cap_bit. destruct (Z.lt_ge_cases cap 0) as [Hc|Hc].
  { replace (Z.shiftl 1 cap) with 0; [by rewrite Z.land_0_r|].
    replace cap with (- - cap) by lia. rewrite Z.shiftl_opp_r, Z.shiftr_div_pow2 by lia. symmetry. apply Z.div_small.
    split; [lia|]. apply Z.pow_gt_1; lia. }
  intros E i Hi. rewrite Z.shiftl_1_l in *.
  assert (i = cap) as ->.
  { destruct (Z.eq_dec i cap); [done|]. rewrite Z.pow2_bits_false in Hi by done. done. }
  destruct (Z.testbit set cap) eqn:Hs; [done|]. apply negb_true_iff, Z.eqb_neq in E. destruct E.
  apply Z.bits_inj'. intros j Hj. rewrite Z.land_spec, Z.bits_0. destruct (Z.eq_dec cap j) as [->|].
  - by rewrite Hs.
  - by rewrite Z.pow2_bits_false, andb_false_r by done.
Qed.

Create HintDb caps.
#[export] Hint Resolve sub_land_l sub_land_r sub_land sub_lor sub_zero : caps.

(** ** Well-formed credentials *)

Record caps_wf (p : Caps) : Prop := {
  cw_effective : sub (effective p) (permitted p);
  cw_ambient_p : sub (ambient p) (permitted p);
  cw_ambient_i : sub (ambient p) (inheritable p);
  cw_permitted : sub (permitted p) CAP_FULL_SET;
  cw_inheritable : sub (inheritable p) CAP_FULL_SET;
  cw_bounding : sub (bounding p) CAP_FULL_SET;
}.

Definition seccomp_wf (c : Cred) : Prop :=
  match seccomp_mode c with
  | 0 => seccomp_filter c = []
  | 1 => seccomp_filter c = []
  | 2 => verify_seccomp_filter (seccomp_filter c) = true
  | _ => False
  end.

Record cred_wf (c : Cred) : Prop := {
  wf_caps : caps_wf (caps c);
  wf_seccomp : seccomp_wf c;
}.

Lemma cred_init_wf : cred_wf cred_init.
Proof. split; [|done]. by split; simpl; eauto with caps; intros i Hi. Qed.

Lemma refresh_wf c : caps_wf (caps c) -> caps_wf (caps (refresh_effective_caps c)).
Proof. intros [A B C D E F]. split; simpl; try done. destruct (_ =? 0); [done|apply sub_zero]. Qed.

Lemma capset_wf p e pm i p' : caps_wf p -> capset p e pm i = Some p' -> caps_wf p'.
Proof.
  intros [A B C D E F]. unfold capset. destruct (without e pm =? 0) eqn:E1; [|done]. simpl.
  destruct (without pm _ =? 0); [|done]. simpl. destruct (without i _ =? 0); [|done]. simpl. intros [= <-].
  apply Z.eqb_eq, without_sub in E1. unfold full. split; simpl; eauto with caps.
  - apply sub_land; [|eauto with caps]. etrans; [apply sub_land_l|done].
  - etrans; [apply sub_land_r|]. eauto with caps.
  - etrans; [apply sub_land_r|]. eauto with caps.
Qed.

(** ** Single calls *)

(** A call that changes the identifiers, the groups or the flags leaves the sets and the
    filter as they are. *)
Lemma set_seccomp_spec c mode user c' r :
  sys_prctl_set_seccomp c mode user = (c', r) ->
  c' = c \/ seccomp_mode c = 0 /\ exists md l, c' = with_seccomp c md l /\
    (md = 1 /\ l = [] \/ md = 2 /\ verify_seccomp_filter l = true).
Proof.
  unfold sys_prctl_set_seccomp, read_seccomp_filter, SECCOMP_MODE_DISABLED. intros E.
  destruct (mode =? SECCOMP_MODE_STRICT).
  { destruct (Z.eqb_spec (seccomp_mode c) 0); simpl in E; simplify_eq; [right; split; [done|]; eauto 10|by left]. }
  destruct (mode =? SECCOMP_MODE_FILTER); simpl in E; simplify_eq; [|by left].
  destruct user as [l|e]; simplify_eq; [|by left]. destruct (verify_seccomp_filter l) eqn:Ev; simplify_eq; [|by left].
  destruct (Z.eqb_spec (seccomp_mode c) 0); simpl in E; simplify_eq; [|by left].
  destruct (negb (no_new_privs c) && _); simplify_eq; [by left|]. right. split; [done|]. eauto 10.
Qed.

Lemma ambient_spec c op cap a4 a5 c' r :
  sys_prctl_cap_ambient c op cap a4 a5 = (c', r) ->
  exists a, c' = with_caps c (mkCaps (effective (caps c)) (permitted (caps c)) (inheritable (caps c)) (bounding (caps c)) a) /\
    (caps_wf (caps c) -> sub a (permitted (caps c)) /\ sub a (inheritable (caps c))).
Proof.
  assert (exists a, c = with_caps c (mkCaps (effective (caps c)) (permitted (caps c)) (inheritable (caps c)) (bounding (caps c)) a) /\
    (caps_wf (caps c) -> sub a (permitted (caps c)) /\ sub a (inheritable (caps c)))) as Same.
  { exists (ambient (caps c)). split; [by destruct c as [? ? ? []]|]. intros [A B C D E F]. done. }
  unfold sys_prctl_cap_ambient. destruct (negb (a4 =? 0) || _); [by intros [= <- _]|].
  destruct (op =? 1); [destruct (_ <? cap); by intros [= <- _]|].
  destruct (op =? 2); [|destruct (op =? 3); [|destruct (op =? 4); [|by intros [= <- _]]]].
  - destruct (_ <? cap); [by intros [= <- _]|]. destruct (cap_bit (permitted (caps c)) cap) eqn:Ep.
    2: { rewrite orb_true_r. by intros [= <- _]. }
    destruct (cap_bit (inheritable (caps c)) cap) eqn:Ei; [|rewrite orb_true_r; by intros [= <- _]].
    destruct (_ || _); intros [= <- _]; [done|]. eexists. split; [done|]. intros [A B C D E F].
    apply cap_bit_sub in Ep, Ei. eauto with caps.
  - destruct (_ <? cap); intros [= <- _]; [done|]. eexists. split; [done|]. intros [A B C D E F]. unfold without.
    split; (etrans; [apply sub_land_l|done]).
  - destruct (cap =? 0); intros [= <- _]; [|done]. eexists. split; [done|]. intros _. eauto with caps.
Qed.

Lemma capbset_spec c cap c' r :
  capbset_drop c cap = (c', r) ->
  exists b a, c' = with_caps c (mkCaps (effective (caps c)) (permitted (caps c)) (inheritable (caps c)) b a) /\
    sub b (bounding (caps c)) /\ sub a (ambient (caps c)).
Proof.
  unfold capbset_drop, without. assert (c = with_caps c (mkCaps (effective (caps c)) (permitted (caps c)) (inheritable (caps c))
    (bounding (caps c)) (ambient (caps c)))) as Same by by destruct c as [? ? ? []].
  destruct (_ <? _); [intros [= <- _]; by eexists _, _|]. destruct (negb _); intros [= <- _]; [by eexists _, _|].
  eexists _, _. split; [done|]. eauto with caps.
Qed.

(** ** What a call can do *)

Definition among (i : Ids) (id : Z) : Prop := id = rid i \/ id = eid i \/ id = sid i.

Record ids_within (i0 i : Ids) : Prop := {
  iw_rid : among i0 (rid i);
  iw_eid : among i0 (eid i);
  iw_sid : among i0 (sid i);
  iw_fsid : among i0 (fsid i) \/ fsid i = fsid i0;
}.

Lemma is_one_among i id : is_one_of i id = true -> among i id.
Proof. unfold is_one_of, among. case_cmp; simpl; naive_solver. Qed.

Lemma ids_within_refl i : ids_within i i.
Proof. split; unfold among; auto. Qed.

Lemma ids_within_trans i0 i1 i2 : ids_within i0 i1 -> ids_within i1 i2 -> ids_within i0 i2.
Proof.
  intros [A B C D] [A' B' C' D'].
  assert (forall id, among i1 id -> among i0 id) as K by (intros id [->|[->| ->]]; done).
  split; auto. destruct D' as [?| ->]; auto.
Qed.

Record caps_within (p0 p : Caps) : Prop := {
  pw_permitted : sub (permitted p) (permitted p0);
  pw_bounding : sub (bounding p) (bounding p0);
  pw_inheritable : sub (inheritable p) (Z.lor (Z.lor (inheritable p0) (permitted p0)) (bounding p0));
}.

(** The shapes a call can leave credentials in; [root] tells whether it had to hold. *)
Inductive shape (c : Cred) : Cred -> Prop :=
| shape_same : shape c c
| shape_users u : (root c = false -> ids_within (users c) u) -> shape c (refresh_effective_caps (with_users c u))
| shape_fsuid u : (root c = false -> ids_within (users c) u) -> shape c (with_users c u)
| shape_gids g : (root c = false -> ids_within (groups_of c) g) -> shape c (with_gids c g)
| shape_groups l : root c = true -> shape c (with_groups c l)
| shape_caps p : (caps_wf (caps c) -> caps_wf p) -> caps_within (caps c) p -> shape c (with_caps c p)
| shape_flags n b d : (no_new_privs c = true -> n = true) -> shape c (with_flags c n b d)
| shape_seccomp md l : seccomp_mode c = 0 -> (md = 1 /\ l = [] \/ md = 2 /\ verify_seccomp_filter l = true) ->
    shape c (with_seccomp c md l).

Lemma set_id_within b i id i' : set_id b i id = Some i' -> b = false -> ids_within i i'.
Proof.
  unfold set_id. intros E ->. simpl in E. destruct (is_one_of i id) eqn:O; simplify_eq/=. apply is_one_among in O.
  split; simpl; unfold among; auto.
Qed.

Lemma default_among i o d :
  match o with Some id => negb (is_one_of i id) | None => false end = false -> among i d -> among i (default d o).
Proof. destruct o; simpl; [|done]. intros H%negb_false_iff _. by apply is_one_among. Qed.

Lemma set_reid_within b i r e i' : set_reid b i r e = Some i' -> b = false -> ids_within i i'.
Proof.
  unfold set_reid. intros E ->. simpl in E. destruct (_ || _) eqn:O; [done|]. apply orb_false_iff in O as [Or Oe].
  assert (among i (rid i) /\ among i (eid i) /\ among i (sid i)) as (Ar & Ae & As) by (unfold among; auto).
  assert (among i (default (eid i) e)) by by apply default_among. simplify_eq. split; simpl.
  - destruct r as [id|]; simpl; [|done]. apply negb_false_iff in Or. unfold among. case_cmp; simpl in *; naive_solver.
  - done.
  - destruct r, e; simpl in *; try done. by destruct (_ =? _).
  - destruct e; simpl; auto.
Qed.

Lemma set_resid_within b i r e s i' : set_resid b i r e s = Some i' -> b = false -> ids_within i i'.
Proof.
  unfold set_resid. intros E ->. simpl in E. destruct (_ || _) eqn:O; [done|].
  apply orb_false_iff in O as [[Or Oe]%orb_false_iff Os]. simplify_eq.
  split; simpl; try (apply default_among; [done|unfold among; auto]).
  destruct e; simpl; auto. left. by apply (default_among i (Some z) (eid i)); [|unfold among; auto].
Qed.

Lemma set_fsid_within b i id : b = false -> ids_within i (set_fsid b i id).
Proof.
  intros ->. unfold set_fsid. simpl. destruct (is_one_of i id) eqn:O; [|apply ids_within_refl].
  apply is_one_among in O. split; simpl; auto; unfold among; auto.
Qed.

Lemma capset_within p e pm i p' : capset p e pm i = Some p' -> caps_within p p'.
Proof.
  unfold capset, full. destruct (without e pm =? 0); [|done]. simpl. destruct (without pm _ =? 0) eqn:E2; [|done]. simpl.
  destruct (without i _ =? 0) eqn:E3; [|done]. simpl. intros [= <-].
  apply Z.eqb_eq, without_sub in E2. apply Z.eqb_eq, without_sub in E3. split; simpl.
  - etrans; [apply sub_land_l|done].
  - done.
  - etrans; [apply sub_land_l|]. etrans; [done|]. destruct (cap_bit _ _); [done|apply sub_lor_l].
Qed.

Lemma answer_users_shape c o c' r :
  (forall u, o = Some u -> root c = false -> ids_within (users c) u) -> answer_users c o = (c', r) -> shape c c'.
Proof. intros K. destruct o as [u|]; intros [= <- _]; [|constructor]. constructor. by apply K. Qed.

Lemma answer_gids_shape c o c' r :
  (forall g, o = Some g -> root c = false -> ids_within (groups_of c) g) -> answer_gids c o = (c', r) -> shape c c'.
Proof. intros K. destruct o as [u|]; intros [= <- _]; [|constructor]. constructor. by apply K. Qed.

Lemma prctl_shape c m o a2 a3 a4 a5 u c' m' r : sys_prctl c m o a2 a3 a4 a5 u = (c', m', r) -> shape c c'.
Proof.
  unfold sys_prctl. intros E.
  repeat match type of E with
  | context [match ?x with Z0 => _ | Zpos _ => _ | Zneg _ => _ end] => destruct x; try (simplify_eq; constructor)
  | context [match ?x with xI _ => _ | xO _ => _ | xH => _ end] => destruct x; try (simplify_eq; constructor)
  end; simpl in E;
  try (destruct (sys_prctl_set_seccomp _ _ _) as [c1 r1] eqn:Es; simplify_eq;
       destruct (set_seccomp_spec _ _ _ _ _ Es) as [->|(? & md & l & -> & ?)]; by constructor);
  try (destruct (capbset_drop _ _) as [c1 r1] eqn:Es; simplify_eq;
       destruct (capbset_spec _ _ _ _ Es) as (b & a & -> & Hb & Ha); constructor;
       [intros [A B C D E F]; split; simpl; try done; (etrans; [exact Ha || exact Hb|done])
       |split; simpl; [done|done|etrans; [apply sub_lor_l|apply sub_lor_l]]]);
  try (destruct (sys_prctl_cap_ambient _ _ _ _ _) as [c1 r1] eqn:Es; simplify_eq;
       destruct (ambient_spec _ _ _ _ _ _ _ Es) as (a & -> & Ha); constructor;
       [intros W; destruct (Ha W); destruct W as [A B C D E F]; by split
       |split; simpl; [done|done|etrans; [apply sub_lor_l|apply sub_lor_l]]]);
  repeat match type of E with
  | context [if ?b then _ else _] => destruct b
  | context [match ?x with Ok _ => _ | Err _ => _ end] => destruct x
  end; simplify_eq; by constructor.
Qed.

(** A call that refuses leaves the credentials as they are; one that sets identifiers is
    within bounds by [W]. *)
Ltac refuses := try (intros [= <- _ _]; constructor; fail).
Ltac sets_ids L W :=
  match goal with |- (let '(c, r) := ?t in _) = _ -> _ =>
    let E := fresh "E" in destruct t eqn:E; intros [= <- _ _]; eapply L; [|exact E] end;
  let v := fresh "v" in let Hv := fresh "Hv" in intros v Hv; by eapply W.

Lemma call_shape c m x c' m' r : run_call c m x = (c', m', r) -> shape c c'.
Proof.
  destruct x as [u|ru e|ru e s|g|rg e|rg e s|id|id|sz nl mp rs us|v t d|o a2 a3 a4 a5 us]; simpl.
  - unfold sys_setuid. destruct (parse_id u); refuses. sets_ids answer_users_shape set_id_within.
  - unfold sys_setreuid. destruct (parse_optional_id ru), (parse_optional_id e); refuses.
    sets_ids answer_users_shape set_reid_within.
  - unfold sys_setresuid. destruct (parse_optional_id ru), (parse_optional_id e), (parse_optional_id s); refuses.
    sets_ids answer_users_shape set_resid_within.
  - unfold sys_setgid. destruct (parse_id g); refuses. sets_ids answer_gids_shape set_id_within.
  - unfold sys_setregid. destruct (parse_optional_id rg), (parse_optional_id e); refuses.
    sets_ids answer_gids_shape set_reid_within.
  - unfold sys_setresgid. destruct (parse_optional_id rg), (parse_optional_id e), (parse_optional_id s); refuses.
    sets_ids answer_gids_shape set_resid_within.
  - unfold sys_setfsuid. destruct (parse_optional_id id) as [[v|]|]; intros [= <- _ _]; constructor. apply set_fsid_within.
  - unfold sys_setfsgid. destruct (parse_optional_id id) as [[v|]|]; intros [= <- _ _]; constructor. apply set_fsid_within.
  - unfold sys_setgroups. destruct (root c) eqn:Er; simpl; refuses.
    repeat match goal with |- context [if ?b then _ else _] => destruct b; refuses end;
      try destruct us; intros [= <- _ _]; by constructor.
  - unfold sys_capset. destruct (cap_words v); refuses. destruct t; refuses. destruct d as [l|]; refuses.
    destruct (read_cap_data n l) as [[[e p] i]|]; refuses.
    destruct (capset (caps c) e p i) as [p'|] eqn:E; intros [= <- _ _]; constructor;
      [intros W; by eapply capset_wf|by eapply capset_within].
  - apply prctl_shape.
Qed.

Lemma shape_wf c c' : shape c c' -> cred_wf c -> cred_wf c'.
Proof.
  intros Sh [W S]. destruct Sh as [|u Ku| | | |p K _| |md l E0 K]; split; simpl in *; try done;
    [exact (refresh_wf (with_users c u) W)|by apply K|].
  unfold seccomp_wf. simpl. by destruct K as [[-> ->]|[-> ?]].
Qed.

(** ** Privileges do not grow *)

(** What [c0] allows a task that started with it, when none of its users is 0. *)
Record bounded (c0 c : Cred) : Prop := {
  bo_users : ids_within (users c0) (users c);
  bo_gids : ids_within (groups_of c0) (groups_of c);
  bo_groups : groups c = groups c0;
  bo_caps : caps_within (caps c0) (caps c);
  bo_nnp : no_new_privs c0 = true -> no_new_privs c = true;
  bo_seccomp : seccomp_mode c0 <> 0 -> seccomp_mode c = seccomp_mode c0 /\ seccomp_filter c = seccomp_filter c0;
}.

Definition no_root (c : Cred) : Prop := rid (users c) <> 0 /\ eid (users c) <> 0 /\ sid (users c) <> 0.

Lemma caps_within_refl p : caps_within p p.
Proof. split; [done|done|]. etrans; apply sub_lor_l. Qed.

Lemma bounded_refl c : bounded c c.
Proof. split; try done; [apply ids_within_refl|apply ids_within_refl|apply caps_within_refl]. Qed.

Lemma caps_within_trans p0 p p' : caps_within p0 p -> caps_within p p' -> caps_within p0 p'.
Proof.
  intros [A B C] [A' B' C']. split; [by etrans|by etrans|]. etrans; [exact C'|]. apply sub_lor; [apply sub_lor|].
  - done.
  - etrans; [exact A|]. etrans; [apply sub_lor_r|apply sub_lor_l].
  - etrans; [exact B|]. apply sub_lor_r.
Qed.

Lemma bounded_step c0 c c' : no_root c0 -> bounded c0 c -> shape c c' -> bounded c0 c'.
Proof.
  intros (N1 & N2 & N3) [U G L P N S] Sh.
  assert (root c = false) as Nr.
  { unfold root. apply Z.eqb_neq. destruct (iw_eid _ _ U) as [->|[->| ->]]; done. }
  destruct Sh as [|u K|u K|g K|l K|p W K|n b d K|md l E K]; try specialize (K Nr); split; simpl in *; try done;
    try (by eapply ids_within_trans).
  - destruct P. by split.
  - congruence.
  - by eapply caps_within_trans.
  - auto.
  - intros Hs. destruct (S Hs) as [Em _]. congruence.
Qed.

(** ** Filters end *)

Lemma eval_loop_ends l nr fuel pc acc : (0 < fuel)%nat -> (length l < fuel + pc)%nat -> is_Some (eval_loop fuel l nr pc acc).
Proof.
  revert pc acc. induction fuel as [|fuel IH]; intros pc acc Hf H; simpl; [lia|].
  destruct (l !! pc) as [i|] eqn:E; [|done]. apply lookup_lt_Some in E.
  destruct (class_of i); [apply IH; lia|apply IH; lia|done|done].
Qed.

Lemma action_total n c nr : is_Some (seccomp_action_for_syscall n c nr).
Proof.
  unfold seccomp_action_for_syscall. repeat (destruct (_ =? _); try done). apply eval_loop_ends; lia.
Qed.


Definition allow_read : list SeccompFilterInsn := [mkInsn 0x20 0 0 0; mkInsn 0x15 0 1 63; mkInsn 0x06 0 0 0x7fff0000; mkInsn 0x06 0 0 0].


(** ** Histories *)

(** A step changes the credentials of a task by one call, or adds a copy. *)
Lemma cred_step_spec y ev :
  exists y', cred_step y ev = Some y' /\
    (forall P : Cred -> Prop, (forall c c', P c -> shape c c' -> P c') ->
      Forall (fun t => P (cred t)) (ctasks y) -> Forall (fun t => P (cred t)) (ctasks y')).
Proof.
  destruct ev as [i x|i|i]; simpl; destruct (ctasks y !! i) as [t|] eqn:E; try (by eexists).
  - destruct (live t); simpl; [|by eexists]. destruct (action_total (active y) (cred t) (number x)) as [a ->]. simpl.
    destruct a; try (eexists; split; [done|]; intros P K F; apply Forall_insert; [done|]; exact (Forall_lookup_1 _ _ _ _ F E)).
    destruct (run_call (cred t) (misc t) x) as [[c m] r] eqn:Ec. apply call_shape in Ec.
    destruct (_ && _); (eexists; split; [done|]; intros P K F; apply Forall_insert; [done|]; simpl;
      eapply K; [exact (Forall_lookup_1 _ _ _ _ F E)|done]).
  - destruct (live t); simpl; [|by eexists]. destruct (action_total (active y) (cred t) SYSCALL_CLONE) as [a ->]. simpl.
    destruct a; try (eexists; split; [done|]; intros P K F; apply Forall_insert; [done|]; exact (Forall_lookup_1 _ _ _ _ F E)).
    destruct (_ =? 0); (eexists; split; [done|]; intros P K F; apply Forall_app; split; [done|]; apply Forall_singleton;
      exact (Forall_lookup_1 _ _ _ _ F E)).
  - eexists. split; [done|]. intros P K F. apply Forall_insert; [done|]. exact (Forall_lookup_1 _ _ _ _ F E).
Qed.

Lemma cred_run_spec evs y :
  exists y', cred_run y evs = Some y' /\
    (forall P : Cred -> Prop, (forall c c', P c -> shape c c' -> P c') ->
      Forall (fun t => P (cred t)) (ctasks y) -> Forall (fun t => P (cred t)) (ctasks y')).
Proof.
  revert y. induction evs as [|ev evs IH]; intros y; simpl; [by eexists|].
  destruct (cred_step_spec y ev) as (y1 & -> & K1). simpl. destruct (IH y1) as (y2 & -> & K2).
  eexists. split; [done|]. intros P K F. by apply K2, K1.
Qed.

Lemma creds_run_wf evs y : cred_run csys_init evs = Some y -> Forall (fun t => cred_wf (cred t)) (ctasks y).
Proof.
  intros E. destruct (cred_run_spec evs csys_init) as (y' & E' & K). assert (y' = y) as -> by congruence. apply K.
  - intros c c' W Sh. by eapply shape_wf.
  - apply Forall_singleton, cred_init_wf.
Qed.

(** C32: In every history of calls, clones and exits from the first task on, each task's
    capability sets are well-formed (effective and ambient below permitted, ambient below
    inheritable, all below the known capabilities) and a task in filter mode holds a
    verified filter; the dispatcher never hangs on a filter. *)
Theorem creds_well_formed evs :
  exists y, cred_run csys_init evs = Some y /\ Forall (fun t => cred_wf (cred t)) (ctasks y).
Proof. destruct (cred_run_spec evs csys_init) as (y & E & _). eauto using creds_run_wf. Qed.

(** C18: No escalation: a task none of whose real, effective and saved user is 0, and every
    task that descends from it, keeps to its three users and its three groups, keeps
    its supplementary groups, gains no permitted or bounding capability and no
    inheritable one beyond the sets it had, cannot clear [no_new_privs] and cannot
    change or remove a seccomp filter, whatever calls they make. *)
Theorem no_escalation c0 m0 b0 n0 evs :
  no_root c0 ->
  exists y, cred_run (mkCSys [mkCTask c0 m0 b0 true None] n0) evs = Some y /\
    Forall (fun t => bounded c0 (cred t)) (ctasks y).
Proof.
  intros N. destruct (cred_run_spec evs (mkCSys [mkCTask c0 m0 b0 true None] n0)) as (y & E & K). exists y. split; [done|].
  apply K; [intros c c' B Sh; by eapply bounded_step|]. apply Forall_singleton, bounded_refl.
Qed.

Definition cred_1000 : Cred := fst (sys_setuid cred_init 1000).

Lemma no_escalation_witness :
  exists y, cred_run (mkCSys [mkCTask cred_1000 misc_init false true None] 0) [ECall 0 (SetUid 0); EClone 0; ECall 1 (SetResUid 0 0 0)] = Some y /\
    Forall (fun t => bounded cred_1000 (cred t)) (ctasks y).
Proof. apply no_escalation. vm_compute. split_and!; congruence. Defined.

(** ** The count of tasks under seccomp *)

Record count_ok (y : CSys) : Prop := {
  co_count : active y = zsum (fun t => Z.b2z (counted t)) (ctasks y);
  co_counted : Forall (fun t => live t = true -> seccomp_mode (cred t) <> 0 -> counted t = true) (ctasks y);
}.

Lemma counted_insert y i t t' n :
  count_ok y -> ctasks y !! i = Some t -> n = active y - Z.b2z (counted t) + Z.b2z (counted t') ->
  (live t' = true -> seccomp_mode (cred t') <> 0 -> counted t' = true) ->
  count_ok (mkCSys (<[i := t']> (ctasks y)) n).
Proof.
  intros [C F] E -> K. split; simpl; [by rewrite (zsum_insert _ _ _ t), C|]. by apply Forall_insert.
Qed.

Lemma shape_mode c c' : shape c c' -> seccomp_mode c <> 0 -> seccomp_mode c' = seccomp_mode c.
Proof. by destruct 1. Qed.

Lemma count_step y ev y' : count_ok y -> cred_step y ev = Some y' -> count_ok y'.
Proof.
  intros I. pose proof I as [C F]. destruct ev as [i x|i|i]; simpl; destruct (ctasks y !! i) as [t|] eqn:E; try (by intros [= <-]).
  - destruct (live t) eqn:Lt; simpl; [|by intros [= <-]].
    destruct (action_total (active y) (cred t) (number x)) as [a ->]. simpl.
    assert (count_ok (killed y i t)) as Kl by (apply (counted_insert y i t); simpl; (done || lia)).
    destruct a; try (intros [= <-]; done). destruct (run_call (cred t) (misc t) x) as [[c m] r] eqn:Ec. apply call_shape in Ec.
    destruct (Z.eqb_spec (seccomp_mode (cred t)) 0) as [Hm|Hm], (Z.eqb_spec (seccomp_mode c) 0) as [Hc|Hc]; simpl; intros [= <-];
      apply (counted_insert y i t); simpl; try done; try lia.
    + destruct (counted t); simpl; lia.
    + intros _ _. by apply (Forall_lookup_1 _ _ _ _ F E).
  - destruct (live t) eqn:Lt; simpl; [|by intros [= <-]].
    destruct (action_total (active y) (cred t) SYSCALL_CLONE) as [a ->]. simpl.
    assert (count_ok (killed y i t)) as Kl by (apply (counted_insert y i t); simpl; (done || lia)).
    destruct a; try (intros [= <-]; done).
    destruct (Z.eqb_spec (seccomp_mode (cred t)) 0); intros [= <-];
      (split; simpl; [rewrite zsum_app, C; simpl; lia|apply Forall_app; split; [done|by apply Forall_singleton]]).
  - intros [= <-]. apply (counted_insert y i t); simpl; try done. destruct (counted t); simpl; lia.
Qed.

(** The verdict of the filter alone. *)
Definition verdict (c : Cred) (nr : Z) : option SeccompSyscallAction :=
  if seccomp_mode c =? SECCOMP_MODE_STRICT then
    Some (if (nr =? 63) || (nr =? 64) || (nr =? 93) || (nr =? 139) then Allow else KillProcess)
  else eval_seccomp_filter (seccomp_filter c) nr.

Lemma count_run evs y y' : count_ok y -> cred_run y evs = Some y' -> count_ok y'.
Proof.
  revert y. induction evs as [|ev evs IH]; intros y I; simpl; [by intros [= <-]|].
  destruct (cred_step y ev) as [y1|] eqn:E; [|done]. simpl. apply IH. by eapply count_step.
Qed.

(** C31: A seccomp filter is never bypassed: in every history, the action the dispatcher
    takes for a live task under seccomp is the verdict of strict mode or of its own
    filter; the shortcut for "no task uses seccomp" is never taken for it. *)
Theorem seccomp_enforced evs y i t nr :
  cred_run csys_init evs = Some y -> ctasks y !! i = Some t -> live t = true -> seccomp_mode (cred t) <> 0 ->
  seccomp_action_for_syscall (active y) (cred t) nr = verdict (cred t) nr.
Proof.
  intros E Ht Lt Hm. destruct (count_run evs csys_init y) as [C F]; [|done|].
  { split; [done|]. by apply Forall_singleton. }
  pose proof (Forall_lookup_1 _ _ _ _ F Ht Lt Hm) as Ct.
  assert (active y <> 0) as Na.
  { rewrite C, (zsum_split _ _ i t Ht), Ct. simpl.
    pose proof (zsum_bounds (fun t => Z.b2z (counted t)) (take i (ctasks y)) ltac:(intros x; simpl; destruct (counted x); simpl; lia)).
    pose proof (zsum_bounds (fun t => Z.b2z (counted t)) (drop (S i) (ctasks y)) ltac:(intros x; simpl; destruct (counted x); simpl; lia)).
    lia. }
  pose proof (creds_run_wf evs y E) as W. pose proof (wf_seccomp _ (Forall_lookup_1 _ _ _ _ W Ht)) as Sw.
  unfold seccomp_action_for_syscall, verdict, SECCOMP_MODE_DISABLED, SECCOMP_MODE_STRICT, SECCOMP_MODE_FILTER. unfold seccomp_wf in Sw.
  rewrite (proj2 (Z.eqb_neq _ _) Na), (proj2 (Z.eqb_neq _ _) Hm).
  destruct (Z.eqb_spec (seccomp_mode (cred t)) 1); [done|]. destruct (Z.eqb_spec (seccomp_mode (cred t)) 2); [done|].
  exfalso. destruct (seccomp_mode (cred t)) as [|[[]|[]|]|]; done.
Qed.

Lemma seccomp_enforced_witness :
  exists y t, cred_run csys_init [ECall 0 (SetUid 1000); ECall 0 (Prctl 38 1 0 0 0 (mkUser (Ok ()) (Ok []) (Ok [])));
      ECall 0 (Prctl 22 2 0 0 0 (mkUser (Ok ()) (Ok []) (Ok allow_read)))] = Some y /\
    ctasks y !! 0%nat = Some t /\ seccomp_action_for_syscall (active y) (cred t) 146 = Some KillThread.
Proof.
  eexists _, _. split; [vm_compute; reflexivity|]. split; [reflexivity|].
  rewrite (seccomp_enforced [ECall 0 (SetUid 1000); ECall 0 (Prctl 38 1 0 0 0 (mkUser (Ok ()) (Ok []) (Ok [])));
      ECall 0 (Prctl 22 2 0 0 0 (mkUser (Ok ()) (Ok []) (Ok allow_read)))] _ 0);
    [vm_compute; reflexivity|vm_compute; reflexivity|reflexivity|reflexivity|simpl; congruence].
Defined.

(** ** Capability words *)

Lemma low_high_join x : 0 <= x < usize_modulus -> Z.lor (low x) (Z.shiftl (high x) 32) = x.
Proof.
  intros H. unfold low, high, usize_modulus, u32_modulus in *. apply Z.bits_inj'. intros i Hi.
  rewrite Z.lor_spec, Z.shiftl_spec by done. destruct (Z.lt_ge_cases i 32).
  - rewrite Z.mod_pow2_bits_low, (Z.testbit_neg_r _ (i - 32)) by lia. apply orb_false_r.
  - rewrite Z.mod_pow2_bits_high by lia. simpl. destruct (Z.lt_ge_cases i 64).
    + rewrite Z.mod_pow2_bits_low, Z.shiftr_spec by lia. f_equal. lia.
    + rewrite Z.mod_pow2_bits_high by lia. rewrite <- (Z.mod_small x (2 ^ 64)) by lia. by rewrite Z.mod_pow2_bits_high by lia.
Qed.

Lemma full_id x : sub x CAP_FULL_SET -> full x = x.
Proof.
  intros H. unfold full. apply Z.bits_inj'. intros i Hi. rewrite Z.land_spec.
  destruct (Z.testbit x i) eqn:E; [|done]. by rewrite H.
Qed.

Lemma caps_word x : sub x CAP_FULL_SET -> 0 <= x < usize_modulus.
Proof.
  intros H. apply full_id in H. rewrite <- H. unfold full. change CAP_FULL_SET with (Z.ones 41).
  rewrite Z.land_ones by lia. unfold usize_modulus. pose proof (Z.mod_pos_bound x (2 ^ 41)). lia.
Qed.

(** With versions 2 and 3, [capset] reads back what [capget] has written; handing a task
    its own sets is always accepted and changes nothing. *)
Theorem capget_capset_roundtrip c version :
  cred_wf c -> cap_words version = Some 2%nat ->
  exists data, sys_capget c version Self = Ok data /\ sys_capset c version Self (Ok data) = (c, Ok 0).
Proof.
  intros [[A B C D E F] _] Hw. unfold sys_capget, sys_capset. rewrite Hw. eexists. split; [done|]. simpl.
  assert (sub (effective (caps c)) CAP_FULL_SET) as Ef by (etrans; [exact A|done]).
  rewrite !low_high_join, !full_id by (try done; by apply caps_word). unfold capset.
  rewrite (proj2 (without_sub _ _) A), (proj2 (without_sub (permitted (caps c)) _) (reflexivity _)).
  rewrite (proj2 (without_sub (inheritable (caps c)) _)); [|destruct (cap_bit _ _); [etrans; apply sub_lor_l|apply sub_lor_l]].
  simpl. rewrite !full_id by done. f_equal. destruct c as [us gs gl [e p i b a] n s d sm sf]. unfold with_caps. simpl in *.
  do 2 f_equal. apply Z.bits_inj'. intros j Hj. rewrite !Z.land_spec. destruct (Z.testbit a j) eqn:Ea; [|done].
  by rewrite (B j Ea), (C j Ea).
Qed.

(** ** What giving up user 0 leaves *)

(** A root task that gives up user 0 for good with [setuid] keeps its permitted
    capabilities, and [capset] makes all of them effective again. *)
Theorem dropped_root_regains_caps :
  let c := fst (sys_setuid cred_init 1000) in
  let data := write_cap_data 2 CAP_FULL_SET CAP_FULL_SET 0 in
  no_root c /\ effective (caps c) = 0 /\
  snd (sys_capset c 0x20080522 Self (Ok data)) = Ok 0 /\
  effective (caps (fst (sys_capset c 0x20080522 Self (Ok data)))) = CAP_FULL_SET.
Proof. vm_compute. split_and!; (reflexivity || congruence). Qed.
