(* ===== verification/Assembler.v ===== *)
(** The reassembly bookkeeping of a TCP receiver (dependency/smoltcp/src/storage/assembler.rs).

    An assembler is a fixed array of pairs of a hole and the data after it; it stands
    for the set of offsets received out of order.  An index out of range and a failed
    assertion are [None]; the [debug_assert]s are kept. *)

From stdpp Require Import base numbers option list.
From S2P Require Import Prelude.
#[local] Open Scope machine_scope.

Record Contig := mkContig { hole_size : Z; data_size : Z }.

#[export] Instance Contig_eq_dec : EqDecision Contig.
Proof. solve_decision. Defined.

(** [contigs], of length [ASSEMBLER_MAX_SEGMENT_COUNT]. *)
Abbreviation Assembler := (list Contig).

(** ** Contigs *)

Definition empty_contig : Contig := mkContig 0 0.
Definition has_hole (c : Contig) : bool := negb (hole_size c =? 0).
Definition has_data (c : Contig) : bool := negb (data_size c =? 0).
Definition total_size (c : Contig) : Z := hole_size c +w data_size c.
Definition shrink_hole_by (c : Contig) (size : Z) : Contig := mkContig (hole_size c -w size) (data_size c).
Definition shrink_hole_to (c : Contig) (size : Z) : option Contig :=
  if hole_size c <? size then None else Some (mkContig size (total_size c -w size)).
Definition grow_data (c : Contig) (size : Z) : Contig := mkContig (hole_size c) (data_size c +w size).

(** ** Operations *)

Definition assembler_new (n : nat) : Assembler := replicate n empty_contig.

Definition peek_front (a : Assembler) : option Z :=
  c ← a !! 0%nat; Some (if has_hole c then 0 else data_size c).

Definition assembler_is_empty (a : Assembler) : option bool := c ← a !! 0%nat; Some (negb (has_data c)).

(** The loop of [remove_contig_at], at index [i] with [n] rounds left. *)
Fixpoint remove_loop (n i : nat) (a : Assembler) : option Assembler :=
  match n with
  | 0%nat => Some (<[(length a - 1)%nat := empty_contig]> a)
  | S n =>
      c ← a !! i;
      if has_data c then d ← a !! S i; remove_loop n (S i) (<[i := d]> a) else Some a
  end.

Definition remove_contig_at (a : Assembler) (at_ : nat) : option Assembler :=
  c ← a !! at_;
  if has_data c then remove_loop (length a - 1 - at_) at_ a else None.

(** The loop of [add_contig_at]: entries [at_ + n .. at_ + 1], from the last. *)
Fixpoint shift_right (n at_ : nat) (a : Assembler) : option Assembler :=
  match n with
  | 0%nat => Some a
  | S n => d ← a !! (at_ + n)%nat; shift_right n at_ (<[(at_ + S n)%nat := d]> a)
  end.

Definition add_contig_at (a : Assembler) (at_ : nat) : option (option Assembler) :=
  back ← a !! (length a - 1)%nat;
  if has_data back then Some None
  else a ← shift_right (length a - 1 - at_) at_ a; Some (Some (<[at_ := empty_contig]> a)).

(** The search of [add]: the index whose contig contains the start of the range. *)
Inductive Found := NoRoom | PutAt (i : nat) (offset : Z) | StartsIn (i : nat) (offset : Z).

Fixpoint find_start (l : list Contig) (i : nat) (offset : Z) : Found :=
  match l with
  | [] => NoRoom
  | c :: l =>
      if negb (has_data c) then PutAt i offset
      else if offset <=? total_size c then StartsIn i offset
      else find_start l (S i) (offset -w total_size c)
  end.

(** The loop that joins the contigs after [c]: the joined contig and how many it took. *)
Fixpoint coalesce (c : Contig) (reach : Z) (l : list Contig) : Contig * nat :=
  match l with
  | [] => (c, 0%nat)
  | d :: l =>
      if has_data d && (total_size c +w hole_size d <=? reach)
      then let '(c, n) := coalesce (grow_data c (total_size d)) reach l in (c, S n)
      else (c, 0%nat)
  end.

(** The loop that moves the rest [shift] places to the left, from index [x]. *)
Fixpoint shift_left (n x shift : nat) (a : Assembler) : option Assembler :=
  match n with
  | 0%nat => Some a
  | S n =>
      c ← a !! x;
      if has_data c then shift_left n (S x) shift (<[x := default empty_contig (a !! (x + shift)%nat)]> a)
      else Some a
  end.

(** The end of [add], when the range reaches the data of contig [c] at [i]. *)
Definition join_range (a : Assembler) (i : nat) (c : Contig) (offset size : Z) : option (option Assembler) :=
  c ← (if offset <? hole_size c then shrink_hole_to c offset else Some c);
  let '(c, shift) := coalesce c (offset +w size) (drop (S i) a) in
  let a := <[i := c]> a in
  a ← (if (shift =? 0)%nat then Some a else shift_left (length a - S i) (S i) shift a);
  if total_size c <? offset +w size then
    let left := offset +w size -w total_size c in
    let a := <[i := grow_data c left]> a in
    match a !! S i with
    | Some next => Some (Some (if has_data next then <[S i := shrink_hole_by next left]> a else a))
    | None => Some (Some a)
    end
  else Some (Some a).

Definition add (a : Assembler) (offset size : Z) : option (option Assembler) :=
  if size =? 0 then Some (Some a)
  else
    match find_start a 0 offset with
    | NoRoom => Some None
    | PutAt i offset => Some (Some (<[i := mkContig offset size]> a))
    | StartsIn i offset =>
        c ← a !! i;
        if (offset <? hole_size c) && (offset +w size <? hole_size c) then
          o ← add_contig_at a i;
          match o with
          | None => Some None
          | Some a =>
              next ← a !! S i;
              Some (Some (<[S i := shrink_hole_by next (offset +w size)]> (<[i := mkContig offset size]> a)))
          end
        else
          join_range a i c offset size
    end.

Definition remove_front (a : Assembler) : option (Assembler * Z) :=
  c ← a !! 0%nat;
  if has_hole c || negb (has_data c) then Some (a, 0)
  else a ← remove_contig_at a 0; if 0 <? data_size c then Some (a, data_size c) else None.

Definition add_then_remove_front (a : Assembler) (offset size : Z) : option (option (Assembler * Z)) :=
  c ← a !! 0%nat;
  if (offset =? 0) && (size <? hole_size c) then Some (Some (<[0%nat := shrink_hole_by c size]> a, size))
  else
    o ← add a offset size;
    match o with
    | None => Some None
    | Some a => '(a, n) ← remove_front a; Some (Some (a, n))
    end.

(** [AssemblerIter]: the ranges of data, shifted by [offset]. *)
Fixpoint iter_data (a : Assembler) (left offset : Z) : list (Z * Z) :=
  match a with
  | [] => []
  | c :: a =>
      let left := left +w hole_size c in
      let right := left +w data_size c in
      if left <? right then (left +w offset, right +w offset) :: iter_data a right offset
      else iter_data a left offset
  end.
