(* ===== verification/AssemblerSpec.v ===== *)
(** The assembler of Assembler.v is a set of offsets: [add] adds a range, or fails when
    the range would be one more than the array can hold; [remove_front] takes the
    longest run of offsets that starts at 0. *)

From stdpp Require Import base numbers option list.
From S2P Require Import Prelude Assembler.

(** ** The set an assembler stands for *)

Definition tot (c : Contig) : Z := hole_size c + data_size c.

(** Offset [x] has been received. *)
Fixpoint present (a : list Contig) (x : Z) : bool :=
  match a with
  | [] => false
  | c :: a => if x <? hole_size c then false else if x <? tot c then true else present a (x - tot c)
  end.

(** The invariant of the source: contigs with data, then unused ones; only the first
    may have no hole. *)
Fixpoint shape (first : bool) (a : list Contig) : Prop :=
  match a with
  | [] => True
  | c :: a =>
      (c = empty_contig /\ Forall (eq empty_contig) a) \/
      (0 <= hole_size c /\ (first = false -> 0 < hole_size c) /\ 0 < data_size c /\ shape false a)
  end.

Record asm_wf (a : Assembler) : Prop := {
  aw_shape : shape true a;
  aw_size : zsum tot a < usize_modulus;
  aw_room : a <> [];
}.

Definition in_range (offset size x : Z) : bool := (offset <=? x) && (x <? offset + size).

(** ** Lists of contigs *)

Definition starts (first : bool) (pre : list Contig) : bool := match pre with [] => first | _ => false end.
Definition used (a : list Contig) : Prop := Forall (fun c => has_data c = true) a.

Lemma has_data_false c : has_data c = false <-> data_size c = 0.
Proof. unfold has_data. rewrite negb_false_iff, Z.eqb_eq. done. Qed.
Lemma has_data_true c : has_data c = true <-> data_size c <> 0.
Proof. unfold has_data. rewrite negb_true_iff, Z.eqb_neq. done. Qed.

Lemma shape_unused first c a : shape first (c :: a) -> has_data c = false -> c = empty_contig /\ Forall (eq empty_contig) a.
Proof. rewrite has_data_false. intros [?|(_ & _ & D & _)]; [done|lia]. Qed.

Lemma shape_used first c a :
  shape first (c :: a) -> has_data c = true ->
  0 <= hole_size c /\ (first = false -> 0 < hole_size c) /\ 0 < data_size c /\ shape false a.
Proof. rewrite has_data_true. intros [[-> _]|?]; done. Qed.

Lemma shape_weaken first a : shape false a -> shape first a.
Proof. destruct a as [|c a]; [done|]. intros [?|(? & ? & ? & ?)]; [by left|right; auto]. Qed.

Lemma shape_empties first a : Forall (eq empty_contig) a -> shape first a.
Proof. destruct 1; [done|]. left. done. Qed.

Lemma shape_app first pre a : used pre -> shape first (pre ++ a) <-> shape first pre /\ shape (starts first pre) a.
Proof.
  intros U. revert first. induction U as [|c pre D U IH]; intros first; [simpl; tauto|]. simpl. rewrite IH.
  rewrite has_data_true in D. destruct pre; simpl; split.
  all: intros H; repeat match goal with H : _ /\ _ |- _ => destruct H | H : _ \/ _ |- _ => destruct H end; subst; try done.
  all: auto 10.
Qed.

Lemma used_tot first pre c : shape first pre -> used pre -> c ∈ pre -> 0 < tot c.
Proof.
  intros S U. revert first S. induction U as [|d pre D U IH]; intros first S Hc; [by apply elem_of_nil in Hc|].
  destruct (shape_used _ _ _ S D) as (? & _ & ? & S'). apply elem_of_cons in Hc as [->|Hc]; [unfold tot; lia|eauto].
Qed.

Lemma tot_nonneg first a c : shape first a -> c ∈ a -> 0 <= hole_size c /\ 0 <= data_size c.
Proof.
  revert first. induction a as [|d a IH]; intros first S Hc; [by apply elem_of_nil in Hc|].
  destruct S as [[-> E]|(? & _ & ? & S)].
  - apply elem_of_cons in Hc as [->|Hc]; [done|]. rewrite Forall_forall in E. by rewrite <- (E c Hc).
  - apply elem_of_cons in Hc as [->|Hc]; [lia|eauto].
Qed.

Lemma zsum_tot_nonneg first a : shape first a -> 0 <= zsum tot a.
Proof.
  revert first. induction a as [|c a IH]; intros first S; simpl; [lia|].
  destruct (tot_nonneg _ _ c S ltac:(by left)). unfold tot at 1.
  destruct S as [[-> E]|(? & ? & ? & S)]; [|specialize (IH _ S); lia].
  specialize (IH true (shape_empties _ _ E)). lia.
Qed.

Lemma empties_sum a : Forall (eq empty_contig) a -> zsum tot a = 0.
Proof. intros E. apply zsum_zero. intros c Hc. rewrite Forall_forall in E. by rewrite <- (E c Hc). Qed.

Lemma empties_absent a x : Forall (eq empty_contig) a -> present a x = false.
Proof.
  intros E. revert x. induction E as [|c a <- E IH]; intros x; [done|]. simpl. unfold tot. simpl. case_cmp; [done|lia|apply IH].
Qed.

Lemma present_app first pre a x :
  shape first pre -> 0 <= x ->
  present (pre ++ a) x = if x <? zsum tot pre then present pre x else present a (x - zsum tot pre).
Proof.
  revert first x. induction pre as [|c pre IH]; intros first x S Hx; simpl.
  - destruct (Z.ltb_spec x 0); [lia|f_equal; lia].
  - destruct (tot_nonneg _ _ c S ltac:(by left)) as [Hh Hd].
    assert (shape true pre) as S' by (destruct S as [[_ E]|(_ & _ & _ & S)]; [by apply shape_empties|by apply shape_weaken]).
    pose proof (zsum_tot_nonneg _ _ S') as Hp. unfold tot in *. fold tot in *.
    destruct (Z.ltb_spec x (hole_size c)); [case_cmp; [done|lia]|].
    destruct (Z.ltb_spec x (hole_size c + data_size c)); [case_cmp; [done|lia]|].
    rewrite (IH _ _ S') by lia.
    case_cmp; try lia; [done|]. f_equal. lia.
Qed.

(** ** Arrays split at an index *)

Lemma lookup_mid (pre : list Contig) c rest : (pre ++ c :: rest) !! length pre = Some c.
Proof. rewrite lookup_app_r by lia. by rewrite Nat.sub_diag. Qed.

Lemma insert_mid (pre : list Contig) c d rest : <[length pre := d]> (pre ++ c :: rest) = pre ++ d :: rest.
Proof. rewrite insert_app_r_alt by lia. by rewrite Nat.sub_diag. Qed.

Lemma total_size_small c : 0 <= hole_size c -> 0 <= data_size c -> tot c < usize_modulus -> total_size c = tot c.
Proof. unfold tot. intros. apply usize_add_small. unfold is_usize. lia. Qed.

(** What the search finds. *)
Definition found_at (l : list Contig) (i : nat) (o : Z) (j : nat) (o' : Z) (pre : list Contig) (c : Contig) (rest : list Contig) :=
  l = pre ++ c :: rest /\ j = (i + length pre)%nat /\ used pre /\ o' = o - zsum tot pre /\ (pre <> [] -> 0 < o').

Lemma find_start_spec first l i o :
  shape first l -> zsum tot l < usize_modulus -> 0 <= o < usize_modulus ->
  match find_start l i o with
  | NoRoom => used l /\ (l <> [] -> zsum tot l < o)
  | PutAt j o' => exists pre c rest, found_at l i o j o' pre c rest /\ has_data c = false
  | StartsIn j o' => exists pre c rest, found_at l i o j o' pre c rest /\ has_data c = true /\ o' <= tot c
  end.
Proof.
  revert first i o. induction l as [|c l IH]; intros first i o Sh Z Ho; simpl; [split; [constructor|done]|].
  destruct (has_data c) eqn:D; simpl.
  2: { exists [], c, l. unfold found_at. simpl. split_and!; [done|lia|constructor|lia|done|done]. }
  destruct (shape_used _ _ _ Sh D) as (Hh & _ & Hd & Sh'). simpl in Z. pose proof (zsum_tot_nonneg _ _ Sh').
  rewrite total_size_small by lia. case_cmp.
  { exists [], c, l. unfold found_at. simpl. split_and!; [done|lia|constructor|lia|done|done|lia]. }
  rewrite usize_sub_small by (unfold is_usize, tot in *; lia).
  specialize (IH false (S i) (o - tot c) Sh' ltac:(unfold tot in *; lia) ltac:(unfold tot in *; lia)).
  destruct (find_start l (S i) (o - tot c)) as [|j o'|j o'].
  - destruct IH as [U L]. split; [by constructor|]. intros _. destruct l; simpl in *; [lia|]. specialize (L ltac:(done)). lia.
  - destruct IH as (pre & c' & rest & (-> & -> & U & -> & L) & D'). exists (c :: pre), c', rest. unfold found_at. simpl.
    split_and!; [done|lia|by constructor|lia| |done]. intros _. destruct pre; simpl in *; [lia|]. specialize (L ltac:(done)). lia.
  - destruct IH as (pre & c' & rest & (-> & -> & U & -> & L) & D' & B). exists (c :: pre), c', rest. unfold found_at. simpl.
    split_and!; [done|lia|by constructor|lia| |done|lia]. intros _. destruct pre; simpl in *; [lia|]. specialize (L ltac:(done)). lia.
Qed.

(** The loops on the array. *)
Lemma shift_right_spec k pre e suf :
  exists h, shift_right (length k) (length pre) (pre ++ k ++ e :: suf) = Some (pre ++ h :: k ++ suf).
Proof.
  revert e suf. induction k as [|d k IH] using rev_ind; intros e suf; simpl; [by exists e|].
  rewrite length_app. simpl. rewrite Nat.add_1_r. simpl.
  rewrite <- (app_assoc k [d]). simpl. rewrite (app_assoc pre k), <- length_app, lookup_mid. simpl.
  replace (length pre + S (length k))%nat with (length ((pre ++ k) ++ [d])) by (rewrite !length_app; simpl; lia).
  change (d :: e :: suf) with ([d] ++ e :: suf). rewrite (app_assoc (pre ++ k) [d]), insert_mid.
  destruct (IH d (d :: suf)) as [h Eh]. exists h. rewrite <- !app_assoc. simpl. by rewrite Eh.
Qed.

(** What moving [q] to the left by [n] leaves in its place. *)
Definition moved_left (n : nat) (q : list Contig) : list Contig :=
  take (length q) (drop n q ++ replicate n empty_contig).

Lemma moved_left_cons n c q :
  (0 < n)%nat -> moved_left n (c :: q) = default empty_contig ((c :: q) !! n) :: moved_left n q.
Proof.
  intros Hn. unfold moved_left. destruct n as [|n]; [lia|]. simpl. destruct (q !! n) as [d|] eqn:E.
  - rewrite (drop_S _ _ _ E). simpl. done.
  - apply lookup_ge_None in E. rewrite !drop_ge by lia. simpl. f_equal.
    change (empty_contig :: replicate n empty_contig) with (replicate (S n) empty_contig).
    rewrite !take_replicate. f_equal. lia.
Qed.

Lemma empties_replicate q : Forall (eq empty_contig) q -> q = replicate (length q) empty_contig.
Proof. intros E. induction E as [|c q <- E IH]; [done|]. simpl. by f_equal. Qed.

Lemma empties_snoc q : Forall (eq empty_contig) q -> q ++ [empty_contig] = empty_contig :: q.
Proof. intros E. rewrite (empties_replicate _ E). by rewrite <- replicate_cons_app. Qed.

Lemma moved_left_empties n q : Forall (eq empty_contig) q -> moved_left n q = q.
Proof.
  intros E. pose proof (empties_replicate _ E) as Eq.
  unfold moved_left. rewrite Eq at 2 3. rewrite drop_replicate, <- replicate_add, take_replicate. f_equal. lia.
Qed.

Lemma moved_left_app (mid rest : list Contig) :
  moved_left (length mid) (mid ++ rest) = rest ++ replicate (length mid) empty_contig.
Proof. unfold moved_left. rewrite drop_app_length, take_ge; [done|]. rewrite !length_app, length_replicate. lia. Qed.

Lemma shift_left_spec first n pre q :
  (0 < n)%nat -> shape first q -> shift_left (length q) (length pre) n (pre ++ q) = Some (pre ++ moved_left n q).
Proof.
  intros Hn. revert first pre. induction q as [|c q IH]; intros first pre Sh; [done|]. simpl.
  rewrite lookup_mid. simpl. destruct (has_data c) eqn:D.
  - rewrite lookup_app_r by lia. replace (length pre + n - length pre)%nat with n by lia. rewrite insert_mid.
    rewrite moved_left_cons by done. set (d := default _ _).
    replace (S (length pre)) with (length (pre ++ [d])) by (rewrite length_app; simpl; lia).
    change (pre ++ d :: q) with (pre ++ [d] ++ q). rewrite app_assoc.
    destruct (shape_used _ _ _ Sh D) as (_ & _ & _ & Sh'). rewrite (IH _ _ Sh'). by rewrite <- app_assoc.
  - destruct (shape_unused _ _ _ Sh D) as [-> E]. by rewrite moved_left_empties by (by constructor).
Qed.

Lemma remove_loop_spec first pre c rest :
  has_data c = true -> shape first rest ->
  remove_loop (length rest) (length pre) (pre ++ c :: rest) = Some (pre ++ rest ++ [empty_contig]).
Proof.
  revert first pre c. induction rest as [|d rest IH]; intros first pre c D Sh; simpl.
  - rewrite length_app. simpl. replace (length pre + 1 - 1)%nat with (length pre) by lia. by rewrite insert_mid.
  - rewrite lookup_mid. simpl. rewrite D.
    replace ((pre ++ c :: d :: rest) !! S (length pre)) with (Some d).
    2: { change (c :: d :: rest) with ([c] ++ d :: rest). rewrite app_assoc.
         replace (S (length pre)) with (length (pre ++ [c])) by (rewrite length_app; simpl; lia). by rewrite lookup_mid. }
    simpl. rewrite insert_mid. destruct (has_data d) eqn:D'.
    + replace (S (length pre)) with (length (pre ++ [d])) by (rewrite length_app; simpl; lia).
      change (pre ++ d :: d :: rest) with (pre ++ [d] ++ d :: rest). rewrite app_assoc.
      destruct (shape_used _ _ _ Sh D') as (_ & _ & _ & Sh'). rewrite (IH _ _ _ D' Sh'). by rewrite <- app_assoc.
    + destruct (shape_unused _ _ _ Sh D') as [-> E]. rewrite empties_snoc by done.
      destruct rest as [|e rest]; simpl.
      * rewrite length_app. simpl. replace (length pre + 2 - 1)%nat with (length (pre ++ [empty_contig])) by (rewrite length_app; simpl; lia).
        change (pre ++ [empty_contig; empty_contig]) with (pre ++ [empty_contig] ++ [empty_contig]).
        by rewrite app_assoc, insert_mid, <- app_assoc.
      * replace (S (length pre)) with (length (pre ++ [empty_contig])) by (rewrite length_app; simpl; lia).
        change (pre ++ empty_contig :: empty_contig :: e :: rest) with (pre ++ [empty_contig] ++ empty_contig :: e :: rest).
        by rewrite app_assoc, lookup_mid, <- app_assoc.
Qed.

(** ** Joining *)

Lemma shape_false_sum a c : shape false a -> 0 <= tot c -> tot c + zsum tot a < usize_modulus -> tot c < usize_modulus.
Proof. intros Sh ? ?. pose proof (zsum_tot_nonneg _ _ Sh). lia. Qed.

Lemma asm_coalesce_spec l c o reach :
  shape false l -> 0 <= hole_size c -> 0 <= data_size c -> tot c + zsum tot l < usize_modulus -> 0 <= o <= tot c ->
  exists mid rest c', coalesce c reach l = (c', length mid) /\ l = mid ++ rest /\ used mid /\
    hole_size c' = hole_size c /\ data_size c' = data_size c + zsum tot mid /\
    (forall x, hole_size c <= x < tot c' -> present (c :: mid) x || ((o <=? x) && (x <? reach)) = true) /\
    match rest with d :: _ => has_data d = true -> reach < tot c' + hole_size d | [] => True end.
Proof.
  revert c. induction l as [|d l IH]; intros c Sh Hh Hd Z Ho; simpl.
  - exists [], [], c. simpl. split_and!; [done|done|constructor|done|lia| |done].
    intros x [? ?]. unfold tot in *. case_cmp; (done || lia).
  - destruct (has_data d) eqn:D; simpl.
    2: { exists [], (d :: l), c. simpl. split_and!; [done|done|constructor|done|lia| |by rewrite D].
         intros x [? ?]. unfold tot in *. case_cmp; (done || lia). }
    destruct (shape_used _ _ _ Sh D) as (_ & Dh & Dd & Sh'). specialize (Dh eq_refl). simpl in Z.
    pose proof (zsum_tot_nonneg _ _ Sh') as Hl.
    rewrite (total_size_small c), usize_add_small by (unfold is_usize, tot in *; lia).
    destruct (Z.leb_spec (tot c + hole_size d) reach) as [Hr|Hr].
    2: { exists [], (d :: l), c. simpl. split_and!; [done|done|constructor|done|lia| |by intros _].
         intros x [? ?]. unfold tot in *. case_cmp; (done || lia). }
    assert (grow_data c (total_size d) = mkContig (hole_size c) (data_size c + tot d)) as G.
    { unfold grow_data. rewrite (total_size_small d), usize_add_small by (unfold is_usize, tot in *; lia). done. }
    rewrite G. set (c1 := mkContig _ _). assert (tot c1 = tot c + tot d) as T1 by (unfold c1, tot; simpl; lia).
    destruct (IH c1 Sh' ltac:(done) ltac:(unfold c1, tot in *; simpl; lia) ltac:(lia) ltac:(unfold tot in *; lia))
      as (mid & rest & c' & E & -> & U & H1 & H2 & H3 & H4).
    exists (d :: mid), rest, c'. rewrite E. simpl in H1, H2 |- *.
    split_and!; [done|done|by constructor|done|unfold tot in *; lia| |done].
    intros x Hx. specialize (H3 x Hx). simpl in H3. rewrite T1 in H3. simpl. unfold tot in *.
    case_cmp; simpl in *; try done; try lia; try (by replace (x - (hole_size c + data_size c) - (hole_size d + data_size d))
      with (x - (hole_size c + data_size c + (hole_size d + data_size d))) by lia).
Qed.

(** ** Adding a range *)

(** [l'] is [l] with the range added. *)
Record adds (first : bool) (l l' : list Contig) (o s : Z) : Prop := {
  ad_shape : shape first l';
  ad_length : length l' = length l;
  ad_present : forall x, 0 <= x -> present l' x = present l x || in_range o s x;
  ad_total : zsum tot l' = Z.max (zsum tot l) (o + s);
}.

(** The range does not touch what is there, and no contig is left for it. *)
Definition isolated (l : list Contig) (o s : Z) : Prop :=
  used l /\ forall x, 0 <= x -> o - 1 <= x <= o + s -> present l x = false.

Lemma present_beyond first l x : shape first l -> zsum tot l <= x -> present l x = false.
Proof.
  intros Sh Hx. pose proof (zsum_tot_nonneg _ _ Sh).
  rewrite <- (app_nil_r l), (present_app first) by (done || lia). case_cmp; [lia|done].
Qed.

Lemma present_empties_r first l e x :
  shape first l -> Forall (eq empty_contig) e -> 0 <= x -> present (l ++ e) x = present l x.
Proof.
  intros Sh E Hx. rewrite (present_app first), (empties_absent e) by done. case_cmp; [done|].
  by rewrite (present_beyond first).
Qed.

Lemma adds_app first pre l l' o s :
  used pre -> shape first pre -> zsum tot pre <= o ->
  adds (starts first pre) l l' (o - zsum tot pre) s -> adds first (pre ++ l) (pre ++ l') o s.
Proof.
  intros U Sh Ho [A B C D]. pose proof (zsum_tot_nonneg _ _ Sh). constructor.
  - by apply shape_app.
  - rewrite !length_app. lia.
  - intros x Hx. rewrite !(present_app first) by done. unfold in_range in *. case_cmp; try lia; rewrite ?orb_false_r; try done.
    all: rewrite C by lia; case_cmp; (done || lia || by rewrite ?orb_false_r).
  - rewrite !zsum_app, D. lia.
Qed.

Lemma shape_prefix first k l : shape first (k ++ l) -> shape first k.
Proof.
  revert first. induction k as [|c k IH]; intros first; [done|]. intros [[-> E]|(? & ? & ? & Sh)]; [left|right; eauto].
  split; [done|]. by apply Forall_app in E as [? ?].
Qed.

Lemma shape_back first k e : shape first (k ++ [e]) -> has_data e = true -> used (k ++ [e]).
Proof.
  intros Sh D. revert first Sh. induction k as [|c k IH]; intros first Sh; [by repeat constructor|].
  destruct (has_data c) eqn:Dc; [|destruct (shape_unused _ _ _ Sh Dc) as [_ E]].
  - constructor; [done|]. destruct (shape_used _ _ _ Sh Dc) as (_ & _ & _ & Sh'). exact (IH _ Sh').
  - apply Forall_app in E as [_ E]. by apply Forall_singleton in E as <-.
Qed.

Lemma shape_pad first r em : shape first r -> Forall (eq empty_contig) em -> shape first (r ++ em).
Proof.
  intros Sh E. revert first Sh. induction r as [|d r IH]; intros first Sh; [by apply shape_empties|].
  destruct Sh as [[-> E']|(? & ? & ? & ?)]; [left|right; auto]. split; [done|]. by apply Forall_app.
Qed.

Lemma adds_empty first c rest o s :
  0 <= o -> 0 < s -> (first = false -> 0 < o) -> Forall (eq empty_contig) (c :: rest) ->
  adds first (c :: rest) (mkContig o s :: rest) o s.
Proof.
  intros Ho Hs Hf E. inversion E as [|? ? <- E']; subst. constructor.
  - right. simpl. split_and!; [done|done|done|by apply shape_empties].
  - done.
  - intros x Hx. rewrite (empties_absent _ x E). simpl. unfold in_range, tot. simpl. rewrite (empties_absent rest) by done.
    case_cmp; (done || lia).
  - simpl. unfold tot at 1 3. simpl. rewrite (empties_sum rest) by done. lia.
Qed.

Lemma adds_in_hole first c k e o s :
  0 <= o -> 0 < s -> (first = false -> 0 < o) -> o + s < hole_size c ->
  shape first ((c :: k) ++ [e]) -> has_data c = true -> has_data e = false -> tot c < usize_modulus ->
  adds first ((c :: k) ++ [e]) (mkContig o s :: shrink_hole_by c (o + s) :: k) o s.
Proof.
  intros Ho Hs Hf Hc Sh D De Z. pose proof (shape_prefix _ (c :: k) [e] Sh) as Shk.
  destruct (shape_used _ _ _ Shk D) as (_ & _ & Hd & Sk).
  assert (Forall (eq empty_contig) [e]) as Ee.
  { clear -Sh De. revert first Sh. induction (c :: k) as [|d l IH]; intros first Sh.
    - destruct (shape_unused _ _ _ Sh De) as [-> _]. by constructor.
    - destruct Sh as [[_ E]|(_ & _ & _ & Sh)]; [by apply Forall_app in E as [_ E]|eauto]. }
  unfold shrink_hole_by. rewrite usize_sub_small by (unfold is_usize, tot in *; lia). constructor.
  - right. simpl. split_and!; [done|done|done|]. right. simpl. split_and!; [lia|lia|done|done].
  - simpl. rewrite length_app. simpl. lia.
  - intros x Hx. rewrite (present_empties_r first) by done. simpl. unfold in_range, tot. simpl.
    case_cmp; try lia; try done; rewrite ?orb_false_r; f_equal; lia.
  - rewrite zsum_app, (empties_sum [e]) by done. simpl. pose proof (zsum_tot_nonneg _ _ Sk). unfold tot at 1 2 4. simpl. lia.
Qed.

(** The contig that the range grows, with what follows it. *)
Definition extended (c : Contig) (reach : Z) (q : list Contig) : list Contig :=
  if tot c <? reach
  then mkContig (hole_size c) (reach - hole_size c) ::
       match q with
       | d :: q' => (if has_data d then mkContig (hole_size d - (reach - tot c)) (data_size d) else d) :: q'
       | [] => []
       end
  else c :: q.

Lemma extended_spec first c reach q :
  0 <= hole_size c -> (first = false -> 0 < hole_size c) -> 0 < data_size c -> shape false q ->
  match q with d :: _ => has_data d = true -> reach < tot c + hole_size d | [] => True end ->
  shape first (extended c reach q) /\ length (extended c reach q) = S (length q) /\
  zsum tot (extended c reach q) = Z.max (tot c + zsum tot q) reach /\
  (forall x, tot c <= x -> present (extended c reach q) x = present q (x - tot c) || (x <? reach)) /\
  (forall x, x < tot c -> present (extended c reach q) x = (hole_size c <=? x)).
Proof.
  intros Hh Hf Hd Sq Hq. pose proof (zsum_tot_nonneg _ _ Sq) as Hs. unfold extended.
  destruct (Z.ltb_spec (tot c) reach) as [Hr|Hr].
  2: { split_and!; [right; done|done|simpl; lia| |]; intros x Hx; simpl; unfold tot in *; case_cmp; (done || lia || by rewrite orb_false_r). }
  destruct q as [|d q]; simpl in *.
  { split_and!; [right; simpl; unfold tot in *; split_and!; (done || lia)|done|unfold tot in *; simpl; lia| |];
      intros x Hx; unfold tot in *; simpl; case_cmp; (done || lia). }
  destruct (has_data d) eqn:D.
  - specialize (Hq eq_refl). destruct (shape_used _ _ _ Sq D) as (_ & _ & Hdd & Sq'). pose proof (zsum_tot_nonneg _ _ Sq').
    split_and!; [right; simpl; unfold tot in *; split_and!; [done|done|lia|right; simpl; split_and!; (done || lia)]
                |done|unfold tot in *; simpl in *; lia| |];
      intros x Hx; unfold tot in *; simpl; case_cmp; try lia; try done; rewrite orb_false_r; f_equal; lia.
  - destruct (shape_unused _ _ _ Sq D) as [-> E]. rewrite (empties_sum q E).
    split_and!; [right; simpl; unfold tot in *; split_and!; [done|done|lia|by left]|done|unfold tot in *; simpl in *; lia| |];
      intros x Hx; unfold tot in *; simpl; rewrite ?(empties_absent q _ E); case_cmp; (done || lia).
Qed.

Lemma adds_join first c c0 mid r c' o s :
  0 <= o <= tot c -> 0 < s -> (first = false -> 0 < o) ->
  shape first (c :: mid ++ r) -> has_data c = true -> used mid -> hole_size c <= o + s ->
  hole_size c0 = Z.min (hole_size c) o -> tot c0 = tot c ->
  hole_size c' = hole_size c0 -> data_size c' = data_size c0 + zsum tot mid ->
  (forall x, hole_size c0 <= x < tot c' -> present (c0 :: mid) x || ((o <=? x) && (x <? o + s)) = true) ->
  match r with d :: _ => has_data d = true -> o + s < tot c' + hole_size d | [] => True end ->
  adds first (c :: mid ++ r) (extended c' (o + s) (r ++ replicate (length mid) empty_contig)) o s.
Proof.
  intros Ho Hs Hf Sh D U Hc H0 T0 Hh Hd Hp Hr.
  destruct (shape_used _ _ _ Sh D) as (Hh0 & Hf0 & Hd0 & Sr). pose proof (proj1 (shape_app false mid r U) Sr) as [Sm Sr'].
  assert (shape false r) as Sr2 by (destruct mid; done).
  set (em := replicate (length mid) empty_contig). assert (Forall (eq empty_contig) em) as Eem by (by apply Forall_replicate).
  pose proof (shape_pad _ _ _ Sr2 Eem) as Sq.
  pose proof (zsum_tot_nonneg _ _ Sm) as Hm. assert (tot c' = tot c + zsum tot mid) as T' by (unfold tot in *; lia).
  destruct (extended_spec first c' (o + s) (r ++ em)) as (E1 & E2 & E3 & E4 & E5); [lia| |unfold tot in *; lia|done| |].
  { intros F. specialize (Hf F). specialize (Hf0 F). lia. }
  { destruct r as [|d r]; simpl; [|done]. unfold em. destruct mid; simpl; [done|]. by intros [=]. }
  constructor.
  - done.
  - rewrite E2. unfold em. simpl. rewrite !length_app, length_replicate. lia.
  - intros x Hx. change (c :: mid ++ r) with ((c :: mid) ++ r).
    rewrite (present_app first) by (try done; apply (shape_prefix _ (c :: mid) r Sh)). simpl zsum. rewrite <- T'.
    destruct (Z.ltb_spec x (tot c')) as [Hx'|Hx'].
    + rewrite E5 by done. specialize (Hp x). unfold in_range. simpl in *. rewrite T0 in Hp. case_cmp; simpl in *; try lia; try done.
      all: rewrite ?orb_false_r, ?orb_true_r in *; try done; try (symmetry; apply Hp; lia).
    + rewrite E4 by done. rewrite (present_empties_r false) by (done || lia). unfold in_range. f_equal.
      case_cmp; (done || lia).
  - rewrite E3, zsum_app, (empties_sum em) by done. simpl. rewrite zsum_app. lia.
Qed.

(** The part of [add] after the search, when the range starts in or after the hole. *)
Lemma add_contig_spec first pre c rest :
  shape first (pre ++ c :: rest) -> used pre -> has_data c = true ->
  (add_contig_at (pre ++ c :: rest) (length pre) = Some None /\ used (pre ++ c :: rest)) \/
  (exists k e, c :: rest = (c :: k) ++ [e] /\ has_data e = false /\
     add_contig_at (pre ++ c :: rest) (length pre) = Some (Some (pre ++ empty_contig :: c :: k))).
Proof.
  intros Sh U D. destruct (exists_last (l := c :: rest)) as (k & e & E); [done|].
  unfold add_contig_at. rewrite E in *. rewrite app_assoc in *.
  replace (length ((pre ++ k) ++ [e]) - 1)%nat with (length (pre ++ k)) by (rewrite (length_app _ [e]); simpl; lia).
  rewrite lookup_mid. simpl. destruct (has_data e) eqn:De; [left; split; [done|]; by eapply shape_back|right].
  destruct k as [|c1 k]; simpl in E; [injection E as -> ->; congruence|]. injection E as <- ->.
  exists k, e. split_and!; [done|done|]. rewrite <- app_assoc.
  replace (length (pre ++ c :: k) - length pre)%nat with (length (c :: k)) by (rewrite length_app; lia).
  destruct (shift_right_spec (c :: k) pre e []) as [h ->]. simpl. rewrite insert_mid. by rewrite app_nil_r.
Qed.

Lemma lookup_next (pre : list Contig) c q : (pre ++ c :: q) !! S (length pre) = q !! 0%nat.
Proof. rewrite lookup_app_r by lia. by replace (S (length pre) - length pre)%nat with 1%nat by lia. Qed.

Lemma insert_next (pre : list Contig) c d e q : <[S (length pre) := e]> (pre ++ c :: d :: q) = pre ++ c :: e :: q.
Proof.
  change (pre ++ c :: d :: q) with (pre ++ [c] ++ d :: q). rewrite app_assoc.
  replace (S (length pre)) with (length (pre ++ [c])) by (rewrite length_app; simpl; lia).
  by rewrite insert_mid, <- app_assoc.
Qed.

(** The last step of [add] computes [extended]. *)
Lemma extend_runs (pre : list Contig) c q reach :
  0 <= hole_size c -> 0 <= data_size c -> tot c < usize_modulus -> 0 <= reach < usize_modulus -> shape false q ->
  match q with d :: _ => has_data d = true -> reach < tot c + hole_size d /\ hole_size d < usize_modulus | [] => True end ->
  (if total_size c <? reach then
     match (<[length pre := grow_data c (usize_sub reach (total_size c))]> (pre ++ c :: q)) !! S (length pre) with
     | Some next => Some (Some (if has_data next
         then <[S (length pre) := shrink_hole_by next (usize_sub reach (total_size c))]>
                (<[length pre := grow_data c (usize_sub reach (total_size c))]> (pre ++ c :: q))
         else <[length pre := grow_data c (usize_sub reach (total_size c))]> (pre ++ c :: q)))
     | None => Some (Some (<[length pre := grow_data c (usize_sub reach (total_size c))]> (pre ++ c :: q)))
     end
   else Some (Some (pre ++ c :: q))) = Some (Some (pre ++ extended c reach q)).
Proof.
  intros Hh Hd Hc Hr Sq Hq. rewrite total_size_small by done. unfold extended. case_cmp; [|done].
  rewrite insert_mid, lookup_next. rewrite (usize_sub_small reach) by (unfold is_usize, tot in *; lia).
  unfold grow_data. rewrite usize_add_small by (unfold is_usize, tot in *; lia).
  replace (data_size c + (reach - tot c)) with (reach - hole_size c) by (unfold tot; lia).
  destruct q as [|d q]; [done|]. simpl. destruct (has_data d) eqn:D; [|done]. rewrite insert_next. unfold shrink_hole_by.
  destruct (Hq eq_refl). destruct (shape_used _ _ _ Sq D) as (? & _ & ? & _).
  rewrite usize_sub_small by (unfold is_usize, tot in *; lia). done.
Qed.

Lemma gap_closed (pre : list Contig) c mid r :
  shape false (mid ++ r) ->
  (if (length mid =? 0)%nat then Some (pre ++ c :: mid ++ r)
   else shift_left (length (pre ++ c :: mid ++ r) - S (length pre)) (S (length pre)) (length mid) (pre ++ c :: mid ++ r))
  = Some (pre ++ c :: r ++ replicate (length mid) empty_contig).
Proof.
  intros Sh. destruct (Nat.eqb_spec (length mid) 0) as [E|E].
  { apply nil_length_inv in E as ->. by rewrite app_nil_r. }
  replace (length (pre ++ c :: mid ++ r) - S (length pre))%nat with (length (mid ++ r)) by (rewrite (length_app pre); simpl; lia).
  change (pre ++ c :: mid ++ r) with (pre ++ [c] ++ (mid ++ r)). rewrite app_assoc.
  replace (S (length pre)) with (length (pre ++ [c])) by (rewrite length_app; simpl; lia).
  rewrite (shift_left_spec false) by (done || lia). by rewrite moved_left_app, <- app_assoc.
Qed.

Lemma join_range_spec first pre c rest o s :
  shape (starts first pre) (c :: rest) -> has_data c = true -> zsum tot (c :: rest) < usize_modulus ->
  0 <= o <= tot c -> 0 < s -> o + s < usize_modulus -> hole_size c <= o + s -> (starts first pre = false -> 0 < o) ->
  exists l', join_range (pre ++ c :: rest) (length pre) c o s = Some (Some (pre ++ l')) /\
    adds (starts first pre) (c :: rest) l' o s.
Proof.
  intros Sh D Z Ho Hs Hos Hc Hf. destruct (shape_used _ _ _ Sh D) as (Hh & _ & Hd & Sr). simpl in Z.
  pose proof (zsum_tot_nonneg _ _ Sr) as Hz. unfold join_range. rewrite (usize_add_small o s) by (unfold is_usize; lia).
  assert (exists c0, (if o <? hole_size c then shrink_hole_to c o else Some c) = Some c0 /\
            hole_size c0 = Z.min (hole_size c) o /\ tot c0 = tot c) as (c0 & -> & H0 & T0).
  { unfold shrink_hole_to. case_cmp; [lia| |eexists; split_and!; [done|lia|done]].
    rewrite total_size_small, usize_sub_small by (unfold is_usize, tot in *; lia).
    eexists. split_and!; [done|simpl; lia|unfold tot; simpl; lia]. }
  simpl. replace (drop (S (length pre)) (pre ++ c :: rest)) with rest
    by (rewrite drop_app_ge by lia; by replace (S (length pre) - length pre)%nat with 1%nat by lia).
  destruct (asm_coalesce_spec rest c0 o (o + s) Sr ltac:(lia) ltac:(unfold tot in *; lia) ltac:(lia) ltac:(lia))
    as (mid & r & c' & -> & -> & U & A1 & A2 & A3 & A4).
  rewrite insert_mid. rewrite zsum_app in Z, Hz.
  pose proof (proj1 (shape_app false mid r U) Sr) as [Sm Sr']. pose proof (zsum_tot_nonneg _ _ Sm).
  pose proof (zsum_tot_nonneg _ _ Sr').
  pose proof (adds_join (starts first pre) c c0 mid r c' o s Ho Hs Hf Sh D U Hc H0 T0 A1 A2 A3 A4) as A.
  eexists. split; [|exact A]. rewrite gap_closed by done. simpl.
  assert (tot c' = tot c + zsum tot mid) as T' by (unfold tot in *; lia).
  apply extend_runs; [lia|unfold tot in *; lia|lia|lia| |].
  - apply shape_pad; [by destruct mid|by apply Forall_replicate].
  - destruct r as [|d r]; simpl; [by destruct mid|]. intros Dd. split; [auto|].
    destruct (shape_used _ _ _ Sr' Dd) as (? & _ & ? & Sr3). pose proof (zsum_tot_nonneg _ _ Sr3).
    simpl in *. unfold tot in *. lia.
Qed.

Lemma starts_pos first pre (o : Z) : (first = false -> 0 < o) -> (pre <> [] -> 0 < o) -> starts first pre = false -> 0 < o.
Proof. destruct pre; simpl; auto. Qed.

Lemma add_in_hole a pre c rest o s :
  a = pre ++ c :: rest -> shape true a -> zsum tot a < usize_modulus -> used pre -> has_data c = true ->
  0 <= o - zsum tot pre -> (pre <> [] -> 0 < o - zsum tot pre) -> 0 < s -> o - zsum tot pre + s < hole_size c ->
  let o' := o - zsum tot pre in
  (add_contig_at a (length pre) = Some None /\ isolated a o s) \/
  (exists k, add_contig_at a (length pre) = Some (Some (pre ++ empty_contig :: c :: k)) /\
     adds true a (pre ++ mkContig o' s :: shrink_hole_by c (o' + s) :: k) o s).
Proof.
  intros -> Sh Z U D Ho Hp Hs Hc. simpl. pose proof (proj1 (shape_app true pre _ U) Sh) as [Sp Sc].
  destruct (shape_used _ _ _ Sc D) as (Hh & _ & Hd & Sr). pose proof (zsum_tot_nonneg _ _ Sr).
  pose proof (zsum_tot_nonneg _ _ Sp). rewrite zsum_app in Z. simpl in Z.
  destruct (add_contig_spec true pre c rest Sh U D) as [[-> Ua]|(k & e & E & De & ->)]; [left|right].
  - split_and!; [done|split; [done|]]. intros x ? ?. rewrite (present_app true) by done. simpl.
    assert (zsum tot pre <= x) by (destruct (decide (pre = [])) as [->|Np]; [done|specialize (Hp Np); lia]).
    case_cmp; (done || lia).
  - exists k. split; [done|]. apply adds_app; [done|done|lia|]. rewrite E.
    apply adds_in_hole; try done; try lia; [by apply starts_pos|by rewrite <- E].
Qed.

Lemma add_joined a pre c rest o s :
  a = pre ++ c :: rest -> shape true a -> zsum tot a < usize_modulus -> used pre -> has_data c = true ->
  0 <= o - zsum tot pre <= tot c -> (pre <> [] -> 0 < o - zsum tot pre) -> 0 < s -> o + s < usize_modulus ->
  hole_size c <= o - zsum tot pre + s ->
  exists a', join_range a (length pre) c (o - zsum tot pre) s = Some (Some a') /\ adds true a a' o s.
Proof.
  intros -> Sh Z U D Ho Hp Hs Hos Hc. apply shape_app in Sh as [Sp Sc]; [|done]. rewrite zsum_app in Z.
  pose proof (zsum_tot_nonneg _ _ Sp).
  destruct (join_range_spec true pre c rest (o - zsum tot pre) s) as (l' & E & A); try done; try lia; [by apply starts_pos|].
  eexists. split; [exact E|]. by apply adds_app; [| |lia|].
Qed.

Lemma add_spec a o s :
  asm_wf a -> 0 <= o -> 0 <= s -> o + s < usize_modulus ->
  (exists a', add a o s = Some (Some a') /\ (s = 0 -> a' = a) /\ (0 < s -> adds true a a' o s)) \/
  (add a o s = Some None /\ 0 < s /\ isolated a o s).
Proof.
  intros [Sh Z R] Ho Hs Hos. unfold add. destruct (Z.eqb_spec s 0) as [->|Hs0].
  { left. exists a. split_and!; [done|done|lia]. }
  pose proof (find_start_spec true a 0 o Sh Z ltac:(lia)) as F. destruct (find_start a 0 o) as [|i o'|i o'].
  { right. destruct F as [U L]. specialize (L R). split; [done|]. split; [lia|]. split; [done|].
    intros x ? ?. apply (present_beyond true); [done|lia]. }
  - left. destruct F as (pre & c & rest & (-> & -> & U & -> & L) & D). simpl. rewrite insert_mid.
    eexists. split_and!; [done|lia|]. intros _. apply shape_app in Sh as [Sp Sc]; [|done].
    destruct (shape_unused _ _ _ Sc D) as [-> E]. pose proof (zsum_tot_nonneg _ _ Sp).
    assert (0 <= o - zsum tot pre) by (destruct (decide (pre = [])) as [->|Np]; [simpl; lia|specialize (L Np); lia]).
    apply adds_app; [done|done|lia|]. apply adds_empty; [lia|lia|by apply starts_pos|by constructor].
  - destruct F as (pre & c & rest & (Ea & -> & U & -> & L) & D & B). simpl.
    assert (a !! length pre = Some c) as -> by (rewrite Ea; apply lookup_mid). simpl.
    pose proof Sh as Sh'. rewrite Ea in Sh'. apply shape_app in Sh' as [Sp Sc]; [|done]. pose proof (zsum_tot_nonneg _ _ Sp).
    assert (0 <= o - zsum tot pre) by (destruct (decide (pre = [])) as [->|Np]; [simpl; lia|specialize (L Np); lia]).
    rewrite usize_add_small by (unfold is_usize; lia).
    destruct (Z.ltb_spec (o - zsum tot pre) (hole_size c)) as [H1|H1]; simpl;
      [destruct (Z.ltb_spec (o - zsum tot pre + s) (hole_size c)) as [H2|H2]|].
    + destruct (add_in_hole a pre c rest o s) as [[-> I]|(k & -> & A)]; try done; [lia|right; split_and!; [done|lia|apply I..]|left].
      simpl. rewrite lookup_next. simpl. rewrite insert_mid, insert_next. eexists. split_and!; [done|lia|done].
    + left. destruct (add_joined a pre c rest o s) as (a' & -> & A); try done; try lia. exists a'. split_and!; [done|lia|done].
    + left. destruct (add_joined a pre c rest o s) as (a' & -> & A); try done; try lia. exists a'. split_and!; [done|lia|done].
Qed.

Lemma adds_wf a a' o s : asm_wf a -> adds true a a' o s -> o + s < usize_modulus -> asm_wf a'.
Proof.
  intros [Sh Z R] [A B C D] H. constructor; [done|lia|]. intros ->. by destruct a.
Qed.

(** ** Taking the front *)

(** [a'] is the set [p] without the run of [n] offsets at its front, which is as long as
    can be. *)
Record takes (p : Z -> bool) (a' : Assembler) (n : Z) : Prop := {
  tk_wf : asm_wf a';
  tk_run : forall x, 0 <= x < n -> p x = true;
  tk_end : p n = false;
  tk_rest : forall x, 0 <= x -> present a' x = p (x + n);
  tk_nonneg : 0 <= n;
}.

Lemma remove_front_spec a :
  asm_wf a -> exists a' n, remove_front a = Some (a', n) /\ takes (present a) a' n /\
    length a' = length a /\ zsum tot a' = zsum tot a - n.
Proof.
  intros W. pose proof W as [Sh Z R]. destruct a as [|c rest]; [done|]. unfold remove_front. simpl.
  destruct (has_data c) eqn:D; simpl.
  2: { rewrite orb_true_r. destruct (shape_unused _ _ _ Sh D) as [-> E]. exists (empty_contig :: rest), 0.
       split_and!; [done| |done|simpl; lia]. constructor; [done|lia|by apply (empties_absent (empty_contig :: rest)); constructor| |lia]. intros x _. by rewrite Z.add_0_r. }
  destruct (shape_used _ _ _ Sh D) as (Hh & _ & Hd & Sr). rewrite orb_false_r. unfold has_hole.
  destruct (Z.eqb_spec (hole_size c) 0) as [E|E]; simpl.
  2: { exists (c :: rest), 0. split_and!; [done| |done|simpl; lia].
       constructor; try done; try lia; [simpl; case_cmp; (done || lia)|]. intros x _. by rewrite Z.add_0_r. }
  unfold remove_contig_at. simpl. rewrite D. replace (length rest - 0 - 0)%nat with (length rest) by lia.
  pose proof (remove_loop_spec false [] c rest D Sr) as RL. simpl in RL. rewrite RL. simpl. case_cmp; [|lia].
  assert (tot c = data_size c) as T by (unfold tot; lia). simpl in Z.
  assert (zsum tot (rest ++ [empty_contig]) = zsum tot rest) as Zr by (rewrite zsum_app; simpl; unfold tot at 2; simpl; lia).
  eexists _, _. split_and!; [done| |rewrite length_app; simpl; lia|lia]. constructor.
  - constructor; [apply shape_weaken, shape_pad; [done|by repeat constructor]|lia|by destruct rest].
  - intros x Hx. simpl. rewrite T. case_cmp; (done || lia).
  - simpl. rewrite T. case_cmp; try lia. rewrite Z.sub_diag. destruct rest as [|d rest]; [done|]. simpl.
    destruct Sr as [[-> Er]|(_ & Hp & _ & _)]; [|specialize (Hp eq_refl); case_cmp; (done || lia)]. simpl. by apply empties_absent.
  - intros x Hx. rewrite (present_empties_r false) by (done || by repeat constructor). simpl. rewrite T.
    case_cmp; try lia. f_equal. lia.
  - lia.
Qed.

Lemma takes_ext p q a' n : (forall x, 0 <= x -> p x = q x) -> takes p a' n -> takes q a' n.
Proof.
  intros H [A B C D E]. constructor; [done| | | |done].
  - intros x Hx. rewrite <- H by lia. auto.
  - by rewrite <- H.
  - intros x Hx. rewrite <- H by lia. auto.
Qed.

Definition with_range (a : Assembler) (o s x : Z) : bool := present a x || in_range o s x.

(** [add_then_remove_front] adds the range and takes the front.  It refuses only a range
    that touches nothing, when no contig is left, and never one that starts at 0. *)
Lemma add_then_remove_front_spec a o s :
  asm_wf a -> 0 <= o -> 0 <= s -> o + s < usize_modulus ->
  (exists a' n, add_then_remove_front a o s = Some (Some (a', n)) /\ takes (with_range a o s) a' n /\
     length a' = length a /\ zsum tot a' <= Z.max (zsum tot a) (o + s) - n) \/
  (add_then_remove_front a o s = Some None /\ 0 < o /\ isolated a o s).
Proof.
  intros W Ho Hs Hos. pose proof W as [Sh Z R]. destruct a as [|c rest]; [done|]. unfold add_then_remove_front. simpl lookup.
  simpl. destruct ((o =? 0) && (s <? hole_size c)) eqn:F.
  - apply andb_true_iff in F as [->%Z.eqb_eq L%Z.ltb_lt]. left. destruct Sh as [[-> _]|(Hh & _ & Hd & Sr)]; [simpl in L; lia|].
    simpl in Z. pose proof (zsum_tot_nonneg _ _ Sr). unfold shrink_hole_by. rewrite usize_sub_small by (unfold is_usize, tot in *; lia).
    eexists _, _. split_and!; [done| |done|simpl; unfold tot at 1 3; simpl; unfold tot in *; lia]. constructor.
    + constructor; [right; simpl; split_and!; (done || lia)|simpl; unfold tot at 1; simpl; unfold tot in *; lia|done].
    + intros x Hx. unfold with_range, in_range. case_cmp; (lia || by rewrite orb_true_r).
    + unfold with_range, in_range. simpl. case_cmp; (done || lia).
    + intros x Hx. unfold with_range, in_range. simpl. unfold tot. simpl. case_cmp; simpl; rewrite ?orb_false_r; try done; try lia. f_equal. lia.
    + done.
  - destruct (add_spec (c :: rest) o s W Ho Hs Hos) as [(a1 & -> & E0 & A)|(-> & Hs0 & I)].
    + left. simpl. destruct (Z.eqb_spec s 0) as [->|Hs0].
      * rewrite (E0 eq_refl). destruct (remove_front_spec _ W) as (a2 & n & -> & T & L & Zt). simpl.
        exists a2, n. split_and!; [done| |done|simpl in *; lia]. eapply takes_ext, T. intros x _. unfold with_range, in_range.
        case_cmp; (lia || by rewrite orb_false_r).
      * specialize (A ltac:(lia)). pose proof (adds_wf _ _ _ _ W A Hos) as W1. destruct A as [_ A1 A2 A3].
        destruct (remove_front_spec _ W1) as (a2 & n & -> & T & L & Zt). simpl.
        exists a2, n. split_and!; [done| |simpl in *; lia|simpl in *; lia]. eapply takes_ext, T. exact A2.
    + right. split_and!; [done| |apply I..]. destruct (Z.eqb_spec o 0) as [->|]; [exfalso|lia]. simpl in F. apply Z.ltb_ge in F.
      destruct I as [U I]. inversion U as [|? ? D _]. destruct (shape_used _ _ _ Sh D) as (Hh & _ & Hd & _).
      specialize (I (hole_size c) Hh ltac:(lia)). simpl in I. unfold tot in I. case_cmp; (done || lia).
Qed.

(** ** Histories *)

Inductive asm_event := AAdd (offset size : Z) | ARemove | AAddRemove (offset size : Z).

(** An assembler, the offset its front stands for, and the ranges it has accepted. *)
Record AsmLog := mkLog { asm : Assembler; base : Z; accepted : list (Z * Z) }.

Definition asm_step (y : AsmLog) (ev : asm_event) : option AsmLog :=
  match ev with
  | AAdd o s =>
      r ← add (asm y) o s;
      Some (match r with Some a => mkLog a (base y) ((base y + o, s) :: accepted y) | None => y end)
  | ARemove => '(a, n) ← remove_front (asm y); Some (mkLog a (base y + n) (accepted y))
  | AAddRemove o s =>
      r ← add_then_remove_front (asm y) o s;
      Some (match r with Some (a, n) => mkLog a (base y + n) ((base y + o, s) :: accepted y) | None => y end)
  end.

Fixpoint asm_run (y : AsmLog) (evs : list asm_event) : option AsmLog :=
  match evs with [] => Some y | ev :: evs => y ← asm_step y ev; asm_run y evs end.

Definition asm_event_ok (ev : asm_event) : Prop :=
  match ev with AAdd o s | AAddRemove o s => 0 <= o /\ 0 <= s /\ o + s < usize_modulus | ARemove => True end.

Definition covered (l : list (Z * Z)) (x : Z) : bool := existsb (fun '(o, s) => in_range o s x) l.

Record asm_log_ok (n : nat) (y : AsmLog) : Prop := {
  al_wf : asm_wf (asm y);
  al_length : length (asm y) = n;
  al_base : 0 <= base y;
  al_set : forall x, 0 <= x -> covered (accepted y) x = (x <? base y) || present (asm y) (x - base y);
}.

(** Removing what an addition completed. *)
Lemma log_takes n y a k o s :
  asm_log_ok n y -> 0 <= o -> takes (with_range (asm y) o s) a k -> length a = length (asm y) ->
  asm_log_ok n (mkLog a (base y + k) ((base y + o, s) :: accepted y)).
Proof.
  intros [W L B C] Ho [T1 T2 T3 T4 T5] La. constructor; simpl; [done|lia|lia|]. intros x Hx. rewrite C by done.
  unfold with_range, in_range in *. destruct (Z.ltb_spec x (base y + k)).
  - destruct (Z.ltb_spec x (base y)); simpl; [by rewrite orb_true_r|]. specialize (T2 (x - base y) ltac:(lia)).
    rewrite orb_comm. rewrite <- T2. f_equal. case_cmp; (done || lia).
  - rewrite T4 by lia. replace (x - (base y + k) + k) with (x - base y) by lia.
    destruct (Z.ltb_spec x (base y)); [lia|]. simpl. rewrite orb_comm. f_equal. case_cmp; (done || lia).
Qed.

Lemma asm_step_ok n y ev : asm_log_ok n y -> asm_event_ok ev -> exists y', asm_step y ev = Some y' /\ asm_log_ok n y'.
Proof.
  intros K He. pose proof K as [W L B C]. destruct ev as [o s| |o s]; simpl in *.
  - destruct He as (? & ? & ?). destruct (add_spec (asm y) o s) as [(a & -> & E0 & A)|(-> & _)]; try done; [|by eauto].
    eexists. split; [done|]. destruct (Z.eqb_spec s 0) as [->|].
    + rewrite (E0 eq_refl). constructor; simpl; try done. intros x Hx. rewrite C by done. unfold in_range. case_cmp; (done || lia).
    + specialize (A ltac:(lia)). constructor; simpl; [by eapply adds_wf|by rewrite (ad_length _ _ _ _ _ A)|done|].
      intros x Hx. rewrite C by done. destruct (Z.ltb_spec x (base y)); simpl; [by rewrite orb_true_r|].
      rewrite (ad_present _ _ _ _ _ A) by lia. rewrite orb_comm. f_equal. unfold in_range. case_cmp; (done || lia).
  - destruct (remove_front_spec _ W) as (a & k & -> & T & La & _). eexists. split; [done|].
    destruct T as [T1 T2 T3 T4 T5]. constructor; simpl; [done|lia|lia|]. intros x Hx. rewrite C by done.
    destruct (Z.ltb_spec x (base y + k)).
    + destruct (Z.ltb_spec x (base y)); simpl; [done|]. apply T2. lia.
    + rewrite T4 by lia. destruct (Z.ltb_spec x (base y)); [lia|]. simpl. f_equal. lia.
  - destruct He as (? & ? & ?).
    destruct (add_then_remove_front_spec (asm y) o s) as [(a & k & -> & T & La & _)|(-> & _)]; try done; [|by eauto].
    eexists. split; [done|]. by apply log_takes.
Qed.

Lemma asm_new_ok n : (0 < n)%nat -> asm_log_ok n (mkLog (assembler_new n) 0 []).
Proof.
  intros Hn. assert (Forall (eq empty_contig) (assembler_new n)) as E by (by apply Forall_replicate).
  constructor; simpl.
  - constructor; [by apply shape_empties|rewrite empties_sum by done; done|destruct n; [lia|done]].
  - apply length_replicate.
  - lia.
  - intros x Hx. rewrite (empties_absent _ _ E), orb_false_r. symmetry. by apply Z.ltb_ge.
Qed.


