(* ===== verification/SockBuf.v ===== *)
(** The ring buffers of TCP sockets (dependency/smoltcp/src/storage/ring_buffer.rs).

    Beside the queue of allocated bytes, a receiver writes bytes that arrived early into
    the cells after it.  A slice out of range, a subtraction that underflows and a failed
    assertion are [None]. *)

From stdpp Require Import base numbers option list.
From S2P Require Import Prelude Slice.
#[local] Open Scope nat_scope.

Record SocketBuffer := mkBuf {
  storage : list Z;
  read_at : nat;
  buf_len : nat;
}.

Definition buf_new (storage : list Z) : SocketBuffer := mkBuf storage 0 0.
Definition buf_clear (b : SocketBuffer) : SocketBuffer := mkBuf (storage b) 0 0.
Definition buf_capacity (b : SocketBuffer) : nat := length (storage b).
Definition buf_window (b : SocketBuffer) : option nat := sub_checked (buf_capacity b) (buf_len b).
Definition buf_is_empty (b : SocketBuffer) : bool := buf_len b =? 0.

Definition get_idx (b : SocketBuffer) (idx : nat) : nat :=
  if 0 <? buf_capacity b then (read_at b + idx) mod buf_capacity b else 0.

Definition contiguous_window (b : SocketBuffer) : option nat :=
  w ← buf_window b; e ← sub_checked (buf_capacity b) (get_idx b (buf_len b)); Some (Nat.min w e).

(** ** A queue of slices *)

(** [f] gets the free slice and returns what it leaves in it and how much it used. *)
Definition enqueue_many_with (b : SocketBuffer) (f : list Z -> list Z * nat) : option (SocketBuffer * nat) :=
  let b := if buf_len b =? 0 then mkBuf (storage b) 0 0 else b in
  let write_at := get_idx b (buf_len b) in
  max_size ← contiguous_window b;
  slice ← copy_out (storage b) write_at max_size;
  let '(slice, size) := f slice in
  s ← copy_in (storage b) write_at slice;
  if max_size <? size then None else Some (mkBuf s (read_at b) (buf_len b + size), size).

(** The closure of [enqueue_slice]. *)
Definition fill (data slice : list Z) : list Z * nat :=
  let size := Nat.min (length slice) (length data) in
  (take size data ++ drop size slice, size).

Definition enqueue_slice (b : SocketBuffer) (data : list Z) : option (SocketBuffer * nat) :=
  '(b, size_1) ← enqueue_many_with b (fill data);
  '(b, size_2) ← enqueue_many_with b (fill (drop size_1 data));
  Some (b, size_1 + size_2).

(** [f] gets the slice at the front and returns how much it takes. *)
Definition dequeue_many_with (b : SocketBuffer) (f : list Z -> nat) : option (SocketBuffer * list Z) :=
  e ← sub_checked (buf_capacity b) (read_at b);
  let max_size := Nat.min (buf_len b) e in
  slice ← copy_out (storage b) (read_at b) max_size;
  let size := f slice in
  if max_size <? size then None
  else
    let r := if 0 <? buf_capacity b then (read_at b + size) mod buf_capacity b else 0 in
    len ← sub_checked (buf_len b) size;
    Some (mkBuf (storage b) r len, take size slice).

Definition dequeue_slice (b : SocketBuffer) (want : nat) : option (SocketBuffer * list Z) :=
  '(b, bytes_1) ← dequeue_many_with b (fun slice => Nat.min (length slice) want);
  '(b, bytes_2) ← dequeue_many_with b (fun slice => Nat.min (length slice) (want - length bytes_1));
  Some (b, bytes_1 ++ bytes_2).

(** ** Access at an offset *)

(** The slice of [get_unallocated]: where it starts and how long it is. *)
Definition get_unallocated (b : SocketBuffer) (offset size : nat) : option (nat * nat) :=
  let start_at := get_idx b (buf_len b + offset) in
  w ← buf_window b;
  if w <? offset then Some (0, 0)
  else
    until_end ← sub_checked (buf_capacity b) start_at;
    let size := Nat.min (Nat.min size (w - offset)) until_end in
    _ ← copy_out (storage b) start_at size;
    Some (start_at, size).

Definition write_chunk (b : SocketBuffer) (offset : nat) (data : list Z) : option (SocketBuffer * nat) :=
  '(start_at, n) ← get_unallocated b offset (length data);
  s ← copy_in (storage b) start_at (take n data);
  Some (mkBuf s (read_at b) (buf_len b), n).

Definition write_unallocated (b : SocketBuffer) (offset : nat) (data : list Z) : option (SocketBuffer * nat) :=
  '(b, size_1) ← write_chunk b offset data;
  '(b, size_2) ← write_chunk b (offset + size_1) (drop size_1 data);
  Some (b, size_1 + size_2).

Definition enqueue_unallocated (b : SocketBuffer) (count : nat) : option SocketBuffer :=
  w ← buf_window b;
  if w <? count then None else Some (mkBuf (storage b) (read_at b) (buf_len b + count)).

Definition get_allocated (b : SocketBuffer) (offset size : nat) : option (list Z) :=
  let start_at := get_idx b offset in
  if buf_len b <? offset then Some []
  else
    until_end ← sub_checked (buf_capacity b) start_at;
    copy_out (storage b) start_at (Nat.min (Nat.min size (buf_len b - offset)) until_end).

Definition dequeue_allocated (b : SocketBuffer) (count : nat) : option SocketBuffer :=
  if buf_len b <? count then None
  else Some (mkBuf (storage b) (get_idx b count) (buf_len b - count)).


(** What the ring buffers of SockBuf.v do: [contents] is the queue of allocated bytes and
    [cell] every byte of the ring, counted from the front of the queue. *)

Record buf_ok (b : SocketBuffer) : Prop := {
  bo_len : buf_len b <= buf_capacity b;
  bo_read : read_at b = 0 \/ read_at b < buf_capacity b;
}.

Definition cell (b : SocketBuffer) (i : nat) : Z := nth ((read_at b + i) mod buf_capacity b) (storage b) 0%Z.
Definition cells (b : SocketBuffer) (i n : nat) : list Z := cell b <$> seq i n.
Definition contents (b : SocketBuffer) : list Z := cells b 0 (buf_len b).

(** ** Arithmetic of the ring *)

Lemma ring_add c r i k : 0 < c -> (r + i) mod c + k < c -> (r + (i + k)) mod c = (r + i) mod c + k.
Proof.
  intros Hc H. rewrite Nat.add_assoc, <- (Nat.Div0.add_mod_idemp_l (r + i) k c). by apply Nat.mod_small.
Qed.

Lemma ring_inj c r i j : i < c -> j < c -> (r + i) mod c = (r + j) mod c -> i = j.
Proof.
  intros Hi Hj H. pose proof (Nat.div_mod_eq (r + i) c) as E1. pose proof (Nat.div_mod_eq (r + j) c) as E2.
  rewrite H in E1. set (q1 := (r + i) / c) in *. set (q2 := (r + j) / c) in *. set (m := (r + j) mod c) in *. clearbody q1 q2 m. clear H.
  destruct (Nat.lt_trichotomy q1 q2) as [?|[->|?]]; nia.
Qed.

Lemma get_idx_mod b i : 0 < buf_capacity b -> get_idx b i = (read_at b + i) mod buf_capacity b.
Proof. intros H. unfold get_idx. case_nat; [done|lia]. Qed.

Lemma get_idx_lt b i : 0 < buf_capacity b -> get_idx b i < buf_capacity b.
Proof. intros H. rewrite get_idx_mod by done. apply Nat.mod_upper_bound. lia. Qed.

Lemma get_idx_le b i : get_idx b i <= buf_capacity b.
Proof. unfold get_idx. case_nat; [|lia]. apply Nat.lt_le_incl, Nat.mod_upper_bound. lia. Qed.

Lemma nth_lookup_eq (l : list Z) i x : l !! i = Some x -> nth i l 0%Z = x.
Proof. intros E. rewrite nth_lookup, E. done. Qed.

Lemma cells_app b i n k : cells b i (n + k) = cells b i n ++ cells b (i + n) k.
Proof. unfold cells. by rewrite seq_app, fmap_app. Qed.

Lemma cells_length b i n : length (cells b i n) = n.
Proof. unfold cells. by rewrite length_fmap, length_seq. Qed.

Lemma cells_lookup b i n k : k < n -> cells b i n !! k = Some (cell b (i + k)).
Proof. intros H. unfold cells. rewrite list_lookup_fmap, lookup_seq_lt by done. done. Qed.

Lemma cells_ext b b' i i' n : (forall k, k < n -> cell b (i + k) = cell b' (i' + k)) -> cells b i n = cells b' i' n.
Proof.
  intros H. apply list_eq. intros k. destruct (decide (k < n)) as [Hk|Hk].
  - rewrite !cells_lookup by done. by rewrite H.
  - rewrite !lookup_ge_None_2 by (rewrite cells_length; lia). done.
Qed.

Lemma buf_contents_length b : length (contents b) = buf_len b.
Proof. apply cells_length. Qed.

(** A slice of the storage is a run of cells. *)
Lemma slice_cells b i n :
  n <= buf_capacity b - get_idx b i -> 0 < buf_capacity b -> sl (storage b) (get_idx b i) (get_idx b i + n) = cells b i n.
Proof.
  intros Hn Hc. rewrite get_idx_mod in * by done.
  pose proof (Nat.mod_upper_bound (read_at b + i) (buf_capacity b) ltac:(lia)). apply list_eq. intros k. destruct (decide (k < n)) as [Hk|Hk].
  - rewrite cells_lookup by done. unfold sl. rewrite lookup_take_lt, lookup_drop by lia.
    unfold cell. rewrite ring_add by lia.
    destruct (lookup_lt_is_Some_2 (storage b) ((read_at b + i) mod buf_capacity b + k)) as [x E]; [fold (buf_capacity b); lia|].
    rewrite E. by rewrite (nth_lookup_eq _ _ _ E).
  - rewrite !lookup_ge_None_2; [done|rewrite cells_length; lia|].
    rewrite sl_length by (fold (buf_capacity b); lia). lia.
Qed.

Lemma spliced_lookup (l bs : list Z) t i :
  t + length bs <= length l ->
  spliced l t bs !! i = if (t <=? i) && (i <? t + length bs) then bs !! (i - t) else l !! i.
Proof.
  intros H. unfold spliced. case_nat; simpl; try lia.
  - rewrite lookup_app_r, lookup_app_l by (rewrite length_take; lia). rewrite length_take. f_equal. lia.
  - rewrite lookup_app_l by (rewrite length_take; lia). by rewrite lookup_take_lt by lia.
  - rewrite lookup_app_r, lookup_app_r by (rewrite length_take; lia). rewrite length_take, lookup_drop. f_equal. lia.
Qed.

(** Writing a slice writes a run of cells. *)
Lemma splice_cells b i bs r len j :
  length bs <= buf_capacity b - get_idx b i -> 0 < buf_capacity b -> i + length bs <= buf_capacity b -> j < buf_capacity b -> r = read_at b ->
  cell (mkBuf (spliced (storage b) (get_idx b i) bs) r len) j
  = if (i <=? j) && (j <? i + length bs) then nth (j - i) bs 0%Z else cell b j.
Proof.
  intros Hn Hc Hi Hj ->. assert (get_idx b i + length bs <= length (storage b)) as Hfit.
  { pose proof (get_idx_lt b i Hc). fold (buf_capacity b). lia. }
  unfold cell, buf_capacity. simpl. rewrite spliced_length by done. fold (buf_capacity b).
  rewrite (nth_lookup (spliced _ _ _)), spliced_lookup by done. rewrite get_idx_mod in * by done.
  destruct ((i <=? j) && (j <? i + length bs)) eqn:F.
  - apply andb_true_iff in F as [F1%Nat.leb_le F2%Nat.ltb_lt].
    assert ((read_at b + j) mod buf_capacity b = (read_at b + i) mod buf_capacity b + (j - i)) as ->
      by (rewrite <- ring_add by lia; do 2 f_equal; lia).
    case_nat; simpl; try lia. rewrite nth_lookup. do 2 f_equal. lia.
  - destruct ((_ mod _ <=? _) && _) eqn:G; [exfalso|rewrite nth_lookup; reflexivity]. apply andb_true_iff in G as [G1%Nat.leb_le G2%Nat.ltb_lt].
    set (s := (read_at b + i) mod buf_capacity b) in *. set (x := (read_at b + j) mod buf_capacity b) in *.
    assert (x = (read_at b + (i + (x - s))) mod buf_capacity b) as E by (rewrite ring_add; fold s; lia).
    unfold x in E at 1. apply ring_inj in E; [|done|lia].
    apply andb_false_iff in F as [F%Nat.leb_gt|F%Nat.ltb_ge]; lia.
Qed.

(** ** The queue *)

Lemma buf_window_ok b : buf_ok b -> buf_window b = Some (buf_capacity b - buf_len b).
Proof. intros [L _]. by apply sub_checked_Some. Qed.

Lemma empty_ring b i : buf_ok b -> buf_capacity b = 0 -> buf_len b = 0 /\ get_idx b i = 0.
Proof. intros [L _] E. unfold get_idx. rewrite E in *. split; [lia|done]. Qed.

(** A slice of the ring, its cells when the ring has any. *)
Lemma copy_out_cells b i n : n <= buf_capacity b - get_idx b i -> copy_out (storage b) (get_idx b i) n = Some (cells b i n).
Proof.
  intros H. destruct (decide (buf_capacity b = 0)) as [E|E].
  - assert (n = 0) as -> by (unfold get_idx in H; rewrite E in H; simpl in H; lia).
    assert (get_idx b i = 0) as -> by (unfold get_idx; by rewrite E). unfold copy_out. case_nat; [done|lia].
  - pose proof (get_idx_lt b i ltac:(lia)). rewrite copy_out_sl by (fold (buf_capacity b); lia). f_equal. apply slice_cells; lia.
Qed.

Lemma get_allocated_spec b off size :
  buf_ok b -> off <= buf_len b ->
  exists k, get_allocated b off size = Some (take k (drop off (contents b))) /\ k <= size /\ off + k <= buf_len b /\
    (0 < size -> off < buf_len b -> 0 < k).
Proof.
  intros K Ho. pose proof K as [L _]. unfold get_allocated. case_nat; [lia|].
  rewrite sub_checked_Some by apply get_idx_le. simpl. set (k := Nat.min _ _). exists k.
  rewrite copy_out_cells by (unfold k; lia). split_and!; [|unfold k; lia|unfold k; lia|].
  - f_equal. unfold contents. replace (buf_len b) with (off + (k + (buf_len b - off - k))) by (unfold k; lia).
    rewrite !cells_app. simpl. rewrite drop_app_length' by (by rewrite cells_length).
    by rewrite take_app_length' by (by rewrite cells_length).
  - intros Hs Hl. assert (0 < buf_capacity b) by lia. pose proof (get_idx_lt b off ltac:(lia)). unfold k. lia.
Qed.

Lemma advance_cell b n len j :
  0 < buf_capacity b -> cell (mkBuf (storage b) ((read_at b + n) mod buf_capacity b) len) j = cell b (n + j).
Proof.
  intros Hc. unfold cell, buf_capacity. simpl. fold (buf_capacity b). f_equal.
  by rewrite Nat.Div0.add_mod_idemp_l, Nat.add_assoc.
Qed.

(** [b'] is [b] without its first [n] bytes; what is written after the queue stays. *)
Record drops (b b' : SocketBuffer) (n : nat) : Prop := {
  dr_ok : buf_ok b';
  dr_capacity : buf_capacity b' = buf_capacity b;
  dr_fits : n <= buf_len b;
  dr_len : buf_len b' = buf_len b - n;
  dr_cell : forall j, j + n < buf_capacity b -> cell b' j = cell b (n + j);
}.

Lemma drops_contents b b' n : buf_ok b -> drops b b' n -> contents b = cells b 0 n ++ contents b'.
Proof.
  intros [L _] [K C F Ln Ce]. unfold contents. rewrite Ln. replace (buf_len b) with (n + (buf_len b - n)) at 1 by lia.
  rewrite cells_app. f_equal. apply cells_ext. intros k Hk. simpl. rewrite Ce by lia. f_equal; lia.
Qed.

Lemma drops_trans b1 b2 b3 n k : drops b1 b2 n -> drops b2 b3 k -> drops b1 b3 (n + k).
Proof.
  intros [K1 C1 F1 L1 E1] [K2 C2 F2 L2 E2]. constructor; [done|lia|lia|lia|].
  intros j Hj. rewrite E2, E1 by lia. f_equal. lia.
Qed.

Lemma advance_drops b n :
  buf_ok b -> n <= buf_len b ->
  drops b (mkBuf (storage b) (if 0 <? buf_capacity b then (read_at b + n) mod buf_capacity b else 0) (buf_len b - n)) n.
Proof.
  intros [L R] Hn. assert (forall r k, buf_capacity (mkBuf (storage b) r k) = buf_capacity b) as C by done.
  destruct (Nat.ltb_spec 0 (buf_capacity b)).
  - constructor; rewrite ?C; simpl; try done; [|intros; by apply advance_cell].
    constructor; rewrite C; simpl; [lia|right; apply Nat.mod_upper_bound; lia].
  - constructor; rewrite ?C; simpl; try done; [|lia]. constructor; rewrite ?C; simpl; [lia|by left].
Qed.

Lemma dequeue_allocated_spec b n : buf_ok b -> n <= buf_len b -> exists b', dequeue_allocated b n = Some b' /\ drops b b' n.
Proof.
  intros K Hn. unfold dequeue_allocated. case_nat; [lia|]. eexists. split; [done|]. by apply advance_drops.
Qed.

Lemma dequeue_many_spec b f :
  buf_ok b -> (forall l, f l <= length l) ->
  exists b' n, dequeue_many_with b f = Some (b', cells b 0 n) /\ drops b b' n /\
    n = f (cells b 0 (Nat.min (buf_len b) (buf_capacity b - read_at b))) /\ read_at b' = get_idx b n.
Proof.
  intros K Hf. pose proof K as [L R]. unfold dequeue_many_with.
  rewrite sub_checked_Some by (destruct R; lia). simpl.
  assert (get_idx b 0 = read_at b) as G.
  { unfold get_idx. case_nat; [|destruct R; lia]. rewrite Nat.add_0_r. apply Nat.mod_small. destruct R; lia. }
  set (m := Nat.min _ _). pose proof (copy_out_cells b 0 m ltac:(rewrite G; unfold m; lia)) as Co. rewrite G in Co. rewrite Co. simpl.
  pose proof (Hf (cells b 0 m)) as Hn. rewrite cells_length in Hn. set (n := f (cells b 0 m)) in *.
  destruct (Nat.ltb_spec m n); [lia|]. rewrite sub_checked_Some by (unfold m in *; lia). simpl.
  eexists _, n. split_and!; [|apply advance_drops; [done|unfold m in *; lia]|done|done].
  do 2 f_equal. unfold cells. by rewrite <- fmap_take, take_seq, Nat.min_l by lia.
Qed.

(** [recv_slice] takes the front of the queue. *)
Lemma dequeue_slice_spec b want :
  buf_ok b ->
  let n := Nat.min want (buf_len b) in
  exists b', dequeue_slice b want = Some (b', cells b 0 n) /\ drops b b' n.
Proof.
  intros K n. pose proof K as [L R]. unfold dequeue_slice.
  destruct (dequeue_many_spec b (fun l => Nat.min (length l) want)) as (b1 & n1 & -> & D1 & E1 & Q1); [done|lia|]. simpl.
  rewrite cells_length in E1 |- *.
  destruct (dequeue_many_spec b1 (fun l => Nat.min (length l) (want - n1))) as (b2 & n2 & -> & D2 & E2 & _); [apply D1|lia|].
  simpl. rewrite cells_length in E2. pose proof (drops_trans _ _ _ _ _ D1 D2) as D. destruct D1 as [K1 C1 F1 L1 G1].
  assert (n1 + n2 = n) as En.
  { unfold n. rewrite L1, C1, Q1 in E2. destruct (decide (n1 = Nat.min want (buf_len b))); [lia|].
    assert (n1 = buf_capacity b - read_at b) as W by lia.
    assert (get_idx b n1 = 0) as Z; [|lia]. rewrite get_idx_mod by lia. rewrite W.
    replace (read_at b + (buf_capacity b - read_at b)) with (buf_capacity b) by lia. apply Nat.Div0.mod_same. }
  rewrite <- En. exists b2. split; [|done]. do 2 f_equal. rewrite cells_app. f_equal. simpl. apply cells_ext.
  intros k Hk. simpl. destruct D2 as [_ _ F2 _ _]. rewrite G1 by lia. done.
Qed.

(** ** Writing after the queue *)

(** [b'] is [b] with [bs] written from cell [i] on. *)
Record writes (b b' : SocketBuffer) (i : nat) (bs : list Z) : Prop := {
  wr_ok : buf_ok b';
  wr_capacity : buf_capacity b' = buf_capacity b;
  wr_len : buf_len b' = buf_len b;
  wr_cell : forall j, j < buf_capacity b ->
    cell b' j = if (i <=? j) && (j <? i + length bs) then nth (j - i) bs 0%Z else cell b j;
}.

Lemma writes_nothing b i : buf_ok b -> writes b b i [].
Proof. intros K. constructor; try done. intros j Hj. simpl. case_nat; simpl; (done || lia). Qed.

Lemma writes_app b1 b2 b3 i bs cs : writes b1 b2 i bs -> writes b2 b3 (i + length bs) cs -> writes b1 b3 i (bs ++ cs).
Proof.
  intros [K1 C1 L1 E1] [K2 C2 L2 E2]. constructor; [done|lia|lia|]. intros j Hj. rewrite E2, E1 by lia. rewrite length_app.
  case_nat; simpl; try lia; try done.
  all: first [by rewrite app_nth1 by lia | rewrite app_nth2 by lia; f_equal; lia].
Qed.

Lemma splice_writes b i bs :
  buf_ok b -> length bs <= buf_capacity b - get_idx b i -> i + length bs <= buf_capacity b ->
  copy_in (storage b) (get_idx b i) bs = Some (spliced (storage b) (get_idx b i) bs) /\
  writes b (mkBuf (spliced (storage b) (get_idx b i) bs) (read_at b) (buf_len b)) i bs.
Proof.
  intros [L R] H1 H2. pose proof (get_idx_le b i). assert (get_idx b i + length bs <= length (storage b)) by (fold (buf_capacity b); lia).
  split; [by apply copy_in_spliced|].
  assert (forall r k, buf_capacity (mkBuf (spliced (storage b) (get_idx b i) bs) r k) = buf_capacity b) as C
    by (intros; by apply spliced_length).
  constructor; [constructor; rewrite C; simpl; done|by rewrite C|done|]. intros j Hj. apply splice_cells; (done || lia).
Qed.

Lemma write_chunk_spec b off data :
  buf_ok b -> buf_len b + off <= buf_capacity b ->
  let n := Nat.min (Nat.min (length data) (buf_capacity b - buf_len b - off)) (buf_capacity b - get_idx b (buf_len b + off)) in
  exists b', write_chunk b off data = Some (b', n) /\ writes b b' (buf_len b + off) (take n data) /\ read_at b' = read_at b.
Proof.
  intros K H n. unfold write_chunk, get_unallocated. rewrite buf_window_ok by done. simpl.
  destruct (Nat.ltb_spec (buf_capacity b - buf_len b) off); [lia|].
  rewrite sub_checked_Some by apply get_idx_le. simpl. fold n. rewrite copy_out_cells by (unfold n; lia). simpl.
  assert (length (take n data) = n) as Ln by (rewrite length_take; unfold n; lia).
  destruct (splice_writes b (buf_len b + off) (take n data)) as [-> W]; [done|rewrite Ln; unfold n; lia|rewrite Ln; unfold n; lia|].
  simpl. eexists. split_and!; done.
Qed.

(** Bytes that fit into the window are written whole. *)
Lemma write_unallocated_spec b off data :
  buf_ok b -> buf_len b + off + length data <= buf_capacity b ->
  exists b', write_unallocated b off data = Some (b', length data) /\ writes b b' (buf_len b + off) data.
Proof.
  intros K H. unfold write_unallocated. destruct (write_chunk_spec b off data K) as (b1 & -> & W1 & R1); [lia|].
  set (n1 := Nat.min _ _) in *. simpl. pose proof W1 as [K1 C1 L1 _].
  assert (length (take n1 data) = n1) as Ln by (rewrite length_take; unfold n1; lia).
  destruct (write_chunk_spec b1 (off + n1) (drop n1 data) K1) as (b2 & -> & W2 & _); [rewrite C1, L1; unfold n1; lia|].
  rewrite C1, L1, length_drop in *. simpl.
  match goal with |- exists b', Some (b2, n1 + ?k) = _ /\ _ => set (n2 := k) in * end.
  assert (n1 + n2 = length data) as En.
  { destruct (decide (n1 = length data)); [unfold n2; lia|].
    assert (n1 = buf_capacity b - get_idx b (buf_len b + off)) as W by (unfold n1 in *; lia).
    assert (get_idx b1 (buf_len b + (off + n1)) = 0) as Z; [|unfold n2; lia].
    pose proof (get_idx_lt b (buf_len b + off) ltac:(lia)) as G. rewrite get_idx_mod in W, G by lia.
    rewrite get_idx_mod by lia. rewrite R1, C1.
    replace (read_at b + (buf_len b + (off + n1))) with (read_at b + (buf_len b + off) + n1) by lia.
    rewrite <- Nat.Div0.add_mod_idemp_l. rewrite W.
    replace (_ + (_ - _)) with (buf_capacity b) by lia. apply Nat.Div0.mod_same. }
  rewrite En. exists b2. split; [done|]. rewrite <- (take_drop n1 data). eapply writes_app; [exact W1|].
  rewrite Ln, <- Nat.add_assoc. rewrite take_ge in W2 by (rewrite length_drop; lia). exact W2.
Qed.

Lemma enqueue_unallocated_spec b n :
  buf_ok b -> buf_len b + n <= buf_capacity b ->
  enqueue_unallocated b n = Some (mkBuf (storage b) (read_at b) (buf_len b + n)).
Proof. intros K H. unfold enqueue_unallocated. rewrite buf_window_ok by done. simpl. case_nat; [lia|done]. Qed.

Lemma enqueued_contents b n : contents (mkBuf (storage b) (read_at b) (buf_len b + n)) = contents b ++ cells b (buf_len b) n.
Proof. unfold contents. simpl. by rewrite <- (cells_app b 0). Qed.

(** ** Appending to the queue *)

(** The first step of [enqueue_many_with]. *)
Definition rewound (b : SocketBuffer) : SocketBuffer := if buf_len b =? 0 then mkBuf (storage b) 0 0 else b.

Lemma rewound_ok b :
  buf_ok b -> buf_ok (rewound b) /\ buf_capacity (rewound b) = buf_capacity b /\ buf_len (rewound b) = buf_len b /\
    contents (rewound b) = contents b.
Proof.
  intros K. unfold rewound. destruct (Nat.eqb_spec (buf_len b) 0) as [E|E]; [|done].
  split_and!; [|done|done|unfold contents; simpl; by rewrite E]. constructor; simpl; [lia|by left].
Qed.

(** [b'] is [b] with [bs] appended. *)
Record appends (b b' : SocketBuffer) (bs : list Z) : Prop := {
  ap_ok : buf_ok b';
  ap_capacity : buf_capacity b' = buf_capacity b;
  ap_len : buf_len b' = buf_len b + length bs;
  ap_contents : contents b' = contents b ++ bs;
}.

Lemma appends_app b1 b2 b3 bs cs : appends b1 b2 bs -> appends b2 b3 cs -> appends b1 b3 (bs ++ cs).
Proof.
  intros [K1 C1 L1 E1] [K2 C2 L2 E2]. constructor; [done|lia|rewrite length_app; lia|]. by rewrite E2, E1, app_assoc.
Qed.

Lemma written_contents b b' i bs cs :
  writes b b' (buf_len b) (bs ++ cs) -> buf_len b + length (bs ++ cs) <= buf_capacity b ->
  i = buf_len b + length bs ->
  appends b (mkBuf (storage b') (read_at b') i) bs.
Proof.
  intros [K C L E] H ->. rewrite length_app in H.
  assert (forall r k, buf_capacity (mkBuf (storage b') r k) = buf_capacity b') as C' by done.
  constructor; [constructor; rewrite C'; simpl; [lia|apply K]|by rewrite C'|done|].
  unfold contents. simpl. change (cells (mkBuf (storage b') (read_at b') (buf_len b + length bs))) with (cells b').
  rewrite cells_app. simpl. f_equal.
  - apply cells_ext. intros k Hk. simpl. rewrite E by lia. case_nat; simpl; (done || lia).
  - apply list_eq. intros k. destruct (decide (k < length bs)) as [Hk|Hk].
    + rewrite cells_lookup by done. rewrite E by lia. rewrite length_app. case_nat; simpl; try lia.
      replace (buf_len b + k - buf_len b) with k by lia. rewrite app_nth1 by done.
      destruct (lookup_lt_is_Some_2 bs k Hk) as [x Ex]. by rewrite Ex, (nth_lookup_eq _ _ _ Ex).
    + rewrite !lookup_ge_None_2 by (rewrite ?cells_length; lia). done.
Qed.

Lemma enqueue_fill_spec b data :
  buf_ok b ->
  let b0 := rewound b in
  let n := Nat.min (Nat.min (buf_capacity b - buf_len b) (buf_capacity b - get_idx b0 (buf_len b))) (length data) in
  exists b', enqueue_many_with b (fill data) = Some (b', n) /\ appends b b' (take n data) /\ read_at b' = read_at b0.
Proof.
  intros K b0 n. pose proof (bo_len _ K) as Lc. destruct (rewound_ok b K) as (K0 & C0 & L0 & E0). unfold enqueue_many_with. fold (rewound b). fold b0 in K0, C0, L0, E0 |- *.
  unfold contiguous_window. rewrite buf_window_ok by done. simpl. rewrite sub_checked_Some by apply get_idx_le. simpl.
  rewrite C0, L0. set (m := Nat.min (buf_capacity b - buf_len b) (buf_capacity b - get_idx b0 (buf_len b))) in *.
  rewrite copy_out_cells by (rewrite C0; unfold m; lia). simpl. unfold fill. rewrite cells_length. fold n.
  set (bs := take n data ++ drop n (cells b0 (buf_len b) m)).
  assert (length (take n data) = n) as Ln by (rewrite length_take; lia).
  assert (length bs = m) as Lb by (unfold bs; rewrite length_app, Ln, length_drop, cells_length; lia).
  destruct (splice_writes b0 (buf_len b) bs) as [-> W]; [done|rewrite Lb, C0; unfold m; lia|rewrite Lb, C0; unfold m; lia|].
  simpl. case_nat; [lia|]. eexists. split_and!; [done| |done].
  rewrite <- L0 in W. apply (written_contents _ _ (buf_len b0 + n)) in W as [A1 A2 A3 A4]; simpl in *.
  - rewrite L0 in A1, A2, A3, A4. constructor; [done|congruence|simpl; lia|congruence].
  - fold bs. rewrite Lb, L0, C0. unfold m. lia.
  - by rewrite Ln.
Qed.

(** [send_slice] appends what fits. *)
Lemma enqueue_slice_spec b data :
  buf_ok b ->
  let n := Nat.min (buf_capacity b - buf_len b) (length data) in
  exists b', enqueue_slice b data = Some (b', n) /\ appends b b' (take n data).
Proof.
  intros K n. unfold enqueue_slice. destruct (enqueue_fill_spec b data K) as (b1 & -> & A1 & R1).
  match type of A1 with appends _ _ (take ?k _) => set (n1 := k) in * end. simpl. pose proof A1 as [K1 C1 L1 _].
  assert (length (take n1 data) = n1) as Ln by (rewrite length_take; unfold n1; lia). rewrite Ln in L1.
  destruct (enqueue_fill_spec b1 (drop n1 data) K1) as (b2 & -> & A2 & _). rewrite C1, L1, length_drop in *.
  match type of A2 with appends _ _ (take ?k _) => set (n2 := k) in * end. simpl.
  assert (n1 + n2 = n) as En.
  { assert (n1 <= length data) by (unfold n1; lia). assert (n1 <= buf_capacity b - buf_len b) by (unfold n1; lia). unfold n.
    destruct (decide (n1 = length data)); [unfold n2; lia|]. destruct (decide (n1 = buf_capacity b - buf_len b)); [unfold n2; lia|].
    destruct (rewound_ok b K) as (K0 & C0 & L0 & _). pose proof (get_idx_lt (rewound b) (buf_len b) ltac:(rewrite C0; lia)) as G.
    assert (n1 = buf_capacity b - get_idx (rewound b) (buf_len b)) as W by (unfold n1 in *; lia).
    assert (get_idx (rewound b1) (buf_len b + n1) = 0) as Z; [|unfold n2; lia].
    assert (rewound b1 = b1) as -> by (unfold rewound; case_nat; [lia|done]).
    rewrite get_idx_mod in W, G by lia. rewrite get_idx_mod by lia. rewrite R1, C1. rewrite C0 in *.
    rewrite Nat.add_assoc, <- Nat.Div0.add_mod_idemp_l. rewrite W.
    replace (_ + (_ - _)) with (buf_capacity b) by lia. apply Nat.Div0.mod_same. }
  rewrite En. exists b2. split; [done|]. replace (take n data) with (take n1 data ++ take n2 (drop n1 data)); [by eapply appends_app|].
  rewrite <- En. by rewrite take_take_drop.
Qed.
