(* ===== verification/TcpSeq.v ===== *)
(** TCP sequence numbers (dependency/smoltcp/src/wire/tcp.rs, [SeqNumber]).

    A sequence number is an [i32] that wraps; an operator that would panic is [None].
    [seq_of base p] is the number of position [p] of a stream that starts after [base]:
    operations on numbers are those on positions while these are less than 2^31 apart. *)

From stdpp Require Import base numbers option list.
From S2P Require Import Prelude.

Definition i32_max : Z := 2 ^ 31 - 1.

Definition wrap_i32 (x : Z) : Z := (x + 2 ^ 31) mod 2 ^ 32 - 2 ^ 31.

Definition seq_add (a n : Z) : option Z := if i32_max <? n then None else Some (wrap_i32 (a + n)).
Definition seq_sub (a n : Z) : option Z := if i32_max <? n then None else Some (wrap_i32 (a - n)).
Definition seq_diff (a b : Z) : option Z := let r := wrap_i32 (a - b) in if r <? 0 then None else Some r.

(** [partial_cmp] compares the wrapped difference with 0. *)
Definition seq_lt (a b : Z) : bool := wrap_i32 (a - b) <? 0.
Definition seq_le (a b : Z) : bool := wrap_i32 (a - b) <=? 0.
Definition seq_gt (a b : Z) : bool := 0 <? wrap_i32 (a - b).
Definition seq_ge (a b : Z) : bool := 0 <=? wrap_i32 (a - b).

Definition seq_max (a b : Z) : Z := if seq_gt a b then a else b.
Definition seq_min (a b : Z) : Z := if seq_lt a b then a else b.

(** ** Positions *)

Definition seq_of (start p : Z) : Z := wrap_i32 (start + p).

Definition near (p q : Z) : Prop := - 2 ^ 31 < p - q < 2 ^ 31.

Lemma wrap_i32_small x : - 2 ^ 31 <= x < 2 ^ 31 -> wrap_i32 x = x.
Proof. unfold wrap_i32. intros H. rewrite Z.mod_small by lia. lia. Qed.

Lemma wrap_i32_mod x y : x mod 2 ^ 32 = y mod 2 ^ 32 -> wrap_i32 x = wrap_i32 y.
Proof. intros H. unfold wrap_i32. rewrite <- (Zplus_mod_idemp_l x), <- (Zplus_mod_idemp_l y), H. done. Qed.

Lemma wrap_i32_eqm x : wrap_i32 x mod 2 ^ 32 = x mod 2 ^ 32.
Proof.
  unfold wrap_i32. rewrite Zminus_mod_idemp_l. f_equal. lia.
Qed.

Lemma wrap_i32_range x : - 2 ^ 31 <= wrap_i32 x < 2 ^ 31.
Proof. unfold wrap_i32. pose proof (Z.mod_pos_bound (x + 2 ^ 31) (2 ^ 32) ltac:(lia)). lia. Qed.

Lemma wrap_i32_idemp x y : wrap_i32 (wrap_i32 x + y) = wrap_i32 (x + y).
Proof. apply wrap_i32_mod. rewrite <- Zplus_mod_idemp_l, wrap_i32_eqm. by rewrite Zplus_mod_idemp_l. Qed.

Lemma wrap_i32_diff x y : wrap_i32 (wrap_i32 x - wrap_i32 y) = wrap_i32 (x - y).
Proof. apply wrap_i32_mod. rewrite Zminus_mod, !wrap_i32_eqm. by rewrite <- Zminus_mod. Qed.

Section positions.
Context (start : Z).

Lemma seq_of_wrap p : wrap_i32 (seq_of start p) = seq_of start p.
Proof. apply wrap_i32_small. apply wrap_i32_range. Qed.

Lemma seq_of_add p n : n <= i32_max -> seq_add (seq_of start p) n = Some (seq_of start (p + n)).
Proof.
  intros H. unfold seq_add, seq_of. case_cmp; [lia|]. rewrite wrap_i32_idemp. do 2 f_equal. lia.
Qed.

Lemma seq_of_sub p n : n <= i32_max -> seq_sub (seq_of start p) n = Some (seq_of start (p - n)).
Proof.
  intros H. unfold seq_sub, seq_of. case_cmp; [lia|]. rewrite <- Z.add_opp_r, wrap_i32_idemp. do 2 f_equal. lia.
Qed.

Lemma seq_of_delta p q : near p q -> wrap_i32 (seq_of start p - seq_of start q) = p - q.
Proof.
  intros H. unfold seq_of. rewrite wrap_i32_diff. rewrite wrap_i32_small; unfold near in H; lia.
Qed.

Lemma seq_of_diff p q : near p q -> q <= p -> seq_diff (seq_of start p) (seq_of start q) = Some (p - q).
Proof. intros H L. unfold seq_diff. rewrite seq_of_delta by done. case_cmp; [lia|done]. Qed.

Lemma seq_of_lt p q : near p q -> seq_lt (seq_of start p) (seq_of start q) = (p <? q).
Proof. intros H. unfold seq_lt. rewrite seq_of_delta by done. case_cmp; (done || lia). Qed.
Lemma seq_of_le p q : near p q -> seq_le (seq_of start p) (seq_of start q) = (p <=? q).
Proof. intros H. unfold seq_le. rewrite seq_of_delta by done. case_cmp; (done || lia). Qed.
Lemma seq_of_gt p q : near p q -> seq_gt (seq_of start p) (seq_of start q) = (q <? p).
Proof. intros H. unfold seq_gt. rewrite seq_of_delta by done. case_cmp; (done || lia). Qed.
Lemma seq_of_ge p q : near p q -> seq_ge (seq_of start p) (seq_of start q) = (q <=? p).
Proof. intros H. unfold seq_ge. rewrite seq_of_delta by done. case_cmp; (done || lia). Qed.

Lemma seq_of_eqb p q : near p q -> (seq_of start p =? seq_of start q) = (p =? q).
Proof.
  intros H. destruct (Z.eqb_spec p q) as [->|N]; [by apply Z.eqb_refl|]. apply Z.eqb_neq. intros E.
  pose proof (seq_of_delta p q H) as D. rewrite E, Z.sub_diag in D. rewrite wrap_i32_small in D; lia.
Qed.

Lemma seq_of_max p q : near p q -> seq_max (seq_of start p) (seq_of start q) = seq_of start (Z.max p q).
Proof. intros H. unfold seq_max. rewrite seq_of_gt by done. case_cmp; f_equal; lia. Qed.
Lemma seq_of_min p q : near p q -> seq_min (seq_of start p) (seq_of start q) = seq_of start (Z.min p q).
Proof. intros H. unfold seq_min. rewrite seq_of_lt by done. case_cmp; f_equal; lia. Qed.
End positions.


(** Timers and the round-trip estimator of a TCP socket (dependency/smoltcp/src/socket/tcp.rs).

    Instants and durations are microseconds.  The estimator computes in [u32], which
    wraps. *)

(** ** Round-trip times *)

Definition RTTE_INITIAL_RTT : Z := 300.
Definition RTTE_INITIAL_DEV : Z := 100.
Definition RTTE_MIN_MARGIN : Z := 5.
Definition RTTE_MIN_RTO : Z := 10.
Definition RTTE_MAX_RTO : Z := 10000.

Record RttEstimator := mkRtt {
  rtt : Z;
  deviation : Z;
  timestamp : option (Z * Z);
  max_seq_sent : option Z;
  rto_count : Z;
}.

Definition rtte_default : RttEstimator := mkRtt RTTE_INITIAL_RTT RTTE_INITIAL_DEV None None 0.

Definition clamp (x lo hi : Z) : Z := if x <? lo then lo else if hi <? x then hi else x.
Definition millis (ms : Z) : Z := ms * 1000.

Definition retransmission_timeout (r : RttEstimator) : Z :=
  let margin := Z.max RTTE_MIN_MARGIN (wrap32 (deviation r * 4)) in
  millis (clamp (wrap32 (rtt r + margin)) RTTE_MIN_RTO RTTE_MAX_RTO).

Definition sample (r : RttEstimator) (new_rtt : Z) : RttEstimator :=
  let rtt := wrap32 (wrap32 (wrap32 (rtt r * 7) + new_rtt) + 7) / 8 in
  let diff := Z.abs (wrap_i32 (wrap_i32 rtt - wrap_i32 new_rtt)) in
  let dev := wrap32 (wrap32 (wrap32 (deviation r * 3) + diff) + 3) / 4 in
  mkRtt rtt dev (timestamp r) (max_seq_sent r) 0.

Definition on_send (r : RttEstimator) (now seq : Z) : RttEstimator :=
  if match max_seq_sent r with Some m => seq_gt seq m | None => true end then
    mkRtt (rtt r) (deviation r) (match timestamp r with None => Some (now, seq) | t => t end) (Some seq) (rto_count r)
  else r.

Definition on_ack (r : RttEstimator) (now seq : Z) : RttEstimator :=
  match timestamp r with
  | Some (sent_timestamp, sent_seq) =>
      if seq_ge seq sent_seq then
        let r := sample r (wrap32 (Z.abs (now - sent_timestamp) / 1000)) in
        mkRtt (rtt r) (deviation r) None (max_seq_sent r) (rto_count r)
      else r
  | None => r
  end.

Definition on_retransmit (r : RttEstimator) : RttEstimator :=
  let n := Z.min (rto_count r + 1) 255 in
  if 3 <=? n then mkRtt (Z.min RTTE_MAX_RTO (wrap32 (rtt r * 2))) (deviation r) None (max_seq_sent r) 0
  else mkRtt (rtt r) (deviation r) None (max_seq_sent r) n.

(** ** Timers *)

Inductive Timer :=
| TIdle (keep_alive_at : option Z)
| TRetransmit (expires_at delay : Z)
| TFastRetransmit
| TClose (expires_at : Z).

Definition ACK_DELAY_DEFAULT : Z := millis 10.
Definition CLOSE_DELAY : Z := millis 10000.

Definition timer_new : Timer := TIdle None.

Definition should_keep_alive (t : Timer) (now : Z) : bool :=
  match t with TIdle (Some at_) => at_ <=? now | _ => false end.

Definition should_retransmit (t : Timer) (now : Z) : option Z :=
  match t with
  | TRetransmit expires_at delay => if expires_at <=? now then Some (Z.abs (now - expires_at) + delay) else None
  | TFastRetransmit => Some 0
  | _ => None
  end.

Definition should_close (t : Timer) (now : Z) : bool :=
  match t with TClose expires_at => expires_at <=? now | _ => false end.

Definition set_for_idle (now : Z) (interval : option Z) : Timer := TIdle (Z.add now <$> interval).

Definition set_keep_alive_timer (t : Timer) : Timer :=
  match t with TIdle None => TIdle (Some 0) | t => t end.

Definition rewind_keep_alive (t : Timer) (now : Z) (interval : option Z) : Timer :=
  match t with TIdle _ => TIdle (Z.add now <$> interval) | t => t end.

Definition set_for_retransmit (t : Timer) (now delay : Z) : Timer :=
  match t with
  | TIdle _ | TFastRetransmit => TRetransmit (now + delay) delay
  | TRetransmit expires_at delay => if expires_at <=? now then TRetransmit (now + delay) (delay * 2) else t
  | TClose _ => t
  end.

Definition set_for_close (now : Z) : Timer := TClose (now + CLOSE_DELAY).

Definition is_retransmit (t : Timer) : bool :=
  match t with TRetransmit _ _ | TFastRetransmit => true | _ => false end.

Inductive AckDelayTimer := AIdle | AWaiting (t : Z) | AImmediate.

(** When a socket wants to be polled. *)
Inductive PollAt := PNow | PTime (t : Z) | PIngress.

Definition timer_poll_at (t : Timer) : PollAt :=
  match t with
  | TIdle (Some at_) => PTime at_
  | TIdle None => PIngress
  | TRetransmit expires_at _ => PTime expires_at
  | TFastRetransmit => PNow
  | TClose expires_at => PTime expires_at
  end.
