(* ===== verification/TcpSocket.v ===== *)
(** A TCP socket and its interface to programs (dependency/smoltcp/src/socket/tcp.rs):
    its fields, opening, closing, sending, receiving.

    [None] is a panic.  The fields are grouped by what they serve; wakers are left out. *)

From stdpp Require Import base numbers option list.
From S2P Require Import Prelude Slice Assembler SockBuf TcpSeq.

(** ** Segments *)

Inductive TcpControl := CNone | CPsh | CSyn | CFin | CRst.

#[export] Instance TcpControl_eq_dec : EqDecision TcpControl.
Proof. solve_decision. Defined.

Definition control_len (c : TcpControl) : Z := match c with CSyn | CFin => 1 | _ => 0 end.
Definition quash_psh (c : TcpControl) : TcpControl := match c with CPsh => CNone | c => c end.

(** [TcpRepr]; the three [sack_ranges] as a list. *)
Record TcpRepr := mkRepr {
  src_port : Z;
  dst_port : Z;
  control : TcpControl;
  seq_number : Z;
  ack_number : option Z;
  window_len : Z;
  window_scale : option Z;
  max_seg_size : option Z;
  sack_permitted : bool;
  sack_ranges : list (option (Z * Z));
  payload : list Z;
}.

Definition no_sack : list (option (Z * Z)) := [None; None; None].

Definition payload_len (r : TcpRepr) : Z := Z.of_nat (length (payload r)).
Definition segment_len (r : TcpRepr) : Z := payload_len r + control_len (control r).
Definition repr_is_empty (r : TcpRepr) : bool :=
  if negb (payload_len r =? 0) then false else match control r with CSyn | CFin | CRst => false | CNone | CPsh => true end.

Record IpAddress := mkAddr { is_v6 : bool; addr_bits : Z }.

#[export] Instance IpAddress_eq_dec : EqDecision IpAddress.
Proof. solve_decision. Defined.

Definition is_unspecified (a : IpAddress) : bool := addr_bits a =? 0.

Record IpEndpoint := mkEndpoint { ep_addr : IpAddress; ep_port : Z }.
Record IpListenEndpoint := mkListen { listen_addr : option IpAddress; listen_port : Z }.
Record Tuple := mkTuple { local : IpEndpoint; remote : IpEndpoint }.

(** The part of [IpRepr] the socket looks at. *)
Record IpRepr := mkIp { src_addr : IpAddress; dst_addr : IpAddress }.
Definition Packet : Type := IpRepr * TcpRepr.

Definition TCP_HEADER_LEN : Z := 20.
Definition ip_header_len (a : IpAddress) : Z := if is_v6 a then 40 else 20.

(** [Context]: the time, a random number, the MTU, the choice of a source address. *)
Record Context := mkCx {
  now : Z;
  rand_u32 : Z;
  ip_mtu : Z;
  get_source_address : IpAddress -> option IpAddress;
}.

(** ** The socket *)

Inductive State :=
| Closed | Listen | SynSent | SynReceived | Established | FinWait1 | FinWait2 | CloseWait | Closing | LastAck | TimeWait.

#[export] Instance State_eq_dec : EqDecision State.
Proof. solve_decision. Defined.

Record Rx := mkRx {
  assembler : Assembler;
  rx_buffer : SocketBuffer;
  rx_fin_received : bool;
  remote_seq_no : Z;
  local_rx_last_seq : option Z;
}.

Record Tx := mkTx {
  tx_buffer : SocketBuffer;
  local_seq_no : Z;
  remote_last_seq : Z;
  remote_win_len : Z;
  remote_win_scale : option Z;
  remote_mss : Z;
  local_rx_last_ack : option Z;
  local_rx_dup_acks : Z;
}.

Record Acks := mkAcks {
  remote_last_ack : option Z;
  remote_last_win : Z;
  remote_win_shift : Z;
  remote_has_sack : bool;
  ack_delay : option Z;
  ack_delay_timer : AckDelayTimer;
  challenge_ack_timer : Z;
}.

Record Options := mkOptions {
  timeout : option Z;
  keep_alive : option Z;
  hop_limit : option Z;
  nagle : bool;
}.

Record Socket := mkSocket {
  state : State;
  listen_endpoint : IpListenEndpoint;
  tuple : option Tuple;
  rx : Rx;
  tx : Tx;
  acks : Acks;
  timer : Timer;
  rtte : RttEstimator;
  remote_last_ts : option Z;
  opts : Options;
}.

(** Assignment to a field. *)
Definition set_state (s : Socket) (v : State) : Socket :=
  mkSocket v (listen_endpoint s) (tuple s) (rx s) (tx s) (acks s) (timer s) (rtte s) (remote_last_ts s) (opts s).
Definition set_listen_endpoint (s : Socket) (v : IpListenEndpoint) : Socket :=
  mkSocket (state s) v (tuple s) (rx s) (tx s) (acks s) (timer s) (rtte s) (remote_last_ts s) (opts s).
Definition set_tuple (s : Socket) (v : option Tuple) : Socket :=
  mkSocket (state s) (listen_endpoint s) v (rx s) (tx s) (acks s) (timer s) (rtte s) (remote_last_ts s) (opts s).
Definition set_rx (s : Socket) (v : Rx) : Socket :=
  mkSocket (state s) (listen_endpoint s) (tuple s) v (tx s) (acks s) (timer s) (rtte s) (remote_last_ts s) (opts s).
Definition set_tx (s : Socket) (v : Tx) : Socket :=
  mkSocket (state s) (listen_endpoint s) (tuple s) (rx s) v (acks s) (timer s) (rtte s) (remote_last_ts s) (opts s).
Definition set_acks (s : Socket) (v : Acks) : Socket :=
  mkSocket (state s) (listen_endpoint s) (tuple s) (rx s) (tx s) v (timer s) (rtte s) (remote_last_ts s) (opts s).
Definition set_timer (s : Socket) (v : Timer) : Socket :=
  mkSocket (state s) (listen_endpoint s) (tuple s) (rx s) (tx s) (acks s) v (rtte s) (remote_last_ts s) (opts s).
Definition set_rtte (s : Socket) (v : RttEstimator) : Socket :=
  mkSocket (state s) (listen_endpoint s) (tuple s) (rx s) (tx s) (acks s) (timer s) v (remote_last_ts s) (opts s).
Definition set_remote_last_ts (s : Socket) (v : option Z) : Socket :=
  mkSocket (state s) (listen_endpoint s) (tuple s) (rx s) (tx s) (acks s) (timer s) (rtte s) v (opts s).
Definition set_opts (s : Socket) (v : Options) : Socket :=
  mkSocket (state s) (listen_endpoint s) (tuple s) (rx s) (tx s) (acks s) (timer s) (rtte s) (remote_last_ts s) v.
Definition set_assembler (s : Socket) (v : Assembler) : Socket :=
  set_rx s (let r := rx s in mkRx v (rx_buffer r) (rx_fin_received r) (remote_seq_no r) (local_rx_last_seq r)).
Definition set_rx_buffer (s : Socket) (v : SocketBuffer) : Socket :=
  set_rx s (let r := rx s in mkRx (assembler r) v (rx_fin_received r) (remote_seq_no r) (local_rx_last_seq r)).
Definition set_rx_fin_received (s : Socket) (v : bool) : Socket :=
  set_rx s (let r := rx s in mkRx (assembler r) (rx_buffer r) v (remote_seq_no r) (local_rx_last_seq r)).
Definition set_remote_seq_no (s : Socket) (v : Z) : Socket :=
  set_rx s (let r := rx s in mkRx (assembler r) (rx_buffer r) (rx_fin_received r) v (local_rx_last_seq r)).
Definition set_local_rx_last_seq (s : Socket) (v : option Z) : Socket :=
  set_rx s (let r := rx s in mkRx (assembler r) (rx_buffer r) (rx_fin_received r) (remote_seq_no r) v).
Definition set_tx_buffer (s : Socket) (v : SocketBuffer) : Socket :=
  set_tx s (let r := tx s in mkTx v (local_seq_no r) (remote_last_seq r) (remote_win_len r) (remote_win_scale r) (remote_mss r) (local_rx_last_ack r) (local_rx_dup_acks r)).
Definition set_local_seq_no (s : Socket) (v : Z) : Socket :=
  set_tx s (let r := tx s in mkTx (tx_buffer r) v (remote_last_seq r) (remote_win_len r) (remote_win_scale r) (remote_mss r) (local_rx_last_ack r) (local_rx_dup_acks r)).
Definition set_remote_last_seq (s : Socket) (v : Z) : Socket :=
  set_tx s (let r := tx s in mkTx (tx_buffer r) (local_seq_no r) v (remote_win_len r) (remote_win_scale r) (remote_mss r) (local_rx_last_ack r) (local_rx_dup_acks r)).
Definition set_remote_win_len (s : Socket) (v : Z) : Socket :=
  set_tx s (let r := tx s in mkTx (tx_buffer r) (local_seq_no r) (remote_last_seq r) v (remote_win_scale r) (remote_mss r) (local_rx_last_ack r) (local_rx_dup_acks r)).
Definition set_remote_win_scale (s : Socket) (v : option Z) : Socket :=
  set_tx s (let r := tx s in mkTx (tx_buffer r) (local_seq_no r) (remote_last_seq r) (remote_win_len r) v (remote_mss r) (local_rx_last_ack r) (local_rx_dup_acks r)).
Definition set_remote_mss (s : Socket) (v : Z) : Socket :=
  set_tx s (let r := tx s in mkTx (tx_buffer r) (local_seq_no r) (remote_last_seq r) (remote_win_len r) (remote_win_scale r) v (local_rx_last_ack r) (local_rx_dup_acks r)).
Definition set_local_rx_last_ack (s : Socket) (v : option Z) : Socket :=
  set_tx s (let r := tx s in mkTx (tx_buffer r) (local_seq_no r) (remote_last_seq r) (remote_win_len r) (remote_win_scale r) (remote_mss r) v (local_rx_dup_acks r)).
Definition set_local_rx_dup_acks (s : Socket) (v : Z) : Socket :=
  set_tx s (let r := tx s in mkTx (tx_buffer r) (local_seq_no r) (remote_last_seq r) (remote_win_len r) (remote_win_scale r) (remote_mss r) (local_rx_last_ack r) v).
Definition set_remote_last_ack (s : Socket) (v : option Z) : Socket :=
  set_acks s (let r := acks s in mkAcks v (remote_last_win r) (remote_win_shift r) (remote_has_sack r) (ack_delay r) (ack_delay_timer r) (challenge_ack_timer r)).
Definition set_remote_last_win (s : Socket) (v : Z) : Socket :=
  set_acks s (let r := acks s in mkAcks (remote_last_ack r) v (remote_win_shift r) (remote_has_sack r) (ack_delay r) (ack_delay_timer r) (challenge_ack_timer r)).
Definition set_remote_win_shift (s : Socket) (v : Z) : Socket :=
  set_acks s (let r := acks s in mkAcks (remote_last_ack r) (remote_last_win r) v (remote_has_sack r) (ack_delay r) (ack_delay_timer r) (challenge_ack_timer r)).
Definition set_remote_has_sack (s : Socket) (v : bool) : Socket :=
  set_acks s (let r := acks s in mkAcks (remote_last_ack r) (remote_last_win r) (remote_win_shift r) v (ack_delay r) (ack_delay_timer r) (challenge_ack_timer r)).
Definition set_ack_delay (s : Socket) (v : option Z) : Socket :=
  set_acks s (let r := acks s in mkAcks (remote_last_ack r) (remote_last_win r) (remote_win_shift r) (remote_has_sack r) v (ack_delay_timer r) (challenge_ack_timer r)).
Definition set_ack_delay_timer (s : Socket) (v : AckDelayTimer) : Socket :=
  set_acks s (let r := acks s in mkAcks (remote_last_ack r) (remote_last_win r) (remote_win_shift r) (remote_has_sack r) (ack_delay r) v (challenge_ack_timer r)).
Definition set_challenge_ack_timer (s : Socket) (v : Z) : Socket :=
  set_acks s (let r := acks s in mkAcks (remote_last_ack r) (remote_last_win r) (remote_win_shift r) (remote_has_sack r) (ack_delay r) (ack_delay_timer r) v).

Definition is_state (s : Socket) (x : State) : bool := bool_decide (state s = x).

Definition rx_len (s : Socket) : Z := Z.of_nat (buf_len (rx_buffer (rx s))).
Definition tx_len (s : Socket) : Z := Z.of_nat (buf_len (tx_buffer (tx s))).

Definition DEFAULT_MSS : Z := 536.
Definition default_listen : IpListenEndpoint := mkListen None 0.

(** [rx_cap_log2.saturating_sub(16)], where [rx_cap_log2] is the number of bits of the
    capacity. *)
Definition win_shift (capacity : nat) : Z :=
  let bits := if (capacity =? 0)%nat then 0 else Z.log2 (Z.of_nat capacity) + 1 in
  saturating_sub bits 16.

Definition socket_new (asm_size : nat) (rx_storage tx_storage : list Z) : option Socket :=
  if 2 ^ 30 <? Z.of_nat (length rx_storage) then None
  else Some (mkSocket Closed default_listen None
    (mkRx (assembler_new asm_size) (buf_new rx_storage) false 0 None)
    (mkTx (buf_new tx_storage) 0 0 0 None DEFAULT_MSS None 0)
    (mkAcks None 0 (win_shift (length rx_storage)) false (Some ACK_DELAY_DEFAULT) AIdle 0)
    timer_new rtte_default None (mkOptions None None None true)).

Definition reset (s : Socket) : Socket :=
  let r := rx s in let t := tx s in let a := acks s in
  mkSocket Closed default_listen None
    (mkRx (assembler_new (length (assembler r))) (buf_clear (rx_buffer r)) false 0 (local_rx_last_seq r))
    (mkTx (buf_clear (tx_buffer t)) 0 0 0 None DEFAULT_MSS (local_rx_last_ack t) (local_rx_dup_acks t))
    (mkAcks None 0 (win_shift (buf_capacity (rx_buffer r))) (remote_has_sack a) (ack_delay a) AIdle 0)
    timer_new rtte_default None (opts s).

(** ** Interface *)

Definition is_open (s : Socket) : bool := match state s with Closed | TimeWait => false | _ => true end.
Definition may_send (s : Socket) : bool := match state s with Established | CloseWait => true | _ => false end.
Definition may_recv (s : Socket) : bool :=
  match state s with
  | Established | FinWait1 | FinWait2 => true
  | _ => negb (buf_is_empty (rx_buffer (rx s)))
  end.

Inductive TcpError := InvalidState | Unaddressable | Finished.

Definition listen (s : Socket) (e : IpListenEndpoint) : Socket * result unit TcpError :=
  if listen_port e =? 0 then (s, Err Unaddressable)
  else if is_open s then (s, Err InvalidState)
  else (set_state (set_tuple (set_listen_endpoint (reset s) e) None) Listen, Ok tt).

(** [rand_u32() as i32]. *)
Definition random_seq_no (cx : Context) : Z := wrap_i32 (rand_u32 cx).

Definition connect (cx : Context) (s : Socket) (r : IpEndpoint) (l : IpListenEndpoint) : Socket * result unit TcpError :=
  if is_open s then (s, Err InvalidState)
  else if (ep_port r =? 0) || is_unspecified (ep_addr r) then (s, Err Unaddressable)
  else if listen_port l =? 0 then (s, Err Unaddressable)
  else
    let a := match listen_addr l with
             | Some a => if is_unspecified a then None else Some a
             | None => get_source_address cx (ep_addr r)
             end in
    match a with
    | None => (s, Err Unaddressable)
    | Some a =>
        if negb (eqb (is_v6 a) (is_v6 (ep_addr r))) then (s, Err Unaddressable)
        else
          let s := set_tuple (reset s) (Some (mkTuple (mkEndpoint a (listen_port l)) r)) in
          let s := set_state s SynSent in
          let seq := random_seq_no cx in
          (set_remote_last_seq (set_local_seq_no s seq) seq, Ok tt)
    end.

Definition close (s : Socket) : Socket :=
  match state s with
  | Listen | SynSent => set_state s Closed
  | SynReceived | Established => set_state s FinWait1
  | CloseWait => set_state s LastAck
  | _ => s
  end.

Definition abort (s : Socket) : Socket := set_state s Closed.

Definition set_keep_alive (s : Socket) (interval : option Z) : Socket :=
  let o := opts s in
  let s := set_opts s (mkOptions (timeout o) interval (hop_limit o) (nagle o)) in
  match interval with Some _ => set_timer s (set_keep_alive_timer (timer s)) | None => s end.

Definition set_timeout (s : Socket) (d : option Z) : Socket :=
  let o := opts s in set_opts s (mkOptions d (keep_alive o) (hop_limit o) (nagle o)).
Definition set_nagle_enabled (s : Socket) (b : bool) : Socket :=
  let o := opts s in set_opts s (mkOptions (timeout o) (keep_alive o) (hop_limit o) b).

(** [send_impl]; [f] works on the transmit buffer. *)
Definition send_impl {R} (s : Socket) (f : SocketBuffer -> option (SocketBuffer * R)) : option (Socket * result R TcpError) :=
  if negb (may_send s) then Some (s, Err InvalidState)
  else
    let s := if buf_is_empty (tx_buffer (tx s)) then set_remote_last_ts s None else s in
    '(b, r) ← f (tx_buffer (tx s));
    Some (set_tx_buffer s b, Ok r).

Definition send_slice (s : Socket) (data : list Z) : option (Socket * result nat TcpError) :=
  send_impl s (fun b => enqueue_slice b data).

Definition recv_error_check (s : Socket) : option TcpError :=
  if may_recv s then None else if rx_fin_received (rx s) then Some Finished else Some InvalidState.

(** [recv_impl]; [f] works on the receive buffer and returns the bytes it took. *)
Definition recv_impl (s : Socket) (f : SocketBuffer -> option (SocketBuffer * list Z))
    : option (Socket * result (list Z) TcpError) :=
  match recv_error_check s with
  | Some e => Some (s, Err e)
  | None =>
      '(b, bytes) ← f (rx_buffer (rx s));
      n ← seq_add (remote_seq_no (rx s)) (Z.of_nat (length bytes));
      Some (set_remote_seq_no (set_rx_buffer s b) n, Ok bytes)
  end.

Definition recv_slice (s : Socket) (want : nat) : option (Socket * result (list Z) TcpError) :=
  recv_impl s (fun b => dequeue_slice b want).

Definition recv (s : Socket) (f : list Z -> nat) : option (Socket * result (list Z) TcpError) :=
  recv_impl s (fun b => dequeue_many_with b f).

Definition peek (s : Socket) (size : nat) : option (result (list Z) TcpError) :=
  match recv_error_check s with
  | Some e => Some (Err e)
  | None => bytes ← get_allocated (rx_buffer (rx s)) 0 size; Some (Ok bytes)
  end.
