(* ===== verification/TcpProcess.v ===== *)
(** A TCP socket receives a segment (dependency/smoltcp/src/socket/tcp.rs, [process] and
    what it calls), in the order of the source.

    [None] is a panic, including a failed [debug_assert].  Each part of [process] that
    returns early says so in its result. *)

From stdpp Require Import base numbers option list.
From S2P Require Import Prelude Slice Assembler SockBuf TcpSeq TcpSocket.

(** ** Replies *)

Definition scaled_window (s : Socket) : option Z :=
  w ← buf_window (rx_buffer (rx s));
  Some (Z.min (Z.shiftr (Z.of_nat w) (remote_win_shift (acks s))) 65535).

(** [IpRepr::new] panics on addresses of two versions. *)
Definition ip_new (src dst : IpAddress) : option IpRepr :=
  if eqb (is_v6 src) (is_v6 dst) then Some (mkIp src dst) else None.

Definition reply (ip : IpRepr) (r : TcpRepr) (c : TcpControl) (seq : Z) (ack : option Z) (win : Z) (sack : option (Z * Z))
    : option Packet :=
  ip ← ip_new (dst_addr ip) (src_addr ip);
  Some (ip, mkRepr (dst_port r) (src_port r) c seq ack win None None false [sack; None; None] []).

Definition rst_reply (ip : IpRepr) (r : TcpRepr) : option Packet :=
  if bool_decide (control r = CRst) then None
  else
    ack ← (if bool_decide (control r = CSyn) && match ack_number r with None => true | _ => false end
           then a ← seq_add (seq_number r) (segment_len r); Some (Some a) else Some None);
    reply ip r CRst (default 0 (ack_number r)) ack 0 None.

(** The first SACK range: the one around the last segment, or else the lowest. *)
Definition sack_of (s : Socket) (ack : Z) : option (Z * Z) :=
  let ranges := (fun '(l, r) => (wrap32 l, wrap32 r)) <$> iter_data (assembler (rx s)) 0 (wrap64 ack) in
  let around := q ← local_rx_last_seq (rx s);
                List.find (fun '(l, r) => (l <=? wrap32 q) && (wrap32 q <=? r)) ranges in
  match around with Some x => Some x | None => head ranges end.

Definition ack_reply (s : Socket) (ip : IpRepr) (r : TcpRepr) : option (Socket * Packet) :=
  ack ← seq_add (remote_seq_no (rx s)) (rx_len s);
  let s := set_remote_last_ack s (Some ack) in
  win ← scaled_window s;
  let s := set_remote_last_win s win in
  let sack := if remote_has_sack (acks s) then sack_of s ack else None in
  p ← reply ip r CNone (remote_last_seq (tx s)) (Some ack) win sack;
  Some (s, p).

Definition challenge_ack_reply (cx : Context) (s : Socket) (ip : IpRepr) (r : TcpRepr) : option (Socket * option Packet) :=
  if now cx <? challenge_ack_timer (acks s) then Some (s, None)
  else
    let s := set_challenge_ack_timer s (now cx + millis 1000) in
    '(s, p) ← ack_reply s ip r;
    Some (s, Some p).

(** ** Acceptance *)

Definition accepts (s : Socket) (ip : IpRepr) (r : TcpRepr) : bool :=
  if is_state s Closed then false
  else if is_state s Listen && match ack_number r with Some _ => true | None => false end then false
  else
    match tuple s with
    | Some t =>
        bool_decide (dst_addr ip = ep_addr (local t)) && (dst_port r =? ep_port (local t)) &&
        bool_decide (src_addr ip = ep_addr (remote t)) && (src_port r =? ep_port (remote t))
    | None =>
        match listen_addr (listen_endpoint s) with Some a => bool_decide (dst_addr ip = a) | None => true end &&
        negb (dst_port r =? 0) && (dst_port r =? listen_port (listen_endpoint s))
    end.

Definition sent_syn (s : Socket) : bool := match state s with SynSent | SynReceived => true | _ => false end.
Definition sent_fin (s : Socket) : bool := match state s with FinWait1 | LastAck | Closing => true | _ => false end.

(** What [process] goes on with, or what it returns. *)
Inductive Step (A : Type) :=
| Go (a : A)
| Return (s : Socket) (p : option Packet).
Arguments Go {A} a.
Arguments Return {A} s p.

(** Reject unacceptable acknowledgements. *)
Definition check_ack (cx : Context) (s : Socket) (ip : IpRepr) (r : TcpRepr) : option (Step unit) :=
  next ← seq_add (local_seq_no (tx s)) 1;
  let drop_it := Some (Return s None) in
  let rst := p ← rst_reply ip r; Some (Return s (Some p)) in
  match state s, control r, ack_number r with
  | SynSent, CRst, None => drop_it
  | SynSent, CRst, Some a => if a =? next then Some (Go tt) else drop_it
  | _, CRst, _ => Some (Go tt)
  | Listen, _, None => Some (Go tt)
  | Listen, _, Some _ => None
  | _, _, None => drop_it
  | SynSent, CSyn, Some a => if a =? next then Some (Go tt) else rst
  | SynSent, CNone, Some a => if a =? next then drop_it else rst
  | SynSent, _, _ => drop_it
  | SynReceived, _, Some a => if a =? next then Some (Go tt) else rst
  | _, _, Some a =>
      let unacknowledged := tx_len s + (if sent_syn s then 1 else 0) + (if sent_fin s then 1 else 0) in
      ack_max ← seq_add (local_seq_no (tx s)) unacknowledged;
      let ack_min := if sent_syn s then next else local_seq_no (tx s) in
      if seq_lt a ack_min then drop_it
      else if seq_gt a ack_max then
        '(s, p) ← challenge_ack_reply cx s ip r; Some (Return s p)
      else Some (Go tt)
  end.

(** RFC 9293, segment acceptability. *)
Definition segment_in_window (window_start window_end segment_start segment_end : Z) : option bool :=
  probe ← seq_sub window_start 1;
  Some (match segment_start =? segment_end, window_start =? window_end with
        | true, zero_window =>
            if segment_end =? probe then false
            else if zero_window then window_start =? segment_start
            else seq_le window_start segment_start && seq_lt segment_start window_end
        | false, true => false
        | false, false =>
            (seq_le window_start segment_start && seq_lt segment_start window_end) ||
            (seq_lt window_start segment_end && seq_le segment_end window_end)
        end).

Definition subslice (l : list Z) (a b : Z) : option (list Z) :=
  if (a <=? b) && (b <=? Z.of_nat (length l)) then Some (take (Z.to_nat (b - a)) (drop (Z.to_nat a) l)) else None.

(** The part of the payload inside the window, and its offset there. *)
Definition overlap (window_start window_end : Z) (r : TcpRepr) : option (list Z * Z) :=
  segment_data_end ← seq_add (seq_number r) (payload_len r);
  let segment_start := seq_number r in
  let overlap_start := seq_max window_start segment_start in
  let overlap_end := seq_min window_end segment_data_end in
  if negb (seq_le overlap_start overlap_end) then None
  else
    a ← seq_diff overlap_start segment_start;
    b ← seq_diff overlap_end segment_start;
    bytes ← subslice (payload r) a b;
    offset ← seq_diff overlap_start window_start;
    Some (bytes, offset).

(** Accept or refuse the segment by its sequence numbers. *)
Definition check_window (cx : Context) (s : Socket) (ip : IpRepr) (r : TcpRepr) : option (Step (Socket * list Z * Z)) :=
  window_start ← seq_add (remote_seq_no (rx s)) (rx_len s);
  window_end ← seq_add (remote_seq_no (rx s)) (Z.of_nat (buf_capacity (rx_buffer (rx s))));
  let segment_start := seq_number r in
  segment_end ← seq_add (seq_number r) (segment_len r);
  match state s with
  | Listen | SynSent => Some (Go (s, [], 0))
  | _ =>
      ok ← segment_in_window window_start window_end segment_start segment_end;
      if (ok : bool) then
        '(bytes, offset) ← overlap window_start window_end r;
        Some (Go (set_local_rx_last_seq s (Some (seq_number r)), bytes, offset))
      else
        let s := if is_state s TimeWait then set_timer s (set_for_close (now cx)) else s in
        '(s, p) ← challenge_ack_reply cx s ip r;
        Some (Return s p)
  end.

(** The amount of acknowledged octets, without SYN and FIN. *)
Definition acked (cx : Context) (s : Socket) (r : TcpRepr) : option (Socket * Z * bool * bool) :=
  if bool_decide (control r = CRst) then Some (s, 0, false, false)
  else
    match ack_number r with
    | None => Some (s, 0, false, false)
    | Some a =>
        tx_buffer_start_seq ← seq_add (local_seq_no (tx s)) (if sent_syn s then 1 else 0);
        '(ack_len, ack_of_fin, ack_all) ←
          (if seq_ge a tx_buffer_start_seq then
             ack_len ← seq_diff a tx_buffer_start_seq;
             let of_fin := sent_fin s && (tx_len s + 1 =? ack_len) in
             Some (if of_fin then ack_len - 1 else ack_len, of_fin, remote_last_seq (tx s) =? a)
           else Some (0, false, false));
        Some (set_rtte s (on_ack (rtte s) (now cx) a), ack_len, ack_of_fin, ack_all)
    end.

(** A FIN counts only at the start of the window. *)
Definition effective_control (s : Socket) (r : TcpRepr) : option TcpControl :=
  window_start ← seq_add (remote_seq_no (rx s)) (rx_len s);
  let c := quash_psh (control r) in
  Some (if bool_decide (c = CFin) && negb (window_start =? seq_number r) then CNone else c).

Definition idle_timer (cx : Context) (s : Socket) : Socket :=
  set_timer s (set_for_idle (now cx) (keep_alive (opts s))).
Definition close_timer (cx : Context) (s : Socket) : Socket := set_timer s (set_for_close (now cx)).

(** [remote_seq_no += 1; rx_fin_received = true]. *)
Definition take_fin (s : Socket) : option Socket :=
  n ← seq_add (remote_seq_no (rx s)) 1;
  Some (set_rx_fin_received (set_remote_seq_no s n) true).

(** [remote_win_scale] of a SYN; without one, our windows are not scaled either. *)
Definition take_scale (s : Socket) (r : TcpRepr) : Socket :=
  let s := set_remote_win_scale s (window_scale r) in
  match window_scale r with None => set_remote_win_shift s 0 | Some _ => s end.

Definition take_mss (s : Socket) (r : TcpRepr) : option Socket :=
  match max_seg_size r with
  | Some m => if m =? 0 then None else Some (set_remote_mss s m)
  | None => Some s
  end.

(** Validate and update the state: the socket, and whether [process] goes on. *)
Definition transition (cx : Context) (s : Socket) (ip : IpRepr) (r : TcpRepr) (c : TcpControl) (ack_of_fin ack_all : bool)
    : option (Socket * bool) :=
  let go s := Some (s, true) in
  let stop s := Some (s, false) in
  match state s, c with
  | Listen, CRst => stop s
  | SynReceived, CRst => stop (set_state (set_tuple s None) Listen)
  | _, CRst => stop (set_tuple (set_state s Closed) None)
  | Listen, CSyn =>
      match take_mss s r with
      | None => stop s
      | Some s =>
          let s := set_tuple s (Some (mkTuple (mkEndpoint (dst_addr ip) (dst_port r)) (mkEndpoint (src_addr ip) (src_port r)))) in
          let s := set_local_seq_no s (random_seq_no cx) in
          n ← seq_add (seq_number r) 1;
          let s := set_remote_seq_no s n in
          let s := set_remote_last_seq s (local_seq_no (tx s)) in
          let s := set_remote_has_sack s (sack_permitted r) in
          go (idle_timer cx (set_state (take_scale s r) SynReceived))
      end
  | SynReceived, CNone => go (idle_timer cx (set_state s Established))
  | SynReceived, CFin => s ← take_fin s; go (idle_timer cx (set_state s CloseWait))
  | SynSent, CSyn =>
      match take_mss s r with
      | None => stop s
      | Some s =>
          n ← seq_add (seq_number r) 1;
          let s := set_remote_seq_no s n in
          l ← seq_add (local_seq_no (tx s)) 1;
          let s := set_remote_last_seq s l in
          let s := set_remote_last_ack s (Some (seq_number r)) in
          go (idle_timer cx (set_state (take_scale s r) Established))
      end
  | Established, CNone =>
      go (if negb (is_retransmit (timer s)) || ack_all then idle_timer cx s else s)
  | Established, CFin => s ← take_fin s; go (idle_timer cx (set_state s CloseWait))
  | FinWait1, CNone =>
      let s := if ack_of_fin then set_state s FinWait2 else s in
      go (if ack_all then idle_timer cx s else s)
  | FinWait1, CFin =>
      s ← take_fin s;
      go (if ack_of_fin then close_timer cx (set_state s TimeWait) else idle_timer cx (set_state s Closing))
  | FinWait2, CNone => go (idle_timer cx s)
  | FinWait2, CFin => s ← take_fin s; go (close_timer cx (set_state s TimeWait))
  | Closing, CNone =>
      go (if ack_of_fin then close_timer cx (set_state s TimeWait) else idle_timer cx s)
  | CloseWait, CNone => go (idle_timer cx s)
  | LastAck, CNone =>
      go (if ack_of_fin then set_tuple (set_state s Closed) None else idle_timer cx s)
  | _, _ => stop s
  end.

(** The remote window and the octets it acknowledged; whether the window changed. *)
Definition update_remote (cx : Context) (s : Socket) (r : TcpRepr) (ack_len : Z) : option (Socket * bool) :=
  let s := set_remote_last_ts s (Some (now cx)) in
  let scale := match control r with CSyn => 0 | _ => default 0 (remote_win_scale (tx s)) end in
  let new_len := Z.shiftl (window_len r) scale in
  let is_window_update := negb (new_len =? remote_win_len (tx s)) in
  let s := set_remote_win_len s new_len in
  if 0 <? ack_len then
    if tx_len s <? ack_len then None
    else b ← dequeue_allocated (tx_buffer (tx s)) (Z.to_nat ack_len); Some (set_tx_buffer s b, is_window_update)
  else Some (s, is_window_update).

(** Duplicate acknowledgements, and the local sequence number. *)
Definition take_ack (s : Socket) (r : TcpRepr) (is_window_update : bool) : Socket :=
  match ack_number r with
  | None => s
  | Some a =>
      let duplicate := match local_rx_last_ack (tx s) with
                       | Some last => (payload_len r =? 0) && (last =? a) && seq_lt a (remote_last_seq (tx s)) && negb is_window_update
                       | None => false
                       end in
      let s := if duplicate then
                 let n := Z.min (local_rx_dup_acks (tx s) + 1) 255 in
                 let s := set_local_rx_dup_acks s n in
                 if n =? 3 then set_timer s TFastRetransmit else s
               else
                 set_local_rx_last_ack (set_local_rx_dup_acks s 0) (Some a) in
      let s := set_local_seq_no s a in
      if seq_lt (remote_last_seq (tx s)) a then set_remote_last_seq s a else s
  end.

(** Place the payload into the buffer; [None] inside is too many holes. *)
Definition take_payload (s : Socket) (bytes : list Z) (offset : Z) : option (option Socket) :=
  o ← add_then_remove_front (assembler (rx s)) offset (Z.of_nat (length bytes));
  match o with
  | None => Some None
  | Some (a, contig_len) =>
      let s := set_assembler s a in
      '(b, written) ← write_unallocated (rx_buffer (rx s)) (Z.to_nat offset) bytes;
      if negb (written =? length bytes)%nat then None
      else
        let s := set_rx_buffer s b in
        if contig_len =? 0 then Some (Some s)
        else b ← enqueue_unallocated (rx_buffer (rx s)) (Z.to_nat contig_len); Some (Some (set_rx_buffer s b))
  end.

Definition ack_to_transmit (s : Socket) : option bool :=
  match remote_last_ack (acks s) with
  | Some a => n ← seq_add (remote_seq_no (rx s)) (rx_len s); Some (seq_lt a n)
  | None => Some false
  end.

Definition window_to_update (s : Socket) : option bool :=
  match state s with
  | SynSent | SynReceived | Established | FinWait1 | FinWait2 =>
      w ← scaled_window s; Some (remote_last_win (acks s) <? w)
  | _ => Some false
  end.

Definition delay_ack (cx : Context) (s : Socket) : option Socket :=
  match ack_delay (acks s) with
  | None => Some s
  | Some d =>
      a ← ack_to_transmit s;
      w ← window_to_update s;
      Some (if a || w then
              set_ack_delay_timer s (match ack_delay_timer (acks s) with AIdle => AWaiting (now cx + d) | _ => AImmediate end)
            else s)
  end.

(** The payload of the segment and the reply it calls for. *)
Definition receive (cx : Context) (s : Socket) (ip : IpRepr) (r : TcpRepr) (bytes : list Z) (offset : Z)
    : option (Socket * option Packet) :=
  if (length bytes =? 0)%nat then Some (s, None)
  else
    was_empty ← assembler_is_empty (assembler (rx s));
    o ← take_payload s bytes offset;
    match o with
    | None => Some (s, None)
    | Some s =>
        s ← delay_ack cx s;
        is_empty ← assembler_is_empty (assembler (rx s));
        if negb is_empty || negb was_empty then
          '(s, p) ← ack_reply s ip r;
          Some (s, Some p)
        else Some (s, None)
    end.

Definition process (cx : Context) (s : Socket) (ip : IpRepr) (r : TcpRepr) : option (Socket * option Packet) :=
  if negb (accepts s ip r) then None
  else
    st ← check_ack cx s ip r;
    match st with
    | Return s p => Some (s, p)
    | Go _ =>
        st ← check_window cx s ip r;
        match st with
        | Return s p => Some (s, p)
        | Go (s, bytes, offset) =>
            '(s, ack_len, ack_of_fin, ack_all) ← acked cx s r;
            c ← effective_control s r;
            '(s, go) ← transition cx s ip r c ack_of_fin ack_all;
            if negb go then Some (s, None)
            else
              '(s, is_window_update) ← update_remote cx s r ack_len;
              receive cx (take_ack s r is_window_update) ip r bytes offset
        end
    end.
