(* ===== verification/TcpDispatch.v ===== *)
(** A TCP socket transmits (dependency/smoltcp/src/socket/tcp.rs, [dispatch], [poll_at] and
    what they call). *)

From stdpp Require Import base numbers option list.
From S2P Require Import Prelude Slice Assembler SockBuf TcpSeq TcpSocket TcpProcess.
#[local] Open Scope machine_scope.

Definition timed_out (s : Socket) (t : Z) : bool :=
  match remote_last_ts s, timeout (opts s) with
  | Some ts, Some d => ts + d <=? t
  | _, _ => false
  end.

(** [ip_mtu - ip_header_len - TCP_HEADER_LEN]. *)
Definition local_mss (cx : Context) (a : IpAddress) : Z := ip_mtu cx -w ip_header_len a -w TCP_HEADER_LEN.

Definition want_fin (s : Socket) : bool := match state s with FinWait1 | Closing | LastAck => true | _ => false end.

Definition seq_to_transmit (cx : Context) (s : Socket) : option bool :=
  t ← tuple s;
  let effective_mss := Z.min (local_mss cx (ep_addr (local t))) (remote_mss (tx s)) in
  let data_in_flight := negb (remote_last_seq (tx s) =? local_seq_no (tx s)) in
  if sent_syn s && negb data_in_flight then Some true
  else
    max_send_seq ← seq_add (local_seq_no (tx s)) (Z.min (remote_win_len (tx s)) (tx_len s));
    max_send ← (if seq_ge max_send_seq (remote_last_seq (tx s)) then seq_diff max_send_seq (remote_last_seq (tx s)) else Some 0);
    let can_send_full := effective_mss <=? max_send in
    let can_send := if nagle (opts s) && data_in_flight && negb can_send_full && negb (want_fin s) then false
                    else negb (max_send =? 0) in
    all_sent ← seq_add (local_seq_no (tx s)) (tx_len s);
    Some (can_send || (want_fin s && (remote_last_seq (tx s) =? all_sent))).

Definition delayed_ack_expired (s : Socket) (t : Z) : bool :=
  match ack_delay_timer (acks s) with AWaiting u => u <=? t | _ => true end.

(** The first half of [dispatch]: what the timers change. *)
Definition run_timers (cx : Context) (s : Socket) : option Socket :=
  let s := match remote_last_ts s with None => set_remote_last_ts s (Some (now cx)) | Some _ => s end in
  if timed_out s (now cx) then Some (set_state s Closed)
  else
    x ← seq_to_transmit cx s;
    Some (if (x : bool) then s
          else match should_retransmit (timer s) (now cx) with
               | Some _ =>
                   let s := set_remote_last_seq s (local_seq_no (tx s)) in
                   set_rtte (idle_timer cx s) (on_retransmit (rtte s))
               | None => s
               end).

(** Whether a segment is to be sent, and whether TIME-WAIT is over. *)
Inductive Plan := Send | Expire | Nothing.

Definition plan (cx : Context) (s : Socket) : option Plan :=
  x ← seq_to_transmit cx s;
  a ← ack_to_transmit s;
  w ← window_to_update s;
  let d := delayed_ack_expired s (now cx) in
  Some (if (x : bool) then Send
        else if a && d then Send
        else if w && d then Send
        else if is_state s Closed then Send
        else if should_keep_alive (timer s) (now cx) then Send
        else if should_close (timer s) (now cx) then Expire
        else Nothing).

(** The payload and the flags of a segment in the states that transmit data. *)
Definition data_segment (cx : Context) (s : Socket) (t : Tuple) : option (list Z * TcpControl) :=
  win_right_edge ← seq_add (local_seq_no (tx s)) (remote_win_len (tx s));
  win_limit ← (if seq_ge win_right_edge (remote_last_seq (tx s)) then seq_diff win_right_edge (remote_last_seq (tx s)) else Some 0);
  let size := Z.min (Z.min win_limit (remote_mss (tx s))) (local_mss cx (ep_addr (local t))) in
  offset ← seq_diff (remote_last_seq (tx s)) (local_seq_no (tx s));
  bytes ← get_allocated (tx_buffer (tx s)) (Z.to_nat offset) (Z.to_nat size);
  let c := if offset + Z.of_nat (length bytes) =? tx_len s then
             match state s with
             | FinWait1 | LastAck | Closing => CFin
             | Established | CloseWait => if (length bytes =? 0)%nat then CNone else CPsh
             | _ => CNone
             end
           else CNone in
  Some (bytes, c).

(** The segment before keep-alive is considered; [None] inside in the LISTEN state. *)
Definition make_segment (cx : Context) (s : Socket) (t : Tuple) : option (option TcpRepr) :=
  ack ← seq_add (remote_seq_no (rx s)) (rx_len s);
  win ← scaled_window s;
  w ← buf_window (rx_buffer (rx s));
  let basic c ack win scale sack bytes :=
    mkRepr (ep_port (local t)) (ep_port (remote t)) c (remote_last_seq (tx s)) ack win scale None sack no_sack bytes in
  match state s with
  | Closed => Some (Some (basic CRst (Some ack) win None false []))
  | Listen => Some None
  | SynSent => Some (Some (basic CSyn None (Z.min (Z.of_nat w) 65535) (Some (remote_win_shift (acks s))) true []))
  | SynReceived =>
      Some (Some (basic CSyn (Some ack) (Z.min (Z.of_nat w) 65535)
        ((fun _ => remote_win_shift (acks s)) <$> remote_win_scale (tx s)) (remote_has_sack (acks s)) []))
  | Established | FinWait1 | Closing | CloseWait | LastAck =>
      '(bytes, c) ← data_segment cx s t;
      Some (Some (basic c (Some ack) win None false bytes))
  | FinWait2 | TimeWait => Some (Some (basic CNone (Some ack) win None false []))
  end.

Definition with_mss (r : TcpRepr) (m : Z) : TcpRepr :=
  mkRepr (src_port r) (dst_port r) (control r) (seq_number r) (ack_number r) (window_len r) (window_scale r) (Some m)
    (sack_permitted r) (sack_ranges r) (payload r).
Definition as_probe (r : TcpRepr) (seq : Z) : TcpRepr :=
  mkRepr (src_port r) (dst_port r) (control r) seq (ack_number r) (window_len r) (window_scale r) (max_seg_size r)
    (sack_permitted r) (sack_ranges r) [0].

(** What a segment that was sent changes. *)
Definition sent (cx : Context) (s : Socket) (r : TcpRepr) : option Socket :=
  n ← seq_add (seq_number r) (segment_len r);
  let s := set_remote_last_seq s n in
  let s := set_remote_last_ack s (ack_number r) in
  let s := set_remote_last_win s (window_len r) in
  let s := if 0 <? segment_len r then set_rtte s (on_send (rtte s) (now cx) n) else s in
  x ← seq_to_transmit cx s;
  let s := if negb x && (0 <? segment_len r)
           then set_timer s (set_for_retransmit (timer s) (now cx) (retransmission_timeout (rtte s))) else s in
  Some (if is_state s Closed then set_tuple s None else s).

(** [emits] says whether the device takes the segment. *)
Definition dispatch (cx : Context) (s : Socket) (emits : bool) : option (Socket * option Packet) :=
  match tuple s with
  | None => Some (s, None)
  | Some t =>
      s ← run_timers cx s;
      p ← plan cx s;
      match p with
      | Nothing => Some (s, None)
      | Expire => Some (reset s, None)
      | Send =>
          ip ← ip_new (ep_addr (local t)) (ep_addr (remote t));
          o ← make_segment cx s t;
          match o with
          | None => Some (s, None)
          | Some r =>
              let is_keep_alive := should_keep_alive (timer s) (now cx) && repr_is_empty r in
              r ← (if is_keep_alive then q ← seq_sub (seq_number r) 1; Some (as_probe r q) else Some r);
              let r := if bool_decide (control r = CSyn)
                       then with_mss r (local_mss cx (ep_addr (local t)) mod 2 ^ 16) else r in
              if negb emits then Some (s, None)
              else
                let p := (ip, r) in
                let s := set_timer s (rewind_keep_alive (timer s) (now cx) (keep_alive (opts s))) in
                let s := set_ack_delay_timer s AIdle in
                if is_keep_alive then Some (s, Some p)
                else s ← sent cx s r; Some (s, Some p)
          end
      end
  end.

Definition poll_min (a b : PollAt) : PollAt :=
  match a, b with
  | PNow, _ | _, PNow => PNow
  | PTime x, PTime y => PTime (Z.min x y)
  | PTime x, PIngress | PIngress, PTime x => PTime x
  | PIngress, PIngress => PIngress
  end.

Definition poll_at (cx : Context) (s : Socket) : option PollAt :=
  match tuple s, remote_last_ts s with
  | None, _ => Some PIngress
  | Some _, None => Some PNow
  | Some _, Some ts =>
      if is_state s Closed then Some PNow
      else
        x ← seq_to_transmit cx s;
        if (x : bool) then Some PNow
        else
          a ← ack_to_transmit s;
          w ← window_to_update s;
          let delayed := if a || w then match ack_delay_timer (acks s) with AWaiting t => PTime t | _ => PNow end else PIngress in
          let out := match timeout (opts s) with Some d => PTime (ts + d) | None => PIngress end in
          Some (poll_min (poll_min (timer_poll_at (timer s)) out) delayed)
  end.
