(* ===== verification/TcpInv.v ===== *)
(** No segment from the network, in any order with the calls of programs, makes a TCP
    socket panic: the invariant of a socket and its preservation. *)

From stdpp Require Import base numbers option list.
From S2P Require Import Prelude Slice Assembler AssemblerSpec SockBuf.
From S2P Require Import TcpSeq TcpSocket TcpProcess TcpDispatch.

(** ** The invariant *)

Record rx_ok (r : Rx) : Prop := {
  ro_asm : asm_wf (assembler r);
  ro_buf : buf_ok (rx_buffer r);
  ro_cap : Z.of_nat (buf_capacity (rx_buffer r)) <= 2 ^ 30;
  ro_fit : Z.of_nat (buf_len (rx_buffer r)) + zsum tot (assembler r) <= Z.of_nat (buf_capacity (rx_buffer r));
}.

(** How far the last sequence number sent is ahead of the acknowledged one. *)
Definition in_flight (t : Tx) : Z := wrap_i32 (remote_last_seq t - local_seq_no t).

Record tx_ok (t : Tx) : Prop := {
  to_buf : buf_ok (tx_buffer t);
  to_cap : Z.of_nat (buf_capacity (tx_buffer t)) <= 2 ^ 30;
  to_win : 0 <= remote_win_len t <= 2 ^ 30;
  to_scale : match remote_win_scale t with Some x => 0 <= x <= 14 | None => True end;
  to_flight : 0 <= in_flight t <= Z.of_nat (buf_len (tx_buffer t)) + 1;
  to_last : wrap_i32 (remote_last_seq t) = remote_last_seq t;
  to_local : wrap_i32 (local_seq_no t) = local_seq_no t;
}.

Definition tuple_ok (o : option Tuple) : Prop :=
  match o with Some t => is_v6 (ep_addr (local t)) = is_v6 (ep_addr (remote t)) | None => True end.

Definition synchronizing (s : Socket) : bool := match state s with Listen | SynSent | SynReceived => true | _ => false end.

(** A socket that has sent its SYN waits for the timer: nothing else makes it send. *)
Definition quiet (s : Socket) : Prop :=
  ack_to_transmit s = Some false /\ window_to_update s = Some false /\ exists e d, timer s = TRetransmit e d.

Record sock_ok (s : Socket) : Prop := {
  so_rx : rx_ok (rx s);
  so_tx : tx_ok (tx s);
  so_tuple : tuple_ok (tuple s);
  so_shift : 0 <= remote_win_shift (acks s);
  so_empty : synchronizing s = true -> buf_len (rx_buffer (rx s)) = 0%nat /\ buf_len (tx_buffer (tx s)) = 0%nat;
  so_syn : sent_syn s = true -> in_flight (tx s) <> 0 -> quiet s;
  so_timer : sent_syn s = true -> forall e, timer s <> TClose e;
}.

(** What the parser guarantees of a segment. *)
Record packet_ok (ip : IpRepr) (r : TcpRepr) : Prop := {
  po_version : is_v6 (src_addr ip) = is_v6 (dst_addr ip);
  po_payload : payload_len r <= 65535;
  po_window : 0 <= window_len r < 2 ^ 16;
  po_scale : match window_scale r with Some x => 0 <= x <= 14 | None => True end;
  po_seq : wrap_i32 (seq_number r) = seq_number r;
  po_ack : match ack_number r with Some a => wrap_i32 a = a | None => True end;
}.

(** ** Pieces that do not panic *)

Lemma wrap_range_id x : wrap_i32 x = x -> - 2 ^ 31 <= x < 2 ^ 31.
Proof. intros <-. apply wrap_i32_range. Qed.

Lemma seq_add_ok a n : n <= i32_max -> seq_add a n = Some (wrap_i32 (a + n)).
Proof. intros H. unfold seq_add. case_cmp; [lia|done]. Qed.

Lemma seq_ge_diff a b : seq_ge a b = true -> seq_diff a b = Some (wrap_i32 (a - b)) /\ 0 <= wrap_i32 (a - b).
Proof. unfold seq_ge, seq_diff. intros H%Z.leb_le. case_cmp; [lia|done]. Qed.

Lemma rx_len_bound s : rx_ok (rx s) -> 0 <= rx_len s <= 2 ^ 30.
Proof. intros [_ [L _] C _]. unfold rx_len. lia. Qed.

Lemma tx_len_bound s : tx_ok (tx s) -> 0 <= tx_len s <= 2 ^ 30.
Proof. intros [[L _] C _ _ _ _ _]. unfold tx_len. lia. Qed.

(** The sequence number expected next. *)
Definition expected (s : Socket) : Z := wrap_i32 (remote_seq_no (rx s) + rx_len s).

Lemma expected_ok s : rx_ok (rx s) -> seq_add (remote_seq_no (rx s)) (rx_len s) = Some (expected s).
Proof. intros R. pose proof (rx_len_bound s R). apply seq_add_ok. unfold i32_max. lia. Qed.

Lemma scaled_window_ok s : rx_ok (rx s) -> exists w, scaled_window s = Some w.
Proof. intros [_ B _ _]. unfold scaled_window. rewrite buf_window_ok by done. by eexists. Qed.

Lemma ack_to_transmit_ok s : rx_ok (rx s) -> exists b, ack_to_transmit s = Some b.
Proof. intros R. unfold ack_to_transmit. destruct (remote_last_ack (acks s)); [|by eexists]. rewrite expected_ok by done. by eexists. Qed.

Lemma window_to_update_ok s : rx_ok (rx s) -> exists b, window_to_update s = Some b.
Proof.
  intros R. unfold window_to_update. destruct (scaled_window_ok s R) as [w ->]. destruct (state s); simpl; by eexists.
Qed.

Lemma seq_to_transmit_ok cx s t : tx_ok (tx s) -> tuple s = Some t -> exists b, seq_to_transmit cx s = Some b.
Proof.
  intros T E. pose proof (tx_len_bound s T). destruct T as [_ _ W _ _ _ _]. unfold seq_to_transmit. rewrite E. simpl.
  destruct (sent_syn s && _); [by eexists|]. rewrite !seq_add_ok by (unfold i32_max; lia). simpl.
  destruct (seq_ge _ _) eqn:G; [|by eexists]. destruct (seq_ge_diff _ _ G) as [-> _]. by eexists.
Qed.

(** ** What leaves the invariant alone *)

(** No keep-alive probe is due, now or later. *)
Definition keep_alive_at (t : Timer) : option Z := match t with TIdle k => k | _ => None end.
Definition no_probe (s : Socket) : Prop := keep_alive (opts s) = None /\ keep_alive_at (timer s) = None.

Ltac probe := let H := fresh in let H' := fresh in
  intros [H H']; split; [exact H|first [exact H'|reflexivity|simpl; unfold set_for_idle; simpl; rewrite H; reflexivity]].

Record frame (s s' : Socket) : Prop := {
  fr_state : state s' = state s;
  fr_assembler : assembler (rx s') = assembler (rx s);
  fr_rx_buffer : rx_buffer (rx s') = rx_buffer (rx s);
  fr_seq : remote_seq_no (rx s') = remote_seq_no (rx s);
  fr_fin : rx_fin_received (rx s') = rx_fin_received (rx s);
  fr_tx : tx s' = tx s;
  fr_tuple : tuple s' = tuple s;
  fr_shift : remote_win_shift (acks s') = remote_win_shift (acks s);
  fr_quiet : sent_syn s = true -> quiet s -> quiet s';
  fr_timer : sent_syn s = true -> timer s' = timer s;
  fr_probe : no_probe s -> no_probe s';
}.

Lemma frame_refl s : frame s s.
Proof. by constructor. Qed.

Lemma frame_trans s1 s2 s3 : frame s1 s2 -> frame s2 s3 -> frame s1 s3.
Proof.
  intros [A1 A2 A3 A4 A5 A6 A7 A8 A9 A10 A11] [B1 B2 B3 B4 B5 B6 B7 B8 B9 B10 B11].
  assert (sent_syn s2 = sent_syn s1) as S12 by (unfold sent_syn; by rewrite A1). rewrite S12 in *.
  constructor; try congruence; [auto| |auto]. intros H. by rewrite B10, A10.
Qed.

Lemma frame_rx_ok s s' : frame s s' -> rx_ok (rx s) -> rx_ok (rx s').
Proof. intros [_ A B _ _ _ _ _ _ _ _] [? ? ? ?]. constructor; by rewrite ?A, ?B. Qed.

Lemma sock_ok_frame s s' : sock_ok s -> frame s s' -> sock_ok s'.
Proof.
  intros [R T U H E Q TM] F. pose proof (frame_rx_ok _ _ F R). destruct F as [A1 A2 A3 A4 A5 A6 A7 A8 A9 A10 _].
  constructor; try congruence.
  - intros Y. unfold synchronizing in *. rewrite A1 in Y. rewrite A3, A6. auto.
  - unfold sent_syn in *. rewrite A1, A6. intros Y N. auto.
  - unfold sent_syn in *. rewrite A1. intros Y e. rewrite A10 by done. auto.
Qed.

(** Unfold the assignments of fields. *)
Ltac sock := unfold set_state, set_listen_endpoint, set_tuple, set_timer, set_rtte, set_remote_last_ts,
  set_opts, set_assembler, set_rx_buffer, set_rx_fin_received, set_remote_seq_no, set_local_rx_last_seq, set_tx_buffer,
  set_local_seq_no, set_remote_last_seq, set_remote_win_len, set_remote_win_scale, set_remote_mss, set_local_rx_last_ack,
  set_local_rx_dup_acks, set_remote_last_ack, set_remote_last_win, set_remote_win_shift, set_remote_has_sack,
  set_ack_delay, set_ack_delay_timer, set_challenge_ack_timer, set_rx, set_tx, set_acks in *; simpl in *.

Lemma rx_len_eq s s' : rx_buffer (rx s') = rx_buffer (rx s) -> rx_len s' = rx_len s.
Proof. unfold rx_len. by intros ->. Qed.

(** A segment that acknowledges all that was received in order and tells the window. *)
Definition announces (s : Socket) (r : TcpRepr) : Prop :=
  ack_number r = Some (expected s) /\ scaled_window s = Some (window_len r).

Definition handshaken (s : Socket) : Prop := state s <> Listen /\ state s <> SynSent.

(** A reply carries no data; it resets, or stands where the socket stands. *)
Definition empty_reply (s : Socket) (o : option Packet) : Prop :=
  match o with
  | Some p => payload (snd p) = [] /\
      (control (snd p) = CRst \/
       control (snd p) = CNone /\ seq_number (snd p) = remote_last_seq (tx s) /\ announces s (snd p) /\ handshaken s)
  | None => True
  end.

Lemma frame_expected s s' : frame s s' -> expected s' = expected s.
Proof. intros F. unfold expected. by rewrite (fr_seq _ _ F), (rx_len_eq s s') by apply F. Qed.

Lemma empty_reply_frame s s' o : frame s s' -> empty_reply s o -> empty_reply s' o.
Proof.
  intros F. unfold empty_reply, announces, scaled_window, handshaken.
  by rewrite (frame_expected _ _ F), (fr_state _ _ F), (fr_tx _ _ F), (fr_rx_buffer _ _ F), (fr_shift _ _ F).
Qed.

(** A reply acknowledges all there is, in the state it finds. *)
Lemma ack_reply_ok s ip r :
  rx_ok (rx s) -> handshaken s -> is_v6 (src_addr ip) = is_v6 (dst_addr ip) ->
  exists s' p, ack_reply s ip r = Some (s', p) /\ frame s s' /\ timer s' = timer s /\ opts s' = opts s /\
    ack_to_transmit s' = Some false /\ window_to_update s' = Some false /\ empty_reply s' (Some p).
Proof.
  intros R HS V. unfold ack_reply. rewrite expected_ok by done. simpl.
  assert (forall a b, scaled_window (set_remote_last_win (set_remote_last_ack s a) b) = scaled_window s) as W1 by done.
  assert (forall a, scaled_window (set_remote_last_ack s a) = scaled_window s) as -> by done.
  destruct (scaled_window_ok s R) as [w Ew]. rewrite Ew. simpl. unfold reply, ip_new. rewrite V, eqb_reflx. simpl.
  eexists _, _. split; [done|].
  assert (forall x, ack_to_transmit (set_remote_last_win (set_remote_last_ack s (Some (expected s))) x) = Some false) as A.
  { intros x. change ((n ← seq_add (remote_seq_no (rx s)) (rx_len s); Some (seq_lt (expected s) n)) = Some false).
    rewrite expected_ok by done. simpl. unfold seq_lt. by rewrite Z.sub_diag. }
  assert (window_to_update (set_remote_last_win (set_remote_last_ack s (Some (expected s))) w) = Some false) as B.
  { unfold window_to_update. rewrite W1, Ew. sock. destruct (state s); try done; by rewrite Z.ltb_irrefl. }
  split_and!; try done; [|by right]. constructor; try done. intros _ (_ & _ & Q). unfold quiet. rewrite A, B. done.
Qed.

Lemma challenge_ok cx s ip r :
  rx_ok (rx s) -> handshaken s -> is_v6 (src_addr ip) = is_v6 (dst_addr ip) ->
  exists s' o, challenge_ack_reply cx s ip r = Some (s', o) /\ frame s s' /\ timer s' = timer s /\ opts s' = opts s /\
    empty_reply s' o.
Proof.
  intros R HS V. unfold challenge_ack_reply. case_cmp.
  { exists s, None. split_and!; [done|apply frame_refl|done..]. }
  destruct (ack_reply_ok (set_challenge_ack_timer s (now cx + millis 1000)) ip r R HS V) as (s' & p & -> & F & T & O & _ & _ & P).
  simpl. eexists s', _. split_and!; try done. eapply frame_trans, F. by constructor.
Qed.

Lemma rst_reply_ok s ip r :
  packet_ok ip r -> control r <> CRst -> exists p, rst_reply ip r = Some p /\ empty_reply s (Some p).
Proof.
  intros [V L _ _ _ _] C. unfold rst_reply. rewrite bool_decide_false by done.
  assert (segment_len r <= i32_max) by (unfold segment_len, i32_max; destruct (control r); simpl; lia).
  unfold reply, ip_new. rewrite V, eqb_reflx. rewrite seq_add_ok by done. simpl.
  destruct (_ && _); simpl; eexists; (split; [done|]); split; auto.
Qed.

(** An acknowledgement [process] goes on with. *)
Definition ack_valid (s : Socket) (r : TcpRepr) : Prop :=
  control r <> CRst ->
  match ack_number r with
  | Some a => if sent_syn s then a = wrap_i32 (local_seq_no (tx s) + 1)
              else 0 <= wrap_i32 (a - local_seq_no (tx s)) <= tx_len s + (if sent_fin s then 1 else 0)
  | None => state s = Listen
  end.

Lemma ack_range_ok s a :
  tx_ok (tx s) -> sent_syn s = false ->
  let m := wrap_i32 (local_seq_no (tx s) + (tx_len s + 0 + (if sent_fin s then 1 else 0))) in
  seq_lt a (local_seq_no (tx s)) = false -> seq_gt a m = false ->
  0 <= wrap_i32 (a - local_seq_no (tx s)) <= tx_len s + (if sent_fin s then 1 else 0).
Proof.
  intros T S m H1 H2. pose proof (tx_len_bound s T) as L. unfold seq_lt in H1. apply Z.ltb_ge in H1. split; [done|].
  unfold seq_gt in H2. apply Z.ltb_ge in H2. unfold m in H2. set (u := tx_len s + 0 + _) in H2.
  assert (0 <= u <= 2 ^ 30 + 1) as U by (unfold u; destruct (sent_fin s); lia).
  pose proof (wrap_i32_range (a - local_seq_no (tx s))) as W.
  assert (wrap_i32 (a - wrap_i32 (local_seq_no (tx s) + u)) = wrap_i32 (a - local_seq_no (tx s)) - u) as E.
  { rewrite <- (wrap_i32_small (wrap_i32 (a - local_seq_no (tx s)) - u)) by lia.
    apply wrap_i32_mod. rewrite Zminus_mod, wrap_i32_eqm. rewrite <- Zminus_mod.
    rewrite (Zminus_mod (wrap_i32 _)), wrap_i32_eqm, <- Zminus_mod. f_equal. lia. }
  rewrite E in H2. unfold u in *. destruct (sent_fin s); lia.
Qed.

Lemma accepts_listen s ip r a : accepts s ip r = true -> state s = Listen -> ack_number r = Some a -> False.
Proof. intros A E1 E2. unfold accepts, is_state in A. by rewrite E1, E2 in A. Qed.

Lemma check_ack_ok cx s ip r :
  sock_ok s -> packet_ok ip r -> accepts s ip r = true ->
  exists st, check_ack cx s ip r = Some st /\
    match st with Return s' p => frame s s' /\ empty_reply s' p | Go _ => ack_valid s r end.
Proof.
  intros K P A. pose proof K as [R T _ _ _ _ _]. pose proof (tx_len_bound s T). unfold check_ack.
  rewrite !(seq_add_ok (local_seq_no (tx s))) by (unfold i32_max; destruct (sent_syn s), (sent_fin s); lia). simpl.
  pose proof (rst_reply_ok s ip r P) as RS. pose proof (frame_refl s) as F0.
  pose proof (accepts_listen s ip r) as AL. pose proof (ack_range_ok s) as AR.
  assert (handshaken s -> exists s' o, challenge_ack_reply cx s ip r = Some (s', o) /\ frame s s' /\ empty_reply s' o) as CH.
  { intros HS. destruct (challenge_ok cx s ip r R HS (po_version _ _ P)) as (s' & o & E & F & _ & _ & EO). by exists s', o. }
  unfold handshaken in CH.
  unfold ack_valid, sent_syn, sent_fin in *.
  destruct (control r) eqn:Ec; destruct (ack_number r) as [a|] eqn:Ea; destruct (state s) eqn:Es; simpl in *.
  all: try (by eexists; split; [reflexivity|]).
  all: try (eexists; (split; [reflexivity|]); simpl; congruence).
  all: try (exfalso; by eapply AL).
  all: try (destruct RS as (p & -> & EP); [done|]; simpl).
  all: try (destruct (Z.eqb_spec a (wrap_i32 (local_seq_no (tx s) + 1))); eexists; (split; [reflexivity|]); simpl; by auto).
  all: destruct (seq_lt a _) eqn:L1; [by eexists; split; [reflexivity|]|].
  all: destruct (seq_gt a _) eqn:L2; [destruct CH as (s' & o & -> & F & EO); [done|]; by eexists; split; [reflexivity|]|].
  all: eexists; split; [reflexivity|]; simpl; intros _; by apply AR.
Qed.

(** ** The receive window *)

Lemma seq_of_0 w : wrap_i32 w = w -> seq_of w 0 = w.
Proof. intros H. unfold seq_of. by rewrite Z.add_0_r. Qed.

(** A number is the one of a position relative to [w]. *)
Lemma seq_of_rel w x : wrap_i32 x = x -> x = seq_of w (wrap_i32 (x - w)).
Proof.
  intros H. unfold seq_of. rewrite Z.add_comm, wrap_i32_idemp. replace (x - w + w) with x by lia. done.
Qed.

Lemma seq_of_cmp w p q : wrap_i32 (seq_of w p - seq_of w q) = wrap_i32 (p - q).
Proof. unfold seq_of. rewrite wrap_i32_diff. f_equal. lia. Qed.

Lemma in_window_spec w W p len :
  wrap_i32 w = w -> 0 <= W <= 2 ^ 30 -> 0 <= len <= 65536 -> - 2 ^ 31 <= p < 2 ^ 31 ->
  exists ok, segment_in_window (seq_of w 0) (seq_of w W) (seq_of w p) (seq_of w (p + len)) = Some ok /\
    (ok = true -> (0 <= p <= W /\ (p = W -> len = 0)) \/ (0 < len /\ 0 < p + len <= W)).
Proof.
  intros Hw HW Hl Hp. unfold segment_in_window. rewrite seq_of_sub by (unfold i32_max; lia). simpl.
  eexists. split; [done|]. rewrite (seq_of_eqb w 0 W) by (unfold near; lia).
  destruct (Z.eqb_spec (seq_of w p) (seq_of w (p + len))) as [E|E].
  - assert (len = 0) as ->.
    { pose proof (seq_of_cmp w (p + len) p) as C. rewrite E, Z.sub_diag, !wrap_i32_small in C; lia. }
    destruct (_ =? seq_of w (0 - 1)); [done|]. destruct (Z.eqb_spec 0 W) as [<-|].
    + destruct (Z.eqb_spec (seq_of w 0) (seq_of w p)) as [E0|]; [|done]. intros _. left.
      pose proof (seq_of_cmp w p 0) as C. rewrite <- E0, Z.sub_diag in C. rewrite !wrap_i32_small in C by lia. lia.
    + unfold seq_le, seq_lt. rewrite !seq_of_cmp. intros [H1%Z.leb_le H2%Z.ltb_lt]%andb_true_iff. left.
      revert H1 H2. unfold wrap_i32. div_lia.
  - destruct (Z.eqb_spec 0 W) as [<-|]; [done|]. unfold seq_le, seq_lt. rewrite !seq_of_cmp.
    assert (len <> 0) by (intros ->; by rewrite Z.add_0_r in E).
    intros [[H1%Z.leb_le H2%Z.ltb_lt]%andb_true_iff|[H1%Z.ltb_lt H2%Z.leb_le]%andb_true_iff]%orb_true_iff.
    + left. revert H1 H2. unfold wrap_i32. div_lia.
    + right. revert H1 H2. unfold wrap_i32. div_lia.
Qed.

(** The bytes [process] takes: a part of the payload that lies in the window, at the
    offset its sequence numbers say. *)
Record in_window (s : Socket) (r : TcpRepr) (bytes : list Z) (offset : Z) : Prop := {
  iw_offset : 0 <= offset;
  iw_fits : rx_len s + offset + Z.of_nat (length bytes) <= Z.of_nat (buf_capacity (rx_buffer (rx s)));
  iw_open : bytes <> [] -> state s <> Listen /\ state s <> SynSent;
  iw_part : bytes <> [] -> exists a, bytes = take (length bytes) (drop a (payload r)) /\
    (a + length bytes <= length (payload r))%nat /\
    seq_of (expected s) offset = wrap_i32 (seq_number r + Z.of_nat a);
  iw_whole : state s <> Listen -> state s <> SynSent -> seq_number r = expected s ->
    rx_len s + payload_len r <= Z.of_nat (buf_capacity (rx_buffer (rx s))) -> offset = 0 /\ bytes = payload r;
}.

Lemma in_window_nothing s r : rx_ok (rx s) -> (state s = Listen \/ state s = SynSent) -> in_window s r [] 0.
Proof.
  intros R L. constructor; try done; [|by intros ? ?; destruct L].
  pose proof (bo_len _ (ro_buf _ R)). unfold rx_len. simpl. lia.
Qed.

Lemma window_end_ok s :
  rx_ok (rx s) -> let W := Z.of_nat (buf_capacity (rx_buffer (rx s))) - rx_len s in
  0 <= W <= 2 ^ 30 /\
  seq_add (remote_seq_no (rx s)) (Z.of_nat (buf_capacity (rx_buffer (rx s)))) = Some (seq_of (expected s) W).
Proof.
  intros R W. pose proof (rx_len_bound s R). pose proof (ro_cap _ R). pose proof (bo_len _ (ro_buf _ R)).
  assert (0 <= W <= 2 ^ 30) as HW by (unfold W, rx_len in *; lia). split; [done|].
  rewrite seq_add_ok by (unfold i32_max; lia). unfold seq_of, expected, W. rewrite wrap_i32_idemp. do 2 f_equal. lia.
Qed.

(** The computation of the overlap, in positions relative to the window. *)
Lemma overlap_ok w W p r :
  0 <= W <= 2 ^ 30 -> payload_len r <= 65535 -> - 2 ^ 31 <= p < 2 ^ 31 -> seq_number r = seq_of w p ->
  (0 <= p <= W /\ (p = W -> segment_len r = 0)) \/ (0 < segment_len r /\ 0 < p + segment_len r <= W) ->
  let a := Z.max 0 p - p in
  let n := Z.min W (p + payload_len r) - Z.max 0 p in
  0 <= n /\ a + n <= payload_len r /\
  overlap (seq_of w 0) (seq_of w W) r = Some (take (Z.to_nat n) (drop (Z.to_nat a) (payload r)), Z.max 0 p).
Proof.
  intros HW Hn Hp Es H a n. assert (0 <= payload_len r) as Hn0 by (unfold payload_len; lia).
  assert (segment_len r = payload_len r \/ segment_len r = payload_len r + 1) as C.
  { unfold segment_len. destruct (control r); simpl; lia. }
  assert (0 <= n) by (unfold n; lia). assert (a + n <= payload_len r) by (unfold n, a; lia). split_and!; [done|done|].
  unfold overlap. rewrite Es, seq_of_add by (unfold i32_max; lia). simpl.
  rewrite seq_of_max, seq_of_min by (unfold near; lia). rewrite seq_of_le by (unfold near; lia).
  replace (_ <=? _) with true by (symmetry; apply Z.leb_le; lia). simpl.
  rewrite !seq_of_diff by (unfold near; lia). simpl. unfold subslice.
  replace (_ && _) with true; [simpl|symmetry; apply andb_true_iff; split; apply Z.leb_le; unfold payload_len in *; lia].
  do 3 f_equal; [f_equal; unfold n; lia|lia].
Qed.

#[local] Opaque segment_in_window overlap.

Lemma check_window_ok cx s ip r :
  sock_ok s -> packet_ok ip r ->
  exists st, check_window cx s ip r = Some st /\
    match st with
    | Return s' p => frame s s' /\ empty_reply s' p
    | Go (s', bytes, offset) => frame s s' /\ in_window s r bytes offset
    end.
Proof.
  intros K P. pose proof K as [R _ _ _ _ _ _]. unfold check_window. rewrite expected_ok by done. simpl.
  destruct (window_end_ok s R) as [HW ->]. set (W := Z.of_nat _ - rx_len s) in *. simpl.
  pose proof (seq_of_rel (expected s) _ (po_seq _ _ P)) as Ep. set (p := wrap_i32 (seq_number r - expected s)) in *.
  assert (- 2 ^ 31 <= p < 2 ^ 31) as Hp by apply wrap_i32_range.
  assert (0 <= segment_len r <= 65536) as Hl.
  { pose proof (po_payload _ _ P). unfold segment_len, payload_len in *. destruct (control r); simpl; lia. }
  clearbody p.
  assert (seq_add (seq_number r) (segment_len r) = Some (seq_of (expected s) (p + segment_len r))) as ->
    by (rewrite Ep; apply seq_of_add; unfold i32_max; lia). simpl.
  assert (expected s = seq_of (expected s) 0) as E0 by (symmetry; apply seq_of_0, wrap_i32_small, wrap_i32_range).
  destruct (in_window_spec (expected s) W p (segment_len r)) as (ok & Eok & Hok); try done.
  { apply wrap_i32_small, wrap_i32_range. }
  rewrite <- E0, <- Ep in Eok. rewrite Eok. simpl.
  assert (forall s', frame s s' -> handshaken s' -> exists s'' o, challenge_ack_reply cx s' ip r = Some (s'', o) /\ frame s s'' /\ empty_reply s'' o) as CH.
  { intros s' F HS. destruct (challenge_ok cx s' ip r (frame_rx_ok _ _ F R) HS (po_version _ _ P)) as (s'' & o & E & F' & _ & _ & EO).
    exists s'', o. split_and!; [done|by eapply frame_trans|done]. }
  assert (state s = Listen \/ state s = SynSent \/ (state s <> Listen /\ state s <> SynSent)) as [EL|[EL|[N1 N2]]]
    by (destruct (state s); auto).
  1, 2: rewrite EL; eexists; split; [done|]; split; [apply frame_refl|apply in_window_nothing; auto].
  destruct ok.
  - destruct (overlap_ok (expected s) W p r HW (po_payload _ _ P) Hp Ep (Hok eq_refl)) as (Hn & Ha & Eo).
    rewrite <- E0 in Eo. rewrite Eo. simpl. set (bytes := take _ _) in *.
    exists (Go (set_local_rx_last_seq s (Some (seq_number r)), bytes, Z.max 0 p)).
    split; [by destruct (state s)|]. split; [by constructor|].
    assert (Z.of_nat (length bytes) = Z.min W (p + payload_len r) - Z.max 0 p) as Lb.
    { unfold bytes. rewrite length_take, length_drop. unfold payload_len in *. lia. }
    constructor; [lia|unfold W in *; lia|done| |].
    + intros _. exists (Z.to_nat (Z.max 0 p - p)). split_and!.
      * rewrite <- (Nat2Z.id (length bytes)), Lb. done.
      * unfold payload_len in *. lia.
      * rewrite Ep. unfold seq_of. rewrite wrap_i32_idemp. f_equal. lia.
    + intros _ _ Q Fit. assert (p = 0) as ->.
      { pose proof (seq_of_cmp (expected s) p 0) as C. rewrite <- Ep, <- E0, Q, Z.sub_diag, !wrap_i32_small in C; lia. }
      split; [done|]. unfold bytes. simpl. rewrite drop_0, take_ge; [done|]. unfold W, payload_len in *. lia.
  - destruct (CH (if is_state s TimeWait then set_timer s (set_for_close (now cx)) else s)) as (s' & o & Ec & F & EO).
    { unfold is_state. destruct (decide (state s = TimeWait)) as [E|E]; [|by rewrite bool_decide_false; [apply frame_refl|]].
      rewrite bool_decide_true by done. constructor; try done; first [probe|unfold sent_syn; by rewrite E]. }
    { unfold is_state. by case_bool_decide. }
    rewrite Ec. exists (Return s' o). split; [by destruct (state s)|done].
Qed.

(** ** Acknowledgements *)

(** [n] octets of the transmit buffer are acknowledged by the number in [r], which is [k]
    ahead of the local one: a SYN or FIN makes the difference. *)
Definition ack_ready (s : Socket) (r : TcpRepr) (n : Z) : Prop :=
  0 <= n <= tx_len s /\
  match ack_number r with
  | Some a => exists k, a = wrap_i32 (local_seq_no (tx s) + k) /\ n <= k <= n + 1 /\ k <= tx_len s + 1
  | None => n = 0
  end.

(** Whether the number in [r] covers the FIN. *)
Definition fin_acked (s : Socket) (r : TcpRepr) (n : Z) (of_fin : bool) : Prop :=
  if of_fin then sent_fin s = true /\ n = tx_len s /\ ack_number r = Some (wrap_i32 (local_seq_no (tx s) + (n + 1)))
  else sent_syn s = false -> forall a, ack_number r = Some a -> a = wrap_i32 (local_seq_no (tx s) + n).

Lemma acked_ok cx s r :
  sock_ok s -> ack_valid s r -> match ack_number r with Some a => wrap_i32 a = a | None => True end -> control r <> CRst ->
  exists s' n of_fin all_, acked cx s r = Some (s', n, of_fin, all_) /\ s' = set_rtte s (rtte s') /\ ack_ready s r n /\
    (sent_syn s = true -> n = 0) /\ fin_acked s r n of_fin.
Proof.
  intros K V C N. specialize (V N). pose proof K as [R T _ _ _ _ _]. pose proof (tx_len_bound s T) as L. unfold acked.
  rewrite bool_decide_false by done. unfold ack_ready. destruct (ack_number r) as [a|] eqn:Ea.
  2: { exists s, 0, false, false. split_and!; first [done|lia|congruence|by destruct s]. }
  rewrite seq_add_ok by (unfold i32_max; destruct (sent_syn s); lia). simpl. destruct (sent_syn s) eqn:Sy.
  - assert (sent_fin s = false) as Sf by (unfold sent_syn, sent_fin in *; by destruct (state s)).
    subst a. unfold seq_ge, seq_diff. rewrite Z.sub_diag. simpl. rewrite Sf. simpl. change (wrap_i32 0) with 0.
    eexists _, _, _, _. split; [done|]. split_and!; try done; try lia; [|by unfold fin_acked; rewrite Sy].
    exists 1. split_and!; (done || lia).
  - rewrite Z.add_0_r, (to_local _ T). set (k := wrap_i32 (a - local_seq_no (tx s))) in *.
    assert (seq_ge a (local_seq_no (tx s)) = true) as G by (unfold seq_ge; apply Z.leb_le; fold k; lia).
    destruct (seq_ge_diff _ _ G) as [D _]. rewrite G, D. fold k. simpl.
    assert (a = wrap_i32 (local_seq_no (tx s) + k)) as Ak.
    { unfold k. rewrite Z.add_comm, wrap_i32_idemp. replace (_ - _ + _) with a by lia. done. }
    destruct (sent_fin s && (tx_len s + 1 =? k)) eqn:F.
    + apply andb_true_iff in F as [F1 F2%Z.eqb_eq]. rewrite F1 in *. eexists _, _, _, _. split; [done|].
      split_and!; try done; try lia; [exists k; split_and!; (done || lia)|].
      unfold fin_acked. split_and!; [done|lia|]. rewrite Ea, Ak. do 2 f_equal. lia.
    + assert (k <= tx_len s) as Hk.
      { apply andb_false_iff in F as [F|F%Z.eqb_neq]; [rewrite F in V; lia|]. destruct (sent_fin s); lia. }
      eexists _, _, _, _. split; [done|]. split_and!; try done; try lia; [exists k; split_and!; (done || lia)|].
      intros _ a' E'. congruence.
Qed.

Lemma shiftl_bound w x : 0 <= w < 2 ^ 16 -> 0 <= x <= 14 -> 0 <= Z.shiftl w x <= 2 ^ 30.
Proof.
  intros Hw Hx. rewrite Z.shiftl_mul_pow2 by lia. assert (2 ^ x <= 2 ^ 14) by (apply Z.pow_le_mono_r; lia).
  pose proof (Z.pow_pos_nonneg 2 x). nia.
Qed.

Lemma update_remote_ok cx s r n :
  sock_ok s -> ack_ready s r n -> 0 <= window_len r < 2 ^ 16 ->
  exists s' w b, update_remote cx s r n = Some (s', w) /\ drops (tx_buffer (tx s)) b (Z.to_nat n) /\
    s' = set_remote_last_ts (set_tx s (let t := tx s in mkTx b (local_seq_no t) (remote_last_seq t) (remote_win_len (tx s'))
           (remote_win_scale t) (remote_mss t) (local_rx_last_ack t) (local_rx_dup_acks t))) (Some (now cx)) /\
    remote_win_len (tx s') = Z.shiftl (window_len r) (match control r with CSyn => 0 | _ => default 0 (remote_win_scale (tx s)) end) /\
    0 <= remote_win_len (tx s') <= 2 ^ 30.
Proof.
  intros K A W. pose proof K as [_ [B _ _ S _ _ _] _ _ _ _ _]. destruct A as [[A1 A2] _]. unfold update_remote.
  set (sc := match control r with CSyn => 0 | _ => _ end).
  assert (0 <= sc <= 14) as Hs by (unfold sc; sock; destruct (control r); try lia; destruct (remote_win_scale (tx s)); simpl; lia).
  pose proof (shiftl_bound _ _ W Hs) as HW. unfold tx_len in *.
  destruct (dequeue_allocated_spec (tx_buffer (tx s)) (Z.to_nat n) B) as (b & E & D); [lia|].
  destruct (Z.ltb_spec 0 n) as [Hn|Hn].
  - clearbody sc. sock. destruct (Z.ltb_spec (Z.of_nat (buf_len (tx_buffer (tx s)))) n); [lia|]. rewrite E. simpl.
    eexists _, _, b. split; [done|]. split_and!; try done; simpl; lia.
  - assert (n = 0) as -> by lia. eexists _, _, (tx_buffer (tx s)). split; [done|]. split_and!; try done; try (sock; lia).
    constructor; try done; simpl; lia.
Qed.

(** The numbers after an acknowledgement [k] ahead, when [d] is in flight. *)
Lemma flight_after last loc k :
  wrap_i32 last = last -> 0 <= wrap_i32 (last - loc) <= 2 ^ 30 + 1 -> 0 <= k <= 2 ^ 30 + 1 ->
  let a := wrap_i32 (loc + k) in
  let d := wrap_i32 (last - loc) in
  seq_lt last a = (d <? k) /\ wrap_i32 (last - a) = d - k.
Proof.
  intros Hl Hd Hk a d. assert (wrap_i32 (last - a) = d - k) as E.
  { rewrite <- (wrap_i32_small (d - k)) by (unfold d; lia). unfold a, d.
    apply wrap_i32_mod. rewrite Zminus_mod, wrap_i32_eqm. rewrite <- Zminus_mod.
    rewrite (Zminus_mod (wrap_i32 _)), wrap_i32_eqm, <- Zminus_mod. f_equal. lia. }
  split; [|done]. unfold seq_lt. rewrite E. case_cmp; (done || lia).
Qed.

(** What [take_ack] leaves as it was. *)
Lemma take_ack_keeps s r w :
  let s' := take_ack s r w in
  state s' = state s /\ rx s' = rx s /\ tuple s' = tuple s /\ acks s' = acks s /\ opts s' = opts s /\
  tx_buffer (tx s') = tx_buffer (tx s) /\ remote_win_len (tx s') = remote_win_len (tx s) /\
  remote_win_scale (tx s') = remote_win_scale (tx s) /\
  local_seq_no (tx s') = default (local_seq_no (tx s)) (ack_number r) /\
  remote_last_seq (tx s') = match ack_number r with
                            | Some a => if seq_lt (remote_last_seq (tx s)) a then a else remote_last_seq (tx s)
                            | None => remote_last_seq (tx s)
                            end /\
  (ack_number r = None -> s' = s) /\ (no_probe s -> no_probe s').
Proof.
  simpl. unfold take_ack. destruct (ack_number r) as [a|]; [|by split_and!].
  destruct (match local_rx_last_ack (tx s) with Some _ => _ | None => _ end); [destruct (_ =? 3)|]; sock;
    destruct (seq_lt (remote_last_seq (tx s)) a); split_and!; first [done|probe].
Qed.

(** [s'] is [s] after the acknowledgement of [n] octets by [r]. *)
Record acked_to (s s' : Socket) (r : TcpRepr) (n : Z) : Prop := {
  at_state : state s' = state s;
  at_rx : rx s' = rx s;
  at_acks : acks s' = acks s;
  at_tuple : tuple s' = tuple s;
  at_opts : opts s' = opts s;
  at_drops : drops (tx_buffer (tx s)) (tx_buffer (tx s')) (Z.to_nat n);
  at_window : remote_win_len (tx s') =
    Z.shiftl (window_len r) (match control r with CSyn => 0 | _ => default 0 (remote_win_scale (tx s)) end);
  at_scale : remote_win_scale (tx s') = remote_win_scale (tx s);
  at_probe : no_probe s -> no_probe s';
  at_timer : ack_number r = None -> timer s' = timer s;
  at_local : local_seq_no (tx s') = default (local_seq_no (tx s)) (ack_number r);
  at_last : remote_last_seq (tx s') = match ack_number r with
    | Some a => if seq_lt (remote_last_seq (tx s)) a then a else remote_last_seq (tx s)
    | None => remote_last_seq (tx s)
    end;
}.

Lemma ack_step_ok cx s r n :
  sock_ok s -> ack_ready s r n -> 0 <= window_len r < 2 ^ 16 ->
  match ack_number r with Some a => wrap_i32 a = a | None => True end ->
  (sent_syn s = true -> in_flight (tx s) = 0 /\ ack_number r = None) ->
  exists s1 w, update_remote cx s r n = Some (s1, w) /\ sock_ok (take_ack s1 r w) /\ acked_to s (take_ack s1 r w) r n.
Proof.
  intros K A W C N. destruct (update_remote_ok cx s r n K A W) as (s1 & w & b & E & D & E1 & EW & HW).
  exists s1, w. split; [done|]. pose proof (take_ack_keeps s1 r w) as (T1 & T2 & T3 & T4 & T5 & T6 & T7 & T8 & T9 & T10 & T11 & T12).
  set (s2 := take_ack s1 r w) in *. clearbody s2.
  assert (state s1 = state s /\ rx s1 = rx s /\ tuple s1 = tuple s /\ acks s1 = acks s /\ opts s1 = opts s /\ tx_buffer (tx s1) = b /\
    remote_win_scale (tx s1) = remote_win_scale (tx s) /\ local_seq_no (tx s1) = local_seq_no (tx s) /\
    remote_last_seq (tx s1) = remote_last_seq (tx s)) as (U1 & U2 & U3 & U4 & U5 & U6 & U8 & U9 & U10) by (rewrite E1; by sock).
  rewrite U1 in T1. rewrite U2 in T2. rewrite U3 in T3. rewrite U4 in T4. rewrite U5 in T5. rewrite U6 in T6.
  rewrite U8 in T8. rewrite U9 in T9. rewrite U10 in T10.
  assert (timer s1 = timer s) as U11 by (rewrite E1; by sock).
  assert (no_probe s -> no_probe s2) as NP by (intros NP; apply T12; unfold no_probe; by rewrite U5, U11).
  assert (acked_to s s2 r n) as AT by (constructor; try congruence; [done|intros X; rewrite (T11 X); congruence]). split; [|done].
  pose proof K as [R T TU SH EM SY TM]. pose proof (tx_len_bound s T) as L. destruct T as [TB TC TW TS TF TL TK].
  destruct A as [[A1 A2] A3]. pose proof D as [D1 D2 D3 D4 _]. unfold tx_len in *.
  constructor; try congruence.
  - constructor; rewrite ?T6; [done|lia|rewrite T7; lia|by rewrite T8| | |].
    + rewrite D4. unfold in_flight. rewrite T9, T10. unfold in_flight in TF.
      destruct (ack_number r) as [a|]; [|simpl; lia]. destruct A3 as (k & -> & Hk & Hk').
      destruct (flight_after (remote_last_seq (tx s)) (local_seq_no (tx s)) k TL) as [F1 F2]; [lia|lia|].
      simpl. rewrite F1. destruct (Z.ltb_spec (wrap_i32 (remote_last_seq (tx s) - local_seq_no (tx s))) k).
      * rewrite Z.sub_diag. change (wrap_i32 0) with 0. lia.
      * rewrite F2. lia.
    + rewrite T10. destruct (ack_number r); [by destruct (seq_lt _ _)|done].
    + rewrite T9. by destruct (ack_number r).
  - intros Y. unfold synchronizing in *. rewrite T1 in Y. destruct (EM Y) as [E2 E3]. rewrite T2, T6, D4. split; [done|lia].
  - intros Y NF. unfold sent_syn in *. rewrite T1 in Y. destruct (N Y) as [N1 N2]. rewrite N2 in *. exfalso. apply NF.
    unfold in_flight in *. by rewrite T9, T10.
  - intros Y e. unfold sent_syn in *. rewrite T1 in Y. destruct (N Y) as [_ N2]. rewrite (at_timer _ _ _ _ AT N2). auto.
Qed.

(** ** The state machine *)

(** States after an acceptable segment without FIN, and after one with FIN. *)
Definition plain_next (x y : State) : bool :=
  match x, y with
  | SynReceived, Established | Established, Established | FinWait1, FinWait1 | FinWait1, FinWait2 | FinWait2, FinWait2
  | Closing, Closing | Closing, TimeWait | CloseWait, CloseWait | LastAck, LastAck | LastAck, Closed => true
  | _, _ => false
  end.
Definition fin_next (x y : State) : bool :=
  match x, y with
  | SynReceived, CloseWait | Established, CloseWait | FinWait1, Closing | FinWait1, TimeWait | FinWait2, TimeWait => true
  | _, _ => false
  end.

(** What [transition] does, by what it changes. *)
Inductive moved (cx : Context) (ip : IpRepr) (r : TcpRepr) (s : Socket) (c : TcpControl) : Socket -> bool -> Prop :=
| mv_ignored : moved cx ip r s c s false
| mv_reset s' :
    (no_probe s -> no_probe s') -> c = CRst -> rx s' = rx s -> tx s' = tx s -> acks s' = acks s -> tuple s' = None ->
    (state s = SynReceived /\ state s' = Listen \/ state s' = Closed) -> moved cx ip r s c s' false
| mv_listen s' :
    (no_probe s -> no_probe s') -> state s = Listen -> c = CSyn -> state s' = SynReceived ->
    rx s' = mkRx (assembler (rx s)) (rx_buffer (rx s)) (rx_fin_received (rx s)) (wrap_i32 (seq_number r + 1)) (local_rx_last_seq (rx s)) ->
    tx_buffer (tx s') = tx_buffer (tx s) -> local_seq_no (tx s') = random_seq_no cx -> remote_last_seq (tx s') = random_seq_no cx ->
    remote_win_len (tx s') = remote_win_len (tx s) -> remote_win_scale (tx s') = window_scale r ->
    remote_win_shift (acks s') = (if window_scale r is Some _ then remote_win_shift (acks s) else 0) ->
    tuple s' = Some (mkTuple (mkEndpoint (dst_addr ip) (dst_port r)) (mkEndpoint (src_addr ip) (src_port r))) ->
    opts s' = opts s -> timer s' = set_for_idle (now cx) (keep_alive (opts s)) -> moved cx ip r s c s' true
| mv_connected s' :
    (no_probe s -> no_probe s') -> state s = SynSent -> c = CSyn -> state s' = Established ->
    rx s' = mkRx (assembler (rx s)) (rx_buffer (rx s)) (rx_fin_received (rx s)) (wrap_i32 (seq_number r + 1)) (local_rx_last_seq (rx s)) ->
    tx_buffer (tx s') = tx_buffer (tx s) -> local_seq_no (tx s') = local_seq_no (tx s) ->
    remote_last_seq (tx s') = wrap_i32 (local_seq_no (tx s) + 1) ->
    remote_win_len (tx s') = remote_win_len (tx s) -> remote_win_scale (tx s') = window_scale r ->
    remote_win_shift (acks s') = (if window_scale r is Some _ then remote_win_shift (acks s) else 0) ->
    tuple s' = tuple s -> opts s' = opts s -> moved cx ip r s c s' true
| mv_plain s' :
    (no_probe s -> no_probe s') -> c = CNone -> plain_next (state s) (state s') = true -> rx s' = rx s -> tx s' = tx s -> acks s' = acks s ->
    tuple s' = tuple s \/ tuple s' = None -> opts s' = opts s -> moved cx ip r s c s' true
| mv_fin s' :
    (no_probe s -> no_probe s') -> c = CFin -> fin_next (state s) (state s') = true ->
    rx s' = mkRx (assembler (rx s)) (rx_buffer (rx s)) true (wrap_i32 (remote_seq_no (rx s) + 1)) (local_rx_last_seq (rx s)) ->
    tx s' = tx s -> acks s' = acks s -> tuple s' = tuple s -> opts s' = opts s -> moved cx ip r s c s' true.

Lemma transition_moves cx s ip r c of_fin all_ :
  exists s' go, transition cx s ip r c of_fin all_ = Some (s', go) /\ moved cx ip r s c s' go.
Proof.
  unfold transition, take_fin. rewrite !seq_add_ok by (unfold i32_max; lia).
  assert (exists o, take_mss s r = o /\ match o with Some s1 => exists m, s1 = set_remote_mss s m | None => True end) as (o & Eo & Ho).
  { eexists. split; [done|]. unfold take_mss. destruct (max_seg_size r); [destruct (_ =? 0); [done|by eexists]|].
    exists (remote_mss (tx s)). by destruct s as [? ? ? ? [] ? ? ? ? ?]. }
  rewrite Eo. unfold idle_timer, close_timer, take_scale in *.
  destruct c, (state s) eqn:Es; simpl.
  all: try (by eexists _, _; split; [reflexivity|]; apply mv_ignored).
  all: try (by eexists _, _; split; [reflexivity|]; eapply mv_reset; try probe; auto).
  all: try (destruct of_fin; simpl; match goal with |- context [if ?b then _ else _] => lazymatch type of b with bool => destruct b end | _ => idtac end).
  all: try (eexists _, _; split; [reflexivity|]; apply mv_plain; [probe|..]; sock; rewrite ?Es; auto; fail).
  all: try (eexists _, _; split; [reflexivity|]; apply mv_fin; [probe|..]; sock; rewrite ?Es; auto; fail).
  all: destruct o as [s1|]; [|by eexists _, _; split; [reflexivity|]; apply mv_ignored].
  all: destruct Ho as [m ->]; clear Eo; destruct (window_scale r) eqn:Ew.
  all: eexists _, _; split; [reflexivity|]; match type of Es with _ = Listen => apply mv_listen | _ => apply mv_connected end; rewrite ?Ew;
    first [probe|reflexivity|assumption].
Qed.

Lemma fin_leaves cx s ip r c all_ s' : transition cx s ip r c true all_ = Some (s', true) -> sent_fin s = true -> sent_fin s' = false.
Proof.
  unfold transition, take_fin. rewrite !seq_add_ok by (unfold i32_max; lia). unfold sent_fin.
  destruct (state s) eqn:Es; try done; destruct c; simpl; intros [= <-] _; simpl; try done; by destruct all_.
Qed.
