(* ===== verification/TcpSafe.v ===== *)
(** TCP sockets keep their invariant and never panic, whatever the network delivers. *)

From stdpp Require Import base numbers option list.
From S2P Require Import Prelude Slice Assembler AssemblerSpec SockBuf.
From S2P Require Import TcpSeq TcpSocket TcpProcess TcpDispatch TcpInv.

(** ** Transitions *)

Lemma plain_open x y : plain_next x y = true -> y <> Listen /\ y <> SynSent /\ y <> SynReceived.
Proof. by destruct x, y. Qed.
Lemma fin_open x y : fin_next x y = true -> y <> Listen /\ y <> SynSent /\ y <> SynReceived.
Proof. by destruct x, y. Qed.

Lemma sock_ok_open s :
  rx_ok (rx s) -> tx_ok (tx s) -> tuple_ok (tuple s) -> 0 <= remote_win_shift (acks s) ->
  state s <> Listen /\ state s <> SynSent /\ state s <> SynReceived -> sock_ok s.
Proof.
  intros R T U H (N1 & N2 & N3). constructor; try done.
  - unfold synchronizing. by destruct (state s).
  - unfold sent_syn. by destruct (state s).
  - unfold sent_syn. by destruct (state s).
Qed.

Lemma tcp_transition_ok cx ip r s c s' go : sock_ok s -> packet_ok ip r -> moved cx ip r s c s' go -> sock_ok s'.
Proof.
  intros K P M. pose proof K as [R T U SH EM SY TM]. destruct M as
    [|s' _ _ E1 E2 E3 E4 H|s' _ E0 _ E1 E2 E3 E4 E5 E6 E7 E8 E9 _ E11|s' _ E0 _ E1 E2 E3 E4 E5 E6 E7 E8 E9 _
     |s' _ _ N E1 E2 E3 E4 _|s' _ _ N E1 E2 E3 E4 _]; [done|..].
  - destruct H as [[H1 H2]|H].
    + constructor; rewrite ?E1, ?E2, ?E3, ?E4; try done; [|by unfold sent_syn; rewrite H2..].
      intros _. apply EM. unfold synchronizing. by rewrite H1.
    + apply sock_ok_open; rewrite ?E1, ?E2, ?E3, ?E4, ?H; done.
  - destruct (EM ltac:(unfold synchronizing; by rewrite E0)) as [X1 X2]. destruct T as [TB TC TW TS TF TL TK].
    assert (in_flight (tx s') = 0) as Z by (unfold in_flight; by rewrite E4, E5, Z.sub_diag).
    constructor.
    + destruct R as [R1 R2 R3 R4]. constructor; by rewrite E2.
    + constructor; rewrite ?Z, ?E3; try done; [by rewrite E6|rewrite E7; apply (po_scale _ _ P)|lia|rewrite E5|rewrite E4].
      all: unfold random_seq_no; apply wrap_i32_small, wrap_i32_range.
    + rewrite E9. simpl. symmetry. apply (po_version _ _ P).
    + rewrite E8. destruct (window_scale r); lia.
    + intros _. by rewrite E2, E3.
    + by rewrite Z.
    + intros _ e. by rewrite E11.
  - destruct (EM ltac:(unfold synchronizing; by rewrite E0)) as [X1 X2]. destruct T as [TB TC TW TS TF TL TK].
    apply sock_ok_open; [..|by rewrite E1].
    + destruct R as [R1 R2 R3 R4]. constructor; by rewrite E2.
    + assert (in_flight (tx s') = 1) as Z.
      { unfold in_flight. rewrite E4, E5, <- Z.add_opp_r, wrap_i32_idemp. replace (_ + 1 + _) with 1 by lia. done. }
      constructor; rewrite ?Z, ?E3; try done; [by rewrite E6|rewrite E7; apply (po_scale _ _ P)|lia|rewrite E5|by rewrite E4].
      apply wrap_i32_small, wrap_i32_range.
    + by rewrite E9.
    + rewrite E8. destruct (window_scale r); lia.
  - apply sock_ok_open; rewrite ?E1, ?E2, ?E3; try done; [|by eapply plain_open]. destruct E4 as [->| ->]; done.
  - apply sock_ok_open; rewrite ?E2, ?E3, ?E4; try done; [|by eapply fin_open].
    destruct R as [R1 R2 R3 R4]. constructor; by rewrite E1.
Qed.

(** After a transition [process] goes on with, the acknowledgement can be taken, and only
    a connection that is open has data. *)
Lemma moved_ready cx ip r s c s' n :
  sock_ok s -> moved cx ip r s c s' true -> ack_ready s r n -> (state s = Listen -> ack_number r = None) ->
  ack_ready s' r n /\ (sent_syn s' = true -> in_flight (tx s') = 0 /\ ack_number r = None) /\
  (state s <> Listen -> synchronizing s' = false) /\
  assembler (rx s') = assembler (rx s) /\ rx_buffer (rx s') = rx_buffer (rx s).
Proof.
  intros K M A L. inversion M as
    [|?|s1 _ E0 _ E1 E2 E3 E4 E5 E6 E7 E8 E9 _ E11|s1 _ E0 _ E1 E2 E3 E4 E5 E6 E7 E8 E9 _
     |s1 _ _ N E1 E2 E3 E4 _|s1 _ _ N E1 E2 E3 E4 _]; subst.
  - specialize (L E0). unfold ack_ready, tx_len in *. rewrite L in *. rewrite E2, E3. split_and!; try done; try apply A.
    intros _. split; [|done]. unfold in_flight. by rewrite E4, E5, Z.sub_diag.
  - unfold ack_ready, tx_len in *. rewrite E2, E3, E4. unfold sent_syn, synchronizing. rewrite E1. split_and!; try done; apply A.
  - unfold ack_ready, tx_len in *. rewrite E1, E2. apply plain_open in N as (? & ? & ?).
    unfold sent_syn, synchronizing. split_and!; try done; try apply A; by destruct (state s').
  - unfold ack_ready, tx_len in *. rewrite E1, E2. apply fin_open in N as (? & ? & ?).
    unfold sent_syn, synchronizing. split_and!; try done; try apply A; by destruct (state s').
Qed.

(** ** Payload *)

(** [s'] is [s] with [bytes] written at [offset] after the queue of received bytes and
    [n] bytes added to the queue. *)
Record received (s s' : Socket) (bytes : list Z) (offset n : Z) : Prop := {
  rc_rx : rx_ok (rx s');
  rc_takes : takes (with_range (assembler (rx s)) offset (Z.of_nat (length bytes))) (assembler (rx s')) n;
  rc_writes : exists b, writes (rx_buffer (rx s)) b (buf_len (rx_buffer (rx s)) + Z.to_nat offset) bytes /\
    rx_buffer (rx s') = mkBuf (storage b) (read_at b) (buf_len b + Z.to_nat n);
  rc_rest : s' = set_rx s (mkRx (assembler (rx s')) (rx_buffer (rx s')) (rx_fin_received (rx s)) (remote_seq_no (rx s)) (local_rx_last_seq (rx s)));
}.

Lemma takes_bound a o k a' n M :
  asm_wf a -> takes (with_range a o k) a' n -> zsum tot a <= M -> 0 <= o -> 0 <= k -> o + k <= M -> n <= M.
Proof.
  intros W [_ T _ _ _] HM Ho Hk Hok. destruct (decide (n <= M)) as [|N]; [done|]. exfalso.
  assert (0 <= zsum tot a) by (eapply zsum_tot_nonneg, W). specialize (T M ltac:(lia)). unfold with_range in T.
  rewrite (present_beyond true) in T by (apply W || done). unfold in_range in T. case_cmp; (done || lia).
Qed.

Lemma take_payload_ok s bytes offset :
  rx_ok (rx s) -> 0 <= offset -> rx_len s + offset + Z.of_nat (length bytes) <= Z.of_nat (buf_capacity (rx_buffer (rx s))) ->
  exists o, take_payload s bytes offset = Some o /\
    match o with
    | None => 0 < offset /\ isolated (assembler (rx s)) offset (Z.of_nat (length bytes))
    | Some s' => exists n, received s s' bytes offset n
    end.
Proof.
  intros R Ho Fit. pose proof R as [W B C F]. unfold take_payload.
  pose proof (rx_len_bound s R) as RL. unfold rx_len in *. set (k := Z.of_nat (length bytes)) in *.
  destruct (add_then_remove_front_spec (assembler (rx s)) offset k W Ho) as [(a & n & -> & T & La & Za)|(-> & Hp & I)].
  1, 2: unfold k, usize_modulus; lia.
  2: { simpl. exists None. split; [done|]. by split. }
  simpl. destruct (write_unallocated_spec (rx_buffer (rx s)) (Z.to_nat offset) bytes B) as (b & Ew & Wr); [lia|].
  sock. rewrite Ew. simpl. rewrite Nat.eqb_refl. simpl.
  assert (n <= Z.of_nat (buf_capacity (rx_buffer (rx s)) - buf_len (rx_buffer (rx s)))) as Hn.
  { eapply (takes_bound _ _ _ _ _ _ W T); unfold k; lia. }
  pose proof (tk_nonneg _ _ _ T) as Hn0. pose proof Wr as [WK WC WL _].
  assert (rx_ok (mkRx a (mkBuf (storage b) (read_at b) (buf_len b + Z.to_nat n)) (rx_fin_received (rx s)) (remote_seq_no (rx s))
            (local_rx_last_seq (rx s)))) as R'.
  { assert (buf_capacity (mkBuf (storage b) (read_at b) (buf_len b + Z.to_nat n)) = buf_capacity b) as C' by done.
    constructor; simpl.
    - apply T.
    - constructor; rewrite ?C'; simpl; [lia|apply WK].
    - rewrite C'. lia.
    - rewrite C'. lia. }
  destruct (Z.eqb_spec n 0) as [->|].
  - eexists. split; [done|]. exists 0. rewrite Nat.add_0_r in R'. constructor; simpl; [by destruct b|by destruct b| |done].
    exists b. split; [done|]. rewrite Nat.add_0_r. by destruct b.
  - rewrite enqueue_unallocated_spec; [|done|lia]. simpl. eexists. split; [done|]. exists n. constructor; simpl; try done.
    exists b. by split.
Qed.

Lemma received_ok s s' bytes offset n :
  sock_ok s -> received s s' bytes offset n -> synchronizing s = false -> sock_ok s'.
Proof.
  intros [R T U H E Q TM] [R' _ _ ER] N. apply sock_ok_open; [done|..]; rewrite ER; sock; try done.
  unfold synchronizing in N. by destruct (state s).
Qed.

Lemma delay_ack_ok cx s : rx_ok (rx s) -> exists s', delay_ack cx s = Some s' /\ frame s s' /\ opts s' = opts s.
Proof.
  intros R. unfold delay_ack. destruct (ack_delay (acks s)) as [d|]; [|by exists s; split_and!; [|apply frame_refl|]].
  destruct (ack_to_transmit_ok s R) as [a ->]. destruct (window_to_update_ok s R) as [w ->]. simpl.
  destruct (a || w); eexists; (split; [done|]); split; [by constructor|done|apply frame_refl|done].
Qed.

Lemma is_empty_ok a : asm_wf a -> exists b, assembler_is_empty a = Some b.
Proof. intros [_ _ N]. unfold assembler_is_empty. destruct a; [done|]. by eexists. Qed.

(** What becomes of the payload. *)
Inductive payload_taken (s : Socket) (bytes : list Z) (offset : Z) : Socket -> Prop :=
| pt_nothing : bytes = [] \/ 0 < offset -> payload_taken s bytes offset s
| pt_received s1 s' n :
    bytes <> [] -> received s s1 bytes offset n -> frame s1 s' -> opts s' = opts s -> payload_taken s bytes offset s'.

Lemma tcp_receive_ok cx s ip r bytes offset :
  sock_ok s -> packet_ok ip r -> 0 <= offset ->
  rx_len s + offset + Z.of_nat (length bytes) <= Z.of_nat (buf_capacity (rx_buffer (rx s))) ->
  (bytes <> [] -> synchronizing s = false) ->
  exists s' o, receive cx s ip r bytes offset = Some (s', o) /\ sock_ok s' /\ payload_taken s bytes offset s' /\
    tx s' = tx s /\ empty_reply s' o.
Proof.
  intros K P Ho Fit N. pose proof (so_rx _ K) as R. unfold receive. destruct (Nat.eqb_spec (length bytes) 0) as [E|E].
  { exists s, None. split_and!; try done. constructor. left. by apply nil_length_inv. }
  assert (bytes <> []) as Nb by (by intros ->). destruct (is_empty_ok _ (ro_asm _ R)) as [w ->]. simpl.
  destruct (take_payload_ok s bytes offset R Ho Fit) as ([s1|] & -> & X); simpl.
  2: { destruct X as [Hp _]. exists s, None. split_and!; try done. constructor. by right. }
  destruct X as [n X]. specialize (N Nb). pose proof (received_ok _ _ _ _ _ K X N) as K1. pose proof (rc_rest _ _ _ _ _ X) as E1.
  destruct (delay_ack_ok cx s1 (so_rx _ K1)) as (s2 & -> & F2 & O2). simpl. pose proof (sock_ok_frame _ _ K1 F2) as K2.
  destruct (is_empty_ok _ (ro_asm _ (so_rx _ K2))) as [e ->]. simpl.
  assert (tx s1 = tx s /\ opts s1 = opts s) as [T1 O1] by (rewrite E1; by sock).
  assert (handshaken s2) as HS.
  { unfold handshaken, synchronizing in *. rewrite (fr_state _ _ F2), E1. sock. by destruct (state s). }
  pose proof (fr_tx _ _ F2) as T2. destruct (negb e || negb w).
  - destruct (ack_reply_ok s2 ip r (so_rx _ K2) HS (po_version _ _ P)) as (s3 & p & -> & F3 & _ & O3 & _ & _ & EP). simpl.
    exists s3, (Some p). pose proof (fr_tx _ _ F3) as T3.
    split_and!; [done|by eapply sock_ok_frame|by econstructor; [done|exact X|by eapply frame_trans|congruence]|congruence|done].
  - exists s2, None. split_and!; [done|done|by econstructor; [done|exact X|done|congruence]|congruence|done].
Qed.

(** The control flag [process] acts on. *)
Definition acts_on (s : Socket) (r : TcpRepr) (c : TcpControl) : Prop :=
  (c = CFin -> control r = CFin /\ seq_number r = expected s) /\ (c = CSyn <-> control r = CSyn) /\
  (c = CRst <-> control r = CRst).

Lemma effective_control_ok s r : rx_ok (rx s) -> exists c, effective_control s r = Some c /\ acts_on s r c.
Proof.
  intros R. unfold effective_control. rewrite expected_ok by done. simpl. eexists. split; [done|]. unfold acts_on.
  destruct (control r); simpl; split_and!; try done.
  all: destruct (Z.eqb_spec (expected s) (seq_number r)); simpl; try done.
Qed.

(** ** A segment *)

(** What [process] does with a segment, in the order it does it: [s1] after the checks,
    [s2] after the transition, [s3] after the acknowledgement. *)
Inductive processed (cx : Context) (s : Socket) (ip : IpRepr) (r : TcpRepr) : Socket -> Prop :=
| ps_refused s' : frame s s' -> processed cx s ip r s'
| ps_stopped s1 bytes offset c s2 :
    frame s s1 -> in_window s r bytes offset -> acts_on s r c -> moved cx ip r s1 c s2 false -> processed cx s ip r s2
| ps_taken s1 bytes offset c s2 n of_fin s3 s4 :
    frame s s1 -> in_window s r bytes offset -> acts_on s r c -> ack_valid s r -> ack_ready s1 r n ->
    (sent_syn s1 = true -> n = 0) -> fin_acked s1 r n of_fin -> (of_fin = true -> sent_fin s2 = false) ->
    moved cx ip r s1 c s2 true -> acked_to s2 s3 r n -> payload_taken s3 bytes offset s4 -> sock_ok s3 -> processed cx s ip r s4.

Lemma acts_on_frame s s' r c : frame s s' -> acts_on s' r c -> acts_on s r c.
Proof. intros F. unfold acts_on. by rewrite (frame_expected _ _ F). Qed.

Lemma ack_valid_frame s s' r : frame s s' -> ack_valid s r -> ack_valid s' r.
Proof.
  intros F. unfold ack_valid, sent_syn, sent_fin, tx_len. by rewrite (fr_state _ _ F), (fr_tx _ _ F).
Qed.

Lemma set_rtte_frame s x : frame s (set_rtte s x).
Proof. by constructor. Qed.

(** [process] after the two checks. *)
Lemma process_tail cx s s0 ip r bytes offset :
  sock_ok s -> packet_ok ip r -> frame s s0 -> in_window s r bytes offset -> ack_valid s r ->
  (state s = Listen -> ack_number r = None) ->
  exists s' o,
    ('(s, ack_len, ack_of_fin, ack_all) ← acked cx s0 r;
     c ← effective_control s r;
     '(s, go) ← transition cx s ip r c ack_of_fin ack_all;
     if negb go then Some (s, None)
     else
       '(s, is_window_update) ← update_remote cx s r ack_len;
       receive cx (take_ack s r is_window_update) ip r bytes offset) = Some (s', o) /\
    sock_ok s' /\ processed cx s ip r s' /\ empty_reply s' o.
Proof.
  intros K P F IW AV NL. pose proof (sock_ok_frame _ _ K F) as K0. pose proof (ack_valid_frame _ _ _ F AV) as AV0.
  destruct (decide (control r = CRst)) as [ER|NR].
  - assert (acked cx s0 r = Some (s0, 0, false, false)) as -> by (unfold acked; by rewrite bool_decide_true). simpl.
    destruct (effective_control_ok s0 r (so_rx _ K0)) as (c & -> & AC). simpl.
    destruct (transition_moves cx s0 ip r c false false) as (s1 & go & -> & M). simpl.
    pose proof (tcp_transition_ok _ _ _ _ _ _ _ K0 P M) as K1. assert (c = CRst) as -> by (by apply AC).
    assert (go = false) as -> by (inversion M; done).
    exists s1, None. split_and!; [done|done| |done]. eapply ps_stopped; [exact F|exact IW|by eapply acts_on_frame|exact M].
  - destruct (acked_ok cx s0 r K0 AV0 (po_ack _ _ P) NR) as (s1 & n & fin & all_ & -> & E1 & AR & SN & FA). simpl.
    assert (frame s0 s1) as F1 by (rewrite E1; apply set_rtte_frame). pose proof (frame_trans _ _ _ F F1) as F01.
    pose proof (sock_ok_frame _ _ K0 F1) as K1.
    assert (ack_ready s1 r n) as AR1 by (unfold ack_ready, tx_len; by rewrite (fr_tx _ _ F1)).
    assert (sent_syn s1 = true -> n = 0) as SN1 by (unfold sent_syn; by rewrite (fr_state _ _ F1)).
    assert (fin_acked s1 r n fin) as FA1 by (unfold fin_acked, sent_fin, sent_syn, tx_len; by rewrite (fr_state _ _ F1), (fr_tx _ _ F1)).
    destruct (effective_control_ok s1 r (so_rx _ K1)) as (c & -> & AC). simpl.
    destruct (transition_moves cx s1 ip r c fin all_) as (s2 & go & ET & M). rewrite ET. simpl.
    pose proof (tcp_transition_ok _ _ _ _ _ _ _ K1 P M) as K2. pose proof (acts_on_frame _ _ _ _ F01 AC) as AC0. destruct go; simpl.
    2: { exists s2, None. split_and!; [done|done|by eapply ps_stopped|done]. }
    destruct (moved_ready _ _ _ _ _ _ _ K1 M AR1) as (AR2 & NS & SY & EA & EB).
    { rewrite (fr_state _ _ F01). exact NL. }
    destruct (ack_step_ok cx s2 r n K2 AR2 (po_window _ _ P) (po_ack _ _ P) NS) as (s3 & w & -> & K3 & AT). simpl.
    set (s4 := take_ack s3 r w) in *.
    assert (rx_buffer (rx s4) = rx_buffer (rx s)) as EB4 by (rewrite (at_rx _ _ _ _ AT), EB; apply F01).
    destruct (tcp_receive_ok cx s4 ip r bytes offset K3 P (iw_offset _ _ _ _ IW)) as (s5 & o & -> & K5 & PT & T5 & EP).
    { rewrite (rx_len_eq s s4 EB4), EB4. apply IW. }
    { intros Nb. destruct (iw_open _ _ _ _ IW Nb) as [N1 _]. unfold synchronizing. rewrite (at_state _ _ _ _ AT).
      apply SY. by rewrite (fr_state _ _ F01). }
    exists s5, o. split_and!; [done|done| |done].
    eapply ps_taken; [exact F01|exact IW|exact AC0|exact AV|exact AR1|exact SN1|exact FA1| |exact M|exact AT|exact PT|exact K3].
    intros ->. eapply fin_leaves; [exact ET|]. apply FA1.
Qed.

Lemma process_ok cx s ip r :
  sock_ok s -> packet_ok ip r -> accepts s ip r = true ->
  exists s' o, process cx s ip r = Some (s', o) /\ sock_ok s' /\ processed cx s ip r s' /\ empty_reply s' o.
Proof.
  intros K P A. unfold process. rewrite A. simpl.
  destruct (check_ack_ok cx s ip r K P A) as ([u|s1 p] & -> & X); simpl.
  2: { destruct X as [F E]. exists s1, p. split_and!; [done|by eapply sock_ok_frame|by constructor|done]. }
  destruct (check_window_ok cx s ip r K P) as ([[[s1 bytes] offset]|s1 p] & -> & Y).
  - destruct Y as [F IW]. apply process_tail; try done. intros EL. destruct (ack_number r) eqn:Ea; [|done].
    exfalso. by eapply accepts_listen.
  - destruct Y as [F E]. exists s1, p. split_and!; [done|by eapply sock_ok_frame|by constructor|done].
Qed.


(** The interface hands a segment to the first TCP socket that accepts it, and answers a
    segment no socket accepts with a reset (dependency/smoltcp/src/iface/interface/mod.rs,
    [process_tcp] after parsing).

    The set of sockets is the list of its TCP sockets; others are skipped. *)

(** [None] inside: no socket accepts the segment. *)
Fixpoint offer (cx : Context) (sockets : list Socket) (ip : IpRepr) (r : TcpRepr) : option (option (list Socket * option Packet)) :=
  match sockets with
  | [] => Some None
  | s :: sockets =>
      if accepts s ip r then '(s, o) ← process cx s ip r; Some (Some (s :: sockets, o))
      else x ← offer cx sockets ip r; Some (match x with Some (l, o) => Some (s :: l, o) | None => None end)
  end.

Definition demux (cx : Context) (sockets : list Socket) (ip : IpRepr) (r : TcpRepr) : option (list Socket * option Packet) :=
  x ← offer cx sockets ip r;
  match x with
  | Some y => Some y
  | None => if bool_decide (control r = CRst) then Some (sockets, None) else p ← rst_reply ip r; Some (sockets, Some p)
  end.

(** The socket at which the segment was processed, and what it became. *)
Definition processed_at (cx : Context) (sockets : list Socket) (ip : IpRepr) (r : TcpRepr) (sockets' : list Socket) (o : option Packet) : Prop :=
  exists pre s s' post, sockets = pre ++ s :: post /\ sockets' = pre ++ s' :: post /\ Forall (fun s => accepts s ip r = false) pre /\
    accepts s ip r = true /\ process cx s ip r = Some (s', o).

Lemma offer_ok cx sockets ip r : Forall sock_ok sockets -> packet_ok ip r ->
  (exists sockets' o, offer cx sockets ip r = Some (Some (sockets', o)) /\ Forall sock_ok sockets' /\ processed_at cx sockets ip r sockets' o) \/
  (offer cx sockets ip r = Some None /\ Forall (fun s => accepts s ip r = false) sockets).
Proof.
  intros F P. induction F as [|s sockets K F IH]; [by right|]. cbn [offer]. destruct (accepts s ip r) eqn:A.
  - left. destruct (process_ok cx s ip r K P A) as (s' & o & E & K' & _). rewrite E. eexists _, o. split; [done|]. split; [by constructor|].
    by exists [], s, s', sockets.
  - destruct IH as [(l & o & -> & Fl & pre & x & x' & post & -> & -> & Fp & Ax & Ex)|[-> N]].
    + left. eexists _, o. split; [done|]. split; [by constructor|]. exists (s :: pre), x, x', post. split_and!; try done. by constructor.
    + right. split; [done|by constructor].
Qed.

Lemma reset_reply_ok ip r : packet_ok ip r -> control r <> CRst -> exists p, rst_reply ip r = Some p /\ payload (snd p) = [] /\ control (snd p) = CRst.
Proof.
  intros P N. unfold rst_reply. rewrite bool_decide_false by done. pose proof (po_payload _ _ P) as L.
  assert (exists a, (if bool_decide (control r = CSyn) && match ack_number r with None => true | _ => false end
    then a ← seq_add (seq_number r) (segment_len r); Some (Some a) else Some None) = Some a) as [a ->].
  { destruct (_ && _); [|by eexists]. rewrite seq_add_ok; [by eexists|]. unfold segment_len, i32_max. destruct (control r); simpl; lia. }
  simpl. unfold reply, ip_new. rewrite (po_version _ _ P), eqb_reflx. simpl. by eexists.
Qed.

(** Every segment is handled: it changes at most one socket, the first that accepts it, and
    a reset is never answered with a reset. *)
Lemma demux_ok cx sockets ip r : Forall sock_ok sockets -> packet_ok ip r ->
  exists sockets' o, demux cx sockets ip r = Some (sockets', o) /\ Forall sock_ok sockets' /\
    (processed_at cx sockets ip r sockets' o \/
     sockets' = sockets /\ Forall (fun s => accepts s ip r = false) sockets /\
     match o with Some p => control r <> CRst /\ payload (snd p) = [] /\ control (snd p) = CRst | None => control r = CRst end).
Proof.
  intros F P. unfold demux. destruct (offer_ok cx sockets ip r F P) as [(l & o & -> & Fl & H)|[-> N]]; simpl.
  - exists l, o. split_and!; [done|done|by left].
  - case_bool_decide as C; [exists sockets, None; split_and!; [done|done|by right]|].
    destruct (reset_reply_ok ip r P C) as (p & -> & E1 & E2). exists sockets, (Some p). split_and!; [done|done|by right].
Qed.
