(* ===== verification/TcpOut.v ===== *)
(** Transmission keeps the invariant of a TCP socket, and what a transmitted segment
    holds. *)

From stdpp Require Import base numbers option list.
From S2P Require Import Prelude Slice Assembler AssemblerSpec SockBuf.
From S2P Require Import TcpSeq TcpSocket TcpProcess TcpDispatch TcpInv TcpSafe.

(** ** Timers *)

(** [s'] is [s] after its timers: perhaps closed, perhaps about to send again. *)
Record timers_run (s s' : Socket) : Prop := {
  tr_rx : rx s' = rx s;
  tr_acks : acks s' = acks s;
  tr_tuple : tuple s' = tuple s;
  tr_opts : opts s' = opts s;
  tr_state : state s' = state s \/ state s' = Closed;
  tr_buffer : tx_buffer (tx s') = tx_buffer (tx s);
  tr_local : local_seq_no (tx s') = local_seq_no (tx s);
  tr_window : remote_win_len (tx s') = remote_win_len (tx s) /\ remote_win_scale (tx s') = remote_win_scale (tx s);
  tr_probe : no_probe s -> no_probe s';
  tr_last : remote_last_seq (tx s') = remote_last_seq (tx s) \/ remote_last_seq (tx s') = local_seq_no (tx s);
}.

Lemma rewound_tx_ok s :
  sock_ok s -> tx_ok (let t := tx s in mkTx (tx_buffer t) (local_seq_no t) (local_seq_no t) (remote_win_len t) (remote_win_scale t)
    (remote_mss t) (local_rx_last_ack t) (local_rx_dup_acks t)).
Proof.
  intros K. destruct (so_tx _ K) as [A B C D E F G]. constructor; simpl; try done. unfold in_flight. simpl.
  rewrite Z.sub_diag. change (wrap_i32 0) with 0. lia.
Qed.

Lemma run_timers_ok cx s t : sock_ok s -> tuple s = Some t -> exists s', run_timers cx s = Some s' /\ sock_ok s' /\ timers_run s s'.
Proof.
  intros K E. unfold run_timers. set (s1 := match remote_last_ts s with None => _ | _ => _ end).
  assert (frame s s1 /\ opts s1 = opts s /\ acks s1 = acks s /\ rx s1 = rx s) as (F & O1 & A1 & R1).
  { unfold s1. destruct (remote_last_ts s); (split_and!; [|done..]); [apply frame_refl|by constructor]. }
  pose proof (sock_ok_frame _ _ K F) as K1. clearbody s1. pose proof (fr_tx _ _ F) as T1.
  assert (timers_run s s1) as TR by (constructor; try congruence; [apply F|left; apply F|by rewrite T1|apply F|left; congruence]).
  destruct (timed_out s1 (now cx)).
  { eexists. split; [done|]. split.
    - apply sock_ok_open; try apply K1. by simpl.
    - destruct TR. constructor; try done. by right. }
  destruct (seq_to_transmit_ok cx s1 t (so_tx _ K1)) as [x ->]; [by rewrite (fr_tuple _ _ F)|]. simpl.
  destruct x; [by exists s1|]. destruct (should_retransmit _ _); [|by exists s1]. eexists. split; [done|]. split.
  - pose proof K1 as [K2 K3 K4 K5 K6 K7 K8]. constructor; try done.
    + by apply rewound_tx_ok.
    + intros _. unfold in_flight. simpl. by rewrite Z.sub_diag.
  - destruct TR as [X1 X2 X3 X4 X5 X6 X7 X8 X9 X10]. constructor; try done; [|right; simpl; congruence].
    intros NP. apply X9 in NP as [NP1 NP2]. split; [done|]. simpl. by rewrite NP1.
Qed.

(** ** When a SYN is sent *)

Lemma in_flight_zero s : tx_ok (tx s) -> (remote_last_seq (tx s) =? local_seq_no (tx s)) = (in_flight (tx s) =? 0).
Proof.
  intros [_ _ _ _ F L K]. unfold in_flight in *. destruct (Z.eqb_spec (remote_last_seq (tx s)) (local_seq_no (tx s))) as [E|E].
  - rewrite E, Z.sub_diag. done.
  - symmetry. apply Z.eqb_neq. intros H. apply E. rewrite <- L, <- K.
    apply wrap_i32_mod. pose proof (wrap_i32_eqm (remote_last_seq (tx s) - local_seq_no (tx s))) as Q. rewrite H in Q.
    rewrite Z.mod_0_l in Q by lia. symmetry in Q. apply Z.mod_divide in Q; [|lia]. destruct Q as [q Q].
    replace (remote_last_seq (tx s)) with (local_seq_no (tx s) + q * 2 ^ 32) by lia. by rewrite Z.mod_add by lia.
Qed.

Lemma no_data_to_send cx s t :
  tx_ok (tx s) -> buf_len (tx_buffer (tx s)) = 0%nat -> tuple s = Some t -> sent_syn s = true -> in_flight (tx s) <> 0 ->
  seq_to_transmit cx s = Some false.
Proof.
  intros T Z0 E S N. pose proof T as [_ _ W _ F _ _]. rewrite Z0 in F. unfold seq_to_transmit. rewrite E. simpl.
  rewrite (in_flight_zero s T). replace (in_flight (tx s) =? 0) with false by (symmetry; by apply Z.eqb_neq). rewrite S. simpl.
  assert (tx_len s = 0) as -> by (unfold tx_len; lia). rewrite (Z.min_r (remote_win_len (tx s))) by lia.
  rewrite !seq_add_ok by (unfold i32_max; lia). simpl. rewrite Z.add_0_r, (to_local _ T).
  replace (seq_ge (local_seq_no (tx s)) (remote_last_seq (tx s))) with false.
  2: { symmetry. unfold seq_ge. apply Z.leb_gt. unfold in_flight in *.
       replace (local_seq_no (tx s) - remote_last_seq (tx s)) with (- (remote_last_seq (tx s) - local_seq_no (tx s))) by lia.
       revert F N. unfold wrap_i32. simpl. div_lia. }
  simpl. assert (want_fin s = false) as -> by (unfold want_fin, sent_syn in *; by destruct (state s)). simpl.
  destruct (_ && _); done.
Qed.

Lemma syn_empty s : sock_ok s -> sent_syn s = true -> buf_len (tx_buffer (tx s)) = 0%nat.
Proof.
  intros K S. apply (so_empty _ K). unfold sent_syn, synchronizing in *. by destruct (state s).
Qed.

Lemma plan_ok cx s t : sock_ok s -> tuple s = Some t -> exists p, plan cx s = Some p /\ (p = Send -> sent_syn s = true -> in_flight (tx s) = 0).
Proof.
  intros K E. destruct (seq_to_transmit_ok cx s t (so_tx _ K) E) as [x Ex]. destruct (ack_to_transmit_ok s (so_rx _ K)) as [a Ea].
  destruct (window_to_update_ok s (so_rx _ K)) as [w Ew]. unfold plan. rewrite Ex, Ea, Ew. simpl. eexists. split; [done|].
  intros HP S. destruct (decide (in_flight (tx s) = 0)) as [|N]; [done|]. exfalso.
  rewrite (no_data_to_send cx s t (so_tx _ K) (syn_empty s K S) E S N) in Ex. injection Ex as <-.
  destruct (so_syn _ K S N) as (Q1 & Q2 & e & d & Q3). rewrite Q1 in Ea. rewrite Q2 in Ew. injection Ea as <-. injection Ew as <-.
  simpl in HP. rewrite Q3 in HP. unfold is_state in HP. rewrite bool_decide_false in HP; [done|].
  unfold sent_syn in S. by intros H; rewrite H in S.
Qed.

(** ** Segments *)

(** The room in the receive buffer. *)
Definition rx_window (s : Socket) : Z := Z.of_nat (buf_capacity (rx_buffer (rx s)) - buf_len (rx_buffer (rx s))).

Definition carries (x : State) : bool := match x with Established | FinWait1 | Closing | CloseWait | LastAck => true | _ => false end.

(** What the segment of a socket holds: the bytes of the transmit buffer after those in
    flight, and a SYN or FIN when it is their turn. *)
Record segment_of (s : Socket) (r : TcpRepr) : Prop := {
  sg_seq : seq_number r = remote_last_seq (tx s);
  sg_data : exists k, payload r = take k (drop (Z.to_nat (in_flight (tx s))) (contents (tx_buffer (tx s))));
  sg_fits : payload r = [] \/ in_flight (tx s) + payload_len r <= tx_len s;
  sg_fin : control r = CFin -> sent_fin s = true /\ in_flight (tx s) + payload_len r = tx_len s;
  sg_syn : control r = CSyn <-> sent_syn s = true;
  sg_rst : control r = CRst -> state s = Closed;
  sg_none : sent_syn s = true -> payload r = [];
  sg_ack : ack_number r = None /\ state s = SynSent \/ ack_number r = Some (expected s) /\ state s <> SynSent;
  sg_window : sent_syn s = true -> exists w, scaled_window s = Some w /\ w <= window_len r;
  sg_length : payload_len r <= 2 ^ 30;
  sg_live : state s <> Listen /\ (state s = Closed -> control r = CRst);
  sg_carries : carries (state s) = false -> payload r = [] /\ control r <> CFin;
  sg_limit : payload r = [] \/ in_flight (tx s) + payload_len r <= remote_win_len (tx s);
  sg_edge : control r = CSyn /\ window_len r <= rx_window s \/ control r <> CSyn /\ scaled_window s = Some (window_len r);
  sg_scale : control r = CSyn -> window_scale r =
    match state s with SynReceived => (fun _ => remote_win_shift (acks s)) <$> remote_win_scale (tx s) | _ => Some (remote_win_shift (acks s)) end;
}.

Lemma get_allocated_total b off size :
  buf_ok b -> exists k, get_allocated b off size = Some (take k (drop off (contents b))) /\
    (take k (drop off (contents b)) = [] \/ off + length (take k (drop off (contents b))) <= buf_len b)%nat /\
    (length (take k (drop off (contents b))) <= size)%nat.
Proof.
  intros K. destruct (decide (off <= buf_len b)%nat) as [H|H].
  - destruct (get_allocated_spec b off size K H) as (k & -> & Hs & Hk & _). exists k. split; [done|]. split; [right|];
    rewrite length_take, length_drop, buf_contents_length; lia.
  - exists 0%nat. rewrite take_0. split; [|simpl; split; [by left|lia]]. unfold get_allocated. case_nat; [done|lia].
Qed.

Lemma win_limit_spec last loc win :
  0 <= wrap_i32 (last - loc) <= 2 ^ 30 + 1 -> 0 <= win <= 2 ^ 30 ->
  wrap_i32 (last - loc) + wrap_i32 (wrap_i32 (loc + win) - last) = win.
Proof. intros H1 H2. revert H1. unfold wrap_i32. div_lia. Qed.

Lemma data_segment_ok cx s t :
  sock_ok s -> exists bytes c, data_segment cx s t = Some (bytes, c) /\
    (exists k, bytes = take k (drop (Z.to_nat (in_flight (tx s))) (contents (tx_buffer (tx s))))) /\
    (bytes = [] \/ in_flight (tx s) + Z.of_nat (length bytes) <= tx_len s) /\
    (c = CFin -> sent_fin s = true /\ in_flight (tx s) + Z.of_nat (length bytes) = tx_len s) /\ c <> CSyn /\ c <> CRst /\
    Z.of_nat (length bytes) <= 2 ^ 30 /\ (bytes = [] \/ in_flight (tx s) + Z.of_nat (length bytes) <= remote_win_len (tx s)).
Proof.
  intros K. pose proof (so_tx _ K) as T. pose proof (tx_len_bound s T) as L. pose proof T as [B _ W _ F _ _].
  unfold data_segment. rewrite seq_add_ok by (unfold i32_max; lia). simpl.
  assert (exists x, (if seq_ge (wrap_i32 (local_seq_no (tx s) + remote_win_len (tx s))) (remote_last_seq (tx s))
    then seq_diff (wrap_i32 (local_seq_no (tx s) + remote_win_len (tx s))) (remote_last_seq (tx s)) else Some 0) = Some x /\
    (x <= 0 \/ in_flight (tx s) + x = remote_win_len (tx s))) as (x & -> & Hx).
  { destruct (seq_ge _ _) eqn:G; [|by exists 0; split; [|left]]. destruct (seq_ge_diff _ _ G) as [-> _]. eexists. split; [done|]. right.
    apply win_limit_spec; [|done]. unfold in_flight, tx_len in *. lia. }
  simpl. assert (seq_diff (remote_last_seq (tx s)) (local_seq_no (tx s)) = Some (in_flight (tx s))) as ->.
  { unfold seq_diff. fold (in_flight (tx s)). case_cmp; [lia|done]. }
  simpl. set (size := Z.to_nat (Z.min _ _)). destruct (get_allocated_total _ (Z.to_nat (in_flight (tx s))) size B) as (k & -> & Hk & Hs). simpl.
  set (bytes := take k _) in *. eexists bytes, _. split; [done|].
  assert (Z.of_nat (length bytes) <= 2 ^ 30) as Hb.
  { unfold bytes. rewrite length_take, length_drop, buf_contents_length. unfold tx_len in *. lia. }
  assert (bytes = [] \/ in_flight (tx s) + Z.of_nat (length bytes) <= tx_len s) as Hf.
  { destruct Hk as [->|Hk]; [by left|right]. unfold tx_len. lia. }
  assert (bytes = [] \/ in_flight (tx s) + Z.of_nat (length bytes) <= remote_win_len (tx s)) as Hl.
  { destruct (decide (bytes = [])) as [|Nb]; [by left|right]. assert (length bytes <> 0)%nat by (by destruct bytes).
    unfold size in Hs. lia. }
  split_and!; try done; [by exists k|..].
  - destruct (Z.eqb_spec (in_flight (tx s) + Z.of_nat (length bytes)) (tx_len s)); [|done]. unfold sent_fin.
    destruct (state s); try done; by destruct (length bytes =? 0)%nat.
  - destruct (_ =? _); [|done]. destruct (state s); try done; by destruct (length bytes =? 0)%nat.
  - destruct (_ =? _); [|done]. destruct (state s); try done; by destruct (length bytes =? 0)%nat.
Qed.

Lemma scaled_le s w W :
  rx_ok (rx s) -> 0 <= remote_win_shift (acks s) -> scaled_window s = Some w -> buf_window (rx_buffer (rx s)) = Some W ->
  w <= Z.min (Z.of_nat W) 65535.
Proof.
  intros R H E EW. unfold scaled_window in E. rewrite EW in E. simpl in E. injection E as <-.
  assert (Z.shiftr (Z.of_nat W) (remote_win_shift (acks s)) <= Z.of_nat W); [|lia].
  rewrite Z.shiftr_div_pow2 by done. apply Z.div_le_upper_bound; [by apply Z.pow_pos_nonneg|].
  pose proof (Z.pow_pos_nonneg 2 (remote_win_shift (acks s))). nia.
Qed.

Lemma make_segment_ok cx s t :
  sock_ok s -> exists o, make_segment cx s t = Some o /\ match o with Some r => segment_of s r | None => state s = Listen end.
Proof.
  intros K. pose proof (so_rx _ K) as R. unfold make_segment. rewrite expected_ok by done. simpl.
  destruct (scaled_window_ok s R) as [w Ew]. rewrite Ew. simpl.
  pose proof (buf_window_ok _ (ro_buf _ R)) as EW. rewrite EW. simpl. pose proof (scaled_le s w _ R (so_shift _ K) Ew EW) as Hw.
  destruct (data_segment_ok cx s t K) as (bytes & c & -> & D1 & D2 & D3 & D4 & D5 & D6 & D7). simpl.
  unfold segment_len, payload_len in *.
  destruct (state s) eqn:Es; (eexists; split; [done|]); try done.
  all: constructor; unfold sent_syn, payload_len; rewrite ?Es; simpl; auto; try done; try congruence.
  all: try (by exists 0%nat; rewrite take_0).
  all: first [by intros _; exists w|left; split; [done|unfold rx_window; lia]].
Qed.

(** What sending a segment changes: the last sequence number sent moves past it. *)
Record emitted (s s' : Socket) (n : Z) : Prop := {
  em_state : state s' = state s;
  em_rx : rx s' = rx s;
  em_buffer : tx_buffer (tx s') = tx_buffer (tx s);
  em_local : local_seq_no (tx s') = local_seq_no (tx s);
  em_flight : in_flight (tx s') = in_flight (tx s) + n;
  em_window : remote_win_len (tx s') = remote_win_len (tx s) /\ remote_win_scale (tx s') = remote_win_scale (tx s);
  em_shift : remote_win_shift (acks s') = remote_win_shift (acks s);
  em_probe : no_probe s -> no_probe s';
  em_tuple : tuple s' = tuple s \/ tuple s' = None;
}.

Lemma segment_fits s r :
  sock_ok s -> segment_of s r -> (sent_syn s = true -> in_flight (tx s) = 0) ->
  0 <= segment_len r <= 2 ^ 30 + 1 /\ in_flight (tx s) + segment_len r <= tx_len s + 1.
Proof.
  intros K G S. destruct (to_flight _ (so_tx _ K)) as [F0 F1]. fold (tx_len s) in F1. pose proof (tx_len_bound s (so_tx _ K)).
  pose proof (sg_length _ _ G). unfold segment_len. assert (0 <= payload_len r) by (unfold payload_len; lia).
  assert (payload r = [] -> payload_len r = 0) as E by (unfold payload_len; by intros ->).
  destruct (control r) eqn:C; simpl.
  all: try (destruct (sg_fits _ _ G) as [E0|]; [apply E in E0|]; lia).
  - pose proof (proj1 (sg_syn _ _ G) C) as Y. pose proof (E (sg_none _ _ G Y)). rewrite S by done. lia.
  - destruct (sg_fin _ _ G C). lia.
Qed.

Lemma moved_tx_ok t n :
  tx_ok t -> 0 <= n <= 2 ^ 30 + 1 -> in_flight t + n <= Z.of_nat (buf_len (tx_buffer t)) + 1 ->
  let t' := mkTx (tx_buffer t) (local_seq_no t) (wrap_i32 (remote_last_seq t + n)) (remote_win_len t) (remote_win_scale t)
    (remote_mss t) (local_rx_last_ack t) (local_rx_dup_acks t) in
  tx_ok t' /\ in_flight t' = in_flight t + n.
Proof.
  intros [A B C D E F G] Hn H t'. pose proof (bo_len _ A).
  assert (in_flight t' = in_flight t + n) as I.
  { unfold in_flight in *. simpl. rewrite <- (wrap_i32_small (wrap_i32 (remote_last_seq t - local_seq_no t) + n)) by lia.
    apply wrap_i32_mod. rewrite Zminus_mod, wrap_i32_eqm, <- Zminus_mod.
    rewrite (Zplus_mod (wrap_i32 _)), wrap_i32_eqm, <- Zplus_mod. f_equal. lia. }
  split; [|done]. constructor; simpl; try done; [rewrite I; lia|]. apply wrap_i32_small, wrap_i32_range.
Qed.

(** After a SYN the peer knows the window and what was acknowledged. *)
Lemma announced s s' r :
  rx_ok (rx s) -> segment_of s r -> sent_syn s = true -> state s' = state s -> rx s' = rx s ->
  remote_last_ack (acks s') = ack_number r -> remote_last_win (acks s') = window_len r ->
  remote_win_shift (acks s') = remote_win_shift (acks s) -> ack_to_transmit s' = Some false /\ window_to_update s' = Some false.
Proof.
  intros R G S E1 E2 E3 E4 E5. split.
  - unfold ack_to_transmit, rx_len. rewrite E3, E2. destruct (sg_ack _ _ G) as [[-> _]|[-> _]]; [done|].
    fold (rx_len s). rewrite expected_ok by done. simpl. unfold seq_lt. by rewrite Z.sub_diag.
  - destruct (sg_window _ _ G S) as (w & Hw & L). unfold window_to_update. rewrite E1, E4.
    assert (scaled_window s' = Some w) as ->.
    { rewrite <- Hw. unfold scaled_window. by rewrite E2, E5. }
    simpl. replace (window_len r <? w) with false by (symmetry; apply Z.ltb_ge; lia). by destruct (state s).
Qed.

Lemma closed_tuple_ok s :
  sock_ok s -> sock_ok (if is_state s Closed then set_tuple s None else s).
Proof.
  intros K. unfold is_state. case_bool_decide as E; [|done]. destruct K as [A B C D F G H].
  constructor; try done; unfold sent_syn, synchronizing in *; sock; by rewrite E.
Qed.

Lemma set_for_retransmit_waits t a b : (forall e, t <> TClose e) -> exists e d, set_for_retransmit t a b = TRetransmit e d.
Proof. intros H. destruct t; simpl; [by eexists _, _|case_cmp; by eexists _, _|by eexists _, _|]. by edestruct H. Qed.

Lemma sent_ok cx s r t :
  sock_ok s -> tuple s = Some t -> segment_of s r -> (sent_syn s = true -> in_flight (tx s) = 0) ->
  exists s', sent cx s r = Some s' /\ sock_ok s' /\ emitted s s' (segment_len r).
Proof.
  intros K E G S. destruct (segment_fits s r K G S) as [L1 L2]. unfold sent. rewrite (sg_seq _ _ G).
  rewrite seq_add_ok by (unfold i32_max; lia). simpl. destruct (moved_tx_ok _ _ (so_tx _ K) L1 L2) as [T I].
  set (n := wrap_i32 _) in *. set (s3 := set_remote_last_win _ _).
  set (s4 := if 0 <? segment_len r then set_rtte s3 _ else s3).
  assert (state s4 = state s /\ rx s4 = rx s /\ tx s4 = tx s3 /\ acks s4 = acks s3 /\ tuple s4 = Some t /\ timer s4 = timer s)
    as (F1 & F2 & F3 & F4 & F5 & F6) by (unfold s4; case_cmp; split_and!; done).
  assert (in_flight (tx s3) = in_flight (tx s) + segment_len r) as I3 by exact I.
  assert (tx_ok (tx s4)) as T4 by (by rewrite F3). destruct (seq_to_transmit_ok cx s4 t T4 F5) as [x Ex]. rewrite Ex. simpl.
  set (s5 := if negb x && (0 <? segment_len r) then set_timer s4 _ else s4).
  assert (state s5 = state s /\ rx s5 = rx s /\ tx s5 = tx s3 /\ acks s5 = acks s3 /\ tuple s5 = Some t)
    as (H1 & H2 & H3 & H4 & H5) by (unfold s5; destruct (_ && _); split_and!; done).
  eexists. split; [done|].
  assert (sent_syn s4 = sent_syn s) as Y4 by (unfold sent_syn; by rewrite F1).
  assert (sent_syn s5 = sent_syn s) as Y5 by (unfold sent_syn; by rewrite H1).
  assert (sent_syn s = true -> exists e d, timer s5 = TRetransmit e d) as TR.
  { intros Y. pose proof (proj2 (sg_syn _ _ G) Y) as C. assert (0 < segment_len r) as P.
    { unfold segment_len, payload_len. rewrite C. simpl. lia. }
    assert (x = false) as ->.
    { rewrite (no_data_to_send cx s4 t) in Ex; try done; [congruence|rewrite F3; by apply (syn_empty s)|by rewrite Y4|].
      rewrite F3, I3, S by done. lia. }
    unfold s5. replace (0 <? segment_len r) with true by (symmetry; by apply Z.ltb_lt). simpl. rewrite F6.
    apply set_for_retransmit_waits, (so_timer _ K Y). }
  split.
  - apply closed_tuple_ok. constructor; rewrite ?H2, ?H3, ?H4, ?H5, ?Y5; try done; try apply K.
    + by rewrite <- E; apply K.
    + intros Y. unfold synchronizing in *. rewrite H1 in Y. apply (so_empty _ K Y).
    + intros Y _. destruct (announced s s5 r (so_rx _ K) G Y) as [Q1 Q2]; try done; [by rewrite H4..|]. split_and!; auto.
    + intros Y e. destruct (TR Y) as (a & b & ->). done.
  - assert (no_probe s -> no_probe s5) as NP.
    { intros [P1 P2]. unfold no_probe, s5, s4. destruct (negb x && _), (0 <? segment_len r); simpl; rewrite ?F6; (split; [done|]); try done.
      all: rewrite ?P2; destruct (timer s); try done; simpl; by case_cmp. }
    unfold is_state. case_bool_decide; constructor; try done; sock; rewrite ?H2, ?H3, ?H4, ?H5; auto.
Qed.

(** ** Dispatch *)

Lemma with_mss_segment s r m : segment_of s r -> segment_of s (with_mss r m) /\ segment_len (with_mss r m) = segment_len r.
Proof. intros [? ? ? ? ? ? ? ? ? ? ? ? ? ? ?]. by split. Qed.

(** What [dispatch] did. *)
Inductive dispatched (s : Socket) : Socket -> option Packet -> Prop :=
  | dp_idle s' : timers_run s s' \/ s' = s -> dispatched s s' None
  | dp_expired s1 : timers_run s s1 -> dispatched s (reset s1) None
  | dp_probe s1 s' p :
      timers_run s s1 -> frame s1 s' -> is_Some (keep_alive_at (timer s1)) ->
      payload (snd p) = [0] -> seq_number (snd p) = wrap_i32 (remote_last_seq (tx s1) - 1) -> control_len (control (snd p)) = 0 ->
      dispatched s s' (Some p)
  | dp_sent s1 s' p :
      timers_run s s1 -> sock_ok s1 -> segment_of s1 (snd p) -> (sent_syn s1 = true -> in_flight (tx s1) = 0) -> emitted s1 s' (segment_len (snd p)) -> dispatched s s' (Some p).

Lemma rewound_frame cx s :
  sock_ok s -> let s' := set_ack_delay_timer (set_timer s (rewind_keep_alive (timer s) (now cx) (keep_alive (opts s)))) AIdle in
  (sent_syn s = true -> in_flight (tx s) = 0) -> sock_ok s' /\ (forall r, segment_of s r -> segment_of s' r).
Proof.
  intros [A B C D E F G] s' S. split.
  - constructor; try done; [by intros Y N; edestruct N; apply S|]. intros Y e. specialize (G Y e). simpl.
    destruct (timer s); simpl; congruence.
  - by intros r [? ? ? ? ? ? ? ? ? ? ? ? ? ? ?].
Qed.

(** A socket as [new] and [reset] leave it. *)
Lemma fresh_rx_ok n b c f q l :
  (0 < n)%nat -> Z.of_nat (buf_capacity b) <= 2 ^ 30 -> read_at b = 0%nat -> buf_len b = 0%nat ->
  c = assembler_new n -> rx_ok (mkRx c b f q l).
Proof.
  intros Hn C E1 E2 ->. pose proof (al_wf _ _ (asm_new_ok n Hn)) as W. constructor; simpl; try done.
  - constructor; [lia|by left].
  - rewrite empties_sum by (by apply Forall_replicate). lia.
Qed.

Lemma fresh_tx_ok b q w m l d :
  Z.of_nat (buf_capacity b) <= 2 ^ 30 -> read_at b = 0%nat -> buf_len b = 0%nat -> w = 0 -> wrap_i32 q = q ->
  tx_ok (mkTx b q q w None m l d).
Proof.
  intros C E1 E2 -> Q. constructor; simpl; try done; [constructor; [lia|by left]|]. unfold in_flight. simpl.
  rewrite Z.sub_diag, E2. done.
Qed.

Lemma reset_ok s : sock_ok s -> sock_ok (reset s).
Proof.
  intros K. constructor; try done.
  - apply fresh_rx_ok with (n := length (assembler (rx s))); try done; [|apply (ro_cap _ (so_rx _ K))].
    pose proof (aw_room _ (ro_asm _ (so_rx _ K))). by destruct (assembler (rx s)); [|simpl; lia].
  - by apply fresh_tx_ok; try done; apply (to_cap _ (so_tx _ K)).
  - simpl. unfold win_shift, saturating_sub. lia.
Qed.

Lemma emitted_rewound s s' t d n :
  emitted (set_ack_delay_timer (set_timer s (rewind_keep_alive (timer s) t (keep_alive (opts s)))) d) s' n -> emitted s s' n.
Proof.
  intros [? ? ? ? ? ? ? P ?]. constructor; try done. intros [N1 N2]. apply P. split; [done|]. simpl. rewrite N1.
  by destruct (timer s).
Qed.

#[local] Opaque run_timers plan make_segment sent.
Lemma dispatch_ok cx s emits :
  sock_ok s -> exists s' o, dispatch cx s emits = Some (s', o) /\ sock_ok s' /\ dispatched s s' o.
Proof.
  intros K. unfold dispatch. destruct (tuple s) as [t|] eqn:E.
  2: { eexists s, None. split_and!; [done|done|]. constructor. by right. }
  destruct (run_timers_ok cx s t K E) as (s1 & -> & K1 & R). simpl.
  assert (tuple s1 = Some t) as E1 by (by rewrite (tr_tuple _ _ R)).
  destruct (plan_ok cx s1 t K1 E1) as (p & -> & HP). simpl.
  destruct p; [|eexists _, _; split; [done|]; split; [by apply reset_ok|]; by constructor|].
  2: { eexists _, _. split; [done|]. split; [done|]. constructor. by left. }
  assert (is_v6 (ep_addr (local t)) = is_v6 (ep_addr (remote t))) as V.
  { pose proof (so_tuple _ K) as V. by rewrite E in V. }
  unfold ip_new. rewrite V, eqb_reflx. simpl.
  destruct (make_segment_ok cx s1 t K1) as (o & -> & G). simpl.
  destruct o as [r|]; [|eexists _, _; split; [done|]; split; [done|]; constructor; by left].
  specialize (HP eq_refl). destruct (rewound_frame cx s1 K1 HP) as [K2 G2]. set (s2 := set_ack_delay_timer _ _) in *.
  destruct (should_keep_alive (timer s1) (now cx) && repr_is_empty r) eqn:KA; simpl.
  - apply andb_true_iff in KA as [KA RE]. destruct emits; simpl; (eexists _, _; split; [done|]; split; [done|]); [|constructor; by left].
    assert (control_len (control r) = 0 /\ sent_syn s1 = false) as [CL SY].
    { destruct (sent_syn s1) eqn:SY; [apply (sg_syn _ _ G) in SY|]; unfold repr_is_empty in RE; destruct (control r), (negb _); done. }
    apply dp_probe with (s1 := s1); simpl; try done.
    + constructor; try done; first [by rewrite SY|intros [_ NP]; unfold should_keep_alive in KA; by destruct (timer s1) as [[k|]|?| |]].
    + unfold should_keep_alive in KA. destruct (timer s1) as [[k|]|?| |]; try done.
    + by case_bool_decide.
    + rewrite <- (sg_seq _ _ G). by case_bool_decide.
    + by case_bool_decide.
  - set (r' := if bool_decide _ then with_mss r _ else r).
    assert (segment_of s1 r') as G' by (unfold r'; case_bool_decide; [by apply with_mss_segment|done]).
    destruct emits; simpl; [|eexists _, _; split; [done|]; split; [done|]; constructor; by left].
    destruct (sent_ok cx s2 r' t K2 E1 (G2 _ G') HP) as (s' & -> & K' & EM). simpl.
    eexists _, _. split; [done|]. split; [done|]. apply dp_sent with (s1 := s1); try done.
    by apply emitted_rewound in EM.
Qed.

#[local] Transparent run_timers plan make_segment sent.

(** The calls of programs keep the invariant of a TCP socket, and no history of calls,
    transmissions and segments makes one panic. *)

(** ** Opening and closing *)

Lemma socket_new_ok n rxs txs :
  (0 < n)%nat -> Z.of_nat (length rxs) <= 2 ^ 30 -> Z.of_nat (length txs) <= 2 ^ 30 ->
  exists s, socket_new n rxs txs = Some s /\ sock_ok s /\ state s = Closed.
Proof.
  intros Hn Hr Ht. unfold socket_new. case_cmp; [lia|]. eexists. split; [done|]. split; [|done]. constructor; try done.
  - by apply fresh_rx_ok with (n := n).
  - by apply fresh_tx_ok.
  - simpl. unfold win_shift, saturating_sub. lia.
Qed.

Lemma listen_ok s e : sock_ok s -> sock_ok (fst (listen s e)).
Proof.
  intros K. unfold listen. destruct (_ =? 0); [done|]. destruct (is_open s); [done|].
  destruct (reset_ok s K) as [R T _ S _ _ _]. by constructor.
Qed.

Lemma connect_ok cx s r l : sock_ok s -> sock_ok (fst (connect cx s r l)).
Proof.
  intros K. unfold connect. destruct (is_open s); [done|]. destruct (_ || _); [done|]. destruct (listen_port l =? 0); [done|].
  destruct (match listen_addr l with Some _ => _ | None => _ end) as [a|]; [|done].
  destruct (negb _) eqn:V; [done|]. apply negb_false_iff, eqb_prop in V. destruct (reset_ok s K) as [R _ _ S _ _ _].
  assert (in_flight (mkTx (buf_clear (tx_buffer (tx s))) (random_seq_no cx) (random_seq_no cx) 0 None DEFAULT_MSS
    (local_rx_last_ack (tx s)) (local_rx_dup_acks (tx s))) = 0) as Z0 by (unfold in_flight; simpl; by rewrite Z.sub_diag).
  constructor; try done. apply fresh_tx_ok; try done; [apply (to_cap _ (so_tx _ K))|].
  unfold random_seq_no. apply wrap_i32_small, wrap_i32_range.
Qed.

Lemma set_open_ok s x : sock_ok s -> x <> Listen /\ x <> SynSent /\ x <> SynReceived -> sock_ok (set_state s x).
Proof. intros [R T U S _ _ _] N. by apply sock_ok_open. Qed.

Lemma tcp_close_ok s : sock_ok s -> sock_ok (close s).
Proof. intros K. unfold close. destruct (state s); try done; by apply set_open_ok. Qed.

Lemma tcp_abort_ok s : sock_ok s -> sock_ok (abort s).
Proof. intros K. by apply set_open_ok. Qed.

(** ** Options *)

Lemma set_opts_ok s o : sock_ok s -> sock_ok (set_opts s o).
Proof. by intros [? ? ? ? ? ? ?]. Qed.

Lemma set_keep_alive_ok s i : sock_ok s -> sock_ok (set_keep_alive s i).
Proof.
  intros K. unfold set_keep_alive. destruct i; [|by apply set_opts_ok]. destruct K as [A B C D E F G].
  constructor; try done.
  - intros Y N. destruct (F Y N) as (Q1 & Q2 & e & d & Q3). split_and!; try done. exists e, d. simpl. by rewrite Q3.
  - intros Y e. specialize (G Y e). simpl. by destruct (timer s) as [[]|?| |].
Qed.

(** ** Data *)

(** [s'] is [s] with bytes appended to its transmit buffer. *)
Record written (s s' : Socket) (bytes : list Z) : Prop := {
  wt_state : state s' = state s;
  wt_rx : rx s' = rx s;
  wt_tx : exists b, tx s' = (let t := tx s in mkTx b (local_seq_no t) (remote_last_seq t) (remote_win_len t) (remote_win_scale t)
    (remote_mss t) (local_rx_last_ack t) (local_rx_dup_acks t)) /\ appends (tx_buffer (tx s)) b bytes;
  wt_rest : acks s' = acks s /\ tuple s' = tuple s /\ timer s' = timer s /\ opts s' = opts s;
  wt_open : may_send s = true;
}.

Lemma tcp_send_ok s data :
  sock_ok s -> exists s' o, send_slice s data = Some (s', o) /\ sock_ok s' /\
    match o with
    | Ok n => (n <= length data)%nat /\ written s s' (take n data)
    | Err e => s' = s /\ e = InvalidState /\ may_send s = false
    end.
Proof.
  intros K. unfold send_slice, send_impl. destruct (may_send s) eqn:M; simpl; [|by exists s, (Err InvalidState)].
  pose proof (so_tx _ K) as [B C W S F L1 L2]. set (s1 := if buf_is_empty _ then _ else s).
  assert (state s1 = state s /\ rx s1 = rx s /\ tx s1 = tx s /\ acks s1 = acks s /\ tuple s1 = tuple s /\ timer s1 = timer s /\ opts s1 = opts s)
    as (E1 & E2 & E3 & E4 & E5 & E6 & E7) by (unfold s1; by destruct (buf_is_empty _)).
  rewrite E3. destruct (enqueue_slice_spec (tx_buffer (tx s)) data B) as (b & -> & A). simpl.
  set (n := Nat.min _ _) in *. eexists _, _. split; [done|]. split.
  - apply sock_ok_open; sock; rewrite ?E1, ?E2, ?E3, ?E4, ?E5; try apply K; [|unfold may_send in M; by destruct (state s)].
    destruct A as [A1 A2 A3 _]. constructor; simpl; try done; [lia|]. unfold in_flight in *. simpl. lia.
  - split; [unfold n; lia|]. constructor; sock; rewrite ?E3; try done. by exists b.
Qed.

(** [s'] is [s] after a program took [bytes] from its receive buffer. *)
Record taken (s s' : Socket) (bytes : list Z) : Prop := {
  tn_state : state s' = state s;
  tn_rx : exists b, rx s' = mkRx (assembler (rx s)) b (rx_fin_received (rx s)) (wrap_i32 (remote_seq_no (rx s) + Z.of_nat (length bytes)))
    (local_rx_last_seq (rx s)) /\ drops (rx_buffer (rx s)) b (length bytes) /\ bytes = cells (rx_buffer (rx s)) 0 (length bytes);
  tn_tx : tx s' = tx s;
  tn_rest : acks s' = acks s /\ tuple s' = tuple s /\ timer s' = timer s /\ opts s' = opts s;
  tn_open : may_recv s = true;
}.

Definition recv_outcome (s s' : Socket) (o : result (list Z) TcpError) : Prop :=
  match o with
  | Ok bytes => taken s s' bytes
  | Err e => s' = s /\ may_recv s = false /\ (e = Finished -> rx_fin_received (rx s) = true)
  end.

Lemma recv_impl_ok s f :
  sock_ok s -> (exists b n, f (rx_buffer (rx s)) = Some (b, cells (rx_buffer (rx s)) 0 n) /\ drops (rx_buffer (rx s)) b n) ->
  exists s' o, recv_impl s f = Some (s', o) /\ sock_ok s' /\
    recv_outcome s s' o.
Proof.
  intros K (b & n & Ef & D). unfold recv_impl, recv_error_check. destruct (may_recv s) eqn:M.
  2: { destruct (rx_fin_received (rx s)) eqn:FR; eexists s, _; split_and!; try done; simpl; by rewrite FR. }
  rewrite Ef. simpl. pose proof (so_rx _ K) as [A B C F]. pose proof D as [D1 D2 D3 D4 _]. pose proof (bo_len _ B).
  rewrite cells_length, seq_add_ok by (unfold i32_max; lia). simpl. eexists _, _. split; [done|]. split.
  - apply sock_ok_open; sock; try apply K.
    + constructor; simpl; (done || lia).
    + unfold may_recv in M. pose proof (so_empty _ K) as Y. unfold synchronizing in Y.
      destruct (state s); try done; destruct (Y eq_refl) as [Y0 _]; unfold buf_is_empty in M; by rewrite Y0 in M.
  - constructor; try done. exists b. rewrite cells_length. by split_and!.
Qed.

Lemma recv_ok s f :
  sock_ok s -> (forall l, f l <= length l)%nat -> exists s' o, recv s f = Some (s', o) /\ sock_ok s' /\
    recv_outcome s s' o.
Proof.
  intros K Hf. apply recv_impl_ok; [done|].
  destruct (dequeue_many_spec (rx_buffer (rx s)) f (ro_buf _ (so_rx _ K)) Hf) as (b & n & E & D & _). by exists b, n.
Qed.

Lemma recv_slice_ok s want :
  sock_ok s -> exists s' o, recv_slice s want = Some (s', o) /\ sock_ok s' /\
    recv_outcome s s' o.
Proof.
  intros K. apply recv_impl_ok; [done|].
  destruct (dequeue_slice_spec (rx_buffer (rx s)) want (ro_buf _ (so_rx _ K))) as (b & E & D). by eexists b, _.
Qed.

Lemma peek_ok s size : sock_ok s -> exists o, peek s size = Some o.
Proof.
  intros K. unfold peek. destruct (recv_error_check s); [by eexists|].
  destruct (get_allocated_total _ 0 size (ro_buf _ (so_rx _ K))) as (k & -> & _). by eexists.
Qed.

Lemma poll_at_ok cx s : sock_ok s -> exists p, poll_at cx s = Some p.
Proof.
  intros K. unfold poll_at. destruct (tuple s) as [t|] eqn:E; [|by eexists]. destruct (remote_last_ts s); [|by eexists].
  destruct (is_state s Closed); [by eexists|]. destruct (seq_to_transmit_ok cx s t (so_tx _ K) E) as [[] ->]; [by eexists|].
  destruct (ack_to_transmit_ok s (so_rx _ K)) as [a ->]. destruct (window_to_update_ok s (so_rx _ K)) as [w ->]. by eexists.
Qed.

(** ** Histories *)

Inductive tcp_event :=
| EListen (e : IpListenEndpoint)
| EConnect (cx : Context) (r : IpEndpoint) (l : IpListenEndpoint)
| EClose
| EAbort
| EKeepAlive (interval : option Z)
| ETimeout (d : option Z)
| ENagle (b : bool)
| ESend (data : list Z)
| ERecv (want : nat)
| EPeek (size : nat)
| EPoll (cx : Context)
| EDispatch (cx : Context) (emits : bool)
| ESegment (cx : Context) (ip : IpRepr) (r : TcpRepr).

(** The interface hands a segment to a socket that accepts it. *)
Definition tcp_step (s : Socket) (e : tcp_event) : option Socket :=
  match e with
  | EListen e => Some (fst (listen s e))
  | EConnect cx r l => Some (fst (connect cx s r l))
  | EClose => Some (close s)
  | EAbort => Some (abort s)
  | EKeepAlive i => Some (set_keep_alive s i)
  | ETimeout d => Some (set_timeout s d)
  | ENagle b => Some (set_nagle_enabled s b)
  | ESend data => fst <$> send_slice s data
  | ERecv want => fst <$> recv_slice s want
  | EPeek size => _ ← peek s size; Some s
  | EPoll cx => _ ← poll_at cx s; Some s
  | EDispatch cx emits => fst <$> dispatch cx s emits
  | ESegment cx ip r => if accepts s ip r then fst <$> process cx s ip r else Some s
  end.

Fixpoint tcp_run (s : Socket) (evs : list tcp_event) : option Socket :=
  match evs with
  | [] => Some s
  | e :: evs => s ← tcp_step s e; tcp_run s evs
  end.

(** The parser made the segment. *)
Definition event_ok (e : tcp_event) : Prop := match e with ESegment _ ip r => packet_ok ip r | _ => True end.

Lemma tcp_step_ok s e : sock_ok s -> event_ok e -> exists s', tcp_step s e = Some s' /\ sock_ok s'.
Proof.
  intros K Ev. destruct e; simpl.
  - eexists. split; [done|]. by apply listen_ok.
  - eexists. split; [done|]. by apply connect_ok.
  - eexists. split; [done|]. by apply tcp_close_ok.
  - eexists. split; [done|]. by apply tcp_abort_ok.
  - eexists. split; [done|]. by apply set_keep_alive_ok.
  - eexists. split; [done|]. by apply set_opts_ok.
  - eexists. split; [done|]. by apply set_opts_ok.
  - destruct (tcp_send_ok s data K) as (s' & o & -> & K' & _). by exists s'.
  - destruct (recv_slice_ok s want K) as (s' & o & -> & K' & _). by exists s'.
  - destruct (peek_ok s size K) as [o ->]. by exists s.
  - destruct (poll_at_ok cx s K) as [o ->]. by exists s.
  - destruct (dispatch_ok cx s emits K) as (s' & o & -> & K' & _). by exists s'.
  - destruct (accepts s ip r) eqn:A; [|by exists s]. destruct (process_ok cx s ip r K Ev A) as (s' & o & -> & K' & _). by exists s'.
Qed.

(** A TCP socket never panics. After any sequence of calls of programs, polls,
    transmissions the device takes or refuses, and segments with arbitrary sequence and
    acknowledgement numbers, flags, windows and payloads, every subtraction of sequence
    numbers, every slice and every assertion in [process] and [dispatch] succeeds and the
    invariant of the socket holds. *)
Theorem tcp_no_panic n rxs txs evs :
  (0 < n)%nat -> Z.of_nat (length rxs) <= 2 ^ 30 -> Z.of_nat (length txs) <= 2 ^ 30 -> Forall event_ok evs ->
  exists s0 s, socket_new n rxs txs = Some s0 /\ tcp_run s0 evs = Some s /\ sock_ok s.
Proof.
  intros Hn Hr Ht F. destruct (socket_new_ok n rxs txs Hn Hr Ht) as (s0 & E & K & _). exists s0. rewrite E. clear E. revert s0 K.
  induction F as [|e evs Ev F IH]; intros s K; [by exists s|]. destruct (tcp_step_ok s e K Ev) as (s1 & E1 & K1).
  destruct (IH s1 K1) as (s' & _ & R & K'). exists s'. simpl. by rewrite E1.
Qed.

Lemma tcp_no_panic_witness :
  exists s0 s, socket_new 4 (replicate 8 0) (replicate 8 0) = Some s0 /\
    tcp_run s0 [EListen (mkListen None 80);
      ESegment (mkCx 0 1000 1500 (fun _ => None)) (mkIp (mkAddr false 1) (mkAddr false 2))
        (mkRepr 5000 80 CSyn (-1) None 65535 (Some 14) (Some 1460) true no_sack []);
      EDispatch (mkCx 1 1000 1500 (fun _ => None)) true;
      ESegment (mkCx 2 1000 1500 (fun _ => None)) (mkIp (mkAddr false 1) (mkAddr false 2))
        (mkRepr 5000 80 CFin 7 (Some 1001) 65535 None None false no_sack [1; 2; 3; 4]);
      ERecv 4] = Some s /\ sock_ok s.
Proof.
  apply (tcp_no_panic 4); [lia|rewrite length_replicate; lia|rewrite length_replicate; lia|].
  repeat apply Forall_cons_2; try apply Forall_nil_2; simpl; try done; constructor; simpl; first [done|split; lia].
Defined.
