(* ===== verification/TcpStream.v ===== *)
(** What a TCP socket hands to its program is the stream its peer sends. *)

From stdpp Require Import base numbers option list.
From S2P Require Import Prelude Slice Assembler AssemblerSpec SockBuf.
From S2P Require Import TcpSeq TcpSocket TcpProcess TcpDispatch TcpInv TcpSafe TcpOut.

(** ** The receive buffer and the stream *)

(** The program was given the bytes [D]; the bytes in the queue and those beyond holes
    are the ones the stream [W] has there. *)
Record rxq (W D : list Z) (r : Rx) : Prop := {
  rq_given : D `prefix_of` W;
  rq_queue : forall i, (i < buf_len (rx_buffer r))%nat -> W !! (length D + i)%nat = Some (cell (rx_buffer r) i);
  rq_held : forall x, 0 <= x -> present (assembler r) x = true ->
    W !! (length D + buf_len (rx_buffer r) + Z.to_nat x)%nat = Some (cell (rx_buffer r) (buf_len (rx_buffer r) + Z.to_nat x));
}.

Definition end_of (D : list Z) (r : Rx) : nat := length D + buf_len (rx_buffer r).

Lemma rxq_end W D r : rxq W D r -> (end_of D r <= length W)%nat.
Proof.
  intros [G Q _]. unfold end_of. destruct (buf_len (rx_buffer r)) as [|n]; [apply prefix_length in G; lia|].
  specialize (Q n ltac:(lia)). apply lookup_lt_Some in Q. lia.
Qed.

Lemma rxq_contents W D r : rxq W D r -> D ++ contents (rx_buffer r) = take (end_of D r) W.
Proof.
  intros R. pose proof (rxq_end _ _ _ R) as L. destruct R as [[k ->] Q _]. unfold end_of in *. rewrite take_app_add. f_equal.
  apply list_eq. intros i. unfold contents. destruct (decide (i < buf_len (rx_buffer r))%nat) as [H|H].
  - rewrite cells_lookup by done. simpl. rewrite lookup_take_lt by done. specialize (Q i H). rewrite lookup_app_r in Q by lia.
    rewrite <- Q. f_equal. lia.
  - rewrite !lookup_ge_None_2; [done|rewrite length_take; lia|rewrite cells_length; lia].
Qed.

Lemma rxq_extend W D r t : rxq W D r -> rxq (W ++ t) D r.
Proof.
  intros [G Q H]. constructor; [by apply prefix_app_r|..]; intros; apply lookup_app_l_Some; auto.
Qed.

(** Only the assembler and the buffer matter. *)
Lemma rxq_same W D r r' : rxq W D r -> assembler r' = assembler r -> rx_buffer r' = rx_buffer r -> rxq W D r'.
Proof. intros [? ? ?] E1 E2. constructor; by rewrite ?E1, ?E2. Qed.

Lemma held_bound r x : rx_ok r -> 0 <= x -> present (assembler r) x = true -> (buf_len (rx_buffer r) + Z.to_nat x < buf_capacity (rx_buffer r))%nat.
Proof.
  intros [W _ _ F] Hx P. destruct (decide (x < zsum tot (assembler r))); [lia|].
  rewrite (present_beyond true) in P by (apply W || lia). done.
Qed.

(** A program takes bytes. *)
Lemma rxq_taken W D s s' bytes : rx_ok (rx s) -> rxq W D (rx s) -> taken s s' bytes -> rxq W (D ++ bytes) (rx s').
Proof.
  intros R K [_ (b & -> & Dr & Eb) _ _ _]. pose proof (rxq_contents _ _ _ K) as C. pose proof K as [G Q H].
  pose proof Dr as [_ C1 L1 L2 E]. pose proof (bo_len _ (ro_buf _ R)).
  rewrite (drops_contents _ _ _ (ro_buf _ R) Dr), <- Eb in C.
  constructor; simpl; rewrite ?length_app.
  - rewrite app_assoc in C. exists (contents b ++ drop (end_of D (rx s)) W). by rewrite app_assoc, C, take_drop.
  - intros i Hi. rewrite E by lia. rewrite <- Q by lia. f_equal. lia.
  - intros x Hx P. pose proof (held_bound _ x R Hx P). rewrite E by lia. rewrite L2.
    replace (length bytes + (buf_len (rx_buffer (rx s)) - length bytes + Z.to_nat x))%nat
      with (buf_len (rx_buffer (rx s)) + Z.to_nat x)%nat by lia.
    rewrite <- (H x Hx P). f_equal. lia.
Qed.

(** A segment brings bytes of the stream. *)
Lemma rxq_received W D s s' bytes offset n :
  rx_ok (rx s) -> rxq W D (rx s) -> 0 <= offset -> received s s' bytes offset n ->
  (forall i x, bytes !! i = Some x -> W !! (end_of D (rx s) + Z.to_nat offset + i)%nat = Some x) -> rxq W D (rx s').
Proof.
  intros R K Ho [R' T (b & Wr & Eb) _] B. pose proof K as [G Q H]. pose proof Wr as [_ C1 L1 E].
  pose proof (tk_nonneg _ _ _ T) as Hn. set (len := buf_len (rx_buffer (rx s))) in *.
  assert (buf_capacity (rx_buffer (rx s')) = buf_capacity (rx_buffer (rx s))) as C' by (rewrite Eb; exact C1).
  assert (forall x, 0 <= x -> with_range (assembler (rx s)) offset (Z.of_nat (length bytes)) x = true ->
    (len + Z.to_nat x < buf_capacity (rx_buffer (rx s)))%nat -> W !! (length D + (len + Z.to_nat x))%nat = Some (cell b (len + Z.to_nat x))) as V.
  { intros x Hx P Hc. rewrite E by done. unfold with_range, in_range in P.
    destruct (decide (offset <= x < offset + Z.of_nat (length bytes))) as [I|I].
    - replace (_ && _)%nat with true by (symmetry; apply andb_true_iff; rewrite Nat.leb_le, Nat.ltb_lt; lia).
      assert (Z.to_nat x - Z.to_nat offset < length bytes)%nat as Hi by lia.
      destruct (lookup_lt_is_Some_2 _ _ Hi) as [v Ev]. replace (len + Z.to_nat x - _)%nat with (Z.to_nat x - Z.to_nat offset)%nat by lia.
      rewrite (nth_lookup_eq _ _ _ Ev), <- (B _ _ Ev). unfold end_of. fold len. f_equal. lia.
    - replace (_ && _)%nat with false by (symmetry; apply andb_false_iff; rewrite Nat.leb_gt, Nat.ltb_ge; lia).
      replace (_ && _) with false in P by (symmetry; apply andb_false_iff; rewrite Z.leb_gt, Z.ltb_ge; lia).
      rewrite orb_false_r in P. rewrite Nat.add_assoc. exact (H x Hx P). }
  constructor; [done|..]; rewrite Eb; simpl; rewrite L1; fold len.
  - intros i Hi. change (cell _ i) with (cell b i). pose proof (bo_len _ (ro_buf _ R')) as L'. rewrite C', Eb in L'. simpl in L'.
    destruct (decide (i < len)%nat) as [Li|Li].
    + rewrite E by lia. rewrite Q by done.
      replace (_ && _)%nat with false by (symmetry; apply andb_false_iff; rewrite Nat.leb_gt, Nat.ltb_ge; lia). done.
    + pose proof (tk_run _ _ _ T (Z.of_nat i - Z.of_nat len) ltac:(lia)) as P. apply V in P; [|lia|lia].
      replace (len + _)%nat with i in P by lia. done.
  - intros x Hx P. pose proof (held_bound _ x R' Hx P) as L'. rewrite C', Eb in L'. simpl in L'. rewrite (tk_rest _ _ _ T) in P by done.
    apply V in P; [|lia|lia]. replace (len + Z.to_nat (x + n))%nat with (len + Z.to_nat n + Z.to_nat x)%nat in P by lia.
    change (W !! (length D + (len + Z.to_nat n) + Z.to_nat x)%nat = Some (cell b (len + Z.to_nat n + Z.to_nat x)%nat)).
    rewrite <- P. f_equal. lia.
Qed.

(** ** The receiving half of a connection *)

Definition connected (x : State) : bool := match x with Closed | Listen | SynSent => false | _ => true end.
Definition awaits_fin (x : State) : bool := match x with SynReceived | Established | FinWait1 | FinWait2 => true | _ => false end.

(** The socket receives the stream [W] of a peer whose SYN had number [irs]. *)
Record rcv (irs : Z) (W D : list Z) (s : Socket) : Prop := {
  rv_q : rxq W D (rx s);
  rv_fin : rx_fin_received (rx s) = true -> end_of D (rx s) = length W;
  rv_fresh : synchronizing s = true -> D = [] /\ rx_fin_received (rx s) = false /\ forall x, 0 <= x -> present (assembler (rx s)) x = false;
  rv_open : awaits_fin (state s) = true -> rx_fin_received (rx s) = false;
  rv_seq : connected (state s) = true ->
    remote_seq_no (rx s) = seq_of irs (1 + Z.of_nat (length D) + Z.b2z (rx_fin_received (rx s)));
}.

(** A segment of that stream: data from its place, a FIN at the end, a SYN before. *)
Definition at_place (irs : Z) (W : list Z) (r : TcpRepr) (p : nat) : Prop :=
  seq_number r = seq_of irs (1 + Z.of_nat p) /\ (p + length (payload r) <= length W)%nat /\
  (forall i x, payload r !! i = Some x -> W !! (p + i)%nat = Some x) /\
  (control r = CFin -> (p + length (payload r))%nat = length W).
Record from_stream (irs : Z) (W : list Z) (r : TcpRepr) : Prop := {
  fs_data : payload r <> [] \/ control r = CFin -> exists p, at_place irs W r p;
  fs_syn : control r = CSyn -> seq_number r = wrap_i32 irs;
}.

Lemma seq_of_inj start p q : seq_of start p = seq_of start q -> Z.abs (p - q) < 2 ^ 32 -> p = q.
Proof.
  unfold seq_of. intros E H. pose proof (wrap_i32_eqm (start + p)) as E1. rewrite E, wrap_i32_eqm in E1.
  assert ((start + p - (start + q)) mod 2 ^ 32 = 0) as M by (rewrite Zminus_mod, E1, Z.sub_diag; done).
  apply Z.mod_divide in M as [k M]; [|lia]. nia.
Qed.

Lemma rcv_expected irs W D s :
  rcv irs W D s -> connected (state s) = true ->
  expected s = seq_of irs (1 + Z.of_nat (end_of D (rx s)) + Z.b2z (rx_fin_received (rx s))).
Proof.
  intros K C. unfold expected, end_of, rx_len. rewrite (rv_seq _ _ _ _ K C). unfold seq_of. rewrite wrap_i32_idemp. f_equal. lia.
Qed.

Lemma rcv_frame irs W D s s' : rcv irs W D s -> frame s s' -> rcv irs W D s'.
Proof.
  intros [A B C E F] [F1 F2 F3 F4 F5 _ _ _ _ _ _]. unfold end_of, synchronizing in *.
  constructor; unfold end_of, synchronizing; rewrite ?F1, ?F2, ?F3, ?F4, ?F5; auto. by eapply rxq_same.
Qed.

(** Bytes in the window stand where the stream has them. *)
Lemma window_place irs W D s r bytes offset :
  sock_ok s -> rcv irs W D s -> from_stream irs W r -> Z.of_nat (length W) < 2 ^ 30 ->
  state s <> Closed -> in_window s r bytes offset -> bytes <> [] ->
  rx_fin_received (rx s) = false /\
  forall i x, bytes !! i = Some x -> W !! (end_of D (rx s) + Z.to_nat offset + i)%nat = Some x.
Proof.
  intros K V FS HW NC IW Nb. destruct (iw_open _ _ _ _ IW Nb) as [N1 N2]. destruct (iw_part _ _ _ _ IW Nb) as (a & Ba & La & Ea).
  assert (payload r <> []) as Np by (intros E; rewrite E, drop_nil, take_nil in Ba; done).
  destruct (fs_data _ _ _ FS (or_introl Np)) as (p & Ep & Lp & Vp & _).
  assert (connected (state s) = true) as C by (by destruct (state s)).
  rewrite (rcv_expected _ _ _ _ V C), Ep in Ea. unfold seq_of in Ea. rewrite !wrap_i32_idemp in Ea.
  pose proof (rxq_end _ _ _ (rv_q _ _ _ _ V)) as Le. pose proof (iw_offset _ _ _ _ IW). pose proof (iw_fits _ _ _ _ IW).
  pose proof (ro_cap _ (so_rx _ K)). pose proof (rx_len_bound s (so_rx _ K)). assert (length bytes <> 0)%nat by (by destruct bytes).
  set (f := Z.b2z _) in *. assert (0 <= f <= 1) as Hf by (unfold f; destruct (rx_fin_received (rx s)); simpl; lia).
  assert (Z.of_nat (end_of D (rx s)) + f + offset = Z.of_nat p + Z.of_nat a) as Eq.
  { apply (seq_of_inj (irs + 1)); [|lia]. unfold seq_of. etransitivity; [etransitivity; [|exact Ea]|]; f_equal; lia. }
  assert (rx_fin_received (rx s) = false) as F0.
  { destruct (rx_fin_received (rx s)) eqn:Fi; [|done]. pose proof (rv_fin _ _ _ _ V Fi). unfold f in Eq. simpl in Eq. lia. }
  split; [done|]. intros i x Hi. rewrite Ba in Hi. pose proof (lookup_lt_Some _ _ _ Hi) as Li. rewrite length_take in Li.
  rewrite lookup_take_lt, lookup_drop in Hi by lia. rewrite <- (Vp _ _ Hi). f_equal. unfold f in Eq. rewrite F0 in Eq. simpl in Eq. lia.
Qed.

(** The state after the transition, with the bytes still to be taken. *)
Record midway (irs : Z) (D : list Z) (c : TcpControl) (s s' : Socket) : Prop := {
  mw_asm : assembler (rx s') = assembler (rx s);
  mw_buf : rx_buffer (rx s') = rx_buffer (rx s);
  mw_seq : connected (state s') = true ->
    remote_seq_no (rx s') = seq_of irs (1 + Z.of_nat (length D) + Z.b2z (rx_fin_received (rx s')));
  mw_fin : rx_fin_received (rx s') = true -> rx_fin_received (rx s) = true \/ awaits_fin (state s) = true /\ c = CFin;
  mw_open : awaits_fin (state s') = true -> rx_fin_received (rx s') = false;
  mw_fresh : synchronizing s' = true -> state s = Listen /\ rx_fin_received (rx s') = false;
}.

Lemma moved_midway cx irs W D s0 s ip r c s' :
  rcv irs W D s -> from_stream irs W r -> acts_on s0 r c -> moved cx ip r s c s' true -> midway irs D c s s'.
Proof.
  intros V FS [_ [[AS _] _]] M. inversion M as
    [|?|s1 _ E0 E1 E2 E3 _ _ _ _ _ _ _ _ _|s1 _ E0 E1 E2 E3 _ _ _ _ _ _ _ _|s1 _ _ N E1 _ _ _ _|s1 _ Ec N E1 _ _ _ _]; subst.
  - assert (synchronizing s = true) as Sy by (unfold synchronizing; by rewrite E0). destruct (rv_fresh _ _ _ _ V Sy) as (-> & F0 & _).
    constructor; rewrite E3; simpl; rewrite ?F0; try done.
    intros _. rewrite (fs_syn _ _ _ FS (AS eq_refl)). unfold seq_of. by rewrite wrap_i32_idemp.
  - assert (synchronizing s = true) as Sy by (unfold synchronizing; by rewrite E0). destruct (rv_fresh _ _ _ _ V Sy) as (-> & F0 & _).
    constructor; rewrite E3; simpl; rewrite ?F0; try done; [|unfold synchronizing; by rewrite E2].
    intros _. rewrite (fs_syn _ _ _ FS (AS eq_refl)). unfold seq_of. by rewrite wrap_i32_idemp.
  - assert (connected (state s) = true /\ (awaits_fin (state s') = true -> awaits_fin (state s) = true) /\ synchronizing s' = false)
      as (N1 & N2 & N3) by (unfold synchronizing; by destruct (state s), (state s')).
    constructor; rewrite ?E1, ?N3; try done; [intros _; by apply (rv_seq _ _ _ _ V)|auto|]. intros Y. apply (rv_open _ _ _ _ V). auto.
  - assert (awaits_fin (state s) = true /\ connected (state s) = true) as [N1 N2] by (by destruct (state s), (state s')).
    constructor; rewrite ?E1; simpl; try done; [|by intros _; right|..].
    + intros _. rewrite (rv_seq _ _ _ _ V N2), (rv_open _ _ _ _ V N1). unfold seq_of. rewrite wrap_i32_idemp. f_equal. simpl. lia.
    + by destruct (state s), (state s').
    + unfold synchronizing. by destruct (state s), (state s').
Qed.

(** A FIN that is taken ends the stream, if its segment fits in the window. *)
Definition fin_fits (s : Socket) (r : TcpRepr) : Prop :=
  awaits_fin (state s) = true -> control r = CFin -> seq_number r = expected s ->
  rx_len s + payload_len r <= Z.of_nat (buf_capacity (rx_buffer (rx s))).

Lemma fin_ends irs W D s r bytes offset :
  rcv irs W D s -> from_stream irs W r -> Z.of_nat (length W) < 2 ^ 30 -> awaits_fin (state s) = true -> fin_fits s r ->
  acts_on s r CFin -> in_window s r bytes offset -> offset = 0 /\ (end_of D (rx s) + length bytes = length W)%nat.
Proof.
  intros V FS HW A FF [AF _] IW. destruct (AF eq_refl) as [C E]. assert (connected (state s) = true) as Co by (by destruct (state s)).
  destruct (iw_whole _ _ _ _ IW) as [-> ->]; [by intros X; rewrite X in A..|done|by apply FF|]. split; [done|].
  destruct (fs_data _ _ _ FS (or_intror C)) as (p & Ep & Lp & _ & Fp). rewrite <- (Fp C). f_equal.
  rewrite (rcv_expected _ _ _ _ V Co), (rv_open _ _ _ _ V A), Ep in E. simpl in E.
  pose proof (rxq_end _ _ _ (rv_q _ _ _ _ V)). apply seq_of_inj in E; lia.
Qed.

Lemma received_all s s' bytes n : received s s' bytes 0 n -> Z.of_nat (length bytes) <= n.
Proof.
  intros [_ T _ _]. pose proof (tk_end _ _ _ T) as E. pose proof (tk_nonneg _ _ _ T). unfold with_range, in_range in E.
  apply orb_false_iff in E as [_ E]. apply andb_false_iff in E as [E%Z.leb_gt|E%Z.ltb_ge]; lia.
Qed.

Lemma rcv_taken_payload irs W D c s r s2 s3 bytes offset :
  sock_ok s -> sock_ok s2 -> rcv irs W D s -> from_stream irs W r -> Z.of_nat (length W) < 2 ^ 30 -> state s <> Closed -> fin_fits s r ->
  acts_on s r c -> in_window s r bytes offset -> midway irs D c s s2 -> payload_taken s2 bytes offset s3 -> rcv irs W D s3.
Proof.
  intros K K2 V FS HW NC FF AO IW [M1 M2 M3 M4 M5 M6] PT.
  assert (rxq W D (rx s2)) as Q2 by (eapply rxq_same; [apply V|done..]).
  assert (end_of D (rx s2) = end_of D (rx s)) as E2 by (unfold end_of; by rewrite M2).
  assert (rx_fin_received (rx s2) = true -> rx_fin_received (rx s) = false -> offset = 0 /\ (end_of D (rx s2) + length bytes = length W)%nat) as FN.
  { intros F F0. rewrite E2. destruct (M4 F) as [F1|[A ->]]; [congruence|]. by eapply fin_ends. }
  inversion PT as [X|s5 s6 n Nb X F _]; subst.
  - constructor; try done.
    + intros F. destruct (rx_fin_received (rx s)) eqn:F0; [by rewrite E2; apply (rv_fin _ _ _ _ V)|].
      destruct (FN F eq_refl) as [-> <-]. destruct X as [->|X]; [simpl; lia|lia].
    + intros Y. destruct (M6 Y) as [Y0 Y1]. destruct (rv_fresh _ _ _ _ V ltac:(unfold synchronizing; by rewrite Y0)) as (-> & _ & Pr). split_and!; try done.
      by rewrite M1.
  - destruct (window_place _ _ _ _ _ _ _ K V FS HW NC IW Nb) as [F0 B]. rewrite <- E2 in B.
    pose proof (rxq_received _ _ _ _ _ _ _ (so_rx _ K2) Q2 (iw_offset _ _ _ _ IW) X B) as Q5. pose proof (rc_rest _ _ _ _ _ X) as R5.
    assert (state s5 = state s2 /\ rx_fin_received (rx s5) = rx_fin_received (rx s2) /\ remote_seq_no (rx s5) = remote_seq_no (rx s2))
      as (S5 & F5 & N5) by (rewrite R5; by sock).
    apply rcv_frame with (s := s5); [|done]. constructor; rewrite ?S5, ?F5, ?N5; try done.
    + intros F1. destruct (FN F1 F0) as [-> <-]. pose proof (received_all _ _ _ _ X) as L. pose proof (rxq_end _ _ _ Q5) as L5.
      destruct (FN F1 F0) as [_ FE]. rewrite <- FE in L5. destruct X as [_ _ (b & Wr & Eb) _].
      unfold end_of in *. rewrite Eb in *. simpl in *. rewrite (wr_len _ _ _ _ Wr) in *. lia.
    + unfold synchronizing. rewrite S5. intros Y. destruct (M6 Y) as [Y0 _]. by destruct (iw_open _ _ _ _ IW Nb).
Qed.

Lemma midway_frame irs D c s s1 s2 : frame s s1 -> midway irs D c s1 s2 -> midway irs D c s s2.
Proof.
  intros [F1 F2 F3 F4 F5 _ _ _ _ _ _] [? ? ? ? ? ?]. constructor; rewrite <- ?F1, <- ?F2, <- ?F3, <- ?F5; done.
Qed.

Lemma acked_midway irs D c s s1 s2 r n : midway irs D c s s1 -> acked_to s1 s2 r n -> midway irs D c s s2.
Proof.
  intros [? ? ? ? ? ?] AT. unfold synchronizing in *.
  constructor; unfold synchronizing; rewrite ?(at_rx _ _ _ _ AT), ?(at_state _ _ _ _ AT); done.
Qed.

Lemma rcv_processed cx irs W D s ip r s' :
  sock_ok s -> rcv irs W D s -> from_stream irs W r -> Z.of_nat (length W) < 2 ^ 30 -> state s <> Closed -> fin_fits s r ->
  processed cx s ip r s' -> rcv irs W D s'.
Proof.
  intros K V FS HW NC FF P. destruct P as [s' F|s1 bytes offset c s2 F IW AO M|s1 bytes offset c s2 n fin s3 s4 F IW AO _ _ _ _ _ M AT PT K3].
  - by eapply rcv_frame.
  - pose proof (rcv_frame _ _ _ _ _ V F) as V1. inversion M as [|? _ _ E2 E3 _ _ H| | | |]; subst; [done|].
    destruct V1 as [A B C D1 E]. destruct H as [[H1 H2]|H]; constructor; unfold synchronizing in *; rewrite ?E2, ?H, ?H2; try done.
    intros _. apply C. by rewrite H1.
  - pose proof (rcv_frame _ _ _ _ _ V F) as V1. pose proof (moved_midway _ _ _ _ _ _ _ _ _ _ V1 FS AO M) as MW.
    eapply (rcv_taken_payload _ _ _ _ s r s3); try done. eapply acked_midway, AT. by eapply midway_frame.
Qed.

(** ** The other steps *)

Lemma rcv_keeps irs W D s s' :
  rcv irs W D s -> rx s' = rx s -> (connected (state s') = true -> connected (state s) = true) ->
  (awaits_fin (state s') = true -> awaits_fin (state s) = true) -> (synchronizing s' = true -> synchronizing s = true) -> rcv irs W D s'.
Proof. intros [A B C E F] H1 H2 H3 H4. constructor; rewrite ?H1; auto. Qed.

Lemma rcv_same_state irs W D s s' : rcv irs W D s -> rx s' = rx s -> state s' = state s \/ state s' = Closed -> rcv irs W D s'.
Proof. intros V E [H|H]; (apply (rcv_keeps irs W D s); [done|done|..]); unfold synchronizing; by rewrite H. Qed.

Lemma rcv_reset irs W D s : rcv irs W D s -> rcv irs W D (reset s).
Proof.
  intros [[G _ _] _ _ _ _]. constructor; try done. constructor; simpl; [done|lia|]. intros x Hx P.
  rewrite empties_absent in P by (by apply Forall_replicate). done.
Qed.

Lemma rcv_dispatched irs W D s s' o : rcv irs W D s -> dispatched s s' o -> rcv irs W D s'.
Proof.
  intros V H. destruct H as [s' [T| ->]|s1 T|s1 s' p T F _ _ _ _|s1 s' p T _ _ _ E]; try done.
  - by apply (rcv_same_state _ _ _ s); [|apply T..].
  - apply rcv_reset. by apply (rcv_same_state _ _ _ s); [|apply T..].
  - apply rcv_frame with (s := s1); [|done]. by apply (rcv_same_state _ _ _ s); [|apply T..].
  - apply (rcv_same_state _ _ _ s1); [|apply E|left; apply E]. by apply (rcv_same_state _ _ _ s); [|apply T..].
Qed.

Lemma rcv_close irs W D s : rcv irs W D s -> rcv irs W D (close s).
Proof.
  intros V. unfold close. destruct (state s) eqn:E; try done; apply (rcv_keeps irs W D s); try done; by rewrite E.
Qed.

Lemma rcv_abort irs W D s : rcv irs W D s -> rcv irs W D (abort s).
Proof. intros V. by apply (rcv_same_state _ _ _ s); [| |right]. Qed.

Lemma rcv_taken irs W D s s' bytes : sock_ok s -> rcv irs W D s -> taken s s' bytes -> rcv irs W (D ++ bytes) s'.
Proof.
  intros K V T. pose proof (rxq_taken _ _ _ _ _ (so_rx _ K) (rv_q _ _ _ _ V) T) as Q. pose proof T as [E1 (b & E2 & Dr & _) _ _ M].
  pose proof (dr_fits _ _ _ Dr). pose proof (dr_len _ _ _ Dr).
  destruct V as [A B C E F]. constructor; try done; rewrite ?E1, ?E2; simpl; auto.
  - intros Fi. rewrite <- (B Fi). unfold end_of. simpl. rewrite length_app. lia.
  - unfold synchronizing. rewrite E1. intros Y. exfalso. destruct (so_empty _ K Y) as [Z0 _].
    unfold may_recv, buf_is_empty in M. rewrite Z0 in M. unfold synchronizing in Y. by destruct (state s).
  - intros Co. rewrite (F Co), length_app. unfold seq_of. rewrite wrap_i32_idemp. f_equal. lia.
Qed.


(** What a TCP socket transmits is the stream its program wrote, each byte at its place. *)

Definition opened (x : State) : bool := match x with Closed | Listen | SynSent | SynReceived => false | _ => true end.
Definition may_write (x : State) : bool := match x with Established | CloseWait => true | _ => false end.

(** How much of the stream [W] was acknowledged: the rest is in the transmit buffer. *)
Definition acked_bytes (W : list Z) (s : Socket) : nat := length W - buf_len (tx_buffer (tx s)).

(** The transmit buffer holds the end of [W], and the local sequence number stands at its
    start, or one further when the FIN was acknowledged too. *)
Definition queue_of (iss : Z) (W : list Z) (s : Socket) (f : bool) : Prop :=
  (buf_len (tx_buffer (tx s)) <= length W)%nat /\ contents (tx_buffer (tx s)) = drop (acked_bytes W s) W /\
  local_seq_no (tx s) = seq_of iss (1 + Z.of_nat (acked_bytes W s) + Z.b2z f) /\
  (f = true -> sent_fin s = false /\ may_write (state s) = false /\ buf_len (tx_buffer (tx s)) = 0%nat).

(** The socket sends the stream [W], after a SYN with number [iss]. *)
Record snd_ok (iss : Z) (W : list Z) (s : Socket) : Prop := {
  sn_idle : synchronizing s = true -> W = [];
  sn_syn : sent_syn s = true -> local_seq_no (tx s) = wrap_i32 iss;
  sn_open : opened (state s) = true -> exists f, queue_of iss W s f;
}.

(** What the sender looks at. *)
Lemma snd_keeps iss W s s' :
  snd_ok iss W s -> state s' = state s \/ state s' = Closed -> tx_buffer (tx s') = tx_buffer (tx s) ->
  local_seq_no (tx s') = local_seq_no (tx s) -> snd_ok iss W s'.
Proof.
  intros [A B C] [E1|E1] E2 E3; constructor; unfold synchronizing, sent_syn, queue_of, acked_bytes, sent_fin in *; rewrite E1, ?E2, ?E3; done.
Qed.

Lemma snd_frame iss W s s' : snd_ok iss W s -> frame s s' -> snd_ok iss W s'.
Proof. intros V F. apply (snd_keeps iss W s); [done|left; apply F|by rewrite (fr_tx _ _ F)..]. Qed.

(** ** Acknowledgements *)

Lemma payload_taken_tx s bytes offset s' : payload_taken s bytes offset s' -> tx s' = tx s /\ state s' = state s.
Proof.
  intros P. destruct P as [|s1 s' n _ X F _]; [done|]. rewrite (fr_tx _ _ F), (fr_state _ _ F), (rc_rest _ _ _ _ _ X). done.
Qed.

(** The first acknowledgement, of the SYN. *)
Lemma syn_acked iss W s s1 s2 r :
  sock_ok s -> snd_ok iss W s -> sent_syn s = true -> ack_number r = Some (wrap_i32 (local_seq_no (tx s) + 1)) ->
  tx_buffer (tx s1) = tx_buffer (tx s) -> synchronizing s1 = false ->
  acked_to s1 s2 r 0 -> snd_ok iss W s2.
Proof.
  intros K V Sy Ea E1 E2 AT. assert (synchronizing s = true) as Y by (unfold synchronizing, sent_syn in *; by destruct (state s)).
  destruct (so_empty _ K Y) as [_ Z0]. pose proof (at_drops _ _ _ _ AT) as Dr. rewrite E1 in Dr.
  assert (buf_len (tx_buffer (tx s2)) = 0%nat) as Z2 by (rewrite (dr_len _ _ _ Dr); lia).
  assert (synchronizing s2 = false) as Y2 by (unfold synchronizing in *; by rewrite (at_state _ _ _ _ AT)).
  constructor; [by rewrite Y2|unfold synchronizing, sent_syn in *; by destruct (state s2)|]. intros _. exists false.
  rewrite (sn_idle _ _ _ V Y). unfold queue_of, acked_bytes. rewrite Z2. unfold contents. rewrite Z2. simpl. split_and!; try done.
  rewrite (at_local _ _ _ _ AT), Ea. simpl. rewrite (sn_syn _ _ _ V Sy). unfold seq_of. by rewrite wrap_i32_idemp.
Qed.

(** A later one. *)
Lemma data_acked iss W s s1 s2 r n of_fin :
  sock_ok s -> snd_ok iss W s -> opened (state s) = true -> tx s1 = tx s -> opened (state s1) = true \/ state s1 = Closed ->
  (may_write (state s1) = true -> may_write (state s) = true) -> (sent_fin s1 = true -> sent_fin s = true \/ may_write (state s) = true) ->
  is_Some (ack_number r) -> 0 <= n <= tx_len s -> fin_acked s r n of_fin -> (of_fin = true -> sent_fin s1 = false) ->
  acked_to s1 s2 r n -> snd_ok iss W s2.
Proof.
  intros K V Op ET OC MW SF [a Ea] Hn FA LF AT. destruct (sn_open _ _ _ V Op) as (f & L & Ct & Ls & Hf).
  pose proof (at_drops _ _ _ _ AT) as Dr. rewrite ET in Dr. pose proof (at_state _ _ _ _ AT) as Est.
  assert (synchronizing s2 = false /\ sent_syn s2 = false) as [Y1 Y2].
  { unfold synchronizing, sent_syn. rewrite Est. destruct OC as [OC|OC]; [by destruct (state s1)|by rewrite OC]. }
  constructor; [by rewrite Y1|by rewrite Y2|]. intros _. unfold tx_len in *. pose proof (dr_len _ _ _ Dr) as L2.
  assert (acked_bytes W s2 = acked_bytes W s + Z.to_nat n)%nat as A2 by (unfold acked_bytes; lia).
  assert (contents (tx_buffer (tx s2)) = drop (acked_bytes W s2) W) as C2.
  { pose proof (drops_contents _ _ _ (to_buf _ (so_tx _ K)) Dr) as C0. rewrite A2, <- drop_drop, <- Ct, C0.
    by rewrite drop_app_length' by (by rewrite cells_length). }
  assert (sent_fin s2 = sent_fin s1) as SF2 by (unfold sent_fin; by rewrite Est).
  pose proof (at_local _ _ _ _ AT) as Al. rewrite Ea, ?ET in Al. simpl in Al. destruct of_fin; simpl in FA.
  - destruct FA as (F1 & F2 & F3). rewrite Ea in F3. injection F3 as ->. unfold tx_len in F2.
    destruct f; [by destruct (Hf eq_refl) as [Hf1 _]; rewrite Hf1 in F1|]. exists true. unfold queue_of. rewrite SF2, Est. split_and!; try done; try lia.
    + rewrite Al, Ls, A2. unfold seq_of. rewrite wrap_i32_idemp. f_equal. simpl. lia.
    + intros _. split_and!; [auto| |lia]. destruct (may_write (state s1)) eqn:M; [|done]. specialize (MW eq_refl).
      unfold sent_fin in F1. by destruct (state s).
  - specialize (FA ltac:(unfold sent_syn; by destruct (state s)) _ Ea). subst a. exists f. unfold queue_of. rewrite SF2, Est. split_and!; try done; try lia.
    + rewrite Al, Ls, A2. unfold seq_of. rewrite wrap_i32_idemp. f_equal. lia.
    + intros F. destruct (Hf F) as (H1 & H2 & H3). split_and!; [| |lia].
      * destruct (sent_fin s1); [|done]. destruct (SF eq_refl); congruence.
      * destruct (may_write (state s1)); [|done]. specialize (MW eq_refl). congruence.
Qed.

(** ** Segments and calls *)

Lemma next_opened x y :
  plain_next x y = true \/ fin_next x y = true ->
  (x = SynReceived \/ opened x = true) /\ (opened y = true \/ y = Closed) /\ (x <> SynReceived -> may_write y = true -> may_write x = true).
Proof. intros [H|H]; destruct x, y; try done; auto. Qed.

Lemma next_fin s s' :
  plain_next (state s) (state s') = true \/ fin_next (state s) (state s') = true -> sent_fin s' = true -> sent_fin s = true \/ may_write (state s) = true.
Proof. unfold sent_fin. intros [H|H]; destruct (state s), (state s'); try done; auto. Qed.

Lemma moved_from_syn cx ip r s c s' :
  moved cx ip r s c s' true -> sent_syn s = true -> tx_buffer (tx s') = tx_buffer (tx s) /\ synchronizing s' = false.
Proof.
  intros M Sy. unfold sent_syn in Sy. inversion M as [|?|? _ E0|? _ _ _ E1 _ E3|? _ _ N _ E2|? _ _ N _ E2]; subst.
  - by rewrite E0 in Sy.
  - unfold synchronizing. by rewrite E1.
  - rewrite E2. unfold synchronizing. by destruct (state s), (state s').
  - rewrite E2. unfold synchronizing. by destruct (state s), (state s').
Qed.

Lemma moved_from_open cx ip r s c s' :
  moved cx ip r s c s' true -> state s <> Listen -> sent_syn s = false ->
  opened (state s) = true /\ tx s' = tx s /\ (plain_next (state s) (state s') = true \/ fin_next (state s) (state s') = true).
Proof.
  intros M NL Sy. unfold sent_syn in Sy. inversion M as [|?|? _ E0|? _ E0|? _ _ N _ E2|? _ _ N _ E2]; subst; try done.
  - by rewrite E0 in Sy.
  - split_and!; [|done|auto]. by destruct (state s), (state s').
  - split_and!; [|done|auto]. by destruct (state s), (state s').
Qed.

Lemma snd_processed cx iss W s ip r s' :
  sock_ok s -> snd_ok iss W s -> accepts s ip r = true -> processed cx s ip r s' ->
  exists iss', snd_ok iss' W s' /\ (state s <> Listen -> iss' = iss).
Proof.
  intros K V A P. destruct P as [s' F|s1 bytes offset c s2 F IW AO M|s1 bytes offset c s2 n fin s3 s4 F IW AO AV AR SN FA LF M AT PT K3].
  { exists iss. split; [by eapply snd_frame|done]. }
  { exists iss. split; [|done]. pose proof (snd_frame _ _ _ _ V F) as V1. inversion M as [|? _ _ _ E3 _ _ H| | | |]; subst; [done|].
    destruct H as [[H1 H2]|H]; [|by apply (snd_keeps iss W s1); [|right|rewrite E3..]].
    destruct V1 as [V1 _ _]. constructor; unfold synchronizing, sent_syn in *; rewrite H2; try done. intros _. apply V1. by rewrite H1. }
  destruct (payload_taken_tx _ _ _ _ PT) as [T4 S4].
  assert (forall i, snd_ok i W s3 -> snd_ok i W s4) as E4 by (intros i V3; apply (snd_keeps i W s3); [done|by left|by rewrite T4..]).
  pose proof (snd_frame _ _ _ _ V F) as V1. pose proof (sock_ok_frame _ _ K F) as K1. pose proof (fr_state _ _ F) as S1.
  assert (c <> CRst) as NR by (intros ->; inversion M; done). assert (control r <> CRst) as NR' by (intros X; apply AO in X; done).
  specialize (AV NR'). destruct (sent_syn s) eqn:Sy.
  - exists iss. split; [|done]. apply E4. assert (sent_syn s1 = true) as Sy1 by (unfold sent_syn in *; by rewrite S1).
    rewrite (SN Sy1) in AT. destruct (ack_number r) as [a|] eqn:Ea; [subst a|by unfold sent_syn in Sy; rewrite AV in Sy].
    destruct (moved_from_syn _ _ _ _ _ _ M Sy1) as [B2 Y2]. eapply syn_acked; try done. by rewrite Ea, (fr_tx _ _ F).
  - destruct (decide (state s = Listen)) as [EL|NL].
    + destruct (ack_number r) as [a|] eqn:Ea; [by edestruct accepts_listen|]. exists (local_seq_no (tx s3)). split; [|done]. apply E4.
      assert (synchronizing s = true) as Y by (unfold synchronizing; by rewrite EL).
      assert (state s3 = SynReceived) as E3.
      { rewrite (at_state _ _ _ _ AT). rewrite EL in S1. inversion M as [|?|?|? _ E0|? _ _ N|? _ _ N]; subst; try done; try by rewrite S1 in *. }
      constructor; [intros _; apply (sn_idle _ _ _ V Y)|intros _; symmetry; apply (to_local _ (so_tx _ K3))|by rewrite E3].
    + exists iss. split; [|done]. apply E4. destruct (ack_number r) as [a|] eqn:Ea; [|done].
      destruct (moved_from_open _ _ _ _ _ _ M) as (O1 & T2 & N); [by rewrite S1|by unfold sent_syn in *; rewrite S1|].
      destruct (next_opened _ _ N) as (_ & N2 & N3). pose proof (next_fin _ _ N) as N4.
      eapply (data_acked iss W s1 s2 s3 r n fin); try done; [|by destruct AR].
      apply N3. intros X. by rewrite X in O1.
Qed.

Lemma timers_snd iss W s s' : snd_ok iss W s -> timers_run s s' -> snd_ok iss W s'.
Proof. intros V T. by apply (snd_keeps iss W s); [|apply T..]. Qed.

Lemma snd_dispatched iss W s s' o : snd_ok iss W s -> dispatched s s' o -> snd_ok iss W s'.
Proof.
  intros V H. destruct H as [s' [T| ->]|s1 T|s1 s' p T F _ _ _ _|s1 s' p T _ _ _ E]; try done.
  - by eapply timers_snd.
  - eapply snd_frame, F. by eapply timers_snd.
  - apply (snd_keeps iss W s1); [by eapply timers_snd|left|..]; apply E.
Qed.

Lemma snd_written iss W s s' bytes : snd_ok iss W s -> written s s' bytes -> snd_ok iss (W ++ bytes) s'.
Proof.
  intros V [E1 _ (b & E2 & A) _ M]. assert (opened (state s) = true) as O by (unfold may_send in M; by destruct (state s)).
  destruct (sn_open _ _ _ V O) as (f & L & Ct & Ls & Hf). pose proof A as [_ _ A3 A4].
  assert (f = false) as -> by (destruct f; [|done]; destruct (Hf eq_refl) as (_ & H & _); unfold may_send in M; by destruct (state s)).
  constructor; unfold synchronizing, sent_syn; rewrite ?E1; [by destruct (state s)..|]. intros _. exists false.
  assert (acked_bytes (W ++ bytes) s' = acked_bytes W s) as E3.
  { unfold acked_bytes. rewrite E2. simpl. rewrite length_app. lia. }
  unfold queue_of. rewrite E3, E2. simpl. rewrite length_app. split_and!; try done; [lia|].
  rewrite A4, Ct, drop_app_le; [done|unfold acked_bytes; lia].
Qed.

Lemma snd_close iss W s : snd_ok iss W s -> state s <> SynReceived -> snd_ok iss W (close s).
Proof.
  intros V N. unfold close. destruct (state s) eqn:E; try done.
  - destruct V as [_ _ C]. constructor; try done. intros _. rewrite E in C. destruct (C eq_refl) as (f & L & Ct & Ls & Hf).
    destruct f; [by destruct (Hf eq_refl) as (_ & H & _); rewrite E in H|]. by exists false.
  - destruct V as [_ _ C]. constructor; try done. intros _. rewrite E in C. destruct (C eq_refl) as (f & L & Ct & Ls & Hf).
    destruct f; [by destruct (Hf eq_refl) as (_ & H & _); rewrite E in H|]. by exists false.
Qed.

(** ** What is on the wire *)

Lemma reply_from_stream iss W s p : empty_reply s (Some p) -> from_stream iss W (snd p).
Proof.
  intros [E H]. constructor.
  - intros [N|C]; [done|]. destruct H as [H|[H _]]; by rewrite H in C.
  - intros C. destruct H as [H|[H _]]; by rewrite H in C.
Qed.

Lemma last_place i q t : tx_ok t -> local_seq_no t = seq_of i q -> remote_last_seq t = seq_of i (q + in_flight t).
Proof.
  intros T E. rewrite <- (to_last _ T). unfold in_flight. rewrite E. unfold seq_of. apply wrap_i32_mod.
  rewrite Z.add_assoc, (Zplus_mod (i + q)), wrap_i32_eqm, (Zminus_mod (remote_last_seq t)), wrap_i32_eqm, <- Zminus_mod, <- Zplus_mod.
  f_equal. lia.
Qed.

Lemma segment_place iss W s r :
  sock_ok s -> snd_ok iss W s -> segment_of s r -> payload r <> [] \/ control r = CFin ->
  at_place iss W r (acked_bytes W s + Z.to_nat (in_flight (tx s))) /\ queue_of iss W s false.
Proof.
  intros K V G H. pose proof (to_flight _ (so_tx _ K)) as [F0 F1].
  assert (carries (state s) = true) as Ca.
  { destruct (carries (state s)) eqn:Ca; [done|]. destruct (sg_carries _ _ G Ca). by destruct H. }
  destruct (sn_open _ _ _ V ltac:(by destruct (state s))) as (f & Q). pose proof Q as (L & Ct & Ls & Hf).
  assert (f = false) as ->.
  { destruct f; [|done]. destruct (Hf eq_refl) as (H1 & H2 & _). unfold sent_fin in H1. by destruct (state s). }
  split; [|done]. destruct (sg_data _ _ G) as [k Ek]. rewrite Ct, drop_drop in Ek. unfold acked_bytes in *.
  assert (payload r = [] \/ in_flight (tx s) + payload_len r <= tx_len s) as Fit by apply G. unfold payload_len, tx_len in *.
  assert (control r = CFin -> in_flight (tx s) + Z.of_nat (length (payload r)) = Z.of_nat (buf_len (tx_buffer (tx s)))) as Fin by apply G.
  unfold at_place. split_and!.
  - rewrite (sg_seq _ _ G), (last_place _ _ _ (so_tx _ K) Ls). f_equal. simpl. lia.
  - destruct Fit as [E|Fit]; [|lia]. rewrite E in *. simpl in *. destruct H as [H|H]; [done|]. specialize (Fin H). lia.
  - intros i x Hi. rewrite Ek in Hi. pose proof (lookup_lt_Some _ _ _ Hi) as Li. rewrite length_take in Li.
    by rewrite lookup_take_lt, lookup_drop in Hi by lia.
  - intros C. specialize (Fin C). lia.
Qed.

Lemma segment_from_stream iss W s r :
  sock_ok s -> snd_ok iss W s -> segment_of s r -> (sent_syn s = true -> in_flight (tx s) = 0) -> from_stream iss W r.
Proof.
  intros K V G S0. constructor.
  - intros H. eexists. by apply (segment_place iss W s r).
  - intros C. apply (sg_syn _ _ G) in C. rewrite (sg_seq _ _ G). pose proof (sn_syn _ _ _ V C) as E.
    rewrite (last_place iss 0 _ (so_tx _ K)), S0 by (done || (unfold seq_of; by rewrite Z.add_0_r)). unfold seq_of. f_equal. lia.
Qed.

(** A segment with a FIN was sent by a socket that takes no more bytes. *)
Definition finished (x : State) : bool :=
  match x with FinWait1 | FinWait2 | Closing | LastAck | TimeWait | Closed => true | _ => false end.

Lemma segment_finished s r : segment_of s r -> control r = CFin -> finished (state s) = true.
Proof. intros G C. destruct (sg_fin _ _ G C) as [F _]. unfold sent_fin in F. by destruct (state s). Qed.

Lemma processed_finished cx s ip r s' : processed cx s ip r s' -> finished (state s) = true -> finished (state s') = true.
Proof.
  intros P Fi. destruct P as [s' F|s1 bytes offset c s2 F IW AO M|s1 bytes offset c s2 n fin s3 s4 F IW AO AV AR SN FA LF M AT PT K3].
  - by rewrite (fr_state _ _ F).
  - rewrite <- (fr_state _ _ F) in Fi. inversion M as [|? _ _ _ _ _ _ [[H _]|H]| | | |]; subst; [done|by rewrite H in Fi|by rewrite H].
  - destruct (payload_taken_tx _ _ _ _ PT) as [_ ->]. rewrite (at_state _ _ _ _ AT). rewrite <- (fr_state _ _ F) in Fi.
    inversion M as [|?|? _ E|? _ E|? _ _ N|? _ _ N]; subst; try (by rewrite E in Fi); by destruct (state s1), (state s2).
Qed.

Lemma dispatched_state s s' o : dispatched s s' o -> state s' = state s \/ state s' = Closed.
Proof.
  intros H. destruct H as [s' [T| ->]|s1 T|s1 s' p T F _ _ _ _|s1 s' p T _ _ _ E]; auto.
  - apply T.
  - rewrite (fr_state _ _ F). apply T.
  - rewrite (em_state _ _ _ E). apply T.
Qed.
