(* ===== verification/TcpFlow.v ===== *)
(** One direction of a TCP connection: a sending socket, a receiving socket and the
    segments both have sent. *)

From stdpp Require Import base numbers option list.
From S2P Require Import Prelude Slice Assembler AssemblerSpec SockBuf.
From S2P Require Import TcpSeq TcpSocket TcpProcess TcpDispatch TcpInv TcpSafe TcpOut TcpStream.

(** ** What [process] changes *)

Lemma payload_taken_rx s bytes offset s' :
  payload_taken s bytes offset s' ->
  buf_capacity (rx_buffer (rx s')) = buf_capacity (rx_buffer (rx s)) /\
  (buf_len (rx_buffer (rx s)) <= buf_len (rx_buffer (rx s')))%nat /\
  rx_fin_received (rx s') = rx_fin_received (rx s) /\ remote_win_shift (acks s') = remote_win_shift (acks s) /\
  (no_probe s -> no_probe s').
Proof.
  intros P. destruct P as [|s1 s' n _ X F _]; [by split_and!|].
  rewrite (fr_rx_buffer _ _ F), (fr_fin _ _ F), (fr_shift _ _ F). pose proof (fr_probe _ _ F) as FP.
  destruct X as [_ _ (b & Wr & Eb) Er]. rewrite Eb. split_and!.
  - exact (wr_capacity _ _ _ _ Wr).
  - simpl. rewrite (wr_len _ _ _ _ Wr). lia.
  - rewrite Er. by sock.
  - rewrite Er. by sock.
  - intros NP. apply FP. rewrite Er. by destruct NP.
Qed.

(** The receive side only grows; the shift of the window stays unless a SYN has none. *)
Record grows (s s' : Socket) (r : TcpRepr) : Prop := {
  gr_capacity : buf_capacity (rx_buffer (rx s')) = buf_capacity (rx_buffer (rx s));
  gr_len : (buf_len (rx_buffer (rx s)) <= buf_len (rx_buffer (rx s')))%nat;
  gr_fin : rx_fin_received (rx s) = true -> rx_fin_received (rx s') = true;
  gr_new_fin : rx_fin_received (rx s') = true -> rx_fin_received (rx s) = true \/ control r = CFin;
  gr_shift : remote_win_shift (acks s') = remote_win_shift (acks s) \/ control r = CSyn /\ window_scale r = None;
  gr_probe : no_probe s -> no_probe s';
}.

Lemma frame_grows s s' r : frame s s' -> grows s s' r.
Proof. intros [? ? E3 ? E5 ? ? E8 ? ? E11]. constructor; rewrite ?E3, ?E5, ?E8; auto. Qed.

Lemma moved_grows cx ip r s c s' go s0 : acts_on s0 r c -> moved cx ip r s c s' go -> grows s s' r.
Proof.
  intros (AF & AS & _) M. inversion M as
    [|? P _ E2 _ E4 _ _|? P _ E1 _ E2 _ _ _ _ _ E8 _ _ _|? P _ E1 _ E2 _ _ _ _ _ E8 _ _|? P _ _ E2 _ E4 _ _|? P E1 _ E2 _ E4 _ _]; subst;
    constructor; rewrite ?E2, ?E4; simpl; auto.
  - rewrite E8. destruct (window_scale r) eqn:Ew; [by left|right]. split; [by apply AS|done].
  - rewrite E8. destruct (window_scale r) eqn:Ew; [by left|right]. split; [by apply AS|done].
  - intros _. right. by apply AF.
Qed.

Lemma grows_trans s1 s2 s3 r : grows s1 s2 r -> grows s2 s3 r -> grows s1 s3 r.
Proof.
  intros [A1 A2 A3 A4 A5 A6] [B1 B2 B3 B4 B5 B6]. constructor; try congruence; [lia|auto|..|auto].
  - intros H. destruct (B4 H); auto.
  - destruct A5, B5; auto. left. congruence.
Qed.

Lemma processed_grows cx s ip r s' : processed cx s ip r s' -> grows s s' r.
Proof.
  intros P. destruct P as [s' F|s1 bytes offset c s2 F IW AO M|s1 bytes offset c s2 n fin s3 s4 F IW AO AV AR SN FA LF M AT PT K3].
  - by apply frame_grows.
  - eapply grows_trans; [by apply frame_grows|by eapply moved_grows].
  - eapply grows_trans; [by apply frame_grows|]. eapply grows_trans; [by eapply moved_grows|].
    destruct (payload_taken_rx _ _ _ _ PT) as (P1 & P2 & P3 & P4 & P5). pose proof (at_probe _ _ _ _ AT).
    constructor; rewrite ?P1, ?P3, ?P4, <- ?(at_rx _ _ _ _ AT), ?(at_acks _ _ _ _ AT); auto.
Qed.

(** How a segment changes the transmit side of a socket that ends connected: not at all,
    or by an acknowledgement and a window, with the scale of the handshake. *)
Inductive tx_update (s s' : Socket) (r : TcpRepr) : Prop :=
| tu_same : connected (state s) = true -> tx s' = tx s -> (opened (state s') = true -> opened (state s) = true) -> tx_update s s' r
| tu_listen : state s = Listen -> state s' = SynReceived -> control r = CSyn -> remote_win_scale (tx s') = window_scale r -> tx_update s s' r
| tu_connected : state s = SynSent -> control r = CSyn -> remote_win_scale (tx s') = window_scale r ->
    ack_number r = Some (local_seq_no (tx s')) -> remote_win_len (tx s') = window_len r -> tx_update s s' r
| tu_acked : connected (state s) = true -> control r <> CSyn -> control r <> CRst -> remote_win_scale (tx s') = remote_win_scale (tx s) ->
    ack_number r = Some (local_seq_no (tx s')) -> remote_win_len (tx s') = Z.shiftl (window_len r) (default 0 (remote_win_scale (tx s))) ->
    tx_update s s' r.

Lemma processed_tx cx s ip r s' :
  processed cx s ip r s' -> connected (state s') = true -> tx_update s s' r.
Proof.
  intros P C. destruct P as [s' F|s1 bytes offset c s2 F IW AO M|s1 bytes offset c s2 n fin s3 s4 F IW AO AV AR SN FA LF M AT PT K3].
  - rewrite (fr_state _ _ F) in C. apply tu_same; [done|apply F|by rewrite (fr_state _ _ F)].
  - inversion M as [|? _ _ _ _ _ _ [[_ H]|H]| | | |]; subst; try by rewrite H in C. rewrite (fr_state _ _ F) in C.
    apply tu_same; [done|apply F|by rewrite (fr_state _ _ F)].
  - destruct (payload_taken_tx _ _ _ _ PT) as [T4 S4]. rewrite S4, (at_state _ _ _ _ AT) in C.
    assert (control r <> CRst) as NR by (intros X; apply AO in X; subst; by inversion M). specialize (AV NR).
    pose proof (at_local _ _ _ _ AT) as EL. pose proof (at_window _ _ _ _ AT) as EW. pose proof (at_scale _ _ _ _ AT) as ES.
    destruct AO as (_ & AS & _). pose proof (fr_state _ _ F) as S1. pose proof (fr_tx _ _ F) as T1.
    assert (state s = Listen \/ is_Some (ack_number r)) as AK by (destruct (ack_number r); [by right; eexists|by left]).
    inversion M as [|?|? _ E0 Ec E1 _ _ _ _ _ E7|? _ E0 Ec E1 _ _ _ _ _ E7|? _ Ec N _ E2|? _ Ec N _ E2]; subst c.
    + apply tu_listen; [congruence|by rewrite S4, (at_state _ _ _ _ AT)|by apply AS|congruence].
    + assert (control r = CSyn) as Cr by (by apply AS). rewrite Cr, Z.shiftl_0_r in EW. rewrite E0 in S1.
      destruct AK as [AK|[a Ea]]; [congruence|]. rewrite Ea in EL. apply tu_connected; try congruence. by rewrite Ea, T4, EL.
    + assert (control r <> CSyn) as Cr by (intros X; apply AS in X; done). assert (connected (state s1) = true) by (by destruct (state s1)).
      rewrite S1 in *. destruct AK as [AK|[a Ea]]; [by rewrite AK in *|]. rewrite Ea in EL.
      apply tu_acked; try congruence; rewrite T4; [by rewrite Ea, EL|]. rewrite EW, E2, T1. by destruct (control r).
    + assert (control r <> CSyn) as Cr by (intros X; apply AS in X; done). assert (connected (state s1) = true) by (by destruct (state s1)).
      rewrite S1 in *. destruct AK as [AK|[a Ea]]; [by rewrite AK in *|]. rewrite Ea in EL.
      apply tu_acked; try congruence; rewrite T4; [by rewrite Ea, EL|]. rewrite EW, E2, T1. by destruct (control r).
Qed.

(** ** A direction *)

Definition rpos (D : list Z) (y : Socket) : Z := Z.of_nat (end_of D (rx y)) + Z.b2z (rx_fin_received (rx y)).
Definition redge (D : list Z) (y : Socket) : Z :=
  Z.of_nat (length D) + Z.b2z (rx_fin_received (rx y)) + Z.of_nat (buf_capacity (rx_buffer (rx y))).

(** A segment of the receiver acknowledges what was received and offers room there is. *)
Definition acks_ok (i : Z) (D : list Z) (y : Socket) (r : TcpRepr) : Prop :=
  control r <> CRst -> forall a, ack_number r = Some a -> exists e, a = seq_of i (1 + e) /\ 0 <= e <= rpos D y /\
    e + (if bool_decide (control r = CSyn) then window_len r else Z.shiftl (window_len r) (remote_win_shift (acks y))) <= redge D y.

(** The sender knows no more than that. *)
Definition knows (i : Z) (W : list Z) (x : Socket) (D : list Z) (y : Socket) : Prop :=
  exists f, queue_of i W x f /\ Z.of_nat (acked_bytes W x) + Z.b2z f <= rpos D y /\
    Z.of_nat (acked_bytes W x) + Z.b2z f + remote_win_len (tx x) <= redge D y.

Definition is_reset (p : Packet) : Prop := payload (snd p) = [] /\ control (snd p) = CRst.

(** [x] sends the stream [W] to [y], whose program was given [D]; [N] are the segments of
    [x], [M] those of [y]. *)
Record flow (i : Z) (W : list Z) (x : Socket) (N M : list Packet) (D : list Z) (y : Socket) : Prop := {
  fl_snd : snd_ok i W x;
  fl_rcv : rcv i W D y;
  fl_len : Z.of_nat (length W) < 2 ^ 30;
  fl_stream : forall p, p ∈ N -> from_stream i W (snd p);
  fl_fin : forall p, p ∈ N -> control (snd p) = CFin -> finished (state x) = true;
  fl_closed : rx_fin_received (rx y) = true -> finished (state x) = true;
  fl_fit : state y <> Closed -> forall p, p ∈ N -> payload (snd p) <> [] ->
    exists q, at_place i W (snd p) q /\ Z.of_nat q + payload_len (snd p) <= redge D y;
  fl_acks : state y <> Closed -> forall p, p ∈ M -> acks_ok i D y (snd p);
  fl_syn : forall p, p ∈ M -> control (snd p) = CSyn -> exists k, window_scale (snd p) = Some k /\ (state y <> Closed -> k = remote_win_shift (acks y));
  fl_scale : connected (state x) = true -> exists k, remote_win_scale (tx x) = Some k /\ (state y <> Closed -> k = remote_win_shift (acks y));
  fl_knows : state y <> Closed -> opened (state x) = true -> knows i W x D y;
  fl_listen : state x = Listen -> Forall is_reset N /\ connected (state y) = false /\
    (state y <> Closed -> forall p, p ∈ M -> control (snd p) <> CRst -> ack_number (snd p) = None);
}.

(** ** Steps of the receiver *)

(** What the receiver must keep, with the segments [new] it sends. *)
Record rcv_step (D D' : list Z) (y y' : Socket) (new : list Packet) (i : Z) : Prop := {
  rs_pos : rpos D y <= rpos D' y';
  rs_edge : redge D y <= redge D' y';
  rs_shift : remote_win_shift (acks y') = remote_win_shift (acks y);
  rs_acks : forall p, p ∈ new -> acks_ok i D' y' (snd p);
}.

Lemma acks_mono i D D' y y' new r : rcv_step D D' y y' new i -> acks_ok i D y r -> acks_ok i D' y' r.
Proof.
  intros [A B C _] H NR a Ea. destruct (H NR a Ea) as (e & -> & H1 & H2). exists e. rewrite C. split_and!; (done || lia).
Qed.

Lemma flow_receiver i W x N M D y D' y' new :
  flow i W x N M D y -> rcv i W D' y' -> (state y' <> Closed -> state y <> Closed /\ rcv_step D D' y y' new i) ->
  (rx_fin_received (rx y') = true -> finished (state x) = true) ->
  (forall p, p ∈ new -> control (snd p) = CSyn -> window_scale (snd p) = Some (remote_win_shift (acks y')) /\ state y' <> Closed) ->
  (state x = Listen -> connected (state y') = false /\ (state y' <> Closed -> forall p, p ∈ new -> control (snd p) <> CRst -> ack_number (snd p) = None)) ->
  flow i W x N (M ++ new) D' y'.
Proof.
  intros [F1 F2 F3 F4 F5 F6 F7 F8 F9 F10 F11 F12] V S FI SY LI. constructor; try done.
  - intros NC p Hp Np. destruct (S NC) as [NC0 [_ RE _ _]]. destruct (F7 NC0 p Hp Np) as (q & AP & L). exists q. split; [done|lia].
  - intros NC p Hp. destruct (S NC) as [NC0 RS]. apply elem_of_app in Hp as [Hp|Hp]; [|by apply RS]. eapply acks_mono; eauto.
  - intros p Hp C. apply elem_of_app in Hp as [Hp|Hp].
    + destruct (F9 p Hp C) as (k & E & K). exists k. split; [done|]. intros NC. destruct (S NC) as [NC0 RS]. rewrite (rs_shift _ _ _ _ _ _ RS). auto.
    + destruct (SY p Hp C) as [E NC]. eauto.
  - intros C. destruct (F10 C) as (k & E & K). exists k. split; [done|]. intros NC. destruct (S NC) as [NC0 RS].
    rewrite (rs_shift _ _ _ _ _ _ RS). auto.
  - intros NC O. destruct (S NC) as [NC0 [A B _ _]]. destruct (F11 NC0 O) as (f & Q & L1 & L2). exists f. split_and!; (done || lia).
  - intros L. destruct (F12 L) as (X1 & _ & X3), (LI L) as [X4 X5]. split_and!; try done. intros NC p Hp NR.
    destruct (S NC) as [NC0 _]. apply elem_of_app in Hp as [Hp|Hp]; eauto.
Qed.

(** The window that is announced is not wider than the room. *)
Lemma scaled_shift s w : sock_ok s -> scaled_window s = Some w -> Z.shiftl w (remote_win_shift (acks s)) <= rx_window s.
Proof.
  intros K E. unfold scaled_window in E. rewrite (buf_window_ok _ (ro_buf _ (so_rx _ K))) in E. simpl in E. injection E as <-.
  fold (rx_window s). pose proof (so_shift _ K) as H. rewrite Z.shiftl_mul_pow2, Z.shiftr_div_pow2 by done.
  pose proof (Z.pow_pos_nonneg 2 (remote_win_shift (acks s)) ltac:(lia) H) as Hp.
  pose proof (Z.mul_div_le (rx_window s) (2 ^ remote_win_shift (acks s)) Hp). nia.
Qed.

Lemma room_edge D s : sock_ok s -> rpos D s + rx_window s = redge D s.
Proof.
  intros K. pose proof (bo_len _ (ro_buf _ (so_rx _ K))). unfold rpos, redge, rx_window, end_of. lia.
Qed.

Lemma acks_here i W D s r :
  sock_ok s -> rcv i W D s -> connected (state s) = true -> ack_number r = Some (expected s) ->
  control r = CSyn /\ window_len r <= rx_window s \/ control r <> CSyn /\ scaled_window s = Some (window_len r) -> acks_ok i D s r.
Proof.
  intros K V C E H NR a Ea. rewrite E in Ea. injection Ea as <-. exists (rpos D s). rewrite (rcv_expected _ _ _ _ V C).
  pose proof (room_edge D s K) as RE. split_and!; [|unfold rpos; destruct (rx_fin_received (rx s)); simpl; lia|lia|].
  - f_equal. unfold rpos. lia.
  - destruct H as [[H1 H2]|[H1 H2]]; [rewrite bool_decide_true by done; lia|]. rewrite bool_decide_false by done.
    pose proof (scaled_shift s _ K H2). lia.
Qed.

Lemma reply_acks i W D s p :
  sock_ok s -> rcv i W D s -> state s <> Closed -> empty_reply s (Some p) -> acks_ok i D s (snd p).
Proof.
  intros K V NC [_ [H|(H & _ & [A1 A2] & [N1 N2])]]; [intros NR; done|].
  apply (acks_here i W); try done; [by destruct (state s)|right]. by rewrite H.
Qed.

Lemma segment_acks i W D s r : sock_ok s -> rcv i W D s -> state s <> Closed -> segment_of s r -> acks_ok i D s r.
Proof.
  intros K V NC G. destruct (sg_ack _ _ G) as [[E _]|[E N]]; [intros _ a Ea; congruence|].
  destruct (sg_live _ _ G) as [NL _]. apply (acks_here i W); try done; [by destruct (state s)|].
  apply G.
Qed.

(** ** Steps of the sender *)

Lemma at_place_extend i W t r p : at_place i W r p -> (t <> [] -> control r <> CFin) -> at_place i (W ++ t) r p.
Proof.
  intros (E1 & E2 & E3 & E4) N. unfold at_place. rewrite length_app. split_and!; [done|lia|intros; apply lookup_app_l_Some; auto|].
  intros C. destruct t as [|z t]; [rewrite E4 by done; simpl; lia|]. by destruct (N ltac:(done)).
Qed.

Lemma from_stream_extend i W t r : from_stream i W r -> (t <> [] -> control r <> CFin) -> from_stream i (W ++ t) r.
Proof.
  intros [A B] N. constructor; [|done]. intros H. destruct (A H) as (p & P). exists p. by apply at_place_extend.
Qed.

Lemma rcv_extend i W t D y : rcv i W D y -> (t <> [] -> rx_fin_received (rx y) = false) -> rcv i (W ++ t) D y.
Proof.
  intros [A B C E F] N. constructor; try done; [by apply rxq_extend|]. intros Fi. rewrite length_app, (B Fi).
  destruct t; [simpl; lia|]. rewrite N in Fi; done.
Qed.

Lemma flow_sender i W x N M D y t x' new :
  flow i W x N M D y -> snd_ok i (W ++ t) x' -> Z.of_nat (length (W ++ t)) < 2 ^ 30 -> (t <> [] -> finished (state x) = false) ->
  (finished (state x) = true -> finished (state x') = true) ->
  (forall p, p ∈ new -> from_stream i (W ++ t) (snd p) /\ (control (snd p) = CFin -> finished (state x') = true)) ->
  (state y <> Closed -> forall p, p ∈ new -> payload (snd p) <> [] ->
    exists q, at_place i (W ++ t) (snd p) q /\ Z.of_nat q + payload_len (snd p) <= redge D y) ->
  (connected (state x') = true -> exists k, remote_win_scale (tx x') = Some k /\ (state y <> Closed -> k = remote_win_shift (acks y))) ->
  (state y <> Closed -> opened (state x') = true -> knows i (W ++ t) x' D y) ->
  (state x' = Listen -> state x = Listen /\ Forall is_reset new) -> flow i (W ++ t) x' (N ++ new) M D y.
Proof.
  intros [F1 F2 F3 F4 F5 F6 F7 F8 F9 F10 F11 F12] V L T FI ST FT SC KN LI.
  assert (t <> [] -> forall p, p ∈ N -> control (snd p) <> CFin) as NF.
  { intros Nt p Hp C. specialize (T Nt). by rewrite (F5 p Hp C) in T. }
  constructor; try done.
  - apply rcv_extend; [done|]. intros Nt. specialize (T Nt). destruct (rx_fin_received (rx y)); [|done]. rewrite F6 in T; done.
  - intros p [Hp|Hp]%elem_of_app; [|by apply ST]. apply from_stream_extend; [auto|]. intros Nt. by apply NF.
  - intros p [Hp|Hp]%elem_of_app C; [|by apply (ST p)]. eauto.
  - auto.
  - intros NC p [Hp|Hp]%elem_of_app Np; [|by apply FT]. destruct (F7 NC p Hp Np) as (q & A & Lq). exists q. split; [|done].
    apply at_place_extend; [done|]. intros Nt. by apply NF.
  - intros Li. destruct (LI Li) as [Lx Fn]. destruct (F12 Lx) as (X1 & X2 & X3). split_and!; try done. by apply Forall_app.
Qed.

Lemma queue_place i W x f : queue_of i W x f -> local_seq_no (tx x) = seq_of i (1 + (Z.of_nat (acked_bytes W x) + Z.b2z f)).
Proof. intros (_ & _ & E & _). rewrite E. f_equal. lia. Qed.

(** The place of the local sequence number says how much was acknowledged. *)
Lemma knows_intro i W x D y e :
  snd_ok i W x -> opened (state x) = true -> Z.of_nat (length W) < 2 ^ 30 -> local_seq_no (tx x) = seq_of i (1 + e) ->
  0 <= e <= 2 ^ 31 -> e <= rpos D y -> e + remote_win_len (tx x) <= redge D y -> knows i W x D y.
Proof.
  intros V O L E He H1 H2. destruct (sn_open _ _ _ V O) as [f Q]. exists f. rewrite (queue_place _ _ _ _ Q) in E.
  apply seq_of_inj in E; [|unfold acked_bytes; destruct f; simpl; lia]. split_and!; [done|lia..].
Qed.

(** ** Events *)

Definition option_list {A} (o : option A) : list A := match o with Some a => [a] | None => [] end.

Lemma elem_of_option_list {A} (o : option A) a : a ∈ option_list o <-> o = Some a.
Proof. destruct o; simpl; [rewrite list_elem_of_singleton|rewrite elem_of_nil]; naive_solver. Qed.

Lemma reply_not_syn s p : empty_reply s (Some p) -> control (snd p) <> CSyn /\ control (snd p) <> CFin /\ payload (snd p) = [].
Proof. intros [E [H|[H _]]]; by rewrite H. Qed.

Lemma processed_reset cx s ip r s' :
  processed cx s ip r s' -> control r = CRst ->
  state s' = state s \/ state s' = Closed \/ state s = SynReceived /\ state s' = Listen.
Proof.
  intros P C. destruct P as [s' F|s1 bytes offset c s2 F IW AO M|s1 bytes offset c s2 n fin s3 s4 F IW AO AV AR SN FA LF M AT PT K3].
  - left. apply F.
  - rewrite <- (fr_state _ _ F). inversion M as [|? _ _ _ _ _ _ H| | | |]; subst; [by left|]. destruct H as [H|H]; auto.
  - exfalso. apply AO in C. subst. by inversion M.
Qed.

Lemma processed_listen cx s ip r s' :
  processed cx s ip r s' -> state s' = Listen -> state s = Listen \/ state s = SynReceived /\ control r = CRst.
Proof.
  intros P C. destruct P as [s' F|s1 bytes offset c s2 F IW AO M|s1 bytes offset c s2 n fin s3 s4 F IW AO AV AR SN FA LF M AT PT K3].
  - left. by rewrite <- (fr_state _ _ F).
  - rewrite <- (fr_state _ _ F). inversion M as [|? _ Ec _ _ _ _ H| | | |]; subst; [by left|]. right. split; [|by apply AO].
    destruct H as [[H _]|H]; [done|by rewrite H in C].
  - exfalso. destruct (payload_taken_tx _ _ _ _ PT) as [_ S4]. rewrite S4, (at_state _ _ _ _ AT) in C.
    inversion M as [|?|? _ _ _ E|? _ _ _ E|? _ _ N|? _ _ N]; subst; try (by rewrite E in C); rewrite C in N; by destruct (state s1).
Qed.

Lemma accepts_open s ip r : accepts s ip r = true -> state s <> Closed.
Proof. intros A E. unfold accepts, is_state in A. by rewrite bool_decide_true in A. Qed.

(** The receiver takes a segment. *)
Lemma flow_takes cx i W x N M D y ip r y' o :
  flow i W x N M D y -> sock_ok y -> sock_ok y' -> accepts y ip r = true -> (ip, r) ∈ N ->
  (control r = CSyn -> is_Some (window_scale r)) ->
  processed cx y ip r y' -> empty_reply y' o -> flow i W x N (M ++ option_list o) D y'.
Proof.
  intros F K K' A Hp SC P R. pose proof (accepts_open _ _ _ A) as NC. pose proof (processed_grows _ _ _ _ _ P) as [G1 G2 G3 G4 G5 _].
  assert (fin_fits y r) as FF.
  { intros Aw C E. destruct (decide (payload r = [])) as [E0|Np].
    { pose proof (bo_len _ (ro_buf _ (so_rx _ K))). unfold payload_len, rx_len. rewrite E0. simpl. lia. }
    destruct (fl_fit _ _ _ _ _ _ _ F NC _ Hp Np) as (q & (Eq & Lq & _) & Rq). simpl in *.
    pose proof (fl_rcv _ _ _ _ _ _ _ F) as V. pose proof (fl_len _ _ _ _ _ _ _ F). pose proof (rxq_end _ _ _ (rv_q _ _ _ _ V)).
    rewrite (rcv_expected _ _ _ _ V ltac:(by destruct (state y))), (rv_open _ _ _ _ V Aw), Eq in E.
    unfold redge, rx_len, end_of in *. rewrite (rv_open _ _ _ _ V Aw) in *. simpl in *. apply seq_of_inj in E; lia. }
  pose proof (fl_stream _ _ _ _ _ _ _ F _ Hp) as FS. simpl in FS.
  assert (rcv i W D y') as V' by (eapply rcv_processed; [exact K|apply F|exact FS|apply F|done|done|exact P]).
  apply (flow_receiver i W x N M D y); try done.
  - intros NC'. split; [done|]. constructor.
    + unfold rpos, end_of. destruct (rx_fin_received (rx y)); [rewrite G3 by done|destruct (rx_fin_received (rx y'))]; simpl; lia.
    + unfold redge. rewrite G1. destruct (rx_fin_received (rx y)); [rewrite G3 by done|destruct (rx_fin_received (rx y'))]; simpl; lia.
    + destruct G5 as [|[C E]]; [done|]. destruct (SC C) as [k Ek]. congruence.
    + intros p ->%elem_of_option_list. by eapply reply_acks.
  - intros Fi. destruct (G4 Fi) as [Fy|C]; [by apply F|by apply (fl_fin _ _ _ _ _ _ _ F (ip, r))].
  - intros p ->%elem_of_option_list C. by destruct (reply_not_syn _ _ R).
  - intros L. destruct (fl_listen _ _ _ _ _ _ _ F L) as (X1 & X2 & _).
    pose proof (proj1 (Forall_forall _ _) X1 _ Hp) as [_ C]. simpl in C.
    assert (connected (state y') = false) as U'.
    { destruct (processed_reset _ _ _ _ _ P C) as [->|[->|[E _]]]; try done. by rewrite E in X2. }
    split; [done|]. intros NC' p ->%elem_of_option_list NR. destruct R as [_ [R|(_ & _ & _ & [H1 H2])]]; [done|]. by destruct (state y').
Qed.

Lemma reply_sent i W s p (f : bool) : empty_reply s (Some p) -> from_stream i W (snd p) /\ (control (snd p) = CFin -> f = true).
Proof. intros R. split; [by eapply reply_from_stream|]. intros C. by destruct (reply_not_syn _ _ R) as (_ & N & _). Qed.

Lemma rcv_any i i' W D y : rcv i W D y -> connected (state y) = false -> rcv i' W D y.
Proof. intros [A B C E F] N. constructor; try done. by rewrite N. Qed.

Lemma knows_updated i W x N M D y x' ip r :
  flow i W x N M D y -> state y <> Closed -> snd_ok i W x' -> opened (state x') = true -> tx_update x x' r -> (ip, r) ∈ M -> knows i W x' D y.
Proof.
  intros F NC V O U Hp. pose proof (fl_len _ _ _ _ _ _ _ F) as L. pose proof (rxq_end _ _ _ (rv_q _ _ _ _ (fl_rcv _ _ _ _ _ _ _ F))) as RE.
  assert (rpos D y <= 2 ^ 31) as RP by (unfold rpos; destruct (rx_fin_received (rx y)); simpl; lia).
  pose proof (fl_acks _ _ _ _ _ _ _ F NC _ Hp) as AK. simpl in AK.
  destruct U as [_ E0 O0|_ E1 _ _|_ E1 E2 E3 E4|C0 E0 E1 E2 E3 E4].
  - destruct (fl_knows _ _ _ _ _ _ _ F NC (O0 O)) as (f & Q & L1 & L2). pose proof (queue_place _ _ _ _ Q) as E. rewrite <- E0 in E, L2.
    eapply knows_intro; try done. destruct f; simpl in *; lia.
  - by rewrite E1 in O.
  - destruct (AK ltac:(by rewrite E1) _ E3) as (e & Ee & L1 & L2). rewrite bool_decide_true in L2 by done.
    eapply knows_intro; try done; lia.
  - destruct (AK E1 _ E3) as (e & Ee & L1 & L2). rewrite bool_decide_false in L2 by done.
    destruct (fl_scale _ _ _ _ _ _ _ F C0) as (k & Ek & Sk). rewrite Ek, Sk in E4 by done. simpl in E4.
    eapply knows_intro; try done; lia.
Qed.

(** Nothing depends on the number of a SYN that was not sent. *)
Lemma flow_renumber i i' W x N M D y : flow i W x N M D y -> state x = Listen -> flow i' W x N M D y.
Proof.
  intros [F1 F2 F3 F4 F5 F6 F7 F8 F9 F10 F11 F12] Lx. destruct (F12 Lx) as (X1 & X2 & X3). rewrite Forall_forall in X1.
  constructor; try done; try (by rewrite Lx).
  - constructor; [apply F1|unfold sent_syn|]; by rewrite Lx.
  - by eapply rcv_any.
  - intros p Hp. destruct (X1 p Hp) as [E C]. constructor; [intros [H|H]; congruence|congruence].
  - intros _ p Hp Np. by destruct (X1 p Hp).
  - intros NC p Hp NR a Ea. rewrite (X3 NC p Hp NR) in Ea. done.
Qed.

(** The sender takes a segment.  A listener that takes a SYN starts a stream. *)
Lemma flow_is_acked cx i W x N M D y ip r x' o :
  flow i W x N M D y -> sock_ok x -> accepts x ip r = true -> (ip, r) ∈ M -> (state x = SynReceived -> control r <> CRst) ->
  processed cx x ip r x' -> empty_reply x' o -> exists i', flow i' W x' (N ++ option_list o) M D y /\ (state x <> Listen -> i' = i).
Proof.
  intros F K A Hp G P R. pose proof (fl_len _ _ _ _ _ _ _ F) as HL.
  destruct (snd_processed cx i W x ip r x' K (fl_snd _ _ _ _ _ _ _ F) A P) as (i' & V & Ei). exists i'. split; [|done].
  pose proof (processed_finished _ _ _ _ _ P) as FI. pose proof (processed_tx _ _ _ _ _ P) as TX.
  assert (forall p, p ∈ option_list o -> payload (snd p) = []) as PE by (intros p ->%elem_of_option_list; by eapply reply_not_syn).
  assert (connected (state x') = true -> exists k, remote_win_scale (tx x') = Some k /\ (state y <> Closed -> k = remote_win_shift (acks y))) as SC.
  { intros C. destruct (TX C) as [C0 E0 _|_ _ E1 E2|_ E1 E2 _ _|C0 _ _ E2 _ _]; rewrite ?E0, ?E2; try (by apply (fl_scale _ _ _ _ _ _ _ F)).
    - by apply (fl_syn _ _ _ _ _ _ _ F (ip, r)).
    - by apply (fl_syn _ _ _ _ _ _ _ F (ip, r)). }
  assert (state x' = Listen -> state x = Listen /\ Forall is_reset (option_list o)) as LI.
  { intros L. destruct (processed_listen _ _ _ _ _ P L) as [Lx|[E C]]; [|by destruct (G E)]. split; [done|].
    apply Forall_forall. intros p ->%elem_of_option_list. destruct R as [R1 [R2|(_ & _ & _ & [H _])]]; [done|]. by rewrite L in H. }
  assert (flow i' W x N M D y) as F'.
  { destruct (decide (state x = Listen)) as [Lx|NL]; [by eapply flow_renumber|by rewrite (Ei NL)]. }
  rewrite <- (app_nil_r W). rewrite <- (app_nil_r W) in V, HL. apply flow_sender with (x := x); try done.
  - intros p ->%elem_of_option_list. by eapply reply_sent.
  - intros _ p Hq Np. by destruct Np; apply PE.
  - intros NC O. rewrite app_nil_r in *. eapply knows_updated; try done. apply TX. by destruct (state x').
Qed.

(** What a socket that stays open keeps when it transmits. *)
Record keeps (s s' : Socket) : Prop := {
  kp_state : state s' = state s;
  kp_rx : rx s' = rx s;
  kp_local : local_seq_no (tx s') = local_seq_no (tx s);
  kp_window : remote_win_len (tx s') = remote_win_len (tx s) /\ remote_win_scale (tx s') = remote_win_scale (tx s);
  kp_shift : remote_win_shift (acks s') = remote_win_shift (acks s);
}.

Lemma timers_keep s s' : timers_run s s' -> state s' <> Closed -> keeps s s'.
Proof. intros [A B C D [E|E] F G H I J] N; [|done]. constructor; try done. by rewrite B. Qed.

Lemma emitted_keep s s' n : emitted s s' n -> keeps s s'.
Proof. intros [? ? ? ? ? ? ? ? ?]. by constructor. Qed.

Lemma keeps_trans s1 s2 s3 : keeps s1 s2 -> keeps s2 s3 -> keeps s1 s3.
Proof. intros [A1 A2 A3 [A4 A5] A6] [B1 B2 B3 [B4 B5] B6]. constructor; try split; congruence. Qed.

Lemma dispatched_keeps s s' o :
  no_probe s -> dispatched s s' o -> no_probe s' /\ (state s' <> Closed -> keeps s s') /\
    forall p, o = Some p -> exists s1, timers_run s s1 /\ sock_ok s1 /\ segment_of s1 (snd p) /\
      (sent_syn s1 = true -> in_flight (tx s1) = 0) /\ keeps s1 s'.
Proof.
  intros NP H. destruct H as [s' [T| ->]|s1 T|s1 s' p T F PR _ _ _|s1 s' p T K G S E].
  - split_and!; [by apply T|by apply timers_keep|done].
  - split_and!; [done|intros _; by constructor|done].
  - destruct (tr_probe _ _ T NP) as [NP1 _]. split_and!; [by split|by intros N|done].
  - destruct (tr_probe _ _ T NP) as [_ NP2]. rewrite NP2 in PR. by destruct PR.
  - pose proof (tr_probe _ _ T NP) as NP1. split_and!; [by apply E| |].
    + intros NC. rewrite (em_state _ _ _ E) in NC. eapply keeps_trans; [by apply timers_keep|by eapply emitted_keep].
    + intros q [= <-]. exists s1. split_and!; try done. by eapply emitted_keep.
Qed.

(** The sender transmits. *)
Lemma flow_transmits i W x N M D y x' o :
  flow i W x N M D y -> no_probe x -> dispatched x x' o -> flow i W x' (N ++ option_list o) M D y.
Proof.
  intros F NP H. pose proof (fl_len _ _ _ _ _ _ _ F) as HL. pose proof (fl_snd _ _ _ _ _ _ _ F) as V0.
  pose proof (snd_dispatched _ _ _ _ _ V0 H) as V. destruct (dispatched_keeps _ _ _ NP H) as (_ & KE & SE).
  assert (state y <> Closed -> forall x1, snd_ok i W x1 -> keeps x x1 -> opened (state x1) = true -> knows i W x1 D y) as KN.
  { intros NC x1 V1 [E1 _ E2 [E3 _] _] O. rewrite E1 in O. destruct (fl_knows _ _ _ _ _ _ _ F NC O) as (f & Q & L1 & L2).
    pose proof (queue_place _ _ _ _ Q) as E. rewrite <- E2 in E. rewrite <- E3 in L2. unfold acked_bytes in *.
    eapply knows_intro; try done; [by rewrite E1|destruct f; simpl; lia]. }
  rewrite <- (app_nil_r W). rewrite <- (app_nil_r W) in V, HL. apply flow_sender with (x := x); try done; rewrite ?app_nil_r in *.
  - destruct (dispatched_state _ _ _ H) as [->| ->]; done.
  - intros p ->%elem_of_option_list. destruct (SE p eq_refl) as (s1 & T & K1 & G & S & KP).
    pose proof (timers_snd _ _ _ _ V0 T) as V1. split; [by eapply (segment_from_stream i W s1)|]. intros C. rewrite (kp_state _ _ KP). by eapply segment_finished.
  - intros NC p ->%elem_of_option_list Np. destruct (SE p eq_refl) as (s1 & T & K1 & G & S & KP). pose proof (timers_snd _ _ _ _ V0 T) as V1.
    destruct (segment_place i W s1 (snd p) K1 V1 G (or_introl Np)) as [AP Q]. eexists. split; [exact AP|].
    assert (carries (state s1) = true) as Ca by (destruct (carries (state s1)) eqn:Ca; [done|]; by destruct (sg_carries _ _ G Ca)).
    destruct (KN NC s1 V1) as (f & Q' & _ & L2); [apply timers_keep; [done|by intros X; rewrite X in Ca]|by destruct (state s1)|].
    pose proof (queue_place _ _ _ _ Q) as E1. rewrite (queue_place _ _ _ _ Q') in E1.
    apply seq_of_inj in E1; [|unfold acked_bytes; destruct f; simpl; lia]. destruct (sg_limit _ _ G) as [|L3]; [done|].
    pose proof (to_flight _ (so_tx _ K1)). unfold payload_len in *. simpl in *. lia.
  - intros C. destruct (decide (state x' = Closed)) as [E|E]; [by rewrite E in C|]. destruct (KE E) as [E1 _ _ [_ E4] _].
    rewrite E1 in C. rewrite E4. by apply (fl_scale _ _ _ _ _ _ _ F).
  - intros NC O. apply KN; try done. apply KE. intros X. by rewrite X in O.
  - intros L. assert (state x' <> Closed) as NC by (by rewrite L). split; [by rewrite <- (kp_state _ _ (KE NC))|].
    apply Forall_forall. intros p ->%elem_of_option_list. destruct (SE p eq_refl) as (s1 & T & K1 & G & S & KP).
    destruct (sg_live _ _ G) as [NL _]. rewrite (kp_state _ _ KP) in L. done.
Qed.

Lemma dispatched_fin s s' o : dispatched s s' o -> rx_fin_received (rx s') = true -> rx_fin_received (rx s) = true.
Proof.
  intros H. destruct H as [s' [T| ->]|s1 T|s1 s' p T F PR _ _ _|s1 s' p T K G S E]; try done.
  - by rewrite (tr_rx _ _ T).
  - by rewrite (fr_fin _ _ F), (tr_rx _ _ T).
  - by rewrite (em_rx _ _ _ E), (tr_rx _ _ T).
Qed.

(** The receiver transmits. *)
Lemma flow_answers i W x N M D y y' o :
  flow i W x N M D y -> no_probe y -> (connected (state y) = true -> is_Some (remote_win_scale (tx y))) ->
  dispatched y y' o -> flow i W x N (M ++ option_list o) D y'.
Proof.
  intros F NP SC H. pose proof (fl_rcv _ _ _ _ _ _ _ F) as V0. pose proof (rcv_dispatched _ _ _ _ _ _ V0 H) as V.
  destruct (dispatched_keeps _ _ _ NP H) as (_ & KE & SE). apply (flow_receiver i W x N M D y); try done.
  - intros NC. destruct (KE NC) as [E1 E2 _ _ E5]. rewrite <- E1. split; [done|]. constructor; [by unfold rpos; rewrite E2|by unfold redge; rewrite E2|done|].
    intros p ->%elem_of_option_list. destruct (SE p eq_refl) as (s1 & T & K1 & G & S & KP). destruct KP as [P1 P2 _ _ P5].
    assert (rcv i W D s1) as V1 by (by apply (rcv_same_state _ _ _ y); [|apply T..]).
    assert (acks_ok i D s1 (snd p)) as A by (eapply segment_acks; try done; by rewrite <- P1).
    unfold acks_ok, rpos, redge in *. by rewrite P2, P5.
  - intros Fi. apply F. by eapply dispatched_fin.
  - intros p ->%elem_of_option_list C. destruct (SE p eq_refl) as (s1 & T & K1 & G & S & KP). destruct KP as [P1 _ _ _ P5].
    assert (sent_syn s1 = true) as Sy by (by apply (sg_syn _ _ G)). unfold sent_syn in Sy.
    assert (state s1 <> Closed) as NC by (by intros X; rewrite X in Sy). rewrite P1, P5. split; [|done]. rewrite (sg_scale _ _ G C).
    destruct (state s1) eqn:Es; try done. destruct (timers_keep _ _ T) as [T1 _ _ [_ T4] _]; [by rewrite Es|].
    rewrite T4. destruct SC as [k Ek]; [by rewrite <- T1, Es|]. by rewrite Ek.
  - intros L. destruct (fl_listen _ _ _ _ _ _ _ F L) as (_ & X2 & _).
    split; [destruct (dispatched_state _ _ _ H) as [->| ->]; done|]. intros NC p ->%elem_of_option_list NR.
    destruct (SE p eq_refl) as (s1 & T & K1 & G & S & KP). destruct (sg_ack _ _ G) as [[E _]|[_ E]]; [done|].
    destruct (sg_live _ _ G) as [NL _]. destruct (KE NC) as [E1 _ _ _ _]. rewrite <- (kp_state _ _ KP), E1 in *. by destruct (state y).
Qed.

(** The calls of the programs. *)

Lemma flow_writes i W x N M D y x' bytes :
  flow i W x N M D y -> written x x' bytes -> Z.of_nat (length (W ++ bytes)) < 2 ^ 30 -> flow i (W ++ bytes) x' N M D y.
Proof.
  intros F WR L. pose proof (snd_written _ _ _ _ _ (fl_snd _ _ _ _ _ _ _ F) WR) as V. pose proof WR as [E1 _ (b & E2 & A) _ Ms].
  assert (opened (state x) = true /\ connected (state x) = true /\ finished (state x) = false) as (O & C & Fi)
    by (unfold may_send in Ms; by destruct (state x)).
  rewrite <- (app_nil_r N). apply flow_sender with (x := x); try done; rewrite ?E1; try done.
  - by intros p ?%elem_of_nil.
  - by intros _ p ?%elem_of_nil.
  - intros _. rewrite E2. by apply (fl_scale _ _ _ _ _ _ _ F).
  - intros NC _. destruct (fl_knows _ _ _ _ _ _ _ F NC O) as (f & Q & L1 & L2). pose proof (queue_place _ _ _ _ Q) as E.
    rewrite length_app in L. apply (knows_intro i _ x' D y (Z.of_nat (acked_bytes W x) + Z.b2z f)); try done.
    + by rewrite E1.
    + by rewrite length_app.
    + by rewrite E2.
    + unfold acked_bytes. destruct f; simpl; lia.
    + by rewrite E2.
Qed.

(** A call that changes only the state and the options of the sender. *)
Lemma flow_sender_call i W x N M D y x' :
  flow i W x N M D y -> snd_ok i W x' -> tx x' = tx x -> (finished (state x) = true -> finished (state x') = true) ->
  (connected (state x') = true -> connected (state x) = true) -> (opened (state x') = true -> opened (state x) = true) ->
  (state x' = Listen -> state x = Listen) -> flow i W x' N M D y.
Proof.
  intros F V E Fi Co Op Li. pose proof (fl_len _ _ _ _ _ _ _ F) as HL. rewrite <- (app_nil_r W), <- (app_nil_r N).
  apply flow_sender with (x := x); rewrite ?app_nil_r; try done.
  - by intros p ?%elem_of_nil.
  - by intros _ p ?%elem_of_nil.
  - intros C. rewrite E. by apply (fl_scale _ _ _ _ _ _ _ F), Co.
  - intros NC O. destruct (fl_knows _ _ _ _ _ _ _ F NC (Op O)) as (f & Q & L1 & L2). pose proof (queue_place _ _ _ _ Q) as Eq.
    apply (knows_intro i _ x' D y (Z.of_nat (acked_bytes W x) + Z.b2z f)); try done; [by rewrite E| |by rewrite E].
    unfold acked_bytes. destruct f; simpl; lia.
  - auto.
Qed.

(** A call of the receiver that does not take bytes. *)
Lemma flow_receiver_call i W x N M D y y' :
  flow i W x N M D y -> rcv i W D y' -> rx y' = rx y -> acks y' = acks y -> (state y' <> Closed -> state y <> Closed) ->
  (connected (state y') = true -> connected (state y) = true) -> flow i W x N M D y'.
Proof.
  intros F V E1 E2 NC Co. rewrite <- (app_nil_r M). apply (flow_receiver i W x N M D y); try done.
  - intros N'. split; [auto|]. constructor; [by unfold rpos; rewrite E1|by unfold redge; rewrite E1|by rewrite E2|by intros p ?%elem_of_nil].
  - rewrite E1. apply F.
  - by intros p ?%elem_of_nil.
  - intros L. destruct (fl_listen _ _ _ _ _ _ _ F L) as (_ & X2 & _). split; [|by intros _ p ?%elem_of_nil].
    destruct (connected (state y')); [|done]. by rewrite Co in X2.
Qed.

Lemma flow_reads i W x N M D y y' bytes :
  flow i W x N M D y -> sock_ok y -> taken y y' bytes -> flow i W x N M (D ++ bytes) y'.
Proof.
  intros F K T. pose proof (rcv_taken _ _ _ _ _ _ K (fl_rcv _ _ _ _ _ _ _ F) T) as V. pose proof T as [E1 (b & E2 & Dr & _) _ (E3 & _) _].
  rewrite <- (app_nil_r M). apply (flow_receiver i W x N M D y); try done; rewrite ?E1.
  - intros N'. split; [done|]. pose proof (dr_len _ _ _ Dr). pose proof (dr_fits _ _ _ Dr). pose proof (dr_capacity _ _ _ Dr).
    constructor; [unfold rpos, end_of|unfold redge|by rewrite E3|by intros p ?%elem_of_nil]; rewrite E2; simpl; rewrite length_app; lia.
  - rewrite E2. apply F.
  - by intros p ?%elem_of_nil.
  - intros L. destruct (fl_listen _ _ _ _ _ _ _ F L) as (_ & X2 & _). split; [done|by intros _ p ?%elem_of_nil].
Qed.

(** ** Resets for segments that no socket accepts *)

Lemma flow_resets i W x N M D y new new' : flow i W x N M D y -> Forall is_reset new -> Forall is_reset new' -> flow i W x (N ++ new) (M ++ new') D y.
Proof.
  intros [F1 F2 F3 F4 F5 F6 F7 F8 F9 F10 F11 F12] R R'. rewrite Forall_forall in R, R'. constructor; try done.
  - intros p [Hp|Hp]%elem_of_app; [auto|]. destruct (R p Hp) as [E C]. constructor; rewrite ?E, C; [by intros [|]|done].
  - intros p [Hp|Hp]%elem_of_app C; [eauto|]. destruct (R p Hp) as [_ C']. by rewrite C' in C.
  - intros NC p [Hp|Hp]%elem_of_app Np; [eauto|]. by destruct (R p Hp).
  - intros NC p [Hp|Hp]%elem_of_app; [eauto|]. intros C. by destruct (R' p Hp).
  - intros p [Hp|Hp]%elem_of_app C; [eauto|]. destruct (R' p Hp) as [_ C']. by rewrite C' in C.
  - intros L. destruct (F12 L) as (A & B & C). split_and!; try done; [apply Forall_app_2; [done|by apply Forall_forall]|].
    intros NC p [Hp|Hp]%elem_of_app; [auto|]. intros N'. by destruct (R' p Hp).
Qed.
