(* ===== verification/TcpNet.v ===== *)
(** Two TCP sockets and a network that loses, repeats and reorders their segments. *)

From stdpp Require Import base numbers option list.
From S2P Require Import Prelude Slice Assembler AssemblerSpec SockBuf.
From S2P Require Import TcpSeq TcpSocket TcpProcess TcpDispatch TcpInv TcpSafe TcpOut TcpStream TcpFlow.

(** ** Endpoints *)

(** A socket, the segments it has sent, the bytes its program wrote and was given, and
    whether the program was told that the stream has ended. *)
Record Endpoint := mkEnd {
  end_sock : Socket;
  out : list Packet;
  wrote : list Z;
  got : list Z;
  ended : bool;
}.

Inductive net_event :=
| NSend (data : list Z)
| NRecv (want : nat)
| NClose
| NAbort
| NTimeout (d : option Z)
| NNagle (b : bool)
| NDispatch (cx : Context) (emits : bool)
| NDeliver (cx : Context) (k : nat).

(** The network delivers any segment the peer has sent, whenever it likes, to an interface
    with this socket. *)
Definition ep_step (m : Endpoint) (peer : list Packet) (e : net_event) : option Endpoint :=
  let s := end_sock m in
  let with_sock s := mkEnd s (out m) (wrote m) (got m) (ended m) in
  let with_reply s o := mkEnd s (out m ++ option_list o) (wrote m) (got m) (ended m) in
  match e with
  | NSend data =>
      '(s, r) ← send_slice s data;
      Some (mkEnd s (out m) (wrote m ++ match r with Ok n => take n data | Err _ => [] end) (got m) (ended m))
  | NRecv want =>
      '(s, r) ← recv_slice s want;
      Some (match r with
            | Ok bytes => mkEnd s (out m) (wrote m) (got m ++ bytes) (ended m)
            | Err Finished => mkEnd s (out m) (wrote m) (got m) true
            | Err _ => with_sock s
            end)
  | NClose => Some (with_sock (close s))
  | NAbort => Some (with_sock (abort s))
  | NTimeout d => Some (with_sock (set_timeout s d))
  | NNagle b => Some (with_sock (set_nagle_enabled s b))
  | NDispatch cx emits => '(s, o) ← dispatch cx s emits; Some (with_reply s o)
  | NDeliver cx k =>
      match peer !! k with
      | Some (ip, r) => '(l, o) ← demux cx [s] ip r; s ← head l; Some (with_reply s o)
      | None => Some m
      end
  end.

(** What the theorems ask of a history: streams stay below 2^30 bytes, a segment that
    arrives is one the parser accepts, a server does not close, and is not reset, before
    its handshake is complete. *)
Definition packet_okb (ip : IpRepr) (r : TcpRepr) : bool :=
  eqb (is_v6 (src_addr ip)) (is_v6 (dst_addr ip)) && (payload_len r <=? 65535) && (0 <=? window_len r) && (window_len r <? 2 ^ 16) &&
  match window_scale r with Some x => (0 <=? x) && (x <=? 14) | None => true end &&
  (wrap_i32 (seq_number r) =? seq_number r) && match ack_number r with Some a => wrap_i32 a =? a | None => true end.
Definition ep_allowed (m : Endpoint) (peer : list Packet) (e : net_event) : bool :=
  match e with
  | NSend data => Z.of_nat (length (wrote m) + length data) <? 2 ^ 30
  | NClose => negb (is_state (end_sock m) SynReceived)
  | NDeliver cx k =>
      match peer !! k with
      | Some (ip, r) => packet_okb ip r && negb (is_state (end_sock m) SynReceived && bool_decide (control r = CRst))
      | None => true
      end
  | _ => true
  end.

Definition Net : Type := Endpoint * Endpoint.

(** An event at the first endpoint, or at the second one. *)
Definition net_step (n : Net) (e : bool * net_event) : option Net :=
  if fst e then a ← ep_step (fst n) (out (snd n)) (snd e); Some (a, snd n)
  else b ← ep_step (snd n) (out (fst n)) (snd e); Some (fst n, b).
Definition net_allowed (n : Net) (e : bool * net_event) : bool :=
  if fst e then ep_allowed (fst n) (out (snd n)) (snd e) else ep_allowed (snd n) (out (fst n)) (snd e).

Fixpoint net_run (n : Net) (evs : list (bool * net_event)) : option Net :=
  match evs with
  | [] => Some n
  | e :: evs => n ← net_step n e; net_run n evs
  end.
Fixpoint conforming (n : Net) (evs : list (bool * net_event)) : bool :=
  match evs with
  | [] => true
  | e :: evs => net_allowed n e && match net_step n e with Some n => conforming n evs | None => true end
  end.

Lemma packet_okb_ok ip r : packet_okb ip r = true -> packet_ok ip r.
Proof.
  unfold packet_okb. rewrite !andb_true_iff. intros [[[[[[H1 H2] H3] H4] H5] H6] H7]. constructor.
  - by apply eqb_prop.
  - by apply Z.leb_le.
  - by apply Z.leb_le in H3; apply Z.ltb_lt in H4.
  - destruct (window_scale r); [|done]. rewrite andb_true_iff in H5. by rewrite !Z.leb_le in H5.
  - by apply Z.eqb_eq.
  - destruct (ack_number r); [by apply Z.eqb_eq|done].
Qed.

(** ** The invariant *)

(** [x] sends to [y]. *)
Record link (i : Z) (x y : Endpoint) : Prop := {
  lk_flow : flow i (wrote x) (end_sock x) (out x) (out y) (got y) (end_sock y);
  lk_ended : ended y = true -> got y = wrote x /\ finished (state (end_sock x)) = true;
}.

Definition healthy (m : Endpoint) : Prop := sock_ok (end_sock m) /\ no_probe (end_sock m).

Lemma link_sender i i' x y x' :
  link i x y -> flow i' (wrote x') (end_sock x') (out x') (out y) (got y) (end_sock y) ->
  (wrote x' = wrote x \/ finished (state (end_sock x)) = false) -> (finished (state (end_sock x)) = true -> finished (state (end_sock x')) = true) ->
  link i' x' y.
Proof.
  intros [F E] F' W Fi. constructor; [done|]. intros H. destruct (E H) as [E1 E2]. destruct W as [->|W]; [auto|congruence].
Qed.

Lemma link_receiver j x y y' :
  link j x y -> flow j (wrote x) (end_sock x) (out x) (out y') (got y') (end_sock y') -> got y `prefix_of` got y' -> ended y' = ended y -> link j x y'.
Proof.
  intros [F E] F' [t G] EQ. constructor; [done|]. intros H. rewrite EQ in H. destruct (E H) as [E1 E2]. split; [|done].
  destruct (rq_given _ _ _ (rv_q _ _ _ _ (fl_rcv _ _ _ _ _ _ _ F'))) as [u U]. rewrite G, E1 in U.
  rewrite <- app_assoc in U. rewrite <- (app_nil_r (wrote x)) in U at 1. apply app_inv_head in U. symmetry in U. apply app_nil in U as [-> _].
  by rewrite G, app_nil_r.
Qed.

(** ** Events keep it *)

Definition step_ok (m o : Endpoint) (j : Z) (r : option Endpoint) : Prop :=
  exists m', r = Some m' /\ healthy m' /\ (exists i, link i m' o) /\ link j o m'.

(** A call that changes at most the state and the options. *)
Lemma call_ok i j m o s' :
  healthy m -> link i m o -> link j o m -> sock_ok s' -> no_probe s' ->
  snd_ok i (wrote m) s' -> rcv j (wrote o) (got m) s' -> rx s' = rx (end_sock m) -> tx s' = tx (end_sock m) -> acks s' = acks (end_sock m) ->
  (state s' = state (end_sock m) \/ finished (state s') = true /\ (opened (state s') = true -> opened (state (end_sock m)) = true) /\
   (state s' <> Closed -> connected (state (end_sock m)) = true)) ->
  step_ok m o j (Some (mkEnd s' (out m) (wrote m) (got m) (ended m))).
Proof.
  intros _ LX LY K NP V R E1 E2 E3 ST. eexists. split; [done|]. split; [done|].
  assert ((finished (state (end_sock m)) = true -> finished (state s') = true) /\
    (connected (state s') = true -> connected (state (end_sock m)) = true) /\ (opened (state s') = true -> opened (state (end_sock m)) = true) /\
    (state s' = Listen -> state (end_sock m) = Listen) /\ (state s' <> Closed -> state (end_sock m) <> Closed)) as (S1 & S2 & S3 & S4 & S5).
  { destruct ST as [->|(S1 & S2 & S3)]; [done|]. split_and!; try done.
    - intros C. apply S3. by destruct (state s').
    - intros X. by rewrite X in S1.
    - intros N X. specialize (S3 N). by rewrite X in S3. }
  split.
  - exists i. eapply link_sender; [exact LX| |by left|done]. simpl. by eapply flow_sender_call; [apply LX|..].
  - eapply link_receiver; [exact LY| |done|done]. simpl. by eapply flow_receiver_call; [apply LY|..].
Qed.

Lemma send_step i j m o data :
  healthy m -> link i m o -> link j o m -> Z.of_nat (length (wrote m) + length data) < 2 ^ 30 -> step_ok m o j (ep_step m (out o) (NSend data)).
Proof.
  intros [K NP] LX LY L. unfold ep_step. destruct (tcp_send_ok (end_sock m) data K) as (s' & r & -> & K' & H). simpl.
  eexists. split; [done|]. destruct r as [n|e].
  - destruct H as [Hn WR]. pose proof WR as [E1 E2 (b & E3 & _) (E4 & _ & E5 & E6) Ms].
    split; [split; [done|]; unfold no_probe; simpl; by rewrite E5, E6|]. split.
    + exists i. eapply link_sender; [exact LX| | |simpl; by rewrite E1].
      * simpl. eapply flow_writes; [apply LX|done|]. rewrite length_app, length_take. lia.
      * right. unfold may_send in Ms. by destruct (state (end_sock m)).
    + eapply link_receiver; [exact LY| |done|done]. simpl. eapply flow_receiver_call; [apply LY|..]; try done; try (by rewrite E1).
      apply (rcv_same_state _ _ _ (end_sock m)); [apply LY|done|by left].
  - destruct H as (-> & _ & _). rewrite app_nil_r. destruct m as [s ou w g en]. simpl in *. split; [done|]. split; [by exists i|done].
Qed.

Lemma may_recv_empty s : may_recv s = false -> buf_len (rx_buffer (rx s)) = 0%nat.
Proof. unfold may_recv, buf_is_empty. destruct (buf_len (rx_buffer (rx s))); [done|]. by destruct (state s). Qed.

Lemma recv_step i j m o want :
  healthy m -> link i m o -> link j o m -> step_ok m o j (ep_step m (out o) (NRecv want)).
Proof.
  intros [K NP] LX LY. unfold ep_step. destruct (recv_slice_ok (end_sock m) want K) as (s' & r & -> & K' & H). simpl.
  eexists. split; [done|]. destruct r as [bytes|e]; simpl in H.
  - pose proof H as [E1 _ E2 (E4 & _ & E5 & E6) _]. split; [split; [done|]; unfold no_probe; simpl; by rewrite E5, E6|]. split.
    + exists i. eapply link_sender; [exact LX| |by left|simpl; by rewrite E1]. simpl.
      eapply flow_sender_call; [apply LX|..]; try done; try (by rewrite E1).
      apply (snd_keeps _ _ (end_sock m)); [apply LX|by left|by rewrite E2..].
    + eapply link_receiver; [exact LY| |by apply prefix_app_r|done]. simpl. by eapply flow_reads; [apply LY|..].
  - destruct H as (-> & Mr & Fi). destruct m as [s ou w g en]. simpl in *.
    destruct e; try (split; [done|]; split; [by exists i|done]). specialize (Fi eq_refl). split; [done|]. split.
    + exists i. destruct LX as [F E]. by constructor.
    + destruct LY as [F E]. constructor; [done|]. simpl in *. intros _. pose proof (fl_rcv _ _ _ _ _ _ _ F) as V. split; [|by apply F].
      pose proof (rv_fin _ _ _ _ V Fi) as EN. unfold end_of in EN. rewrite (may_recv_empty _ Mr), Nat.add_0_r in EN.
      destruct (rq_given _ _ _ (rv_q _ _ _ _ V)) as [u U]. rewrite U, length_app in EN. destruct u; [by rewrite U, app_nil_r|simpl in EN; lia].
Qed.

Lemma dispatch_step i j m o cx emits :
  healthy m -> link i m o -> link j o m -> step_ok m o j (ep_step m (out o) (NDispatch cx emits)).
Proof.
  intros [K NP] LX LY. unfold ep_step. destruct (dispatch_ok cx (end_sock m) emits K) as (s' & p & -> & K' & H). simpl.
  eexists. split; [done|]. destruct (dispatched_keeps _ _ _ NP H) as (NP' & _ & _). split; [done|]. split.
  - exists i. eapply link_sender; [exact LX| |by left|]; simpl; [by eapply flow_transmits; [apply LX|..]|].
    destruct (dispatched_state _ _ _ H) as [->| ->]; done.
  - eapply link_receiver; [exact LY| |done|done]. simpl. eapply flow_answers; [apply LY|done| |done].
    intros C. destruct (fl_scale _ _ _ _ _ _ _ (lk_flow _ _ _ LX) C) as (k & -> & _). by eexists.
Qed.

Lemma deliver_step i j m o cx k :
  healthy m -> link i m o -> link j o m -> ep_allowed m (out o) (NDeliver cx k) = true -> step_ok m o j (ep_step m (out o) (NDeliver cx k)).
Proof.
  intros [K NP] LX LY G. unfold ep_step. simpl in G. destruct (out o !! k) as [[ip r]|] eqn:Ep.
  2: { exists m. split_and!; try done. by exists i. }
  apply andb_true_iff in G as [P%packet_okb_ok GR].
  assert (state (end_sock m) = SynReceived -> control r <> CRst) as GR'.
  { intros E C. unfold is_state in GR. by rewrite !bool_decide_true in GR. }
  pose proof (list_elem_of_lookup_2 _ _ _ Ep) as Hp.
  unfold demux, offer. destruct (accepts (end_sock m) ip r) eqn:A.
  2: { cbn [mbind option_bind]. case_bool_decide as C.
       - exists m. cbn [mbind option_bind head option_list]. rewrite app_nil_r. split; [by destruct m|]. split_and!; try done. by exists i.
       - destruct (reset_reply_ok ip r P C) as (p & -> & Rp). cbn [mbind option_bind head option_list]. eexists. split; [done|]. split; [done|].
         assert (Forall is_reset [p]) as FR by (by apply Forall_singleton). split.
         + exists i. destruct LX as [F E]. constructor; [|done]. rewrite <- (app_nil_r (out o)). by apply flow_resets.
         + destruct LY as [F E]. constructor; [|done]. simpl. rewrite <- (app_nil_r (out o)). by apply flow_resets. }
  destruct (process_ok cx (end_sock m) ip r K P A) as (s' & p & -> & K' & H & R). cbn [mbind option_bind head].
  eexists. split; [done|]. split; [split; [done|]; by apply (gr_probe _ _ _ (processed_grows _ _ _ _ _ H))|]. split.
  - destruct (flow_is_acked cx _ _ _ _ _ _ _ ip r s' p (lk_flow _ _ _ LX) K A Hp GR' H R) as (i' & F' & _). exists i'.
    eapply link_sender; [exact LX|exact F'|by left|]. by eapply processed_finished.
  - eapply link_receiver; [exact LY| |done|done]. simpl. eapply flow_takes; [apply LY|done..| |done|done].
    intros C. destruct (fl_syn _ _ _ _ _ _ _ (lk_flow _ _ _ LX) _ Hp C) as (q & E & _). simpl in E. by rewrite E.
Qed.

Lemma ep_step_ok i j m o e :
  healthy m -> link i m o -> link j o m -> ep_allowed m (out o) e = true -> step_ok m o j (ep_step m (out o) e).
Proof.
  intros H LX LY G. pose proof H as [K NP]. pose proof (fl_snd _ _ _ _ _ _ _ (lk_flow _ _ _ LX)) as V.
  pose proof (fl_rcv _ _ _ _ _ _ _ (lk_flow _ _ _ LY)) as R. destruct e.
  - eapply send_step; try done. by apply Z.ltb_lt.
  - by eapply recv_step.
  - assert (state (end_sock m) <> SynReceived) as NS by (intros E; simpl in G; unfold is_state in G; by rewrite bool_decide_true in G).
    apply (call_ok i); try done; [by apply tcp_close_ok|by unfold close; destruct (state (end_sock m))|by apply snd_close|by apply rcv_close|..].
    1-3: by unfold close; destruct (state (end_sock m)).
    unfold close. destruct (state (end_sock m)) eqn:E; simpl; rewrite ?E; auto; by right.
  - apply (call_ok i); try done; [by apply tcp_abort_ok|by apply rcv_abort|by right].
  - apply (call_ok i); try done; [by apply set_opts_ok|..|by left].
    + by apply (snd_keeps _ _ (end_sock m)); [|left|..].
    + by apply (rcv_same_state _ _ _ (end_sock m)); [| |left].
  - apply (call_ok i); try done; [by apply set_opts_ok|..|by left].
    + by apply (snd_keeps _ _ (end_sock m)); [|left|..].
    + by apply (rcv_same_state _ _ _ (end_sock m)); [| |left].
  - by eapply dispatch_step.
  - by eapply deliver_step.
Qed.

Definition net_inv (n : Net) : Prop :=
  healthy (fst n) /\ healthy (snd n) /\ (exists i, link i (fst n) (snd n)) /\ (exists j, link j (snd n) (fst n)).

Lemma net_run_ok evs n : net_inv n -> conforming n evs = true -> exists n', net_run n evs = Some n' /\ net_inv n'.
Proof.
  revert n. induction evs as [|[sd e] evs IH]; intros n H C; [by exists n|]. apply andb_true_iff in C as [G C]. destruct n as [a b].
  destruct H as (HA & HB & [i LA] & [j LB]). unfold net_step in C. simpl in *. destruct sd; simpl in *.
  - destruct (ep_step_ok i j a b e HA LA LB G) as (a' & E & H1 & H2 & H3). unfold net_step. simpl. rewrite E in *. simpl in *.
    apply IH; [|done]. split_and!; try done. by exists j.
  - destruct (ep_step_ok j i b a e HB LB LA G) as (b' & E & H1 & H2 & H3). unfold net_step. simpl. rewrite E in *. simpl in *.
    apply IH; [|done]. split_and!; try done. by exists i.
Qed.

(** ** The start *)

(** A client that has called [connect] and a server that has called [listen]. *)
Definition client (cx : Context) (n : nat) (rxs txs : list Z) (r : IpEndpoint) (l : IpListenEndpoint) : option Endpoint :=
  s ← socket_new n rxs txs;
  match connect cx s r l with (s, Ok _) => Some (mkEnd s [] [] [] false) | _ => None end.
Definition server (n : nat) (rxs txs : list Z) (e : IpListenEndpoint) : option Endpoint :=
  s ← socket_new n rxs txs;
  match listen s e with (s, Ok _) => Some (mkEnd s [] [] [] false) | _ => None end.

Definition fresh_end (m : Endpoint) : Prop :=
  healthy m /\ out m = [] /\ wrote m = [] /\ got m = [] /\ ended m = false /\ (state (end_sock m) = Listen \/ state (end_sock m) = SynSent) /\
  rx_fin_received (rx (end_sock m)) = false /\ buf_len (rx_buffer (rx (end_sock m))) = 0%nat /\
  forall x, 0 <= x -> present (assembler (rx (end_sock m))) x = false.

Lemma fresh_link x y : fresh_end x -> fresh_end y -> exists i, link i x y.
Proof.
  intros (Hx & X1 & X2 & X3 & X4 & X5 & X6 & X7 & X8) (Hy & Y1 & Y2 & Y3 & Y4 & Y5 & Y6 & Y7 & Y8).
  exists (local_seq_no (tx (end_sock x))). constructor; [|by rewrite Y4]. rewrite X1, X2, Y1, Y3.
  assert (connected (state (end_sock x)) = false /\ opened (state (end_sock x)) = false) as [Cx Ox] by (by destruct X5 as [->| ->]).
  assert (connected (state (end_sock y)) = false /\ awaits_fin (state (end_sock y)) = false) as [Cy Oy] by (by destruct Y5 as [->| ->]).
  constructor; rewrite ?Cx, ?Ox; try done; try (by intros ? ?%elem_of_nil); try (by intros ? ? ?%elem_of_nil).
  - constructor; [done|intros _; symmetry; apply (to_local _ (so_tx _ (proj1 Hx)))|by rewrite Ox].
  - constructor; rewrite ?Cy, ?Oy, ?Y6; try done. constructor; [done|rewrite Y7; lia|]. intros z Hz P. by rewrite Y8 in P.
  - by rewrite Y6.
  - intros _. split_and!; [constructor|done|by intros ? ? ?%elem_of_nil].
Qed.

Lemma client_fresh cx n rxs txs r l m :
  (0 < n)%nat -> Z.of_nat (length rxs) <= 2 ^ 30 -> Z.of_nat (length txs) <= 2 ^ 30 -> client cx n rxs txs r l = Some m -> fresh_end m.
Proof.
  intros Hn Hr Ht. unfold client. destruct (socket_new_ok n rxs txs Hn Hr Ht) as (s & Es & K & _). pose proof (connect_ok cx s r l K) as K'.
  rewrite Es. simpl. unfold socket_new in Es. destruct (_ <? _); [done|]. injection Es as <-. revert K'. unfold connect. simpl.
  destruct (_ || _); [done|]. destruct (listen_port l =? 0); [done|].
  destruct (match listen_addr l with Some _ => _ | None => _ end) as [a|]; [|done]. destruct (negb _); [done|]. simpl. intros K' [= <-].
  unfold fresh_end, healthy. simpl. split_and!; try done; [by right|]. intros x Hx.
  apply empties_absent. unfold assembler_new. rewrite length_replicate. by apply Forall_replicate.
Qed.

Lemma server_fresh n rxs txs e m :
  (0 < n)%nat -> Z.of_nat (length rxs) <= 2 ^ 30 -> Z.of_nat (length txs) <= 2 ^ 30 -> server n rxs txs e = Some m -> fresh_end m.
Proof.
  intros Hn Hr Ht. unfold server. destruct (socket_new_ok n rxs txs Hn Hr Ht) as (s & Es & K & _). pose proof (listen_ok s e K) as K'.
  rewrite Es. simpl. unfold socket_new in Es. destruct (_ <? _); [done|]. injection Es as <-. revert K'. unfold listen. simpl.
  destruct (_ =? 0); [done|]. simpl. intros K' [= <-].
  unfold fresh_end, healthy. simpl. split_and!; try done; [by left|]. intros x Hx.
  apply empties_absent. unfold assembler_new. rewrite length_replicate. by apply Forall_replicate.
Qed.

Lemma fresh_net a b : fresh_end a -> fresh_end b -> net_inv (a, b).
Proof. intros A B. split_and!; [apply A|apply B|by apply fresh_link|by apply fresh_link]. Qed.

Lemma link_no_loss i x y :
  link i x y -> opened (state (end_sock x)) = true -> state (end_sock y) <> Closed ->
  exists k, wrote x = got y ++ contents (rx_buffer (rx (end_sock y))) ++ drop k (contents (tx_buffer (tx (end_sock x)))).
Proof.
  intros [F _] O N. destruct (fl_knows _ _ _ _ _ _ _ F N O) as (f & (L & Ct & _) & L1 & _).
  pose proof (fl_rcv _ _ _ _ _ _ _ F) as V. pose proof (rxq_end _ _ _ (rv_q _ _ _ _ V)) as RE.
  set (p := end_of (got y) (rx (end_sock y))) in *. exists (p - acked_bytes (wrote x) (end_sock x))%nat.
  rewrite app_assoc, (rxq_contents _ _ _ (rv_q _ _ _ _ V)), Ct, drop_drop. fold p.
  assert (acked_bytes (wrote x) (end_sock x) <= p)%nat as LE.
  { unfold rpos in L1. fold p in L1. destruct (rx_fin_received (rx (end_sock y))) eqn:Fi; [|destruct f; simpl in L1; lia].
    pose proof (rv_fin _ _ _ _ V Fi) as EQ. fold p in EQ. unfold acked_bytes. lia. }
  replace (_ + (p - _))%nat with p by lia. by rewrite take_drop.
Qed.

Definition sized (n : nat) (rxs txs : list Z) : Prop := (0 < n)%nat /\ Z.of_nat (length rxs) <= 2 ^ 30 /\ Z.of_nat (length txs) <= 2 ^ 30.

(** C1: Between a client and a server, over a network that loses, repeats, delays and
    reorders segments as it likes, with any timing of transmissions, retransmissions and
    calls, each program is given exactly the bytes the other one wrote, in order and
    without gaps; and it is told that the stream has ended only after it was given all
    of it and the other one has closed. *)
Theorem tcp_stream cx n rxs txs r l n' rxs' txs' e a b evs :
  sized n rxs txs -> sized n' rxs' txs' -> client cx n rxs txs r l = Some a -> server n' rxs' txs' e = Some b ->
  conforming (a, b) evs = true ->
  exists a' b', net_run (a, b) evs = Some (a', b') /\
    got b' `prefix_of` wrote a' /\ got a' `prefix_of` wrote b' /\
    (ended b' = true -> got b' = wrote a' /\ finished (state (end_sock a')) = true) /\
    (ended a' = true -> got a' = wrote b' /\ finished (state (end_sock b')) = true).
Proof.
  intros (A1 & A2 & A3) (B1 & B2 & B3) EA EB C.
  destruct (net_run_ok evs (a, b) (fresh_net _ _ (client_fresh _ _ _ _ _ _ _ A1 A2 A3 EA) (server_fresh _ _ _ _ _ B1 B2 B3 EB)) C)
    as ([a' b'] & E & _ & _ & [i [Fa Ea]] & [j [Fb Eb]]).
  exists a', b'. simpl in *. split_and!; try done; [apply Fa|apply Fb].
Qed.

(** C2: No byte that was written is lost while the connection lasts: what the sender wrote is
    what the receiver was given, then what waits in the receive buffer, then bytes that
    are still in the transmit buffer. *)
Theorem tcp_no_loss cx n rxs txs r l n' rxs' txs' e a b evs :
  sized n rxs txs -> sized n' rxs' txs' -> client cx n rxs txs r l = Some a -> server n' rxs' txs' e = Some b ->
  conforming (a, b) evs = true ->
  exists a' b', net_run (a, b) evs = Some (a', b') /\
    (opened (state (end_sock a')) = true -> state (end_sock b') <> Closed ->
     exists k, wrote a' = got b' ++ contents (rx_buffer (rx (end_sock b'))) ++ drop k (contents (tx_buffer (tx (end_sock a'))))) /\
    (opened (state (end_sock b')) = true -> state (end_sock a') <> Closed ->
     exists k, wrote b' = got a' ++ contents (rx_buffer (rx (end_sock a'))) ++ drop k (contents (tx_buffer (tx (end_sock b'))))).
Proof.
  intros (A1 & A2 & A3) (B1 & B2 & B3) EA EB C.
  destruct (net_run_ok evs (a, b) (fresh_net _ _ (client_fresh _ _ _ _ _ _ _ A1 A2 A3 EA) (server_fresh _ _ _ _ _ B1 B2 B3 EB)) C)
    as ([a' b'] & E & _ & _ & [i La] & [j Lb]).
  exists a', b'. split; [done|]. split; intros O N; [by eapply link_no_loss|by eapply link_no_loss].
Qed.

(** A run: a handshake, three segments of which the first is lost, the others arrive in
    the wrong order and twice, a retransmission, and the end of the stream. *)
Definition run_cx (t : Z) : Context := mkCx t 4294967290 1500 (fun _ => Some (mkAddr false 1)).
Definition run_events : list (bool * net_event) :=
  [(true, NDispatch (run_cx 1) true); (false, NDeliver (run_cx 2) 0); (false, NDispatch (run_cx 3) true); (true, NDeliver (run_cx 4) 0);
   (true, NDispatch (run_cx 5) true); (false, NDeliver (run_cx 6) 1); (true, NNagle false);
   (true, NSend [1; 2; 3]); (true, NDispatch (run_cx 7) true); (true, NSend [4; 5; 6; 7]); (true, NDispatch (run_cx 8) true);
   (true, NClose); (true, NDispatch (run_cx 9) true);
   (false, NDeliver (run_cx 10) 4); (false, NDeliver (run_cx 11) 3); (false, NDeliver (run_cx 12) 3); (false, NRecv 3);
   (true, NDispatch (run_cx 3000000) true); (false, NDeliver (run_cx 3000001) 5); (false, NDeliver (run_cx 3000002) 4);
   (false, NRecv 5); (false, NRecv 5); (false, NRecv 5)].

Definition run_client : option Endpoint :=
  client (run_cx 0) 4 (replicate 8 0) (replicate 8 0) (mkEndpoint (mkAddr false 2) 80) (mkListen (Some (mkAddr false 1)) 5000).
Definition run_server : option Endpoint := server 4 (replicate 8 0) (replicate 8 0) (mkListen None 80).

Lemma run_sized : sized 4 (replicate 8 0) (replicate 8 0).
Proof. unfold sized. rewrite length_replicate. lia. Qed.

Lemma run_starts : exists a b, run_client = Some a /\ run_server = Some b /\ conforming (a, b) run_events = true.
Proof.
  destruct run_client as [a|] eqn:EA; [|by vm_compute in EA]. destruct run_server as [b|] eqn:EB; [|by vm_compute in EB].
  exists a, b. split_and!; try done. vm_compute in EA, EB. injection EA as <-. injection EB as <-. vm_compute. reflexivity.
Defined.

Lemma tcp_stream_witness :
  exists a b a' b', run_client = Some a /\ run_server = Some b /\ net_run (a, b) run_events = Some (a', b') /\
    ended b' = true /\ got b' = wrote a' /\ finished (state (end_sock a')) = true.
Proof.
  destruct run_starts as (a & b & EA & EB & C).
  destruct (tcp_stream (run_cx 0) 4 (replicate 8 0) (replicate 8 0) (mkEndpoint (mkAddr false 2) 80) (mkListen (Some (mkAddr false 1)) 5000)
    4 (replicate 8 0) (replicate 8 0) (mkListen None 80) a b run_events) as (a' & b' & E & _ & _ & F & _);
    [apply run_sized|apply run_sized|exact EA|exact EB|exact C|].
  exists a, b, a', b'. split_and!; try done.
  all: assert (ended b' = true) as En by (clear F C; vm_compute in EA, EB; injection EA as <-; injection EB as <-; vm_compute in E; by injection E as <- <-).
  all: first [exact En|by apply F].
Defined.

Lemma tcp_no_loss_witness :
  exists a b a' b', run_client = Some a /\ run_server = Some b /\ net_run (a, b) run_events = Some (a', b') /\
    exists k, wrote a' = got b' ++ contents (rx_buffer (rx (end_sock b'))) ++ drop k (contents (tx_buffer (tx (end_sock a')))).
Proof.
  destruct run_starts as (a & b & EA & EB & C).
  destruct (tcp_no_loss (run_cx 0) 4 (replicate 8 0) (replicate 8 0) (mkEndpoint (mkAddr false 2) 80) (mkListen (Some (mkAddr false 1)) 5000)
    4 (replicate 8 0) (replicate 8 0) (mkListen None 80) a b run_events) as (a' & b' & E & NL & _);
    [apply run_sized|apply run_sized|exact EA|exact EB|exact C|].
  exists a, b, a', b'. split_and!; try done. apply NL; clear NL C.
  all: vm_compute in EA, EB; injection EA as <-; injection EB as <-; vm_compute in E; by injection E as <- <-.
Defined.


(** Histories of TCP sockets outside what [TcpNet.tcp_stream] asks for, and one inside it
    that does not make progress. *)

Definition case_start : option Net := a ← run_client; b ← run_server; Some (a, b).

Definition half_open : list (bool * net_event) :=
  [(true, NDispatch (run_cx 1) true); (false, NDeliver (run_cx 2) 0); (false, NDispatch (run_cx 3) true)].
Definition confirm : list (bool * net_event) :=
  [(true, NDeliver (run_cx 4) 0); (true, NDispatch (run_cx 5) true); (false, NDeliver (run_cx 6) 1)].

(** ** CLOSE-WAIT *)

(** The client closes.  The server sends two bytes; the second is lost, and the
    acknowledgement of the first arrives after the second was sent. *)
Definition close_wait_events : list (bool * net_event) :=
  half_open ++ confirm ++
  [(true, NClose); (true, NDispatch (run_cx 7) true); (false, NDeliver (run_cx 8) 2); (false, NDispatch (run_cx 20000) true);
   (true, NDeliver (run_cx 20001) 1); (false, NNagle false); (false, NSend [1]); (false, NDispatch (run_cx 20002) true);
   (false, NSend [7]); (false, NDispatch (run_cx 20003) true); (true, NDeliver (run_cx 20004) 2); (true, NDispatch (run_cx 40000) true);
   (false, NDeliver (run_cx 40001) 3); (true, NRecv 9)].

(** The partial acknowledgement stops the retransmission timer: the lost byte stays in
    the transmit buffer, and at no later time does the server send anything. *)
Theorem close_wait_stalls :
  exists n a b, case_start = Some n /\ conforming n close_wait_events = true /\ net_run n close_wait_events = Some (a, b) /\
    wrote b = [1; 7] /\ got a = [1] /\ contents (tx_buffer (tx (end_sock b))) = [7] /\
    forall t, poll_at (run_cx t) (end_sock b) = Some PIngress /\ dispatch (run_cx t) (end_sock b) true = Some (end_sock b, None).
Proof.
  destruct case_start as [n|] eqn:E; [|by vm_compute in E]. exists n. vm_compute in E. injection E as <-.
  eexists _, _. split; [done|]. split; [by vm_compute|]. split; [by vm_compute|]. by vm_compute.
Qed.

(** ** Keep-alive *)

(** With keep-alive the server then sends a probe with a zero byte in the place of the
    lost byte, and the client takes it as data. *)
Theorem keep_alive_corrupts :
  exists n a b ip r s s', case_start = Some n /\ net_run n close_wait_events = Some (a, b) /\
    dispatch (run_cx 50000) (set_keep_alive (end_sock b) (Some 1000)) true = Some (s, Some (ip, r)) /\
    accepts (end_sock a) ip r = true /\ fst <$> process (run_cx 50001) (end_sock a) ip r = Some s' /\
    wrote b = [1; 7] /\ got a ++ contents (rx_buffer (rx s')) = [1; 0].
Proof.
  destruct case_start as [n|] eqn:E; [|by vm_compute in E]. exists n. vm_compute in E. injection E as <-.
  eexists _, _, _, _, _, _. split; [done|]. split; [by vm_compute|]. split; [by vm_compute|]. by vm_compute.
Qed.

(** ** Closing before the handshake is complete *)

(** The server closes in SYN-RECEIVED: the acknowledgement of its SYN counts as the one
    of a FIN that was never sent, and is not sent later. *)
Theorem half_open_close_sends_no_fin :
  exists n a b, case_start = Some n /\ net_run n (half_open ++ [(false, NClose)] ++ confirm) = Some (a, b) /\
    state (end_sock b) = FinWait2 /\ state (end_sock a) = Established /\
    Forall (fun p => control (snd p) <> CFin) (out b) /\
    forall t, dispatch (run_cx t) (end_sock b) true = Some (end_sock b, None).
Proof.
  destruct case_start as [n|] eqn:E; [|by vm_compute in E]. exists n. vm_compute in E. injection E as <-.
  eexists _, _. split; [done|]. split; [by vm_compute|]. split; [done|]. split; [done|]. split; [by repeat constructor|]. by vm_compute.
Qed.

(** ** A FIN beyond the window *)

Definition wide_fin (seq : Z) (bytes : list Z) (c : TcpControl) : tcp_event :=
  ESegment (run_cx 10) (mkIp (mkAddr false 1) (mkAddr false 2)) (mkRepr 5000 80 c seq (Some (-5)) 1000 None None false no_sack bytes).

(** A segment that starts at the window and reaches beyond it is cut, but its FIN counts:
    the byte after the window is lost when it is sent again. *)
Theorem truncated_fin_loses_byte :
  exists s0 s, socket_new 4 (replicate 4 0) (replicate 4 0) = Some s0 /\
    tcp_run s0 [EListen (mkListen None 80);
      ESegment (run_cx 1) (mkIp (mkAddr false 1) (mkAddr false 2)) (mkRepr 5000 80 CSyn 99 None 1000 (Some 0) None false no_sack []);
      EDispatch (run_cx 2) true; wide_fin 100 [1; 2; 3; 4; 5; 6] CFin; ERecv 4; wide_fin 104 [5; 6] CFin] = Some s /\
    rx_fin_received (rx s) = true /\ contents (rx_buffer (rx s)) = [6].
Proof. eexists _, _. split; [by vm_compute|]. split; [by vm_compute|]. by vm_compute. Qed.
