(* ===== verification/Wire.v ===== *)
(** Bytes on the wire: slices, byte order and the Internet checksum
    (dependency/smoltcp/src/wire/ip.rs, [checksum]).

    A buffer is a list of bytes.  Integers are read and written with [NetworkEndian] of the
    byteorder package, which is not part of the sources: it is the class [ByteOrder], and
    what its documentation promises is the class [BigEndian]. *)

From stdpp Require Import base numbers option list.
From S2P Require Import Prelude Slice TcpSeq TcpSocket.

(** ** Slices *)

Definition wrap8 (x : Z) : Z := x mod 2 ^ 8.
Definition wrap16 (x : Z) : Z := x mod 2 ^ 16.

Definition is_byte (x : Z) : Prop := 0 <= x < 256.
Definition is_u16 (x : Z) : Prop := 0 <= x < 2 ^ 16.
Definition bytes (l : list Z) : Prop := Forall is_byte l.

(** [&l[a..b]]. *)
Definition slice (l : list Z) (a b : nat) : option (list Z) :=
  if ((a <=? b) && (b <=? length l))%nat then Some (take (b - a) (drop a l)) else None.

(** [f(&mut l[a..b])]. *)
Definition in_slice (l : list Z) (a b : nat) (f : list Z -> option (list Z)) : option (list Z) :=
  s ← slice l a b; s ← f s; Some (take a l ++ s ++ drop b l).

(** [l[i] = v]. *)
Definition set_at (l : list Z) (i : nat) (v : Z) : option (list Z) :=
  if (i <? length l)%nat then Some (<[i := v]> l) else None.

Lemma bytes_nil : bytes [].
Proof. constructor. Qed.
Lemma bytes_app l l' : bytes l -> bytes l' -> bytes (l ++ l').
Proof. apply Forall_app_2. Qed.
Lemma bytes_take n l : bytes l -> bytes (take n l).
Proof. apply Forall_take. Qed.
Lemma bytes_drop n l : bytes l -> bytes (drop n l).
Proof. apply Forall_drop. Qed.
Lemma bytes_zeros n : bytes (replicate n 0).
Proof. by apply Forall_replicate. Qed.
#[export] Hint Resolve bytes_nil bytes_app bytes_take bytes_drop bytes_zeros : bytes.

(** ** Byte order *)

(** A slice that is too short is a panic. *)
Class ByteOrder := {
  read_u16 : list Z -> option Z;
  read_u32 : list Z -> option Z;
  read_i32 : list Z -> option Z;
  write_u16 : list Z -> Z -> option (list Z);
  write_u32 : list Z -> Z -> option (list Z);
  write_i32 : list Z -> Z -> option (list Z);
}.

Definition be16 (v : Z) : list Z := [v / 2 ^ 8; v mod 2 ^ 8].
Definition be32 (v : Z) : list Z := [v / 2 ^ 24; v / 2 ^ 16 mod 2 ^ 8; v / 2 ^ 8 mod 2 ^ 8; v mod 2 ^ 8].

Class BigEndian `{B : ByteOrder} : Prop := {
  read_u16_be v l : is_u16 v -> read_u16 (be16 v ++ l) = Some v;
  read_u32_be v l : is_u32 v -> read_u32 (be32 v ++ l) = Some v;
  read_i32_be v l : is_u32 v -> read_i32 (be32 v ++ l) = Some (wrap_i32 v);
  write_u16_be a v l : length a = 2%nat -> is_u16 v -> write_u16 (a ++ l) v = Some (be16 v ++ l);
  write_u32_be a v l : length a = 4%nat -> is_u32 v -> write_u32 (a ++ l) v = Some (be32 v ++ l);
  write_i32_be a v l : length a = 4%nat -> wrap_i32 v = v -> write_i32 (a ++ l) v = Some (be32 (wrap32 v) ++ l);
}.

(** ** Checksums *)

Definition propagate_carries (word : Z) : Z :=
  let sum := wrap32 (Z.shiftr word 16 + Z.land word 0xffff) in
  wrap16 (wrap16 (Z.shiftr sum 16) + wrap16 sum).

(** [combine]. *)
Definition checksum_combine (l : list Z) : Z := propagate_carries (foldl (fun accum w => wrap32 (accum + w)) 0 l).

Section checksum.
Context `{ByteOrder}.

(** [while d.len() >= 2]. *)
Fixpoint sum_pairs (accum : Z) (d : list Z) : option (Z * list Z) :=
  match d with
  | _ :: _ :: rest => v ← read_u16 d; sum_pairs (wrap32 (accum + v)) rest
  | _ => Some (accum, d)
  end.

(** [while data.len() >= CHUNK_SIZE]; every round takes 32 bytes. *)
Fixpoint sum_chunks (fuel : nat) (accum : Z) (data : list Z) : option (Z * list Z) :=
  match fuel with
  | 0%nat => None
  | S fuel =>
      if (32 <=? length data)%nat then
        '(accum, _) ← sum_pairs accum (take 32 data);
        sum_chunks fuel accum (drop 32 data)
      else Some (accum, data)
  end.

(** [data]. *)
Definition checksum_data (data : list Z) : option Z :=
  '(accum, data) ← sum_chunks (S (length data)) 0 data;
  '(accum, data) ← sum_pairs accum data;
  let accum := match data with value :: _ => wrap32 (accum + Z.shiftl value 8) | [] => accum end in
  Some (propagate_carries accum).

(** [as_bytes] of an address, most significant byte first. *)
Fixpoint be_bytes (n : nat) (x : Z) : list Z :=
  match n with
  | 0%nat => []
  | S n => (x / 256 ^ Z.of_nat n) mod 256 :: be_bytes n x
  end.
Definition as_bytes (a : IpAddress) : list Z := be_bytes (if is_v6 a then 16 else 4) (addr_bits a).

Definition PROTOCOL_TCP : Z := 6.

Definition pseudo_header (src dst : IpAddress) (next_header len : Z) : option Z :=
  proto_len ←
    (match is_v6 src, is_v6 dst with
     | false, false => in_slice (<[1%nat := next_header]> (replicate 4 0)) 2 4 (fun s => write_u16 s (wrap16 len))
     | true, true => in_slice (<[7%nat := next_header]> (replicate 8 0)) 0 4 (fun s => write_u32 s len)
     | _, _ => None
     end);
  a ← checksum_data (as_bytes src);
  b ← checksum_data (as_bytes dst);
  c ← checksum_data proto_len;
  Some (checksum_combine [a; b; c]).
End checksum.

(** ** An instance *)

Definition network_endian : ByteOrder := {|
  read_u16 l := match l with a :: b :: _ => Some (a * 2 ^ 8 + b) | _ => None end;
  read_u32 l := match l with a :: b :: c :: d :: _ => Some (a * 2 ^ 24 + b * 2 ^ 16 + c * 2 ^ 8 + d) | _ => None end;
  read_i32 l := match l with a :: b :: c :: d :: _ => Some (wrap_i32 (a * 2 ^ 24 + b * 2 ^ 16 + c * 2 ^ 8 + d)) | _ => None end;
  write_u16 l v := match l with _ :: _ :: l => Some (be16 v ++ l) | _ => None end;
  write_u32 l v := match l with _ :: _ :: _ :: _ :: l => Some (be32 v ++ l) | _ => None end;
  write_i32 l v := match l with _ :: _ :: _ :: _ :: l => Some (be32 (wrap32 v) ++ l) | _ => None end;
|}.

Lemma network_endian_ok : BigEndian (B := network_endian).
Proof.
  split; simpl.
  - intros v l H. f_equal. unfold is_u16 in H. div_lia.
  - intros v l H. f_equal. unfold is_u32, u32_modulus in H. div_lia.
  - intros v l H. do 2 f_equal. unfold is_u32, u32_modulus in H. div_lia.
  - by intros [|? [|? [|]]].
  - by intros [|? [|? [|? [|? [|]]]]].
  - by intros [|? [|? [|? [|? [|]]]]].
Qed.

(** ** The sum of the words *)

Fixpoint wsum (l : list Z) : Z :=
  match l with
  | a :: b :: l => a * 256 + b + wsum l
  | [a] => a * 256
  | [] => 0
  end.

(** The 16-bit one's complement value of a sum. *)
Definition fold16 (w : Z) : Z := if w =? 0 then 0 else (w - 1) mod 65535 + 1.

Lemma list_pair_ind {A} (P : list A -> Prop) :
  P [] -> (forall a, P [a]) -> (forall a b l, P l -> P (a :: b :: l)) -> forall l, P l.
Proof.
  intros H0 H1 H2 l. enough (P l /\ forall a, P (a :: l)) by tauto. induction l as [|b l [IH1 IH2]]; [done|].
  split; [apply IH2|]. intros a. by apply H2.
Qed.

Lemma wsum_app a b : Nat.even (length a) = true -> wsum (a ++ b) = wsum a + wsum b.
Proof. induction a as [|x|x y a IH] using list_pair_ind; intros E; simpl in *; [done|done|]. rewrite IH by done. lia. Qed.

Lemma wsum_bounds l : bytes l -> 0 <= wsum l <= 65535 * Z.of_nat (length l).
Proof.
  unfold bytes. induction l as [|x|x y l IH] using list_pair_ind; simpl; [lia| |].
  - rewrite Forall_singleton. unfold is_byte. lia.
  - rewrite !Forall_cons. unfold is_byte. intros (? & ? & F). specialize (IH F). lia.
Qed.

Lemma fold16_range w : 0 <= w -> 0 <= fold16 w <= 65535.
Proof. unfold fold16. intros H. case_cmp; [lia|]. pose proof (Z.mod_pos_bound (w - 1) 65535 ltac:(lia)). lia. Qed.

Lemma fold16_eqm w : 0 <= w -> fold16 w mod 65535 = w mod 65535.
Proof. unfold fold16. intros H. case_cmp; [by subst|]. rewrite Zplus_mod_idemp_l. f_equal. lia. Qed.

Lemma fold16_zero w : 0 <= w -> fold16 w = 0 <-> w = 0.
Proof.
  unfold fold16. intros H. case_cmp; [done|]. pose proof (Z.mod_pos_bound (w - 1) 65535 ltac:(lia)). lia.
Qed.

(** The value is determined by the residue and by whether the sum is 0. *)
Lemma fold16_unique v w : 0 <= v <= 65535 -> 0 <= w -> v mod 65535 = w mod 65535 -> (v = 0 <-> w = 0) -> v = fold16 w.
Proof.
  intros Hv Hw E Z. unfold fold16. case_cmp; [tauto|]. assert (v <> 0) by tauto.
  assert ((v - 1) mod 65535 = (w - 1) mod 65535) as <- by (by rewrite <- (Zminus_mod_idemp_l v), E, Zminus_mod_idemp_l).
  rewrite Z.mod_small; lia.
Qed.

Lemma fold16_add a b : 0 <= a -> 0 <= b -> fold16 (fold16 a + b) = fold16 (a + b).
Proof.
  intros Ha Hb. pose proof (fold16_range a Ha). pose proof (fold16_zero a Ha). pose proof (fold16_range (fold16 a + b) ltac:(lia)).
  apply fold16_unique; [done|lia| |].
  - rewrite fold16_eqm by lia. by rewrite <- Zplus_mod_idemp_l, fold16_eqm, Zplus_mod_idemp_l.
  - rewrite fold16_zero by lia. lia.
Qed.

Lemma propagate_carries_fold w : is_u32 w -> propagate_carries w = fold16 w.
Proof.
  intros H. unfold propagate_carries. rewrite !Z.shiftr_div_pow2 by lia. change 0xffff with (Z.ones 16). rewrite Z.land_ones by lia.
  unfold is_u32, u32_modulus in H. set (q := w / 2 ^ 16). set (r := w mod 2 ^ 16).
  assert (0 <= q < 2 ^ 16 /\ 0 <= r < 2 ^ 16 /\ w = q * 2 ^ 16 + r) as (Hq & Hr & E) by (subst q r; div_lia).
  clearbody q r. subst w.
  assert (wrap32 (q + r) = q + r) as -> by (unfold wrap32, u32_modulus; apply Z.mod_small; lia).
  assert (wrap16 (wrap16 ((q + r) / 2 ^ 16) + wrap16 (q + r)) = if q + r <? 65536 then q + r else q + r - 65535) as ->
    by (unfold wrap16; case_cmp; div_lia).
  apply fold16_unique; case_cmp; try lia.
  - rewrite <- (Z_mod_plus_full (q + r) q 65535). f_equal. lia.
  - rewrite <- (Z_mod_plus_full (q + r - 65535) (q + 1) 65535). f_equal. lia.
Qed.

Lemma wrap32_range x : is_u32 (wrap32 x).
Proof. apply Z.mod_pos_bound. done. Qed.
Lemma wrap32_small x : is_u32 x -> wrap32 x = x.
Proof. apply Z.mod_small. Qed.
Lemma wrap32_add x y : wrap32 (wrap32 x + y) = wrap32 (x + y).
Proof. apply Zplus_mod_idemp_l. Qed.

Section checksum_spec.
Context `{B : ByteOrder} {BE : BigEndian}.

Lemma read_pair a b l : is_byte a -> is_byte b -> read_u16 (a :: b :: l) = Some (a * 256 + b).
Proof.
  unfold is_byte. intros Ha Hb. rewrite <- (read_u16_be (a * 256 + b) l) by (unfold is_u16; lia).
  unfold be16. simpl. do 2 f_equal; [div_lia|]. f_equal. div_lia.
Qed.

(** The last byte of a buffer of odd length. *)
Definition last_byte (accum : Z) (d : list Z) : Z :=
  match d with value :: _ => wrap32 (accum + Z.shiftl value 8) | [] => accum end.

Lemma sum_pairs_ok d : bytes d -> forall accum, is_u32 accum -> exists accum' d', sum_pairs accum d = Some (accum', d') /\
  is_u32 accum' /\ last_byte accum' d' = wrap32 (accum + wsum d) /\ (Nat.even (length d) = true -> accum' = wrap32 (accum + wsum d)).
Proof.
  unfold bytes. induction d as [|a|a b d IH] using list_pair_ind; intros F accum K.
  - exists accum, []. simpl. rewrite Z.add_0_r, wrap32_small by done. done.
  - exists accum, [a]. simpl. split_and!; [done..| |done]. by rewrite Z.shiftl_mul_pow2.
  - apply Forall_cons in F as [Fa F]. apply Forall_cons in F as [Fb F].
    destruct (IH F (wrap32 (accum + (a * 256 + b))) (wrap32_range _)) as (accum' & d' & E & K' & L & V).
    exists accum', d'. cbn [sum_pairs]. rewrite read_pair by done. simpl. rewrite E. split; [done|]. split; [done|].
    rewrite L, wrap32_add. split; [f_equal; lia|]. intros Ev. rewrite (V Ev), wrap32_add. f_equal. lia.
Qed.

Lemma sum_chunks_ok fuel : forall accum data, (length data < fuel)%nat -> bytes data -> is_u32 accum ->
  exists accum' d', sum_chunks fuel accum data = Some (accum', d') /\ is_u32 accum' /\ bytes d' /\
    wrap32 (accum' + wsum d') = wrap32 (accum + wsum data).
Proof.
  induction fuel as [|fuel IH]; intros accum data L F K; [lia|]. cbn [sum_chunks].
  destruct (Nat.leb_spec 32 (length data)) as [Hl|]; [|by exists accum, data].
  rewrite <- (take_drop 32 data) in F. apply Forall_app in F as [F1 F2].
  assert (length (take 32 data) = 32%nat) as L1 by (rewrite length_take; lia).
  destruct (sum_pairs_ok _ F1 accum K) as (a1 & d1 & -> & K1 & _ & V). simpl. rewrite L1 in V.
  destruct (IH a1 (drop 32 data)) as (a2 & d2 & E & K2 & F2' & W); [rewrite length_drop; lia|done|done|].
  exists a2, d2. split_and!; [done..|]. rewrite W, (V eq_refl), wrap32_add. f_equal.
  rewrite <- (take_drop 32 data) at 3. rewrite wsum_app by (by rewrite L1). lia.
Qed.

(** The loops over chunks compute the sum of all words. *)
Lemma checksum_data_ok data : bytes data -> Z.of_nat (length data) <= 65536 -> checksum_data data = Some (fold16 (wsum data)).
Proof.
  intros F L. unfold checksum_data.
  destruct (sum_chunks_ok (S (length data)) 0 data ltac:(lia) F ltac:(done)) as (a1 & d1 & -> & K1 & F1 & W). simpl.
  destruct (sum_pairs_ok d1 F1 a1 K1) as (a2 & d2 & -> & K2 & E & _). simpl. fold (last_byte a2 d2).
  pose proof (wsum_bounds data F). rewrite E, W, Z.add_0_l, wrap32_small, propagate_carries_fold; [done|..];
    unfold is_u32, u32_modulus; lia.
Qed.

Lemma checksum_combine2 a b : is_u16 a -> is_u16 b -> checksum_combine [a; b] = fold16 (a + b).
Proof.
  unfold is_u16, checksum_combine. intros Ha Hb. cbn [foldl]. rewrite Z.add_0_l, (wrap32_small a), wrap32_small, propagate_carries_fold;
    (done || unfold is_u32, u32_modulus; lia).
Qed.

Lemma be_bytes_ok n x : bytes (be_bytes n x) /\ length (be_bytes n x) = n.
Proof.
  induction n as [|n [F L]]; [by repeat constructor|]. split; [|by simpl; f_equal]. constructor; [|done]. by apply Z.mod_pos_bound.
Qed.

Lemma pseudo_header_ok src dst proto len : is_v6 src = is_v6 dst -> is_byte proto -> is_u32 len ->
  exists p, pseudo_header src dst proto len = Some p /\ is_u16 p.
Proof.
  intros V P L. unfold pseudo_header. rewrite <- V.
  assert (exists l, (if is_v6 src then in_slice (<[7%nat := proto]> (replicate 8 0)) 0 4 (fun s => write_u32 s len)
    else in_slice (<[1%nat := proto]> (replicate 4 0)) 2 4 (fun s => write_u16 s (wrap16 len))) = Some l /\ bytes l /\ (length l <= 8)%nat) as (l & E & F & Ll).
  { destruct (is_v6 src); unfold in_slice; simpl.
    - rewrite (write_u32_be [0; 0; 0; 0] len []) by done. eexists. split; [done|]. split; [|simpl; lia].
      unfold is_u32, u32_modulus, bytes in *. repeat (constructor; [unfold is_byte in *; try div_lia|]). constructor.
    - rewrite (write_u16_be [0; 0] (wrap16 len) []); [|done|by apply Z.mod_pos_bound]. eexists. split; [done|]. split; [|simpl; lia].
      pose proof (Z.mod_pos_bound len (2 ^ 16) ltac:(lia)). unfold wrap16, bytes in *.
      repeat (constructor; [unfold is_byte in *; try div_lia|]). constructor. }
  assert (forall a, exists v, checksum_data (as_bytes a) = Some v) as A.
  { intros a. unfold as_bytes. destruct (be_bytes_ok (if is_v6 a then 16 else 4) (addr_bits a)) as [Fa La].
    eexists. apply checksum_data_ok; [done|]. rewrite La. by destruct (is_v6 a). }
  destruct (A src) as [a Ea], (A dst) as [b Eb]. exists (checksum_combine [a; b; fold16 (wsum l)]). split.
  - rewrite Ea, Eb. destruct (is_v6 src); rewrite E; cbn [mbind option_bind]; rewrite checksum_data_ok by (done || lia); done.
  - apply Z.mod_pos_bound. done.
Qed.
End checksum_spec.
