(* ===== verification/TcpWire.v ===== *)
(** TCP packets on the wire (dependency/smoltcp/src/wire/tcp.rs, [Packet], [TcpOption] and
    [Repr]): the fields of a packet, its options, parsing and emission.

    [None] is a panic; [Err tt] is [wire::Error].  A packet is its buffer. *)

From stdpp Require Import base numbers option list.
From S2P Require Import Prelude Slice TcpSeq TcpSocket Wire.

(** ** Fields *)

Definition Field : Type := nat * nat.
Definition SRC_PORT : Field := (0, 2)%nat.
Definition DST_PORT : Field := (2, 4)%nat.
Definition SEQ_NUM : Field := (4, 8)%nat.
Definition ACK_NUM : Field := (8, 12)%nat.
Definition FLAGS : Field := (12, 14)%nat.
Definition WIN_SIZE : Field := (14, 16)%nat.
Definition CHECKSUM : Field := (16, 18)%nat.
Definition URGENT : Field := (18, 20)%nat.

Definition FLG_FIN : Z := 0x001.
Definition FLG_SYN : Z := 0x002.
Definition FLG_RST : Z := 0x004.
Definition FLG_PSH : Z := 0x008.
Definition FLG_ACK : Z := 0x010.
Definition FLG_URG : Z := 0x020.
Definition FLG_ECE : Z := 0x040.
Definition FLG_CWR : Z := 0x080.
Definition FLG_NS : Z := 0x100.

Definition OPT_END : Z := 0.
Definition OPT_NOP : Z := 1.
Definition OPT_MSS : Z := 2.
Definition OPT_WS : Z := 3.
Definition OPT_SACKPERM : Z := 4.
Definition OPT_SACKRNG : Z := 5.

(** A representation of a single option. *)
Inductive TcpOption :=
| EndOfList
| NoOperation
| MaxSegmentSize (value : Z)
| WindowScale (value : Z)
| SackPermitted
| SackRange (ranges : list (option (Z * Z)))
| Unknown (kind : Z) (data : list Z).

(** [Checksum] of a device: whether it is verified on receipt and computed on sending. *)
Inductive Checksum := Both | RxOnly | TxOnly | Neither.
Definition checksum_rx (c : Checksum) : bool := match c with Both | RxOnly => true | _ => false end.
Definition checksum_tx (c : Checksum) : bool := match c with Both | TxOnly => true | _ => false end.

Definition is_some {A} (o : option A) : bool := match o with Some _ => true | None => false end.

Section wire.
Context `{ByteOrder}.

(** ** Reading *)

Definition field (buf : list Z) (f : Field) : option (list Z) := slice buf (fst f) (snd f).
Definition get_u16 (buf : list Z) (f : Field) : option Z := d ← field buf f; read_u16 d.

Definition pkt_src_port (buf : list Z) : option Z := get_u16 buf SRC_PORT.
Definition pkt_dst_port (buf : list Z) : option Z := get_u16 buf DST_PORT.
Definition pkt_seq_number (buf : list Z) : option Z := d ← field buf SEQ_NUM; read_i32 d.
Definition pkt_ack_number (buf : list Z) : option Z := d ← field buf ACK_NUM; read_i32 d.
Definition pkt_window_len (buf : list Z) : option Z := get_u16 buf WIN_SIZE.
Definition pkt_checksum (buf : list Z) : option Z := get_u16 buf CHECKSUM.
Definition pkt_urgent_at (buf : list Z) : option Z := get_u16 buf URGENT.

Definition flag (buf : list Z) (mask : Z) : option bool :=
  raw ← get_u16 buf FLAGS; Some (negb (Z.land raw mask =? 0)).
Definition pkt_fin (buf : list Z) : option bool := flag buf FLG_FIN.
Definition pkt_syn (buf : list Z) : option bool := flag buf FLG_SYN.
Definition pkt_rst (buf : list Z) : option bool := flag buf FLG_RST.
Definition pkt_psh (buf : list Z) : option bool := flag buf FLG_PSH.
Definition pkt_ack (buf : list Z) : option bool := flag buf FLG_ACK.

Definition pkt_header_len (buf : list Z) : option Z :=
  raw ← get_u16 buf FLAGS; Some (wrap8 (wrap16 (Z.shiftr raw 12 * 4))).

Definition check_len (buf : list Z) : option (result unit unit) :=
  let len := length buf in
  if (len <? 20)%nat then Some (Err tt)
  else
    header_len ← pkt_header_len buf;
    Some (if (len <? Z.to_nat header_len)%nat || (header_len <? 20) then Err tt else Ok tt).

(** [Packet::new_checked]. *)
Definition new_checked (buf : list Z) : option (result (list Z) unit) :=
  r ← check_len buf;
  Some (match r with Ok _ => Ok buf | Err e => Err e end).

Definition pkt_options (buf : list Z) : option (list Z) :=
  n ← pkt_header_len buf; slice buf 20 (Z.to_nat n).
Definition pkt_payload (buf : list Z) : option (list Z) :=
  n ← pkt_header_len buf; slice buf (Z.to_nat n) (length buf).

(** The sum over the pseudo header and the packet. *)
Definition packet_sum (buf : list Z) (src dst : IpAddress) : option Z :=
  p ← pseudo_header src dst PROTOCOL_TCP (wrap32 (Z.of_nat (length buf)));
  d ← checksum_data buf;
  Some (checksum_combine [p; d]).

Definition verify_checksum (buf : list Z) (src dst : IpAddress) : option bool :=
  sum ← packet_sum buf src dst; Some (sum =? 0xffff).

(** ** Writing *)

Definition put_u16 (buf : list Z) (f : Field) (v : Z) : option (list Z) := in_slice buf (fst f) (snd f) (fun s => write_u16 s v).

Definition set_src_port (buf : list Z) (v : Z) : option (list Z) := put_u16 buf SRC_PORT v.
Definition set_dst_port (buf : list Z) (v : Z) : option (list Z) := put_u16 buf DST_PORT v.
Definition set_seq_number (buf : list Z) (v : Z) : option (list Z) := in_slice buf (fst SEQ_NUM) (snd SEQ_NUM) (fun s => write_i32 s v).
Definition set_ack_number (buf : list Z) (v : Z) : option (list Z) := in_slice buf (fst ACK_NUM) (snd ACK_NUM) (fun s => write_i32 s v).
Definition set_window_len (buf : list Z) (v : Z) : option (list Z) := put_u16 buf WIN_SIZE v.
Definition set_checksum (buf : list Z) (v : Z) : option (list Z) := put_u16 buf CHECKSUM v.
Definition set_urgent_at (buf : list Z) (v : Z) : option (list Z) := put_u16 buf URGENT v.

Definition on_flags (buf : list Z) (f : Z -> Z) : option (list Z) :=
  raw ← get_u16 buf FLAGS; put_u16 buf FLAGS (f raw).
Definition clear_flags (buf : list Z) : option (list Z) := on_flags buf (fun raw => Z.ldiff raw 0x0fff).
Definition set_flag (buf : list Z) (mask : Z) (v : bool) : option (list Z) :=
  on_flags buf (fun raw => if v then Z.lor raw mask else Z.ldiff raw mask).
Definition set_fin (buf : list Z) (v : bool) : option (list Z) := set_flag buf FLG_FIN v.
Definition set_syn (buf : list Z) (v : bool) : option (list Z) := set_flag buf FLG_SYN v.
Definition set_rst (buf : list Z) (v : bool) : option (list Z) := set_flag buf FLG_RST v.
Definition set_psh (buf : list Z) (v : bool) : option (list Z) := set_flag buf FLG_PSH v.
Definition set_ack (buf : list Z) (v : bool) : option (list Z) := set_flag buf FLG_ACK v.
Definition set_header_len (buf : list Z) (v : Z) : option (list Z) :=
  on_flags buf (fun raw => Z.lor (Z.ldiff raw 0xf000) (wrap16 (Z.shiftl (v / 4) 12))).

Definition fill_checksum (buf : list Z) (src dst : IpAddress) : option (list Z) :=
  buf ← set_checksum buf 0;
  sum ← packet_sum buf src dst;
  set_checksum buf (0xffff - sum).

(** ** Options *)

Definition sack_range (data : list Z) (i : nat) : option (option (Z * Z)) :=
  let left := (i * 8)%nat in
  if (left <? length data)%nat then
    a ← slice data left (left + 4); range_left ← read_u32 a;
    b ← slice data (left + 4) (left + 8); range_right ← read_u32 b;
    Some (Some (range_left, range_right))
  else Some None.

Definition option_value (kind length : Z) (data : list Z) : option (result TcpOption unit) :=
  if kind =? OPT_MSS then if length =? 4 then v ← read_u16 data; Some (Ok (MaxSegmentSize v)) else Some (Err tt)
  else if kind =? OPT_WS then if length =? 3 then v ← data !! 0%nat; Some (Ok (WindowScale v)) else Some (Err tt)
  else if kind =? OPT_SACKPERM then Some (if length =? 2 then Ok SackPermitted else Err tt)
  else if kind =? OPT_SACKRNG then
    if (length <? 10) || negb ((length - 2) mod 8 =? 0) then Some (Err tt)
    else ranges ← mapM (sack_range data) [0; 1; 2]%nat; Some (Ok (SackRange ranges))
  else Some (Ok (Unknown kind data)).

(** [TcpOption::parse]: the rest of the buffer and the option. *)
Definition option_parse (buffer : list Z) : option (result (list Z * TcpOption) unit) :=
  match buffer !! 0%nat with
  | None => Some (Err tt)
  | Some kind =>
      if kind =? OPT_END then rest ← slice buffer 1 (length buffer); Some (Ok (rest, EndOfList))
      else if kind =? OPT_NOP then rest ← slice buffer 1 (length buffer); Some (Ok (rest, NoOperation))
      else
        match buffer !! 1%nat with
        | None => Some (Err tt)
        | Some len =>
            match slice buffer 2 (Z.to_nat len) with
            | None => Some (Err tt)
            | Some data =>
                r ← option_value kind len data;
                match r with
                | Err e => Some (Err e)
                | Ok o => rest ← slice buffer (Z.to_nat len) (length buffer); Some (Ok (rest, o))
                end
            end
        end
  end.

Definition option_len (o : TcpOption) : nat :=
  match o with
  | EndOfList => 1
  | NoOperation => 1
  | MaxSegmentSize _ => 4
  | WindowScale _ => 3
  | SackPermitted => 2
  | SackRange s => length (filter (fun r => is_some r = true) s) * 8 + 2
  | Unknown _ data => 2 + length data
  end.

(** Write the ranges from block [i] on. *)
Fixpoint emit_ranges (buffer : list Z) (i : nat) (s : list (Z * Z)) : option (list Z) :=
  match s with
  | [] => Some buffer
  | (first, second) :: s =>
      let pos := (i * 8 + 2)%nat in
      buffer ← in_slice buffer pos (length buffer) (fun d => write_u32 d first);
      buffer ← in_slice buffer (pos + 4) (length buffer) (fun d => write_u32 d second);
      emit_ranges buffer (S i) s
  end.

(** The bytes of an option with a length, after the length was written. *)
Definition emit_value (o : TcpOption) (buffer : list Z) : option (list Z) :=
  match o with
  | MaxSegmentSize value => buffer ← set_at buffer 0 OPT_MSS; in_slice buffer 2 (length buffer) (fun d => write_u16 d value)
  | WindowScale value => buffer ← set_at buffer 0 OPT_WS; set_at buffer 2 value
  | SackPermitted => set_at buffer 0 OPT_SACKPERM
  | SackRange s => buffer ← set_at buffer 0 OPT_SACKRNG; emit_ranges buffer 0 (omap id s)
  | Unknown kind data =>
      buffer ← set_at buffer 0 kind;
      in_slice buffer 2 (length buffer) (fun d => if (length d =? length data)%nat then Some data else None)
  | EndOfList | NoOperation => None
  end.

(** [TcpOption::emit]: the buffer after it, cut at the end of the option. *)
Definition option_emit (o : TcpOption) (buffer : list Z) : option (list Z * list Z) :=
  buffer ←
    match o with
    | EndOfList => Some (replicate (length buffer) OPT_END)
    | NoOperation => set_at buffer 0 OPT_NOP
    | _ => buffer ← set_at buffer 1 (wrap8 (Z.of_nat (option_len o))); emit_value o buffer
    end;
  rest ← slice buffer (option_len o) (length buffer);
  Some (take (option_len o) buffer, rest).

(** ** Representations *)

(** What the loop over the options has found. *)
Record Found := mkFound {
  found_mss : option Z;
  found_scale : option Z;
  found_permitted : bool;
  found_ranges : list (option (Z * Z));
}.

Definition note_option (f : Found) (o : TcpOption) : Found :=
  match o with
  | MaxSegmentSize v => mkFound (Some v) (found_scale f) (found_permitted f) (found_ranges f)
  | WindowScale v => mkFound (found_mss f) (Some (if 14 <? v then 14 else v)) (found_permitted f) (found_ranges f)
  | SackPermitted => mkFound (found_mss f) (found_scale f) true (found_ranges f)
  | SackRange s => mkFound (found_mss f) (found_scale f) (found_permitted f) s
  | _ => f
  end.

(** [while !options.is_empty()]; every round takes at least one byte. *)
Fixpoint parse_options (fuel : nat) (f : Found) (options : list Z) : option (result Found unit) :=
  match fuel with
  | 0%nat => None
  | S fuel =>
      match options with
      | [] => Some (Ok f)
      | _ =>
          r ← option_parse options;
          match r with
          | Err e => Some (Err e)
          | Ok (_, EndOfList) => Some (Ok f)
          | Ok (next, o) => parse_options fuel (note_option f o) next
          end
      end
  end.

Definition control_of (syn fin rst psh : bool) : option TcpControl :=
  match syn, fin, rst, psh with
  | false, false, false, false => Some CNone
  | false, false, false, true => Some CPsh
  | true, false, false, _ => Some CSyn
  | false, true, false, _ => Some CFin
  | false, false, true, _ => Some CRst
  | _, _, _, _ => None
  end.

(** [Repr::parse] on a checked packet. *)
Definition repr_parse (buf : list Z) (src dst : IpAddress) (caps : Checksum) : option (result TcpRepr unit) :=
  src_port ← pkt_src_port buf;
  if src_port =? 0 then Some (Err tt) else
  dst_port ← pkt_dst_port buf;
  if dst_port =? 0 then Some (Err tt) else
  bad ← (if checksum_rx caps then ok ← verify_checksum buf src dst; Some (negb ok) else Some false);
  if (bad : bool) then Some (Err tt) else
  syn ← pkt_syn buf; fin ← pkt_fin buf; rst ← pkt_rst buf; psh ← pkt_psh buf;
  match control_of syn fin rst psh with
  | None => Some (Err tt)
  | Some control =>
      ack ← pkt_ack buf;
      ack_number ← (if (ack : bool) then a ← pkt_ack_number buf; Some (Some a) else Some None);
      options ← pkt_options buf;
      r ← parse_options (S (length options)) (mkFound None None false no_sack) options;
      match r with
      | Err e => Some (Err e)
      | Ok f =>
          seq ← pkt_seq_number buf; win ← pkt_window_len buf; payload ← pkt_payload buf;
          Some (Ok (mkRepr src_port dst_port control seq ack_number win (found_scale f) (found_mss f)
            (found_permitted f) (found_ranges f) payload))
      end
  end.

Definition repr_header_len (r : TcpRepr) : Z :=
  let length := 20 + (if is_some (max_seg_size r) then 4 else 0) + (if is_some (window_scale r) then 3 else 0)
    + (if sack_permitted r then 2 else 0) in
  let sack_range_len := zsum (fun o => if is_some o then 8 else 0) (sack_ranges r) in
  let length := if 0 <? sack_range_len then length + (sack_range_len + 2) else length in
  if length mod 4 =? 0 then length else length + (4 - length mod 4).

Definition repr_buffer_len (r : TcpRepr) : Z := repr_header_len r + payload_len r.

Definition set_control (buf : list Z) (c : TcpControl) : option (list Z) :=
  match c with
  | CNone => Some buf
  | CPsh => set_psh buf true
  | CSyn => set_syn buf true
  | CFin => set_fin buf true
  | CRst => set_rst buf true
  end.

(** One option into the part of the buffer that is left; what was written goes before. *)
Definition emit_next (o : TcpOption) (b : list Z * list Z) : option (list Z * list Z) :=
  '(w, rest) ← option_emit o (snd b); Some (fst b ++ w, rest).

Definition emit_options (r : TcpRepr) (options : list Z) : option (list Z) :=
  b ← (match max_seg_size r with Some v => emit_next (MaxSegmentSize v) ([], options) | None => Some ([], options) end);
  b ← (match window_scale r with Some v => emit_next (WindowScale v) b | None => Some b end);
  b ← (if sack_permitted r then emit_next SackPermitted b
       else if is_some (ack_number r) && existsb is_some (sack_ranges r) then emit_next (SackRange (sack_ranges r)) b
       else Some b);
  b ← (match snd b with [] => Some b | _ => emit_next EndOfList b end);
  Some (fst b ++ snd b).

(** [Repr::emit]. *)
Definition repr_emit (r : TcpRepr) (buf : list Z) (src dst : IpAddress) (caps : Checksum) : option (list Z) :=
  buf ← set_src_port buf (src_port r);
  buf ← set_dst_port buf (dst_port r);
  buf ← set_seq_number buf (seq_number r);
  buf ← set_ack_number buf (default 0 (ack_number r));
  buf ← set_window_len buf (window_len r);
  buf ← set_header_len buf (wrap8 (repr_header_len r));
  buf ← clear_flags buf;
  buf ← set_control buf (control r);
  buf ← set_ack buf (is_some (ack_number r));
  n ← pkt_header_len buf;
  buf ← in_slice buf 20 (Z.to_nat n) (emit_options r);
  buf ← set_urgent_at buf 0;
  n ← pkt_header_len buf;
  buf ← in_slice buf (Z.to_nat n) (length buf) (fun p => in_slice p 0 (length (payload r)) (fun _ => Some (payload r)));
  if checksum_tx caps then fill_checksum buf src dst else set_checksum buf 0.
End wire.
