(* ===== verification/TcpWireSpec.v ===== *)
(** Parsing never panics, emission depends on the representation alone, and parsing what was
    emitted gives it back, checksum included (TcpWire.v). *)

From stdpp Require Import base numbers option list.
From S2P Require Import Prelude Slice TcpSeq TcpSocket Wire TcpWire.

(** ** Slices *)

Lemma slice_some l a b : (a <= b <= length l)%nat -> slice l a b = Some (take (b - a) (drop a l)).
Proof. intros H. unfold slice. by rewrite (proj2 (Nat.leb_le a b)), (proj2 (Nat.leb_le b _)) by lia. Qed.

Lemma slice_inv l a b s : slice l a b = Some s -> (a <= b <= length l)%nat /\ s = take (b - a) (drop a l).
Proof.
  unfold slice. destruct (Nat.leb_spec a b); [|done]. destruct (Nat.leb_spec b (length l)); [|done]. simpl. intros [= <-]. split; [lia|done].
Qed.

Lemma slice_length l a b s : slice l a b = Some s -> length s = (b - a)%nat.
Proof. intros [H ->]%slice_inv. rewrite length_take, length_drop. lia. Qed.

Lemma slice_bytes l a b s : bytes l -> slice l a b = Some s -> bytes s.
Proof. intros F [_ ->]%slice_inv. auto with bytes. Qed.

Lemma slice_app x y z : slice (x ++ y ++ z) (length x) (length x + length y) = Some y.
Proof.
  rewrite slice_some by (rewrite !length_app; lia). rewrite drop_app_length.
  replace (length x + length y - length x)%nat with (length y) by lia. by rewrite take_app_length.
Qed.

Lemma in_slice_app x y z y' f : f y = Some y' -> in_slice (x ++ y ++ z) (length x) (length x + length y) f = Some (x ++ y' ++ z).
Proof.
  intros E. unfold in_slice. rewrite slice_app. simpl. rewrite E. simpl. rewrite take_app_length. do 3 f_equal.
  rewrite app_assoc, drop_app_length' by (rewrite length_app; lia). done.
Qed.

Lemma bytes_lookup l i x : bytes l -> l !! i = Some x -> is_byte x.
Proof. intros F E. by eapply Forall_lookup_1. Qed.

Section parse.
Context `{B : ByteOrder} {BE : BigEndian}.

(** ** Integers *)

Definition quad (a b c d : Z) : Z := a * 2 ^ 24 + b * 2 ^ 16 + c * 2 ^ 8 + d.

Lemma quad_be a b c d : is_byte a -> is_byte b -> is_byte c -> is_byte d ->
  is_u32 (quad a b c d) /\ be32 (quad a b c d) = [a; b; c; d].
Proof.
  unfold is_byte, is_u32, u32_modulus, quad, be32. intros. split; [lia|]. f_equal; [div_lia|]. f_equal; [div_lia|].
  f_equal; [div_lia|]. f_equal. div_lia.
Qed.

Lemma read_quad l : bytes l -> length l = 4%nat -> exists v, read_u32 l = Some v /\ is_u32 v /\ read_i32 l = Some (wrap_i32 v).
Proof.
  destruct l as [|a [|b [|c [|d [|]]]]]; try done. unfold bytes. rewrite !Forall_cons. intros (Ha & Hb & Hc & Hd & _) _.
  destruct (quad_be a b c d) as [K E]; [done..|]. exists (quad a b c d).
  pose proof (read_u32_be (quad a b c d) [] K) as R. pose proof (read_i32_be (quad a b c d) [] K) as I.
  rewrite E in R, I. done.
Qed.

Lemma get_u16_ok buf f : bytes buf -> snd f = (fst f + 2)%nat -> (snd f <= length buf)%nat ->
  exists v, get_u16 buf f = Some v /\ is_u16 v.
Proof.
  intros F E L. unfold get_u16, field. destruct (slice buf (fst f) (snd f)) as [s|] eqn:S; [|by rewrite slice_some in S by lia].
  pose proof (slice_length _ _ _ _ S) as Ls. pose proof (slice_bytes _ _ _ _ F S) as Fs. simpl.
  destruct s as [|a [|b [|]]]; simpl in Ls; try lia. apply Forall_cons in Fs as [Ha Fs]. apply Forall_cons in Fs as [Hb _].
  exists (a * 256 + b). rewrite read_pair by done. split; [done|]. unfold is_byte, is_u16 in *. lia.
Qed.

Lemma get_i32_ok buf f : bytes buf -> snd f = (fst f + 4)%nat -> (snd f <= length buf)%nat ->
  exists v, (d ← field buf f; read_i32 d) = Some v /\ wrap_i32 v = v.
Proof.
  intros F E L. unfold field. destruct (slice buf (fst f) (snd f)) as [s|] eqn:S; [|by rewrite slice_some in S by lia].
  destruct (read_quad s) as (v & _ & _ & R); [by eapply slice_bytes|by rewrite (slice_length _ _ _ _ S); lia|].
  exists (wrap_i32 v). simpl. split; [done|]. apply wrap_i32_small, wrap_i32_range.
Qed.

(** ** Headers *)

Lemma header_len_range raw : is_u16 raw -> 0 <= wrap8 (wrap16 (Z.shiftr raw 12 * 4)) <= 60.
Proof. unfold is_u16, wrap8, wrap16. intros H. rewrite Z.shiftr_div_pow2 by lia. div_lia. Qed.

Lemma flag_ok buf mask : bytes buf -> (20 <= length buf)%nat -> exists b, flag buf mask = Some b.
Proof.
  intros F L. unfold flag. destruct (get_u16_ok buf FLAGS F) as (v & -> & _); [done|simpl; lia|]. by eexists.
Qed.

Lemma check_len_ok buf : bytes buf -> exists r, check_len buf = Some r /\
  (r = Ok tt -> exists n, pkt_header_len buf = Some n /\ 20 <= n <= 60 /\ (Z.to_nat n <= length buf)%nat).
Proof.
  intros F. unfold check_len, pkt_header_len. destruct (Nat.ltb_spec (length buf) 20); [by eexists|].
  destruct (get_u16_ok buf FLAGS F) as (v & -> & K); [done|simpl; lia|]. simpl. pose proof (header_len_range v K) as R.
  set (n := wrap8 _) in *. clearbody n. eexists. split; [done|]. intros E.
  destruct (Nat.ltb_spec (length buf) (Z.to_nat n)); [done|]. destruct (Z.ltb_spec n 20); [done|]. exists n. split; [done|]. lia.
Qed.

(** ** Options *)

Definition range_ok (r : option (Z * Z)) : Prop := match r with Some (a, b) => is_u32 a /\ is_u32 b | None => True end.

Definition option_ok (o : TcpOption) : Prop :=
  match o with
  | MaxSegmentSize v => is_u16 v
  | WindowScale v => is_byte v
  | SackRange s => length s = 3%nat /\ Forall range_ok s
  | _ => True
  end.

Lemma sack_range_ok data i : bytes data -> (length data mod 8 = 0)%nat -> exists r, sack_range data i = Some r /\ range_ok r.
Proof.
  intros F M. unfold sack_range. destruct (Nat.ltb_spec (i * 8) (length data)) as [L|]; [|by exists None].
  assert (i * 8 + 8 <= length data)%nat as L8.
  { pose proof (Nat.div_mod_eq (length data) 8). assert (i < length data / 8)%nat by nia. nia. }
  destruct (slice data (i * 8) (i * 8 + 4)) as [a|] eqn:Ea; [|by rewrite slice_some in Ea by lia].
  destruct (slice data (i * 8 + 4) (i * 8 + 8)) as [b|] eqn:Eb; [|by rewrite slice_some in Eb by lia].
  destruct (read_quad a) as (x & Ex & Kx & _); [by eapply slice_bytes|rewrite (slice_length _ _ _ _ Ea); lia|].
  destruct (read_quad b) as (y & Ey & Ky & _); [by eapply slice_bytes|rewrite (slice_length _ _ _ _ Eb); lia|].
  exists (Some (x, y)). simpl. rewrite Ex. simpl. rewrite Ey. done.
Qed.

Lemma option_value_ok kind len data : bytes data -> Z.of_nat (length data) = len - 2 ->
  exists r, option_value kind len data = Some r /\ match r with Ok o => option_ok o /\ o <> EndOfList | Err _ => True end.
Proof.
  intros F L. unfold option_value. destruct (kind =? OPT_MSS).
  { destruct (Z.eqb_spec len 4) as [->|]; [|by eexists]. destruct data as [|a [|b [|]]]; simpl in L; try lia.
    apply Forall_cons in F as [Ha F]. apply Forall_cons in F as [Hb _]. rewrite read_pair by done. eexists. split; [done|].
    split; [|done]. simpl. unfold is_byte, is_u16 in *. lia. }
  destruct (kind =? OPT_WS).
  { destruct (Z.eqb_spec len 3) as [->|]; [|by eexists]. destruct data as [|a [|]]; simpl in L; try lia.
    apply Forall_cons in F as [Ha _]. by eexists. }
  destruct (kind =? OPT_SACKPERM); [destruct (len =? 2); by eexists|].
  destruct (kind =? OPT_SACKRNG); [|by eexists].
  destruct (Z.ltb_spec len 10); [by eexists|]. destruct (Z.eqb_spec ((len - 2) mod 8) 0) as [M|]; [|by eexists].
  assert (length data mod 8 = 0)%nat as M'.
  { rewrite <- L in M. change 8 with (Z.of_nat 8) in M. rewrite <- Nat2Z.inj_mod in M. lia. }
  destruct (sack_range_ok data 0 F M') as (r0 & E0 & K0). destruct (sack_range_ok data 1 F M') as (r1 & E1 & K1).
  destruct (sack_range_ok data 2 F M') as (r2 & E2 & K2). exists (Ok (SackRange [r0; r1; r2])). cbn -[sack_range].
  rewrite E0. cbn -[sack_range]. rewrite E1. cbn -[sack_range]. rewrite E2. split; [done|]. split; [|done].
  split; [done|]. by repeat constructor.
Qed.

(** An option takes at least one byte. *)
Lemma option_parse_ok buffer : bytes buffer -> exists r, option_parse buffer = Some r /\
  match r with Ok (rest, o) => option_ok o /\ bytes rest /\ (length rest < length buffer)%nat | Err _ => True end.
Proof.
  intros F. unfold option_parse. destruct (buffer !! 0%nat) as [kind|] eqn:E0; [|by eexists].
  pose proof (lookup_lt_Some _ _ _ E0) as L0.
  assert (forall n, (0 < n <= length buffer)%nat -> exists rest, slice buffer n (length buffer) = Some rest /\ bytes rest /\ (length rest < length buffer)%nat) as T.
  { intros n Hn. eexists. split; [apply slice_some; lia|]. split; [auto with bytes|]. rewrite length_take, length_drop. lia. }
  destruct (kind =? OPT_END); [destruct (T 1%nat) as (? & -> & ? & ?); [lia|by eexists]|].
  destruct (kind =? OPT_NOP); [destruct (T 1%nat) as (? & -> & ? & ?); [lia|by eexists]|].
  destruct (buffer !! 1%nat) as [len|] eqn:E1; [|by eexists]. pose proof (bytes_lookup _ _ _ F E1) as Kl.
  destruct (slice buffer 2 (Z.to_nat len)) as [data|] eqn:S; [|by eexists]. pose proof (slice_length _ _ _ _ S) as Ls.
  pose proof (slice_inv _ _ _ _ S) as [Hl _]. unfold is_byte in Kl.
  destruct (option_value_ok kind len data) as (r & -> & K); [by eapply slice_bytes|lia|]. simpl. destruct r as [o|]; [|by eexists].
  destruct (T (Z.to_nat len)) as (rest & -> & ? & ?); [lia|]. eexists. split; [done|]. split; [apply K|done].
Qed.

Definition found_ok (f : Found) : Prop :=
  match found_mss f with Some v => is_u16 v | None => True end /\
  match found_scale f with Some v => 0 <= v <= 14 | None => True end /\
  length (found_ranges f) = 3%nat /\ Forall range_ok (found_ranges f).

Lemma note_option_ok f o : found_ok f -> option_ok o -> found_ok (note_option f o).
Proof.
  intros (K1 & K2 & K3 & K4) K. destruct o; simpl in *; try done. split_and!; simpl; try done; unfold is_byte in K; case_cmp; lia.
Qed.

Lemma parse_options_ok fuel : forall f options, (length options < fuel)%nat -> bytes options -> found_ok f ->
  exists r, parse_options fuel f options = Some r /\ match r with Ok f => found_ok f | Err _ => True end.
Proof.
  induction fuel as [|fuel IH]; intros f options L F K; [lia|]. cbn [parse_options]. destruct options as [|x options']; [by eexists|].
  destruct (option_parse_ok _ F) as (r & -> & P). simpl. destruct r as [[next o]|]; [|by eexists]. destruct P as (Ko & Fn & Ln).
  destruct o; try (by eexists); apply IH; try lia; try done; by apply (note_option_ok _ _ K Ko).
Qed.
End parse.

(** ** Representations *)

Definition is_port (p : Z) : Prop := 0 < p < 2 ^ 16.

Record fields_ok (r : TcpRepr) : Prop := {
  fo_src : is_port (src_port r);
  fo_dst : is_port (dst_port r);
  fo_seq : wrap_i32 (seq_number r) = seq_number r;
  fo_ack : match ack_number r with Some a => wrap_i32 a = a | None => True end;
  fo_window : is_u16 (window_len r);
  fo_scale : match window_scale r with Some x => 0 <= x <= 14 | None => True end;
  fo_mss : match max_seg_size r with Some x => is_u16 x | None => True end;
  fo_payload : bytes (payload r);
}.


Section parse_repr.
#[local] Arguments parse_options : simpl never.
Context `{B : ByteOrder} {BE : BigEndian}.

Lemma packet_sum_ok buf src dst : bytes buf -> Z.of_nat (length buf) <= 65536 -> is_v6 src = is_v6 dst ->
  exists p, pseudo_header src dst PROTOCOL_TCP (wrap32 (Z.of_nat (length buf))) = Some p /\ is_u16 p /\
    packet_sum buf src dst = Some (fold16 (p + wsum buf)).
Proof.
  intros F L V. destruct (pseudo_header_ok src dst PROTOCOL_TCP (wrap32 (Z.of_nat (length buf))) V) as (p & E & K);
    [done|apply wrap32_range|]. exists p. split_and!; [done|done|]. unfold packet_sum. rewrite E. simpl. rewrite checksum_data_ok by done.
  simpl. pose proof (wsum_bounds buf F). pose proof (fold16_range (wsum buf) ltac:(lia)). unfold is_u16 in K.
  rewrite checksum_combine2 by (done || unfold is_u16; lia). by rewrite Z.add_comm, fold16_add, Z.add_comm by lia.
Qed.

Lemma repr_parse_ok buf src dst caps n : bytes buf -> Z.of_nat (length buf) <= 65536 -> is_v6 src = is_v6 dst ->
  pkt_header_len buf = Some n -> 20 <= n <= 60 -> (Z.to_nat n <= length buf)%nat ->
  exists r, repr_parse buf src dst caps = Some r /\
    match r with Ok r => fields_ok r /\ (length (payload r) <= length buf)%nat | Err _ => True end.
Proof.
  intros F L V Hn Rn Ln. unfold repr_parse, pkt_src_port, pkt_dst_port, pkt_syn, pkt_fin, pkt_rst, pkt_psh, pkt_ack, pkt_options, pkt_payload.
  destruct (get_u16_ok buf SRC_PORT F) as (sp & -> & Ks); [done|simpl; lia|]. simpl. destruct (Z.eqb_spec sp 0); [by eexists|].
  destruct (get_u16_ok buf DST_PORT F) as (dp & -> & Kd); [done|simpl; lia|]. simpl. destruct (Z.eqb_spec dp 0); [by eexists|].
  assert (exists b, (if checksum_rx caps then ok ← verify_checksum buf src dst; Some (negb ok) else Some false) = Some b) as [bad ->].
  { unfold verify_checksum. destruct (packet_sum_ok buf src dst F L V) as (p & _ & _ & ->). destruct (checksum_rx caps); by eexists. }
  simpl. destruct bad; [by eexists|].
  destruct (flag_ok buf FLG_SYN F) as [b1 ->]; [lia|]. destruct (flag_ok buf FLG_FIN F) as [b2 ->]; [lia|].
  destruct (flag_ok buf FLG_RST F) as [b3 ->]; [lia|]. destruct (flag_ok buf FLG_PSH F) as [b4 ->]; [lia|].
  destruct (flag_ok buf FLG_ACK F) as [b5 ->]; [lia|]. cbn [mbind option_bind]. destruct (control_of b1 b2 b3 b4) as [c|]; [|by eexists].
  destruct (get_i32_ok buf ACK_NUM F) as (ack & Ea & Wa); [done|simpl; lia|].
  assert (exists a, (if b5 then a ← pkt_ack_number buf; Some (Some a) else Some None) = Some a /\ match a with Some a => wrap_i32 a = a | None => True end)
    as (a & -> & Ka) by (unfold pkt_ack_number; rewrite Ea; destruct b5; by eexists).
  rewrite Hn. cbn [mbind option_bind]. rewrite (slice_some buf 20) by lia. cbn [mbind option_bind].
  set (options := take (Z.to_nat n - 20) (drop 20 buf)).
  destruct (parse_options_ok (S (length options)) (mkFound None None false no_sack) options) as (r & -> & K); [lia|by apply bytes_take, bytes_drop| |].
  { split_and!; try done. by repeat constructor. }
  cbn [mbind option_bind]. destruct r as [f|]; [|by eexists]. destruct K as (K1 & K2 & _).
  destruct (get_i32_ok buf SEQ_NUM F) as (q & Eq & Wq); [done|simpl; lia|]. unfold pkt_seq_number. rewrite Eq. cbn [mbind option_bind].
  destruct (get_u16_ok buf WIN_SIZE F) as (w & Ew & Kw); [done|simpl; lia|]. unfold pkt_window_len. rewrite Ew. cbn [mbind option_bind].
  rewrite slice_some by lia. eexists. split; [done|]. unfold is_u16 in *. split; [|simpl; rewrite length_take, length_drop; lia].
  constructor; simpl; unfold is_port; try done; try lia. auto with bytes.
Qed.
End parse_repr.


(** What [Repr::emit] writes (TcpWire.v): every byte of the buffer is determined by the
    representation, and parsing gives the representation back. *)

(** ** Options *)

Definition range_bytes (p : Z * Z) : list Z := be32 (fst p) ++ be32 (snd p).

Definition opt_bytes (o : TcpOption) : list Z :=
  match o with
  | MaxSegmentSize v => [OPT_MSS; 4] ++ be16 v
  | WindowScale v => [OPT_WS; 3; v]
  | SackPermitted => [OPT_SACKPERM; 2]
  | SackRange s => [OPT_SACKRNG; 8 * Z.of_nat (length (omap id s)) + 2] ++ concat (range_bytes <$> omap id s)
  | _ => []
  end.

(** Ranges without gaps, as the emission writes them. *)
Definition packed (l : list (Z * Z)) : list (option (Z * Z)) := (Some <$> l) ++ replicate (3 - length l) None.
Definition ranges_fit (l : list (Z * Z)) : Prop := (length l <= 3)%nat /\ Forall (fun p => is_u32 (fst p) /\ is_u32 (snd p)) l.

(** The options that are emitted. *)
Definition emitted_ok (o : TcpOption) : Prop :=
  match o with
  | MaxSegmentSize v => is_u16 v
  | WindowScale v => 0 <= v <= 14
  | SackPermitted => True
  | SackRange s => exists l, l <> [] /\ ranges_fit l /\ s = packed l
  | _ => False
  end.

Lemma omap_packed l : omap id (packed l) = l.
Proof.
  unfold packed. rewrite omap_app. assert (omap id (replicate (3 - length l) None) = ([] : list (Z * Z))) as ->
    by (generalize (3 - length l)%nat; intros n; by induction n).
  rewrite app_nil_r. induction l as [|x l IH]; [done|]. by rewrite fmap_cons; simpl; f_equal.
Qed.

Lemma count_packed l : length (filter (fun r => is_some r = true) (packed l)) = length l.
Proof.
  unfold packed. rewrite filter_app, length_app.
  assert (filter (fun r => is_some r = true) (replicate (3 - length l) (None : option (Z * Z))) = []) as ->
    by (apply filter_none; intros x [-> _]%elem_of_replicate; done).
  assert (forall l : list (Z * Z), length (filter (fun r => is_some r = true) (Some <$> l)) = length l) as ->; [|simpl; lia].
  clear l. intros l. induction l as [|x l IH]; [done|]. rewrite fmap_cons, filter_cons_True by done. simpl. by f_equal.
Qed.

Lemma slice_tail x z : slice (x ++ z) (length x) (length (x ++ z)) = Some z.
Proof. rewrite <- (app_nil_r z) at 1. rewrite length_app. by rewrite slice_app. Qed.

Lemma in_slice_all l y f : f l = Some y -> in_slice l 0 (length l) f = Some y.
Proof.
  intros E. unfold in_slice. rewrite slice_some by lia. cbn [mbind option_bind]. rewrite Nat.sub_0_r, drop_0, firstn_all, E. simpl.
  by rewrite drop_all, app_nil_r.
Qed.

Section options.
Context `{B : ByteOrder} {BE : BigEndian}.

Lemma write_tail32 x a z v : length a = 4%nat -> is_u32 v ->
  in_slice (x ++ a ++ z) (length x) (length (x ++ a ++ z)) (fun d => write_u32 d v) = Some (x ++ be32 v ++ z).
Proof.
  intros L K. rewrite <- (app_nil_r (a ++ z)) at 1. rewrite (length_app x).
  rewrite (in_slice_app x (a ++ z) [] (be32 v ++ z)); [by rewrite app_nil_r|]. by rewrite write_u32_be.
Qed.

Lemma write_tail16 x a z v : length a = 2%nat -> is_u16 v ->
  in_slice (x ++ a ++ z) (length x) (length (x ++ a ++ z)) (fun d => write_u16 d v) = Some (x ++ be16 v ++ z).
Proof.
  intros L K. rewrite <- (app_nil_r (a ++ z)) at 1. rewrite (length_app x).
  rewrite (in_slice_app x (a ++ z) [] (be16 v ++ z)); [by rewrite app_nil_r|]. by rewrite write_u16_be.
Qed.

Lemma emit_ranges_ok s : forall i pre old rest, length pre = (i * 8 + 2)%nat -> length old = (8 * length s)%nat ->
  Forall (fun p => is_u32 (fst p) /\ is_u32 (snd p)) s ->
  emit_ranges (pre ++ old ++ rest) i s = Some (pre ++ concat (range_bytes <$> s) ++ rest).
Proof.
  induction s as [|[a b] s IH]; intros i pre old rest Lp Lo F.
  - simpl in Lo. by apply nil_length_inv in Lo as ->.
  - apply Forall_cons in F as [[Ka Kb] F]. simpl in Ka, Kb, Lo. cbn [emit_ranges]. rewrite <- Lp.
    rewrite <- (take_drop 4 old), <- (app_assoc (take 4 old)). rewrite write_tail32; [|rewrite length_take; lia|done]. cbn [mbind option_bind].
    rewrite <- (take_drop 4 (drop 4 old)), drop_drop, <- (app_assoc (take 4 (drop 4 old))), (app_assoc pre).
    replace (length pre + 4)%nat with (length (pre ++ be32 a)) by (by rewrite length_app).
    rewrite write_tail32; [|rewrite length_take, length_drop; lia|done]. cbn [mbind option_bind]. rewrite (app_assoc (pre ++ be32 a)).
    rewrite IH; [|rewrite !length_app; simpl; lia|rewrite length_drop; simpl; lia|done].
    rewrite fmap_cons. simpl concat. unfold range_bytes at 2. by rewrite <- !app_assoc.
Qed.

Lemma option_len_bytes o : emitted_ok o -> length (opt_bytes o) = option_len o.
Proof.
  destruct o as [| |v|v| |s|]; try done. intros (l & _ & _ & ->). cbn [option_len opt_bytes]. rewrite count_packed, omap_packed, length_app. simpl.
  assert (length (concat (range_bytes <$> l)) = (length l * 8)%nat) as ->; [|lia].
  clear. induction l as [|x l IH]; [done|]. rewrite fmap_cons. simpl. rewrite IH. lia.
Qed.

(** An option is written at the front of the buffer, and nothing else changes. *)
Lemma option_emit_ok o old rest : emitted_ok o -> length old = option_len o ->
  option_emit o (old ++ rest) = Some (opt_bytes o, rest).
Proof.
  intros K L.
  enough (exists x, set_at (old ++ rest) 1 (wrap8 (Z.of_nat (option_len o))) = Some x /\ emit_value o x = Some (opt_bytes o ++ rest)) as (x & E1 & E2).
  { assert (option_emit o (old ++ rest) = (rest' ← slice (opt_bytes o ++ rest) (option_len o) (length (opt_bytes o ++ rest));
      Some (take (option_len o) (opt_bytes o ++ rest), rest'))) as ->.
    { unfold option_emit. destruct o; try done; rewrite E1; cbn [mbind option_bind]; by rewrite E2. }
    rewrite <- option_len_bytes by done. rewrite slice_tail. simpl. by rewrite take_app_length. }
  destruct o as [| |v|v| |s|]; try done.
  - destruct old as [|a [|b [|c [|d [|]]]]]; try done. eexists. split; [done|]. cbn [emit_value]. simpl set_at. cbn [mbind option_bind].
    by apply (write_tail16 [OPT_MSS; 4] [c; d] rest v).
  - destruct old as [|a [|b [|c [|]]]]; try done. by eexists.
  - destruct old as [|a [|b [|]]]; try done. by eexists.
  - destruct K as (l & Hl & [Ll Fl] & ->). cbn [option_len] in *. rewrite count_packed in *.
    destruct old as [|a [|b old]]; [simpl in L; lia..|]. eexists. split; [done|]. cbn [emit_value opt_bytes]. rewrite omap_packed.
    change (emit_ranges ([OPT_SACKRNG; wrap8 (Z.of_nat (length l * 8 + 2))] ++ old ++ rest) 0 l =
      Some (([OPT_SACKRNG; 8 * Z.of_nat (length l) + 2] ++ concat (range_bytes <$> l)) ++ rest)).
    rewrite emit_ranges_ok; [|done|simpl in L; lia|done]. rewrite <- app_assoc. do 4 f_equal. unfold wrap8. rewrite Z.mod_small; lia.
Qed.

(** Reading an option back. *)
Lemma sack_range_emitted pre a b post i : length pre = (i * 8)%nat -> is_u32 a -> is_u32 b ->
  sack_range (pre ++ range_bytes (a, b) ++ post) i = Some (Some (a, b)).
Proof.
  intros L Ka Kb. unfold sack_range. rewrite <- L. destruct (Nat.ltb_spec (length pre) (length (pre ++ range_bytes (a, b) ++ post))) as [_|H];
    [|rewrite !length_app in H; simpl in H; lia].
  unfold range_bytes. cbn [fst snd]. rewrite <- app_assoc. assert (slice (pre ++ be32 a ++ be32 b ++ post) (length pre) (length pre + 4) = Some (be32 a)) as ->
    by exact (slice_app pre (be32 a) (be32 b ++ post)). cbn [mbind option_bind].
  rewrite <- (app_nil_r (be32 a)) at 1. rewrite read_u32_be by done. cbn [mbind option_bind]. rewrite (app_assoc pre).
  replace (length pre + 4)%nat with (length (pre ++ be32 a)) by (by rewrite length_app).
  replace (length pre + 8)%nat with (length (pre ++ be32 a) + length (be32 b))%nat by (rewrite length_app; simpl; lia).
  rewrite slice_app. cbn [mbind option_bind]. rewrite <- (app_nil_r (be32 b)). by rewrite read_u32_be.
Qed.

Lemma sack_range_absent data i : (length data <= i * 8)%nat -> sack_range data i = Some None.
Proof. intros L. unfold sack_range. destruct (Nat.ltb_spec (i * 8) (length data)); [lia|done]. Qed.

Lemma sack_ranges_emitted l : ranges_fit l -> mapM (sack_range (concat (range_bytes <$> l))) [0; 1; 2]%nat = Some (packed l).
Proof.
  intros [L F]. unfold mapM. destruct l as [|[a b] [|[c d] [|[e f] [|]]]]; simpl in L; try lia; rewrite ?Forall_cons in F; cbn [fst snd] in F;
    rewrite ?fmap_cons; cbn [fmap list_fmap concat].
  - by rewrite !sack_range_absent by (simpl; lia).
  - pose proof (sack_range_emitted [] a b [] 0) as E0. cbn [app] in E0. rewrite E0 by tauto. cbn [mbind option_bind].
    by rewrite !sack_range_absent by (simpl; lia).
  - pose proof (sack_range_emitted [] a b (range_bytes (c, d) ++ []) 0) as E0. cbn [app] in E0. rewrite E0 by tauto.
    rewrite (sack_range_emitted (range_bytes (a, b)) c d [] 1) by tauto. cbn [mbind option_bind]. by rewrite !sack_range_absent by (simpl; lia).
  - pose proof (sack_range_emitted [] a b (range_bytes (c, d) ++ range_bytes (e, f) ++ []) 0) as E0. cbn [app] in E0. rewrite E0 by tauto.
    rewrite (sack_range_emitted (range_bytes (a, b)) c d (range_bytes (e, f) ++ []) 1) by tauto. rewrite app_assoc.
    by rewrite (sack_range_emitted (range_bytes (a, b) ++ range_bytes (c, d)) e f [] 2) by tauto.
Qed.

Lemma option_parse_long kind len data rest o : kind <> OPT_END -> kind <> OPT_NOP -> Z.to_nat len = (2 + length data)%nat ->
  option_value kind len data = Some (Ok o) -> option_parse ((kind :: len :: data) ++ rest) = Some (Ok (rest, o)).
Proof.
  intros H0 H1 L E. unfold option_parse. cbn [app lookup list_lookup].
  rewrite (proj2 (Z.eqb_neq _ _) H0), (proj2 (Z.eqb_neq _ _) H1), L.
  pose proof (slice_app [kind; len] data rest) as S1. cbn [app length] in S1. rewrite S1, E. cbn [mbind option_bind].
  pose proof (slice_tail (kind :: len :: data) rest) as S2. cbn [app length] in S2. cbn [plus length]. by rewrite S2.
Qed.

Lemma option_parse_emitted o rest : emitted_ok o -> option_parse (opt_bytes o ++ rest) = Some (Ok (rest, o)).
Proof.
  destruct o as [| |v|v| |s|]; try done; intros K.
  - pose proof (read_u16_be v [] K) as R. rewrite app_nil_r in R. apply (option_parse_long OPT_MSS 4 (be16 v) rest); [done..|].
    unfold option_value. simpl Z.eqb. cbv iota. by rewrite R.
  - by apply option_parse_long.
  - by apply option_parse_long.
  - pose proof (option_len_bytes (SackRange s) K) as Lo. destruct K as (l & Hl & Fl & ->). pose proof (sack_ranges_emitted l Fl) as R.
    destruct Fl as [Ll Fl]. cbn [opt_bytes option_len] in *. rewrite omap_packed, count_packed, length_app in *. cbn [length] in Lo.
    apply option_parse_long; [done..|lia|]. unfold option_value. simpl Z.eqb. cbv iota. rewrite R.
    destruct (Z.ltb_spec (8 * Z.of_nat (length l) + 2) 10); [destruct l; simpl in *; [done|lia]|].
    replace ((8 * Z.of_nat (length l) + 2 - 2) mod 8 =? 0) with true; [done|]. symmetry. apply Z.eqb_eq.
    replace (8 * Z.of_nat (length l) + 2 - 2) with (Z.of_nat (length l) * 8) by lia. apply Z_mod_mult.
Qed.
End options.

(** ** The options of a representation *)

Record wire_ok (r : TcpRepr) : Prop := {
  wo_fields : fields_ok r;
  wo_ranges : exists l, ranges_fit l /\ sack_ranges r = packed l /\
    (l = [] \/ is_some (ack_number r) = true /\ sack_permitted r = false);
  wo_length : repr_buffer_len r <= 65535;
}.

Definition options_of (r : TcpRepr) : list TcpOption :=
  match max_seg_size r with Some v => [MaxSegmentSize v] | None => [] end ++
  match window_scale r with Some v => [WindowScale v] | None => [] end ++
  (if sack_permitted r then [SackPermitted] else if existsb is_some (sack_ranges r) then [SackRange (sack_ranges r)] else []).

Definition options_len (os : list TcpOption) : nat := foldr (fun o n => option_len o + n)%nat 0%nat os.

Lemma existsb_packed l : ranges_fit l -> existsb is_some (packed l) = negb (bool_decide (l = [])).
Proof. intros _. by destruct l. Qed.

Lemma options_of_ok r : wire_ok r -> Forall emitted_ok (options_of r).
Proof.
  intros [F (l & Fl & El & Hl) _]. unfold options_of. repeat apply Forall_app_2.
  - destruct (max_seg_size r) eqn:E; [|constructor]. constructor; [|constructor]. pose proof (fo_mss _ F) as K. by rewrite E in K.
  - destruct (window_scale r) eqn:E; [|constructor]. constructor; [|constructor]. pose proof (fo_scale _ F) as K. by rewrite E in K.
  - destruct (sack_permitted r); [by repeat constructor|]. rewrite El, existsb_packed by done. case_bool_decide; [constructor|].
    constructor; [|constructor]. by exists l.
Qed.

(** The header has room for the options and at most three bytes of padding. *)
Lemma header_len_ok r : wire_ok r -> exists k, (k <= 3)%nat /\ repr_header_len r = 20 + Z.of_nat (options_len (options_of r) + k) /\
  exists h, repr_header_len r = 4 * h /\ 5 <= h <= 15.
Proof.
  intros [_ (l & [Ll Fl] & El & Hl) _]. unfold repr_header_len, options_of. rewrite El, existsb_packed by done.
  assert (zsum (fun o => if is_some o then 8 else 0) (packed l) = 8 * Z.of_nat (length l)) as ->.
  { clear. unfold packed. rewrite zsum_app, (zsum_zero _ (replicate _ _)) by (intros x [-> _]%elem_of_replicate; done).
    induction l as [|x l IH]; [done|]. rewrite fmap_cons. simpl in *. lia. }
  assert (options_len (if sack_permitted r then [SackPermitted] else if negb (bool_decide (l = [])) then [SackRange (packed l)] else [])
    = (if sack_permitted r then 2 else 0) + (if (0 <? 8 * Z.of_nat (length l))%Z then length l * 8 + 2 else 0))%nat as E.
  { destruct l as [|p l]; [by destruct (sack_permitted r)|]. destruct Hl as [|[_ ->]]; [done|]. rewrite bool_decide_false by done.
    cbn [negb options_len foldr option_len]. rewrite count_packed. simpl. lia. }
  assert (forall a b, options_len (a ++ b) = (options_len a + options_len b)%nat) as A
    by (intros a b; induction a as [|x a IH]; simpl in *; [done|]; rewrite IH; lia).
  rewrite !A, E. clear E A.
  assert (options_len (match max_seg_size r with Some v => [MaxSegmentSize v] | None => [] end) = if is_some (max_seg_size r) then 4 else 0)%nat as ->
    by (by destruct (max_seg_size r)).
  assert (options_len (match window_scale r with Some v => [WindowScale v] | None => [] end) = if is_some (window_scale r) then 3 else 0)%nat as ->
    by (by destruct (window_scale r)).
  set (n := (if 0 <? 8 * Z.of_nat (length l) then _ else _) : Z).
  match goal with |- context [Z.of_nat (?x + _)] => set (m := x) end.
  assert (n = 20 + Z.of_nat m /\ n <= 53) as [E Hm].
  { subst n m. destruct (Z.ltb_spec 0 (8 * Z.of_nat (length l))) as [Hp|Hp].
    - assert (sack_permitted r = false) as -> by (destruct Hl as [->|[_ ?]]; [simpl in Hp; lia|done]).
      destruct (is_some (max_seg_size r)), (is_some (window_scale r)); lia.
    - destruct (is_some (max_seg_size r)), (is_some (window_scale r)), (sack_permitted r); lia. }
  clearbody n m. exists (Z.to_nat (if n mod 4 =? 0 then 0 else 4 - n mod 4)).
  split_and!; [case_cmp; div_lia..|]. exists ((if n mod 4 =? 0 then n else n + (4 - n mod 4)) / 4). case_cmp; div_lia.
Qed.

Section emit_options.
Context `{B : ByteOrder} {BE : BigEndian}.

Lemma emit_next_ok o w rest : emitted_ok o -> (option_len o <= length rest)%nat ->
  emit_next o (w, rest) = Some (w ++ opt_bytes o, drop (option_len o) rest).
Proof.
  intros K L. unfold emit_next. cbn [fst snd]. rewrite <- (take_drop (option_len o) rest) at 1.
  by rewrite option_emit_ok by (done || rewrite length_take; lia).
Qed.

Lemma emit_end w rest : (b ← (match rest with [] => Some (w, rest) | _ => emit_next EndOfList (w, rest) end); Some (fst b ++ snd b))
  = Some (w ++ replicate (length rest) 0).
Proof.
  destruct rest as [|x rest]; [done|]. unfold emit_next, option_emit. cbn [fst snd length replicate option_len mbind option_bind].
  pose proof (slice_tail [OPT_END] (replicate (length rest) OPT_END)) as S. cbn [app length] in S. cbn [length]. rewrite S. simpl.
  by rewrite <- app_assoc.
Qed.

Lemma emit_options_ok r options k : wire_ok r -> length options = (options_len (options_of r) + k)%nat ->
  emit_options r options = Some (concat (opt_bytes <$> options_of r) ++ replicate k 0).
Proof.
  intros K L. pose proof (options_of_ok r K) as F. destruct K as [_ (l & Fl & El & Hl) _]. unfold emit_options.
  assert (is_some (ack_number r) && existsb is_some (sack_ranges r) = existsb is_some (sack_ranges r) \/ sack_permitted r = true) as A.
  { destruct Hl as [->|[-> _]]; [|by left]. left. rewrite El. simpl. by rewrite andb_false_r. }
  unfold options_of in *. destruct (max_seg_size r) as [m|], (window_scale r) as [w|], (sack_permitted r);
    try (destruct A as [->|]; [|done]; destruct (existsb is_some (sack_ranges r))); cbn [app] in *;
    rewrite ?Forall_cons in F; cbn [options_len foldr] in L;
    repeat (cbn [mbind option_bind]; rewrite emit_next_ok by (tauto || rewrite ?length_drop; lia));
    cbn [mbind option_bind snd fst]; rewrite emit_end, ?length_drop; cbn [app fmap list_fmap concat]; rewrite ?app_nil_r, <- ?app_assoc;
    repeat f_equal; lia.
Qed.

Lemma parse_options_emitted os : forall fuel f k, Forall emitted_ok os -> (length (concat (opt_bytes <$> os)) + k < fuel)%nat ->
  parse_options fuel f (concat (opt_bytes <$> os) ++ replicate k 0) = Some (Ok (foldl note_option f os)).
Proof.
  induction os as [|o os IH]; intros fuel f k F L; (destruct fuel as [|fuel]; [lia|]).
  - simpl. destruct k as [|k]; [done|]. cbn [replicate]. unfold option_parse. cbn [lookup list_lookup Z.eqb OPT_END].
    pose proof (slice_tail [0] (replicate k 0)) as S. cbn [app length] in S. cbn [length]. by rewrite S.
  - apply Forall_cons in F as [Ko F]. rewrite fmap_cons in *. cbn [concat] in *. rewrite <- app_assoc, length_app in *.
    pose proof (option_parse_emitted o (concat (opt_bytes <$> os) ++ replicate k 0) Ko) as P. cbn [parse_options foldl].
    assert (opt_bytes o <> []) as N by (by destruct o). destruct (opt_bytes o) as [|x ob] eqn:E; [done|]. cbn [app] in P |- *. rewrite P.
    cbn [mbind option_bind length] in *. destruct o; try done; apply IH; (done || lia).
Qed.

Lemma found_options r : wire_ok r -> foldl note_option (mkFound None None false no_sack) (options_of r)
  = mkFound (max_seg_size r) (window_scale r) (sack_permitted r) (sack_ranges r).
Proof.
  intros [F (l & Fl & El & Hl) _]. pose proof (fo_scale _ F) as S. unfold options_of. rewrite El.
  assert (forall x, 0 <= x <= 14 -> (if 14 <? x then 14 else x) = x) as C by (intros; case_cmp; lia).
  destruct Hl as [->|[_ ->]].
  - destruct (max_seg_size r), (window_scale r), (sack_permitted r); cbn -[Z.ltb]; rewrite ?C by done; done.
  - rewrite existsb_packed by done. destruct l; destruct (max_seg_size r), (window_scale r); cbn -[Z.ltb packed]; rewrite ?C by done; done.
Qed.
End emit_options.

(** ** The header *)

(** The eight fields of the fixed header and what follows. *)
Definition layout (sp dp seq ack fl win ck urg rest : list Z) : list Z := sp ++ dp ++ seq ++ ack ++ fl ++ win ++ ck ++ urg ++ rest.

Record layout_ok (sp dp seq ack fl win ck urg : list Z) : Prop := {
  lo_sp : length sp = 2%nat;
  lo_dp : length dp = 2%nat;
  lo_seq : length seq = 4%nat;
  lo_ack : length ack = 4%nat;
  lo_fl : length fl = 2%nat;
  lo_win : length win = 2%nat;
  lo_ck : length ck = 2%nat;
  lo_urg : length urg = 2%nat;
}.

Lemma layout_of buf : (20 <= length buf)%nat -> exists sp dp seq ack fl win ck urg,
  layout_ok sp dp seq ack fl win ck urg /\ buf = layout sp dp seq ack fl win ck urg (drop 20 buf).
Proof.
  intros L. exists (take 2 buf), (take 2 (drop 2 buf)), (take 4 (drop 4 buf)), (take 4 (drop 8 buf)), (take 2 (drop 12 buf)),
    (take 2 (drop 14 buf)), (take 2 (drop 16 buf)), (take 2 (drop 18 buf)).
  split; [constructor; rewrite length_take, ?length_drop; lia|]. unfold layout.
  assert (forall a b c, c = (b + a)%nat -> take a (drop b buf) ++ drop c buf = drop b buf) as T
    by (intros a b c ->; rewrite <- drop_drop; apply take_drop).
  rewrite (T 2 18 20)%nat, (T 2 16 18)%nat, (T 2 14 16)%nat, (T 2 12 14)%nat, (T 4 8 12)%nat, (T 4 4 8)%nat, (T 2 2 4)%nat by done.
  by rewrite take_drop.
Qed.

Section layout.
Context `{B : ByteOrder} {BE : BigEndian}.
Context (sp dp seq ack fl win ck urg rest : list Z) (Lo : layout_ok sp dp seq ack fl win ck urg).

Lemma read_at x y z a b : length x = a -> b = (a + length y)%nat -> slice (x ++ y ++ z) a b = Some y.
Proof. intros <- ->. apply slice_app. Qed.

Lemma write_at x y z y' a b f : length x = a -> b = (a + length y)%nat -> f y = Some y' -> in_slice (x ++ y ++ z) a b f = Some (x ++ y' ++ z).
Proof. intros <- ->. apply in_slice_app. Qed.

Lemma write16 y v : length y = 2%nat -> is_u16 v -> write_u16 y v = Some (be16 v).
Proof. intros L K. by rewrite <- (app_nil_r y), write_u16_be, app_nil_r. Qed.

Lemma write32 y v : length y = 4%nat -> wrap_i32 v = v -> write_i32 y v = Some (be32 (wrap32 v)).
Proof. intros L K. by rewrite <- (app_nil_r y), write_i32_be, app_nil_r. Qed.

Lemma read16 v : is_u16 v -> read_u16 (be16 v) = Some v.
Proof. intros K. by rewrite <- (app_nil_r (be16 v)), read_u16_be. Qed.

(** Field [y] between what is before and after it becomes [y']. *)
Ltac focus x y y' z :=
  unfold layout;
  transitivity (Some (x ++ y' ++ z)); [|by rewrite ?app_nil_r, <- ?app_assoc];
  destruct Lo as [L1 L2 L3 L4 L5 L6 L7 L8];
  match goal with |- in_slice ?l ?a ?b ?f = _ => replace l with (x ++ y ++ z) by (by rewrite ?app_nil_r, <- ?app_assoc) end;
  apply write_at; rewrite ?length_app, ?L1, ?L2, ?L3, ?L4, ?L5, ?L6, ?L7, ?L8; try done.

Lemma set_src_port_layout v : is_u16 v ->
  set_src_port (layout sp dp seq ack fl win ck urg rest) v = Some (layout (be16 v) dp seq ack fl win ck urg rest).
Proof. intros K. unfold set_src_port, put_u16. focus (@nil Z) sp (be16 v) (dp ++ seq ++ ack ++ fl ++ win ++ ck ++ urg ++ rest). by apply write16. Qed.

Lemma set_dst_port_layout v : is_u16 v ->
  set_dst_port (layout sp dp seq ack fl win ck urg rest) v = Some (layout sp (be16 v) seq ack fl win ck urg rest).
Proof. intros K. unfold set_dst_port, put_u16. focus sp dp (be16 v) (seq ++ ack ++ fl ++ win ++ ck ++ urg ++ rest). by apply write16. Qed.

Lemma set_seq_number_layout v : wrap_i32 v = v ->
  set_seq_number (layout sp dp seq ack fl win ck urg rest) v = Some (layout sp dp (be32 (wrap32 v)) ack fl win ck urg rest).
Proof. intros K. unfold set_seq_number. focus (sp ++ dp) seq (be32 (wrap32 v)) (ack ++ fl ++ win ++ ck ++ urg ++ rest). by apply write32. Qed.

Lemma set_ack_number_layout v : wrap_i32 v = v ->
  set_ack_number (layout sp dp seq ack fl win ck urg rest) v = Some (layout sp dp seq (be32 (wrap32 v)) fl win ck urg rest).
Proof. intros K. unfold set_ack_number. focus (sp ++ dp ++ seq) ack (be32 (wrap32 v)) (fl ++ win ++ ck ++ urg ++ rest). by apply write32. Qed.

Lemma set_window_len_layout v : is_u16 v ->
  set_window_len (layout sp dp seq ack fl win ck urg rest) v = Some (layout sp dp seq ack fl (be16 v) ck urg rest).
Proof. intros K. unfold set_window_len, put_u16. focus (sp ++ dp ++ seq ++ ack ++ fl) win (be16 v) (ck ++ urg ++ rest). by apply write16. Qed.

Lemma set_checksum_layout v : is_u16 v ->
  set_checksum (layout sp dp seq ack fl win ck urg rest) v = Some (layout sp dp seq ack fl win (be16 v) urg rest).
Proof. intros K. unfold set_checksum, put_u16. focus (sp ++ dp ++ seq ++ ack ++ fl ++ win) ck (be16 v) (urg ++ rest). by apply write16. Qed.

Lemma set_urgent_layout v : is_u16 v ->
  set_urgent_at (layout sp dp seq ack fl win ck urg rest) v = Some (layout sp dp seq ack fl win ck (be16 v) rest).
Proof. intros K. unfold set_urgent_at, put_u16. focus (sp ++ dp ++ seq ++ ack ++ fl ++ win ++ ck) urg (be16 v) rest. by apply write16. Qed.

Lemma flags_layout : field (layout sp dp seq ack fl win ck urg rest) FLAGS = Some fl.
Proof.
  unfold field. replace (layout sp dp seq ack fl win ck urg rest) with ((sp ++ dp ++ seq ++ ack) ++ fl ++ (win ++ ck ++ urg ++ rest))
    by (unfold layout; by rewrite <- ?app_assoc).
  destruct Lo as [L1 L2 L3 L4 L5 L6 L7 L8]. apply read_at; by rewrite ?length_app, ?L1, ?L2, ?L3, ?L4, ?L5.
Qed.

Lemma on_flags_layout f raw : is_u16 raw -> fl = be16 raw -> is_u16 (f raw) ->
  on_flags (layout sp dp seq ack fl win ck urg rest) f = Some (layout sp dp seq ack (be16 (f raw)) win ck urg rest).
Proof.
  intros K E Kf. unfold on_flags, get_u16. rewrite flags_layout. cbn [mbind option_bind]. rewrite E at 1. rewrite read16 by done.
  cbn [mbind option_bind]. unfold put_u16. focus (sp ++ dp ++ seq ++ ack) fl (be16 (f raw)) (win ++ ck ++ urg ++ rest). by apply write16.
Qed.

Lemma options_layout o p n f o' : n = (20 + length o)%nat -> f o = Some o' ->
  in_slice (layout sp dp seq ack fl win ck urg (o ++ p)) 20 n f = Some (layout sp dp seq ack fl win ck urg (o' ++ p)).
Proof. intros -> E. focus (sp ++ dp ++ seq ++ ack ++ fl ++ win ++ ck ++ urg) o o' p. Qed.

Lemma payload_layout o p n f p' : n = (20 + length o)%nat -> f p = Some p' ->
  in_slice (layout sp dp seq ack fl win ck urg (o ++ p)) n (length (layout sp dp seq ack fl win ck urg (o ++ p))) f
  = Some (layout sp dp seq ack fl win ck urg (o ++ p')).
Proof.
  intros -> E. focus (sp ++ dp ++ seq ++ ack ++ fl ++ win ++ ck ++ urg ++ o) p p' (@nil Z).
  simpl. lia.
Qed.

Lemma layout_length : length (layout sp dp seq ack fl win ck urg rest) = (20 + length rest)%nat.
Proof. destruct Lo as [L1 L2 L3 L4 L5 L6 L7 L8]. unfold layout. by rewrite !length_app, L1, L2, L3, L4, L5, L6, L7, L8. Qed.
End layout.

(** ** Flags *)

Definition control_bits (c : TcpControl) : Z :=
  match c with CNone => 0 | CPsh => FLG_PSH | CSyn => FLG_SYN | CFin => FLG_FIN | CRst => FLG_RST end.

(** The header length in words, and the flags. *)
Definition flags_word (h : Z) (c : TcpControl) (ack : bool) : Z := h * 4096 + control_bits c + if ack then FLG_ACK else 0.

(** Every value a header length can have. *)
Lemma header_cases (P : Z -> Prop) h : 5 <= h <= 15 ->
  P 5 -> P 6 -> P 7 -> P 8 -> P 9 -> P 10 -> P 11 -> P 12 -> P 13 -> P 14 -> P 15 -> P h.
Proof.
  intros H. assert (h = 5 \/ h = 6 \/ h = 7 \/ h = 8 \/ h = 9 \/ h = 10 \/ h = 11 \/ h = 12 \/ h = 13 \/ h = 14 \/ h = 15) as D by lia.
  repeat destruct D as [->|D]; subst; auto.
Qed.

Lemma cleared_flags raw h : is_u16 raw -> 5 <= h <= 15 ->
  Z.ldiff (Z.lor (Z.ldiff raw 0xf000) (wrap16 (Z.shiftl (wrap8 (4 * h) / 4) 12))) 0xfff = flags_word h CNone false.
Proof.
  intros K H. rewrite !Z.ldiff_land, Z.land_lor_distr_l, <- Z.land_assoc, <- Z.lnot_lor. change (Z.lor 0xf000 0xfff) with (Z.ones 16).
  rewrite <- !Z.ldiff_land, Z.ldiff_ones_r by lia. assert (Z.shiftr raw 16 = 0) as -> by (rewrite Z.shiftr_div_pow2 by lia; apply Z.div_small; done).
  rewrite Z.shiftl_0_l, Z.lor_0_l. by apply (header_cases (fun h => Z.ldiff (wrap16 (Z.shiftl (wrap8 (4 * h) / 4) 12)) 0xfff = flags_word h CNone false)).
Qed.

Lemma u16_shiftr x : is_u16 x <-> Z.shiftr x 16 = 0.
Proof. unfold is_u16. rewrite Z.shiftr_div_pow2 by lia. rewrite Z.div_small_iff by lia. lia. Qed.

Lemma u16_lor x y : is_u16 x -> is_u16 y -> is_u16 (Z.lor x y).
Proof. rewrite !u16_shiftr, Z.shiftr_lor. by intros -> ->. Qed.

Lemma u16_ldiff x y : is_u16 x -> is_u16 (Z.ldiff x y).
Proof. rewrite !u16_shiftr, Z.shiftr_ldiff. by intros ->. Qed.

Lemma flags_word_u16 h c a : 5 <= h <= 15 -> is_u16 (flags_word h c a).
Proof. intros H. apply (header_cases (fun h => is_u16 (flags_word h c a)) h H); by destruct c, a. Qed.

Lemma flags_word_control h c : 5 <= h <= 15 -> Z.lor (flags_word h CNone false) (control_bits c) = flags_word h c false.
Proof.
  intros H. apply (header_cases (fun h => Z.lor (flags_word h CNone false) (control_bits c) = flags_word h c false) h H); by destruct c.
Qed.

Lemma flags_word_ack h c (a : bool) : 5 <= h <= 15 ->
  (if a then Z.lor (flags_word h c false) FLG_ACK else Z.ldiff (flags_word h c false) FLG_ACK) = flags_word h c a.
Proof.
  intros H. apply (header_cases (fun h => (if a then Z.lor (flags_word h c false) FLG_ACK else Z.ldiff (flags_word h c false) FLG_ACK)
    = flags_word h c a) h H); by destruct c, a.
Qed.

(** What the accessors read from the word. *)
Lemma flags_word_read h c a : 5 <= h <= 15 -> let w := flags_word h c a in
  wrap8 (wrap16 (Z.shiftr w 12 * 4)) = 4 * h /\
  control_of (negb (Z.land w FLG_SYN =? 0)) (negb (Z.land w FLG_FIN =? 0)) (negb (Z.land w FLG_RST =? 0)) (negb (Z.land w FLG_PSH =? 0)) = Some c /\
  negb (Z.land w FLG_ACK =? 0) = a.
Proof.
  intros H w. subst w. pattern h. apply (header_cases _ h H); by destruct c, a.
Qed.

(** ** Emission *)

(** The bytes of a packet: [k] bytes of padding, checksum [ck]. *)
Definition packet_bytes (r : TcpRepr) (k : nat) (ck : list Z) : list Z :=
  layout (be16 (src_port r)) (be16 (dst_port r)) (be32 (wrap32 (seq_number r))) (be32 (wrap32 (default 0 (ack_number r))))
    (be16 (flags_word (repr_header_len r / 4) (control r) (is_some (ack_number r)))) (be16 (window_len r)) ck (be16 0)
    (concat (opt_bytes <$> options_of r) ++ replicate k 0 ++ payload r).

Lemma length_options os : Forall emitted_ok os -> length (concat (opt_bytes <$> os)) = options_len os.
Proof.
  intros F. induction F as [|o os K F IH]; [done|]. rewrite fmap_cons. cbn [concat options_len foldr]. rewrite length_app, option_len_bytes by done.
  by f_equal.
Qed.

(** Side conditions on layouts. *)
Ltac fits := first [done|unfold is_u16; lia|by constructor].

Section emit.
Context `{B : ByteOrder} {BE : BigEndian}.

Lemma set_control_layout sp dp seq ack win ck urg rest h c : layout_ok sp dp seq ack (be16 (flags_word h CNone false)) win ck urg -> 5 <= h <= 15 ->
  set_control (layout sp dp seq ack (be16 (flags_word h CNone false)) win ck urg rest) c
  = Some (layout sp dp seq ack (be16 (flags_word h c false)) win ck urg rest).
Proof.
  intros Lo H. rewrite <- (flags_word_control h c H). pose proof (flags_word_u16 h CNone false H) as K.
  assert (forall m, is_u16 m -> set_flag (layout sp dp seq ack (be16 (flags_word h CNone false)) win ck urg rest) m true
    = Some (layout sp dp seq ack (be16 (Z.lor (flags_word h CNone false) m)) win ck urg rest)) as A.
  { intros m Km. unfold set_flag.
    apply (on_flags_layout _ _ _ _ _ _ _ _ _ Lo (fun raw => Z.lor raw m) (flags_word h CNone false)); [done..|by apply u16_lor]. }
  destruct c; [by rewrite Z.lor_0_r|by apply A..].
Qed.

Lemma header_len_layout sp dp seq ack win ck urg rest h c a : layout_ok sp dp seq ack (be16 (flags_word h c a)) win ck urg -> 5 <= h <= 15 ->
  pkt_header_len (layout sp dp seq ack (be16 (flags_word h c a)) win ck urg rest) = Some (4 * h).
Proof.
  intros Lo H. unfold pkt_header_len, get_u16. rewrite flags_layout by done. cbn [mbind option_bind].
  rewrite read16 by (by apply flags_word_u16). cbn [mbind option_bind]. f_equal. apply (flags_word_read h c a H).
Qed.

(** Emission writes every byte but those of the checksum, whatever the buffer held. *)
Lemma repr_emit_bytes r buf src dst caps : wire_ok r -> bytes buf -> Z.of_nat (length buf) = repr_buffer_len r ->
  exists k ck, length ck = 2%nat /\ repr_header_len r = 20 + Z.of_nat (options_len (options_of r) + k) /\
    repr_emit r buf src dst caps = if checksum_tx caps then fill_checksum (packet_bytes r k ck) src dst else set_checksum (packet_bytes r k ck) 0.
Proof.
  intros K F L. destruct (header_len_ok r K) as (k & Hk & En & h & Eh & Hh). destruct (wo_fields r K) as [K1 K2 K3 K4 K5 K6 K7 K8].
  unfold repr_buffer_len, payload_len in L.
  destruct (layout_of buf ltac:(lia)) as (sp & dp & seq & ack & fl & win & ck & urg & Lo & E).
  assert (exists raw, is_u16 raw /\ fl = be16 raw) as (raw & Kr & ->).
  { assert (bytes fl) as Ff. { rewrite E in F. unfold layout in F. unfold bytes in *. rewrite !Forall_app in F. tauto. }
    pose proof (lo_fl _ _ _ _ _ _ _ _ Lo). destruct fl as [|a [|b [|]]]; try done. apply Forall_cons in Ff as [Ha Ff]. apply Forall_cons in Ff as [Hb _].
    exists (a * 256 + b). unfold is_byte, is_u16, be16 in *. split; [lia|]. f_equal; [div_lia|]. f_equal. div_lia. }
  pose proof (lo_ck _ _ _ _ _ _ _ _ Lo) as Lck. exists k, ck. split_and!; [done..|]. unfold repr_emit.
  assert (length (drop 20 buf) = (options_len (options_of r) + k + length (payload r))%nat) as Lr by (rewrite length_drop; lia).
  set (rest := drop 20 buf) in *. clearbody rest. rewrite E. clear E F L buf. destruct Lo. unfold is_port in *.
  rewrite set_src_port_layout by fits. cbn [mbind option_bind]. rewrite set_dst_port_layout by fits. cbn [mbind option_bind].
  rewrite set_seq_number_layout by fits. cbn [mbind option_bind].
  rewrite set_ack_number_layout by (fits || by destruct (ack_number r)). cbn [mbind option_bind].
  rewrite set_window_len_layout by fits. cbn [mbind option_bind].
  unfold set_header_len. erewrite on_flags_layout; [|fits|exact Kr|done|by apply u16_lor; [apply u16_ldiff|apply Z.mod_pos_bound]].
  cbn [mbind option_bind]. unfold clear_flags. erewrite on_flags_layout; [|fits| |reflexivity|]; [|by apply u16_lor; [apply u16_ldiff|apply Z.mod_pos_bound]
    |by apply u16_ldiff, u16_lor; [apply u16_ldiff|apply Z.mod_pos_bound]].
  rewrite Eh, cleared_flags by done. cbn [mbind option_bind]. rewrite set_control_layout by fits. cbn [mbind option_bind].
  unfold set_ack, set_flag. erewrite on_flags_layout; [|fits|by apply flags_word_u16|done|rewrite flags_word_ack by done; by apply flags_word_u16].
  rewrite flags_word_ack by done. cbn [mbind option_bind]. rewrite header_len_layout by fits. cbn [mbind option_bind].
  pose proof (length_options _ (options_of_ok r K)) as Lb.
  rewrite <- (take_drop (options_len (options_of r) + k) rest). set (o := take _ rest). set (p := drop _ rest).
  assert (length o = (options_len (options_of r) + k)%nat) as Lo by (subst o; rewrite length_take; lia).
  assert (length p = length (payload r)) as Lp by (subst p; rewrite length_drop; lia).
  erewrite options_layout; [|fits|lia|by apply emit_options_ok]. cbn [mbind option_bind]. rewrite set_urgent_layout by fits. cbn [mbind option_bind].
  rewrite header_len_layout by fits. cbn [mbind option_bind]. erewrite payload_layout; [|fits|rewrite length_app, length_replicate; lia|].
  - cbn [mbind option_bind]. unfold packet_bytes. rewrite <- app_assoc. replace (repr_header_len r / 4) with h by (rewrite Eh; div_lia). done.
  - rewrite <- Lp. by apply in_slice_all.
Qed.
End emit.
