(* ===== verification/TcpWireTrip.v ===== *)
(** Parsing gives back what was emitted (TcpWire.v). *)

From stdpp Require Import base numbers option list.
From S2P Require Import Prelude Slice TcpSeq TcpSocket Wire TcpWire TcpWireSpec.

(** ** Reading a layout *)

Section reading.
Context (sp dp seq ack fl win ck urg rest : list Z) (Lo : layout_ok sp dp seq ack fl win ck urg).

(** Read field [y] between what is before and after it. *)
Ltac pick x y z :=
  unfold field, layout; cbn [fst snd SRC_PORT DST_PORT SEQ_NUM ACK_NUM WIN_SIZE];
  destruct Lo as [L1 L2 L3 L4 L5 L6 L7 L8];
  match goal with |- slice ?l _ _ = _ => replace l with (x ++ y ++ z) by (by rewrite <- ?app_assoc) end;
  apply read_at; by rewrite ?length_app, ?L1, ?L2, ?L3, ?L4, ?L5, ?L6.

Lemma src_port_layout : field (layout sp dp seq ack fl win ck urg rest) SRC_PORT = Some sp.
Proof. pick (@nil Z) sp (dp ++ seq ++ ack ++ fl ++ win ++ ck ++ urg ++ rest). Qed.
Lemma dst_port_layout : field (layout sp dp seq ack fl win ck urg rest) DST_PORT = Some dp.
Proof. pick sp dp (seq ++ ack ++ fl ++ win ++ ck ++ urg ++ rest). Qed.
Lemma seq_layout : field (layout sp dp seq ack fl win ck urg rest) SEQ_NUM = Some seq.
Proof. pick (sp ++ dp) seq (ack ++ fl ++ win ++ ck ++ urg ++ rest). Qed.
Lemma ack_layout : field (layout sp dp seq ack fl win ck urg rest) ACK_NUM = Some ack.
Proof. pick (sp ++ dp ++ seq) ack (fl ++ win ++ ck ++ urg ++ rest). Qed.
Lemma win_layout : field (layout sp dp seq ack fl win ck urg rest) WIN_SIZE = Some win.
Proof. pick (sp ++ dp ++ seq ++ ack ++ fl) win (ck ++ urg ++ rest). Qed.

Lemma body_layout o p : rest = o ++ p ->
  slice (layout sp dp seq ack fl win ck urg rest) 20 (20 + length o) = Some o /\
  slice (layout sp dp seq ack fl win ck urg rest) (20 + length o) (20 + length rest) = Some p.
Proof.
  intros ->. destruct Lo as [L1 L2 L3 L4 L5 L6 L7 L8]. unfold layout. split.
  - replace (sp ++ _) with ((sp ++ dp ++ seq ++ ack ++ fl ++ win ++ ck ++ urg) ++ o ++ p) by (by rewrite <- !app_assoc).
    apply read_at; by rewrite ?length_app, ?L1, ?L2, ?L3, ?L4, ?L5, ?L6, ?L7, ?L8.
  - replace (sp ++ _) with ((sp ++ dp ++ seq ++ ack ++ fl ++ win ++ ck ++ urg ++ o) ++ p ++ [])
      by (by rewrite app_nil_r, <- !app_assoc).
    apply read_at; [by rewrite ?length_app, ?L1, ?L2, ?L3, ?L4, ?L5, ?L6, ?L7, ?L8|]. rewrite length_app. lia.
Qed.

(** The checksum field adds its value to the sum of the words. *)
Lemma wsum_layout c : is_u16 c -> wsum (layout sp dp seq ack fl win (be16 c) urg rest)
  = wsum (layout sp dp seq ack fl win (be16 0) urg rest) + c.
Proof.
  intros K. destruct Lo as [L1 L2 L3 L4 L5 L6 L7 L8]. unfold layout.
  assert (forall x y, length x = 2%nat -> wsum (x ++ y) = wsum x + wsum y) as A2 by (intros x y L; apply wsum_app; by rewrite L).
  assert (forall x y, length x = 4%nat -> wsum (x ++ y) = wsum x + wsum y) as A4 by (intros x y L; apply wsum_app; by rewrite L).
  rewrite !(A2 sp), !(A2 dp), !(A4 seq), !(A4 ack), !(A2 fl), !(A2 win), !(A2 (be16 _)) by done.
  unfold be16. simpl. unfold is_u16 in K. div_lia.
Qed.
End reading.

Lemma bytes_be16 v : is_u16 v -> bytes (be16 v).
Proof. unfold is_u16, bytes, be16. intros K. repeat constructor; unfold is_byte; div_lia. Qed.
Lemma bytes_be32 v : is_u32 v -> bytes (be32 v).
Proof. unfold is_u32, u32_modulus, bytes, be32. intros K. repeat constructor; unfold is_byte; div_lia. Qed.

Lemma bytes_option o : emitted_ok o -> bytes (opt_bytes o).
Proof.
  destruct o as [| |v|v| |s|]; try done; intros K; cbn [opt_bytes].
  - apply Forall_app_2; [by repeat constructor|by apply bytes_be16].
  - simpl in K. repeat (apply Forall_cons_2; [unfold is_byte, OPT_WS; lia|]). constructor.
  - by repeat constructor.
  - destruct K as (l & _ & [L F] & ->). rewrite omap_packed. apply Forall_app_2; [repeat (apply Forall_cons_2; [unfold is_byte, OPT_SACKRNG; lia|]); constructor|].
    clear L. induction F as [|p l [Ka Kb] F IH]; [constructor|]. rewrite fmap_cons. cbn [concat]. unfold range_bytes at 1.
    repeat apply Forall_app_2; [by apply bytes_be32..|done].
Qed.

Lemma bytes_packet r k ck : wire_ok r -> bytes ck -> bytes (packet_bytes r k ck).
Proof.
  intros K Fc. pose proof (options_of_ok r K) as Fo. destruct (header_len_ok r K) as (_ & _ & _ & h & Eh & Hh).
  destruct (wo_fields r K) as [K1 K2 K3 K4 K5 K6 K7 K8]. unfold is_port in *. unfold packet_bytes, layout.
  repeat apply Forall_app_2; try (apply bytes_be16; unfold is_u16; lia); try (apply bytes_be32, wrap32_range); try done.
  - apply bytes_be16. replace (repr_header_len r / 4) with h by (rewrite Eh; div_lia). by apply flags_word_u16.
  - by apply bytes_be16.
  - induction Fo as [|o os Ko Fo IH]; [constructor|]. rewrite fmap_cons. cbn [concat]. apply Forall_app_2; [by apply bytes_option|done].
  - by apply Forall_replicate.
Qed.

Lemma fold16_complement x : 0 <= x -> fold16 (x + (65535 - fold16 x)) = 65535.
Proof.
  intros H. pose proof (fold16_range x H). pose proof (fold16_zero x H). symmetry. apply fold16_unique; [lia|lia| |lia].
  rewrite Z.add_sub_assoc, Zminus_mod, fold16_eqm, <- Zminus_mod by done. by replace (x + 65535 - x) with 65535 by lia.
Qed.

Section trip.
Context `{B : ByteOrder} {BE : BigEndian}.

Lemma packet_bytes_layout r ck : length ck = 2%nat -> layout_ok (be16 (src_port r)) (be16 (dst_port r)) (be32 (wrap32 (seq_number r)))
  (be32 (wrap32 (default 0 (ack_number r)))) (be16 (flags_word (repr_header_len r / 4) (control r) (is_some (ack_number r))))
  (be16 (window_len r)) ck (be16 0).
Proof. intros L. by constructor. Qed.

Lemma packet_bytes_length r k ck : wire_ok r -> length ck = 2%nat -> repr_header_len r = 20 + Z.of_nat (options_len (options_of r) + k) ->
  Z.of_nat (length (packet_bytes r k ck)) = repr_buffer_len r.
Proof.
  intros K L E. unfold packet_bytes. rewrite layout_length by (by apply packet_bytes_layout).
  rewrite !length_app, length_replicate, length_options by (by apply options_of_ok). unfold repr_buffer_len, payload_len. lia.
Qed.

(** Filling in the checksum makes the packet valid. *)
Lemma fill_checksum_ok r k ck src dst : wire_ok r -> length ck = 2%nat -> repr_header_len r = 20 + Z.of_nat (options_len (options_of r) + k) ->
  is_v6 src = is_v6 dst -> exists c, is_u16 c /\ fill_checksum (packet_bytes r k ck) src dst = Some (packet_bytes r k (be16 c)) /\
    verify_checksum (packet_bytes r k (be16 c)) src dst = Some true.
Proof.
  intros K L E V. pose proof (wo_length r K) as Lm.
  assert (forall c ck', length ck' = 2%nat -> is_u16 c -> set_checksum (packet_bytes r k ck') c = Some (packet_bytes r k (be16 c))) as S.
  { intros c ck' Lc Kc. unfold packet_bytes. rewrite set_checksum_layout; [done|by apply packet_bytes_layout|done]. }
  assert (forall c, is_u16 c -> Z.of_nat (length (packet_bytes r k (be16 c))) = repr_buffer_len r) as Len by (intros; by apply packet_bytes_length).
  assert (exists p, 0 <= p /\ forall c, is_u16 c -> packet_sum (packet_bytes r k (be16 c)) src dst
    = Some (fold16 (p + wsum (packet_bytes r k (be16 0)) + c))) as (p & Hp & P).
  { destruct (packet_sum_ok (packet_bytes r k (be16 0)) src dst) as (p & Ep & Kp & _); [by apply bytes_packet, bytes_be16|rewrite Len by done; lia|done|].
    exists p. split; [apply Kp|]. intros c Kc.
    destruct (packet_sum_ok (packet_bytes r k (be16 c)) src dst) as (p' & Ep' & _ & ->);
      [by apply bytes_packet, bytes_be16|rewrite Len by done; lia|done|].
    assert (p' = p) as -> by (rewrite Len in Ep by done; rewrite Len in Ep' by done; congruence).
    unfold packet_bytes at 1. rewrite (wsum_layout _ _ _ _ _ _ ck _ _ (packet_bytes_layout r ck L)) by done. do 2 f_equal. unfold packet_bytes. lia. }
  pose proof (wsum_bounds _ (bytes_packet r k (be16 0) K (bytes_be16 0 ltac:(done)))) as Hw. set (w := wsum _) in *.
  pose proof (fold16_range (p + w) ltac:(lia)) as Hf. exists (65535 - fold16 (p + w)). assert (is_u16 (65535 - fold16 (p + w))) as Kc by (unfold is_u16; lia).
  split; [done|]. unfold fill_checksum, verify_checksum. rewrite S by done. cbn [mbind option_bind]. rewrite !P by done. cbn [mbind option_bind].
  rewrite Z.add_0_r, fold16_complement by lia. by rewrite S.
Qed.

Lemma read32 v : wrap_i32 v = v -> read_i32 (be32 (wrap32 v)) = Some v.
Proof.
  intros K. rewrite <- (app_nil_r (be32 _)), read_i32_be by apply wrap32_range. f_equal. rewrite <- K at 2. apply wrap_i32_mod.
  unfold wrap32, u32_modulus. by rewrite Z.mod_mod.
Qed.

(** Parsing the bytes of a packet. *)
Lemma parse_packet_bytes r k ck src dst caps : wire_ok r -> length ck = 2%nat ->
  repr_header_len r = 20 + Z.of_nat (options_len (options_of r) + k) ->
  (checksum_rx caps = true -> verify_checksum (packet_bytes r k ck) src dst = Some true) ->
  new_checked (packet_bytes r k ck) = Some (Ok (packet_bytes r k ck)) /\ repr_parse (packet_bytes r k ck) src dst caps = Some (Ok r).
Proof.
  intros K L E C. pose proof (packet_bytes_layout r ck L) as Lo. pose proof (packet_bytes_length r k ck K L E) as Len.
  destruct (header_len_ok r K) as (_ & _ & _ & h & Eh & Hh). pose proof (found_options r K) as Fo. pose proof (options_of_ok r K) as Ko.
  pose proof (length_options _ Ko) as Lb. destruct (wo_fields r K) as [K1 K2 K3 K4 K5 K6 K7 K8].
  assert (repr_header_len r / 4 = h) as Eq by (rewrite Eh; div_lia). unfold repr_buffer_len, payload_len in Len.
  assert (pkt_header_len (packet_bytes r k ck) = Some (4 * h)) as Hn by (unfold packet_bytes; rewrite Eq in *; by apply header_len_layout).
  split.
  { unfold new_checked, check_len. rewrite Hn. destruct (Nat.ltb_spec (length (packet_bytes r k ck)) 20); [lia|]. cbn [mbind option_bind].
    destruct (Nat.ltb_spec (length (packet_bytes r k ck)) (Z.to_nat (4 * h))); [lia|]. by destruct (Z.ltb_spec (4 * h) 20); [lia|]. }
  set (buf := packet_bytes r k ck) in *. unfold is_port in *.
  assert (get_u16 buf SRC_PORT = Some (src_port r)) as F1 by (unfold get_u16, buf, packet_bytes; rewrite src_port_layout by done; apply read16; unfold is_u16; lia).
  assert (get_u16 buf DST_PORT = Some (dst_port r)) as F2 by (unfold get_u16, buf, packet_bytes; rewrite dst_port_layout by done; apply read16; unfold is_u16; lia).
  assert (pkt_seq_number buf = Some (seq_number r)) as F3 by (unfold pkt_seq_number, buf, packet_bytes; rewrite seq_layout by done; by apply read32).
  assert (pkt_ack_number buf = Some (default 0 (ack_number r))) as F4
    by (unfold pkt_ack_number, buf, packet_bytes; rewrite ack_layout by done; apply read32; by destruct (ack_number r)).
  assert (get_u16 buf FLAGS = Some (flags_word h (control r) (is_some (ack_number r)))) as F5
    by (unfold get_u16, buf, packet_bytes; rewrite flags_layout by done; rewrite Eq; by apply read16, flags_word_u16).
  assert (pkt_window_len buf = Some (window_len r)) as F6 by (unfold pkt_window_len, get_u16, buf, packet_bytes; rewrite win_layout by done; by apply read16).
  destruct (flags_word_read h (control r) (is_some (ack_number r)) Hh) as (_ & R1 & R2). cbv zeta in R1, R2.
  set (o := concat (opt_bytes <$> options_of r) ++ replicate k 0). assert (length o = (options_len (options_of r) + k)%nat) as Lop
    by (subst o; rewrite length_app, length_replicate, Lb; done).
  destruct (body_layout _ _ _ _ _ _ _ _ _ Lo o (payload r) (app_assoc _ _ _)) as [B1 B2].
  change (slice buf 20 (20 + length o) = Some o) in B1. change (slice buf (20 + length o) (20 + length (concat (opt_bytes <$> options_of r) ++ replicate k 0%Z ++ payload r)) = Some (payload r)) in B2.
  unfold repr_parse, pkt_src_port, pkt_dst_port, pkt_syn, pkt_fin, pkt_rst, pkt_psh, pkt_ack, flag, pkt_options, pkt_payload.
  rewrite F1, F2, F5, Hn. cbn [mbind option_bind]. rewrite (proj2 (Z.eqb_neq _ 0)), (proj2 (Z.eqb_neq _ 0)) by lia.
  assert ((if checksum_rx caps then ok ← verify_checksum buf src dst; Some (negb ok) else Some false) = Some false) as ->
    by (destruct (checksum_rx caps); [by rewrite C|done]).
  cbn [mbind option_bind]. rewrite R1, R2, F4. cbn [mbind option_bind].
  assert ((if is_some (ack_number r) then Some (Some (default 0 (ack_number r))) else Some None) = Some (ack_number r)) as ->
    by (by destruct (ack_number r)).
  cbn [mbind option_bind]. replace (Z.to_nat (4 * h)) with (20 + length o)%nat by lia. rewrite B1. cbn [mbind option_bind]. subst o.
  rewrite parse_options_emitted by (done || rewrite length_app, length_replicate; lia). cbn [mbind option_bind]. rewrite Fo, F3, F6. cbn [mbind option_bind].
  rewrite (layout_length _ _ _ _ _ _ _ _ _ Lo : length buf = _). rewrite B2. by destruct r.
Qed.

Lemma emit_parse_ok r buf src dst caps caps' : wire_ok r -> bytes buf -> Z.of_nat (length buf) = repr_buffer_len r ->
  is_v6 src = is_v6 dst -> (checksum_rx caps' = true -> checksum_tx caps = true) ->
  exists out, repr_emit r buf src dst caps = Some out /\ length out = length buf /\ bytes out /\
    new_checked out = Some (Ok out) /\ repr_parse out src dst caps' = Some (Ok r).
Proof.
  intros K F L V C. destruct (repr_emit_bytes r buf src dst caps K F L) as (k & ck & Lc & E & ->).
  destruct (checksum_tx caps) eqn:T.
  - destruct (fill_checksum_ok r k ck src dst K Lc E V) as (c & Kc & -> & Vc). eexists. split; [done|].
    pose proof (packet_bytes_length r k (be16 c) K ltac:(done) E). split; [lia|]. split; [by apply bytes_packet, bytes_be16|].
    by apply parse_packet_bytes.
  - assert (set_checksum (packet_bytes r k ck) 0 = Some (packet_bytes r k (be16 0))) as ->
      by (unfold packet_bytes; rewrite set_checksum_layout; [done|by apply packet_bytes_layout|done]).
    eexists. split; [done|]. pose proof (packet_bytes_length r k (be16 0) K ltac:(done) E). split; [lia|]. split; [by apply bytes_packet, bytes_be16|].
    apply parse_packet_bytes; [done..|]. intros R. by specialize (C R).
Qed.

(** C13: A segment survives the wire: emitted into any buffer of the right size, it parses back
    to exactly itself, options, flags, wrapped sequence numbers and checksum included. *)
Theorem emit_parse_roundtrip r buf src dst caps caps' : wire_ok r -> bytes buf -> Z.of_nat (length buf) = repr_buffer_len r ->
  is_v6 src = is_v6 dst -> (checksum_rx caps' = true -> checksum_tx caps = true) ->
  exists out, repr_emit r buf src dst caps = Some out /\ length out = length buf /\ bytes out /\
    new_checked out = Some (Ok out) /\ repr_parse out src dst caps' = Some (Ok r).
Proof.
  intros K F L V C. apply (emit_parse_ok r buf src dst caps caps' K F L V C).
Qed.
End trip.

Definition trip_repr : TcpRepr := mkRepr 5000 80 CSyn (-5) None 65535 (Some 14) (Some 1460) true no_sack [1; 2; 3].

Lemma emit_parse_roundtrip_witness : exists out,
  repr_emit (H := network_endian) trip_repr (replicate 35 7) (mkAddr false 1) (mkAddr false 2) Both = Some out /\ length out = 35%nat /\ bytes out /\
  new_checked (H := network_endian) out = Some (Ok out) /\ repr_parse (H := network_endian) out (mkAddr false 1) (mkAddr false 2) Both = Some (Ok trip_repr).
Proof.
  apply (emit_parse_roundtrip (BE := network_endian_ok) trip_repr (replicate 35 7) (mkAddr false 1) (mkAddr false 2) Both Both); try done.
  - constructor; [constructor; try done; by repeat constructor| |done]. exists []. split; [split; [simpl; lia|constructor]|]. by split; [|left].
  - by repeat constructor.
Defined.

(** The packets of the tests of wire/tcp.rs ([test_emit], [test_parse]). *)
Definition SYN_PACKET_BYTES : list Z :=
  [0xbf; 0x00; 0x00; 0x50; 0x01; 0x23; 0x45; 0x67; 0x00; 0x00; 0x00; 0x00; 0x50; 0x02; 0x01; 0x23; 0x7a; 0x8d; 0x00; 0x00; 0xaa; 0x00; 0x00; 0xff].
Definition packet_repr : TcpRepr :=
  mkRepr 48896 80 CSyn 0x01234567 None 0x0123 None None false no_sack [0xaa; 0x00; 0x00; 0xff].
Definition SRC_ADDR : IpAddress := mkAddr false 0xc0a80101.
Definition DST_ADDR : IpAddress := mkAddr false 0xc0a80102.

Example source_test_vectors :
  repr_emit (H := network_endian) packet_repr (replicate 24 0xa5) SRC_ADDR DST_ADDR Both = Some SYN_PACKET_BYTES /\
  repr_parse (H := network_endian) SYN_PACKET_BYTES SRC_ADDR DST_ADDR Both = Some (Ok packet_repr).
Proof. by vm_compute. Qed.
