(* ===== verification/TcpSendable.v ===== *)
(** Every segment a TCP socket sends can be written on the wire (TcpWireSpec.v): its ports are
    not 0, its numbers fit their fields, its window scale is one the parser keeps, its
    payload consists of bytes. *)

From stdpp Require Import base numbers option list.
From S2P Require Import Prelude Slice Assembler SockBuf TcpSeq TcpSocket TcpProcess TcpDispatch.
From S2P Require Import Wire TcpWire TcpWireSpec.

Definition ports_ok (o : option Tuple) : Prop :=
  match o with Some t => is_port (ep_port (local t)) /\ is_port (ep_port (remote t)) | None => True end.

(** What sending relies on.  The capacity is less than 2^30: for exactly 2^30 the scale would
    be 15, which the parser reads as 14. *)
Definition sendable (s : Socket) : Prop :=
  ports_ok (tuple s) /\ 0 <= remote_win_shift (acks s) <= 14 /\ bytes (storage (tx_buffer (tx s))) /\
  Z.of_nat (length (storage (rx_buffer (rx s)))) < 2 ^ 30 /\
  wrap_i32 (remote_last_seq (tx s)) = remote_last_seq (tx s) /\ wrap_i32 (local_seq_no (tx s)) = local_seq_no (tx s).

(** One goal for each part of [sendable]. *)
Ltac parts := split; [|split; [|split; [|split; [|split]]]]; try done.

Definition mtu_ok (cx : Context) : Prop := 60 <= ip_mtu cx <= 65535.

(** A packet the parser gives back. *)
Definition readable (p : Packet) : Prop := wire_ok (snd p) /\ is_v6 (src_addr (fst p)) = is_v6 (dst_addr (fst p)).

(** The result of an operation. *)
Definition sends (x : option (Socket * option Packet)) : Prop :=
  match x with Some (s, o) => sendable s /\ (forall p, o = Some p -> readable p) | None => True end.

Lemma seq_add_wrap a n b : seq_add a n = Some b -> wrap_i32 b = b.
Proof. unfold seq_add. destruct (_ <? _); [done|]. intros [= <-]. apply wrap_i32_small, wrap_i32_range. Qed.
Lemma seq_sub_wrap a n b : seq_sub a n = Some b -> wrap_i32 b = b.
Proof. unfold seq_sub. destruct (_ <? _); [done|]. intros [= <-]. apply wrap_i32_small, wrap_i32_range. Qed.

Lemma scaled_window_u16 s w : scaled_window s = Some w -> is_u16 w.
Proof.
  unfold scaled_window. intros (n & _ & E)%bind_Some. injection E as <-. assert (0 <= Z.shiftr (Z.of_nat n) (remote_win_shift (acks s)))
    by (apply Z.shiftr_nonneg; lia). unfold is_u16. lia.
Qed.

Lemma win_shift_range n : Z.of_nat n < 2 ^ 30 -> 0 <= win_shift n <= 14.
Proof.
  intros H. unfold win_shift, saturating_sub. destruct (Nat.eqb_spec n 0); [lia|].
  assert (Z.log2 (Z.of_nat n) < 30) by (apply Z.log2_lt_pow2; lia). pose proof (Z.log2_nonneg (Z.of_nat n)). lia.
Qed.

(** ** Replies *)

Lemma sack_of_fits s a x : sack_of s a = Some x -> ranges_fit [x].
Proof.
  unfold sack_of. set (l := (fun '(x, y) => (wrap32 x, wrap32 y)) <$> _).
  assert (forall y, y ∈ l -> ranges_fit [y]) as A.
  { intros y (z & -> & _)%list_elem_of_fmap. destruct z. split; [simpl; lia|]. repeat constructor; apply wrap32_range. }
  intros E. apply A. destruct (local_rx_last_seq (rx s)) as [q|]; simpl in E.
  - destruct (List.find _ l) as [y|] eqn:F; [injection E as <-; apply List.find_some in F as [F _]; by apply list_elem_of_In|by apply head_Some_elem_of].
  - by apply head_Some_elem_of.
Qed.

Lemma reply_readable ip r c seq ack win sack p : fields_ok r -> reply ip r c seq ack win sack = Some p -> wrap_i32 seq = seq ->
  match ack with Some a => wrap_i32 a = a | None => True end -> is_u16 win ->
  match sack with Some x => ranges_fit [x] /\ is_some ack = true | None => True end -> readable p.
Proof.
  intros F E Ks Ka Kw Kr. unfold reply in E. apply bind_Some in E as (ip' & E1 & E). injection E as <-. unfold ip_new in E1.
  destruct (eqb _ _) eqn:V; [|done]. injection E1 as <-. split; [|by apply eqb_prop].
  constructor; simpl; [constructor; simpl; try done; try apply F; constructor|..].
  - destruct sack as [x|]; [exists [x]; split; [apply Kr|]; split; [done|]; right; split; [apply Kr|done]|].
    exists []. split; [split; [simpl; lia|constructor]|]. by split; [|left].
  - unfold repr_buffer_len, payload_len. by destruct sack.
Qed.

Lemma ack_reply_sends s ip r : sendable s -> fields_ok r ->
  match ack_reply s ip r with Some (s', p) => sendable s' /\ readable p | None => True end.
Proof.
  intros S F. destruct (ack_reply s ip r) as [[s' p]|] eqn:E; [|done]. unfold ack_reply in E.
  apply bind_Some in E as (a & Ea & E). apply bind_Some in E as (w & Ew & E). apply bind_Some in E as (q & Eq & E). injection E as <- <-.
  split; [exact S|]. eapply reply_readable; [exact F|exact Eq|apply S|by eapply seq_add_wrap|by eapply scaled_window_u16|].
  destruct (if remote_has_sack _ then _ else _) as [x|] eqn:X; [|done]. split; [|done]. destruct (remote_has_sack _); [|done]. by eapply sack_of_fits.
Qed.

Lemma challenge_sends cx s ip r : sendable s -> fields_ok r -> sends (challenge_ack_reply cx s ip r).
Proof.
  intros S F. unfold challenge_ack_reply. destruct (_ <? _); [done|].
  pose proof (ack_reply_sends (set_challenge_ack_timer s (now cx + millis 1000)) ip r S F) as A.
  destruct (ack_reply _ ip r) as [[s' p]|]; [|done]. destruct A. split; [done|]. by intros ? [= <-].
Qed.

Lemma rst_reply_readable ip r p : fields_ok r -> rst_reply ip r = Some p -> readable p.
Proof.
  intros F E. unfold rst_reply in E. case_bool_decide; [done|]. apply bind_Some in E as (a & Ea & E).
  eapply reply_readable; [exact F|exact E|pose proof (fo_ack _ F); by destruct (ack_number r)| |done|done].
  destruct (_ && _); [|by injection Ea as <-]. apply bind_Some in Ea as (b & Eb & [= <-]). by eapply seq_add_wrap.
Qed.

(** ** Receiving *)

Definition step_sends {A} (x : option (Step A)) : Prop := match x with Some (Return s o) => sends (Some (s, o)) | _ => True end.

Lemma check_ack_sends cx s ip r : sendable s -> fields_ok r -> step_sends (check_ack cx s ip r).
Proof.
  intros S F. unfold check_ack. destruct (seq_add _ 1) as [n|]; [|done]. cbn [mbind option_bind].
  assert (step_sends (p ← rst_reply ip r; Some (@Return unit s (Some p)))) as R.
  { destruct (rst_reply ip r) as [p|] eqn:E; [|done]. split; [done|]. intros ? [= <-]. by eapply rst_reply_readable. }
  assert (step_sends ('(s', p) ← challenge_ack_reply cx s ip r; Some (@Return unit s' p))) as C.
  { pose proof (challenge_sends cx s ip r S F) as C. by destruct (challenge_ack_reply cx s ip r) as [[s' p]|]. }
  destruct (state s), (control r), (ack_number r) as [a|]; try done; try (by destruct (_ =? _));
    destruct (seq_add _ _) as [m|]; try done; cbn [mbind option_bind]; destruct (seq_lt _ _); try done; by destruct (seq_gt _ _).
Qed.

Lemma check_window_sends cx s ip r : sendable s -> fields_ok r ->
  step_sends (check_window cx s ip r) /\ (forall s' l n, check_window cx s ip r = Some (Go (s', l, n)) -> sendable s').
Proof.
  intros S F. unfold check_window. destruct (seq_add _ (rx_len s)) as [ws|]; [|done]. destruct (seq_add _ (Z.of_nat _)) as [we|]; [|done].
  destruct (seq_add _ (segment_len r)) as [se|]; [|done]. cbn [mbind option_bind].
  set (x := ok ← segment_in_window _ _ _ _; _).
  assert (step_sends x /\ forall s' l n, x = Some (Go (s', l, n)) -> sendable s') as X.
  { subst x. destruct (segment_in_window _ _ _ _) as [[]|]; [..|done]; cbn [mbind option_bind].
    - destruct (overlap ws we r) as [[l n]|]; [|done]. split; [done|]. by intros ? ? ? [= <- _ _].
    - pose proof (challenge_sends cx (if is_state s TimeWait then set_timer s (set_for_close (now cx)) else s) ip r) as C.
      destruct (challenge_ack_reply _ _ _ _) as [[s' p]|]; [|done]. split; [|done]. apply C; [by destruct (is_state s TimeWait)|done]. }
  destruct (state s); try done; by split; [|intros ? ? ? [= <- _ _]].
Qed.

Lemma acked_sends cx s r s' n f a : sendable s -> acked cx s r = Some (s', n, f, a) -> sendable s'.
Proof.
  intros S. unfold acked. case_bool_decide; [by intros [= <- _ _ _]|]. destruct (ack_number r); [|by intros [= <- _ _ _]].
  intros (b & _ & E)%bind_Some. apply bind_Some in E as ([[n' f'] a'] & _ & E). by injection E as <- _ _ _.
Qed.

Lemma take_scale_sends s r : sendable s -> sendable (take_scale s r).
Proof.
  intros S. unfold take_scale. destruct (window_scale r); [exact S|]. destruct S as (A & _ & C). split; [exact A|]. split; [simpl; lia|exact C].
Qed.

Lemma take_mss_sends s r s' : sendable s -> take_mss s r = Some s' -> sendable s'.
Proof. intros S. unfold take_mss. destruct (max_seg_size r) as [m|]; [destruct (m =? 0); [done|]|]; by intros [= <-]. Qed.

Lemma take_fin_sends s s' : sendable s -> take_fin s = Some s' -> sendable s'.
Proof. intros S (n & _ & [= <-])%bind_Some. done. Qed.

Lemma transition_sends cx s ip r c f a s' go : sendable s -> fields_ok r -> transition cx s ip r c f a = Some (s', go) -> sendable s'.
Proof.
  intros S F. assert (forall s t, sendable s -> ports_ok t -> sendable (set_tuple s t)) as T by (intros ? ? (_ & H) ?; by split).
  unfold transition. destruct (state s), c; try (intros [= <- _]; first [exact S|by apply T]);
    try (intros (x & E & [= <- _])%bind_Some; pose proof (take_fin_sends _ _ S E); first [done|by destruct f]);
    try (destruct f; intros [= <- _]; first [exact S|by apply T]).
  - destruct (take_mss s r) as [s1|] eqn:M; [|by intros [= <- _]]. pose proof (take_mss_sends _ _ _ S M) as S1.
    intros (n & _ & [= <- _])%bind_Some. apply (take_scale_sends _ r). destruct S1 as (_ & B & C & D & E & _).
    parts; [split; apply F|apply wrap_i32_small, wrap_i32_range..].
  - destruct (take_mss s r) as [s1|] eqn:M; [|by intros [= <- _]]. pose proof (take_mss_sends _ _ _ S M) as S1.
    intros (n & _ & E)%bind_Some. apply bind_Some in E as (l & El & [= <- _]). apply (take_scale_sends _ r).
    destruct S1 as (A & B & C & D & E & G). parts. by eapply seq_add_wrap.
  - destruct (_ || _); by intros [= <- _].
  - destruct f, a; by intros [= <- _].
Qed.

Lemma update_remote_sends cx s r n s' u : sendable s -> update_remote cx s r n = Some (s', u) -> sendable s'.
Proof.
  intros S. unfold update_remote. destruct (0 <? n); [|by intros [= <- _]]. destruct (_ <? n); [done|].
  intros (b & Eb & [= <- _])%bind_Some. unfold dequeue_allocated in Eb. destruct (_ <? _)%nat; [done|]. injection Eb as <-. exact S.
Qed.

Lemma take_ack_sends s r u : sendable s -> fields_ok r -> sendable (take_ack s r u).
Proof.
  intros S F. unfold take_ack. pose proof (fo_ack _ F) as Ka. destruct (ack_number r) as [a|]; [|done]. match goal with |- context [set_local_seq_no ?x a] => set (s1 := x) end.
  assert (sendable s1) as S1 by (subst s1; destruct (match _ with Some _ => _ | None => _ end); [destruct (_ =? 3)|]; exact S).
  clearbody s1. destruct S1 as (A & B & C & D & E & _). destruct (seq_lt _ _); parts.
Qed.

Lemma copy_in_length l i b l' : copy_in l i b = Some l' -> length l' = length l.
Proof. unfold copy_in. destruct (Nat.leb_spec (i + length b) (length l)); [|done]. intros [= <-]. by apply spliced_length. Qed.

Lemma write_unallocated_length b off data b' n : write_unallocated b off data = Some (b', n) -> length (storage b') = length (storage b).
Proof.
  assert (forall b off data b' n, write_chunk b off data = Some (b', n) -> length (storage b') = length (storage b)) as W.
  { clear. intros b off data b' n. unfold write_chunk. intros ([st k] & _ & E)%bind_Some. apply bind_Some in E as (l & El & [= <- _]).
    simpl. by eapply copy_in_length. }
  unfold write_unallocated. intros ([b1 n1] & E1 & E)%bind_Some. apply bind_Some in E as ([b2 n2] & E2 & [= <- _]).
  by rewrite (W _ _ _ _ _ E2), (W _ _ _ _ _ E1).
Qed.

Lemma take_payload_sends s l n s' : sendable s -> take_payload s l n = Some (Some s') -> sendable s'.
Proof.
  intros (A & B & C & D & E & G). unfold take_payload. intros (o & _ & H)%bind_Some. destruct o as [[a k]|]; [|done].
  apply bind_Some in H as ([b w] & Eb & H). apply write_unallocated_length in Eb. destruct (negb _); [done|].
  assert (Z.of_nat (length (storage b)) < 2 ^ 30) by (rewrite Eb; exact D).
  destruct (k =? 0); [injection H as <-; parts|]. apply bind_Some in H as (b' & Eb' & [= <-]). unfold enqueue_unallocated in Eb'.
  apply bind_Some in Eb' as (w' & _ & Eb'). destruct (_ <? _)%nat; [done|]. injection Eb' as <-. parts.
Qed.

Lemma receive_sends cx s ip r l n : sendable s -> fields_ok r -> sends (receive cx s ip r l n).
Proof.
  intros S F. unfold receive. destruct (_ =? 0)%nat; [done|]. destruct (assembler_is_empty _) as [e|]; [|done]. cbn [mbind option_bind].
  destruct (take_payload s l n) as [[s1|]|] eqn:E; [|done..]. pose proof (take_payload_sends _ _ _ _ S E) as S1. cbn [mbind option_bind].
  destruct (delay_ack cx s1) as [s2|] eqn:E2; [|done]. cbn [mbind option_bind].
  assert (sendable s2) as S2.
  { unfold delay_ack in E2. destruct (ack_delay _); [|by injection E2 as <-]. apply bind_Some in E2 as (x & _ & E2).
    apply bind_Some in E2 as (y & _ & [= <-]). by destruct (_ || _). }
  destruct (assembler_is_empty _) as [e'|]; [|done]. cbn [mbind option_bind]. destruct (_ || _); [|done].
  pose proof (ack_reply_sends s2 ip r S2 F) as A. destruct (ack_reply s2 ip r) as [[s3 p]|]; [|done]. destruct A. split; [done|]. by intros ? [= <-].
Qed.

Lemma process_sends cx s ip r : sendable s -> fields_ok r -> sends (process cx s ip r).
Proof.
  intros S F. unfold process. destruct (negb _); [done|]. pose proof (check_ack_sends cx s ip r S F) as C1.
  destruct (check_ack cx s ip r) as [[u0|]|]; [|exact C1|done]. cbn [mbind option_bind].
  destruct (check_window_sends cx s ip r S F) as [C2 C3]. destruct (check_window cx s ip r) as [[[[s1 l] n]|]|]; [|exact C2|done].
  specialize (C3 _ _ _ eq_refl). cbn [mbind option_bind]. destruct (acked cx s1 r) as [[[[s2 k] f] a]|] eqn:E2; [|done].
  pose proof (acked_sends _ _ _ _ _ _ _ C3 E2) as S2. cbn [mbind option_bind]. destruct (effective_control s2 r) as [c|]; [|done]. cbn [mbind option_bind].
  destruct (transition cx s2 ip r c f a) as [[s3 go]|] eqn:E3; [|done]. pose proof (transition_sends _ _ _ _ _ _ _ _ _ S2 F E3) as S3.
  cbn [mbind option_bind]. destruct (negb go); [done|]. destruct (update_remote cx s3 r k) as [[s4 u]|] eqn:E4; [|done].
  pose proof (update_remote_sends _ _ _ _ _ _ S3 E4) as S4. cbn [mbind option_bind]. apply receive_sends; [by apply take_ack_sends|done].
Qed.

(** ** Transmitting *)

Lemma reset_sends s : sendable s -> sendable (reset s).
Proof. intros (_ & _ & C & D & _). parts. by apply win_shift_range. Qed.

Lemma run_timers_sends cx s s' : sendable s -> run_timers cx s = Some s' -> sendable s'.
Proof.
  intros S. unfold run_timers. set (s1 := match remote_last_ts s with None => _ | Some _ => _ end).
  assert (sendable s1) as S1 by (subst s1; by destruct (remote_last_ts s)). clearbody s1. destruct (timed_out _ _); [by intros [= <-]|].
  intros (x & _ & [= <-])%bind_Some. destruct x; [done|]. destruct (should_retransmit _ _); [|done]. destruct S1 as (A & B & C & D & E & F). parts.
Qed.

Lemma get_allocated_bytes b off n l : bytes (storage b) -> get_allocated b off n = Some l -> bytes l /\ (length l <= n)%nat.
Proof.
  intros F. unfold get_allocated. destruct (_ <? _)%nat; [intros [= <-]; split; [constructor|simpl; lia]|].
  intros (u & _ & E)%bind_Some. unfold copy_out in E. destruct (_ <=? _)%nat; [|done]. injection E as <-.
  split; [auto with bytes|]. rewrite length_take. lia.
Qed.

(** A segment fits the MTU, and what it needs of the wire but the size of its payload. *)
Lemma make_segment_sends cx s t r : sendable s -> mtu_ok cx -> ports_ok (Some t) -> make_segment cx s t = Some (Some r) ->
  fields_ok r /\ sack_ranges r = no_sack /\ max_seg_size r = None /\ payload_len r <= 65495 /\
  (payload r <> [] -> window_scale r = None /\ sack_permitted r = false /\ control r <> CSyn).
Proof.
  intros (A & B & C & D & E & G) M [P1 P2]. unfold make_segment. intros (ack & Ea & H)%bind_Some. apply bind_Some in H as (w & Ew & H).
  apply bind_Some in H as (n & En & H). apply seq_add_wrap in Ea. apply scaled_window_u16 in Ew.
  assert (is_u16 (Z.min (Z.of_nat n) 65535)) as Kn by (unfold is_u16; lia).
  assert (forall c a v sc sk, match a with Some a => wrap_i32 a = a | None => True end -> is_u16 v ->
    match sc with Some x => 0 <= x <= 14 | None => True end ->
    let r := mkRepr (ep_port (local t)) (ep_port (remote t)) c (remote_last_seq (tx s)) a v sc None sk no_sack [] in
    fields_ok r /\ sack_ranges r = no_sack /\ max_seg_size r = None /\ payload_len r <= 65495 /\ (payload r <> [] -> window_scale r = None /\ sack_permitted r = false /\ control r <> CSyn)) as X.
  { intros c a v sc sk Ka Kv Ks r'. split; [constructor; try done; constructor|]. done. }
  assert (forall l c, data_segment cx s t = Some (l, c) -> let r := mkRepr (ep_port (local t)) (ep_port (remote t)) c (remote_last_seq (tx s)) (Some ack) w None None false no_sack l in
    fields_ok r /\ sack_ranges r = no_sack /\ max_seg_size r = None /\ payload_len r <= 65495 /\ (payload r <> [] -> window_scale r = None /\ sack_permitted r = false /\ control r <> CSyn)) as Y.
  { intros l c Ed. unfold data_segment in Ed. apply bind_Some in Ed as (e & _ & Ed). apply bind_Some in Ed as (lim & _ & Ed).
    apply bind_Some in Ed as (off & _ & Ed). apply bind_Some in Ed as (l' & El & Ed). cbv zeta in Ed. injection Ed as -> <-. apply get_allocated_bytes in El as [Fl Ll]; [|done].
    split; [by constructor|]. split; [done|]. split; [done|]. split; [|intros _; split; [done|]; split; [done|]; simpl; by repeat case_match].
    unfold payload_len. simpl.
    unfold local_mss, mtu_ok, ip_header_len, TCP_HEADER_LEN in *. destruct (is_v6 _); rewrite !usize_sub_small in Ll; rewrite ?usize_sub_small;
      unfold is_usize, usize_modulus; lia. }
  destruct (state s) eqn:St; try (injection H as <-; by apply X);
    try (apply bind_Some in H as ([l c] & Ed & [= <-]); by apply Y); try done.
  injection H as <-. apply X; try done. by destruct (remote_win_scale _).
Qed.

Lemma plain_wire_ok r : fields_ok r -> sack_ranges r = no_sack -> payload_len r <= 65495 ->
  (payload_len r <= 1 \/ repr_header_len r = 20) -> wire_ok r.
Proof.
  intros F S L H. constructor; [done|exists []; split; [split; [simpl; lia|constructor]|]; split; [done|by left]|].
  unfold repr_buffer_len. destruct H as [H|H]; [|rewrite H; lia].
  assert (repr_header_len r <= 32); [|lia]. unfold repr_header_len. rewrite S.
  by destruct (is_some (max_seg_size r)), (is_some (window_scale r)), (sack_permitted r).
Qed.

(** The segment that is handed to the device: a probe instead of an empty one, the MSS with a
    SYN. *)
Lemma final_wire_ok r r1 m (probe : bool) : fields_ok r -> sack_ranges r = no_sack -> max_seg_size r = None -> payload_len r <= 65495 ->
  (payload r <> [] -> window_scale r = None /\ sack_permitted r = false /\ control r <> CSyn) -> (probe = true -> repr_is_empty r = true) ->
  (if probe then q ← seq_sub (seq_number r) 1; Some (as_probe r q) else Some r) = Some r1 -> is_u16 m ->
  wire_ok (if bool_decide (control r1 = CSyn) then with_mss r1 m else r1).
Proof.
  intros F S X L H E E1 Km. pose proof F as [F1 F2 F3 F4 F5 F6 F7 F8]. destruct probe.
  - specialize (E eq_refl). apply bind_Some in E1 as (q & Eq & [= <-]). apply seq_sub_wrap in Eq.
    assert (control r <> CSyn) as N by (intros C; unfold repr_is_empty in E; rewrite C in E; by destruct (negb _)).
    rewrite bool_decide_false by done. apply plain_wire_ok; [constructor; try done; by repeat constructor|done|done|by left].
  - injection E1 as <-. case_bool_decide as C.
    + assert (payload r = []) as P by (destruct (decide (payload r = [])) as [|N]; [done|by destruct (H N) as (_ & _ & ?)]).
      apply plain_wire_ok; [by constructor|done|done|left; unfold payload_len; simpl; rewrite P; done].
    + apply plain_wire_ok; [done..|]. destruct (decide (payload r = [])) as [P|N]; [left; unfold payload_len; by rewrite P|right].
      destruct (H N) as (E1 & E2 & _). unfold repr_header_len. by rewrite S, X, E1, E2.
Qed.

Lemma sent_sends cx s r s' : sendable s -> sent cx s r = Some s' -> sendable s'.
Proof.
  intros (A & B & C & D & E & F). unfold sent. intros (n & En & H)%bind_Some. apply seq_add_wrap in En. apply bind_Some in H as (x & _ & [= <-]).
  match goal with |- sendable (if is_state ?x Closed then _ else _) => set (s1 := x) end.
  assert (sendable s1) as S1 by (subst s1; destruct (0 <? _), (negb x); parts). clearbody s1. destruct (is_state s1 Closed); [|done].
  destruct S1 as (_ & B1 & C1 & D1 & E1 & F1). parts.
Qed.

Lemma dispatch_sends cx s emits : sendable s -> mtu_ok cx -> sends (dispatch cx s emits).
Proof.
  intros S M. unfold dispatch. destruct (tuple s) as [t|] eqn:Et; [|done]. assert (ports_ok (Some t)) as P by (rewrite <- Et; apply S).
  destruct (run_timers cx s) as [s1|] eqn:E1; [|done]. pose proof (run_timers_sends _ _ _ S E1) as S1. cbn [mbind option_bind].
  destruct (plan cx s1) as [[| |]|]; [|by split; [apply reset_sends|]|done|done]. cbn [mbind option_bind].
  unfold ip_new. destruct (eqb _ _) eqn:V; [|done]. apply eqb_prop in V. cbn [mbind option_bind].
  destruct (make_segment cx s1 t) as [[r|]|] eqn:E2; [|done|done]. destruct (make_segment_sends cx s1 t r S1 M P E2) as (F & N & X & L & H).
  cbn [mbind option_bind]. set (probe := should_keep_alive _ _ && repr_is_empty r).
  destruct (if probe then _ else _) as [r1|] eqn:E3; [|done]. cbn [mbind option_bind].
  pose proof (final_wire_ok r r1 (local_mss cx (ep_addr (local t)) mod 2 ^ 16) probe F N X L H) as W.
  specialize (W ltac:(by intros [_ ?]%andb_true_iff) E3 (Z.mod_pos_bound _ (2 ^ 16) eq_refl)).
  set (r2 := if bool_decide (control r1 = CSyn) then _ else r1) in *. clearbody r2.
  destruct (negb emits); [done|]. destruct probe; [split; [exact S1|]; by intros ? [= <-]|].
  destruct (sent cx _ r2) as [s2|] eqn:E4; [|done]. split; [|by intros ? [= <-]]. eapply sent_sends; [|exact E4]. exact S1.
Qed.

(** ** Calls *)

Lemma send_slice_sends s data s' r : sendable s -> bytes data -> send_slice s data = Some (s', r) -> sendable s'.
Proof.
  assert (forall b f b' n, bytes (storage b) -> (forall l, bytes l -> bytes (fst (f l))) -> enqueue_many_with b f = Some (b', n) -> bytes (storage b')) as Q.
  { intros b f b' n Fb Ff E. unfold enqueue_many_with in E. set (b0 := (if (buf_len b =? 0)%nat then _ else _) : SocketBuffer) in E.
    assert (bytes (storage b0)) as F0 by (subst b0; by destruct (_ =? 0)%nat). clearbody b0.
    apply bind_Some in E as (w & _ & E). apply bind_Some in E as (sl & Es & E). specialize (Ff sl). destruct (f sl) as [sl' k].
    apply bind_Some in E as (st & Est & E). destruct (_ <? _)%nat; [done|]. injection E as <- _. simpl.
    unfold copy_out in Es. destruct (_ <=? _)%nat; [|done]. injection Es as <-. specialize (Ff ltac:(auto with bytes)). simpl in Ff.
    unfold copy_in in Est. destruct (_ <=? _)%nat; [|done]. injection Est as <-. auto with bytes. }
  assert (forall d l, bytes d -> bytes l -> bytes (fst (fill d l))) as Fi.
  { intros d l Fd Fl. unfold fill. simpl. auto with bytes. }
  intros (A & B & C & D & E & G) F. unfold send_slice, send_impl. destruct (negb _); [by intros [= <- _]|].
  set (s1 := (if buf_is_empty _ then _ else _) : Socket). assert (tx s1 = tx s) as T by (subst s1; by destruct (buf_is_empty _)).
  assert (sendable s1) as S1 by (subst s1; destruct (buf_is_empty _); parts). intros ([b n] & Eb & [= <- _])%bind_Some.
  unfold enqueue_slice in Eb. apply bind_Some in Eb as ([b1 n1] & E1 & Eb). apply bind_Some in Eb as ([b2 n2] & E2 & [= <- _]).
  rewrite T in E1. apply Q in E1; [|done|intros; by apply Fi]. apply Q in E2; [|done|intros; apply Fi; auto with bytes].
  destruct S1 as (A1 & B1 & C1 & D1 & E1' & F1). parts.
Qed.

Lemma recv_slice_sends s want s' r : sendable s -> recv_slice s want = Some (s', r) -> sendable s'.
Proof.
  assert (forall b f b' l, dequeue_many_with b f = Some (b', l) -> storage b' = storage b) as Q.
  { intros b f b' l E. unfold dequeue_many_with in E. apply bind_Some in E as (e & _ & E). apply bind_Some in E as (sl & _ & E).
    destruct (_ <? _)%nat; [done|]. by apply bind_Some in E as (n & _ & [= <- _]). }
  intros (A & B & C & D & E & G). unfold recv_slice, recv_impl. destruct (recv_error_check s); [by intros [= <- _]|].
  intros ([b l] & Eb & H)%bind_Some. apply bind_Some in H as (n & _ & [= <- _]). unfold dequeue_slice in Eb.
  apply bind_Some in Eb as ([b1 l1] & E1 & Eb). apply bind_Some in Eb as ([b2 l2] & E2 & [= <- _]). apply Q in E1, E2. parts.
  simpl. by rewrite E2, E1.
Qed.
