(* ===== verification/TcpIface.v ===== *)
(** TCP between the sockets and the wire (dependency/smoltcp/src/iface/interface/mod.rs,
    [process_tcp] and the TCP part of [emit_payload]): a host that receives arbitrary bytes,
    and two hosts that exchange the bytes of their segments. *)

From stdpp Require Import base numbers option list.
From S2P Require Import Prelude Slice Assembler AssemblerSpec SockBuf.
From S2P Require Import TcpSeq TcpSocket TcpProcess TcpDispatch TcpInv TcpSafe TcpOut TcpStream TcpFlow TcpNet.
From S2P Require Import Wire TcpWire TcpWireSpec TcpWireTrip TcpSendable.
#[local] Open Scope machine_scope.

Definition with_window (r : TcpRepr) (w : Z) : TcpRepr :=
  mkRepr (src_port r) (dst_port r) (control r) (seq_number r) (ack_number r) w (window_scale r) (max_seg_size r)
    (sack_permitted r) (sack_ranges r) (payload r).

Section iface.
Context `{ByteOrder}.

(** [check!]: a packet that does not parse is dropped. *)
Definition process_tcp (cx : Context) (caps : Checksum) (sockets : list Socket) (ip : IpRepr) (ip_payload : list Z)
    : option (list Socket * option Packet) :=
  c ← new_checked ip_payload;
  match c with
  | Err _ => Some (sockets, None)
  | Ok tcp_packet =>
      r ← repr_parse tcp_packet (src_addr ip) (dst_addr ip) caps;
      match r with
      | Err _ => Some (sockets, None)
      | Ok tcp_repr => demux cx sockets ip tcp_repr
      end
  end.

(** The device may limit a burst of segments, and with it the window. *)
Definition emit_payload (ip : IpRepr) (r : TcpRepr) (buf : list Z) (mtu : Z) (max_burst_size : option Z) (caps : Checksum) : option (list Z) :=
  let r := match max_burst_size with
           | Some burst =>
               let max_segment_size := mtu -w ip_header_len (src_addr ip) -w repr_header_len r in
               let max_window_size := burst *w max_segment_size in
               if max_window_size <? window_len r then with_window r (wrap16 max_window_size) else r
           | None => r
           end in
  repr_emit r buf (src_addr ip) (dst_addr ip) caps.

(** ** A host *)

Inductive host_event :=
| HCall (i : nat) (e : tcp_event)
| HPacket (cx : Context) (ip : IpRepr) (ip_payload : list Z).

Definition host_step (caps : Checksum) (h : list Socket) (e : host_event) : option (list Socket) :=
  match e with
  | HCall i e => match h !! i with Some s => s ← tcp_step s e; Some (<[i := s]> h) | None => Some h end
  | HPacket cx ip l => fst <$> process_tcp cx caps h ip l
  end.

Fixpoint host_run (caps : Checksum) (h : list Socket) (evs : list host_event) : option (list Socket) :=
  match evs with
  | [] => Some h
  | e :: evs => h ← host_step caps h e; host_run caps h evs
  end.

(** Segments reach a socket as packets only; a packet is what an IP packet can carry. *)
Definition host_event_ok (e : host_event) : Prop :=
  match e with
  | HCall _ (ESegment _ _ _) => False
  | HCall _ _ => True
  | HPacket _ ip l => bytes l /\ Z.of_nat (length l) <= 65535 /\ is_v6 (src_addr ip) = is_v6 (dst_addr ip)
  end.
End iface.

Definition new_socket (spec : nat * list Z * list Z) : option Socket := let '(n, rxs, txs) := spec in socket_new n rxs txs.
Definition spec_ok (spec : nat * list Z * list Z) : Prop := let '(n, rxs, txs) := spec in sized n rxs txs.

Lemma new_sockets_ok specs : Forall spec_ok specs -> exists h, mapM new_socket specs = Some h /\ Forall sock_ok h /\ length h = length specs.
Proof.
  induction 1 as [|[[n rxs] txs] specs (S1 & S2 & S3) F (h & E & K & L)]; [by exists []|].
  destruct (socket_new_ok n rxs txs S1 S2 S3) as (s & Es & Ks & _). exists (s :: h). simpl in *. rewrite Es. simpl. rewrite E. simpl.
  split; [done|]. split; [by constructor|]. by f_equal.
Qed.

Section host.
Context `{B : ByteOrder} {BE : BigEndian}.

Lemma parsed_packet_ok ip r n : fields_ok r -> (length (payload r) <= n)%nat -> Z.of_nat n <= 65535 -> is_v6 (src_addr ip) = is_v6 (dst_addr ip) -> packet_ok ip r.
Proof. intros [F1 F2 F3 F4 F5 F6 F7 F8] L Ln V. constructor; try done. unfold payload_len. lia. Qed.

(** Whatever the bytes, a packet is handled. *)
Lemma process_tcp_ok cx caps h ip l : Forall sock_ok h -> bytes l -> Z.of_nat (length l) <= 65535 -> is_v6 (src_addr ip) = is_v6 (dst_addr ip) ->
  exists h' o, process_tcp cx caps h ip l = Some (h', o) /\ Forall sock_ok h' /\ length h' = length h.
Proof.
  intros K F L V. unfold process_tcp, new_checked. destruct (check_len_ok l F) as (c & -> & C). cbn [mbind option_bind].
  destruct c as [[]|]; [|by eexists _, _]. destruct (C eq_refl) as (n & Hn & Rn & Ln).
  destruct (repr_parse_ok l (src_addr ip) (dst_addr ip) caps n F ltac:(lia) V Hn Rn Ln) as (r & -> & P). cbn [mbind option_bind].
  destruct r as [r|]; [|by eexists _, _]. destruct P as [Fr Lr].
  destruct (demux_ok cx h ip r K (parsed_packet_ok ip r (length l) Fr Lr L V)) as (h' & o & E & K' & D). exists h', o. split_and!; [done|done|].
  destruct D as [(pre & s & s' & post & -> & -> & _)|(-> & _)]; [by rewrite !length_app|done].
Qed.

Lemma host_step_ok caps h e : Forall sock_ok h -> host_event_ok e ->
  exists h', host_step caps h e = Some h' /\ Forall sock_ok h' /\ length h' = length h.
Proof.
  intros K Ev. destruct e as [i e|cx ip l]; cbn [host_step].
  - destruct (h !! i) as [s|] eqn:E; [|by exists h]. assert (sock_ok s) as Ks by (by eapply Forall_lookup_1).
    destruct (tcp_step_ok s e Ks) as (s' & -> & K'); [by destruct e|]. eexists. split; [done|].
    split; [by apply Forall_insert|by apply length_insert].
  - destruct Ev as (F & L & V). destruct (process_tcp_ok cx caps h ip l K F L V) as (h' & o & -> & K' & L'). by exists h'.
Qed.

Lemma host_run_ok caps evs : forall h, Forall sock_ok h -> Forall host_event_ok evs ->
  exists h', host_run caps h evs = Some h' /\ Forall sock_ok h' /\ length h' = length h.
Proof.
  induction evs as [|e evs IH]; intros h K F; [by exists h|]. apply Forall_cons in F as [Fe F].
  destruct (host_step_ok caps h e K Fe) as (h1 & E1 & K1 & L1). destruct (IH h1 K1 F) as (h2 & E2 & K2 & L2). exists h2. simpl. rewrite E1.
  split_and!; [done|done|congruence].
Qed.

(** C12: No packet makes a host panic.  A host with any number of TCP sockets is given packets
    of arbitrary bytes, well-formed or not, between any calls of its programs, polls and
    transmissions: parsing, the search for a socket and every state of every socket deal
    with them without an index out of range, an underflow or a failed assertion. *)
Theorem host_no_panic caps specs evs : Forall spec_ok specs -> Forall host_event_ok evs ->
  exists h0 h, mapM new_socket specs = Some h0 /\ host_run caps h0 evs = Some h /\ Forall sock_ok h /\ length h = length specs.
Proof.
  intros S F. destruct (new_sockets_ok specs S) as (h0 & E0 & K0 & L0). destruct (host_run_ok caps evs h0 K0 F) as (h & E & K & L).
  exists h0, h. split_and!; [done|done|done|congruence].
Qed.
End host.

(** ** Two hosts *)

(** As [ep_step], but a segment travels as the bytes its sender writes into a buffer of the
    device and its receiver parses. *)
Definition wire_step `{ByteOrder} (caps : Checksum) (m : Endpoint) (peer : list Packet) (e : net_event) : option Endpoint :=
  match e with
  | NDeliver cx k =>
      match peer !! k with
      | Some (ip, r) =>
          data ← emit_payload ip r (replicate (Z.to_nat (repr_buffer_len r)) 0) (ip_mtu cx) None caps;
          '(l, o) ← process_tcp cx caps [end_sock m] ip data;
          s ← head l;
          Some (mkEnd s (out m ++ option_list o) (wrote m) (got m) (ended m))
      | None => Some m
      end
  | _ => ep_step m peer e
  end.

Fixpoint wire_run `{ByteOrder} (caps : Checksum) (n : Net) (evs : list (bool * net_event)) : option Net :=
  match evs with
  | [] => Some n
  | (true, e) :: evs => a ← wire_step caps (fst n) (out (snd n)) e; wire_run caps (a, snd n) evs
  | (false, e) :: evs => b ← wire_step caps (snd n) (out (fst n)) e; wire_run caps (fst n, b) evs
  end.

(** Programs write bytes, and the device has an MTU an IP packet can have. *)
Definition wire_event_ok (e : bool * net_event) : Prop :=
  match snd e with
  | NSend data => bytes data
  | NDispatch cx _ | NDeliver cx _ => mtu_ok cx
  | _ => True
  end.

Definition sends_ok (m : Endpoint) : Prop := sendable (end_sock m) /\ Forall readable (out m).

Lemma readable_snoc l o : Forall readable l -> (forall p, o = Some p -> readable p) -> Forall readable (l ++ option_list o).
Proof. intros F R. apply Forall_app_2; [done|]. destruct o; simpl; [|constructor]. apply Forall_singleton. auto. Qed.

Lemma demux_sends cx s ip r l o : sendable s -> fields_ok r -> demux cx [s] ip r = Some (l, o) ->
  (forall s', head l = Some s' -> sendable s') /\ (forall p, o = Some p -> readable p).
Proof.
  intros S F. unfold demux, offer. destruct (accepts s ip r).
  - pose proof (process_sends cx s ip r S F) as P. destruct (process cx s ip r) as [[s' q]|]; [|done]. simpl. intros [= <- <-]. destruct P as [P1 P2].
    split; [by intros ? [= <-]|done].
  - simpl. case_bool_decide; [intros [= <- <-]; by split; [intros ? [= <-]|]|]. destruct (rst_reply ip r) as [p|] eqn:E; [|done]. simpl.
    intros [= <- <-]. split; [by intros ? [= <-]|]. intros ? [= <-]. by eapply rst_reply_readable.
Qed.

Lemma ep_step_sends m peer sd e m' : sends_ok m -> Forall readable peer -> wire_event_ok (sd, e) -> ep_step m peer e = Some m' -> sends_ok m'.
Proof.
  intros [S R] P W. unfold ep_step. destruct e; simpl in W.
  - intros ([s o] & E & [= <-])%bind_Some. split; [exact (send_slice_sends _ _ _ _ S W E)|done].
  - intros ([s o] & E & [= <-])%bind_Some. apply recv_slice_sends in E; [|done]. by destruct o as [|[]].
  - intros [= <-]. split; [|done]. simpl. unfold close. destruct (state (end_sock m)); exact S.
  - intros [= <-]. split; [exact S|done].
  - intros [= <-]. split; [exact S|done].
  - intros [= <-]. split; [exact S|done].
  - pose proof (dispatch_sends cx (end_sock m) emits S W) as D. intros ([s o] & E & [= <-])%bind_Some. rewrite E in D. destruct D as [D1 D2].
    split; [done|by apply readable_snoc].
  - destruct (peer !! k) as [[ip r]|] eqn:E; [|by intros [= <-]]. intros ([l o] & D & H)%bind_Some. apply bind_Some in H as (s & Hs & [= <-]).
    pose proof (Forall_lookup_1 _ _ _ _ P E) as [Wr _]. destruct (demux_sends _ _ _ _ _ _ S (wo_fields _ Wr) D) as [D1 D2].
    split; [by apply D1|by apply readable_snoc].
Qed.

Section wire_net.
Context `{B : ByteOrder} {BE : BigEndian}.

(** The bytes of a segment stand for the segment. *)
Lemma emitted_processed p mtu caps buf : readable p -> (checksum_rx caps = true -> checksum_tx caps = true) ->
  bytes buf -> Z.of_nat (length buf) = repr_buffer_len (snd p) ->
  exists data, emit_payload (fst p) (snd p) buf mtu None caps = Some data /\ bytes data /\
    forall cx h, process_tcp cx caps h (fst p) data = demux cx h (fst p) (snd p).
Proof.
  intros [W V] C F L. destruct (emit_parse_ok (snd p) buf (src_addr (fst p)) (dst_addr (fst p)) caps caps W F L V C) as (data & E & _ & Fd & N & P).
  exists data. split_and!; [exact E|done|]. intros cx h. unfold process_tcp. rewrite N. cbn [mbind option_bind]. by rewrite P.
Qed.

Lemma wire_step_eq caps m peer e : Forall readable peer -> (checksum_rx caps = true -> checksum_tx caps = true) ->
  wire_step caps m peer e = ep_step m peer e.
Proof.
  intros P C. destruct e; try done. unfold wire_step, ep_step. destruct (peer !! k) as [[ip r]|] eqn:E; [|done].
  pose proof (Forall_lookup_1 _ _ _ _ P E) as R.
  assert (0 <= repr_buffer_len r) as L0. { destruct (header_len_ok r (proj1 R)) as (x & _ & Eh & _). unfold repr_buffer_len, payload_len. lia. }
  destruct (emitted_processed (ip, r) (ip_mtu cx) caps (replicate (Z.to_nat (repr_buffer_len r)) 0) R C) as (data & Ed & _ & D).
  { auto with bytes. }
  { rewrite length_replicate. simpl. lia. }
  cbn [fst snd] in Ed, D. rewrite Ed. cbn [mbind option_bind]. by rewrite D.
Qed.

Lemma wire_run_eq caps evs : forall n, sends_ok (fst n) -> sends_ok (snd n) -> Forall wire_event_ok evs ->
  (checksum_rx caps = true -> checksum_tx caps = true) -> wire_run caps n evs = net_run n evs.
Proof.
  induction evs as [|[sd e] evs IH]; intros [a b] Sa Sb F C; [done|]. apply Forall_cons in F as [Fe F]. simpl in Sa, Sb.
  pose proof Sa as [_ Ra]. pose proof Sb as [_ Rb]. unfold net_run; fold net_run. unfold net_step. destruct sd; cbn [wire_run fst snd].
  - rewrite wire_step_eq by done. destruct (ep_step a (out b) e) as [a'|] eqn:E; [|done]. cbn [mbind option_bind]. apply IH; try done.
    exact (ep_step_sends _ _ _ _ _ Sa Rb Fe E).
  - rewrite wire_step_eq by done. destruct (ep_step b (out a) e) as [b'|] eqn:E; [|done]. cbn [mbind option_bind]. apply IH; try done.
    exact (ep_step_sends _ _ _ _ _ Sb Ra Fe E).
Qed.
End wire_net.

(** Ports of a program's endpoint, and buffers of bytes whose window scale the parser keeps. *)
Definition wire_start (rxs txs : list Z) (ports : list Z) : Prop :=
  Z.of_nat (length rxs) < 2 ^ 30 /\ bytes txs /\ Forall is_u16 ports.

Lemma new_sendable n rxs txs s : Z.of_nat (length rxs) < 2 ^ 30 -> bytes txs -> socket_new n rxs txs = Some s -> sendable s.
Proof. intros L F. unfold socket_new. destruct (_ <? _); [done|]. intros [= <-]. parts. simpl. by apply win_shift_range. Qed.

Lemma client_sends cx n rxs txs r l a : wire_start rxs txs [ep_port r; listen_port l] -> client cx n rxs txs r l = Some a -> sends_ok a.
Proof.
  intros (L & F & P). rewrite !Forall_cons in P. destruct P as (P1 & P2 & _). unfold client. intros (s & Es & E)%bind_Some.
  pose proof (new_sendable _ _ _ _ L F Es) as S. unfold connect in E. destruct (is_open s); [done|].
  destruct (Z.eqb_spec (ep_port r) 0); [done|]. destruct (is_unspecified _); [done|]. destruct (Z.eqb_spec (listen_port l) 0); [done|].
  destruct (match listen_addr l with Some _ => _ | None => _ end) as [x|]; [|done]. destruct (negb _); [done|]. injection E as <-.
  split; [|constructor]. destruct (reset_sends s S) as (_ & B & C & D & _). unfold is_u16 in *.
  parts; simpl; [split; simpl; unfold is_port; lia|apply wrap_i32_small, wrap_i32_range..].
Qed.

Lemma server_sends n rxs txs e b : wire_start rxs txs [] -> server n rxs txs e = Some b -> sends_ok b.
Proof.
  intros (L & F & _). unfold server. intros (s & Es & E)%bind_Some. pose proof (new_sendable _ _ _ _ L F Es) as S. unfold listen in E.
  destruct (listen_port e =? 0); [done|]. destruct (is_open s); [done|]. injection E as <-. split; [|constructor].
  destruct (reset_sends s S) as (_ & B & C & D & E1 & E2). parts.
Qed.

Section wire_theorem.
Context `{B : ByteOrder} {BE : BigEndian}.

(** C3: The network of bytes is the network of segments: a client and a server whose
    interfaces write every segment into a packet, header, options and checksum included,
    and parse every packet that arrives, go through exactly the states they would go
    through if the segments themselves were delivered. *)
Theorem wire_run_is_net_run caps cx n rxs txs r l n' rxs' txs' e a b evs :
  wire_start rxs txs [ep_port r; listen_port l] -> wire_start rxs' txs' [] ->
  client cx n rxs txs r l = Some a -> server n' rxs' txs' e = Some b ->
  Forall wire_event_ok evs -> (checksum_rx caps = true -> checksum_tx caps = true) ->
  wire_run caps (a, b) evs = net_run (a, b) evs.
Proof. intros A A' Ca Cb F C. apply wire_run_eq; try done; [by eapply client_sends|by eapply server_sends]. Qed.
End wire_theorem.

(** A server that gets junk, and the bytes of a SYN. *)
Definition junk_events : list host_event :=
  [HCall 0 (EListen (mkListen None 80)); HPacket (run_cx 1) (mkIp (mkAddr false 1) (mkAddr false 2)) [0; 80; 0; 80];
   HPacket (run_cx 2) (mkIp (mkAddr false 1) (mkAddr false 2))
     [19; 136; 0; 80; 255; 255; 255; 251; 0; 0; 0; 0; 128; 2; 255; 255; 104; 8; 0; 0; 2; 4; 5; 180; 3; 3; 14; 4; 2; 0; 0; 0];
   HCall 0 (EDispatch (run_cx 3) true); HCall 1 (EPoll (run_cx 4))].

Lemma host_no_panic_witness : exists h0 h, mapM new_socket [(4%nat, replicate 8 0, replicate 8 0); (4%nat, [], [])] = Some h0 /\
  host_run (H := network_endian) Neither h0 junk_events = Some h /\ Forall sock_ok h /\ length h = 2%nat.
Proof.
  apply (host_no_panic (BE := network_endian_ok) Neither [(4%nat, replicate 8 0, replicate 8 0); (4%nat, [], [])] junk_events).
  - repeat apply Forall_cons_2; try apply Forall_nil_2; (split; [lia|]; by rewrite ?length_replicate).
  - repeat apply Forall_cons_2; try apply Forall_nil_2; try done; (split; [by repeat constructor|done]).
Defined.

Lemma wire_run_is_net_run_witness : exists a b, run_client = Some a /\ run_server = Some b /\
  wire_run (H := network_endian) Both (a, b) run_events = net_run (a, b) run_events.
Proof.
  destruct run_client as [a|] eqn:A; [|by vm_compute in A]. destruct run_server as [b|] eqn:E; [|by vm_compute in E]. exists a, b. split; [done|]. split; [done|].
  eapply (wire_run_is_net_run (BE := network_endian_ok) Both) with (3 := A) (4 := E).
  - split; [done|]. split; [auto with bytes|]. by repeat constructor.
  - split; [done|]. split; [auto with bytes|constructor].
  - repeat apply Forall_cons_2; try apply Forall_nil_2; try done; by repeat constructor.
  - done.
Defined.
