(* ===== verification/Jbd2.v ===== *)
(** The on-disk format of the ext4 journal (dependency/another_ext4/src/jbd2.rs) and its
    checksum (dependency/another_ext4/src/ext4_defs/crc.rs).

    A block is the list of its bytes; offsets are [nat].  [None] is a panic, [Some (Err e)]
    an error: every slice of the source that is not taken with [get] is checked here. *)

From stdpp Require Import base numbers option list.
From S2P Require Import Prelude Slice.

Create HintDb no_panic.

(** ** Results *)

Inductive ErrCode := EIO | ENOTSUP | EINVAL | EROFS | EAGAIN | E2BIG | EFBIG.

Definition res (A : Type) : Type := option (result A ErrCode).

#[export] Instance res_ret : MRet res := fun A a => Some (Ok a).
#[export] Instance res_bind : MBind res := fun A B f m =>
  match m with None => None | Some (Err e) => Some (Err e) | Some (Ok a) => f a end.

Lemma bind_ok {A B} (a : A) (f : A -> res B) : mbind (M := res) f (mret a) = f a.
Proof. done. Qed.

Lemma bind_via {A B C} (m : res A) (f : A -> res B) (g : B -> res C) b : m ≫= f = mret b -> (m ≫= fun a => f a ≫= g) = g b.
Proof. unfold mbind, res_bind. destruct m as [[a|e]|]; [|done|done]. by intros ->. Qed.
Lemma bind_Ok {A B} (m : res A) (f : A -> res B) b : m ≫= f = Some (Ok b) -> exists a, m = mret a /\ f a = Some (Ok b).
Proof. unfold mbind, res_bind. destruct m as [[a|e]|]; [|done|done]. by exists a. Qed.

Lemma bind_ext {A B} (m : res A) (f g : A -> res B) : (forall a, f a = g a) -> m ≫= f = m ≫= g.
Proof. intros H. unfold mbind, res_bind. destruct m as [[a|e]|]; [apply H|done|done]. Qed.
Lemma ret_inj {A} (a b : A) : (mret a : res A) = mret b -> a = b.
Proof. unfold mret, res_ret. congruence. Qed.

Definition err {A} (e : ErrCode) : res A := Some (Err e).
Definition malformed {A} : res A := err EIO.
Definition unsupported {A} : res A := err ENOTSUP.

(** ** Bytes *)

(** [&l[a..b]]. *)
Definition range (l : list Z) (a b : nat) : res (list Z) :=
  if ((a <=? b) && (b <=? length l))%nat then mret (sl l a b) else None.

(** [l[t..t + bs.len()].copy_from_slice(bs)]. *)
Definition put (l : list Z) (t : nat) (bs : list Z) : res (list Z) :=
  if (t + length bs <=? length l)%nat then mret (spliced l t bs) else None.

(** [l.get(a..b).ok_or_else(eio)]. *)
Definition get (l : list Z) (a b : nat) : res (list Z) :=
  if ((a <=? b) && (b <=? length l))%nat then mret (sl l a b) else malformed.

Definition from_be (l : list Z) : Z := foldl (fun v b => v * 256 + b) 0 l.

Fixpoint to_be (n : nat) (v : Z) : list Z :=
  match n with 0%nat => [] | S n => v / 256 ^ Z.of_nat n mod 256 :: to_be n v end.

Definition need (bytes : list Z) (len : nat) : res unit :=
  if (length bytes <? len)%nat then malformed else mret tt.

Definition be16 (bytes : list Z) (off : nat) : res Z := s ← get bytes off (off + 2); mret (from_be s).
Definition be32 (bytes : list Z) (off : nat) : res Z := s ← get bytes off (off + 4); mret (from_be s).
Definition be64 (bytes : list Z) (off : nat) : res Z := s ← get bytes off (off + 8); mret (from_be s).

Definition put32 (bytes : list Z) (off : nat) (value : Z) : res (list Z) :=
  if (off + 4 <=? length bytes)%nat then mret (spliced bytes off (to_be 4 value)) else malformed.

(** ** CRC32C *)

Definition CRC32C_TAB : list Z :=
  [0x00000000; 0xF26B8303; 0xE13B70F7; 0x1350F3F4; 0xC79A971F; 0x35F1141C; 0x26A1E7E8; 0xD4CA64EB;
   0x8AD958CF; 0x78B2DBCC; 0x6BE22838; 0x9989AB3B; 0x4D43CFD0; 0xBF284CD3; 0xAC78BF27; 0x5E133C24;
   0x105EC76F; 0xE235446C; 0xF165B798; 0x030E349B; 0xD7C45070; 0x25AFD373; 0x36FF2087; 0xC494A384;
   0x9A879FA0; 0x68EC1CA3; 0x7BBCEF57; 0x89D76C54; 0x5D1D08BF; 0xAF768BBC; 0xBC267848; 0x4E4DFB4B;
   0x20BD8EDE; 0xD2D60DDD; 0xC186FE29; 0x33ED7D2A; 0xE72719C1; 0x154C9AC2; 0x061C6936; 0xF477EA35;
   0xAA64D611; 0x580F5512; 0x4B5FA6E6; 0xB93425E5; 0x6DFE410E; 0x9F95C20D; 0x8CC531F9; 0x7EAEB2FA;
   0x30E349B1; 0xC288CAB2; 0xD1D83946; 0x23B3BA45; 0xF779DEAE; 0x05125DAD; 0x1642AE59; 0xE4292D5A;
   0xBA3A117E; 0x4851927D; 0x5B016189; 0xA96AE28A; 0x7DA08661; 0x8FCB0562; 0x9C9BF696; 0x6EF07595;
   0x417B1DBC; 0xB3109EBF; 0xA0406D4B; 0x522BEE48; 0x86E18AA3; 0x748A09A0; 0x67DAFA54; 0x95B17957;
   0xCBA24573; 0x39C9C670; 0x2A993584; 0xD8F2B687; 0x0C38D26C; 0xFE53516F; 0xED03A29B; 0x1F682198;
   0x5125DAD3; 0xA34E59D0; 0xB01EAA24; 0x42752927; 0x96BF4DCC; 0x64D4CECF; 0x77843D3B; 0x85EFBE38;
   0xDBFC821C; 0x2997011F; 0x3AC7F2EB; 0xC8AC71E8; 0x1C661503; 0xEE0D9600; 0xFD5D65F4; 0x0F36E6F7;
   0x61C69362; 0x93AD1061; 0x80FDE395; 0x72966096; 0xA65C047D; 0x5437877E; 0x4767748A; 0xB50CF789;
   0xEB1FCBAD; 0x197448AE; 0x0A24BB5A; 0xF84F3859; 0x2C855CB2; 0xDEEEDFB1; 0xCDBE2C45; 0x3FD5AF46;
   0x7198540D; 0x83F3D70E; 0x90A324FA; 0x62C8A7F9; 0xB602C312; 0x44694011; 0x5739B3E5; 0xA55230E6;
   0xFB410CC2; 0x092A8FC1; 0x1A7A7C35; 0xE811FF36; 0x3CDB9BDD; 0xCEB018DE; 0xDDE0EB2A; 0x2F8B6829;
   0x82F63B78; 0x709DB87B; 0x63CD4B8F; 0x91A6C88C; 0x456CAC67; 0xB7072F64; 0xA457DC90; 0x563C5F93;
   0x082F63B7; 0xFA44E0B4; 0xE9141340; 0x1B7F9043; 0xCFB5F4A8; 0x3DDE77AB; 0x2E8E845F; 0xDCE5075C;
   0x92A8FC17; 0x60C37F14; 0x73938CE0; 0x81F80FE3; 0x55326B08; 0xA759E80B; 0xB4091BFF; 0x466298FC;
   0x1871A4D8; 0xEA1A27DB; 0xF94AD42F; 0x0B21572C; 0xDFEB33C7; 0x2D80B0C4; 0x3ED04330; 0xCCBBC033;
   0xA24BB5A6; 0x502036A5; 0x4370C551; 0xB11B4652; 0x65D122B9; 0x97BAA1BA; 0x84EA524E; 0x7681D14D;
   0x2892ED69; 0xDAF96E6A; 0xC9A99D9E; 0x3BC21E9D; 0xEF087A76; 0x1D63F975; 0x0E330A81; 0xFC588982;
   0xB21572C9; 0x407EF1CA; 0x532E023E; 0xA145813D; 0x758FE5D6; 0x87E466D5; 0x94B49521; 0x66DF1622;
   0x38CC2A06; 0xCAA7A905; 0xD9F75AF1; 0x2B9CD9F2; 0xFF56BD19; 0x0D3D3E1A; 0x1E6DCDEE; 0xEC064EED;
   0xC38D26C4; 0x31E6A5C7; 0x22B65633; 0xD0DDD530; 0x0417B1DB; 0xF67C32D8; 0xE52CC12C; 0x1747422F;
   0x49547E0B; 0xBB3FFD08; 0xA86F0EFC; 0x5A048DFF; 0x8ECEE914; 0x7CA56A17; 0x6FF599E3; 0x9D9E1AE0;
   0xD3D3E1AB; 0x21B862A8; 0x32E8915C; 0xC083125F; 0x144976B4; 0xE622F5B7; 0xF5720643; 0x07198540;
   0x590AB964; 0xAB613A67; 0xB831C993; 0x4A5A4A90; 0x9E902E7B; 0x6CFBAD78; 0x7FAB5E8C; 0x8DC0DD8F;
   0xE330A81A; 0x115B2B19; 0x020BD8ED; 0xF0605BEE; 0x24AA3F05; 0xD6C1BC06; 0xC5914FF2; 0x37FACCF1;
   0x69E9F0D5; 0x9B8273D6; 0x88D28022; 0x7AB90321; 0xAE7367CA; 0x5C18E4C9; 0x4F48173D; 0xBD23943E;
   0xF36E6F75; 0x0105EC76; 0x12551F82; 0xE03E9C81; 0x34F4F86A; 0xC69F7B69; 0xD5CF889D; 0x27A40B9E;
   0x79B737BA; 0x8BDCB4B9; 0x988C474D; 0x6AE7C44E; 0xBE2DA0A5; 0x4C4623A6; 0x5F16D052; 0xAD7D5351].

Definition crc_byte (crc byte : Z) : Z :=
  Z.lxor (nth (Z.to_nat (Z.lxor (Z.land crc 0xff) byte)) CRC32C_TAB 0) (Z.shiftr crc 8).

Definition crc32 (crc_init : Z) (data : list Z) : Z := foldl crc_byte crc_init data.

(** ** Constants *)

Definition MAGIC : Z := 0xc03b3998.
Definition SUPERBLOCK_BYTES : nat := 1024.
Definition HEADER_BYTES : nat := 12.
Definition BLOCK_TAIL_BYTES : nat := 4.

Definition FEATURE_INCOMPAT_REVOKE : Z := 0x1.
Definition FEATURE_INCOMPAT_64BIT : Z := 0x2.
Definition FEATURE_INCOMPAT_CSUM_V3 : Z := 0x10.

Definition FLAG_ESCAPE : Z := 1.
Definition FLAG_SAME_UUID : Z := 2.
Definition FLAG_DELETED : Z := 4.
Definition FLAG_LAST_TAG : Z := 8.
Definition CRC32C_CHKSUM : Z := 4.
Definition U32_MAX : Z := 0xffffffff.

(** ** Headers *)

Inductive BlockType := Descriptor | Commit | SuperblockV1 | SuperblockV2 | Revoke.

#[export] Instance BlockType_eq_dec : EqDecision BlockType.
Proof. solve_decision. Defined.

Definition block_type_raw (t : BlockType) : Z :=
  match t with Descriptor => 1 | Commit => 2 | SuperblockV1 => 3 | SuperblockV2 => 4 | Revoke => 5 end.

Definition from_raw (raw : Z) : res BlockType :=
  if raw =? 1 then mret Descriptor else if raw =? 2 then mret Commit
  else if raw =? 3 then mret SuperblockV1 else if raw =? 4 then mret SuperblockV2
  else if raw =? 5 then mret Revoke else malformed.

Record Header := mk_header { block_type : BlockType; h_sequence : Z }.

Definition header_parse (bytes : list Z) : res Header :=
  need bytes HEADER_BYTES ;;
  magic ← be32 bytes 0;
  if negb (magic =? MAGIC) then malformed
  else
    raw ← be32 bytes 4; t ← from_raw raw;
    s ← be32 bytes 8; mret (mk_header t s).

Definition encode_into (h : Header) (bytes : list Z) : res (list Z) :=
  need bytes HEADER_BYTES ;;
  bytes ← put32 bytes 0 MAGIC;
  bytes ← put32 bytes 4 (block_type_raw (block_type h));
  put32 bytes 8 (h_sequence h).

(** ** Features *)

Inductive ChecksumMode := ChecksumNone | V3.

#[export] Instance ChecksumMode_eq_dec : EqDecision ChecksumMode.
Proof. solve_decision. Defined.

Record Features := mk_features { checksum : ChecksumMode; has_64bit : bool; has_revoke : bool }.

Definition validate_features (compat incompat ro_compat : Z) : res Features :=
  if negb (ro_compat =? 0) then unsupported
  else if negb (compat =? 0) then unsupported
  else
    let allowed := Z.lor FEATURE_INCOMPAT_REVOKE (Z.lor FEATURE_INCOMPAT_64BIT FEATURE_INCOMPAT_CSUM_V3) in
    if negb (Z.ldiff incompat allowed =? 0) then unsupported
    else
      mret (mk_features
        (if negb (Z.land incompat FEATURE_INCOMPAT_CSUM_V3 =? 0) then V3 else ChecksumNone)
        (negb (Z.land incompat FEATURE_INCOMPAT_64BIT =? 0))
        (negb (Z.land incompat FEATURE_INCOMPAT_REVOKE =? 0))).

Definition tag_bytes (f : Features) : nat :=
  match checksum f, has_64bit f with
  | V3, true => 16
  | V3, false => 16
  | ChecksumNone, true => 12
  | ChecksumNone, false => 8
  end.

Definition tail_bytes (f : Features) : nat := if decide (checksum f = V3) then BLOCK_TAIL_BYTES else 0.

Lemma tail_bytes_val f : tail_bytes f = match checksum f with V3 => 4%nat | ChecksumNone => 0%nat end.
Proof. unfold tail_bytes. by destruct (checksum f). Qed.

(** ** Checksums *)

Definition superblock_checksum (bytes : list Z) : res Z :=
  need bytes SUPERBLOCK_BYTES ;;
  a ← range bytes 0 252;
  b ← range bytes 256 SUPERBLOCK_BYTES;
  mret (crc32 (crc32 (crc32 U32_MAX a) (replicate 4 0)) b).

Definition block_checksum (seed : Z) (block : list Z) : res Z :=
  if (length block <? BLOCK_TAIL_BYTES)%nat then malformed
  else
    a ← range block 0 (length block - BLOCK_TAIL_BYTES);
    mret (crc32 (crc32 seed a) (replicate 4 0)).

Definition verify_block_checksum (seed : Z) (block : list Z) : res unit :=
  if (length block <? 4)%nat then malformed
  else
    provided ← be32 block (length block - 4);
    c ← block_checksum seed block;
    if negb (c =? provided) then malformed else mret tt.

Definition tag_checksum (seed sequence : Z) (data_block : list Z) : Z :=
  crc32 (crc32 seed (to_be 4 sequence)) data_block.

Definition checksum_seed (uuid : list Z) : Z := crc32 U32_MAX uuid.

Definition commit_checksum (seed : Z) (block : list Z) : res Z :=
  need block 20 ;;
  a ← range block 0 16;
  b ← range block 20 (length block);
  mret (crc32 (crc32 (crc32 seed a) (replicate 4 0)) b).

(** ** The superblock of the journal *)

Record Superblock := mk_superblock {
  block_size : Z;
  max_len : Z;
  first : Z;
  sequence : Z;
  start : Z;
  errno : Z;
  features : Features;
  uuid : list Z;
  checksum_type : Z;
}.

Definition superblock_parse (bytes : list Z) (expected_block_size : Z) : res Superblock :=
  need bytes SUPERBLOCK_BYTES ;;
  header ← header_parse bytes;
  if negb (bool_decide (block_type header = SuperblockV2)) then unsupported
  else
    block_size ← be32 bytes 12;
    max_len ← be32 bytes 16;
    first ← be32 bytes 20;
    start ← be32 bytes 28;
    if negb (block_size =? expected_block_size) || (block_size <? Z.of_nat SUPERBLOCK_BYTES) then unsupported
    else if (max_len <=? first) || (first =? 0) || (max_len <=? start) || (negb (start =? 0) && (start <? first))
    then malformed
    else
      compat ← be32 bytes 36;
      incompat ← be32 bytes 40;
      ro_compat ← be32 bytes 44;
      features ← validate_features compat incompat ro_compat;
      t ← range bytes 80 81;
      let checksum_type := from_be t in
      (match checksum features with
       | V3 =>
           if negb (checksum_type =? CRC32C_CHKSUM) then unsupported
           else
             c ← superblock_checksum bytes;
             provided ← be32 bytes 252;
             if negb (c =? provided) then malformed else mret tt
       | ChecksumNone => if negb (checksum_type =? 0) then unsupported else mret tt
       end : res unit) ;;
      uuid ← range bytes 48 64;
      sequence ← be32 bytes 24;
      errno ← be32 bytes 32;
      mret (mk_superblock block_size max_len first sequence start errno features uuid checksum_type).

(** ** Commit records *)

Record CommitHeader := mk_commit { c_sequence : Z; c_checksum : option Z; commit_sec : Z; commit_nsec : Z }.

Definition commit_parse (block : list Z) (f : Features) (expected_sequence seed : Z) : res CommitHeader :=
  need block 60 ;;
  header ← header_parse block;
  if negb (bool_decide (block_type header = Commit)) || negb (h_sequence header =? expected_sequence) then malformed
  else
    c ← (match checksum f with
         | V3 =>
             c ← commit_checksum seed block;
             provided ← be32 block 16;
             if negb (c =? provided) then malformed else mret (Some provided)
         | ChecksumNone => mret None
         end : res (option Z));
    sec ← be64 block 48;
    nsec ← be32 block 56;
    mret (mk_commit (h_sequence header) c sec nsec).

(** ** Revoke records *)

(** [while offset < count]; every round takes [width] bytes. *)
Fixpoint revoke_loop (fuel : nat) (block : list Z) (width count : nat) (target_blocks : Z) (offset : nat)
    : res (list Z) :=
  match fuel with
  | 0%nat => None
  | S fuel =>
      if (offset <? count)%nat then
        record ← (if (width =? 8)%nat then be64 block offset else be32 block offset);
        if target_blocks <=? record then malformed
        else
          records ← revoke_loop fuel block width count target_blocks (offset + width);
          mret (record :: records)
      else mret []
  end.

Definition parse_revoke_records (block : list Z) (f : Features) (expected_sequence target_blocks : Z)
    : res (list Z) :=
  if negb (has_revoke f) then unsupported
  else
    header ← header_parse block;
    if negb (bool_decide (block_type header = Revoke)) || negb (h_sequence header =? expected_sequence) then malformed
    else
      count ← be32 block 12;
      if (count <? 16) || (Z.of_nat (length block - tail_bytes f) <? count) then malformed
      else
        let width := if has_64bit f then 8%nat else 4%nat in
        let count := Z.to_nat count in
        if negb ((count - 16) mod width =? 0)%nat then malformed
        else revoke_loop (S count) block width count target_blocks 16.

(** ** Reading and writing integers *)

Lemma to_be_length n v : length (to_be n v) = n.
Proof. induction n; simpl; congruence. Qed.

Lemma foldl_be l v : foldl (fun v b => v * 256 + b) v l = v * 256 ^ Z.of_nat (length l) + from_be l.
Proof.
  unfold from_be. revert v. induction l as [|b l IH] using rev_ind; intros v; simpl; [lia|].
  rewrite !foldl_app, IH, length_app. simpl. rewrite Nat2Z.inj_add, Z.pow_add_r by lia. lia.
Qed.

Lemma from_be_to_be_mod n v : from_be (to_be n v) = v mod 256 ^ Z.of_nat n.
Proof.
  induction n as [|n IH]; [by rewrite Z.mod_1_r|]. change (from_be (to_be (S n) v))
    with (foldl (fun v b => v * 256 + b) (0 * 256 + v / 256 ^ Z.of_nat n mod 256) (to_be n v)).
  rewrite foldl_be, IH, to_be_length. replace (Z.of_nat (S n)) with (Z.of_nat n + 1) by lia.
  rewrite Z.pow_add_r, Z.pow_1_r, Z.rem_mul_r by lia. lia.
Qed.

Lemma from_be_to_be n v : 0 <= v < 256 ^ Z.of_nat n -> from_be (to_be n v) = v.
Proof. intros H. rewrite from_be_to_be_mod. by apply Z.mod_small. Qed.

Lemma from_be_bound l : Forall (fun b => 0 <= b < 256) l -> 0 <= from_be l < 256 ^ Z.of_nat (length l).
Proof.
  induction 1 as [|b l Hb H IH]; [done|]. unfold from_be. cbn [length foldl]. rewrite foldl_be.
  replace (Z.of_nat (S (length l))) with (Z.of_nat (length l) + 1) by lia. rewrite Z.pow_add_r, Z.pow_1_r by lia. nia.
Qed.

Lemma to_be_from_be l : Forall (fun b => 0 <= b < 256) l -> to_be (length l) (from_be l) = l.
Proof.
  intros H. assert (E : forall k, to_be (length l) (k * 256 ^ Z.of_nat (length l) + from_be l) = l).
  { induction H as [|b l Hb H IH]; intros k; [done|]. unfold from_be. cbn [length foldl to_be].
    rewrite foldl_be, Z.mul_0_l, Z.add_0_l. pose proof (from_be_bound l H) as R.
    replace (Z.of_nat (S (length l))) with (Z.of_nat (length l) + 1) by lia. rewrite Z.pow_add_r, Z.pow_1_r by lia.
    set (m := 256 ^ Z.of_nat (length l)) in *.
    replace (k * (m * 256) + (b * m + from_be l)) with ((k * 256 + b) * m + from_be l) by lia. f_equal.
    - rewrite Z.div_add_l, (Z.div_small (from_be l)), Z.add_0_r, Z.add_comm, Z.mod_add by lia. by apply Z.mod_small.
    - apply IH. }
  specialize (E 0). by rewrite Z.mul_0_l, Z.add_0_l in E.
Qed.

Lemma sl_app_at (l m r : list Z) : sl (l ++ m ++ r) (length l) (length l + length m) = m.
Proof. unfold sl. rewrite drop_app_length. replace (_ - _)%nat with (length m) by lia. apply take_app_length. Qed.

Lemma get_app l m r off n : off = length l -> n = length m -> get (l ++ m ++ r) off (off + n) = mret m.
Proof.
  intros -> ->. unfold get. rewrite sl_app_at, !length_app.
  by rewrite (proj2 (Nat.leb_le _ _)), (proj2 (Nat.leb_le _ _)) by lia.
Qed.

Lemma be16_app l v r off : off = length l -> 0 <= v < 2 ^ 16 -> be16 (l ++ to_be 2 v ++ r) off = mret v.
Proof.
  intros E H. unfold be16. rewrite (get_app l (to_be 2 v) r) by (by rewrite ?to_be_length).
  by rewrite bind_ok, (from_be_to_be 2).
Qed.
Lemma be32_app l v r off : off = length l -> is_u32 v -> be32 (l ++ to_be 4 v ++ r) off = mret v.
Proof.
  intros E H. unfold be32. rewrite (get_app l (to_be 4 v) r) by (by rewrite ?to_be_length).
  by rewrite bind_ok, (from_be_to_be 4).
Qed.

Lemma get_ok l a b : (a <= b <= length l)%nat -> get l a b = mret (sl l a b).
Proof. intros H. unfold get. by rewrite (proj2 (Nat.leb_le a b)), (proj2 (Nat.leb_le b _)) by lia. Qed.
Lemma range_ok l a b : (a <= b <= length l)%nat -> range l a b = mret (sl l a b).
Proof. intros H. unfold range. by rewrite (proj2 (Nat.leb_le a b)), (proj2 (Nat.leb_le b _)) by lia. Qed.
Lemma be32_ok l off : (off + 4 <= length l)%nat -> be32 l off = mret (from_be (sl l off (off + 4))).
Proof. intros H. unfold be32. by rewrite get_ok by lia. Qed.
Lemma put_at_ok l t bs : (t + length bs <= length l)%nat -> put l t bs = mret (spliced l t bs).
Proof. intros H. unfold put. by rewrite (proj2 (Nat.leb_le _ _)). Qed.

(** Writing into a block of zeros. *)
Lemma spliced_zeros l n g bs : (g + length bs <= n)%nat ->
  spliced (l ++ replicate n 0) (length l + g) bs = l ++ replicate g 0 ++ bs ++ replicate (n - g - length bs) 0.
Proof.
  intros H. unfold spliced. replace n with (g + (n - g))%nat by lia. rewrite replicate_add.
  rewrite take_app_add', take_app_length' by (rewrite ?length_replicate; lia).
  rewrite <- Nat.add_assoc, drop_app_add', drop_app_add' by (rewrite ?length_replicate; lia).
  rewrite drop_replicate. rewrite <- !app_assoc. do 4 f_equal. lia.
Qed.

Lemma put_gap l n off g bs : off = (length l + g)%nat -> (g + length bs <= n)%nat ->
  put (l ++ replicate n 0) off bs = mret (l ++ replicate g 0 ++ bs ++ replicate (n - g - length bs) 0).
Proof.
  intros -> H. rewrite put_at_ok by (rewrite length_app, length_replicate; lia). by rewrite spliced_zeros.
Qed.

Lemma put_zeros l n off bs : off = length l -> (length bs <= n)%nat ->
  put (l ++ replicate n 0) off bs = mret (l ++ bs ++ replicate (n - length bs) 0).
Proof.
  intros -> H. unfold put. rewrite length_app, length_replicate, (proj2 (Nat.leb_le _ _)) by lia.
  rewrite <- (Nat.add_0_r (length l)), (spliced_zeros l n 0) by lia. simpl. by rewrite Nat.sub_0_r.
Qed.

Lemma put32_zeros l n off v : off = length l -> (4 <= n)%nat ->
  put32 (l ++ replicate n 0) off v = mret (l ++ to_be 4 v ++ replicate (n - 4) 0).
Proof.
  intros -> H. unfold put32. rewrite length_app, length_replicate, (proj2 (Nat.leb_le _ _)) by lia.
  rewrite <- (Nat.add_0_r (length l)), (spliced_zeros l n 0) by (rewrite to_be_length; lia).
  rewrite to_be_length. simpl. by rewrite Nat.sub_0_r.
Qed.

(** ** Headers *)

Definition header_bytes (h : Header) : list Z :=
  to_be 4 MAGIC ++ to_be 4 (block_type_raw (block_type h)) ++ to_be 4 (h_sequence h).

Lemma header_bytes_length h : length (header_bytes h) = 12%nat.
Proof. unfold header_bytes. by rewrite !length_app, !to_be_length. Qed.

Lemma encode_into_zeros h n : (12 <= n)%nat ->
  encode_into h (replicate n 0) = mret (header_bytes h ++ replicate (n - 12) 0).
Proof.
  intros H. assert (H' : (4 <= n)%nat) by lia. unfold encode_into, need, HEADER_BYTES. rewrite length_replicate, (proj2 (Nat.ltb_ge _ _)) by lia.
  pose proof (put32_zeros [] n 0 MAGIC eq_refl H') as E0. rewrite !app_nil_l in E0. rewrite bind_ok, E0, bind_ok.
  rewrite put32_zeros, bind_ok, app_assoc by (rewrite ?to_be_length; lia).
  rewrite put32_zeros by (rewrite ?length_app, ?to_be_length; lia). unfold header_bytes.
  rewrite <- !app_assoc. do 5 f_equal. lia.
Qed.

Lemma header_parse_bytes h r : is_u32 (h_sequence h) -> header_parse (header_bytes h ++ r) = mret h.
Proof.
  intros Hs. unfold header_parse, need. rewrite length_app, header_bytes_length, (proj2 (Nat.ltb_ge _ _)) by (unfold HEADER_BYTES; lia).
  unfold header_bytes. rewrite <- !app_assoc.
  pose proof (be32_app [] MAGIC (to_be 4 (block_type_raw (block_type h)) ++ to_be 4 (h_sequence h) ++ r) 0 eq_refl) as E0.
  rewrite app_nil_l in E0. rewrite bind_ok, E0, bind_ok by done. rewrite Z.eqb_refl. cbn [negb].
  assert (T : is_u32 (block_type_raw (block_type h))) by (unfold is_u32, u32_modulus; destruct (block_type h); simpl; lia).
  rewrite (be32_app (to_be 4 MAGIC) _ _ 4 eq_refl T), bind_ok.
  rewrite app_assoc, (be32_app (to_be 4 MAGIC ++ to_be 4 _) _ _ 8 eq_refl Hs).
  destruct h as [[] s]; done.
Qed.

(** A block whose first bytes are not the magic number has no header. *)
Lemma header_parse_no_magic l : from_be (take 4 l) <> MAGIC -> exists e, header_parse l = Some (Err e).
Proof.
  intros H. unfold header_parse, need. destruct (_ <? _)%nat eqn:E; [by eexists|]. apply Nat.ltb_ge in E.
  unfold HEADER_BYTES in E. rewrite bind_ok, (be32_ok l 0), bind_ok by lia. change (sl l 0 (0 + 4)) with (take 4 l).
  rewrite (proj2 (Z.eqb_neq _ _) H). by eexists.
Qed.

(** ** No panics *)

Definition returns {A} (m : res A) : Prop := exists r, m = Some r.

Lemma returns_some {A} (r : result A ErrCode) : returns (Some r).
Proof. by eexists. Qed.
Lemma returns_bind {A B} (m : res A) (f : A -> res B) : returns m -> (forall a, returns (f a)) -> returns (m ≫= f).
Proof. intros [[a|e] ->] Hf; [apply Hf|by eexists]. Qed.
Lemma returns_if {A} (b : bool) (m n : res A) : returns m -> returns n -> returns (if b then m else n).
Proof. by destruct b. Qed.

Ltac no_panic :=
  repeat (apply returns_bind || apply returns_some || apply returns_if || intros ?); auto with no_panic.

Lemma get_returns l a b : returns (get l a b).
Proof. unfold get, malformed, err. no_panic. Qed.
Lemma be16_returns l off : returns (be16 l off).
Proof. unfold be16. apply returns_bind; [apply get_returns|no_panic]. Qed.
Lemma be32_returns l off : returns (be32 l off).
Proof. unfold be32. apply returns_bind; [apply get_returns|no_panic]. Qed.
Lemma be64_returns l off : returns (be64 l off).
Proof. unfold be64. apply returns_bind; [apply get_returns|no_panic]. Qed.
Lemma need_returns l n : returns (need l n).
Proof. unfold need, malformed, err. no_panic. Qed.
#[export] Hint Resolve get_returns be16_returns be32_returns be64_returns need_returns : no_panic.

Lemma header_parse_returns l : returns (header_parse l).
Proof. unfold header_parse, from_raw, malformed, err. no_panic. Qed.
#[export] Hint Resolve header_parse_returns : no_panic.

(** ** The checksum *)

(** CRC32C bit by bit, as its reflected polynomial defines it. *)
Definition crc_bit (x : Z) : Z :=
  if Z.odd x then Z.lxor (Z.shiftr x 1) 0x82F63B78 else Z.shiftr x 1.
Definition crc_ref (crc : Z) (data : list Z) : Z :=
  foldl (fun crc byte => Nat.iter 8 crc_bit (Z.lxor crc byte)) crc data.

Lemma crc_bit_lxor x y : crc_bit (Z.lxor x y) = Z.lxor (crc_bit x) (crc_bit y).
Proof.
  unfold crc_bit. rewrite Z.shiftr_lxor, <- !Z.bit0_odd, Z.lxor_spec.
  destruct (Z.testbit x 0), (Z.testbit y 0); simpl; apply Z.bits_inj; intros i; rewrite !Z.lxor_spec;
    by destruct (Z.testbit (Z.shiftr x 1) i), (Z.testbit (Z.shiftr y 1) i), (Z.testbit 2197175160 i).
Qed.

Lemma crc_bits_lxor n x y : Nat.iter n crc_bit (Z.lxor x y) = Z.lxor (Nat.iter n crc_bit x) (Nat.iter n crc_bit y).
Proof. induction n as [|n IH]; [done|]. simpl. by rewrite IH, crc_bit_lxor. Qed.

Lemma crc_bits_shifted n x : Nat.iter n crc_bit (Z.shiftl x (Z.of_nat n)) = x.
Proof.
  induction n as [|n IH]; [apply Z.shiftl_0_r|]. rewrite Nat.iter_succ_r.
  replace (crc_bit _) with (Z.shiftl x (Z.of_nat n)); [done|]. unfold crc_bit.
  rewrite <- Z.bit0_odd, Z.shiftl_spec_low by lia. rewrite Z.shiftr_shiftl_l by lia. f_equal. lia.
Qed.

Lemma crc_table_ok i : 0 <= i < 256 -> nth (Z.to_nat i) CRC32C_TAB 0 = Nat.iter 8 crc_bit i.
Proof.
  intros H. assert (T : forallb (fun n => nth n CRC32C_TAB 0 =? Nat.iter 8 crc_bit (Z.of_nat n)) (seq 0 256) = true)
    by (vm_compute; reflexivity).
  rewrite forallb_forall in T. specialize (T (Z.to_nat i)). rewrite Z2Nat.id in T by lia.
  apply Z.eqb_eq, T, in_seq. lia.
Qed.

Lemma crc_byte_ref crc byte : 0 <= byte < 256 -> crc_byte crc byte = Nat.iter 8 crc_bit (Z.lxor crc byte).
Proof.
  intros Hb. unfold crc_byte. set (x := Z.lxor crc byte).
  assert (Hl : Z.land x 255 = Z.lxor (Z.land crc 255) byte).
  { unfold x. rewrite <- (Z.mod_small byte 256) at 2 by done. change 256 with (2 ^ 8). rewrite <- Z.land_ones by lia.
    apply Z.bits_inj. intros i. change 255 with (Z.ones 8). rewrite !Z.land_spec, !Z.lxor_spec, !Z.land_spec.
    by destruct (Z.testbit crc i), (Z.testbit byte i), (Z.testbit (Z.ones 8) i). }
  assert (Hr : Z.shiftr x 8 = Z.shiftr crc 8).
  { unfold x. rewrite Z.shiftr_lxor, (Z.shiftr_div_pow2 byte), (Z.div_small byte) by lia. apply Z.lxor_0_r. }
  assert (Hx : x = Z.lxor (Z.land x 255) (Z.shiftl (Z.shiftr x 8) (Z.of_nat 8))).
  { apply Z.bits_inj. intros i. rewrite Z.lxor_spec, Z.land_spec. change 255 with (Z.ones 8).
    destruct (Z.ltb_spec i 0) as [N|N]; [by rewrite !Z.testbit_neg_r|].
    rewrite Z.shiftl_spec, Z.testbit_ones_nonneg by lia. destruct (Z.ltb_spec i 8) as [L|L].
    - rewrite (Z.testbit_neg_r _ (i - _)) by lia. by rewrite andb_true_r, xorb_false_r.
    - rewrite Z.shiftr_spec by lia. rewrite andb_false_r, xorb_false_l. f_equal. lia. }
  rewrite Hx, crc_bits_lxor, crc_bits_shifted, <- Hr, <- Hl, crc_table_ok; [done|].
  change 255 with (Z.ones 8). rewrite Z.land_ones by lia. apply Z.mod_pos_bound. lia.
Qed.

(** C0: the table-driven checksum of the journal is CRC32C: on bytes it agrees with the
    division by the reflected polynomial 0x82F63B78, one bit at a time. *)
Theorem crc32_is_crc32c init data : Forall (fun b => 0 <= b < 256) data -> crc32 init data = crc_ref init data.
Proof.
  intros H. unfold crc32, crc_ref. revert init. induction H as [|b data Hb _ IH]; intros init; [done|].
  simpl. by rewrite crc_byte_ref.
Qed.
(** The check value of CRC32C. *)
Lemma crc32_is_crc32c_witness :
  crc32 U32_MAX [49; 50; 51; 52; 53; 54; 55; 56; 57] = crc_ref U32_MAX [49; 50; 51; 52; 53; 54; 55; 56; 57]
  /\ Z.lxor (crc32 U32_MAX [49; 50; 51; 52; 53; 54; 55; 56; 57]) U32_MAX = 0xE3069283.
Proof.
  split; [|vm_compute; reflexivity]. apply crc32_is_crc32c. repeat constructor; lia.
Defined.

Lemma lxor_u32 x y : is_u32 x -> is_u32 y -> is_u32 (Z.lxor x y).
Proof.
  unfold is_u32, u32_modulus. intros Hx Hy. replace (Z.lxor x y) with (Z.lxor x y mod 2 ^ 32).
  { apply Z.mod_pos_bound. lia. }
  rewrite <- (Z.mod_small x (2 ^ 32)) at 2 by done. rewrite <- (Z.mod_small y (2 ^ 32)) at 2 by done.
  rewrite <- !Z.land_ones by lia. apply Z.bits_inj. intros i. rewrite !Z.land_spec, !Z.lxor_spec, !Z.land_spec.
  by destruct (Z.testbit x i), (Z.testbit y i), (Z.testbit (Z.ones 32) i).
Qed.

Lemma crc_table_u32 i : is_u32 (nth i CRC32C_TAB 0).
Proof.
  destruct (le_lt_dec (length CRC32C_TAB) i) as [H|H]; [by rewrite nth_overflow|].
  assert (T : Forall is_u32 CRC32C_TAB) by (unfold CRC32C_TAB, is_u32, u32_modulus; repeat constructor; lia).
  rewrite Forall_forall in T. apply T. apply list_elem_of_In, nth_In, H.
Qed.

Lemma crc32_u32 init data : is_u32 init -> is_u32 (crc32 init data).
Proof.
  unfold crc32. revert init. induction data as [|b data IH]; intros init H; [done|]. apply IH. apply lxor_u32; [apply crc_table_u32|].
  rewrite Z.shiftr_div_pow2 by lia. word_unfold. split; [apply Z.div_pos; lia|]. apply Z.div_lt_upper_bound; lia.
Qed.

Lemma checksum_seed_u32 uuid : is_u32 (checksum_seed uuid).
Proof. by apply crc32_u32. Qed.

#[global] Arguments to_be : simpl never.
#[global] Arguments from_be : simpl never.
#[global] Arguments header_bytes : simpl never.
#[global] Arguments crc32 : simpl never.
