(* ===== verification/JournalDev.v ===== *)
(** The block device under the ext4 journal (dependency/another_ext4/src/ext4_defs/block.rs,
    [BlockDevice]), with a volatile cache, faults and power loss.

    A device is what it held at first and the writes and flushes since.  A write reaches
    stable storage at the latest with the next successful flush, in any order with others
    of the same block-sized unit kept whole; after a power loss a block holds its stable
    contents or any later write to it ([crash_image]).  A failed write or flush may have
    taken effect or not.

    [does] describes a computation on a device: its answer and its writes when nothing
    fails, and that it stops with an error after some of these writes when something does. *)

From stdpp Require Import base numbers option list.
From S2P Require Import Prelude Slice Jbd2.

(** ** Computations with a state and errors *)

Definition sm (S E A : Type) : Type := S -> option (result A E * S).

#[export] Instance sm_ret {S E} : MRet (sm S E) := fun A a s => Some (Ok a, s).
#[export] Instance sm_bind {S E} : MBind (sm S E) := fun A B f m s =>
  match m s with
  | None => None
  | Some (Err e, s) => Some (Err e, s)
  | Some (Ok a, s) => f a s
  end.

Definition throw {S E A} (e : E) : sm S E A := fun s => Some (Err e, s).
Definition lift {S A} (r : res A) : sm S ErrCode A := fun s =>
  match r with None => None | Some r => Some (r, s) end.
Definition map_err {S E E' A} (f : E -> E') (m : sm S E A) : sm S E' A := fun s =>
  match m s with
  | None => None
  | Some (Ok a, s) => Some (Ok a, s)
  | Some (Err e, s) => Some (Err (f e), s)
  end.

(** ** The device *)

Definition BLOCK_SIZE : nat := Z.to_nat 4096.

Lemma block_size_val : Z.of_nat BLOCK_SIZE = 4096.
Proof. done. Qed.
#[global] Opaque BLOCK_SIZE.

Definition disk : Type := Z -> list Z.

Inductive fault := Works | Fails (took_effect : bool).

(** [Publish] marks the moment caches are updated; it does nothing to the device. *)
Inductive dop := Write (b : Z) (data : list Z) | Flush | Publish.
#[export] Instance dop_eq_dec : EqDecision dop.
Proof. solve_decision. Defined.

Record Device := mk_device {
  base : disk;
  trace : list dop;
  faults : list fault;
  reliable : bool;  (** [supports_reliable_flush] *)
}.

(** What a block holds, and what it may hold after a power loss. *)
Definition cell_step (b : Z) (c : list Z * list (list Z)) (op : dop) : list Z * list (list Z) :=
  match op with
  | Write b' v => if b' =? b then (v, v :: snd c) else c
  | Flush => (fst c, [fst c])
  | Publish => c
  end.
Definition cell (B : disk) (t : list dop) (b : Z) : list Z * list (list Z) := foldl (cell_step b) (B b, [B b]) t.

Definition content (B : disk) (t : list dop) (b : Z) : list Z := fst (cell B t b).
Definition crash_image (B : disk) (t : list dop) (img : disk) : Prop := forall b, img b ∈ snd (cell B t b).

Definition next_fault (d : Device) : fault * Device :=
  match faults d with
  | [] => (Works, d)
  | f :: fs => (f, mk_device (base d) (trace d) fs (reliable d))
  end.

Definition record (d : Device) (op : dop) : Device :=
  mk_device (base d) (trace d ++ [op]) (faults d) (reliable d).

Definition device_op (op : dop) : sm Device ErrCode unit := fun d =>
  match next_fault d with
  | (Works, d) => Some (Ok tt, record d op)
  | (Fails true, d) => Some (Err EIO, record d op)
  | (Fails false, d) => Some (Err EIO, d)
  end.

Definition read_block (b : Z) : sm Device ErrCode (list Z) := fun d =>
  match next_fault d with
  | (Works, d) => Some (Ok (content (base d) (trace d) b), d)
  | (Fails _, d) => Some (Err EIO, d)
  end.
Definition write_block (b : Z) (data : list Z) : sm Device ErrCode unit := device_op (Write b data).
Definition flush : sm Device ErrCode unit := device_op Flush.
Definition publish {E} : sm Device E unit := fun d => Some (Ok tt, record d Publish).

(** [slice::chunks]. *)
Fixpoint chunks_go {A} (fuel : nat) (n : nat) (l : list A) : list (list A) :=
  match fuel, l with
  | S fuel, _ :: _ => take n l :: chunks_go fuel n (drop n l)
  | _, _ => []
  end.
Definition chunks {A} (n : nat) (l : list A) : list (list A) := chunks_go (length l) n l.

Lemma chunks_go_spec {A} n (l : list A) : (0 < n)%nat -> forall fuel, (length l <= fuel)%nat ->
  concat (chunks_go fuel n l) = l /\ Forall (fun g => g <> [] /\ (length g <= n)%nat) (chunks_go fuel n l) /\
  length (chunks_go fuel n l) = ((length l + n - 1) / n)%nat.
Proof.
  intros Hn fuel. revert l. induction fuel as [|fuel IH]; intros l Hl.
  { destruct l; [|simpl in Hl; lia]. split_and!; [done|constructor|]. simpl. symmetry. apply Nat.div_small. lia. }
  destruct l as [|x l]; [split_and!; [done|constructor|]; simpl; symmetry; apply Nat.div_small; lia|].
  cbn [chunks_go]. destruct (IH (drop n (x :: l))) as (E1 & E2 & E3); [rewrite length_drop; simpl in *; lia|].
  cbn [concat length]. rewrite E1, E3. split_and!.
  - by rewrite take_drop.
  - constructor; [|done]. split; [destruct n; [lia|done]|]. rewrite length_take. lia.
  - rewrite length_drop. cbn [length]. destruct (le_lt_dec n (S (length l))) as [H|H].
    + replace (S (length l) + n - 1)%nat with ((S (length l) - n + n - 1) + 1 * n)%nat by lia.
      rewrite Nat.div_add by lia. lia.
    + replace (S (length l) - n)%nat with 0%nat by lia. rewrite Nat.div_small by lia.
      apply (Nat.div_unique _ _ _ (length l)); lia.
Qed.

Lemma chunks_spec {A} n (l : list A) : (0 < n)%nat ->
  concat (chunks n l) = l /\ Forall (fun g => g <> [] /\ (length g <= n)%nat) (chunks n l) /\
  length (chunks n l) = ((length l + n - 1) / n)%nat.
Proof. intros H. by apply chunks_go_spec. Qed.

(** [write_blocks]: a multiple of the block size, one block at a time. *)
Fixpoint write_chunks (block_id : Z) (l : list (list Z)) : sm Device ErrCode unit :=
  match l with
  | [] => mret tt
  | chunk :: l =>
      if block_id <=? usize_max then write_block block_id chunk ;; write_chunks (block_id + 1) l
      else throw EFBIG
  end.
Definition write_blocks (start : Z) (data : list Z) : sm Device ErrCode unit :=
  if ((length data =? 0) || negb (length data mod BLOCK_SIZE =? 0))%nat then throw EINVAL
  else write_chunks start (chunks BLOCK_SIZE data).

(** ** What blocks hold *)

Lemma cell_app B t t' b : cell B (t ++ t') b = foldl (cell_step b) (cell B t b) t'.
Proof. apply foldl_app. Qed.

Lemma content_snoc_write B t b v b' :
  content B (t ++ [Write b v]) b' = if b =? b' then v else content B t b'.
Proof. unfold content. rewrite cell_app. simpl. by destruct (b =? b'). Qed.

Lemma content_possible B t b : content B t b ∈ snd (cell B t b).
Proof.
  unfold content. induction t as [|op t IH] using rev_ind; [by left|].
  rewrite cell_app. destruct op as [b' v| |]; simpl; [destruct (b' =? b); [by left|done]|by left|done].
Qed.

(** Without a power loss. *)
Lemma content_crash_image B t : crash_image B t (content B t).
Proof. intros b. apply content_possible. Qed.

Lemma crash_nil B img : crash_image B [] img -> forall b, img b = B b.
Proof. intros H b. specialize (H b). by apply list_elem_of_singleton in H. Qed.

Lemma crash_flush B t img : crash_image B (t ++ [Flush]) img -> forall b, img b = content B t b.
Proof. intros H b. specialize (H b). rewrite cell_app in H. by apply list_elem_of_singleton in H. Qed.

(** Writes after a point where everything is stable. *)
Definition writes_of (ws : list dop) (b : Z) : list (list Z) :=
  omap (fun op => match op with Write b' v => if b' =? b then Some v else None | _ => None end) ws.

Lemma cell_writes b ws c : Flush ∉ ws ->
  snd (foldl (cell_step b) c ws) = reverse (writes_of ws b) ++ snd c.
Proof.
  revert c. induction ws as [|op ws IH]; intros c N; [done|]. apply not_elem_of_cons in N as [N1 N2].
  simpl. rewrite IH by done. unfold writes_of. destruct op as [b' v| |]; simpl; [|done|done].
  destruct (b' =? b); simpl; [|done]. by rewrite reverse_cons, <- app_assoc.
Qed.

Lemma content_writes B t ws b : Flush ∉ ws ->
  content B (t ++ ws) b = default (content B t b) (last (writes_of ws b)).
Proof.
  intros N. induction ws as [|op ws IH] using rev_ind; [by rewrite app_nil_r|].
  apply not_elem_of_app in N as [N1 N2]. rewrite app_assoc. unfold writes_of. rewrite omap_app.
  destruct op as [b' v| |]; simpl; [|by destruct N2; left|].
  - rewrite content_snoc_write. destruct (b' =? b); simpl.
    + by rewrite last_snoc.
    + rewrite app_nil_r. by apply IH.
  - rewrite app_nil_r. unfold content. rewrite cell_app. simpl. by apply IH.
Qed.

(** After a flush and further writes, a block holds what it held at the flush or one of the writes. *)
Lemma crash_writes B t ws img : Flush ∉ ws -> crash_image B (t ++ [Flush] ++ ws) img ->
  forall b, img b = content B t b \/ Write b (img b) ∈ ws.
Proof.
  intros N H b. specialize (H b). rewrite cell_app, foldl_app in H. rewrite cell_writes in H by done.
  apply elem_of_app in H as [H|H].
  - right. rewrite elem_of_reverse in H. apply list_elem_of_omap in H. destruct H as (op & Hop & E).
    destruct op as [b' v| |]; [|done|done]. destruct (Z.eqb_spec b' b) as [->|]; [|done]. by injection E as ->.
  - left. simpl in H. by apply list_elem_of_singleton in H.
Qed.

Lemma crash_first B ws img : Flush ∉ ws -> crash_image B ws img -> forall b, img b = B b \/ Write b (img b) ∈ ws.
Proof.
  intros N H. apply (crash_writes B [] ws img N). intros b. specialize (H b). by rewrite cell_app.
Qed.

Lemma content_flush B t b : content B (t ++ [Flush]) b = content B t b.
Proof. unfold content. by rewrite cell_app. Qed.
Lemma content_publish B t b : content B (t ++ [Publish]) b = content B t b.
Proof. unfold content. by rewrite cell_app. Qed.

(** A block that is not written after a flush. *)
Lemma crash_stable B t q b img : Forall (fun op => match op with Write b' _ => b' <> b | _ => True end) q ->
  crash_image B (t ++ [Flush] ++ q) img -> img b = content B t b.
Proof.
  intros Hq H. specialize (H b). rewrite cell_app, foldl_app in H. cbn [foldl cell_step] in H. unfold content.
  revert H. generalize (fst (cell B t b)) as x. induction Hq as [|op q Hop _ IH]; intros x H; [by apply list_elem_of_singleton in H|].
  cbn [foldl] in H. apply IH. destruct op as [b' v| |]; simpl in H; [by rewrite (proj2 (Z.eqb_neq _ _) Hop) in H|done|done].
Qed.

Lemma crash_flush_weaken B t img : crash_image B (t ++ [Flush]) img -> crash_image B t img.
Proof. intros H b. rewrite (crash_flush B t img H). apply content_possible. Qed.

Lemma crash_publish B t u img : crash_image B (t ++ [Publish] ++ u) img <-> crash_image B (t ++ u) img.
Proof. unfold crash_image. setoid_rewrite cell_app. done. Qed.

(** A flush, a write and a flush. *)
Lemma prefix_three {A} (p : list A) x y z : p `prefix_of` [x; y; z] -> p = [] \/ p = [x] \/ p = [x; y] \/ p = [x; y; z].
Proof.
  intros [k E]. destruct p as [|a p]; [by left|]. injection E as <- E. destruct p as [|b p]; [by right; left|].
  injection E as <- E. destruct p as [|c p]; [by right; right; left|]. injection E as <- E.
  destruct p; [by right; right; right|done].
Qed.

Lemma crash_one B t b0 v p img : p `prefix_of` [Flush; Write b0 v; Flush] -> crash_image B (t ++ p) img ->
  p = [] \/
  ((forall b, b <> b0 -> img b = content B t b) /\ (img b0 = content B t b0 \/ img b0 = v) /\
   (p = [Flush; Write b0 v; Flush] -> img b0 = v)).
Proof.
  intros [-> | [-> | [-> | ->]]]%prefix_three H; [by left| | |]; right.
  - pose proof (crash_flush _ _ _ H) as E. split_and!; [done|by left|done].
  - pose proof (crash_writes B t [Write b0 v] img) as E.
    assert (F : forall b, img b = content B t b \/ Write b (img b) ∈ [Write b0 v]).
    { apply E; [|exact H]. intros X. apply list_elem_of_singleton in X. done. }
    split_and!; [|destruct (F b0) as [G|G]; [by left|right]|done].
    + intros b N. destruct (F b) as [G|G]; [done|]. apply list_elem_of_singleton in G. congruence.
    + apply list_elem_of_singleton in G. congruence.
  - change [Flush; Write b0 v; Flush] with ([Flush; Write b0 v] ++ [Flush]) in H. rewrite app_assoc in H.
    pose proof (crash_flush _ _ _ H) as E. change [Flush; Write b0 v] with ([Flush] ++ [Write b0 v]) in E.
    rewrite app_assoc in E. setoid_rewrite content_snoc_write in E. setoid_rewrite content_flush in E. split_and!.
    + intros b N. rewrite E. by rewrite (proj2 (Z.eqb_neq _ _)) by done.
    + right. by rewrite E, Z.eqb_refl.
    + intros _. by rewrite E, Z.eqb_refl.
Qed.

(** Writing a list of blocks, each once. *)
Definition writes (l : list (Z * list Z)) : list dop := (fun e => Write e.1 e.2) <$> l.

Lemma writes_elem l b v : Write b v ∈ writes l <-> (b, v) ∈ l.
Proof.
  unfold writes. rewrite list_elem_of_fmap. split.
  - intros ([b' v'] & [= -> ->] & H). done.
  - intros H. by exists (b, v).
Qed.
Lemma writes_no_flush l : Flush ∉ writes l.
Proof. unfold writes. rewrite list_elem_of_fmap. by intros (e & H & _). Qed.
Lemma writes_prefix p l : p `prefix_of` writes l -> exists l', p = writes l' /\ l' `prefix_of` l.
Proof.
  intros [k E]. exists (take (length p) l). unfold writes in *. split.
  - rewrite fmap_take, E. by rewrite take_app_length.
  - apply prefix_take.
Qed.

Lemma content_writes_in B t l b v : NoDup l.*1 -> (b, v) ∈ l -> content B (t ++ writes l) b = v.
Proof.
  revert t. induction l as [|[b' v'] l IH]; intros t N H; [by apply not_elem_of_nil in H|].
  cbn [fmap list_fmap fst] in N. apply NoDup_cons in N as [N1 N2].
  change (writes ((b', v') :: l)) with ([Write b' v'] ++ writes l). rewrite app_assoc.
  destruct (decide ((b, v) ∈ l)) as [Hl|Hl]; [by apply IH|]. apply elem_of_cons in H as [[= -> ->]|H]; [|done].
  rewrite content_writes by apply writes_no_flush. rewrite content_snoc_write, Z.eqb_refl.
  assert (E : writes_of (writes l) b' = []); [|by rewrite E]. clear -N1. induction l as [|[b v] l IH]; [done|].
  cbn [fmap list_fmap fst] in N1. apply not_elem_of_cons in N1 as [N1 N2].
  unfold writes_of, writes. cbn [fmap list_fmap omap list_omap fst snd]. rewrite (proj2 (Z.eqb_neq b b')) by done. by apply IH.
Qed.

Lemma content_writes_out B t l b : b ∉ l.*1 -> content B (t ++ writes l) b = content B t b.
Proof.
  induction l as [|[b' v'] l IH] using rev_ind; intros H; [by rewrite app_nil_r|].
  rewrite fmap_app in H. apply not_elem_of_app in H as [H1 H2]. unfold writes. rewrite fmap_app, app_assoc. simpl.
  rewrite content_snoc_write. cbn [fmap list_fmap fst] in H2. apply not_elem_of_cons in H2 as [H2 _].
  rewrite (proj2 (Z.eqb_neq b' b)) by done. by apply IH.
Qed.

(** ** Computations on a device *)

Section does.
Context (B : disk).

Definition does {E A} (m : sm Device E A) (t : list dop) (r : result A E) (ws : list dop) : Prop :=
  forall d, base d = B -> trace d = t ->
    exists r' d', m d = Some (r', d') /\ base d' = B /\ reliable d' = reliable d /\
      ((r' = r /\ trace d' = t ++ ws) \/ (exists e p, r' = Err e /\ p `prefix_of` ws /\ trace d' = t ++ p)) /\
      (faults d = [] -> r' = r /\ trace d' = t ++ ws /\ faults d' = []).

Lemma does_pure {E A} (m : sm Device E A) t r : (forall d, m d = Some (r, d)) -> does m t r [].
Proof.
  intros H d HB Ht. exists r, d. rewrite app_nil_r. split_and!; auto.
Qed.

Lemma does_ret {E A} (a : A) t : does (E := E) (mret a) t (Ok a) [].
Proof. by apply does_pure. Qed.

Lemma does_throw {E A} (e : E) t : does (A := A) (throw e) t (Err e) [].
Proof. by apply does_pure. Qed.

Lemma does_lift {A} (m : res A) r t : m = Some r -> does (lift m) t r [].
Proof. intros ->. by apply does_pure. Qed.

Lemma does_bind {E A C} (m : sm Device E A) (f : A -> sm Device E C) t a w1 r w2 :
  does m t (Ok a) w1 -> does (f a) (t ++ w1) r w2 -> does (m ≫= f) t r (w1 ++ w2).
Proof.
  intros H1 H2 d HB Ht. destruct (H1 d HB Ht) as (r1 & d1 & E1 & B1 & R1 & C1 & F1).
  unfold mbind, sm_bind. rewrite E1. destruct C1 as [(-> & T1)|(e & p & -> & P & T1)].
  - destruct (H2 d1 B1 T1) as (r2 & d2 & E2 & B2 & R2 & C2 & F2). exists r2, d2.
    split_and!; [done|done|congruence| |].
    + destruct C2 as [(-> & T2)|(e & p & -> & P & T2)].
      * left. by rewrite app_assoc.
      * right. exists e, (w1 ++ p). rewrite app_assoc. split_and!; [done|by apply prefix_app|done].
    + intros F0. destruct (F1 F0) as (_ & _ & F1'). rewrite app_assoc. by apply F2.
  - exists (Err e), d1. split_and!; [done|done|done| |].
    + right. exists e, p. split_and!; [done|by apply prefix_app_r|done].
    + intros F0. by destruct (F1 F0).
Qed.

Lemma does_bind_pure {E A C} (m : sm Device E A) (f : A -> sm Device E C) t a r w :
  does m t (Ok a) [] -> does (f a) t r w -> does (m ≫= f) t r w.
Proof. intros H1 H2. apply (does_bind m f t a [] r w); [done|]. by rewrite app_nil_r. Qed.

Lemma does_bind_err {E A C} (m : sm Device E A) (f : A -> sm Device E C) t e w :
  does m t (Err e) w -> does (m ≫= f) t (Err e) w.
Proof.
  intros H d HB Ht. destruct (H d HB Ht) as (r1 & d1 & E1 & B1 & R1 & C1 & F1).
  assert (exists e1, r1 = Err e1) as (e1 & ->) by (destruct C1 as [(-> & _)|(e1 & p & -> & _)]; eauto).
  unfold mbind, sm_bind. rewrite E1. exists (Err e1), d1. split_and!; [done|done|done| |].
  - destruct C1 as [(X & T)|(e2 & p & X & P & T)]; simplify_eq; [by left|right; by exists e2, p].
  - intros F0. destruct (F1 F0) as (X & T & F). by simplify_eq.
Qed.

Lemma does_map_err {E E' A} (g : E -> E') (m : sm Device E A) t a w :
  does m t (Ok a) w -> does (map_err g m) t (Ok a) w.
Proof.
  intros H d HB Ht. destruct (H d HB Ht) as (r1 & d1 & E1 & B1 & R1 & C1 & F1).
  unfold map_err. rewrite E1. destruct C1 as [(-> & T)|(e & p & -> & P & T)].
  - exists (Ok a), d1. split_and!; auto. naive_solver.
  - exists (Err (g e)), d1. split_and!; [done|done|done|right; eauto|]. intros F0. by destruct (F1 F0).
Qed.

Lemma does_op op t : does (device_op op) t (Ok tt) [op].
Proof.
  intros d HB Ht. unfold device_op, next_fault. destruct (faults d) as [|[|[]] fs] eqn:F.
  - eexists _, _. split; [done|]. simpl. rewrite HB, Ht. split_and!; auto.
  - eexists _, _. split; [done|]. simpl. rewrite HB, Ht. split_and!; auto. done.
  - eexists _, _. split; [done|]. simpl. rewrite HB, Ht. split_and!; [done|done| |done].
    right. by exists EIO, [op].
  - eexists _, _. split; [done|]. simpl. rewrite HB, Ht. split_and!; [done|done| |done].
    right. exists EIO, []. rewrite app_nil_r. split_and!; [done|apply prefix_nil|done].
Qed.

Lemma does_write b v t : does (write_block b v) t (Ok tt) [Write b v].
Proof. apply does_op. Qed.

Lemma does_flush t : does flush t (Ok tt) [Flush].
Proof. apply does_op. Qed.

Lemma does_publish {E} t : does (E := E) publish t (Ok tt) [Publish].
Proof. intros d HB Ht. eexists _, _. split; [done|]. simpl. rewrite HB, Ht. split_and!; auto. Qed.

Lemma does_read b t : does (read_block b) t (Ok (content B t b)) [].
Proof.
  intros d HB Ht. unfold read_block, next_fault. rewrite app_nil_r.
  destruct (faults d) as [|[|r] fs] eqn:F; eexists _, _; (split; [done|]); simpl; rewrite ?HB, ?Ht.
  - split_and!; auto.
  - split_and!; auto. done.
  - split_and!; [done|done| |done]. right. exists EIO, []. by rewrite app_nil_r.
Qed.

(** With what an error says about the writes before it. *)
Definition runs {E A} (m : sm Device E A) (t : list dop) (a : A) (ws : list dop) (Q : E -> list dop -> Prop) : Prop :=
  does m t (Ok a) ws /\
  forall d d' e, base d = B -> trace d = t -> m d = Some (Err e, d') -> exists p, trace d' = t ++ p /\ p `prefix_of` ws /\ Q e p.

Lemma runs_bind {E A C} (m : sm Device E A) (f : A -> sm Device E C) t a c w1 w2 Q :
  runs m t a w1 Q -> runs (f a) (t ++ w1) c w2 (fun e p => Q e (w1 ++ p)) -> runs (m ≫= f) t c (w1 ++ w2) Q.
Proof.
  intros [D1 F1] [D2 F2]. split; [by eapply does_bind|]. intros d d' e HB Ht H.
  destruct (D1 d HB Ht) as (r1 & d1 & E1 & B1 & _ & C1 & _). unfold mbind, sm_bind in H. rewrite E1 in H.
  destruct C1 as [(-> & T1)|(e1 & p & -> & P & T1)].
  - destruct (F2 d1 d' e B1 T1 H) as (p & T & P & HQ). exists (w1 ++ p). rewrite app_assoc. split_and!; [done|by apply prefix_app|done].
  - injection H as <- <-. destruct (F1 d d1 e1 HB Ht E1) as (p' & T' & P' & HQ). exists p'. split_and!; [done|by apply prefix_app_r|done].
Qed.

Lemma runs_map_err {E E' A} (g : E -> E') (m : sm Device E A) t a w (Q : E' -> list dop -> Prop) :
  does m t (Ok a) w -> (forall e p, p `prefix_of` w -> Q (g e) p) -> runs (map_err g m) t a w Q.
Proof.
  intros D H. split; [by apply does_map_err|]. intros d d' e HB Ht Hm. destruct (D d HB Ht) as (r1 & d1 & E1 & _ & _ & C1 & _).
  unfold map_err in Hm. rewrite E1 in Hm. destruct C1 as [(-> & T1)|(e1 & p & -> & P & T1)]; [done|].
  injection Hm as <- <-. exists p. split_and!; [done|done|by apply H].
Qed.

Lemma runs_publish {E} t (Q : E -> list dop -> Prop) : runs publish t tt [Publish] Q.
Proof. split; [apply does_publish|done]. Qed.
End does.
