(* ===== verification/JournalRecovery.v ===== *)
(** Recovery of the ext4 journal after a crash
    (dependency/another_ext4/src/ext4/journal_recovery.rs) and the device it runs on
    ([RecoveryDevice] of dependency/another_ext4/src/ext4/journal.rs).

    The three passes over the log share [walk].  Its two loops take as fuel the number of
    blocks of the ring: every round reads at least one. *)

From stdpp Require Import base numbers option list gmap.
From S2P Require Import Prelude Slice Jbd2 JournalDev.

(** [JournalRecoveryIo]. *)
Class JournalRecoveryIo (S : Type) := {
  io_block_size : nat;
  filesystem_blocks : Z;
  read_journal : Z -> sm S ErrCode (list Z);
  write_journal : Z -> list Z -> sm S ErrCode unit;
  write_home : Z -> list Z -> sm S ErrCode unit;
  is_journal_physical : Z -> bool;
  flush_home : sm S ErrCode unit;
  flush_journal : sm S ErrCode unit;
}.

Record RecoveryStats := mk_stats { transactions : Z; replayed : Z; revoke_hits : Z }.
Definition no_stats : RecoveryStats := mk_stats 0 0 0.

Record Tag := mk_tag { t_block : Z; t_flags : Z; t_checksum : option Z }.

Inductive Pass := Scan | RevokePass | Replay.
#[export] Instance Pass_eq_dec : EqDecision Pass.
Proof. solve_decision. Defined.

Definition is_scan (p : Pass) : bool := bool_decide (p = Scan).

(** ** Tags of a descriptor *)

Fixpoint parse_tags_loop (fuel : nat) (block : list Z) (sb : Superblock) (target_blocks : Z) (stop off : nat)
    : res (list Tag) :=
  match fuel with
  | 0%nat => None
  | S fuel =>
      let size := tag_bytes (features sb) in
      if (stop <? off + size)%nat then malformed
      else
        low ← be32 block off;
        '(flags, high, c) ←
          (match checksum (features sb) with
           | V3 =>
               encoded_high ← be32 block (off + 8);
               if negb (has_64bit (features sb)) && negb (encoded_high =? 0) then malformed
               else
                 flags ← be32 block (off + 4);
                 c ← be32 block (off + 12);
                 mret (flags, if has_64bit (features sb) then encoded_high else 0, Some c)
           | ChecksumNone =>
               flags ← be16 block (off + 6);
               high ← (if has_64bit (features sb) then be32 block (off + 8) else mret 0);
               mret (flags, high, None)
           end : res (Z * Z * option Z));
        let off := (off + size)%nat in
        off ←
          (if bool_decide (checksum (features sb) = ChecksumNone) && (Z.land flags FLAG_SAME_UUID =? 0) then
             u ← get block off (off + 16);
             if bool_decide (u = uuid sb) then mret (off + 16)%nat else malformed
           else mret off : res nat);
        let target := Z.lor low (Z.shiftl high 32) in
        if target_blocks <=? target then malformed
        else if negb (Z.land flags FLAG_LAST_TAG =? 0) then mret [mk_tag target flags c]
        else
          tags ← parse_tags_loop fuel block sb target_blocks stop off;
          mret (mk_tag target flags c :: tags)
  end.

Definition parse_tags (block : list Z) (sb : Superblock) (target_blocks : Z) : res (list Tag) :=
  if (length block <? tail_bytes (features sb))%nat then malformed
  else parse_tags_loop (S (length block)) block sb target_blocks (length block - tail_bytes (features sb)) 12.

(** ** Positions and sequence numbers *)

Definition advance (sb : Superblock) (pos : Z) : Z :=
  if wrap32 (pos + 1) =? max_len sb then first sb else wrap32 (pos + 1).

(** [(a.wrapping_sub(b) as i32) >= 0]. *)
Definition tid_geq (a b : Z) : bool := wrap32 (a - b) <? 2 ^ 31.

(** ** The walk *)

(** The revoke table, [None] in the first pass, and the statistics. *)
Record Work := mk_work { revokes : option (gmap Z Z); stats : RecoveryStats }.

Definition hit (w : Work) : Work :=
  mk_work (revokes w) (mk_stats (transactions (stats w)) (replayed (stats w)) (revoke_hits (stats w) + 1)).
Definition replay_one (w : Work) : Work :=
  mk_work (revokes w) (mk_stats (transactions (stats w)) (replayed (stats w) + 1) (revoke_hits (stats w))).

(** A loop goes on, or [walk] returns a sequence number. *)
Inductive flow (A : Type) := Go (a : A) | Return (sequence : Z).
Arguments Go {A} a.
Arguments Return {A} sequence.

(** Where the walk is: next block, blocks read, an invalid checksum in the transaction, and the work. *)
Record Cursor := mk_cursor { pos : Z; consumed : Z; invalid : bool; work : Work }.

Section walk.
Context {S : Type} `{!JournalRecoveryIo S}.
Context (sb : Superblock) (seed : Z) (pass : Pass).

Definition check_size (block : list Z) : sm S ErrCode unit :=
  if (length block =? io_block_size)%nat then mret tt else throw EIO.

Definition ring_blocks : Z := max_len sb - first sb.

(** One tag with the block that follows in the log. *)
Definition walk_tag (sequence : Z) (tag : Tag) (data : list Z) (bad : bool) (w : Work)
    : sm S ErrCode (bool * Work) :=
  bad ←
    (match t_checksum tag with
     | Some expected =>
         if negb (tag_checksum seed sequence data =? expected) then
           (if is_scan pass then mret true else throw EIO)
         else mret bad
     | None => mret bad
     end : sm S ErrCode bool);
  if bool_decide (pass = Replay) && (Z.land (t_flags tag) FLAG_DELETED =? 0) then
    if is_journal_physical (t_block tag) then throw EIO
    else
      let revoked := match revokes w ≫= lookup (t_block tag) with
                     | Some tid => tid_geq tid sequence | None => false end in
      if revoked then mret (bad, hit w)
      else
        data ← (if negb (Z.land (t_flags tag) FLAG_ESCAPE =? 0) then lift (put data 0 (to_be 4 MAGIC))
                else mret data);
        write_home (t_block tag) data ;;
        mret (bad, replay_one w)
  else mret (bad, w).

(** [for tag in tags]. *)
Fixpoint walk_tags (sequence : Z) (tags : list Tag) (c : Cursor) : sm S ErrCode (flow Cursor) :=
  match tags with
  | [] => mret (Go c)
  | tag :: tags =>
      if ring_blocks <=? consumed c then
        (if is_scan pass then mret (Return sequence) else throw EIO)
      else
        data ← read_journal (pos c);
        check_size data ;;
        '(bad, w) ← walk_tag sequence tag data (invalid c) (work c);
        walk_tags sequence tags (mk_cursor (advance sb (pos c)) (consumed c + 1) bad w)
  end.

(** The checksum of a descriptor or revoke block. *)
Definition check_block (raw : list Z) (bad : bool) : sm S ErrCode bool :=
  match checksum (features sb) with
  | V3 =>
      match verify_block_checksum seed raw with
      | None => fun _ => None
      | Some (Ok _) => mret bad
      | Some (Err e) => if is_scan pass then mret true else throw e
      end
  | ChecksumNone => mret bad
  end.

(** [for block in parse_revoke_records(..)?]. *)
Fixpoint add_revokes (sequence : Z) (blocks : list Z) (w : Work) : sm S ErrCode Work :=
  match blocks with
  | [] => mret w
  | block :: blocks =>
      if is_journal_physical block then throw EIO
      else
        match revokes w with
        | None => throw EIO
        | Some table =>
            let insert_it := match table !! block with Some old => negb (tid_geq old sequence) | None => true end in
            add_revokes sequence blocks
              (mk_work (Some (if insert_it then <[block := sequence]> table else table)) (stats w))
        end
  end.

(** [while consumed < ring_len]: the blocks of one transaction, and whether it was committed. *)
Fixpoint walk_tx (fuel : nat) (sequence : Z) (c : Cursor) : sm S ErrCode (flow (bool * Cursor)) :=
  match fuel with
  | 0%nat => fun _ => None
  | Datatypes.S fuel =>
      if negb (consumed c <? ring_blocks) then mret (Go (false, c))
      else
        raw ← read_journal (pos c);
        check_size raw ;;
        match header_parse raw with
        | None => fun _ => None
        | Some h =>
            match (match h with Ok h => if h_sequence h =? sequence then Some h else None | Err _ => None end) with
            | None => if is_scan pass then mret (Return sequence) else throw EIO
            | Some h =>
                let c := mk_cursor (advance sb (pos c)) (consumed c + 1) (invalid c) (work c) in
                match block_type h with
                | Descriptor =>
                    bad ← check_block raw (invalid c);
                    tags ← lift (parse_tags raw sb filesystem_blocks);
                    f ← walk_tags sequence tags (mk_cursor (pos c) (consumed c) bad (work c));
                    match f with
                    | Return s => mret (Return s)
                    | Go c => walk_tx fuel sequence c
                    end
                | Revoke =>
                    bad ← check_block raw (invalid c);
                    w ← (if bool_decide (pass = RevokePass) then
                           blocks ← lift (parse_revoke_records raw (features sb) sequence filesystem_blocks);
                           add_revokes sequence blocks (work c)
                         else mret (work c));
                    walk_tx fuel sequence (mk_cursor (pos c) (consumed c) bad w)
                | Commit =>
                    match commit_parse raw (features sb) sequence seed with
                    | None => fun _ => None
                    | Some (Err e) => if is_scan pass then mret (Return sequence) else throw e
                    | Some (Ok _) => if invalid c then throw EIO else mret (Go (true, c))
                    end
                | _ => if is_scan pass then mret (Return sequence) else throw EIO
                end
            end
        end
  end.

(** [loop]. *)
Fixpoint walk_loop (fuel : nat) (stop : option Z) (sequence : Z) (position used : Z) (w : Work)
    : sm S ErrCode (Z * Work) :=
  match fuel with
  | 0%nat => fun _ => None
  | Datatypes.S fuel =>
      if bool_decide (stop = Some sequence) then mret (sequence, w)
      else
        f ← walk_tx (Datatypes.S (Z.to_nat ring_blocks)) sequence (mk_cursor position used false w);
        match f with
        | Return s => mret (s, w)
        | Go (committed, c) =>
            if negb committed then (if is_scan pass then mret (sequence, work c) else throw EIO)
            else
              let next := wrap32 (sequence + 1) in
              if (pos c =? position) || (ring_blocks <=? consumed c) then mret (next, work c)
              else walk_loop fuel stop next (pos c) (consumed c) (work c)
        end
  end.

Definition walk (stop : option Z) (w : Work) : sm S ErrCode (Z * Work) :=
  walk_loop (Datatypes.S (Z.to_nat ring_blocks)) stop (sequence sb) (start sb) 0 w.
End walk.

(** ** Recovery *)

(** The recovered blocks are made durable before the journal is declared clean. *)
Definition mark_clean {S} `{!JournalRecoveryIo S} (sb : Superblock) (raw_sb : list Z) (end_sequence : Z)
    : sm S ErrCode unit :=
  flush_home ;;
  raw_sb ← lift (put32 raw_sb 24 (wrap32 (end_sequence + 1)));
  raw_sb ← lift (put32 raw_sb 28 0);
  raw_sb ← (match checksum (features sb) with
            | V3 =>
                raw_sb ← lift (put32 raw_sb 252 0);
                c ← lift (superblock_checksum raw_sb);
                lift (put32 raw_sb 252 c)
            | ChecksumNone => mret raw_sb
            end);
  write_journal 0 raw_sb ;;
  flush_journal.

Definition recover {S} `{!JournalRecoveryIo S} : sm S ErrCode RecoveryStats :=
  raw_sb ← read_journal 0;
  if negb (length raw_sb =? io_block_size)%nat then throw EIO
  else
    sb ← lift (superblock_parse raw_sb (wrap32 (Z.of_nat io_block_size)));
    if max_len sb =? 0 then throw EIO
    else if start sb =? 0 then mret no_stats
    else
      let seed := checksum_seed (uuid sb) in
      '(end_sequence, _) ← walk sb seed Scan None (mk_work None no_stats);
      '(_, w) ← walk sb seed RevokePass (Some end_sequence) (mk_work (Some ∅) no_stats);
      '(_, w) ← walk sb seed Replay (Some end_sequence) (mk_work (revokes w) no_stats);
      mark_clean sb raw_sb end_sequence ;;
      mret (mk_stats (wrap32 (end_sequence - sequence sb)) (replayed (stats w)) (revoke_hits (stats w))).

(** ** The device of a mount: [RecoveryDevice] *)

Record RecoveryDevice := mk_recovery { journal_blocks : list Z; journal_block_set : gset Z; fs_blocks : Z }.

(** [data.try_into()] to an array of [BLOCK_SIZE] bytes. *)
Definition write_image (physical : Z) (data : list Z) : sm Device ErrCode unit :=
  if (length data =? BLOCK_SIZE)%nat then write_block physical data else throw EIO.

Definition recovery_io (r : RecoveryDevice) : JournalRecoveryIo Device := {|
  io_block_size := BLOCK_SIZE;
  filesystem_blocks := fs_blocks r;
  read_journal logical :=
    match journal_blocks r !! Z.to_nat logical with Some physical => read_block physical | None => throw EIO end;
  write_journal logical data :=
    match journal_blocks r !! Z.to_nat logical with Some physical => write_image physical data | None => throw EIO end;
  write_home := write_image;
  is_journal_physical physical := bool_decide (physical ∈ journal_block_set r);
  flush_home := flush;
  flush_journal := flush;
|}.
