(* ===== verification/JournalTx.v ===== *)
(** Transactions of the ext4 journal
    (dependency/another_ext4/src/ext4/journal_transaction.rs).

    A transaction borrows its core, so operations take both and return both.  A function that
    consumes the transaction ends with its [Drop] ([drop_tx]).  The context lock is taken and
    released inside one operation, never across device operations; the writer bit excludes
    other transactions between [start] and the end of the transaction.  Diagnostics are left
    out; the publication of committed blocks to caches is [Publish] in the trace of the device. *)

From stdpp Require Import base numbers option list gmap.
From S2P Require Import Prelude Slice BTree Jbd2 JournalDev.

Notation block := (list Z) (only parsing).

(** ** The ring and the size of the log *)

Definition ring_len (sb : Superblock) : res nat :=
  if first sb <=? max_len sb then mret (Z.to_nat (max_len sb - first sb)) else err EIO.

Definition tags_per_descriptor (f : Features) : res nat :=
  let overhead := (HEADER_BYTES + 16 + tail_bytes f)%nat in
  if (BLOCK_SIZE <? overhead)%nat then err EIO
  else
    let tags := ((BLOCK_SIZE - overhead) / tag_bytes f)%nat in
    if (tags =? 0)%nat then err EIO else mret tags.

Definition required_log_blocks (blocks : Z) (f : Features) : res Z :=
  per ← tags_per_descriptor f;
  match checked_add blocks (Z.of_nat per - 1) with
  | None => err E2BIG
  | Some n =>
      let descriptors := n / Z.of_nat per in
      match checked_add blocks descriptors ≫= fun n => checked_add n 1 with
      | None => err E2BIG
      | Some n => mret n
      end
  end.

Definition ring_next (sb : Superblock) (current : Z) : Z :=
  if wrap32 (current + 1) =? max_len sb then first sb else wrap32 (current + 1).

Fixpoint ring_walk (sb : Superblock) (count : nat) (current : Z) : list Z :=
  match count with 0%nat => [] | S count => current :: ring_walk sb count (ring_next sb current) end.

Definition ring_positions (sb : Superblock) (head : Z) (count : nat) : res (list Z) :=
  len ← ring_len sb;
  if (len <? count)%nat || (head <? first sb) || (max_len sb <=? head) then err E2BIG
  else mret (ring_walk sb count head).

(** ** Encoding *)

Definition or_flag (b : bool) (f flags : Z) : Z := if b then Z.lor flags f else flags.

(** The body of [for (index, staged) in group.iter().enumerate()]: descriptor, offset and data so far. *)
Definition encode_tag (sb : Superblock) (seed sequence : Z) (is_first is_last : bool) (home : Z) (image : block)
    (descriptor : block) (offset : nat) : res (block * nat * block) :=
  head4 ← range image 0 4;
  let escape := from_be head4 =? MAGIC in
  image ← (if escape then put image 0 (replicate 4 0) else mret image : res block);
  let flags := or_flag is_last FLAG_LAST_TAG
                 (or_flag escape FLAG_ESCAPE (if is_first then 0 else FLAG_SAME_UUID)) in
  descriptor ← put descriptor offset (to_be 4 (wrap32 home));
  descriptor ←
    (match checksum (features sb) with
     | V3 =>
         if negb (has_64bit (features sb)) && (U32_MAX <? home) then err ENOTSUP
         else
           descriptor ← put descriptor (offset + 4) (to_be 4 flags);
           descriptor ← put descriptor (offset + 8) (to_be 4 (wrap32 (Z.shiftr home 32)));
           put descriptor (offset + 12) (to_be 4 (tag_checksum seed sequence image))
     | ChecksumNone =>
         if U32_MAX <? home then err ENOTSUP
         else put descriptor (offset + 6) (to_be 2 flags)
     end : res block);
  let offset := (offset + tag_bytes (features sb))%nat in
  if is_first then
    descriptor ← put descriptor offset (uuid sb);
    mret (descriptor, (offset + 16)%nat, image)
  else mret (descriptor, offset, image).

Fixpoint encode_group (sb : Superblock) (seed sequence : Z) (is_first : bool) (group : list (Z * block))
    (descriptor : block) (offset : nat) : res (block * list block) :=
  match group with
  | [] => mret (descriptor, [])
  | (home, image) :: group =>
      '(descriptor, offset, image) ←
        encode_tag sb seed sequence is_first (bool_decide (group = [])) home image descriptor offset;
      '(descriptor, data) ← encode_group sb seed sequence false group descriptor offset;
      mret (descriptor, image :: data)
  end.

Definition encode_chunk (sb : Superblock) (seed sequence : Z) (group : list (Z * block)) : res (list block) :=
  descriptor ← encode_into (mk_header Descriptor sequence) (replicate BLOCK_SIZE 0);
  '(descriptor, data) ← encode_group sb seed sequence true group descriptor HEADER_BYTES;
  descriptor ←
    (match checksum (features sb) with
     | V3 => c ← block_checksum seed descriptor; put descriptor (BLOCK_SIZE - 4) (to_be 4 c)
     | ChecksumNone => mret descriptor
     end : res block);
  mret (descriptor :: data).

Fixpoint encode_chunks (sb : Superblock) (seed sequence : Z) (groups : list (list (Z * block))) : res (list block) :=
  match groups with
  | [] => mret []
  | group :: groups =>
      a ← encode_chunk sb seed sequence group;
      b ← encode_chunks sb seed sequence groups;
      mret (a ++ b)
  end.

(** [staged] is the map of images, in the order of the homes. *)
Definition encode_log (sb : Superblock) (sequence : Z) (staged : list (Z * block)) : res (list block) :=
  per ← tags_per_descriptor (features sb);
  encode_chunks sb (checksum_seed (uuid sb)) sequence (chunks per staged).

Definition encode_commit (sb : Superblock) (sequence : Z) : res block :=
  block ← encode_into (mk_header Commit sequence) (replicate BLOCK_SIZE 0);
  match checksum (features sb) with
  | V3 => c ← commit_checksum (checksum_seed (uuid sb)) block; put block 16 (to_be 4 c)
  | ChecksumNone => mret block
  end.

Definition update_superblock (image : list Z) (sequence start : Z) (sb : Superblock) : res (list Z) :=
  image ← put image 24 (to_be 4 sequence);
  image ← put image 28 (to_be 4 start);
  match checksum (features sb) with
  | V3 =>
      image ← put image 252 (replicate 4 0);
      c ← superblock_checksum image;
      put image 252 (to_be 4 c)
  | ChecksumNone => mret image
  end.

(** ** State *)

Record JournalContext := mk_context {
  superblock : Superblock;
  logical_blocks : list Z;
  journal_set : gset Z;
  target_blocks : Z;
  head : Z;
  superblock_image : list Z;
  deferred_transaction : option (btree block);
}.

Definition validate (c : JournalContext) : res unit :=
  let sb := superblock c in
  if negb (block_size sb =? Z.of_nat BLOCK_SIZE)
     || (bool_decide (checksum (features sb) = V3) && negb (checksum_type sb =? CRC32C_CHKSUM))
     || negb (Z.of_nat (length (logical_blocks c)) =? max_len sb)
     || negb (size (journal_set c) =? length (logical_blocks c))%nat
     || (head c <? first sb) || (max_len sb <=? head c) || (target_blocks c =? 0)
  then err ENOTSUP
  else if existsb (fun b => (b =? 0) || negb (bool_decide (b ∈ journal_set c))) (logical_blocks c) then err EIO
  else mret tt.

Record JournalCore := mk_core { writer : bool; poisoned : bool; context : JournalContext }.

Definition core_new (c : JournalContext) : res JournalCore := validate c ;; mret (mk_core false false c).

Definition set_deferred (x : JournalCore) (m : option (btree block)) : JournalCore :=
  let c := context x in
  mk_core (writer x) (poisoned x)
    (mk_context (superblock c) (logical_blocks c) (journal_set c) (target_blocks c) (head c) (superblock_image c) m).
Definition set_writer (x : JournalCore) (b : bool) : JournalCore := mk_core b (poisoned x) (context x).
Definition set_poisoned (x : JournalCore) : JournalCore := mk_core (writer x) true (context x).

Record StagedBlock := mk_staged { s_home : Z; original : option block; image : block }.

Record Transaction := mk_tx {
  credits : Z;
  staged : btree StagedBlock;
  deferred_staged : option (btree block);
  preserve_originals : bool;
  owns_writer : bool;
}.

Definition set_staged (t : Transaction) (m : btree StagedBlock) : Transaction :=
  mk_tx (credits t) m (deferred_staged t) (preserve_originals t) (owns_writer t).

Inductive CommitFailure := BeforeCommit | CommitUncertain | CheckpointFailed | TailUpdateFailed.

Definition CommitError : Type := ErrCode * CommitFailure.

(** ** Starting *)

Definition can_shutdown (x : JournalCore) : bool :=
  negb (writer x) && negb (poisoned x) && bool_decide (deferred_transaction (context x) = None).

Definition has_pending_transaction (x : JournalCore) : bool :=
  match deferred_transaction (context x) with Some _ => true | None => false end.

Definition deferred_block (x : JournalCore) (home : Z) : option block :=
  deferred_transaction (context x) ≫= bt_get home.

Definition owns_block_range (x : JournalCore) (start stop : Z) : bool :=
  (start <? stop) && existsb (fun b => (start <=? b) && (b <? stop)) (elements (journal_set (context x))).

Definition tx_new (credits : Z) (preserve : bool) (deferred : option (btree block)) : Transaction :=
  mk_tx credits bt_empty deferred preserve true.

(** [required_log_blocks(total)? <= ring_len()?]. *)
Definition reservation_fits (c : JournalContext) (total : Z) : res bool :=
  needed ← required_log_blocks total (features (superblock c));
  available ← ring_len (superblock c);
  mret (needed <=? Z.of_nat available).

(** The early return on overflow of the credits leaves the writer bit set. *)
Definition start_tx (x : JournalCore) (credits : Z) : option (result Transaction ErrCode * JournalCore) :=
  if (credits =? 0) || poisoned x then Some (Err (if credits =? 0 then EINVAL else EROFS), x)
  else if writer x then Some (Err EAGAIN, x)
  else
    let x := set_writer x true in
    let pending := match deferred_transaction (context x) with Some m => Z.of_nat (length m) | None => 0 end in
    match checked_add pending credits with
    | None => Some (Err E2BIG, x)
    | Some total =>
        match reservation_fits (context x) total with
        | None => None
        | Some (Err e) => Some (Err e, set_writer x false)
        | Some (Ok false) => Some (Err E2BIG, set_writer x false)
        | Some (Ok true) =>
            Some (Ok (tx_new total false (deferred_transaction (context x))), set_deferred x None)
        end
    end.

Definition start_if_deferred (x : JournalCore) (credits : Z)
    : option (result (option Transaction) ErrCode * JournalCore) :=
  if (credits =? 0) || poisoned x then Some (Err (if credits =? 0 then EINVAL else EROFS), x)
  else if writer x then Some (Err EAGAIN, x)
  else
    let x := set_writer x true in
    match deferred_transaction (context x) with
    | None => Some (Ok None, set_writer x false)
    | Some m =>
        match checked_add (Z.of_nat (length m)) credits with
        | None => Some (Err E2BIG, set_writer x false)
        | Some total =>
            match reservation_fits (context x) total with
            | None => None
            | Some (Err e) => Some (Err e, set_writer x false)
            | Some (Ok false) => Some (Err E2BIG, set_writer x false)
            | Some (Ok true) => Some (Ok (Some (tx_new total false (Some m))), set_deferred x None)
            end
        end
    end.

(** ** Staging *)

Definition total_staged_len (t : Transaction) : Z :=
  match deferred_staged t with
  | None => Z.of_nat (length (staged t))
  | Some m =>
      Z.of_nat (length m) + Z.of_nat (length (filter (fun e => bt_contains e.1 m = false) (staged t)))
  end.

Definition deferred_image (t : Transaction) (home : Z) : option block := deferred_staged t ≫= bt_get home.

Definition stage (t : Transaction) (home : Z) (img : block) : result Transaction ErrCode :=
  let was_deferred := match deferred_image t home with Some _ => true | None => false end in
  if negb (bt_contains home (staged t)) && negb was_deferred && (credits t <=? total_staged_len t) then Err E2BIG
  else Ok (set_staged t (bt_insert home (mk_staged home None img) (staged t))).

(** The image to mutate is [image] of the entry of [home]; [update_image] writes it back. *)
Definition read_for_update (t : Transaction) (home : Z) : sm Device ErrCode Transaction :=
  match bt_get home (staged t) with
  | Some _ => mret t
  | None =>
      match deferred_image t home with
      | Some img => mret (set_staged t (bt_insert home (mk_staged home None img) (staged t)))
      | None =>
          if credits t <=? total_staged_len t then throw E2BIG
          else
            data ← read_block home;
            mret (set_staged t
              (bt_insert home (mk_staged home (if preserve_originals t then Some data else None) data) (staged t)))
      end
  end.

Definition update_image (t : Transaction) (home : Z) (f : block -> block) : Transaction :=
  match bt_get home (staged t) with
  | Some s => set_staged t (bt_insert home (mk_staged (s_home s) (original s) (f (image s))) (staged t))
  | None => t
  end.

Definition read (t : Transaction) (home : Z) : sm Device ErrCode block :=
  match bt_get home (staged t) with
  | Some s => mret (image s)
  | None => match deferred_image t home with Some img => mret img | None => read_block home end
  end.

(** ** Ending *)

Definition restore_deferred_staged (x : JournalCore) (t : Transaction) : JournalCore * Transaction :=
  match deferred_staged t with
  | None => (x, t)
  | Some m => (set_deferred x (Some m), mk_tx (credits t) (staged t) None (preserve_originals t) (owns_writer t))
  end.

Definition absorb_deferred_staged (t : Transaction) : Transaction :=
  match deferred_staged t with
  | None => t
  | Some m =>
      mk_tx (credits t)
        (foldl (fun acc e => if bt_contains e.1 acc then acc else bt_insert e.1 (mk_staged e.1 None e.2) acc)
           (staged t) m)
        None (preserve_originals t) (owns_writer t)
  end.

Definition release_writer (x : JournalCore) (t : Transaction) : JournalCore * Transaction :=
  if owns_writer t then
    (set_writer x false, mk_tx (credits t) (staged t) (deferred_staged t) (preserve_originals t) false)
  else (x, t).

(** [Drop], and [abort]. *)
Definition drop_tx (x : JournalCore) (t : Transaction) : JournalCore :=
  let '(x, t) := restore_deferred_staged x t in fst (release_writer x t).

Definition fail (x : JournalCore) (t : Transaction) (poison : bool) : JournalCore :=
  drop_tx (if poison then set_poisoned x else x) t.

Definition images (m : btree StagedBlock) : btree block := (fun e => (e.1, image e.2)) <$> m.

Definition from_deferred (m : btree block) : Transaction :=
  mk_tx (Z.of_nat (length m)) ((fun e => (e.1, mk_staged e.1 None e.2)) <$> m) None false true.

(** ** Committing *)

Definition write_journal_superblock (mapping : list Z) (image : list Z) : sm Device ErrCode unit :=
  match mapping !! 0%nat with
  | None => fun _ => None
  | Some m0 =>
      data ← read_block m0;
      data ← lift (put data 0 image);
      write_block m0 data
  end.

(** How many of the blocks that follow continue a run that starts at [first_phys]. *)
Fixpoint run_length (first_phys k : Z) (l : list (Z * block)) : nat :=
  match l with
  | (p, _) :: l => if p =? wrap64 (first_phys + k) then S (run_length first_phys (k + 1) l) else 0
  | [] => 0
  end.

(** [while run_start < encoded.len()]; a round writes at least one block. *)
Fixpoint write_runs (fuel : nat) (l : list (Z * block)) : sm Device ErrCode unit :=
  match fuel, l with
  | _, [] => mret tt
  | 0%nat, _ => fun _ => None
  | S fuel, (p, b) :: l =>
      let n := run_length p 1 l in
      (if (n =? 0)%nat then write_block p b else write_blocks p (concat (b :: (take n l).*2))) ;;
      write_runs fuel (drop n l)
  end.

Fixpoint write_homes (l : list (Z * block)) : sm Device ErrCode unit :=
  match l with
  | [] => mret tt
  | (home, img) :: l => write_block home img ;; write_homes l
  end.

(** An early return of [commit_journal]: the error, and whether the core is poisoned. *)
Definition abort_with (failure : CommitFailure) (poison : bool) (e : ErrCode) : ErrCode * CommitFailure * bool :=
  (e, failure, poison).

Definition before {A} (r : res A) : sm Device (ErrCode * CommitFailure * bool) A :=
  map_err (abort_with BeforeCommit false) (lift r).

Definition check_reliable : sm Device (ErrCode * CommitFailure * bool) unit := fun d =>
  if reliable d then Some (Ok tt, d) else Some (Err (ENOTSUP, BeforeCommit, false), d).

(** Everything that is computed before the first write. *)
Record CommitPlan := mk_plan {
  p_log : list (Z * block);
  p_commit : Z * block;
  p_commit_logical : Z;
  p_active : list Z;
  p_clean : list Z;
}.

Definition commit_plan (c : JournalContext) (m : btree block) : res CommitPlan :=
  let sb := superblock c in
  needed ← required_log_blocks (Z.of_nat (length m)) (features sb);
  available ← ring_len sb;
  if Z.of_nat available <? needed then err E2BIG
  else
    positions ← ring_positions sb (head c) (Z.to_nat needed);
    if existsb (fun e => (target_blocks c <=? fst e) || bool_decide (fst e ∈ journal_set c)) m then err EINVAL
    else
      encoded ← encode_log sb (sequence sb) m;
      commit ← encode_commit sb (sequence sb);
      active ← update_superblock (superblock_image c) (sequence sb) (head c) sb;
      clean ← update_superblock (superblock_image c) (wrap32 (sequence sb + 1)) 0 sb;
      match mapM (fun p => logical_blocks c !! Z.to_nat p) positions, last positions with
      | Some physical, Some commit_logical =>
          match logical_blocks c !! Z.to_nat commit_logical with
          | Some commit_physical =>
              mret (mk_plan (zip physical encoded) (commit_physical, commit) commit_logical active clean)
          | None => None
          end
      | _, _ => None
      end.

(** The writes of [commit_journal] with their four barriers. *)
Definition commit_steps (c : JournalContext) (m : btree block) (plan : CommitPlan)
    : sm Device (ErrCode * CommitFailure * bool) unit :=
  map_err (abort_with BeforeCommit true) (write_journal_superblock (logical_blocks c) (p_active plan)) ;;
  map_err (abort_with BeforeCommit true) (write_runs (length (p_log plan)) (p_log plan)) ;;
  map_err (abort_with BeforeCommit true) flush ;;
  map_err (abort_with CommitUncertain true) (write_block (fst (p_commit plan)) (snd (p_commit plan))) ;;
  map_err (abort_with CommitUncertain true) flush ;;
  map_err (abort_with CheckpointFailed true) (write_homes m) ;;
  map_err (abort_with CheckpointFailed true) flush ;;
  publish ;;
  map_err (abort_with TailUpdateFailed true) (write_journal_superblock (logical_blocks c) (p_clean plan)) ;;
  map_err (abort_with TailUpdateFailed true) flush.

(** The body of [commit_journal]; the answer is the new head and the new image of the superblock. *)
Definition commit_io (c : JournalContext) (m : btree block)
    : sm Device (ErrCode * CommitFailure * bool) (Z * list Z) :=
  check_reliable ;;
  plan ← before (commit_plan c m);
  commit_steps c m plan ;;
  mret (ring_next (superblock c) (p_commit_logical plan), p_clean plan).

(** The context after a commit. *)
Definition committed_context (c : JournalContext) (new_head : Z) (clean : list Z) : JournalContext :=
  let sb := superblock c in
  mk_context
    (mk_superblock (block_size sb) (max_len sb) (first sb) (wrap32 (sequence sb + 1)) 0 (errno sb) (features sb)
       (uuid sb) (checksum_type sb))
    (logical_blocks c) (journal_set c) (target_blocks c) new_head clean (deferred_transaction c).

Definition commit_journal (x : JournalCore) (t : Transaction) (d : Device)
    : option (result unit CommitError * JournalCore * Device) :=
  let t := absorb_deferred_staged t in
  match commit_io (context x) (images (staged t)) d with
  | None => None
  | Some (Err (e, failure, poison), d) => Some (Err (e, failure), fail x t poison, d)
  | Some (Ok (new_head, clean), d) =>
      Some (Ok tt, drop_tx (mk_core (writer x) (poisoned x) (committed_context (context x) new_head clean)) t, d)
  end.

(** [commit] up to its return; the transaction is dropped afterwards. *)
Definition commit_empty (x : JournalCore) (t : Transaction) : JournalCore * Transaction := release_writer x t.

Definition commit (x : JournalCore) (t : Transaction) (d : Device)
    : option (result unit CommitError * JournalCore * Device) :=
  match staged t with
  | [] => let '(x, t) := commit_empty x t in Some (Ok tt, drop_tx x t, d)
  | _ => commit_journal x t d
  end.

Definition defer_or_commit (x : JournalCore) (t : Transaction) (max_deferred_blocks : Z) (d : Device)
    : option (result unit CommitError * JournalCore * Device) :=
  let total := total_staged_len t in
  if total =? 0 then let '(x, t) := release_writer x t in Some (Ok tt, drop_tx x t, d)
  else
    let c := context x in
    match (required ← required_log_blocks total (features (superblock c));
           available ← ring_len (superblock c);
           mret ((max_deferred_blocks <=? total) || (Z.of_nat available <=? saturating_mul required 2)) : res bool) with
    | None => None
    | Some (Err e) => Some (Err (e, BeforeCommit), drop_tx x t, d)
    | Some (Ok true) => commit_journal x t d
    | Some (Ok false) =>
        let t := absorb_deferred_staged t in
        Some (Ok tt, drop_tx (set_deferred x (Some (images (staged t)))) (set_staged t bt_empty), record d Publish)
    end.

Definition flush_deferred_transaction (x : JournalCore) (d : Device)
    : option (result bool CommitError * JournalCore * Device) :=
  if writer x then Some (Err (EAGAIN, BeforeCommit), x, d)
  else
    let x := set_writer x true in
    match deferred_transaction (context x) with
    | None => Some (Ok false, set_writer x false, d)
    | Some m =>
        match commit_journal (set_deferred x None) (from_deferred m) d with
        | None => None
        | Some (Ok _, x, d) => Some (Ok true, x, d)
        | Some (Err e, x, d) => Some (Err e, x, d)
        end
    end.
