(* ===== verification/JournalLog.v ===== *)
(** The log of a transaction: the bytes that [encode_log] (JournalTx.v) writes, and that the tags
    of a descriptor are read back (JournalRecovery.v).

    With checksums the writer puts the UUID of the journal after the first tag and the reader does
    not expect it there, so that only descriptors with one tag are read back ([readable]). *)

From stdpp Require Import base numbers option list gmap.
From S2P Require Import Prelude Slice BTree Jbd2 JournalDev JournalRecovery JournalTx.

Section log.
Context (sb : Superblock) (seed seq : Z).

Definition escaped (img : block) : bool := from_be (take 4 img) =? MAGIC.
Definition log_image (img : block) : block := if escaped img then replicate 4 0 ++ drop 4 img else img.

Definition flags_of (is_first is_last : bool) (img : block) : Z :=
  or_flag is_last FLAG_LAST_TAG (or_flag (escaped img) FLAG_ESCAPE (if is_first then 0 else FLAG_SAME_UUID)).

Definition csum_of (img : block) : option Z :=
  match checksum (features sb) with V3 => Some (tag_checksum seed seq (log_image img)) | ChecksumNone => None end.

Definition home_fits (home : Z) : Prop :=
  0 <= home < usize_modulus /\
  (match checksum (features sb) with V3 => has_64bit (features sb) = true \/ home <= U32_MAX
                                   | ChecksumNone => home <= U32_MAX end).

Definition tag_words (is_first is_last : bool) (home : Z) (img : block) : list Z :=
  to_be 4 (wrap32 home) ++
  (match checksum (features sb) with
   | V3 => to_be 4 (flags_of is_first is_last img) ++ to_be 4 (wrap32 (Z.shiftr home 32))
             ++ to_be 4 (tag_checksum seed seq (log_image img))
   | ChecksumNone => replicate 2 0 ++ to_be 2 (flags_of is_first is_last img)
                       ++ (if has_64bit (features sb) then replicate 4 0 else [])
   end).
Definition tag_string (is_first is_last : bool) (home : Z) (img : block) : list Z :=
  tag_words is_first is_last home img ++ (if is_first then uuid sb else []).

Fixpoint tags_string (is_first : bool) (group : list (Z * block)) : list Z :=
  match group with
  | [] => []
  | (home, img) :: group => tag_string is_first (bool_decide (group = [])) home img ++ tags_string false group
  end.

Fixpoint tags_of (is_first : bool) (group : list (Z * block)) : list Tag :=
  match group with
  | [] => []
  | (home, img) :: group =>
      mk_tag home (flags_of is_first (bool_decide (group = [])) img) (csum_of img) :: tags_of false group
  end.

Definition tag_len (is_first : bool) : nat := (tag_bytes (features sb) + if is_first then 16 else 0)%nat.

Lemma flags_small is_first is_last img : 0 <= flags_of is_first is_last img < 16.
Proof. unfold flags_of. by destruct is_first, is_last, (escaped img). Qed.

Lemma log_image_length img : (4 <= length img)%nat -> length (log_image img) = length img.
Proof. intros H. unfold log_image. destruct (escaped img); [|done]. rewrite length_app, length_replicate, length_drop. lia. Qed.

Lemma log_image_no_magic img : from_be (take 4 (log_image img)) <> MAGIC.
Proof.
  unfold log_image. destruct (escaped img) eqn:E; [|by apply Z.eqb_neq in E].
  rewrite take_app_length' by (by rewrite length_replicate). done.
Qed.

Context (Hu : length (uuid sb) = 16%nat) (Hseed : is_u32 seed).

Lemma escape_ok img : (4 <= length img)%nat ->
  (if escaped img then put img 0 (replicate 4 0) else mret img : res block) = mret (log_image img).
Proof.
  intros H. unfold log_image. destruct (escaped img); [|done].
  rewrite put_at_ok by (rewrite length_replicate; lia). done.
Qed.

Lemma tag_words_length is_first is_last home img : length (tag_words is_first is_last home img) = tag_bytes (features sb).
Proof.
  unfold tag_words, tag_bytes.
  destruct (checksum (features sb)), (has_64bit (features sb)); by rewrite ?length_app, ?to_be_length, ?length_replicate.
Qed.

Lemma tag_string_length is_first is_last home img : length (tag_string is_first is_last home img) = tag_len is_first.
Proof. unfold tag_string, tag_len. rewrite length_app, tag_words_length. by destruct is_first; rewrite ?Hu. Qed.

Lemma put_words is_first is_last home img l n : home_fits home -> (tag_bytes (features sb) <= n)%nat ->
  (descriptor ← put (l ++ replicate n 0) (length l) (to_be 4 (wrap32 home));
   match checksum (features sb) with
   | V3 =>
       if negb (has_64bit (features sb)) && (U32_MAX <? home) then err ENOTSUP
       else
         descriptor ← put descriptor (length l + 4) (to_be 4 (flags_of is_first is_last img));
         descriptor ← put descriptor (length l + 8) (to_be 4 (wrap32 (Z.shiftr home 32)));
         put descriptor (length l + 12) (to_be 4 (tag_checksum seed seq (log_image img)))
   | ChecksumNone =>
       if U32_MAX <? home then err ENOTSUP
       else put descriptor (length l + 6) (to_be 2 (flags_of is_first is_last img))
   end : res block)
  = mret (l ++ tag_words is_first is_last home img ++ replicate (n - tag_bytes (features sb)) 0).
Proof.
  intros [Hr Hf] Hn.
  rewrite put_zeros, bind_ok by (rewrite ?to_be_length; unfold tag_bytes in Hn; repeat case_match; lia). revert Hn.
  rewrite to_be_length, app_assoc. set (l4 := l ++ to_be 4 (wrap32 home)).
  assert (L4 : length l4 = (length l + 4)%nat) by (unfold l4; by rewrite length_app, to_be_length).
  unfold tag_words, tag_bytes. destruct (checksum (features sb)).
  - intros Hn. destruct (Z.ltb_spec U32_MAX home); [lia|].
    rewrite (put_gap l4 _ _ 2) by (rewrite ?to_be_length; case_match; lia). f_equal. unfold l4.
    rewrite to_be_length, <- !app_assoc. do 4 f_equal. destruct (has_64bit (features sb)).
    + rewrite <- replicate_add. f_equal. lia.
    + rewrite app_nil_l. f_equal. lia.
  - intros Hn. replace (negb (has_64bit (features sb)) && (U32_MAX <? home)) with false
      by (destruct Hf as [->|Hf]; [done|rewrite (proj2 (Z.ltb_ge _ _) Hf); by rewrite andb_false_r]).
    assert (16 <= n)%nat by (destruct (has_64bit (features sb)); lia).
    do 3 (rewrite put_zeros, ?bind_ok, ?to_be_length, ?(app_assoc _ (to_be _ _))
      by (rewrite ?length_app, ?to_be_length, ?L4; lia)).
    f_equal. unfold l4. rewrite <- !app_assoc. do 5 f_equal. destruct (has_64bit (features sb)); f_equal; lia.
Qed.

Lemma encode_tag_ok is_first is_last home img l n :
  home_fits home -> (4 <= length img)%nat -> (tag_len is_first <= n)%nat ->
  encode_tag sb seed seq is_first is_last home img (l ++ replicate n 0) (length l)
  = mret (l ++ tag_string is_first is_last home img ++ replicate (n - tag_len is_first) 0,
          (length l + tag_len is_first)%nat, log_image img).
Proof.
  intros Hf Hi Hn. unfold encode_tag. rewrite range_ok, bind_ok by lia. change (from_be (sl img 0 4) =? MAGIC) with (escaped img).
  rewrite escape_ok, bind_ok by done. fold (flags_of is_first is_last img).
  pose proof (put_words is_first is_last home img l n Hf) as W. unfold tag_len in *.
  etransitivity; [apply (bind_via _ _ _ _ (W ltac:(lia)))|]. unfold tag_string, tag_len. destruct is_first.
  - rewrite app_assoc, put_zeros, bind_ok by (rewrite ?length_app, ?tag_words_length, ?Hu; lia).
    rewrite Hu, <- !app_assoc. f_equal. f_equal. f_equal; [|lia]. do 4 f_equal. lia.
  - by rewrite !app_nil_r, !Nat.add_0_r.
Qed.

Definition group_ok (group : list (Z * block)) : Prop :=
  Forall (fun e => home_fits e.1 /\ length e.2 = BLOCK_SIZE) group.

Lemma encode_group_ok is_first group : forall l n, group_ok group -> (length (tags_string is_first group) <= n)%nat ->
  encode_group sb seed seq is_first group (l ++ replicate n 0) (length l)
  = mret (l ++ tags_string is_first group ++ replicate (n - length (tags_string is_first group)) 0, log_image <$> group.*2).
Proof.
  revert is_first. induction group as [|[home img] group IH]; intros is_first l n Hg Hn.
  { simpl. by rewrite Nat.sub_0_r. }
  apply Forall_cons in Hg as [[Hf Hi] Hg]. cbn [tags_string encode_group] in *.
  rewrite length_app, tag_string_length in Hn. pose proof block_size_val.
  rewrite encode_tag_ok, bind_ok by (done || (simpl in Hi; lia)). rewrite app_assoc.
  replace (length l + tag_len is_first)%nat with (length (l ++ tag_string is_first (bool_decide (group = [])) home img))
    by (by rewrite length_app, tag_string_length).
  rewrite IH, bind_ok by (done || lia). do 2 f_equal. rewrite length_app, tag_string_length, <- !app_assoc.
  do 4 f_equal. lia.
Qed.

Lemma encode_tag_fits is_first is_last home img l n x : 0 <= home < usize_modulus -> (4 <= length img)%nat ->
  (4 <= n)%nat -> encode_tag sb seed seq is_first is_last home img (l ++ replicate n 0) (length l) = Some (Ok x) ->
  home_fits home.
Proof.
  intros Hr Hi Hn H. split; [done|]. unfold encode_tag in H. rewrite range_ok, bind_ok in H by lia.
  change (from_be (sl img 0 4) =? MAGIC) with (escaped img) in H. rewrite escape_ok, bind_ok in H by done.
  rewrite put_zeros, bind_ok in H by (rewrite ?to_be_length; lia). apply bind_Ok in H as (d & H & _).
  destruct (checksum (features sb)).
  - by destruct (Z.ltb_spec U32_MAX home); [|lia].
  - destruct (has_64bit (features sb)); [by left|]. destruct (Z.ltb_spec U32_MAX home); [done|by right].
Qed.

Lemma encode_group_fits is_first group : forall l n x,
  Forall (fun e => 0 <= e.1 < usize_modulus /\ length e.2 = BLOCK_SIZE) group ->
  (length (tags_string is_first group) <= n)%nat ->
  encode_group sb seed seq is_first group (l ++ replicate n 0) (length l) = Some (Ok x) -> group_ok group.
Proof.
  revert is_first. induction group as [|[home img] group IH]; intros is_first l n x Hg Hn H; [constructor|].
  apply Forall_cons in Hg as [[Hr Hi] Hg]. cbn [tags_string encode_group fst snd] in *. pose proof block_size_val.
  rewrite length_app, tag_string_length in Hn. assert (4 <= tag_len is_first)%nat
    by (unfold tag_len, tag_bytes; repeat case_match; lia).
  destruct (bind_Ok _ _ _ H) as (y & E1 & E2). 
  assert (home_fits home) as Hf by (eapply encode_tag_fits; [exact Hr| | |exact E1]; lia).
  apply Forall_cons. split; [done|]. rewrite encode_tag_ok in E1 by (done || lia). apply ret_inj in E1 as <-.
  cbv beta iota in E2. apply bind_Ok in E2 as (z & E2 & _).
  rewrite app_assoc in E2.
  replace (length l + tag_len is_first)%nat with (length (l ++ tag_string is_first (bool_decide (group = [])) home img))
    in E2 by (by rewrite length_app, tag_string_length).
  eapply (IH false); [done| |exact E2]. lia.
Qed.

(** ** Descriptors *)

Definition desc_body (group : list (Z * block)) : list Z :=
  header_bytes (mk_header Descriptor seq) ++ tags_string true group
    ++ replicate (BLOCK_SIZE - 12 - length (tags_string true group) - tail_bytes (features sb)) 0.
Definition desc_block (group : list (Z * block)) : block :=
  desc_body group ++
  match checksum (features sb) with
  | V3 => to_be 4 (crc32 (crc32 seed (desc_body group)) (replicate 4 0))
  | ChecksumNone => []
  end.

Lemma desc_body_length group :
  (12 + length (tags_string true group) + tail_bytes (features sb) <= BLOCK_SIZE)%nat ->
  length (desc_body group) = (BLOCK_SIZE - tail_bytes (features sb))%nat.
Proof.
  clear Hu Hseed. intros H. unfold desc_body. rewrite !length_app, header_bytes_length, length_replicate. lia.
Qed.

Lemma desc_block_length group :
  (12 + length (tags_string true group) + tail_bytes (features sb) <= BLOCK_SIZE)%nat ->
  length (desc_block group) = BLOCK_SIZE.
Proof.
  clear Hu Hseed.
  intros H. unfold desc_block. rewrite length_app, desc_body_length by done. revert H. rewrite tail_bytes_val.
  destruct (checksum (features sb)); intros H; rewrite ?to_be_length; simpl; lia.
Qed.

Lemma encode_chunk_ok group : group_ok group ->
  (12 + length (tags_string true group) + tail_bytes (features sb) <= BLOCK_SIZE)%nat ->
  encode_chunk sb seed seq group = mret (desc_block group :: (log_image <$> group.*2)).
Proof.
  intros Hg Hn. unfold encode_chunk. pose proof block_size_val. rewrite encode_into_zeros, bind_ok by lia.
  pose proof (encode_group_ok true group (header_bytes (mk_header Descriptor seq)) (BLOCK_SIZE - 12) Hg) as E.
  rewrite header_bytes_length in E. unfold HEADER_BYTES. rewrite E, bind_ok by lia. clear E.
  pose proof (desc_body_length group Hn) as HB. unfold desc_block. revert Hn HB. unfold desc_body. rewrite tail_bytes_val.
  destruct (checksum (features sb)); intros Hn HB.
  - by rewrite bind_ok, app_nil_r, Nat.sub_0_r.
  - set (h := header_bytes _) in *. rewrite !(app_assoc h) in *. set (l := h ++ tags_string true group) in *.
    set (k := (BLOCK_SIZE - 12 - length (tags_string true group) - 4)%nat) in *.
    replace (BLOCK_SIZE - 12 - length (tags_string true group))%nat with (k + 4)%nat by lia.
    rewrite replicate_add, app_assoc. set (body := l ++ replicate k 0) in *.
    unfold block_checksum, BLOCK_TAIL_BYTES. rewrite length_app, length_replicate, (proj2 (Nat.ltb_ge _ _)) by lia.
    replace (length body + 4 - 4)%nat with (length body) by lia. rewrite range_ok by (rewrite length_app; lia).
    unfold sl. rewrite Nat.sub_0_r, drop_0, take_app_length, !bind_ok.
    rewrite put_zeros, bind_ok by (rewrite ?to_be_length; lia). by rewrite to_be_length, app_nil_r.
Qed.

(** ** Reading tags back *)

(** Which groups the reader understands. *)
Definition readable (is_first : bool) (group : list (Z * block)) : Prop :=
  checksum (features sb) = ChecksumNone \/ is_first = false \/ length group = 1%nat.

Lemma shiftr_u32 home : 0 <= home < usize_modulus -> is_u32 (Z.shiftr home 32).
Proof. intros H. rewrite Z.shiftr_div_pow2 by lia. word_unfold. split; [apply Z.div_pos; lia|apply Z.div_lt_upper_bound; lia]. Qed.

Lemma wrap32_u32 x : is_u32 (wrap32 x).
Proof. unfold is_u32, wrap32. apply Z.mod_pos_bound. done. Qed.

Lemma wrap32_id x : is_u32 x -> wrap32 x = x.
Proof. apply Z.mod_small. Qed.

Lemma home_words home : 0 <= home -> Z.lor (wrap32 home) (Z.shiftl (Z.shiftr home 32) 32) = home.
Proof.
  intros H. unfold wrap32, u32_modulus. rewrite <- Z.land_ones by lia. apply Z.bits_inj. intros i.
  destruct (Z.ltb_spec i 0); [by rewrite !Z.testbit_neg_r|].
  rewrite Z.lor_spec, Z.land_spec, Z.testbit_ones_nonneg, Z.shiftl_spec by lia. destruct (Z.ltb_spec i 32).
  - rewrite (Z.testbit_neg_r _ (i - 32)) by lia. by rewrite andb_true_r, orb_false_r.
  - rewrite Z.shiftr_spec, andb_false_r, orb_false_l by lia. f_equal. lia.
Qed.

Lemma shiftr_small home : 0 <= home <= U32_MAX -> Z.shiftr home 32 = 0.
Proof. intros H. rewrite Z.shiftr_div_pow2 by lia. apply Z.div_small. unfold U32_MAX in H. lia. Qed.

(** The words of one tag. *)
Lemma parse_words is_first is_last home img l r : home_fits home ->
  be32 (l ++ tag_words is_first is_last home img ++ r) (length l) = mret (wrap32 home) /\
  (match checksum (features sb) with
   | V3 =>
       encoded_high ← be32 (l ++ tag_words is_first is_last home img ++ r) (length l + 8);
       if negb (has_64bit (features sb)) && negb (encoded_high =? 0) then malformed
       else
         flags ← be32 (l ++ tag_words is_first is_last home img ++ r) (length l + 4);
         c ← be32 (l ++ tag_words is_first is_last home img ++ r) (length l + 12);
         mret (flags, if has_64bit (features sb) then encoded_high else 0, Some c)
   | ChecksumNone =>
       flags ← be16 (l ++ tag_words is_first is_last home img ++ r) (length l + 6);
       high ← (if has_64bit (features sb) then be32 (l ++ tag_words is_first is_last home img ++ r) (length l + 8) else mret 0);
       mret (flags, high, None)
   end : res (Z * Z * option Z)) = mret (flags_of is_first is_last img, Z.shiftr home 32, csum_of img).
Proof.
  intros [Hr Hf]. pose proof (flags_small is_first is_last img) as Hs. pose proof (shiftr_u32 home Hr) as Hh.
  unfold tag_words, csum_of. rewrite (wrap32_id _ Hh). set (lo := to_be 4 (wrap32 home)).
  assert (L : length (l ++ lo) = (length l + 4)%nat) by (unfold lo; by rewrite length_app, to_be_length).
  split; [rewrite <- app_assoc; apply be32_app; [done|apply wrap32_u32]|].
  destruct (checksum (features sb)).
  - set (fl := to_be 2 (flags_of is_first is_last img)). set (z := if has_64bit (features sb) then replicate 4 0 else []).
    assert (E : l ++ (lo ++ replicate 2 0 ++ fl ++ z) ++ r = (l ++ lo ++ replicate 2 0) ++ fl ++ z ++ r)
      by (by rewrite <- !app_assoc). rewrite E.
    rewrite (be16_app (l ++ lo ++ replicate 2 0) (flags_of is_first is_last img) (z ++ r)), bind_ok
      by (rewrite ?length_app, ?length_replicate; unfold lo; rewrite ?to_be_length; lia).
    rewrite shiftr_small by lia. unfold z. destruct (has_64bit (features sb)); [|done].
    rewrite (app_assoc _ fl), (be32_app _ 0); [done| |done]. rewrite !length_app, length_replicate. unfold lo, fl.
    rewrite !to_be_length. lia.
  - set (fl := to_be 4 (flags_of is_first is_last img)). set (hi := to_be 4 (Z.shiftr home 32)).
    set (cs := to_be 4 (tag_checksum seed seq (log_image img))).
    assert (E1 : l ++ (lo ++ fl ++ hi ++ cs) ++ r = (l ++ lo ++ fl) ++ hi ++ cs ++ r) by (by rewrite <- !app_assoc).
    assert (E2 : l ++ (lo ++ fl ++ hi ++ cs) ++ r = (l ++ lo) ++ fl ++ hi ++ cs ++ r) by (by rewrite <- !app_assoc).
    assert (E3 : l ++ (lo ++ fl ++ hi ++ cs) ++ r = (l ++ lo ++ fl ++ hi) ++ cs ++ r) by (by rewrite <- !app_assoc).
    rewrite E1 at 1. rewrite (be32_app (l ++ lo ++ fl) (Z.shiftr home 32) (cs ++ r)), bind_ok
      by (done || (rewrite !length_app; unfold lo, fl; rewrite !to_be_length; lia)).
    replace (negb (has_64bit (features sb)) && negb (Z.shiftr home 32 =? 0)) with false
      by (destruct Hf as [->|Hf]; [done|rewrite shiftr_small by lia; by rewrite andb_false_r]).
    rewrite E2 at 1. rewrite (be32_app (l ++ lo) (flags_of is_first is_last img) (hi ++ cs ++ r)), bind_ok by (lia || (word_unfold; lia)).
    rewrite E3 at 1. rewrite (be32_app (l ++ lo ++ fl ++ hi) (tag_checksum seed seq (log_image img)) r), bind_ok.
    + destruct (has_64bit (features sb)); [done|]. destruct Hf as [Hf|Hf]; [done|]. by rewrite shiftr_small by lia.
    + rewrite !length_app. unfold lo, fl, hi. rewrite !to_be_length. lia.
    + by apply crc32_u32, crc32_u32.
Qed.

Lemma flags_same_uuid is_first is_last img : (Z.land (flags_of is_first is_last img) FLAG_SAME_UUID =? 0) = is_first.
Proof. unfold flags_of. by destruct is_first, is_last, (escaped img). Qed.
Lemma flags_last is_first is_last img : negb (Z.land (flags_of is_first is_last img) FLAG_LAST_TAG =? 0) = is_last.
Proof. unfold flags_of. by destruct is_first, is_last, (escaped img). Qed.

Lemma parse_loop_ok tb group : forall is_first fuel stop l r, group <> [] -> group_ok group ->
  Forall (fun e => e.1 < tb) group -> readable is_first group -> (length group <= fuel)%nat ->
  (length l + length (tags_string is_first group) <= stop)%nat ->
  parse_tags_loop fuel (l ++ tags_string is_first group ++ r) sb tb stop (length l) = mret (tags_of is_first group).
Proof.
  induction group as [|[home img] group IH]; intros is_first fuel stop l r Hne Hg Ht Hr Hfuel Hs; [done|].
  destruct fuel as [|fuel]; [simpl in Hfuel; lia|]. apply Forall_cons in Hg as [[Hf Hi] Hg]. apply Forall_cons in Ht as [Hh Ht].
  cbn [tags_string tags_of parse_tags_loop] in *. set (is_last := bool_decide (group = [])) in *.
  rewrite length_app, tag_string_length in Hs. unfold tag_len in Hs. rewrite (proj2 (Nat.ltb_ge _ _)) by lia.
  unfold tag_string. rewrite <- !app_assoc. set (uu := if is_first then uuid sb else []).
  set (r' := uu ++ tags_string false group ++ r). destruct (parse_words is_first is_last home img l r' Hf) as [-> W].
  rewrite bind_ok. rewrite W, bind_ok. clear W. rewrite flags_same_uuid, flags_last.
  assert (U : (if bool_decide (checksum (features sb) = ChecksumNone) && is_first
     then u ← get (l ++ tag_words is_first is_last home img ++ r') (length l + tag_bytes (features sb))
                (length l + tag_bytes (features sb) + 16);
          if bool_decide (u = uuid sb) then mret (length l + tag_bytes (features sb) + 16)%nat else malformed
     else mret (length l + tag_bytes (features sb))%nat)
     = (mret (length l + tag_bytes (features sb) +
              (if bool_decide (checksum (features sb) = ChecksumNone) && is_first then 16 else 0))%nat : res nat)).
  { destruct (bool_decide _ && is_first) eqn:B; [|by rewrite Nat.add_0_r]. apply andb_true_iff in B as [_ ->].
    unfold r'. rewrite app_assoc, get_app, bind_ok by (rewrite ?length_app, ?tag_words_length; done).
    by rewrite bool_decide_true. }
  rewrite U, bind_ok. clear U. simpl in Hh. rewrite home_words by apply Hf. rewrite (proj2 (Z.leb_gt _ _)) by lia.
  destruct is_last eqn:L; [apply bool_decide_eq_true in L as ->; done|]. apply bool_decide_eq_false in L.
  assert (Hx : (if bool_decide (checksum (features sb) = ChecksumNone) && is_first then 16 else 0)%nat = length uu).
  { destruct Hr as [->|[->|Hr]]; [by destruct is_first; rewrite ?Hu| by rewrite andb_false_r|by destruct group]. }
  rewrite Hx. unfold r'. rewrite !app_assoc. rewrite <- (app_assoc _ (tags_string false group)).
  replace (length l + tag_bytes (features sb) + length uu)%nat
    with (length ((l ++ tag_words is_first false home img) ++ uu)) by (by rewrite !length_app, tag_words_length).
  rewrite IH, bind_ok; [done|done|done|done|by right; left|simpl in Hfuel; lia|].
  rewrite !length_app, tag_words_length. unfold uu. destruct is_first; rewrite ?Hu; simpl; lia.
Qed.

Lemma parse_desc tb group : group <> [] -> group_ok group -> Forall (fun e => e.1 < tb) group -> readable true group ->
  (12 + length (tags_string true group) + tail_bytes (features sb) <= BLOCK_SIZE)%nat ->
  parse_tags (desc_block group) sb tb = mret (tags_of true group).
Proof.
  intros Hne Hg Ht Hr Hn. unfold parse_tags. pose proof (desc_block_length group Hn) as HL.
  rewrite HL, (proj2 (Nat.ltb_ge _ _)) by lia. unfold desc_block, desc_body. rewrite <- !app_assoc.
  rewrite <- (header_bytes_length (mk_header Descriptor seq)) at 3. apply parse_loop_ok; try done.
  - assert (length group <= length (tags_string true group))%nat; [|lia]. clear. generalize true.
    induction group as [|[home img] group IH]; intros b; cbn [tags_string length]; [lia|].
    rewrite length_app. specialize (IH false).
    unfold tag_string. rewrite length_app, tag_words_length. unfold tag_bytes. repeat case_match; lia.
  - rewrite header_bytes_length. lia.
Qed.

(** *** Descriptors with checksums *)

Lemma be32_chunk l m r off : off = length l -> length m = 4%nat -> be32 (l ++ m ++ r) off = mret (from_be m).
Proof. intros E H. unfold be32. by rewrite (get_app l m r off 4 E (eq_sym H)). Qed.

(** The block that the UUID names when it is read as a tag. *)
Definition uuid_target : Z :=
  Z.lor (from_be (take 4 (uuid sb))) (Z.shiftl (if has_64bit (features sb) then from_be (take 4 (drop 8 (uuid sb))) else 0) 32).

Lemma parse_desc_v3 tb h1 i1 e2 group : checksum (features sb) = V3 -> group_ok ((h1, i1) :: e2 :: group) -> h1 < tb -> tb <= uuid_target ->
  (12 + length (tags_string true ((h1, i1) :: e2 :: group)) + tail_bytes (features sb) <= BLOCK_SIZE)%nat ->
  parse_tags (desc_block ((h1, i1) :: e2 :: group)) sb tb = malformed.
Proof.
  intros Hv Hg Hh Hu' Hn. unfold parse_tags. pose proof (desc_block_length _ Hn) as HL. pose proof block_size_val as Hb.
  assert (Ht : tag_bytes (features sb) = 16%nat) by (unfold tag_bytes; rewrite Hv; by destruct (has_64bit (features sb))).
  rewrite HL, (proj2 (Nat.ltb_ge _ _)) by lia. apply Forall_cons in Hg as [[Hf Hi] _].
  unfold desc_block, desc_body. cbn [tags_string] in *. rewrite bool_decide_false in * by done.
  set (ts := tags_string false (e2 :: group)) in *. rewrite length_app, tag_string_length in Hn. unfold tag_len in Hn. rewrite Ht in Hn.
  unfold tag_string. rewrite <- !app_assoc. match goal with |- context [uuid sb ++ ?x] => set (rest := x) end.
  set (hdr := header_bytes _).
  assert (Lh : length hdr = 12%nat) by apply header_bytes_length. rewrite <- Lh.
  assert (Lw : length (tag_words true false h1 i1) = 16%nat) by (by rewrite tag_words_length).
  cbn [parse_tags_loop]. rewrite Ht, (proj2 (Nat.ltb_ge _ (length hdr + 16))) by lia.
  destruct (parse_words true false h1 i1 hdr (uuid sb ++ rest) Hf) as [-> W]. rewrite bind_ok, W, bind_ok. clear W.
  rewrite Hv, bool_decide_false by done. cbn [andb]. rewrite bind_ok, flags_last, home_words by apply Hf.
  rewrite (proj2 (Z.leb_gt _ _)) by lia. cbn [negb].
  enough (E : forall fuel, (0 < fuel)%nat -> parse_tags_loop fuel (hdr ++ tag_words true false h1 i1 ++ uuid sb ++ rest) sb tb (BLOCK_SIZE - tail_bytes (features sb)) (length hdr + 16) = malformed)
    by (by rewrite E by lia).
  intros [|fuel] Hfu; [lia|]. cbn [parse_tags_loop]. rewrite Ht, (proj2 (Nat.ltb_ge _ _)) by lia.
  set (u := uuid sb) in *.
  set (pre := hdr ++ tag_words true false h1 i1). assert (Lp : length pre = (length hdr + 16)%nat) by (unfold pre; rewrite length_app; lia).
  assert (W : forall k, (k + 4 <= 16)%nat -> be32 (hdr ++ tag_words true false h1 i1 ++ u ++ rest) (length hdr + 16 + k) = mret (from_be (take 4 (drop k u)))).
  { intros k Hk. rewrite (app_assoc hdr). fold pre.
    assert (Ek : u ++ rest = take k u ++ take 4 (drop k u) ++ (drop (k + 4) u ++ rest)).
    { rewrite !app_assoc. f_equal. by rewrite <- app_assoc, <- drop_drop, take_drop, take_drop. }
    rewrite Ek, (app_assoc pre). apply be32_chunk; rewrite ?length_app, ?length_take, ?length_drop; lia. }
  pose proof (W 0%nat ltac:(lia)) as W0. rewrite Nat.add_0_r in W0. rewrite W0, bind_ok. rewrite Hv, !W, bind_ok by lia.
  unfold uuid_target in Hu'. fold u in Hu'. rewrite drop_0. destruct (has_64bit (features sb)); cbn [negb andb].
  - rewrite !bind_ok, bool_decide_false by done. cbn [andb]. rewrite bind_ok. by rewrite (proj2 (Z.leb_le _ _)) by lia.
  - destruct (_ =? 0); cbn [negb]; [|done]. rewrite !bind_ok, bool_decide_false by done. cbn [andb]. rewrite bind_ok.
    by rewrite (proj2 (Z.leb_le _ _)) by lia.
Qed.

(** ** The whole log *)

Definition chunk_blocks (group : list (Z * block)) : list block := desc_block group :: (log_image <$> group.*2).
Definition log_blocks (groups : list (list (Z * block))) : list block := groups ≫= chunk_blocks.

Lemma tags_string_length is_first group : group <> [] ->
  length (tags_string is_first group) = (length group * tag_bytes (features sb) + if is_first then 16 else 0)%nat.
Proof.
  intros Hne. assert (F : forall g, length (tags_string false g) = (length g * tag_bytes (features sb))%nat).
  { induction g as [|[home img] g IH]; [done|]. cbn [tags_string length]. rewrite length_app, tag_string_length, IH.
    unfold tag_len. lia. }
  destruct group as [|[home img] g]; [done|]. cbn [tags_string length]. rewrite length_app, tag_string_length, F.
  unfold tag_len. lia.
Qed.

Lemma tags_per_val : exists per, tags_per_descriptor (features sb) = mret per /\ (0 < per)%nat /\
  (28 + tail_bytes (features sb) + per * tag_bytes (features sb) <= BLOCK_SIZE)%nat.
Proof.
  pose proof block_size_val as Hb. unfold tags_per_descriptor, HEADER_BYTES. rewrite tail_bytes_val.
  set (ov := (12 + 16 + _)%nat). assert (Ho : (28 <= ov <= 32)%nat) by (unfold ov; case_match; lia).
  rewrite (proj2 (Nat.ltb_ge _ _)) by lia. set (tb := tag_bytes (features sb)).
  assert (Ht : (8 <= tb <= 16)%nat) by (unfold tb, tag_bytes; repeat case_match; lia).
  assert (Hp : (0 < (BLOCK_SIZE - ov) / tb)%nat) by (apply Nat.div_str_pos; lia).
  rewrite (proj2 (Nat.eqb_neq _ _)) by lia. eexists. split; [done|]. split; [done|].
  pose proof (Nat.Div0.mul_div_le (BLOCK_SIZE - ov) tb). unfold ov in *. lia.
Qed.

Lemma group_room per group : (28 + tail_bytes (features sb) + per * tag_bytes (features sb) <= BLOCK_SIZE)%nat ->
  group <> [] -> (length group <= per)%nat ->
  (12 + length (tags_string true group) + tail_bytes (features sb) <= BLOCK_SIZE)%nat.
Proof. intros Hp Hne Hl. rewrite tags_string_length by done. nia. Qed.

Lemma encode_chunks_ok groups : Forall (fun g => group_ok g /\
    (12 + length (tags_string true g) + tail_bytes (features sb) <= BLOCK_SIZE)%nat) groups ->
  encode_chunks sb seed seq groups = mret (log_blocks groups).
Proof.
  induction 1 as [|g groups [Hg Hr] _ IH]; [done|]. cbn [encode_chunks]. rewrite encode_chunk_ok, bind_ok by done.
  by rewrite IH, bind_ok.
Qed.

Lemma encode_chunk_fits group x :
  Forall (fun e => 0 <= e.1 < usize_modulus /\ length e.2 = BLOCK_SIZE) group ->
  (12 + length (tags_string true group) + tail_bytes (features sb) <= BLOCK_SIZE)%nat ->
  encode_chunk sb seed seq group = Some (Ok x) -> group_ok group.
Proof.
  intros Hg Hn H. unfold encode_chunk in H. pose proof block_size_val. rewrite encode_into_zeros, bind_ok in H by lia.
  apply bind_Ok in H as (y & H & _). unfold HEADER_BYTES in H.
  rewrite <- (header_bytes_length (mk_header Descriptor seq)) in H at 2.
  eapply encode_group_fits; [exact Hg| |exact H]. lia.
Qed.
End log.

(** What [encode_log] writes, for any map of images. *)
Section encode_log.
Context (sb : Superblock) (seq : Z) (m : list (Z * block)).
Context (Hu : length (uuid sb) = 16%nat).
Context (Hm : Forall (fun e => 0 <= e.1 < usize_modulus /\ length e.2 = BLOCK_SIZE) m).

Definition per_descriptor : nat := match tags_per_descriptor (features sb) with Some (Ok n) => n | _ => 0 end.
Definition log_groups : list (list (Z * block)) := chunks per_descriptor m.
Definition log_seed : Z := checksum_seed (uuid sb).

Lemma per_spec : tags_per_descriptor (features sb) = mret per_descriptor /\ (0 < per_descriptor)%nat /\
  (28 + tail_bytes (features sb) + per_descriptor * tag_bytes (features sb) <= BLOCK_SIZE)%nat.
Proof. unfold per_descriptor. by destruct (tags_per_val sb) as (per & -> & H). Qed.

Lemma log_groups_spec : concat log_groups = m /\
  Forall (fun g => g <> [] /\ (12 + length (tags_string sb log_seed seq true g) + tail_bytes (features sb) <= BLOCK_SIZE)%nat
                   /\ Forall (fun e => 0 <= e.1 < usize_modulus /\ length e.2 = BLOCK_SIZE) g) log_groups /\
  length log_groups = ((length m + per_descriptor - 1) / per_descriptor)%nat.
Proof.
  destruct per_spec as (_ & Hp & Hr). destruct (chunks_spec per_descriptor m Hp) as (E1 & E2 & E3).
  split_and!; [done| |done]. assert (Hc : Forall (fun e => 0 <= e.1 < usize_modulus /\ length e.2 = BLOCK_SIZE) (concat log_groups))
    by (by unfold log_groups; rewrite E1).
  apply Forall_forall. intros g Hg. unfold log_groups in *. rewrite Forall_forall in E2. destruct (E2 g Hg) as [Hne Hl].
  split_and!; [done|by eapply group_room|]. apply Forall_forall. intros e He. rewrite Forall_forall in Hc. apply Hc.
  apply list_elem_of_In, in_concat. exists g. by split; apply list_elem_of_In.
Qed.

Lemma encode_log_ok enc : encode_log sb seq m = Some (Ok enc) ->
  Forall (group_ok sb) log_groups /\ enc = log_blocks sb log_seed seq log_groups.
Proof.
  intros H. unfold encode_log in H. destruct per_spec as (E & _ & _). rewrite E, bind_ok in H. fold log_groups log_seed in H.
  destruct log_groups_spec as (_ & HG & _). assert (F : Forall (group_ok sb) log_groups).
  - revert enc H HG. generalize log_groups. induction l as [|g l IH]; intros enc H HG; [constructor|].
    apply Forall_cons in HG as [(Hne & Hr & Hg) HG]. cbn [encode_chunks] in H. apply bind_Ok in H as (a & H1 & H2).
    apply bind_Ok in H2 as (b & H2 & _). constructor; [|by eapply IH]. by eapply encode_chunk_fits.
  - split; [done|]. rewrite encode_chunks_ok in H; [by apply ret_inj in H|done|].
    apply Forall_and. split; [done|]. eapply Forall_impl; [exact HG|]. by intros g (_ & Hr & _).
Qed.

Lemma encode_log_make : Forall (fun e => home_fits sb e.1) m -> encode_log sb seq m = mret (log_blocks sb log_seed seq log_groups).
Proof.
  intros Hh. unfold encode_log. destruct per_spec as (E & _ & _). rewrite E, bind_ok. fold log_groups log_seed.
  destruct log_groups_spec as (HC & HG & _). apply encode_chunks_ok; [done|]. apply Forall_forall. intros g Hg.
  rewrite Forall_forall in HG. destruct (HG g Hg) as (_ & Hr & Hl). split; [|done]. apply Forall_forall. intros e He.
  rewrite Forall_forall in Hl. split; [|by apply Hl]. rewrite Forall_forall in Hh. apply Hh. rewrite <- HC.
  apply list_elem_of_In, in_concat. exists g. by split; apply list_elem_of_In.
Qed.

(** The log has room for its commit record in the positions that were reserved. *)
Lemma log_length needed : required_log_blocks (Z.of_nat (length m)) (features sb) = Some (Ok needed) ->
  needed = Z.of_nat (length (log_blocks sb log_seed seq log_groups)) + 1.
Proof.
  intros H. unfold required_log_blocks in H. destruct per_spec as (E & Hp & _). rewrite E, bind_ok in H.
  destruct (checked_add (Z.of_nat (length m)) _) as [n|] eqn:E1; [|done]. apply checked_add_Some in E1 as [-> _].
  destruct (checked_add _ (_ / _)) as [n|] eqn:E2; [|done]. apply checked_add_Some in E2 as [-> _]. simpl in H.
  destruct (checked_add _ 1) as [n|] eqn:E3; [|done]. apply checked_add_Some in E3 as [-> _]. injection H as <-.
  assert (L : forall gs, length (log_blocks sb log_seed seq gs) = (length (concat gs) + length gs)%nat).
  { induction gs as [|g gs IH]; [done|]. unfold log_blocks in *. cbn [mbind list_bind concat length].
    rewrite !length_app, IH. unfold chunk_blocks. cbn [length]. rewrite !length_fmap. lia. }
  rewrite L. destruct log_groups_spec as (-> & _ & ->).
  rewrite Nat2Z.inj_add, Nat2Z.inj_div, Nat2Z.inj_sub, Nat2Z.inj_add by lia. do 2 f_equal. f_equal. lia.
Qed.
End encode_log.
