(* ===== verification/JournalWalk.v ===== *)
(** What recovery (JournalRecovery.v) does with a journal that holds the log of a transaction
    (JournalLog.v), complete or in part: the superblock, the three passes, and their writes. *)

From stdpp Require Import base numbers option list gmap.
From S2P Require Import Prelude Slice BTree Jbd2 JournalDev JournalRecovery JournalTx JournalLog.

(** ** The superblock *)

Definition sb_csum (l : list Z) : Z := crc32 (crc32 (crc32 U32_MAX (sl l 0 252)) (replicate 4 0)) (sl l 256 1024).

Section put4.
Context (l : list Z) (t : nat) (v : Z) (Hl : (t + 4 <= length l)%nat).

Definition put4 : list Z := spliced l t (to_be 4 v).

Lemma put4_length : length put4 = length l.
Proof. apply spliced_length. by rewrite to_be_length. Qed.
Lemma put4_other a b : (b <= t \/ t + 4 <= a)%nat -> sl put4 a b = sl l a b.
Proof. intros [H|H]; [apply spliced_before|apply spliced_after]; rewrite ?to_be_length; lia. Qed.
Lemma put4_same : sl put4 t (t + 4) = to_be 4 v.
Proof. rewrite <- (to_be_length 4 v) at 2. apply spliced_at. by rewrite to_be_length. Qed.
End put4.

(** The superblock with another sequence number and start. *)
Definition sb_fields (l : list Z) (seq st : Z) : list Z := put4 (put4 l 24 seq) 28 st.
Definition sb_update (csum : ChecksumMode) (l : list Z) (seq st : Z) : list Z :=
  let l := sb_fields l seq st in
  match csum with V3 => put4 l 252 (sb_csum l) | ChecksumNone => l end.

Definition with_start (sb : Superblock) (seq st : Z) : Superblock :=
  mk_superblock (block_size sb) (max_len sb) (first sb) seq st (errno sb) (features sb) (uuid sb) (checksum_type sb).

Section sb_update.
Context (csum : ChecksumMode) (l : list Z) (seq st : Z) (Hl : (1024 <= length l)%nat).

Lemma sb_fields_length : length (sb_fields l seq st) = length l.
Proof. unfold sb_fields. rewrite !put4_length; rewrite ?put4_length; lia. Qed.

Lemma sb_update_length : length (sb_update csum l seq st) = length l.
Proof.
  pose proof sb_fields_length. unfold sb_update. destruct csum; [done|]. rewrite put4_length; lia.
Qed.

Lemma sb_update_other a b : (b <= 24 \/ 32 <= a)%nat -> (b <= 252 \/ 256 <= a)%nat ->
  sl (sb_update csum l seq st) a b = sl l a b.
Proof.
  intros H1 H2. pose proof sb_fields_length as E.
  assert (F : sl (sb_fields l seq st) a b = sl l a b)
    by (unfold sb_fields; rewrite !put4_other; rewrite ?put4_length; lia || done).
  unfold sb_update. destruct csum; [done|]. rewrite put4_other by lia. done.
Qed.

Lemma sb_update_sequence : sl (sb_update csum l seq st) 24 28 = to_be 4 seq.
Proof.
  pose proof sb_fields_length as E. assert (F : sl (sb_fields l seq st) 24 28 = to_be 4 seq).
  { unfold sb_fields. rewrite put4_other by (rewrite ?put4_length; lia). apply (put4_same l 24). lia. }
  unfold sb_update. destruct csum; [done|]. by rewrite put4_other by lia.
Qed.
Lemma sb_update_start : sl (sb_update csum l seq st) 28 32 = to_be 4 st.
Proof.
  pose proof sb_fields_length as E. assert (F : sl (sb_fields l seq st) 28 32 = to_be 4 st).
  { unfold sb_fields. apply (put4_same _ 28). rewrite put4_length; lia. }
  unfold sb_update. destruct csum; [done|]. by rewrite put4_other by lia.
Qed.
Lemma sb_update_csum : csum = V3 -> sl (sb_update csum l seq st) 252 256 = to_be 4 (sb_csum (sb_update csum l seq st)).
Proof.
  intros ->. pose proof sb_fields_length as E. unfold sb_update. rewrite (put4_same _ 252) by lia.
  unfold sb_csum at 2. by rewrite !put4_other by lia.
Qed.
End sb_update.

Lemma sb_csum_u32 l : is_u32 (sb_csum l).
Proof. by apply crc32_u32, crc32_u32, crc32_u32. Qed.

Lemma superblock_checksum_ok l : (1024 <= length l)%nat -> superblock_checksum l = mret (sb_csum l).
Proof.
  intros H. unfold superblock_checksum, need, SUPERBLOCK_BYTES. rewrite (proj2 (Nat.ltb_ge _ _)), bind_ok by lia.
  by rewrite !range_ok, !bind_ok by lia.
Qed.

Lemma header_parse_ext l l' : length l' = length l ->
  (forall off, (off = 0 \/ off = 4 \/ off = 8)%nat -> be32 l' off = be32 l off) -> header_parse l' = header_parse l.
Proof. intros E H. unfold header_parse, need. by rewrite E, !H by lia. Qed.

Lemma superblock_parse_update l bs sb seq st : superblock_parse l bs = Some (Ok sb) -> is_u32 seq -> is_u32 st ->
  st < max_len sb -> st = 0 \/ first sb <= st ->
  superblock_parse (sb_update (checksum (features sb)) l seq st) bs = mret (with_start sb seq st).
Proof.
  intros H Hseq Hst Hm Hr. unfold superblock_parse in H. apply bind_Ok in H as ([] & N & H).
  assert (Hl : (1024 <= length l)%nat).
  { unfold need, SUPERBLOCK_BYTES in N. destruct (Nat.ltb_spec (length l) 1024); [done|lia]. }
  set (l' := sb_update (checksum (features sb)) l seq st).
  assert (L' : length l' = length l) by (by apply sb_update_length).
  assert (B : forall off, (off + 4 <= 24 \/ 32 <= off)%nat -> (off + 4 <= 252)%nat -> be32 l' off = be32 l off).
  { intros off H1 H2. rewrite !be32_ok by lia. unfold l'. rewrite sb_update_other by lia. done. }
  assert (R : forall a b, (a <= b)%nat -> (32 <= a)%nat -> (b <= 252)%nat -> range l' a b = range l a b).
  { intros a b H0 H1 H2. rewrite !range_ok by lia. unfold l'. rewrite sb_update_other by lia. done. }
  unfold superblock_parse. rewrite (header_parse_ext l l' L') by (intros off [-> | [-> | ->]]; apply B; lia).
  rewrite (B 12%nat), (B 16%nat), (B 20%nat), (B 36%nat), (B 40%nat), (B 44%nat), (B 32%nat), !R by lia. unfold need, SUPERBLOCK_BYTES in *. rewrite L', (proj2 (Nat.ltb_ge _ _)), bind_ok by lia.
  apply bind_Ok in H as (h & -> & H). rewrite bind_ok. destruct (negb (bool_decide _)); [done|].
  apply bind_Ok in H as (b1 & -> & H). apply bind_Ok in H as (b2 & -> & H). apply bind_Ok in H as (b3 & -> & H).
  apply bind_Ok in H as (b4 & _ & H). rewrite !bind_ok. assert (S28 : be32 l' 28 = mret st).
  { rewrite be32_ok by lia. unfold l'. by rewrite (sb_update_start _ _ _ _ Hl), (from_be_to_be 4). }
  assert (S24 : be32 l' 24 = mret seq).
  { rewrite be32_ok by lia. unfold l'. by rewrite (sb_update_sequence _ _ _ _ Hl), (from_be_to_be 4). }
  rewrite S28, S24, bind_ok. destruct (negb (b1 =? bs) || _); [done|].
  destruct ((b2 <=? b3) || (b3 =? 0) || (b2 <=? b4) || _) eqn:G; [done|].
  apply bind_Ok in H as (c1 & -> & H). apply bind_Ok in H as (c2 & -> & H). apply bind_Ok in H as (c3 & -> & H).
  apply bind_Ok in H as (f & Ev & H). apply bind_Ok in H as (t & -> & H). apply bind_Ok in H as ([] & C & H).
  apply bind_Ok in H as (u & -> & H). apply bind_Ok in H as (s & _ & H). apply bind_Ok in H as (e & -> & H).
  apply ret_inj in H as <-. cbn [features first max_len] in *.
  replace ((b2 <=? b3) || (b3 =? 0) || (b2 <=? st) || (negb (st =? 0) && (st <? b3))) with false
    by (apply orb_false_iff in G as [G _]; apply orb_false_iff in G as [-> _]; rewrite (proj2 (Z.leb_gt _ _) Hm);
        destruct Hr as [-> | Hr]; [done|by rewrite (proj2 (Z.ltb_ge _ _) Hr), andb_false_r]).
  rewrite !bind_ok, Ev, !bind_ok.
  destruct (checksum f) eqn:Ef.
  - by rewrite C, bind_ok.
  - destruct (negb (from_be t =? CRC32C_CHKSUM)); [done|].
    rewrite superblock_checksum_ok, bind_ok, (be32_ok l' 252), bind_ok by lia. simpl (252 + 4)%nat.
    unfold l' at 2. rewrite sb_update_csum, (from_be_to_be 4) by (done || apply sb_csum_u32). fold l'.
    rewrite Z.eqb_refl. simpl negb. cbv iota. by rewrite bind_ok.
Qed.

Lemma put4_twice l t a b : (t + 4 <= length l)%nat -> put4 (put4 l t a) t b = put4 l t b.
Proof.
  intros H. unfold put4, spliced. rewrite !to_be_length. f_equal; [|f_equal].
  - by rewrite take_app_length' by (rewrite length_take; lia).
  - rewrite app_assoc, drop_app_length' by (rewrite length_app, length_take, to_be_length; lia). done.
Qed.

Lemma put4_app h r t v : (t + 4 <= length h)%nat -> put4 (h ++ r) t v = put4 h t v ++ r.
Proof.
  intros H. unfold put4, spliced. rewrite to_be_length, take_app_le, drop_app_le by lia. by rewrite <- !app_assoc.
Qed.

Lemma sl_app_l (h r : list Z) a b : (b <= length h)%nat -> sl (h ++ r) a b = sl h a b.
Proof.
  intros H. unfold sl. destruct (le_lt_dec a b) as [L|L]; [|by replace (b - a)%nat with 0%nat by lia].
  rewrite drop_app_le, take_app_le by (rewrite ?length_drop; lia). done.
Qed.

Lemma sb_update_app c h r seq st : length h = 1024%nat -> sb_update c (h ++ r) seq st = sb_update c h seq st ++ r.
Proof.
  intros H. pose proof (sb_fields_length h seq st) as L. unfold sb_update.
  assert (F : sb_fields (h ++ r) seq st = sb_fields h seq st ++ r)
    by (unfold sb_fields; rewrite !put4_app; rewrite ?put4_length; lia || done).
  rewrite F. destruct c; [done|]. rewrite put4_app by lia. unfold sb_csum. by rewrite !sl_app_l by lia.
Qed.

Lemma put_put4 l t v : (t + 4 <= length l)%nat -> put l t (to_be 4 v) = mret (put4 l t v).
Proof. intros H. apply put_at_ok. by rewrite to_be_length. Qed.
Lemma put32_put4 l t v : (t + 4 <= length l)%nat -> put32 l t v = mret (put4 l t v).
Proof. intros H. unfold put32. by rewrite (proj2 (Nat.leb_le _ _)). Qed.

(** Checksums do not depend on the field that holds them. *)
Lemma sb_csum_put4 l v : (1024 <= length l)%nat -> sb_csum (put4 l 252 v) = sb_csum l.
Proof. intros H. unfold sb_csum. by rewrite !put4_other by lia. Qed.

Lemma update_superblock_ok image seq st sb : (1024 <= length image)%nat ->
  update_superblock image seq st sb = mret (sb_update (checksum (features sb)) image seq st).
Proof.
  intros H. unfold update_superblock, sb_update. pose proof (sb_fields_length image seq st H) as L. unfold sb_fields in *.
  rewrite put_put4, bind_ok, put_put4, bind_ok by (rewrite ?put4_length; lia). destruct (checksum (features sb)); [done|].
  change (replicate 4 0) with (to_be 4 0). rewrite put_put4, bind_ok by lia.
  rewrite superblock_checksum_ok, bind_ok by (rewrite put4_length; lia).
  rewrite put_put4 by (rewrite put4_length; lia). by rewrite put4_twice, sb_csum_put4 by lia.
Qed.

(** ** The commit record *)

Section commit_block.
Context (sb : Superblock) (seq : Z) (Hs : is_u32 seq).

Definition commit_pre : list Z := header_bytes (mk_header Commit seq) ++ replicate 4 0.
Definition commit_block : block :=
  commit_pre ++
  (match checksum (features sb) with
   | V3 => to_be 4 (crc32 (crc32 (crc32 (log_seed sb) commit_pre) (replicate 4 0)) (replicate (BLOCK_SIZE - 20) 0))
   | ChecksumNone => replicate 4 0
   end) ++ replicate (BLOCK_SIZE - 20) 0.

Lemma commit_pre_length : length commit_pre = 16%nat.
Proof. unfold commit_pre. by rewrite length_app, header_bytes_length. Qed.

Lemma commit_block_length : length commit_block = BLOCK_SIZE.
Proof.
  pose proof block_size_val. unfold commit_block. rewrite !length_app, commit_pre_length, length_replicate.
  destruct (checksum (features sb)); rewrite ?to_be_length, ?length_replicate; lia.
Qed.

Lemma commit_checksum_at seed w : length w = 4%nat ->
  commit_checksum seed (commit_pre ++ w ++ replicate (BLOCK_SIZE - 20) 0)
  = mret (crc32 (crc32 (crc32 seed commit_pre) (replicate 4 0)) (replicate (BLOCK_SIZE - 20) 0)).
Proof.
  intros Hw. pose proof block_size_val. unfold commit_checksum, need.
  rewrite !length_app, commit_pre_length, Hw, length_replicate, (proj2 (Nat.ltb_ge _ _)), bind_ok by lia.
  rewrite !range_ok by (rewrite !length_app, commit_pre_length, Hw, length_replicate; lia). rewrite !bind_ok.
  assert (E1 : sl (commit_pre ++ w ++ replicate (BLOCK_SIZE - 20) 0) 0 16 = commit_pre).
  { rewrite sl_app_l by (rewrite commit_pre_length; lia). unfold sl. by rewrite drop_0, take_ge by (rewrite commit_pre_length; lia). }
  rewrite E1. unfold sl. rewrite app_assoc, drop_app_length' by (by rewrite length_app, commit_pre_length, Hw).
  by rewrite take_ge by (rewrite length_replicate; lia).
Qed.

Lemma encode_commit_ok : encode_commit sb seq = mret commit_block.
Proof.
  pose proof block_size_val. unfold encode_commit. rewrite encode_into_zeros, bind_ok by lia.
  replace (BLOCK_SIZE - 12)%nat with (4 + (4 + (BLOCK_SIZE - 20)))%nat by lia. rewrite !(replicate_add 4).
  rewrite app_assoc. fold commit_pre. unfold commit_block. destruct (checksum (features sb)); [done|].
  rewrite commit_checksum_at, bind_ok by done. fold (log_seed sb). set (c := crc32 _ _).
  by rewrite put_put4 by (rewrite !length_app, commit_pre_length, length_replicate; lia).
Qed.

Lemma commit_header : header_parse commit_block = mret (mk_header Commit seq).
Proof. unfold commit_block, commit_pre. rewrite <- !app_assoc. by apply header_parse_bytes. Qed.

Lemma commit_parse_ok : exists c, commit_parse commit_block (features sb) seq (log_seed sb) = mret c.
Proof.
  pose proof block_size_val. pose proof commit_block_length as L. unfold commit_parse, need.
  rewrite L, (proj2 (Nat.ltb_ge _ _)), bind_ok by lia. rewrite commit_header, bind_ok. cbn [block_type h_sequence].
  rewrite Z.eqb_refl. cbn [negb orb bool_decide]. rewrite bool_decide_true by done. cbn [negb orb].
  assert (E64 : exists v, be64 commit_block 48 = mret v)
    by (unfold be64; rewrite get_ok by lia; by eexists).
  destruct E64 as [v ->]. rewrite be32_ok by lia. unfold commit_block at 1 2 3. destruct (checksum (features sb)).
  - rewrite !bind_ok. by eexists.
  - rewrite commit_checksum_at, bind_ok, be32_app, bind_ok;
      [|by rewrite commit_pre_length|by apply crc32_u32, crc32_u32, crc32_u32, checksum_seed_u32|by rewrite to_be_length].
    rewrite Z.eqb_refl. cbn [negb]. rewrite !bind_ok. by eexists.
Qed.
End commit_block.

(** ** The ring *)

Section ring.
Context (sb : Superblock) (Hgeo : 0 < first sb < max_len sb) (Hu32 : max_len sb < u32_modulus).

Definition ring_size : Z := max_len sb - first sb.
Definition ring_pos (p : Z) : Prop := first sb <= p < max_len sb.
Definition rpos (h i : Z) : Z := first sb + (h - first sb + i) mod ring_size.

Lemma rpos_ring h i : ring_pos (rpos h i).
Proof. unfold ring_pos, rpos. pose proof (Z.mod_pos_bound (h - first sb + i) ring_size). unfold ring_size in *. lia. Qed.

Lemma rpos_0 h : ring_pos h -> rpos h 0 = h.
Proof. unfold ring_pos, rpos. intros H. rewrite Z.mod_small; unfold ring_size; lia. Qed.

Lemma advance_rpos h i : advance sb (rpos h i) = rpos h (i + 1).
Proof.
  pose proof (rpos_ring h i) as R. unfold advance, ring_pos, rpos in *. set (x := h - first sb + i) in *.
  replace (h - first sb + (i + 1)) with (x + 1) by lia. rewrite wrap32_id by (unfold is_u32; lia).
  pose proof (Z.mod_pos_bound x ring_size ltac:(unfold ring_size; lia)) as M.
  rewrite <- (Zplus_mod_idemp_l x 1). destruct (Z.eqb_spec (first sb + x mod ring_size + 1) (max_len sb)) as [E|E].
  - replace (x mod ring_size + 1) with ring_size by (unfold ring_size in *; lia). rewrite Z.mod_same by (unfold ring_size; lia). lia.
  - rewrite (Z.mod_small (x mod ring_size + 1)); unfold ring_size in *; lia.
Qed.

Lemma rpos_inj h i j : 0 <= i < ring_size -> 0 <= j < ring_size -> rpos h i = rpos h j -> i = j.
Proof.
  intros Hi Hj E. unfold rpos in E. assert (F : (h - first sb + i) mod ring_size = (h - first sb + j) mod ring_size) by lia.
  assert (G : (i - j) mod ring_size = 0).
  { replace (i - j) with ((h - first sb + i) - (h - first sb + j)) by lia. rewrite Zminus_mod, F, Z.sub_diag. apply Z.mod_0_l. lia. }
  apply Z.mod_divide in G as [k Hk]; [|lia]. assert (k = 0) by nia. nia.
Qed.

Lemma advance_ring p : ring_pos p -> ring_pos (advance sb p).
Proof. intros H. rewrite <- (rpos_0 p H), advance_rpos. apply rpos_ring. Qed.

Lemma ring_walk_lookup h n i : (i < n)%nat -> ring_walk sb n (rpos h 0) !! i = Some (rpos h (Z.of_nat i)).
Proof.
  intros H. replace (Z.of_nat i) with (0 + Z.of_nat i) by lia. revert i H. generalize 0. induction n as [|n IH]; intros k i H; [lia|].
  cbn [ring_walk]. destruct i as [|i]; [by rewrite Z.add_0_r|]. cbn [lookup list_lookup]. 
  change (ring_next sb (rpos h k)) with (advance sb (rpos h k)). rewrite advance_rpos. rewrite IH by lia. do 2 f_equal. lia.
Qed.

Lemma ring_walk_length n p : length (ring_walk sb n p) = n.
Proof. revert p. induction n as [|n IH]; intros p; [done|]. cbn [ring_walk length]. by rewrite IH. Qed.
End ring.

(** ** Reading the journal *)

Lemma verify_block_returns seed blk : length blk = BLOCK_SIZE -> returns (verify_block_checksum seed blk).
Proof.
  intros L. pose proof block_size_val. unfold verify_block_checksum, block_checksum, BLOCK_TAIL_BYTES.
  rewrite L, !(proj2 (Nat.ltb_ge _ _)) by lia. rewrite range_ok by lia. unfold malformed, err. no_panic.
Qed.

Section walk.
Context (r : RecoveryDevice) (B : disk) (sb : Superblock).
Context (Hgeo : 0 < first sb < max_len sb) (Hu32 : max_len sb < u32_modulus).
Context (Hmap : Z.of_nat (length (journal_blocks r)) = max_len sb).
Context (Hset : forall p, p ∈ journal_blocks r -> p ∈ journal_block_set r).
#[local] Instance io : JournalRecoveryIo Device := recovery_io r.

Definition phys (pos : Z) : Z := default 0 (journal_blocks r !! Z.to_nat pos).
Definition jb (pos : Z) : block := B (phys pos).

Lemma phys_lookup pos : 0 <= pos < max_len sb -> journal_blocks r !! Z.to_nat pos = Some (phys pos).
Proof.
  intros H. unfold phys. destruct (lookup_lt_is_Some_2 (journal_blocks r) (Z.to_nat pos)) as [p E]; [lia|]. by rewrite E.
Qed.

(** A trace of writes outside the journal. *)
Definition home_only (t : list dop) : Prop :=
  Forall (fun op => match op with Write b _ => b ∉ journal_block_set r | _ => True end) t.

Lemma home_only_content t p : home_only t -> p ∈ journal_block_set r -> content B t p = B p.
Proof.
  intros H Hp. induction t as [|op t IH] using rev_ind; [done|]. apply Forall_app in H as [H1 H2].
  rewrite Forall_singleton in H2. destruct op as [b v| |].
  - rewrite content_snoc_write. destruct (Z.eqb_spec b p) as [->|]; [done|by apply IH].
  - unfold content. rewrite cell_app. by apply IH.
  - unfold content. rewrite cell_app. by apply IH.
Qed.

Lemma does_read_journal pos t : 0 <= pos < max_len sb -> home_only t -> does B (read_journal pos) t (Ok (jb pos)) [].
Proof.
  intros Hp Ht. simpl. rewrite phys_lookup by done. unfold jb.
  rewrite <- (home_only_content t (phys pos) Ht); [apply does_read|].
  apply Hset. by eapply list_elem_of_lookup_2, phys_lookup.
Qed.

(** Reading a block of the ring, with its size checked. *)
Lemma does_read_sized {A} pos t (k : list Z -> sm Device ErrCode A) res ws :
  0 <= pos < max_len sb -> home_only t -> length (jb pos) = BLOCK_SIZE -> does B (k (jb pos)) t res ws ->
  does B (raw ← read_journal pos; check_size raw ;; k raw) t res ws.
Proof.
  intros Hp Ht Hl Hk. eapply does_bind_pure; [by apply does_read_journal|]. unfold check_size. simpl.
  rewrite Hl, Nat.eqb_refl. eapply does_bind_pure; [apply does_ret|done].
Qed.

(** A block of the ring that is not part of a committed transaction with number [S]. *)
Definition quiet (fsb S : Z) (blk : block) : Prop :=
  length blk = BLOCK_SIZE /\
  match header_parse blk with
  | Some (Ok h) =>
      h_sequence h < S \/
      (h_sequence h = S /\ block_type h = Descriptor /\ exists tags, parse_tags blk sb fsb = Some (Ok tags))
  | _ => True
  end.

Definition sized : Prop := forall p, ring_pos sb p -> length (jb p) = BLOCK_SIZE.

Lemma ring_range p : ring_pos sb p -> 0 <= p < max_len sb.
Proof. unfold ring_pos. lia. Qed.

Lemma scan_tags seed seq tags : forall c t, sized -> home_only t -> ring_pos sb (pos c) ->
  exists f, does B (walk_tags sb seed Scan seq tags c) t (Ok f) [] /\
    match f with Return s => s = seq | Go c' => ring_pos sb (pos c') /\ consumed c <= consumed c' end.
Proof.
  induction tags as [|tag tags IH]; intros c t Hs Ht Hp; cbn [walk_tags].
  { exists (Go c). split; [apply does_ret|]. split; [done|lia]. }
  case_match; [exists (Return seq); split; [apply does_ret|done]|].
  set (bad := match t_checksum tag with
              | Some expected => if negb (tag_checksum seed seq (jb (pos c)) =? expected) then true else invalid c
              | None => invalid c end).
  destruct (IH (mk_cursor (advance sb (pos c)) (consumed c + 1) bad (work c)) t Hs Ht) as (f & D & F).
  { by apply advance_ring. }
  exists f. split; [|destruct f; simpl in F; [split; [apply F|lia]|done]].
  apply (does_read_sized (pos c) t (fun data => '(bad, w) ← walk_tag seed Scan seq tag data (invalid c) (work c);
    walk_tags sb seed Scan seq tags (mk_cursor (advance sb (pos c)) (consumed c + 1) bad w)));
    [by apply ring_range|done|by apply Hs|].
  eapply (does_bind_pure _ _ _ _ (bad, work c)); [|exact D]. unfold walk_tag.
  eapply (does_bind_pure _ _ _ _ bad); [|apply does_ret].
  unfold bad. destruct (t_checksum tag); [|apply does_ret]. destruct (negb _); apply does_ret.
Qed.

Lemma check_block_scan seed blk bad t : length blk = BLOCK_SIZE ->
  exists bad', does B (check_block sb seed Scan blk bad) t (Ok bad') [].
Proof.
  intros L. unfold check_block. destruct (checksum (features sb)); [eexists; apply does_ret|].
  destruct (verify_block_returns seed blk L) as [[x|e] ->]; eexists; apply does_ret.
Qed.

(** Scanning a ring without a commit record of the sequence number finds no transaction. *)
Lemma scan_quiet seed fuel seq : forall c t, home_only t ->
  (forall p, ring_pos sb p -> quiet (fs_blocks r) seq (jb p)) ->
  ring_pos sb (pos c) -> Z.max 0 (ring_blocks sb - consumed c) < Z.of_nat fuel ->
  exists f, does B (walk_tx sb seed Scan fuel seq c) t (Ok f) [] /\
    match f with Return s => s = seq | Go (committed, _) => committed = false end.
Proof.
  induction fuel as [|fuel IH]; intros c t Ht Hq Hp Hf; [lia|]. cbn [walk_tx].
  destruct (Z.ltb_spec (consumed c) (ring_blocks sb)) as [Hc|]; cbn [negb];
    [|exists (Go (false, c)); split; [apply does_ret|done]].
  assert (Hs : sized) by (intros p Hp'; apply (Hq p Hp')).
  pose proof (Hq _ Hp) as [L Q]. destruct (header_parse_returns (jb (pos c))) as [hr Eh]. rewrite Eh in Q.
  set (c1 := mk_cursor (advance sb (pos c)) (consumed c + 1) (invalid c) (work c)).
  assert (Ret : exists f : flow (bool * Cursor), does (E := ErrCode) B (mret (Return seq)) t (Ok f) [] /\
    match f with Return s => s = seq | Go (committed, _) => committed = false end)
    by (exists (Return seq); split; [apply does_ret|done]).
  destruct hr as [h|e].
  2: { destruct Ret as (f & D & F). exists f. split; [|done]. eapply does_read_sized; [by apply ring_range|done|done|].
       cbv beta. rewrite Eh. exact D. }
  destruct (Z.eqb_spec (h_sequence h) seq) as [Es|Es].
  2: { destruct Ret as (f & D & F). exists f. split; [|done]. eapply does_read_sized; [by apply ring_range|done|done|].
       cbv beta. rewrite Eh, (proj2 (Z.eqb_neq _ _) Es). exact D. }
  destruct Q as [Q|(_ & Qt & tags & Qp)]; [lia|].
  destruct (check_block_scan seed (jb (pos c)) (invalid c1) t L) as [bad Db].
  destruct (scan_tags seed seq tags (mk_cursor (pos c1) (consumed c1) bad (work c1)) t Hs Ht) as (f & Df & F).
  { by apply advance_ring. }
  assert (K : exists g, does B (match f with Return s => mret (Return s) | Go c => walk_tx sb seed Scan fuel seq c end) t (Ok g) [] /\
    match g with Return s => s = seq | Go (committed, _) => committed = false end).
  { destruct f as [c2|s]; [|exists (Return s); split; [apply does_ret|done]]. destruct F as [F1 F2]. simpl in F2.
    apply IH; [done|done|done|lia]. }
  destruct K as (g & Dg & G). exists g. split; [|done]. eapply does_read_sized; [by apply ring_range|done|done|].
  cbv beta. rewrite Eh, Es, Z.eqb_refl, Qt. eapply does_bind_pure; [exact Db|].
  eapply does_bind_pure; [apply does_lift; exact Qp|]. eapply does_bind_pure; [exact Df|exact Dg].
Qed.

(** ** A committed transaction *)

Definition image_ok (img : block) : Prop := length img = BLOCK_SIZE /\ Forall (fun b => 0 <= b < 256) img.

(** Undoing the escape gives the image back. *)
Lemma unescape img : image_ok img ->
  (if negb (Z.land (flags_of true true img) FLAG_ESCAPE =? 0) then put (log_image img) 0 (to_be 4 MAGIC)
   else mret (log_image img) : res block) = mret img.
Proof.
  intros [L Hb]. pose proof block_size_val. unfold flags_of, log_image. destruct (escaped img) eqn:E; [|done].
  match goal with |- context [negb ?x] => change (negb x) with true end. cbv iota.
  apply Z.eqb_eq in E. rewrite put_at_ok by (rewrite length_app, length_replicate, to_be_length, length_drop; lia).
  f_equal. unfold spliced. rewrite to_be_length, take_0, drop_app_length' by done.
  rewrite <- E, app_nil_l. transitivity (take 4 img ++ drop 4 img); [|apply take_drop]. f_equal.
  replace 4%nat with (length (take 4 img)) at 1 by (rewrite length_take; lia). by apply to_be_from_be, Forall_take.
Qed.

Lemma flags_escape is_first is_last img :
  (Z.land (flags_of is_first is_last img) FLAG_ESCAPE =? 0) = (Z.land (flags_of true true img) FLAG_ESCAPE =? 0).
Proof. unfold flags_of. by destruct is_first, is_last, (escaped img). Qed.
Lemma flags_deleted is_first is_last img : (Z.land (flags_of is_first is_last img) FLAG_DELETED =? 0) = true.
Proof. unfold flags_of. by destruct is_first, is_last, (escaped img). Qed.

Definition pass_writes (pass : Pass) (m : list (Z * block)) : list dop :=
  if decide (pass = Replay) then writes m else [].

Definition counted (pass : Pass) (n : Z) (w : Work) : Work :=
  if decide (pass = Replay) then
    mk_work (revokes w) (mk_stats (transactions (stats w)) (replayed (stats w) + n) (revoke_hits (stats w)))
  else w.

(** No block is revoked. *)
Definition no_revokes (w : Work) : Prop := revokes w = None \/ revokes w = Some ∅.

Definition entry_ok (e : Z * block) : Prop := image_ok e.2 /\ e.1 ∉ journal_block_set r.

Lemma home_only_writes m : Forall entry_ok m -> home_only (writes m).
Proof. intros H. apply Forall_fmap. eapply Forall_impl; [exact H|]. by intros e [_ He]. Qed.

Lemma does_walk_tag pass seq is_first is_last home img w t : entry_ok (home, img) -> no_revokes w ->
  does B (walk_tag (log_seed sb) pass seq (mk_tag home (flags_of is_first is_last img) (csum_of sb (log_seed sb) seq img))
            (log_image img) false w) t (Ok (false, counted pass 1 w)) (pass_writes pass [(home, img)]).
Proof.
  intros [Hi Hn] Hw. unfold walk_tag. cbn [t_checksum t_flags t_block].
  eapply (does_bind_pure _ _ _ _ false).
  { unfold csum_of. destruct (checksum (features sb)); [apply does_ret|]. rewrite Z.eqb_refl. apply does_ret. }
  rewrite flags_deleted, flags_escape, andb_true_r. unfold pass_writes, counted. destruct (decide (pass = Replay)) as [E|E].
  2: { rewrite bool_decide_false by done. apply does_ret. }
  rewrite bool_decide_true by done. cbn [is_journal_physical io recovery_io]. rewrite bool_decide_false by done.
  replace (revokes w ≫= lookup home) with (@None Z) by (destruct Hw as [-> | ->]; [done|symmetry; apply lookup_empty]).
  eapply (does_bind_pure _ _ _ _ img).
  { pose proof (unescape img Hi) as U. destruct (negb _); [by apply does_lift|]. injection U as ->. apply does_ret. }
  change (writes [(home, img)]) with ([Write home img] ++ []).
  eapply does_bind; [|apply does_ret]. cbn [write_home io recovery_io]. unfold write_image.
  destruct Hi as [L _]. simpl in L. rewrite L, Nat.eqb_refl. apply does_write.
Qed.

Lemma counted_add pass a b w : counted pass b (counted pass a w) = counted pass (a + b) w.
Proof. unfold counted. destruct (decide (pass = Replay)); [|done]. simpl. do 2 f_equal. lia. Qed.
Lemma counted_revokes pass n w : no_revokes w -> no_revokes (counted pass n w).
Proof. unfold counted, no_revokes. by destruct (decide (pass = Replay)). Qed.
Lemma pass_writes_app pass m m' : pass_writes pass (m ++ m') = pass_writes pass m ++ pass_writes pass m'.
Proof. unfold pass_writes, writes. destruct (decide (pass = Replay)); [apply fmap_app|done]. Qed.
Lemma pass_writes_home pass m : Forall entry_ok m -> home_only (pass_writes pass m).
Proof. intros H. unfold pass_writes. destruct (decide (pass = Replay)); [by apply home_only_writes|constructor]. Qed.
Lemma home_only_app t t' : home_only t -> home_only t' -> home_only (t ++ t').
Proof. apply Forall_app_2. Qed.

Section committed.
Context (pass : Pass) (seq h : Z) (Hseq : is_u32 seq).

Lemma does_walk_tags group : forall is_first k w t, Forall entry_ok group -> no_revokes w -> home_only t ->
  0 <= k -> k + Z.of_nat (length group) <= ring_size sb ->
  (forall i e, group !! i = Some e -> jb (rpos sb h (k + Z.of_nat i)) = log_image e.2) ->
  does B (walk_tags sb (log_seed sb) pass seq (tags_of sb (log_seed sb) seq is_first group) (mk_cursor (rpos sb h k) k false w)) t
    (Ok (Go (mk_cursor (rpos sb h (k + Z.of_nat (length group))) (k + Z.of_nat (length group)) false
               (counted pass (Z.of_nat (length group)) w)))) (pass_writes pass group).
Proof.
  induction group as [|[home img] group IH]; intros is_first k w t He Hw Ht Hk0 Hk Hd; cbn [tags_of walk_tags length].
  { replace (k + Z.of_nat 0) with k by lia. replace (counted pass (Z.of_nat 0) w) with w.
    - replace (pass_writes pass []) with (@nil dop) by (unfold pass_writes; by destruct (decide _)). apply does_ret.
    - unfold counted. destruct (decide _); [|done]. destruct w as [rv [a b c]]. simpl. by rewrite Z.add_0_r. }
  apply Forall_cons in He as [He1 He]. cbn [consumed pos invalid work]. cbn [length] in Hk.
  change (ring_blocks sb) with (ring_size sb). rewrite (proj2 (Z.leb_gt _ _)) by lia.
  assert (D0 : jb (rpos sb h k) = log_image img) by (specialize (Hd 0%nat _ eq_refl); by rewrite Z.add_0_r in Hd).
  eapply does_read_sized; [apply ring_range, rpos_ring, Hgeo|done| |].
  { destruct He1 as [[L _] _]. simpl in L. pose proof block_size_val. rewrite D0, log_image_length; lia. }
  rewrite D0. change (pass_writes pass ((home, img) :: group)) with (pass_writes pass ([(home, img)] ++ group)).
  rewrite pass_writes_app. eapply does_bind; [by apply does_walk_tag|]. cbv beta iota.
  rewrite advance_rpos by done. replace (k + Z.of_nat (S (length group))) with (k + 1 + Z.of_nat (length group)) by lia.
  replace (counted pass (Z.of_nat (S (length group))) w) with (counted pass (Z.of_nat (length group)) (counted pass 1 w))
    by (rewrite counted_add; f_equal; lia).
  apply IH; [done|by apply counted_revokes| |lia|lia|].
  - apply home_only_app; [done|]. apply pass_writes_home. by apply Forall_singleton.
  - intros i e Hi. rewrite <- (Hd (S i) e Hi). do 2 f_equal. lia.
Qed.

Lemma verify_desc group :
  (12 + length (tags_string sb (log_seed sb) seq true group) + tail_bytes (features sb) <= BLOCK_SIZE)%nat ->
  checksum (features sb) = V3 -> verify_block_checksum (log_seed sb) (desc_block sb (log_seed sb) seq group) = mret tt.
Proof.
  intros Hr Hc. pose proof (desc_block_length sb (log_seed sb) seq group Hr) as L.
  pose proof (desc_body_length sb (log_seed sb) seq group Hr) as LB. pose proof block_size_val.
  rewrite tail_bytes_val, Hc in LB. unfold verify_block_checksum, block_checksum, BLOCK_TAIL_BYTES.
  rewrite L, !(proj2 (Nat.ltb_ge _ _)) by lia. unfold desc_block in *. rewrite Hc in *. set (body := desc_body _ _ _ _) in *.
  set (c := crc32 (crc32 (log_seed sb) body) (replicate 4 0)) in *.
  pose proof (be32_app body c [] (BLOCK_SIZE - 4)) as E. rewrite app_nil_r in E.
  rewrite E, bind_ok by (done || apply crc32_u32, crc32_u32, checksum_seed_u32).
  rewrite range_ok, bind_ok by (rewrite L; lia).
  rewrite sl_app_l by lia. unfold sl. rewrite drop_0, take_ge by lia. fold c. by rewrite bind_ok, Z.eqb_refl.
Qed.

Lemma does_check_desc group bad t :
  (12 + length (tags_string sb (log_seed sb) seq true group) + tail_bytes (features sb) <= BLOCK_SIZE)%nat ->
  does B (check_block sb (log_seed sb) pass (desc_block sb (log_seed sb) seq group) bad) t (Ok bad) [].
Proof.
  intros Hr. unfold check_block. destruct (checksum (features sb)) eqn:Hc; [apply does_ret|].
  rewrite verify_desc by done. apply does_ret.
Qed.

Context (Hu : length (uuid sb) = 16%nat).

(** A group of the log that the reader understands. *)
Definition group_good (group : list (Z * block)) : Prop :=
  group <> [] /\ group_ok sb group /\ readable sb true group /\ Forall (fun e => e.1 < fs_blocks r) group /\
  (12 + length (tags_string sb (log_seed sb) seq true group) + tail_bytes (features sb) <= BLOCK_SIZE)%nat.

Lemma desc_header group : header_parse (desc_block sb (log_seed sb) seq group) = mret (mk_header Descriptor seq).
Proof. unfold desc_block, desc_body. rewrite <- !app_assoc. by apply header_parse_bytes. Qed.

Lemma parse_good group : group_good group ->
  parse_tags (desc_block sb (log_seed sb) seq group) sb (fs_blocks r) = mret (tags_of sb (log_seed sb) seq true group).
Proof. intros (Hne & Hg & Hr & Ht & Hn). apply parse_desc; try done. apply checksum_seed_u32. Qed.

Lemma log_blocks_cons group groups :
  log_blocks sb (log_seed sb) seq (group :: groups)
  = desc_block sb (log_seed sb) seq group :: (log_image <$> group.*2) ++ log_blocks sb (log_seed sb) seq groups.
Proof. done. Qed.

(** The log at a position of the ring, followed by its commit record. *)
Definition log_at (k : Z) (blocks : list block) : Prop :=
  forall i b, blocks !! i = Some b -> jb (rpos sb h (k + Z.of_nat i)) = b.

Lemma log_at_drop k blocks n : log_at k blocks -> log_at (k + Z.of_nat n) (drop n blocks).
Proof. intros H i b E. rewrite lookup_drop in E. rewrite <- (H _ _ E). do 2 f_equal. lia. Qed.

Lemma does_walk_groups groups : forall fuel k w t, Forall group_good groups -> Forall entry_ok (concat groups) ->
  no_revokes w -> home_only t -> 0 <= k ->
  k + Z.of_nat (length (log_blocks sb (log_seed sb) seq groups)) + 1 <= ring_size sb -> ring_size sb - k < Z.of_nat fuel ->
  log_at k (log_blocks sb (log_seed sb) seq groups ++ [commit_block sb seq]) ->
  let n := k + Z.of_nat (length (log_blocks sb (log_seed sb) seq groups)) + 1 in
  does B (walk_tx sb (log_seed sb) pass fuel seq (mk_cursor (rpos sb h k) k false w)) t
    (Ok (Go (true, mk_cursor (rpos sb h n) n false (counted pass (Z.of_nat (length (concat groups))) w))))
    (pass_writes pass (concat groups)).
Proof.
  induction groups as [|group groups IH]; intros fuel k w t Hg He Hw Ht Hk0 Hk Hf Hl n;
    (destruct fuel as [|fuel]; [lia|]); cbn [walk_tx consumed pos invalid work]; change (ring_blocks sb) with (ring_size sb);
    (rewrite (proj2 (Z.ltb_lt k (ring_size sb))) by lia); cbn [negb].
  - assert (D0 : jb (rpos sb h k) = commit_block sb seq) by (specialize (Hl 0%nat _ eq_refl); by rewrite Z.add_0_r in Hl).
    eapply does_read_sized; [apply ring_range, rpos_ring, Hgeo|done|rewrite D0; apply commit_block_length|].
    rewrite D0, commit_header by done. cbn [mret res_ret h_sequence block_type]. rewrite Z.eqb_refl.
    destruct (commit_parse_ok sb seq Hseq) as [c ->]. cbn [mret res_ret]. rewrite advance_rpos by done.
    replace (pass_writes pass (concat [])) with (@nil dop) by (unfold pass_writes; by destruct (decide _)).
    replace (counted pass (Z.of_nat (length (concat []))) w) with w
      by (unfold counted; destruct (decide _); [destruct w as [rv [x y z]]; simpl; by rewrite Z.add_0_r|done]).
    replace n with (k + 1) by (unfold n; simpl; lia). apply does_ret.
  - apply Forall_cons in Hg as [Hg1 Hg]. cbn [concat] in *. apply Forall_app in He as [He1 He].
    rewrite log_blocks_cons in *. cbn [length] in *. rewrite length_app, !length_fmap in *.
    assert (D0 : jb (rpos sb h k) = desc_block sb (log_seed sb) seq group) by (specialize (Hl 0%nat _ eq_refl); by rewrite Z.add_0_r in Hl).
    eapply does_read_sized; [apply ring_range, rpos_ring, Hgeo|done|rewrite D0; apply desc_block_length, Hg1|].
    rewrite D0, desc_header. cbn [mret res_ret h_sequence block_type]. rewrite Z.eqb_refl. cbn [pos consumed invalid work].
    eapply does_bind_pure; [apply does_check_desc, Hg1|]. eapply does_bind_pure; [by apply does_lift, parse_good|].
    rewrite advance_rpos, pass_writes_app by done. eapply does_bind.
    { apply does_walk_tags; [done|done|done|lia|lia|]. intros i e Ei. apply (log_at_drop _ _ 1) in Hl. simpl in Hl. rewrite drop_0 in Hl.
      apply (Hl i).
      rewrite <- app_assoc, lookup_app_l by (rewrite !length_fmap; by eapply lookup_lt_Some).
      by rewrite !list_lookup_fmap, Ei. }
    replace n with (k + 1 + Z.of_nat (length group) + Z.of_nat (length (log_blocks sb (log_seed sb) seq groups)) + 1) 
      by (unfold n; rewrite log_blocks_cons; cbn [length]; rewrite length_app, !length_fmap; lia).
    rewrite (Nat2Z.inj_add (length group)), <- counted_add.
    apply IH; [done|done|by apply counted_revokes|apply home_only_app; [done|by apply pass_writes_home]|lia|lia|lia|].
    apply (log_at_drop _ _ (1 + length group)) in Hl. rewrite Nat2Z.inj_add, Z.add_assoc in Hl. simpl in Hl.
    rewrite <- app_assoc, drop_app_length' in Hl by (by rewrite !length_fmap). exact Hl.
Qed.

(** The log of a whole transaction from the start of the ring. *)
Context (Hstart : start sb = h) (Hring : ring_pos sb h) (Hsq : sequence sb = seq) (Hnext : is_u32 (seq + 1)).
Context (groups : list (list (Z * block))) (Hgood : Forall group_good groups) (Hentry : Forall entry_ok (concat groups)).
Context (Hroom : Z.of_nat (length (log_blocks sb (log_seed sb) seq groups)) + 1 <= ring_size sb).
Context (Hlog : log_at 0 (log_blocks sb (log_seed sb) seq groups ++ [commit_block sb seq])).

(** No block of the ring carries the next sequence number. *)
Definition fresh : Prop := forall p, ring_pos sb p -> length (jb p) = BLOCK_SIZE /\
  forall hd, header_parse (jb p) = Some (Ok hd) -> h_sequence hd <> seq + 1.

(** The block after the log ends the scan. *)
Lemma scan_after fuel k w t : fresh -> home_only t -> 0 <= k < ring_size sb ->
  does B (walk_tx sb (log_seed sb) Scan (S fuel) (seq + 1) (mk_cursor (rpos sb h k) k false w)) t (Ok (Return (seq + 1))) [].
Proof.
  intros F Ht Hk. cbn [walk_tx consumed pos]. change (ring_blocks sb) with (ring_size sb).
  rewrite (proj2 (Z.ltb_lt k (ring_size sb))) by lia. cbn [negb]. pose proof (rpos_ring sb Hgeo h k) as R.
  destruct (F _ R) as [L N]. eapply does_read_sized; [by apply ring_range|done|done|].
  destruct (header_parse_returns (jb (rpos sb h k))) as [[hd|e] E]; rewrite E; [|apply does_ret].
  rewrite (proj2 (Z.eqb_neq _ _) (N _ E)). apply does_ret.
Qed.

Lemma does_walk stop w t : no_revokes w -> home_only t ->
  (pass = Scan /\ stop = None /\ fresh) \/ (pass <> Scan /\ stop = Some (seq + 1)) ->
  does B (walk sb (log_seed sb) pass stop w) t
    (Ok (seq + 1, counted pass (Z.of_nat (length (concat groups))) w)) (pass_writes pass (concat groups)).
Proof.
  intros Hw Ht Hp. unfold walk. change (ring_blocks sb) with (ring_size sb). rewrite Hsq, Hstart.
  destruct (Z.to_nat (ring_size sb)) as [|fuel] eqn:Hfuel; [lia|]. cbn [walk_loop].
  rewrite bool_decide_false by (destruct Hp as [(_ & -> & _)|(_ & ->)]; [done|intros [= E]; lia]).
  rewrite <- (app_nil_r (pass_writes pass (concat groups))). rewrite <- (rpos_0 sb h Hring) at 1.
  eapply does_bind; [apply does_walk_groups; try done; unfold ring_blocks, ring_size in *; lia|].
  set (n := 0 + _ + 1). cbn [negb pos consumed work]. change (ring_blocks sb) with (ring_size sb).
  rewrite (wrap32_id (seq + 1)) by done. set (w' := counted _ _ _).
  destruct ((rpos sb h n =? h) || (ring_size sb <=? n)) eqn:E; [apply does_ret|].
  apply orb_false_iff in E as [_ E]. apply Z.leb_gt in E. cbn [walk_loop]. destruct Hp as [(-> & -> & F)|(_ & ->)].
  - rewrite bool_decide_false by done. eapply (does_bind_pure _ _ _ _ (Return (seq + 1))); [|apply does_ret].
    apply scan_after; [done|by apply home_only_app; [done|apply pass_writes_home]|unfold n in *; lia].
  - rewrite bool_decide_true by done. apply does_ret.
Qed.
End committed.
End walk.

(** ** Recovery of any disk *)

(** A computation that ends, with or without an error, after operations that satisfy [P]. *)
Definition sound {E A} (P : dop -> Prop) (m : sm Device E A) (Q : A -> Prop) : Prop :=
  forall d, exists r d', m d = Some (r, d') /\ base d' = base d /\
    (exists ws, trace d' = trace d ++ ws /\ Forall P ws) /\ forall a, r = Ok a -> Q a.

Section sound.
Context (P : dop -> Prop).

Lemma sound_ret {E A} (a : A) (Q : A -> Prop) : Q a -> sound (E := E) P (mret a) Q.
Proof. intros H d. exists (Ok a), d. split_and!; [done|done|exists []; by rewrite app_nil_r|by intros ? [= <-]]. Qed.

Lemma sound_throw {E A} (e : E) (Q : A -> Prop) : sound P (throw e) Q.
Proof. intros d. exists (Err e), d. split_and!; [done|done|exists []; by rewrite app_nil_r|done]. Qed.

Lemma sound_bind {E A C} (m : sm Device E A) (f : A -> sm Device E C) (Q : A -> Prop) (R : C -> Prop) :
  sound P m Q -> (forall a, Q a -> sound P (f a) R) -> sound P (m ≫= f) R.
Proof.
  intros Hm Hf d. destruct (Hm d) as (r1 & d1 & E1 & B1 & (ws1 & T1 & F1) & H1). unfold mbind, sm_bind. rewrite E1. destruct r1 as [a|e].
  - destruct (Hf a (H1 a eq_refl) d1) as (r2 & d2 & E2 & B2 & (ws2 & T2 & F2) & H2). exists r2, d2. split_and!; [done|congruence| |done].
    exists (ws1 ++ ws2). rewrite T2, T1, app_assoc. split; [done|by apply Forall_app_2].
  - exists (Err e), d1. split_and!; [done|done|by exists ws1|done].
Qed.

Lemma sound_lift {A} (m : res A) (Q : A -> Prop) : returns m -> (forall a, m = Some (Ok a) -> Q a) -> sound P (lift m) Q.
Proof.
  intros [r E] H d. exists r, d. unfold lift. rewrite E. split_and!; [done|done|exists []; by rewrite app_nil_r|]. intros a ->. by apply H.
Qed.

Lemma sound_read b (Q : list Z -> Prop) : (forall l, Q l) -> sound P (read_block b) Q.
Proof.
  intros H d. unfold read_block, next_fault. destruct (faults d) as [|[|x] fs]; eexists _, _; (split; [reflexivity|]);
    (split_and!; [done|exists []; by rewrite app_nil_r|by intros; apply H]).
Qed.

Lemma sound_op op (Q : unit -> Prop) : P op -> Q tt -> sound P (device_op op) Q.
Proof.
  intros HP HQ d. unfold device_op, next_fault. destruct (faults d) as [|[|[]] fs]; eexists _, _; (split; [reflexivity|]);
    (split_and!; [done| |by intros []]); cbn; first [exists [op]; split; [done|by apply Forall_singleton]|exists []; by rewrite app_nil_r].
Qed.

Lemma sound_if {E A} (b : bool) (m n : sm Device E A) Q : (b = true -> sound P m Q) -> (b = false -> sound P n Q) -> sound P (if b then m else n) Q.
Proof. destruct b; auto. Qed.
End sound.

Lemma range_returns l a b : (a <= b <= length l)%nat -> returns (range l a b).
Proof. intros H. rewrite range_ok by done. by eexists. Qed.

Lemma superblock_checksum_returns l : (1024 <= length l)%nat -> returns (superblock_checksum l).
Proof.
  intros H. unfold superblock_checksum. apply returns_bind; [apply need_returns|]. intros _. change SUPERBLOCK_BYTES with 1024%nat.
  apply returns_bind; [apply range_returns; lia|]. intros a. apply returns_bind; [apply range_returns; lia|]. intros b. by eexists.
Qed.

Lemma superblock_parse_returns l n : (1024 <= length l)%nat -> returns (superblock_parse l n).
Proof.
  intros H. unfold superblock_parse, validate_features, unsupported, malformed, err.
  repeat first [apply returns_bind; [solve [no_panic]|intros ?] | apply returns_if; [solve [no_panic]|]
    | apply returns_bind; [apply range_returns; lia|intros ?]
    | apply returns_bind; [solve [case_match; repeat first [apply returns_bind; [by auto using superblock_checksum_returns with no_panic|intros ?]
        | apply returns_if; [solve [no_panic]|] | solve [no_panic]]]|intros ?]].
  by eexists.
Qed.

Lemma tag_bytes_pos f : (8 <= tag_bytes f)%nat.
Proof. unfold tag_bytes. destruct (checksum f), (has_64bit f); lia. Qed.

(** A result, with what holds of it. *)
Definition gives {A} (m : res A) (Q : A -> Prop) : Prop := returns m /\ forall a, m = Some (Ok a) -> Q a.

Lemma gives_bind {A C} (m : res A) (f : A -> res C) (Q : A -> Prop) (R : C -> Prop) :
  gives m Q -> (forall a, Q a -> gives (f a) R) -> gives (m ≫= f) R.
Proof. intros [[[a|e] E] H] Hf; rewrite E in *; cbn [mbind res_bind]; [by apply Hf, H|]. split; [by eexists|done]. Qed.
Lemma gives_returns {A} (m : res A) : returns m -> gives m (fun _ => True).
Proof. by split. Qed.
Lemma gives_ret {A} (a : A) (Q : A -> Prop) : Q a -> gives (mret a) Q.
Proof. intros H. split; [by eexists|]. intros b E. by apply ret_inj in E as <-. Qed.
Lemma gives_err {A} e (Q : A -> Prop) : gives (err e) Q.
Proof. split; [by eexists|done]. Qed.

(** The tags of any block are inside the file system. *)
Lemma parse_loop_gives blk sb tb stop : forall fuel off, (stop < off + fuel)%nat -> (0 < fuel)%nat ->
  gives (parse_tags_loop fuel blk sb tb stop off) (Forall (fun tag => t_block tag < tb)).
Proof.
  pose proof (tag_bytes_pos (features sb)) as Ht. induction fuel as [|fuel IH]; intros off Hf Hp; [lia|]. cbn [parse_tags_loop].
  destruct (Nat.ltb_spec stop (off + tag_bytes (features sb))) as [Ho|Ho]; [apply gives_err|].
  eapply gives_bind; [apply gives_returns, be32_returns|]. intros low _.
  eapply gives_bind; [apply gives_returns; unfold malformed, err; destruct (checksum (features sb)); no_panic|]. intros [[flags high] c] _.
  eapply (gives_bind _ _ (fun off' => (off + tag_bytes (features sb) <= off')%nat)).
  { destruct (_ && _); [|apply gives_ret; lia]. eapply gives_bind; [apply gives_returns, get_returns|]. intros u _.
    destruct (bool_decide _); [apply gives_ret; lia|apply gives_err]. }
  intros off' Hoff. destruct (Z.leb_spec tb (Z.lor low (Z.shiftl high 32))) as [|Hl]; [apply gives_err|].
  destruct (negb _); [apply gives_ret; by repeat constructor|].
  eapply gives_bind; [apply IH; lia|]. intros tags Htags. apply gives_ret. by constructor.
Qed.

Lemma parse_tags_gives blk sb tb : gives (parse_tags blk sb tb) (Forall (fun tag => t_block tag < tb)).
Proof. unfold parse_tags. destruct (_ <? _)%nat; [apply gives_err|]. apply parse_loop_gives; lia. Qed.

Lemma revoke_loop_returns blk width count tb : (0 < width)%nat -> forall fuel off, (count < off + fuel)%nat -> (0 < fuel)%nat ->
  returns (revoke_loop fuel blk width count tb off).
Proof.
  intros Hw. induction fuel as [|fuel IH]; intros off Hf Hp; [lia|]. cbn [revoke_loop].
  destruct (Nat.ltb_spec off count) as [Ho|Ho]; [|by eexists].
  apply returns_bind; [destruct (width =? 8)%nat; auto with no_panic|]. intros record.
  destruct (tb <=? record); [by eexists|]. apply returns_bind; [apply IH; lia|]. intros l. by eexists.
Qed.

Lemma parse_revoke_returns blk f s tb : returns (parse_revoke_records blk f s tb).
Proof.
  unfold parse_revoke_records, unsupported, malformed, err. destruct (negb (has_revoke f)); [by eexists|].
  apply returns_bind; [apply header_parse_returns|]. intros h. destruct (_ || _); [by eexists|].
  apply returns_bind; [apply be32_returns|]. intros count. destruct (_ || _); [by eexists|]. destruct (negb _); [by eexists|].
  apply revoke_loop_returns; [destruct (has_64bit f); lia|lia|lia].
Qed.

Lemma commit_parse_returns blk f s seed : length blk = BLOCK_SIZE -> returns (commit_parse blk f s seed).
Proof.
  intros L. pose proof block_size_val. unfold commit_parse, malformed, err. apply returns_bind; [apply need_returns|]. intros _.
  apply returns_bind; [apply header_parse_returns|]. intros h. destruct (_ || _); [by eexists|].
  apply returns_bind; [|intros c; no_panic]. destruct (checksum f); [by eexists|]. apply returns_bind; [|intros c; no_panic].
  unfold commit_checksum. apply returns_bind; [apply need_returns|]. intros _. apply returns_bind; [apply range_returns; lia|]. intros a.
  apply returns_bind; [apply range_returns; lia|]. intros b. by eexists.
Qed.

(** What recovery may do to a disk: write blocks of the file system outside the journal, and the
    superblock of the journal. *)
Definition recovery_op (r : RecoveryDevice) (op : dop) : Prop :=
  match op with
  | Write b v => length v = BLOCK_SIZE /\ (b < fs_blocks r /\ b ∉ journal_block_set r \/ journal_blocks r !! 0%nat = Some b)
  | Flush => True
  | Publish => False
  end.

Section any_disk.
Context (r : RecoveryDevice) (sb : Superblock) (seed : Z) (pass : Pass).
#[local] Instance any_io : JournalRecoveryIo Device := recovery_io r.

Lemma sound_read_sized pos : sound (recovery_op r) (raw ← read_journal pos; check_size raw ;; mret raw) (fun raw => length raw = BLOCK_SIZE).
Proof.
  eapply (sound_bind _ _ _ (fun _ => True)).
  { cbn. destruct (journal_blocks r !! _); [by apply sound_read|apply sound_throw]. }
  intros raw _. unfold check_size. change (@io_block_size Device any_io) with BLOCK_SIZE. destruct (Nat.eqb_spec (length raw) BLOCK_SIZE) as [L|L].
  - eapply (sound_bind _ _ _ (fun _ => True)); [by apply sound_ret|]. intros _ _. by apply sound_ret.
  - eapply (sound_bind _ _ _ (fun _ => False)); [apply sound_throw|]. done.
Qed.

Lemma sound_sized {E} {A} (f : list Z -> sm Device E A) (g : sm Device E (list Z)) (k : list Z -> sm Device E unit) Q :
  sound (recovery_op r) (raw ← g; k raw ;; mret raw) (fun raw => length raw = BLOCK_SIZE) ->
  (forall raw, length raw = BLOCK_SIZE -> sound (recovery_op r) (f raw) Q) -> sound (recovery_op r) (raw ← g; k raw ;; f raw) Q.
Proof.
  intros Hg Hf d. destruct (Hg d) as (r1 & d1 & E1 & B1 & (ws & T1 & F1) & H1). unfold mbind, sm_bind in *.
  destruct (g d) as [[[raw|e] d2]|]; [|by injection E1 as <- <-; exists (Err e), d2; split_and!; [| |by exists ws|]|done].
  destruct (k raw d2) as [[[[]|e] d3]|]; [|by injection E1 as <- <-; exists (Err e), d3; split_and!; [| |by exists ws|]|done].
  injection E1 as <- <-. destruct (Hf raw (H1 raw eq_refl) d3) as (r2 & d4 & E2 & B2 & (ws2 & T2 & F2) & H2).
  exists r2, d4. split_and!; [done|congruence| |done]. exists (ws ++ ws2). rewrite T2, T1, app_assoc. split; [done|by apply Forall_app_2].
Qed.

Lemma sound_walk_tag sequence tag data bad w : t_block tag < fs_blocks r -> length data = BLOCK_SIZE ->
  sound (recovery_op r) (walk_tag seed pass sequence tag data bad w) (fun _ => True).
Proof.
  intros Ht L. pose proof block_size_val as Hb. unfold walk_tag. eapply (sound_bind _ _ _ (fun _ => True)).
  { destruct (t_checksum tag); [|by apply sound_ret]. destruct (negb _); [|by apply sound_ret].
    destruct (is_scan pass); [by apply sound_ret|apply sound_throw]. }
  intros bad' _. destruct (_ && _); [|by apply sound_ret].
  change (@is_journal_physical Device any_io (t_block tag)) with (bool_decide (t_block tag ∈ journal_block_set r)).
  destruct (bool_decide_reflect (t_block tag ∈ journal_block_set r)) as [|Hn]; [apply sound_throw|].
  cbv zeta. set (hits := match _ with Some tid => _ | None => false end). destruct hits; [by apply sound_ret|].
  eapply (sound_bind _ _ _ (fun data' => length data' = BLOCK_SIZE)).
  { destruct (negb _); [|by apply sound_ret]. apply sound_lift.
    - rewrite put_at_ok by (rewrite to_be_length; lia). by eexists.
    - intros a E. rewrite put_at_ok in E by (rewrite to_be_length; lia). apply ret_inj in E as <-.
      unfold spliced. rewrite !length_app, length_take, length_drop, to_be_length. lia. }
  intros data' L'. eapply (sound_bind _ _ _ (fun _ => True)); [|intros _ _; by apply sound_ret].
  cbn. unfold write_image. rewrite L', Nat.eqb_refl. apply sound_op; [|done]. split; [done|by left].
Qed.

Lemma sound_walk_tags sequence tags : Forall (fun tag => t_block tag < fs_blocks r) tags -> forall c,
  sound (recovery_op r) (walk_tags sb seed pass sequence tags c) (fun f => match f with Go c' => consumed c <= consumed c' | Return _ => True end).
Proof.
  induction 1 as [|tag tags Ht _ IH]; intros c; cbn [walk_tags]; [apply sound_ret; lia|].
  destruct (_ <=? _); [destruct (is_scan pass); [by apply sound_ret|apply sound_throw]|].
  apply sound_sized; [apply sound_read_sized|]. intros data L.
  eapply sound_bind; [by apply sound_walk_tag|]. intros [bad w] _. intros d. destruct (IH (mk_cursor (advance sb (pos c)) (consumed c + 1) bad w) d) as (r1 & d1 & E & B & T & H).
  exists r1, d1. split_and!; [done|done|done|]. intros f Ef. specialize (H f Ef). destruct f; [simpl in H; lia|done].
Qed.

Lemma sound_check_block raw bad : length raw = BLOCK_SIZE -> sound (recovery_op r) (check_block sb seed pass raw bad) (fun _ => True).
Proof.
  intros L. unfold check_block. destruct (checksum (features sb)); [by apply sound_ret|].
  destruct (verify_block_returns seed raw L) as [[[]|e] ->]; [by apply sound_ret|].
  destruct (is_scan pass); [by apply sound_ret|apply sound_throw].
Qed.

Lemma sound_add_revokes sequence blocks : forall w, sound (recovery_op r) (add_revokes sequence blocks w) (fun _ => True).
Proof.
  induction blocks as [|b blocks IH]; intros w; cbn [add_revokes]; [by apply sound_ret|].
  destruct (is_journal_physical b); [apply sound_throw|]. destruct (revokes w); [apply IH|apply sound_throw].
Qed.

(** Every round reads a block of the ring. *)
Lemma sound_walk_tx sequence : forall fuel c, ring_blocks sb < consumed c + Z.of_nat fuel -> (0 < fuel)%nat ->
  sound (recovery_op r) (walk_tx sb seed pass fuel sequence c)
    (fun f => match f with Go (true, c') => consumed c < consumed c' | _ => True end).
Proof.
  induction fuel as [|fuel IH]; intros c Hf Hp; [lia|]. cbn [walk_tx].
  destruct (Z.ltb_spec (consumed c) (ring_blocks sb)) as [Hlt|Hge]; cbn [negb]; [|by apply sound_ret].
  assert (Next : forall c', consumed c < consumed c' ->
    sound (recovery_op r) (walk_tx sb seed pass fuel sequence c') (fun f => match f with Go (true, c') => consumed c < consumed c' | _ => True end)).
  { intros c' Hc' d. destruct (IH c' ltac:(lia) ltac:(lia) d) as (r1 & d1 & E & B & T & H). exists r1, d1. split_and!; [done|done|done|].
    intros f Ef. specialize (H f Ef). destruct f as [[[] c'']|]; [lia|done|done]. }
  apply sound_sized; [apply sound_read_sized|]. intros raw L. destruct (header_parse_returns raw) as [h ->].
  assert (Stop : forall e : ErrCode, sound (A := flow (bool * Cursor)) (recovery_op r) (if is_scan pass then mret (Return sequence) else throw e)
    (fun f => match f with Go (true, c') => consumed c < consumed c' | _ => True end)) by (intros e; destruct (is_scan pass); [by apply sound_ret|apply sound_throw]).
  destruct (match h with Ok h => _ | Err _ => None end) as [hd|]; [|apply Stop].
  destruct (block_type hd); cbn [pos consumed invalid work]; [| |apply Stop|apply Stop|].
  - eapply sound_bind; [by apply sound_check_block|]. intros bad _.
    eapply (sound_bind _ _ _ (Forall (fun tag => t_block tag < fs_blocks r))); [destruct (parse_tags_gives raw sb (fs_blocks r)); by apply sound_lift|].
    intros tags Ht. eapply sound_bind; [by apply sound_walk_tags|]. intros [c'|s] Hc'; [|by apply sound_ret]. cbn [consumed] in Hc'. apply Next. lia.
  - destruct (commit_parse_returns raw (features sb) sequence seed L) as [[x|e] ->]; [|apply Stop].
    destruct (invalid c); [apply sound_throw|]. apply sound_ret. cbn [consumed]. lia.
  - eapply sound_bind; [by apply sound_check_block|]. intros bad _. eapply (sound_bind _ _ _ (fun _ => True)).
    { destruct (bool_decide _); [|by apply sound_ret]. eapply (sound_bind _ _ _ (fun _ => True)); [apply sound_lift; [apply parse_revoke_returns|done]|].
      intros blocks _. apply sound_add_revokes. }
    intros w _. apply Next. cbn [consumed]. lia.
Qed.

Lemma sound_walk_loop stop : forall fuel sequence position used w, ring_blocks sb < used + Z.of_nat fuel -> (0 < fuel)%nat -> 0 <= used ->
  sound (recovery_op r) (walk_loop sb seed pass fuel stop sequence position used w) (fun _ => True).
Proof.
  induction fuel as [|fuel IH]; intros sequence position used w Hf Hp Hu; [lia|]. cbn [walk_loop].
  destruct (bool_decide _); [by apply sound_ret|]. eapply sound_bind; [apply sound_walk_tx; cbn [consumed]; lia|].
  intros [[committed c]|s] Hc; [|by apply sound_ret]. destruct committed; cbn [negb].
  - cbn [consumed] in Hc. cbv zeta. destruct (_ =? _); cbn [orb]; [by apply sound_ret|].
    destruct (Z.leb_spec (ring_blocks sb) (consumed c)) as [|Hr]; [by apply sound_ret|]. apply IH; lia.
  - destruct (is_scan pass); [by apply sound_ret|apply sound_throw].
Qed.

Lemma sound_walk stop w : sound (recovery_op r) (walk sb seed pass stop w) (fun _ => True).
Proof. apply sound_walk_loop; lia. Qed.

Lemma sound_put32 raw off v : length raw = BLOCK_SIZE -> (off + 4 <= BLOCK_SIZE)%nat -> sound (recovery_op r) (lift (put32 raw off v)) (fun l => length l = BLOCK_SIZE).
Proof.
  intros L H. rewrite put32_put4 by lia. apply sound_lift; [by eexists|]. intros a E. apply ret_inj in E as <-. rewrite put4_length; lia.
Qed.

Lemma sound_mark_clean raw e : length raw = BLOCK_SIZE -> sound (recovery_op r) (mark_clean sb raw e) (fun _ => True).
Proof.
  intros L. pose proof block_size_val as Hb. unfold mark_clean. eapply (sound_bind _ _ _ (fun _ => True)); [by apply sound_op|]. intros _ _.
  eapply sound_bind; [apply sound_put32; [done|lia]|]. intros raw1 L1. eapply sound_bind; [apply sound_put32; [done|lia]|]. intros raw2 L2.
  eapply (sound_bind _ _ _ (fun l => length l = BLOCK_SIZE)).
  { destruct (checksum (features sb)); [by apply sound_ret|]. eapply sound_bind; [apply sound_put32; [done|lia]|]. intros raw3 L3. cbv beta in L3.
    eapply (sound_bind _ _ _ (fun _ => True)); [apply sound_lift; [apply superblock_checksum_returns; lia|done]|]. intros c _.
    apply sound_put32; [done|lia]. }
  intros raw3 L3. eapply (sound_bind _ _ _ (fun _ => True)); [|intros _ _; by apply sound_op].
  cbn. destruct (journal_blocks r !! _) as [b|] eqn:E; [|apply sound_throw]. unfold write_image. rewrite L3, Nat.eqb_refl.
  apply sound_op; [|done]. split; [done|by right].
Qed.
End any_disk.

(** C0: recovery of a disk with any contents, whatever fails on the way, ends without a panic; it writes
    whole blocks, and only blocks of the file system outside the journal and the journal's superblock. *)
Theorem recover_any_disk (io : RecoveryDevice) (d : Device) :
  exists res d', @recover Device (recovery_io io) d = Some (res, d') /\ base d' = base d /\
    exists ws, trace d' = trace d ++ ws /\ Forall (recovery_op io) ws.
Proof.
  assert (S : sound (recovery_op io) (@recover Device (recovery_io io)) (fun _ => True)).
  { pose proof block_size_val as Hb. unfold recover. eapply (sound_bind _ _ _ (fun _ => True)).
    { cbn. destruct (journal_blocks io !! _); [by apply sound_read|apply sound_throw]. }
    intros raw _. cbn [io_block_size recovery_io]. destruct (Nat.eqb_spec (length raw) BLOCK_SIZE) as [L|L]; cbn [negb]; [|apply sound_throw].
    eapply (sound_bind _ _ _ (fun _ => True)); [apply sound_lift; [apply superblock_parse_returns; lia|done]|]. intros sb _.
    destruct (_ =? _); [apply sound_throw|]. destruct (_ =? _); [by apply sound_ret|]. cbv zeta.
    do 3 (eapply (sound_bind _ _ _ (fun _ => True)); [apply sound_walk|]; intros [? ?] _).
    eapply sound_bind; [by apply sound_mark_clean|]. intros _ _. by apply sound_ret. }
  destruct (S d) as (res & d' & E & B & T & _). by exists res, d'.
Qed.
