(* ===== verification/JournalCrash.v ===== *)
(** The ext4 journal keeps its promise over power losses: whatever moment a commit
    (JournalTx.v) is interrupted, recovery (JournalRecovery.v) gives all of the transaction or
    nothing of it, and an interrupted recovery can be repeated. *)

From stdpp Require Import base numbers option list gmap.
From S2P Require Import Prelude Slice BTree Jbd2 JournalDev JournalRecovery JournalTx JournalLog JournalWalk.

(** ** Writing the log *)

Lemma chunks_concat (l : list block) : Forall (fun b => length b = BLOCK_SIZE) l -> chunks BLOCK_SIZE (concat l) = l.
Proof.
  pose proof block_size_val as Hb. intros H. unfold chunks.
  assert (G : forall fuel, (length (concat l) <= fuel)%nat -> chunks_go fuel BLOCK_SIZE (concat l) = l); [|by apply G].
  induction H as [|b l Hl H IH]; intros fuel Hf; [by destruct fuel|]. cbn [concat] in *. rewrite length_app in Hf.
  destruct fuel as [|fuel]; [lia|]. destruct (b ++ concat l) as [|x y] eqn:E.
  { apply (f_equal length) in E. rewrite length_app in E. simpl in E. lia. }
  cbn [chunks_go]. rewrite <- E, take_app_length', drop_app_length' by done. f_equal. apply IH. lia.
Qed.

Lemma does_write_chunks B l : forall p t, p + Z.of_nat (length l) <= usize_modulus ->
  does B (write_chunks p l) t (Ok tt) (imap (fun i b => Write (p + Z.of_nat i) b) l).
Proof.
  induction l as [|b l IH]; intros p t Hp; [apply does_ret|]. cbn [write_chunks imap length] in *.
  rewrite (proj2 (Z.leb_le _ _)) by (unfold usize_max; lia). rewrite Z.add_0_r.
  change (Write p b :: ?x) with ([Write p b] ++ x). eapply does_bind; [apply does_write|].
  replace (imap _ l) with (imap (fun i b => Write (p + 1 + Z.of_nat i) b) l); [apply IH; lia|].
  apply imap_ext. intros i x _. simpl. f_equal. lia.
Qed.

(** The blocks of a run have consecutive numbers. *)
Lemma run_length_ok first_phys l : Forall (fun e => 0 < e.1 < usize_modulus) l -> 0 < first_phys ->
  forall k, 0 < k -> first_phys + k <= usize_modulus ->
  let n := run_length first_phys k l in
  (n <= length l)%nat /\ first_phys + k + Z.of_nat n <= usize_modulus /\
  writes (take n l) = imap (fun i b => Write (first_phys + k + Z.of_nat i) b) (take n l).*2.
Proof.
  intros Hl Hf. induction Hl as [|[p b] l Hp Hl IH]; intros k Hk0 Hk; [by cbn; split_and!; [lia|lia|done]|].
  cbn [run_length]. destruct (Z.eqb_spec p (wrap64 (first_phys + k))) as [E|E]; cbn [length take]; [|split_and!; [lia|lia|done]].
  simpl in Hp. assert (first_phys + k < usize_modulus /\ p = first_phys + k) as [Hlt ->].
  { destruct (decide (first_phys + k = usize_modulus)) as [E'|E'].
    - exfalso. rewrite E' in E. unfold wrap64 in E. rewrite Z.mod_same in E by done. lia.
    - split; [lia|]. rewrite E. unfold wrap64. apply Z.mod_small. lia. }
  destruct (IH (k + 1) ltac:(lia) ltac:(lia)) as (H1 & H2 & H3). split_and!; [lia|lia|].
  unfold writes in *. cbn [fmap list_fmap imap fst snd]. rewrite Z.add_0_r. f_equal. rewrite H3.
  apply imap_ext. intros i x _. simpl. f_equal. lia.
Qed.

Lemma does_write_runs B l : Forall (fun e => 0 < e.1 < usize_modulus /\ length e.2 = BLOCK_SIZE) l ->
  forall fuel t, (length l <= fuel)%nat -> does B (write_runs fuel l) t (Ok tt) (writes l).
Proof.
  pose proof block_size_val as Hb. intros Hl fuel. revert l Hl.
  induction fuel as [|fuel IH]; intros l Hl t Hf; destruct l as [|[p b] l]; [apply does_ret|simpl in Hf; lia|apply does_ret|].
  cbn [write_runs]. apply Forall_cons in Hl as [[Hp Hlb] Hl]. simpl in Hp, Hlb.
  assert (HP : Forall (fun e => 0 < e.1 < usize_modulus) l) by (eapply Forall_impl; [exact Hl|by intros e [He _]]).
  destruct (run_length_ok p l HP ltac:(lia) 1 ltac:(lia) ltac:(lia)) as (H1 & H2 & H3). set (n := run_length p 1 l) in *.
  assert (E : writes ((p, b) :: l) = (Write p b :: writes (take n l)) ++ writes (drop n l)).
  { unfold writes. cbn [fmap list_fmap fst snd]. rewrite <- app_comm_cons, <- fmap_app, take_drop. done. }
  rewrite E. eapply does_bind; [|apply IH; [by apply Forall_drop|rewrite length_drop; simpl in Hf; lia]].
  destruct (Nat.eqb_spec n 0) as [N|N]; [rewrite N; apply does_write|]. unfold write_blocks.
  match goal with |- context [concat ?x] => set (bs := x) end. assert (Hbs : Forall (fun b => length b = BLOCK_SIZE) bs).
  { constructor; [done|]. apply Forall_fmap. apply Forall_take. eapply Forall_impl; [exact Hl|]. by intros e [_ He]. }
  assert (HL : length (concat bs) = (length bs * BLOCK_SIZE)%nat).
  { clear -Hbs. induction Hbs as [|x bs Hx _ IHb]; [done|]. cbn [concat length]. rewrite length_app, IHb, Hx. lia. }
  rewrite HL, Nat.Div0.mod_mul by lia. rewrite (proj2 (Nat.eqb_neq _ 0)) by (unfold bs; simpl; lia). cbn [orb negb Nat.eqb].
  rewrite chunks_concat by done. rewrite H3.
  assert (LB : length bs = S n) by (unfold bs; cbn [length]; rewrite length_fmap, length_take; lia).
  replace (Write p b :: _) with (imap (fun i b => Write (p + Z.of_nat i) b) bs); [apply does_write_chunks; lia|].
  unfold bs. cbn [imap]. rewrite Z.add_0_r. f_equal. apply imap_ext. intros i x _. simpl. f_equal. lia.
Qed.

Lemma does_write_homes B l : forall t, does B (write_homes l) t (Ok tt) (writes l).
Proof.
  induction l as [|[p b] l IH]; intros t; [apply does_ret|]. cbn [write_homes].
  change (writes ((p, b) :: l)) with ([Write p b] ++ writes l). eapply does_bind; [apply does_write|apply IH].
Qed.

(** ** Journals *)

(** The fixed part of a journal: where its blocks are, and its superblock apart from the sequence
    number and the start. *)
Record Journal := mk_journal { j_io : RecoveryDevice; j_sb : Superblock }.

Record journal_ok (j : Journal) : Prop := mk_journal_ok {
  jo_geo : 0 < first (j_sb j) < max_len (j_sb j);
  jo_u32 : max_len (j_sb j) < u32_modulus;
  jo_size : block_size (j_sb j) = 4096;
  jo_uuid : length (uuid (j_sb j)) = 16%nat;
  jo_type : checksum (features (j_sb j)) = V3 -> checksum_type (j_sb j) = CRC32C_CHKSUM;
  jo_map : Z.of_nat (length (journal_blocks (j_io j))) = max_len (j_sb j);
  jo_nodup : NoDup (journal_blocks (j_io j));
  jo_set : forall p, p ∈ journal_blocks (j_io j) <-> p ∈ journal_block_set (j_io j);
  jo_phys : forall p, p ∈ journal_blocks (j_io j) -> 0 < p < usize_modulus;
  jo_fs : 0 < fs_blocks (j_io j) <= usize_modulus;
}.

Section journal.
Context (j : Journal) (Hj : journal_ok j).
Let r := j_io j.
Let sb := j_sb j.
Let csum := checksum (features sb).
#[local] Instance rio : JournalRecoveryIo Device := recovery_io r.

Definition is_home (b : Z) : Prop := b ∉ journal_block_set r.

(** ** What a disk may hold after a power loss *)

(** The superblock on a disk. *)
Definition sb_at (img : disk) (S st : Z) : Prop :=
  length (img (phys r 0)) = BLOCK_SIZE /\ superblock_parse (img (phys r 0)) 4096 = mret (with_start sb S st) /\
  is_u32 S /\ (st = 0 \/ ring_pos sb st).

(** No committed transaction. *)
Definition idle (img : disk) (S : Z) (home : disk) : Prop :=
  (exists st, sb_at img S st) /\
  (forall p, ring_pos sb p -> quiet sb (fs_blocks r) S (jb r img p)) /\
  (forall b, is_home b -> img b = home b).

(** A map of images, as the log holds it. *)
Record batch_ok (m : btree block) (groups : list (list (Z * block))) (S : Z) : Prop := mk_batch_ok {
  bo_wf : bt_wf m;
  bo_concat : concat groups = m;
  bo_good : Forall (group_good r sb S) groups;
  bo_entry : Forall (entry_ok r) m;
}.

Definition log_of (groups : list (list (Z * block))) (S : Z) : list block := log_blocks sb (log_seed sb) S groups.

Definition patched (m : btree block) (home : disk) : disk := fun b => default (home b) (bt_get b m).

(** No block of the ring is younger than the sequence number. *)
Definition settled (img : disk) (S : Z) : Prop := forall p, ring_pos sb p -> length (jb r img p) = BLOCK_SIZE /\
  forall hd, header_parse (jb r img p) = Some (Ok hd) -> h_sequence hd <= S.

(** One committed transaction; its homes may hold anything. *)
Definition committed (img : disk) (S : Z) (m : btree block) (home : disk) : Prop :=
  exists st groups, sb_at img S st /\ ring_pos sb st /\ batch_ok m groups S /\
    Z.of_nat (length (log_of groups S)) + 1 <= ring_size sb /\
    log_at r img sb st 0 (log_of groups S ++ [commit_block sb S]) /\
    settled img S /\
    (forall b, is_home b -> bt_get b m = None -> img b = home b).

(** ** Recovery *)

Lemma phys0_in : phys r 0 ∈ journal_block_set r.
Proof.
  apply (jo_set j Hj). eapply list_elem_of_lookup_2, (phys_lookup r sb); try apply Hj. pose proof (jo_geo j Hj). unfold sb. lia.
Qed.

Lemma set_in p : p ∈ journal_blocks r -> p ∈ journal_block_set r.
Proof. apply (jo_set j Hj). Qed.

Definition new_sb (img : disk) (S : Z) : block := sb_update csum (img (phys r 0)) S 0.

Lemma does_read_sb img t : home_only r t -> does img (read_journal 0) t (Ok (img (phys r 0))) [].
Proof.
  intros Ht. apply (does_read_journal r img sb (jo_geo j Hj) (jo_map j Hj) set_in); [|done].
  pose proof (jo_geo j Hj). unfold sb. lia.
Qed.

Lemma does_mark_clean img S st e t : length (img (phys r 0)) = BLOCK_SIZE -> is_u32 (e + 1) ->
  does img (mark_clean (with_start sb S st) (img (phys r 0)) e) t (Ok tt) [Flush; Write (phys r 0) (new_sb img (e + 1)); Flush].
Proof.
  intros L He. pose proof block_size_val as Hb. unfold mark_clean. rewrite wrap32_id by done.
  change [Flush; _; Flush] with ([Flush] ++ [Write (phys r 0) (new_sb img (e + 1)); Flush]).
  eapply does_bind; [apply does_flush|]. set (raw := img (phys r 0)) in *.
  pose proof (sb_fields_length raw (e + 1) 0 ltac:(lia)) as L1. unfold sb_fields in L1.
  eapply does_bind_pure; [apply does_lift, put32_put4; lia|].
  eapply does_bind_pure; [apply does_lift, put32_put4; rewrite put4_length; lia|].
  eapply (does_bind_pure _ _ _ _ (new_sb img (e + 1))).
  { unfold new_sb, sb_update, sb_fields. fold raw. change (checksum (features (with_start sb S st))) with csum.
    destruct csum; [apply does_ret|].
    eapply does_bind_pure; [apply does_lift, put32_put4; lia|].
    eapply does_bind_pure; [apply does_lift, superblock_checksum_ok; rewrite put4_length; lia|].
    apply does_lift. rewrite put32_put4 by (rewrite put4_length; lia). by rewrite put4_twice, sb_csum_put4 by lia. }
  change [Write _ _; Flush] with ([Write (phys r 0) (new_sb img (e + 1))] ++ [Flush]).
  eapply does_bind; [|apply does_flush]. cbn [write_journal rio recovery_io].
  rewrite (phys_lookup r sb (jo_geo j Hj) (jo_map j Hj)) by (pose proof (jo_geo j Hj); unfold sb; lia).
  unfold write_image. unfold new_sb. rewrite sb_update_length by (fold raw; lia). fold raw. rewrite L, Nat.eqb_refl. apply does_write.
Qed.

Lemma does_recover_clean img S t : home_only r t -> sb_at img S 0 -> does img recover t (Ok no_stats) [].
Proof.
  intros Ht (L & E & _). unfold recover. eapply does_bind_pure; [by apply does_read_sb|].
  change (@io_block_size Device rio) with BLOCK_SIZE. rewrite L, Nat.eqb_refl, block_size_val. cbn [negb].
  eapply does_bind_pure; [apply does_lift; exact E|]. cbn [max_len start with_start].
  rewrite (proj2 (Z.eqb_neq _ _)) by (pose proof (jo_geo j Hj); unfold sb; lia). apply does_ret.
Qed.

(** The three passes. *)
Lemma does_recover_active img S st e w1 w2 w3 ws t : home_only r t -> sb_at img S st -> ring_pos sb st -> is_u32 (e + 1) ->
  does img (walk (with_start sb S st) (log_seed sb) Scan None (mk_work None no_stats)) t (Ok (e, w1)) [] ->
  does img (walk (with_start sb S st) (log_seed sb) RevokePass (Some e) (mk_work (Some ∅) no_stats)) t (Ok (e, w2)) [] ->
  does img (walk (with_start sb S st) (log_seed sb) Replay (Some e) (mk_work (revokes w2) no_stats)) t (Ok (e, w3)) ws ->
  does img recover t (Ok (mk_stats (wrap32 (e - S)) (replayed (stats w3)) (revoke_hits (stats w3))))
    (ws ++ [Flush; Write (phys r 0) (new_sb img (e + 1)); Flush]).
Proof.
  intros Ht (L & E & _) Hst He D1 D2 D3. unfold recover. eapply does_bind_pure; [by apply does_read_sb|].
  change (@io_block_size Device rio) with BLOCK_SIZE. rewrite L, Nat.eqb_refl, block_size_val. cbn [negb].
  eapply does_bind_pure; [apply does_lift; exact E|]. cbn [max_len start with_start uuid].
  pose proof (jo_geo j Hj). unfold ring_pos in Hst. rewrite !(proj2 (Z.eqb_neq _ _)) by (unfold sb in *; lia).
  eapply does_bind_pure; [exact D1|]. eapply does_bind_pure; [exact D2|]. eapply does_bind; [exact D3|].
  rewrite <- (app_nil_r [Flush; _; _]). eapply does_bind; [by apply does_mark_clean|]. apply does_ret.
Qed.

Lemma parse_tags_start S st blk n : parse_tags blk (with_start sb S st) n = parse_tags blk sb n.
Proof.
  unfold parse_tags. change (features (with_start sb S st)) with (features sb).
  generalize (Datatypes.S (length blk)) as fuel, 12%nat as off, (length blk - tail_bytes (features sb))%nat as stop.
  intros fuel off stop. case_match; [done|]. revert off. induction fuel as [|fuel IH]; intros off; [done|].
  cbn [parse_tags_loop]. change (features (with_start sb S st)) with (features sb). change (uuid (with_start sb S st)) with (uuid sb).
  case_match; [done|]. apply bind_ext. intros low. apply bind_ext. intros [[flags high] c]. apply bind_ext. intros off'.
  case_match; [done|]. case_match; [done|]. by rewrite IH.
Qed.

Lemma quiet_start S st n S' blk : quiet sb n S' blk -> quiet (with_start sb S st) n S' blk.
Proof. unfold quiet. destruct (header_parse blk) as [[h|e]|]; [|done|done]. by setoid_rewrite parse_tags_start. Qed.

Lemma recover_idle img S home t : home_only r t -> idle img S home -> is_u32 (S + 1) ->
  exists s ws, does img recover t (Ok s) ws /\
    (ws = [] /\ sb_at img S 0 \/ ws = [Flush; Write (phys r 0) (new_sb img (S + 1)); Flush]).
Proof.
  intros Ht ((st & Hs) & Hq & _) HS. pose proof Hs as (_ & _ & HS0 & [-> | Hst]).
  { exists no_stats, []. split; [by eapply does_recover_clean|left; by split]. }
  pose proof (jo_geo j Hj) as Hg. set (sbS := with_start sb S st).
  assert (D1 : exists w1, does img (walk sbS (log_seed sb) Scan None (mk_work None no_stats)) t (Ok (S, w1)) []).
  { unfold walk. cbn [walk_loop]. rewrite bool_decide_false by done.
    destruct (scan_quiet r img sbS (jo_geo j Hj) (jo_u32 j Hj) (jo_map j Hj) set_in (log_seed sb)
      (Datatypes.S (Z.to_nat (ring_blocks sbS))) S (mk_cursor st 0 false (mk_work None no_stats)) t Ht) as (f & D & F);
      [intros p Hp; by apply quiet_start, Hq|exact Hst|cbn [consumed]; lia|].
    destruct f as [[b c]|s].
    - rewrite F in *. exists (work c). eapply does_bind_pure; [exact D|apply does_ret].
    - rewrite F in *. eexists. eapply does_bind_pure; [exact D|apply does_ret]. }
  destruct D1 as [w1 D1]. eexists _, _. split; [|right; reflexivity].
  eapply (does_recover_active img S st S w1 _ _ []); [done|done|done|done|exact D1| |];
    unfold walk; cbn [walk_loop]; rewrite bool_decide_true by done; apply does_ret.
Qed.

Lemma recover_committed img S m home t : home_only r t -> committed img S m home -> is_u32 (S + 2) ->
  exists s, does img recover t (Ok s) (writes m ++ [Flush; Write (phys r 0) (new_sb img (S + 2)); Flush]).
Proof.
  intros Ht (st & groups & Hs & Hst & [Hwf Hc Hgd He] & Hroom & Hlog & Hf & _) HS. pose proof Hs as (_ & _ & HS0 & _).
  assert (HS1 : is_u32 (S + 1)) by (unfold is_u32 in *; lia). set (sbS := with_start sb S st). subst m.
  pose proof (fun pass stop w => does_walk r img sbS (jo_geo j Hj) (jo_u32 j Hj) (jo_map j Hj) set_in pass S st HS0 (jo_uuid j Hj)
    eq_refl Hst eq_refl HS1 groups Hgd He Hroom Hlog stop w t) as W.
  eexists. replace (S + 2) with (S + 1 + 1) by lia.
  eapply (does_recover_active img S st (S + 1) _ _ _ _); [done|done|done|by replace (S + 1 + 1) with (S + 2) by lia| | |].
  - apply (W Scan None); [by left|done|]. left. split_and!; [done|done|]. intros p Hp. destruct (Hf p Hp) as [L Q].
    split; [done|]. intros hd E. specialize (Q hd E). lia.
  - apply (W RevokePass); [by right|done|]. right. done.
  - apply (W Replay); [by right|done|]. right. done.
Qed.

(** A descriptor that cannot be parsed stops recovery. *)
Lemma recover_unreadable img S st : sb_at img S st -> ring_pos sb st -> length (jb r img st) = BLOCK_SIZE ->
  header_parse (jb r img st) = mret (mk_header Descriptor S) -> parse_tags (jb r img st) sb (fs_blocks r) = malformed ->
  does img recover [] (Err EIO) [].
Proof.
  intros (L & E & HS & _) Hst Lb Eh Et. assert (NO : home_only r []) by constructor. unfold recover.
  eapply does_bind_pure; [by apply does_read_sb|].
  change (@io_block_size Device rio) with BLOCK_SIZE. rewrite L, Nat.eqb_refl, block_size_val. cbn [negb].
  eapply does_bind_pure; [apply does_lift; exact E|]. cbn [max_len start with_start uuid].
  pose proof (jo_geo j Hj) as Hg. pose proof Hst as Hst'. unfold ring_pos in Hst'. rewrite !(proj2 (Z.eqb_neq _ _)) by (unfold sb in *; lia).
  apply does_bind_err. unfold walk. cbn [walk_loop]. rewrite bool_decide_false by done. apply does_bind_err.
  cbn [walk_tx consumed pos invalid work]. unfold ring_blocks at 1. cbn [max_len first with_start].
  rewrite (proj2 (Z.ltb_lt 0 _)) by (unfold sb; lia). cbn [negb start with_start sequence].
  eapply (does_read_sized r img (with_start sb S st) Hg (jo_map j Hj) set_in); [unfold sb in *; cbn; lia|exact NO|exact Lb|].
  cbv beta. rewrite Eh. cbn [mret res_ret h_sequence block_type]. rewrite Z.eqb_refl.
  destruct (check_block_scan img (with_start sb S st) (checksum_seed (uuid sb)) (jb r img st) false [] Lb) as [bad Db].
  eapply does_bind_pure; [exact Db|]. apply does_bind_err, does_lift.
  change (@filesystem_blocks Device rio) with (fs_blocks r). rewrite parse_tags_start. exact Et.
Qed.

(** ** Disks that recovery turns into a given file system *)

Definition recoverable (n : Z) (img home : disk) : Prop :=
  exists S, S <= n /\
    (idle img S home \/
     exists m home0, committed img S m home0 /\ forall b, is_home b -> home b = patched m home0 b).

(** Nothing to recover. *)
Definition clean (n : Z) (img home : disk) : Prop :=
  exists S, S <= n /\ sb_at img S 0 /\ idle img S home.

Lemma quiet_mono n S S' blk : S < S' -> quiet sb n S blk -> quiet sb n S' blk.
Proof.
  intros H [L Q]. split; [done|]. destruct (header_parse blk) as [[h|e]|]; [|done|done]. left. destruct Q as [Q|(Q & _)]; lia.
Qed.

(** Disks that agree on the journal apart from its superblock. *)
Definition same_ring (img img' : disk) : Prop := forall p, ring_pos sb p -> jb r img' p = jb r img p.

Lemma sb_at_same img img' S st : img' (phys r 0) = img (phys r 0) -> sb_at img S st -> sb_at img' S st.
Proof. intros E. unfold sb_at. by rewrite E. Qed.

Lemma sb_at_update img img' S st S' st' : sb_at img S st -> is_u32 S' -> st' = 0 \/ ring_pos sb st' ->
  img' (phys r 0) = sb_update csum (img (phys r 0)) S' st' -> sb_at img' S' st'.
Proof.
  intros (L & E & _) HS Hst E'. unfold sb_at. rewrite E'.
  pose proof block_size_val. pose proof (jo_geo j Hj) as Hg. pose proof (jo_u32 j Hj) as Hm.
  split; [rewrite sb_update_length; lia|]. split; [|done].
  apply (superblock_parse_update _ _ _ S' st') in E; [exact E|done| | |]; cbn [first max_len with_start];
    unfold ring_pos, is_u32, sb in *; lia.
Qed.

Lemma sb_at_new img img' S st S' : sb_at img S st -> is_u32 S' -> img' (phys r 0) = new_sb img S' -> sb_at img' S' 0.
Proof. intros H HS E. eapply sb_at_update; [exact H|done|by left|exact E]. Qed.

Lemma settled_quiet img S S' p : settled img S -> S < S' -> ring_pos sb p -> quiet sb (fs_blocks r) S' (jb r img p).
Proof.
  intros H HS Hp. destruct (H p Hp) as [L Q]. split; [done|].
  destruct (header_parse (jb r img p)) as [[h|e]|]; [|done|done]. left. specialize (Q h eq_refl). lia.
Qed.

Lemma quiet_settled img S : (forall p, ring_pos sb p -> quiet sb (fs_blocks r) S (jb r img p)) -> settled img S.
Proof.
  intros H p Hp. destruct (H p Hp) as [L Q]. split; [done|]. intros hd E. rewrite E in Q. destruct Q as [Q|(Q & _)]; lia.
Qed.

Lemma ring_not_phys0 p : ring_pos sb p -> phys r p <> phys r 0.
Proof.
  intros Hp E. pose proof (jo_geo j Hj). unfold ring_pos, sb in *.
  pose proof (phys_lookup r sb (jo_geo j Hj) (jo_map j Hj) p ltac:(unfold sb; lia)) as E1.
  pose proof (phys_lookup r sb (jo_geo j Hj) (jo_map j Hj) 0 ltac:(unfold sb; lia)) as E2.
  rewrite <- E in E2. pose proof (NoDup_lookup _ _ _ _ (jo_nodup j Hj) E1 E2). lia.
Qed.

Lemma ring_in p : ring_pos sb p -> phys r p ∈ journal_block_set r.
Proof.
  intros Hp. pose proof (jo_geo j Hj). unfold ring_pos, sb in *. apply set_in.
  eapply list_elem_of_lookup_2, (phys_lookup r sb (jo_geo j Hj) (jo_map j Hj)). unfold sb; lia.
Qed.

Lemma settled_idle img S S' st home : settled img S -> S < S' -> sb_at img S' st ->
  (forall b, is_home b -> img b = home b) -> idle img S' home.
Proof. intros H HS Hs Hh. split_and!; [by exists st|intros p Hp; by eapply settled_quiet|done]. Qed.

Lemma home_not_phys0 b : is_home b -> b <> phys r 0.
Proof. intros H ->. by apply H, phys0_in. Qed.

Lemma ring_same img img' : (forall b, b ∈ journal_block_set r -> b <> phys r 0 -> img' b = img b) -> same_ring img img'.
Proof. intros H p Hp. apply H; [by apply ring_in|by apply ring_not_phys0]. Qed.

Lemma settled_same img img' S : same_ring img img' -> settled img S -> settled img' S.
Proof. intros E H p Hp. rewrite (E p Hp). by apply H. Qed.

Lemma idle_crash img S home p ws img' : idle img S home -> is_u32 (S + 1) ->
  ws = [] /\ sb_at img S 0 \/ ws = [Flush; Write (phys r 0) (new_sb img (S + 1)); Flush] ->
  p `prefix_of` ws -> crash_image img p img' ->
  recoverable (S + 1) img' home /\ (p = ws -> clean (S + 1) img' home).
Proof.
  intros Hi HS Hws Hp Hc. pose proof Hi as ((st & Hs) & Hq & Hh). pose proof (quiet_settled img S Hq) as Hset.
  assert (Same : (forall b, img' b = img b) -> recoverable (S + 1) img' home /\ idle img' S home).
  { intros E. assert (I : idle img' S home).
    { split_and!; [exists st; by apply (sb_at_same img)|intros q Hq'; unfold jb; rewrite E; by apply Hq|intros b Hb; rewrite E; by apply Hh]. }
    split; [|done]. exists S. split; [lia|by left]. }
  destruct Hws as [[-> Hs0]|Ews].
  - apply prefix_nil_inv in Hp as ->. destruct (Same (crash_nil _ _ Hc)) as [R I]. split; [done|]. intros _. exists S.
    split_and!; [lia| |done]. eapply sb_at_same; [|exact Hs0]. by apply crash_nil.
  - rewrite Ews in Hp. destruct (crash_one img [] _ _ p img' Hp Hc) as [-> | (E1 & E2 & E3)].
    { destruct (Same (crash_nil _ _ Hc)) as [R I]. split; [done|]. intros E. by rewrite Ews in E. }
    assert (N : img' (phys r 0) = new_sb img (S + 1) -> sb_at img' (S + 1) 0 /\ idle img' (S + 1) home).
    { intros E. assert (Hs' : sb_at img' (S + 1) 0) by (by eapply sb_at_new). split; [done|].
      eapply (settled_idle img' S); [eapply settled_same; [apply ring_same; intros b _; apply E1|done]|lia|exact Hs'|].
      intros b Hb. rewrite E1 by (by apply home_not_phys0). by apply Hh. }
    split.
    + destruct E2 as [E2|E2]; [apply Same|].
      * intros b. destruct (decide (b = phys r 0)) as [->|Hb]; [exact E2|by apply E1].
      * exists (S + 1). split; [lia|]. left. by apply N.
    + intros ->. exists (S + 1). split; [lia|]. apply N. by apply E3.
Qed.

Lemma patched_home m home0 l b v : bt_wf m -> l `prefix_of` m -> (b, v) ∈ l -> patched m home0 b = v.
Proof.
  intros Hw [k ->] H. unfold patched. erewrite bt_elem_get; [done|done|]. apply elem_of_app. by left.
Qed.

Lemma bt_wf_nodup {V} (m : btree V) : bt_wf m -> NoDup m.*1.
Proof.
  unfold bt_wf. induction 1 as [|x l Hs IH Hx]; constructor; [|done]. intros H. rewrite Forall_forall in Hx.
  specialize (Hx x H). lia.
Qed.

Lemma bt_get_keys {V} (m : btree V) b : bt_wf m -> bt_get b m = None -> b ∉ m.*1.
Proof.
  intros Hw H E. apply list_elem_of_fmap in E as ([b' v] & -> & E). simpl in H. by rewrite (bt_elem_get _ _ _ Hw E) in H.
Qed.

(** Checkpointed homes. *)
Lemma content_patched img (m : btree block) t b home0 : bt_wf m -> (bt_get b m = None -> content img t b = home0 b) ->
  content img (t ++ writes m) b = patched m home0 b.
Proof.
  intros Hw H. unfold patched. destruct (bt_get b m) as [v|] eqn:E.
  - apply content_writes_in; [by apply bt_wf_nodup|by apply bt_get_elem].
  - simpl. rewrite content_writes_out by (by apply bt_get_keys). by apply H.
Qed.

Lemma committed_same img img' S m home0 : committed img S m home0 ->
  (forall b, b ∈ journal_block_set r -> img' b = img b) ->
  (forall b, is_home b -> bt_get b m = None -> img' b = img b) -> committed img' S m home0.
Proof.
  intros (st & groups & Hs & Hst & Hb & Hroom & Hlog & Hset & Hh) E1 E2. exists st, groups.
  assert (SR : same_ring img img') by (apply ring_same; intros b Hb' _; by apply E1). split_and!; try done.
  - apply (sb_at_same img); [apply E1, phys0_in|done].
  - intros i b Hi. rewrite (SR _ (rpos_ring sb (jo_geo j Hj) _ _)). by apply Hlog.
  - by eapply settled_same.
  - intros b Hb' E. rewrite E2 by done. by apply Hh.
Qed.

Lemma batch_keys m groups S b v : batch_ok m groups S -> (b, v) ∈ m -> is_home b.
Proof. intros H E. pose proof (bo_entry _ _ _ H) as F. rewrite Forall_forall in F. by destruct (F _ E). Qed.

Lemma prefix_app_cases {A} (p a b : list A) : p `prefix_of` a ++ b ->
  p `prefix_of` a \/ exists q, p = a ++ q /\ q `prefix_of` b.
Proof.
  revert p. induction a as [|x a IH]; intros p H; [right; by exists p|]. destruct p as [|y p]; [left; apply prefix_nil|].
  cbn [app] in H. pose proof (prefix_cons_inv_1 _ _ _ _ H) as ->. apply prefix_cons_inv_2 in H.
  destruct (IH p H) as [H'|(q & -> & Hq)]; [left; by apply prefix_cons|right; by exists q].
Qed.

Lemma committed_crash img S m home0 p img' : committed img S m home0 -> is_u32 (S + 2) ->
  p `prefix_of` writes m ++ [Flush; Write (phys r 0) (new_sb img (S + 2)); Flush] -> crash_image img p img' ->
  recoverable (S + 2) img' (patched m home0) /\
  (p = writes m ++ [Flush; Write (phys r 0) (new_sb img (S + 2)); Flush] -> clean (S + 2) img' (patched m home0)).
Proof.
  intros Hc HS Hp Himg. pose proof Hc as (st & groups & Hs & _ & Hb & _ & _ & Hset & Hh).
  pose proof (bo_wf _ _ _ Hb) as Hw. pose proof (fun b v => batch_keys m groups S b v Hb) as HK.
  assert (Again : committed img' S m home0 -> recoverable (S + 2) img' (patched m home0)).
  { intros H. exists S. split; [lia|]. right. by exists m, home0. }
  assert (HO : home_only r (writes m)) by (apply home_only_writes, Hb).
  assert (Part : forall l, l `prefix_of` m -> crash_image img (writes l) img' -> recoverable (S + 2) img' (patched m home0)).
  { intros l [k Hl] Hl'. pose proof (crash_first img _ img' (writes_no_flush l) Hl') as F.
    assert (In : forall b, Write b (img' b) ∈ writes l -> (b, img' b) ∈ m)
      by (intros b Hb'; rewrite Hl; apply elem_of_app; left; by apply writes_elem).
    apply Again, (committed_same img); [done| |].
    - intros b Hb'. destruct (F b) as [F'|F']; [done|]. by destruct (HK _ _ (In _ F')).
    - intros b Hb' E. destruct (F b) as [F'|F']; [done|]. by rewrite (bt_elem_get _ _ _ Hw (In _ F')) in E. }
  apply prefix_app_cases in Hp as [Hp|(q & -> & Hq)].
  { apply writes_prefix in Hp as (l & -> & Hl). split; [by apply (Part l)|]. intros E.
    apply (f_equal length) in E. rewrite length_app in E. apply prefix_length in Hl. unfold writes in E. rewrite !length_fmap in E. simpl in E. lia. }
  destruct (crash_one img (writes m) _ _ q img' Hq Himg) as [-> | (E1 & E2 & E3)].
  { rewrite app_nil_r in *. split; [by apply (Part m)|]. intros E. apply (f_equal length) in E. rewrite length_app in E. simpl in E. lia. }
  assert (J : forall b, b ∈ journal_block_set r -> content img (writes m) b = img b) by (intros b; by apply home_only_content).
  assert (H' : forall b, is_home b -> img' b = patched m home0 b).
  { intros b Hb'. rewrite E1 by (by apply home_not_phys0). apply (content_patched img m []); [done|]. intros E. by apply Hh. }
  assert (N : img' (phys r 0) = new_sb img (S + 2) -> sb_at img' (S + 2) 0 /\ idle img' (S + 2) (patched m home0)).
  { intros E. assert (Hs' : sb_at img' (S + 2) 0) by (by eapply sb_at_new). split; [done|].
    eapply (settled_idle img' S); [eapply settled_same; [apply ring_same; intros b Hb' Hn; rewrite E1 by done; by apply J|done]|lia|exact Hs'|done]. }
  split.
  - destruct E2 as [E2|E2]; [|exists (S + 2); split; [lia|left; by apply N]]. apply Again, (committed_same img); [done| |].
    + intros b Hb'. rewrite <- (J b Hb'). destruct (decide (b = phys r 0)) as [->|]; [done|by apply E1].
    + intros b Hb' E. rewrite H' by done. unfold patched. rewrite E. simpl. symmetry. by apply Hh.
  - intros E. apply app_inv_head in E. exists (S + 2). split; [lia|]. by apply N, E3.
Qed.

Lemma idle_ext img S home home' : (forall b, is_home b -> home b = home' b) -> idle img S home -> idle img S home'.
Proof. intros E (A & B & C). split_and!; [done|done|]. intros b Hb. rewrite C by done. by apply E. Qed.

Lemma recoverable_weaken n n' img home home' : n <= n' -> (forall b, is_home b -> home b = home' b) ->
  recoverable n img home -> recoverable n' img home'.
Proof.
  intros Hn E (S & HS & H). exists S. split; [lia|]. destruct H as [H|(m & home0 & H & Eh)]; [left; by eapply idle_ext|].
  right. exists m, home0. split; [done|]. intros b Hb. rewrite <- E by done. by apply Eh.
Qed.

Lemma clean_weaken n n' img home home' : n <= n' -> (forall b, is_home b -> home b = home' b) ->
  clean n img home -> clean n' img home'.
Proof. intros Hn E (S & HS & Hs & H). exists S. split_and!; [lia|done|by eapply idle_ext]. Qed.

Lemma clean_recoverable n img home : clean n img home -> recoverable n img home.
Proof. intros (S & HS & _ & H). exists S. split; [done|by left]. Qed.

(** Recovery, and what is left of it when it is interrupted. *)
Lemma recover_does n img home : recoverable n img home -> is_u32 (n + 2) ->
  exists s ws, does img recover [] (Ok s) ws /\ (ws = [] \/ exists ws', ws = ws' ++ [Flush]) /\
    forall p img', p `prefix_of` ws -> crash_image img p img' ->
      recoverable (n + 2) img' home /\ (p = ws -> clean (n + 2) img' home).
Proof.
  intros (S & HS & H) Hn. assert (NO : home_only r []) by constructor. destruct H as [H|(m & home0 & H & Eh)].
  - pose proof H as ((st & (_ & _ & HS0 & _)) & _ & _). assert (HS1 : is_u32 (S + 1)) by (unfold is_u32 in *; lia).
    destruct (recover_idle img S home [] NO H HS1) as (s & ws & D & Hws). exists s, ws. split; [exact D|].
    split; [destruct Hws as [[-> _]| ->]; [by left|right; by exists [Flush; Write (phys r 0) (new_sb img (S + 1))]]|].
    intros p img' Hp Hc. destruct (idle_crash img S home p ws img' H HS1 Hws Hp Hc) as [A C].
    split; [eapply recoverable_weaken; [|done|exact A]; lia|]. intros E. eapply clean_weaken; [|done|by apply C]. lia.
  - pose proof H as (st & groups & (_ & _ & HS0 & _) & _). assert (HS1 : is_u32 (S + 2)) by (unfold is_u32 in *; lia).
    destruct (recover_committed img S m home0 [] NO H HS1) as [s D]. eexists s, _. split; [exact D|].
    split; [right; exists (writes m ++ [Flush; Write (phys r 0) (new_sb img (S + 2))]); by rewrite <- app_assoc|].
    intros p img' Hp Hc. destruct (committed_crash img S m home0 p img' H HS1 Hp Hc) as [A C].
    split; [eapply recoverable_weaken; [| |exact A]|intros E; eapply clean_weaken; [| |by apply C]]; try lia;
      intros b Hb; symmetry; by apply Eh.
Qed.

(** ** Committing *)

(** A mounted journal without a transaction. *)
Record mounted (c : JournalContext) (B : disk) (S : Z) : Prop := mk_mounted {
  mo_sb : superblock c = with_start sb S 0;
  mo_map : logical_blocks c = journal_blocks r;
  mo_set : journal_set c = journal_block_set r;
  mo_target : target_blocks c = fs_blocks r;
  mo_head : ring_pos sb (head c);
  mo_image : superblock_image c = take 1024 (B (phys r 0));
  mo_at : sb_at B S 0;
  mo_quiet : forall p, ring_pos sb p -> quiet sb (fs_blocks r) S (jb r B p);
}.

Definition images_ok (m : btree block) : Prop :=
  bt_wf m /\ Forall (fun e => 0 <= e.1 < usize_modulus /\ image_ok e.2) m.

(** Descriptors with checksums are understood if they hold one tag. *)
Definition fits_reader (m : btree block) : Prop := csum = ChecksumNone \/ (length m <= 1)%nat.

Definition groups_of (m : btree block) : list (list (Z * block)) := log_groups sb m.

(** What a commit checks. *)
Definition valid_home (b : Z) : Prop := home_fits sb b /\ b < fs_blocks r /\ is_home b.
Definition fits_ring (n : nat) : Prop :=
  exists needed, required_log_blocks (Z.of_nat n) (features sb) = Some (Ok needed) /\ needed <= ring_size sb.

Lemma images_sized m : images_ok m -> Forall (fun e => 0 <= e.1 < usize_modulus /\ length e.2 = BLOCK_SIZE) m.
Proof. intros [_ Hm]. eapply Forall_impl; [exact Hm|]. by intros e (H1 & H2 & _). Qed.

Lemma log_batch m S : images_ok m -> fits_reader m -> Forall (fun e => valid_home e.1) m -> batch_ok m (groups_of m) S.
Proof.
  intros Hm Hr Hv. assert (HU : length (uuid sb) = 16%nat) by apply (jo_uuid j Hj). pose proof (images_sized m Hm) as Hm'.
  destruct Hm as [Hw Hm]. destruct (log_groups_spec sb S m HU Hm') as (C & F & _). fold (groups_of m) in C, F.
  rewrite Forall_forall in Hv, Hm, Hm'. pose proof (proj1 (Forall_forall _ _) F) as F'. split; [done|done| |].
  - apply Forall_forall. intros g Hg. destruct (F' g Hg) as (Hne & Hroom & _).
    assert (Sub : forall e, e ∈ g -> e ∈ m).
    { intros e Heg. rewrite <- C. apply list_elem_of_In, in_concat. exists g. by split; apply list_elem_of_In. }
    split_and!; [done| | |apply Forall_forall; intros e Heg; by apply Hv, Sub|done].
    + apply Forall_forall. intros e Heg. split; [by apply Hv, Sub|by apply Hm', Sub].
    + destruct Hr as [Hr|Hr]; [by left|right; right].
      assert (length g <= length m)%nat; [|destruct g; simpl in *; [done|lia]].
      rewrite <- C. clear -Hg. induction (groups_of m) as [|g' gs IH]; [by apply not_elem_of_nil in Hg|]. cbn [concat].
      rewrite length_app. apply elem_of_cons in Hg as [->|Hg]; [lia|]. specialize (IH Hg). lia.
  - apply Forall_forall. intros e He. split; [apply (Hm e He)|apply (Hv e He)].
Qed.

Definition the_plan (c : JournalContext) (B : disk) (S : Z) (m : btree block) : CommitPlan :=
  let log := log_of (groups_of m) S in
  let pos := fun i => rpos sb (head c) (Z.of_nat i) in
  let image := take 1024 (B (phys r 0)) in
  mk_plan (zip ((fun i => phys r (pos i)) <$> seq 0 (length log + 1)) log) (phys r (pos (length log)), commit_block sb S)
    (pos (length log)) (sb_update csum image S (head c)) (sb_update csum image (wrap32 (S + 1)) 0).

Lemma invalid_exists (m : btree block) : existsb (fun e => (fs_blocks r <=? e.1) || bool_decide (e.1 ∈ journal_block_set r)) m = false
  <-> Forall (fun e => e.1 < fs_blocks r /\ is_home e.1) m.
Proof.
  unfold is_home. induction m as [|e m IH]; [done|]. cbn [existsb]. rewrite Forall_cons, !orb_false_iff, IH, Z.leb_gt, bool_decide_eq_false. tauto.
Qed.

Lemma ring_positions_ok S h n : ring_pos sb h -> Z.of_nat n <= ring_size sb ->
  ring_positions (with_start sb S 0) h n = mret ((fun i => rpos sb h (Z.of_nat i)) <$> seq 0 n).
Proof.
  intros Hh Hn. pose proof (jo_geo j Hj) as Hg. pose proof (jo_u32 j Hj) as Hu. unfold ring_positions, ring_len, ring_pos, ring_size in *.
  cbn [first max_len with_start]. rewrite (proj2 (Z.leb_le (first sb) (max_len sb))) by (unfold sb; lia). rewrite bind_ok.
  rewrite (proj2 (Nat.ltb_ge _ _)), (proj2 (Z.ltb_ge _ _)), (proj2 (Z.leb_gt _ _)) by (unfold sb in *; lia). cbn [orb]. f_equal. f_equal.
  apply list_eq. intros i. rewrite list_lookup_fmap. destruct (decide (i < n)%nat) as [Hi|Hi].
  - rewrite lookup_seq_lt by done. rewrite <- (rpos_0 sb h Hh) at 1.
    exact (ring_walk_lookup (with_start sb S 0) Hg Hu h n i Hi).
  - rewrite !lookup_ge_None_2; [done|rewrite length_seq; lia|rewrite ring_walk_length; lia].
Qed.

Lemma commit_plan_exists c B S m : mounted c B S -> images_ok m -> Forall (fun e => valid_home e.1) m -> fits_ring (length m) ->
  commit_plan c m = mret (the_plan c B S m).
Proof.
  intros Hc Hm Hv (needed & En & Hn). destruct Hc as [Esb Emap Eset Etg Hh Eim Hat _].
  pose proof (jo_geo j Hj) as Hg. pose proof (images_sized m Hm) as Hm'.
  assert (L1024 : (1024 <= length (take 1024 (B (phys r 0))))%nat)
    by (destruct Hat as [L _]; pose proof block_size_val; rewrite length_take; lia).
  pose proof (log_length sb S m (jo_uuid j Hj) Hm' needed En) as En'. change (log_blocks sb _ S _) with (log_of (groups_of m) S) in En'.
  unfold commit_plan. rewrite Esb, Emap, Eset, Etg, Eim. cbn [features sequence with_start].
  change (Some (Ok needed)) with (mret needed : res Z) in En. rewrite En, bind_ok.
  unfold ring_len. cbn [first max_len with_start]. rewrite (proj2 (Z.leb_le (first sb) (max_len sb))) by (unfold sb; lia). rewrite bind_ok.
  rewrite (proj2 (Z.ltb_ge _ _)) by (unfold ring_size in Hn; lia). rewrite ring_positions_ok by (done || lia). rewrite bind_ok.
  rewrite (proj2 (invalid_exists m)) by (eapply Forall_impl; [exact Hv|]; by intros e (_ & H)).
  rewrite encode_log_make by (by apply Hj || done || (eapply Forall_impl; [exact Hv|]; by intros e (H & _))). rewrite bind_ok.
  rewrite encode_commit_ok, bind_ok, !update_superblock_ok, !bind_ok by done.
  replace (Z.to_nat needed) with (length (log_of (groups_of m) S) + 1)%nat by lia. set (n := length (log_of (groups_of m) S)) in *.
  assert (Lk : forall i, journal_blocks r !! Z.to_nat (rpos sb (head c) i) = Some (phys r (rpos sb (head c) i))).
  { intros i. pose proof (rpos_ring sb Hg (head c) i) as R. unfold ring_pos in R. apply (phys_lookup r sb Hg (jo_map j Hj)). unfold sb in *; lia. }
  rewrite (mapM_Some_2 _ _ (phys r <$> ((fun i => rpos sb (head c) (Z.of_nat i)) <$> seq 0 (n + 1))))
    by (apply Forall2_fmap_r, Forall_Forall2_diag, Forall_fmap, Forall_true; intros i; apply Lk).
  rewrite last_lookup, length_fmap, length_seq, list_lookup_fmap, lookup_seq_lt by lia. cbn [fmap option_fmap option_map].
  replace (Nat.pred (n + 1)) with n by lia. cbn [Nat.add]. rewrite Lk, <- list_fmap_compose. done.
Qed.

Lemma commit_plan_checks c B S m plan : mounted c B S -> images_ok m -> commit_plan c m = Some (Ok plan) ->
  Forall (fun e => valid_home e.1) m /\ fits_ring (length m).
Proof.
  intros [Esb _ Eset Etg _ _ _ _] Hm H. pose proof (jo_geo j Hj) as Hg. pose proof (images_sized m Hm) as Hm'.
  unfold commit_plan in H. rewrite Esb, Eset, Etg in H. cbn [features sequence with_start] in H.
  apply bind_Ok in H as (needed & En & H). apply bind_Ok in H as (avail & Ea & H).
  destruct (Z.ltb_spec (Z.of_nat avail) needed) as [|Hav]; [done|]. apply bind_Ok in H as (ps & _ & H).
  destruct (existsb _ m) eqn:Ex; [done|]. apply bind_Ok in H as (enc & Ee & _). apply invalid_exists in Ex.
  unfold ring_len in Ea. cbn [first max_len with_start] in Ea. rewrite (proj2 (Z.leb_le _ _)) in Ea by (unfold sb; lia).
  apply ret_inj in Ea as <-. split; [|exists needed; split; [done|unfold ring_size, sb in *; lia]].
  destruct (encode_log_ok (with_start sb S 0) S m (jo_uuid j Hj) Hm' enc Ee) as [G _].
  destruct (log_groups_spec sb S m (jo_uuid j Hj) Hm') as (C & _). rewrite Forall_forall in Ex.
  apply Forall_forall. intros e He. split; [|by apply Ex]. rewrite <- C in He. apply list_elem_of_In, in_concat in He as (g & Hg' & He).
  apply list_elem_of_In in Hg'. rewrite Forall_forall in G. specialize (G g Hg'). unfold group_ok in G. rewrite Forall_forall in G.
  by apply (G e), list_elem_of_In.
Qed.

Lemma commit_plan_layout c B S m plan : mounted c B S -> images_ok m -> commit_plan c m = Some (Ok plan) ->
  let log := log_of (groups_of m) S in
  let n := Z.of_nat (length log) in
  n + 1 <= ring_size sb /\
  (p_log plan).*2 = log /\ (forall i e, p_log plan !! i = Some e -> e.1 = phys r (rpos sb (head c) (Z.of_nat i))) /\
  p_commit plan = (phys r (rpos sb (head c) n), commit_block sb S) /\ p_commit_logical plan = rpos sb (head c) n /\
  p_active plan = sb_update csum (take 1024 (B (phys r 0))) S (head c) /\
  p_clean plan = sb_update csum (take 1024 (B (phys r 0))) (wrap32 (S + 1)) 0.
Proof.
  intros Hc Hm H log n. destruct (commit_plan_checks c B S m plan Hc Hm H) as [Hv Hf].
  rewrite (commit_plan_exists c B S m Hc Hm Hv Hf) in H. apply ret_inj in H as <-. destruct Hf as (needed & En & Hn).
  pose proof (log_length sb S m (jo_uuid j Hj) (images_sized m Hm) needed En) as En'. change (log_blocks sb _ S _) with log in En'.
  split_and!; try done.
  - lia.
  - apply snd_zip. rewrite length_fmap, length_seq. fold log. lia.
  - intros i [q e] Hi. apply lookup_zip_Some in Hi as [H1 H2]. apply lookup_lt_Some in H2. fold log in H2. cbn [fst].
    rewrite list_lookup_fmap, lookup_seq_lt in H1 by (fold log; lia). by injection H1 as <-.
Qed.

Lemma commit_plan_batch c B S m plan : mounted c B S -> images_ok m -> fits_reader m -> commit_plan c m = Some (Ok plan) ->
  batch_ok m (groups_of m) S.
Proof. intros Hc Hm Hr H. destruct (commit_plan_checks c B S m plan Hc Hm H) as [Hv _]. by apply log_batch. Qed.

Definition active_sb (c : JournalContext) (B : disk) (S : Z) : block := sb_update csum (B (phys r 0)) S (head c).

(** The trace of a commit: the log, the commit record, the homes, and the superblock again. *)
Definition log_part (c : JournalContext) (B : disk) (S : Z) (plan : CommitPlan) : list (Z * block) :=
  (phys r 0, active_sb c B S) :: p_log plan.
Definition commit_trace (c : JournalContext) (B : disk) (S : Z) (m : btree block) (plan : CommitPlan) : list dop :=
  writes (log_part c B S plan) ++ [Flush] ++ [Write (fst (p_commit plan)) (snd (p_commit plan))] ++ [Flush]
    ++ writes m ++ [Flush] ++ [Publish] ++ [Write (phys r 0) (new_sb B (S + 1))] ++ [Flush].

Lemma does_write_sb B t mapping h h' rest : mapping !! 0%nat = Some (phys r 0) -> content B t (phys r 0) = h ++ rest ->
  length h = length h' -> does B (write_journal_superblock mapping h') t (Ok tt) [Write (phys r 0) (h' ++ rest)].
Proof.
  intros Em Ec L. unfold write_journal_superblock. rewrite Em. eapply does_bind_pure; [apply does_read|]. rewrite Ec.
  eapply does_bind_pure; [apply does_lift, put_at_ok; rewrite length_app; lia|].
  replace (spliced (h ++ rest) 0 h') with (h' ++ rest); [apply does_write|].
  unfold spliced. simpl. by rewrite drop_app_length' by lia.
Qed.

Lemma log_part_nodup c B S m plan : mounted c B S -> images_ok m -> commit_plan c m = Some (Ok plan) ->
  NoDup (log_part c B S plan).*1 /\ fst (p_commit plan) ∉ (log_part c B S plan).*1.
Proof.
  intros Hc Hm Hp. destruct (commit_plan_layout c B S m plan Hc Hm Hp) as (Hn & E2 & E1 & Ec & _).
  set (n := length (log_of (groups_of m) S)) in *.
  assert (Ln : length (p_log plan) = n) by (by rewrite <- (length_fmap snd), E2).
  assert (Inj : forall i k, (i <= n)%nat -> (k <= n)%nat ->
    phys r (rpos sb (head c) (Z.of_nat i)) = phys r (rpos sb (head c) (Z.of_nat k)) -> i = k).
  { intros i k Hi Hk E. pose proof (jo_geo j Hj) as Hg. pose proof (rpos_ring sb Hg (head c) (Z.of_nat i)) as R1.
    pose proof (rpos_ring sb Hg (head c) (Z.of_nat k)) as R2. unfold ring_pos, sb in R1, R2.
    pose proof (phys_lookup r sb Hg (jo_map j Hj) (rpos sb (head c) (Z.of_nat i)) ltac:(unfold sb; lia)) as L1.
    pose proof (phys_lookup r sb Hg (jo_map j Hj) (rpos sb (head c) (Z.of_nat k)) ltac:(unfold sb; lia)) as L2.
    rewrite E in L1. pose proof (NoDup_lookup _ _ _ _ (jo_nodup j Hj) L1 L2) as Q.
    assert (rpos sb (head c) (Z.of_nat i) = rpos sb (head c) (Z.of_nat k)) as Q' by (unfold sb in *; lia).
    apply (rpos_inj sb) in Q'; lia. }
  assert (Nth : forall i q, (p_log plan).*1 !! i = Some q -> q = phys r (rpos sb (head c) (Z.of_nat i)) /\ (i < n)%nat).
  { intros i q Hi. rewrite list_lookup_fmap in Hi. destruct (p_log plan !! i) as [e|] eqn:Ei; [|done]. injection Hi as <-.
    split; [by apply E1|]. rewrite <- Ln. by eapply lookup_lt_Some. }
  assert (N0 : forall i, phys r (rpos sb (head c) (Z.of_nat i)) <> phys r 0)
    by (intros i; apply ring_not_phys0, rpos_ring, Hj).
  rewrite Ec. cbn [fst]. unfold log_part. cbn [fmap list_fmap fst]. split.
  - constructor.
    + intros H. apply list_elem_of_lookup_1 in H as [i Hi]. destruct (Nth i _ Hi) as [E _]. by apply (N0 i).
    + apply NoDup_alt. intros i k q Hi Hk. destruct (Nth i q Hi) as [E3 H3]. destruct (Nth k q Hk) as [E4 H4].
      apply Inj; [lia|lia|congruence].
  - intros H. apply elem_of_cons in H as [H|H]; [by apply (N0 n)|]. apply list_elem_of_lookup_1 in H as [i Hi].
    destruct (Nth i _ Hi) as [E H3]. apply Inj in E; lia.
Qed.

(** Blocks of the log do not look committed. *)
Lemma log_quiet m groups S : batch_ok m groups S -> is_u32 S -> Forall (quiet sb (fs_blocks r) S) (log_of groups S).
Proof.
  intros [Hw Hc Hg He] HS. rewrite <- Hc in He. clear Hw Hc m. unfold log_of. induction Hg as [|g gs Hg _ IH]; [constructor|].
  rewrite log_blocks_cons. cbn [concat] in He. apply Forall_app in He as [He1 He]. pose proof Hg as (Hne & Hok & _ & _ & Hroom).
  constructor; [|apply Forall_app; split; [|by apply IH]].
  - split; [by apply desc_block_length|]. rewrite desc_header by done. right. cbn [h_sequence block_type mret res_ret].
    split_and!; [done|done|]. exists (tags_of sb (log_seed sb) S true g).
    apply (parse_good r sb S (jo_uuid j Hj)). exact Hg.
  - apply Forall_fmap, Forall_fmap. eapply Forall_impl; [exact He1|]. intros e [[L _] _]. simpl.
    pose proof block_size_val. split; [rewrite log_image_length; lia|].
    destruct (header_parse_no_magic (log_image e.2) (log_image_no_magic e.2)) as [x ->]. done.
Qed.

(** One commit, from a mounted journal. *)
Section commit.
Context (c : JournalContext) (B : disk) (S : Z) (m : btree block) (plan : CommitPlan).
Context (Hc : mounted c B S) (Hm : images_ok m) (Hr : fits_reader m) (Hp : commit_plan c m = Some (Ok plan)).
Context (HS : is_u32 (S + 1)).

Definition cpos : Z := fst (p_commit plan).
Definition cblock : block := snd (p_commit plan).

Lemma cpos_not_phys0 : cpos <> phys r 0.
Proof.
  destruct (log_part_nodup c B S m plan Hc Hm Hp) as [_ H]. intros E. apply H. unfold log_part. fold cpos. rewrite E. left.
Qed.

Lemma batch_home b v : (b, v) ∈ m -> is_home b.
Proof. pose proof (commit_plan_batch c B S m plan Hc Hm Hr Hp) as H. by eapply batch_keys. Qed.

Lemma journal_not_batch b : b ∈ journal_block_set r -> b ∉ m.*1.
Proof. intros H E. apply list_elem_of_fmap in E as ([b' v] & -> & E). by apply (batch_home _ _ E). Qed.

Lemma cpos_in : cpos ∈ journal_block_set r.
Proof.
  destruct (commit_plan_layout c B S m plan Hc Hm Hp) as (_ & _ & _ & E & _). unfold cpos. rewrite E. apply ring_in, rpos_ring, Hj.
Qed.

Lemma log_in q v : (q, v) ∈ log_part c B S plan -> q ∈ journal_block_set r.
Proof.
  destruct (commit_plan_layout c B S m plan Hc Hm Hp) as (_ & _ & E & _). intros H. apply elem_of_cons in H as [[= -> ->]|H]; [apply phys0_in|].
  apply list_elem_of_lookup_1 in H as [i Hi]. apply E in Hi. simpl in Hi. rewrite Hi. apply ring_in, rpos_ring, Hj.
Qed.

(** What the device holds at the barriers. *)
Definition at_log : list dop := writes (log_part c B S plan).
Definition at_commit : list dop := at_log ++ [Flush] ++ [Write cpos cblock].
Definition at_homes : list dop := at_commit ++ [Flush] ++ writes m.

Lemma content_commit b : content B at_commit b = if cpos =? b then cblock else content B at_log b.
Proof. unfold at_commit. rewrite app_assoc, content_snoc_write, content_flush. done. Qed.

Lemma content_homes b : content B at_homes b = content B (at_commit ++ writes m) b.
Proof.
  unfold at_homes. rewrite app_assoc, !(content_writes _ _ (writes m)) by apply writes_no_flush. by rewrite content_flush.
Qed.

Lemma content_log0 : content B at_log (phys r 0) = active_sb c B S.
Proof. apply (content_writes_in B []); [by apply (log_part_nodup c B S m plan)|left]. Qed.

Lemma content_homes_journal b : b ∈ journal_block_set r -> content B at_homes b = content B at_commit b.
Proof. intros H. rewrite content_homes. apply content_writes_out. by apply journal_not_batch. Qed.

Lemma raw_split : B (phys r 0) = take 1024 (B (phys r 0)) ++ drop 1024 (B (phys r 0)) /\
  length (take 1024 (B (phys r 0))) = 1024%nat.
Proof.
  split; [by rewrite take_drop|]. destruct (mo_at c B S Hc) as (L & _). pose proof block_size_val. rewrite length_take. lia.
Qed.

Lemma sb_update_split S' st : sb_update csum (B (phys r 0)) S' st
  = sb_update csum (take 1024 (B (phys r 0))) S' st ++ drop 1024 (B (phys r 0)).
Proof. destruct raw_split as [E L]. rewrite E at 1. by apply sb_update_app. Qed.

(** Which writes an error of a commit comes after. *)
Definition stopped (f : CommitFailure) (p : list dop) : Prop :=
  match f with
  | BeforeCommit => p `prefix_of` at_log ++ [Flush]
  | CommitUncertain => exists q, q `prefix_of` [Flush; Write cpos cblock; Flush] /\ p = at_log ++ q
  | CheckpointFailed => exists q, q `prefix_of` writes m ++ [Flush] /\ p = at_commit ++ [Flush] ++ q
  | TailUpdateFailed => exists q, q `prefix_of` [Write (phys r 0) (new_sb B (S + 1)); Flush] /\
      p = at_homes ++ [Flush] ++ [Publish] ++ q
  end.

Lemma does_log : Forall (fun e => 0 < e.1 < usize_modulus /\ length e.2 = BLOCK_SIZE) (p_log plan).
Proof.
  pose proof (commit_plan_batch c B S m plan Hc Hm Hr Hp) as Hb. destruct (commit_plan_layout c B S m plan Hc Hm Hp) as (_ & E2 & E1 & _).
  apply Forall_forall. intros e He. destruct (list_elem_of_lookup_1 _ _ He) as [i Hi]. split.
  - apply (jo_phys j Hj). apply (jo_set j Hj). rewrite (E1 _ _ Hi). apply ring_in, rpos_ring, Hj.
  - assert (HS0 : is_u32 S) by (by destruct (mo_at c B S Hc) as (_ & _ & HS0 & _)).
    pose proof (log_quiet m _ S Hb HS0) as Q. rewrite <- E2 in Q. rewrite Forall_fmap, Forall_forall in Q. apply (Q e He).
Qed.

Lemma runs_commit_steps : runs B (commit_steps c m plan) [] tt (commit_trace c B S m plan)
  (fun e p => snd e = true /\ stopped (snd (fst e)) p).
Proof.
  destruct (commit_plan_layout c B S m plan Hc Hm Hp) as (_ & _ & _ & _ & _ & Eact & Ecl). destruct raw_split as [Er Lr].
  rewrite wrap32_id in Ecl by done.
  assert (M0 : logical_blocks c !! 0%nat = Some (phys r 0)).
  { rewrite (mo_map c B S Hc). pose proof (jo_geo j Hj).
    apply (phys_lookup r sb (jo_geo j Hj) (jo_map j Hj) 0). unfold sb. lia. }
  unfold commit_steps, commit_trace.
  change (writes (log_part c B S plan)) with ([Write (phys r 0) (active_sb c B S)] ++ writes (p_log plan)). rewrite <- (app_assoc [Write _ _]).
  eapply runs_bind; [apply runs_map_err|].
  { unfold active_sb. rewrite sb_update_split, Eact. eapply does_write_sb; [done|exact Er|].
    rewrite sb_update_length by lia. lia. }
  { intros e p P. split; [done|]. exact (prefix_app_r _ _ (writes (p_log plan) ++ [Flush]) P). }
  eapply runs_bind; [apply runs_map_err; [apply does_write_runs; [apply does_log|lia]|]|].
  { intros e p P. split; [done|]. exact (prefix_cons _ _ _ (prefix_app_r _ _ [Flush] P)). }
  eapply runs_bind; [apply runs_map_err; [apply does_flush|]|].
  { intros e p P. split; [done|]. exact (prefix_cons _ _ _ (prefix_app _ _ _ P)). }
  eapply runs_bind; [apply runs_map_err; [apply does_write|]|].
  { intros e p P. split; [done|]. exists (Flush :: p). split; [exact (prefix_cons _ _ _ (prefix_app_r _ _ [Flush] P))|done]. }
  eapply runs_bind; [apply runs_map_err; [apply does_flush|]|].
  { intros e p P. split; [done|]. exists (Flush :: Write cpos cblock :: p). split; [by do 2 apply prefix_cons|done]. }
  eapply runs_bind; [apply runs_map_err; [apply does_write_homes|]|].
  { intros e p P. split; [done|]. exists p. split; [by apply prefix_app_r|]. unfold at_commit, at_log, log_part. cbn.
    by rewrite <- app_assoc. }
  eapply runs_bind; [apply runs_map_err; [apply does_flush|]|].
  { intros e p P. split; [done|]. exists (writes m ++ p). split; [by apply prefix_app|]. unfold at_commit, at_log, log_part. cbn.
    by rewrite <- app_assoc. }
  eapply runs_bind; [apply runs_publish|].
  assert (EH : forall q, [Write (phys r 0) (active_sb c B S)] ++ writes (p_log plan) ++ [Flush] ++ [Write (p_commit plan).1 (p_commit plan).2]
    ++ [Flush] ++ writes m ++ [Flush] ++ [Publish] ++ q = at_homes ++ [Flush] ++ [Publish] ++ q).
  { intros q. unfold at_homes, at_commit, at_log, log_part. cbn. by rewrite <- !app_assoc. }
  eapply runs_bind; apply runs_map_err.
  - unfold new_sb. rewrite sb_update_split, Ecl.
    eapply (does_write_sb _ _ _ (sb_update csum (take 1024 (B (phys r 0))) S (head c))); [done| |by rewrite !sb_update_length by lia].
    rewrite <- sb_update_split, content_publish, content_flush, content_writes_out by (by apply journal_not_batch, phys0_in).
    rewrite content_flush, content_snoc_write. fold cpos. rewrite (proj2 (Z.eqb_neq _ _) cpos_not_phys0), content_flush.
    exact content_log0.
  - intros e p P. split; [done|]. exists p. split; [exact (prefix_app_r _ _ [Flush] P)|apply EH].
  - apply does_flush.
  - intros e p P. split; [done|]. exists (Write (phys r 0) (new_sb B (S + 1)) :: p). split; [by apply prefix_cons|apply EH].
Qed.

(** *** Power losses during a commit *)

Lemma log_elem q v : (q, v) ∈ log_part c B S plan -> q = phys r 0 /\ v = active_sb c B S \/ q <> phys r 0 /\ quiet sb (fs_blocks r) S v.
Proof.
  pose proof (commit_plan_batch c B S m plan Hc Hm Hr Hp) as Hb. destruct (commit_plan_layout c B S m plan Hc Hm Hp) as (_ & E2 & E1 & _). intros H. apply elem_of_cons in H as [[= -> ->]|H]; [by left|].
  right. assert (HS0 : is_u32 S) by (by destruct (mo_at c B S Hc) as (_ & _ & HS0 & _)). split.
  - destruct (list_elem_of_lookup_1 _ _ H) as [i Hi]. pose proof (E1 _ _ Hi) as Eq. simpl in Eq. rewrite Eq. apply ring_not_phys0, rpos_ring, Hj.
  - pose proof (log_quiet m _ S Hb HS0) as Q. rewrite <- E2, Forall_fmap, Forall_forall in Q. exact (Q _ H).
Qed.

(** While the log is written, nothing is committed. *)
Lemma crash_log p img : p `prefix_of` writes (log_part c B S plan) ++ [Flush] -> crash_image B p img -> idle img S B.
Proof.
  intros Hpre Himg. assert (exists l, l `prefix_of` log_part c B S plan /\ crash_image B (writes l) img) as (l & Hl & Hi).
  { apply prefix_app_cases in Hpre as [Hpre|(q & -> & Hq)].
    - apply writes_prefix in Hpre as (l & -> & Hl). by exists l.
    - exists (log_part c B S plan). split; [done|]. destruct q as [|x q]; [by rewrite app_nil_r in Himg|].
      pose proof (prefix_cons_inv_1 _ _ _ _ Hq) as ->. apply prefix_cons_inv_2, prefix_nil_inv in Hq as ->.
      by apply crash_flush_weaken. }
  pose proof (crash_first B _ img (writes_no_flush l) Hi) as F.
  assert (In : forall b, img b = B b \/ (b, img b) ∈ log_part c B S plan).
  { intros b. destruct (F b) as [F'|F']; [by left|right]. apply writes_elem in F'. destruct Hl as [k ->]. apply elem_of_app. by left. }
  split_and!.
  - destruct (In (phys r 0)) as [E|E]; [exists 0; by eapply sb_at_same, Hc|].
    destruct (log_elem _ _ E) as [[_ E']|[N _]]; [|done]. exists (head c). pose proof (mo_at c B S Hc) as Ha. pose proof Ha as (_ & _ & HS0 & _).
    eapply sb_at_update; [exact Ha|done|right; apply Hc|exact E'].
  - intros q Hq. unfold jb. destruct (In (phys r q)) as [E|E]; [rewrite E; by apply (mo_quiet c B S Hc)|].
    destruct (log_elem _ _ E) as [[E' _]|[_ Q]]; [by apply ring_not_phys0 in E'|done].
  - intros b Hb. destruct (In b) as [E|E]; [done|]. by apply log_in in E.
Qed.

Lemma content_at_log_home b : is_home b -> content B at_log b = B b.
Proof.
  intros Hb. apply (content_writes_out B []). intros H. apply list_elem_of_fmap in H as ([q v] & -> & H). by apply log_in in H.
Qed.

(** With the commit record, the transaction is committed. *)
Lemma crash_committed img : (forall b, b ∈ journal_block_set r -> img b = content B at_commit b) ->
  (forall b, is_home b -> bt_get b m = None -> img b = B b) -> committed img S m B.
Proof.
  intros EJ EH. pose proof (commit_plan_batch c B S m plan Hc Hm Hr Hp) as Hb. destruct (commit_plan_layout c B S m plan Hc Hm Hp) as (Hn & E2 & E1 & Ec & _).
  destruct (log_part_nodup c B S m plan Hc Hm Hp) as [ND NC].
  pose proof (crash_log _ _ (prefix_app_r _ _ [Flush] (reflexivity at_log)) (content_crash_image B at_log)) as (_ & QL & _).
  pose proof (mo_at c B S Hc) as Ha. pose proof Ha as (_ & _ & HS0 & _).
  set (g := groups_of m) in *. set (log := log_of g S) in *.
  assert (ER : forall q, ring_pos sb q -> jb r img q = content B at_commit (phys r q)) by (intros q Hq; by apply EJ, ring_in).
  exists (head c), g. split_and!; [|apply Hc|done|done| | |done].
  - eapply (sb_at_update B); [exact Ha|done|right; apply Hc|]. rewrite EJ by apply phys0_in.
    rewrite content_commit, (proj2 (Z.eqb_neq _ _) cpos_not_phys0). exact content_log0.
  - intros i b Hi. change (log_of g S) with log in Hi. rewrite ER by (apply rpos_ring, Hj). rewrite Z.add_0_l, content_commit. apply lookup_app_Some in Hi as [Hi|[Hi' Hi]].
    + rewrite <- E2, list_lookup_fmap in Hi. destruct (p_log plan !! i) as [[q v]|] eqn:Ei; [|done]. injection Hi as <-.
      pose proof (E1 _ _ Ei) as Eq. simpl in Eq. rewrite <- Eq.
      assert (HI : (q, v) ∈ log_part c B S plan) by (right; by eapply list_elem_of_lookup_2).
      rewrite (proj2 (Z.eqb_neq _ _)); [by apply (content_writes_in B [])|]. intros E. apply NC. fold cpos. rewrite E.
      by apply (list_elem_of_fmap_2 fst _ (q, v)).
    + assert (i = length log /\ b = commit_block sb S) as [-> ->].
      { destruct (i - length log)%nat as [|k] eqn:Ek; [|done]. injection Hi as <-. split; [lia|done]. }
      unfold cpos, cblock. rewrite Ec. cbn [fst snd]. by rewrite Z.eqb_refl.
  - intros q Hq. rewrite ER by done. rewrite content_commit. destruct (cpos =? phys r q).
    + unfold cblock. rewrite Ec. cbn [snd]. split; [apply commit_block_length|]. intros hd E. rewrite commit_header in E by done.
      apply (ret_inj (A := Header)) in E as <-. done.
    + by apply (quiet_settled (content B at_log) S).
Qed.

Lemma at_commit_home b : is_home b -> content B at_commit b = B b.
Proof.
  intros Hb. rewrite content_commit. rewrite (proj2 (Z.eqb_neq _ _)); [by apply content_at_log_home|].
  intros <-. by apply Hb, cpos_in.
Qed.

(** The write of the commit record decides. *)
Lemma crash_record q img : q `prefix_of` [Flush; Write cpos cblock; Flush] -> crash_image B (at_log ++ q) img ->
  (idle img S B \/ committed img S m B) /\ (q = [Flush; Write cpos cblock; Flush] -> committed img S m B).
Proof.
  intros Hq Hi. destruct (crash_one B at_log cpos cblock q img Hq Hi) as [-> | (E1 & E2 & E3)].
  { split; [|done]. left. rewrite app_nil_r in Hi. eapply crash_log; [|exact Hi]. by apply prefix_app_r. }
  assert (Y : img cpos = cblock -> committed img S m B).
  { intros E. apply crash_committed.
    - intros b _. rewrite content_commit. destruct (Z.eqb_spec cpos b) as [<-|N]; [done|]. by apply E1.
    - intros b Hb _. rewrite E1; [by apply content_at_log_home|]. intros ->. by apply Hb, cpos_in. }
  split; [|intros E; by apply Y, E3]. destruct E2 as [E2|E2]; [left|right; by apply Y].
  apply (crash_log (at_log ++ [Flush])); [done|]. intros b. rewrite cell_app. apply list_elem_of_singleton.
  destruct (decide (b = cpos)) as [->|N]; [exact E2|by apply E1].
Qed.

(** The homes are written to while the log holds their images. *)
Lemma crash_checkpoint q img : q `prefix_of` writes m ++ [Flush] -> crash_image B (at_commit ++ [Flush] ++ q) img -> committed img S m B.
Proof.
  intros Hq Hi. assert (exists l, l `prefix_of` m /\ crash_image B (at_commit ++ [Flush] ++ writes l) img) as (l & [k Hl] & Hi').
  { apply prefix_app_cases in Hq as [Hq|(q' & -> & Hq)].
    - apply writes_prefix in Hq as (l & -> & Hl). by exists l.
    - exists m. split; [done|]. destruct q' as [|x q']; [by rewrite app_nil_r in Hi|].
      pose proof (prefix_cons_inv_1 _ _ _ _ Hq) as ->. apply prefix_cons_inv_2, prefix_nil_inv in Hq as ->.
      apply crash_flush_weaken. by rewrite <- !app_assoc. }
  pose proof (crash_writes B at_commit _ img (writes_no_flush l) Hi') as F.
  assert (In : forall b, Write b (img b) ∈ writes l -> (b, img b) ∈ m)
    by (intros b Hb'; rewrite Hl; apply elem_of_app; left; by apply writes_elem).
  apply crash_committed.
  - intros b Hb. destruct (F b) as [F'|F']; [done|]. by destruct (batch_home _ _ (In _ F')).
  - intros b Hb E. destruct (F b) as [F'|F']; [rewrite F'; by apply at_commit_home|].
    destruct Hm as [Hw _]. by rewrite (bt_elem_get _ _ _ Hw (In _ F')) in E.
Qed.

(** The superblock is marked clean when the homes are in place. *)
Definition finished (img : disk) : Prop := sb_at img (S + 1) 0 /\ idle img (S + 1) (patched m B).

Lemma crash_tail q img : q `prefix_of` [Write (phys r 0) (new_sb B (S + 1)); Flush] ->
  crash_image B (at_homes ++ [Flush] ++ [Publish] ++ q) img ->
  (committed img S m B \/ finished img) /\ (q = [Write (phys r 0) (new_sb B (S + 1)); Flush] -> finished img).
Proof.
  intros Hq Hi. rewrite (app_assoc at_homes), crash_publish, <- app_assoc in Hi.
  destruct (crash_one B at_homes (phys r 0) (new_sb B (S + 1)) (Flush :: q) img) as [E|(E1 & E2 & E3)];
    [by apply prefix_cons|exact Hi|done|].
  assert (Hw : bt_wf m) by apply Hm.
  assert (H' : forall b, is_home b -> img b = patched m B b).
  { intros b Hb. rewrite E1 by (by apply home_not_phys0). rewrite content_homes. apply content_patched; [done|].
    intros _. by apply at_commit_home. }
  assert (C : committed (content B at_homes) S m B).
  { apply crash_committed; [apply content_homes_journal|]. intros b Hb E. rewrite content_homes.
    rewrite content_writes_out by (by apply bt_get_keys). by apply at_commit_home. }
  assert (N : img (phys r 0) = new_sb B (S + 1) -> finished img).
  { intros E. pose proof (mo_at c B S Hc) as Ha. assert (Hs' : sb_at img (S + 1) 0) by (by eapply (sb_at_new B)). split; [done|].
    destruct C as (_ & _ & _ & _ & _ & _ & _ & Hset & _). eapply (settled_idle img S); [|lia|exact Hs'|exact H'].
    eapply settled_same; [|exact Hset]. apply ring_same. intros b _ Hn. by apply E1. }
  split; [|intros ->; by apply N, E3]. destruct E2 as [E2|E2]; [left|right; by apply N].
  eapply committed_same; [exact C| |]; intros b Hb.
  - destruct (decide (b = phys r 0)) as [->|]; [done|by apply E1].
  - intros _. apply E1. by apply home_not_phys0.
Qed.

(** What a power loss leaves of a commit that stopped. *)
Definition outcome (f : CommitFailure) (img : disk) : Prop :=
  match f with
  | BeforeCommit => idle img S B
  | CommitUncertain => idle img S B \/ committed img S m B
  | CheckpointFailed => committed img S m B
  | TailUpdateFailed => committed img S m B \/ finished img
  end.

Lemma stopped_outcome f p img : stopped f p -> crash_image B p img -> outcome f img.
Proof.
  destruct f; [intros P H|intros (q & P & ->) H..].
  - by apply (crash_log p).
  - by apply (crash_record q).
  - by apply (crash_checkpoint q).
  - by apply (crash_tail q).
Qed.

Lemma trace_phases : commit_trace c B S m plan = at_homes ++ [Flush] ++ [Publish] ++ [Write (phys r 0) (new_sb B (S + 1))] ++ [Flush].
Proof. unfold at_homes, at_commit, at_log, commit_trace. by rewrite <- !app_assoc. Qed.

(** Every moment of a commit. *)
Lemma prefix_stopped p : p `prefix_of` commit_trace c B S m plan -> exists f, stopped f p.
Proof.
  rewrite trace_phases. rewrite (app_assoc at_homes). intros H. apply prefix_app_cases in H as [H|(q & -> & Hq)].
  - unfold at_homes in H. rewrite <- !app_assoc, (app_assoc at_commit) in H. apply prefix_app_cases in H as [H|(q & -> & Hq)].
    + unfold at_commit in H. rewrite <- !app_assoc in H. apply prefix_app_cases in H as [H|(q & -> & Hq)].
      * exists BeforeCommit. by apply prefix_app_r.
      * exists CommitUncertain. by exists q.
    + exists CheckpointFailed. exists q. by rewrite <- app_assoc.
  - destruct q as [|x q].
    + exists CheckpointFailed, (writes m ++ [Flush]). split; [done|]. unfold at_homes. by rewrite app_nil_r, <- !app_assoc.
    + pose proof (prefix_cons_inv_1 _ _ _ _ Hq) as ->. apply prefix_cons_inv_2 in Hq.
      exists TailUpdateFailed, q. split; [done|]. by rewrite <- app_assoc.
Qed.

Lemma stopped_prefix f p : stopped f p -> p `prefix_of` commit_trace c B S m plan.
Proof.
  rewrite trace_phases. unfold at_homes. destruct f; [intros P|intros (q & P & ->)..]; cbn [stopped] in *.
  - unfold at_commit. rewrite <- !app_assoc. etrans; [exact P|]. apply prefix_app, prefix_app_r. done.
  - unfold at_commit. rewrite <- !app_assoc. apply prefix_app. etrans; [exact P|]. by do 3 apply prefix_cons; apply prefix_nil.
  - rewrite <- !app_assoc. do 2 apply prefix_app. etrans; [exact P|]. apply prefix_app. by apply prefix_cons, prefix_nil.
  - unfold at_homes. rewrite <- !app_assoc. by do 5 apply prefix_app.
Qed.

(** What recovery makes of it. *)
Lemma outcome_recoverable f img : outcome f img ->
  match f with
  | BeforeCommit => recoverable (S + 1) img B
  | CommitUncertain => recoverable (S + 1) img B \/ recoverable (S + 1) img (patched m B)
  | CheckpointFailed | TailUpdateFailed => recoverable (S + 1) img (patched m B)
  end.
Proof.
  assert (I : idle img S B -> recoverable (S + 1) img B) by (intros H; exists S; split; [lia|by left]).
  assert (C : committed img S m B -> recoverable (S + 1) img (patched m B)).
  { intros H. exists S. split; [lia|]. right. by exists m, B. }
  assert (F : finished img -> recoverable (S + 1) img (patched m B)) by (intros [_ H]; exists (S + 1); split; [lia|by left]).
  destruct f; cbn [outcome]; tauto.
Qed.

Lemma trace_finished img : crash_image B (commit_trace c B S m plan) img -> finished img.
Proof. rewrite trace_phases. intros H. by apply (crash_tail [Write (phys r 0) (new_sb B (S + 1)); Flush] img). Qed.

Definition after : disk := content B (commit_trace c B S m plan).

Lemma commit_io_ok d res d' : base d = B -> trace d = [] -> reliable d = true -> commit_steps c m plan d = Some (res, d') ->
  base d' = B /\ reliable d' = true /\
  match res with
  | Ok _ => trace d' = commit_trace c B S m plan
  | Err (_, f, poison) => poison = true /\ stopped f (trace d')
  end.
Proof.
  intros HB Ht HR H. destruct runs_commit_steps as [D F]. destruct (D d HB Ht) as (r1 & d1 & E1 & B1 & R1 & C1 & _).
  rewrite E1 in H. injection H as <- <-. split_and!; [done|congruence|].
  destruct C1 as [(-> & T1)|([[e f] poison] & p & -> & P & T1)]; [by rewrite T1|].
  destruct (F d d1 _ HB Ht E1) as (p' & T' & _ & HQ). by rewrite T'.
Qed.

Lemma mounted_after clean : clean = p_clean plan ->
  mounted (committed_context c (ring_next (superblock c) (p_commit_logical plan)) clean) after (S + 1).
Proof.
  intros ->. destruct (commit_plan_layout c B S m plan Hc Hm Hp) as (_ & _ & _ & _ & El & _ & Ecl).
  pose proof (trace_finished after (content_crash_image _ _)) as (Hs & _ & Hq & _). destruct raw_split as [Er Lr].
  rewrite wrap32_id in Ecl by done. pose proof Hc as [Esb Emap Eset Etg Hh Eim _ _]. unfold committed_context.
  split; cbn [superblock logical_blocks journal_set target_blocks head superblock_image]; try done.
  - rewrite Esb. cbn [sequence with_start]. by rewrite wrap32_id.
  - rewrite El, Esb. change (ring_next (with_start sb S 0)) with (advance sb). apply (advance_ring sb (jo_geo j Hj) (jo_u32 j Hj)), rpos_ring, Hj.
  - rewrite Ecl. unfold after. rewrite trace_phases, !app_assoc, content_flush, content_snoc_write, Z.eqb_refl.
    unfold new_sb. rewrite sb_update_split, take_app_length'; [done|]. rewrite sb_update_length; lia.
Qed.
End commit.
End journal.

(** With checksums, the first descriptor of a batch of two blocks has two tags. *)
Lemma first_group j m S : journal_ok j -> images_ok m -> Forall (fun e => valid_home j e.1) m -> checksum (features (j_sb j)) = V3 ->
  (2 <= length m)%nat -> exists e1 e2 g gs, groups_of j m = (e1 :: e2 :: g) :: gs /\ group_ok (j_sb j) (e1 :: e2 :: g) /\
    e1.1 < fs_blocks (j_io j) /\
    (12 + length (tags_string (j_sb j) (log_seed (j_sb j)) S true (e1 :: e2 :: g)) + tail_bytes (features (j_sb j)) <= BLOCK_SIZE)%nat.
Proof.
  intros Hj Hm Hv Hcs Hlen. set (sb := j_sb j) in *. pose proof (images_sized m Hm) as Hsz. pose proof block_size_val as Hb.
  assert (Hper : (2 <= per_descriptor sb)%nat).
  { unfold per_descriptor, tags_per_descriptor, tail_bytes, tag_bytes, HEADER_BYTES. rewrite Hcs, decide_True by done.
    change BLOCK_TAIL_BYTES with 4%nat. rewrite (proj2 (Nat.ltb_ge _ _)) by lia.
    assert (2 <= (BLOCK_SIZE - (12 + 16 + 4)) / 16)%nat by (apply Nat.div_le_lower_bound; lia).
    destruct (has_64bit (features sb)); rewrite (proj2 (Nat.eqb_neq _ _)) by lia; done. }
  destruct (log_groups_spec sb S m (jo_uuid j Hj) Hsz) as (C & F & _). unfold groups_of. fold sb. unfold log_groups, chunks in *.
  destruct m as [|e1 [|e2 m]]; [simpl in Hlen; lia|simpl in Hlen; lia|]. cbn [length chunks_go] in *.
  destruct (per_descriptor sb) as [|[|per]]; [lia|lia|]. cbn [take drop] in *. apply Forall_cons in F as [(_ & Hroom & Hg) _].
  eexists e1, e2, _, _. split; [reflexivity|]. split_and!; [| |exact Hroom].
  - rewrite Forall_forall in Hv. apply Forall_forall. intros e He. rewrite Forall_forall in Hg. split; [|by apply Hg].
    apply Hv. apply elem_of_cons in He as [->|He]; [left|]. apply elem_of_cons in He as [->|He]; [right; left|]. do 2 right.
    by eapply elem_of_take in He as (i & He & _); eapply list_elem_of_lookup_2.
  - apply Forall_cons in Hv as [(_ & H & _) _]. exact H.
Qed.

(** C0: with checksums, a batch of more than one block cannot be recovered.  [encode_log] writes the
    UUID after the first tag of a descriptor, [parse_tags] takes it for the second tag; a UUID that
    names no block of the file system as a tag makes recovery fail.  From the moment the log is on the
    disk until the superblock is marked clean, a power loss leaves a journal that cannot be recovered,
    also when the commit record is there and some of the homes are written. *)
Theorem checksummed_batch_unrecoverable j c B S m plan q img : journal_ok j -> mounted j c B S -> images_ok m ->
  checksum (features (j_sb j)) = V3 -> (2 <= length m)%nat -> fs_blocks (j_io j) <= uuid_target (j_sb j) ->
  commit_plan c m = Some (Ok plan) ->
  q `prefix_of` [Write (fst (p_commit plan)) (snd (p_commit plan))] ++ [Flush] ++ writes m ++ [Flush] ->
  crash_image B (writes (log_part j c B S plan) ++ [Flush] ++ q) img ->
  does img (@recover Device (recovery_io (j_io j))) [] (Err EIO) [].
Proof.
  intros Hj Hc Hm Hv Hlen Hu Hp Hq Hi. destruct (commit_plan_checks j Hj c B S m plan Hc Hm Hp) as [Hval _].
  destruct (commit_plan_layout j Hj c B S m plan Hc Hm Hp) as (Hn & E2 & E1 & Ec & _).
  destruct (log_part_nodup j Hj c B S m plan Hc Hm Hp) as [ND NC]. set (r := j_io j) in *. set (sb := j_sb j) in *.
  assert (HIn : forall b v, (b, v) ∈ log_part j c B S plan -> b ∈ journal_block_set r).
  { intros b v H. apply elem_of_cons in H as [[= -> ->]|H]; [by apply phys0_in|]. apply list_elem_of_lookup_1 in H as [i Hk].
    apply E1 in Hk. simpl in Hk. rewrite Hk. apply (ring_in j Hj), rpos_ring, Hj. }
  assert (Img : forall b v, (b, v) ∈ log_part j c B S plan -> img b = v).
  { intros b v H. rewrite (crash_stable B (writes (log_part j c B S plan)) q b img); [by apply (content_writes_in B [])| |exact Hi].
    destruct Hq as [k Hq]. assert (F : Forall (fun op => match op with Write b' _ => b' <> b | _ => True end)
      ([Write (fst (p_commit plan)) (snd (p_commit plan))] ++ [Flush] ++ writes m ++ [Flush])); [|rewrite Hq in F; by apply Forall_app in F as [F _]].
    repeat apply Forall_app_2; repeat constructor.
    - intros <-. apply NC. by apply (list_elem_of_fmap_2 fst _ _ H).
    - apply Forall_fmap. eapply Forall_impl; [exact Hval|]. intros [b' v'] (_ & _ & Hh). simpl. intros ->. by apply Hh, (HIn b v). }
  destruct (first_group j m S Hj Hm Hval Hv Hlen) as (e1 & e2 & g & gs & Eg & Gok & Glt & Groom).
  assert (Elog : p_log plan !! 0%nat = Some (phys r (head c), desc_block sb (log_seed sb) S (e1 :: e2 :: g))).
  { destruct (p_log plan) as [|[b v] l] eqn:El; [unfold log_of in E2; rewrite Eg in E2; done|]. simpl.
    unfold log_of in E2. rewrite Eg, log_blocks_cons in E2. injection E2 as -> _. pose proof (E1 0%nat _ eq_refl) as Eb. simpl in Eb. rewrite Eb.
    rewrite rpos_0 by (try apply Hj; apply Hc). done. }
  pose proof (mo_head j c B S Hc) as Hh. pose proof (mo_at j c B S Hc) as Ha. pose proof Ha as (_ & _ & HS & _).
  assert (Ej : jb r img (head c) = desc_block sb (log_seed sb) S (e1 :: e2 :: g)) by (apply Img; right; by eapply list_elem_of_lookup_2).
  apply (recover_unreadable j Hj img S (head c)).
  - eapply (sb_at_update j Hj B); [exact Ha|done|by right|]. apply Img. left.
  - done.
  - fold r. rewrite Ej. by apply desc_block_length.
  - fold r. rewrite Ej. by apply desc_header.
  - fold r sb. rewrite Ej. destruct e1 as [h1 i1]. apply parse_desc_v3; first [done|exact Glt|apply Hj|apply checksum_seed_u32].
Qed.
