(* ===== verification/JournalHistory.v ===== *)
(** The journal over a whole history: transactions (JournalTx.v) that read, write, commit or
    join a deferred batch, power losses at any moment, failing devices, and mounts
    (dependency/another_ext4/src/ext4/journal.rs) with recovery (JournalRecovery.v).

    A transaction sees the disk with the deferred batch and its own writes over it.  After any
    history the disk holds the transactions that a simple machine of two lists, the durable
    transactions and the deferred ones, says it may hold. *)

From stdpp Require Import base numbers option list gmap.
From S2P Require Import Prelude Slice BTree Jbd2 JournalDev JournalRecovery JournalTx JournalLog JournalWalk JournalCrash.

(** ** Maps of images *)

Definition keys {V} (m : btree V) : gset Z := list_to_set m.*1.

Lemma elem_of_keys {V} (m : btree V) k : bt_wf m -> k ∈ keys m <-> is_Some (bt_get k m).
Proof.
  intros Hw. unfold keys. rewrite elem_of_list_to_set, list_elem_of_fmap. split.
  - intros ([k' v] & -> & H). exists v. by apply bt_elem_get.
  - intros [v H]. exists (k, v). split; [done|by apply bt_get_elem].
Qed.

Lemma length_keys {V} (m : btree V) : bt_wf m -> length m = size (keys m).
Proof. intros Hw. unfold keys. rewrite size_list_to_set by (by apply bt_wf_nodup). by rewrite length_fmap. Qed.

Lemma keys_insert {V} k (v : V) m : bt_wf m -> keys (bt_insert k v m) = {[k]} ∪ keys m.
Proof.
  intros Hw. apply set_eq. intros b. rewrite elem_of_union, !elem_of_keys by (done || by apply bt_wf_insert).
  rewrite bt_get_insert by done. destruct (Z.eqb_spec b k) as [->|N]; set_solver.
Qed.

Lemma contains_keys {V} (m : btree V) k : bt_wf m -> bt_contains k m = bool_decide (k ∈ keys m).
Proof.
  intros Hw. unfold bt_contains. symmetry. destruct (bt_get k m) eqn:E.
  - apply bool_decide_eq_true, elem_of_keys; [done|by rewrite E].
  - apply bool_decide_eq_false. rewrite elem_of_keys by done. rewrite E. by intros [].
Qed.

Lemma images_get m b : bt_get b (images m) = image <$> bt_get b m.
Proof. induction m as [|[k s] m IH]; [done|]. simpl. by destruct (b =? k). Qed.

Lemma images_keys m : (images m).*1 = m.*1.
Proof. unfold images. rewrite <- list_fmap_compose. done. Qed.

Lemma images_wf m : bt_wf (images m) <-> bt_wf m.
Proof. unfold bt_wf. by rewrite images_keys. Qed.

(** ** Deferred batches *)

Definition batch (t : Transaction) : btree block := images (staged (absorb_deferred_staged t)).

Definition absorb_one (acc : btree StagedBlock) (e : Z * block) : btree StagedBlock :=
  if bt_contains e.1 acc then acc else bt_insert e.1 (mk_staged e.1 None e.2) acc.

Lemma absorb_spec m : forall acc, bt_wf acc ->
  bt_wf (foldl absorb_one acc m) /\
  forall b, image <$> bt_get b (foldl absorb_one acc m) = match bt_get b acc with Some s => Some (image s) | None => bt_get b m end.
Proof.
  induction m as [|[k v] m IH]; intros acc Hw.
  { split; [done|]. intros b. simpl. by destruct (bt_get b acc). }
  cbn [foldl]. unfold absorb_one at 2 4. cbn [fst snd]. unfold bt_contains. destruct (bt_get k acc) as [s|] eqn:E.
  - destruct (IH acc Hw) as [W G]. split; [done|]. intros b. rewrite G. simpl. destruct (bt_get b acc) eqn:Eb; [done|].
    destruct (Z.eqb_spec b k) as [->|]; congruence.
  - destruct (IH _ (bt_wf_insert k (mk_staged k None v) acc Hw)) as [W G]. split; [done|]. intros b. rewrite G, bt_get_insert by done.
    simpl. destruct (Z.eqb_spec b k) as [->|]; [by rewrite E|done].
Qed.

Definition deferred_wf (o : option (btree block)) : Prop := match o with Some m => bt_wf m | None => True end.
Definition pend (o : option (btree block)) (D : disk) : disk := match o with Some m => patched m D | None => D end.

(** What a transaction sees. *)
Definition tx_view (t : Transaction) (D : disk) : disk := patched (images (staged t)) (pend (deferred_staged t) D).

Lemma batch_spec t : bt_wf (staged t) -> deferred_wf (deferred_staged t) ->
  bt_wf (batch t) /\ forall D b, patched (batch t) D b = tx_view t D b.
Proof.
  intros Hw Hd. unfold batch, absorb_deferred_staged, tx_view. destruct (deferred_staged t) as [m|]; cbn [pend staged].
  - destruct (absorb_spec m (staged t) Hw) as [W G]. split; [by apply images_wf|]. intros D b.
    unfold patched. rewrite !images_get. change (foldl _ _ m) with (foldl absorb_one (staged t) m). rewrite G.
    by destruct (bt_get b (staged t)).
  - split; [by apply images_wf|done].
Qed.

Definition tx_keys (t : Transaction) : gset Z := match deferred_staged t with Some m => keys m | None => ∅ end ∪ keys (staged t).

Lemma batch_keys_eq t : bt_wf (staged t) -> deferred_wf (deferred_staged t) -> keys (batch t) = tx_keys t.
Proof.
  intros Hw Hd. destruct (batch_spec t Hw Hd) as [W _]. apply set_eq. intros b. rewrite elem_of_keys by done.
  unfold batch, absorb_deferred_staged, tx_keys. rewrite images_get. destruct (deferred_staged t) as [m|]; cbn [staged].
  - destruct (absorb_spec m (staged t) Hw) as [_ G]. change (foldl _ _ m) with (foldl absorb_one (staged t) m). rewrite G.
    rewrite elem_of_union, !elem_of_keys by done. destruct (bt_get b (staged t)); naive_solver.
  - rewrite fmap_is_Some, <- elem_of_keys by done. set_solver.
Qed.

Lemma total_staged_size t : bt_wf (staged t) -> deferred_wf (deferred_staged t) -> total_staged_len t = Z.of_nat (size (tx_keys t)).
Proof.
  intros Hw Hd. unfold total_staged_len, tx_keys. destruct (deferred_staged t) as [m|]; simpl in Hd.
  - rewrite (length_keys m Hd), size_union_alt, Nat2Z.inj_add. do 2 f_equal.
    rewrite length_keys by (by apply bt_wf_filter). f_equal. apply set_eq. intros b.
    rewrite elem_of_difference, !elem_of_keys by (done || by apply bt_wf_filter). unfold is_Some. setoid_rewrite bt_get_filter; [|done].
    cbn [fst]. unfold bt_contains. destruct (bt_get b m); naive_solver.
  - rewrite (length_keys _ Hw). do 2 f_equal. set_solver.
Qed.

Lemma batch_length t : bt_wf (staged t) -> deferred_wf (deferred_staged t) -> Z.of_nat (length (batch t)) = total_staged_len t.
Proof.
  intros Hw Hd. destruct (batch_spec t Hw Hd) as [W _]. rewrite length_keys, batch_keys_eq, total_staged_size by done. done.
Qed.

(** ** Reservations *)

Lemma checked_add_le a b c n : checked_add b c = Some n -> a <= b -> checked_add a c = Some (a + c).
Proof. intros H Hle. apply checked_add_Some in H as [-> H]. unfold checked_add. by rewrite (proj2 (Z.leb_le _ _)) by lia. Qed.

Lemma required_mono n n' f needed' : 0 <= n <= n' -> required_log_blocks n' f = Some (Ok needed') ->
  exists needed, required_log_blocks n f = Some (Ok needed) /\ needed <= needed'.
Proof.
  intros Hn H. unfold required_log_blocks in *. apply bind_Ok in H as (per & E & H).
  assert (Hp : (0 < per)%nat).
  { clear -E. unfold tags_per_descriptor in E. case_match; [done|]. case_match; [done|]. apply ret_inj in E as <-.
    match goal with H : (_ =? 0)%nat = false |- _ => apply Nat.eqb_neq in H end. lia. }
  change (Some (Ok per)) with (mret per : res nat) in E. rewrite E, bind_ok.
  destruct (checked_add n' _) as [a|] eqn:E1; [|done]. rewrite (checked_add_le n n' _ a E1) by lia. apply checked_add_Some in E1 as [-> _].
  pose proof (Z.div_le_mono (n + (Z.of_nat per - 1)) (n' + (Z.of_nat per - 1)) (Z.of_nat per) ltac:(lia) ltac:(lia)) as Hd.
  assert (Hd0 : 0 <= (n + (Z.of_nat per - 1)) / Z.of_nat per) by (apply Z.div_pos; lia).
  destruct (checked_add n' (_ / _)) as [a|] eqn:E2; [|done]. apply checked_add_Some in E2 as [-> L2].
  rewrite (proj2 (checked_add_Some n _ _)) by (split; [reflexivity|lia]). simpl in H |- *.
  destruct (checked_add _ 1) as [a|] eqn:E3; [|done]. apply checked_add_Some in E3 as [-> L3]. injection H as <-.
  rewrite (proj2 (checked_add_Some _ 1 _)) by (split; [reflexivity|lia]). eexists. split; [reflexivity|lia].
Qed.

Lemma required_returns n f : returns (required_log_blocks n f).
Proof.
  unfold required_log_blocks, tags_per_descriptor, err. apply returns_bind; [no_panic|]. intros per.
  destruct (checked_add n _); [|no_panic]. destruct (_ ≫= _); no_panic.
Qed.
Lemma ring_len_returns s : returns (ring_len s).
Proof. unfold ring_len, err. no_panic. Qed.
Lemma reservation_returns c total : returns (reservation_fits c total).
Proof.
  apply returns_bind; [apply required_returns|]. intros n. apply returns_bind; [apply ring_len_returns|]. intros a. by eexists.
Qed.

(** ** The body of a transaction *)

(** What the code between [start] and the end does with its transaction: [stage] a whole image,
    or [read_for_update] and mutate. *)
Inductive tx_op := StageOp (home : Z) (img : block) | UpdateOp (home : Z) (f : block -> block).

Definition run_op (t : Transaction) (op : tx_op) : sm Device ErrCode Transaction :=
  match op with
  | StageOp home img => lift (Some (stage t home img))
  | UpdateOp home f => t ← read_for_update t home; mret (update_image t home f)
  end.

Fixpoint run_body (t : Transaction) (ops : list tx_op) : sm Device ErrCode Transaction :=
  match ops with
  | [] => mret t
  | op :: ops => t ← run_op t op; run_body t ops
  end.

(** The same on a disk. *)
Definition upd (D : disk) (b : Z) (v : block) : disk := fun b' => if b' =? b then v else D b'.
Definition apply_op (D : disk) (op : tx_op) : disk :=
  match op with StageOp home img => upd D home img | UpdateOp home f => upd D home (f (D home)) end.
Definition apply_ops (D : disk) (ops : list tx_op) : disk := foldl apply_op D ops.

Lemma apply_ops_ext ops : forall D D', (forall b, D b = D' b) -> forall b, apply_ops D ops b = apply_ops D' ops b.
Proof.
  induction ops as [|op ops IH]; intros D D' E b; [apply E|]. cbn. apply IH. intros b'.
  destruct op; simpl; unfold upd; by rewrite ?E.
Qed.

Section transactions.
Context (j : Journal) (Hj : journal_ok j).
Let r := j_io j.
Let sb := j_sb j.

Definition entry_valid (e : Z * block) : Prop := valid_home j e.1 /\ image_ok e.2.
Definition op_valid (op : tx_op) : Prop :=
  match op with
  | StageOp home img => valid_home j home /\ image_ok img
  | UpdateOp home f => valid_home j home /\ forall img, image_ok img -> image_ok (f img)
  end.

Definition deferred_good (o : option (btree block)) : Prop :=
  deferred_wf o /\ match o with Some m => Forall entry_valid m | None => True end.

Record tx_good (t : Transaction) : Prop := mk_tx_good {
  tg_wf : bt_wf (staged t);
  tg_staged : Forall entry_valid (images (staged t));
  tg_deferred : deferred_good (deferred_staged t);
  tg_credits : total_staged_len t <= credits t;
  tg_reserved : exists needed, required_log_blocks (credits t) (features sb) = Some (Ok needed) /\ needed <= ring_size sb;
  tg_owns : owns_writer t = true;
}.

Lemma entries_get (m : btree block) : bt_wf m -> Forall entry_valid m <-> forall b v, bt_get b m = Some v -> entry_valid (b, v).
Proof.
  intros Hw. rewrite Forall_forall. split.
  - intros H b v E. by apply H, bt_get_elem.
  - intros H [b v] E. by apply H, bt_elem_get.
Qed.

(** Staging an image. *)
Lemma staged_good t home s : tx_good t -> valid_home j home -> image_ok (image s) ->
  Z.of_nat (size ({[home]} ∪ tx_keys t)) <= credits t ->
  let t' := set_staged t (bt_insert home s (staged t)) in
  tx_good t' /\ forall D b, tx_view t' D b = upd (tx_view t D) home (image s) b.
Proof.
  intros [Hw Hs [Hd Hd'] Hc Hr Ho] Hv Hi Hsz t'. split.
  - assert (Hw' : bt_wf (staged t')) by (by apply bt_wf_insert). split; [done| |done| |done|done].
    + apply entries_get; [by apply images_wf|]. intros b v. unfold t'. cbn [staged set_staged]. rewrite images_get, bt_get_insert by done.
      destruct (Z.eqb_spec b home) as [->|N]; [intros [= <-]; done|]. rewrite <- images_get. apply entries_get; [by apply images_wf|done].
    + rewrite total_staged_size by done. unfold tx_keys in *. cbn [staged deferred_staged set_staged credits t'].
      rewrite keys_insert by done. etrans; [|exact Hsz]. apply inj_le, Nat.eq_le_incl. f_equal. set_solver.
  - intros D b. unfold tx_view, patched, upd, t'. cbn [staged deferred_staged set_staged]. rewrite !images_get, bt_get_insert by done.
    by destruct (b =? home).
Qed.

Lemma size_present (X : gset Z) b : b ∈ X -> size ({[b]} ∪ X) = size X.
Proof. intros H. f_equal. set_solver. Qed.

Lemma size_absent (X : gset Z) b : (size ({[b]} ∪ X) <= S (size X))%nat.
Proof. rewrite size_union_alt, size_singleton. pose proof (subseteq_size (X ∖ {[b]}) X ltac:(set_solver)). lia. Qed.

Lemma tx_view_keys t home : bt_wf (staged t) -> deferred_wf (deferred_staged t) ->
  home ∈ tx_keys t <-> bt_contains home (staged t) = true \/ is_Some (deferred_image t home).
Proof.
  intros Hw Hd. unfold tx_keys, deferred_image. rewrite elem_of_union, contains_keys, bool_decide_eq_true by done.
  destruct (deferred_staged t) as [m|]; simpl; [rewrite (elem_of_keys m) by done; tauto|]. split; [set_solver|intros [?|[? [=]]]; tauto].
Qed.

Lemma stage_ok t home img t' : tx_good t -> valid_home j home -> image_ok img -> stage t home img = Ok t' ->
  tx_good t' /\ deferred_staged t' = deferred_staged t /\ forall D b, tx_view t' D b = upd (tx_view t D) home img b.
Proof.
  intros Ht Hv Hi H. pose proof Ht as [Hw Hs [Hd Hd'] Hc Hr Ho]. unfold stage in H.
  destruct (_ && _ && _) eqn:E; [done|]. injection H as <-.
  destruct (staged_good t home (mk_staged home None img)) as [G V]; [done|done|done| |done].
  pose proof (tx_view_keys t home Hw Hd) as K.
  destruct (decide (home ∈ tx_keys t)) as [Hin|Hout].
  - rewrite size_present by done. by rewrite <- total_staged_size.
  - rewrite total_staged_size in Hc, E by done. pose proof (size_absent (tx_keys t) home).
    destruct (bt_contains home (staged t)) eqn:E1; [by destruct Hout; apply K; left|].
    destruct (deferred_image t home) eqn:E2; [by destruct Hout; apply K; right|]. simpl in E. apply Z.leb_gt in E. lia.
Qed.

(** A device that was only read. *)
Definition same_device (d d' : Device) : Prop := base d' = base d /\ trace d' = trace d /\ reliable d' = reliable d.

Lemma read_block_same d b : exists res d', read_block b d = Some (res, d') /\ same_device d d' /\
  (res = Ok (content (base d) (trace d) b) \/ res = Err EIO) /\ (faults d = [] -> res = Ok (content (base d) (trace d) b) /\ faults d' = []).
Proof.
  unfold read_block, next_fault. destruct (faults d) as [|[|x] fs] eqn:F; eexists _, _; (split; [done|]); split_and!; try done; first [by left|by right].
Qed.

Definition homes_ok (D : disk) : Prop := forall b, is_home j b -> image_ok (D b).

Lemma view_valid t D home : tx_good t -> homes_ok D -> valid_home j home -> image_ok (tx_view t D home).
Proof.
  intros [Hw Hs [Hd Hd'] _ _ _] HD (_ & _ & Hh). unfold tx_view, patched. destruct (bt_get home (images (staged t))) as [v|] eqn:E.
  { by apply (entries_get _ (proj2 (images_wf _) Hw)) in E as [_ E]. }
  simpl. unfold pend. destruct (deferred_staged t) as [m|]; [|by apply HD]. unfold patched.
  destruct (bt_get home m) as [v|] eqn:E'; [|by apply HD]. by apply (entries_get m Hd) in E' as [_ E'].
Qed.

(** [read]: the transaction's own image, the deferred one, or the disk. *)
Lemma read_ok t home d : exists res d', read t home d = Some (res, d') /\ same_device d d' /\
  (res = Ok (tx_view t (content (base d) (trace d)) home) \/ res = Err EIO) /\
  (faults d = [] -> res = Ok (tx_view t (content (base d) (trace d)) home)).
Proof.
  unfold read, tx_view, patched. rewrite images_get. destruct (bt_get home (staged t)) as [s|]; simpl.
  { eexists _, _. split; [done|]. split_and!; try done. by left. }
  unfold deferred_image, pend. destruct (deferred_staged t) as [m|]; simpl.
  - unfold patched. destruct (bt_get home m) as [v|]; simpl.
    + eexists _, _. split; [done|]. split_and!; try done. by left.
    + destruct (read_block_same d home) as (res & d' & E & S & C & F). exists res, d'. split_and!; [done|done|done|]. intros F0. by apply F.
  - destruct (read_block_same d home) as (res & d' & E & S & C & F). exists res, d'. split_and!; [done|done|done|]. intros F0. by apply F.
Qed.

(** A block under update is staged with the contents the transaction sees. *)
Lemma read_for_update_ok t home d : tx_good t -> valid_home j home -> homes_ok (content (base d) (trace d)) ->
  exists res d', read_for_update t home d = Some (res, d') /\ same_device d d' /\
    match res with
    | Ok t' => tx_good t' /\ deferred_staged t' = deferred_staged t /\ is_Some (bt_get home (staged t')) /\
        forall b, tx_view t' (content (base d) (trace d)) b = tx_view t (content (base d) (trace d)) b
    | Err _ => True
    end.
Proof.
  intros Ht Hv HD. set (D := content (base d) (trace d)) in *. pose proof Ht as [Hw Hs [Hd Hd'] Hc Hr Ho]. pose proof (tx_view_keys t home Hw Hd) as K.
  pose proof (view_valid t D home Ht HD Hv) as Hi.
  assert (Put : forall s, image s = tx_view t D home -> Z.of_nat (size ({[home]} ∪ tx_keys t)) <= credits t ->
    let t' := set_staged t (bt_insert home s (staged t)) in
    tx_good t' /\ deferred_staged t' = deferred_staged t /\ is_Some (bt_get home (staged t')) /\ forall b, tx_view t' D b = tx_view t D b).
  { intros s Es Hsz t'. rewrite <- Es in Hi. destruct (staged_good t home s Ht Hv Hi Hsz) as [G V]. split_and!; [done|done| |].
    - unfold t'. cbn [staged set_staged]. by rewrite bt_get_insert, Z.eqb_refl.
    - intros b. unfold t'. rewrite V. unfold upd. destruct (Z.eqb_spec b home) as [->|]; [done|done]. }
  unfold read_for_update. destruct (bt_get home (staged t)) as [s|] eqn:E.
  { eexists _, _. split; [done|]. split; [done|]. rewrite E. split_and!; try done. }
  destruct (deferred_image t home) as [v|] eqn:E'.
  { eexists _, _. split; [done|]. split; [done|]. apply Put.
    - unfold tx_view, patched. rewrite images_get, E. simpl. unfold deferred_image, pend in *. destruct (deferred_staged t); [|done].
      simpl in E'. unfold patched. by rewrite E'.
    - rewrite size_present by (apply K; by right). by rewrite <- total_staged_size. }
  rewrite total_staged_size in Hc |- * by done. destruct (Z.leb_spec (credits t) (Z.of_nat (size (tx_keys t)))).
  { eexists _, _. split; [done|]. done. }
  destruct (read_block_same d home) as (res & d' & Er & S & C & _). unfold mbind, sm_bind. rewrite Er.
  destruct C as [-> | ->]; eexists _, _; (split; [done|]); [|done]. split; [done|]. pose proof (size_absent (tx_keys t) home). apply Put; [|lia].
  unfold tx_view, patched. rewrite images_get, E. simpl. fold D. unfold deferred_image, pend in *.
  destruct (deferred_staged t); [|done]. simpl in E'. unfold patched. by rewrite E'.
Qed.

Lemma update_image_ok t home f D : tx_good t -> valid_home j home -> is_Some (bt_get home (staged t)) ->
  (forall img, image_ok img -> image_ok (f img)) ->
  tx_good (update_image t home f) /\ deferred_staged (update_image t home f) = deferred_staged t /\
  forall b, tx_view (update_image t home f) D b = upd (tx_view t D) home (f (tx_view t D home)) b.
Proof.
  intros Ht Hv [s Es] Hf. pose proof Ht as [Hw Hs [Hd Hd'] Hc Hr Ho]. unfold update_image. rewrite Es.
  assert (Ei : tx_view t D home = image s) by (unfold tx_view, patched; by rewrite images_get, Es).
  destruct (staged_good t home (mk_staged (s_home s) (original s) (f (image s)))) as [G V]; [done|done| | |].
  - apply Hf. assert (E : bt_get home (images (staged t)) = Some (image s)) by (by rewrite images_get, Es).
    by apply (entries_get _ (proj2 (images_wf _) Hw)) in E as [_ E].
  - rewrite size_present, <- total_staged_size by (done || (apply tx_view_keys; [done|done|left; unfold bt_contains; by rewrite Es])). done.
  - split_and!; [done|done|]. intros b. rewrite V, Ei. done.
Qed.

Lemma same_device_trans d1 d2 d3 : same_device d1 d2 -> same_device d2 d3 -> same_device d1 d3.
Proof. intros (A & C & E) (A' & C' & E'). split_and!; congruence. Qed.

Lemma run_op_ok t op d : tx_good t -> op_valid op -> homes_ok (content (base d) (trace d)) ->
  exists res d', run_op t op d = Some (res, d') /\ same_device d d' /\
    match res with
    | Ok t' => tx_good t' /\ deferred_staged t' = deferred_staged t /\
        forall b, tx_view t' (content (base d) (trace d)) b = apply_op (tx_view t (content (base d) (trace d))) op b
    | Err _ => True
    end.
Proof.
  intros Ht Hop HD. destruct op as [home img|home f]; destruct Hop as [Hv Hx]; cbn [run_op apply_op].
  - eexists _, _. split; [done|]. split; [done|]. destruct (stage t home img) as [t'|e] eqn:E; [|done].
    destruct (stage_ok t home img t' Ht Hv Hx E) as (G & Ed & V). split_and!; [done|done|]. intros b. apply V.
  - destruct (read_for_update_ok t home d Ht Hv HD) as (res & d' & E & S & H). unfold mbind, sm_bind. rewrite E.
    destruct res as [t'|e]; eexists _, _; (split; [done|]); [|done]. split; [done|]. destruct H as (G & Ed & Hin & V).
    destruct (update_image_ok t' home f (content (base d) (trace d)) G Hv Hin Hx) as (G' & Ed' & V'). split_and!; [done|congruence|].
    intros b. rewrite V'. unfold upd. by rewrite !V.
Qed.

Lemma run_body_ok ops : forall t d, tx_good t -> Forall op_valid ops -> homes_ok (content (base d) (trace d)) ->
  exists res d', run_body t ops d = Some (res, d') /\ same_device d d' /\
    match res with
    | Ok t' => tx_good t' /\ deferred_staged t' = deferred_staged t /\
        forall b, tx_view t' (content (base d) (trace d)) b = apply_ops (tx_view t (content (base d) (trace d))) ops b
    | Err _ => True
    end.
Proof.
  induction ops as [|op ops IH]; intros t d Ht Hops HD; [by exists (Ok t), d|]. apply Forall_cons in Hops as [Hop Hops].
  destruct (run_op_ok t op d Ht Hop HD) as (res & d1 & E & S & H). cbn [run_body]. unfold mbind, sm_bind. rewrite E.
  destruct res as [t1|e]; [|by exists (Err e), d1]. destruct H as (G & Ed & V). pose proof S as (Eb & Et & _).
  destruct (IH t1 d1 G Hops) as (res & d' & E' & S' & H'); [by rewrite Eb, Et|]. exists res, d'. split_and!; [done|by eapply same_device_trans|].
  destruct res as [t'|e]; [|done]. destruct H' as (G' & Ed' & V'). split_and!; [done|congruence|]. intros b. rewrite Eb, Et in V'. rewrite V'.
  cbn. by apply apply_ops_ext.
Qed.

(** Enough credits, and no device error. *)
Definition op_home (op : tx_op) : Z := match op with StageOp home _ => home | UpdateOp home _ => home end.

Lemma tx_keys_insert t home v : bt_wf (staged t) -> tx_keys (set_staged t (bt_insert home v (staged t))) = {[home]} ∪ tx_keys t.
Proof. intros Hw. unfold tx_keys. cbn [staged deferred_staged set_staged]. rewrite keys_insert by done. set_solver. Qed.

Lemma not_full t home : tx_good t -> Z.of_nat (size ({[home]} ∪ tx_keys t)) <= credits t -> home ∉ tx_keys t -> total_staged_len t < credits t.
Proof.
  intros Ht Hsz Hn. rewrite total_staged_size by (apply Ht || apply Ht). rewrite size_union, size_singleton in Hsz by set_solver. lia.
Qed.

Lemma bt_insert_nonempty {V} k (v : V) m : bt_insert k v m <> [].
Proof. destruct m as [|[k' v'] m]; simpl; [done|]. by destruct (k <? k'), (k =? k'). Qed.

Lemma run_op_fits t op d : tx_good t -> faults d = [] -> Z.of_nat (size ({[op_home op]} ∪ tx_keys t)) <= credits t ->
  exists t' d', run_op t op d = Some (Ok t', d') /\ faults d' = [] /\ credits t' = credits t /\ tx_keys t' = {[op_home op]} ∪ tx_keys t /\
    staged t' <> [].
Proof.
  intros Ht Hf Hsz. pose proof Ht as [Hw _ [Hd _] _ _ _]. pose proof (tx_view_keys t (op_home op) Hw Hd) as K.
  destruct op as [home img|home f]; cbn [op_home run_op] in *.
  - unfold stage. destruct (_ && _ && _) eqn:E; [exfalso|].
    + apply andb_true_iff in E as [[E1 E2]%andb_true_iff E3]. apply Z.leb_le in E3. apply negb_true_iff in E1, E2.
      pose proof (not_full t home Ht Hsz). rewrite K, E1 in H. destruct (deferred_image t home); [done|].
      assert (total_staged_len t < credits t) by (apply H; intros [?|[? ?]]; done). lia.
    + eexists _, _. split; [reflexivity|]. split_and!; [done|done|by apply tx_keys_insert|apply bt_insert_nonempty].
  - assert (Upd : forall t1, bt_wf (staged t1) -> is_Some (bt_get home (staged t1)) -> credits t1 = credits t -> tx_keys t1 = {[home]} ∪ tx_keys t ->
      credits (update_image t1 home f) = credits t /\ tx_keys (update_image t1 home f) = {[home]} ∪ tx_keys t /\ staged (update_image t1 home f) <> []).
    { intros t1 Hw1 [s Es] Hc1 Hk1. unfold update_image. rewrite Es. rewrite tx_keys_insert by done. split_and!; [done| |apply bt_insert_nonempty]. rewrite Hk1. set_solver. }
    unfold read_for_update. destruct (bt_get home (staged t)) as [s|] eqn:Es.
    { eexists _, _. split; [reflexivity|]. split; [done|]. apply Upd; [done|by rewrite Es|done|].
      assert (home ∈ tx_keys t) by (apply K; left; unfold bt_contains; by rewrite Es). set_solver. }
    assert (Put : forall v, credits (update_image (set_staged t (bt_insert home v (staged t))) home f) = credits t /\
      tx_keys (update_image (set_staged t (bt_insert home v (staged t))) home f) = {[home]} ∪ tx_keys t /\
      staged (update_image (set_staged t (bt_insert home v (staged t))) home f) <> []).
    { intros v. apply Upd; [by apply bt_wf_insert| |done|by apply tx_keys_insert]. cbn [staged set_staged]. by rewrite bt_get_insert, Z.eqb_refl. }
    destruct (deferred_image t home) as [v|] eqn:Ed; [eexists _, _; split; [reflexivity|]; split; [done|apply Put]|].
    assert (Hlt : total_staged_len t < credits t).
    { apply (not_full t home Ht Hsz). rewrite K. unfold bt_contains. rewrite Es. by intros [?|[? ?]]. }
    rewrite (proj2 (Z.leb_gt _ _) Hlt). destruct (read_block_same d home) as (res & d1 & E1 & _ & _ & F1). destruct (F1 Hf) as [-> F1'].
    unfold mbind, sm_bind. rewrite E1. eexists _, _. split; [reflexivity|]. split; [done|apply Put].
Qed.

Lemma run_body_fits ops : forall t d, tx_good t -> Forall op_valid ops -> homes_ok (content (base d) (trace d)) -> faults d = [] ->
  Z.of_nat (size (list_to_set (op_home <$> ops) ∪ tx_keys t)) <= credits t ->
  exists t' d', run_body t ops d = Some (Ok t', d') /\ faults d' = [] /\ (ops <> [] -> staged t' <> []).
Proof.
  induction ops as [|op ops IH]; intros t d Ht Hops HD Hf Hsz.
  { exists t, d. split_and!; [done|done|done]. }
  apply Forall_cons in Hops as [Hop Hops]. cbn [fmap list_fmap list_to_set] in *.
  assert (Hsub : (size ({[op_home op]} ∪ tx_keys t) <= size ({[op_home op]} ∪ list_to_set (op_home <$> ops) ∪ tx_keys t))%nat)
    by (apply subseteq_size; set_solver).
  destruct (run_op_fits t op d Ht Hf ltac:(lia)) as (t1 & d1 & E1 & Hf1 & Hc1 & Hk1 & Hn1).
  destruct (run_op_ok t op d Ht Hop HD) as (res & d1' & E1' & (Sb & Str & _) & H1). rewrite E1 in E1'. injection E1' as <- <-.
  destruct H1 as (Ht1 & _ & _). cbn [run_body]. unfold mbind, sm_bind. rewrite E1.
  destruct (IH t1 d1 Ht1 Hops) as (t' & d' & E' & Hf' & Hn'); [by rewrite Sb, Str|done| |].
  - rewrite Hc1, Hk1. etrans; [|exact Hsz]. apply inj_le, Nat.eq_le_incl. f_equal. set_solver.
  - exists t', d'. split_and!; [done|done|]. intros _. destruct ops; [by injection E' as <- <-|by apply Hn'].
Qed.

(** ** Starting *)

Definition started (x : JournalCore) (total : Z) : Transaction := tx_new total false (deferred_transaction (context x)).

Lemma reservation_ok S c B total : mounted j c B S -> reservation_fits c total = Some (Ok true) ->
  exists needed, required_log_blocks total (features sb) = Some (Ok needed) /\ needed <= ring_size sb.
Proof.
  intros Hc H. unfold reservation_fits in H. rewrite (mo_sb j c B S Hc) in H. apply bind_Ok in H as (needed & En & H).
  apply bind_Ok in H as (avail & Ea & H). apply ret_inj in H. apply Z.leb_le in H. exists needed. split; [exact En|].
  pose proof (jo_geo j Hj). unfold ring_len in Ea. cbn [first max_len with_start] in Ea.
  rewrite (proj2 (Z.leb_le _ _)) in Ea by (fold sb; unfold sb; lia). apply ret_inj in Ea as <-. unfold ring_size, sb in *. lia.
Qed.

Lemma started_good x B S total credits : mounted j (context x) B S -> deferred_good (deferred_transaction (context x)) -> 0 <= credits ->
  checked_add match deferred_transaction (context x) with Some m => Z.of_nat (length m) | None => 0 end credits = Some total ->
  reservation_fits (context x) total = Some (Ok true) -> tx_good (started x total).
Proof.
  intros Hc [Hd Hd'] Hcr Ha Hr. apply checked_add_Some in Ha as [-> _]. split; cbn [started tx_new staged deferred_staged JournalTx.credits owns_writer]; try done.
  - constructor.
  - rewrite total_staged_size by (done || constructor). unfold tx_keys. cbn [deferred_staged staged started tx_new].
    destruct (deferred_transaction (context x)) as [m|].
    + rewrite (length_keys m Hd). replace (keys m ∪ keys (V := StagedBlock) bt_empty) with (keys m) by set_solver. lia.
    + replace (∅ ∪ keys (V := StagedBlock) bt_empty) with (∅ : gset Z) by set_solver. rewrite size_empty. lia.
  - by eapply reservation_ok.
Qed.

(** [start] and [start_if_deferred] take the deferred batch and the writer bit, or fail and leave the batch. *)
Lemma start_tx_ok x B S credits : mounted j (context x) B S -> deferred_good (deferred_transaction (context x)) -> 0 <= credits ->
  exists res x', start_tx x credits = Some (res, x') /\
    match res with
    | Ok t => poisoned x = false /\ tx_good t /\ deferred_staged t = deferred_transaction (context x) /\ staged t = [] /\
        x' = set_deferred (set_writer x true) None
    | Err _ => context x' = context x /\ poisoned x' = poisoned x
    end.
Proof.
  intros Hc Hd Hcr. unfold start_tx. destruct ((credits =? 0) || poisoned x) eqn:E0; [by eexists _, _|].
  apply orb_false_iff in E0 as [_ Hp]. destruct (writer x); [by eexists _, _|]. cbn [context set_writer].
  destruct (checked_add _ credits) as [total|] eqn:Ea; [|by eexists _, _].
  destruct (reservation_returns (context x) total) as [res Er]. rewrite Er.
  destruct res as [[]|e]; eexists _, _; (split; [reflexivity|]); [|done..].
  split_and!; [done| |done|done|done]. by eapply started_good.
Qed.

Lemma start_if_deferred_ok x B S credits : mounted j (context x) B S -> deferred_good (deferred_transaction (context x)) -> 0 <= credits ->
  exists res x', start_if_deferred x credits = Some (res, x') /\
    match res with
    | Ok (Some t) => poisoned x = false /\ tx_good t /\ deferred_staged t = deferred_transaction (context x) /\ staged t = [] /\
        x' = set_deferred (set_writer x true) None
    | _ => context x' = context x /\ poisoned x' = poisoned x
    end.
Proof.
  intros Hc Hd Hcr. unfold start_if_deferred. destruct ((credits =? 0) || poisoned x) eqn:E0; [by eexists _, _|].
  apply orb_false_iff in E0 as [_ Hp]. destruct (writer x); [by eexists _, _|]. cbn [context set_writer].
  destruct (deferred_transaction (context x)) as [m|] eqn:Em; [|by eexists _, _].
  destruct (checked_add _ credits) as [total|] eqn:Ea; [|by eexists _, _].
  destruct (reservation_returns (context x) total) as [res Er]. rewrite Er.
  destruct res as [[]|e]; eexists _, _; (split; [reflexivity|]); [|done..].
  split_and!; [done| |done|done|done]. replace (tx_new total false (Some m)) with (started x total) by (unfold started; by rewrite Em).
  eapply started_good; [done|by rewrite Em|exact Hcr|by rewrite Em|done].
Qed.

(** ** Committing *)

Lemma batch_good t : tx_good t -> images_ok (batch t) /\ Forall (fun e => valid_home j e.1) (batch t) /\ fits_ring j (length (batch t)).
Proof.
  intros [Hw Hs [Hd Hd'] Hc (needed & Hn & Hle) _]. destruct (batch_spec t Hw Hd) as [W V].
  assert (HE : Forall entry_valid (batch t)).
  { apply entries_get; [done|]. intros b v E. unfold batch, absorb_deferred_staged in E. rewrite images_get in E.
    pose proof (proj1 (entries_get _ (proj2 (images_wf _) Hw)) Hs b v) as Hs'. rewrite images_get in Hs'.
    destruct (deferred_staged t) as [m|]; cbn [staged] in E; [|by apply Hs'].
    destruct (absorb_spec m (staged t) Hw) as [_ G]. change (foldl _ _ m) with (foldl absorb_one (staged t) m) in E. rewrite G in E.
    destruct (bt_get b (staged t)); [by apply Hs'|]. by apply (entries_get m Hd). }
  split_and!.
  - split; [done|]. eapply Forall_impl; [exact HE|]. by intros e (((H & _) & _) & Hi).
  - eapply Forall_impl; [exact HE|]. by intros e (H & _).
  - pose proof (batch_length t Hw Hd) as L. unfold fits_ring. rewrite L.
    assert (0 <= total_staged_len t) by lia. destruct (required_mono (total_staged_len t) (credits t) _ _ ltac:(lia) Hn) as (n' & E & Hn').
    exists n'. split; [done|]. unfold sb in *. lia.
Qed.

(** What [commit_journal] leaves. *)
Lemma commit_journal_ok x t d B S : mounted j (context x) B S -> deferred_transaction (context x) = None -> tx_good t ->
  fits_reader j (batch t) -> base d = B -> trace d = [] -> reliable d = true -> is_u32 (S + 1) ->
  exists res x' d', commit_journal x t d = Some (res, x', d') /\ base d' = B /\ deferred_transaction (context x') = None /\
    (let plan := the_plan j (context x) B S (batch t) in
     match res with
     | Ok _ => trace d' = commit_trace j (context x) B S (batch t) plan /\ poisoned x' = poisoned x /\
         mounted j (context x') (content B (trace d')) (S + 1)
     | Err (_, f) => poisoned x' = true /\ stopped j (context x) B S (batch t) plan f (trace d')
     end) /\
    (faults d = [] -> res = Ok tt).
Proof.
  intros Hc Hnd Ht Hr HB Htr Hrel HS. destruct (batch_good t Ht) as (Hm & Hv & Hf).
  pose proof (commit_plan_exists j Hj (context x) B S (batch t) Hc Hm Hv Hf) as Ep.
  pose proof (tg_owns t Ht) as Ho. set (plan := the_plan j (context x) B S (batch t)) in *.
  destruct (runs_commit_steps j Hj (context x) B S (batch t) plan Hc Hm Hr Ep HS) as [D _].
  destruct (D d HB Htr) as (r1 & d1 & E1 & B1 & _ & _ & F1).
  pose proof (commit_io_ok j Hj (context x) B S (batch t) plan Hc Hm Hr Ep HS d r1 d1 HB Htr Hrel E1) as (_ & _ & C1).
  unfold commit_journal, commit_io. fold (batch t). unfold mbind at 1, sm_bind at 1, check_reliable. rewrite Hrel.
  unfold before, mbind at 1, sm_bind at 1, map_err at 1, lift at 1. rewrite Ep. cbn [mret res_ret].
  unfold mbind, sm_bind. rewrite E1.
  assert (Ed : deferred_staged (absorb_deferred_staged t) = None)
    by (unfold absorb_deferred_staged; by destruct (deferred_staged t) eqn:E).
  unfold fail, drop_tx, restore_deferred_staged. rewrite Ed.
  assert (Eo : owns_writer (absorb_deferred_staged t) = true) by (unfold absorb_deferred_staged; by destruct (deferred_staged t)).
  unfold release_writer. rewrite Eo. destruct r1 as [[]|[[e f] poison]].
  - eexists _, _, _. split; [reflexivity|]. cbv zeta. split_and!; try done. rewrite C1.
    by apply (mounted_after j Hj (context x) B S (batch t) plan).
  - destruct C1 as [-> St]. eexists _, _, _. split; [reflexivity|]. cbv zeta. split_and!; try done. intros F0. by destruct (F1 F0).
Qed.
End transactions.

(** ** Mounting *)

(** [map_validated_journal_inode], over the extents of the journal's inode. *)
Fixpoint map_blocks (extent_query : Z -> result Z ErrCode) (filesystem_blocks : Z) (n : nat) (logical : Z)
    (mapping : list Z) (blocks : gset Z) : result (list Z * gset Z) ErrCode :=
  match n with
  | 0%nat => Ok (mapping, blocks)
  | S n =>
      match extent_query logical with
      | Err e => Err e
      | Ok physical =>
          if (physical =? 0) || (filesystem_blocks <=? physical) || bool_decide (physical ∈ blocks) then Err EIO
          else map_blocks extent_query filesystem_blocks n (logical + 1) (mapping ++ [physical]) ({[physical]} ∪ blocks)
      end
  end.

Lemma map_blocks_ok q fsb n : forall logical mapping blocks mapping' blocks',
  (forall l p, q l = Ok p -> 0 <= p) -> NoDup mapping -> blocks = list_to_set mapping -> Forall (fun p => 0 < p < fsb) mapping ->
  map_blocks q fsb n logical mapping blocks = Ok (mapping', blocks') ->
  NoDup mapping' /\ blocks' = list_to_set mapping' /\ Forall (fun p => 0 < p < fsb) mapping' /\
  length mapping' = (length mapping + n)%nat /\ mapping `prefix_of` mapping' /\
  forall i p, (length mapping <= i)%nat -> mapping' !! i = Some p -> q (logical + Z.of_nat (i - length mapping)) = Ok p.
Proof.
  induction n as [|n IH]; intros logical mapping blocks mapping' blocks' Hq HN HB HF H.
  { injection H as <- <-. split_and!; try done; try lia. intros i p Hi E. apply lookup_lt_Some in E. lia. }
  cbn [map_blocks] in H. destruct (q logical) as [p|e] eqn:E; [|done].
  destruct (_ || _) eqn:Eb; [done|]. apply orb_false_iff in Eb as [[E1 E2]%orb_false_iff E3].
  apply Z.eqb_neq in E1. apply Z.leb_gt in E2. apply bool_decide_eq_false in E3. pose proof (Hq _ _ E). rewrite HB, elem_of_list_to_set in E3.
  destruct (IH (logical + 1) (mapping ++ [p]) ({[p]} ∪ blocks) mapping' blocks') as (A1 & A2 & A3 & A4 & [k A5] & A6); try done.
  - apply NoDup_app. split_and!; [done| |apply NoDup_singleton]. intros x Hx ->%list_elem_of_singleton. done.
  - rewrite HB, list_to_set_app_L. set_solver.
  - apply Forall_app. split; [done|]. constructor; [lia|constructor].
  - rewrite length_app in A4. simpl in A4. split_and!; try done; [lia|exists ([p] ++ k); by rewrite A5, <- app_assoc|].
    intros i x Hi Ex. destruct (decide (i = length mapping)) as [->|N].
    + rewrite A5, <- app_assoc in Ex. cbn [app] in Ex. rewrite list_lookup_middle in Ex by done. injection Ex as <-. by rewrite Nat.sub_diag, Z.add_0_r.
    + rewrite length_app in A6. simpl in A6. rewrite <- (A6 i x) by (lia || done). f_equal. lia.
Qed.

(** The part of [initialize_journal] that deals with the journal; its blocks and the flag RECOVER
    of the file system's superblock are arguments. *)
Definition mount_steps (io : RecoveryDevice) (needs_recovery : bool) (zero : Z) : sm Device ErrCode JournalCore :=
  raw ← read_block zero;
  sb ← lift (superblock_parse raw (wrap32 (Z.of_nat BLOCK_SIZE)));
  if negb (max_len sb =? Z.of_nat (length (journal_blocks io))) then throw EIO
  else if negb (start sb =? 0) && negb needs_recovery then throw EIO
  else
    sb ←
      (if needs_recovery then
         @recover Device (recovery_io io) ;;
         refreshed ← read_block zero;
         lift (superblock_parse refreshed (wrap32 (Z.of_nat BLOCK_SIZE)))
       else mret sb);
    block0 ← read_block zero;
    image ← lift (range block0 0 1024);
    if start sb =? 0 then
      lift (core_new (mk_context sb (journal_blocks io) (journal_block_set io) (fs_blocks io) (first sb) image None))
    else throw EIO.

Definition mount_journal (io : RecoveryDevice) (needs_recovery : bool) : sm Device ErrCode JournalCore := fun d =>
  if negb (reliable d) then Some (Err ENOTSUP, d)
  else match journal_blocks io !! 0%nat with None => None | Some zero => mount_steps io needs_recovery zero d end.

Section mount.
Context (j : Journal) (Hj : journal_ok j).
Let r := j_io j.
Let sb := j_sb j.

Lemma validate_ok S image : validate (mk_context (with_start sb S 0) (journal_blocks r) (journal_block_set r) (fs_blocks r) (first sb) image None) = mret tt.
Proof.
  pose proof Hj as [Hg Hu Hs HU Hty Hmap Hnd Hset Hph Hfs]. fold sb in Hg, Hu, Hs, HU, Hty, Hmap. fold r in Hmap, Hnd, Hset, Hph, Hfs.
  unfold validate. cbn [superblock block_size checksum features checksum_type max_len first with_start logical_blocks journal_set head target_blocks].
  rewrite block_size_val, Hs, Z.eqb_refl, Hmap, Z.eqb_refl. cbn [negb orb].
  assert (Ety : bool_decide (checksum (features sb) = V3) && negb (checksum_type sb =? CRC32C_CHKSUM) = false).
  { destruct (bool_decide_reflect (checksum (features sb) = V3)) as [E|E]; [|done]. by rewrite (Hty E). }
  assert (Esz : size (journal_block_set r) = length (journal_blocks r)).
  { rewrite <- (size_list_to_set (C := gset Z)) by done. f_equal. apply set_eq. intros b. rewrite elem_of_list_to_set. symmetry. apply Hset. }
  rewrite Ety, Esz, Nat.eqb_refl. cbn [negb orb].
  rewrite (proj2 (Z.ltb_ge _ _)), (proj2 (Z.leb_gt _ _)), (proj2 (Z.eqb_neq _ _)) by lia. cbn [orb].
  destruct (existsb _ _) eqn:E; [|done]. apply existsb_exists in E as (b & Hb & E). apply list_elem_of_In in Hb.
  apply orb_true_iff in E as [E|E]; [apply Z.eqb_eq in E; pose proof (Hph b Hb); lia|].
  apply negb_true_iff, bool_decide_eq_false in E. by destruct E; apply Hset.
Qed.

Definition mounted_core (S : Z) (B : disk) : JournalCore :=
  mk_core false false (mk_context (with_start sb S 0) (journal_blocks r) (journal_block_set r) (fs_blocks r) (first sb) (take 1024 (B (phys r 0))) None).

Lemma recoverable_sb n img home : recoverable j n img home -> exists S st, sb_at j img S st.
Proof. intros (S & _ & [((st & H) & _)|(m & home0 & (st & groups & H & _) & _)]); by exists S, st. Qed.

Lemma does_mount n img home : recoverable j n img home -> is_u32 (n + 2) ->
  exists S ws, S <= n + 2 /\ does img (mount_steps r true (phys r 0)) [] (Ok (mounted_core S (content img ws))) ws /\
    mounted j (context (mounted_core S (content img ws))) (content img ws) S /\
    (ws = [] \/ exists ws', ws = ws' ++ [Flush]) /\
    (forall p img', p `prefix_of` ws -> crash_image img p img' -> recoverable j (n + 2) img' home) /\
    (forall b, is_home j b -> content img ws b = home b).
Proof.
  intros HR Hn. destruct (recover_does j Hj n img home HR Hn) as (s & ws & D & Hws & Hcr).
  destruct (Hcr ws _ (reflexivity _) (content_crash_image img ws)) as [_ Hcl].
  destruct (Hcl eq_refl) as (S & HS & Hsb & _ & Hq & Hh). exists S, ws. pose proof Hsb as (L & P & _).
  pose proof (jo_geo j Hj) as Hg. pose proof block_size_val as Hb.
  split_and!; [done| | |done|intros p img' Hp Hc; by apply (Hcr p)|done].
  - destruct (recoverable_sb n img home HR) as (S0 & st & _ & P0 & _). unfold mount_steps. rewrite block_size_val. change (wrap32 4096) with 4096.
    eapply does_bind_pure; [apply does_read|]. eapply does_bind_pure; [apply does_lift; exact P0|].
    cbn [max_len start with_start]. assert (Em : (max_len sb =? Z.of_nat (length (journal_blocks r))) = true) by (apply Z.eqb_eq; symmetry; apply Hj).
    fold sb. rewrite Em. cbn [negb]. rewrite andb_false_r.
    rewrite <- (app_nil_r ws) at 2. eapply does_bind.
    { rewrite <- (app_nil_r ws). eapply does_bind; [exact D|]. eapply does_bind_pure; [apply does_read|]. apply does_lift. exact P. }
    eapply does_bind_pure; [apply does_read|]. eapply does_bind_pure; [apply does_lift, range_ok; cbn [app]; unfold r in *; lia|].
    cbn [start with_start Z.eqb]. apply does_lift. unfold core_new.
    change (first (with_start (j_sb j) S 0)) with (first sb). rewrite validate_ok, bind_ok. done.
  - split; cbn [context mounted_core superblock logical_blocks journal_set target_blocks head superblock_image]; try done.
    unfold ring_pos, sb. lia.
Qed.
End mount.

(** ** Requests *)

Inductive finish := Commits | Defers (max_deferred_blocks : Z) | Aborts.
Inductive request :=
  | Transact (only_if_deferred : bool) (credits : Z) (ops : list tx_op) (fin : finish)
  | FlushDeferred.

(** What a request did: nothing to the journal, a transaction that joined the deferred batch, or a
    commit of the batch and of a transaction. *)
Inductive event :=
  | Quiet
  | Deferred (ops : list tx_op)
  | Committed (res : result unit CommitError) (txs : list (list tx_op)).

Definition finish_tx (x : JournalCore) (t : Transaction) (ops : list tx_op) (fin : finish) (d : Device)
    : option (event * JournalCore * Device) :=
  match fin with
  | Aborts => Some (Quiet, drop_tx x t, d)
  | Commits =>
      '(res, x, d) ← commit x t d;
      Some (match staged t with [] => Quiet | _ => Committed res [ops] end, x, d)
  | Defers n =>
      '(res, x, d) ← defer_or_commit x t n d;
      Some (if total_staged_len t =? 0 then Quiet else if has_pending_transaction x then Deferred ops else Committed res [ops], x, d)
  end.

Definition start_request (only_if_deferred : bool) (x : JournalCore) (credits : Z)
    : option (option Transaction * JournalCore) :=
  if only_if_deferred then
    '(res, x) ← start_if_deferred x credits;
    Some (match res with Ok t => t | Err _ => None end, x)
  else
    '(res, x) ← start_tx x credits;
    Some (match res with Ok t => Some t | Err _ => None end, x).

Definition serve (q : request) (x : JournalCore) (d : Device) : option (event * JournalCore * Device) :=
  match q with
  | Transact only credits ops fin =>
      '(t, x) ← start_request only x credits;
      match t with
      | None => Some (Quiet, x, d)
      | Some t =>
          '(res, d) ← run_body t ops d;
          match res with
          | Err _ => Some (Quiet, drop_tx x t, d)
          | Ok t => finish_tx x t ops fin d
          end
      end
  | FlushDeferred =>
      '(res, x', d) ← flush_deferred_transaction x d;
      Some (if writer x then Quiet else match res with Ok false => Quiet | Ok true => Committed (Ok tt) [] | Err e => Committed (Err e) [] end,
            x', d)
  end.

(** ** Histories *)

(** A running system, with what its device held when it was last stable and the operations since,
    or a disk. *)
Inductive sys := Up (x : JournalCore) (B : disk) (t : list dop) | Down (img : disk).

Inductive label := Served (e : event) | PowerLoss (e : event) | Mounts (ok : bool).

(** A device that is stable starts afresh. *)
Definition is_publish (op : dop) : bool := match op with Publish => true | _ => false end.
Definition settle (B : disk) (t : list dop) : disk * list dop :=
  match last (filter (fun op => is_publish op = false) t) with
  | None => (B, [])
  | Some Flush => (content B t, [])
  | Some _ => (B, t)
  end.
Definition up (x : JournalCore) (d : Device) : sys := let '(B, t) := settle (base d) (trace d) in Up x B t.

(** Power may be lost at any moment of a request or of a mount. *)
Inductive step (io : RecoveryDevice) (valid : request -> Prop) : sys -> label -> sys -> Prop :=
  | step_serve q fs x B t e x' d' : valid q ->
      serve q x (mk_device B t fs true) = Some (e, x', d') ->
      step io valid (Up x B t) (Served e) (up x' d')
  | step_power q fs x B t e x' d' p img : valid q ->
      serve q x (mk_device B t fs true) = Some (e, x', d') -> t `prefix_of` p -> p `prefix_of` trace d' -> crash_image B p img ->
      step io valid (Up x B t) (PowerLoss e) (Down img)
  | step_mount fs img x d' :
      mount_journal io true (mk_device img [] fs true) = Some (Ok x, d') ->
      step io valid (Down img) (Mounts true) (up x d')
  | step_mount_fails fs img res d' p img' :
      mount_journal io true (mk_device img [] fs true) = Some (res, d') -> p `prefix_of` trace d' -> crash_image img p img' ->
      step io valid (Down img) (Mounts false) (Down img').

Inductive run (io : RecoveryDevice) (valid : request -> Prop) : sys -> list label -> sys -> Prop :=
  | run_nil s : run io valid s [] s
  | run_snoc s ls s1 l s2 : run io valid s ls s1 -> step io valid s1 l s2 -> run io valid s (ls ++ [l]) s2.

(** ** The promise *)

(** The transactions on the disk, in order, and the deferred ones. *)
Record ledger := mk_ledger { durable : list (list tx_op); pending : list (list tx_op) }.

Definition write_down (s : ledger) (txs : list (list tx_op)) : ledger := mk_ledger (durable s ++ pending s ++ txs) [].
Definition forget (s : ledger) : ledger := mk_ledger (durable s) [].

Inductive promise : ledger -> label -> ledger -> Prop :=
  | p_quiet s : promise s (Served Quiet) s
  | p_deferred s ops : promise s (Served (Deferred ops)) (mk_ledger (durable s) (pending s ++ [ops]))
  | p_committed s txs : promise s (Served (Committed (Ok tt) txs)) (write_down s txs)
  | p_failed_before s txs e : promise s (Served (Committed (Err (e, BeforeCommit)) txs)) (forget s)
  | p_uncertain_lost s txs e : promise s (Served (Committed (Err (e, CommitUncertain)) txs)) (forget s)
  | p_uncertain_kept s txs e : promise s (Served (Committed (Err (e, CommitUncertain)) txs)) (write_down s txs)
  | p_failed_checkpoint s txs e : promise s (Served (Committed (Err (e, CheckpointFailed)) txs)) (write_down s txs)
  | p_failed_tail s txs e : promise s (Served (Committed (Err (e, TailUpdateFailed)) txs)) (write_down s txs)
  | p_power s e : promise s (PowerLoss e) (forget s)
  | p_power_commit s res txs : promise s (PowerLoss (Committed res txs)) (write_down s txs)
  | p_mount s ok : promise s (Mounts ok) s.

Inductive kept : ledger -> list label -> ledger -> Prop :=
  | kept_nil s : kept s [] s
  | kept_snoc s ls s1 l s2 : kept s ls s1 -> promise s1 l s2 -> kept s (ls ++ [l]) s2.

Definition disk_of (D : disk) (txs : list (list tx_op)) : disk := foldl apply_ops D txs.
Definition live (x : JournalCore) (B : disk) : disk := pend (deferred_transaction (context x)) B.

(** ** Stable devices *)

Lemma filter_cell B t b : cell B (filter (fun op => is_publish op = false) t) b = cell B t b.
Proof.
  unfold cell. generalize (B b, [B b]) as c. induction t as [|op t IH]; intros c; [done|]. rewrite filter_cons. cbn [foldl].
  destruct op; simpl; apply IH.
Qed.

Lemma settle_crash B t img : let '(B', t') := settle B t in crash_image B' t' img <-> crash_image B t img.
Proof.
  unfold settle. destruct (last _) as [[]|] eqn:E; [done| |done|].
  - apply last_Some in E as [l E]. assert (F : forall b, cell B t b = (content B t b, [content B t b])).
    { intros b. unfold content. rewrite <- filter_cell, E, cell_app. done. }
    split; intros H b; specialize (H b); [by rewrite F|by rewrite F in H].
  - apply last_None in E. unfold crash_image. setoid_rewrite <- (filter_cell B t). by rewrite E.
Qed.

Lemma settle_flush B t : settle B (t ++ [Flush]) = (content B (t ++ [Flush]), []).
Proof.
  unfold settle. rewrite filter_app. change (filter (fun op => is_publish op = false) [Flush]) with [Flush]. by rewrite last_snoc.
Qed.

Section history.
Context (j : Journal) (Hj : journal_ok j) (Hcs : checksum (features (j_sb j)) = ChecksumNone).
Let r := j_io j.
Let sb := j_sb j.

Definition request_valid (q : request) : Prop :=
  match q with Transact _ credits ops _ => 0 <= credits /\ Forall (op_valid j) ops | FlushDeferred => True end.

Record ready (x : JournalCore) (B : disk) (S : Z) : Prop := mk_ready {
  rd_mounted : mounted j (context x) B S;
  rd_deferred : deferred_good j (deferred_transaction (context x));
  rd_fits : match deferred_transaction (context x) with Some m => fits_ring j (length m) | None => True end;
  rd_homes : homes_ok j B;
  rd_alive : poisoned x = false;
}.

Definition agree (D D' : disk) : Prop := forall b, is_home j b -> D b = D' b.

Lemma apply_ops_agree ops D D' : Forall (op_valid j) ops -> agree D D' -> agree (apply_ops D ops) (apply_ops D' ops).
Proof.
  intros H. revert D D'. induction H as [|op ops Hop _ IH]; intros D D' E; [done|]. cbn. apply IH. intros b Hb.
  destruct op as [home img|home f]; destruct Hop as [(_ & _ & Hh) _]; simpl; unfold upd; by rewrite ?(E b Hb), ?(E home Hh).
Qed.

(** What a request did, seen from the state before it. *)
Definition served (x : JournalCore) (B : disk) (S : Z) (e : event) (x' : JournalCore) (t : list dop) : Prop :=
  match e with
  | Quiet => t = [] /\ context x' = context x /\ poisoned x' = false
  | Deferred ops => t = [Publish] /\ Forall (op_valid j) ops /\ ready x' B S /\
      agree (live x' B) (apply_ops (live x B) ops)
  | Committed res txs => Forall (Forall (op_valid j)) txs /\ deferred_transaction (context x') = None /\
      exists m plan, images_ok m /\ Forall (fun e => valid_home j e.1) m /\ commit_plan (context x) m = Some (Ok plan) /\
        agree (patched m B) (disk_of (live x B) txs) /\
        match res with
        | Ok _ => t = commit_trace j (context x) B S m plan /\ poisoned x' = false /\ mounted j (context x') (content B t) (S + 1)
        | Err (_, f) => poisoned x' = true /\ stopped j (context x) B S m plan f t
        end
  end.

Lemma mounted_deferred c o B S : mounted j c B S ->
  mounted j (mk_context (superblock c) (logical_blocks c) (journal_set c) (target_blocks c) (head c) (superblock_image c) o) B S.
Proof. by intros []. Qed.

(** Giving the transaction up puts everything back. *)
Lemma drop_restores x t : deferred_staged t = deferred_transaction (context x) -> owns_writer t = true ->
  context (drop_tx (set_deferred (set_writer x true) None) t) = context x /\
  poisoned (drop_tx (set_deferred (set_writer x true) None) t) = poisoned x.
Proof.
  intros Ed Ho. unfold drop_tx, restore_deferred_staged, release_writer. rewrite Ed. destruct x as [w p [c1 c2 c3 c4 c5 c6 c7]]. simpl.
  destruct c7; simpl; by rewrite Ho.
Qed.

Lemma commit_served x B S t ops d : ready x B S -> is_u32 (S + 1) -> tx_good j t -> deferred_staged t = deferred_transaction (context x) ->
  Forall (op_valid j) ops -> agree (tx_view t B) (apply_ops (live x B) ops) -> base d = B -> trace d = [] -> reliable d = true ->
  exists res x' d', commit_journal (set_deferred (set_writer x true) None) t d = Some (res, x', d') /\ base d' = B /\
    served x B S (Committed res [ops]) x' (trace d') /\ (faults d = [] -> res = Ok tt).
Proof.
  intros [Hc Hd _ Hh Hp] HS Ht Ed Hops HV HB Htr Hrel. set (x1 := set_deferred (set_writer x true) None).
  destruct (commit_journal_ok j Hj x1 t d B S) as (res & x' & d' & E & B' & D' & C & F); try done.
  { exact (mounted_deferred (context x) None B S Hc). } { left. exact Hcs. }
  exists res, x', d'. split_and!; [done|done| |done]. split; [by apply Forall_singleton|]. split; [done|].
  destruct (batch_good j t Ht) as (Hm & Hv & Hf). exists (batch t), (the_plan j (context x1) B S (batch t)).
  pose proof (batch_spec t (tg_wf j t Ht) (proj1 (tg_deferred j t Ht))) as [_ V]. split_and!; try done.
  - replace (commit_plan (context x) (batch t)) with (commit_plan (context x1) (batch t)) by done.
    rewrite (commit_plan_exists j Hj _ B S); [done|exact (mounted_deferred (context x) None B S Hc)|done|done|done].
  - intros b Hb. rewrite V. cbn. by apply HV.
  - cbv zeta in C. destruct res as [[]|[e f]]; [|done]. destruct C as (T & P & M). rewrite P. done.
Qed.

Lemma release_drop x t : context (drop_tx (fst (release_writer x t)) (snd (release_writer x t))) = context (drop_tx x t) /\
  poisoned (drop_tx (fst (release_writer x t)) (snd (release_writer x t))) = poisoned (drop_tx x t).
Proof.
  unfold drop_tx, restore_deferred_staged, release_writer. destruct x as [w p c], t as [cr st [m|] pr ow]; destruct ow; done.
Qed.

(** Deferring: the batch in memory is the view of the transaction. *)
Lemma defer_served x B S t ops n d : ready x B S -> is_u32 (S + 1) -> tx_good j t -> deferred_staged t = deferred_transaction (context x) ->
  Forall (op_valid j) ops -> agree (tx_view t B) (apply_ops (live x B) ops) -> base d = B -> trace d = [] -> reliable d = true ->
  total_staged_len t <> 0 ->
  exists res x' d', defer_or_commit (set_deferred (set_writer x true) None) t n d = Some (res, x', d') /\ base d' = B /\
    served x B S (if has_pending_transaction x' then Deferred ops else Committed res [ops]) x' (trace d').
Proof.
  intros Hrd HS Ht Ed Hops HV HB Htr Hrel Hnz. pose proof Hrd as [Hc Hd _ Hh Hp]. unfold defer_or_commit.
  rewrite (proj2 (Z.eqb_neq _ _) Hnz). destruct (batch_good j t Ht) as (Hm & Hv & Hf). pose proof Hf as (needed & En & Hle).
  pose proof Ht as [Hw Hs [Hdw Hdv] Hcr _ Ho]. rewrite (batch_length t Hw Hdw) in En.
  cbn [context set_deferred set_writer superblock]. rewrite (mo_sb j _ B S Hc). cbn [features with_start].
  change (Some (Ok needed)) with (mret needed : res Z) in En. rewrite En, bind_ok.
  pose proof (jo_geo j Hj). unfold ring_len. cbn [first max_len with_start].
  rewrite (proj2 (Z.leb_le (first (j_sb j)) (max_len (j_sb j)))) by lia. rewrite bind_ok. cbn [mret res_ret].
  destruct (_ || _).
  - destruct (commit_served x B S t ops d Hrd HS Ht Ed Hops HV HB Htr Hrel) as (res & x' & d' & E & B' & Sv & _).
    exists res, x', d'. pose proof Sv as (_ & N & _). split_and!; [exact E|done|]. unfold has_pending_transaction. rewrite N. exact Sv.
  - destruct (batch_spec t Hw Hdw) as [W V]. eexists _, _, _. split; [reflexivity|]. split; [by simpl|].
    assert (Eq : forall c m, drop_tx (mk_core true false (mk_context (superblock c) (logical_blocks c) (journal_set c) (target_blocks c) (head c) (superblock_image c) (Some m)))
      (set_staged (absorb_deferred_staged t) bt_empty)
      = mk_core false false (mk_context (superblock c) (logical_blocks c) (journal_set c) (target_blocks c) (head c) (superblock_image c) (Some m))).
    { intros c m. unfold drop_tx, restore_deferred_staged, release_writer, absorb_deferred_staged. destruct t as [cr st [m'|] pr ow]; simpl in *; by rewrite Ho. }
    unfold set_deferred. cbn [writer poisoned context set_writer superblock logical_blocks journal_set target_blocks head superblock_image].
    rewrite Hp, Eq. cbn [has_pending_transaction context deferred_transaction]. split_and!.
    + unfold record. cbn [trace]. by rewrite Htr.
    + done.
    + split; cbn [context deferred_transaction poisoned]; [by apply mounted_deferred| |exact Hf|done|done]. split; [exact W|].
      apply Forall_forall. intros e He. rewrite Forall_forall in Hv. split; [by apply Hv|]. destruct Hm as [_ Hm]. rewrite Forall_forall in Hm. by apply Hm.
    + intros b Hb. unfold live. cbn [context deferred_transaction pend]. fold (batch t). rewrite V. by apply HV.
Qed.

Lemma finish_served x B S t ops fin d : ready x B S -> is_u32 (S + 1) -> tx_good j t -> deferred_staged t = deferred_transaction (context x) ->
  Forall (op_valid j) ops -> agree (tx_view t B) (apply_ops (live x B) ops) -> base d = B -> trace d = [] -> reliable d = true ->
  exists e x' d', finish_tx (set_deferred (set_writer x true) None) t ops fin d = Some (e, x', d') /\ base d' = B /\ served x B S e x' (trace d').
Proof.
  intros Hrd HS Ht Ed Hops HV HB Htr Hrel. destruct (drop_restores x t Ed (tg_owns j t Ht)) as [R1 R2]. rewrite (rd_alive _ _ _ Hrd) in R2.
  set (x1 := set_deferred (set_writer x true) None) in *. destruct (release_drop x1 t) as [Q1 Q2]. rewrite R1 in Q1. rewrite R2 in Q2.
  assert (Quiets : forall x', context x' = context x -> poisoned x' = false -> served x B S Quiet x' (trace d)) by done.
  destruct fin as [|n|]; cbn [finish_tx].
  - unfold commit, commit_empty. destruct (staged t) as [|e l] eqn:Es.
    + destruct (release_writer x1 t) as [x2 t2]. cbn [fst snd] in *. eexists _, _, _. split; [reflexivity|]. split; [done|]. by apply Quiets.
    + destruct (commit_served x B S t ops d Hrd HS Ht Ed Hops HV HB Htr Hrel) as (res & x' & d' & E & B' & Sv & _).
      fold x1 in E. rewrite E. by eexists _, _, _.
  - destruct (Z.eqb_spec (total_staged_len t) 0) as [Hz|Hz].
    + unfold defer_or_commit. rewrite Hz, Z.eqb_refl. destruct (release_writer x1 t) as [x2 t2]. cbn [fst snd] in *.
      eexists _, _, _. split; [reflexivity|]. split; [done|]. by apply Quiets.
    + destruct (defer_served x B S t ops n d Hrd HS Ht Ed Hops HV HB Htr Hrel Hz) as (res & x' & d' & E & B' & Sv).
      fold x1 in E. rewrite E. by eexists _, _, _.
  - eexists _, _, _. split; [reflexivity|]. split; [done|]. by apply Quiets.
Qed.

Lemma quiet_served x B S x' : ready x B S -> context x' = context x -> poisoned x' = poisoned x -> served x B S Quiet x' [].
Proof. intros [_ _ _ _ Hp] Ec Ep. split_and!; [done|done|congruence]. Qed.

Lemma start_request_ok x B S only credits : ready x B S -> 0 <= credits ->
  exists t x', start_request only x credits = Some (t, x') /\
    match t with
    | Some t => tx_good j t /\ deferred_staged t = deferred_transaction (context x) /\ staged t = [] /\ x' = set_deferred (set_writer x true) None
    | None => context x' = context x /\ poisoned x' = poisoned x
    end.
Proof.
  intros [Hc Hd _ _ _] Hcr. unfold start_request. destruct only.
  - destruct (start_if_deferred_ok j Hj x B S credits Hc Hd Hcr) as (res & x' & E & H). rewrite E.
    destruct res as [[t|]|e]; eexists _, _; (split; [reflexivity|]); [|done..]. by destruct H as (_ & H).
  - destruct (start_tx_ok j Hj x B S credits Hc Hd Hcr) as (res & x' & E & H). rewrite E.
    destruct res as [t|e]; eexists _, _; (split; [reflexivity|]); [|done]. by destruct H as (_ & H).
Qed.

Lemma from_deferred_good m : deferred_good j (Some m) -> fits_ring j (length m) -> tx_good j (from_deferred m) /\ batch (from_deferred m) = m.
Proof.
  intros [Hw Hv] (needed & En & Hle). assert (Ei : images (staged (from_deferred m)) = m).
  { unfold images, from_deferred. cbn [staged]. rewrite <- list_fmap_compose. rewrite <- (list_fmap_id m) at 2. apply list_fmap_ext.
    by intros i [k v] _. }
  assert (Hw' : bt_wf (staged (from_deferred m))) by (apply images_wf; by rewrite Ei). split; [|exact Ei]. split; try done.
  - by rewrite Ei.
  - unfold total_staged_len. cbn [deferred_staged from_deferred staged credits]. rewrite length_fmap. lia.
  - by exists needed.
Qed.

Lemma flush_served x B S d : ready x B S -> is_u32 (S + 1) -> base d = B -> trace d = [] -> reliable d = true ->
  exists e x' d', serve FlushDeferred x d = Some (e, x', d') /\ base d' = B /\ served x B S e x' (trace d').
Proof.
  intros Hrd HS HB Htr Hrel. pose proof Hrd as [Hc Hd Hf Hh Hp]. cbn [serve]. unfold flush_deferred_transaction. destruct (writer x) eqn:Ew.
  { eexists _, _, _. split; [reflexivity|]. rewrite Htr. split; [done|by apply quiet_served]. }
  cbn [context set_writer]. destruct (deferred_transaction (context x)) as [m|] eqn:Em.
  2:{ eexists _, _, _. split; [reflexivity|]. rewrite Htr. split; [done|by apply quiet_served]. }
  destruct (from_deferred_good m Hd Hf) as [Ht Eb]. set (x1 := set_deferred (set_writer x true) None).
  assert (Hc1 : mounted j (context x1) B S) by exact (mounted_deferred (context x) None B S Hc).
  destruct (commit_journal_ok j Hj x1 (from_deferred m) d B S) as (res & x' & d' & E & B' & D' & C & F); try done. { left. exact Hcs. }
  cbv zeta in C. rewrite Eb in C. destruct (batch_good j _ Ht) as (Hm & Hv & Hf'). rewrite Eb in Hm, Hv.
  assert (Sv : served x B S (Committed res []) x' (trace d')).
  { split; [constructor|]. split; [done|]. exists m, (the_plan j (context x1) B S m). split_and!; try done.
    - replace (commit_plan (context x) m) with (commit_plan (context x1) m) by done. by rewrite (commit_plan_exists j Hj _ B S).
    - intros b _. unfold live. by rewrite Em.
    - destruct res as [[]|[e f]]; [|done]. destruct C as (T & P & M). by rewrite P. }
  rewrite E. destruct res as [[]|e]; eexists _, _, _; (split; [reflexivity|]); done.
Qed.

(** Every request is served, and does what it says. *)
Lemma serve_ready q x B S fs : ready x B S -> is_u32 (S + 1) -> request_valid q ->
  exists e x' d', serve q x (mk_device B [] fs true) = Some (e, x', d') /\ base d' = B /\ served x B S e x' (trace d').
Proof.
  intros Hrd HS Hq. destruct q as [only credits ops fin|]; [|by apply flush_served]. destruct Hq as [Hcr Hops].
  destruct (start_request_ok x B S only credits Hrd Hcr) as (t & x1 & E & H). cbn [serve]. rewrite E. cbn [mbind option_bind].
  destruct t as [t|]; [|eexists _, _, _; split; [reflexivity|]; split; [done|]; destruct H; by apply quiet_served].
  destruct H as (Ht & Ed & Es & ->). set (d := mk_device B [] fs true).
  destruct (run_body_ok j Hj ops t d Ht Hops) as (res & d1 & Eb & (Sb & Str & Srel) & Hb); [apply Hrd|]. rewrite Eb. cbn [mbind option_bind].
  destruct res as [t1|e].
  - destruct Hb as (Ht1 & Ed1 & V). apply (finish_served x B S t1 ops fin d1); try done; [congruence|].
    intros b _. rewrite V. apply apply_ops_ext. intros b'. unfold tx_view. rewrite Ed, Es. done.
  - destruct (drop_restores x t Ed (tg_owns j t Ht)) as [R1 R2]. eexists _, _, _. split; [reflexivity|]. split; [done|]. rewrite Str.
    by apply quiet_served.
Qed.

(** A poisoned journal does nothing any more. *)
Lemma serve_poisoned q x B t fs : poisoned x = true -> deferred_transaction (context x) = None ->
  exists x' fs', serve q x (mk_device B t fs true) = Some (Quiet, x', mk_device B t fs' true) /\ context x' = context x /\ poisoned x' = true.
Proof.
  intros Hp Hd. destruct q as [only credits ops fin|]; cbn [serve].
  - unfold start_request, start_if_deferred, start_tx. rewrite Hp, orb_true_r. destruct only; by eexists _, _.
  - unfold flush_deferred_transaction. cbn [context set_writer]. rewrite Hd. destruct (writer x) eqn:Ew; by eexists _, _.
Qed.

(** *** Ledgers *)

Definition txs_valid (txs : list (list tx_op)) : Prop := Forall (Forall (op_valid j)) txs.
Definition ledger_valid (s : ledger) : Prop := txs_valid (durable s) /\ txs_valid (pending s).

Lemma disk_of_agree txs D D' : txs_valid txs -> agree D D' -> agree (disk_of D txs) (disk_of D' txs).
Proof. intros H. revert D D'. induction H as [|ops txs Hops _ IH]; intros D D' E; [done|]. cbn. by apply IH, apply_ops_agree. Qed.

Lemma disk_of_app D a b : disk_of D (a ++ b) = disk_of (disk_of D a) b.
Proof. apply foldl_app. Qed.

Lemma apply_ops_homes D ops : homes_ok j D -> Forall (op_valid j) ops -> homes_ok j (apply_ops D ops).
Proof.
  intros HD H. revert D HD. induction H as [|op ops Hop _ IH]; intros D HD; [done|]. cbn. apply IH. intros b Hb.
  destruct op as [home img|home f]; destruct Hop as [(_ & _ & Hh) Hi]; simpl; unfold upd; destruct (b =? home); [done|by apply HD|apply Hi; by apply HD|by apply HD].
Qed.

Lemma disk_of_homes D txs : homes_ok j D -> txs_valid txs -> homes_ok j (disk_of D txs).
Proof. intros HD H. revert D HD. induction H as [|ops txs Hops _ IH]; intros D HD; [done|]. cbn. by apply IH, apply_ops_homes. Qed.

Lemma write_down_valid s txs : ledger_valid s -> txs_valid txs -> ledger_valid (write_down s txs).
Proof. intros [H1 H2] H. split; [|constructor]. cbn. by repeat apply Forall_app_2. Qed.

Lemma forget_valid s : ledger_valid s -> ledger_valid (forget s).
Proof. intros [H1 _]. split; [done|constructor]. Qed.

(** *** Moments of a request *)

Lemma ready_idle x B S img : ready x B S -> (forall b, img b = B b) -> recoverable j (S + 1) img B.
Proof.
  intros [Hc _ _ _ _] E. exists S. split; [lia|]. left. split_and!; [|intros p Hp; unfold jb; rewrite E; by apply (mo_quiet j _ _ _ Hc)|done].
  exists 0. eapply sb_at_same; [apply E|apply Hc].
Qed.

Lemma crash_served x B S e x' t p img : ready x B S -> is_u32 (S + 1) -> served x B S e x' t -> p `prefix_of` t -> crash_image B p img ->
  recoverable j (S + 1) img B \/
  exists res txs, e = Committed res txs /\ txs_valid txs /\ recoverable j (S + 1) img (disk_of (live x B) txs).
Proof.
  intros Hrd HS Hsv Hp Hi. destruct e as [|ops|res txs].
  - destruct Hsv as [-> _]. apply prefix_nil_inv in Hp as ->. left. apply (ready_idle x); [done|]. by apply crash_nil.
  - destruct Hsv as [-> _]. left. apply (ready_idle x); [done|]. apply crash_nil. destruct p as [|y p]; [done|].
    pose proof (prefix_cons_inv_1 _ _ _ _ Hp) as ->. apply prefix_cons_inv_2, prefix_nil_inv in Hp as ->. by apply (crash_publish B [] []).
  - destruct Hsv as (Hv & _ & m & plan & Hm & _ & Epl & Eag & Hres).
    pose proof (rd_mounted _ _ _ Hrd) as Hc. assert (Hr : fits_reader j m) by (left; exact Hcs).
    assert (Hpre : p `prefix_of` commit_trace j (context x) B S m plan).
    { etrans; [exact Hp|]. destruct res as [[]|[e f]]; [by destruct Hres as [-> _]|]. destruct Hres as [_ Hst].
      by eapply stopped_prefix. }
    destruct (prefix_stopped j (context x) B S m plan p Hpre) as [f Hf].
    pose proof (stopped_outcome j Hj (context x) B S m plan Hc Hm Hr Epl HS f p img Hf Hi) as Ho.
    apply outcome_recoverable in Ho; try done.
    assert (K : recoverable j (S + 1) img (patched m B) -> recoverable j (S + 1) img (disk_of (live x B) txs))
      by (intros H; eapply recoverable_weaken; [reflexivity|exact Eag|exact H]).
    destruct f; [by left|destruct Ho as [Ho|Ho]; [by left|]..| |]; right; exists res, txs; auto.
Qed.

(** *** The invariant *)

Section invariant.
Context (D : disk) (HD : homes_ok j D).

Definition empty_ledger : ledger := mk_ledger [] [].

(** A disk after some labels. *)
Definition disk_good (n : Z) (ls : list label) (img : disk) : Prop :=
  exists s, kept empty_ledger ls s /\ ledger_valid s /\ pending s = [] /\ recoverable j n img (disk_of D (durable s)).

Definition sys_good (n : Z) (ls : list label) (st : sys) : Prop :=
  match st with
  | Up x B t =>
      if poisoned x then deferred_transaction (context x) = None /\ forall img, crash_image B t img -> disk_good n ls img
      else t = [] /\ exists s S, kept empty_ledger ls s /\ ledger_valid s /\ S <= n /\ ready x B S /\
        agree B (disk_of D (durable s)) /\ agree (live x B) (disk_of D (durable s ++ pending s))
  | Down img => disk_good n ls img
  end.

(** One more label for a disk. *)
Lemma disk_good_snoc n n' ls l img s s' : kept empty_ledger ls s -> promise s l s' -> ledger_valid s' -> pending s' = [] -> n <= n' ->
  recoverable j n img (disk_of D (durable s')) -> disk_good n' (ls ++ [l]) img.
Proof.
  intros Hk Hp Hv Hpd Hn HR. exists s'. split_and!; [by eapply kept_snoc|done|done|]. by eapply recoverable_weaken.
Qed.

Lemma recoverable_live n img x B s txs : ledger_valid s -> txs_valid txs -> agree (live x B) (disk_of D (durable s ++ pending s)) ->
  recoverable j n img (disk_of (live x B) txs) -> recoverable j n img (disk_of D (durable (write_down s txs))).
Proof.
  intros Hs Ht E HR. eapply recoverable_weaken; [reflexivity| |exact HR]. cbn. rewrite app_assoc, disk_of_app. by apply disk_of_agree.
Qed.

(** A power loss during a request. *)
Lemma power_good n ls x B S s e x' t p img : kept empty_ledger ls s -> ledger_valid s -> S <= n -> is_u32 (S + 1) -> ready x B S ->
  agree B (disk_of D (durable s)) -> agree (live x B) (disk_of D (durable s ++ pending s)) ->
  served x B S e x' t -> p `prefix_of` t -> crash_image B p img -> disk_good (n + 2) (ls ++ [PowerLoss e]) img.
Proof.
  intros Hk Hs Hn HS Hrd EB EL Hsv Hp Hi. destruct (crash_served x B S e x' t p img Hrd HS Hsv Hp Hi) as [HR|(res & txs & -> & Ht & HR)].
  - eapply (disk_good_snoc (S + 1) _ _ _ _ s (forget s)); [done|constructor|by apply forget_valid|done|lia|].
    eapply recoverable_weaken; [reflexivity|exact EB|exact HR].
  - eapply (disk_good_snoc (S + 1) _ _ _ _ s (write_down s txs)); [done|constructor|by apply write_down_valid|done|lia|].
    by eapply recoverable_live.
Qed.

(** A commit that failed on the way. *)
Lemma failed_good n ls x B S s e f txs x' t img : kept empty_ledger ls s -> ledger_valid s -> S <= n -> is_u32 (S + 1) -> ready x B S ->
  agree B (disk_of D (durable s)) -> agree (live x B) (disk_of D (durable s ++ pending s)) ->
  served x B S (Committed (Err (e, f)) txs) x' t -> crash_image B t img -> disk_good (n + 2) (ls ++ [Served (Committed (Err (e, f)) txs)]) img.
Proof.
  intros Hk Hs Hn HS Hrd EB EL (Hv & _ & m & plan & Hm & _ & Epl & Eag & _ & Hst) Hi.
  pose proof (rd_mounted _ _ _ Hrd) as Hc. assert (Hr : fits_reader j m) by (left; exact Hcs).
  pose proof (stopped_outcome j Hj (context x) B S m plan Hc Hm Hr Epl HS f t img Hst Hi) as Ho. apply outcome_recoverable in Ho; try done.
  assert (Lost : recoverable j (S + 1) img B -> promise s (Served (Committed (Err (e, f)) txs)) (forget s) ->
    disk_good (n + 2) (ls ++ [Served (Committed (Err (e, f)) txs)]) img).
  { intros HR HP. eapply (disk_good_snoc (S + 1)); [done|exact HP|by apply forget_valid|done|lia|].
    eapply recoverable_weaken; [reflexivity|exact EB|exact HR]. }
  assert (Kept : recoverable j (S + 1) img (patched m B) -> promise s (Served (Committed (Err (e, f)) txs)) (write_down s txs) ->
    disk_good (n + 2) (ls ++ [Served (Committed (Err (e, f)) txs)]) img).
  { intros HR HP. eapply (disk_good_snoc (S + 1)); [done|exact HP|by apply write_down_valid|done|lia|].
    eapply recoverable_live; [done|done|done|]. eapply recoverable_weaken; [reflexivity|exact Eag|exact HR]. }
  destruct f; [apply Lost; [done|constructor]|destruct Ho; [apply Lost|apply Kept]; [done|constructor|done|constructor]| |];
    apply Kept; done || constructor.
Qed.

(** A commit that succeeded. *)
Lemma committed_good n ls x B S s txs x' t : kept empty_ledger ls s -> ledger_valid s -> S <= n -> is_u32 (S + 1) -> ready x B S ->
  agree B (disk_of D (durable s)) -> agree (live x B) (disk_of D (durable s ++ pending s)) ->
  served x B S (Committed (Ok tt) txs) x' t ->
  sys_good (n + 2) (ls ++ [Served (Committed (Ok tt) txs)]) (let '(B', t') := settle B t in Up x' B' t').
Proof.
  intros Hk Hs Hn HS Hrd EB EL (Hv & Hnd & m & plan & Hm & _ & Epl & Eag & -> & Hp & Hmt).
  pose proof (rd_mounted _ _ _ Hrd) as Hc. assert (Hr : fits_reader j m) by (left; exact Hcs).
  pose proof (trace_finished j Hj (context x) B S m plan Hc Hm Hr Epl HS _ (content_crash_image B _)) as (_ & _ & _ & Hh).
  rewrite (trace_phases j (context x) B S m plan), !app_assoc, settle_flush, <- !app_assoc, <- trace_phases. cbn [sys_good]. rewrite Hp.
  set (B' := content B _) in *. split; [done|]. exists (write_down s txs), (S + 1).
  assert (E' : agree B' (disk_of D (durable (write_down s txs)))).
  { intros b Hb. rewrite Hh, Eag by done. cbn. rewrite app_assoc, disk_of_app. by apply disk_of_agree. }
  split_and!; [eapply kept_snoc; [done|constructor]|by apply write_down_valid|lia| |done|].
  - split; [done|by rewrite Hnd|by rewrite Hnd| |done]. intros b Hb. rewrite E' by done. apply disk_of_homes; [done| |done]. by apply write_down_valid.
  - unfold live. rewrite Hnd. cbn. rewrite app_nil_r. exact E'.
Qed.

Lemma ready_context x x' B S : context x' = context x -> poisoned x' = false -> ready x B S -> ready x' B S.
Proof. intros Ec Hp [H1 H2 H3 H4 _]. split; rewrite ?Ec; done. Qed.

Lemma serve_good n ls q fs x B t e x' d' : sys_good n ls (Up x B t) -> is_u32 (n + 2) -> request_valid q ->
  serve q x (mk_device B t fs true) = Some (e, x', d') -> sys_good (n + 2) (ls ++ [Served e]) (up x' d').
Proof.
  intros Hg Hn Hq E. unfold up. cbn [sys_good] in Hg. destruct (poisoned x) eqn:Hp.
  - destruct Hg as [Hnd Hg]. destruct (serve_poisoned q x B t fs Hp Hnd) as (x1 & fs1 & E1 & Ec & Hp1). rewrite E1 in E. injection E as <- <- <-.
    cbn [base trace]. pose proof (settle_crash B t) as Hse. destruct (settle B t) as [B' t']. cbn [sys_good]. rewrite Hp1, Ec. split; [done|].
    intros img Hi. apply Hse in Hi. destruct (Hg img Hi) as (s & Hk & Hv & Hpd & HR). eapply disk_good_snoc; [done|constructor|done|done| |done]. lia.
  - destruct Hg as (-> & s & S & Hk & Hv & HSn & Hrd & EB & EL).
    assert (HS : is_u32 (S + 1)).
    { pose proof (mo_at j _ _ _ (rd_mounted _ _ _ Hrd)) as (_ & _ & HS0 & _). unfold is_u32 in *. lia. }
    destruct (serve_ready q x B S fs Hrd HS Hq) as (e1 & x1 & d1 & E1 & Eb & Hsv). rewrite E1 in E. injection E as <- <- <-. rewrite Eb.
    destruct e1 as [|ops|[[]|[er f]] txs].
    + destruct Hsv as (-> & Ec & Hp1). change (settle B []) with (B, @nil dop). cbn [sys_good]. rewrite Hp1. split; [done|]. exists s, S.
      split_and!; [eapply kept_snoc; [done|constructor]|done|lia|by apply (ready_context x)|done|]. unfold live. by rewrite Ec.
    + destruct Hsv as (-> & Hops & Hrd1 & EL1). change (settle B [Publish]) with (B, @nil dop). cbn [sys_good]. rewrite (rd_alive _ _ _ Hrd1). split; [done|]. exists (mk_ledger (durable s) (pending s ++ [ops])), S.
      split_and!; [eapply kept_snoc; [done|constructor]| |lia|done|done|].
      * destruct Hv. split; [done|]. apply Forall_app_2; [done|by apply Forall_singleton].
      * intros b Hb. rewrite EL1 by done. cbn. rewrite app_assoc, disk_of_app. cbn. by apply apply_ops_agree.
    + by eapply committed_good.
    + pose proof (settle_crash B (trace d1)) as Hse. destruct (settle B (trace d1)) as [B' t'].
      pose proof Hsv as (_ & Hnd & m & plan & _ & _ & _ & _ & Hp1 & _). cbn [sys_good]. rewrite Hp1. split; [done|].
      intros img Hi. apply Hse in Hi. by eapply failed_good.
Qed.

Lemma mount_good n ls img fs res d' : disk_good n ls img -> is_u32 (n + 2) ->
  mount_journal (j_io j) true (mk_device img [] fs true) = Some (res, d') ->
  (forall x, res = Ok x -> sys_good (n + 2) (ls ++ [Mounts true]) (up x d')) /\
  (forall p img', p `prefix_of` trace d' -> crash_image img p img' -> disk_good (n + 2) (ls ++ [Mounts false]) img').
Proof.
  intros (s & Hk & Hv & Hpd & HR) Hn E. destruct (does_mount j Hj n img _ HR Hn) as (S & ws & HS & Dm & Hmt & Hws & Hcr & Hh).
  unfold mount_journal in E. cbn [reliable negb] in E. pose proof (jo_geo j Hj).
  pose proof (phys_lookup (j_io j) (j_sb j) (jo_geo j Hj) (jo_map j Hj) 0 ltac:(lia)) as E0. change (Z.to_nat 0) with 0%nat in E0. rewrite E0 in E.
  destruct (Dm (mk_device img [] fs true) eq_refl eq_refl) as (r1 & d1 & E1 & B1 & _ & C1 & _). rewrite E1 in E. injection E as <- <-.
  assert (Pre : trace d1 `prefix_of` ws) by (destruct C1 as [(_ & ->)|(e & p & _ & P & ->)]; done). split.
  - intros x ->. destruct C1 as [([= ->] & T1)|(e & p & [=] & _)]. unfold up. rewrite B1, T1. cbn [app].
    assert (Es : settle img ws = (content img ws, [])) by (destruct Hws as [-> |[ws' ->]]; [done|apply settle_flush]).
    rewrite Es. cbn [sys_good mounted_core poisoned]. split; [done|]. exists s, S.
    assert (EB : agree (content img ws) (disk_of D (durable s))) by exact Hh.
    split_and!; [eapply kept_snoc; [done|constructor]|done|lia| |done|].
    + split; [done|by split|done| |done]. intros b Hb. rewrite EB by done. by apply disk_of_homes; [|apply Hv|].
    + unfold live. cbn. by rewrite Hpd, app_nil_r.
  - intros p img' Hp Hi. eapply (disk_good_snoc (n + 2)); [done|constructor|done|done|lia|]. apply (Hcr p); [by etrans|done].
Qed.

Lemma step_good n ls st l st' : sys_good n ls st -> is_u32 (n + 2) -> step (j_io j) request_valid st l st' -> sys_good (n + 2) (ls ++ [l]) st'.
Proof.
  intros Hg Hn Hst. destruct Hst as [q fs x B t e x' d' Hq E|q fs x B t e x' d' p img Hq E Htp Hp Hi|fs img x d' E|fs img res d' p img' E Hp Hi].
  - by eapply serve_good.
  - cbn [sys_good] in Hg |- *. destruct (poisoned x) eqn:Hpo.
    + destruct Hg as [Hnd Hg]. destruct (serve_poisoned q x B t fs Hpo Hnd) as (x1 & fs1 & E1 & _). rewrite E1 in E. injection E as <- <- <-.
      cbn [trace] in Hp. assert (p = t) as ->.
      { destruct Htp as [k1 ->], Hp as [k2 H2]. rewrite <- app_assoc in H2. rewrite <- (app_nil_r t) in H2 at 1. apply app_inv_head in H2.
        symmetry in H2. apply app_eq_nil in H2 as [-> _]. by rewrite app_nil_r. }
      destruct (Hg img Hi) as (s & Hk & Hv & Hpd & HR). eapply disk_good_snoc; [done|constructor|by apply forget_valid|done| |exact HR]. lia.
    + destruct Hg as (-> & s & S & Hk & Hv & HSn & Hrd & EB & EL).
      assert (HS : is_u32 (S + 1)).
      { pose proof (mo_at j _ _ _ (rd_mounted _ _ _ Hrd)) as (_ & _ & HS0 & _). unfold is_u32 in *. lia. }
      destruct (serve_ready q x B S fs Hrd HS Hq) as (e1 & x1 & d1 & E1 & Eb & Hsv). rewrite E1 in E. injection E as <- <- <-.
      by eapply power_good.
  - by apply (mount_good n ls img fs (Ok x) d').
  - by eapply (mount_good n ls img fs res d').
Qed.

Lemma run_good n st0 ls st : sys_good n [] st0 -> is_u32 (n + 2 * Z.of_nat (length ls)) -> is_u32 n -> run (j_io j) request_valid st0 ls st ->
  sys_good (n + 2 * Z.of_nat (length ls)) ls st.
Proof.
  intros Hg Hn Hn0 Hrun. induction Hrun as [st|st0 ls st1 l st2 Hrun IH Hst]; [by rewrite Z.add_0_r|].
  rewrite length_app in *. cbn [length] in *. replace (n + 2 * Z.of_nat (length ls + 1)) with (n + 2 * Z.of_nat (length ls) + 2) in * by lia.
  eapply step_good; [apply IH; [done|unfold is_u32 in *; lia]|done|done].
Qed.
End invariant.
End history.

(** ** Theorems *)

(** A mount without device errors. *)
Lemma mount_succeeds j n img home : journal_ok j -> recoverable j n img home -> is_u32 (n + 2) ->
  exists x d', mount_journal (j_io j) true (mk_device img [] [] true) = Some (Ok x, d') /\ agree j (content img (trace d')) home.
Proof.
  intros Hj HR Hn. destruct (does_mount j Hj n img home HR Hn) as (S & ws & _ & Dm & _ & _ & _ & Hh).
  destruct (Dm (mk_device img [] [] true) eq_refl eq_refl) as (r1 & d1 & E1 & _ & _ & _ & F1). destruct (F1 eq_refl) as (-> & T1 & _).
  unfold mount_journal. cbn [reliable negb]. pose proof (jo_geo j Hj).
  pose proof (phys_lookup (j_io j) (j_sb j) (jo_geo j Hj) (jo_map j Hj) 0 ltac:(lia)) as E0. change (Z.to_nat 0) with 0%nat in E0. rewrite E0, E1.
  eexists _, _. split; [reflexivity|]. rewrite T1. exact Hh.
Qed.

(** C0: the journal keeps its promise.  Take a disk with an empty journal and any history of mounts,
    transactions, deferred batches, failing device operations and power losses at any moment.  Then a
    running system shows the durable transactions on its disk and those with the deferred ones in
    memory, and a disk can be mounted and holds the durable transactions, for a ledger that [promise]
    allows: a successful commit is durable, one interrupted is there as a whole or not at all, and
    the errors of a commit say which. *)
Theorem journal_history j D S ls st : journal_ok j -> checksum (features (j_sb j)) = ChecksumNone ->
  idle j D S D -> homes_ok j D -> run (j_io j) (request_valid j) (Down D) ls st -> is_u32 (S + 2 * Z.of_nat (length ls) + 2) ->
  match st with
  | Up x B t => poisoned x = false ->
      exists s, kept (mk_ledger [] []) ls s /\ agree j B (disk_of D (durable s)) /\
        agree j (live x B) (disk_of D (durable s ++ pending s))
  | Down img =>
      exists s x d', kept (mk_ledger [] []) ls s /\
        mount_journal (j_io j) true (mk_device img [] [] true) = Some (Ok x, d') /\ agree j (content img (trace d')) (disk_of D (durable s))
  end.
Proof.
  intros Hj Hcs Hi HD Hrun Hn. assert (HS : is_u32 S) by (by destruct Hi as ((st0 & _ & _ & H & _) & _)).
  assert (Hg : sys_good j D S [] (Down D)).
  { exists (mk_ledger [] []). split_and!; [apply kept_nil|split; constructor|done|]. exists S. split; [lia|by left]. }
  pose proof (run_good j Hj Hcs D HD S _ ls st Hg ltac:(unfold is_u32 in *; lia) HS Hrun) as G. destruct st as [x B t|img]; cbn [sys_good] in G.
  - intros Hp. rewrite Hp in G. destruct G as (_ & s & S' & Hk & _ & _ & _ & EB & EL). by exists s.
  - destruct G as (s & Hk & _ & _ & HR). destruct (mount_succeeds j _ img _ Hj HR Hn) as (x & d' & E & A). by exists s, x, d'.
Qed.

(** C0: a commit is atomic over a power loss at any of its moments and over any failing device
    operations: mounting the disk afterwards succeeds and shows all blocks of the batch or none,
    all if the commit had returned successfully, none if its error is BeforeCommit.  With checksums
    this needs a batch of one block. *)
Theorem commit_crash_atomic j x t B S fs res x' d' p img : journal_ok j -> mounted j (context x) B S ->
  deferred_transaction (context x) = None -> tx_good j t -> fits_reader j (batch t) -> is_u32 (S + 3) ->
  commit_journal x t (mk_device B [] fs true) = Some (res, x', d') -> p `prefix_of` trace d' -> crash_image B p img ->
  exists x'' d'', mount_journal (j_io j) true (mk_device img [] [] true) = Some (Ok x'', d'') /\
    let after := content img (trace d'') in
    (agree j after B \/ agree j after (patched (batch t) B)) /\
    (res = Ok tt -> p = trace d' -> agree j after (patched (batch t) B)) /\
    (forall e, res = Err (e, BeforeCommit) -> agree j after B).
Proof.
  intros Hj Hc Hnd Ht Hr HS E Hp Hi. assert (HS1 : is_u32 (S + 1)).
  { destruct (mo_at j _ _ _ Hc) as (_ & _ & H & _). unfold is_u32 in *. lia. }
  destruct (commit_journal_ok j Hj x t (mk_device B [] fs true) B S Hc Hnd Ht Hr eq_refl eq_refl eq_refl HS1) as (res1 & x1 & d1 & E1 & _ & _ & C & _).
  rewrite E1 in E. injection E as -> -> ->. destruct (batch_good j t Ht) as (Hm & Hv & Hf).
  pose proof (commit_plan_exists j Hj (context x) B S (batch t) Hc Hm Hv Hf) as Epl. cbv zeta in C.
  set (plan := the_plan j (context x) B S (batch t)) in *.
  assert (exists home, recoverable j (S + 1) img home /\ (home = B \/ home = patched (batch t) B) /\
    (res = Ok tt -> p = trace d' -> home = patched (batch t) B) /\ (forall e, res = Err (e, BeforeCommit) -> home = B)) as (home & HR & H1 & H2 & H3).
  { pose proof (stopped_outcome j Hj (context x) B S (batch t) plan Hc Hm Hr Epl HS1) as Out.
    assert (Pre : p `prefix_of` commit_trace j (context x) B S (batch t) plan).
    { etrans; [exact Hp|]. destruct res as [[]|[e f]]; [by destruct C as [-> _]|]. destruct C as [_ C]. by eapply stopped_prefix. }
    destruct (prefix_stopped j (context x) B S (batch t) plan p Pre) as [f Hf']. specialize (Out f p img Hf' Hi) as Ho.
    apply outcome_recoverable in Ho; try done.
    assert (Ei : exists home, recoverable j (S + 1) img home /\ (home = B \/ home = patched (batch t) B)).
    { destruct f; [exists B|destruct Ho; [exists B|exists (patched (batch t) B)]|exists (patched (batch t) B)..]; auto. }
    destruct res as [[]|[e f']].
    - destruct (decide (p = trace d')) as [->|N].
      + exists (patched (batch t) B). destruct C as [C _]. rewrite C in Hi. split_and!; [|by right|done|done].
        destruct (trace_finished j Hj (context x) B S (batch t) plan Hc Hm Hr Epl HS1 img Hi) as [_ HI]. exists (S + 1). split; [lia|by left].
      + destruct Ei as (home & HR & H1). by exists home.
    - destruct C as [_ C]. destruct f'; [|destruct Ei as (home & HR & H1); by exists home..].
      exists B. split_and!; [|by left|done|done]. assert (Hst : stopped j (context x) B S (batch t) plan BeforeCommit p) by (exact (transitivity Hp C)).
      pose proof (stopped_outcome j Hj (context x) B S (batch t) plan Hc Hm Hr Epl HS1 BeforeCommit p img Hst Hi) as HB.
      exists S. split; [lia|by left]. }
  destruct (mount_succeeds j (S + 1) img home Hj HR) as (x'' & d'' & E2 & A); [by replace (S + 1 + 2) with (S + 3) by lia|].
  exists x'', d''. split; [done|]. cbv zeta. split_and!.
  - by destruct H1 as [<-|<-]; [left|right].
  - intros X Y. by rewrite <- (H2 X Y).
  - intros e X. by rewrite <- (H3 e X).
Qed.

Definition pending_blocks (x : JournalCore) : Z :=
  match deferred_transaction (context x) with Some m => Z.of_nat (length m) | None => 0 end.

(** C0: a transaction with enough credits for its blocks, for which the ring has room beside the
    deferred batch, commits on a device that does not fail, and the disk then holds its operations
    on what the system showed before. *)
Theorem transaction_succeeds j x B S credits ops : journal_ok j -> checksum (features (j_sb j)) = ChecksumNone -> ready j x B S ->
  is_u32 (S + 1) -> writer x = false -> Forall (op_valid j) ops -> ops <> [] -> 0 < credits ->
  pending_blocks x + credits <= usize_max -> reservation_fits (context x) (pending_blocks x + credits) = Some (Ok true) ->
  Z.of_nat (size (list_to_set (op_home <$> ops) : gset Z)) <= credits ->
  exists x' d', serve (Transact false credits ops Commits) x (mk_device B [] [] true) = Some (Committed (Ok tt) [ops], x', d') /\
    agree j (content B (trace d')) (apply_ops (live x B) ops).
Proof.
  intros Hj Hcs Hrd HS Hw Hops Hne Hcr Hfit Hres Hsz. pose proof Hrd as [Hc Hd _ Hh Hp]. set (d := mk_device B [] [] true).
  set (t := tx_new (pending_blocks x + credits) false (deferred_transaction (context x))). set (x1 := set_deferred (set_writer x true) None).
  assert (Ea : checked_add (pending_blocks x) credits = Some (pending_blocks x + credits)) by (by apply checked_add_Some).
  assert (Es : start_tx x credits = Some (Ok t, x1)).
  { unfold start_tx. rewrite (proj2 (Z.eqb_neq credits 0)), Hp, Hw by lia. cbn [orb context set_writer]. fold (pending_blocks x).
    rewrite Ea, Hres. done. }
  assert (Ht : tx_good j t) by (eapply (started_good j Hj x B S); [done|done| |exact Ea|done]; lia).
  destruct (run_body_fits j Hj ops t d Ht Hops Hh eq_refl) as (t' & d1 & Eb & Hf1 & Hk).
  { etrans; [apply inj_le, subseteq_size; reflexivity|]. rewrite size_union_alt, Nat2Z.inj_add. cbn [JournalTx.credits t tx_new].
    assert (Z.of_nat (size (tx_keys t ∖ list_to_set (op_home <$> ops))) <= pending_blocks x); [|lia].
    etrans; [apply inj_le, (subseteq_size _ (tx_keys t)); set_solver|]. rewrite <- total_staged_size by (apply Ht || apply Ht).
    unfold total_staged_len, t, pending_blocks. cbn. destruct (deferred_transaction (context x)); cbn; lia. }
  destruct (run_body_ok j Hj ops t d Ht Hops Hh) as (res & d1' & Eb' & (Sb & Str & Srel) & H1). rewrite Eb in Eb'. injection Eb' as <- <-.
  destruct H1 as (Ht' & Ed' & V). cbn [serve start_request]. rewrite Es. cbn [mbind option_bind]. rewrite Eb. cbn [mbind option_bind finish_tx].
  assert (HV : agree j (tx_view t' B) (apply_ops (live x B) ops)) by (intros b _; apply V).
  destruct (commit_served j Hj Hcs x B S t' ops d1 Hrd HS Ht' Ed' Hops HV Sb Str Srel) as (res & x' & d' & Ec & _ & Sv & F).
  rewrite (F Hf1) in Ec, Sv. unfold commit. destruct (staged t') as [|e l]; [by destruct (Hk Hne)|]. fold x1 in Ec. rewrite Ec.
  exists x', d'. split; [done|]. destruct Sv as (_ & _ & m & plan & Hm & _ & Epl & Eag & -> & _ & _).
  assert (Hr : fits_reader j m) by (left; exact Hcs).
  destruct (trace_finished j Hj (context x) B S m plan Hc Hm Hr Epl HS _ (content_crash_image B _)) as (_ & _ & _ & Hfin).
  intros b Hb. rewrite Hfin by done. by apply Eag.
Qed.
